(* ===== verification/_CoqProject ===== *)
-Q . S2P
Prelude.v
Utf.v
Normalize.v
Order.v
Compose.v
NormApi.v
Idn.v
PunycodeSpec.v
PathCch.v
PathCchSpec.v
Path.v
PathMatch.v
PathSpec.v
PathCanon.v
RunOnce.v
RunOnceSpec.v
Fls.v
FlsSpec.v
Avl.v
AvlSpec.v
AvlInsert.v
AvlTable.v
Srw.v
SrwWord.v
SrwQueue.v
SrwInv.v
SrwSteps.v
SrwAcquire.v
SrwRelease.v
SrwWake.v
SrwFree.v
SrwSpec.v
Sha1.v
ShaInfo.v
Sha1Spec.v
Sha1Hash.v
Sha1Main.v
Url.v
UrlSpec.v
UrlEscapeSpec.v
UrlMain.v
UrlPath.v
UrlParts.v
UrlPartsSpec.v
UrlCanon.v
UrlCanonSpec.v
UrlDots.v
UrlCombine.v
UrlCombineSpec.v
Barrier.v
BarrierSpec.v
WaitAddr.v
WaitAddrSpec.v
WaitAddrInv.v
CondVar.v
CondVarList.v
CondVarInv.v
CondVarSteps.v
CondVarOwner.v
CondVarSpec.v
Threadpool.v
TpInv.v
TpUpdate.v
TpSteps.v
TpRelease.v
TpSubmit.v
TpAlloc.v
TpWorker.v
TpTimers.v
TpGroups.v
TpCalls.v
TpSafe.v
TpEffects.v
TpEvents.v
TpDrain.v
TpSpec.v
IoQueue.v
WaitQueue.v
WaitQueueInv.v
WaitQueueSpec.v
