(* ===== verification/Prelude.v ===== *)
(** * One-Core-API: verified models of the Rtl and kernelbase extensions

    One-Core-API extends Windows XP and Server 2003 with functions of later
    systems.  Its own logic is in oca/extensions: ntext extends ntdll (text
    conversion and normalisation, generic tables, locks, one-time
    initialisation, fiber local storage, the thread pool, SHA-1), kernelex extends kernel32 and
    kernelbase (paths and URLs), and advapiex extends advapi32 (a second
    SHA-1).  This library models these parts function by function and proves
    what they promise their callers.

    ** Files, and the code they model

    - [Prelude]: outcomes of C code, arrays, machine integers, status codes,
      tactics and the lemmas that all files share.
    - ntext/rtl/locale.c: [Utf] (RtlUTF8ToUnicodeN, RtlUnicodeToUTF8N),
      [Normalize] (tables, decomposition, composition, check of characters,
      RtlNormalizeString, RtlIsNormalizedString), [Order] and [Compose]
      (canonical order and composition against the Unicode definitions),
      [NormApi] (the entry points), [Idn] (nameprep and Punycode, RtlIdnToAscii
      and its relatives) with [PunycodeSpec].  Idn calls the normalisation of
      Normalize.
    - kernelex/path.c: [PathCch] with [PathCchSpec] (the PathCch functions),
      [Path] with [PathMatch], [PathSpec] and [PathCanon] (the shlwapi path
      functions), [Url] with [UrlSpec], [UrlEscapeSpec], [UrlMain] and
      [UrlPath] (schemes, escaping, file URLs, and the string functions of
      pathmisc.c), [UrlParts] with [UrlPartsSpec] (parts of a URL, tests,
      comparison, HashData),
      [UrlCanon] with [UrlCanonSpec] and [UrlDots] (UrlCanonicalize),
      [UrlCombine] with [UrlCombineSpec] (UrlCombine, UrlApplyScheme).
    - ntext/rtl/synch.c: [RunOnce] with [RunOnceSpec] (one-time
      initialisation), [Srw] with [SrwWord], [SrwQueue], [SrwInv], [SrwSteps],
      [SrwAcquire], [SrwRelease], [SrwWake], [SrwFree] and [SrwSpec] (slim
      reader/writer locks),
      [WaitAddr] with [WaitAddrSpec] and [WaitAddrInv] (RtlWaitOnAddress and
      the wake functions), [CondVar] with [CondVarList], [CondVarInv],
      [CondVarSteps], [CondVarOwner] and [CondVarSpec] (condition variables).
    - kernelex/synch.c: [Barrier] with [BarrierSpec] (synchronisation
      barriers).
    - ntext/rtl/threadpool.c: [Threadpool] (pools, workers, work objects,
      timers, simple callbacks, cleanup groups and callback instances as one
      concurrent program) with [TpInv] and [TpUpdate] (the invariant and how a
      step changes its sums), [TpSteps], [TpRelease], [TpSubmit], [TpAlloc],
      [TpWorker], [TpTimers], [TpGroups] and [TpCalls] (every function keeps
      it), [TpSafe], [TpEffects] (what a step does to callbacks and timers),
      [TpEvents] (what starts and what ends a wait), [TpDrain] (the timer
      thread) and [TpSpec]; [IoQueue] (the completions of I/O objects);
      [WaitQueue] with [WaitQueueInv] and [WaitQueueSpec] (wait objects and
      their threads).
    - ntext/rtl/thread.c: [Fls] with [FlsSpec] (fiber local storage).
    - ntext/rtl/avl.c: [Avl] with [AvlSpec], [AvlInsert] and [AvlTable]
      (balanced generic tables).
    - ntext/crypt.c, advapiex/sha1.c, ntext/rtl/sid.c: [Sha1], [ShaInfo] with
      [Sha1Spec], [Sha1Hash] and [Sha1Main] (SHA-1 twice, and the identifier of
      a service).

    ** Conventions

    An array is a [list Z]; a pointer into it is an offset; a null pointer is
    [None].  A function returns an [outcome]: [Ok], [Fault] for an access
    outside an object, the use of an uninitialised value or a [memcpy] between
    overlapping ranges, [NoFuel] when a loop runs out of fuel.  A theorem that states [Ok] therefore shows memory
    safety and termination.  Loops that are not structural take as fuel the
    length of the array they walk plus one (each iteration advances in it) or
    a bound that the lemma on the loop names; no theorem assumes that the fuel
    suffices.  Machine integers are reduced modulo their width where the code
    can wrap ([u8], [u16], [u32], [i32], [i64]); a count of characters of an
    object in memory is a natural.  A DWORD that the caller passes as the size
    of a buffer is assumed not to exceed the buffer.  [isalnum], [isxdigit],
    [tolower] and the case-insensitive comparisons are those of the C locale.

    The concurrent components are step relations: a state holds the shared
    word, the wait nodes and the program counter of every thread, a step is one
    atomic access of one thread, or what it does under a lock (WaitAddr,
    CondVar: the links that the lock protects); where a thread that holds a
    lock sets an event and the woken thread frees its block without the lock
    (RtlpWakeByAddress), the accesses in front of the event, the event and what
    follows are separate steps.  A keyed event is a rendezvous between one
    waiter and one waker.  Invariants are proved by induction on reachable
    states, and the abstract lock or table is refined step by step.  In the
    thread pool a step is the body of a critical section, an interlocked
    operation or an access without a lock; threads have stacks, because
    callbacks call back; memory is never reused, so that the use of a freed
    object shows; sleeping threads may wake up at any time; counters are
    unbounded.  Its client has a contract, written as a test in each call
    (pointers that were not released, no release of an object or group that
    another call still uses, no release of a pool with live objects, no use of
    a member of a cleanup group after TpReleaseCleanupGroupMembers, not even by
    a callback of the member that still runs, which the tests of ntdll do;
    wait and I/O objects are not allocated through these calls); a call
    that breaks it is [Misuse], and the theorems say nothing about it.

    ** Parameters

    Code outside the repository is an argument: the system call that maps the
    normalisation data (NtGetNlsSectionPtr), the heap (whether and with which
    contents an allocation succeeds), LocalAlloc, CharNextA, CharPrevA,
    IsDBCSLeadByte, the conversions between code pages (MultiByteToWideChar,
    WideCharToMultiByte, RtlUnicodeToMultiByteN), lstrcmp, environment
    variables and file attributes, the callback of RtlRunOnceExecuteOnce, the
    compare and allocate routines of a generic table, RtlUpcaseUnicodeString,
    RtlDowncaseUnicodeChar, ChrCmpIW, the URL prefixes of the registry.
    The hypotheses on them state documented behaviour (a block has the size
    asked for, a comparison is a total order, UTF-8 needs at most four bytes).

    ** What the theorems show

    - Text: the UTF-8 decoder accepts exactly well-formed UTF-8 and both
      conversions are inverse to each other; canonical order and composition
      are those of the Unicode standard, for characters outside the blocks
      whose entries the code reads wrongly and texts without a [memcpy]
      between overlapping ranges; normalisation returns their result
      or the size it needs; Punycode decoding inverts encoding.
    - Paths and URLs: canonicalisation, matching, common prefix and removal of
      file names stay inside their buffers and compute what their names say;
      escaping a URL segment leaves only safe characters and is inverted by
      unescaping; a file name survives the way through a file URL; the parts
      of a URL come back out of it;
      UrlCanonicalize is total and removes dot segments like a stack of
      segments (it keeps a "." at the end and a ".." at the root); UrlCombine resolves a relative URL against its base;
      UrlApplyScheme chooses the prefix that its flags ask for.
    - Locks: a run-once block runs its function once and no waiter is
      forgotten; the reader/writer lock refines an abstract lock, never touches
      a dead wait node and loses no wake-up;
      waiting on addresses implements one queue of threads per bucket, with
      threads that return and free their blocks while a wake call goes on, and
      a wake call takes the thread that has waited longest; the list of a
      condition variable is safe, keeps every sleeping thread and is woken in
      order; a barrier separates its phases and lets its threads go on.
    - Thread pool: no interleaving uses freed memory or fails an assertion and
      no object is leaked; callbacks are conserved, start in the order of
      priorities and, while one is pending, a worker is there to run it; a
      wait returns only after the callbacks it waits for; the lists of timers
      are sorted, the scan of the timer thread ends and the next wake-up is
      not past the end of any window; array_reserve does not wrap around in 32 bits; the
      buckets of wait objects are consistent and a wait that is armed once
      runs one callback at most.  The last sections of [TpSpec], [IoQueue] and
      [WaitQueueSpec] show the defects that were found: a deadlock, a wake-up
      that is missing, completions that are stored twice and outside of the
      array, a cancelled wait that still runs its callback.
    - Data structures: the AVL table refines a sorted list, and a search in a
      table filled by any insertions takes a logarithmic number of
      comparisons; fiber local storage hands out fresh indices and releases them.
    - SHA-1: both implementations compute FIPS 180-4.
    - Errors: the theorems of kind error exhibit inputs on which the code
      leaves a buffer, breaks exclusion or counts wrongly.

    ** Not modelled

    In the thread pool: the references of wait and I/O objects, which work
    like those of the other objects, callbacks in the wait thread (no caller
    asks for them), RaceDll, and functions of an older timer queue that nothing
    calls.  Activation contexts, the resource loader, process, registry and
    file functions are calls into the kernel with little state of
    their own; locale and number formatting depend on tables of the system;
    the splay-tree half of avl.c calls RtlSplay of the system; PathFileExists
    and PathSearchAndQualify ask the file system; the wrappers,
    DirectX and ReactOS trees are vendored or generated. *)
From stdpp Require Export base tactics list option numbers sorting relations.
From Stdlib Require Export ZArith Lia Bool.

#[global] Open Scope Z_scope.

(** ** Outcomes of C code

    [Ok a] is a normal return.  [Fault] is undefined behaviour of the C
    program: an access outside the object a pointer points into, or the use
    of an uninitialised variable.  [NoFuel] is the exhaustion of the fuel of
    a loop whose recursion is not structural; a theorem that a function
    returns [Ok] therefore covers memory safety and termination at once. *)
Inductive outcome (A : Type) : Type :=
| Ok (a : A)
| Fault
| NoFuel.
Arguments Ok {A} a.
Arguments Fault {A}.
Arguments NoFuel {A}.

#[global] Instance outcome_ret : MRet outcome := fun A => @Ok A.
#[global] Instance outcome_bind : MBind outcome := fun A B f m =>
  match m with Ok a => f a | Fault => Fault | NoFuel => NoFuel end.

(** Arrays.  A pointer into an array is the array with an offset. *)
Definition rd (b : list Z) (i : nat) : outcome Z :=
  match b !! i with Some v => Ok v | None => Fault end.

Definition wr (b : list Z) (i : nat) (v : Z) : outcome (list Z) :=
  if decide (i < length b)%nat then Ok (<[i := v]> b) else Fault.

(** [memcpy]/[memmove] of [v] to offset [i]: the source has been read into
    [v] before the first write, so overlapping ranges behave as [memmove]. *)
Definition wr_list (b : list Z) (i : nat) (v : list Z) : outcome (list Z) :=
  if decide (i + length v <= length b)%nat
  then Ok (take i b ++ v ++ drop (i + length v) b) else Fault.

Definition rd_list (b : list Z) (i n : nat) : outcome (list Z) :=
  if decide (i + n <= length b)%nat then Ok (take n (drop i b)) else Fault.

(** [wcslen( b + off )]: a fault when no terminator follows. *)
Fixpoint wcslen_list (l : list Z) : outcome nat :=
  match l with
  | [] => Fault
  | c :: l => if c =? 0 then Ok 0%nat else n ← wcslen_list l; Ok (S n)
  end.

Definition wcslen (b : list Z) (off : nat) : outcome nat := wcslen_list (drop off b).

(** ** Machine integers *)
Definition u8 (z : Z) : Z := z mod 2 ^ 8.
Definition u16 (z : Z) : Z := z mod 2 ^ 16.
Definition u32 (z : Z) : Z := z mod 2 ^ 32.
Definition i32 (z : Z) : Z := (z + 2 ^ 31) mod 2 ^ 32 - 2 ^ 31.

(** ** NTSTATUS codes (sdk/include/psdk/ntstatus.h) *)
Definition STATUS_SUCCESS := 0x00000000.
Definition STATUS_PENDING := 0x00000103.
Definition STATUS_SOME_NOT_MAPPED := 0x00000107.
Definition STATUS_UNSUCCESSFUL := 0xC0000001.
Definition STATUS_INVALID_PARAMETER := 0xC000000D.
Definition STATUS_NO_MEMORY := 0xC0000017.
Definition STATUS_BUFFER_TOO_SMALL := 0xC0000023.
Definition STATUS_OBJECT_NAME_NOT_FOUND := 0xC0000034.
Definition STATUS_REVISION_MISMATCH := 0xC0000059.
Definition STATUS_INVALID_PARAMETER_4 := 0xC00000F2.
Definition STATUS_INVALID_PARAMETER_5 := 0xC00000F3.
Definition STATUS_INVALID_IDN_NORMALIZATION := 0xC0000716.
Definition STATUS_NO_UNICODE_TRANSLATION := 0xC0000717.

(** ** Automation *)

(** Rewriting of bind chains whose first action is known. *)
Create HintDb outcome discriminated.

Lemma bind_Ok_inv {A B} (m : outcome A) (f : A -> outcome B) b :
  m ≫= f = Ok b -> exists a, m = Ok a /\ f a = Ok b.
Proof. destruct m; simpl; eauto; discriminate. Qed.

Lemma bind_ok {A B} (f : A -> outcome B) a : Ok a ≫= f = f a.
Proof. done. Qed.

Lemma bind_Ok_intro {A B} (m : outcome A) (f : A -> outcome B) a b :
  m = Ok a -> f a = Ok b -> m ≫= f = Ok b.
Proof. by intros ->. Qed.

Lemma rd_Ok b i v : rd b i = Ok v <-> b !! i = Some v.
Proof. unfold rd. destruct (b !! i); split; congruence. Qed.

Lemma rd_lt b i : (i < length b)%nat -> exists v, rd b i = Ok v.
Proof.
  intros [v Hv]%lookup_lt_is_Some_2. exists v. by apply rd_Ok.
Qed.

Lemma rd_ge b i : (length b <= i)%nat -> rd b i = Fault.
Proof. intros. unfold rd. by rewrite lookup_ge_None_2. Qed.

Lemma rd_app_l b1 b2 i : (i < length b1)%nat -> rd (b1 ++ b2) i = rd b1 i.
Proof. intros. unfold rd. by rewrite lookup_app_l. Qed.

Lemma rd_app_r b1 b2 i :
  (length b1 <= i)%nat -> rd (b1 ++ b2) i = rd b2 (i - length b1).
Proof. intros. unfold rd. by rewrite lookup_app_r. Qed.

Lemma rd_middle b1 v b2 i : i = length b1 -> rd (b1 ++ v :: b2) i = Ok v.
Proof. intros ->. apply rd_Ok. by apply list_lookup_middle. Qed.

Lemma wr_lt b i v : (i < length b)%nat -> wr b i v = Ok (<[i := v]> b).
Proof. intros. unfold wr. by rewrite decide_True. Qed.

Lemma wr_ge b i v : (length b <= i)%nat -> wr b i v = Fault.
Proof. intros. unfold wr. by rewrite decide_False by lia. Qed.

Lemma wr_Ok b i v b' : wr b i v = Ok b' -> (i < length b)%nat /\ b' = <[i := v]> b.
Proof. unfold wr. case_decide; [|discriminate]. by intros [= <-]. Qed.

Lemma wr_app b1 w b2 i v :
  i = length b1 -> wr (b1 ++ w :: b2) i v = Ok (b1 ++ v :: b2).
Proof.
  intros ->. rewrite wr_lt by (rewrite length_app; simpl; lia).
  f_equal. by rewrite insert_app_r_alt, Nat.sub_diag by lia.
Qed.

Lemma wr_list_Ok b i v :
  (i + length v <= length b)%nat ->
  wr_list b i v = Ok (take i b ++ v ++ drop (i + length v) b).
Proof. intros. unfold wr_list. by rewrite decide_True. Qed.

Lemma rd_list_Ok b i n :
  (i + n <= length b)%nat -> rd_list b i n = Ok (take n (drop i b)).
Proof. intros. unfold rd_list. by rewrite decide_True. Qed.

Lemma rd_list_app b1 v b2 i n :
  i = length b1 -> n = length v -> rd_list (b1 ++ v ++ b2) i n = Ok v.
Proof.
  intros -> ->. rewrite rd_list_Ok by (rewrite !length_app; lia).
  by rewrite drop_app_length, take_app_length.
Qed.

Lemma wr_list_app b1 w b2 i v :
  i = length b1 -> length w = length v ->
  wr_list (b1 ++ w ++ b2) i v = Ok (b1 ++ v ++ b2).
Proof.
  intros -> Hl. rewrite wr_list_Ok by (rewrite !length_app; lia).
  rewrite take_app_length, <- Hl, drop_app_add, drop_app_length. done.
Qed.

Lemma wr_list_tail b1 b2 i v :
  i = length b1 -> (length v <= length b2)%nat ->
  wr_list (b1 ++ b2) i v = Ok (b1 ++ v ++ drop (length v) b2).
Proof.
  intros -> Hl. rewrite <- (take_drop (length v) b2) at 1.
  apply wr_list_app; [done|]. rewrite length_take. lia.
Qed.

(** The exchange of two adjacent blocks through a temporary copy. *)
Lemma wr_list_exchange b1 u v b2 :
  (b ← wr_list (b1 ++ u ++ v ++ b2) (length b1) v; wr_list b (length b1 + length v) u)
  = Ok (b1 ++ v ++ u ++ b2).
Proof.
  rewrite (app_assoc u), <- (take_drop (length v) (u ++ v)), <- app_assoc.
  rewrite wr_list_app by (rewrite ?length_take, ?length_app; lia). rewrite bind_ok.
  rewrite (app_assoc b1), wr_list_app; rewrite ?length_app, ?length_drop, ?length_app; try lia.
  by rewrite <- app_assoc.
Qed.

#[export] Hint Resolve bind_Ok_intro : outcome.

(** Inversion of a chain of binds that returned. *)
Ltac inv_bind :=
  repeat match goal with
  | H : _ ≫= _ = Ok _ |- _ =>
      let a := fresh "a" in let Ha := fresh "Ha" in
      apply bind_Ok_inv in H as (a & Ha & H)
  | H : Ok _ = Ok _ |- _ => injection H as H
  | H : mret _ = Ok _ |- _ => injection H as H
  end.

(** Case analysis on the tests of a branch, as propositions on [Z]. *)
Ltac zcase :=
  match goal with
  | |- context [?x =? ?y] => destruct (Z.eqb_spec x y)
  | |- context [?x <? ?y] => destruct (Z.ltb_spec x y)
  | |- context [?x <=? ?y] => destruct (Z.leb_spec x y)
  end.

(** Linear arithmetic with division and remainder by constants. *)
Ltac dlia := Z.to_euclidean_division_equations; lia.

(** [Forall] of a literal list, each element by arithmetic. *)
Ltac forall_lia := repeat apply Forall_cons_2; try apply Forall_nil_2; cbv beta; dlia.

(** ** Machine integers in range *)
Lemma u16_small z : 0 <= z < 2 ^ 16 -> u16 z = z.
Proof. apply Z.mod_small. Qed.

Lemma u32_small z : 0 <= z < 2 ^ 32 -> u32 z = z.
Proof. apply Z.mod_small. Qed.

Lemma i32_small z : - 2 ^ 31 <= z < 2 ^ 31 -> i32 z = z.
Proof. intros. unfold i32. rewrite Z.mod_small; lia. Qed.

(** ** Bit operations as arithmetic *)
Lemma lor_disjoint_add a b : Z.land a b = 0 -> Z.lor a b = a + b.
Proof. intros H. by rewrite Z.add_nocarry_lxor, Z.lxor_lor. Qed.

Lemma land_shiftl_low x y n :
  0 <= n -> 0 <= y < 2 ^ n -> Z.land (Z.shiftl x n) y = 0.
Proof.
  intros Hn Hy. apply Z.bits_inj'; intros i Hi.
  rewrite Z.land_spec, Z.bits_0, Z.shiftl_spec by lia.
  destruct (Z.lt_ge_cases i n).
  - rewrite (Z.testbit_neg_r x) by lia. done.
  - replace y with (y mod 2 ^ n) by (apply Z.mod_small; lia).
    rewrite Z.mod_pow2_bits_high by lia. apply andb_false_r.
Qed.

(** [x << n | y] appends the [n] low bits [y]. *)
Lemma lor_shiftl_add x y n :
  0 <= n -> 0 <= y < 2 ^ n -> Z.lor (Z.shiftl x n) y = x * 2 ^ n + y.
Proof.
  intros. rewrite lor_disjoint_add by (by apply land_shiftl_low).
  by rewrite Z.shiftl_mul_pow2.
Qed.

Lemma land_ones_mod x n : 0 <= n -> Z.land x (2 ^ n - 1) = x mod 2 ^ n.
Proof. intros. by rewrite <- Z.land_ones, Z.ones_equiv, Z.sub_1_r. Qed.

(** [c | y] for a constant [c] that is a multiple of [2 ^ n]. *)
Lemma lor_const_add k y n :
  0 <= n -> 0 <= y < 2 ^ n -> Z.lor (k * 2 ^ n) y = k * 2 ^ n + y.
Proof.
  intros. rewrite <- Z.shiftl_mul_pow2 at 1 by lia. by apply lor_shiftl_add.
Qed.

Lemma lxor_const_sub k y n :
  0 <= n -> 0 <= y < 2 ^ n -> Z.lxor (k * 2 ^ n + y) (k * 2 ^ n) = y.
Proof.
  intros. rewrite <- (lor_const_add k y n) by lia.
  rewrite <- Z.lxor_lor by (rewrite <- Z.shiftl_mul_pow2 by lia; by apply land_shiftl_low).
  rewrite Z.lxor_comm, <- Z.lxor_assoc, Z.lxor_nilpotent. apply Z.lxor_0_l.
Qed.

(** ** Lists *)
Lemma drop_lookup_cons {A} (l : list A) i x :
  l !! i = Some x -> drop i l = x :: drop (S i) l.
Proof. intros. by apply drop_S. Qed.

Lemma Forall_lookup_rd (P : Z -> Prop) b i v :
  Forall P b -> rd b i = Ok v -> P v.
Proof. intros HF Hr%rd_Ok. by eapply Forall_lookup_1. Qed.

(** Exhaustive checking of a decidable property on a range. *)
Lemma seqZ_forallb (P : Z -> bool) lo n :
  forallb P (seqZ lo n) = true -> forall z, lo <= z < lo + n -> P z = true.
Proof.
  intros H z Hz. apply (proj1 (forallb_forall _ _) H).
  by apply list_elem_of_In, elem_of_seqZ.
Qed.
