(* ===== verification/Utf.v ===== *)
(** * UTF-8 and UTF-16 conversions of ntdll (oca/extensions/ntext/rtl/locale.c)

    Section [Definitions] of each module translates the C functions; the
    encodings [utf8] and [utf16] of a list of Unicode scalar values are the
    reference the conversions are proved against. *)
From S2P Require Import Prelude.

(** ** UTF-16 code units *)
Module Utf16.

Definition IS_HIGH_SURROGATE (ch : Z) : bool := (0xd800 <=? ch) && (ch <=? 0xdbff).
Definition IS_LOW_SURROGATE (ch : Z) : bool := (0xdc00 <=? ch) && (ch <=? 0xdfff).

(** [get_utf16( src + off, srclen, &ch )]: [None] is the return value 0, in
    which case [*ch] is left unset; [Some (n, c)] is [n] with [*ch = c]. *)
Definition get_utf16 (src : list Z) (off srclen : nat) : outcome (option (nat * Z)) :=
  c0 ← rd src off;
  if IS_HIGH_SURROGATE c0 then
    if (srclen <=? 1)%nat then Ok None
    else
      c1 ← rd src (off + 1);
      if negb (IS_LOW_SURROGATE c1) then Ok None
      else Ok (Some (2%nat, 0x10000 + Z.shiftl (Z.land c0 0x3ff) 10 + Z.land c1 0x3ff))
  else if IS_LOW_SURROGATE c0 then Ok None
  else Ok (Some (1%nat, c0)).

(** [put_utf16( dst + off, ch )] *)
Definition put_utf16 (dst : list Z) (off : nat) (ch : Z) : outcome (list Z) :=
  if 0x10000 <=? ch then
    let ch := ch - 0x10000 in
    dst ← wr dst off (u16 (Z.lor 0xd800 (Z.shiftr ch 10)));
    wr dst (off + 1) (u16 (Z.lor 0xdc00 (Z.land ch 0x3ff)))
  else wr dst off (u16 ch).

(** *** Reference encoding *)

(** Unicode scalar values: code points that are not surrogates. *)
Definition scalar (c : Z) : Prop := 0 <= c < 0xd800 \/ 0xe000 <= c < 0x110000.

Definition utf16_char (c : Z) : list Z :=
  if c <? 0x10000 then [c]
  else [0xd800 + (c - 0x10000) / 0x400; 0xdc00 + (c - 0x10000) mod 0x400].

Definition utf16 (cs : list Z) : list Z := cs ≫= utf16_char.
#[global] Arguments utf16 : simpl never.

#[global] Instance scalar_dec c : Decision (scalar c).
Proof. unfold scalar. apply _. Defined.

(** *** Lemmas *)
Lemma high_surrogate_spec c :
  IS_HIGH_SURROGATE c = true <-> 0xd800 <= c <= 0xdbff.
Proof. unfold IS_HIGH_SURROGATE. lia. Qed.

Lemma low_surrogate_spec c :
  IS_LOW_SURROGATE c = true <-> 0xdc00 <= c <= 0xdfff.
Proof. unfold IS_LOW_SURROGATE. lia. Qed.

Lemma scalar_not_surrogate c :
  scalar c -> c < 0x10000 -> IS_HIGH_SURROGATE c = false /\ IS_LOW_SURROGATE c = false.
Proof. unfold scalar, IS_HIGH_SURROGATE, IS_LOW_SURROGATE. lia. Qed.

Lemma utf16_app cs1 cs2 : utf16 (cs1 ++ cs2) = utf16 cs1 ++ utf16 cs2.
Proof. apply bind_app. Qed.

Lemma utf16_cons c cs : utf16 (c :: cs) = utf16_char c ++ utf16 cs.
Proof. done. Qed.

Lemma utf16_char_length c :
  length (utf16_char c) = if c <? 0x10000 then 1%nat else 2%nat.
Proof. unfold utf16_char. by case (c <? 0x10000). Qed.

Lemma utf16_char_range c :
  scalar c -> Forall (fun u => 0 <= u < 0x10000) (utf16_char c).
Proof.
  unfold scalar, utf16_char. intros H. zcase; forall_lia.
Qed.

(** The surrogate pair arithmetic of the code is that of the encoding. *)
Lemma high_unit r :
  0 <= r < 0x100000 -> Z.lor 0xd800 (Z.shiftr r 10) = 0xd800 + r / 0x400.
Proof.
  intros. rewrite Z.shiftr_div_pow2 by lia.
  change 0xd800 with (54 * 2 ^ 10). rewrite lor_const_add; [done|lia|].
  change (2 ^ 10) with 0x400. dlia.
Qed.

Lemma low_unit r : Z.lor 0xdc00 (Z.land r 0x3ff) = 0xdc00 + r mod 0x400.
Proof.
  change 0x3ff with (2 ^ 10 - 1). rewrite land_ones_mod by lia.
  change 0xdc00 with (55 * 2 ^ 10). rewrite lor_const_add; [done|lia|].
  change (2 ^ 10) with 0x400. dlia.
Qed.

Lemma pair_value h l :
  0xd800 <= h <= 0xdbff -> 0xdc00 <= l <= 0xdfff ->
  0x10000 + Z.shiftl (Z.land h 0x3ff) 10 + Z.land l 0x3ff
  = 0x10000 + (h - 0xd800) * 0x400 + (l - 0xdc00).
Proof.
  intros. change 0x3ff with (2 ^ 10 - 1). rewrite !land_ones_mod by lia.
  rewrite Z.shiftl_mul_pow2 by lia. change (2 ^ 10) with 0x400.
  replace (h mod 1024) with (h - 0xd800) by dlia.
  replace (l mod 1024) with (l - 0xdc00) by dlia. lia.
Qed.

Lemma utf16_char_bmp c : c < 0x10000 -> utf16_char c = [c].
Proof. intros. unfold utf16_char. by rewrite (proj2 (Z.ltb_lt _ _)). Qed.

Lemma utf16_char_pair c :
  0x10000 <= c ->
  utf16_char c = [0xd800 + (c - 0x10000) / 0x400; 0xdc00 + (c - 0x10000) mod 0x400].
Proof. intros. unfold utf16_char. by rewrite (proj2 (Z.ltb_ge _ _)). Qed.

(** Reading one encoded character at the head of the remaining text. *)
Lemma get_utf16_encoded pre c rest n :
  scalar c -> (length (utf16_char c) <= n)%nat ->
  get_utf16 (pre ++ utf16_char c ++ rest) (length pre) n
  = Ok (Some (length (utf16_char c), c)).
Proof.
  intros Hc Hn. unfold get_utf16. destruct (Z.ltb_spec c 0x10000).
  - rewrite utf16_char_bmp in * by done. cbn [app]. rewrite (rd_middle pre _ _ (length pre)) by done.
    rewrite bind_ok. by destruct (scalar_not_surrogate c) as [-> ->].
  - rewrite utf16_char_pair in * by done.
    assert (0x10000 <= c < 0x110000) by (unfold scalar in Hc; lia).
    simpl in Hn. cbn [app]. rewrite (rd_middle pre _ _ (length pre)) by done.
    rewrite bind_ok, (proj2 (high_surrogate_spec _)) by dlia.
    rewrite (proj2 (Nat.leb_gt _ _)) by lia.
    rewrite rd_app_r by lia.
    replace (length pre + 1 - length pre)%nat with 1%nat by lia.
    unfold rd at 1. simpl.
    rewrite (proj2 (low_surrogate_spec _)) by dlia. simpl.
    rewrite pair_value by dlia. repeat f_equal. dlia.
Qed.

(** A 16-bit code unit. *)
Definition wchar (u : Z) : Prop := 0 <= u < 0x10000.

(** The function returns for every non-empty range of its buffer. *)
Lemma get_utf16_total s off n :
  (0 < n)%nat -> (off + n <= length s)%nat -> exists r, get_utf16 s off n = Ok r.
Proof.
  intros Hn Hl. unfold get_utf16. destruct (rd_lt s off) as [c0 ->]; [lia|].
  rewrite bind_ok. destruct (IS_HIGH_SURROGATE c0).
  - destruct (Nat.leb_spec n 1); [eauto|].
    destruct (rd_lt s (off + 1)) as [c1 ->]; [lia|]. rewrite bind_ok.
    destruct (IS_LOW_SURROGATE c1); eauto.
  - destruct (IS_LOW_SURROGATE c0); eauto.
Qed.

(** What it reads is the encoding of the scalar value it returns. *)
Lemma get_utf16_inv s off n k c :
  Forall wchar s -> get_utf16 s off n = Ok (Some (k, c)) ->
  scalar c /\ k = length (utf16_char c) /\ take k (drop off s) = utf16_char c.
Proof.
  intros HF. unfold get_utf16. destruct (rd s off) as [c0| |] eqn:E0; try done.
  rewrite bind_ok. pose proof (Forall_lookup_rd _ _ _ _ HF E0) as H0. unfold wchar in H0.
  apply rd_Ok in E0. destruct (IS_HIGH_SURROGATE c0) eqn:Eh.
  - apply high_surrogate_spec in Eh. destruct (n <=? 1)%nat; [done|].
    destruct (rd s (off + 1)) as [c1| |] eqn:E1; try done. rewrite bind_ok.
    apply rd_Ok in E1. rewrite Nat.add_1_r in E1.
    destruct (IS_LOW_SURROGATE c1) eqn:El; [|done].
    apply low_surrogate_spec in El. cbn [negb]. rewrite pair_value by done.
    intros [= <- <-]. rewrite utf16_char_pair by lia. split_and!.
    + unfold scalar. lia.
    + done.
    + rewrite (drop_S _ _ _ E0), (drop_S _ _ _ E1). cbn. repeat f_equal; dlia.
  - destruct (IS_LOW_SURROGATE c0) eqn:El; [done|]. intros [= <- <-].
    unfold IS_HIGH_SURROGATE, IS_LOW_SURROGATE in *.
    rewrite utf16_char_bmp by lia. split_and!.
    + unfold scalar. lia.
    + done.
    + by rewrite (drop_S _ _ _ E0).
Qed.

Lemma utf16_char_length_pos c : (0 < length (utf16_char c) <= 2)%nat.
Proof. rewrite utf16_char_length. destruct (c <? 0x10000); lia. Qed.

Lemma get_utf16_len s off n k c :
  (0 < n)%nat -> get_utf16 s off n = Ok (Some (k, c)) -> (0 < k <= n)%nat.
Proof.
  unfold get_utf16. intros Hn. destruct (rd s off) as [c0| |]; try done. rewrite bind_ok.
  destruct (IS_HIGH_SURROGATE c0).
  - destruct (Nat.leb_spec n 1); [done|]. destruct (rd s (off + 1)); try done.
    rewrite bind_ok. destruct (negb _); [done|]. intros [= <- <-]. lia.
  - destruct (IS_LOW_SURROGATE c0); [done|]. intros [= <- <-]. lia.
Qed.

End Utf16.

(** ** UTF-8 *)
Module Utf8.
Import Utf16.

Definition utf8_length : list Z :=
  replicate 66 0 ++ replicate 30 1 ++ replicate 16 2 ++ replicate 5 3 ++ replicate 11 0.

Definition utf8_mask : list Z := [0x7f; 0x1f; 0x0f; 0x07].

(** The value [~0] of an invalid sequence. *)
Definition invalid : Z := 0xffffffff.

(** [src[i] ^ 0x80] stored in an [unsigned char]. *)
Definition xor80 (b : Z) : Z := u8 (Z.lxor b 0x80).

(** The three cases of the switch, each falling through to the next; [fin]
    is [end], [str] the position [*str]. *)
Definition decode_case1 (src : list Z) (fin str : nat) (res : Z) : outcome (Z * nat) :=
  b ← rd src (fin - 1);
  let ch := xor80 b in
  if 0x40 <=? ch then Ok (invalid, str) else
  let res := Z.lor (Z.shiftl res 6) ch in
  let str := S str in
  if res <? 0x80 then Ok (invalid, str) else Ok (res, str).

Definition decode_case2 (src : list Z) (fin str : nat) (res : Z) : outcome (Z * nat) :=
  b ← rd src (fin - 2);
  let ch := xor80 b in
  if 0x40 <=? ch then Ok (invalid, str) else
  let res := Z.lor (Z.shiftl res 6) ch in
  if Z.shiftr 0x110000 6 <=? res then Ok (invalid, str) else
  let str := S str in
  if res <? 0x20 then Ok (invalid, str) else
  if (Z.shiftr 0xd800 6 <=? res) && (res <=? Z.shiftr 0xdfff 6) then Ok (invalid, str)
  else decode_case1 src fin str res.

Definition decode_case3 (src : list Z) (fin str : nat) (res : Z) : outcome (Z * nat) :=
  b ← rd src (fin - 3);
  let ch := xor80 b in
  if 0x40 <=? ch then Ok (invalid, str) else
  let res := Z.lor (Z.shiftl res 6) ch in
  let str := S str in
  if res <? 0x10 then Ok (invalid, str)
  else decode_case2 src fin str res.

(** [decode_utf8_char( ch, &str, strend )] for a lead byte [ch >= 0x80]. *)
Definition decode_utf8_char (ch : Z) (src : list Z) (str strend : nat) : outcome (Z * nat) :=
  len ← rd utf8_length (Z.to_nat (ch - 0x80));
  mask ← rd utf8_mask (Z.to_nat len);
  let res := Z.land ch mask in
  let fin := (str + Z.to_nat len)%nat in
  if (strend <? fin)%nat then Ok (invalid, fin)
  else if len =? 3 then decode_case3 src fin str res
  else if len =? 2 then decode_case2 src fin str res
  else if len =? 1 then decode_case1 src fin str res
  else Ok (invalid, str).

(** A call: the status, the value stored in [*reslen], if any, and the
    elements stored at [dst], in order. *)
Record conv_result := ConvResult {
  status : Z;
  reslen : option Z;
  written : list Z;
}.

(** The loop of the call with [dst == NULL]. *)
Fixpoint utf8_count (fuel : nat) (src : list Z) (pos srcend : nat) (len st : Z)
    : outcome (Z * Z) :=
  match fuel with
  | O => NoFuel
  | S fuel =>
    if (pos <? srcend)%nat then
      ch ← rd src pos;
      let pos := S pos in
      if ch <? 0x80 then utf8_count fuel src pos srcend (len + 1) st
      else
        '(res, pos) ← decode_utf8_char ch src pos srcend;
        if 0x10ffff <? res
        then utf8_count fuel src pos srcend (len + 1) STATUS_SOME_NOT_MAPPED
        else if 0xffff <? res then utf8_count fuel src pos srcend (len + 2) st
        else utf8_count fuel src pos srcend (len + 1) st
    else Ok (len, st)
  end.

(** The conversion loop: [out] is what has been stored at [dst], whose
    capacity is [dstlen] elements. *)
Fixpoint utf8_loop (fuel : nat) (src : list Z) (pos srcend dstlen : nat)
    (out : list Z) (st : Z) : outcome (nat * list Z * Z) :=
  match fuel with
  | O => NoFuel
  | S fuel =>
    if ((length out <? dstlen) && (pos <? srcend))%nat then
      ch ← rd src pos;
      let pos := S pos in
      if ch <? 0x80 then utf8_loop fuel src pos srcend dstlen (out ++ [ch]) st
      else
        '(res, pos) ← decode_utf8_char ch src pos srcend;
        if res <=? 0xffff then utf8_loop fuel src pos srcend dstlen (out ++ [res]) st
        else if res <=? 0x10ffff then
          let res := res - 0x10000 in
          let out := out ++ [Z.lor 0xd800 (Z.shiftr res 10)] in
          if (length out =? dstlen)%nat then Ok (pos, out, st)
          else utf8_loop fuel src pos srcend dstlen
                 (out ++ [Z.lor 0xdc00 (Z.land res 0x3ff)]) st
        else utf8_loop fuel src pos srcend dstlen (out ++ [0xfffd]) STATUS_SOME_NOT_MAPPED
    else Ok (pos, out, st)
  end.

(** [RtlUTF8ToUnicodeN( dst, dstlen, reslen, src, srclen )]; [has_dst] and
    [has_reslen] tell the pointers from [NULL], [src] is [None] for [NULL]. *)
Definition RtlUTF8ToUnicodeN (has_dst : bool) (dstlen : Z) (has_reslen : bool)
    (src : option (list Z)) (srclen : nat) : outcome conv_result :=
  match src with
  | None => Ok (ConvResult STATUS_INVALID_PARAMETER_4 None [])
  | Some src =>
    if negb has_reslen then Ok (ConvResult STATUS_INVALID_PARAMETER None [])
    else if negb has_dst then
      '(len, st) ← utf8_count (S srclen) src 0 srclen 0 STATUS_SUCCESS;
      Ok (ConvResult st (Some (u32 (len * 2))) [])
    else
      let dstlen := Z.to_nat (dstlen / 2) in
      '(pos, out, st) ← utf8_loop (S srclen) src 0 srclen dstlen [] STATUS_SUCCESS;
      let st := if (pos <? srclen)%nat then STATUS_BUFFER_TOO_SMALL else st in
      Ok (ConvResult st (Some (u32 (Z.of_nat (length out) * 2))) out)
  end.

(** The size query of [RtlUnicodeToUTF8N]; [srclen] code units remain. *)
Fixpoint utf16_count (fuel : nat) (src : list Z) (pos srclen : nat) (len st : Z)
    : outcome (Z * Z) :=
  match fuel with
  | O => NoFuel
  | S fuel =>
    if (srclen =? 0)%nat then Ok (len, st)
    else
      ch ← rd src pos;
      if ch <? 0x80 then utf16_count fuel src (S pos) (srclen - 1) (len + 1) st
      else if ch <? 0x800 then utf16_count fuel src (S pos) (srclen - 1) (len + 2) st
      else
        r ← get_utf16 src pos srclen;
        let '(val, st) := match r with
                          | Some (_, c) => (c, st)
                          | None => (0xfffd, STATUS_SOME_NOT_MAPPED)
                          end in
        if val <? 0x10000 then utf16_count fuel src (S pos) (srclen - 1) (len + 3) st
        else utf16_count fuel src (S (S pos)) (srclen - 2) (len + 4) st
  end.

(** The conversion loop; the result is the number of code units left, what
    was stored at [dst] and the status. *)
Fixpoint utf16_loop (fuel : nat) (src : list Z) (pos srclen dstlen : nat)
    (out : list Z) (st : Z) : outcome (nat * list Z * Z) :=
  match fuel with
  | O => NoFuel
  | S fuel =>
    if (srclen =? 0)%nat then Ok (srclen, out, st)
    else
      ch ← rd src pos;
      if ch <? 0x80 then
        if (dstlen <? length out + 1)%nat then Ok (srclen, out, st)
        else utf16_loop fuel src (S pos) (srclen - 1) dstlen (out ++ [ch]) st
      else if ch <? 0x800 then
        if (dstlen <? length out + 2)%nat then Ok (srclen, out, st)
        else
          let b1 := Z.lor 0x80 (Z.land ch 0x3f) in
          let ch := Z.shiftr ch 6 in
          let b0 := Z.lor 0xc0 ch in
          utf16_loop fuel src (S pos) (srclen - 1) dstlen (out ++ [b0; b1]) st
      else
        r ← get_utf16 src pos srclen;
        let '(val, st) := match r with
                          | Some (_, c) => (c, st)
                          | None => (0xfffd, STATUS_SOME_NOT_MAPPED)
                          end in
        if val <? 0x10000 then
          if (dstlen <? length out + 3)%nat then Ok (srclen, out, st)
          else
            let b2 := Z.lor 0x80 (Z.land val 0x3f) in
            let val := Z.shiftr val 6 in
            let b1 := Z.lor 0x80 (Z.land val 0x3f) in
            let val := Z.shiftr val 6 in
            let b0 := Z.lor 0xe0 val in
            utf16_loop fuel src (S pos) (srclen - 1) dstlen (out ++ [b0; b1; b2]) st
        else
          if (dstlen <? length out + 4)%nat then Ok (srclen, out, st)
          else
            let b3 := Z.lor 0x80 (Z.land val 0x3f) in
            let val := Z.shiftr val 6 in
            let b2 := Z.lor 0x80 (Z.land val 0x3f) in
            let val := Z.shiftr val 6 in
            let b1 := Z.lor 0x80 (Z.land val 0x3f) in
            let val := Z.shiftr val 6 in
            let b0 := Z.lor 0xf0 val in
            utf16_loop fuel src (S (S pos)) (srclen - 2) dstlen (out ++ [b0; b1; b2; b3]) st
  end.

(** [RtlUnicodeToUTF8N( dst, dstlen, reslen, src, srclen )]; [srclen] is in
    bytes, [src] the array of [srclen / 2] code units. *)
Definition RtlUnicodeToUTF8N (has_dst : bool) (dstlen : nat) (has_reslen : bool)
    (src : option (list Z)) (srclen : Z) : outcome conv_result :=
  match src with
  | None => Ok (ConvResult STATUS_INVALID_PARAMETER_4 None [])
  | Some src =>
    if negb has_reslen then Ok (ConvResult STATUS_INVALID_PARAMETER None [])
    else if has_dst && Z.odd srclen
    then Ok (ConvResult STATUS_INVALID_PARAMETER_5 None [])
    else
      let srclen := Z.to_nat (srclen / 2) in
      if negb has_dst then
        '(len, st) ← utf16_count (S srclen) src 0 srclen 0 STATUS_SUCCESS;
        Ok (ConvResult st (Some (u32 len)) [])
      else
        '(remaining, out, st) ← utf16_loop (S srclen) src 0 srclen dstlen [] STATUS_SUCCESS;
        let st := if (remaining =? 0)%nat then st else STATUS_BUFFER_TOO_SMALL in
        Ok (ConvResult st (Some (Z.of_nat (length out))) out)
  end.

(** *** Reference encoding *)
Definition utf8_char (c : Z) : list Z :=
  if c <? 0x80 then [c]
  else if c <? 0x800 then [0xc0 + c / 64; 0x80 + c mod 64]
  else if c <? 0x10000 then [0xe0 + c / 4096; 0x80 + c / 64 mod 64; 0x80 + c mod 64]
  else [0xf0 + c / 262144; 0x80 + c / 4096 mod 64; 0x80 + c / 64 mod 64; 0x80 + c mod 64].

Definition utf8 (cs : list Z) : list Z := cs ≫= utf8_char.
#[global] Arguments utf8 : simpl never.

Definition byte (b : Z) : Prop := 0 <= b < 0x100.

(** *** Bytes *)
Lemma xor80_spec b :
  byte b -> (xor80 b < 0x40 -> 0x80 <= b < 0xc0 /\ xor80 b = b - 0x80) /\
            (0x80 <= b < 0xc0 -> xor80 b = b - 0x80) /\ 0 <= xor80 b.
Proof.
  intros Hb.
  pose proof (seqZ_forallb (fun b => implb (xor80 b <? 0x40) ((0x80 <=? b) && (b <? 0xc0))
     && implb ((0x80 <=? b) && (b <? 0xc0)) (xor80 b =? b - 0x80) && (0 <=? xor80 b))
     0 256 eq_refl b Hb) as H. cbv beta in H.
  apply andb_prop in H as [H H3]. apply andb_prop in H as [H1 H2].
  destruct (Z.ltb_spec (xor80 b) 0x40); simpl in H1; lia.
Qed.

(** The table of sequence lengths as ranges of the lead byte. *)
Definition lead_len (ch : Z) : Z :=
  if ch <? 0xc2 then 0 else if ch <? 0xe0 then 1 else if ch <? 0xf0 then 2
  else if ch <? 0xf5 then 3 else 0.

Lemma utf8_length_spec ch :
  0x80 <= ch < 0x100 -> rd utf8_length (Z.to_nat (ch - 0x80)) = Ok (lead_len ch).
Proof.
  intros Hch.
  pose proof (seqZ_forallb (fun ch => bool_decide (utf8_length !! Z.to_nat (ch - 0x80) = Some (lead_len ch)))
     0x80 128 eq_refl ch ltac:(lia)) as H.
  apply bool_decide_eq_true in H. by apply rd_Ok.
Qed.

Lemma xor80_cont y : 0 <= y < 64 -> xor80 (0x80 + y) = y.
Proof. intros. destruct (xor80_spec (0x80 + y)) as (_ & H1 & _); unfold byte; lia. Qed.

Lemma append6 r y : 0 <= y < 64 -> Z.lor (Z.shiftl r 6) y = r * 64 + y.
Proof. intros. by rewrite lor_shiftl_add by lia. Qed.

(** *** Decoding well-formed sequences *)
Lemma decode_case1_ok src fin str r y :
  rd src (fin - 1) = Ok (0x80 + y) -> 0 <= y < 64 -> 0x80 <= r * 64 + y ->
  decode_case1 src fin str r = Ok (r * 64 + y, S str).
Proof.
  intros Hr Hy Hv. unfold decode_case1. rewrite Hr, bind_ok. cbv zeta.
  rewrite xor80_cont, append6 by done.
  rewrite (proj2 (Z.leb_gt _ _)), (proj2 (Z.ltb_ge _ _)) by lia. done.
Qed.

Lemma decode_case2_ok src fin str r y :
  rd src (fin - 2) = Ok (0x80 + y) -> 0 <= y < 64 -> 0x20 <= r * 64 + y < 0x4400 ->
  ~ (0x360 <= r * 64 + y < 0x380) ->
  decode_case2 src fin str r = decode_case1 src fin (S str) (r * 64 + y).
Proof.
  intros Hr Hy Hv Hs. unfold decode_case2. rewrite Hr, bind_ok. cbv zeta.
  rewrite xor80_cont, append6 by done.
  change (Z.shiftr 0x110000 6) with 0x4400. change (Z.shiftr 0xd800 6) with 0x360.
  change (Z.shiftr 0xdfff 6) with 0x37f.
  rewrite (proj2 (Z.leb_gt 0x40 _)), (proj2 (Z.leb_gt 0x4400 _)), (proj2 (Z.ltb_ge _ 0x20)) by lia.
  by destruct (Z.leb_spec 0x360 (r * 64 + y)), (Z.leb_spec (r * 64 + y) 0x37f); simpl; try lia.
Qed.

Lemma decode_case3_ok src fin str r y :
  rd src (fin - 3) = Ok (0x80 + y) -> 0 <= y < 64 -> 0x10 <= r * 64 + y ->
  decode_case3 src fin str r = decode_case2 src fin (S str) (r * 64 + y).
Proof.
  intros Hr Hy Hv. unfold decode_case3. rewrite Hr, bind_ok. cbv zeta.
  rewrite xor80_cont, append6 by done.
  rewrite (proj2 (Z.leb_gt _ _)), (proj2 (Z.ltb_ge _ _)) by lia. done.
Qed.

Lemma lead_mask ch len mask :
  utf8_mask !! len = Some mask -> Z.land ch mask = ch mod 2 ^ (Z.log2 mask + 1).
Proof.
  intros H. replace mask with (2 ^ (Z.log2 mask + 1) - 1) at 1.
  - by apply land_ones_mod, Z.add_nonneg_nonneg; [apply Z.log2_nonneg|].
  - do 4 (destruct len as [|len]; [by injection H as <-|]). done.
Qed.

(** The header of the decoder: length and payload of the lead byte. *)
Lemma decode_header ch src str strend :
  0x80 <= ch < 0x100 ->
  decode_utf8_char ch src str strend =
    (let len := lead_len ch in
     let fin := (str + Z.to_nat len)%nat in
     if (strend <? fin)%nat then Ok (invalid, fin)
     else if len =? 3 then decode_case3 src fin str (ch mod 8)
     else if len =? 2 then decode_case2 src fin str (ch mod 16)
     else if len =? 1 then decode_case1 src fin str (ch mod 32)
     else Ok (invalid, str)).
Proof.
  intros Hch. unfold decode_utf8_char. rewrite utf8_length_spec, bind_ok by done.
  unfold lead_len in *. cbv zeta.
  repeat zcase; try lia; try done.
  - change (rd utf8_mask (Z.to_nat 3)) with (Ok 7). by rewrite bind_ok, (lead_mask ch 3 7).
  - change (rd utf8_mask (Z.to_nat 2)) with (Ok 15). by rewrite bind_ok, (lead_mask ch 2 15).
  - change (rd utf8_mask (Z.to_nat 1)) with (Ok 31). by rewrite bind_ok, (lead_mask ch 1 31).
Qed.

Lemma utf8_char_length_pos c : (0 < length (utf8_char c) <= 4)%nat.
Proof. unfold utf8_char. repeat zcase; simpl; lia. Qed.

(** The [i]-th byte of [l] embedded in a text at offset [length pre]. *)
Lemma rd_embedded pre l rest i v :
  l !! i = Some v -> rd (pre ++ l ++ rest) (length pre + i) = Ok v.
Proof.
  intros H. apply rd_Ok. rewrite lookup_app_r by lia.
  rewrite Nat.add_comm, Nat.add_sub. by apply lookup_app_l_Some.
Qed.

(** Decoding after the lead byte of an encoded character yields it. *)
Lemma decode_encoded pre c rest strend b0 :
  scalar c -> 0x80 <= c -> (length pre + length (utf8_char c) <= strend)%nat ->
  utf8_char c !! 0%nat = Some b0 ->
  0x80 <= b0 < 0x100 /\
  decode_utf8_char b0 (pre ++ utf8_char c ++ rest) (S (length pre)) strend
  = Ok (c, (length pre + length (utf8_char c))%nat).
Proof.
  intros Hc H80 Hend Hb0.
  assert (forall i v, utf8_char c !! i = Some v ->
    rd (pre ++ utf8_char c ++ rest) (length pre + i) = Ok v) as Hrd
    by (intros; by apply rd_embedded).
  unfold scalar in Hc. unfold utf8_char in *. rewrite (proj2 (Z.ltb_ge c 0x80)) in * by lia.
  destruct (Z.ltb_spec c 0x800); [|destruct (Z.ltb_spec c 0x10000)];
    injection Hb0 as <-; (split; [dlia|]); rewrite decode_header by dlia; cbv zeta.
  - replace (lead_len _) with 1 by (unfold lead_len; repeat zcase; dlia).
    rewrite (proj2 (Nat.ltb_ge _ _)) by (simpl in *; lia).
    change (1 =? 3) with false. change (1 =? 2) with false. change (1 =? 1) with true.
    cbv iota. rewrite (decode_case1_ok _ _ _ _ (c mod 64)).
    + simpl length. repeat f_equal; [dlia|lia].
    + replace (_ - 1)%nat with (length pre + 1)%nat by lia. by apply Hrd.
    + dlia.
    + dlia.
  - replace (lead_len _) with 2 by (unfold lead_len; repeat zcase; dlia).
    rewrite (proj2 (Nat.ltb_ge _ _)) by (simpl in *; lia).
    change (2 =? 3) with false. change (2 =? 2) with true. cbv iota.
    rewrite (decode_case2_ok _ _ _ _ (c / 64 mod 64)), (decode_case1_ok _ _ _ _ (c mod 64)).
    + simpl length. repeat f_equal; [dlia|lia].
    + replace (_ - 1)%nat with (length pre + 2)%nat by lia. by apply Hrd.
    + dlia.
    + dlia.
    + replace (_ - 2)%nat with (length pre + 1)%nat by lia. by apply Hrd.
    + dlia.
    + dlia.
    + dlia.
  - replace (lead_len _) with 3 by (unfold lead_len; repeat zcase; dlia).
    rewrite (proj2 (Nat.ltb_ge _ _)) by (simpl in *; lia).
    change (3 =? 3) with true. cbv iota.
    rewrite (decode_case3_ok _ _ _ _ (c / 4096 mod 64)),
      (decode_case2_ok _ _ _ _ (c / 64 mod 64)), (decode_case1_ok _ _ _ _ (c mod 64)).
    + simpl length. repeat f_equal; [dlia|lia].
    + replace (_ - 1)%nat with (length pre + 3)%nat by lia. by apply Hrd.
    + dlia.
    + dlia.
    + replace (_ - 2)%nat with (length pre + 2)%nat by lia. by apply Hrd.
    + dlia.
    + dlia.
    + dlia.
    + replace (_ - 3)%nat with (length pre + 1)%nat by lia. by apply Hrd.
    + dlia.
    + dlia.
Qed.

(** *** What the decoder accepts *)

(** [decoded src fin str k o]: the outcome [o] of decoding is the invalid
    value or a value that satisfies [k], and [*str] has not moved back. *)
Definition decoded (str : nat) (o : outcome (Z * nat)) (k : Z -> nat -> Prop) : Prop :=
  exists v s, o = Ok (v, s) /\ (str <= s)%nat /\ (v = invalid \/ k v s).

(** A continuation byte at offset [i] carries the bits [y]. *)
Definition cont (src : list Z) (i : nat) (y : Z) : Prop :=
  src !! i = Some (0x80 + y) /\ 0 <= y < 64.

Lemma decoded_invalid str s k : (str <= s)%nat -> decoded str (Ok (invalid, s)) k.
Proof. intros. exists invalid, s. auto. Qed.

Lemma decoded_weaken str str' o (k k' : Z -> nat -> Prop) :
  decoded str o k -> (str' <= str)%nat -> (forall v s, k v s -> k' v s) ->
  decoded str' o k'.
Proof. intros (v & s & -> & ? & ?) ? Hk. exists v, s. split_and!; [done|lia|tauto || intuition eauto]. Qed.

Lemma read_cont src i :
  Forall byte src -> (i < length src)%nat ->
  exists b, rd src i = Ok b /\ (0x40 <= xor80 b \/ cont src i (xor80 b)).
Proof.
  intros HF Hi. destruct (rd_lt src i Hi) as [b Hb]. exists b. split; [done|].
  pose proof (Forall_lookup_rd _ _ _ _ HF Hb) as Hbyte.
  destruct (xor80_spec b Hbyte) as (H1 & _ & H3).
  destruct (Z.le_gt_cases 0x40 (xor80 b)); [by left|right].
  destruct H1 as [Hr ->]; [lia|]. apply rd_Ok in Hb. unfold cont. split; [|lia].
  rewrite Hb. f_equal. lia.
Qed.

Lemma decode_case1_inv src fin str r :
  Forall byte src -> (0 < fin <= length src)%nat ->
  decoded str (decode_case1 src fin str r) (fun v s =>
    exists y, cont src (fin - 1) y /\ v = r * 64 + y /\ 0x80 <= v /\ s = S str).
Proof.
  intros HF Hfin. unfold decode_case1.
  destruct (read_cont src (fin - 1) HF) as (b & -> & Hb); [lia|]. rewrite bind_ok. cbv zeta.
  destruct (Z.leb_spec 0x40 (xor80 b)); [by apply decoded_invalid|].
  destruct Hb as [|Hc]; [lia|]. rewrite append6 by apply Hc.
  destruct (Z.ltb_spec (r * 64 + xor80 b) 0x80); [apply decoded_invalid; lia|].
  eexists _, _. split_and!; [done|lia|]. right. eauto.
Qed.

Lemma decode_case2_inv src fin str r :
  Forall byte src -> (2 <= fin <= length src)%nat ->
  decoded str (decode_case2 src fin str r) (fun v s =>
    exists x y, cont src (fin - 2) x /\ cont src (fin - 1) y /\
      v = (r * 64 + x) * 64 + y /\ 0x20 <= r * 64 + x < 0x4400 /\
      ~ (0x360 <= r * 64 + x < 0x380) /\ s = S (S str)).
Proof.
  intros HF Hfin. unfold decode_case2.
  destruct (read_cont src (fin - 2) HF) as (b & -> & Hb); [lia|]. rewrite bind_ok. cbv zeta.
  change (Z.shiftr 0x110000 6) with 0x4400. change (Z.shiftr 0xd800 6) with 0x360.
  change (Z.shiftr 0xdfff 6) with 0x37f.
  destruct (Z.leb_spec 0x40 (xor80 b)); [by apply decoded_invalid|].
  destruct Hb as [|Hc]; [lia|]. rewrite append6 by apply Hc. set (x := xor80 b) in *.
  destruct (Z.leb_spec 0x4400 (r * 64 + x)); [by apply decoded_invalid|].
  destruct (Z.ltb_spec (r * 64 + x) 0x20); [apply decoded_invalid; lia|].
  destruct (_ && _) eqn:E; [apply decoded_invalid; lia|].
  eapply decoded_weaken; [apply (decode_case1_inv src fin (S str) (r * 64 + x)); [done|lia]|lia|].
  intros v s' (y & Hy & -> & ? & ->). exists x, y. split_and!; auto; lia.
Qed.

Lemma decode_case3_inv src fin str r :
  Forall byte src -> (3 <= fin <= length src)%nat ->
  decoded str (decode_case3 src fin str r) (fun v s =>
    exists w x y, cont src (fin - 3) w /\ cont src (fin - 2) x /\ cont src (fin - 1) y /\
      v = ((r * 64 + w) * 64 + x) * 64 + y /\ 0x10 <= r * 64 + w /\
      (r * 64 + w) * 64 + x < 0x4400 /\ s = S (S (S str))).
Proof.
  intros HF Hfin. unfold decode_case3.
  destruct (read_cont src (fin - 3) HF) as (b & -> & Hb); [lia|]. rewrite bind_ok. cbv zeta.
  destruct (Z.leb_spec 0x40 (xor80 b)); [by apply decoded_invalid|].
  destruct Hb as [|Hc]; [lia|]. rewrite append6 by apply Hc. set (w := xor80 b) in *.
  destruct (Z.ltb_spec (r * 64 + w) 0x10); [apply decoded_invalid; lia|].
  eapply decoded_weaken; [apply (decode_case2_inv src fin (S str) (r * 64 + w)); [done|lia]|lia|].
  intros v s' (x & y & Hx & Hy & -> & ? & ? & ->). exists w, x, y. split_and!; auto; lia.
Qed.

(** A valid result is a scalar value whose encoding is what was read. *)
Definition accepted (src : list Z) (pos strend : nat) (v : Z) (s : nat) : Prop :=
  scalar v /\ 0x80 <= v /\ s = (pos + length (utf8_char v))%nat /\ (s <= strend)%nat /\
  take (length (utf8_char v)) (drop pos src) = utf8_char v.

Lemma decode_sound src pos strend ch :
  Forall byte src -> (strend <= length src)%nat -> src !! pos = Some ch -> 0x80 <= ch ->
  decoded (S pos) (decode_utf8_char ch src (S pos) strend) (accepted src pos strend).
Proof.
  intros HF Hend Hch H80.
  pose proof (Forall_lookup_1 _ _ _ _ HF Hch) as Hb. unfold byte in Hb.
  rewrite decode_header by lia. cbv zeta.
  destruct (Nat.ltb_spec strend (S pos + Z.to_nat (lead_len ch))); [apply decoded_invalid; lia|].
  unfold lead_len in *.
  repeat match goal with |- context [if ?x <? ?y then _ else _] => destruct (Z.ltb_spec x y) end;
    try (apply decoded_invalid; lia).
  - change (1 =? 3) with false. change (1 =? 2) with false. change (1 =? 1) with true. cbv iota.
    eapply decoded_weaken; [apply decode_case1_inv; [done|lia]|lia|].
    intros v s (y & [Hy ?] & -> & ? & ->). unfold accepted, utf8_char, scalar.
    rewrite (proj2 (Z.ltb_ge _ 0x80)), (proj2 (Z.ltb_lt _ 0x800)) by dlia.
    replace (_ - 1)%nat with (S pos) in Hy by lia.
    rewrite (drop_S _ _ _ Hch), (drop_S _ _ _ Hy). simpl. split_and!; try dlia.
    repeat f_equal; dlia.
  - change (2 =? 3) with false. change (2 =? 2) with true. cbv iota.
    eapply decoded_weaken; [apply decode_case2_inv; [done|lia]|lia|].
    intros v s (x & y & [Hx ?] & [Hy ?] & -> & ? & ? & ->). unfold accepted, utf8_char, scalar.
    rewrite (proj2 (Z.ltb_ge _ 0x80)), (proj2 (Z.ltb_ge _ 0x800)), (proj2 (Z.ltb_lt _ 0x10000)) by dlia.
    replace (_ - 2)%nat with (S pos) in Hx by lia. replace (_ - 1)%nat with (S (S pos)) in Hy by lia.
    rewrite (drop_S _ _ _ Hch), (drop_S _ _ _ Hx), (drop_S _ _ _ Hy). simpl.
    split_and!; try dlia. repeat f_equal; dlia.
  - change (3 =? 3) with true. cbv iota.
    eapply decoded_weaken; [apply decode_case3_inv; [done|lia]|lia|].
    intros v s (w & x & y & [Hw ?] & [Hx ?] & [Hy ?] & -> & ? & ? & ->).
    unfold accepted, utf8_char, scalar.
    rewrite (proj2 (Z.ltb_ge _ 0x80)), (proj2 (Z.ltb_ge _ 0x800)), (proj2 (Z.ltb_ge _ 0x10000)) by dlia.
    replace (_ - 3)%nat with (S pos) in Hw by lia.
    replace (_ - 2)%nat with (S (S pos)) in Hx by lia. replace (_ - 1)%nat with (S (S (S pos))) in Hy by lia.
    rewrite (drop_S _ _ _ Hch), (drop_S _ _ _ Hw), (drop_S _ _ _ Hx), (drop_S _ _ _ Hy). simpl.
    split_and!; try dlia. repeat f_equal; dlia.
Qed.

(** *** The loops of [RtlUTF8ToUnicodeN] *)

(** The conversion of the text from [pos] on: [cs] are the characters it
    yields, U+FFFD for each invalid sequence; [bad] tells whether there was
    one; [pend] is where the loop stops.  A buffer of any capacity receives a
    prefix of the encoding of [cs]. *)
Record utf8_run (src : list Z) (srcend fuel pos : nat)
    (cs : list Z) (bad : bool) (pend : nat) : Prop := {
  run_scalar : Forall scalar cs;
  run_pend : (srcend <= pend)%nat;
  run_count : forall len st,
    utf8_count fuel src pos srcend len st
    = Ok (len + Z.of_nat (length (utf16 cs)), if bad then STATUS_SOME_NOT_MAPPED else st);
  run_fit : forall dstlen out st,
    (length out + length (utf16 cs) <= dstlen)%nat ->
    utf8_loop fuel src pos srcend dstlen out st
    = Ok (pend, out ++ utf16 cs, if bad then STATUS_SOME_NOT_MAPPED else st);
  run_any : forall dstlen out st,
    (length out <= dstlen)%nat ->
    exists pos' st', utf8_loop fuel src pos srcend dstlen out st
      = Ok (pos', out ++ take (dstlen - length out) (utf16 cs), st');
  run_valid : bad = false -> take (srcend - pos) (drop pos src) = utf8 cs;
}.

Lemma utf8_run_end src srcend fuel pos :
  (srcend <= pos)%nat -> utf8_run src srcend (S fuel) pos [] false pos.
Proof.
  intros Hp. assert ((pos <? srcend)%nat = false) as Hlt by (by apply Nat.ltb_ge).
  split; try done; change (utf16 []) with (@nil Z); simpl; intros;
    rewrite ?Hlt, ?andb_false_r, ?app_nil_r, ?Z.add_0_r; try done.
  - rewrite take_nil, app_nil_r. eauto.
  - by replace (srcend - pos)%nat with 0%nat by lia.
Qed.

(** One iteration that yields the character [c] and moves to [pos']. *)
Record utf8_step (src : list Z) (srcend pos : nat) (c : Z) (bad : bool) (pos' : nat)
    : Prop := {
  step_scalar : scalar c;
  step_moves : (pos < pos')%nat;
  step_count : forall fuel len st,
    utf8_count (S fuel) src pos srcend len st
    = utf8_count fuel src pos' srcend (len + Z.of_nat (length (utf16_char c)))
        (if bad then STATUS_SOME_NOT_MAPPED else st);
  step_loop : forall fuel dstlen out st,
    (length out < dstlen)%nat ->
    utf8_loop (S fuel) src pos srcend dstlen out st
    = if (length out + length (utf16_char c) <=? dstlen)%nat
      then utf8_loop fuel src pos' srcend dstlen (out ++ utf16_char c)
             (if bad then STATUS_SOME_NOT_MAPPED else st)
      else Ok (pos', out ++ take 1 (utf16_char c), st);
  step_valid : bad = false ->
    (pos' <= srcend)%nat /\ take (pos' - pos) (drop pos src) = utf8_char c;
}.

Section Step.
Context (src : list Z) (srcend pos : nat) (ch : Z).
Context (Hpos : (pos < srcend)%nat) (Hch : src !! pos = Some ch).

Lemma utf8_step_ascii :
  0 <= ch < 0x80 -> utf8_step src srcend pos ch false (S pos).
Proof.
  intros H80. pose proof (proj2 (rd_Ok _ _ _) Hch) as Hrd.
  pose proof (proj2 (Nat.ltb_lt _ _) Hpos) as Hlt.
  assert (utf16_char ch = [ch]) as E16 by (apply utf16_char_bmp; lia).
  split; rewrite ?E16; simpl.
  - unfold scalar. lia.
  - lia.
  - intros. by rewrite Hlt, Hrd, bind_ok, (proj2 (Z.ltb_lt _ _)) by lia.
  - intros. rewrite (proj2 (Nat.ltb_lt _ _)), Hlt by done. simpl.
    by rewrite Hrd, bind_ok, (proj2 (Z.ltb_lt _ _)), (proj2 (Nat.leb_le _ _)) by lia.
  - intros _. split; [lia|]. rewrite (drop_S _ _ _ Hch).
    replace (match pos with _ => _ end)%nat with 1%nat by lia.
    unfold utf8_char. by rewrite (proj2 (Z.ltb_lt _ _)) by lia.
Qed.

Lemma utf8_step_invalid s :
  0x80 <= ch -> (pos < s)%nat ->
  decode_utf8_char ch src (S pos) srcend = Ok (invalid, s) ->
  utf8_step src srcend pos 0xfffd true s.
Proof.
  intros E80%Z.ltb_ge Hs Hd. pose proof (proj2 (rd_Ok _ _ _) Hch) as Hrd.
  pose proof (proj2 (Nat.ltb_lt _ _) Hpos) as Hlt.
  split; change (utf16_char 0xfffd) with [0xfffd]; simpl.
  - unfold scalar. lia.
  - lia.
  - intros. by rewrite Hlt, Hrd, bind_ok, E80, Hd.
  - intros. rewrite (proj2 (Nat.ltb_lt _ _)), Hlt by done. simpl.
    by rewrite Hrd, bind_ok, E80, Hd, (proj2 (Nat.leb_le _ _)) by lia.
  - done.
Qed.

Lemma utf8_step_accepted v s :
  0x80 <= ch -> decode_utf8_char ch src (S pos) srcend = Ok (v, s) ->
  accepted src pos srcend v s -> utf8_step src srcend pos v false s.
Proof.
  intros E80%Z.ltb_ge Hd (Hsc & Hv & -> & Hse & Henc).
  pose proof (proj2 (rd_Ok _ _ _) Hch) as Hrd.
  pose proof (proj2 (Nat.ltb_lt _ _) Hpos) as Hlt. split.
  - done.
  - pose proof (utf8_char_length_pos v). lia.
  - intros. simpl. rewrite Hlt, Hrd, bind_ok, E80, Hd, bind_ok, utf16_char_length.
    unfold scalar in Hsc. rewrite (proj2 (Z.ltb_ge _ _)) by lia.
    by destruct (Z.ltb_spec 0xffff v), (Z.ltb_spec v 0x10000); try lia.
  - intros. simpl. rewrite (proj2 (Nat.ltb_lt _ _)), Hlt by done. simpl.
    rewrite Hrd, bind_ok, E80, Hd, bind_ok. unfold scalar in Hsc.
    destruct (Z.leb_spec v 0xffff).
    + rewrite utf16_char_bmp by lia. simpl. by rewrite (proj2 (Nat.leb_le _ _)) by lia.
    + rewrite (proj2 (Z.leb_le _ _)) by lia. rewrite utf16_char_pair by lia. simpl.
      rewrite high_unit, low_unit, length_app by lia. simpl.
      destruct (Nat.eqb_spec (length out + 1) dstlen), (Nat.leb_spec (length out + 2) dstlen);
        try lia; [done|]. by rewrite <- app_assoc.
  - intros _. split; [done|]. by rewrite Nat.add_comm, Nat.add_sub.
Qed.

End Step.

Lemma utf8_step_exists src srcend pos :
  Forall byte src -> (srcend <= length src)%nat -> (pos < srcend)%nat ->
  exists c bad pos', utf8_step src srcend pos c bad pos'.
Proof.
  intros HF Hend Hpos. destruct (rd_lt src pos) as [ch Hch%rd_Ok]; [lia|].
  pose proof (Forall_lookup_1 _ _ _ _ HF Hch) as Hb. unfold byte in Hb.
  destruct (Z.lt_ge_cases ch 0x80) as [H80|H80].
  { eexists _, _, _. eapply utf8_step_ascii; eauto; lia. }
  destruct (decode_sound src pos srcend ch HF Hend Hch H80) as (v & s & Hd & Hs & [->|Hv]);
    eexists _, _, _; [by eapply utf8_step_invalid|by eapply utf8_step_accepted].
Qed.

Lemma utf8_cons c cs : utf8 (c :: cs) = utf8_char c ++ utf8 cs.
Proof. done. Qed.

Lemma utf8_run_step src srcend fuel pos c bad pos' cs bad' pend :
  (pos < srcend)%nat -> utf8_step src srcend pos c bad pos' ->
  utf8_run src srcend fuel pos' cs bad' pend ->
  utf8_run src srcend (S fuel) pos (c :: cs) (bad || bad') pend.
Proof.
  intros Hlt [Hsc Hmv Hcnt Hloop Hval] [Rsc Rpend Rcnt Rfit Rany Rval].
  split; rewrite ?utf16_cons, ?length_app.
  - by constructor.
  - done.
  - intros. rewrite Hcnt, Rcnt, Nat2Z.inj_add, Z.add_assoc. by destruct bad, bad'.
  - intros dstlen out st Hfit. pose proof (utf16_char_length_pos c).
    rewrite Hloop by lia. rewrite (proj2 (Nat.leb_le _ _)) by lia.
    rewrite Rfit by (rewrite length_app; lia). rewrite <- app_assoc.
    by destruct bad, bad'.
  - intros dstlen out st Hle. destruct (Nat.eq_dec (length out) dstlen) as [He|Hne].
    { exists pos, st. simpl. rewrite (proj2 (Nat.ltb_ge (length out) dstlen)) by lia. simpl.
      replace (dstlen - length out)%nat with 0%nat by lia. by rewrite take_0, app_nil_r. }
    rewrite Hloop by lia.
    destruct (Nat.leb_spec (length out + length (utf16_char c)) dstlen).
    + destruct (Rany dstlen (out ++ utf16_char c) (if bad then STATUS_SOME_NOT_MAPPED else st))
        as (p & st' & ->); [rewrite length_app; lia|]. exists p, st'.
      rewrite length_app, <- app_assoc, take_app_ge by lia. by rewrite Nat.sub_add_distr.
    + exists pos', st. rewrite take_app_le by lia. repeat f_equal.
      rewrite utf16_char_length in *. destruct (c <? 0x10000); lia.
  - intros [-> ->]%orb_false_elim. destruct (Hval eq_refl) as [Hp Henc].
    rewrite utf8_cons, <- Henc, <- (Rval eq_refl).
    replace (srcend - pos)%nat with ((pos' - pos) + (srcend - pos'))%nat by lia.
    rewrite <- take_take_drop, drop_drop. do 3 f_equal. lia.
Qed.

Lemma utf8_run_exists src srcend :
  Forall byte src -> (srcend <= length src)%nat ->
  forall fuel pos, (srcend - pos < fuel)%nat ->
  exists cs bad pend, utf8_run src srcend fuel pos cs bad pend.
Proof.
  intros HF Hend. induction fuel as [|fuel IH]; intros pos Hf; [lia|].
  destruct (Nat.lt_ge_cases pos srcend) as [Hlt|Hge].
  - destruct (utf8_step_exists src srcend pos HF Hend Hlt) as (c & bad & pos' & Hs).
    pose proof (step_moves _ _ _ _ _ _ Hs).
    destruct (IH pos') as (cs & bad' & pend & Hr); [lia|].
    eexists _, _, _. by eapply utf8_run_step.
  - eexists _, _, _. by apply utf8_run_end.
Qed.

(** An encoded character is converted to itself. *)
Lemma utf8_step_encoded pre c rest srcend :
  scalar c -> (length pre + length (utf8_char c) <= srcend)%nat ->
  utf8_step (pre ++ utf8_char c ++ rest) srcend
    (length pre) c false (length pre + length (utf8_char c)).
Proof.
  intros Hc Hend. pose proof (utf8_char_length_pos c) as Hlen.
  destruct (lookup_lt_is_Some_2 (utf8_char c) 0 (proj1 Hlen)) as [b0 Hb0].
  assert ((pre ++ utf8_char c ++ rest) !! length pre = Some b0) as Hch.
  { apply rd_Ok. rewrite <- (Nat.add_0_r (length pre)). by apply rd_embedded. }
  destruct (Z.lt_ge_cases c 0x80) as [H80|H80].
  - assert (utf8_char c = [c]) as E by (unfold utf8_char; by rewrite (proj2 (Z.ltb_lt _ _))).
    rewrite E in *. injection Hb0 as <-. rewrite Nat.add_1_r.
    apply utf8_step_ascii; [simpl in *; lia|done|unfold scalar in Hc; lia].
  - destruct (decode_encoded pre c rest srcend b0 Hc H80 Hend Hb0) as [Hr Hd].
    apply (utf8_step_accepted _ _ _ b0); [lia|done|lia|done|].
    split_and!; try done. rewrite drop_app_length, take_app_length. done.
Qed.

Lemma utf8_run_encoded pre cs rest fuel :
  Forall scalar cs -> (length (utf8 cs) < fuel)%nat ->
  utf8_run (pre ++ utf8 cs ++ rest) (length pre + length (utf8 cs)) fuel (length pre)
    cs false (length pre + length (utf8 cs)).
Proof.
  revert pre fuel. induction cs as [|c cs IH]; intros pre fuel HF Hf.
  - destruct fuel; [lia|]. change (utf8 []) with (@nil Z). simpl. rewrite Nat.add_0_r.
    by apply utf8_run_end.
  - apply Forall_cons in HF as [Hc HF]. rewrite utf8_cons in *.
    rewrite length_app in *. pose proof (utf8_char_length_pos c).
    destruct fuel as [|fuel]; [lia|].
    change false with (false || false). rewrite <- app_assoc.
    eapply utf8_run_step; [lia|by apply utf8_step_encoded; [|lia]|].
    specialize (IH (pre ++ utf8_char c) fuel HF).
    rewrite length_app, <- app_assoc in IH.
    rewrite Nat.add_assoc. apply IH. lia.
Qed.

(** *** The loops of [RtlUnicodeToUTF8N] *)

(** The longest prefix of [cs] whose encoding fits [cap] bytes. *)
Fixpoint fit (cap : nat) (cs : list Z) : list Z :=
  match cs with
  | [] => []
  | c :: cs => if (length (utf8_char c) <=? cap)%nat
               then c :: fit (cap - length (utf8_char c)) cs else []
  end.

Lemma fit_all cap cs : (length (utf8 cs) <= cap)%nat -> fit cap cs = cs.
Proof.
  revert cap. induction cs as [|c cs IH]; intros cap; [done|].
  rewrite utf8_cons, length_app. intros. simpl.
  rewrite (proj2 (Nat.leb_le _ _)) by lia. rewrite IH by lia. done.
Qed.

Lemma fit_length cap cs : (length (utf8 (fit cap cs)) <= cap)%nat.
Proof.
  revert cap. induction cs as [|c cs IH]; intros cap; simpl; [lia|].
  destruct (Nat.leb_spec (length (utf8_char c)) cap); simpl; [|lia].
  rewrite utf8_cons, length_app. specialize (IH (cap - length (utf8_char c))%nat). lia.
Qed.

Lemma fit_prefix cap cs : fit cap cs `prefix_of` cs.
Proof.
  revert cap. induction cs as [|c cs IH]; intros cap; simpl; [done|].
  destruct (_ <=? _)%nat; [by apply prefix_cons|apply prefix_nil].
Qed.

Lemma cont_byte v : Z.lor 0x80 (Z.land v 0x3f) = 0x80 + v mod 64.
Proof.
  change 0x3f with (2 ^ 6 - 1). rewrite land_ones_mod by lia.
  change 0x80 with (2 * 2 ^ 6). by rewrite lor_const_add by dlia.
Qed.

Lemma lead_byte k n v :
  0 <= n -> 0 <= v < 2 ^ n -> Z.lor (k * 2 ^ n) v = k * 2 ^ n + v.
Proof. apply lor_const_add. Qed.

Lemma shiftr6 v : Z.shiftr v 6 = v / 64.
Proof. by rewrite Z.shiftr_div_pow2. Qed.

(** One iteration: the character [c] is read and [k] code units consumed. *)
Record utf16_step (src : list Z) (pos srclen : nat) (c : Z) (bad : bool) (k : nat)
    : Prop := {
  ustep_scalar : scalar c;
  ustep_moves : (0 < k <= srclen)%nat;
  ustep_count : forall fuel len st,
    utf16_count (S fuel) src pos srclen len st
    = utf16_count fuel src (pos + k) (srclen - k) (len + Z.of_nat (length (utf8_char c)))
        (if bad then STATUS_SOME_NOT_MAPPED else st);
  ustep_loop : forall fuel dstlen out st,
    utf16_loop (S fuel) src pos srclen dstlen out st
    = let st := if bad then STATUS_SOME_NOT_MAPPED else st in
      if (length out + length (utf8_char c) <=? dstlen)%nat
      then utf16_loop fuel src (pos + k) (srclen - k) dstlen (out ++ utf8_char c) st
      else Ok (srclen, out, st);
  ustep_valid : bad = false -> take k (drop pos src) = utf16_char c;
}.

(** The branch of three- and four-byte sequences. *)
Lemma utf16_step_wide src pos srclen ch c bad k r :
  (0 < srclen)%nat -> src !! pos = Some ch -> 0x800 <= ch ->
  get_utf16 src pos srclen = Ok r ->
  (bad = false /\ r = Some (k, c) \/ bad = true /\ r = None /\ c = 0xfffd) ->
  scalar c -> 0x800 <= c -> k = length (utf16_char c) -> (k <= srclen)%nat ->
  (bad = false -> take k (drop pos src) = utf16_char c) ->
  utf16_step src pos srclen c bad k.
Proof.
  intros Hn Hch%rd_Ok H800 Hg Hr Hsc Hc Hk Hkn Hv.
  assert ((srclen =? 0)%nat = false) as En by (apply Nat.eqb_neq; lia).
  assert ((ch <? 0x80) = false) as E1 by (apply Z.ltb_ge; lia).
  assert ((ch <? 0x800) = false) as E2 by (apply Z.ltb_ge; lia).
  assert (forall (A : Type) (st : Z) (f : Z * Z -> A),
    f (match r with Some (_, c) => (c, st) | None => (0xfffd, STATUS_SOME_NOT_MAPPED) end)
    = f (c, if bad then STATUS_SOME_NOT_MAPPED else st)) as Em
    by (by destruct Hr as [[-> ->]|(-> & -> & ->)]).
  rewrite utf16_char_length in Hk. unfold scalar in Hsc.
  split; [done|destruct (c <? 0x10000); lia| | |done]; intros; simpl;
    rewrite En, Hch, bind_ok, E1, E2, Hg, bind_ok; cbv zeta;
    rewrite (Em _ st (fun '(val, st) => _));
    unfold utf8_char;
    rewrite (proj2 (Z.ltb_ge c 0x80)), (proj2 (Z.ltb_ge c 0x800)) by lia.
  - destruct (c <? 0x10000); rewrite Hk; simpl; by rewrite ?Nat.add_1_r, ?(Nat.add_comm pos 2).
  - destruct (Z.ltb_spec c 0x10000); rewrite Hk; cbn [length].
    + rewrite !cont_byte, !shiftr6. change 0xe0 with (14 * 2 ^ 4). rewrite lead_byte by dlia.
      rewrite Nat.add_1_r. replace (c / 64 / 64) with (c / 4096) by dlia.
      change (14 * 2 ^ 4) with 0xe0.
      by destruct (Nat.ltb_spec dstlen (length out + 3)), (Nat.leb_spec (length out + 3) dstlen);
        try lia.
    + rewrite !cont_byte, !shiftr6. change 0xf0 with (30 * 2 ^ 3). rewrite lead_byte by dlia.
      rewrite (Nat.add_comm pos 2). replace (c / 64 / 64 / 64) with (c / 262144) by dlia.
      replace (c / 64 / 64) with (c / 4096) by dlia. change (30 * 2 ^ 3) with 0xf0.
      by destruct (Nat.ltb_spec dstlen (length out + 4)), (Nat.leb_spec (length out + 4) dstlen);
        try lia.
Qed.

(** The branches of one- and two-byte sequences. *)
Lemma utf16_step_narrow src pos srclen ch :
  (0 < srclen)%nat -> src !! pos = Some ch -> 0 <= ch < 0x800 ->
  utf16_step src pos srclen ch false 1.
Proof.
  intros Hn Hch Hr. pose proof (proj2 (rd_Ok _ _ _) Hch) as Hrd.
  assert ((srclen =? 0)%nat = false) as En by (apply Nat.eqb_neq; lia).
  assert (utf16_char ch = [ch]) as E16 by (apply utf16_char_bmp; lia).
  split; [unfold scalar; lia|lia| | |by rewrite (drop_S _ _ _ Hch), E16];
    intros; simpl; rewrite En, Hrd, bind_ok, (Nat.add_1_r pos); unfold utf8_char;
    destruct (Z.ltb_spec ch 0x80); try done; rewrite ?(proj2 (Z.ltb_lt ch 0x800)) by lia;
    try done; cbn [length]; cbv zeta.
  - by destruct (Nat.ltb_spec dstlen (length out + 1)), (Nat.leb_spec (length out + 1) dstlen);
      try lia.
  - rewrite cont_byte, shiftr6. change 0xc0 with (6 * 2 ^ 5). rewrite lead_byte by dlia.
    by destruct (Nat.ltb_spec dstlen (length out + 2)), (Nat.leb_spec (length out + 2) dstlen);
      try lia.
Qed.

Lemma utf16_step_exists src pos srclen :
  Forall wchar src -> (0 < srclen)%nat -> (pos + srclen <= length src)%nat ->
  exists c bad k, utf16_step src pos srclen c bad k.
Proof.
  intros HF Hn Hl. destruct (rd_lt src pos) as [ch Hch%rd_Ok]; [lia|].
  pose proof (Forall_lookup_1 _ _ _ _ HF Hch) as Hw. unfold wchar in Hw.
  destruct (Z.lt_ge_cases ch 0x800).
  { eexists _, _, _. apply (utf16_step_narrow src pos srclen ch); auto; lia. }
  destruct (get_utf16_total src pos srclen Hn Hl) as [[[k c]|] Hg].
  - destruct (get_utf16_inv _ _ _ _ _ HF Hg) as (Hsc & Hk & Ht).
    pose proof (get_utf16_len _ _ _ _ _ Hn Hg). exists c, false, k.
    apply (utf16_step_wide _ _ _ ch _ _ _ (Some (k, c))); auto; [|lia].
    rewrite (drop_S _ _ _ Hch) in Ht. destruct (Z.lt_ge_cases c 0x800); [|lia].
    rewrite utf16_char_bmp in * by lia. subst k. injection Ht as ->. lia.
  - exists 0xfffd, true, 1%nat. apply (utf16_step_wide _ _ _ ch _ _ _ None); auto; try lia.
    unfold scalar. lia.
Qed.

Lemma utf16_step_encoded pre c rest srclen :
  scalar c -> (length (utf16_char c) <= srclen)%nat ->
  utf16_step (pre ++ utf16_char c ++ rest) (length pre) srclen c false (length (utf16_char c)).
Proof.
  intros Hc Hn. pose proof (utf16_char_length_pos c) as Hlen.
  destruct (lookup_lt_is_Some_2 (utf16_char c) 0 (proj1 Hlen)) as [ch Hch0].
  assert ((pre ++ utf16_char c ++ rest) !! length pre = Some ch) as Hch.
  { apply rd_Ok. rewrite <- (Nat.add_0_r (length pre)). by apply rd_embedded. }
  destruct (Z.lt_ge_cases c 0x800).
  - rewrite utf16_char_bmp in * by lia. injection Hch0 as <-.
    apply utf16_step_narrow; [simpl in *; lia|done|unfold scalar in Hc; lia].
  - apply (utf16_step_wide _ _ _ ch _ _ _ (Some (length (utf16_char c), c))); auto.
    + lia.
    + unfold utf16_char in Hch0. destruct (Z.ltb_spec c 0x10000); injection Hch0 as <-; [lia|dlia].
    + by apply get_utf16_encoded.
    + by rewrite drop_app_length, take_app_length.
Qed.

Record utf16_run (src : list Z) (fuel pos srclen : nat) (cs : list Z) (bad : bool)
    : Prop := {
  urun_scalar : Forall scalar cs;
  urun_count : forall len st,
    utf16_count fuel src pos srclen len st
    = Ok (len + Z.of_nat (length (utf8 cs)), if bad then STATUS_SOME_NOT_MAPPED else st);
  urun_loop : forall dstlen out st, (length out <= dstlen)%nat ->
    exists remaining st',
      utf16_loop fuel src pos srclen dstlen out st
      = Ok (remaining, out ++ utf8 (fit (dstlen - length out) cs), st') /\
      (fit (dstlen - length out) cs = cs ->
         remaining = 0%nat /\ st' = if bad then STATUS_SOME_NOT_MAPPED else st) /\
      (fit (dstlen - length out) cs <> cs -> remaining <> 0%nat);
  urun_valid : bad = false -> take srclen (drop pos src) = utf16 cs;
}.

Lemma utf16_run_end src fuel pos : utf16_run src (S fuel) pos 0 [] false.
Proof.
  split; try done; simpl; intros; change (utf8 []) with (@nil Z).
  - by rewrite Z.add_0_r.
  - exists 0%nat, st. by rewrite app_nil_r.
Qed.

Lemma utf16_run_step src fuel pos srclen c bad k cs bad' :
  utf16_step src pos srclen c bad k ->
  utf16_run src fuel (pos + k) (srclen - k) cs bad' ->
  utf16_run src (S fuel) pos srclen (c :: cs) (bad || bad').
Proof.
  intros [Hsc Hmv Hcnt Hloop Hval] [Rsc Rcnt Rloop Rval]. split.
  - by constructor.
  - intros. rewrite Hcnt, Rcnt, utf8_cons, length_app, Nat2Z.inj_add, Z.add_assoc.
    by destruct bad, bad'.
  - intros dstlen out st Hle. rewrite Hloop. cbv zeta. cbn [fit].
    destruct (Nat.leb_spec (length out + length (utf8_char c)) dstlen).
    + destruct (Rloop dstlen (out ++ utf8_char c) (if bad then STATUS_SOME_NOT_MAPPED else st))
        as (r & st' & -> & Hall & Hpart); [rewrite length_app; lia|].
      rewrite (proj2 (Nat.leb_le _ _)) by lia. rewrite length_app, Nat.sub_add_distr in *.
      exists r, st'. rewrite utf8_cons, app_assoc. split_and!; [done| |].
      * intros [= Hf]. destruct (Hall Hf) as [-> ->]. split; [done|]. by destruct bad, bad'.
      * intros Hf. apply Hpart. congruence.
    + rewrite (proj2 (Nat.leb_gt _ _)) by lia. eexists _, _. rewrite app_nil_r.
      split_and!; [done|done|]. intros _. lia.
  - intros [-> ->]%orb_false_elim.
    rewrite utf16_cons, <- (Hval eq_refl), <- (Rval eq_refl).
    replace srclen with (k + (srclen - k))%nat at 1 by lia.
    rewrite <- take_take_drop, drop_drop. done.
Qed.

Lemma utf16_run_exists src :
  Forall wchar src -> forall fuel pos srclen,
  (srclen < fuel)%nat -> (pos + srclen <= length src)%nat ->
  exists cs bad, utf16_run src fuel pos srclen cs bad.
Proof.
  intros HF. induction fuel as [|fuel IH]; intros pos srclen Hf Hl; [lia|].
  destruct (Nat.eq_dec srclen 0) as [->|Hn]; [eexists _, _; apply utf16_run_end|].
  destruct (utf16_step_exists src pos srclen HF) as (c & bad & k & Hs); [lia|done|].
  pose proof (ustep_moves _ _ _ _ _ _ Hs).
  destruct (IH (pos + k)%nat (srclen - k)%nat) as (cs & bad' & Hr); [lia|lia|].
  eexists _, _. by eapply utf16_run_step.
Qed.

Lemma utf16_run_encoded pre cs rest fuel :
  Forall scalar cs -> (length (utf16 cs) < fuel)%nat ->
  utf16_run (pre ++ utf16 cs ++ rest) fuel (length pre) (length (utf16 cs)) cs false.
Proof.
  revert pre fuel. induction cs as [|c cs IH]; intros pre fuel HF Hf.
  - destruct fuel; [lia|]. apply utf16_run_end.
  - apply Forall_cons in HF as [Hc HF]. rewrite utf16_cons in *. rewrite length_app in *.
    pose proof (utf16_char_length_pos c). destruct fuel as [|fuel]; [lia|].
    change false with (false || false). rewrite <- app_assoc.
    eapply utf16_run_step; [by apply utf16_step_encoded; [|lia]|].
    replace (_ + _ - _)%nat with (length (utf16 cs)) by lia.
    specialize (IH (pre ++ utf16_char c) fuel HF). rewrite length_app, <- app_assoc in IH.
    apply IH. lia.
Qed.

(** *** Theorems *)

Definition convert8 (dstlen : Z) (src : list Z) : outcome conv_result :=
  RtlUTF8ToUnicodeN true dstlen true (Some src) (length src).
Definition query8 (src : list Z) : outcome conv_result :=
  RtlUTF8ToUnicodeN false 0 true (Some src) (length src).
Definition convert16 (dstlen : nat) (src : list Z) : outcome conv_result :=
  RtlUnicodeToUTF8N true dstlen true (Some src) (2 * Z.of_nat (length src)).
Definition query16 (src : list Z) : outcome conv_result :=
  RtlUnicodeToUTF8N false 0 true (Some src) (2 * Z.of_nat (length src)).

Lemma run8_query src cs bad pend :
  utf8_run src (length src) (S (length src)) 0 cs bad pend ->
  query8 src = Ok (ConvResult (if bad then STATUS_SOME_NOT_MAPPED else STATUS_SUCCESS)
                     (Some (u32 (Z.of_nat (length (utf16 cs)) * 2))) []).
Proof. intros Hr. unfold query8, RtlUTF8ToUnicodeN. cbn [negb]. by rewrite (run_count _ _ _ _ _ _ _ Hr). Qed.

Lemma run8_fit src cs bad pend dstlen :
  utf8_run src (length src) (S (length src)) 0 cs bad pend ->
  2 * Z.of_nat (length (utf16 cs)) <= dstlen ->
  convert8 dstlen src
  = Ok (ConvResult (if bad then STATUS_SOME_NOT_MAPPED else STATUS_SUCCESS)
          (Some (u32 (Z.of_nat (length (utf16 cs)) * 2))) (utf16 cs)).
Proof.
  intros Hr Hd. unfold convert8, RtlUTF8ToUnicodeN. cbn [negb].
  rewrite (run_fit _ _ _ _ _ _ _ Hr) by (simpl; dlia). rewrite bind_ok.
  by rewrite (proj2 (Nat.ltb_ge _ _)) by apply (run_pend _ _ _ _ _ _ _ Hr).
Qed.

Lemma run8_valid src cs bad pend :
  utf8_run src (length src) (S (length src)) 0 cs bad pend -> bad = false -> src = utf8 cs.
Proof.
  intros Hr Hb. pose proof (run_valid _ _ _ _ _ _ _ Hr Hb) as E.
  by rewrite Nat.sub_0_r, drop_0, firstn_all in E.
Qed.

Lemma run16_query src cs bad :
  utf16_run src (S (length src)) 0 (length src) cs bad ->
  query16 src = Ok (ConvResult (if bad then STATUS_SOME_NOT_MAPPED else STATUS_SUCCESS)
                      (Some (u32 (Z.of_nat (length (utf8 cs))))) []).
Proof.
  intros Hr. unfold query16, RtlUnicodeToUTF8N. cbn [negb andb].
  replace (Z.to_nat _) with (length src) by dlia. by rewrite (urun_count _ _ _ _ _ _ Hr).
Qed.

Lemma run16_convert src cs bad dstlen :
  utf16_run src (S (length src)) 0 (length src) cs bad ->
  convert16 dstlen src
  = Ok (ConvResult
          (if decide (fit dstlen cs = cs)
           then (if bad then STATUS_SOME_NOT_MAPPED else STATUS_SUCCESS)
           else STATUS_BUFFER_TOO_SMALL)
          (Some (Z.of_nat (length (utf8 (fit dstlen cs))))) (utf8 (fit dstlen cs))).
Proof.
  intros Hr. unfold convert16, RtlUnicodeToUTF8N. cbn [negb andb].
  rewrite Z.odd_mul. cbn [Z.odd andb]. replace (Z.to_nat _) with (length src) by dlia.
  destruct (urun_loop _ _ _ _ _ _ Hr dstlen [] STATUS_SUCCESS) as (r & st & -> & Hall & Hpart);
    [simpl; lia|]. rewrite bind_ok. simpl in *. rewrite Nat.sub_0_r in *.
  case_decide as Hf.
  - by destruct (Hall Hf) as [-> ->].
  - by rewrite (proj2 (Nat.eqb_neq _ _)) by auto.
Qed.

(** The size query and a conversion of the same string. *)
Lemma query_and_convert src dstlen :
  Forall byte src -> 0 <= dstlen ->
  exists cs q r, Forall scalar cs /\ query8 src = Ok q /\ convert8 dstlen src = Ok r /\
    reslen q = Some (u32 (Z.of_nat (length (utf16 cs)) * 2)) /\
    written r = take (Z.to_nat (dstlen / 2)) (utf16 cs) /\
    (status q = STATUS_SUCCESS -> src = utf8 cs) /\
    (2 * Z.of_nat (length (utf16 cs)) <= dstlen -> status r = status q /\ reslen r = reslen q).
Proof.
  intros HF Hd.
  destruct (utf8_run_exists src (length src) HF (le_n _) (S (length src)) 0) as (cs & bad & pend & Hr);
    [lia|]. exists cs. rewrite (run8_query _ _ _ _ Hr).
  destruct (run_any _ _ _ _ _ _ _ Hr (Z.to_nat (dstlen / 2)) [] STATUS_SUCCESS) as (p & st & Hl);
    [simpl; lia|]. cbn [length app] in Hl. rewrite Nat.sub_0_r in Hl.
  eexists _, (ConvResult _ _ _). split_and!; [apply Hr|done| |done|done| |].
  - unfold convert8, RtlUTF8ToUnicodeN. cbn [negb]. by rewrite Hl, bind_ok.
  - intros Hs. by apply (run8_valid _ _ _ _ Hr); destruct bad.
  - simpl. intros Hfit. pose proof (run8_fit _ _ _ _ dstlen Hr Hfit) as E.
    unfold convert8, RtlUTF8ToUnicodeN in E. cbn [negb] in E. rewrite Hl, bind_ok in E.
    injection E as E1 E2 E3. by rewrite E1, E2.
Qed.

Lemma query8_encoded cs : Forall scalar cs -> exists q, query8 (utf8 cs) = Ok q /\ status q = STATUS_SUCCESS.
Proof.
  intros Hcs. pose proof (utf8_run_encoded [] cs [] (S (length (utf8 cs))) Hcs) as Hr.
  rewrite app_nil_r in Hr. cbn [app length Nat.add] in Hr. eexists. by rewrite (run8_query _ _ _ _ (Hr (le_n _))).
Qed.

(** C12. For every byte string and size of the destination,
    [RtlUTF8ToUnicodeN] returns without an access outside its buffers, from
    the size query (no destination) and from the conversion.  The query
    reports success exactly when the string is well-formed UTF-8: the encoding
    of a list of scalar values, with no overlong form, surrogate or truncated
    sequence.  There is a list of scalar values, the decoded text when the
    query succeeds, such that the query returns the size of its UTF-16
    encoding and the conversion writes exactly as many code units of that
    encoding as the destination has room for; when there is room for all of
    them, the conversion returns the status and the size of the query. *)
Theorem RtlUTF8ToUnicodeN_accepts_utf8 src dstlen :
  Forall byte src -> 0 <= dstlen ->
  exists cs q r, Forall scalar cs /\ query8 src = Ok q /\ convert8 dstlen src = Ok r /\
    (status q = STATUS_SUCCESS <-> exists es, Forall scalar es /\ src = utf8 es) /\
    (status q = STATUS_SUCCESS -> src = utf8 cs) /\
    reslen q = Some (u32 (Z.of_nat (length (utf16 cs)) * 2)) /\
    written r = take (Z.to_nat (dstlen / 2)) (utf16 cs) /\
    (2 * Z.of_nat (length (utf16 cs)) <= dstlen -> status r = status q /\ reslen r = reslen q).
Proof.
  intros HF Hd. destruct (query_and_convert src dstlen HF Hd) as (cs & q & r & Hcs & Hq & Hr & Hl & Hw & Hs & Hfit).
  exists cs, q, r. split_and!; try done. split; [intros H; exists cs; auto|].
  intros (es & Hes & ->). destruct (query8_encoded es Hes) as (q' & Hq' & Hs'). congruence.
Qed.

Lemma RtlUTF8ToUnicodeN_accepts_utf8_witness :
  exists cs q r, query8 [0xe2; 0x82; 0xac; 0xff] = Ok q /\ convert8 4 [0xe2; 0x82; 0xac; 0xff] = Ok r /\ Forall scalar cs.
Proof.
  destruct (RtlUTF8ToUnicodeN_accepts_utf8 [0xe2; 0x82; 0xac; 0xff] 4) as (cs & q & r & Hcs & Hq & Hr & _);
    [unfold byte; forall_lia|lia|by exists cs, q, r].
Defined.

(** C18. Round trip from UTF-16: for every well-formed UTF-16 text and
    sufficient buffers, [RtlUnicodeToUTF8N] succeeds and [RtlUTF8ToUnicodeN]
    maps its output back to the text. *)
Theorem utf16_utf8_roundtrip cs dstlen dstlen' :
  Forall scalar cs -> (length (utf8 cs) <= dstlen)%nat ->
  2 * Z.of_nat (length (utf16 cs)) <= dstlen' ->
  exists r r', convert16 dstlen (utf16 cs) = Ok r /\ status r = STATUS_SUCCESS /\
    written r = utf8 cs /\ convert8 dstlen' (written r) = Ok r' /\
    status r' = STATUS_SUCCESS /\ written r' = utf16 cs.
Proof.
  intros Hcs H1 H2.
  pose proof (utf16_run_encoded [] cs [] (S (length (utf16 cs))) Hcs (le_n _)) as R16.
  pose proof (utf8_run_encoded [] cs [] (S (length (utf8 cs))) Hcs (le_n _)) as R8.
  rewrite app_nil_r in R16, R8. cbn [app length Nat.add] in R16, R8.
  eexists _, _. rewrite (run16_convert _ _ _ dstlen R16). rewrite fit_all by done.
  rewrite decide_True by done. split_and!; [done|done|done|cbn [written]; by rewrite (run8_fit _ _ _ _ dstlen' R8)|done|done].
Qed.

Lemma utf16_utf8_roundtrip_witness :
  exists r r', convert16 7 (utf16 [0x20ac; 0x1f600]) = Ok r /\
    convert8 6 (written r) = Ok r' /\ written r' = [0x20ac; 0xd83d; 0xde00].
Proof.
  destruct (utf16_utf8_roundtrip [0x20ac; 0x1f600] 7 6)
    as (r & r' & H1 & _ & _ & H2 & _ & H3); [unfold scalar; forall_lia|apply Nat.leb_le; reflexivity|apply Z.leb_le; reflexivity|].
  exists r, r'. split; [exact H1|]. split; [exact H2|]. rewrite H3. reflexivity.
Defined.

(** For every sequence of 16-bit code units, well-formed or not,
    [RtlUnicodeToUTF8N] returns, the size query gives the size of the full
    conversion, and the bytes written are the well-formed UTF-8 encoding of
    the longest run of whole characters that fits [dstlen], characters of the
    text itself when the query succeeds; the status is
    BUFFER_TOO_SMALL exactly when a character is left over, and otherwise that
    of the query. *)
Theorem RtlUnicodeToUTF8N_converts src dstlen :
  Forall wchar src ->
  exists cs q r, Forall scalar cs /\ query16 src = Ok q /\ convert16 dstlen src = Ok r /\
    reslen q = Some (u32 (Z.of_nat (length (utf8 cs)))) /\
    (status q = STATUS_SUCCESS -> src = utf16 cs) /\
    written r = utf8 (fit dstlen cs) /\ (length (written r) <= dstlen)%nat /\
    reslen r = Some (Z.of_nat (length (written r))) /\
    (fit dstlen cs = cs -> status r = status q) /\
    (fit dstlen cs <> cs -> status r = STATUS_BUFFER_TOO_SMALL).
Proof.
  intros HF. destruct (utf16_run_exists src HF (S (length src)) 0 (length src)) as (cs & bad & Hr);
    [lia|lia|]. exists cs. rewrite (run16_query _ _ _ Hr), (run16_convert _ _ _ dstlen Hr).
  eexists _, _. split_and!; [apply Hr|done|done|done| |done|apply fit_length|done| |]; simpl; intros.
  - assert (bad = false) as Hb by by destruct bad.
    pose proof (urun_valid _ _ _ _ _ _ Hr Hb) as E. by rewrite drop_0, firstn_all in E.
  - by rewrite decide_True.
  - by rewrite decide_False.
Qed.

Lemma RtlUnicodeToUTF8N_converts_witness :
  exists cs q, query16 [0x41; 0xd800; 0xe9] = Ok q /\
    reslen q = Some (u32 (Z.of_nat (length (utf8 cs)))).
Proof.
  destruct (RtlUnicodeToUTF8N_converts [0x41; 0xd800; 0xe9] 4)
    as (cs & q & r & _ & Hq & _ & Hl & _); [unfold wchar; forall_lia|eauto].
Defined.

(** A conversion that runs out of room in the middle of a surrogate pair
    at the end of the text reports success: the four bytes of U+10000 with
    room for one code unit yield a lone high surrogate and STATUS_SUCCESS,
    although the size query asks for two code units. *)
Theorem RtlUTF8ToUnicodeN_truncated_pair :
  convert8 2 [0xf0; 0x90; 0x80; 0x80] = Ok (ConvResult STATUS_SUCCESS (Some 2) [0xd800]) /\
  query8 [0xf0; 0x90; 0x80; 0x80] = Ok (ConvResult STATUS_SUCCESS (Some 4) []).
Proof. by vm_compute. Qed.

End Utf8.
