(* ===== verification/Normalize.v ===== *)
(** * Unicode normalisation (oca/extensions/ntext/rtl/locale.c)

    The data file of a normalisation form is an array of 16-bit words whose
    header fields are word offsets into the same array; [info] below is that
    array, so that an access outside the file is a fault of the model. *)
From S2P Require Import Prelude Utf.
Import Utf16.

(** ** The data file *)
Module NormTable.

(** Word offsets of the fields of [struct norm_table]. *)
Definition f_form : nat := 0x14.
Definition f_len_factor : nat := 0x15.
Definition f_decomp_size : nat := 0x17.
Definition f_comp_size : nat := 0x18.
Definition f_classes : nat := 0x1a.
Definition f_props_level1 : nat := 0x1b.
Definition f_props_level2 : nat := 0x1c.
Definition f_decomp_hash : nat := 0x1d.
Definition f_decomp_map : nat := 0x1e.
Definition f_decomp_seq : nat := 0x1f.
Definition f_comp_hash : nat := 0x20.
Definition f_comp_seq : nat := 0x21.

(** [((const BYTE * )((const USHORT * )info + off))[i]], little endian. *)
Definition rd_byte (info : list Z) (off i : Z) : outcome Z :=
  w ← rd info (Z.to_nat (off + i / 2));
  Ok (if Z.even i then w mod 256 else w / 256).

(** [((const USHORT * )info + off)[i]] *)
Definition rd_word (info : list Z) (off i : Z) : outcome Z :=
  rd info (Z.to_nat (off + i)).

(** The [rol] macro of ntext/main.h, stored in a [BYTE]. *)
Definition rol (value bits : Z) : Z :=
  u8 (Z.lor (Z.shiftl value bits) (Z.shiftr value (32 - bits))).

Definition get_char_props (info : list Z) (ch : Z) : outcome Z :=
  level1 ← rd info f_props_level1;
  level2 ← rd info f_props_level2;
  off ← rd_byte info level1 (ch / 128);
  if (off =? 0) || (0xfb <=? off) then Ok (rol off 5)
  else rd_byte info level2 ((off - 1) * 128 + ch mod 128).

Definition get_combining_class (info : list Z) (c : Z) : outcome Z :=
  classes ← rd info f_classes;
  props ← get_char_props info c;
  let class := Z.land props 0x3f in
  if class =? 0x3f then Ok 0 else rd_byte info classes class.

Definition is_starter (info : list Z) (c : Z) : outcome bool :=
  class ← get_combining_class info c;
  Ok (class =? 0).

Definition reorderable_pair (info : list Z) (c1 c2 : Z) : outcome bool :=
  ccc1 ← get_combining_class info c1;
  if ccc1 <? 2 then Ok false
  else
    ccc2 ← get_combining_class info c2;
    Ok (negb (ccc2 =? 0) && (ccc2 <? ccc1)).

(** The sanity checks of [load_norm_table] on the eight table offsets. *)
Fixpoint check_tables (data : list Z) (words : Z) (i fuel : nat) : outcome bool :=
  match fuel with
  | O => Ok true
  | S fuel =>
    t ← rd data (0x1a + i);
    if words <? t then Ok false
    else if (i =? 0)%nat then check_tables data words (S i) fuel
    else
      prev ← rd data (0x1a + (i - 1));
      if t <? prev then Ok false else check_tables data words (S i) fuel
  end.

Section Load.
(** [NtGetNlsSectionPtr( NLS_SECTION_NORMALIZE, form, ... )]: the status, the
    words of the file and its size in bytes. *)
Context (NtGetNlsSectionPtr : Z -> Z * list Z * Z).

(** [load_norm_table( form, &info )]: the status, [*info] on success and the
    cache [norm_tables] of 16 entries afterwards. *)
Definition load_norm_table (norm_tables : list (option (list Z))) (form : Z)
    : outcome (Z * option (list Z) * list (option (list Z))) :=
  if form =? 0 then Ok (STATUS_INVALID_PARAMETER, None, norm_tables)
  else if 16 <=? form then Ok (STATUS_OBJECT_NAME_NOT_FOUND, None, norm_tables)
  else match norm_tables !! Z.to_nat form with
  | None => Fault
  | Some (Some info) => Ok (STATUS_SUCCESS, Some info, norm_tables)
  | Some None =>
    let '(st, data, size) := NtGetNlsSectionPtr form in
    if negb (st =? STATUS_SUCCESS) then Ok (st, None, norm_tables)
    else if size <=? 0x44 then Ok (STATUS_INVALID_PARAMETER, None, norm_tables)
    else
      f ← rd data 0x14;
      if negb (f =? form) then Ok (STATUS_INVALID_PARAMETER, None, norm_tables)
      else
        ok ← check_tables data (size / 2) 0 8;
        if ok : bool
        then Ok (STATUS_SUCCESS, Some data, <[Z.to_nat form := Some data]> norm_tables)
        else Ok (STATUS_INVALID_PARAMETER, None, norm_tables)
  end.
End Load.

(** *** Well-formed files *)

(** A field of the header. *)
Definition field (info : list Z) (f : nat) : Z :=
  match rd info f with Ok v => v | _ => 0 end.

(** The property tables lie inside the file: the level-1 index covers the
    0x2200 blocks of Unicode, the level-2 blocks it names exist, and there
    are the 63 combining classes that [class < 0x3f] can select. *)
Definition block_inside (level2 size off : Z) : bool :=
  negb ((0 <? off) && (off <? 0xfb)) || (level2 + 64 * off <=? size).

Definition blocks_inside (level2 size w : Z) : bool :=
  block_inside level2 size (w mod 256) && block_inside level2 size (w / 256).

Record wf_table (info : list Z) : Prop := {
  wf_words : Forall wchar info;
  wf_size : (0x22 <= length info)%nat;
  wf_level1 : field info f_props_level1 + 0x1100 <= Z.of_nat (length info);
  wf_level2 :
    Forall (fun w => blocks_inside (field info f_props_level2) (Z.of_nat (length info)) w = true)
    (take (Z.to_nat 0x1100) (drop (Z.to_nat (field info f_props_level1)) info));
  wf_classes : field info f_classes + 32 <= Z.of_nat (length info);
}.

Section WellFormed.
Context (info : list Z) (Hwf : wf_table info).

Lemma field_ok f : (f < 0x22)%nat -> rd info f = Ok (field info f) /\ wchar (field info f).
Proof.
  intros Hf. destruct (rd_lt info f) as [v Hv]; [pose proof (wf_size _ Hwf); lia|].
  unfold field. rewrite Hv. split; [done|]. exact (Forall_lookup_rd _ _ _ _ (wf_words _ Hwf) Hv).
Qed.

Lemma rd_byte_total off i :
  0 <= off -> 0 <= i < 2 * (Z.of_nat (length info) - off) ->
  exists v, rd_byte info off i = Ok v /\ 0 <= v < 0x100.
Proof.
  intros Ho Hi. unfold rd_byte. destruct (rd_lt info (Z.to_nat (off + i / 2))) as [w Hw]; [dlia|].
  pose proof (Forall_lookup_rd _ _ _ _ (wf_words _ Hwf) Hw) as Hr. unfold wchar in Hr.
  rewrite Hw, bind_ok. eexists. split; [done|]. destruct (Z.even i); dlia.
Qed.

Lemma level2_inside i off :
  0 <= i < 0x2200 -> rd_byte info (field info f_props_level1) i = Ok off -> 0 < off < 0xfb ->
  field info f_props_level2 + 64 * off <= Z.of_nat (length info).
Proof.
  intros Hi Ho Hr. destruct (field_ok f_props_level1) as [_ H1]; [unfold f_props_level1; lia|].
  unfold rd_byte in Ho. apply bind_Ok_inv in Ho as (w & Hw%rd_Ok & Ho). injection Ho as Ho.
  unfold wchar in H1. rewrite Z2Nat.inj_add in Hw by dlia.
  pose proof (wf_level2 _ Hwf) as HF. rewrite Forall_lookup in HF.
  specialize (HF (Z.to_nat (i / 2)) w).
  rewrite lookup_take_lt, lookup_drop in HF by (apply Z2Nat.inj_lt; dlia).
  specialize (HF Hw). unfold blocks_inside, block_inside in HF. destruct (Z.even i); lia.
Qed.

Lemma get_char_props_total ch :
  0 <= ch < 0x110000 -> exists p, get_char_props info ch = Ok p /\ 0 <= p < 0x100.
Proof.
  intros Hch. unfold get_char_props.
  destruct (field_ok f_props_level1) as [-> H1]; [unfold f_props_level1; lia|].
  destruct (field_ok f_props_level2) as [-> H2]; [unfold f_props_level2; lia|].
  rewrite !bind_ok. unfold wchar in *. pose proof (wf_level1 _ Hwf).
  destruct (rd_byte_total (field info f_props_level1) (ch / 128)) as (off & Hoff & Hr); [lia|dlia|].
  rewrite Hoff, bind_ok. destruct ((off =? 0) || (0xfb <=? off)) eqn:E.
  - eexists. split; [done|]. unfold rol, u8. dlia.
  - apply rd_byte_total; [lia|].
    pose proof (level2_inside (ch / 128) off) as Hl2. specialize (Hl2 ltac:(dlia) Hoff). dlia.
Qed.

Lemma get_combining_class_total ch :
  0 <= ch < 0x110000 -> exists k, get_combining_class info ch = Ok k /\ 0 <= k < 0x100.
Proof.
  intros Hch. unfold get_combining_class.
  destruct (field_ok f_classes) as [-> H1]; [unfold f_classes; lia|].
  destruct (get_char_props_total ch Hch) as (p & -> & Hp). rewrite !bind_ok.
  change 0x3f with (2 ^ 6 - 1) at 1. change 0x3f with (2 ^ 6 - 1) at 2.
  rewrite land_ones_mod by lia. change (2 ^ 6) with 64. zcase; [by eexists|].
  unfold wchar in *. pose proof (wf_classes _ Hwf). apply rd_byte_total; dlia.
Qed.

End WellFormed.

(** *** The classes that a file gives

    A file is read as its format says: the entry of a block of 128 characters
    is the number of its property bytes or, when it is 0 or one of 0xfb..0xff,
    stands for 128 equal property bytes, the entry rotated left by five of its
    eight bits.  The six low bits of the property byte select the class. *)
Definition byte_at (info : list Z) (off i : Z) : Z :=
  match rd_byte info off i with Ok v => v | _ => 0 end.

Definition block_entry (info : list Z) (c : Z) : Z := byte_at info (field info f_props_level1) (c / 128).

Definition file_props (info : list Z) (c : Z) : Z :=
  let e := block_entry info c in
  if (e =? 0) || (0xfb <=? e) then (e * 32 + e / 8) mod 256
  else byte_at info (field info f_props_level2) ((e - 1) * 128 + c mod 128).

Definition file_class (info : list Z) (c : Z) : Z :=
  let k := file_props info c mod 64 in if k =? 63 then 0 else byte_at info (field info f_classes) k.

(** A character of a block that the file does not describe by one of the
    entries 0xfb..0xff, which the code does not rotate as it should. *)
Definition own_block (info : list Z) (c : Z) : Prop := scalar c /\ block_entry info c < 0xfb.

Lemma rd_byte_at info off i v : rd_byte info off i = Ok v -> byte_at info off i = v.
Proof. unfold byte_at. by intros ->. Qed.

(** The class of the characters of a block without properties. *)
Lemma file_class_empty_block info c : block_entry info c = 0 -> file_class info c = byte_at info (field info f_classes) 0.
Proof. intros H. unfold file_class, file_props. by rewrite H. Qed.

Lemma get_char_props_file info c : wf_table info -> own_block info c ->
  get_char_props info c = Ok (file_props info c) /\ 0 <= file_props info c < 0x100.
Proof.
  intros Hwf [Hc Hb]. destruct (get_char_props_total info Hwf c) as (p & Hp & Hr); [unfold scalar in Hc; lia|].
  enough (file_props info c = p) as -> by done. revert Hp. unfold get_char_props.
  destruct (field_ok info Hwf f_props_level1) as [-> H1]; [unfold f_props_level1; lia|].
  destruct (field_ok info Hwf f_props_level2) as [-> H2]; [unfold f_props_level2; lia|]. rewrite !bind_ok.
  intros (off & Hoff & Hp)%bind_Ok_inv. unfold file_props, block_entry in *. rewrite (rd_byte_at _ _ _ _ Hoff) in *.
  rewrite (proj2 (Z.leb_gt 0xfb off)) in * by done. destruct (Z.eqb_spec off 0) as [->|Hz]; cbn [orb] in *.
  - by injection Hp as <-.
  - by apply rd_byte_at.
Qed.

Lemma get_combining_class_file info c : wf_table info -> own_block info c ->
  get_combining_class info c = Ok (file_class info c) /\ 0 <= file_class info c.
Proof.
  intros Hwf Hc. destruct (get_combining_class_total info Hwf c) as (k & Hk & Hr); [unfold own_block, scalar in Hc; lia|].
  enough (file_class info c = k) as -> by (split; [done|lia]). revert Hk. unfold get_combining_class.
  destruct (field_ok info Hwf f_classes) as [-> _]; [unfold f_classes; lia|].
  destruct (get_char_props_file info c Hwf Hc) as [-> Hp]. rewrite !bind_ok.
  change 0x3f with (2 ^ 6 - 1) at 1. change 0x3f with (2 ^ 6 - 1) at 2. rewrite land_ones_mod by lia. change (2 ^ 6) with 64.
  change (2 ^ 6 - 1) with 63. unfold file_class. destruct (Z.eqb_spec (file_props info c mod 64) 63) as [_|_]; [by intros [= <-]|].
  intros Hk. by apply rd_byte_at.
Qed.

(** *** A small normalisation file

    The characters U+030A (class 230) and U+0323 (class 220), and U+00C5 that
    decomposes into U+0041 U+030A; everything else is a starter. *)
Fixpoint pack (bytes : list Z) : list Z :=
  match bytes with
  | lo :: hi :: bytes => lo + 256 * hi :: pack bytes
  | _ => []
  end.

Definition angstrom_table : list Z :=
  let header := replicate 0x14 0 ++ [2; 3; 0; 1; 1; 0;
    (* classes, levels 1 and 2 *) 0x22; 0x42; 0x1142;
    (* hash, map and sequences *) 0x11c2; 0x11c3; 0x11c7; 0x11ca; 0x11cc] in
  let classes := pack ([0; 230; 220] ++ replicate 61 0) in
  let level1 := pack ([0; 1; 0; 0; 0; 0; 2; 0] ++ replicate 0x21f8 0) in
  let block1 := pack (replicate 0x45 0 ++ [0x80] ++ replicate 0x3a 0) in
  let block2 := pack (replicate 0x0a 0 ++ [0xc1] ++ replicate 0x18 0 ++ [0xc2] ++ replicate 0x5c 0) in
  header ++ classes ++ level1 ++ block1 ++ block2 ++
  [0] ++ [0xc5; 0x4000; 0; 0] ++ [0x41; 0x30a; 0] ++ [0; 3] ++ [0x41; 0x30a; 0xc5].

(** The conditions on a file, checked by evaluation. *)
Definition table_check (info : list Z) : bool :=
  forallb (fun u => (0 <=? u) && (u <? 0x10000)) info && (0x22 <=? length info)%nat &&
  (field info f_props_level1 + 0x1100 <=? Z.of_nat (length info)) &&
  forallb (blocks_inside (field info f_props_level2) (Z.of_nat (length info)))
    (take (Z.to_nat 0x1100) (drop (Z.to_nat (field info f_props_level1)) info)) &&
  (field info f_classes + 32 <=? Z.of_nat (length info)).

Lemma table_check_sound info : table_check info = true -> wf_table info.
Proof.
  unfold table_check. rewrite !andb_true_iff. intros ((((H1 & H2) & H3) & H4) & H5).
  split; [|by apply Nat.leb_le|lia| |lia].
  - apply Forall_forall. intros u Hu%list_elem_of_In.
    apply (proj1 (forallb_forall _ _) H1) in Hu. unfold wchar. lia.
  - apply Forall_forall. intros w Hw%list_elem_of_In. exact (proj1 (forallb_forall _ _) H4 _ Hw).
Qed.

Lemma angstrom_table_wf : wf_table angstrom_table.
Proof. apply table_check_sound. vm_compute. reflexivity. Qed.

(** A level-1 entry that stands for a whole block of 128 characters
    (0xfb..0xff) yields its three low bits in the top of the byte and zeros
    below: 0x60, 0x80, 0xa0, 0xc0 and 0xe0, and so none of the values 0x7f
    (unassigned), 0xbf (decomposes) and 0xff (Hangul or invalid) that the
    callers test for.  An 8-bit rotation would yield 0x7f, 0x9f, 0xbf, 0xdf
    and 0xff; the macro [rol] rotates 32 bits. *)
Theorem get_char_props_block_entry info ch level1 level2 off :
  rd info f_props_level1 = Ok level1 -> rd info f_props_level2 = Ok level2 ->
  rd_byte info level1 (ch / 128) = Ok off -> 0xfb <= off <= 0xff ->
  get_char_props info ch = Ok ((off - 0xf8) * 0x20) /\
  ~ In ((off - 0xf8) * 0x20) [0x7f; 0xbf; 0xff].
Proof.
  intros H1 H2 Ho Hr. split; [|simpl; lia].
  unfold get_char_props. rewrite H1, bind_ok, H2, bind_ok, Ho, bind_ok.
  rewrite (proj2 (Z.leb_le 0xfb off)), orb_true_r by lia.
  assert (off = 0xfb \/ off = 0xfc \/ off = 0xfd \/ off = 0xfe \/ off = 0xff) as Hc by lia.
  by destruct Hc as [->|[->|[->|[->| ->]]]].
Qed.

Lemma get_char_props_block_entry_witness :
  let info := replicate 0x1b 0 ++ [0x22; 0x22] ++ replicate 5 0 ++ replicate 172 0 ++ [0xff] in
  get_char_props info 0xac00 = Ok 0xe0.
Proof.
  intros info. destruct (get_char_props_block_entry info 0xac00 0x22 0x22 0xff) as [E _];
    [reflexivity|reflexivity|reflexivity|lia|exact E].
Defined.

End NormTable.

(** ** Hangul syllables *)
Module Hangul.

Definition HANGUL_SBASE := 0xac00.
Definition HANGUL_LBASE := 0x1100.
Definition HANGUL_VBASE := 0x1161.
Definition HANGUL_TBASE := 0x11a7.
Definition HANGUL_LCOUNT := 19.
Definition HANGUL_VCOUNT := 21.
Definition HANGUL_TCOUNT := 28.
Definition HANGUL_NCOUNT := HANGUL_VCOUNT * HANGUL_TCOUNT.
Definition HANGUL_SCOUNT := HANGUL_LCOUNT * HANGUL_NCOUNT.

(** The algorithmic decomposition of [get_decomposition]. *)
Definition decompose_hangul (ch : Z) : list Z :=
  let sindex := u16 (ch - HANGUL_SBASE) in
  let tindex := u16 (sindex mod HANGUL_TCOUNT) in
  let l := HANGUL_LBASE + sindex / HANGUL_NCOUNT in
  let v := HANGUL_VBASE + sindex mod HANGUL_NCOUNT / HANGUL_TCOUNT in
  if tindex =? 0 then [l; v] else [l; v; HANGUL_TBASE + tindex].

Definition compose_hangul (ch1 ch2 : Z) : Z :=
  let second :=
    if (HANGUL_SBASE <=? ch1) && (ch1 <? HANGUL_SBASE + HANGUL_SCOUNT) then
      let sindex := i32 (ch1 - HANGUL_SBASE) in
      if Z.rem sindex HANGUL_TCOUNT =? 0 then
        let tindex := i32 (ch2 - HANGUL_TBASE) in
        if (0 <? tindex) && (tindex <? HANGUL_TCOUNT) then u32 (ch1 + tindex) else 0
      else 0
    else 0 in
  if (HANGUL_LBASE <=? ch1) && (ch1 <? HANGUL_LBASE + HANGUL_LCOUNT) then
    let lindex := i32 (ch1 - HANGUL_LBASE) in
    let vindex := i32 (ch2 - HANGUL_VBASE) in
    if (0 <=? vindex) && (vindex <? HANGUL_VCOUNT)
    then HANGUL_SBASE + (lindex * HANGUL_VCOUNT + vindex) * HANGUL_TCOUNT
    else second
  else second.

Definition is_syllable (ch : Z) : Prop :=
  HANGUL_SBASE <= ch < HANGUL_SBASE + HANGUL_SCOUNT.

#[global] Instance is_syllable_dec ch : Decision (is_syllable ch).
Proof. unfold is_syllable. apply _. Defined.

Ltac hangul := unfold is_syllable, HANGUL_SBASE, HANGUL_LBASE, HANGUL_VBASE, HANGUL_TBASE,
  HANGUL_SCOUNT, HANGUL_LCOUNT, HANGUL_NCOUNT, HANGUL_VCOUNT, HANGUL_TCOUNT in *.

(** The decomposition without the machine widths. *)
Lemma decompose_hangul_eq ch :
  is_syllable ch ->
  let s := ch - 0xac00 in
  decompose_hangul ch
  = [0x1100 + s / 588; 0x1161 + s mod 588 / 28] ++
    (if s mod 28 =? 0 then [] else [0x11a7 + s mod 28]).
Proof.
  unfold decompose_hangul. intros H. hangul. unfold u16.
  rewrite !(Z.mod_small (ch - 0xac00) (2 ^ 16)) by lia.
  rewrite (Z.mod_small ((ch - 0xac00) mod 28)) by dlia.
  change (21 * 28) with 588. by destruct (_ =? 0).
Qed.

Lemma compose_hangul_lv l v :
  0x1100 <= l < 0x1113 -> 0x1161 <= v < 0x1176 ->
  compose_hangul l v = 0xac00 + ((l - 0x1100) * 21 + (v - 0x1161)) * 28.
Proof.
  unfold compose_hangul. intros. hangul.
  rewrite !i32_small by lia. repeat (zcase; try lia; simpl); lia.
Qed.

Lemma compose_hangul_t ch t :
  is_syllable ch -> (ch - 0xac00) mod 28 = 0 -> 0x11a8 <= t < 0x11c3 ->
  compose_hangul ch t = ch + (t - 0x11a7).
Proof.
  unfold compose_hangul. intros Hch Hm Ht. hangul.
  rewrite !i32_small, u32_small by lia. rewrite Z.rem_mod_nonneg by lia.
  repeat (zcase; try lia; simpl); lia.
Qed.

(** Where a composition exists. *)
Lemma compose_hangul_inv ch1 ch2 :
  0 <= ch1 < 0x110000 -> 0 <= ch2 < 0x110000 -> compose_hangul ch1 ch2 <> 0 ->
  0x1100 <= ch1 < 0x1113 /\ 0x1161 <= ch2 < 0x1176 \/
  is_syllable ch1 /\ (ch1 - 0xac00) mod 28 = 0 /\ 0x11a8 <= ch2 < 0x11c3.
Proof.
  unfold compose_hangul. intros H1 H2. hangul.
  rewrite !i32_small by lia.
  repeat (zcase; simpl); try lia; intros Hne; right; split_and!; try lia;
    rewrite <- Z.rem_mod_nonneg; lia.
Qed.

(** The arithmetic Hangul (de)composition is a bijection: each of the
    11172 precomposed syllables decomposes into the jamo whose left-to-right
    composition is the syllable again, and a pair of characters composes only
    into the syllable whose decomposition is that pair (the first expanded
    when it is itself a syllable). *)
Theorem hangul_bijection :
  (forall ch, is_syllable ch ->
     match decompose_hangul ch with
     | [l; v] => compose_hangul l v = ch
     | [l; v; t] => compose_hangul (compose_hangul l v) t = ch
     | _ => False
     end) /\
  (forall ch1 ch2, 0 <= ch1 < 0x110000 -> 0 <= ch2 < 0x110000 ->
     compose_hangul ch1 ch2 <> 0 ->
     is_syllable (compose_hangul ch1 ch2) /\
     decompose_hangul (compose_hangul ch1 ch2)
     = (if decide (is_syllable ch1) then decompose_hangul ch1 else [ch1]) ++ [ch2]).
Proof.
  split.
  - intros ch Hch. rewrite decompose_hangul_eq by done.
    assert (compose_hangul (0x1100 + (ch - 0xac00) / 588) (0x1161 + (ch - 0xac00) mod 588 / 28)
            = ch - (ch - 0xac00) mod 28) as E.
    { hangul. rewrite compose_hangul_lv by dlia. dlia. }
    zcase; simpl; rewrite E; [lia|]. hangul. rewrite compose_hangul_t; hangul; dlia.
  - intros ch1 ch2 H1 H2 Hne. destruct (compose_hangul_inv ch1 ch2) as [[? ?]|(Hs & Hm & ?)]; try done.
    + rewrite compose_hangul_lv by done. rewrite decide_False by (hangul; lia).
      assert (is_syllable (0xac00 + ((ch1 - 0x1100) * 21 + (ch2 - 0x1161)) * 28)) by (hangul; lia).
      split; [done|]. rewrite decompose_hangul_eq by done.
      rewrite (proj2 (Z.eqb_eq _ 0)) by dlia. simpl. repeat f_equal; dlia.
    + rewrite compose_hangul_t by done. rewrite decide_True by done.
      assert (is_syllable (ch1 + (ch2 - 0x11a7))) by (hangul; dlia).
      split; [done|]. rewrite !decompose_hangul_eq by done.
      rewrite (proj2 (Z.eqb_eq (_ mod 28) 0) Hm).
      rewrite (proj2 (Z.eqb_neq (_ mod 28) 0)) by dlia. simpl. hangul.
      f_equal; [dlia|]. f_equal; [dlia|]. f_equal. dlia.
Qed.

Lemma hangul_bijection_witness :
  compose_hangul 0x1112 0x1161 <> 0 /\ decompose_hangul 0xd55c = [0x1112; 0x1161; 0x11ab] /\
  decompose_hangul (compose_hangul 0x1112 0x1161) = [0x1112; 0x1161].
Proof.
  split; [discriminate|]. split; [reflexivity|].
  destruct hangul_bijection as [_ H]. apply (H 0x1112 0x1161); [lia|lia|discriminate].
Defined.

End Hangul.

(** ** Decomposition and canonical order *)
Module Norm.
Import NormTable Hangul.

(** [for (i = hash + 1; i < info->decomp_size; i++) if (!(hash_table[i] >> 13)) break;] *)
Fixpoint bucket_next (fuel : nat) (info : list Z) (hash_table decomp_size i : Z) : outcome Z :=
  match fuel with
  | O => NoFuel
  | S fuel =>
    if i <? decomp_size then
      w ← rd_word info hash_table i;
      if Z.shiftr w 13 =? 0 then Ok i
      else bucket_next fuel info hash_table decomp_size (i + 1)
    else Ok i
  end.

(** [for (end = pos; pairs[end].src; end++) ;] *)
Fixpoint pairs_end (fuel : nat) (info : list Z) (decomp_map fin : Z) : outcome Z :=
  match fuel with
  | O => NoFuel
  | S fuel =>
    src ← rd_word info decomp_map (2 * fin);
    if src =? 0 then Ok fin else pairs_end fuel info decomp_map (fin + 1)
  end.

(** The search of the bucket: the [dst] word of the pair found, if any. *)
Fixpoint find_pair (fuel : nat) (info : list Z) (decomp_map pos fin ch : Z)
    : outcome (option Z) :=
  match fuel with
  | O => NoFuel
  | S fuel =>
    if pos <? fin then
      src ← rd_word info decomp_map (2 * pos);
      if negb (src =? u16 ch) then find_pair fuel info decomp_map (pos + 1) fin ch
      else dst ← rd_word info decomp_map (2 * pos + 1); Ok (Some dst)
    else Ok None
  end.

(** [while (ret[len]) len++;] *)
Fixpoint seq_len (fuel : nat) (info : list Z) (ret len : Z) : outcome Z :=
  match fuel with
  | O => NoFuel
  | S fuel =>
    c ← rd_word info ret len;
    if c =? 0 then Ok len else seq_len fuel info ret (len + 1)
  end.

(** The tail of [get_decomposition]: the sequence [ret] of [pos >> 13] code
    units, or up to its terminator when that is 7. *)
Definition decomp_sequence (info : list Z) (decomp_seq w : Z) : outcome (list Z) :=
  let ret := decomp_seq + Z.land w 0x1fff in
  let len := Z.shiftr w 13 in
  len ← (if len =? 7 then seq_len (S (length info)) info ret len else Ok len);
  c0 ← rd_word info ret 0;
  let len := if c0 =? 0 then 0 else len in
  rd_list info (Z.to_nat ret) (Z.to_nat len).

(** [get_decomposition( info, ch, props, buffer, &ret_len )]: the [ret_len]
    code units at the returned pointer, [None] for [NULL]. *)
Definition get_decomposition (info : list Z) (ch props : Z) : outcome (option (list Z)) :=
  hash_table ← rd info f_decomp_hash;
  buffer ← put_utf16 (replicate 3 0) 0 ch;
  let self := take (if 0x10000 <=? ch then 2 else 1) buffer in
  if (props =? 0) || (props =? 0x7f) then Ok (Some self)
  else if props =? 0xff then
    if (HANGUL_SBASE <=? ch) && (ch <? HANGUL_SBASE + HANGUL_SCOUNT)
    then Ok (Some (decompose_hangul ch))
    else if (HANGUL_LBASE <=? ch) && (ch <? HANGUL_LBASE + 0x100) then Ok (Some self)
    else if (HANGUL_SBASE <=? ch) && (ch <? HANGUL_SBASE + 0x2c00) then Ok (Some self)
    else Ok None
  else
    decomp_size ← rd info f_decomp_size;
    if decomp_size =? 0 then Fault (* division by zero *)
    else
      let hash := ch mod decomp_size in
      pos ← rd_word info hash_table hash;
      decomp_seq ← rd info f_decomp_seq;
      if negb (Z.shiftr pos 13 =? 0) then
        if negb (props =? 0xbf) then Ok (Some self)
        else s ← decomp_sequence info decomp_seq pos; Ok (Some s)
      else
        decomp_map ← rd info f_decomp_map;
        i ← bucket_next (S (Z.to_nat decomp_size)) info hash_table decomp_size (hash + 1);
        fin ← (if i <? decomp_size then rd_word info hash_table i
               else pairs_end (S (length info)) info decomp_map pos);
        p ← find_pair (S (Z.to_nat (fin - pos))) info decomp_map pos fin ch;
        match p with
        | None => Ok (Some self)
        | Some dst => s ← decomp_sequence info decomp_seq dst; Ok (Some s)
        end.

(** [memcpy( str + dst, str + src, n )] inside an array: undefined, and so a
    fault, when the two ranges overlap. *)
Definition memcpy (str : list Z) (dst src n : nat) : outcome (list Z) :=
  if (dst + n <=? src)%nat || (src + n <=? dst)%nat then v ← rd_list str src n; wr_list str dst v else Fault.

(** One pass of [canonical_order_substring] over the [len] code units at
    [off]; both callers pass [len >= 2].  The result is the array and
    [swapped]. *)
Fixpoint order_pass (fuel : nat) (info str : list Z) (off len i : nat) (swapped : bool)
    : outcome (list Z * bool) :=
  match fuel with
  | O => NoFuel
  | S fuel =>
    if (i <? len - 1)%nat then
      r1 ← get_utf16 str (off + i) (len - i);
      match r1 with
      | None => Ok (str, swapped)
      | Some (len1, ch1) =>
        if (len <=? i + len1)%nat then Ok (str, swapped)
        else
          r2 ← get_utf16 str (off + i + len1) (len - i - len1);
          match r2 with
          | None => Ok (str, swapped)
          | Some (len2, ch2) =>
            reorder ← reorderable_pair info ch1 ch2;
            if reorder : bool then
              tmp ← rd_list str (off + i) len1;
              str ← memcpy str (off + i) (off + i + len1) len2;
              str ← wr_list str (off + i + len2) tmp;
              (* i += len2 - len1, then the i += len1 of the loop *)
              order_pass fuel info str off len (i + len2) true
            else order_pass fuel info str off len (i + len1) swapped
          end
      end
    else Ok (str, swapped)
  end.

Fixpoint canonical_order_substring (fuel : nat) (info str : list Z) (off len : nat)
    : outcome (list Z) :=
  match fuel with
  | O => NoFuel
  | S fuel =>
    '(str, swapped) ← order_pass (S len) info str off len 0 false;
    if swapped : bool then canonical_order_substring fuel info str off len else Ok str
  end.

(** Passes needed at most: one per pair of positions, and the last. *)
Definition order_fuel (len : nat) : nat := S (len * len).

Fixpoint order_loop (fuel : nat) (info str : list Z) (len i next : nat) : outcome (list Z) :=
  match fuel with
  | O => NoFuel
  | S fuel =>
    if (i <? len)%nat then
      r ← get_utf16 str i (len - i);
      match r with
      | None => Ok str
      | Some (r, ch) =>
        starter ← (if (i =? 0)%nat then Ok false else is_starter info ch);
        if starter : bool then
          str ← (if (next + 1 <? i)%nat
                 then canonical_order_substring (order_fuel len) info str next (i - next)
                 else Ok str);
          order_loop fuel info str len (i + r) (i + r)
        else order_loop fuel info str len (i + r) next
      end
    else if (next + 1 <? i)%nat
    then canonical_order_substring (order_fuel len) info str next (i - next)
    else Ok str
  end.

Definition canonical_order_string (info str : list Z) (len : nat) : outcome (list Z) :=
  order_loop (S len) info str len 0 0.

(** A signed 32-bit result; overflow is undefined behaviour. *)
Definition sint (z : Z) : outcome Z :=
  if (- 2 ^ 31 <=? z) && (z <? 2 ^ 31) then Ok z else Fault.

(** The loop of [decompose_string]: [inl] is an early return with its status
    and [*dst_len], [inr] the final [dst_pos]. *)
Fixpoint decompose_loop (fuel : nat) (info src : list Z) (src_len : Z) (src_pos : nat)
    (dst : list Z) (dst_pos : nat) (dst_len : Z) : outcome (list Z * (Z * Z + nat)) :=
  match fuel with
  | O => NoFuel
  | S fuel =>
    if Z.of_nat src_pos <? src_len then
      r ← get_utf16 src src_pos (Z.to_nat src_len - src_pos);
      match r with
      | None =>
        c ← rd src src_pos;
        Ok (dst, inl (STATUS_NO_UNICODE_TRANSLATION,
                      Z.of_nat src_pos + if IS_HIGH_SURROGATE c then 1 else 0))
      | Some (len, ch) =>
        props ← get_char_props info ch;
        decomp ← get_decomposition info ch props;
        match decomp with
        | None =>
          if (ch =? 0) && (Z.of_nat src_pos =? src_len - 1) && (Z.of_nat dst_pos <? dst_len)
          then dst ← wr dst dst_pos 0; Ok (dst, inr (S dst_pos))
          else Ok (dst, inl (STATUS_NO_UNICODE_TRANSLATION, Z.of_nat src_pos))
        | Some decomp =>
          if u32 dst_len <? Z.of_nat (dst_pos + length decomp) then
            len_factor ← rd info f_len_factor;
            extra ← sint ((src_len - Z.of_nat src_pos) * len_factor);
            dst_len ← sint (dst_len + extra);
            Ok (dst, inl (STATUS_BUFFER_TOO_SMALL, dst_len))
          else
            dst ← wr_list dst dst_pos decomp;
            decompose_loop fuel info src src_len (src_pos + len)
              dst (dst_pos + length decomp) dst_len
        end
      end
    else Ok (dst, inr dst_pos)
  end.

(** [decompose_string( info, src, src_len, dst, &dst_len )]: the status, the
    array [dst] and [*dst_len]. *)
Definition decompose_string (info src : list Z) (src_len : Z) (dst : list Z) (dst_len : Z)
    : outcome (Z * list Z * Z) :=
  '(dst, r) ← decompose_loop (S (Z.to_nat src_len)) info src src_len 0 dst 0 dst_len;
  match r with
  | inl (st, dst_len) => Ok (st, dst, dst_len)
  | inr dst_pos =>
    dst ← canonical_order_string info dst dst_pos;
    Ok (STATUS_SUCCESS, dst, Z.of_nat dst_pos)
  end.

(** *** Composition *)

(** The unsigned [end - start]. *)
Definition units_left (fin start : nat) : nat := Z.to_nat (u32 (Z.of_nat fin - Z.of_nat start)).

(** [for (i = 0; i < 3; i++, start += len) len = get_utf16( chars + start,
    end - start, ch + i );] as one triple; an unpaired surrogate leaves [ch[i]]
    as it was, which the comparison after the loop would read: a fault. *)
Definition read_triple (info : list Z) (comp_seq start fin : nat)
    : outcome (Z * Z * Z * nat) :=
  r0 ← get_utf16 info (comp_seq + start) (units_left fin start);
  match r0 with
  | None => Fault
  | Some (l0, c0) =>
    let start := (start + l0)%nat in
    r1 ← get_utf16 info (comp_seq + start) (units_left fin start);
    match r1 with
    | None => Fault
    | Some (l1, c1) =>
      let start := (start + l1)%nat in
      r2 ← get_utf16 info (comp_seq + start) (units_left fin start);
      match r2 with
      | None => Fault
      | Some (l2, c2) => Ok (c0, c1, c2, (start + l2)%nat)
      end
    end
  end.

Fixpoint compose_search (fuel : nat) (info : list Z) (comp_seq start fin : nat) (ch1 ch2 : Z)
    : outcome Z :=
  match fuel with
  | O => NoFuel
  | S fuel =>
    if (start <? fin)%nat then
      '(c0, c1, c2, start) ← read_triple info comp_seq start fin;
      if (c0 =? ch1) && (c1 =? ch2) then Ok c2
      else compose_search fuel info comp_seq start fin ch1 ch2
    else Ok 0
  end.

Definition compose_chars (info : list Z) (ch1 ch2 : Z) : outcome Z :=
  comp_hash ← rd info f_comp_hash;
  comp_seq ← rd info f_comp_seq;
  comp_size ← rd info f_comp_size;
  if comp_size =? 0 then Fault (* division by zero *)
  else
    let hash := u32 (ch1 + 95 * ch2) mod comp_size in
    start ← rd_word info comp_hash hash;
    fin ← rd_word info comp_hash (hash + 1);
    compose_search (S (Z.to_nat fin)) info (Z.to_nat comp_seq) (Z.to_nat start) (Z.to_nat fin)
      ch1 ch2.

(** [compose_hangul( ch1, ch2 )] or, failing that, [compose_chars]. *)
Definition compose_pair (info : list Z) (ch1 ch2 : Z) : outcome Z :=
  let comp := compose_hangul ch1 ch2 in
  if comp =? 0 then compose_chars info ch1 ch2 else Ok comp.

Definition unit_len (ch : Z) : nat := if 0x10000 <=? ch then 2 else 1.

(** The replacement of the starter at [last_starter] and the character of
    [len] units at [i] by [comp]: the array and the new [srclen]. *)
Definition replace_pair (str : list Z) (srclen last_starter i len : nat) (start_ch comp : Z)
    : outcome (list Z * nat) :=
  let comp_len := unit_len comp in
  let start_len := unit_len start_ch in
  str ← (if (comp_len =? start_len)%nat then Ok str
         else
           v ← rd_list str (last_starter + start_len) (i - (last_starter + start_len));
           wr_list str (last_starter + comp_len) v);
  v ← rd_list str (i + len) (srclen - i - len);
  str ← wr_list str (i + comp_len - start_len) v;
  str ← put_utf16 str last_starter comp;
  Ok (str, (srclen + comp_len - start_len - len)%nat).

(** The loop of [compose_string]. *)
Fixpoint compose_loop (fuel : nat) (info str : list Z) (srclen i last_starter : nat)
    (start_ch prev_class : Z) : outcome (list Z * nat) :=
  match fuel with
  | O => NoFuel
  | S fuel =>
    if (i <? srclen)%nat then
      r ← get_utf16 str i (srclen - i);
      match r with
      | None => Ok (str, 0%nat)
      | Some (len, ch) =>
        class ← get_combining_class info ch;
        let next :=
          if class =? 0 then compose_loop fuel info str srclen (i + len) i ch class
          else compose_loop fuel info str srclen (i + len) last_starter start_ch class in
        if (last_starter =? srclen)%nat || (negb (prev_class =? 0) && (class <=? prev_class))
        then next
        else
          comp ← compose_pair info start_ch ch;
          if comp =? 0 then next
          else
            '(str, srclen) ← replace_pair str srclen last_starter i len start_ch comp;
            compose_loop fuel info str srclen (last_starter + unit_len comp) last_starter comp 0
      end
    else Ok (str, srclen)
  end.

(** Each composition removes a character and restarts the scan after the
    starter. *)
Definition compose_fuel (srclen : nat) : nat := S (S srclen * S srclen).

(** [compose_string( info, str, srclen )]: the array and the returned length. *)
Definition compose_string (info str : list Z) (srclen : nat) : outcome (list Z * nat) :=
  compose_loop (compose_fuel srclen) info str srclen 0 srclen 0 0.

Definition IDN_ALLOW_UNASSIGNED := 0x01.
Definition IDN_USE_STD3_ASCII_RULES := 0x02.

(** [flags & bit] as a condition. *)
Definition flag (flags bit : Z) : bool := negb (Z.land flags bit =? 0).

(** The body of the loop of [check_invalid_chars] for [buffer[i] = c]. *)
Definition invalid_char (info : list Z) (flags : Z) (buffer : list Z) (i : nat) (c : Z)
    : outcome bool :=
  bad ← (if (c =? 0x200c) || (c =? 0x200d) then
           if (i =? 0)%nat then Ok true
           else
             p ← rd buffer (i - 1);
             class ← get_combining_class info p;
             Ok (negb (class =? 9))
         else if (c =? 0x2260) || (c =? 0x226e) || (c =? 0x226f)
         then Ok (flag flags IDN_USE_STD3_ASCII_RULES)
         else Ok false);
  if bad : bool then Ok true
  else
    props ← get_char_props info c;
    if props =? 0xbf then Ok true
    else if props =? 0xff then
      Ok (negb ((HANGUL_SBASE <=? c) && (c <? HANGUL_SBASE + 0x2c00)))
    else if props =? 0x7f then Ok (negb (flag flags IDN_ALLOW_UNASSIGNED))
    else Ok false.

Fixpoint invalid_loop (fuel : nat) (info : list Z) (flags : Z) (buffer : list Z) (i len : nat)
    : outcome bool :=
  match fuel with
  | O => NoFuel
  | S fuel =>
    if (i <? len)%nat then
      c ← rd buffer i;
      bad ← invalid_char info flags buffer i c;
      if bad : bool then Ok true else invalid_loop fuel info flags buffer (S i) len
    else Ok false
  end.

Definition check_invalid_chars (info : list Z) (flags : Z) (buffer : list Z) (len : nat)
    : outcome bool :=
  bad ← invalid_loop (S len) info flags buffer 0 len;
  if bad : bool then Ok true
  else if flag flags IDN_USE_STD3_ASCII_RULES && negb (len =? 0)%nat then
    first ← rd buffer 0;
    last ← rd buffer (len - 1);
    Ok ((first =? 45) || (last =? 45))
  else Ok false.

(** *** The entry points *)
Section Normalize.
(** The operating system: the section of a normalisation file, and the
    process heap, a fresh array of the given number of [WCHAR]s or [None]. *)
Context (NtGetNlsSectionPtr : Z -> Z * list Z * Z).
Context (RtlAllocateHeap : Z -> option (list Z)).

(** [for (;;)]: allocate and decompose until the buffer is large enough; the
    result is [None] when the allocation fails. *)
Fixpoint decompose_retry (fuel : nat) (info src : list Z) (src_len buf_len : Z)
    : outcome (option (Z * list Z * Z)) :=
  match fuel with
  | O => NoFuel
  | S fuel =>
    match RtlAllocateHeap buf_len with
    | None => Ok None
    | Some buf =>
      '(status, buf, buf_len) ← decompose_string info src src_len buf buf_len;
      if negb (status =? STATUS_BUFFER_TOO_SMALL) then Ok (Some (status, buf, buf_len))
      else decompose_retry fuel info src src_len buf_len
    end
  end.

(** Each retry adds at least one code unit, and a character decomposes into
    fewer code units than the file has. *)
Definition retry_fuel (info src : list Z) : nat := S (length src * length info).

(** [RtlNormalizeString( form, src, src_len, dst, &dst_len )] once the table
    is loaded: the status, the array [dst] and [*dst_len]. *)
Definition normalize_with (info src : list Z) (src_len : Z) (dst : list Z) (dst_len : Z)
    : outcome (Z * list Z * Z) :=
  src_len ← (if src_len =? -1 then n ← wcslen src 0; Ok (Z.of_nat n + 1) else Ok src_len);
  len_factor ← rd info f_len_factor;
  comp_size ← rd info f_comp_size;
  if dst_len =? 0 then
    dst_len ← sint (src_len * len_factor);
    dst_len ← (if 64 <? dst_len then n ← sint (src_len + src_len ÷ 8); Ok (Z.max 64 n)
               else Ok dst_len);
    Ok (STATUS_SUCCESS, dst, dst_len)
  else if src_len =? 0 then Ok (STATUS_SUCCESS, dst, 0)
  else if comp_size =? 0 then decompose_string info src src_len dst dst_len
  else
    buf_len ← sint (src_len * 4);
    r ← decompose_retry (retry_fuel info src) info src src_len buf_len;
    match r with
    | None => Ok (STATUS_NO_MEMORY, dst, dst_len)
    | Some (status, buf, buf_len) =>
      if status =? STATUS_SUCCESS then
        '(buf, n) ← compose_string info buf (Z.to_nat buf_len);
        if Z.of_nat n <=? dst_len then
          v ← rd_list buf 0 n;
          dst ← wr_list dst 0 v;
          Ok (STATUS_SUCCESS, dst, Z.of_nat n)
        else Ok (STATUS_BUFFER_TOO_SMALL, dst, Z.of_nat n)
      else Ok (status, dst, buf_len)
    end.

Definition RtlNormalizeString (norm_tables : list (option (list Z))) (form : Z)
    (src : list Z) (src_len : Z) (dst : list Z) (dst_len : Z)
    : outcome (Z * list Z * Z * list (option (list Z))) :=
  '(status, info, norm_tables) ← load_norm_table NtGetNlsSectionPtr norm_tables form;
  match info with
  | None => Ok (status, dst, dst_len, norm_tables)
  | Some info =>
    '(status, dst, dst_len) ← normalize_with info src src_len dst dst_len;
    Ok (status, dst, dst_len, norm_tables)
  end.

(** [!wcsncmp( b1, b2, n )] *)
Fixpoint wcsncmp_eq (b1 b2 : list Z) (i n : nat) : outcome bool :=
  match n with
  | O => Ok true
  | S n =>
    c1 ← rd b1 i;
    c2 ← rd b2 i;
    if negb (c1 =? c2) then Ok false
    else if c1 =? 0 then Ok true
    else wcsncmp_eq b1 b2 (S i) n
  end.

(** The body of the quick-check loop for the character [ch] at [i]: [None]
    is the return of STATUS_NO_UNICODE_TRANSLATION, otherwise [result] and
    [last_class]. *)
Definition quick_check_char (info : list Z) (comp_size ch : Z) (final : bool)
    (last_class result : Z) : outcome (option (Z * Z)) :=
  if negb (comp_size =? 0) &&
     ((HANGUL_VBASE <=? ch) && (ch <? HANGUL_VBASE + HANGUL_VCOUNT) ||
      (HANGUL_TBASE <=? ch) && (ch <? HANGUL_TBASE + HANGUL_TCOUNT))
  then Ok (Some (-1, last_class))
  else if (comp_size =? 0) && (HANGUL_SBASE <=? ch) && (ch <? HANGUL_SBASE + HANGUL_SCOUNT)
  then Ok (Some (0, last_class))
  else
    props ← get_char_props info ch;
    let class := Z.land props 0x3f in
    if class =? 0x3f then
      if props =? 0xbf then Ok (Some (0, 0))
      else if props =? 0xff then
        if (HANGUL_LBASE <=? ch) && (ch <? HANGUL_LBASE + 0x100) then Ok (Some (result, 0))
        else if (HANGUL_SBASE <=? ch) && (ch <? HANGUL_SBASE + 0x2c00) then Ok (Some (result, 0))
        else if (ch =? 0) && final then Ok (Some (result, 0))
        else Ok None
      else Ok (Some (result, 0))
    else if negb (Z.land props 0x80 =? 0) then
      let result := if Z.land props 0xc0 =? 0xc0 then -1 else result in
      let result := if negb (class =? 0) && (class <? last_class) then 0 else result in
      Ok (Some (result, class))
    else Ok (Some (result, 0)).

(** [for (i = 0; i < len && result; i += r)]: [None] as above. *)
Fixpoint quick_check (fuel : nat) (info : list Z) (comp_size : Z) (str : list Z) (i len : nat)
    (last_class result : Z) : outcome (option Z) :=
  match fuel with
  | O => NoFuel
  | S fuel =>
    if (i <? len)%nat && negb (result =? 0) then
      g ← get_utf16 str i (len - i);
      match g with
      | None => Ok None
      | Some (r, ch) =>
        q ← quick_check_char info comp_size ch (i =? len - 1)%nat last_class result;
        match q with
        | None => Ok None
        | Some (result, last_class) =>
          quick_check fuel info comp_size str (i + r) len last_class result
        end
      end
    else Ok (Some result)
  end.

(** [RtlIsNormalizedString( form, str, len, &res )]: the status and [*res]
    when it is stored. *)
Definition RtlIsNormalizedString (norm_tables : list (option (list Z))) (form : Z)
    (str : list Z) (len : Z) : outcome (Z * option bool * list (option (list Z))) :=
  '(status, info, norm_tables) ← load_norm_table NtGetNlsSectionPtr norm_tables form;
  match info with
  | None => Ok (status, None, norm_tables)
  | Some info =>
    n ← (if len =? -1 then wcslen str 0 else Ok (Z.to_nat len));
    comp_size ← rd info f_comp_size;
    q ← quick_check (S n) info comp_size str 0 n 0 1;
    match q with
    | None => Ok (STATUS_NO_UNICODE_TRANSLATION, None, norm_tables)
    | Some result =>
      if result =? -1 then
        dstlen ← sint (Z.of_nat n * 4);
        match RtlAllocateHeap dstlen with
        | None => Ok (STATUS_NO_MEMORY, None, norm_tables)
        | Some buffer =>
          '(status, buffer, dstlen, norm_tables) ←
            RtlNormalizeString norm_tables form str (Z.of_nat n) buffer dstlen;
          if (status =? STATUS_SUCCESS) && (dstlen =? Z.of_nat n) then
            same ← wcsncmp_eq buffer str 0 n;
            Ok (STATUS_SUCCESS, Some same, norm_tables)
          else Ok (STATUS_SUCCESS, Some false, norm_tables)
        end
      else Ok (STATUS_SUCCESS, Some (negb (result =? 0)), norm_tables)
    end
  end.
End Normalize.

End Norm.
