(* ===== verification/Order.v ===== *)
(** * Canonical ordering (canonical_order_substring, canonical_order_string)

    The reference is Unicode's definition D109 on lists of code points: swap
    adjacent characters of which the first has a higher combining class than
    the second and neither is a starter, until there is no such pair.  The
    limit [canon] of this rewriting is unique; the code, which works in place
    on UTF-16 code units, computes it. *)
From S2P Require Import Prelude Utf Normalize.
Import Utf16 NormTable Norm.

(** ** The rewriting on code points *)
Section Canon.
Context (ccc : Z -> Z).

Definition reorderable (c d : Z) : bool := (0 <? ccc d) && (ccc d <? ccc c).

(** One exchange of an adjacent reorderable pair. *)
Inductive swap : list Z -> list Z -> Prop :=
| swap_here c d l : reorderable c d = true -> swap (c :: d :: l) (d :: c :: l)
| swap_later c l l' : swap l l' -> swap (c :: l) (c :: l').

Definition swaps : list Z -> list Z -> Prop := rtc swap.

(** No reorderable pair is left. *)
Fixpoint ordered (l : list Z) : bool :=
  match l with
  | c :: l => (match l with d :: _ => negb (reorderable c d) | [] => true end) && ordered l
  | [] => true
  end.

Lemma ordered_cons2 c d l :
  ordered (c :: d :: l) = negb (reorderable c d) && ordered (d :: l).
Proof. done. Qed.

(** The normal form, by insertion. *)
Fixpoint canon_insert (c : Z) (l : list Z) : list Z :=
  match l with
  | d :: l => if reorderable c d then d :: canon_insert c l else c :: d :: l
  | [] => [c]
  end.

Definition canon (l : list Z) : list Z := foldr canon_insert [] l.

Lemma canon_insert_comm c d l :
  reorderable c d = true ->
  canon_insert c (canon_insert d l) = canon_insert d (canon_insert c l).
Proof.
  unfold reorderable. intros Hr. induction l as [|e l IH]; simpl.
  - unfold reorderable. rewrite Hr. replace ((0 <? ccc c) && (ccc c <? ccc d)) with false by lia. done.
  - destruct (reorderable d e) eqn:Ed.
    + assert (reorderable c e = true) as Ec by (unfold reorderable in *; lia).
      simpl. rewrite Ec. simpl. by rewrite Ed, IH.
    + simpl. change (reorderable c d = true) in Hr. rewrite Hr. simpl.
      assert (reorderable d c = false) as Edc by (unfold reorderable in *; lia).
      destruct (reorderable c e); simpl; by rewrite ?Ed, ?Edc.
Qed.

Lemma swap_canon l l' : swap l l' -> canon l = canon l'.
Proof.
  induction 1 as [c d l Hr|c l l' _ IH]; simpl; [by apply canon_insert_comm|by rewrite IH].
Qed.

Lemma swaps_canon l l' : swaps l l' -> canon l = canon l'.
Proof. induction 1 as [|x y z Hs _ IH]; [done|]. rewrite <- IH. by apply swap_canon. Qed.

Lemma ordered_canon l : ordered l = true -> canon l = l.
Proof.
  induction l as [|c l IH]; simpl; [done|]. intros [Hh Hl]%andb_prop. rewrite IH by done.
  destruct l as [|d l]; [done|]. simpl. by destruct (reorderable c d).
Qed.

(** Every way of swapping until no pair is left ends in [canon]. *)
Lemma swaps_ordered_canon l l' : swaps l l' -> ordered l' = true -> l' = canon l.
Proof. intros Hs Ho. rewrite (swaps_canon _ _ Hs). symmetry. by apply ordered_canon. Qed.

Lemma swap_perm l l' : swap l l' -> Permutation l l'.
Proof. induction 1; [constructor|by constructor]. Qed.

Lemma swaps_perm l l' : swaps l l' -> Permutation l l'.
Proof. induction 1 as [|x y z ?%swap_perm _ IH]; [done|by etransitivity]. Qed.

Lemma swap_app_l k l l' : swap l l' -> swap (k ++ l) (k ++ l').
Proof. intros. induction k; simpl; [done|by constructor]. Qed.

Lemma swap_app_r k l l' : swap l l' -> swap (l ++ k) (l' ++ k).
Proof. induction 1; simpl; by constructor. Qed.

Lemma swaps_app a a' b b' : swaps a a' -> swaps b b' -> swaps (a ++ b) (a' ++ b').
Proof.
  intros Ha Hb. transitivity (a' ++ b).
  - induction Ha as [|x y z Hs _ IH]; [done|]. eapply rtc_l; [by apply swap_app_r|done].
  - induction Hb as [|x y z Hs _ IH]; [done|]. eapply rtc_l; [by apply swap_app_l|done].
Qed.

Lemma tc_swap_cons c l l' : tc swap l l' -> tc swap (c :: l) (c :: l').
Proof.
  induction 1 as [l l' Hs|l k l' Hs _ IH].
  - apply tc_once. by constructor.
  - eapply tc_l; [|done]. by constructor.
Qed.

(** Every exchange removes exactly one inversion. *)
Fixpoint inversions (l : list Z) : nat :=
  match l with
  | c :: l => length (filter (fun d => reorderable c d = true) l) + inversions l
  | [] => 0
  end.

Lemma swap_inversions l l' : swap l l' -> inversions l = S (inversions l').
Proof.
  induction 1 as [c d l Hr|c l l' Hs IH]; simpl.
  - rewrite !filter_cons, decide_True by done.
    rewrite decide_False by (unfold reorderable in *; lia). simpl. lia.
  - rewrite IH. rewrite (Permutation_length (filter_Permutation _ _ _ (swap_perm _ _ Hs))). lia.
Qed.

Lemma swaps_inversions l l' : swaps l l' -> (inversions l' <= inversions l)%nat.
Proof. induction 1 as [|x y z ?%swap_inversions _ IH]; lia. Qed.

Lemma tc_swap_inversions l l' : tc swap l l' -> (inversions l' < inversions l)%nat.
Proof. induction 1 as [l l' ?%swap_inversions|l k l' ?%swap_inversions _ IH]; lia. Qed.

Lemma inversions_bound l : (inversions l <= length l * length l)%nat.
Proof.
  induction l as [|c l IH]; simpl; [lia|].
  pose proof (length_filter (fun d => reorderable c d = true) l). nia.
Qed.

(** Order of a concatenation whose junction involves a starter. *)
Lemma ordered_app a b :
  ordered a = true -> ordered b = true ->
  (forall c d, last a = Some c -> head b = Some d -> reorderable c d = false) ->
  ordered (a ++ b) = true.
Proof.
  intros Ha Hb Hj. induction a as [|c a IH]; simpl in *; [done|].
  apply andb_prop in Ha as [Hh Ha]. destruct a as [|d a].
  - simpl. destruct b as [|e b]; [done|]. rewrite Hb, (Hj c e) by done. done.
  - simpl in *. rewrite Hh. simpl. apply IH; [done|]. intros. by apply Hj.
Qed.

Lemma canon_insert_perm c l : Permutation (c :: l) (canon_insert c l).
Proof.
  induction l as [|d l IH]; simpl; [done|]. destruct (reorderable c d); [|done].
  rewrite <- IH. constructor.
Qed.

Lemma canon_perm l : Permutation l (canon l).
Proof.
  induction l as [|c l IH]; simpl; [done|]. rewrite <- canon_insert_perm. by constructor.
Qed.

Lemma canon_insert_swaps c l : swaps (c :: l) (canon_insert c l).
Proof.
  induction l as [|d l IH]; simpl; [reflexivity|].
  destruct (reorderable c d) eqn:Er; [|reflexivity].
  eapply rtc_l; [by constructor|]. apply (swaps_app [d] [d]); [reflexivity|done].
Qed.

Lemma canon_swaps l : swaps l (canon l).
Proof.
  induction l as [|c l IH]; simpl; [reflexivity|].
  etransitivity; [|apply canon_insert_swaps]. by apply (swaps_app [c] [c]).
Qed.

Lemma canon_insert_ordered c l : ordered l = true -> ordered (canon_insert c l) = true.
Proof.
  induction l as [|d l IH]; [done|]. simpl. intros [Hh Hl]%andb_prop.
  destruct (reorderable c d) eqn:Er; [|simpl; by rewrite Er, Hh, Hl].
  specialize (IH Hl). assert (reorderable d c = false) as Edc by (unfold reorderable in *; lia).
  destruct l as [|e l]; simpl in *; [by rewrite Edc|].
  destruct (reorderable c e); [by rewrite Hh|by rewrite Edc].
Qed.

Lemma canon_ordered l : ordered (canon l) = true.
Proof. induction l as [|c l IH]; [done|]. by apply canon_insert_ordered. Qed.

(** A starter separates the reordering of its two sides. *)
Lemma canon_starter k s l : ccc s = 0 -> canon (k ++ s :: l) = canon k ++ s :: canon l.
Proof.
  intros Hs. induction k as [|c k IH]; simpl.
  - destruct (canon l) as [|d r]; simpl; [done|].
    replace (reorderable s d) with false by (unfold reorderable; lia). done.
  - rewrite IH. clear IH. induction (canon k) as [|d r IH]; simpl.
    + replace (reorderable c s) with false by (unfold reorderable; lia). done.
    + destruct (reorderable c d); [|done]. by rewrite IH.
Qed.

(** The code copies the characters of a pair with [memcpy]; when the first is
    one code unit and the second is two, the ranges overlap.  No such pair of
    characters of [l] has to change places. *)
Definition overlapping (c d : Z) : bool := reorderable c d && (c <? 0x10000) && (0x10000 <=? d).

Fixpoint overlap_free (l : list Z) : bool :=
  match l with c :: l => forallb (fun d => negb (overlapping c d)) l && overlap_free l | [] => true end.

Lemma overlap_free_app a b : overlap_free (a ++ b) = true -> overlap_free a = true /\ overlap_free b = true.
Proof.
  induction a as [|c a IH]; cbn [app overlap_free]; [done|]. rewrite forallb_app, !andb_true_iff. tauto.
Qed.

Lemma forallb_perm (f : Z -> bool) l l' : Permutation l l' -> forallb f l = forallb f l'.
Proof. induction 1; cbn [forallb]; try congruence. by rewrite !andb_assoc, (andb_comm (f y)). Qed.

(** The condition says the same about every intermediate text. *)
Lemma overlap_free_swap l l' : swap l l' -> overlap_free l = true -> overlap_free l' = true.
Proof.
  induction 1 as [c d l Hr|c l l' Hs IH]; cbn [overlap_free forallb].
  - rewrite !andb_true_iff. intros ((H1 & H2) & H3 & H4). split_and!; try done.
    unfold overlapping, reorderable in *. lia.
  - rewrite !andb_true_iff, (forallb_perm _ l l') by (by apply swap_perm). tauto.
Qed.

Lemma overlap_free_swaps l l' : swaps l l' -> overlap_free l = true -> overlap_free l' = true.
Proof. induction 1 as [|x y z Hs _ IH]; [done|]. intros H. by apply IH, (overlap_free_swap x). Qed.

End Canon.

#[export] Hint Resolve canon_perm swaps_perm : outcome.

Lemma utf16_length_app p q : length (utf16 (p ++ q)) = (length (utf16 p) + length (utf16 q))%nat.
Proof. by rewrite utf16_app, length_app. Qed.

Lemma utf16_length_cons c q : length (utf16 (c :: q)) = (length (utf16_char c) + length (utf16 q))%nat.
Proof. by rewrite utf16_cons, length_app. Qed.

Lemma utf16_length_perm l l' : Permutation l l' -> length (utf16 l) = length (utf16 l').
Proof. induction 1; rewrite ?utf16_length_cons in *; lia. Qed.

Lemma utf16_length_ge l : (length l <= length (utf16 l))%nat.
Proof.
  induction l as [|c l IH]; [simpl; lia|]. rewrite utf16_length_cons. simpl.
  pose proof (utf16_char_length_pos c). lia.
Qed.

(** ** The code on UTF-16 text *)
Section Code.
Context (info : list Z) (Hwf : wf_table info).

(** The characters, with the combining classes the file gives them. *)
Let P := own_block info.
Let ccc := file_class info.

Lemma class_of c : P c -> get_combining_class info c = Ok (ccc c).
Proof. intros. by apply get_combining_class_file. Qed.

Lemma class_nonneg c : P c -> 0 <= ccc c.
Proof. intros. by apply get_combining_class_file. Qed.

Lemma P_scalar c : P c -> scalar c.
Proof. by intros [? _]. Qed.

Lemma reorderable_pair_ok c d :
  P c -> P d -> reorderable_pair info c d = Ok (reorderable ccc c d).
Proof.
  intros Hc Hd. unfold reorderable_pair. rewrite !class_of, bind_ok by done.
  pose proof (class_nonneg c Hc). pose proof (class_nonneg d Hd). unfold reorderable.
  destruct (Z.ltb_spec (ccc c) 2).
  - f_equal. lia.
  - rewrite bind_ok. f_equal. lia.
Qed.

(** The text [cs], of which [p] has been passed, between [a] and [b]. *)
Lemma get_utf16_at a p c q b off n :
  scalar c -> off = (length a + length (utf16 p))%nat -> (length (utf16_char c) <= n)%nat ->
  get_utf16 (a ++ utf16 (p ++ c :: q) ++ b) off n = Ok (Some (length (utf16_char c), c)).
Proof.
  intros Hc -> Hn. rewrite utf16_app, utf16_cons, <- !app_assoc, (app_assoc a).
  rewrite <- length_app. by apply get_utf16_encoded.
Qed.

(** The exchange of the code, on the text. *)
Lemma exchange_at a p c d q b :
  reorderable ccc c d = true -> overlapping ccc c d = false ->
  let str := a ++ utf16 (p ++ c :: d :: q) ++ b in
  let at_c := (length a + length (utf16 p))%nat in
  rd_list str at_c (length (utf16_char c)) = Ok (utf16_char c) /\
  exists str', memcpy str at_c (at_c + length (utf16_char c)) (length (utf16_char d)) = Ok str' /\
    wr_list str' (at_c + length (utf16_char d)) (utf16_char c)
    = Ok (a ++ utf16 (p ++ d :: c :: q) ++ b).
Proof.
  intros Hr Hov str at_c. subst str at_c.
  assert (length (utf16_char d) <= length (utf16_char c))%nat.
  { unfold overlapping in Hov. rewrite Hr in Hov. rewrite !utf16_char_length. repeat zcase; cbn in Hov; lia. }
  rewrite !utf16_app, !utf16_cons, <- !app_assoc, !(app_assoc a), <- length_app. split_and!.
  - by apply rd_list_app.
  - unfold memcpy. rewrite (proj2 (Nat.leb_le (_ + length (utf16_char d)) _)) by lia. cbn [orb].
    rewrite <- length_app, (app_assoc _ (utf16_char c)), rd_list_app, bind_ok by done. rewrite <- app_assoc.
    apply bind_Ok_inv. apply wr_list_exchange.
Qed.

(** A pass either changes nothing and finds the rest ordered, or exchanges. *)
Lemma order_pass_ok a b c q : forall p fuel swapped,
  Forall P (c :: q) -> overlap_free ccc (c :: q) = true -> (length (utf16 (c :: q)) < fuel)%nat ->
  exists l sw, order_pass fuel info (a ++ utf16 (p ++ c :: q) ++ b) (length a)
                 (length (utf16 (p ++ c :: q))) (length (utf16 p)) swapped
               = Ok (a ++ utf16 (p ++ l) ++ b, sw) /\
    (sw = swapped /\ l = c :: q /\ ordered ccc (c :: q) = true \/
     sw = true /\ tc (swap ccc) (c :: q) l).
Proof.
  revert c. induction q as [|d q IH]; intros c p fuel swapped HF Hov Hf;
    (destruct fuel as [|fuel]; [lia|]); cbn [order_pass]; apply Forall_cons in HF as [Hc HF];
    pose proof (P_scalar c Hc) as Hsc;
    pose proof (utf16_char_length_pos c) as Hlc;
    rewrite utf16_length_app, utf16_length_cons in *.
  - change (length (utf16 [])) with 0%nat in *.
    exists [c], swapped. split; [|by left].
    destruct (Nat.ltb_spec (length (utf16 p)) (length (utf16 p) + (length (utf16_char c) + 0) - 1));
      [|done].
    rewrite get_utf16_at, bind_ok by (done || lia). by rewrite (proj2 (Nat.leb_le _ _)) by lia.
  - pose proof HF as HF'. apply Forall_cons in HF as [Hd HF]. pose proof (P_scalar d Hd) as Hsd.
    cbn [overlap_free forallb] in Hov. apply andb_prop in Hov as [Hov1 Hov2]. apply andb_prop in Hov1 as [Hcd Hov1].
    apply negb_true_iff in Hcd. pose proof Hov2 as Hov3. apply andb_prop in Hov2 as [_ Hov2].
    pose proof (utf16_char_length_pos d) as Hld. rewrite utf16_length_cons in *.
    rewrite (proj2 (Nat.ltb_lt _ _)) by lia. rewrite get_utf16_at, bind_ok by (done || lia).
    rewrite (proj2 (Nat.leb_gt _ _)) by lia.
    pose proof (get_utf16_at a (p ++ [c]) d q b
      (length a + length (utf16 p) + length (utf16_char c))
      (length (utf16 p) + (length (utf16_char c) + (length (utf16_char d) + length (utf16 q)))
       - length (utf16 p) - length (utf16_char c))) as Hg.
    rewrite <- app_assoc in Hg. simpl in Hg. rewrite Hg; [|done| |lia]; clear Hg.
    2: { rewrite utf16_length_app, utf16_length_cons. change (length (utf16 [])) with 0%nat. lia. }
    rewrite bind_ok, reorderable_pair_ok, bind_ok by done.
    destruct (reorderable ccc c d) eqn:Er.
    + destruct (exchange_at a p c d q b Er Hcd) as (-> & str' & E1 & E2).
      rewrite !bind_ok, E1, bind_ok, E2, bind_ok.
      destruct (IH c (p ++ [d]) fuel true) as (l & sw & E & Hcase);
        [by constructor|cbn [overlap_free]; by rewrite Hov1, Hov2|rewrite utf16_length_cons; lia|].
      rewrite <- app_assoc in E. simpl in E. 
      rewrite !utf16_length_app, !utf16_length_cons in E. change (length (utf16 [])) with 0%nat in E.
      rewrite Nat.add_0_r in E. 
      exists (d :: l), sw. split.
      * rewrite <- app_assoc in E. simpl in E. rewrite <- E. f_equal; lia.
      * right. destruct Hcase as [(-> & -> & _)|[-> Ht]]; (split; [done|]).
        -- apply tc_once. by constructor.
        -- eapply tc_l; [by constructor|]. by apply tc_swap_cons.
    + destruct (IH d (p ++ [c]) fuel swapped) as (l & sw & E & Hcase);
        [by constructor|done|rewrite utf16_length_cons; lia|].
      rewrite <- !app_assoc in E. simpl in E.
      rewrite !utf16_length_app, !utf16_length_cons in E. change (length (utf16 [])) with 0%nat in E.
      rewrite Nat.add_0_r in E.
      exists (c :: l), sw. split; [exact E|].
      destruct Hcase as [(-> & -> & Ho)|[-> Ht]]; [left|right].
      * split_and!; [done|done|]. by rewrite ordered_cons2, Er, Ho.
      * split; [done|]. by apply tc_swap_cons.
Qed.

Lemma substring_ok a b : forall fuel cs,
  Forall P cs -> overlap_free ccc cs = true -> cs <> [] -> (inversions ccc cs < fuel)%nat ->
  canonical_order_substring fuel info (a ++ utf16 cs ++ b) (length a) (length (utf16 cs))
  = Ok (a ++ utf16 (canon ccc cs) ++ b).
Proof.
  induction fuel as [|fuel IH]; intros cs HF Hov Hne Hf; [lia|].
  destruct cs as [|c q]; [done|]. cbn [canonical_order_substring].
  destruct (order_pass_ok a b c q [] (S (length (utf16 (c :: q)))) false HF Hov) as (l & sw & E & Hcase);
    [lia|]. cbn [app] in E. change (length (utf16 [])) with 0%nat in E. rewrite E, bind_ok.
  destruct Hcase as [(-> & -> & Ho)|[-> Ht]].
  - by rewrite ordered_canon.
  - pose proof (tc_swap_inversions _ _ _ Ht). apply tc_rtc in Ht.
    rewrite (swaps_canon ccc _ _ Ht). pose proof (overlap_free_swaps ccc _ _ Ht Hov). apply swaps_perm in Ht.
    rewrite (utf16_length_perm _ _ Ht). apply IH; [by rewrite <- Ht|done| |lia].
    intros ->. by apply Permutation_sym, Permutation_nil_cons in Ht.
Qed.

(** The sorting of a run of code points, whatever its length. *)
Lemma segment_ok a b seg len :
  Forall P seg -> overlap_free ccc seg = true -> (length (utf16 seg) <= len)%nat ->
  (if (length a + 1 <? length a + length (utf16 seg))%nat
   then canonical_order_substring (order_fuel len) info (a ++ utf16 seg ++ b) (length a)
          (length a + length (utf16 seg) - length a)
   else Ok (a ++ utf16 seg ++ b))
  = Ok (a ++ utf16 (canon ccc seg) ++ b).
Proof.
  intros HF Hov Hlen. pose proof (utf16_length_ge seg). destruct (Nat.ltb_spec (length a + 1) (length a + length (utf16 seg))).
  - replace (_ + _ - _)%nat with (length (utf16 seg)) by lia. apply substring_ok; [done|done| |].
    + intros ->. change (length (utf16 [])) with 0%nat in *. lia.
    + unfold order_fuel. pose proof (inversions_bound ccc seg). nia.
  - destruct seg as [|c [|d seg]]; [done|done|simpl in *; lia].
Qed.

Lemma order_segment fin seg q b :
  Forall P seg -> overlap_free ccc seg = true ->
  (if (length (utf16 fin) + 1 <? length (utf16 (fin ++ seg)))%nat
   then canonical_order_substring (order_fuel (length (utf16 (fin ++ seg ++ q)))) info
          (utf16 (fin ++ seg ++ q) ++ b) (length (utf16 fin))
          (length (utf16 (fin ++ seg)) - length (utf16 fin))
   else Ok (utf16 (fin ++ seg ++ q) ++ b))
  = Ok (utf16 (fin ++ canon ccc seg ++ q) ++ b).
Proof.
  intros HF Hov. rewrite !utf16_length_app, !utf16_app, <- !app_assoc.
  apply segment_ok; [done|done|lia].
Qed.

Lemma forall_canon (R : Z -> Prop) p seg q :
  Forall R (p ++ seg ++ q) -> Forall R (p ++ canon ccc seg ++ q).
Proof. by rewrite <- canon_perm. Qed.

Lemma order_loop_ok b q : forall done seg fuel,
  Forall P (done ++ seg ++ q) -> overlap_free ccc (seg ++ q) = true -> (length (utf16 q) < fuel)%nat ->
  order_loop fuel info (utf16 (done ++ seg ++ q) ++ b) (length (utf16 (done ++ seg ++ q)))
    (length (utf16 (done ++ seg))) (length (utf16 done))
  = Ok (utf16 (done ++ canon ccc (seg ++ q)) ++ b).
Proof.
  induction q as [|c q IH]; intros fin seg fuel HF Hov Hf; (destruct fuel as [|fuel]; [lia|]);
    cbn [order_loop].
  - rewrite app_nil_r, (proj2 (Nat.ltb_ge _ _)) by lia.
    rewrite !utf16_length_app, !utf16_app, <- !app_assoc. rewrite app_nil_r in HF, Hov.
    apply Forall_app in HF as [_ HF]. apply segment_ok; [done|done|lia].
  - pose proof (utf16_char_length_pos c). rewrite utf16_length_cons in Hf.
    assert (P c) as Hc by (rewrite !Forall_app, Forall_cons in HF; tauto). pose proof (P_scalar c Hc) as Hsc.
    assert (Hov' : overlap_free ccc ((seg ++ [c]) ++ q) = true) by (by rewrite <- app_assoc).
    destruct (overlap_free_app _ _ _ Hov) as [Hovs Hovq]. cbn [overlap_free] in Hovq. apply andb_prop in Hovq as [_ Hovq].
    rewrite (proj2 (Nat.ltb_lt _ _)) by (rewrite !utf16_length_app, utf16_length_cons; lia).
    pose proof (get_utf16_at [] (fin ++ seg) c q b (length (utf16 (fin ++ seg)))
      (length (utf16 (fin ++ seg ++ c :: q)) - length (utf16 (fin ++ seg)))) as Hg.
    cbn [app] in Hg. rewrite <- app_assoc in Hg. rewrite Hg; [|done|done|].
    2: { rewrite !utf16_length_app, utf16_length_cons. lia. }
    rewrite bind_ok. clear Hg.
    assert (forall next,
      order_loop fuel info (utf16 (fin ++ seg ++ c :: q) ++ b)
        (length (utf16 (fin ++ seg ++ c :: q)))
        (length (utf16 (fin ++ seg)) + length (utf16_char c)) next = 
      order_loop fuel info (utf16 (fin ++ (seg ++ [c]) ++ q) ++ b)
        (length (utf16 (fin ++ (seg ++ [c]) ++ q))) (length (utf16 (fin ++ seg ++ [c]))) next) as E.
    { intros. rewrite <- !app_assoc. cbn [app]. f_equal.
      rewrite !utf16_length_app, utf16_length_cons. change (length (utf16 [])) with 0%nat. lia. }
    destruct (Nat.eqb_spec (length (utf16 (fin ++ seg))) 0); rewrite ?bind_ok.
    + rewrite E, IH by (rewrite <- ?app_assoc; done || lia). by rewrite <- !app_assoc.
    + unfold is_starter. rewrite class_of, bind_ok, bind_ok by done.
      destruct (Z.eqb_spec (ccc c) 0) as [Hs|_].
      2: { rewrite E, IH by (rewrite <- ?app_assoc; done || lia). by rewrite <- !app_assoc. }
      rewrite order_segment by (done || (rewrite !Forall_app in HF; tauto)). rewrite bind_ok.
      rewrite canon_starter by done.
      pose proof (utf16_length_perm _ _ (canon_perm ccc seg)) as Hp.
      specialize (IH (fin ++ canon ccc seg ++ [c]) [] fuel). cbn [app] in IH.
      rewrite app_nil_r, <- !app_assoc in IH. cbn [app] in IH. rewrite <- IH; [|by apply forall_canon|done|lia].
      f_equal; rewrite !utf16_length_app, !utf16_length_cons; change (length (utf16 [])) with 0%nat; lia.
Qed.

Lemma canonical_order_string_ok cs b :
  Forall P cs -> overlap_free ccc cs = true ->
  canonical_order_string info (utf16 cs ++ b) (length (utf16 cs))
  = Ok (utf16 (canon ccc cs) ++ b).
Proof. intros HF Hov. apply (order_loop_ok b cs [] []); [done|done|lia]. Qed.

End Code.

(** ** Decomposition of a text *)

(** The file decomposes the character [c] into the characters [ds]. *)
Definition decomposes (info : list Z) (c : Z) (ds : list Z) : Prop :=
  scalar c /\ Forall scalar ds /\
  exists props, get_char_props info c = Ok props /\
    get_decomposition info c props = Ok (Some (utf16 ds)).

Lemma decomposes_scalar info cs dss :
  Forall2 (decomposes info) cs dss -> Forall scalar cs /\ Forall scalar (concat dss).
Proof.
  induction 1 as [|c ds cs dss (Hc & Hds & _) _ [IH1 IH2]]; [done|].
  split; [by constructor|]. simpl. by apply Forall_app.
Qed.

Lemma sint_ok z : - 2 ^ 31 <= z < 2 ^ 31 -> sint z = Ok z.
Proof. intros. unfold sint. rewrite (proj2 (andb_true_iff _ _)); [done|lia]. Qed.

Section Decompose.
Context (info : list Z) (src rest : list Z) (all : list Z) (dst_len : Z).
Let src_len := Z.of_nat (length (utf16 all)).
Hypothesis src_eq : src = utf16 all ++ rest.
Hypothesis dst_len_nonneg : 0 <= dst_len < 2 ^ 31.

(** One step of the loop at the character [c]. *)
Lemma decompose_step p c q ds fuel d pos :
  all = p ++ c :: q -> decomposes info c ds ->
  decompose_loop (S fuel) info src src_len (length (utf16 p)) d pos dst_len =
  if dst_len <? Z.of_nat (pos + length (utf16 ds)) then
    len_factor ← rd info f_len_factor;
    extra ← sint (Z.of_nat (length (utf16 (c :: q))) * len_factor);
    dst_len ← sint (dst_len + extra);
    Ok (d, inl (STATUS_BUFFER_TOO_SMALL, dst_len))
  else
    d ← wr_list d pos (utf16 ds);
    decompose_loop fuel info src src_len (length (utf16 (p ++ [c]))) d
      (pos + length (utf16 ds)) dst_len.
Proof.
  intros Hall (Hc & Hds & props & Hp & Hd). cbn [decompose_loop].
  pose proof (utf16_char_length_pos c).
  assert (length (utf16 all) = length (utf16 p) + (length (utf16_char c) + length (utf16 q)))%nat as Hl
    by (by rewrite Hall, utf16_length_app, utf16_length_cons).
  rewrite (proj2 (Z.ltb_lt _ _)) by (subst src_len; lia).
  rewrite src_eq. pose proof (get_utf16_at [] p c q rest) as Hg. cbn [app] in Hg.
  rewrite Hall at 1. rewrite Hg, bind_ok by (done || subst src_len; lia).
  rewrite Hp, bind_ok, Hd, bind_ok. rewrite u32_small by lia.
  rewrite utf16_length_app, !utf16_length_cons. change (length (utf16 [])) with 0%nat.
  rewrite Nat.add_0_r.
  replace (src_len - Z.of_nat (length (utf16 p)))
    with (Z.of_nat (length (utf16_char c) + length (utf16 q))) by (subst src_len; lia). done.
Qed.

Lemma decompose_loop_fits q dss : forall p fuel out b,
  all = p ++ q -> Forall2 (decomposes info) q dss -> (length q < fuel)%nat ->
  dst_len <= Z.of_nat (length (utf16 out) + length b) ->
  Z.of_nat (length (utf16 out) + length (utf16 (concat dss))) <= dst_len ->
  decompose_loop fuel info src src_len (length (utf16 p)) (utf16 out ++ b)
    (length (utf16 out)) dst_len
  = Ok (utf16 (out ++ concat dss) ++ drop (length (utf16 (concat dss))) b,
        inr (length (utf16 (out ++ concat dss)))).
Proof.
  revert dss. induction q as [|c q IH]; intros dss p fuel out b Hall HF Hf Hb Hfit;
    (destruct fuel as [|fuel]; [lia|]).
  - apply Forall2_nil_inv_l in HF as ->. simpl. rewrite !app_nil_r in *. subst p.
    by rewrite (proj2 (Z.ltb_ge _ _)) by (subst src_len; lia).
  - apply Forall2_cons_inv_l in HF as (ds & dss' & Hd & HF & ->). cbn [concat] in *.
    rewrite utf16_length_app in Hfit. rewrite (decompose_step p c q ds) by done.
    rewrite (proj2 (Z.ltb_ge _ _)) by lia.
    rewrite wr_list_tail, bind_ok by lia.
    rewrite (app_assoc (utf16 out)), <- utf16_app, <- utf16_length_app.
    rewrite (IH dss'); [|by rewrite <- app_assoc|done|simpl in *; lia|..];
      rewrite ?utf16_length_app, ?length_drop; [|lia..].
    rewrite <- (app_assoc out), drop_drop.
    by rewrite Nat.add_assoc.
Qed.

(** A buffer that is too small is reported with a larger size. *)
Lemma decompose_loop_small q dss factor : forall p fuel out b,
  all = p ++ q -> Forall2 (decomposes info) q dss -> (length q < fuel)%nat ->
  rd info f_len_factor = Ok factor -> 0 < factor -> dst_len + src_len * factor < 2 ^ 31 ->
  Z.of_nat (length (utf16 out)) <= dst_len <= Z.of_nat (length (utf16 out) + length b) ->
  dst_len < Z.of_nat (length (utf16 out) + length (utf16 (concat dss))) ->
  exists dst' n, decompose_loop fuel info src src_len (length (utf16 p)) (utf16 out ++ b)
    (length (utf16 out)) dst_len = Ok (dst', inl (STATUS_BUFFER_TOO_SMALL, n)) /\
    dst_len < n <= dst_len + src_len * factor /\
    length dst' = (length (utf16 out) + length b)%nat.
Proof.
  revert dss. induction q as [|c q IH]; intros dss p fuel out b Hall HF Hf Hfac Hpos Hov Hb Hsmall;
    (destruct fuel as [|fuel]; [lia|]).
  - exfalso. apply Forall2_nil_inv_l in HF as ->. change (length (utf16 (concat []))) with 0%nat in *. lia.
  - apply Forall2_cons_inv_l in HF as (ds & dss' & Hd & HF & ->). cbn [concat] in *.
    rewrite utf16_length_app in Hsmall. rewrite (decompose_step p c q ds) by done.
    assert (length (utf16 (c :: q)) <= length (utf16 all))%nat by (rewrite Hall, utf16_length_app; lia).
    assert (0 < length (utf16 (c :: q)))%nat
      by (rewrite utf16_length_cons; pose proof (utf16_char_length_pos c); lia).
    subst src_len. zcase.
    + rewrite Hfac, bind_ok, !sint_ok by nia. rewrite bind_ok, sint_ok, bind_ok by nia.
      eexists _, _. split; [done|]. rewrite length_app. split; [nia|done].
    + rewrite wr_list_tail, bind_ok by lia.
      rewrite (app_assoc (utf16 out)), <- utf16_app, <- utf16_length_app.
      destruct (IH dss' (p ++ [c]) fuel (out ++ ds) (drop (length (utf16 ds)) b))
        as (dst' & n & E & Hn & Hlen);
        rewrite ?utf16_length_app, ?length_drop, <- ?app_assoc; try (done || simpl in *; lia).
      exists dst', n. rewrite utf16_length_app, length_drop in Hlen.
      rewrite !utf16_length_app in E. split; [exact E|]. lia.
Qed.
End Decompose.

(** [decompose_string] with room for the result. *)
Lemma decompose_string_fits info cs rest dss dst dst_len :
  let ds := concat dss in let n := length (utf16 ds) in
  wf_table info -> Forall2 (decomposes info) cs dss -> Forall (own_block info) ds -> overlap_free (file_class info) ds = true ->
  Z.of_nat n <= dst_len <= Z.of_nat (length dst) -> dst_len < 2 ^ 31 ->
  decompose_string info (utf16 cs ++ rest) (Z.of_nat (length (utf16 cs))) dst dst_len
  = Ok (STATUS_SUCCESS, utf16 (canon (file_class info) ds) ++ drop n dst, Z.of_nat n).
Proof.
  intros ds n Hwf HF Hblk Hov Hn Hlen. unfold decompose_string. pose proof (utf16_length_ge cs).
  destruct (decomposes_scalar _ _ _ HF) as [Hcs Hds].
  pose proof (decompose_loop_fits info (utf16 cs ++ rest) rest cs dst_len eq_refl ltac:(lia)
    cs dss [] (S (Z.to_nat (Z.of_nat (length (utf16 cs))))) [] dst eq_refl HF) as E.
  change (length (utf16 [])) with 0%nat in E. cbn [app] in E. change (utf16 []) with (@nil Z) in E.
  cbn [app Nat.add] in E. subst n ds. rewrite E by lia. rewrite bind_ok.
  by rewrite canonical_order_string_ok.
Qed.

(** [decompose_string] without it. *)
Lemma decompose_string_small info cs rest dss dst dst_len factor :
  let n := length (utf16 (concat dss)) in
  Forall2 (decomposes info) cs dss ->
  rd info f_len_factor = Ok factor -> 0 < factor ->
  dst_len + Z.of_nat (length (utf16 cs)) * factor < 2 ^ 31 ->
  0 <= dst_len <= Z.of_nat (length dst) -> dst_len < Z.of_nat n ->
  exists dst' dst_len',
    decompose_string info (utf16 cs ++ rest) (Z.of_nat (length (utf16 cs))) dst dst_len
    = Ok (STATUS_BUFFER_TOO_SMALL, dst', dst_len') /\
    length dst' = length dst /\
    dst_len < dst_len' <= dst_len + Z.of_nat (length (utf16 cs)) * factor.
Proof.
  intros n HF Hfac Hpos Hov Hl Hsmall. unfold decompose_string. pose proof (utf16_length_ge cs).
  destruct (decompose_loop_small info (utf16 cs ++ rest) rest cs dst_len eq_refl ltac:(nia)
    cs dss factor [] (S (Z.to_nat (Z.of_nat (length (utf16 cs))))) [] dst eq_refl HF)
    as (dst' & n' & E & Hn' & Hlen); try done; subst n; change (length (utf16 [])) with 0%nat in *; try lia.
  change (utf16 []) with (@nil Z) in E. cbn [app] in E. rewrite E, bind_ok. eauto.
Qed.

(** ** Theorems *)
Module Order.

(** C14. For every well-formed normalisation file and UTF-16 text of
    characters outside the blocks that the file describes by one entry
    (0xfb..0xff, which the code reads wrongly), in which no character of one
    code unit comes before a character of two that has to be moved in front of
    it (there the [memcpy] of the code is undefined), [canonical_order_string]
    terminates without leaving its buffer and leaves the canonical order of
    the text: a list obtained by exchanging adjacent pairs of characters out
    of order of combining class (never a starter), in which no such pair is
    left; every other way of exchanging pairs until none is left gives the
    same text.  The classes are those that the format of the file gives.  What
    follows the text in the buffer is untouched. *)
Theorem canonical_order_string_correct info cs rest :
  let ccc := file_class info in
  wf_table info -> Forall (own_block info) cs -> overlap_free ccc cs = true ->
  exists ds, canonical_order_string info (utf16 cs ++ rest) (length (utf16 cs))
             = Ok (utf16 ds ++ rest) /\
    swaps ccc cs ds /\ ordered ccc ds = true /\ Permutation cs ds /\
    (forall es, swaps ccc cs es -> ordered ccc es = true -> es = ds).
Proof.
  intros ccc Hwf HF Hov. exists (canon ccc cs). split_and!.
  - by apply canonical_order_string_ok.
  - apply canon_swaps.
  - apply canon_ordered.
  - apply canon_perm.
  - intros. by apply swaps_ordered_canon.
Qed.

Lemma canonical_order_string_correct_witness :
  exists ds, canonical_order_string angstrom_table (utf16 [0x41; 0x30a; 0x323] ++ [0]) 3
             = Ok (utf16 ds ++ [0]) /\ Permutation [0x41; 0x30a; 0x323] ds.
Proof.
  destruct (canonical_order_string_correct angstrom_table [0x41; 0x30a; 0x323] [0])
    as (ds & E & _ & _ & Hp & _); [apply angstrom_table_wf|by repeat constructor; unfold scalar; try lia|by vm_compute|].
  exists ds. split; [exact E|exact Hp].
Defined.

(** U+030A (class 230) and U+1D165 (class 216), everything else a starter. *)
Definition musical_table : list Z :=
  replicate 0x1a 0 ++ [0x22; 0x42; 0x1142; 0; 0; 0; 0; 0] ++ pack ([0; 230; 216] ++ replicate 61 0) ++
  pack (replicate 6 0 ++ [1] ++ replicate 0x39b 0 ++ [2] ++ replicate 0x1e5d 0) ++
  pack (replicate 0x0a 0 ++ [0xc1] ++ replicate 0x75 0) ++ pack (replicate 0x65 0 ++ [0xc2] ++ replicate 0x1a 0).

(** A character of one code unit in front of one of two with a lower class:
    the second [memcpy] of the exchange copies between overlapping ranges. *)
Theorem canonical_order_string_overlap :
  wf_table musical_table /\ Forall (own_block musical_table) [0x41; 0x30a; 0x1d165] /\
  canonical_order_string musical_table (utf16 [0x41; 0x30a; 0x1d165]) 4 = Fault.
Proof.
  split; [apply table_check_sound; vm_compute; reflexivity|].
  split; [|vm_compute; reflexivity].
  repeat (apply Forall_cons; split; [split; [unfold scalar; lia|vm_compute; reflexivity]|]). constructor.
Qed.

Example canonical_order_example :
  canonical_order_string angstrom_table [0x41; 0x30a; 0x323; 7] 3 = Ok [0x41; 0x323; 0x30a; 7].
Proof. vm_compute. reflexivity. Qed.

End Order.
