(* ===== verification/Compose.v ===== *)
(** * Canonical composition (compose_chars, compose_string)

    The reference is a rewriting on lists of code points: a starter absorbs a
    later character that is not blocked from it (no starter in between, and
    the character just before it of a lower combining class).  The in-place
    code on UTF-16 units is proved to reach a text that this rewriting
    produces and cannot rewrite further. *)
From S2P Require Import Prelude Utf Normalize Order.
Import Utf16 NormTable Norm.

(** ** In-place replacement on the text *)

Lemma unit_len_eq c : unit_len c = length (utf16_char c).
Proof. unfold unit_len. rewrite utf16_char_length. repeat zcase; lia. Qed.

Lemma put_utf16_ok p x rest v :
  scalar v -> length x = length (utf16_char v) ->
  put_utf16 (p ++ x ++ rest) (length p) v = Ok (p ++ utf16_char v ++ rest).
Proof.
  intros Hv. rewrite utf16_char_length. unfold put_utf16, utf16_char. zcase.
  - rewrite (proj2 (Z.leb_gt _ _)), u16_small by (unfold scalar in Hv; lia). destruct x as [|u [|? ?]]; try done. intros _.
    by apply wr_app.
  - rewrite (proj2 (Z.leb_le _ _)) by lia. destruct x as [|u [|w [|? ?]]]; try done. intros _.
    rewrite high_unit, low_unit, !u16_small by (unfold scalar in Hv; dlia).
    cbn [app]. rewrite wr_app, bind_ok by done.
    change (?a :: w :: rest) with ([a] ++ w :: rest). rewrite app_assoc.
    rewrite wr_app by (rewrite length_app; done). by rewrite <- app_assoc.
Qed.

(** The two [memmove]s and the store of [replace_pair], on arbitrary blocks:
    [us] at the starter, [m] in between, [uc] the character composed. *)
Lemma replace_blocks p us m uc r b cl :
  (0 < cl <= length us + length uc)%nat -> (length us <= 2)%nat -> (cl <= length us + 1)%nat ->
  (0 < length uc)%nat ->
  let str := p ++ us ++ m ++ uc ++ r ++ b in
  let i := (length p + length us + length m)%nat in
  exists x b',
    (str ← (if (cl =? length us)%nat then Ok str
            else
              v ← rd_list str (length p + length us) (i - (length p + length us));
              wr_list str (length p + cl) v);
     v ← rd_list str (i + length uc) (length r);
     wr_list str (i + cl - length us) v)
    = Ok (p ++ x ++ m ++ r ++ b') /\ length x = cl /\
    (length b' + cl = length us + length uc + length b)%nat.
Proof.
  intros Hcl Hus Hc Huc str i. subst str i.
  assert (exists x y, length x = cl /\
    (length x + length y = length us + length uc)%nat /\
    (if (cl =? length us)%nat then Ok (p ++ us ++ m ++ uc ++ r ++ b)
     else
       v ← rd_list (p ++ us ++ m ++ uc ++ r ++ b) (length p + length us)
             (length p + length us + length m - (length p + length us));
       wr_list (p ++ us ++ m ++ uc ++ r ++ b) (length p + cl) v)
    = Ok (p ++ x ++ m ++ y ++ r ++ b)) as (x & y & Hx & Hy & E).
  { destruct (Nat.eqb_spec cl (length us)); [by exists us, uc; subst|].
    rewrite (app_assoc p us), rd_list_app by (rewrite ?length_app; lia). rewrite bind_ok.
    exists (take cl (us ++ m ++ uc)), (drop (cl + length m) (us ++ m ++ uc)).
    rewrite length_take, length_drop, !length_app. split_and!; [lia|lia|].
    rewrite <- app_assoc. rewrite wr_list_Ok by (rewrite !length_app; lia).
    rewrite take_app_add, <- Nat.add_assoc, drop_app_add.
    replace (us ++ m ++ uc ++ r ++ b) with ((us ++ m ++ uc) ++ r ++ b) by (by rewrite <- !app_assoc).
    rewrite take_app_le, drop_app_le by (rewrite !length_app; lia).
    by rewrite <- !app_assoc. }
  rewrite E, bind_ok. 
  rewrite (app_assoc p), (app_assoc _ m), (app_assoc _ y).
  rewrite rd_list_app by (rewrite ?length_app; lia). rewrite bind_ok.
  exists x, (drop (length r) (y ++ r ++ b)).
  rewrite <- (app_assoc _ y). rewrite wr_list_tail by (rewrite ?length_app; lia).
  split_and!; [by rewrite <- !app_assoc|done|]. rewrite length_drop, !length_app. lia.
Qed.

Lemma replace_pair_ok p s m c r b v :
  scalar s -> scalar c -> scalar v ->
  let cs := p ++ s :: m ++ c :: r in
  let ds := p ++ v :: m ++ r in
  exists b', replace_pair (utf16 cs ++ b) (length (utf16 cs)) (length (utf16 p))
      (length (utf16 (p ++ s :: m))) (length (utf16_char c)) s v
    = Ok (utf16 ds ++ b', length (utf16 ds)) /\
    (length (utf16 ds ++ b') = length (utf16 cs ++ b))%nat.
Proof.
  intros Hs Hc Hv cs ds. unfold replace_pair. rewrite !unit_len_eq.
  pose proof (utf16_char_length_pos s). pose proof (utf16_char_length_pos c).
  pose proof (utf16_char_length_pos v).
  destruct (replace_blocks (utf16 p) (utf16_char s) (utf16 m) (utf16_char c) (utf16 r) b
    (length (utf16_char v))) as (x & b' & E & Hx & Hb); [lia..|].
  subst cs ds. exists b'.
  rewrite !utf16_app, !utf16_cons, !utf16_app, !utf16_cons, <- !app_assoc.
  rewrite !length_app.
  replace (length (utf16 p) + (length (utf16_char s) + length (utf16 m)))%nat
    with (length (utf16 p) + length (utf16_char s) + length (utf16 m))%nat by lia.
  replace (length (utf16 p) + _ - _ - _)%nat with (length (utf16 r)) by lia.
  apply bind_Ok_inv in E as (str1 & E1 & E). rewrite E1, bind_ok.
  apply bind_Ok_inv in E as (v1 & E2 & E). rewrite E2, bind_ok, E, bind_ok.
  rewrite put_utf16_ok by done. rewrite bind_ok. split; [|lia].
  repeat f_equal. lia.
Qed.

(** ** Composition on code points *)
Section Reference.
Context (ccc : Z -> Z) (pair : Z -> Z -> Z).

(** [m] lies between a starter and a character of class [k] and does not
    block it. *)
Definition unblocked (m : list Z) (k : Z) : Prop :=
  Forall (fun d => ccc d <> 0) m /\ forall d, last m = Some d -> ccc d < k.

(** A starter absorbs an unblocked character. *)
Inductive compose1 : list Z -> list Z -> Prop :=
| compose1_intro l s m c r :
    ccc s = 0 -> unblocked m (ccc c) -> pair s c <> 0 ->
    compose1 (l ++ s :: m ++ c :: r) (l ++ pair s c :: m ++ r).

(** Nothing is left to compose. *)
Definition composed (l : list Z) : Prop := nf compose1 l.

Lemma composed_alt x :
  composed x <-> forall l s m c r, x = l ++ s :: m ++ c :: r -> ccc s = 0 ->
    unblocked m (ccc c) -> pair s c = 0.
Proof.
  split.
  - intros Hn l s m c r -> Hs Hu. destruct (Z.eq_dec (pair s c) 0) as [|Hp]; [done|].
    exfalso. apply Hn. eexists. by constructor.
  - intros H [y Hy]. inversion Hy as [l s m c r Hs Hu Hp]; subst. by eapply Hp, H.
Qed.

Lemma composed_prefix x y : composed (x ++ y) -> composed x.
Proof.
  rewrite !composed_alt. intros H l s m c r -> Hs Hu.
  apply (H l s m c (r ++ y)); [|done|done]. by rewrite <- !app_assoc; simpl; rewrite <- !app_assoc.
Qed.

(** Two splits of a list at a starter followed by non-starters agree. *)
Lemma last_starter_unique l s m l' s' m' :
  ccc s = 0 -> ccc s' = 0 -> Forall (fun d => ccc d <> 0) m ->
  Forall (fun d => ccc d <> 0) m' -> l ++ s :: m = l' ++ s' :: m' -> s = s' /\ m = m'.
Proof.
  intros Hs Hs' Hm Hm' E. apply app_eq_inv in E as [(k & -> & E)|(k & -> & E)];
    destruct k as [|x k]; simpl in E; injection E; intros; subst; try done; exfalso.
  - by apply Forall_app in Hm' as [_ [? _]%Forall_cons].
  - by apply Forall_app in Hm as [_ [? _]%Forall_cons].
Qed.

(** Passing over a character that the last starter does not absorb. *)
Lemma composed_snoc p s m c :
  composed (p ++ s :: m) -> ccc s = 0 -> Forall (fun d => ccc d <> 0) m ->
  (unblocked m (ccc c) -> pair s c = 0) -> composed (p ++ s :: m ++ [c]).
Proof.
  intros Hn Hs Hm Hp. apply composed_alt. intros l t k d r E Ht Hu.
  destruct r as [|e r _] using rev_ind.
  - rewrite !app_comm_cons, !app_assoc in E. apply app_inj_tail in E as [E <-].
    apply last_starter_unique in E as [<- <-]; auto. apply Hu.
  - rewrite !app_comm_cons, !app_assoc in E. apply app_inj_tail in E as [E <-].
    rewrite composed_alt in Hn. apply (Hn l t k d r); [|done|done].
    rewrite E. by rewrite <- !app_assoc.
Qed.

(** Characters before the first starter. *)
Lemma composed_no_starter p : Forall (fun d => ccc d <> 0) p -> composed p.
Proof.
  intros Hp. apply composed_alt. intros l s m c r -> Hs _.
  by apply Forall_app in Hp as [_ [? _]%Forall_cons].
Qed.

Lemma composed_first_starter p s :
  Forall (fun d => ccc d <> 0) p -> composed (p ++ [s]).
Proof.
  intros Hp. apply composed_alt. intros l t m c r E Ht _.
  destruct r as [|e r _] using rev_ind; rewrite !app_comm_cons, !app_assoc in E;
    apply app_inj_tail in E as [-> _]; rewrite ?Forall_app in Hp;
    repeat (rewrite ?Forall_app, ?Forall_cons in Hp); tauto.
Qed.

(** The starter replaced by a composite that no starter absorbs. *)
Lemma composed_replace p s v :
  composed (p ++ [s]) -> Forall (fun t => pair t v = 0) p -> composed (p ++ [v]).
Proof.
  intros Hn Hp. apply composed_alt. intros l t m c r E Ht Hu.
  destruct r as [|e r _] using rev_ind.
  - rewrite !app_comm_cons, !app_assoc in E. apply app_inj_tail in E as [-> <-].
    by apply Forall_app in Hp as [_ [? _]%Forall_cons].
  - rewrite !app_comm_cons, !app_assoc in E. apply app_inj_tail in E as [E <-].
    apply composed_prefix in Hn. rewrite composed_alt in Hn. apply (Hn l t m c r); [|done|done].
    rewrite E. by rewrite <- !app_assoc.
Qed.

End Reference.

(** ** The composition table *)

(** A bucket of the table is a sequence of triples: first and second
    character, and their composite. *)
Definition flat_triples (ts : list (Z * Z * Z)) : list Z :=
  ts ≫= fun '(a, b, c) => [a; b; c].

Lemma flat_triples_length ts : (length ts <= length (flat_triples ts))%nat.
Proof.
  induction ts as [|[[a b] c] ts IH]; [simpl; lia|].
  change (flat_triples ((a, b, c) :: ts)) with ([a; b; c] ++ flat_triples ts).
  rewrite length_app. simpl in *. lia.
Qed.

Fixpoint find_composite (ts : list (Z * Z * Z)) (ch1 ch2 : Z) : Z :=
  match ts with
  | (a, b, c) :: ts => if (a =? ch1) && (b =? ch2) then c else find_composite ts ch1 ch2
  | [] => 0
  end.

Lemma units_left_ok fin start : (start <= fin)%nat -> Z.of_nat fin < 2 ^ 32 -> units_left fin start = (fin - start)%nat.
Proof. intros. unfold units_left. rewrite u32_small by lia. lia. Qed.

Lemma read_triple_ok pre a b c q post comp_seq start fin :
  Forall scalar [a; b; c] -> (comp_seq + start = length pre)%nat ->
  (fin = start + length (utf16 ([a; b; c] ++ q)))%nat -> Z.of_nat fin < 2 ^ 32 ->
  read_triple (pre ++ utf16 ([a; b; c] ++ q) ++ post) comp_seq start fin
  = Ok (a, b, c, start + length (utf16 [a; b; c]))%nat.
Proof.
  rewrite !Forall_cons. intros (Ha & Hb & Hc & _) Hpos -> Hfin. revert Hfin.
  rewrite utf16_length_app, !utf16_length_cons. change (length (utf16 [])) with 0%nat. intros Hfin.
  unfold read_triple.
  pose proof (get_utf16_at pre [] a (b :: c :: q) post) as E0.
  pose proof (get_utf16_at pre [a] b (c :: q) post) as E1.
  pose proof (get_utf16_at pre [a; b] c q post) as E2.
  rewrite ?utf16_length_cons in *. change (length (utf16 [])) with 0%nat in *. cbn [app] in *.
  rewrite !units_left_ok by lia. rewrite E0, bind_ok, !units_left_ok, E1, bind_ok, !units_left_ok, E2, bind_ok by (done || lia).
  do 2 f_equal. lia.
Qed.

Lemma compose_search_ok ch1 ch2 post comp_seq ts : forall pre start fuel,
  Forall scalar (flat_triples ts) -> (comp_seq + start = length pre)%nat ->
  (length ts < fuel)%nat -> Z.of_nat (start + length (utf16 (flat_triples ts))) < 2 ^ 32 ->
  compose_search fuel (pre ++ utf16 (flat_triples ts) ++ post) comp_seq start
    (start + length (utf16 (flat_triples ts))) ch1 ch2
  = Ok (find_composite ts ch1 ch2).
Proof.
  induction ts as [|[[a b] c] ts IH]; intros pre start fuel HF Hpos Hf Hend;
    (destruct fuel as [|fuel]; [lia|]); cbn [compose_search find_composite].
  - change (length (utf16 (flat_triples []))) with 0%nat.
    by rewrite (proj2 (Nat.ltb_ge _ _)) by lia.
  - change (flat_triples ((a, b, c) :: ts)) with ([a; b; c] ++ flat_triples ts) in *.
    apply Forall_app in HF as [HF3 HF].
    rewrite (proj2 (Nat.ltb_lt _ _)).
    2: { rewrite utf16_length_app, utf16_length_cons. pose proof (utf16_char_length_pos a). lia. }
    rewrite read_triple_ok by done. rewrite bind_ok. destruct ((a =? ch1) && (b =? ch2)); [done|].
    rewrite utf16_length_app, Nat.add_assoc, utf16_app, <- app_assoc, app_assoc.
    rewrite utf16_length_app in Hend. apply IH; [done|rewrite length_app; lia|simpl in Hf; lia|lia].
Qed.

(** [ts] is the bucket that the hash of the pair selects. *)
Definition bucket_of (info : list Z) (ch1 ch2 : Z) (ts : list (Z * Z * Z)) : Prop :=
  let hash := u32 (ch1 + 95 * ch2) mod field info f_comp_size in
  exists start, rd_word info (field info f_comp_hash) hash = Ok (Z.of_nat start) /\
    rd_word info (field info f_comp_hash) (hash + 1)
    = Ok (Z.of_nat (start + length (utf16 (flat_triples ts)))) /\
    let pos := (Z.to_nat (field info f_comp_seq) + start)%nat in
    take (length (utf16 (flat_triples ts))) (drop pos info) = utf16 (flat_triples ts).

Lemma compose_chars_ok info ch1 ch2 ts :
  wf_table info -> field info f_comp_size <> 0 ->
  bucket_of info ch1 ch2 ts -> Forall scalar (flat_triples ts) ->
  compose_chars info ch1 ch2 = Ok (find_composite ts ch1 ch2).
Proof.
  intros Hwf Hsz (start & H1 & H2 & Ht) HF. unfold compose_chars.
  destruct (field_ok info Hwf f_comp_hash) as [-> _]; [unfold f_comp_hash; lia|].
  destruct (field_ok info Hwf f_comp_seq) as [-> _]; [unfold f_comp_seq; lia|].
  destruct (field_ok info Hwf f_comp_size) as [-> _]; [unfold f_comp_size; lia|].
  rewrite !bind_ok, (proj2 (Z.eqb_neq _ _)), H1, bind_ok, H2, bind_ok by done.
  pose proof (Forall_lookup_rd _ _ _ _ (wf_words _ Hwf) H2) as Hend. unfold wchar in Hend.
  rewrite !Nat2Z.id. clear H1 H2. set (n := length (utf16 (flat_triples ts))) in *.
  set (pos := (Z.to_nat (field info f_comp_seq) + start)%nat) in *.
  assert (length ts <= n)%nat.
  { etransitivity; [apply flat_triples_length|apply utf16_length_ge]. }
  destruct (Nat.eq_dec n 0) as [Hn0|Hn0].
  { assert (ts = []) as -> by (destruct ts; [done|simpl in *; lia]).
    rewrite Hn0, Nat.add_0_r. cbn [compose_search]. by rewrite (proj2 (Nat.ltb_ge _ _)) by lia. }
  rewrite <- (take_drop pos info) at 1. rewrite <- (take_drop n (drop pos info)), Ht.
  apply compose_search_ok; [done| |lia|subst n; lia]. rewrite length_take, Nat.min_l; [done|].
  assert (length (take n (drop pos info)) = n) as Hl by (by rewrite Ht).
  rewrite length_take, length_drop in Hl. lia.
Qed.

(** ** The code computes it *)

(** The composition of Hangul syllables, by the arithmetic of the standard. *)
Definition hangul_pair (s c : Z) : option Z :=
  if decide (0x1100 <= s < 0x1113 /\ 0x1161 <= c < 0x1176) then Some (0xac00 + ((s - 0x1100) * 21 + (c - 0x1161)) * 28)
  else if decide (Hangul.is_syllable s /\ (s - 0xac00) mod 28 = 0 /\ 0x11a8 <= c < 0x11c3) then Some (s + (c - 0x11a7))
  else None.

Lemma compose_hangul_pair s c : scalar s -> scalar c -> Hangul.compose_hangul s c = default 0 (hangul_pair s c).
Proof.
  intros Hs Hc. unfold hangul_pair. assert (0 <= s < 0x110000 /\ 0 <= c < 0x110000) as [Hs' Hc'] by (unfold scalar in *; lia).
  case_decide as E1; [destruct E1; by apply Hangul.compose_hangul_lv|].
  case_decide as E2; [destruct E2 as (? & ? & ?); by apply Hangul.compose_hangul_t|].
  destruct (Z.eq_dec (Hangul.compose_hangul s c) 0) as [->|Hne]; [done|].
  destruct (Hangul.compose_hangul_inv s c Hs' Hc' Hne); tauto.
Qed.

(** The composite of two characters, 0 when there is none: a syllable, or
    what the list [T] of primary composites says. *)
Definition composite (T : Z -> Z -> Z) (s c : Z) : Z := match hangul_pair s c with Some v => v | None => T s c end.

(** A file for the composites [T], on the characters [A]: their blocks have
    entries of their own, the buckets hold the composites, and these are
    starters of [A] that are not themselves the second half of a composition. *)
Record wf_composition (info : list Z) (A : Z -> Prop) (T : Z -> Z -> Z) : Prop := {
  comp_size : field info f_comp_size <> 0;
  comp_chars : forall c, A c -> own_block info c;
  comp_listed : forall s c, A s -> A c ->
    exists ts, bucket_of info s c ts /\ Forall scalar (flat_triples ts) /\ find_composite ts s c = T s c;
  comp_starter : forall s c, A s -> A c -> composite T s c <> 0 ->
    A (composite T s c) /\ file_class info (composite T s c) = 0;
  comp_not_second : forall s c t, A s -> A c -> A t ->
    composite T s c <> 0 -> composite T t (composite T s c) = 0;
}.

Lemma hangul_pair_nonzero s c : 0 <= s -> hangul_pair s c <> Some 0.
Proof. intros Hs. unfold hangul_pair. repeat case_decide; intros [= E]; lia. Qed.

Lemma compose_pair_ok info A T s c : wf_table info -> wf_composition info A T -> A s -> A c ->
  compose_pair info s c = Ok (composite T s c).
Proof.
  intros Hwf Hc As Ac. destruct (comp_chars _ _ _ Hc s As) as [Ss _]. destruct (comp_chars _ _ _ Hc c Ac) as [Sc _].
  unfold compose_pair, composite. rewrite compose_hangul_pair by done. cbv zeta.
  destruct (hangul_pair s c) as [v|] eqn:E; cbn [default id].
  - zcase; [|done]. subst v. exfalso. apply (hangul_pair_nonzero s c); [unfold scalar in Ss; lia|done].
  - rewrite Z.eqb_refl. destruct (comp_listed _ _ _ Hc s c As Ac) as (ts & Hb & Hs & <-).
    apply compose_chars_ok; [done|by eapply comp_size|done|done].
Qed.

Section Loop.
Context (info : list Z) (A : Z -> Prop) (T : Z -> Z -> Z) (Hwf : wf_table info) (Hcomp : wf_composition info A T).
Let ccc := file_class info.
Let pair := composite T.

Lemma alphabet_scalar c : A c -> scalar c.
Proof. intros Hc. by destruct (comp_chars _ _ _ Hcomp c Hc). Qed.

(** The class of the last character passed over since the starter. *)
Definition last_class (m : list Z) : Z :=
  match last m with Some d => ccc d | None => 0 end.

(** The guard of the code is the blocking condition. *)
Lemma guard_unblocked m k :
  Forall (fun d => ccc d <> 0) m ->
  negb (last_class m =? 0) && (k <=? last_class m) = false <-> unblocked ccc m k.
Proof.
  intros Hm. unfold last_class, unblocked. destruct (last m) as [d|] eqn:E.
  - assert (ccc d <> 0) by (apply last_Some_elem_of in E; rewrite Forall_forall in Hm; auto).
    split; [|intros [_ Hd]; specialize (Hd d eq_refl); lia].
    intros Hg. split; [done|]. intros ? [= <-]. lia.
  - split; [|done]. intros _. split; [done|]. by intros.
Qed.

(** What the loop delivers from the text [cs]. *)
Definition delivers (cs b : list Z) (o : outcome (list Z * nat)) : Prop :=
  exists ds b', o = Ok (utf16 ds ++ b', length (utf16 ds)) /\
    rtc (compose1 ccc pair) cs ds /\ composed ccc pair ds /\ Forall A ds /\
    length (utf16 ds ++ b') = length (utf16 cs ++ b).

(** One iteration at [c], after [p]. *)
Lemma compose_loop_step p c r b fuel last s pc :
  A c ->
  let cs := p ++ c :: r in
  let n := length (utf16 cs) in
  let i := length (utf16 p) in
  let i' := length (utf16 (p ++ [c])) in
  compose_loop (S fuel) info (utf16 cs ++ b) n i last s pc =
  let next :=
    if ccc c =? 0 then compose_loop fuel info (utf16 cs ++ b) n i' i c (ccc c)
    else compose_loop fuel info (utf16 cs ++ b) n i' last s (ccc c) in
  if (last =? n)%nat || (negb (pc =? 0) && (ccc c <=? pc)) then next
  else
    comp ← compose_pair info s c;
    if comp =? 0 then next
    else
      '(str, srclen) ← replace_pair (utf16 cs ++ b) n last i (length (utf16_char c)) s comp;
      compose_loop fuel info str srclen (last + unit_len comp) last comp 0.
Proof.
  intros Hc cs n i i'. cbn [compose_loop]. pose proof (utf16_char_length_pos c). pose proof (alphabet_scalar c Hc) as Hsc.
  assert (n = i + (length (utf16_char c) + length (utf16 r)))%nat
    by (subst n i cs; by rewrite utf16_length_app, utf16_length_cons).
  assert (i' = i + length (utf16_char c))%nat as ->
    by (subst i i'; by rewrite utf16_length_app, utf16_length_cons, Nat.add_0_r).
  rewrite (proj2 (Nat.ltb_lt _ _)) by lia.
  rewrite (get_utf16_at [] p c r b) by (done || simpl; subst i; lia).
  rewrite bind_ok. destruct (get_combining_class_file info c Hwf (comp_chars _ _ _ Hcomp c Hc)) as [-> _]. by rewrite bind_ok.
Qed.

Lemma compose_loop_done cs b fuel last s pc :
  compose_loop (S fuel) info (utf16 cs ++ b) (length (utf16 cs)) (length (utf16 cs)) last s pc
  = Ok (utf16 cs ++ b, length (utf16 cs)).
Proof. cbn [compose_loop]. by rewrite (proj2 (Nat.ltb_ge _ _)). Qed.

Lemma delivers_step cs cs' b b' o :
  compose1 ccc pair cs cs' -> length (utf16 cs' ++ b') = length (utf16 cs ++ b) ->
  delivers cs' b' o -> delivers cs b o.
Proof.
  intros Hs Hl (ds & b'' & -> & Hr & Hn & Hf & Hl'). exists ds, b''.
  split_and!; [done|by eapply rtc_l|done|done|congruence].
Qed.

(** After the first starter.  [k] bounds the characters that a composition
    makes the loop scan again. *)
Definition started (k fuel : nat) : Prop := forall p s m r b,
  Forall A (p ++ s :: m ++ r) -> ccc s = 0 -> Forall (fun d => ccc d <> 0) m ->
  composed ccc pair (p ++ s :: m) -> (length (p ++ s :: m ++ r) < k)%nat ->
  (length (p ++ s :: m ++ r) * k + length r < fuel)%nat ->
  delivers (p ++ s :: m ++ r) b
    (compose_loop fuel info (utf16 (p ++ s :: m ++ r) ++ b) (length (utf16 (p ++ s :: m ++ r)))
       (length (utf16 (p ++ s :: m))) (length (utf16 p)) s (last_class m)).

(** [c] is passed over. *)
Lemma started_next k fuel p s m c r b :
  started k fuel ->
  Forall A (p ++ s :: m ++ c :: r) -> ccc s = 0 -> Forall (fun d => ccc d <> 0) m ->
  composed ccc pair (p ++ s :: m) -> (length (p ++ s :: m ++ c :: r) < k)%nat ->
  (length (p ++ s :: m ++ c :: r) * k + length r < fuel)%nat ->
  pair s c = 0 \/ ~ unblocked ccc m (ccc c) ->
  let cs := p ++ s :: m ++ c :: r in
  let i' := length (utf16 (p ++ s :: m ++ [c])) in
  delivers cs b
    (if ccc c =? 0
     then compose_loop fuel info (utf16 cs ++ b) (length (utf16 cs)) i'
            (length (utf16 (p ++ s :: m))) c (ccc c)
     else compose_loop fuel info (utf16 cs ++ b) (length (utf16 cs)) i' (length (utf16 p)) s (ccc c)).
Proof.
  intros IH HF Hs Hm Hn Hk Hfuel Hp cs i'. subst cs i'.
  assert (composed ccc pair (p ++ s :: m ++ [c])) as Hn' by (apply composed_snoc; tauto).
  destruct (Z.eqb_spec (ccc c) 0) as [Hz|Hz].
  - rewrite Hz. specialize (IH (p ++ s :: m) c [] r b). rewrite <- !app_assoc in IH. by apply IH.
  - specialize (IH p s (m ++ [c]) r b). rewrite <- !app_assoc in IH.
    unfold last_class in IH. rewrite last_snoc in IH. apply IH; try done.
    apply Forall_app. split; [done|by constructor].
Qed.

(** [c] is absorbed. *)
Lemma started_compose k fuel p s m c r b :
  started k fuel ->
  Forall A (p ++ s :: m ++ c :: r) -> ccc s = 0 ->
  composed ccc pair (p ++ s :: m) -> (length (p ++ s :: m ++ c :: r) < k)%nat ->
  (length (p ++ s :: m ++ c :: r) * k + length r < S fuel)%nat ->
  unblocked ccc m (ccc c) -> pair s c <> 0 ->
  let cs := p ++ s :: m ++ c :: r in
  delivers cs b
    ('(str, srclen) ← replace_pair (utf16 cs ++ b) (length (utf16 cs)) (length (utf16 p))
                        (length (utf16 (p ++ s :: m))) (length (utf16_char c)) s (pair s c);
     compose_loop fuel info str srclen (length (utf16 p) + unit_len (pair s c))
       (length (utf16 p)) (pair s c) 0).
Proof.
  intros IH HF Hs Hn Hk Hfuel Hu Hp cs. subst cs.
  assert (Forall A p /\ A s /\ Forall A m /\ A c /\ Forall A r)
    as (Hfp & Hss & Hfm & Hc & Hfr) by (rewrite Forall_app, Forall_cons, Forall_app, Forall_cons in HF; tauto).
  destruct (comp_starter _ _ _ Hcomp s c Hss Hc Hp) as [Hv Hv0].
  destruct (replace_pair_ok p s m c r b (pair s c)) as (b' & -> & Hb'); [by apply alphabet_scalar..|].
  rewrite bind_ok, unit_len_eq.
  eapply delivers_step; [by constructor|exact Hb'|].
  replace (length (utf16 p) + length (utf16_char (pair s c)))%nat
    with (length (utf16 (p ++ [pair s c])))
    by (by rewrite utf16_length_app, utf16_length_cons, Nat.add_0_r).
  apply (IH p (pair s c) [] (m ++ r) b'); try done.
  - rewrite !Forall_app, Forall_cons, !Forall_app. done.
  - replace (p ++ s :: m) with ((p ++ [s]) ++ m) in Hn by (by rewrite <- app_assoc).
    eapply composed_replace; [by eapply composed_prefix|].
    eapply Forall_impl; [exact Hfp|]. intros t Ht. by apply (comp_not_second _ _ _ Hcomp).
  - rewrite !length_app in *. simpl in *. rewrite !length_app in *. simpl in *. lia.
  - rewrite !length_app in *. simpl in *. rewrite !length_app in *. simpl in *. nia.
Qed.

Lemma compose_loop_started k fuel : started k fuel.
Proof.
  induction fuel as [|fuel IH]; intros p s m r b HF Hs Hm Hn Hk Hfuel; [lia|].
  destruct r as [|c r].
  - rewrite app_nil_r in *. rewrite compose_loop_done. by exists (p ++ s :: m), b.
  - assert (A s /\ A c) as [Hss Hc]
      by (rewrite Forall_app, Forall_cons, Forall_app, Forall_cons in HF; tauto).
    pose proof (compose_loop_step (p ++ s :: m) c r b fuel (length (utf16 p)) s (last_class m) Hc) as E.
    cbv zeta in E. rewrite <- !app_assoc in E. cbn [app] in E. rewrite E. clear E.
    rewrite (proj2 (Nat.eqb_neq (length (utf16 p)) _)); cbn [orb].
    2: { rewrite utf16_length_app, utf16_length_cons. pose proof (utf16_char_length_pos s). lia. }
    cbn [length] in Hfuel.
    destruct (negb (last_class m =? 0) && (ccc c <=? last_class m)) eqn:Eg.
    { apply (started_next k); try done; [lia|]. right. rewrite <- guard_unblocked by done. by rewrite Eg. }
    apply guard_unblocked in Eg; [|done].
    rewrite (compose_pair_ok info A T) by done. rewrite bind_ok. zcase.
    + apply (started_next k); try done; [lia|]. by left.
    + apply (started_compose k); try done. lia.
Qed.

(** Before the first starter. *)
Lemma compose_loop_leading k r : forall fuel p b pc,
  Forall A (p ++ r) -> Forall (fun d => ccc d <> 0) p -> (length (p ++ r) < k)%nat ->
  (length (p ++ r) * k + length r < fuel)%nat ->
  delivers (p ++ r) b
    (compose_loop fuel info (utf16 (p ++ r) ++ b) (length (utf16 (p ++ r)))
       (length (utf16 p)) (length (utf16 (p ++ r))) 0 pc).
Proof.
  induction r as [|c r IH]; intros fuel p b pc HF Hp Hk Hfuel; (destruct fuel as [|fuel]; [lia|]).
  - rewrite app_nil_r in *. rewrite compose_loop_done. exists p, b.
    split_and!; try done. by apply composed_no_starter.
  - assert (A c) as Hc by (rewrite Forall_app, Forall_cons in HF; tauto).
    rewrite compose_loop_step by done. cbv zeta. rewrite Nat.eqb_refl. cbn [orb length] in *.
    destruct (Z.eqb_spec (ccc c) 0) as [Hz|Hz].
    + rewrite Hz. apply (compose_loop_started k fuel p c [] r b); try done; [|cbn [app]; lia].
      by apply composed_first_starter.
    + specialize (IH fuel (p ++ [c]) b (ccc c)). rewrite <- app_assoc in IH. cbn [app] in IH. apply IH; try done; [|lia].
      apply Forall_app. split; [done|by constructor].
Qed.

Lemma compose_string_delivers cs b :
  Forall A cs ->
  delivers cs b (compose_string info (utf16 cs ++ b) (length (utf16 cs))).
Proof.
  intros HF. apply (compose_loop_leading (S (length (utf16 cs))) cs _ []); try done;
    cbn [app]; pose proof (utf16_length_ge cs).
  - lia.
  - unfold compose_fuel. nia.
Qed.
End Loop.

(** ** Theorems *)
Module Compose.

(** [compose_chars] finds the composite of a pair: when the bucket of
    its hash holds the triples [ts], the search terminates without leaving
    the file and returns the third character of the first triple that starts
    with the pair, or 0 when there is none. *)
Theorem compose_chars_lookup info ch1 ch2 ts :
  wf_table info -> field info f_comp_size <> 0 ->
  bucket_of info ch1 ch2 ts -> Forall scalar (flat_triples ts) ->
  compose_chars info ch1 ch2 = Ok (find_composite ts ch1 ch2).
Proof. apply compose_chars_ok. Qed.

Lemma angstrom_bucket ch1 ch2 : bucket_of angstrom_table ch1 ch2 [(0x41, 0x30a, 0xc5)].
Proof.
  unfold bucket_of. change (field angstrom_table f_comp_size) with 1. rewrite Z.mod_1_r.
  exists 0%nat. vm_compute. done.
Qed.

Lemma compose_chars_lookup_witness :
  compose_chars angstrom_table 0x41 0x30a = Ok 0xc5.
Proof.
  apply (compose_chars_lookup angstrom_table 0x41 0x30a [(0x41, 0x30a, 0xc5)]).
  - apply angstrom_table_wf.
  - vm_compute. discriminate.
  - apply angstrom_bucket.
  - unfold scalar. forall_lia.
Defined.

(** C15. [compose_string] composes in place.  Given the primary composites
    [T] and a set [A] of characters that composition does not leave, and a
    well-formed file whose buckets hold [T] for the pairs of [A] and none of
    whose characters of [A] lies in a block described by one of the entries
    0xfb..0xff: for every UTF-16 text over [A] it terminates without leaving
    the buffer, and leaves a text that is reached from the original by letting
    starters absorb unblocked characters, and in which no starter can absorb
    another one; two characters compose into a Hangul syllable by the
    arithmetic of the standard, or as [T] says. *)
Theorem compose_string_correct info A T cs rest :
  wf_table info -> wf_composition info A T -> Forall A cs ->
  let ccc := file_class info in let pair := composite T in
  exists ds rest', compose_string info (utf16 cs ++ rest) (length (utf16 cs))
                   = Ok (utf16 ds ++ rest', length (utf16 ds)) /\
    rtc (compose1 ccc pair) cs ds /\ composed ccc pair ds /\
    length (utf16 ds ++ rest') = length (utf16 cs ++ rest).
Proof.
  intros Hwf Hc HF ccc pair.
  destruct (compose_string_delivers info A T Hwf Hc cs rest HF) as (ds & rest' & E & H1 & H2 & _ & H3).
  eauto 10.
Qed.

(** The composites of the example file. *)
Definition angstrom (s c : Z) : Z := if (0x41 =? s) && (0x30a =? c) then 0xc5 else 0.

Lemma hangul_pair_syllable s c v : hangul_pair s c = Some v -> Hangul.is_syllable v.
Proof. unfold hangul_pair. repeat case_decide; intros [= <-]; Hangul.hangul; dlia. Qed.

Lemma angstrom_composite s c : composite angstrom s c <> 0 -> Hangul.is_syllable (composite angstrom s c) \/ composite angstrom s c = 0xc5.
Proof.
  unfold composite. destruct (hangul_pair s c) as [v|] eqn:E; [left; by eapply hangul_pair_syllable|].
  unfold angstrom. destruct (_ && _); [by right|done].
Qed.

(** A syllable, like U+00C5, is never the second half of a composition. *)
Lemma hangul_not_second t v : Hangul.is_syllable v \/ v = 0xc5 -> composite angstrom t v = 0.
Proof.
  intros Hv. unfold composite, hangul_pair. rewrite !decide_False by (Hangul.hangul; lia). unfold angstrom.
  destruct (Z.eqb_spec 0x30a v) as [<-|]; [|by rewrite andb_false_r]. Hangul.hangul. lia.
Qed.

Definition is_zero (o : outcome Z) : bool := match o with Ok 0 => true | _ => false end.

Lemma is_zero_ok o : is_zero o = true -> o = Ok 0.
Proof. by destruct o as [[| |]| |]. Qed.

Lemma syllables_starters v : Hangul.is_syllable v \/ v = 0xc5 -> file_class angstrom_table v = 0.
Proof.
  intros [Hv| ->]; [|vm_compute; reflexivity].
  assert (forallb (fun i => is_zero (rd_byte angstrom_table 0x42 i)) (seqZ 344 88) = true) as Hall by (vm_compute; reflexivity).
  pose proof (seqZ_forallb _ _ _ Hall (v / 128) ltac:(Hangul.hangul; dlia)) as Hb%is_zero_ok.
  rewrite file_class_empty_block; [vm_compute; reflexivity|]. unfold block_entry, byte_at.
  change (field angstrom_table f_props_level1) with 0x42. by rewrite Hb.
Qed.

(** No entry of the example file stands for a block. *)
Lemma angstrom_blocks c : scalar c -> own_block angstrom_table c.
Proof.
  intros Hc. split; [done|]. unfold block_entry.
  assert (forallb (fun i => byte_at angstrom_table 0x42 i <? 0xfb) (seqZ 0 0x2200) = true) as Hall by (vm_compute; reflexivity).
  change (field angstrom_table f_props_level1) with 0x42.
  assert (0 <= c / 128 < 0 + 0x2200) as Hi by (clear Hall; unfold scalar in Hc; dlia).
  apply Z.ltb_lt. exact (seqZ_forallb _ _ _ Hall (c / 128) Hi).
Qed.

Lemma angstrom_composition : wf_composition angstrom_table scalar angstrom.
Proof.
  split.
  - vm_compute. discriminate.
  - apply angstrom_blocks.
  - intros s c _ _. exists [(0x41, 0x30a, 0xc5)]. split_and!; [apply angstrom_bucket|unfold scalar; forall_lia|done].
  - intros s c Hs Hc Hne. pose proof (angstrom_composite s c Hne) as Hv. split; [|by apply syllables_starters].
    unfold scalar. destruct Hv as [H| ->]; [|lia]. Hangul.hangul. lia.
  - intros s c t Hs Hc Ht Hne. apply hangul_not_second. by apply angstrom_composite.
Qed.

Lemma compose_string_correct_witness :
  exists ds rest', compose_string angstrom_table (utf16 [0x41; 0x323; 0x30a] ++ [7]) 3
                   = Ok (utf16 ds ++ rest', length (utf16 ds)) /\
    composed (file_class angstrom_table) (composite angstrom) ds.
Proof.
  destruct (compose_string_correct angstrom_table scalar angstrom [0x41; 0x323; 0x30a] [7])
    as (ds & rest' & E & _ & H & _);
    [apply angstrom_table_wf|apply angstrom_composition|unfold scalar; forall_lia|].
  exists ds, rest'. split; [exact E|exact H].
Defined.

Example compose_string_example :
  compose_string angstrom_table [0x41; 0x323; 0x30a; 7] 3 = Ok ([0xc5; 0x323; 0x30a; 7], 2%nat).
Proof. vm_compute. reflexivity. Qed.

End Compose.
