(* ===== verification/NormApi.v ===== *)
(** * RtlNormalizeString and RtlIsNormalizedString

    The entry points put decomposition, canonical order and composition
    together; the theorems here state what a caller gets from them. *)
From S2P Require Import Prelude Utf Normalize Order Compose.
Import Utf16 NormTable Hangul Norm.

(** ** Sizes of decompositions *)

Lemma decomp_sequence_length info seq w l :
  decomp_sequence info seq w = Ok l -> (length l <= length info)%nat.
Proof.
  unfold decomp_sequence. intros H. inv_bind. unfold rd_list in H. case_decide; [|done].
  injection H as <-. rewrite length_take, length_drop. lia.
Qed.

Lemma decompose_hangul_length ch : (length (decompose_hangul ch) <= 3)%nat.
Proof. unfold decompose_hangul. cbv zeta. destruct (_ =? 0); simpl; lia. Qed.

Lemma get_decomposition_length info ch props l :
  (3 <= length info)%nat -> get_decomposition info ch props = Ok (Some l) ->
  (length l <= length info)%nat.
Proof.
  intros Hi. unfold get_decomposition. intros H.
  apply bind_Ok_inv in H as (ht & _ & H). apply bind_Ok_inv in H as (buf & Hbuf & H).
  assert (length (take (if (65536 <=? ch)%Z then 2 else 1) buf) <= 3)%nat as Hself
    by (rewrite length_take; destruct (65536 <=? ch)%Z; lia).
  pose proof (decompose_hangul_length ch).
  repeat match type of H with
  | (if ?b then _ else _) = _ => destruct b
  | Ok (Some _) = Ok (Some _) => injection H as <-; lia
  | _ ≫= _ = Ok _ => let a := fresh "a" in let Ha := fresh "Ha" in
                     apply bind_Ok_inv in H as (a & Ha & H)
  | match ?o with Some _ => _ | None => _ end = _ => destruct o
  | _ => discriminate
  end;
  injection H as <-; by eapply decomp_sequence_length.
Qed.

Lemma decomposition_bound info cs dss :
  (3 <= length info)%nat -> Forall2 (decomposes info) cs dss ->
  (length (utf16 (concat dss)) <= length cs * length info)%nat.
Proof.
  intros Hi. induction 1 as [|c ds cs dss (_ & _ & props & _ & Hd) _ IH]; [simpl; lia|].
  apply get_decomposition_length in Hd; [|done]. cbn [concat length]. rewrite utf16_length_app. lia.
Qed.

(** ** The retry loop *)
Section Api.
Context (NtGetNlsSectionPtr : Z -> Z * list Z * Z).
Context (RtlAllocateHeap : Z -> option (list Z)).

(** A block of the heap has the size asked for. *)
Definition heap_ok : Prop :=
  forall n b, RtlAllocateHeap n = Some b -> Z.of_nat (length b) = n.

(** The heap has refused a block. *)
Definition exhausted : Prop := exists n, 0 <= n /\ RtlAllocateHeap n = None.

Hypothesis Hheap : heap_ok.

Context (info cs rest : list Z) (dss : list (list Z)) (factor : Z).
Hypothesis Hwf : wf_table info.
Hypothesis Hdecomp : Forall2 (decomposes info) cs dss.
Hypothesis Hblocks : Forall (own_block info) (concat dss).
Hypothesis Hoverlap : overlap_free (file_class info) (concat dss) = true.
Hypothesis Hfactor : rd info f_len_factor = Ok factor.
Hypothesis Hfactor_pos : 0 < factor.
Let src_len := Z.of_nat (length (utf16 cs)).
Let n := length (utf16 (concat dss)).
Hypothesis Hint : Z.max (4 * src_len) (Z.of_nat n) + src_len * factor < 2 ^ 31.

Lemma decompose_retry_ok : forall fuel buf_len,
  0 <= buf_len <= Z.max (4 * src_len) (Z.of_nat n + src_len * factor) ->
  Z.of_nat n - buf_len < Z.of_nat fuel -> (0 < fuel)%nat ->
  (decompose_retry RtlAllocateHeap fuel info (utf16 cs ++ rest) src_len buf_len = Ok None /\
   exhausted) \/
  exists b, decompose_retry RtlAllocateHeap fuel info (utf16 cs ++ rest) src_len buf_len
            = Ok (Some (STATUS_SUCCESS, utf16 (canon (file_class info) (concat dss)) ++ b,
                        Z.of_nat n)).
Proof.
  induction fuel as [|fuel IH]; intros buf_len Hb Hf Hpos; [lia|]. cbn [decompose_retry].
  destruct (RtlAllocateHeap buf_len) as [buf|] eqn:Ea;
    [|left; split; [done|]; exists buf_len; split; [lia|done]].
  pose proof (Hheap _ _ Ea) as Hlen. destruct (Z.le_gt_cases (Z.of_nat n) buf_len).
  - right. subst src_len. rewrite (decompose_string_fits info cs rest dss) by (done || subst n; nia).
    rewrite bind_ok. eauto.
  - destruct (decompose_string_small info cs rest dss buf buf_len factor)
      as (dst' & n' & E & _ & Hn'); try done; try (subst n src_len; nia).
    subst src_len. rewrite E, bind_ok.
    change (negb (STATUS_BUFFER_TOO_SMALL =? STATUS_BUFFER_TOO_SMALL)) with false. cbv iota.
    apply IH; subst n; nia.
Qed.

(** The forms without composition. *)
Lemma normalize_decomposed dst dst_len :
  field info f_comp_size = 0 -> cs <> [] -> Z.of_nat n <= dst_len <= Z.of_nat (length dst) ->
  0 < dst_len < 2 ^ 31 ->
  normalize_with RtlAllocateHeap info (utf16 cs ++ rest) src_len dst dst_len
  = Ok (STATUS_SUCCESS, utf16 (canon (file_class info) (concat dss)) ++ drop n dst, Z.of_nat n).
Proof.
  intros Hcs Hne Hn Hd. unfold normalize_with. subst src_len.
  assert (0 < length (utf16 cs))%nat
    by (pose proof (utf16_length_ge cs); destruct cs; [done|simpl in *; lia]).
  rewrite (proj2 (Z.eqb_neq _ (-1))), bind_ok, Hfactor, bind_ok by lia.
  destruct (field_ok info Hwf f_comp_size) as [-> _]; [unfold f_comp_size; lia|].
  rewrite bind_ok, Hcs, !(proj2 (Z.eqb_neq _ 0)), Z.eqb_refl by lia.
  apply decompose_string_fits; try done. lia.
Qed.

(** The forms with composition. *)
Lemma normalize_composed dst dst_len :
  forall A T, wf_composition info A T -> Forall A (concat dss) -> cs <> [] ->
  0 < dst_len <= Z.of_nat (length dst) ->
  let ccc := file_class info in let pair := composite T in
  let o := normalize_with RtlAllocateHeap info (utf16 cs ++ rest) src_len dst dst_len in
  (o = Ok (STATUS_NO_MEMORY, dst, dst_len) /\ exhausted) \/
  exists es, rtc (compose1 ccc pair) (canon ccc (concat dss)) es /\ composed ccc pair es /\
    Forall scalar es /\
    o = let len := length (utf16 es) in
        if Z.of_nat len <=? dst_len
        then Ok (STATUS_SUCCESS, utf16 es ++ drop len dst, Z.of_nat len)
        else Ok (STATUS_BUFFER_TOO_SMALL, dst, Z.of_nat len).
Proof.
  intros A T Hcomp HA Hne Hd ccc pair o. subst o ccc pair. unfold normalize_with, src_len in *.
  pose proof (comp_size _ _ _ Hcomp) as Hcs.
  assert (0 < length (utf16 cs))%nat
    by (pose proof (utf16_length_ge cs); destruct cs; [done|simpl in *; lia]).
  rewrite (proj2 (Z.eqb_neq _ (-1))), bind_ok, Hfactor, bind_ok by lia.
  destruct (field_ok info Hwf f_comp_size) as [-> _]; [unfold f_comp_size; lia|].
  rewrite bind_ok, !(proj2 (Z.eqb_neq _ 0)) by lia.
  rewrite sint_ok, bind_ok by nia.
  pose proof (decomposition_bound info cs dss) as Hbound.
  pose proof (decompose_retry_ok (retry_fuel info (utf16 cs ++ rest))
    (Z.of_nat (length (utf16 cs)) * 4)) as Hretry. unfold src_len in Hretry.
  destruct Hretry as [[-> Hex]|[b ->]].
  1: nia. 
  1: { unfold retry_fuel. rewrite length_app. pose proof (utf16_length_ge cs). unfold n.
       specialize (Hbound ltac:(pose proof (wf_size _ Hwf); lia) Hdecomp). nia. }
  1: unfold retry_fuel; lia.
  { left. by rewrite bind_ok. }
  right. rewrite bind_ok, Z.eqb_refl, Nat2Z.id.
  assert (Forall A (canon (file_class info) (concat dss))) as HA' by (by rewrite <- canon_perm).
  assert (n = length (utf16 (canon (file_class info) (concat dss)))) as Hn
    by (unfold n; apply utf16_length_perm, canon_perm).
  rewrite Hn.
  destruct (compose_string_delivers info A T Hwf Hcomp (canon (file_class info) (concat dss)) b HA')
    as (es & b' & -> & H1 & H2 & H3 & H4).
  exists es. split_and!; [done|done|eapply Forall_impl; [exact H3|]; intros c Hc; by apply (comp_chars _ _ _ Hcomp)|]. rewrite bind_ok. cbv zeta. zcase; [|done].
  rewrite (rd_list_app [] (utf16 es) b'), bind_ok by done.
  by rewrite (wr_list_tail [] dst), bind_ok by (done || lia).
Qed.
End Api.

(** The cache of tables. *)
Lemma load_norm_table_hit nls tables form info :
  0 < form < 16 -> tables !! Z.to_nat form = Some (Some info) ->
  load_norm_table nls tables form = Ok (STATUS_SUCCESS, Some info, tables).
Proof.
  intros Hf Ht. unfold load_norm_table.
  rewrite (proj2 (Z.eqb_neq _ _)), (proj2 (Z.leb_gt _ _)) by lia. by rewrite Ht.
Qed.

(** ** Comparison of texts *)

Lemma utf16_inj cs ds : Forall scalar cs -> Forall scalar ds -> utf16 cs = utf16 ds -> cs = ds.
Proof.
  revert ds. induction cs as [|c cs IH]; intros [|d ds] Hcs Hds E; try done.
  1,2: exfalso; apply (f_equal length) in E; rewrite utf16_length_cons in E;
       change (length (utf16 [])) with 0%nat in E;
       match type of E with context [utf16_char ?x] => pose proof (utf16_char_length_pos x) end; lia.
  apply Forall_cons in Hcs as [Hc Hcs]. apply Forall_cons in Hds as [Hd Hds].
  assert (c = d) as <-.
  { rewrite !utf16_cons in E.
    pose proof (get_utf16_encoded [] c (utf16 cs) 2 Hc) as E1.
    pose proof (get_utf16_encoded [] d (utf16 ds) 2 Hd) as E2.
    cbn [app] in *. rewrite E in E1.
    specialize (E1 (proj2 (utf16_char_length_pos c))). specialize (E2 (proj2 (utf16_char_length_pos d))).
    congruence. }
  f_equal. apply IH; [done|done|]. rewrite !utf16_cons in E. by apply app_inv_head in E.
Qed.

(** Without null characters, [wcsncmp] compares all of the [n] units. *)
Lemma wcsncmp_eq_ok p u v b1 b2 q :
  length p = length q -> length u = length v -> Forall (fun c => c <> 0) v ->
  wcsncmp_eq (p ++ u ++ b1) (q ++ v ++ b2) (length p) (length v) = Ok (bool_decide (u = v)).
Proof.
  revert p q v. induction u as [|c u IH]; intros p q [|d v] Hpq Huv HF; try done.
  cbn [wcsncmp_eq length]. apply Forall_cons in HF as [Hd HF]. cbn [app].
  rewrite (rd_middle p _ _ (length p)), bind_ok by done.
  rewrite (rd_middle q _ _ (length p)), bind_ok by done. zcase; cbn [negb].
  - subst d. rewrite (proj2 (Z.eqb_neq _ _)) by done.
    specialize (IH (p ++ [c]) (q ++ [c]) v). rewrite <- !app_assoc, length_app, Nat.add_1_r in IH.
    cbn [app] in IH. rewrite IH; [|rewrite length_app; simpl in *; lia|simpl in *; lia|done].
    f_equal. apply bool_decide_ext. split; congruence.
  - rewrite bool_decide_false by congruence. done.
Qed.

Lemma utf16_nonzero cs :
  Forall scalar cs -> Forall (fun c => c <> 0) cs -> Forall (fun u => u <> 0) (utf16 cs).
Proof.
  induction cs as [|c cs IH]; intros Hs Hn; [done|].
  apply Forall_cons in Hs as [Hc Hs]. apply Forall_cons in Hn as [Hc0 Hn].
  rewrite utf16_cons. apply Forall_app. split; [|by apply IH].
  unfold utf16_char. unfold scalar in Hc. zcase; forall_lia.
Qed.

(** The comparison at the end of [RtlIsNormalizedString], after a
    normalisation that gave [es]. *)
Lemma compare_result {T} cs es rest buf dst_len (t : T) :
  Forall scalar cs -> Forall scalar es -> Forall (fun c => c <> 0) cs ->
  Z.of_nat (length (utf16 cs)) <= dst_len ->
  let n := length (utf16 cs) in let m := length (utf16 es) in
  exists res,
    ('(status, buffer, dstlen, t) ←
       (if Z.of_nat m <=? dst_len
        then Ok (STATUS_SUCCESS, utf16 es ++ drop m buf, Z.of_nat m, t)
        else Ok (STATUS_BUFFER_TOO_SMALL, buf, Z.of_nat m, t));
     if (status =? STATUS_SUCCESS) && (dstlen =? Z.of_nat n) then
       same ← wcsncmp_eq buffer (utf16 cs ++ rest) 0 n;
       Ok (STATUS_SUCCESS, Some same, t)
     else Ok (STATUS_SUCCESS, Some false, t))
    = Ok (STATUS_SUCCESS, Some res, t) /\ (res = true <-> es = cs).
Proof.
  intros Hcs Hes Hnul Hd n m. subst n m.
  destruct (Z.eqb_spec (Z.of_nat (length (utf16 es))) (Z.of_nat (length (utf16 cs)))) as [El|El].
  - rewrite (proj2 (Z.leb_le _ _)), bind_ok, El, !Z.eqb_refl by lia. cbn [andb].
    pose proof (wcsncmp_eq_ok [] (utf16 es) (utf16 cs) (drop (length (utf16 es)) buf) rest []) as E.
    cbn [app length] in E. rewrite E, bind_ok; [|done|lia|by apply utf16_nonzero].
    eexists. split; [done|]. rewrite bool_decide_eq_true. split; [by apply utf16_inj|by intros ->].
  - exists false. split; [|split; [done|by intros ->]].
    destruct (_ <=? _); rewrite bind_ok, (proj2 (Z.eqb_neq _ _) El), andb_false_r; done.
Qed.

(** ** Theorems *)
Module NormApi.

(** A text that the look-up of the code decomposes into [dss], within the
    limits of the canonical ordering, and whose sizes fit the [int]s of the
    code. *)
Record normalizable (info cs : list Z) (dss : list (list Z)) : Prop := {
  nz_table : wf_table info;
  nz_text : cs <> [];
  nz_decomp : Forall2 (decomposes info) cs dss;
  nz_blocks : Forall (own_block info) (concat dss);
  nz_overlap : overlap_free (file_class info) (concat dss) = true;
  nz_factor : 0 < field info f_len_factor;
  nz_int : Z.max (4 * Z.of_nat (length (utf16 cs))) (Z.of_nat (length (utf16 (concat dss))))
           + Z.of_nat (length (utf16 cs)) * field info f_len_factor < 2 ^ 31;
}.

Section Theorems.
Context (NtGetNlsSectionPtr : Z -> Z * list Z * Z).
Context (RtlAllocateHeap : Z -> option (list Z)).

Lemma normalizable_factor info cs dss :
  normalizable info cs dss -> rd info f_len_factor = Ok (field info f_len_factor).
Proof. intros H. apply (field_ok info (nz_table _ _ _ H)). unfold f_len_factor. lia. Qed.

(** The decomposing forms (the file has no composition table): given a
    buffer of the size of the result, [RtlNormalizeString] succeeds and stores
    the canonical order of the decompositions of the characters of the text,
    and nothing behind it. *)
Theorem RtlNormalizeString_decomposes tables tables' form info cs rest dss dst dst_len :
  load_norm_table NtGetNlsSectionPtr tables form = Ok (STATUS_SUCCESS, Some info, tables') ->
  normalizable info cs dss -> field info f_comp_size = 0 ->
  let n := length (utf16 (concat dss)) in
  Z.of_nat n <= dst_len <= Z.of_nat (length dst) -> 0 < dst_len < 2 ^ 31 ->
  RtlNormalizeString NtGetNlsSectionPtr RtlAllocateHeap tables form (utf16 cs ++ rest)
    (Z.of_nat (length (utf16 cs))) dst dst_len
  = Ok (STATUS_SUCCESS, utf16 (canon (file_class info) (concat dss)) ++ drop n dst,
        Z.of_nat n, tables').
Proof.
  intros Hload Hnz Hcs n Hn Hd. unfold RtlNormalizeString. rewrite Hload, bind_ok.
  rewrite (normalize_decomposed RtlAllocateHeap info cs rest dss (field info f_len_factor));
    try apply Hnz; try done. by eapply normalizable_factor.
Qed.

(** The composing forms: [RtlNormalizeString] returns STATUS_NO_MEMORY
    only when the heap refuses a block; otherwise its internal buffer grows until the
    decomposition fits, and the result is a full composition of the canonical
    order of the decompositions: stored in [dst] when it fits, reported by its
    length with STATUS_BUFFER_TOO_SMALL and [dst] untouched when it does not. *)
Theorem RtlNormalizeString_composes tables tables' form info A T cs rest dss dst dst_len :
  load_norm_table NtGetNlsSectionPtr tables form = Ok (STATUS_SUCCESS, Some info, tables') ->
  normalizable info cs dss -> wf_composition info A T -> Forall A (concat dss) ->
  heap_ok RtlAllocateHeap -> 0 < dst_len <= Z.of_nat (length dst) ->
  let ccc := file_class info in let pair := composite T in
  let o := RtlNormalizeString NtGetNlsSectionPtr RtlAllocateHeap tables form (utf16 cs ++ rest)
             (Z.of_nat (length (utf16 cs))) dst dst_len in
  (o = Ok (STATUS_NO_MEMORY, dst, dst_len, tables') /\ exhausted RtlAllocateHeap) \/
  exists es, rtc (compose1 ccc pair) (canon ccc (concat dss)) es /\ composed ccc pair es /\
    let len := length (utf16 es) in
    o = if Z.of_nat len <=? dst_len
        then Ok (STATUS_SUCCESS, utf16 es ++ drop len dst, Z.of_nat len, tables')
        else Ok (STATUS_BUFFER_TOO_SMALL, dst, Z.of_nat len, tables').
Proof.
  intros Hload Hnz Hcomp HA Hheap Hd ccc pair o. subst o ccc pair.
  unfold RtlNormalizeString. rewrite Hload, bind_ok.
  destruct (normalize_composed RtlAllocateHeap Hheap info cs rest dss (field info f_len_factor)
    (nz_table _ _ _ Hnz) (nz_decomp _ _ _ Hnz) (nz_blocks _ _ _ Hnz) (nz_overlap _ _ _ Hnz) (normalizable_factor _ _ _ Hnz)
    (nz_factor _ _ _ Hnz) (nz_int _ _ _ Hnz) dst dst_len A T Hcomp HA (nz_text _ _ _ Hnz) Hd)
    as [[-> Hex]|(es & H1 & H2 & _ & ->)]; [by left|].
  right. exists es. split_and!; [done|done|]. cbv zeta. by destruct (_ <=? _).
Qed.

Lemma cache_hit tables tables' form info :
  0 <= form -> length tables = 16%nat ->
  load_norm_table NtGetNlsSectionPtr tables form = Ok (STATUS_SUCCESS, Some info, tables') ->
  (forall nls, load_norm_table nls tables' form = Ok (STATUS_SUCCESS, Some info, tables')) /\
  (forall i, i <> Z.to_nat form -> tables' !! i = tables !! i) /\ length tables' = 16%nat.
Proof.
  intros Hf Hlen Hload. unfold load_norm_table in Hload.
  destruct (Z.eqb_spec form 0); [done|]. destruct (Z.leb_spec 16 form); [done|].
  destruct (tables !! Z.to_nat form) as [[t|]|] eqn:Et; [| |done].
  - injection Hload as -> <-. split_and!; [|done|done]. intros. apply load_norm_table_hit; [lia|done].
  - destruct (NtGetNlsSectionPtr form) as [[st data] size]. destruct (negb _); [done|].
    destruct (size <=? 68); [done|]. inv_bind. destruct (negb _); [done|]. inv_bind.
    destruct a0; [|done]. injection Hload as -> <-. split_and!.
    + intros. apply load_norm_table_hit; [lia|]. apply list_lookup_insert_eq. lia.
    + intros. by apply list_lookup_insert_ne.
    + by rewrite length_insert.
Qed.

(** The table cache: a table that [load_norm_table] has returned is
    returned by every later call for that form, whatever the system then
    answers, and loading a form does not disturb the others. *)
Theorem load_norm_table_cached tables tables' form info :
  0 <= form -> length tables = 16%nat ->
  load_norm_table NtGetNlsSectionPtr tables form = Ok (STATUS_SUCCESS, Some info, tables') ->
  (forall nls, load_norm_table nls tables' form = Ok (STATUS_SUCCESS, Some info, tables')) /\
  (forall i, i <> Z.to_nat form -> tables' !! i = tables !! i) /\ length tables' = 16%nat.
Proof.
  apply cache_hit.
Qed.

(** When the quick check of [RtlIsNormalizedString] is inconclusive and
    the heap provides the buffers, the answer is whether normalising the text
    (without null characters) gives the text itself. *)
Theorem RtlIsNormalizedString_compares tables tables' form info A T cs rest dss :
  load_norm_table NtGetNlsSectionPtr tables form = Ok (STATUS_SUCCESS, Some info, tables') ->
  0 <= form -> length tables = 16%nat ->
  normalizable info cs dss -> wf_composition info A T -> Forall A (concat dss) ->
  heap_ok RtlAllocateHeap -> ~ exhausted RtlAllocateHeap ->
  Forall (fun c => c <> 0) cs ->
  let n := length (utf16 cs) in
  quick_check (S n) info (field info f_comp_size) (utf16 cs ++ rest) 0 n 0 1 = Ok (Some (-1)) ->
  exists res es,
    RtlIsNormalizedString NtGetNlsSectionPtr RtlAllocateHeap tables form (utf16 cs ++ rest)
      (Z.of_nat n) = Ok (STATUS_SUCCESS, Some res, tables') /\
    rtc (compose1 (file_class info) (composite T)) (canon (file_class info) (concat dss)) es /\
    composed (file_class info) (composite T) es /\ (res = true <-> es = cs).
Proof.
  intros Hload Hform Hlen Hnz Hcomp HA Hheap Htotal Hnul n Hq. subst n.
  pose proof (nz_int _ _ _ Hnz). pose proof (nz_factor _ _ _ Hnz).
  assert (0 < length (utf16 cs))%nat
    by (pose proof (utf16_length_ge cs); pose proof (nz_text _ _ _ Hnz); destruct cs; [done|simpl in *; lia]).
  unfold RtlIsNormalizedString. rewrite Hload, bind_ok.
  rewrite (proj2 (Z.eqb_neq _ (-1))), bind_ok, Nat2Z.id by lia.
  destruct (field_ok info (nz_table _ _ _ Hnz) f_comp_size) as [-> _]; [unfold f_comp_size; lia|].
  rewrite bind_ok, Hq, bind_ok. rewrite Z.eqb_refl, sint_ok, bind_ok by nia.
  destruct (RtlAllocateHeap (Z.of_nat (length (utf16 cs)) * 4)) as [buf|] eqn:Ea;
    [|exfalso; apply Htotal; eexists; split; [|exact Ea]; lia].
  pose proof (Hheap _ _ Ea) as Hbuf. unfold RtlNormalizeString.
  destruct (cache_hit tables tables' form info Hform Hlen Hload) as [-> _]. rewrite !bind_ok.
  destruct (normalize_composed RtlAllocateHeap Hheap info cs rest dss (field info f_len_factor)
    (nz_table _ _ _ Hnz) (nz_decomp _ _ _ Hnz) (nz_blocks _ _ _ Hnz) (nz_overlap _ _ _ Hnz) (normalizable_factor _ _ _ Hnz)
    (nz_factor _ _ _ Hnz) (nz_int _ _ _ Hnz) buf (Z.of_nat (length (utf16 cs)) * 4) A T Hcomp HA (nz_text _ _ _ Hnz))
    as [[_ Hex]|(es & Hr & Hc & Hes & ->)]; [lia|done|].
  assert (Forall scalar cs) as Hsc by (eapply decomposes_scalar, nz_decomp, Hnz).
  destruct (compare_result cs es rest buf (Z.of_nat (length (utf16 cs)) * 4) tables' Hsc Hes Hnul)
    as (res & Hres & Hiff); [lia|].
  exists res, es. split_and!; [|done|done|done].
  rewrite <- Hres. cbv zeta. by destruct (_ <=? _).
Qed.
End Theorems.

(** *** The example file through the entry points *)

Definition small_heap (n : Z) : option (list Z) :=
  if 0 <=? n then Some (replicate (Z.to_nat n) 0) else None.

Definition nls_of (table : list Z) (form : Z) : Z * list Z * Z :=
  (STATUS_SUCCESS, table, 2 * Z.of_nat (length table)).

Definition no_tables : list (option (list Z)) := replicate 16 None.

(** The same file without its composition table. *)
Definition angstrom_nfd : list Z := <[f_comp_size := 0]> angstrom_table.

Lemma small_heap_ok : heap_ok small_heap /\ ~ exhausted small_heap.
Proof.
  unfold small_heap. split.
  - intros n b. zcase; [|done]. intros [= <-]. rewrite length_replicate. lia.
  - intros (n & Hn & H). rewrite (proj2 (Z.leb_le _ _)) in H by lia. done.
Qed.

(** [decomposes] by evaluation. *)
Lemma decomposes_check info c ds props :
  scalar c -> Forall scalar ds -> get_char_props info c = Ok props ->
  get_decomposition info c props = Ok (Some (utf16 ds)) -> decomposes info c ds.
Proof. unfold decomposes. eauto 6. Qed.

Ltac decomposes_tac props :=
  apply (decomposes_check _ _ _ props);
  [unfold scalar; lia|unfold scalar; forall_lia|vm_compute; reflexivity|vm_compute; reflexivity].

Ltac own_blocks := repeat (apply Forall_cons; split; [split; [unfold scalar; lia|vm_compute; reflexivity]|]); constructor.

Lemma angstrom_normalizable :
  normalizable angstrom_table [0xc5; 0x323] [[0x41; 0x30a]; [0x323]].
Proof.
  split.
  - apply angstrom_table_wf.
  - done.
  - constructor; [decomposes_tac 0x80|]. constructor; [decomposes_tac 0xc2|]. constructor.
  - own_blocks.
  - vm_compute. reflexivity.
  - vm_compute. reflexivity.
  - vm_compute. reflexivity.
Qed.

Lemma angstrom_nfd_normalizable :
  normalizable angstrom_nfd [0xc5; 0x323] [[0x41; 0x30a]; [0x323]].
Proof.
  split.
  - apply table_check_sound. vm_compute. reflexivity.
  - done.
  - constructor; [decomposes_tac 0x80|]. constructor; [decomposes_tac 0xc2|]. constructor.
  - own_blocks.
  - vm_compute. reflexivity.
  - vm_compute. reflexivity.
  - vm_compute. reflexivity.
Qed.

Lemma RtlNormalizeString_decomposes_witness :
  RtlNormalizeString (nls_of angstrom_nfd) small_heap no_tables 2 ([0xc5; 0x323] ++ [9]) 2
    [1; 2; 3; 4] 4
  = Ok (STATUS_SUCCESS, [0x41; 0x323; 0x30a; 4], 3, <[2%nat := Some angstrom_nfd]> no_tables).
Proof.
  apply (RtlNormalizeString_decomposes (nls_of angstrom_nfd) small_heap no_tables
    (<[2%nat := Some angstrom_nfd]> no_tables) 2 angstrom_nfd [0xc5; 0x323] [9]
    [[0x41; 0x30a]; [0x323]] [1; 2; 3; 4] 4).
  - vm_compute. reflexivity.
  - apply angstrom_nfd_normalizable.
  - vm_compute. reflexivity.
  - vm_compute. split; discriminate.
  - lia.
Defined.

Lemma RtlNormalizeString_composes_witness :
  exists o, RtlNormalizeString (nls_of angstrom_table) small_heap no_tables 2 ([0xc5; 0x323] ++ [9]) 2
    [1; 2; 3; 4] 4 = Ok o.
Proof.
  destruct (RtlNormalizeString_composes (nls_of angstrom_table) small_heap no_tables
    (<[2%nat := Some angstrom_table]> no_tables) 2 angstrom_table scalar Compose.angstrom [0xc5; 0x323] [9]
    [[0x41; 0x30a]; [0x323]] [1; 2; 3; 4] 4) as [[E _]|(es & _ & _ & E)].
  - vm_compute. reflexivity.
  - apply angstrom_normalizable.
  - apply Compose.angstrom_composition.
  - unfold scalar. forall_lia.
  - apply small_heap_ok.
  - simpl. lia.
  - eexists. exact E.
  - cbv zeta in E. destruct (_ <=? 4); eexists; exact E.
Defined.

Lemma load_norm_table_cached_witness :
  load_norm_table (fun _ => (STATUS_UNSUCCESSFUL, [], 0))
    (<[2%nat := Some angstrom_table]> no_tables) 2
  = Ok (STATUS_SUCCESS, Some angstrom_table, <[2%nat := Some angstrom_table]> no_tables).
Proof.
  destruct (load_norm_table_cached (nls_of angstrom_table) no_tables
    (<[2%nat := Some angstrom_table]> no_tables) 2 angstrom_table) as [H _];
    [lia|reflexivity|vm_compute; reflexivity|apply H].
Defined.

Lemma RtlIsNormalizedString_compares_witness :
  exists res es, RtlIsNormalizedString (nls_of angstrom_table) small_heap no_tables 2
      ([0xc5; 0x323] ++ [9]) 2
    = Ok (STATUS_SUCCESS, Some res, <[2%nat := Some angstrom_table]> no_tables) /\
    (res = true <-> es = [0xc5; 0x323]).
Proof.
  destruct (RtlIsNormalizedString_compares (nls_of angstrom_table) small_heap no_tables
    (<[2%nat := Some angstrom_table]> no_tables) 2 angstrom_table scalar Compose.angstrom [0xc5; 0x323] [9]
    [[0x41; 0x30a]; [0x323]]) as (res & es & E & _ & _ & H).
  - vm_compute. reflexivity.
  - lia.
  - reflexivity.
  - apply angstrom_normalizable.
  - apply Compose.angstrom_composition.
  - unfold scalar. forall_lia.
  - apply small_heap_ok.
  - apply small_heap_ok.
  - forall_lia.
  - vm_compute. reflexivity.
  - exists res, es. split; [exact E|exact H].
Defined.

Example normalize_example :
  RtlNormalizeString (nls_of angstrom_table) small_heap no_tables 2 [0x41; 0x323; 0x30a] 3
    [1; 2; 3; 4] 4
  = Ok (STATUS_SUCCESS, [0xc5; 0x323; 3; 4], 2, <[2%nat := Some angstrom_table]> no_tables).
Proof. vm_compute. reflexivity. Qed.

End NormApi.
