(* ===== verification/Idn.v ===== *)
(** * Internationalised domain names (oca/extensions/ntext/rtl/locale.c)

    Nameprep, and the Punycode encoder and decoder of RFC 3492 as the code
    writes them: digit by digit, with the bias adaptation inlined, on the
    local arrays [res[256]] and [buffer[64]]. *)
From S2P Require Import Prelude Utf Normalize.
Import Utf16 NormTable Norm.

Module Punycode.

Definition BASE := 36.
Definition TMIN := 1.
Definition TMAX := 26.
Definition SKEW := 38.
Definition DAMP := 700.

(** [k <= bias ? TMIN : k >= bias + TMAX ? TMAX : k - bias] *)
Definition threshold (k bias : Z) : Z :=
  if k <=? bias then TMIN else if bias + TMAX <=? k then TMAX else k - bias.

(** An array filled from its start: the elements stored so far and the
    capacity.  A store past the end is a fault. *)
Definition push (cap : nat) (l : list Z) (c : Z) : outcome (list Z) :=
  if (length l <? cap)%nat then Ok (l ++ [c]) else Fault.

Definition res_size : nat := 256.
Definition buffer_size : nat := 64.

(** [for (k = 0; delta > ((BASE - TMIN) * TMAX) / 2; k += BASE) delta /= BASE - TMIN;] *)
Fixpoint adapt_loop (fuel : nat) (delta k : Z) : outcome (Z * Z) :=
  match fuel with
  | O => NoFuel
  | S fuel =>
    if (BASE - TMIN) * TMAX ÷ 2 <? delta
    then adapt_loop fuel (delta ÷ (BASE - TMIN)) (k + BASE)
    else Ok (delta, k)
  end.

(** The bias after a delta that made the text [len] characters long. *)
Definition adapt (delta : Z) (first : bool) (len : Z) : outcome Z :=
  let delta := delta ÷ (if first then DAMP else 2) in
  let delta := delta + delta ÷ len in
  '(delta, k) ← adapt_loop 8 delta 0;
  if delta + SKEW =? 0 then Fault (* division by zero *)
  else Ok (k + (BASE - TMIN + 1) * delta ÷ (delta + SKEW)).

(** *** Encoder *)

(** [disp <= 25 ? 'a' + disp : '0' + disp - 26] *)
Definition digit_char (disp : Z) : Z := if disp <=? 25 then 97 + disp else 48 + disp - 26.

(** [for (q = delta, k = BASE; ; k += BASE)]: [None] is the return when
    [res] is full. *)
Fixpoint emit_delta (fuel : nat) (res : list Z) (q k bias : Z) : outcome (option (list Z)) :=
  match fuel with
  | O => NoFuel
  | S fuel =>
    let t := threshold k bias in
    let disp := if q <? t then q else t + Z.rem (q - t) (BASE - t) in
    if (res_size <? length res + 1)%nat then Ok None
    else
      res ← push res_size res (digit_char disp);
      if q <? t then Ok (Some res)
      else emit_delta fuel res ((q - t) ÷ (BASE - t)) (k + BASE) bias
  end.

(** 32 digits exceed every 32-bit delta. *)
Definition delta_fuel : nat := 32.

(** The scan of the label for the characters equal to [n]; [h] counts the
    characters handled. *)
Fixpoint encode_scan (buffer : list Z) (n b : Z) (res : list Z) (delta bias h : Z)
    : outcome (option (list Z * Z * Z * Z)) :=
  match buffer with
  | [] => Ok (Some (res, delta, bias, h))
  | c :: buffer =>
    if c =? n then
      r ← emit_delta delta_fuel res delta BASE bias;
      match r with
      | None => Ok None
      | Some res =>
        bias ← adapt delta (h =? b) (h + 1);
        encode_scan buffer n b res 0 bias (h + 1)
      end
    else if c <? n then encode_scan buffer n b res (delta + 1) bias h
    else encode_scan buffer n b res delta bias h
  end.

(** The least character of the label that is at least [n]. *)
Definition next_char (buffer : list Z) (n : Z) : Z :=
  foldl (fun m c => if (n <=? c) && (c <? m) then c else m) 0x10ffff buffer.

(** [for (h = b; h < buflen; delta++, n++)] *)
Fixpoint encode_loop (fuel : nat) (buffer : list Z) (b : Z) (res : list Z) (n delta bias h : Z)
    : outcome (option (list Z)) :=
  match fuel with
  | O => NoFuel
  | S fuel =>
    if h <? Z.of_nat (length buffer) then
      let m := next_char buffer n in
      let delta := delta + (m - n) * (h + 1) in
      r ← encode_scan buffer m b res delta bias h;
      match r with
      | None => Ok None
      | Some (res, delta, bias, h) =>
        encode_loop fuel buffer b res (m + 1) (delta + 1) bias h
      end
    else Ok (Some res)
  end.

(** [for (i = start; i < end; i++) if (normstr[i] < 0x80) res[out++] = normstr[i];] *)
Fixpoint push_basic (label : list Z) (res : list Z) : outcome (list Z) :=
  match label with
  | [] => Ok res
  | c :: label =>
    if c <? 0x80 then res ← push res_size res c; push_basic label res
    else push_basic label res
  end.

Fixpoint push_all (l : list Z) (res : list Z) : outcome (list Z) :=
  match l with
  | [] => Ok res
  | c :: l => res ← push res_size res c; push_all l res
  end.

(** ['x','n','-','-'] *)
Definition prefixW : list Z := [120; 110; 45; 45].

(** A label with a character above 0x7f: the prefix, the [b] basic characters
    of the code units [units] and the deltas of the characters [buffer]. *)
Definition encode_label (units buffer : list Z) (b : Z) (res : list Z)
    : outcome (option (list Z)) :=
  if Z.of_nat res_size <? Z.of_nat (length res) + 5 + b then Ok None
  else
    res ← push_all prefixW res;
    res ← (if b =? 0 then Ok res
           else res ← push_basic units res; push res_size res 45);
    encode_loop (S (length buffer)) buffer b res 0x80 0 72 b.

(** *** Decoder *)

(** The value of a digit, [None] for another character. *)
Definition digit_value (ch : Z) : option Z :=
  if (97 <=? ch) && (ch <=? 122) then Some (ch - 97)
  else if (65 <=? ch) && (ch <=? 90) then Some (ch - 65)
  else if (48 <=? ch) && (ch <=? 57) then Some (ch - 48 + 26)
  else None.

(** [for (k = BASE; ; k += BASE)]: the digits of one delta, added to [pos];
    [None] is the return on an invalid or missing digit.  The [int]s wrap. *)
Fixpoint read_delta (fuel : nat) (src : list Z) (i fin : nat) (pos w k bias : Z)
    : outcome (option (nat * Z)) :=
  match fuel with
  | O => NoFuel
  | S fuel =>
    if (fin <=? i)%nat then Ok None
    else
      ch ← rd src i;
      match digit_value ch with
      | None => Ok None
      | Some digit =>
        let pos := i32 (pos + i32 (digit * w)) in
        let t := threshold k bias in
        if digit <? t then Ok (Some (S i, pos))
        else read_delta fuel src (S i) fin pos (i32 (w * (BASE - t))) (k + BASE) bias
      end
  end.

(** [memmove( buffer + pos + 1, buffer + pos, ... ); buffer[pos++] = n;] *)
Definition insert_at (buffer : list Z) (pos n : Z) : outcome (list Z) :=
  if (0 <=? pos) && (pos <=? Z.of_nat (length buffer)) && (length buffer <? buffer_size)%nat
  then Ok (take (Z.to_nat pos) buffer ++ [u32 n] ++ drop (Z.to_nat pos) buffer)
  else Fault.

(** [while (i < end)]: [None] is the return of
    STATUS_INVALID_IDN_NORMALIZATION. *)
Fixpoint decode_loop (fuel : nat) (src : list Z) (i fin : nat) (buffer : list Z) (n pos bias : Z)
    : outcome (option (list Z)) :=
  match fuel with
  | O => NoFuel
  | S fuel =>
    if (i <? fin)%nat then
      let old_pos := pos in
      r ← read_delta (S (fin - i)) src i fin pos 1 BASE bias;
      match r with
      | None => Ok None
      | Some (i, pos) =>
        let len := Z.of_nat (length buffer) + 1 in
        bias ← adapt (i32 (pos - old_pos)) (old_pos =? 0) len;
        let n := i32 (n + pos ÷ len) in
        let pos := Z.rem pos len in
        if (buffer_size - 1 <=? length buffer)%nat then Ok None
        else
          buffer ← insert_at buffer pos n;
          decode_loop fuel src i fin buffer n (pos + 1) bias
      end
    else Ok (Some buffer)
  end.

(** [for (i = start + 4; i < delim && buflen < ARRAY_SIZE(buffer); i++)
    buffer[buflen++] = src[i];] *)
Fixpoint read_basic (fuel : nat) (src : list Z) (i delim : nat) (buffer : list Z)
    : outcome (nat * list Z) :=
  match fuel with
  | O => NoFuel
  | S fuel =>
    if ((i <? delim) && (length buffer <? buffer_size))%nat then
      c ← rd src i;
      buffer ← push buffer_size buffer c;
      read_basic fuel src (S i) delim buffer
    else Ok (i, buffer)
  end.

(** A label [src + start .. src + end) with the prefix; [delim] is the
    position of its last hyphen. *)
Definition decode_label (src : list Z) (start fin delim : nat) : outcome (option (list Z)) :=
  let delim := if (delim =? start + 3)%nat then S delim else delim in
  '(i, buffer) ← read_basic (S (delim - (start + 4))) src (start + 4) delim [];
  let i := if (length buffer =? 0)%nat then i else S i in
  decode_loop (S (fin - i)) src i fin buffer 0x80 0 72.

End Punycode.

Module Idn.
Import Punycode.

(** [b[i]] for a signed index. *)
Definition rdz (b : list Z) (i : Z) : outcome Z := if i <? 0 then Fault else rd b (Z.to_nat i).

Definition is_std3 (ch : Z) : bool :=
  ((97 <=? ch) && (ch <=? 122)) || ((65 <=? ch) && (ch <=? 90)) ||
  ((48 <=? ch) && (ch <=? 57)) || (ch =? 45).

(** [for (i = 0; i < srclen; i++) if (src[i] < 0x20 || src[i] >= 0x7f) break;] *)
Fixpoint ascii_prefix (fuel : nat) (src : list Z) (i srclen : nat) : outcome nat :=
  match fuel with
  | O => NoFuel
  | S fuel =>
    if (i <? srclen)%nat then
      c ← rd src i;
      if (c <? 0x20) || (0x7f <=? c) then Ok i else ascii_prefix fuel src (S i) srclen
    else Ok i
  end.

(** [buf[start] == '-' || buf[i-1] == '-'] *)
Definition hyphen_ends (buf : list Z) (start i : Z) : outcome bool :=
  first ← rdz buf start;
  if first =? 45 then Ok true
  else last ← rdz buf (i - 1); Ok (last =? 45).

(** The check of the labels in [RtlIdnToNameprepUnicode]: the final [i] and
    [start], or [None] for STATUS_INVALID_IDN_NORMALIZATION. *)
Fixpoint label_loop (fuel : nat) (info : list Z) (flags : Z) (buf : list Z) (buflen i start : nat)
    : outcome (option (nat * nat)) :=
  match fuel with
  | O => NoFuel
  | S fuel =>
    if (i <? buflen)%nat then
      r ← get_utf16 buf i (buflen - i);
      match r with
      | None => Ok (Some (i, start))
      | Some (len, ch) =>
        if ch =? 0 then Ok (Some (i, start))
        else if ch =? 46 then
          if (start =? i)%nat then Ok None
          else if (63 <? i - start)%nat then Ok None
          else
            bad ← (if flag flags IDN_USE_STD3_ASCII_RULES
                   then hyphen_ends buf (Z.of_nat start) (Z.of_nat i) else Ok false);
            if bad : bool then Ok None
            else label_loop fuel info flags buf buflen (i + len) (i + 1)
        else if flag flags IDN_USE_STD3_ASCII_RULES then
          if is_std3 ch then label_loop fuel info flags buf buflen (i + len) start else Ok None
        else if negb (flag flags IDN_ALLOW_UNASSIGNED) then
          props ← get_char_props info ch;
          if props =? 0x7f then Ok None
          else label_loop fuel info flags buf buflen (i + len) start
        else label_loop fuel info flags buf buflen (i + len) start
      end
    else Ok (Some (i, start))
  end.

Section Entry.
Context (NtGetNlsSectionPtr : Z -> Z * list Z * Z).
Context (RtlAllocateHeap : Z -> option (list Z)).

(** The common end: [*dstlen] is 0 for a size query. *)
Definition store_result (v : list Z) (n : nat) (dst : list Z) (dstlen : Z)
    : outcome (Z * list Z * Z) :=
  if dstlen =? 0 then Ok (STATUS_SUCCESS, dst, Z.of_nat n)
  else if Z.of_nat n <=? dstlen then
    v ← rd_list v 0 n;
    dst ← wr_list dst 0 v;
    Ok (STATUS_SUCCESS, dst, Z.of_nat n)
  else Ok (STATUS_BUFFER_TOO_SMALL, dst, Z.of_nat n).

(** The text of [RtlIdnToNameprepUnicode] in [buf]: a copy when it is
    printable ASCII, its normalisation otherwise.  [inl] is a return. *)
Definition nameprep_text (tables : list (option (list Z))) (src : list Z) (srclen : nat)
    (buf : list Z) : outcome ((Z + list Z * nat) * list (option (list Z))) :=
  i ← ascii_prefix (S srclen) src 0 srclen;
  last ← (if (i =? srclen)%nat then Ok true
          else if (S i =? srclen)%nat then c ← rd src i; Ok (c =? 0) else Ok false);
  if last : bool then
    if (256 <? srclen)%nat then Ok (inl STATUS_INVALID_IDN_NORMALIZATION, tables)
    else
      v ← rd_list src 0 srclen;
      buf ← wr_list buf 0 v;
      Ok (inr (buf, srclen), tables)
  else
    '(status, buf, buflen, tables) ←
      RtlNormalizeString NtGetNlsSectionPtr RtlAllocateHeap tables 13 src (Z.of_nat srclen) buf 256;
    if status =? STATUS_SUCCESS then Ok (inr (buf, Z.to_nat buflen), tables)
    else if status =? STATUS_NO_UNICODE_TRANSLATION
    then Ok (inl STATUS_INVALID_IDN_NORMALIZATION, tables)
    else Ok (inl status, tables).

(** [RtlIdnToNameprepUnicode( flags, src, srclen, dst, &dstlen )]; [buf0] is
    the uninitialised local array of 256 [WCHAR]s. *)
Definition RtlIdnToNameprepUnicode (tables : list (option (list Z))) (buf0 : list Z) (flags : Z)
    (src : option (list Z)) (srclen : Z) (dst : list Z) (dstlen : Z)
    : outcome (Z * list Z * Z * list (option (list Z))) :=
  if negb (Z.land flags (Z.lnot (Z.lor IDN_ALLOW_UNASSIGNED IDN_USE_STD3_ASCII_RULES)) =? 0)
  then Ok (STATUS_INVALID_PARAMETER, dst, dstlen, tables)
  else match src with
  | None => Ok (STATUS_INVALID_PARAMETER, dst, dstlen, tables)
  | Some src =>
    if srclen <? -1 then Ok (STATUS_INVALID_PARAMETER, dst, dstlen, tables)
    else
      '(status, info, tables) ← load_norm_table NtGetNlsSectionPtr tables 13;
      match info with
      | None => Ok (status, dst, dstlen, tables)
      | Some info =>
        srclen ← (if srclen =? -1 then n ← wcslen src 0; Ok (S n) else Ok (Z.to_nat srclen));
        '(r, tables) ← nameprep_text tables src srclen buf0;
        match r with
        | inl status => Ok (status, dst, dstlen, tables)
        | inr (buf, buflen) =>
          let invalid := Ok (STATUS_INVALID_IDN_NORMALIZATION, dst, dstlen, tables) in
          l ← label_loop (S buflen) info flags buf buflen 0 0;
          match l with
          | None => invalid
          | Some (i, start) =>
            if (i =? 0)%nat || (63 <? i - start)%nat then invalid
            else
              bad ← (if flag flags IDN_USE_STD3_ASCII_RULES
                     then hyphen_ends buf (Z.of_nat start) (Z.of_nat i) else Ok false);
              if bad : bool then invalid
              else
                '(status, dst, dstlen) ← store_result buf buflen dst dstlen;
                Ok (status, dst, dstlen, tables)
          end
        end
      end
  end.

(** The characters of the label at [start]: its end, the number of basic
    characters and the characters in [buffer]. *)
Fixpoint read_label (fuel : nat) (normstr : list Z) (normlen i : nat) (b : Z) (buffer : list Z)
    : outcome (nat * Z * list Z) :=
  match fuel with
  | O => NoFuel
  | S fuel =>
    if (i <? normlen)%nat then
      r ← get_utf16 normstr i (normlen - i);
      match r with
      | None => Ok (i, b, buffer)
      | Some (len, ch) =>
        if (ch =? 0) || (ch =? 46) then Ok (i, b, buffer)
        else
          let b := if ch <? 0x80 then b + 1 else b in
          buffer ← push buffer_size buffer ch;
          read_label fuel normstr normlen (i + len) b buffer
      end
    else Ok (i, b, buffer)
  end.

(** The labels of [RtlIdnToAscii]: [None] is the return of
    STATUS_INVALID_IDN_NORMALIZATION, otherwise the elements of [res]. *)
Fixpoint ascii_labels (fuel : nat) (info : list Z) (flags : Z) (normstr : list Z)
    (normlen start : nat) (res : list Z) : outcome (option (list Z)) :=
  match fuel with
  | O => NoFuel
  | S fuel =>
    if (start <? normlen)%nat then
      '(fin, b, buffer) ← read_label (S normlen) normstr normlen start 0 [];
      if b =? Z.of_nat (fin - start) then
        let b := if (fin <? normlen)%nat then b + 1 else b in
        if Z.of_nat res_size <? Z.of_nat (length res) + b then Ok None
        else
          v ← rd_list normstr start (Z.to_nat b);
          res ← push_all v res;
          ascii_labels fuel info flags normstr normlen (fin + 1) res
      else
        dashes ← (if (4 <=? length buffer)%nat
                  then c2 ← rd buffer 2; c3 ← rd buffer 3; Ok ((c2 =? 45) && (c3 =? 45))
                  else Ok false);
        if dashes : bool then Ok None
        else
          bad ← check_invalid_chars info flags buffer (length buffer);
          if bad : bool then Ok None
          else
            units ← rd_list normstr start (fin - start);
            r ← encode_label units buffer b res;
            match r with
            | None => Ok None
            | Some res' =>
              if (63 <? length res' - length res)%nat then Ok None
              else if (fin <? normlen)%nat then
                if (res_size <? length res' + 1)%nat then Ok None
                else
                  c ← rd normstr fin;
                  res' ← push res_size res' c;
                  ascii_labels fuel info flags normstr normlen (fin + 1) res'
              else ascii_labels fuel info flags normstr normlen (fin + 1) res'
            end
    else Ok (Some res)
  end.

(** [RtlIdnToAscii( flags, src, srclen, dst, &dstlen )]; [buf0] and
    [normstr0] are uninitialised local arrays. *)
Definition RtlIdnToAscii (tables : list (option (list Z))) (buf0 normstr0 : list Z) (flags : Z)
    (src : option (list Z)) (srclen : Z) (dst : list Z) (dstlen : Z)
    : outcome (Z * list Z * Z * list (option (list Z))) :=
  '(status, info, tables) ← load_norm_table NtGetNlsSectionPtr tables 13;
  match info with
  | None => Ok (status, dst, dstlen, tables)
  | Some info =>
    '(status, normstr, normlen, tables) ←
      RtlIdnToNameprepUnicode tables buf0 flags src srclen normstr0 256;
    if negb (status =? STATUS_SUCCESS) then Ok (status, dst, dstlen, tables)
    else
      r ← ascii_labels (S (Z.to_nat normlen)) info flags normstr (Z.to_nat normlen) 0 [];
      match r with
      | None => Ok (STATUS_INVALID_IDN_NORMALIZATION, dst, dstlen, tables)
      | Some res =>
        '(status, dst, dstlen) ← store_result res (length res) dst dstlen;
        Ok (status, dst, dstlen, tables)
      end
  end.

(** The scan of a label in [RtlIdnToUnicode]: its end, the last [ch] read and
    [delim], or [None] for STATUS_INVALID_IDN_NORMALIZATION. *)
Fixpoint scan_label (fuel : nat) (flags : Z) (src : list Z) (srclen i : nat) (ch : Z) (delim : nat)
    : outcome (option (nat * Z * nat)) :=
  match fuel with
  | O => NoFuel
  | S fuel =>
    if (i <? srclen)%nat then
      ch ← rd src i;
      if (0x7f <? ch) || (negb (S i =? srclen)%nat && (ch =? 0)) then Ok None
      else if (ch =? 0) || (ch =? 46) then Ok (Some (i, ch, delim))
      else
        let delim := if ch =? 45 then i else delim in
        if negb (flag flags IDN_USE_STD3_ASCII_RULES) || is_std3 ch
        then scan_label fuel flags src srclen (S i) ch delim
        else Ok None
    else Ok (Some (i, ch, delim))
  end.

(** The label does not start with the prefix. *)
Definition no_prefix (src : list Z) (start fin : nat) : outcome bool :=
  if (fin - start <? 4)%nat then Ok true
  else
    c0 ← rd src start;
    c1 ← rd src (start + 1);
    c2 ← rd src (start + 2);
    c3 ← rd src (start + 3);
    Ok ((negb (c0 =? 120) && negb (c0 =? 88)) || (negb (c1 =? 110) && negb (c1 =? 78)) ||
        negb (c2 =? 45) || negb (c3 =? 45)).

(** [for (i = 0; i < buflen; i++)]: the characters at [dst + out]; [None] is
    the return of STATUS_BUFFER_TOO_SMALL, with the stores done so far. *)
Fixpoint store_chars (buffer : list Z) (dst : list Z) (dstlen : Z) (out : nat)
    : outcome (list Z * option nat) :=
  match buffer with
  | [] => Ok (dst, Some out)
  | c :: buffer =>
    let len := unit_len c in
    if dstlen =? 0 then store_chars buffer dst dstlen (out + len)
    else if Z.of_nat (out + len) <=? dstlen then
      dst ← put_utf16 dst out c;
      store_chars buffer dst dstlen (out + len)
    else Ok (dst, None)
  end.

(** A label without the prefix, copied with its separator: the status, [dst],
    and the new [out] and [start]. *)
Definition plain_label (flags : Z) (src : list Z) (srclen start fin : nat) (dst : list Z)
    (dstlen : Z) (out : nat) : outcome (Z * list Z * nat * nat) :=
  if (63 <? fin - start)%nat then Ok (STATUS_INVALID_IDN_NORMALIZATION, dst, out, start)
  else
    bad ← (if flag flags IDN_USE_STD3_ASCII_RULES
           then hyphen_ends src (Z.of_nat start) (Z.of_nat fin) else Ok false);
    if bad : bool then Ok (STATUS_INVALID_IDN_NORMALIZATION, dst, out, start)
    else
      let fin := if (fin <? srclen)%nat then S fin else fin in
      let n := (fin - start)%nat in
      if dstlen =? 0 then Ok (STATUS_SUCCESS, dst, (out + n)%nat, fin)
      else if Z.of_nat (out + n) <=? dstlen then
        v ← rd_list src start n;
        dst ← wr_list dst out v;
        Ok (STATUS_SUCCESS, dst, (out + n)%nat, fin)
      else Ok (STATUS_BUFFER_TOO_SMALL, dst, out, start).

(** A label with the prefix. *)
Definition punycode_label (info : list Z) (flags : Z) (src : list Z)
    (srclen start fin delim : nat) (dst : list Z) (dstlen : Z) (out : nat)
    : outcome (Z * list Z * nat * nat) :=
  r ← decode_label src start fin delim;
  match r with
  | None => Ok (STATUS_INVALID_IDN_NORMALIZATION, dst, out, start)
  | Some buffer =>
    bad ← check_invalid_chars info flags buffer (length buffer);
    if bad : bool then Ok (STATUS_INVALID_IDN_NORMALIZATION, dst, out, start)
    else
      '(dst, r) ← store_chars buffer dst dstlen out;
      match r with
      | None => Ok (STATUS_BUFFER_TOO_SMALL, dst, out, start)
      | Some out' =>
        if (63 <? out' - out)%nat then Ok (STATUS_INVALID_IDN_NORMALIZATION, dst, out, start)
        else if (fin <? srclen)%nat then
          if dstlen =? 0 then Ok (STATUS_SUCCESS, dst, S out', S fin)
          else if Z.of_nat (out' + 1) <=? dstlen then
            c ← rd src fin;
            dst ← wr dst out' c;
            Ok (STATUS_SUCCESS, dst, S out', S fin)
          else Ok (STATUS_BUFFER_TOO_SMALL, dst, out', start)
        else Ok (STATUS_SUCCESS, dst, out', S fin)
      end
  end.

Fixpoint unicode_labels (fuel : nat) (info : list Z) (flags : Z) (src : list Z)
    (srclen start : nat) (dst : list Z) (dstlen : Z) (out : nat) : outcome (Z * list Z * nat) :=
  match fuel with
  | O => NoFuel
  | S fuel =>
    if (start <? srclen)%nat then
      l ← scan_label (S srclen) flags src srclen start 0 0;
      match l with
      | None => Ok (STATUS_INVALID_IDN_NORMALIZATION, dst, out)
      | Some (fin, ch, delim) =>
        if (start =? fin)%nat && negb (ch =? 0)
        then Ok (STATUS_INVALID_IDN_NORMALIZATION, dst, out)
        else
          plain ← no_prefix src start fin;
          '(status, dst, out, start) ←
            (if plain : bool then plain_label flags src srclen start fin dst dstlen out
             else punycode_label info flags src srclen start fin delim dst dstlen out);
          if status =? STATUS_SUCCESS
          then unicode_labels fuel info flags src srclen start dst dstlen out
          else Ok (status, dst, out)
      end
    else Ok (STATUS_SUCCESS, dst, out)
  end.

(** [RtlIdnToUnicode( flags, src, srclen, dst, &dstlen )] *)
Definition RtlIdnToUnicode (tables : list (option (list Z))) (flags : Z)
    (src : option (list Z)) (srclen : Z) (dst : list Z) (dstlen : Z)
    : outcome (Z * list Z * Z * list (option (list Z))) :=
  match src with
  | None => Ok (STATUS_INVALID_PARAMETER, dst, dstlen, tables)
  | Some src =>
    if srclen <? -1 then Ok (STATUS_INVALID_PARAMETER, dst, dstlen, tables)
    else
      srclen ← (if srclen =? -1 then n ← wcslen src 0; Ok (S n) else Ok (Z.to_nat srclen));
      '(status, info, tables) ← load_norm_table NtGetNlsSectionPtr tables 13;
      match info with
      | None => Ok (status, dst, dstlen, tables)
      | Some info =>
        '(status, dst, out) ←
          unicode_labels (S srclen) info flags src srclen 0 dst dstlen 0;
        if status =? STATUS_SUCCESS
        then Ok (STATUS_SUCCESS, dst, Z.of_nat out, tables)
        else Ok (status, dst, dstlen, tables)
      end
  end.
End Entry.
End Idn.
