(* ===== verification/PunycodeSpec.v ===== *)
(** * The Punycode encoder and decoder are inverse to each other

    The digits of a delta are read back as the delta; the encoder's scan of
    the label in order of code points and the decoder's insertions are run in
    lock step, with the characters handled so far as the decoder's buffer. *)
From S2P Require Import Prelude Utf Normalize Order Compose Idn.
Import Utf16 NormTable Norm Punycode.

(** ** Variable-length integers *)

Lemma threshold_range k bias : 1 <= threshold k bias <= 26.
Proof. unfold threshold, TMIN, TMAX. repeat zcase; lia. Qed.

(** The digits of [q]; the fuel bounds their number. *)
Fixpoint digits (fuel : nat) (q k bias : Z) : list Z :=
  match fuel with
  | O => []
  | S fuel =>
    let t := threshold k bias in
    if q <? t then [q]
    else (t + (q - t) mod (BASE - t)) :: digits fuel ((q - t) / (BASE - t)) (k + BASE) bias
  end.

Lemma digits_length fuel : forall q k bias, (length (digits fuel q k bias) <= fuel)%nat.
Proof.
  induction fuel as [|fuel IH]; intros; simpl; [lia|].
  destruct (_ <? _); simpl; [lia|]. specialize (IH ((q - threshold k bias) / (BASE - threshold k bias)) (k + BASE) bias). lia.
Qed.

Lemma digits_nonempty fuel q k bias : (0 < length (digits (S fuel) q k bias))%nat.
Proof. cbn [digits]. destruct (_ <? _); simpl; lia. Qed.

(** The rest after a digit. *)
Lemma digit_step q t :
  1 <= t <= 26 -> t <= q ->
  let d := t + (q - t) mod (BASE - t) in let q' := (q - t) / (BASE - t) in
  t <= d < BASE /\ q = d + (BASE - t) * q' /\ 0 <= q' /\ 10 * q' <= q.
Proof.
  intros Ht Hq d q'. unfold BASE in *. subst d q'.
  pose proof (Z.div_mod (q - t) (36 - t) ltac:(lia)).
  pose proof (Z.mod_pos_bound (q - t) (36 - t) ltac:(lia)).
  assert (0 <= (q - t) / (36 - t)) by (apply Z.div_pos; lia). nia.
Qed.

Lemma emit_delta_ok fuel : forall res q k bias,
  0 <= q < 10 ^ Z.of_nat fuel -> (length res <= res_size)%nat ->
  let ds := digits (S fuel) q k bias in
  emit_delta (S fuel) res q k bias
  = Ok (if (length res + length ds <=? res_size)%nat
        then Some (res ++ map digit_char ds) else None).
Proof.
  induction fuel as [|fuel IH]; intros res q k bias Hq Hres ds; subst ds;
    pose proof (threshold_range k bias) as Ht.
  - assert (q = 0) as -> by (change (10 ^ Z.of_nat 0) with 1 in Hq; lia).
    cbn [emit_delta digits]. rewrite (proj2 (Z.ltb_lt 0 (threshold k bias))) by lia. cbn [length].
    destruct (Nat.leb_spec (length res + 1) res_size).
    + rewrite (proj2 (Nat.ltb_ge _ _)) by lia. unfold push.
      by rewrite (proj2 (Nat.ltb_lt _ _)), bind_ok by lia.
    + by rewrite (proj2 (Nat.ltb_lt _ _)) by lia.
  - remember (S fuel) as f eqn:Ef. cbn [emit_delta digits].
    destruct (Nat.ltb_spec res_size (length res + 1)).
    { rewrite (proj2 (Nat.leb_gt _ _)); [done|]. destruct (_ <? _); simpl; lia. }
    unfold push. rewrite (proj2 (Nat.ltb_lt _ _)), bind_ok by lia.
    zcase; [by rewrite (proj2 (Nat.leb_le _ _)) by (simpl; lia)|].
    destruct (digit_step q (threshold k bias)) as (Hd & Eq & Hq' & H10); [done|lia|].
    rewrite Z.rem_mod_nonneg, Z.quot_div_nonneg by (unfold BASE; lia).
    subst f. rewrite IH; [| |rewrite length_app; simpl; lia].
    + rewrite length_app. cbn [length map]. rewrite <- app_assoc.
      replace (length res + 1 + _)%nat with (length res + S (length (digits (S fuel)
        ((q - threshold k bias) / (BASE - threshold k bias)) (k + BASE) bias)))%nat by (simpl; lia).
      done.
    + rewrite Nat2Z.inj_succ, Z.pow_succ_r in Hq by lia. lia.
Qed.

Lemma digit_roundtrip d : 0 <= d < 36 -> digit_value (digit_char d) = Some d.
Proof.
  intros Hd.
  assert (match digit_value (digit_char d) with Some v => v =? d | None => false end = true) as H
    by (apply (seqZ_forallb (fun d => match digit_value (digit_char d) with
                                      | Some v => v =? d | None => false end) 0 36); [done|lia]).
  destruct (digit_value (digit_char d)) as [v|]; [|done]. f_equal. lia.
Qed.

Lemma digits_range fuel : forall q k bias, 0 <= q ->
  Forall (fun d => 0 <= d < 36) (digits fuel q k bias).
Proof.
  induction fuel as [|fuel IH]; intros q k bias Hq; simpl; [constructor|].
  pose proof (threshold_range k bias). zcase; [constructor; [lia|constructor]|].
  destruct (digit_step q (threshold k bias)) as (Hd & _ & Hq' & _); [done|lia|].
  constructor; [unfold BASE in *; lia|by apply IH].
Qed.

(** Reading the digits back; [v] is the variable [w], which may have wrapped
    when only zeros remain. *)
Lemma read_delta_ok fuel : forall pre q rest k bias pos w v fin fuel',
  0 <= q < 10 ^ Z.of_nat fuel -> 0 < w -> 0 <= pos -> pos + w * q < 2 ^ 31 ->
  (v = w /\ w < 2 ^ 31 \/ q = 0) ->
  let ds := digits (S fuel) q k bias in
  (length pre + length ds <= fin)%nat -> (length ds <= fuel')%nat ->
  read_delta fuel' (pre ++ map digit_char ds ++ rest) (length pre) fin pos v k bias
  = Ok (Some ((length pre + length ds)%nat, pos + w * q)).
Proof.
  induction fuel as [|fuel IH]; intros pre q rest k bias pos w v fin fuel' Hq Hw Hpos Hb Hv ds Hfin Hf;
    subst ds; pose proof (threshold_range k bias) as Ht.
  - assert (q = 0) as -> by (change (10 ^ Z.of_nat 0) with 1 in Hq; lia).
    cbn [digits] in *. rewrite (proj2 (Z.ltb_lt 0 (threshold k bias))) in * by lia. cbn [length map app] in *.
    destruct fuel' as [|fuel']; [lia|]. cbn [read_delta]. rewrite (proj2 (Nat.leb_gt _ _)) by lia.
    rewrite (rd_middle pre _ _ (length pre)), bind_ok by done. rewrite digit_roundtrip by lia.
    rewrite (proj2 (Z.ltb_lt _ _)) by lia. rewrite Z.mul_0_l, !i32_small by (rewrite ?i32_small; lia).
    repeat f_equal; lia.
  - remember (S fuel) as f eqn:Ef. cbn [digits] in *. destruct fuel' as [|fuel'].
    { destruct (_ <? _); simpl in *; lia. }
    destruct (Z.ltb_spec q (threshold k bias)) as [Hqt|Hqt]; cbn [length map app] in *; cbn [read_delta];
      rewrite (proj2 (Nat.leb_gt _ _)) by lia;
      rewrite (rd_middle pre _ _ (length pre)), bind_ok by done.
    + rewrite digit_roundtrip by lia. rewrite (proj2 (Z.ltb_lt _ _)) by done.
      assert (q * v = w * q) as -> by (destruct Hv as [[-> _]| ->]; lia).
      rewrite !i32_small by (rewrite ?i32_small; nia). repeat f_equal; lia.
    + destruct (digit_step q (threshold k bias)) as (Hd & Eq & Hq' & H10); [done|lia|].
      rewrite digit_roundtrip by (unfold BASE in *; lia).
      rewrite (proj2 (Z.ltb_ge _ _)) by lia. destruct Hv as [[-> Hw31]| ->]; [|lia].
      set (t := threshold k bias) in *. set (d := t + (q - t) mod (BASE - t)) in *.
      set (q' := (q - t) / (BASE - t)) in *. unfold BASE in Eq, Hd.
      assert (w * q = w * d + w * (36 - t) * q') as Ewq by (rewrite Eq; ring).
      assert (0 <= w * d) by nia. assert (0 <= w * (36 - t) * q') by nia.
      rewrite (i32_small (d * w)), (i32_small (pos + d * w)) by lia. subst f.
      specialize (IH (pre ++ [digit_char d]) q' rest (k + BASE) bias (pos + d * w) (w * (36 - t))
        (i32 (w * (BASE - t))) fin fuel').
      rewrite <- app_assoc, length_app in IH. cbn [app length] in IH. rewrite Nat.add_1_r in IH.
      rewrite IH; clear IH; [| |nia|nia|lia| |lia|lia].
      * do 3 f_equal; lia.
      * rewrite Nat2Z.inj_succ, Z.pow_succ_r in Hq by lia. lia.
      * destruct (Z.lt_ge_cases (w * (36 - t)) (2 ^ 31)); [left|right; nia].
        split; [|done]. unfold BASE. apply i32_small. nia.
Qed.

(** ** The bias *)

Lemma adapt_loop_total fuel : forall delta k,
  0 <= delta < 456 * 35 ^ Z.of_nat fuel ->
  exists d k', adapt_loop (S fuel) delta k = Ok (d, k') /\ 0 <= d.
Proof.
  induction fuel as [|fuel IH]; intros delta k Hd.
  - cbn [adapt_loop]. change ((BASE - TMIN) * TMAX ÷ 2) with 455.
    rewrite (proj2 (Z.ltb_ge _ _)) by (change (35 ^ Z.of_nat 0) with 1 in Hd; lia).
    exists delta, k. split; [done|lia].
  - remember (S fuel) as f. cbn [adapt_loop]. change ((BASE - TMIN) * TMAX ÷ 2) with 455.
    zcase; [|exists delta, k; split; [done|lia]].
    rewrite Z.quot_div_nonneg by (unfold BASE, TMIN; lia). change (BASE - TMIN) with 35. subst f.
    apply IH. rewrite Nat2Z.inj_succ, Z.pow_succ_r in Hd by lia.
    split; [dlia|]. apply Z.div_lt_upper_bound; lia.
Qed.

Lemma adapt_total delta first len :
  0 <= delta < 2 ^ 31 -> 0 < len -> exists bias, adapt delta first len = Ok bias.
Proof.
  intros Hd Hl. unfold adapt.
  assert (0 <= delta ÷ (if first then DAMP else 2) < 2 ^ 30) as Hq.
  { rewrite Z.quot_div_nonneg by (destruct first; unfold DAMP; lia).
    destruct first; unfold DAMP; dlia. }
  set (x := delta ÷ (if first then DAMP else 2)) in *. cbv zeta.
  assert (0 <= x ÷ len <= x) as Hx.
  { rewrite Z.quot_div_nonneg by lia. split; [apply Z.div_pos; lia|].
    apply Z.div_le_upper_bound; nia. }
  destruct (adapt_loop_total 7 (x + x ÷ len) 0) as (d & k & -> & Hd0);
    [change (35 ^ Z.of_nat 7) with 64339296875; lia|].
  rewrite bind_ok, (proj2 (Z.eqb_neq _ _)) by (unfold SKEW; lia). eauto.
Qed.

(** ** Encoder and decoder in lock step *)

(** The characters of the label below a bound, in order. *)
Definition below (n : Z) (us : list Z) : list Z := filter (fun c => c < n) us.

Lemma below_app n us vs : below n (us ++ vs) = below n us ++ below n vs.
Proof. apply filter_app. Qed.

Lemma below_cons n c us :
  below n (c :: us) = if decide (c < n) then c :: below n us else below n us.
Proof. unfold below. by rewrite filter_cons. Qed.

Lemma below_length n us : (length (below n us) <= length us)%nat.
Proof. apply length_filter. Qed.

Lemma below_mono n m us : n <= m -> (length (below n us) <= length (below m us))%nat.
Proof.
  intros Hm. induction us as [|c us IH]; [done|]. rewrite !below_cons.
  repeat case_decide; simpl; lia.
Qed.

(** The decoder's steps over the text [ds] at [i]. *)
Definition decodes (ds : list Z) (steps : nat) (buf : list Z) (n pos bias : Z)
    (buf' : list Z) (n' pos' bias' : Z) : Prop :=
  forall pre rest fin fuel, (length pre + length ds <= fin)%nat ->
    decode_loop (steps + fuel) (pre ++ ds ++ rest) (length pre) fin buf n pos bias
    = decode_loop fuel (pre ++ ds ++ rest) (length pre + length ds) fin buf' n' pos' bias'.

Lemma decodes_refl buf n pos bias : decodes [] 0 buf n pos bias buf n pos bias.
Proof. intros pre rest fin fuel Hf. by rewrite Nat.add_0_r. Qed.

Lemma decodes_trans ds1 ds2 k1 k2 b1 n1 p1 a1 b2 n2 p2 a2 b3 n3 p3 a3 :
  decodes ds1 k1 b1 n1 p1 a1 b2 n2 p2 a2 -> decodes ds2 k2 b2 n2 p2 a2 b3 n3 p3 a3 ->
  decodes (ds1 ++ ds2) (k1 + k2) b1 n1 p1 a1 b3 n3 p3 a3.
Proof.
  intros H1 H2 pre rest fin fuel Hf. rewrite length_app in Hf.
  rewrite <- Nat.add_assoc, <- (app_assoc ds1). rewrite H1 by lia.
  specialize (H2 (pre ++ ds1) rest fin fuel). rewrite length_app, <- !app_assoc in H2.
  rewrite H2 by lia. f_equal. rewrite length_app. lia.
Qed.

(** One delta: the decoder inserts [n] behind the characters [l]. *)
Lemma decodes_delta l r nd pd bias n delta bias' :
  let h := Z.of_nat (length (l ++ r)) in
  delta = (n - nd) * (h + 1) + Z.of_nat (length l) - pd ->
  0 <= delta -> 0 <= pd -> 0 <= nd <= n -> n <= 0x10ffff -> (length (l ++ r) < 63)%nat ->
  adapt delta (pd =? 0) (h + 1) = Ok bias' ->
  decodes (map digit_char (digits 10 delta BASE bias)) 1 (l ++ r) nd pd bias
    (l ++ n :: r) n (Z.of_nat (length l) + 1) bias'.
Proof.
  intros h Hdelta H0 Hpd Hnd Hn Hlen Ha pre rest fin fuel Hfin. rewrite length_map in Hfin.
  set (ds := digits 10 delta BASE bias) in *.
  pose proof (digits_nonempty 9 delta BASE bias) as Hds. fold ds in Hds.
  assert (0 <= Z.of_nat (length l) < h + 1 /\ h + 1 <= 63) by (subst h; rewrite length_app in *; lia).
  assert ((n - nd) * (h + 1) <= 0x10ffff * 63) by (apply Z.mul_le_mono_nonneg; lia).
  assert (pd + delta < 64 * 0x110000) as Hmax by lia.
  cbn [Nat.add decode_loop]. rewrite (proj2 (Nat.ltb_lt _ _)) by lia.
  rewrite (read_delta_ok 9 pre delta rest BASE bias pd 1 1);
    [|change (10 ^ Z.of_nat 9) with 1000000000; lia|lia|lia|lia|left; lia|fold ds; lia|fold ds; lia].
  fold ds. rewrite bind_ok. rewrite Z.mul_1_l. fold h.
  rewrite (i32_small (pd + delta - pd)) by lia. replace (pd + delta - pd) with delta by lia.
  rewrite Ha, bind_ok.
  assert (pd + delta = (n - nd) * (h + 1) + Z.of_nat (length l)) as E by lia.
  rewrite Z.quot_div_nonneg, Z.rem_mod_nonneg by lia. rewrite E.
  rewrite Z.div_add_l, Z.div_small, Z.add_0_r by lia.
  replace (((n - nd) * (h + 1) + Z.of_nat (length l)) mod (h + 1)) with (Z.of_nat (length l))
    by (rewrite Z.add_comm, Z.mod_add, Z.mod_small by lia; done).
  rewrite (i32_small (nd + (n - nd))) by lia. replace (nd + (n - nd)) with n by lia.
  rewrite (proj2 (Nat.leb_gt _ _)) by (unfold buffer_size; lia).
  unfold insert_at. rewrite !(proj2 (Z.leb_le _ _)) by (rewrite ?length_app; lia).
  rewrite (proj2 (Nat.ltb_lt _ _)) by (unfold buffer_size; lia). cbn [andb].
  rewrite bind_ok, Nat2Z.id, take_app_length, drop_app_length, u32_small by lia.
  rewrite length_map. done.
Qed.

Lemma digits_fuel f : forall f' q k bias,
  0 <= q < 10 ^ Z.of_nat f -> (f <= f')%nat -> digits (S f') q k bias = digits (S f) q k bias.
Proof.
  induction f as [|f IH]; intros f' q k bias Hq Hf; pose proof (threshold_range k bias).
  - assert (q = 0) as -> by (change (10 ^ Z.of_nat 0) with 1 in Hq; lia).
    cbn [digits]. by rewrite (proj2 (Z.ltb_lt 0 (threshold k bias))) by lia.
  - destruct f' as [|f']; [lia|]. remember (S f) as g. remember (S f') as g'. cbn [digits].
    zcase; [done|]. f_equal. subst g g'. apply IH; [|lia].
    destruct (digit_step q (threshold k bias)) as (_ & _ & Hq' & H10); [done|lia|].
    rewrite Nat2Z.inj_succ, Z.pow_succ_r in Hq by lia. lia.
Qed.

(** [emit_delta] for the deltas of a label. *)
Lemma emit_label_delta res delta bias :
  0 <= delta < 10 ^ 9 -> (length res <= res_size)%nat ->
  let ds := digits 10 delta BASE bias in
  emit_delta delta_fuel res delta BASE bias
  = Ok (if (length res + length ds <=? res_size)%nat
        then Some (res ++ map digit_char ds) else None).
Proof.
  intros Hd Hres ds. unfold delta_fuel.
  rewrite (emit_delta_ok 31) by (done || (change (10 ^ Z.of_nat 31) with (10 ^ 9 * 10 ^ 22); lia)).
  rewrite (digits_fuel 9) by (done || lia). done.
Qed.

(** Encoder and decoder agree: the decoder's buffer holds [h] characters, its
    counters are [nd] and [pd], and the encoder has counted [delta] decoder
    states up to the insertion of [n] behind [p] characters. *)
Record synced (n b delta h p nd pd : Z) : Prop := {
  sync_delta : delta = (n - nd) * (h + 1) + p - pd;
  sync_nonneg : 0 <= delta;
  sync_pos : 0 <= pd;
  sync_n : 0 <= nd <= n;
  sync_first : (h =? b) = (pd =? 0);
  sync_basic : b <= h;
}.

Definition hz (l : list Z) : Z := Z.of_nat (length l).

(** What a part of the encoder writes makes the decoder go from the buffer
    [buf] to [buf']. *)
Definition transmits (D buf : list Z) (nd pd bias : Z) (buf' : list Z) (nd' pd' bias' : Z) : Prop :=
  decodes D (length buf' - length buf) buf nd pd bias buf' nd' pd' bias' /\
  (length buf <= length buf')%nat /\
  Forall (fun c => digit_value c <> None) D /\
  (length buf' - length buf <= length D <= 10 * (length buf' - length buf))%nat.

Lemma transmits_refl buf nd pd bias : transmits [] buf nd pd bias buf nd pd bias.
Proof. split_and!; [|lia|by apply Forall_nil_2|simpl; lia..]. rewrite Nat.sub_diag. apply decodes_refl. Qed.

Lemma transmits_trans D1 D2 b1 n1 p1 a1 b2 n2 p2 a2 b3 n3 p3 a3 :
  transmits D1 b1 n1 p1 a1 b2 n2 p2 a2 -> transmits D2 b2 n2 p2 a2 b3 n3 p3 a3 ->
  transmits (D1 ++ D2) b1 n1 p1 a1 b3 n3 p3 a3.
Proof.
  intros (H1 & L1 & F1 & K1) (H2 & L2 & F2 & K2). split_and!.
  - replace (length b3 - length b1)%nat
      with ((length b2 - length b1) + (length b3 - length b2))%nat by lia.
    by eapply decodes_trans.
  - lia.
  - by apply Forall_app.
  - rewrite length_app. lia.
  - rewrite length_app. lia.
Qed.

Lemma transmits_delta l r n b delta bias bias' nd pd :
  synced n b delta (hz (l ++ r)) (hz l) nd pd -> n <= 0x10ffff -> (length (l ++ r) < 63)%nat ->
  adapt delta (hz (l ++ r) =? b) (hz (l ++ r) + 1) = Ok bias' ->
  transmits (map digit_char (digits 10 delta BASE bias)) (l ++ r) nd pd bias
    (l ++ n :: r) n (hz l + 1) bias' /\ delta < 10 ^ 9.
Proof.
  intros [Hd H0 Hpd Hnd Hfirst Hb] Hn Hlen Ha. unfold hz in *. rewrite Hfirst in Ha.
  assert ((n - nd) * (Z.of_nat (length (l ++ r)) + 1) <= 0x10ffff * 63)
    by (apply Z.mul_le_mono_nonneg; lia).
  rewrite length_app in *.
  split; [|lia]. split_and!.
  - replace (length (l ++ n :: r) - length (l ++ r))%nat with 1%nat by (rewrite !length_app; simpl; lia).
    apply (decodes_delta l r nd pd bias n delta bias'); rewrite ?length_app; (done || lia).
  - rewrite !length_app. simpl. lia.
  - apply Forall_map. eapply Forall_impl; [apply digits_range; lia|].
    intros d Hdr. simpl. by rewrite digit_roundtrip.
  - rewrite length_map. pose proof (digits_nonempty 9 delta BASE bias).
    rewrite !length_app. cbn [length]. lia.
  - rewrite length_map. pose proof (digits_length 10 delta BASE bias).
    pose proof (digits_nonempty 9 delta BASE bias). rewrite !length_app. cbn [length]. lia.
Qed.

(** The characters handled when the scan for [n] has passed [fin]. *)
Definition handled (n : Z) (fin todo : list Z) : list Z := below (n + 1) fin ++ below n todo.

(** The result of a part of the encoder that takes the decoder's buffer from
    [buf] to [full]. *)
Definition scan_result (n b : Z) (res buf full : list Z) (nd pd bias : Z)
    (o : outcome (option (list Z * Z * Z * Z))) : Prop :=
  o = Ok None /\ Z.of_nat res_size < hz res + 10 * (hz full - hz buf) \/
  exists D delta' bias' nd' pd',
    o = Ok (Some (res ++ D, delta', bias', hz full)) /\
    transmits D buf nd pd bias full nd' pd' bias' /\
    synced n b delta' (hz full) (hz full) nd' pd' /\ (length (res ++ D) <= res_size)%nat.

Lemma scan_result_step n b res D buf buf1 full nd pd bias nd1 pd1 bias1 o :
  transmits D buf nd pd bias buf1 nd1 pd1 bias1 ->
  scan_result n b (res ++ D) buf1 full nd1 pd1 bias1 o ->
  scan_result n b res buf full nd pd bias o.
Proof.
  intros HD [[-> Hfull]|(D' & d' & a' & n' & p' & -> & HT & HS & HL)].
  - left. split; [done|]. destruct HD as (_ & Hle & _ & Hlen). unfold hz in *.
    rewrite length_app in Hfull. lia.
  - right. exists (D ++ D'), d', a', n', p'. rewrite app_assoc.
    split_and!; [done|by eapply transmits_trans|done|done].
Qed.

(** The scan meets [n]. *)
Lemma encode_scan_hit n b todo fin res delta bias nd pd :
  let buf := handled n fin (n :: todo) in let full := below (n + 1) (fin ++ n :: todo) in
  synced n b delta (hz buf) (hz (below (n + 1) fin)) nd pd -> n <= 0x10ffff ->
  (length (fin ++ n :: todo) <= 63)%nat -> (length res <= res_size)%nat ->
  (forall res bias,
     let buf1 := handled n (fin ++ [n]) todo in
     synced n b 0 (hz buf1) (hz (below (n + 1) (fin ++ [n]))) n (hz (below (n + 1) fin) + 1) ->
     (length res <= res_size)%nat ->
     scan_result n b res buf1 full n (hz (below (n + 1) fin) + 1) bias
       (encode_scan todo n b res 0 bias (hz buf1))) ->
  scan_result n b res buf full nd pd bias (encode_scan (n :: todo) n b res delta bias (hz buf)).
Proof.
  intros buf full Hs Hn Hlen Hres IH.
  set (l := below (n + 1) fin) in *. set (r := below n todo).
  assert (buf = l ++ r) as Hbuf
    by (subst buf; unfold handled; rewrite below_cons, decide_False by lia; done).
  assert (handled n (fin ++ [n]) todo = l ++ n :: r) as Hbuf1.
  { unfold handled. rewrite below_app, below_cons, decide_True by lia. by rewrite <- app_assoc. }
  assert (length (l ++ r) < 63)%nat as Hlr.
  { subst l r. pose proof (below_length (n + 1) fin). pose proof (below_length n todo).
    rewrite !length_app in *. simpl in *. lia. }
  rewrite Hbuf in *. clearbody buf.
  assert (0 <= delta < 2 ^ 31) as Hd.
  { destruct Hs as [E H0 Hpd Hnd _ _]. unfold hz in *.
    assert ((n - nd) * (Z.of_nat (length (l ++ r)) + 1) <= 0x10ffff * 63)
      by (apply Z.mul_le_mono_nonneg; lia). rewrite length_app in *. lia. }
  destruct (adapt_total delta (hz (l ++ r) =? b) (hz (l ++ r) + 1)) as [bias' Ha];
    [done|unfold hz; lia|].
  destruct (transmits_delta l r n b delta bias bias' nd pd Hs Hn Hlr Ha) as [HT Hd9].
  cbn [encode_scan]. rewrite Z.eqb_refl, emit_label_delta by (done || lia). rewrite bind_ok.
  destruct (Nat.leb_spec (length res + length (digits 10 delta BASE bias)) res_size).
  - rewrite Ha, bind_ok. eapply scan_result_step; [exact HT|].
    specialize (IH (res ++ map digit_char (digits 10 delta BASE bias)) bias'). cbv zeta in IH.
    rewrite Hbuf1 in IH.
    assert (hz (l ++ n :: r) = hz (l ++ r) + 1) as Eh
      by (unfold hz; rewrite !length_app; simpl; lia).
    rewrite Eh in IH. apply IH.
    + destruct Hs as [E H0 Hpd Hnd Hf Hb]. split; try lia; unfold hz in *;
        rewrite ?below_app, ?below_cons, ?decide_True, ?length_app in * by lia; fold l;
        change (below (n + 1) []) with (@nil Z); cbn [length]; try lia.
      rewrite (proj2 (Z.eqb_neq _ b)) by lia. symmetry. apply Z.eqb_neq. lia.
    + rewrite length_app, length_map. lia.
  - left. split; [done|]. pose proof (digits_length 10 delta BASE bias).
    assert (hz full >= hz (l ++ r) + 1).
    { subst full. unfold hz. rewrite below_app, below_cons, decide_True, !length_app by lia. fold l.
      cbn [length]. subst r.
      pose proof (below_mono n (n + 1) todo ltac:(lia)). lia. }
    unfold hz in *. lia.
Qed.

Lemma encode_scan_sim n b todo : n <= 0x10ffff -> forall fin res delta bias nd pd,
  let buf := handled n fin todo in
  synced n b delta (hz buf) (hz (below (n + 1) fin)) nd pd ->
  (length (fin ++ todo) <= 63)%nat -> (length res <= res_size)%nat ->
  scan_result n b res buf (below (n + 1) (fin ++ todo)) nd pd bias
    (encode_scan todo n b res delta bias (hz buf)).
Proof.
  intros Hn. induction todo as [|c todo IH]; intros fin res delta bias nd pd buf Hs Hlen Hres.
  - right. assert (buf = below (n + 1) fin) as Hb
      by (subst buf; unfold handled; change (below n []) with (@nil Z); by rewrite app_nil_r).
    rewrite Hb in *. exists [], delta, bias, nd, pd. rewrite !app_nil_r.
    split_and!; [done|apply transmits_refl|done|done].
  - assert (fin ++ c :: todo = (fin ++ [c]) ++ todo) as Eapp by (by rewrite <- app_assoc).
    destruct (Z.eq_dec c n) as [->|Hne].
    + apply encode_scan_hit; try done. intros res1 bias1 buf1 Hs1 Hres1.
      rewrite Eapp. apply IH; [done|by rewrite <- Eapp|done].
    + cbn [encode_scan]. rewrite (proj2 (Z.eqb_neq _ _)) by done.
      assert (buf = handled n (fin ++ [c]) todo) as Hb.
      { subst buf. unfold handled. rewrite below_app, !below_cons.
        repeat case_decide; try lia; by rewrite <- ?app_assoc. }
      rewrite Hb in *. rewrite Eapp in *.
      assert (forall d, synced n b d (hz (handled n (fin ++ [c]) todo))
                          (hz (below (n + 1) (fin ++ [c]))) nd pd ->
        scan_result n b res (handled n (fin ++ [c]) todo) (below (n + 1) ((fin ++ [c]) ++ todo))
          nd pd bias (encode_scan todo n b res d bias (hz (handled n (fin ++ [c]) todo)))) as IH'
        by (intros; by apply IH).
      assert (hz (below (n + 1) (fin ++ [c]))
              = hz (below (n + 1) fin) + if c <? n then 1 else 0) as El.
      { unfold hz. rewrite below_app, below_cons, length_app. change (below (n + 1) []) with (@nil Z).
        zcase; case_decide; simpl; lia. }
      destruct Hs as [Hd H0 Hpd Hnd Hf Hbb].
      destruct (c <? n); apply IH'; split; try done; lia.
Qed.

(** ** The encoder's main loop *)

Lemma next_char_fold n us : forall m0,
  let m := foldl (fun m c => if (n <=? c) && (c <? m) then c else m) m0 us in
  m <= m0 /\ (forall c, c ∈ us -> n <= c -> m <= c) /\ (m = m0 \/ m ∈ us /\ n <= m).
Proof.
  induction us as [|c us IH]; intros m0; simpl.
  - split_and!; [lia|by intros c ?%not_elem_of_nil|by left].
  - destruct (IH (if (n <=? c) && (c <? m0) then c else m0)) as (H1 & H2 & H3).
    destruct ((n <=? c) && (c <? m0)) eqn:E; split_and!.
    + lia.
    + intros d [->|Hd]%elem_of_cons Hn; [done|by apply H2].
    + right. rewrite elem_of_cons. destruct H3 as [->|[? ?]]; [split; [by left|lia]|by auto].
    + done.
    + intros d [->|Hd]%elem_of_cons Hn; [lia|by apply H2].
    + rewrite elem_of_cons. destruct H3 as [?|[? ?]]; auto.
Qed.

Lemma next_char_spec n us :
  Forall (fun c => c <= 0x10ffff) us -> (length (below n us) < length us)%nat ->
  next_char us n ∈ us /\ n <= next_char us n /\
  (forall c, c ∈ us -> n <= c -> next_char us n <= c).
Proof.
  intros HF Hlen. assert (exists c, c ∈ us /\ n <= c) as (c & Hc & Hnc).
  { clear HF. induction us as [|c us IH]; [simpl in *; lia|]. rewrite below_cons in Hlen.
    case_decide as Hd.
    - destruct IH as (x & Hx & Hn); [simpl in *; lia|]. exists x. rewrite elem_of_cons. auto.
    - exists c. rewrite elem_of_cons. split; [by left|lia]. }
  destruct (next_char_fold n us 0x10ffff) as (H1 & H2 & H3). fold (next_char us n) in *.
  rewrite Forall_forall in HF. specialize (HF c Hc). specialize (H2 c Hc Hnc) as Hm. cbv beta in HF.
  destruct H3 as [Em|[Hin Hle]]; [|by auto].
  assert (next_char us n = c) as E by lia. rewrite E in *. auto.
Qed.

Lemma below_skip n m us : n <= m -> (forall c, c ∈ us -> n <= c -> m <= c) -> below m us = below n us.
Proof.
  intros Hnm H. induction us as [|c us IH]; [done|]. rewrite !below_cons.
  rewrite IH by (intros d Hd; apply H; by apply list_elem_of_further).
  specialize (H c (list_elem_of_here _ _)). repeat case_decide; [done|lia|lia|done].
Qed.

Lemma below_strict m us : m ∈ us -> (length (below m us) < length (below (m + 1) us))%nat.
Proof.
  induction us as [|c us IH]; [by intros ?%not_elem_of_nil|].
  pose proof (below_mono m (m + 1) us ltac:(lia)). rewrite !below_cons.
  intros [Hc|Hm]%elem_of_cons.
  - repeat case_decide; simpl; lia.
  - specialize (IH Hm). repeat case_decide; simpl; lia.
Qed.

Lemma below_all n us : length (below n us) = length us -> below n us = us.
Proof.
  induction us as [|c us IH]; [done|]. rewrite below_cons. pose proof (below_length n us).
  case_decide; simpl; intros E; [|lia]. f_equal. apply IH. lia.
Qed.

Lemma encode_loop_sim b us :
  Forall (fun c => c <= 0x10ffff) us -> (length us <= 63)%nat ->
  forall fuel n res delta bias nd pd,
  let buf := below n us in
  synced n b delta (hz buf) 0 nd pd -> (length us - length buf < fuel)%nat ->
  (length res <= res_size)%nat ->
  let o := encode_loop fuel us b res n delta bias (hz buf) in
  o = Ok None /\ Z.of_nat res_size < hz res + 10 * (hz us - hz buf) \/
  exists D nd' pd' bias', o = Ok (Some (res ++ D)) /\ transmits D buf nd pd bias us nd' pd' bias'.
Proof.
  intros HF Hlen. induction fuel as [|fuel IH]; intros n res delta bias nd pd buf Hs Hf Hres o; [lia|].
  subst o. cbn [encode_loop]. fold (hz us). pose proof (below_length n us) as Hle. fold buf in Hle.
  destruct (Z.ltb_spec (hz buf) (hz us)) as [Hlt|Hge].
  2: { assert (buf = us) as Hbu by (apply below_all; unfold hz in *; fold buf; lia).
       right. exists [], nd, pd, bias. rewrite app_nil_r, Hbu. split; [done|apply transmits_refl]. }
  destruct (next_char_spec n us HF) as (Hin & Hnm & Hmin); [unfold hz in *; fold buf; lia|].
  set (m := next_char us n) in *. cbv zeta.
  assert (buf = handled m [] us) as Hbuf by (symmetry; apply (below_skip n m us Hnm Hmin)).
  assert (m <= 0x10ffff) as Hm by (rewrite Forall_forall in HF; by apply HF).
  pose proof (below_strict m us Hin) as Hstrict.
  assert (length buf = length (below m us)) as Hlb by (by rewrite Hbuf).
  pose proof (below_length (m + 1) us) as Hle'.
  destruct (encode_scan_sim m b us Hm [] res (delta + (m - n) * (hz buf + 1)) bias nd pd)
    as [[E Hfull]|(D & d' & a' & n' & p' & E & HT & HS & HL)]; rewrite <- ?Hbuf in *; try done.
  - destruct Hs as [Hd H0 Hpd Hnd Hfirst Hb]. unfold hz in *. split; try done; try lia;
      change (below (m + 1) []) with (@nil Z); cbn [length]; nia.
  - rewrite E, bind_ok. left. split; [done|]. unfold hz in *. cbn [app] in Hfull. lia.
  - rewrite E, bind_ok. cbn [app] in *.
    destruct (IH (m + 1) (res ++ D) (d' + 1) a' n' p') as [[E' Hfull]|(D' & n2 & p2 & a2 & E' & HT')].
    + destruct HS as [Hd H0 Hpd Hnd Hfirst Hb]. split; try done; lia.
    + lia.
    + done.
    + left. split; [done|]. destruct HT as (_ & _ & _ & HT). unfold hz in *.
      rewrite length_app in Hfull. lia.
    + right. exists (D ++ D'), n2, p2, a2. rewrite app_assoc. split; [done|].
      by eapply transmits_trans.
Qed.

(** ** A label *)

Lemma push_all_ok l : forall res,
  (length res + length l <= res_size)%nat -> push_all l res = Ok (res ++ l).
Proof.
  induction l as [|c l IH]; intros res Hl; cbn [push_all length] in *; [by rewrite app_nil_r|].
  unfold push. rewrite (proj2 (Nat.ltb_lt _ _)), bind_ok by lia.
  rewrite IH by (rewrite length_app; simpl; lia). by rewrite <- app_assoc.
Qed.

(** The code units below 0x80 are the basic characters. *)
Lemma push_basic_ok us : Forall scalar us -> forall res,
  (length res + length (below 0x80 us) <= res_size)%nat ->
  push_basic (utf16 us) res = Ok (res ++ below 0x80 us).
Proof.
  induction us as [|c us IH]; intros HF res Hl; [by rewrite app_nil_r|].
  apply Forall_cons in HF as [Hc HF]. rewrite utf16_cons, below_cons in *. unfold scalar in Hc.
  case_decide as Hd.
  - rewrite utf16_char_bmp by lia. cbn [app push_basic length] in *.
    rewrite (proj2 (Z.ltb_lt _ _)) by lia. unfold push.
    rewrite (proj2 (Nat.ltb_lt _ _)), bind_ok by lia.
    rewrite IH by (rewrite ?length_app; simpl; done || lia). by rewrite <- app_assoc.
  - unfold utf16_char. destruct (Z.ltb_spec c 0x10000); cbn [app push_basic];
      repeat rewrite (proj2 (Z.ltb_ge _ 0x80)) by dlia; by apply IH.
Qed.

Lemma read_basic_ok l : forall pre rest acc fuel,
  (length acc + length l < buffer_size)%nat -> (length l < fuel)%nat ->
  read_basic fuel (pre ++ l ++ rest) (length pre) (length pre + length l) acc
  = Ok ((length pre + length l)%nat, acc ++ l).
Proof.
  induction l as [|c l IH]; intros pre rest acc fuel Ha Hf; (destruct fuel as [|fuel]; [lia|]);
    cbn [read_basic length] in *.
  - rewrite Nat.add_0_r, (proj2 (Nat.ltb_ge _ _)), app_nil_r by lia. done.
  - rewrite !(proj2 (Nat.ltb_lt _ _)) by lia. cbn [andb app].
    rewrite (rd_middle pre _ _ (length pre)), bind_ok by done. unfold push.
    rewrite (proj2 (Nat.ltb_lt _ _)), bind_ok by lia.
    specialize (IH (pre ++ [c]) rest (acc ++ [c]) fuel). rewrite !length_app, <- !app_assoc in IH.
    cbn [app length] in IH. replace (length pre + S (length l))%nat with (length pre + 1 + length l)%nat by lia.
    rewrite !Nat.add_1_r in *. apply IH; lia.
Qed.

(** The part of an encoded label before the deltas. *)
Definition label_head (us : list Z) : list Z :=
  prefixW ++ if decide (below 0x80 us = []) then [] else below 0x80 us ++ [45].

(** [delim] is the position of the last hyphen of [src] before [fin]. *)
Definition last_hyphen (src : list Z) (delim fin : nat) : Prop :=
  (delim < fin)%nat /\ src !! delim = Some 45 /\
  forall j, (delim < j < fin)%nat -> src !! j <> Some 45.

Lemma last_hyphen_unique src d d' fin : last_hyphen src d fin -> last_hyphen src d' fin -> d = d'.
Proof.
  intros (H1 & H2 & H3) (H1' & H2' & H3'). destruct (Nat.lt_total d d') as [Hlt|[->|Hlt]]; [|done|].
  - by destruct (H3 d').
  - by destruct (H3' d).
Qed.

Lemma digits_no_hyphen D j :
  Forall (fun c => digit_value c <> None) D -> D !! j <> Some 45.
Proof. intros HF Hj. rewrite Forall_lookup in HF. by apply (HF j 45). Qed.

Lemma label_last_hyphen pre us D rest :
  Forall (fun c => digit_value c <> None) D ->
  last_hyphen (pre ++ (label_head us ++ D) ++ rest) (length pre + length (label_head us) - 1)
    (length pre + length (label_head us ++ D)).
Proof.
  intros HD. assert (exists h, label_head us = h ++ [45]) as [h Eh].
  { unfold label_head. case_decide; [by exists [120; 110; 45]|].
    exists (prefixW ++ below 128 us). by rewrite <- app_assoc. }
  rewrite Eh, !length_app, <- !app_assoc. cbn [length]. split_and!.
  - lia.
  - rewrite app_assoc. apply list_lookup_middle. rewrite length_app. lia.
  - intros j Hj. rewrite app_assoc, (app_assoc _ [45]).
    rewrite lookup_app_r by (rewrite !length_app; simpl; lia).
    rewrite lookup_app_l by (rewrite !length_app; simpl; lia). by apply digits_no_hyphen.
Qed.

Lemma encode_label_ok us res :
  Forall scalar us -> (length us <= 63)%nat -> (length res <= res_size)%nat ->
  let b := hz (below 0x80 us) in
  let o := encode_label (utf16 us) us b res in
  o = Ok None /\ Z.of_nat res_size < hz res + 5 + b + 10 * (hz us - b) \/
  exists D n p a, o = Ok (Some (res ++ label_head us ++ D)) /\
    transmits D (below 0x80 us) 0x80 0 72 us n p a.
Proof.
  intros HF Hlen Hres b o. subst o. unfold encode_label.
  pose proof (below_length 0x80 us) as Hb. unfold hz in *.
  destruct (Z.ltb_spec (Z.of_nat res_size) (Z.of_nat (length res) + 5 + b)) as [Hfull|Hroom];
    [left; split; [done|subst b; lia]|].
  rewrite push_all_ok, bind_ok by (simpl; lia).
  assert ((if b =? 0 then Ok (res ++ prefixW)
           else r ← push_basic (utf16 us) (res ++ prefixW); push res_size r 45)
          = Ok (res ++ label_head us)) as ->.
  { unfold label_head. subst b. case_decide as E.
    - rewrite E. by rewrite app_nil_r.
    - rewrite (proj2 (Z.eqb_neq _ _)) by (destruct (below 128 us); [done|simpl; lia]).
      rewrite push_basic_ok, bind_ok by (done || rewrite length_app; simpl; lia).
      unfold push. rewrite (proj2 (Nat.ltb_lt _ _)) by (rewrite !length_app; simpl; lia).
      by rewrite <- !app_assoc. }
  rewrite bind_ok.
  assert (length (label_head us) <= 5 + length (below 0x80 us))%nat as Hhead
    by (unfold label_head; case_decide; simpl; rewrite ?length_app; simpl; lia).
  destruct (encode_loop_sim b us) with (fuel := S (length us)) (n := 0x80) (res := res ++ label_head us)
    (delta := 0) (bias := 72) (nd := 0x80) (pd := 0) as [[E Hfull]|(D & n & p & a & E & HT)].
  - eapply Forall_impl; [exact HF|]. unfold scalar. intros c Hc. simpl. lia.
  - done.
  - subst b. split; unfold hz; lia.
  - lia.
  - rewrite length_app. subst b. lia.
  - left. split; [exact E|]. unfold hz in *. rewrite length_app in Hfull. subst b. lia.
  - right. exists D, n, p, a. rewrite app_assoc. split; [exact E|done].
Qed.

Lemma decode_label_ok pre us D rest n p a :
  (length us <= 63)%nat ->
  transmits D (below 0x80 us) 0x80 0 72 us n p a ->
  decode_label (pre ++ (label_head us ++ D) ++ rest) (length pre)
    (length pre + length (label_head us ++ D)) (length pre + length (label_head us) - 1)
  = Ok (Some us).
Proof.
  intros Hlen (HD & Hle & _ & Hk). unfold decode_label. pose proof (below_length 0x80 us) as Hb.
  assert (forall src i fin buf fuel, src = pre ++ (label_head us ++ D) ++ rest ->
    i = (length pre + length (label_head us))%nat ->
    fin = (length pre + length (label_head us ++ D))%nat -> buf = below 0x80 us ->
    fuel = S (fin - i) -> decode_loop fuel src i fin buf 0x80 0 72 = Ok (Some us)) as Hrun.
  { intros src i fin buf fuel -> -> -> -> ->. rewrite length_app.
    replace (S _) with ((length us - length (below 0x80 us)) +
      S (length D - (length us - length (below 0x80 us))))%nat by lia.
    specialize (HD (pre ++ label_head us) rest). rewrite length_app, <- !app_assoc in HD.
    rewrite <- !app_assoc. rewrite HD by lia. cbn [decode_loop].
    by rewrite (proj2 (Nat.ltb_ge _ _)) by lia. }
  unfold label_head in *. case_decide as E.
  - rewrite E in *. cbn [prefixW app length] in *. cbv zeta.
    rewrite (proj2 (Nat.eqb_eq _ _)) by lia.
    replace (S (length pre + 4 - 1)) with (length pre + 4)%nat by lia. rewrite Nat.sub_diag.
    cbn [read_basic]. rewrite Nat.ltb_irrefl. cbn [andb]. rewrite bind_ok. cbn [length Nat.eqb].
    by apply Hrun.
  - assert (length (prefixW ++ below 128 us ++ [45%Z]) = 5 + length (below 128 us))%nat as EL
      by (rewrite !length_app; simpl; lia).
    assert (0 < length (below 128 us))%nat by (destruct (below 128 us); [done|simpl; lia]).
    rewrite EL. cbv zeta. rewrite (proj2 (Nat.eqb_neq _ _)) by lia.
    replace (length pre + (5 + length (below 128 us)) - 1)%nat
      with (length pre + 4 + length (below 128 us))%nat by lia.
    pose proof (read_basic_ok (below 128 us) (pre ++ prefixW) ([45] ++ D ++ rest) []
      (S (length pre + 4 + length (below 128 us) - (length pre + 4)))) as Hrb.
    rewrite length_app, <- !app_assoc in Hrb. change (length prefixW) with 4%nat in Hrb.
    replace (pre ++ ((prefixW ++ below 128 us ++ [45]) ++ D) ++ rest)
      with (pre ++ prefixW ++ below 128 us ++ [45] ++ D ++ rest) in * by (by rewrite <- !app_assoc).
    rewrite Hrb by (cbn [length]; unfold buffer_size; lia). rewrite bind_ok.
    cbn [app]. rewrite (proj2 (Nat.eqb_neq _ _)) by lia.
    apply Hrun; try done. rewrite EL. lia.
Qed.

(** ** Theorems *)
Module PunycodeSpec.

(** Variable-length integers: for every bias, the digits that the encoder
    emits for a delta below 10^9 (a label of 63 characters stays below
    72,000,000) are exactly what the decoder's digit loop consumes, and the
    decoder adds the delta to its position, although its weight may wrap
    after the last significant digit. *)
Theorem delta_roundtrip res delta bias pos rest :
  0 <= delta -> 0 <= pos -> pos + delta < 10 ^ 9 -> (length res + 10 <= res_size)%nat ->
  exists res', emit_delta delta_fuel res delta BASE bias = Ok (Some res') /\
    read_delta (S (length res' - length res)) (res' ++ rest) (length res) (length res') pos 1 BASE bias
    = Ok (Some (length res', pos + delta)).
Proof.
  intros Hd Hp Hb Hres. rewrite emit_label_delta by lia.
  pose proof (digits_length 10 delta BASE bias). cbv zeta.
  set (ds := digits 10 delta BASE bias) in *.
  rewrite (proj2 (Nat.leb_le _ _)) by lia. eexists. split; [done|].
  rewrite length_app, length_map, <- app_assoc.
  rewrite (read_delta_ok 9 res delta rest BASE bias pos 1 1);
    rewrite ?Z.mul_1_l; fold ds; try done; try lia.
Qed.

Lemma delta_roundtrip_witness :
  exists res', emit_delta delta_fuel [] 123456 BASE 72 = Ok (Some res') /\
    read_delta (S (length res' - 0)) (res' ++ [45]) 0 (length res') 5 1 BASE 72
    = Ok (Some (length res', 123461)).
Proof.
  apply (delta_roundtrip [] 123456 72 5 [45]); [lia|lia|lia|apply Nat.leb_le; reflexivity].
Defined.

(** C13. Punycode round trip: for every label of at most 63 scalar values, the
    encoder either reports that its 256-unit array is full, which happens only
    when 5 units, the basic characters and 10 units for each other character
    do not fit behind [res], or appends a label from which the decoder (given
    the position of its last hyphen) rebuilds exactly the characters. *)
Theorem punycode_roundtrip us res rest :
  Forall scalar us -> (length us <= 63)%nat -> (length res <= res_size)%nat ->
  let b := hz (below 0x80 us) in
  encode_label (utf16 us) us b res = Ok None /\
    Z.of_nat res_size < hz res + 5 + b + 10 * (hz us - b) \/
  exists lab, encode_label (utf16 us) us b res = Ok (Some (res ++ lab)) /\
    prefixW `prefix_of` lab /\
    forall delim, last_hyphen (res ++ lab ++ rest) delim (length res + length lab) ->
      decode_label (res ++ lab ++ rest) (length res) (length res + length lab) delim = Ok (Some us).
Proof.
  intros HF Hlen Hres b. destruct (encode_label_ok us res HF Hlen Hres) as [H|(D & n & p & a & E & HT)];
    [by left|]. right. exists (label_head us ++ D). split; [exact E|]. split.
  { unfold label_head. eexists. by rewrite <- app_assoc. }
  intros delim Hdelim. destruct (HT) as (_ & _ & HD & _).
  rewrite (last_hyphen_unique _ _ _ _ Hdelim (label_last_hyphen res us D rest HD)).
  by eapply decode_label_ok.
Qed.

Lemma punycode_roundtrip_witness :
  let us := [0x62; 0xfc; 0x63; 0x68; 0x65; 0x72] in
  encode_label (utf16 us) us 5 [] = Ok (Some [120; 110; 45; 45; 98; 99; 104; 101; 114; 45; 107; 118; 97]) /\
  decode_label [120; 110; 45; 45; 98; 99; 104; 101; 114; 45; 107; 118; 97] 0 13 9 = Ok (Some us).
Proof.
  intros us. split; [vm_compute; reflexivity|].
  destruct (punycode_roundtrip us [] []) as [[E _]|(lab & E & _ & H)];
    [subst us; unfold scalar; forall_lia|apply Nat.leb_le; reflexivity|apply Nat.leb_le; reflexivity| |].
  - vm_compute in E. discriminate.
  - vm_compute in E. injection E as <-. apply (H 9%nat).
    split; [apply Nat.ltb_lt; reflexivity|]. split; [reflexivity|].
    intros j Hj. change (9 < j < 13)%nat in Hj.
    assert (j = 10 \/ j = 11 \/ j = 12)%nat as [->|[->| ->]] by lia; discriminate.
Defined.

(** The text "xn--ba00000000t" and a terminator. *)
Definition overflow_name : list Z :=
  [120; 110; 45; 45; 98; 97; 48; 48; 48; 48; 48; 48; 48; 48; 116; 0].

(** The decoder does not check its arithmetic: for the 15-character name
    "xn--ba00000000t" the position wraps to a negative [int] (even when
    signed overflow wraps), its remainder is negative and [memmove] moves the
    buffer to an address before the array; whatever the table, the flags
    being 0. *)
Theorem RtlIdnToUnicode_overflow nls tables tables' info dst dstlen :
  load_norm_table nls tables 13 = Ok (STATUS_SUCCESS, Some info, tables') ->
  Idn.RtlIdnToUnicode nls tables 0 (Some overflow_name) 15 dst dstlen = Fault.
Proof.
  intros Hload. unfold Idn.RtlIdnToUnicode.
  change (15 <? -1) with false. change (15 =? -1) with false. cbv iota. rewrite bind_ok, Hload, bind_ok.
  change (Z.to_nat 15) with 15%nat. cbn [Idn.unicode_labels].
  assert (Idn.scan_label 16 0 overflow_name 15 0 0 0 = Ok (Some (15%nat, 116, 3%nat))) as -> by done.
  cbn [Nat.ltb Nat.leb]. rewrite bind_ok. cbn [Nat.eqb andb].
  assert (Idn.no_prefix overflow_name 0 15 = Ok false) as -> by done. rewrite bind_ok.
  unfold Idn.punycode_label.
  assert (decode_label overflow_name 0 15 3 = Fault) as -> by (vm_compute; reflexivity).
  reflexivity.
Qed.

Lemma RtlIdnToUnicode_overflow_witness :
  let info := replicate 0x14 0 ++ [13] ++ replicate 0x20 0 in
  let nls := fun _ => (STATUS_SUCCESS, info, 0x6a) in
  Idn.RtlIdnToUnicode nls (replicate 16 None) 0 (Some overflow_name) 15 (replicate 64 0) 64 = Fault.
Proof.
  intros info nls.
  apply (RtlIdnToUnicode_overflow nls (replicate 16 None) (<[13%nat := Some info]> (replicate 16 None)) info).
  reflexivity.
Defined.

(** The decoder does not bound the code points either: "xn--g954j"
    decodes into 0x1707d6, beyond the last code point 0x10ffff, for which
    [check_invalid_chars] then reads outside the level-1 property table. *)
Theorem decode_label_out_of_range :
  decode_label [120; 110; 45; 45; 103; 57; 53; 52; 106] 0 9 3 = Ok (Some [0x1707d6]) /\
  0x2200 <= 0x1707d6 / 128.
Proof. split; [vm_compute; reflexivity|done]. Qed.

End PunycodeSpec.
