(* ===== verification/PathCch.v ===== *)
(** * The PathCch functions (oca/extensions/kernelex/path.c)

    A path is the array that holds it, with its terminator and whatever
    follows; positions in it are naturals.  A scan that passes the end of the
    array is a fault, so a function that returns on every array that holds a
    terminator reads no further than the string. *)
From S2P Require Import Prelude.

Module PathCch.

Definition bslash : Z := 92.
Definition dot : Z := 46.
Definition colon : Z := 58.
Definition star : Z := 42.
Definition qmark : Z := 63.
Definition space : Z := 32.

(** HRESULT values (sdk/include/psdk/winerror.h, strsafe.h) *)
Definition S_OK := 0.
Definition S_FALSE := 1.
Definition E_INVALIDARG := 0x80070057.
Definition E_OUTOFMEMORY := 0x8007000E.
Definition STRSAFE_E_INSUFFICIENT_BUFFER := 0x8007007A.
Definition E_FILENAME_EXCED_RANGE := 0x800700CE.
Definition FAILED (hr : Z) : bool := 0x80000000 <=? hr.

Definition MAX_PATH := 260.
Definition PATHCCH_MAX_CCH := 0x8000.
Definition PATHCCH_NONE := 0x00.
Definition PATHCCH_ALLOW_LONG_PATHS := 0x01.
Definition PATHCCH_FORCE_ENABLE_LONG_NAME_PROCESS := 0x02.
Definition PATHCCH_FORCE_DISABLE_LONG_NAME_PROCESS := 0x04.
Definition PATHCCH_DO_NOT_NORMALIZE_SEGMENTS := 0x08.
Definition PATHCCH_ENSURE_IS_EXTENDED_LENGTH_PATH := 0x10.
Definition PATHCCH_ENSURE_TRAILING_SLASH := 0x20.

Definition flag (flags bit : Z) : bool := negb (Z.land flags bit =? 0).

(** [isalpha] and [isxdigit] in the C locale. *)
Definition isalpha (c : Z) : bool :=
  ((65 <=? c) && (c <=? 90)) || ((97 <=? c) && (c <=? 122)).
Definition isxdigit (c : Z) : bool :=
  ((48 <=? c) && (c <=? 57)) || ((65 <=? c) && (c <=? 70)) || ((97 <=? c) && (c <=? 102)).

Definition lower (c : Z) : Z := if (65 <=? c) && (c <=? 90) then c + 32 else c.

(** [!_wcsnicmp( b + off, lit, n )] and [!wcsncmp( b + off, lit, n )] for a
    literal of [n] characters; the comparison stops at the first difference. *)
Fixpoint starts_nocase (b : list Z) (off : nat) (lit : list Z) : outcome bool :=
  match lit with
  | [] => Ok true
  | l :: lit =>
    c ← rd b off;
    if lower c =? lower l then starts_nocase b (S off) lit else Ok false
  end.

Fixpoint starts (b : list Z) (off : nat) (lit : list Z) : outcome bool :=
  match lit with
  | [] => Ok true
  | l :: lit => c ← rd b off; if c =? l then starts b (S off) lit else Ok false
  end.

(** ["\\?\UNC\"], ["\\?\"], ["\\?\Volume"] and ["\\?"] *)
Definition prefix_unc : list Z := [92; 92; 63; 92; 85; 78; 67; 92].
Definition prefix_long : list Z := [92; 92; 63; 92].
Definition prefix_volume : list Z := [92; 92; 63; 92; 86; 111; 108; 117; 109; 101].
Definition prefix_q : list Z := [92; 92; 63].

(** [wcsnlen( s + off, maxlen )] *)
Fixpoint wcsnlen (s : list Z) (off maxlen : nat) : outcome nat :=
  match maxlen with
  | O => Ok 0%nat
  | S maxlen =>
    c ← rd s off;
    if c =? 0 then Ok 0%nat else n ← wcsnlen s (S off) maxlen; Ok (S n)
  end.

(** [lstrcpyW( b + dst, b + src )] inside one array, [dst <= src]. *)
Definition lstrcpyW_within (b : list Z) (dst src : nat) : outcome (list Z) :=
  n ← wcslen b src;
  v ← rd_list b src (S n);
  wr_list b dst v.

Definition is_drive_spec (str : list Z) (off : nat) : outcome bool :=
  c ← rd str off;
  if isalpha c then c1 ← rd str (off + 1); Ok (c1 =? colon) else Ok false.

Definition is_escaped_drive_spec (str : list Z) (off : nat) : outcome bool :=
  c ← rd str off;
  if isalpha c then c1 ← rd str (off + 1); Ok ((c1 =? colon) || (c1 =? 124)) else Ok false.

Definition is_prefixed_unc (string : list Z) : outcome bool := starts_nocase string 0 prefix_unc.

Definition is_prefixed_disk (string : list Z) : outcome bool :=
  p ← starts string 0 prefix_long;
  if p : bool then is_drive_spec string 4 else Ok false.

(** The character [guid[i]] is the one the GUID syntax asks for. *)
Definition guid_char (i : nat) (c : Z) : bool :=
  if (i =? 0)%nat then c =? 123
  else if (i =? 9)%nat || (i =? 14)%nat || (i =? 19)%nat || (i =? 24)%nat then c =? 45
  else if (i =? 37)%nat then c =? 125
  else isxdigit c.

(** [while (i <= 37)], [n] iterations from [i]. *)
Fixpoint guid_loop (string : list Z) (i n : nat) : outcome bool :=
  match n with
  | O => Ok true
  | S n =>
    c ← rd string (10 + i);
    if guid_char i c then guid_loop string (S i) n else Ok false
  end.

Definition is_prefixed_volume (string : list Z) : outcome bool :=
  p ← starts_nocase string 0 prefix_volume;
  if p : bool then guid_loop string 0 38 else Ok false.

(** [get_next_segment( next, &next_segment )]: the returned flag and
    [*next_segment].  The fuel is the length of the array. *)
Fixpoint next_segment_loop (fuel : nat) (path : list Z) (next : nat) : outcome (bool * nat) :=
  match fuel with
  | O => NoFuel
  | S fuel =>
    c ← rd path next;
    if c =? 0 then Ok (false, next)
    else if c =? bslash then Ok (true, S next)
    else next_segment_loop fuel path (S next)
  end.

Definition get_next_segment (path : list Z) (next : nat) : outcome (bool * nat) :=
  next_segment_loop (S (length path)) path next.

(** [path[0] == '\\' && path[1] == '\\'] *)
Definition two_slashes (path : list Z) : outcome bool :=
  c ← rd path 0;
  if c =? bslash then c1 ← rd path 1; Ok (c1 =? bslash) else Ok false.

(** [path[0] == '\\' && path[1] == '\\' && path[2] != '?'] *)
Definition is_unc_plain (path : list Z) : outcome bool :=
  t ← two_slashes path;
  if t : bool then c2 ← rd path 2; Ok (negb (c2 =? qmark)) else Ok false.

Definition get_root_end (path : list Z) : outcome (option nat) :=
  vol ← is_prefixed_volume path;
  if vol : bool then
    c ← rd path 48; Ok (Some (if c =? bslash then 48%nat else 47%nat))
  else
    unc ← is_prefixed_unc path;
    if unc : bool then Ok (Some 7%nat)
    else
      disk ← is_prefixed_disk path;
      if disk : bool then
        c ← rd path 6; Ok (Some (if c =? bslash then 6%nat else 5%nat))
      else
        two ← two_slashes path;
        if two : bool then Ok (Some 1%nat)
        else
          c0 ← rd path 0;
          if c0 =? bslash then Ok (Some 0%nat)
          else
            drive ← is_drive_spec path 0;
            if drive : bool then
              c ← rd path 2; Ok (Some (if c =? bslash then 2%nat else 1%nat))
            else Ok None.

(** [PathCchAddBackslashEx( path, size, &endptr, &remaining )]: the result,
    the array, [*endptr] and [*remaining]. *)
Definition PathCchAddBackslashEx (path : list Z) (size : Z)
    : outcome (Z * list Z * option nat * Z) :=
  length ← wcslen path 0;
  needs_termination ←
    (if negb (size =? 0) && negb (length =? 0)%nat
     then c ← rd path (length - 1); Ok (negb (c =? bslash)) else Ok false);
  if (if needs_termination : bool then size - 1 else size) <=? Z.of_nat length
  then Ok (STRSAFE_E_INSUFFICIENT_BUFFER, path, None, 0)
  else if negb needs_termination
  then Ok (S_FALSE, path, Some length, size - Z.of_nat length)
  else
    path ← wr path length bslash;
    path ← wr path (S length) 0;
    Ok (S_OK, path, Some (S length), size - Z.of_nat (S length)).

Definition PathCchAddBackslash (path : list Z) (size : Z) : outcome (Z * list Z) :=
  '(hr, path, _, _) ← PathCchAddBackslashEx path size; Ok (hr, path).

(** The scan of [PathCchFindExtension] at [pos] (where [counter = pos]):
    [None] is the return when the string is too long. *)
Fixpoint extension_loop (fuel : nat) (path : list Z) (size : Z) (pos : nat) (lastpoint : option nat)
    : outcome (option nat) :=
  match fuel with
  | O => NoFuel
  | S fuel =>
    c ← rd path pos;
    if c =? 0 then Ok (Some (default pos lastpoint))
    else
      let lastpoint :=
        if (c =? bslash) || (c =? space) then None
        else if c =? dot then Some pos else lastpoint in
      let counter := Z.of_nat (S pos) in
      if (counter =? size) || (counter =? PATHCCH_MAX_CCH) then Ok None
      else extension_loop fuel path size (S pos) lastpoint
  end.

(** [PathCchFindExtension( path, size, &extension )]: the result and
    [*extension]. *)
Definition PathCchFindExtension (path : option (list Z)) (size : Z) : outcome (Z * option nat) :=
  match path with
  | None => Ok (E_INVALIDARG, None)
  | Some path =>
    if (size =? 0) || (PATHCCH_MAX_CCH <? size) then Ok (E_INVALIDARG, None)
    else
      r ← extension_loop (S (length path)) path size 0 None;
      match r with
      | None => Ok (E_INVALIDARG, None)
      | Some e => Ok (S_OK, Some e)
      end
  end.

(** [PathCchAddExtension]: the characters of the extension are allowed. *)
Fixpoint extension_valid (fuel : nat) (extension : list Z) (next : nat) : outcome bool :=
  match fuel with
  | O => NoFuel
  | S fuel =>
    c ← rd extension next;
    if c =? 0 then Ok true
    else if ((c =? dot) && negb (next =? 0)%nat) || (c =? space) || (c =? bslash) then Ok false
    else extension_valid fuel extension (S next)
  end.

Definition bad_size (size : Z) : bool := (size =? 0) || (PATHCCH_MAX_CCH <? size).

(** The result and the array; [None] stands for a null pointer. *)
Definition PathCchAddExtension (path : option (list Z)) (size : Z) (extension : option (list Z))
    : outcome (Z * option (list Z)) :=
  match path, extension with
  | Some path, Some extension =>
    if bad_size size then Ok (E_INVALIDARG, Some path)
    else
      valid ← extension_valid (S (length extension)) extension 0;
      if negb valid then Ok (E_INVALIDARG, Some path)
      else
        c0 ← rd extension 0;
        let has_dot := c0 =? dot in
        '(hr, existing) ← PathCchFindExtension (Some path) size;
        match existing with
        | None => Ok (hr, Some path)
        | Some e =>
          ce ← rd path e;
          if negb (ce =? 0) then Ok (S_FALSE, Some path)
          else
            path_length ← wcsnlen path 0 (Z.to_nat size);
            let dot_length := if has_dot then 0 else 1 in
            extension_length ← wcslen extension 0;
            if size <? Z.of_nat path_length + dot_length + Z.of_nat extension_length + 1
            then Ok (STRSAFE_E_INSUFFICIENT_BUFFER, Some path)
            else
              only_dot ← (if c0 =? 0 then Ok true
                          else if has_dot then c1 ← rd extension 1; Ok (c1 =? 0) else Ok false);
              if only_dot : bool then Ok (S_OK, Some path)
              else
                v ← rd_list extension 0 (S extension_length);
                if has_dot then path ← wr_list path path_length v; Ok (S_OK, Some path)
                else
                  path ← wr path path_length dot;
                  path ← wr_list path (S path_length) v;
                  Ok (S_OK, Some path)
        end
  | _, _ => Ok (E_INVALIDARG, path)
  end.

(** [while (next - path < size && *next) *next++ = 0;] *)
Fixpoint clear_loop (fuel : nat) (path : list Z) (size : Z) (next : nat) : outcome (list Z * nat) :=
  match fuel with
  | O => NoFuel
  | S fuel =>
    if Z.of_nat next <? size then
      c ← rd path next;
      if c =? 0 then Ok (path, next)
      else path ← wr path next 0; clear_loop fuel path size (S next)
    else Ok (path, next)
  end.

Definition PathCchRemoveExtension (path : option (list Z)) (size : Z)
    : outcome (Z * option (list Z)) :=
  match path with
  | None => Ok (E_INVALIDARG, path)
  | Some a =>
    if bad_size size then Ok (E_INVALIDARG, path)
    else
      '(hr, extension) ← PathCchFindExtension path size;
      match extension with
      | None => Ok (hr, path)
      | Some e =>
        '(a, next) ← clear_loop (S (length a)) a size e;
        Ok (if (next =? e)%nat then S_FALSE else S_OK, Some a)
      end
  end.

Definition PathCchRenameExtension (path : option (list Z)) (size : Z) (extension : option (list Z))
    : outcome (Z * option (list Z)) :=
  '(hr, path) ← PathCchRemoveExtension path size;
  if FAILED hr then Ok (hr, path)
  else
    '(hr, path) ← PathCchAddExtension path size extension;
    Ok (if FAILED hr then hr else S_OK, path).

Definition PathCchIsRoot (path : option (list Z)) : outcome bool :=
  match path with
  | None => Ok false
  | Some path =>
    c0 ← rd path 0;
    if c0 =? 0 then Ok false
    else
      r ← get_root_end path;
      match r with
      | None => Ok false
      | Some root_end =>
        is_unc ← is_prefixed_unc path;
        unc ← (if is_unc : bool then Ok true else is_unc_plain path);
        if unc : bool then
          c ← rd path (S root_end);
          if c =? 0 then Ok true
          else
            '(b, next) ← get_next_segment path (S root_end);
            cn ← rd path next;
            if b && (cn =? 0) then Ok false
            else if cn =? 0 then Ok true
            else
              '(b, next) ← get_next_segment path (S next);
              if b : bool then Ok false
              else cn ← rd path next; Ok (cn =? 0)
        else
          c ← rd path root_end;
          if c =? bslash then c1 ← rd path (S root_end); Ok (c1 =? 0) else Ok false
      end
  end.

(** [PathCchSkipRoot( path, &root_end )]: the result and [*root_end], which
    the first return leaves unset. *)
Definition PathCchSkipRoot (path : option (list Z)) : outcome (Z * option nat) :=
  match path with
  | None => Ok (E_INVALIDARG, None)
  | Some path =>
    c0 ← rd path 0;
    if c0 =? 0 then Ok (E_INVALIDARG, None)
    else
      q ← starts_nocase path 0 prefix_q;
      bad ← (if q : bool then
               vol ← is_prefixed_volume path;
               if vol : bool then Ok false
               else
                 unc ← is_prefixed_unc path;
                 if unc : bool then Ok false
                 else disk ← is_prefixed_disk path; Ok (negb disk)
             else Ok false);
      if bad : bool then Ok (E_INVALIDARG, None)
      else
        r ← get_root_end path;
        match r with
        | None => Ok (E_INVALIDARG, None)
        | Some r =>
          let root_end := S r in
          unc ← is_prefixed_unc path;
          if unc : bool then
            '(_, root_end) ← get_next_segment path root_end;
            '(_, root_end) ← get_next_segment path root_end;
            Ok (S_OK, Some root_end)
          else
            plain ← is_unc_plain path;
            if plain : bool then
              '(_, root_end) ← get_next_segment path root_end;
              c ← rd path root_end;
              if c =? bslash then Ok (S_OK, Some root_end)
              else
                '(_, root_end) ← get_next_segment path root_end;
                Ok (S_OK, Some root_end)
            else Ok (S_OK, Some root_end)
        end
  end.

Definition PathCchStripPrefix (path : option (list Z)) (size : Z) : outcome (Z * option (list Z)) :=
  match path with
  | None => Ok (E_INVALIDARG, path)
  | Some a =>
    if bad_size size then Ok (E_INVALIDARG, path)
    else
      unc ← is_prefixed_unc a;
      if unc : bool then
        n ← wcslen a 8;
        if size <? Z.of_nat n + 3 then Ok (E_INVALIDARG, path)
        else a ← lstrcpyW_within a 2 8; Ok (S_OK, Some a)
      else
        disk ← is_prefixed_disk a;
        if disk : bool then
          n ← wcslen a 4;
          if size <? Z.of_nat n + 1 then Ok (E_INVALIDARG, path)
          else a ← lstrcpyW_within a 0 4; Ok (S_OK, Some a)
        else Ok (S_FALSE, path)
  end.

Definition PathCchStripToRoot (path : option (list Z)) (size : Z) : outcome (Z * option (list Z)) :=
  match path with
  | None => Ok (E_INVALIDARG, path)
  | Some a =>
    c0 ← rd a 0;
    if (c0 =? 0) || bad_size size then Ok (E_INVALIDARG, path)
    else
      is_unc ← is_prefixed_unc a;
      unc ← (if is_unc : bool then Ok true else is_unc_plain a);
      if unc : bool then
        '(b, root_end) ← get_next_segment a (if is_unc : bool then 8 else 3)%nat;
        if negb b then Ok (S_FALSE, path)
        else
          '(b, root_end) ← get_next_segment a root_end;
          if negb b then Ok (S_FALSE, path)
          else if size <=? Z.of_nat root_end then Ok (E_INVALIDARG, path)
          else a ← wr a (root_end - 1) 0; Ok (S_OK, Some a)
      else
        '(hr, r) ← PathCchSkipRoot path;
        match r with
        | None => Ok (E_INVALIDARG, path)
        | Some root_end =>
          if size <=? Z.of_nat root_end then Ok (E_INVALIDARG, path)
          else
            c ← rd a root_end;
            if c =? 0 then Ok (S_FALSE, path)
            else a ← wr a root_end 0; Ok (S_OK, Some a)
        end
  end.

(** [PathIsUNCEx( path, &server )]: the position of the server, if any. *)
Definition PathIsUNCEx (path : list Z) : outcome (option nat) :=
  unc ← is_prefixed_unc path;
  if unc : bool then Ok (Some 8%nat)
  else plain ← is_unc_plain path; Ok (if plain : bool then Some 2%nat else None).

(** The loop of [PathCchRemoveFileSpec]; [count] is [last - path + 1].  [None]
    is the return of E_INVALIDARG, with the array as it is then. *)
Fixpoint filespec_loop (path : list Z) (size : Z) (root_end count : nat)
    : outcome (list Z * option nat) :=
  match count with
  | O => Ok (path, Some 0%nat)
  | S last =>
    if (root_end <=? last)%nat then
      if size <=? Z.of_nat last then Ok (path, None)
      else
        c ← rd path last;
        path ← wr path last 0;
        if c =? bslash then Ok (path, Some last) else filespec_loop path size root_end last
    else Ok (path, Some count)
  end.

Definition PathCchRemoveFileSpec (path : option (list Z)) (size : Z)
    : outcome (Z * option (list Z)) :=
  match path with
  | None => Ok (E_INVALIDARG, path)
  | Some a =>
    if bad_size size then Ok (E_INVALIDARG, path)
    else
      root ← PathCchIsRoot path;
      if root : bool then Ok (S_FALSE, path)
      else
        '(_, r) ← PathCchSkipRoot path;
        root_end ← match r with
                   | None => Ok 0%nat
                   | Some e =>
                     c ← (if (e =? 0)%nat then Ok 0 else rd a (e - 1));
                     if c =? bslash then
                       is_unc ← is_prefixed_unc a;
                       unc ← (if is_unc : bool then Ok true else is_unc_plain a);
                       Ok (if unc : bool then (e - 1)%nat else e)
                     else Ok e
                   end;
        length ← wcslen a 0;
        '(a, r) ← filespec_loop a size root_end length;
        match r with
        | None => Ok (E_INVALIDARG, Some a)
        | Some count => Ok (if (count =? length)%nat then S_FALSE else S_OK, Some a)
        end
  end.

(** [PathCchRemoveBackslashEx( path, path_size, &path_end, &free_size )]; the
    two pointers are given. *)
Definition PathCchRemoveBackslashEx (path : list Z) (path_size : Z)
    : outcome (Z * list Z * option nat * Z) :=
  if path_size =? 0 then Ok (E_INVALIDARG, path, None, 0)
  else
    path_length ← wcsnlen path 0 (Z.to_nat path_size);
    bad ← (if Z.of_nat path_length =? path_size
           then c ← rd path path_length; Ok (c =? 0) else Ok false);
    if bad : bool then Ok (E_INVALIDARG, path, None, 0)
    else
      root_end ← get_root_end path;
      slash ← (if (path_length =? 0)%nat then Ok false
               else c ← rd path (path_length - 1); Ok (c =? bslash));
      if slash : bool then
        let free := path_size - Z.of_nat path_length + 1 in
        let beyond := match root_end with
                      | None => true
                      | Some r => (r <? path_length - 1)%nat
                      end in
        if beyond then
          path ← wr path (path_length - 1) 0;
          Ok (S_OK, path, Some (path_length - 1)%nat, free)
        else Ok (S_FALSE, path, Some (path_length - 1)%nat, free)
      else Ok (S_FALSE, path, Some path_length, path_size - Z.of_nat path_length).

Definition PathCchRemoveBackslash (path : list Z) (path_size : Z) : outcome (Z * list Z) :=
  '(hr, path, _, _) ← PathCchRemoveBackslashEx path path_size; Ok (hr, path).

(** *** PathAllocCanonicalize *)

(** The local variables of the main loop, as positions. *)
Record canon_state := CanonState {
  src : nat;
  dst : nat;
  buf : list Z;
  root_end : option nat;
}.

(** [dst > buffer && dst[-1] == c] *)
Definition prev_is (b : list Z) (d : nat) (c : Z) : outcome bool :=
  if (d =? 0)%nat then Ok false else x ← rd b (d - 1); Ok (x =? c).

(** [dst > buffer && dst[-1] != c] *)
Definition prev_is_not (b : list Z) (d : nat) (c : Z) : outcome bool :=
  if (d =? 0)%nat then Ok false else x ← rd b (d - 1); Ok (negb (x =? c)).

(** [!root_end || dst - 1 > root_end] *)
Definition after_root (root_end : option nat) (d : nat) : bool :=
  match root_end with None => true | Some r => (r <? d - 1)%nat end.

(** [*dst++ = *src++;] *)
Definition copy_char (path : list Z) (st : canon_state) : outcome canon_state :=
  c ← rd path (src st);
  b ← wr (buf st) (dst st) c;
  Ok (CanonState (S (src st)) (S (dst st)) b (root_end st)).

(** [while (dst > buffer)]: remove characters until a backslash is removed. *)
Fixpoint remove_segment (b : list Z) (d : nat) : outcome (list Z * nat) :=
  match d with
  | O => Ok (b, 0%nat)
  | S d =>
    c ← rd b d;
    b ← wr b d 0;
    if c =? bslash then Ok (b, d) else remove_segment b d
  end.

(** "If X:\ is not complete, then complete it" *)
Definition complete_drive (path : list Z) (st : canon_state) : outcome canon_state :=
  drive ← is_drive_spec (buf st) 0;
  incomplete ← (if drive : bool then c ← rd (buf st) 2; Ok (negb (c =? bslash)) else Ok false);
  if incomplete : bool then
    b ← wr (buf st) 2 bslash;
    c ← rd path (src st);
    Ok (CanonState (if c =? bslash then S (src st) else src st) 3 b (Some 2%nat))
  else Ok st.

(** The branch [src[0] == '.' && src[1] == '.'] *)
Definition canon_dotdot (path : list Z) (st : canon_state) : outcome canon_state :=
  keep ← prev_is (buf st) (dst st) star;
  if keep : bool then copy_char path st
  else
    c2 ← rd path (src st + 2);
    other ← prev_is_not (buf st) (dst st) bslash;
    if (negb (c2 =? bslash) && negb (c2 =? 0)) || other
    then st ← copy_char path st; copy_char path st
    else
      slash ← prev_is (buf st) (dst st) bslash;
      st ← (if slash && after_root (root_end st) (dst st) then
              b ← wr (buf st) (dst st - 1) 0;
              '(b, d) ← remove_segment b (dst st - 1);
              Ok (CanonState (src st) d b (root_end st))
            else Ok (CanonState (if c2 =? bslash then S (src st) else src st)
                       (dst st) (buf st) (root_end st)));
      complete_drive path (CanonState (src st + 2) (dst st) (buf st) (root_end st)).

(** The branch [src[0] == '.' && src[1] != '.'], with [c1 = src[1]]. *)
Definition canon_dot (path : list Z) (c1 : Z) (st : canon_state) : outcome canon_state :=
  other ← prev_is_not (buf st) (dst st) bslash;
  if (negb (c1 =? bslash) && negb (c1 =? 0)) || other then copy_char path st
  else
    slash ← prev_is (buf st) (dst st) bslash;
    let st :=
      if slash && after_root (root_end st) (dst st)
      then CanonState (src st) (dst st - 1) (buf st) (root_end st)
      else CanonState (if c1 =? bslash then S (src st) else src st)
             (dst st) (buf st) (root_end st) in
    complete_drive path (CanonState (S (src st)) (dst st) (buf st) (root_end st)).

(** The body of [while ( *src )]. *)
Definition canon_step (path : list Z) (c : Z) (st : canon_state) : outcome canon_state :=
  if c =? dot then
    c1 ← rd path (S (src st));
    if c1 =? dot then canon_dotdot path st else canon_dot path c1 st
  else copy_char path st.

Fixpoint canon_loop (fuel : nat) (path : list Z) (st : canon_state) : outcome canon_state :=
  match fuel with
  | O => NoFuel
  | S fuel =>
    c ← rd path (src st);
    if c =? 0 then Ok st
    else st ← canon_step path c st; canon_loop fuel path st
  end.

(** "Strip multiple trailing ." *)
Fixpoint strip_dots (b : list Z) (d : nat) : outcome (list Z) :=
  match d with
  | O => Ok b
  | S d =>
    c ← rd b d;
    if negb (c =? dot) then Ok b
    else
      star_before ← prev_is b d star;
      if star_before : bool then Ok b
      else
        colon_before ← prev_is b d colon;
        if colon_before && (d =? 2)%nat
        then b ← wr b d bslash; strip_dots b d
        else b ← wr b d 0; strip_dots b d
  end.

(** "Copy path root": the state before the loop. *)
Definition canon_init (path : list Z) (len : nat) : outcome canon_state :=
  let buffer := replicate (len + 6) 0 in
  r ← get_root_end path;
  match r with
  | None => Ok (CanonState 0 0 buffer None)
  | Some r =>
    v ← rd_list path 0 (S r);
    b ← wr_list buffer 0 v;
    '(hr, p) ← PathCchStripPrefix (Some b) (Z.of_nat (len + 6));
    let b := default b p in
    if hr =? S_OK then
      drive ← is_drive_spec b 0;
      incomplete ← (if drive : bool then c ← rd b 2; Ok (negb (c =? bslash)) else Ok false);
      b ← (if incomplete : bool then b ← wr b 2 bslash; wr b 3 0 else Ok b);
      d ← wcslen b 0;
      Ok (CanonState (S r) d b (Some d))
    else Ok (CanonState (S r) (S r) b (Some r))
  end.

(** "If result path is empty, fill in \", "Extend the path if needed" and
    "Add a trailing backslash". *)
Definition canon_finish (b : list Z) (len : nat) (flags : Z) : outcome (list Z) :=
  c0 ← rd b 0;
  b ← (if c0 =? 0 then b ← wr b 0 bslash; wr b 1 0 else Ok b);
  length ← wcslen b 0;
  drive ← is_drive_spec b 0;
  b ← (if drive && ((MAX_PATH <? Z.of_nat length + 1) ||
                    flag flags PATHCCH_ENSURE_IS_EXTENDED_LENGTH_PATH) &&
          negb (flag flags PATHCCH_FORCE_ENABLE_LONG_NAME_PROCESS) then
         v ← rd_list b 0 (S length);
         b ← wr_list b 4 v;
         wr_list b 0 prefix_long
       else Ok b);
  if flag flags PATHCCH_ENSURE_TRAILING_SLASH then
    '(_, b) ← PathCchAddBackslash b (2 * Z.of_nat (len + 6)); Ok b
  else Ok b.

(** The combinations of flags that are refused. *)
Definition bad_flags (flags : Z) : bool :=
  (flag flags PATHCCH_FORCE_ENABLE_LONG_NAME_PROCESS &&
   flag flags PATHCCH_FORCE_DISABLE_LONG_NAME_PROCESS) ||
  (flag flags (Z.lor PATHCCH_FORCE_ENABLE_LONG_NAME_PROCESS
                     PATHCCH_FORCE_DISABLE_LONG_NAME_PROCESS) &&
   negb (flag flags PATHCCH_ALLOW_LONG_PATHS)) ||
  (flag flags PATHCCH_ENSURE_IS_EXTENDED_LENGTH_PATH && flag flags PATHCCH_ALLOW_LONG_PATHS).

Section Alloc.
(** [LocalAlloc] of the given number of [WCHAR]s, zeroed, succeeds; and
    [HeapAlloc] returns a block of that many, or [NULL]. *)
Context (LocalAlloc : Z -> bool) (HeapAlloc : Z -> option (list Z)).

(** [PathAllocCanonicalize( path_in, flags, &path_out )]: the result and
    [*path_out]. *)
Definition PathAllocCanonicalize (path_in : option (list Z)) (flags : Z)
    : outcome (Z * option (list Z)) :=
  match path_in with
  | None => Ok (E_INVALIDARG, None)
  | Some path =>
    if bad_flags flags then Ok (E_INVALIDARG, None)
    else
      len ← wcslen path 0;
      if ((MAX_PATH <? Z.of_nat len + 1) &&
          negb (flag flags (Z.lor PATHCCH_ALLOW_LONG_PATHS PATHCCH_ENSURE_IS_EXTENDED_LENGTH_PATH)))
         || (PATHCCH_MAX_CCH <? Z.of_nat len + 1)
      then Ok (E_FILENAME_EXCED_RANGE, None)
      else
        let flags := if flag flags PATHCCH_ENSURE_IS_EXTENDED_LENGTH_PATH
                     then Z.lor flags PATHCCH_DO_NOT_NORMALIZE_SEGMENTS else flags in
        if negb (LocalAlloc (Z.of_nat (len + 6))) then Ok (E_OUTOFMEMORY, None)
        else
          st ← canon_init path len;
          st ← canon_loop (S len) path st;
          b ← wr (buf st) (dst st) 0;
          b ← (if flag flags PATHCCH_DO_NOT_NORMALIZE_SEGMENTS then Ok b
               else strip_dots b (dst st));
          b ← canon_finish b len flags;
          Ok (S_OK, Some b)
  end.

(** [lstrcpyW( b + dst, v )] from another array. *)
Definition lstrcpyW (b : list Z) (dst : nat) (v : list Z) (off : nat) : outcome (list Z) :=
  n ← wcslen v off;
  s ← rd_list v off (S n);
  wr_list b dst s.

(** [lstrcatW( b, v + off )] *)
Definition lstrcatW (b : list Z) (v : list Z) (off : nat) : outcome (list Z) :=
  n ← wcslen b 0;
  lstrcpyW b n v off.

(** The concatenation in [PathAllocCombine]: [combined_path] of
    [combined_length] characters, with [path2] appended at its end. *)
Definition combine_paths (combined : list Z) (combined_length : Z) (path1 : list Z)
    (path2 : option (list Z)) (add_backslash : bool) : outcome (list Z) :=
  b ← lstrcpyW combined 0 path1 0;
  '(_, p) ← PathCchStripPrefix (Some b) combined_length;
  let b := default b p in
  b ← (if add_backslash then '(_, b) ← PathCchAddBackslash b combined_length; Ok b else Ok b);
  match path2 with
  | None => Ok b
  | Some path2 =>
    c0 ← rd path2 0;
    if c0 =? 0 then Ok b
    else
      single ← (if c0 =? bslash then c1 ← rd path2 1; Ok (negb (c1 =? bslash)) else Ok false);
      b ← (if single : bool
           then '(_, p) ← PathCchStripToRoot (Some b) combined_length; Ok (default b p)
           else Ok b);
      '(_, b) ← PathCchAddBackslash b combined_length;
      lstrcatW b path2 (if single : bool then 1 else 0)%nat
  end.

Definition PathAllocCombine (path1 path2 : option (list Z)) (flags : Z)
    : outcome (Z * option (list Z)) :=
  match path1, path2 with
  | None, None => Ok (E_INVALIDARG, None)
  | Some _, None => PathAllocCanonicalize path1 flags
  | None, Some _ => PathAllocCanonicalize path2 flags
  | Some p1, Some p2 =>
    drive2 ← is_drive_spec p2 0;
    full ← (if drive2 : bool then Ok true else two_slashes p2);
    '(p1, p2, add_backslash) ←
      (if full : bool then
         d ← is_drive_spec p2 0;
         a ← (if d : bool then c ← rd p2 2; Ok (c =? 0) else Ok false);
         a ← (if a : bool then Ok true
              else k ← is_prefixed_disk p2;
                   if k : bool then c ← rd p2 6; Ok (c =? 0) else Ok false);
         Ok (p2, None, a)
       else Ok (p1, Some p2, false));
    n2 ← match p2 with Some p2 => wcslen p2 0 | None => Ok 0%nat end;
    n1 ← wcslen p1 0;
    let combined_length := Z.of_nat (n1 + n2 + 2) in
    match HeapAlloc combined_length with
    | None => Ok (E_OUTOFMEMORY, None)
    | Some combined =>
      b ← combine_paths combined combined_length p1 p2 add_backslash;
      PathAllocCanonicalize (Some b) flags
    end
  end.

(** [PathCchCanonicalizeEx( out, size, in, flags )]: the result and [out]. *)
Definition PathCchCanonicalizeEx (out : list Z) (size : Z) (path : option (list Z)) (flags : Z)
    : outcome (Z * list Z) :=
  if size =? 0 then Ok (E_INVALIDARG, out)
  else
    '(hr, p) ← PathAllocCanonicalize path flags;
    match p, path with
    | Some buffer, Some path =>
      length ← wcslen buffer 0;
      if size <? Z.of_nat length + 1 then
        rooted ← (c0 ← rd path 0;
                  if c0 =? bslash then Ok true
                  else drive ← is_drive_spec path 0;
                       if drive : bool then c ← rd path 2; Ok (c =? bslash) else Ok false);
        if (MAX_PATH - 4 <? Z.of_nat length) && negb rooted
        then Ok (E_FILENAME_EXCED_RANGE, out)
        else Ok (STRSAFE_E_INSUFFICIENT_BUFFER, out)
      else
        v ← rd_list buffer 0 (S length);
        out ← wr_list out 0 v;
        drive ← is_drive_spec out 0;
        bare ← (if drive : bool then c ← rd out 2; Ok ((c =? 0) && (3 <? size)) else Ok false);
        if bare : bool
        then out ← wr out 2 bslash; out ← wr out 3 0; Ok (hr, out)
        else Ok (hr, out)
    | _, _ => Ok (hr, out)
    end.

Definition PathCchCanonicalize (out : list Z) (size : Z) (path : list Z) : outcome (Z * list Z) :=
  length ← wcslen path 0;
  long ← (if MAX_PATH - 4 <? Z.of_nat length then
            drive ← is_drive_spec path 0;
            rooted ← (if drive : bool then c ← rd path 2; Ok (c =? bslash) else Ok false);
            Ok (negb rooted)
          else Ok false);
  if long : bool then Ok (E_FILENAME_EXCED_RANGE, out)
  else PathCchCanonicalizeEx out size (Some path) PATHCCH_NONE.

Definition PathCchCombineEx (out : option (list Z)) (size : Z) (path1 path2 : option (list Z))
    (flags : Z) : outcome (Z * option (list Z)) :=
  match out with
  | None => Ok (E_INVALIDARG, None)
  | Some out =>
    if bad_size size then Ok (E_INVALIDARG, Some out)
    else
      '(hr, p) ← PathAllocCombine path1 path2 flags;
      match p with
      | None => out ← wr out 0 0; Ok (hr, Some out)
      | Some buffer =>
        length ← wcslen buffer 0;
        if size <? Z.of_nat length + 1
        then out ← wr out 0 0; Ok (STRSAFE_E_INSUFFICIENT_BUFFER, Some out)
        else
          v ← rd_list buffer 0 (S length);
          out ← wr_list out 0 v;
          Ok (S_OK, Some out)
      end
  end.

Definition PathCchCombine (out : option (list Z)) (size : Z) (path1 path2 : option (list Z)) :=
  PathCchCombineEx out size path1 path2 PATHCCH_NONE.

Definition PathCchAppendEx (path1 : option (list Z)) (size : Z) (path2 : option (list Z)) (flags : Z)
    : outcome (Z * option (list Z)) :=
  match path1 with
  | None => Ok (E_INVALIDARG, None)
  | Some p1 =>
    if size =? 0 then Ok (E_INVALIDARG, path1)
    else match HeapAlloc size with
    | None => Ok (E_OUTOFMEMORY, path1)
    | Some result =>
      path2 ← match path2 with
              | None => Ok None
              | Some p2 =>
                c0 ← rd p2 0;
                single ← (if c0 =? bslash then c1 ← rd p2 1; Ok (negb (c1 =? bslash)) else Ok false);
                Ok (Some (if single : bool then drop 1 p2 else p2))
              end;
      '(hr, r) ← PathCchCombineEx (Some result) size path1 path2 flags;
      if FAILED hr then Ok (hr, path1)
      else
        v ← rd_list (default result r) 0 (Z.to_nat size);
        p1 ← wr_list p1 0 v;
        Ok (hr, Some p1)
    end
  end.

Definition PathCchAppend (path1 : option (list Z)) (size : Z) (path2 : option (list Z)) :=
  PathCchAppendEx path1 size path2 PATHCCH_NONE.
End Alloc.

End PathCch.
