(* ===== verification/PathCchSpec.v ===== *)
(** * Properties of the PathCch functions

    A path argument is an array [s ++ 0 :: rest] with no null character in
    [s]: the string [s], its terminator, and whatever follows in memory. *)
From S2P Require Import Prelude PathCch.
Import PathCch.

(** ** Reading a terminated string *)

Definition nonul (s : list Z) : Prop := Forall (fun c => c <> 0) s.

Ltac nonul_tac := unfold nonul; apply (bool_decide_unpack _); vm_compute; exact I.

Lemma wcslen_list_str s rest : nonul s -> wcslen_list (s ++ 0 :: rest) = Ok (length s).
Proof.
  induction s as [|c s IH]; intros Hs; [done|]. apply Forall_cons in Hs as [Hc Hs].
  simpl. by rewrite (proj2 (Z.eqb_neq _ _)), IH.
Qed.

Section Str.
Context (s rest : list Z) (Hs : nonul s).
Let a := s ++ 0 :: rest.

Lemma rd_in i : (i < length s)%nat -> exists c, rd a i = Ok c /\ s !! i = Some c /\ c <> 0.
Proof.
  intros Hi. destruct (lookup_lt_is_Some_2 s i Hi) as [c Hc]. exists c. split_and!.
  - unfold a. rewrite rd_app_l by done. by apply rd_Ok.
  - done.
  - exact (Forall_lookup_1 _ _ _ _ Hs Hc).
Qed.

Lemma rd_end : rd a (length s) = Ok 0.
Proof. by apply rd_middle. Qed.

(** A position of the string or its terminator can be read; what is not the
    terminator is inside the string. *)
Lemma rd_str i : (i <= length s)%nat ->
  exists c, rd a i = Ok c /\ (c <> 0 -> (i < length s)%nat) /\ ((i < length s)%nat -> c <> 0).
Proof.
  intros Hi. destruct (Nat.eq_dec i (length s)) as [->|Hne].
  - exists 0. rewrite rd_end. split_and!; [done|done|lia].
  - destruct (rd_in i) as (c & Hc & _ & H0); [lia|]. exists c. split_and!; [done|lia|done].
Qed.

Lemma wcslen_off i : (i <= length s)%nat -> wcslen a i = Ok (length s - i)%nat.
Proof.
  intros Hi. unfold a, wcslen. rewrite drop_app_le by done.
  rewrite wcslen_list_str by (by apply Forall_drop). by rewrite length_drop.
Qed.

Lemma wcslen_str : wcslen a 0 = Ok (length s).
Proof. rewrite wcslen_off by lia. by rewrite Nat.sub_0_r. Qed.

(** A comparison with a literal stops inside the string. *)
Lemma starts_nocase_str lit : nonul (map lower lit) -> forall i, (i <= length s)%nat ->
  exists r, starts_nocase a i lit = Ok r /\ (r = true -> (i + length lit <= length s)%nat).
Proof.
  induction lit as [|l lit IH]; intros Hl i Hi; simpl.
  - exists true. split; [done|lia].
  - simpl in Hl. apply Forall_cons in Hl as [Hl0 Hl].
    destruct (rd_str i Hi) as (c & -> & Hc & _). rewrite bind_ok. zcase; [|by exists false].
    assert (c <> 0) by (intros ->; done).
    destruct (IH Hl (S i)) as (r & -> & Hr); [specialize (Hc H); lia|]. exists r. split; [done|]. intros Hx. specialize (Hr Hx). simpl. lia.
Qed.

Lemma starts_str lit : nonul lit -> forall i, (i <= length s)%nat ->
  exists r, starts a i lit = Ok r /\ (r = true -> (i + length lit <= length s)%nat).
Proof.
  induction lit as [|l lit IH]; intros Hl i Hi; simpl.
  - exists true. split; [done|lia].
  - apply Forall_cons in Hl as [Hl0 Hl].
    destruct (rd_str i Hi) as (c & -> & Hc & _). rewrite bind_ok. zcase; [|by exists false]. subst c.
    destruct (IH Hl (S i)) as (r & -> & Hr); [specialize (Hc Hl0); lia|]. exists r. split; [done|]. intros Hx. specialize (Hr Hx). simpl. lia.
Qed.

Lemma is_drive_spec_str i : (i <= length s)%nat ->
  exists r, is_drive_spec a i = Ok r /\ (r = true -> (i + 2 <= length s)%nat).
Proof.
  intros Hi. unfold is_drive_spec. destruct (rd_str i Hi) as (c & -> & Hc & _). rewrite bind_ok.
  destruct (isalpha c) eqn:E; [|by exists false].
  assert (c <> 0) as H0 by (intros ->; done). specialize (Hc H0).
  destruct (rd_str (i + 1)) as (c1 & -> & Hc1 & _); [lia|]. rewrite bind_ok.
  eexists. split; [done|]. intros H. unfold colon in H. lia.
Qed.

Lemma is_prefixed_unc_str :
  exists r, is_prefixed_unc a = Ok r /\ (r = true -> (8 <= length s)%nat).
Proof. apply starts_nocase_str; [nonul_tac|lia]. Qed.

Lemma is_prefixed_disk_str :
  exists r, is_prefixed_disk a = Ok r /\ (r = true -> (6 <= length s)%nat).
Proof.
  unfold is_prefixed_disk.
  destruct (starts_str prefix_long) with (i := 0%nat) as (r & -> & Hr); [nonul_tac|lia|].
  rewrite bind_ok. destruct r; [|by exists false]. simpl in Hr. specialize (Hr eq_refl).
  destruct (is_drive_spec_str 4) as (r & -> & Hr'); [lia|]. exists r. split; [done|]. intros H.
  specialize (Hr' H). lia.
Qed.

Lemma guid_loop_str n : forall i, (i + n = 38)%nat -> (10 + i <= length s)%nat ->
  exists r, guid_loop a i n = Ok r /\ (r = true -> (10 + i + n <= length s)%nat).
Proof.
  induction n as [|n IH]; intros i Hn Hi; simpl.
  - exists true. split; [done|lia].
  - destruct (rd_str (10 + i) Hi) as (c & Ec & Hc & _). simpl in Ec. rewrite Ec, bind_ok.
    destruct (guid_char i c) eqn:E; [|by exists false].
    assert (c <> 0) as H0.
    { intros ->. unfold guid_char in E. repeat (destruct (_ =? _)%nat in E; simpl in E; try done). }
    specialize (Hc H0). destruct (IH (S i)) as (r & -> & Hr); [lia|lia|]. exists r. split; [done|]. intros Hx. specialize (Hr Hx). simpl. lia.
Qed.

Lemma is_prefixed_volume_str :
  exists r, is_prefixed_volume a = Ok r /\ (r = true -> (48 <= length s)%nat).
Proof.
  unfold is_prefixed_volume.
  destruct (starts_nocase_str prefix_volume) with (i := 0%nat) as (r & -> & Hr);
    [nonul_tac|lia|].
  rewrite bind_ok. destruct r; [|by exists false]. simpl in Hr. specialize (Hr eq_refl).
  destruct (guid_loop_str 38 0) as (r & -> & Hr'); [lia|lia|]. exists r. split; [done|]. intros H.
  specialize (Hr' H). lia.
Qed.

Lemma two_slashes_str :
  exists r, two_slashes a = Ok r /\ (r = true -> (2 <= length s)%nat).
Proof.
  unfold two_slashes, bslash. destruct (rd_str 0) as (c & -> & Hc & _); [lia|]. rewrite bind_ok.
  zcase; [|by exists false].
  destruct (rd_str 1) as (c1 & -> & Hc1 & _); [specialize (Hc ltac:(lia)); lia|]. rewrite bind_ok.
  eexists. split; [done|lia].
Qed.

Lemma is_unc_plain_str :
  exists r, is_unc_plain a = Ok r /\ (r = true -> (2 <= length s)%nat).
Proof.
  unfold is_unc_plain. destruct two_slashes_str as (r & -> & Hr). rewrite bind_ok.
  destruct r; [|by exists false]. destruct (rd_str 2) as (c & -> & _); [by apply Hr|].
  rewrite bind_ok. eexists. split; [done|]. intros _. by apply Hr.
Qed.

(** The root, when there is one, ends inside the string. *)
Lemma get_root_end_str :
  exists r, get_root_end a = Ok r /\ forall p, r = Some p -> (p < length s)%nat.
Proof.
  unfold get_root_end.
  destruct is_prefixed_volume_str as (v & -> & Hv). rewrite bind_ok. destruct v.
  { specialize (Hv eq_refl). destruct (rd_str 48) as (c & -> & Hc & _); [done|]. rewrite bind_ok.
    eexists. split; [done|]. intros p [= <-]. unfold bslash in *. zcase; [subst c; lia|lia]. }
  destruct is_prefixed_unc_str as (u & -> & Hu). rewrite bind_ok. destruct u.
  { eexists. split; [done|]. intros p [= <-]. specialize (Hu eq_refl). lia. }
  destruct is_prefixed_disk_str as (d & -> & Hd). rewrite bind_ok. destruct d.
  { specialize (Hd eq_refl). destruct (rd_str 6) as (c & -> & Hc & _); [done|]. rewrite bind_ok.
    eexists. split; [done|]. intros p [= <-]. unfold bslash in *. zcase; [subst c; lia|lia]. }
  destruct two_slashes_str as (t & -> & Ht). rewrite bind_ok. destruct t.
  { eexists. split; [done|]. intros p [= <-]. specialize (Ht eq_refl). lia. }
  destruct (rd_str 0) as (c0 & -> & Hc0 & _); [lia|]. rewrite bind_ok. unfold bslash in *. zcase.
  { eexists. split; [done|]. intros p [= <-]. subst c0. lia. }
  destruct (is_drive_spec_str 0) as (r & -> & Hr); [lia|]. rewrite bind_ok.
  destruct r; [|by exists None]. specialize (Hr eq_refl).
  destruct (rd_str 2) as (c & -> & Hc & _); [lia|]. rewrite bind_ok.
  eexists. split; [done|]. intros p [= <-]. zcase; [subst c; lia|lia].
Qed.

(** The next segment starts inside the string or at its terminator. *)
Lemma next_segment_str fuel : forall i, (i <= length s)%nat -> (length s - i < fuel)%nat ->
  exists b j, next_segment_loop fuel a i = Ok (b, j) /\ (i <= j <= length s)%nat /\
    (b = true -> (i < j)%nat /\ s !! (j - 1)%nat = Some bslash).
Proof.
  induction fuel as [|fuel IH]; intros i Hi Hf; [lia|]. cbn [next_segment_loop].
  destruct (rd_str i Hi) as (c & Ec & Hc & Hc'). rewrite Ec, bind_ok. zcase.
  - exists false, i. split_and!; [done|lia|lia|done].
  - specialize (Hc ltac:(done)). zcase.
    + exists true, (S i). split_and!; [done|lia|lia|]. intros _. split; [lia|].
      replace (S i - 1)%nat with i by lia. subst c. unfold a in Ec. rewrite rd_app_l in Ec by done.
      by apply rd_Ok.
    + destruct (IH (S i)) as (b & j & -> & Hj & Hb); [lia|lia|]. exists b, j.
      split_and!; [done|lia|lia|]. intros H. destruct (Hb H). split; [lia|done].
Qed.

Lemma get_next_segment_str i : (i <= length s)%nat ->
  exists b j, get_next_segment a i = Ok (b, j) /\ (i <= j <= length s)%nat /\
    (b = true -> (i < j)%nat /\ s !! (j - 1)%nat = Some bslash).
Proof.
  intros Hi. apply next_segment_str; [done|]. unfold a. rewrite length_app. simpl. lia.
Qed.
End Str.

(** ** Strings in a buffer *)

(** An array with a terminator holds a string. *)
Lemma terminated_split b z :
  b !! z = Some 0 -> exists t rest, b = t ++ 0 :: rest /\ nonul t /\ (length t <= z)%nat.
Proof.
  revert z. induction b as [|c b IH]; intros z Hz; [done|].
  destruct (Z.eq_dec c 0) as [->|Hc].
  - exists [], b. split_and!; [done|by apply Forall_nil_2|simpl; lia].
  - destruct z as [|z]; [by injection Hz as ->|].
    destruct (IH z Hz) as (t & rest & -> & Ht & Hl). exists (c :: t), rest.
    split_and!; [done|by apply Forall_cons_2|simpl; lia].
Qed.

Lemma str_unique t rest t' rest' :
  nonul t -> nonul t' -> t ++ 0 :: rest = t' ++ 0 :: rest' -> t = t' /\ rest = rest'.
Proof.
  revert t'. induction t as [|c t IH]; intros [|c' t'] Ht Ht' E; simpl in E.
  - by injection E.
  - injection E as <- _. by apply Forall_cons in Ht' as [? _].
  - injection E as -> _. by apply Forall_cons in Ht as [? _].
  - injection E as -> E. apply Forall_cons in Ht as [_ Ht]. apply Forall_cons in Ht' as [_ Ht'].
    destruct (IH t' Ht Ht' E) as [-> ->]. done.
Qed.

(** ** PathCchAddBackslash and PathCchStripPrefix *)

(** The string needs a backslash. *)
Definition needs_slash (s : list Z) : bool :=
  match last s with Some c => negb (c =? bslash) | None => false end.

Lemma add_backslash_ok s rest size :
  nonul s -> 0 <= size ->
  (needs_slash s = true -> Z.of_nat (length s) < size - 1 -> rest <> []) ->
  PathCchAddBackslashEx (s ++ 0 :: rest) size =
  let n := Z.of_nat (length s) in
  if (if needs_slash s && negb (size =? 0) then size - 1 else size) <=? n
  then Ok (STRSAFE_E_INSUFFICIENT_BUFFER, s ++ 0 :: rest, None, 0)
  else if needs_slash s
  then Ok (S_OK, (s ++ [bslash]) ++ 0 :: drop 1 rest, Some (length s + 1)%nat, size - n - 1)
  else Ok (S_FALSE, s ++ 0 :: rest, Some (length s), size - n).
Proof.
  intros Hs Hsize Hroom. unfold PathCchAddBackslashEx. rewrite wcslen_str, bind_ok by done. cbv zeta.
  assert ((if negb (size =? 0) && negb (length s =? 0)%nat
           then c ← rd (s ++ 0 :: rest) (length s - 1); Ok (negb (c =? bslash)) else Ok false)
          = Ok (needs_slash s && negb (size =? 0))) as ->.
  { destruct (Z.eqb_spec size 0); [by rewrite andb_false_r|]. cbn [negb andb]. rewrite andb_true_r.
    unfold needs_slash. destruct s as [|c s _] using rev_ind; [done|].
    rewrite last_snoc, length_app. cbn [length]. rewrite (proj2 (Nat.eqb_neq _ _)) by lia. cbn [negb].
    rewrite <- app_assoc. cbn [app]. rewrite rd_middle by lia. by rewrite bind_ok. }
  rewrite bind_ok. destruct (needs_slash s) eqn:En; cbn [andb negb] in *; [|by zcase].
  destruct (Z.eqb_spec size 0); cbn [negb]; [by rewrite (proj2 (Z.leb_le _ _)) by lia|].
  zcase; [done|].
  destruct rest as [|x rest]; [by destruct Hroom; [done|lia|]|].
  rewrite wr_app by done. rewrite bind_ok.
  change (bslash :: x :: rest) with ([bslash] ++ x :: rest). rewrite app_assoc.
  rewrite wr_app by (rewrite length_app; simpl; lia). rewrite bind_ok. cbn [drop].
  replace (length s + 1)%nat with (S (length s)) by lia.
  by replace (size - Z.of_nat (S (length s))) with (size - Z.of_nat (length s) - 1) by lia.
Qed.

Lemma wr_list_within s i v rest :
  (i + length v <= length s)%nat ->
  wr_list (s ++ rest) i v = Ok ((take i s ++ v ++ drop (i + length v) s) ++ rest).
Proof.
  intros Hi. rewrite wr_list_Ok by (rewrite length_app; lia).
  rewrite take_app_le, drop_app_le by lia. by rewrite <- !app_assoc.
Qed.

Lemma lstrcpyW_within_ok s rest d k :
  nonul s -> (d <= k <= length s)%nat ->
  exists rest', lstrcpyW_within (s ++ 0 :: rest) d k = Ok ((take d s ++ drop k s) ++ 0 :: rest') /\
    length ((take d s ++ drop k s) ++ 0 :: rest') = length (s ++ 0 :: rest).
Proof.
  intros Hs Hk. unfold lstrcpyW_within. rewrite wcslen_off, bind_ok by (done || lia).
  rewrite rd_list_Ok by (rewrite length_app; simpl; lia). rewrite bind_ok.
  assert (take (S (length s - k)) (drop k (s ++ 0 :: rest)) = drop k s ++ [0]) as ->.
  { rewrite drop_app_le by lia. rewrite take_app_ge by (rewrite length_drop; lia).
    rewrite length_drop. by replace (S (length s - k) - (length s - k))%nat with 1%nat by lia. }
  rewrite wr_list_Ok by (rewrite !length_app, length_drop; simpl; lia).
  rewrite take_app_le by lia. eexists. split.
  - rewrite <- !app_assoc. cbn [app]. done.
  - rewrite !length_app, length_take. cbn [length]. rewrite !length_drop, !length_app.
    cbn [length]. lia.
Qed.

(** [PathCchStripPrefix] on a string: what it becomes. *)
Lemma strip_prefix_ok s rest size :
  nonul s ->
  let a := s ++ 0 :: rest in
  exists hr b, PathCchStripPrefix (Some a) size = Ok (hr, Some b) /\
    (hr <> S_OK -> b = a) /\
    (hr = S_OK -> exists k d rest', (d = 0 /\ k = 4 \/ d = 2 /\ k = 8)%nat /\
       (k + 2 <= length s + d)%nat /\ b = (take d s ++ drop k s) ++ 0 :: rest' /\
       length b = length a /\
       (d = 2%nat -> is_prefixed_unc a = Ok true) /\ (d = 0%nat -> is_prefixed_disk a = Ok true)).
Proof.
  intros Hs a. unfold PathCchStripPrefix.
  destruct (bad_size size); [by exists E_INVALIDARG, a|].
  destruct (is_prefixed_unc_str s rest Hs) as (u & Eu & Hu). fold a in Eu. rewrite Eu, bind_ok.
  destruct u.
  - specialize (Hu eq_refl). unfold a. rewrite wcslen_off, bind_ok by (done || lia).
    destruct (size <? _); [by exists E_INVALIDARG, a|].
    destruct (lstrcpyW_within_ok s rest 2 8 Hs) as (rest' & -> & Hl); [lia|].
    rewrite bind_ok. eexists _, _. split; [done|]. split; [by intros []|]. intros _.
    exists 8%nat, 2%nat, rest'. split_and!; [by right|lia|done|done|done|done].
  - destruct (is_prefixed_disk_str s rest Hs) as (d & Ed & Hd). fold a in Ed. rewrite Ed, bind_ok.
    destruct d; [|by exists S_FALSE, a].
    specialize (Hd eq_refl). unfold a. rewrite wcslen_off, bind_ok by (done || lia).
    destruct (size <? _); [by exists E_INVALIDARG, a|].
    destruct (lstrcpyW_within_ok s rest 0 4 Hs) as (rest' & -> & Hl); [lia|].
    rewrite bind_ok. eexists _, _. split; [done|]. split; [by intros []|]. intros _.
    exists 4%nat, 0%nat, rest'. split_and!; [by left|lia|done|done|done|done].
Qed.

(** ** PathAllocCanonicalize stays in its buffer *)
Section Canonicalize.
Context (s rest : list Z) (Hs : nonul s).
Let path := s ++ 0 :: rest.
Let len := length s.

(** The output never overtakes the input, and a colon at the second place of
    the buffer is part of the output. *)
Record canon_ok (st : canon_state) : Prop := {
  co_src : (src st <= len)%nat;
  co_dst : (dst st <= src st)%nat;
  co_buf : length (buf st) = (len + 6)%nat;
  co_colon : (dst st <= 1)%nat -> buf st !! 1%nat <> Some colon;
}.

(** A step that moves on. *)
Definition advances (st : canon_state) (o : outcome canon_state) : Prop :=
  exists st', o = Ok st' /\ canon_ok st' /\ (src st < src st')%nat.

Lemma rd_buf st i : canon_ok st -> (i < len + 6)%nat -> exists c, rd (buf st) i = Ok c /\ buf st !! i = Some c.
Proof.
  intros H Hi. destruct (rd_lt (buf st) i) as [c Hc]; [rewrite (co_buf _ H); lia|].
  exists c. split; [done|by apply rd_Ok].
Qed.

Lemma copy_char_ok st : canon_ok st -> (src st < len)%nat -> advances st (copy_char path st).
Proof.
  intros H Hlt. unfold copy_char. destruct (rd_str s rest Hs (src st)) as (c & Ec & _); [fold len; lia|].
  fold path in Ec. rewrite Ec, bind_ok. pose proof (co_dst _ H). pose proof (co_buf _ H).
  rewrite wr_lt, bind_ok by lia. eexists. split; [done|]. split; [|simpl; lia].
  split; simpl; [lia|lia|by rewrite length_insert|].
  intros Hd. rewrite list_lookup_insert_ne by lia. apply (co_colon _ H). lia.
Qed.

Lemma prev_is_ok st c : canon_ok st ->
  exists r, prev_is (buf st) (dst st) c = Ok r /\
    (r = true -> (0 < dst st)%nat /\ buf st !! (dst st - 1)%nat = Some c).
Proof.
  intros H. unfold prev_is. destruct (Nat.eqb_spec (dst st) 0); [by exists false|].
  destruct (rd_buf st (dst st - 1) H) as (x & -> & Hx); [pose proof (co_dst _ H); pose proof (co_src _ H); lia|].
  rewrite bind_ok. eexists. split; [done|]. intros ->%Z.eqb_eq. split; [lia|done].
Qed.

Lemma prev_is_not_ok st c : canon_ok st -> exists r, prev_is_not (buf st) (dst st) c = Ok r.
Proof.
  intros H. unfold prev_is_not. destruct (Nat.eqb_spec (dst st) 0); [by exists false|].
  destruct (rd_buf st (dst st - 1) H) as (x & -> & Hx); [pose proof (co_dst _ H); pose proof (co_src _ H); lia|].
  rewrite bind_ok. by eexists.
Qed.

Lemma complete_drive_ok st0 st :
  canon_ok st -> (src st0 < src st)%nat -> (dst st < src st)%nat -> advances st0 (complete_drive path st).
Proof.
  intros H Hlt Hd. unfold complete_drive, is_drive_spec.
  destruct (rd_buf st 0 H) as (c0 & -> & H0); [lia|]. rewrite bind_ok.
  assert (advances st0 (Ok st)) as Hsame by (by exists st).
  destruct (isalpha c0); rewrite ?bind_ok; [|done].
  destruct (rd_buf st (0 + 1) H) as (c1 & -> & H1); [lia|]. rewrite bind_ok, bind_ok.
  destruct (Z.eqb_spec c1 colon) as [->|]; rewrite ?bind_ok; [|done].
  destruct (rd_buf st 2 H) as (c2 & -> & H2); [lia|]. rewrite bind_ok, bind_ok.
  destruct (negb (c2 =? bslash)); [|done].
  assert (1 < dst st)%nat as Hd1.
  { destruct (Nat.le_gt_cases (dst st) 1) as [Hle|]; [|lia]. by destruct (co_colon _ H Hle). }
  pose proof (co_buf _ H) as Hb. pose proof (co_src _ H) as Hsrc.
  rewrite wr_lt, bind_ok by lia.
  destruct (rd_str s rest Hs (src st)) as (c & Ec & Hc & _); [done|]. fold path in Ec. rewrite Ec, bind_ok.
  eexists. split; [done|]. unfold bslash in *.
  destruct (Z.eqb_spec c 92) as [->|]; (split; [split|]); simpl;
    try (rewrite length_insert); try lia; specialize (Hc ltac:(done)); unfold len; lia.
Qed.

Lemma remove_segment_ok d : forall b, (d <= length b)%nat ->
  exists b' d', remove_segment b d = Ok (b', d') /\ (d' <= d)%nat /\ length b' = length b /\
    (forall i, (d' <= i < d)%nat -> b' !! i = Some 0) /\
    (forall i, (i < d' \/ d <= i)%nat -> b' !! i = b !! i).
Proof.
  induction d as [|d IH]; intros b Hd; simpl.
  - exists b, 0%nat. split_and!; [done|lia|done|lia|done].
  - destruct (rd_lt b d) as [c Ec]; [lia|]. rewrite Ec, bind_ok, wr_lt, bind_ok by lia. zcase.
    + exists (<[d:=0]> b), d. split_and!; [done|lia|by rewrite length_insert| |].
      * intros i Hi. replace i with d by lia. apply list_lookup_insert_eq. lia.
      * intros i Hi. apply list_lookup_insert_ne. lia.
    + destruct (IH (<[d:=0]> b)) as (b' & d' & E & Hd' & Hl & Hz & Hk); [rewrite length_insert; lia|].
      rewrite length_insert in Hl. exists b', d'. split_and!; [done|lia|done| |].
      * intros i Hi. destruct (Nat.eq_dec i d) as [->|]; [|apply Hz; lia].
        rewrite Hk by lia. apply list_lookup_insert_eq. lia.
      * intros i Hi. rewrite Hk by lia. apply list_lookup_insert_ne. lia.
Qed.

(** The position after a character that is not the terminator. *)
Lemma rd_path i c : rd path i = Ok c -> (i <= len)%nat -> c <> 0 -> (i < len)%nat.
Proof.
  intros E Hi Hc. destruct (rd_str s rest Hs i Hi) as (c' & E' & H & _). fold path in E'.
  rewrite E in E'. injection E' as <-. by apply H.
Qed.

Lemma canon_dotdot_ok st :
  canon_ok st -> (S (src st) < len)%nat -> advances st (canon_dotdot path st).
Proof.
  intros H Hlt. unfold canon_dotdot. pose proof (co_dst _ H). pose proof (co_buf _ H).
  destruct (prev_is_ok st star H) as (k & -> & _). rewrite bind_ok.
  destruct k; [apply copy_char_ok; [done|lia]|].
  destruct (rd_str s rest Hs (src st + 2)) as (c2 & Ec2 & Hc2 & _); [fold len; lia|].
  fold path in Ec2. rewrite Ec2, bind_ok.
  destruct (prev_is_not_ok st bslash H) as (o & ->). rewrite bind_ok.
  destruct (negb (c2 =? bslash) && negb (c2 =? 0) || o).
  { destruct (copy_char_ok st H) as (st1 & E1 & Hst1 & Hs1); [lia|]. pose proof E1 as E1'.
    rewrite E1, bind_ok. unfold copy_char in E1'. inv_bind. subst st1. simpl in *.
    destruct (copy_char_ok _ Hst1) as (st2 & -> & Hst2 & Hs2); [simpl; lia|]. exists st2.
    split_and!; [done|done|simpl in *; lia]. }
  destruct (prev_is_ok st bslash H) as (b & -> & Hb). rewrite bind_ok.
  destruct (b && after_root (root_end st) (dst st)) eqn:Eb.
  - apply andb_prop in Eb as [-> _]. destruct (Hb eq_refl) as [Hpos Hlast].
    rewrite wr_lt, bind_ok by lia.
    destruct (remove_segment_ok (dst st - 1) (<[(dst st - 1)%nat:=0]> (buf st)))
      as (b' & d' & -> & Hd' & Hl & Hz & Hk); [rewrite length_insert; lia|].
    rewrite !bind_ok. cbn [src dst buf root_end]. rewrite length_insert in Hl.
    apply complete_drive_ok; [|simpl; lia|simpl; lia]. split; simpl; [lia|lia|lia|].
    intros Hd1. destruct (Nat.lt_ge_cases 1 (dst st)) as [Hgt|Hle].
    + destruct (Nat.eq_dec (dst st) 2) as [E2|].
      * rewrite Hk by lia. rewrite E2. simpl. by rewrite list_lookup_insert_eq by lia.
      * by rewrite Hz by lia.
    + rewrite Hk by lia. rewrite list_lookup_insert_ne by lia. by apply (co_colon _ H).
  - rewrite bind_ok. cbn [src dst buf root_end].
    destruct (Z.eqb_spec c2 bslash) as [->|]; (apply complete_drive_ok; [|simpl; lia|simpl; lia]);
      split; simpl; try lia; try (by apply (co_colon _ H)); try done.
    specialize (Hc2 ltac:(done)). fold len in Hc2. lia.
Qed.

Lemma canon_dot_ok st c1 :
  canon_ok st -> (src st < len)%nat -> rd path (S (src st)) = Ok c1 ->
  advances st (canon_dot path c1 st).
Proof.
  intros H Hlt Ec1. unfold canon_dot. pose proof (co_dst _ H). pose proof (co_buf _ H).
  destruct (prev_is_not_ok st bslash H) as (o & ->). rewrite bind_ok.
  destruct (negb (c1 =? bslash) && negb (c1 =? 0) || o); [by apply copy_char_ok|].
  destruct (prev_is_ok st bslash H) as (b & -> & Hb). rewrite bind_ok. cbv zeta.
  destruct (b && after_root (root_end st) (dst st)) eqn:Eb; cbn [src dst buf root_end].
  - apply andb_prop in Eb as [-> _]. destruct (Hb eq_refl) as [Hpos Hlast].
    apply complete_drive_ok; [|simpl; lia|simpl; lia]. split; simpl; [lia|lia|lia|].
    intros Hd1. destruct (Nat.eq_dec (dst st) 2) as [E2|]; [|apply (co_colon _ H); lia].
    rewrite E2 in Hlast. simpl in Hlast. by rewrite Hlast.
  - destruct (Z.eqb_spec c1 bslash) as [->|]; (apply complete_drive_ok; [|simpl; lia|simpl; lia]);
      split; simpl; try lia; try (by apply (co_colon _ H)).
    apply rd_path in Ec1; [lia|lia|done].
Qed.

Lemma canon_loop_ok : forall fuel st,
  canon_ok st -> (len - src st < fuel)%nat ->
  exists st', canon_loop fuel path st = Ok st' /\ canon_ok st'.
Proof.
  induction fuel as [|fuel IH]; intros st H Hf; [lia|]. cbn [canon_loop].
  destruct (rd_str s rest Hs (src st)) as (c & Ec & Hc & _); [apply H|]. fold path in Ec.
  rewrite Ec, bind_ok. zcase; [by exists st|]. specialize (Hc ltac:(done)). fold len in Hc.
  assert (advances st (canon_step path c st)) as (st' & -> & H' & Hadv).
  { unfold canon_step. zcase; [|by apply copy_char_ok].
    destruct (rd_str s rest Hs (S (src st))) as (c1 & Ec1 & Hc1 & _); [fold len; lia|].
    fold path in Ec1. rewrite Ec1, bind_ok. zcase; [|by apply canon_dot_ok].
    apply canon_dotdot_ok; [done|]. apply Hc1. subst c1. done. }
  rewrite bind_ok. apply IH; [done|lia].
Qed.

(** After the prefix of the copied root has been stripped. *)
Lemma init_stripped t rest' r :
  nonul t -> (2 <= length t)%nat -> (length t + 3 < S r)%nat -> (r < len)%nat ->
  length (t ++ 0 :: rest') = (len + 6)%nat ->
  exists st,
    (let b := t ++ 0 :: rest' in
     drive ← is_drive_spec b 0;
     incomplete ← (if drive : bool then c ← rd b 2; Ok (negb (c =? bslash)) else Ok false);
     b ← (if incomplete : bool then b ← wr b 2 bslash; wr b 3 0 else Ok b);
     d ← wcslen b 0;
     Ok (CanonState (S r) d b (Some d))) = Ok st /\ canon_ok st.
Proof.
  intros Ht H2 Hr Hlen Hb. cbv zeta. set (b := t ++ 0 :: rest') in *.
  destruct (is_drive_spec_str t rest' Ht 0) as (d & Ed & _); [lia|]. fold b in Ed. rewrite Ed, bind_ok.
  destruct (rd_str t rest' Ht 2 H2) as (c2 & Ec2 & _). fold b in Ec2.
  assert ((if d then c ← rd b 2; Ok (negb (c =? bslash)) else Ok false)
          = Ok (d && negb (c2 =? bslash))) as -> by (destruct d; [by rewrite Ec2|done]).
  rewrite bind_ok. destruct (d && negb (c2 =? bslash)).
  - rewrite wr_lt, bind_ok, wr_lt, bind_ok by (rewrite ?length_insert; lia).
    set (b1 := <[3%nat:=0]> (<[2%nat:=bslash]> b)).
    assert (b1 = (take 2 t ++ [bslash]) ++ 0 :: drop 4 b) as E1.
    { subst b1 b. destruct t as [|x [|y t]]; [simpl in H2; lia|simpl in H2; lia|]. simpl.
      destruct t as [|z t]; simpl.
      - destruct rest' as [|z rest']; [simpl in Hb; lia|]. done.
      - destruct t as [|w t]; [done|]. done. }
    assert (nonul (take 2 t ++ [bslash]))
      by (apply Forall_app; split; [by apply Forall_take|by repeat constructor]).
    assert (length (take 2 t ++ [bslash]) = 3)%nat as L3 by (rewrite length_app, length_take; cbn [length]; lia).
    rewrite E1, wcslen_str, bind_ok, L3 by done. eexists. split; [done|].
    split; simpl; try lia. rewrite <- E1. subst b1. by rewrite !length_insert.
  - unfold b. rewrite bind_ok, wcslen_str, bind_ok by done. eexists. split; [done|].
    split; simpl; [lia|lia|done|lia].
Qed.

Lemma canon_init_ok : exists st, canon_init path len = Ok st /\ canon_ok st.
Proof.
  unfold canon_init. destruct (get_root_end_str s rest Hs) as (r & Er & Hr). fold path in Er.
  rewrite Er, bind_ok. destruct r as [r|].
  2: { eexists. split; [done|]. split; simpl; [lia|lia|by rewrite length_replicate|].
       intros _. rewrite lookup_replicate_2 by lia. done. }
  specialize (Hr r eq_refl). fold len in Hr.
  assert (take (S r) path = take (S r) s) as Et by (unfold path; apply take_app_le; fold len; lia).
  rewrite rd_list_Ok, drop_0, Et, bind_ok by (unfold path; rewrite length_app; simpl; fold len; lia).
  rewrite (wr_list_tail [] (replicate (len + 6) 0)) by
    (done || (rewrite length_take, length_replicate; fold len; lia)).
  rewrite bind_ok, drop_replicate, length_take. cbn [app].
  replace (len + 6 - Init.Nat.min (S r) (length s))%nat with (S (len + 4 - r)) by (fold len; lia).
  cbn [replicate]. set (t := take (S r) s). set (z := replicate (len + 4 - r) 0).
  assert (nonul t) as Ht by (by apply Forall_take).
  assert (length t = S r) as Lt by (subst t; rewrite length_take; fold len; lia).
  assert (length (t ++ 0 :: z) = (len + 6)%nat) as Lb
    by (rewrite length_app; simpl; subst z; rewrite length_replicate; lia).
  destruct (strip_prefix_ok t z (Z.of_nat (len + 6)) Ht) as (hr & b & -> & Hne & Hok). rewrite bind_ok.
  destruct (Z.eqb_spec hr S_OK) as [E|E].
  - destruct (Hok E) as (k & d & z' & Hkd & Hk & -> & Hlb & _ & _).
    apply init_stripped; [| |rewrite length_app, length_take, length_drop; lia|done|by rewrite Hlb].
    + apply Forall_app. split; [by apply Forall_take|by apply Forall_drop].
    + rewrite length_app, length_take, length_drop. lia.
  - rewrite (Hne E). eexists. split; [done|]. split; simpl; [lia|lia|done|].
    intros H1. assert (r = 0)%nat as -> by lia. rewrite lookup_app_r by lia. rewrite Lt. done.
Qed.

Lemma strip_dots_ok d : forall b, (d <= length b)%nat ->
  exists b', strip_dots b d = Ok b' /\ length b' = length b /\
    (forall i, (d <= i)%nat -> b' !! i = b !! i).
Proof.
  induction d as [|d IH]; intros b Hd; simpl; [by exists b|].
  destruct (rd_lt b d) as [c ->]; [lia|]. rewrite bind_ok.
  destruct (negb (c =? dot)); [by exists b|].
  assert (forall x, exists r, prev_is b d x = Ok r) as Hprev.
  { intros x. unfold prev_is. destruct (Nat.eqb_spec d 0); [by exists false|].
    destruct (rd_lt b (d - 1)) as [y ->]; [lia|]. rewrite bind_ok. by eexists. }
  destruct (Hprev star) as [r1 ->]. rewrite bind_ok. destruct r1; [by exists b|].
  destruct (Hprev colon) as [r2 ->]. rewrite bind_ok.
  assert (forall v, exists b', (b ← wr b d v; strip_dots b d) = Ok b' /\ length b' = length b /\
    (forall i, (S d <= i)%nat -> b' !! i = b !! i)) as Hw.
  { intros v. rewrite wr_lt, bind_ok by lia.
    destruct (IH (<[d:=v]> b)) as (b' & -> & Hl & Hk); [rewrite length_insert; lia|].
    exists b'. rewrite length_insert in Hl. split_and!; [done|done|].
    intros i Hi. rewrite Hk by lia. apply list_lookup_insert_ne. lia. }
  destruct (r2 && (d =? 2)%nat); apply Hw.
Qed.

(** A buffer that holds a non-empty string. *)
Definition holds (b : list Z) (t : list Z) : Prop :=
  nonul t /\ t <> [] /\ length b = (len + 6)%nat /\ exists rest', b = t ++ 0 :: rest'.

Lemma finish_slash b t flags :
  holds b t -> (length t <= len + 4)%nat ->
  exists b' t', (if flag flags PATHCCH_ENSURE_TRAILING_SLASH
                 then '(_, b) ← PathCchAddBackslash b (2 * Z.of_nat (len + 6)); Ok b else Ok b) = Ok b' /\
    holds b' t'.
Proof.
  intros (Ht & Hne & Hlen & rest' & ->) Hlt. rewrite length_app in Hlen. simpl in Hlen.
  destruct (flag flags PATHCCH_ENSURE_TRAILING_SLASH); [|].
  2: { eexists _, t. split; [done|]. split_and!; [done|done|rewrite length_app; simpl; lia|by eexists]. }
  unfold PathCchAddBackslash. rewrite add_backslash_ok; [|done|lia|].
  2: { intros _ _ ->. simpl in Hlen. lia. }
  cbv zeta. destruct (_ <=? _); rewrite ?bind_ok.
  { eexists _, t. split; [done|]. split_and!; [done|done|rewrite length_app; simpl; lia|by eexists]. }
  destruct (needs_slash t); rewrite !bind_ok.
  - eexists _, (t ++ [bslash]). split; [done|]. split_and!; [| | |by eexists].
    + apply Forall_app. split; [done|by repeat constructor].
    + by destruct t.
    + rewrite !length_app. cbn [length]. rewrite length_drop. lia.
  - eexists _, t. split; [done|]. split_and!; [done|done|rewrite length_app; simpl; lia|by eexists].
Qed.

Lemma finish_extend b t flags :
  holds b t -> (length t <= Nat.max 1 len)%nat ->
  exists b' t',
    (length ← wcslen b 0;
     drive ← is_drive_spec b 0;
     if drive && ((MAX_PATH <? Z.of_nat length + 1) ||
                  flag flags PATHCCH_ENSURE_IS_EXTENDED_LENGTH_PATH) &&
        negb (flag flags PATHCCH_FORCE_ENABLE_LONG_NAME_PROCESS) then
       v ← rd_list b 0 (S length);
       b ← wr_list b 4 v;
       wr_list b 0 prefix_long
     else Ok b) = Ok b' /\ holds b' t' /\ (length t' <= len + 4)%nat.
Proof.
  intros H Hlt. pose proof H as (Ht & Hne & Hlen & rest' & E). subst b.
  rewrite length_app in Hlen. simpl in Hlen.
  rewrite wcslen_str, bind_ok by done.
  destruct (is_drive_spec_str t rest' Ht 0) as (d & -> & Hd); [lia|]. rewrite bind_ok.
  destruct d; cbn [andb]; [|eexists _, t; split; [done|]; split; [exact H|lia]].
  specialize (Hd eq_refl). destruct (_ && _); [|eexists _, t; split; [done|]; split; [exact H|lia]].
  rewrite rd_list_Ok, drop_0, bind_ok by (rewrite length_app; simpl; lia).
  replace (take (S (length t)) (t ++ 0 :: rest')) with (t ++ [0])
    by (rewrite take_app_ge, Nat.sub_succ_l, Nat.sub_diag by lia; done).
  rewrite wr_list_Ok, bind_ok by (rewrite !length_app; simpl; lia).
  rewrite wr_list_Ok
    by (rewrite !length_app, length_take, !length_app; cbn [length prefix_long]; lia).
  eexists _, (prefix_long ++ t). split; [done|].
  rewrite take_0. cbn [app]. rewrite drop_app_length'
    by (rewrite length_take, length_app; cbn [length prefix_long]; lia).
  split; [|rewrite length_app; simpl; lia]. split_and!.
  - apply Forall_app. split; [nonul_tac|done].
  - done.
  - rewrite !length_app, length_drop, !length_app. cbn [length prefix_long]. lia.
  - eexists. rewrite <- !app_assoc. cbn [app]. done.
Qed.

Lemma canon_finish_ok b z flags :
  length b = (len + 6)%nat -> b !! z = Some 0 -> (z <= len)%nat ->
  exists b' t, canon_finish b len flags = Ok b' /\ holds b' t.
Proof.
  intros Hb Hz Hzl. unfold canon_finish.
  destruct (terminated_split b z Hz) as (t & rest' & E & Ht & Htz).
  destruct (rd_lt b 0) as [c0 Ec0]; [lia|]. rewrite Ec0, bind_ok.
  assert (exists b1 t1, (if c0 =? 0 then b ← wr b 0 bslash; wr b 1 0 else Ok b) = Ok b1 /\
    holds b1 t1 /\ (length t1 <= Nat.max 1 len)%nat) as (b1 & t1 & -> & H1 & Hl1).
  { zcase.
    - rewrite wr_lt, bind_ok, wr_lt by (rewrite ?length_insert; lia).
      eexists _, [bslash]. split; [done|]. split; [|simpl; lia]. split_and!.
      + by repeat constructor.
      + done.
      + by rewrite !length_insert.
      + destruct b as [|x [|y b]]; [simpl in Hb; lia|simpl in Hb; lia|]. by eexists.
    - exists b, t. split; [done|]. split; [|lia]. split_and!; [done| |done|by exists rest'].
      intros ->. subst b. unfold rd in Ec0. simpl in Ec0. congruence. }
  rewrite bind_ok. destruct (finish_extend b1 t1 flags H1 Hl1) as (b2 & t2 & E2 & H2 & Hl2).
  apply bind_Ok_inv in E2 as (n & -> & E2). apply bind_Ok_inv in E2 as (d & -> & E2).
  rewrite !bind_ok, E2, bind_ok. by apply (finish_slash b2 t2).
Qed.

(** The whole function, after its argument checks. *)
Lemma canonicalize_ok LocalAlloc flags :
  exists hr p, PathAllocCanonicalize LocalAlloc (Some path) flags = Ok (hr, p) /\
    (p = None /\ FAILED hr = true \/ hr = S_OK /\ exists b t, p = Some b /\ holds b t).
Proof.
  unfold PathAllocCanonicalize. destruct (bad_flags flags); [by eexists _, _; split; [done|left]|].
  assert (wcslen path 0 = Ok len) as -> by (by apply wcslen_str). rewrite bind_ok.
  destruct (_ || _); [by eexists _, _; split; [done|left]|]. cbv zeta.
  destruct (negb (LocalAlloc (Z.of_nat (len + 6)))); [by eexists _, _; split; [done|left]|].
  destruct canon_init_ok as (st0 & -> & H0). rewrite bind_ok.
  destruct (canon_loop_ok (S len) st0 H0) as (st & -> & H); [lia|]. rewrite bind_ok.
  pose proof (co_src _ H). pose proof (co_dst _ H). pose proof (co_buf _ H).
  rewrite wr_lt, bind_ok by lia. set (b := <[dst st:=0]> (buf st)).
  assert (length b = (len + 6)%nat) as Lb by (subst b; by rewrite length_insert).
  assert (b !! dst st = Some 0) as Hz by (apply list_lookup_insert_eq; lia).
  match goal with |- context [(if ?f then Ok b else strip_dots b (dst st))] =>
    assert (exists b1, (if f then Ok b else strip_dots b (dst st)) = Ok b1 /\
      length b1 = (len + 6)%nat /\ b1 !! dst st = Some 0) as (b1 & -> & Lb1 & Hz1) end.
  { destruct (flag _ _); [by exists b|].
    destruct (strip_dots_ok (dst st) b) as (b1 & -> & Hl & Hk); [lia|].
    exists b1. split_and!; [done|lia|]. by rewrite Hk by lia. }
  rewrite bind_ok.
  match goal with |- context [canon_finish b1 len ?f] =>
    destruct (canon_finish_ok b1 (dst st) f) as (b2 & t & -> & Ht) end; [done|done|lia|].
  rewrite bind_ok. eexists _, _. split; [done|]. right. split; [done|]. by exists b2, t.
Qed.
End Canonicalize.

(** ** Paths without dots *)

(** The prefix tests look at the characters they accept only. *)
Lemma rd_ext (b b' : list Z) n i : (forall j, (j < n)%nat -> b !! j = b' !! j) -> (i < n)%nat -> rd b' i = rd b i.
Proof. intros H Hi. unfold rd. by rewrite (H i Hi). Qed.

Lemma starts_nocase_ext b b' n lit : (forall j, (j < n)%nat -> b !! j = b' !! j) -> forall i,
  (i + length lit <= n)%nat -> starts_nocase b' i lit = starts_nocase b i lit.
Proof.
  intros H. induction lit as [|l lit IH]; intros i Hi; simpl in *; [done|].
  rewrite (rd_ext b b' n i H) by lia. destruct (rd b i); simpl; try done.
  destruct (_ =? _); [|done]. apply IH. lia.
Qed.

Lemma starts_ext b b' n lit : (forall j, (j < n)%nat -> b !! j = b' !! j) -> forall i,
  (i + length lit <= n)%nat -> starts b' i lit = starts b i lit.
Proof.
  intros H. induction lit as [|l lit IH]; intros i Hi; simpl in *; [done|].
  rewrite (rd_ext b b' n i H) by lia. destruct (rd b i); simpl; try done.
  destruct (_ =? _); [|done]. apply IH. lia.
Qed.

(** A prefix of the path has no more prefix syntax than the path. *)
Lemma prefixes_of_take s k rest rest' :
  nonul s -> is_prefixed_unc (s ++ 0 :: rest) = Ok false -> is_prefixed_disk (s ++ 0 :: rest) = Ok false ->
  is_prefixed_unc (take k s ++ 0 :: rest') = Ok false /\
  is_prefixed_disk (take k s ++ 0 :: rest') = Ok false.
Proof.
  intros Hs Hu Hd. assert (nonul (take k s)) as Ht by (by apply Forall_take).
  set (n := length (take k s)).
  assert (forall j, (j < n)%nat -> (take k s ++ 0 :: rest') !! j = (s ++ 0 :: rest) !! j) as Hj.
  { intros j Hj. subst n. rewrite length_take in Hj. rewrite lookup_app_l by (rewrite length_take; lia).
    rewrite lookup_app_l by lia. apply lookup_take_lt. lia. }
  split.
  - destruct (is_prefixed_unc_str (take k s) rest' Ht) as (r & E & Hr). rewrite E. destruct r; [|done].
    specialize (Hr eq_refl). fold n in Hr. unfold is_prefixed_unc in *.
    rewrite (starts_nocase_ext _ _ n _ Hj) in Hu by (simpl; lia). congruence.
  - destruct (is_prefixed_disk_str (take k s) rest' Ht) as (r & E & Hr). rewrite E. destruct r; [|done].
    specialize (Hr eq_refl). fold n in Hr. unfold is_prefixed_disk, is_drive_spec in *.
    rewrite (starts_ext _ _ n _ Hj) in Hd by (simpl; lia).
    rewrite !(rd_ext _ _ n _ Hj) in Hd by lia. congruence.
Qed.

Section Plain.
Context (s rest : list Z) (Hs : nonul s).
Let path := s ++ 0 :: rest.
Let len := length s.
Hypothesis Hdots : Forall (fun c => c <> dot) s.

(** The first [k] characters have been copied. *)
Definition copied (k : nat) : list Z := take k s ++ replicate (len + 6 - k) 0.

Lemma copied_length k : (k <= len)%nat -> length (copied k) = (len + 6)%nat.
Proof. intros. unfold copied. rewrite length_app, length_take, length_replicate. fold len. lia. Qed.

Lemma copied_step k c : s !! k = Some c -> <[k := c]> (copied k) = copied (S k).
Proof.
  intros Hc. pose proof (lookup_lt_Some _ _ _ Hc). fold len in H. unfold copied.
  rewrite insert_app_r_alt by (rewrite length_take; fold len; lia).
  rewrite length_take. replace (k - Init.Nat.min k (length s))%nat with 0%nat by (fold len; lia).
  replace (len + 6 - k)%nat with (S (len + 6 - S k)) by lia. cbn [replicate].
  rewrite (take_S_r _ _ c) by done. by rewrite <- app_assoc.
Qed.

Lemma plain_loop : forall fuel k r, (k <= len)%nat -> (len - k < fuel)%nat ->
  canon_loop fuel path (CanonState k k (copied k) r) = Ok (CanonState len len (copied len) r).
Proof.
  induction fuel as [|fuel IH]; intros k r Hk Hf; [lia|]. cbn [canon_loop].
  destruct (Nat.eq_dec k len) as [->|Hne].
  - unfold path. simpl src. unfold len at 1. rewrite rd_end, bind_ok. done.
  - destruct (rd_in s rest Hs k) as (c & Ec & Hc & H0); [fold len; lia|]. fold path in Ec.
    cbn [src]. rewrite Ec, bind_ok, (proj2 (Z.eqb_neq _ _)) by done.
    unfold canon_step. assert (c <> dot) by exact (Forall_lookup_1 _ _ _ _ Hdots Hc).
    rewrite (proj2 (Z.eqb_neq _ _)) by done. unfold copy_char. cbn [src dst buf root_end].
    rewrite Ec, bind_ok. rewrite wr_lt by (rewrite copied_length; lia).
    rewrite !bind_ok, copied_step by done. apply IH; lia.
Qed.

Lemma plain_init :
  is_prefixed_unc path = Ok false -> is_prefixed_disk path = Ok false ->
  exists k r, canon_init path len = Ok (CanonState k k (copied k) r) /\ (k <= len)%nat.
Proof.
  intros Hu Hd. unfold canon_init. destruct (get_root_end_str s rest Hs) as (r & Er & Hr). fold path in Er.
  rewrite Er, bind_ok. destruct r as [r|].
  2: { exists 0%nat, None. split; [|lia]. unfold copied. by rewrite Nat.sub_0_r. }
  specialize (Hr r eq_refl). fold len in Hr. exists (S r), (Some r). split; [|lia].
  rewrite rd_list_Ok, drop_0, bind_ok by (unfold path; rewrite length_app; simpl; fold len; lia).
  replace (take (S r) path) with (take (S r) s) by (unfold path; rewrite take_app_le by (fold len; lia); done).
  rewrite (wr_list_tail [] (replicate (len + 6) 0)) by
    (done || (rewrite length_take, length_replicate; fold len; lia)).
  rewrite bind_ok, drop_replicate, length_take. cbn [app].
  replace (len + 6 - Init.Nat.min (S r) (length s))%nat with (len + 6 - S r)%nat by (fold len; lia).
  replace (len + 6 - S r)%nat with (S (len + 5 - S r)) by lia. cbn [replicate].
  destruct (prefixes_of_take s (S r) rest (replicate (len + 5 - S r) 0) Hs Hu Hd) as [Eu Ed].
  assert (nonul (take (S r) s)) as Ht by (by apply Forall_take).
  destruct (strip_prefix_ok (take (S r) s) (replicate (len + 5 - S r) 0) (Z.of_nat (len + 6)) Ht)
    as (hr & b & -> & Hne & Hok). rewrite bind_ok.
  destruct (Z.eqb_spec hr S_OK) as [E|E].
  - exfalso. destruct (Hok E) as (k & d & z & Hkd & _ & _ & _ & H2 & H0).
    destruct Hkd as [[-> _]|[-> _]]; [rewrite H0 in Ed|rewrite H2 in Eu]; congruence.
  - rewrite (Hne E). unfold copied.
    replace (len + 6 - S r)%nat with (S (len + 5 - S r)) by lia. done.
Qed.

Lemma plain_canonicalize LocalAlloc :
  s <> [] -> Z.of_nat len < MAX_PATH -> LocalAlloc (Z.of_nat (len + 6)) = true ->
  is_prefixed_unc path = Ok false -> is_prefixed_disk path = Ok false ->
  PathAllocCanonicalize LocalAlloc (Some path) PATHCCH_NONE = Ok (S_OK, Some (s ++ replicate 6 0)).
Proof.
  intros Hne Hlen Ha Hu Hd. unfold PathAllocCanonicalize, MAX_PATH in *.
  change (bad_flags PATHCCH_NONE) with false. cbv iota.
  assert (wcslen path 0 = Ok len) as -> by (by apply wcslen_str). rewrite bind_ok.
  unfold PATHCCH_MAX_CCH. rewrite !(proj2 (Z.ltb_ge _ _)) by lia. cbn [andb orb].
  rewrite Ha. cbn [negb]. change (flag PATHCCH_NONE PATHCCH_ENSURE_IS_EXTENDED_LENGTH_PATH) with false.
  cbv iota zeta. destruct (plain_init Hu Hd) as (k & r & -> & Hk). rewrite bind_ok.
  rewrite plain_loop, bind_ok by lia. cbn [dst buf].
  rewrite wr_lt, bind_ok by (rewrite copied_length; lia).
  assert (copied len = s ++ replicate 6 0) as Ec.
  { unfold copied. unfold len at 1. rewrite firstn_all. by replace (len + 6 - len)%nat with 6%nat by lia. }
  assert (<[len := 0]> (copied len) = s ++ replicate 6 0) as ->.
  { rewrite Ec. rewrite insert_app_r_alt by done. unfold len. by rewrite Nat.sub_diag. }
  change (flag PATHCCH_NONE PATHCCH_DO_NOT_NORMALIZE_SEGMENTS) with false. cbv iota.
  destruct (exists_last Hne) as (s' & c & Es).
  assert (strip_dots (s ++ replicate 6 0) len = Ok (s ++ replicate 6 0)) as ->.
  { unfold len. rewrite Es, length_app, Nat.add_1_r. cbn [strip_dots]. rewrite <- app_assoc.
    cbn [app]. rewrite (rd_middle s' c _ (length s')), bind_ok by done.
    rewrite Es, Forall_app, Forall_cons in Hdots. by rewrite (proj2 (Z.eqb_neq _ _)) by tauto. }
  rewrite bind_ok. unfold canon_finish.
  destruct (rd_in s (replicate 5 0) Hs 0) as (c0 & E0 & _ & H0);
    [rewrite Es, length_app; simpl; lia|].
  change (s ++ replicate 6 0) with (s ++ 0 :: replicate 5 0).
  rewrite E0, bind_ok, (proj2 (Z.eqb_neq _ _)), bind_ok by done.
  rewrite wcslen_str, bind_ok by done. fold len.
  destruct (is_drive_spec_str s (replicate 5 0) Hs 0) as (d & -> & _); [lia|]. rewrite bind_ok.
  unfold MAX_PATH. rewrite (proj2 (Z.ltb_ge _ _)) by lia.
  change (flag PATHCCH_NONE PATHCCH_ENSURE_IS_EXTENDED_LENGTH_PATH) with false.
  cbn [orb]. rewrite andb_false_r. cbn [andb]. by rewrite bind_ok.
Qed.
End Plain.

(** ** Extensions *)

(** Characters that end the search for an extension. *)
Definition is_sep (c : Z) : bool := (c =? bslash) || (c =? space).

(** [e] is the position of the extension of [s]: of its dot, or of the end of
    the string when there is none.  An extension is a dot that no dot,
    backslash or space follows. *)
Definition extension_at (s : list Z) (e : nat) : Prop :=
  (e < length s /\ s !! e = Some dot /\
   forall j c, e < j -> s !! j = Some c -> c <> dot /\ is_sep c = false)%nat \/
  (e = length s /\
   forall i, s !! i = Some dot -> exists j c, (i < j)%nat /\ s !! j = Some c /\ is_sep c = true).

(** The search after the prefix of length [pos]. *)
Definition search_state (s : list Z) (pos : nat) (lastpoint : option nat) : Prop :=
  match lastpoint with
  | Some e => (e < pos)%nat /\ s !! e = Some dot /\
      forall j c, (e < j < pos)%nat -> s !! j = Some c -> c <> dot /\ is_sep c = false
  | None => forall i, (i < pos)%nat -> s !! i = Some dot ->
      exists j c, (i < j < pos)%nat /\ s !! j = Some c /\ is_sep c = true
  end.

Lemma search_step s pos lp c :
  search_state s pos lp -> s !! pos = Some c ->
  search_state s (S pos)
    (if (c =? bslash) || (c =? space) then None else if c =? dot then Some pos else lp).
Proof.
  intros H Hc. destruct ((c =? bslash) || (c =? space)) eqn:Es.
  - intros i Hi Hd. exists pos, c. split_and!; [|lia|done|done].
    destruct (Nat.eq_dec i pos) as [->|]; [|lia]. rewrite Hc in Hd. injection Hd as ->. done.
  - destruct (Z.eqb_spec c dot) as [->|Hne].
    + split_and!; [lia|done|]. intros j d Hj. lia.
    + destruct lp as [e|]; simpl in *.
      * destruct H as (He & Hd & Hj). split_and!; [lia|done|]. intros j d Hjp Hjd.
        destruct (Nat.eq_dec j pos) as [->|]; [|apply (Hj j); [lia|done]].
        rewrite Hc in Hjd. injection Hjd as <-. split; [done|exact Es].
      * intros i Hi Hd. destruct (Nat.eq_dec i pos) as [->|]; [congruence|].
        destruct (H i) as (j & d & Hj & Hjd & Hsep); [lia|done|]. exists j, d. split_and!; [lia|lia|done|done].
Qed.

Lemma search_end s lp : search_state s (length s) lp -> extension_at s (default (length s) lp).
Proof.
  destruct lp as [e|]; simpl.
  - intros (He & Hd & H). left. split_and!; [done|done|]. intros j c Hj Hc.
    apply (H j); [|done]. apply lookup_lt_Some in Hc. lia.
  - intros H. right. split; [done|]. intros i Hi. pose proof (lookup_lt_Some _ _ _ Hi).
    destruct (H i) as (j & c & Hj & Hc & Hsep); [done|done|]. exists j, c. split_and!; [lia|done|done].
Qed.

Lemma extension_loop_ok s rest size : nonul s -> 0 < size <= PATHCCH_MAX_CCH ->
  forall fuel pos lp, (pos <= length s)%nat -> Z.of_nat pos < size -> (length s - pos < fuel)%nat ->
  search_state s pos lp ->
  exists r, extension_loop fuel (s ++ 0 :: rest) size pos lp = Ok r /\
    (Z.of_nat (length s) < size -> exists e, r = Some e /\ extension_at s e) /\
    (size <= Z.of_nat (length s) -> r = None).
Proof.
  intros Hs Hsize. induction fuel as [|fuel IH]; intros pos lp Hp Hps Hf Hst; [lia|].
  cbn [extension_loop]. destruct (Nat.eq_dec pos (length s)) as [->|Hne].
  - rewrite rd_end, bind_ok. cbn [Z.eqb]. eexists. split; [done|]. split; [|lia].
    intros _. eexists. split; [done|]. by apply search_end.
  - destruct (rd_in s rest Hs pos) as (c & -> & Hc & H0); [lia|]. rewrite bind_ok.
    rewrite (proj2 (Z.eqb_neq _ _)) by done. cbv zeta.
    destruct (Z.eqb_spec (Z.of_nat (S pos)) size) as [E|E]; cbn [orb].
    { exists None. split; [done|]. split; [lia|done]. }
    destruct (Z.eqb_spec (Z.of_nat (S pos)) PATHCCH_MAX_CCH); [lia|].
    apply IH; [lia|lia|lia|]. by apply search_step.
Qed.

(** [PathCchFindExtension] on a string. *)
Lemma find_extension_ok s rest size :
  nonul s -> 0 < size <= PATHCCH_MAX_CCH ->
  if Z.of_nat (length s) <? size
  then exists e, PathCchFindExtension (Some (s ++ 0 :: rest)) size = Ok (S_OK, Some e) /\ extension_at s e
  else PathCchFindExtension (Some (s ++ 0 :: rest)) size = Ok (E_INVALIDARG, None).
Proof.
  intros Hs Hsize. unfold PathCchFindExtension.
  rewrite (proj2 (Z.eqb_neq size 0)), (proj2 (Z.ltb_ge PATHCCH_MAX_CCH size)) by lia. cbn [orb].
  destruct (extension_loop_ok s rest size Hs Hsize (S (length (s ++ 0 :: rest))) 0 None)
    as (r & -> & H1 & H2); [lia|lia|rewrite length_app; simpl; lia|intros i; lia|].
  rewrite bind_ok. zcase.
  - destruct H1 as (e & -> & He); [done|]. by exists e.
  - by rewrite H2.
Qed.

Lemma extension_unique s e e' : extension_at s e -> extension_at s e' -> e = e'.
Proof.
  intros [(H1 & H2 & H3)|(-> & H)] [(H1' & H2' & H3')|(-> & H')]; [|exfalso..|done].
  - destruct (Nat.lt_total e e') as [Hlt|[->|Hlt]]; [exfalso| |exfalso]; [|done|].
    + by destruct (H3 e' dot Hlt H2').
    + by destruct (H3' e dot Hlt H2).
  - destruct (H' e H2) as (j & c & Hj & Hc & Hsep). destruct (H3 j c Hj Hc). congruence.
  - destruct (H e' H2') as (j & c & Hj & Hc & Hsep). destruct (H3' j c Hj Hc). congruence.
Qed.

Lemma extension_le s e : extension_at s e -> (e <= length s)%nat.
Proof. intros [(H & _)|(-> & _)]; lia. Qed.

(** ** Removing and adding an extension *)

Lemma clear_loop_ok size u : nonul u -> forall t rest fuel,
  Z.of_nat (length (t ++ u)) < size -> (length u < fuel)%nat ->
  clear_loop fuel (t ++ u ++ 0 :: rest) size (length t)
  = Ok (t ++ 0 :: replicate (length u) 0 ++ rest, (length t + length u)%nat).
Proof.
  induction u as [|c u IH]; intros Hu t rest fuel Hsz Hf; (destruct fuel as [|fuel]; [lia|]);
    rewrite length_app in Hsz; cbn [length] in *; cbn [clear_loop]; rewrite (proj2 (Z.ltb_lt _ _)) by lia.
  - cbn [app replicate]. rewrite rd_middle, bind_ok by done. cbn [Z.eqb]. by rewrite Nat.add_0_r.
  - apply Forall_cons in Hu as [Hc Hu]. cbn [app].
    rewrite (rd_middle t c _ (length t)), bind_ok, (proj2 (Z.eqb_neq _ _)) by done.
    rewrite wr_app, bind_ok by done.
    specialize (IH Hu (t ++ [0]) rest fuel). rewrite !length_app, <- !app_assoc in IH. cbn [app length] in IH.
    rewrite Nat.add_1_r in IH. rewrite IH by lia. cbn [replicate app].
    by replace (S (length t) + length u)%nat with (length t + S (length u))%nat by lia.
Qed.

Lemma wcsnlen_ok t : nonul t -> forall pre rest n, (length t < n)%nat ->
  wcsnlen (pre ++ t ++ 0 :: rest) (length pre) n = Ok (length t).
Proof.
  induction t as [|c t IH]; intros Ht pre rest n Hn; (destruct n as [|n]; [simpl in Hn; lia|]); cbn [wcsnlen app].
  - by rewrite rd_middle.
  - apply Forall_cons in Ht as [Hc Ht].
    rewrite (rd_middle pre c _ (length pre)), bind_ok, (proj2 (Z.eqb_neq _ _)) by done.
    specialize (IH Ht (pre ++ [c]) rest n). rewrite length_app, <- app_assoc, Nat.add_1_r in IH.
    cbn [app length] in *. by rewrite IH by lia.
Qed.

Lemma bad_size_ok size : 0 < size <= PATHCCH_MAX_CCH -> bad_size size = false.
Proof. intros. unfold bad_size. lia. Qed.

Lemma remove_extension_ok s rest size :
  nonul s -> Z.of_nat (length s) < size <= PATHCCH_MAX_CCH ->
  exists e rest', extension_at s e /\
    PathCchRemoveExtension (Some (s ++ 0 :: rest)) size
    = Ok (if (e =? length s)%nat then S_FALSE else S_OK, Some (take e s ++ 0 :: rest')) /\
    length (take e s ++ 0 :: rest') = length (s ++ 0 :: rest).
Proof.
  intros Hs Hsize. unfold PathCchRemoveExtension. rewrite bad_size_ok by lia.
  pose proof (find_extension_ok s rest size Hs ltac:(lia)) as Hf.
  rewrite (proj2 (Z.ltb_lt _ _)) in Hf by lia. destruct Hf as (e & -> & He). rewrite bind_ok.
  pose proof (extension_le s e He) as Hle.
  exists e, (replicate (length s - e) 0 ++ rest). split; [done|].
  pose proof (clear_loop_ok size (drop e s) (Forall_drop _ _ _ Hs) (take e s) rest
    (S (length (s ++ 0 :: rest)))) as Hc.
  rewrite app_assoc, take_drop, length_take, length_drop, Nat.min_l in Hc by done.
  rewrite Hc by (rewrite ?length_app; simpl; lia). rewrite bind_ok.
  replace (e + (length s - e))%nat with (length s) by lia. rewrite Nat.eqb_sym. split; [done|].
  rewrite !length_app. cbn [length]. rewrite length_app, length_take, length_replicate. lia.
Qed.

(** The extensions that [PathCchAddExtension] accepts. *)
Definition valid_extension (x : list Z) : Prop :=
  nonul x /\ forall i c, x !! i = Some c -> is_sep c = false /\ ((0 < i)%nat -> c <> dot).

Lemma extension_valid_ok x r : valid_extension x -> forall fuel i,
  (i <= length x)%nat -> (length x - i < fuel)%nat -> extension_valid fuel (x ++ 0 :: r) i = Ok true.
Proof.
  intros [Hx Hv]. induction fuel as [|fuel IH]; intros i Hi Hf; [lia|]. cbn [extension_valid].
  destruct (Nat.eq_dec i (length x)) as [->|Hne]; [by rewrite rd_end|].
  destruct (rd_in x r Hx i) as (c & -> & Hc & H0); [lia|].
  rewrite bind_ok, (proj2 (Z.eqb_neq _ _)) by done. destruct (Hv i c Hc) as [Hsep Hdot].
  unfold is_sep in Hsep. apply orb_false_elim in Hsep as [-> ->].
  assert ((c =? dot) && negb (i =? 0)%nat = false) as ->.
  { destruct (Nat.eqb_spec i 0); [by rewrite andb_false_r|].
    rewrite (proj2 (Z.eqb_neq _ _)); [done|apply Hdot; lia]. }
  cbn [orb]. apply IH; lia.
Qed.

(** The extension with its dot. *)
Definition with_dot (x : list Z) : list Z :=
  match x with c :: _ => if c =? dot then x else dot :: x | [] => [dot] end.

Lemma add_extension_ok s rest size x r :
  nonul s -> extension_at s (length s) -> valid_extension x -> x <> [] -> x <> [dot] ->
  Z.of_nat (length s + length (with_dot x) + 1) <= size <= PATHCCH_MAX_CCH ->
  size <= Z.of_nat (length (s ++ 0 :: rest)) ->
  exists rest',
    PathCchAddExtension (Some (s ++ 0 :: rest)) size (Some (x ++ 0 :: r))
    = Ok (S_OK, Some ((s ++ with_dot x) ++ 0 :: rest')) /\
    length ((s ++ with_dot x) ++ 0 :: rest') = length (s ++ 0 :: rest).
Proof.
  intros Hs He Hv Hne Hdot Hsize Hbuf. unfold PathCchAddExtension. rewrite bad_size_ok by lia.
  rewrite (extension_valid_ok x r Hv) by (rewrite ?length_app; simpl; lia). rewrite bind_ok. cbn [negb].
  destruct x as [|c x]; [done|]. cbn [app].
  assert (forall l, rd (c :: l) 0 = Ok c) as Hrd0 by done. rewrite Hrd0, bind_ok.
  pose proof (find_extension_ok s rest size Hs ltac:(lia)) as Hf.
  rewrite (proj2 (Z.ltb_lt _ _)) in Hf by lia. destruct Hf as (e & -> & He'). rewrite bind_ok.
  rewrite (extension_unique s e (length s) He' He), rd_end, bind_ok. cbn [Z.eqb negb].
  pose proof (wcsnlen_ok s Hs [] rest (Z.to_nat size)) as Hw. cbn [app length] in Hw.
  rewrite Hw, bind_ok by lia. destruct Hv as [Hx Hv].
  change (c :: x ++ 0 :: r) with ((c :: x) ++ 0 :: r). rewrite wcslen_str, bind_ok by done.
  pose proof Hx as [Hc0 _]%Forall_cons.
  assert (rd_list ((c :: x) ++ 0 :: r) 0 (S (length (c :: x))) = Ok ((c :: x) ++ [0])) as ->.
  { change (0 :: r) with ([0] ++ r). rewrite app_assoc. apply (rd_list_app [] ((c :: x) ++ [0]) r); [done|].
    rewrite length_app. simpl. lia. }
  rewrite length_app in Hbuf. cbn [length] in Hbuf.
  unfold with_dot in *. destruct (Z.eqb_spec c dot) as [->|Hcd].
  - cbn [length] in *. rewrite (proj2 (Z.ltb_ge _ _)) by lia.
    change (dot =? 0) with false. cbv iota.
    destruct x as [|y x]; [done|].
    assert (forall l, rd ((dot :: y :: x) ++ l) 1 = Ok y) as -> by done. rewrite !bind_ok.
    apply Forall_cons in Hx as [_ [Hy _]%Forall_cons]. rewrite (proj2 (Z.eqb_neq _ _)) by done.
    cbn [length] in *.
    rewrite wr_list_tail by (done || (cbn [length]; rewrite length_app; simpl; lia)).
    rewrite bind_ok. eexists. split; [rewrite <- !app_assoc; done|].
    rewrite !length_app. cbn [length app]. rewrite length_drop. cbn [length app]. rewrite ?length_app. simpl. lia.
  - cbn [length] in *. rewrite (proj2 (Z.ltb_ge _ _)) by lia.
    rewrite (proj2 (Z.eqb_neq _ _)), !bind_ok by done.
    rewrite wr_app, bind_ok by done. change (dot :: rest) with ([dot] ++ rest). rewrite app_assoc.
    rewrite wr_list_tail by (rewrite !length_app; simpl; rewrite ?length_app; simpl; lia).
    rewrite bind_ok. eexists. split; [rewrite <- !app_assoc; done|].
    rewrite !length_app. cbn [length app]. rewrite length_drop. cbn [length app]. rewrite ?length_app. simpl. lia.
Qed.

(** ** Roots *)
Section Roots.
Context (s rest : list Z) (Hs : nonul s).
Let a := s ++ 0 :: rest.

Lemma is_root_str : exists r, PathCchIsRoot (Some a) = Ok r.
Proof.
  unfold PathCchIsRoot. destruct (rd_str s rest Hs 0) as (c0 & Ec0 & _); [lia|]. fold a in Ec0.
  rewrite Ec0, bind_ok. zcase; [by eexists|].
  destruct (get_root_end_str s rest Hs) as (r & Er & Hr). fold a in Er. rewrite Er, bind_ok.
  destruct r as [r|]; [|by eexists]. specialize (Hr r eq_refl).
  destruct (is_prefixed_unc_str s rest Hs) as (u & Eu & _). fold a in Eu. rewrite Eu, bind_ok.
  destruct (is_unc_plain_str s rest Hs) as (p & Ep & _). fold a in Ep.
  assert ((if u then Ok true else is_unc_plain a) = Ok (u || p)) as -> by (by destruct u).
  rewrite bind_ok. destruct (u || p).
  - destruct (rd_str s rest Hs (S r)) as (c & Ec & _); [lia|]. fold a in Ec. rewrite Ec, bind_ok.
    zcase; [by eexists|].
    destruct (get_next_segment_str s rest Hs (S r)) as (b & j & Ej & Hj & _); [lia|]. fold a in Ej.
    rewrite Ej, bind_ok. destruct (rd_str s rest Hs j) as (cj & Ecj & Hcj & _); [lia|]. fold a in Ecj.
    rewrite Ecj, bind_ok. destruct (b && (cj =? 0)); [by eexists|]. zcase; [by eexists|].
    specialize (Hcj ltac:(done)).
    destruct (get_next_segment_str s rest Hs (S j)) as (b' & j' & Ej' & Hj' & _); [lia|]. fold a in Ej'.
    rewrite Ej', bind_ok. destruct b'; [by eexists|].
    destruct (rd_str s rest Hs j') as (c' & Ec' & _); [lia|]. fold a in Ec'. rewrite Ec', bind_ok. by eexists.
  - destruct (rd_str s rest Hs r) as (c & Ec & _); [lia|]. fold a in Ec. rewrite Ec, bind_ok.
    zcase; [|by eexists].
    destruct (rd_str s rest Hs (S r)) as (c1 & Ec1 & _); [lia|]. fold a in Ec1. rewrite Ec1, bind_ok.
    by eexists.
Qed.

(** [PathCchSkipRoot] stops inside the string or at its end. *)
Lemma skip_root_str : exists hr r, PathCchSkipRoot (Some a) = Ok (hr, r) /\
  (forall e, r = Some e -> hr = S_OK /\ (0 < e <= length s)%nat) /\ (r = None -> hr = E_INVALIDARG).
Proof.
  unfold PathCchSkipRoot. destruct (rd_str s rest Hs 0) as (c0 & Ec0 & _); [lia|]. fold a in Ec0.
  rewrite Ec0, bind_ok. zcase; [by eexists _, None|].
  destruct (starts_nocase_str s rest Hs prefix_q) with (i := 0%nat) as (q & Eq & _); [nonul_tac|lia|].
  fold a in Eq. rewrite Eq, bind_ok.
  destruct (is_prefixed_volume_str s rest Hs) as (v & Ev & _). fold a in Ev.
  destruct (is_prefixed_unc_str s rest Hs) as (u & Eu & _). fold a in Eu.
  destruct (is_prefixed_disk_str s rest Hs) as (d & Ed & _). fold a in Ed.
  rewrite Ev, bind_ok, Eu, bind_ok, Ed, bind_ok.
  assert ((if q then if v then Ok false else if u then Ok false else Ok (negb d) else Ok false)
          = Ok (q && negb v && negb u && negb d)) as -> by (by destruct q, v, u, d).
  rewrite bind_ok. destruct (_ && negb d); [by eexists _, None|].
  destruct (get_root_end_str s rest Hs) as (r & Er & Hr). fold a in Er. rewrite Er, bind_ok.
  destruct r as [r|]; [|by eexists _, None]. specialize (Hr r eq_refl). cbv zeta.
  rewrite ?bind_ok.
  destruct (get_next_segment_str s rest Hs (S r)) as (b1 & j1 & E1 & H1 & _); [lia|]. fold a in E1.
  destruct (get_next_segment_str s rest Hs j1) as (b2 & j2 & E2 & H2 & _); [lia|]. fold a in E2.
  rewrite E1, bind_ok, E2, bind_ok.
  assert (forall e : nat, (0 < e <= length s)%nat ->
    exists hr r, Ok (S_OK, Some e) = Ok (hr, r) /\
     (forall e, r = Some e -> hr = S_OK /\ (0 < e <= length s)%nat) /\ (r = None -> hr = E_INVALIDARG)) as Hfin.
  { intros e He. eexists _, _. split; [done|]. split; [|done]. by intros ? [= <-]. }
  destruct u; [apply Hfin; lia|].
  destruct (is_unc_plain_str s rest Hs) as (p & Ep & _). fold a in Ep. rewrite Ep, bind_ok.
  destruct p; [|apply Hfin; lia]. rewrite ?E1, ?bind_ok.
  destruct (rd_str s rest Hs j1) as (cj & Ecj & _); [lia|]. fold a in Ecj. rewrite Ecj, bind_ok.
  zcase; [apply Hfin; lia|]. rewrite ?E2, ?bind_ok. apply Hfin; lia.
Qed.

(** Clearing from the end. *)
Lemma filespec_loop_ok size root : (Z.of_nat (length s) < size) -> forall n z,
  (n <= length s)%nat -> length z = (length s - n)%nat -> Forall (fun c => c = 0) z ->
  exists k z', filespec_loop (take n s ++ z ++ 0 :: rest) size root n
    = Ok (take k s ++ z' ++ 0 :: rest, Some k) /\ (Nat.min root n <= k <= n)%nat /\
    length z' = (length s - k)%nat /\ Forall (fun c => c = 0) z' /\
    ((k <= root)%nat \/ s !! k = Some bslash).
Proof.
  intros Hsize. induction n as [|n IH]; intros z Hn Hz HF; cbn [filespec_loop].
  - exists 0%nat, z. split_and!; [done|lia|lia|done|done|left; lia].
  - destruct (Nat.leb_spec root n).
    2: { exists (S n), z. split_and!; [done|lia|lia|done|done|left; lia]. }
    rewrite (proj2 (Z.leb_gt _ _)) by lia.
    destruct (lookup_lt_is_Some_2 s n) as [c Hc]; [lia|].
    rewrite (take_S_r _ _ c) by done. rewrite <- app_assoc. cbn [app].
    rewrite (rd_middle (take n s) c _ n), bind_ok by (rewrite length_take; lia).
    rewrite wr_app, bind_ok by (rewrite length_take; lia).
    change (0 :: z ++ 0 :: rest) with ((0 :: z) ++ 0 :: rest). zcase.
    + exists n, (0 :: z). split_and!; [done|lia|lia|simpl; lia|by constructor|]. right. by subst c.
    + destruct (IH (0 :: z)) as (k & z' & -> & Hk & Hz' & HF' & Hb);
        [lia|simpl; lia|by constructor|].
      exists k, z'. split_and!; [done|lia|lia|done|done|done].
Qed.

(** The root that [PathCchRemoveFileSpec] keeps. *)
Lemma kept_root_str r : (forall e, r = Some e -> (0 < e <= length s)%nat) ->
  exists e, match r with
            | None => Ok 0%nat
            | Some e =>
              c ← (if (e =? 0)%nat then Ok 0 else rd a (e - 1));
              if c =? bslash then
                is_unc ← is_prefixed_unc a;
                unc ← (if is_unc : bool then Ok true else is_unc_plain a);
                Ok (if unc : bool then (e - 1)%nat else e)
              else Ok e
            end = Ok e /\ (e <= length s)%nat /\ (e <= default 0 r)%nat.
Proof.
  intros Hr. destruct r as [e|]; [|exists 0%nat; split; [done|simpl; lia]]. specialize (Hr e eq_refl).
  rewrite (proj2 (Nat.eqb_neq _ _)) by lia.
  destruct (rd_str s rest Hs (e - 1)) as (c & Ec & _); [lia|]. fold a in Ec. rewrite Ec, bind_ok.
  zcase; [|exists e; split; [done|simpl; lia]].
  destruct (is_prefixed_unc_str s rest Hs) as (u & Eu & _). fold a in Eu. rewrite Eu, bind_ok.
  destruct (is_unc_plain_str s rest Hs) as (p & Ep & _). fold a in Ep.
  assert ((if u then Ok true else is_unc_plain a) = Ok (u || p)) as -> by (by destruct u).
  rewrite bind_ok. eexists. split; [done|]. simpl. destruct (u || p); lia.
Qed.
End Roots.

(** ** Theorems *)
Module PathCchSpec.

(** C16. [PathAllocCanonicalize] on any terminated path, with any flags:
    every loop ends, no access leaves the path up to its terminator or the
    allocated buffer of [length + 6] characters (which the flags may extend
    by a prefix and a backslash), and the result is either an error with no
    buffer or a non-empty terminated string in that buffer. *)
Theorem PathAllocCanonicalize_safe LocalAlloc s rest flags :
  nonul s ->
  exists hr p, PathAllocCanonicalize LocalAlloc (Some (s ++ 0 :: rest)) flags = Ok (hr, p) /\
    (p = None /\ FAILED hr = true \/
     hr = S_OK /\ exists t rest', p = Some (t ++ 0 :: rest') /\ nonul t /\ t <> [] /\
       length (t ++ 0 :: rest') = (length s + 6)%nat).
Proof.
  intros Hs. destruct (canonicalize_ok s rest Hs LocalAlloc flags) as (hr & p & E & Hcase).
  exists hr, p. split; [done|]. destruct Hcase as [H|(-> & b & t & -> & Ht & Hne & Hl & rest' & ->)];
    [by left|right]. split; [done|]. by exists t, rest'.
Qed.

Lemma PathAllocCanonicalize_safe_witness :
  exists hr p, PathAllocCanonicalize (fun _ => true)
    (Some ([67; 58; 92; 97; 92; 46; 46; 92; 46; 92; 98; 46] ++ [0])) 0x30 = Ok (hr, p).
Proof.
  destruct (PathAllocCanonicalize_safe (fun _ => true)
    [67; 58; 92; 97; 92; 46; 46; 92; 46; 92; 98; 46] [] 0x30) as (hr & p & E & _); [nonul_tac|].
  exists hr, p. exact E.
Defined.

(** A path without dots and without an extended-length prefix is already
    canonical: shorter than MAX_PATH, it comes back unchanged. *)
Theorem PathAllocCanonicalize_plain LocalAlloc s rest :
  nonul s -> Forall (fun c => c <> dot) s -> s <> [] -> Z.of_nat (length s) < MAX_PATH ->
  LocalAlloc (Z.of_nat (length s + 6)) = true ->
  is_prefixed_unc (s ++ 0 :: rest) = Ok false -> is_prefixed_disk (s ++ 0 :: rest) = Ok false ->
  PathAllocCanonicalize LocalAlloc (Some (s ++ 0 :: rest)) PATHCCH_NONE
  = Ok (S_OK, Some (s ++ replicate 6 0)).
Proof. intros Hs Hd. intros. by apply plain_canonicalize. Qed.

Lemma PathAllocCanonicalize_plain_witness :
  PathAllocCanonicalize (fun _ => true) (Some ([67; 58; 92; 97; 92; 98] ++ [0; 1])) 0
  = Ok (S_OK, Some ([67; 58; 92; 97; 92; 98] ++ replicate 6 0)).
Proof.
  apply (PathAllocCanonicalize_plain (fun _ => true) [67; 58; 92; 97; 92; 98] [1]);
    [nonul_tac|unfold dot; forall_lia|discriminate|reflexivity|reflexivity|reflexivity|reflexivity].
Defined.

(** [PathCchRemoveFileSpec] on any terminated path shorter than [size]:
    it returns, and what is left is a prefix of the path that was cut at a
    backslash or inside the root that [PathCchSkipRoot] finds; nothing behind
    the terminator is touched. *)
Theorem PathCchRemoveFileSpec_prefix s rest size :
  nonul s -> Z.of_nat (length s) < size <= PATHCCH_MAX_CCH ->
  exists k z hr hr' root, PathCchRemoveFileSpec (Some (s ++ 0 :: rest)) size
    = Ok (hr, Some (take k s ++ z ++ 0 :: rest)) /\
    PathCchSkipRoot (Some (s ++ 0 :: rest)) = Ok (hr', root) /\
    (k = length s \/ s !! k = Some bslash \/ (k <= default 0 root)%nat) /\
    (k <= length s)%nat /\ length z = (length s - k)%nat /\ Forall (fun c => c = 0) z /\
    (hr = S_FALSE /\ k = length s \/ hr = S_OK /\ (k < length s)%nat).
Proof.
  intros Hs Hsize. unfold PathCchRemoveFileSpec. rewrite bad_size_ok by lia.
  destruct (skip_root_str s rest Hs) as (hr' & r & Eroot & Hr & _).
  destruct (is_root_str s rest Hs) as [b ->]. rewrite bind_ok. destruct b.
  { exists (length s), [], S_FALSE, hr', r. rewrite firstn_all, Nat.sub_diag.
    split_and!; [done|done|by left|lia|done|done|by left]. }
  rewrite Eroot, bind_ok.
  destruct (kept_root_str s rest Hs r) as (e & -> & He & Her); [intros e He; by apply Hr|]. rewrite bind_ok.
  rewrite wcslen_str, bind_ok by done.
  destruct (filespec_loop_ok s rest size e) with (n := length s) (z := @nil Z)
    as (k & z & E & Hk & Hz & HF & Hcut); [lia|lia|simpl; lia|done|].
  rewrite firstn_all in E. cbn [app] in E. rewrite E, bind_ok.
  exists k, z. eexists _, hr', r. split; [done|]. split; [done|]. split.
  { right. destruct Hcut as [Hcut|Hcut]; [right; lia|by left]. }
  split_and!; [lia|done|done|].
  destruct (Nat.eqb_spec k (length s)); [by left|right; split; [done|lia]].
Qed.

Lemma PathCchRemoveFileSpec_prefix_witness :
  exists k z hr, PathCchRemoveFileSpec (Some ([67; 58; 92; 97; 92; 98] ++ [0; 7])) 260
    = Ok (hr, Some (take k [67; 58; 92; 97; 92; 98] ++ z ++ [0; 7])) /\ (k <= 6)%nat.
Proof.
  destruct (PathCchRemoveFileSpec_prefix [67; 58; 92; 97; 92; 98] [7] 260)
    as (k & z & hr & hr' & root & E & _ & _ & Hk & _); [nonul_tac|unfold PATHCCH_MAX_CCH; simpl; lia|].
  exists k, z, hr. split; [exact E|exact Hk].
Defined.

(** [PathCchAddBackslash] and [PathCchRemoveBackslash] are inverse: a
    backslash is added to a non-empty path that does not end in one, and when
    it is not part of the root of the new path, removing it restores the path
    (the place of the backslash then holds a second terminator). *)
Theorem PathCch_backslash_roundtrip s c rest size :
  nonul s -> needs_slash s = true -> Z.of_nat (length s) + 1 < size ->
  (forall r, get_root_end ((s ++ [bslash]) ++ 0 :: rest) = Ok (Some r) -> (r < length s)%nat) ->
  PathCchAddBackslash (s ++ 0 :: c :: rest) size = Ok (S_OK, (s ++ [bslash]) ++ 0 :: rest) /\
  PathCchRemoveBackslash ((s ++ [bslash]) ++ 0 :: rest) size = Ok (S_OK, s ++ 0 :: 0 :: rest).
Proof.
  intros Hs Hn Hsize Hroot. assert (nonul (s ++ [bslash])) as Hs'
    by (apply Forall_app; split; [done|by repeat constructor]). split.
  - unfold PathCchAddBackslash. rewrite add_backslash_ok; [|done|lia|done]. cbv zeta. rewrite Hn.
    rewrite (proj2 (Z.eqb_neq size 0)) by lia. cbn [negb andb].
    by rewrite (proj2 (Z.leb_gt _ _)) by lia.
  - unfold PathCchRemoveBackslash, PathCchRemoveBackslashEx.
    rewrite (proj2 (Z.eqb_neq size 0)) by lia.
    pose proof (wcsnlen_ok (s ++ [bslash]) Hs' [] rest (Z.to_nat size)) as Hw.
    assert (length (s ++ [bslash]) = S (length s)) as L by (rewrite length_app; simpl; lia).
    cbn [app length] in Hw. rewrite L in Hw. rewrite Hw by lia. rewrite bind_ok.
    rewrite (proj2 (Z.eqb_neq _ _)), bind_ok by lia.
    destruct (get_root_end_str (s ++ [bslash]) rest Hs') as (r & Er & _). rewrite Er, bind_ok.
    cbn [Nat.eqb]. replace (S (length s) - 1)%nat with (length s) by lia.
    assert ((s ++ [bslash]) ++ 0 :: rest = s ++ bslash :: 0 :: rest) as Ea by (by rewrite <- app_assoc).
    rewrite Ea in *. rewrite rd_middle, bind_ok by done. rewrite Z.eqb_refl, bind_ok. cbv zeta iota.
    assert (match r with None => true | Some r => (r <? length s)%nat end = true) as ->
      by (destruct r as [r|]; [apply Nat.ltb_lt; by apply Hroot|done]).
    by rewrite wr_app, bind_ok.
Qed.

Lemma PathCch_backslash_roundtrip_witness :
  PathCchRemoveBackslash [67; 58; 92; 97; 92; 0; 7] 7 = Ok (S_OK, [67; 58; 92; 97; 0; 0; 7]).
Proof.
  apply (PathCch_backslash_roundtrip [67; 58; 92; 97] 5 [7] 7);
    [nonul_tac|reflexivity|simpl; lia|]. intros r Hr. vm_compute in Hr. injection Hr as <-. simpl. lia.
Defined.

(** [PathCchRenameExtension] replaces the extension: when the path has
    the extension at [e] and none is left before it, the result is the path
    up to [e] followed by the new extension with its dot, and the size of the
    array is unchanged. *)
Theorem PathCchRenameExtension_replaces s rest size e x r :
  nonul s -> extension_at s e -> extension_at (take e s) e ->
  valid_extension x -> x <> [] -> x <> [dot] ->
  Z.of_nat (length s) < size <= PATHCCH_MAX_CCH ->
  Z.of_nat (e + length (with_dot x) + 1) <= size <= Z.of_nat (length (s ++ 0 :: rest)) ->
  exists rest',
    PathCchRenameExtension (Some (s ++ 0 :: rest)) size (Some (x ++ 0 :: r))
    = Ok (S_OK, Some ((take e s ++ with_dot x) ++ 0 :: rest')) /\
    length ((take e s ++ with_dot x) ++ 0 :: rest') = length (s ++ 0 :: rest).
Proof.
  intros Hs He He' Hx Hne Hdot Hsize Hfit. unfold PathCchRenameExtension.
  destruct (remove_extension_ok s rest size Hs Hsize) as (e1 & rest1 & He1 & -> & Hl).
  rewrite (extension_unique s e1 e He1 He) in *. rewrite bind_ok.
  assert (FAILED (if (e =? length s)%nat then S_FALSE else S_OK) = false) as ->
    by (by destruct (e =? length s)%nat).
  pose proof (extension_le s e He) as Hle.
  assert (length (take e s) = e) as Le by (rewrite length_take; lia).
  destruct (add_extension_ok (take e s) rest1 size x r) as (rest' & -> & Hl');
    rewrite ?Le; try done; try lia; [by apply Forall_take|].
  rewrite bind_ok. exists rest'. split; [done|congruence].
Qed.

Lemma PathCchRenameExtension_replaces_witness :
  exists rest', PathCchRenameExtension (Some ([97; 46; 116; 120; 116] ++ 0 :: replicate 10 1)) 16
      (Some ([99] ++ [0]))
    = Ok (S_OK, Some (([97] ++ [46; 99]) ++ 0 :: rest')).
Proof.
  destruct (PathCchRenameExtension_replaces [97; 46; 116; 120; 116] (replicate 10 1) 16 1 [99] [])
    as (rest' & E & _); [nonul_tac| | | |done|done|unfold PATHCCH_MAX_CCH; simpl; lia|simpl; lia|eauto].
  - left. split; [simpl; lia|]. split; [reflexivity|]. intros j c Hj Hc.
    do 5 (destruct j as [|j]; [try lia; try (injection Hc as <-; done)|]). done.
  - right. split; [done|]. intros i Hi. destruct i as [|i]; done.
  - split; [nonul_tac|]. intros i c Hi. destruct i as [|i]; [injection Hi as <-; split; [done|lia]|done].
Defined.

(** A name with two extensions loses one of them instead: renaming
    "a.b.c" to the extension ".d" succeeds and leaves "a.b", because the
    remaining ".b" makes [PathCchAddExtension] do nothing. *)
Theorem PathCchRenameExtension_double :
  PathCchRenameExtension (Some [97; 46; 98; 46; 99; 0; 0; 0]) 8 (Some [46; 100; 0])
  = Ok (S_OK, Some [97; 46; 98; 0; 0; 0; 0; 0]).
Proof. vm_compute. reflexivity. Qed.

(** [PathCchStripToRoot] reads past the terminator of the path "\\": it
    looks for the share from the fourth character on, one behind the end of
    the string. *)
Theorem PathCchStripToRoot_overread size :
  0 < size <= PATHCCH_MAX_CCH ->
  PathCchStripToRoot (Some [bslash; bslash; 0]) size = Fault.
Proof. intros H. unfold PathCchStripToRoot. by rewrite bad_size_ok. Qed.

Lemma PathCchStripToRoot_overread_witness :
  PathCchStripToRoot (Some [bslash; bslash; 0]) 3 = Fault.
Proof. apply (PathCchStripToRoot_overread 3). unfold PATHCCH_MAX_CCH. lia. Defined.

End PathCchSpec.
