(* ===== verification/Path.v ===== *)
(** * The shlwapi path functions (oca/extensions/kernelex/path.c)

    The Unicode functions and their byte-string versions.  The byte versions
    walk with [CharNextA], which belongs to user32 and is an argument here;
    the Unicode versions add one.  A loop shared by the two versions takes
    the way to the next character as its argument [next].  A null pointer is
    [None]; a function that changes its argument returns the array. *)
From Stdlib Require Import String Ascii.
From S2P Require Import Prelude PathCch.
Import PathCch.

Module Path.

Definition slash : Z := 47.
Definition dquote : Z := 34.
Definition semicolon : Z := 59.
Definition comma : Z := 44.

(** [path++] *)
Definition nextW (_ : list Z) (p : nat) : nat := S p.

(** [*path != c] for a character that has been read *)
Definition isnt (c d : Z) : bool := negb (c =? d).

(** [StrChr( b + off, ch )] and [wcschr]: the first occurrence. *)
Fixpoint strchr_loop (next : list Z -> nat -> nat) (fuel : nat) (b : list Z) (off : nat) (ch : Z)
    : outcome (option nat) :=
  match fuel with
  | O => NoFuel
  | S fuel =>
    c ← rd b off;
    if c =? 0 then Ok None
    else if c =? ch then Ok (Some off)
    else strchr_loop next fuel b (next b off) ch
  end.

Definition strchr next b off ch := strchr_loop next (S (length b)) b off ch.

(** [lstrcpynW( dst, src + off, n )]: at most [n - 1] characters and a
    terminator. *)
Definition lstrcpynW (dst src : list Z) (off n : nat) : outcome (list Z) :=
  k ← wcsnlen src off (n - 1);
  v ← rd_list src off k;
  wr_list dst 0 (v ++ [0]).

Section Byte.
(** user32: the next and the previous character of a byte string; kernel32:
    whether a byte is the first of two. *)
Context (CharNextA : list Z -> nat -> nat) (CharPrevA : list Z -> nat -> nat -> nat).
Context (IsDBCSLeadByte : Z -> bool).

Definition PathIsUNCA (path : option (list Z)) : outcome bool :=
  match path with None => Ok false | Some path => two_slashes path end.

Definition PathIsUNCW (path : option (list Z)) : outcome bool :=
  match path with None => Ok false | Some path => two_slashes path end.

Definition PathIsRelativeA (path : option (list Z)) : outcome bool :=
  match path with
  | None => Ok true
  | Some path =>
    c ← rd path 0;
    if (c =? 0) || IsDBCSLeadByte c then Ok true
    else if c =? bslash then Ok false
    else c1 ← rd path 1; Ok (isnt c1 colon)
  end.

Definition PathIsRelativeW (path : option (list Z)) : outcome bool :=
  match path with
  | None => Ok true
  | Some path =>
    c ← rd path 0;
    if c =? 0 then Ok true
    else if c =? bslash then Ok false
    else c1 ← rd path 1; Ok (isnt c1 colon)
  end.

(** The scan for a second backslash: [None] when there is one, otherwise
    whether there is a first. *)
Fixpoint share_loop (next : list Z -> nat -> nat) (fuel : nat) (path : list Z) (pos : nat)
    (seen_slash : bool) : outcome (option bool) :=
  match fuel with
  | O => NoFuel
  | S fuel =>
    c ← rd path pos;
    if c =? 0 then Ok (Some seen_slash)
    else if c =? bslash then
      if seen_slash then Ok None else share_loop next fuel path (next path pos) true
    else share_loop next fuel path (next path pos) seen_slash
  end.

Definition server_share (next : list Z -> nat -> nat) (path : option (list Z)) : outcome bool :=
  match path with
  | None => Ok false
  | Some path =>
    two ← two_slashes path;
    if two : bool then
      r ← share_loop next (S (length path)) path 2 false;
      Ok (default false r)
    else Ok false
  end.

Definition PathIsUNCServerShareA (path : option (list Z)) : outcome bool :=
  server_share CharNextA path.

Definition PathIsUNCServerShareW (path : option (list Z)) : outcome bool :=
  server_share nextW path.

Definition is_root (next : list Z -> nat -> nat) (path : option (list Z)) : outcome bool :=
  match path with
  | None => Ok false
  | Some path =>
    c ← rd path 0;
    if c =? 0 then Ok false
    else
      c1 ← rd path 1;
      if c =? bslash then
        if c1 =? 0 then Ok true
        else if c1 =? bslash then
          r ← share_loop next (S (length path)) path 2 false;
          Ok (match r with None => false | Some _ => true end)
        else Ok false
      else if c1 =? colon then
        c2 ← rd path 2;
        if c2 =? bslash then c3 ← rd path 3; Ok (c3 =? 0) else Ok false
      else Ok false
  end.

Definition PathIsRootA (path : option (list Z)) : outcome bool := is_root CharNextA path.

Definition PathIsRootW (path : option (list Z)) : outcome bool := is_root nextW path.

(** The search for the last separator; a colon moves [path] before the
    common step to the next character. *)
Fixpoint filespec_scan (next : list Z -> nat -> nat) (fuel : nat) (path : list Z)
    (pos filespec : nat) : outcome nat :=
  match fuel with
  | O => NoFuel
  | S fuel =>
    c ← rd path pos;
    if c =? 0 then Ok filespec
    else if c =? bslash then filespec_scan next fuel path (next path pos) pos
    else if c =? colon then
      c1 ← rd path (S pos);
      filespec_scan next fuel path (next path (S pos))
        (if c1 =? bslash then S (S pos) else S pos)
    else filespec_scan next fuel path (next path pos) filespec
  end.

(** Skip the directory or UNC prefix: the first position of the scan. *)
Definition skip_slashes (path : list Z) : outcome nat :=
  c ← rd path 0;
  let p := if c =? bslash then 1%nat else 0%nat in
  c ← rd path p;
  Ok (if c =? bslash then S p else p).

Definition remove_filespec (next : list Z -> nat -> nat) (path : option (list Z))
    : outcome (bool * option (list Z)) :=
  match path with
  | None => Ok (false, path)
  | Some a =>
    p ← skip_slashes a;
    filespec ← filespec_scan next (S (length a)) a p p;
    c ← rd a filespec;
    if c =? 0 then Ok (false, path)
    else a ← wr a filespec 0; Ok (true, Some a)
  end.

Definition PathRemoveFileSpecA (path : option (list Z)) : outcome (bool * option (list Z)) :=
  remove_filespec CharNextA path.

Definition PathRemoveFileSpecW (path : option (list Z)) : outcome (bool * option (list Z)) :=
  remove_filespec nextW path.

(** [while (!PathIsRoot(path)) if (!PathRemoveFileSpec(path)) return FALSE;] *)
Fixpoint strip_root_loop (next : list Z -> nat -> nat) (fuel : nat) (path : list Z)
    : outcome (bool * option (list Z)) :=
  match fuel with
  | O => NoFuel
  | S fuel =>
    root ← is_root next (Some path);
    if root : bool then Ok (true, Some path)
    else
      '(modified, p) ← remove_filespec next (Some path);
      if modified : bool then strip_root_loop next fuel (default path p)
      else Ok (false, p)
  end.

Definition PathStripToRootA (path : option (list Z)) : outcome (bool * option (list Z)) :=
  match path with
  | None => Ok (false, None)
  | Some path => strip_root_loop CharNextA (S (length path)) path
  end.

Definition PathStripToRootW (path : option (list Z)) : outcome (bool * option (list Z)) :=
  match path with
  | None => Ok (false, None)
  | Some path => strip_root_loop nextW (S (length path)) path
  end.

(** The [do ... while] of [PathAddBackslashA]: the last character and the
    terminator. *)
Fixpoint last_char_loop (fuel : nat) (path : list Z) (prev : nat) : outcome (nat * nat) :=
  match fuel with
  | O => NoFuel
  | S fuel =>
    let p := CharNextA path prev in
    c ← rd path p;
    if c =? 0 then Ok (prev, p) else last_char_loop fuel path p
  end.

(** The returned pointer and the array. *)
Definition PathAddBackslashA (path : option (list Z)) : outcome (option nat * option (list Z)) :=
  match path with
  | None => Ok (None, None)
  | Some a =>
    len ← wcslen a 0;
    if MAX_PATH <=? Z.of_nat len then Ok (None, path)
    else if (len =? 0)%nat then Ok (Some 0%nat, path)
    else
      '(prev, p) ← last_char_loop (S (length a)) a 0;
      c ← rd a prev;
      if c =? bslash then Ok (Some p, path)
      else
        a ← wr a p bslash;
        a ← wr a (S p) 0;
        Ok (Some (S p), Some a)
  end.

Definition PathAddBackslashW (path : option (list Z)) : outcome (option nat * option (list Z)) :=
  match path with
  | None => Ok (None, None)
  | Some a =>
    len ← wcslen a 0;
    if MAX_PATH <=? Z.of_nat len then Ok (None, path)
    else if (len =? 0)%nat then Ok (Some 0%nat, path)
    else
      c ← rd a (len - 1);
      if c =? bslash then Ok (Some len, path)
      else
        a ← wr a len bslash;
        a ← wr a (S len) 0;
        Ok (Some (S len), Some a)
  end.

Fixpoint find_extension_loop (next : list Z -> nat -> nat) (fuel : nat) (path : list Z) (pos : nat)
    (lastpoint : option nat) : outcome nat :=
  match fuel with
  | O => NoFuel
  | S fuel =>
    c ← rd path pos;
    if c =? 0 then Ok (default pos lastpoint)
    else
      find_extension_loop next fuel path (next path pos)
        (if (c =? bslash) || (c =? space) then None
         else if c =? dot then Some pos else lastpoint)
  end.

Definition find_extension (next : list Z -> nat -> nat) (path : option (list Z))
    : outcome (option nat) :=
  match path with
  | None => Ok None
  | Some path => e ← find_extension_loop next (S (length path)) path 0 None; Ok (Some e)
  end.

Definition PathFindExtensionA (path : option (list Z)) : outcome (option nat) :=
  find_extension CharNextA path.

Definition PathFindExtensionW (path : option (list Z)) : outcome (option nat) :=
  find_extension nextW path.

Definition add_extension (next : list Z -> nat -> nat) (path ext : option (list Z))
    : outcome (bool * option (list Z)) :=
  match path, ext with
  | Some a, Some ext =>
    e ← find_extension next path;
    c ← rd a (default 0%nat e);
    if isnt c 0 then Ok (false, path)
    else
      len ← wcslen a 0;
      ext_len ← wcslen ext 0;
      if MAX_PATH <=? Z.of_nat len + Z.of_nat ext_len then Ok (false, path)
      else a ← lstrcpyW a len ext 0; Ok (true, Some a)
  | _, _ => Ok (false, path)
  end.

Definition PathAddExtensionA (path ext : option (list Z)) : outcome (bool * option (list Z)) :=
  add_extension CharNextA path ext.

Definition PathAddExtensionW (path ext : option (list Z)) : outcome (bool * option (list Z)) :=
  add_extension nextW path ext.

(** ** PathCanonicalizeW *)

(** [while (dst > buffer && *dst != '\\') dst--;] *)
Fixpoint back_loop (buf : list Z) (dst : nat) : outcome nat :=
  match dst with
  | O => Ok 0%nat
  | S d => c ← rd buf dst; if c =? bslash then Ok dst else back_loop buf d
  end.

(** [buffer[dst - k]] *)
Definition rd_before (buf : list Z) (dst k : nat) : outcome Z :=
  if (dst <? k)%nat then Fault else rd buf (dst - k).

(** The branch that leaves a directory: the new [dst] before the search for
    the previous backslash. *)
Definition leave_segment (buf : list Z) (dst : nat) : outcome nat :=
  if (1 <? dst)%nat then
    c1 ← rd_before buf dst 1;
    c2 ← rd_before buf dst 2;
    if (c1 =? bslash) && (isnt c2 bslash || (2 <? dst)%nat) then
      drive ← (if c2 =? colon
               then (if (3 <? dst)%nat then Ok true
                     else c3 ← rd_before buf dst 3; Ok (c3 =? colon))
               else Ok false);
      if drive : bool then
        d ← back_loop buf (dst - 2);
        c ← rd buf d;
        Ok (if c =? bslash then S d else 0%nat)
      else if isnt c2 colon then
        share ← PathIsUNCServerShareW (Some buf);
        Ok (if share : bool then dst else (dst - 2)%nat)
      else Ok dst
    else Ok dst
  else Ok dst.

(** [\..]: the buffer, [dst] and the characters to skip in [src]. *)
Definition backup_directory (buf : list Z) (dst : nat) : outcome (list Z * nat * nat) :=
  buf ← wr buf dst 0;
  d ← leave_segment buf dst;
  d ← back_loop buf d;
  if (d =? 0)%nat then buf ← wr buf 0 bslash; Ok (buf, 1%nat, 3%nat)
  else Ok (buf, d, 2%nat).

(** [*dst++ = *src++;] *)
Definition copy_one (path : list Z) (buf : list Z) (dst src : nat) : outcome (list Z * nat * nat) :=
  c ← rd path src;
  buf ← wr buf dst c;
  Ok (buf, S dst, S src).

(** One iteration of the loop at a character [c] that is not the terminator. *)
Definition canonicalize_step (path : list Z) (buf : list Z) (dst src : nat) (c : Z)
    : outcome (list Z * nat * nat) :=
  if c =? dot then
    c1 ← rd path (S src);
    skip ← (if c1 =? bslash then
              if (src =? 0)%nat then Ok true
              else p ← rd path (src - 1); Ok ((p =? bslash) || (p =? colon))
            else Ok false);
    if skip : bool then Ok (buf, dst, (src + 2)%nat)
    else
      up ← (if (c1 =? dot) && negb (dst =? 0)%nat
            then p ← rd buf (dst - 1); Ok (p =? bslash) else Ok false);
      if up : bool then
        '(buf, dst, k) ← backup_directory buf dst;
        Ok (buf, dst, (src + k)%nat)
      else copy_one path buf dst src
  else copy_one path buf dst src.

Fixpoint canonicalize_loop (fuel : nat) (path : list Z) (buf : list Z) (dst src : nat)
    : outcome (list Z * nat) :=
  match fuel with
  | O => NoFuel
  | S fuel =>
    c ← rd path src;
    if c =? 0 then Ok (buf, dst)
    else
      '(buf, dst, src) ← canonicalize_step path buf dst src c;
      canonicalize_loop fuel path buf dst src
  end.

(** Copy the root of the path. *)
Definition copy_root (path : list Z) (buf : list Z) : outcome (list Z * nat * nat) :=
  c ← rd path 0;
  if c =? bslash then copy_one path buf 0 0
  else
    c1 ← rd path 1;
    if c1 =? colon then
      '(buf, dst, src) ← copy_one path buf 0 0;
      '(buf, dst, src) ← copy_one path buf dst src;
      c2 ← rd path src;
      if c2 =? bslash then copy_one path buf dst src else Ok (buf, dst, src)
    else Ok (buf, 0%nat, 0%nat).

(** Append a backslash to a naked drive, and the terminator. *)
Definition finish_drive (buf : list Z) (dst : nat) : outcome (list Z) :=
  drive ← (if (dst =? 2)%nat then c ← rd buf 1; Ok (c =? colon) else Ok false);
  if drive : bool then
    buf ← wr buf dst bslash;
    wr buf (S dst) 0
  else wr buf dst 0.

(** The returned flag and [buffer]. *)
Definition PathCanonicalizeW (buffer path : option (list Z)) : outcome (bool * option (list Z)) :=
  match buffer with
  | None => Ok (false, None)
  | Some buf =>
    buf ← wr buf 0 0;
    match path with
    | None => Ok (false, Some buf)
    | Some path =>
      c ← rd path 0;
      if c =? 0 then
        buf ← wr buf 0 bslash;
        buf ← wr buf 1 0;
        Ok (true, Some buf)
      else
        '(buf, dst, src) ← copy_root path buf;
        '(buf, dst) ← canonicalize_loop (S (length path)) path buf dst src;
        buf ← finish_drive buf dst;
        Ok (true, Some buf)
    end
  end.

(** The conversions of kernel32 with [CP_ACP] and length [-1]: the returned
    length and the destination array. *)
Context (MultiByteToWideChar : list Z -> list Z -> outcome (Z * list Z)).
Context (WideCharToMultiByte : list Z -> list Z -> outcome (Z * list Z)).

(** [pathW] and [bufferW] are the initial contents of the local arrays. *)
Definition PathCanonicalizeA (pathW bufferW : list Z) (buffer path : option (list Z))
    : outcome (bool * option (list Z)) :=
  match buffer with
  | None => Ok (false, None)
  | Some buf =>
    buf ← wr buf 0 0;
    match path with
    | None => Ok (false, Some buf)
    | Some path =>
      '(len, pathW) ← MultiByteToWideChar path pathW;
      if len =? 0 then Ok (false, Some buf)
      else
        '(ret, b) ← PathCanonicalizeW (Some bufferW) (Some pathW);
        '(_, buf) ← WideCharToMultiByte (default bufferW b) buf;
        Ok (ret, Some buf)
    end
  end.

(** ** PathCombineW *)

Definition is_empty (s : option (list Z)) : outcome bool :=
  match s with None => Ok true | Some s => c ← rd s 0; Ok (c =? 0) end.

(** Which of the two parts to use: [inl] the array to copy alone, [inr] both,
    with [strip]. *)
Definition combine_choice (dir file : option (list Z)) : outcome (list Z + bool) :=
  no_file ← is_empty file;
  match no_file, dir with
  | true, Some dir => Ok (inl dir)
  | _, _ =>
    no_dir ← is_empty dir;
    absolute ← (if no_dir : bool then Ok true
                else relative ← PathIsRelativeW file; Ok (negb relative));
    if absolute : bool then
      alone ← (if no_dir : bool then Ok true
               else
                 c ← rd (default [] file) 0;
                 if isnt c bslash then Ok true else PathIsUNCW file);
      Ok (if alone : bool then inl (default [] file) else inr true)
    else Ok (inr false)
  end.

(** [PathCombineW( dst, dir, file )]: whether [dst] is returned, and its
    contents.  [tmp] is the initial contents of the local array. *)
Definition PathCombineW (tmp : list Z) (dst dir file : option (list Z))
    : outcome (bool * option (list Z)) :=
  match dst, dir, file with
  | None, _, _ => Ok (false, None)
  | Some d, None, None => d ← wr d 0 0; Ok (false, Some d)
  | Some d, _, _ =>
    choice ← combine_choice dir file;
    joined ←
      match choice with
      | inl s => tmp ← lstrcpynW tmp s 0 (Z.to_nat MAX_PATH); Ok (Some tmp)
      | inr strip =>
        tmp ← lstrcpynW tmp (default [] dir) 0 (Z.to_nat MAX_PATH);
        tmp ← (if strip : bool then '(_, t) ← PathStripToRootW (Some tmp); Ok (default tmp t)
               else Ok tmp);
        let off := if strip : bool then 1%nat else 0%nat in
        '(r, t) ← PathAddBackslashW (Some tmp);
        match r with
        | None => Ok None
        | Some _ =>
          let tmp := default tmp t in
          n ← wcslen tmp 0;
          m ← wcslen (default [] file) off;
          if MAX_PATH <=? Z.of_nat n + Z.of_nat m then Ok None
          else tmp ← lstrcatW tmp (default [] file) off; Ok (Some tmp)
        end
      end;
    match joined with
    | None => d ← wr d 0 0; Ok (false, Some d)
    | Some tmp => '(_, d) ← PathCanonicalizeW (Some d) (Some tmp); Ok (true, d)
    end
  end.

(** A conversion of an optional argument: [None] when it fails. *)
Definition to_wide (s : option (list Z)) (w : list Z) : outcome (option (option (list Z))) :=
  match s with
  | None => Ok (Some None)
  | Some s => '(len, w) ← MultiByteToWideChar s w; Ok (if len =? 0 then None else Some (Some w))
  end.

Definition PathCombineA (dstW dirW fileW tmp : list Z) (dst dir file : option (list Z))
    : outcome (bool * option (list Z)) :=
  match dst, dir, file with
  | None, _, _ => Ok (false, None)
  | Some d, None, None => d ← wr d 0 0; Ok (false, Some d)
  | Some d, _, _ =>
    dw ← to_wide dir dirW;
    fw ← (match dw with None => Ok None | Some _ => to_wide file fileW end);
    match dw, fw with
    | Some dw, Some fw =>
      '(ok, w) ← PathCombineW tmp (Some dstW) dw fw;
      if ok : bool then
        '(n, d) ← WideCharToMultiByte (default dstW w) d;
        if isnt n 0 then Ok (true, Some d) else d ← wr d 0 0; Ok (false, Some d)
      else d ← wr d 0 0; Ok (false, Some d)
    | _, _ => d ← wr d 0 0; Ok (false, Some d)
    end
  end.

(** [while ( *append == '\\') append++;] *)
Fixpoint skip_char (fuel : nat) (b : list Z) (off : nat) (ch : Z) : outcome nat :=
  match fuel with
  | O => NoFuel
  | S fuel => c ← rd b off; if c =? ch then skip_char fuel b (S off) ch else Ok off
  end.

(** The part of [append] that is joined. *)
Definition append_part (append : list Z) : outcome (list Z) :=
  unc ← two_slashes append;
  if unc : bool then Ok append
  else n ← skip_char (S (length append)) append 0 bslash; Ok (drop n append).

Definition PathAppendA (dstW dirW fileW tmp : list Z) (path append : option (list Z))
    : outcome (bool * option (list Z)) :=
  match path, append with
  | Some _, Some append =>
    append ← append_part append;
    PathCombineA dstW dirW fileW tmp path path (Some append)
  | _, _ => Ok (false, path)
  end.

(** [PathCombineW( path, path, append )] reads all of [dir] before it writes
    to [dst], so the aliased arguments are passed by value. *)
Definition PathAppendW (tmp : list Z) (path append : option (list Z))
    : outcome (bool * option (list Z)) :=
  match path, append with
  | Some _, Some append =>
    append ← append_part append;
    PathCombineW tmp path path (Some append)
  | _, _ => Ok (false, path)
  end.

(** ** Prefixes *)
Context (tolower towupper : Z -> Z).

(** The comparison loop of [PathCommonPrefix], both iterators at offset
    [pos]: the last position where both paths end a component. *)
Fixpoint prefix_loop (fold : Z -> Z) (fuel : nat) (file1 file2 : list Z) (pos : nat) (len : nat)
    : outcome nat :=
  match fuel with
  | O => NoFuel
  | S fuel =>
    c1 ← rd file1 pos;
    c2 ← rd file2 pos;
    let len := if ((c1 =? 0) || (c1 =? bslash)) && ((c2 =? 0) || (c2 =? bslash))
               then pos else len in
    if (c1 =? 0) || isnt (fold c1) (fold c2) then Ok len
    else prefix_loop fold fuel file1 file2 (S pos) len
  end.

(** The roots: the first position of the comparison, [None] when only one of
    the paths is a UNC path. *)
Definition prefix_start (file1 file2 : list Z) : outcome (option nat) :=
  unc1 ← two_slashes file1;
  unc2 ← two_slashes file2;
  Ok (if unc1 : bool then if unc2 : bool then Some 2%nat else None
      else if unc2 : bool then None else Some 0%nat).

(** The returned length and [path]. *)
Definition common_prefix (fold : Z -> Z) (file1 file2 path : option (list Z))
    : outcome (nat * option (list Z)) :=
  path ← match path with None => Ok None | Some p => p ← wr p 0 0; Ok (Some p) end;
  match file1, file2 with
  | Some file1, Some file2 =>
    start ← prefix_start file1 file2;
    match start with
    | None => Ok (0%nat, path)
    | Some start =>
      len ← prefix_loop fold (S (length file1)) file1 file2 start 0;
      let len := if (len =? 2)%nat then 3%nat else len in
      match path with
      | Some p =>
        if (len =? 0)%nat then Ok (len, path)
        else
          v ← rd_list file1 0 len;
          p ← wr_list p 0 v;
          p ← wr p len 0;
          Ok (len, Some p)
      | None => Ok (len, path)
      end
    end
  | _, _ => Ok (0%nat, path)
  end.

Definition PathCommonPrefixA (file1 file2 path : option (list Z)) : outcome (nat * option (list Z)) :=
  common_prefix tolower file1 file2 path.

Definition PathCommonPrefixW (file1 file2 path : option (list Z)) : outcome (nat * option (list Z)) :=
  common_prefix towupper file1 file2 path.

Definition is_prefix (fold : Z -> Z) (prefix path : option (list Z)) : outcome bool :=
  match prefix, path with
  | Some p, Some _ =>
    '(len, _) ← common_prefix fold path prefix None;
    n ← wcslen p 0;
    Ok (len =? n)%nat
  | _, _ => Ok false
  end.

Definition PathIsPrefixA (prefix path : option (list Z)) : outcome bool := is_prefix tolower prefix path.

Definition PathIsPrefixW (prefix path : option (list Z)) : outcome bool := is_prefix towupper prefix path.

(** ** File names and arguments *)

Fixpoint filename_loop (next : list Z -> nat -> nat) (fuel : nat) (path : list Z)
    (pos last_slash : nat) : outcome nat :=
  match fuel with
  | O => NoFuel
  | S fuel =>
    c ← rd path pos;
    if c =? 0 then Ok last_slash
    else
      starts_name ← (if (c =? bslash) || (c =? slash) || (c =? colon)
                     then c1 ← rd path (S pos); Ok (isnt c1 0 && isnt c1 bslash && isnt c1 slash)
                     else Ok false);
      filename_loop next fuel path (next path pos)
        (if starts_name : bool then S pos else last_slash)
  end.

Definition find_filename (next : list Z -> nat -> nat) (path : option (list Z))
    : outcome (option nat) :=
  match path with
  | None => Ok None
  | Some path => n ← filename_loop next (S (length path)) path 0 0; Ok (Some n)
  end.

Definition PathFindFileNameA (path : option (list Z)) : outcome (option nat) :=
  find_filename CharNextA path.

Definition PathFindFileNameW (path : option (list Z)) : outcome (option nat) :=
  find_filename nextW path.

Fixpoint args_loop (next : list Z -> nat -> nat) (fuel : nat) (path : list Z) (pos : nat)
    (seen_quote : bool) : outcome nat :=
  match fuel with
  | O => NoFuel
  | S fuel =>
    c ← rd path pos;
    if c =? 0 then Ok pos
    else if (c =? space) && negb seen_quote then Ok (S pos)
    else args_loop next fuel path (next path pos) (if c =? dquote then negb seen_quote else seen_quote)
  end.

Definition get_args (next : list Z -> nat -> nat) (path : option (list Z)) : outcome (option nat) :=
  match path with
  | None => Ok None
  | Some path => n ← args_loop next (S (length path)) path 0 false; Ok (Some n)
  end.

Definition PathGetArgsA (path : option (list Z)) : outcome (option nat) := get_args CharNextA path.

Definition PathGetArgsW (path : option (list Z)) : outcome (option nat) := get_args nextW path.

(** ** Characters and drives *)

(** sdk/include/psdk/shlwapi.h *)
Definition GCT_INVALID := 0x0.
Definition GCT_LFNCHAR := 0x1.
Definition GCT_SHORTCHAR := 0x2.
Definition GCT_WILD := 0x4.
Definition GCT_SEPARATOR := 0x8.

Definition isdigit (c : Z) : bool := (48 <=? c) && (c <=? 57).
Definition isalnum (c : Z) : bool := isalpha c || isdigit c.

(** [c] is one of the characters [l]. *)
Definition one_of (c : Z) (l : list Z) : bool := existsb (Z.eqb c) l.

Definition PathGetCharTypeW (ch : Z) : Z :=
  if (ch =? 0) || (ch <? space) || one_of ch [60; 62; 34; 124; 47] then GCT_INVALID
  else if one_of ch [star; qmark] then GCT_WILD
  else if one_of ch [bslash; colon] then GCT_SEPARATOR
  else
    let flags :=
      if ch <? 126 then
        if (Z.odd ch && isnt ch semicolon) || (ch =? 0) || isalnum ch
           || one_of ch [36; 38; 40; 46; 64; 94; 39; 96]
        then GCT_SHORTCHAR else 0
      else GCT_SHORTCHAR in
    Z.lor flags GCT_LFNCHAR.

Definition PathGetCharTypeA (ch : Z) : Z := PathGetCharTypeW ch.

(** The number of a drive letter followed by a colon. *)
Definition PathGetDriveNumberA (path : option (list Z)) : outcome Z :=
  match path with
  | None => Ok (-1)
  | Some path =>
    c ← rd path 0;
    if c =? 0 then Ok (-1)
    else
      c1 ← rd path 1;
      if isnt c1 colon then Ok (-1)
      else if (97 <=? c) && (c <=? 122) then Ok (c - 97)
      else if (65 <=? c) && (c <=? 90) then Ok (c - 65)
      else Ok (-1)
  end.

Definition PathGetDriveNumberW (path : option (list Z)) : outcome Z :=
  match path with
  | None => Ok (-1)
  | Some path =>
    long ← starts path 0 prefix_long;
    let p := if long : bool then 4%nat else 0%nat in
    c ← rd path p;
    if c =? 0 then Ok (-1)
    else
      c1 ← rd path (S p);
      if isnt c1 colon then Ok (-1)
      else if (65 <=? c) && (c <=? 90) then Ok (c - 65)
      else if (97 <=? c) && (c <=? 122) then Ok (c - 97)
      else Ok (-1)
  end.

(** No character up to the terminator is one of [seps]. *)
Fixpoint none_of_loop (next : list Z -> nat -> nat) (fuel : nat) (path : list Z) (pos : nat)
    (seps : list Z) : outcome bool :=
  match fuel with
  | O => NoFuel
  | S fuel =>
    c ← rd path pos;
    if c =? 0 then Ok true
    else if one_of c seps then Ok false
    else none_of_loop next fuel path (next path pos) seps
  end.

Definition PathIsFileSpecA (path : option (list Z)) : outcome bool :=
  match path with
  | None => Ok false
  | Some path => none_of_loop CharNextA (S (length path)) path 0 [bslash; colon]
  end.

Definition PathIsFileSpecW (path : option (list Z)) : outcome bool :=
  match path with
  | None => Ok false
  | Some path => none_of_loop nextW (S (length path)) path 0 [bslash; colon]
  end.

(** The byte version scans from the start of the path. *)
Definition PathIsUNCServerA (path : option (list Z)) : outcome bool :=
  match path with
  | None => Ok false
  | Some path =>
    two ← two_slashes path;
    if two : bool then none_of_loop CharNextA (S (length path)) path 0 [bslash] else Ok false
  end.

Definition PathIsUNCServerW (path : option (list Z)) : outcome bool :=
  match path with
  | None => Ok false
  | Some path =>
    two ← two_slashes path;
    if two : bool then
      r ← strchr nextW path 2 bslash;
      Ok (match r with None => true | Some _ => false end)
    else Ok false
  end.

(** ** Blanks, extensions, quotes and backslashes *)

(** [while ( *path) *start++ = *path++;] *)
Fixpoint copy_down (fuel : nat) (b : list Z) (dst src : nat) : outcome (list Z * nat) :=
  match fuel with
  | O => NoFuel
  | S fuel =>
    c ← rd b src;
    if c =? 0 then Ok (b, dst)
    else b ← wr b dst c; copy_down fuel b (S dst) (S src)
  end.

(** [while (start[-1] == ' ') start--;] *)
Fixpoint trim_loop (b : list Z) (start : nat) : outcome nat :=
  match start with
  | O => Fault
  | S p => c ← rd b p; if c =? space then trim_loop b p else Ok start
  end.

(** [while ( *path == ' ') path = CharNext(path);] *)
Fixpoint skip_blanks (next : list Z -> nat -> nat) (fuel : nat) (b : list Z) (off : nat) : outcome nat :=
  match fuel with
  | O => NoFuel
  | S fuel => c ← rd b off; if c =? space then skip_blanks next fuel b (next b off) else Ok off
  end.

Definition remove_blanks (next : list Z -> nat -> nat) (path : option (list Z))
    : outcome (option (list Z)) :=
  match path with
  | None => Ok None
  | Some a =>
    c ← rd a 0;
    if c =? 0 then Ok path
    else
      p ← skip_blanks next (S (length a)) a 0;
      '(a, start) ← copy_down (S (length a)) a 0 p;
      start ← (if (start =? 0)%nat then Ok start else trim_loop a start);
      a ← wr a start 0;
      Ok (Some a)
  end.

Definition PathRemoveBlanksA (path : option (list Z)) : outcome (option (list Z)) :=
  remove_blanks CharNextA path.

Definition PathRemoveBlanksW (path : option (list Z)) : outcome (option (list Z)) :=
  remove_blanks nextW path.

Definition remove_extension (next : list Z -> nat -> nat) (path : option (list Z))
    : outcome (option (list Z)) :=
  match path with
  | None => Ok None
  | Some a =>
    e ← find_extension next path;
    match e with
    | None => Ok path
    | Some e => c ← rd a e; if c =? 0 then Ok path else a ← wr a e 0; Ok (Some a)
    end
  end.

Definition PathRemoveExtensionA (path : option (list Z)) : outcome (option (list Z)) :=
  remove_extension CharNextA path.

Definition PathRemoveExtensionW (path : option (list Z)) : outcome (option (list Z)) :=
  remove_extension nextW path.

Definition rename_extension (next : list Z -> nat -> nat) (path : option (list Z)) (ext : list Z)
    : outcome (bool * option (list Z)) :=
  e ← find_extension next path;
  match e, path with
  | Some e, Some a =>
    n ← wcslen ext 0;
    if MAX_PATH <=? Z.of_nat e + Z.of_nat n then Ok (false, path)
    else a ← lstrcpyW a e ext 0; Ok (true, Some a)
  | _, _ => Ok (false, path)
  end.

Definition PathRenameExtensionA (path : option (list Z)) (ext : list Z) : outcome (bool * option (list Z)) :=
  rename_extension CharNextA path ext.

Definition PathRenameExtensionW (path : option (list Z)) (ext : list Z) : outcome (bool * option (list Z)) :=
  rename_extension nextW path ext.

(** [for (; *path; path++) *path = path[1];] *)
Fixpoint shift_loop (fuel : nat) (b : list Z) (pos : nat) : outcome (list Z) :=
  match fuel with
  | O => NoFuel
  | S fuel =>
    c ← rd b pos;
    if c =? 0 then Ok b
    else c1 ← rd b (S pos); b ← wr b pos c1; shift_loop fuel b (S pos)
  end.

Definition unquote (path : option (list Z)) : outcome (option (list Z)) :=
  match path with
  | None => Ok None
  | Some a =>
    c ← rd a 0;
    if isnt c dquote then Ok path
    else
      n ← wcslen a 0;
      c ← rd a (n - 1);
      if c =? dquote then
        a ← wr a (n - 1) 0;
        a ← shift_loop (S (length a)) a 0;
        Ok (Some a)
      else Ok path
  end.

Definition PathUnquoteSpacesA (path : option (list Z)) : outcome (option (list Z)) := unquote path.

Definition PathUnquoteSpacesW (path : option (list Z)) : outcome (option (list Z)) := unquote path.

Definition quote_spaces (next : list Z -> nat -> nat) (path : option (list Z))
    : outcome (option (list Z)) :=
  match path with
  | None => Ok None
  | Some a =>
    r ← strchr next a 0 space;
    match r with
    | None => Ok path
    | Some _ =>
      n ← wcslen a 0;
      let len := S n in
      if Z.of_nat len + 2 <? MAX_PATH then
        v ← rd_list a 0 len;
        a ← wr_list a 1 v;
        a ← wr a 0 dquote;
        a ← wr a len dquote;
        a ← wr a (S len) 0;
        Ok (Some a)
      else Ok path
    end
  end.

Definition PathQuoteSpacesA (path : option (list Z)) : outcome (option (list Z)) :=
  quote_spaces CharNextA path.

Definition PathQuoteSpacesW (path : option (list Z)) : outcome (option (list Z)) :=
  quote_spaces nextW path.

(** The returned pointer and the array. *)
Definition PathRemoveBackslashA (path : option (list Z)) : outcome (option nat * option (list Z)) :=
  match path with
  | None => Ok (None, None)
  | Some a =>
    n ← wcslen a 0;
    let ptr := CharPrevA a 0 n in
    root ← PathIsRootA path;
    if root : bool then Ok (Some ptr, path)
    else
      c ← rd a ptr;
      if c =? bslash then a ← wr a ptr 0; Ok (Some ptr, Some a) else Ok (Some ptr, path)
  end.

Definition PathRemoveBackslashW (path : option (list Z)) : outcome (option nat * option (list Z)) :=
  match path with
  | None => Ok (None, None)
  | Some a =>
    n ← wcslen a 0;
    let ptr := (n - 1)%nat in
    root ← PathIsRootW path;
    if root : bool then Ok (Some ptr, path)
    else
      c ← rd a ptr;
      if c =? bslash then a ← wr a ptr 0; Ok (Some ptr, Some a) else Ok (Some ptr, path)
  end.

(** ** Long file names and character classes *)

Fixpoint lfn_loop (next : list Z -> nat -> nat) (fuel : nat) (path : list Z) (pos : nat)
    (name_len ext_len : Z) : outcome bool :=
  match fuel with
  | O => NoFuel
  | S fuel =>
    c ← rd path pos;
    if c =? 0 then Ok false
    else if c =? space then Ok true
    else if c =? dot then
      if isnt ext_len 0 then Ok true
      else lfn_loop next fuel path (next path pos) name_len 1
    else if isnt ext_len 0 then
      if 4 <? ext_len + 1 then Ok true
      else lfn_loop next fuel path (next path pos) name_len (ext_len + 1)
    else
      if 8 <? name_len + 1 then Ok true
      else lfn_loop next fuel path (next path pos) (name_len + 1) ext_len
  end.

Definition PathIsLFNFileSpecA (path : option (list Z)) : outcome bool :=
  match path with
  | None => Ok false
  | Some path => lfn_loop CharNextA (S (length path)) path 0 0 0
  end.

Definition PathIsLFNFileSpecW (path : option (list Z)) : outcome bool :=
  match path with
  | None => Ok false
  | Some path => lfn_loop nextW (S (length path)) path 0 0 0
  end.

Definition path_charclass : list Z :=
  let LETTER := 0x00000001 in let ASTERIX := 0x00000002 in
  let DOT := 0x00000004 in let BACKSLASH := 0x00000008 in
  let COLON := 0x00000010 in let SEMICOLON := 0x00000020 in
  let COMMA := 0x00000040 in let SPACE := 0x00000080 in
  let OTHER_VALID := 0x00000100 in let DOUBLEQUOTE := 0x00000200 in
  let INVALID := 0x00000000 in let ANY := 0xffffffff in
  [
    INVALID; INVALID; INVALID; INVALID; INVALID; INVALID; INVALID; INVALID; INVALID; INVALID;
    INVALID; INVALID; INVALID; INVALID; INVALID; INVALID; INVALID; INVALID; INVALID; INVALID;
    INVALID; INVALID; INVALID; INVALID; INVALID; INVALID; INVALID; INVALID; INVALID; INVALID;
    INVALID; INVALID; SPACE; OTHER_VALID; DOUBLEQUOTE; OTHER_VALID; OTHER_VALID; OTHER_VALID;
    OTHER_VALID; OTHER_VALID; OTHER_VALID; OTHER_VALID; ASTERIX; OTHER_VALID; COMMA;
    OTHER_VALID; DOT; INVALID; OTHER_VALID; OTHER_VALID; OTHER_VALID; OTHER_VALID; OTHER_VALID;
    OTHER_VALID; OTHER_VALID; OTHER_VALID; OTHER_VALID; OTHER_VALID; COLON; SEMICOLON; INVALID;
    OTHER_VALID; INVALID; LETTER; OTHER_VALID; ANY; ANY; ANY; ANY; ANY; ANY; ANY; ANY; ANY; ANY;
    ANY; ANY; ANY; ANY; ANY; ANY; ANY; ANY; ANY; ANY; ANY; ANY; ANY; ANY; ANY; ANY; OTHER_VALID;
    BACKSLASH; OTHER_VALID; OTHER_VALID; OTHER_VALID; OTHER_VALID; ANY; ANY; ANY; ANY; ANY; ANY;
    ANY; ANY; ANY; ANY; ANY; ANY; ANY; ANY; ANY; ANY; ANY; ANY; ANY; ANY; ANY; ANY; ANY; ANY;
    ANY; ANY; OTHER_VALID; INVALID; OTHER_VALID; OTHER_VALID
  ].

Definition PATH_CHAR_CLASS_OTHER_VALID := 0x00000100.

(** [c] is a signed [char]: the conversion to unsigned makes a negative one
    large. *)
Definition PathIsValidCharA (c class : Z) : outcome Z :=
  if 0x7e <? u32 c then Ok (Z.land class PATH_CHAR_CLASS_OTHER_VALID)
  else v ← rd path_charclass (Z.to_nat (u32 c)); Ok (Z.land class v).

Definition PathIsValidCharW (c class : Z) : outcome Z :=
  if 0x7e <? c then Ok (Z.land class PATH_CHAR_CLASS_OTHER_VALID)
  else v ← rd path_charclass (Z.to_nat c); Ok (Z.land class v).

(** ** Components and roots *)

(** [PathFindNextComponent( path + off )] *)
Definition next_component (next : list Z -> nat -> nat) (path : list Z) (off : nat)
    : outcome (option nat) :=
  c ← rd path off;
  if c =? 0 then Ok None
  else
    r ← strchr next path off bslash;
    match r with
    | Some p => c1 ← rd path (S p); Ok (Some (if c1 =? bslash then S (S p) else S p))
    | None => n ← wcslen path off; Ok (Some (off + n)%nat)
    end.

Definition PathFindNextComponentA (path : option (list Z)) (off : nat) : outcome (option nat) :=
  match path with None => Ok None | Some path => next_component CharNextA path off end.

Definition PathFindNextComponentW (path : option (list Z)) (off : nat) : outcome (option nat) :=
  match path with None => Ok None | Some path => next_component nextW path off end.

(** Skip the share server and the mount point. *)
Definition skip_share (next : list Z -> nat -> nat) (path : list Z) : outcome (option nat) :=
  server ← strchr next path 2 bslash;
  match server with
  | None => Ok None
  | Some p =>
    mount ← strchr next path (S p) bslash;
    Ok (match mount with None => None | Some p => Some (S p) end)
  end.

(** [x:\] *)
Definition skip_drive (path : list Z) : outcome (option nat) :=
  c1 ← rd path 1;
  if c1 =? colon then c2 ← rd path 2; Ok (if c2 =? bslash then Some 3%nat else None) else Ok None.

Definition PathSkipRootA (path : option (list Z)) : outcome (option nat) :=
  match path with
  | None => Ok None
  | Some path =>
    c ← rd path 0;
    if c =? 0 then Ok None
    else
      two ← two_slashes path;
      if two : bool then skip_share CharNextA path
      else if IsDBCSLeadByte c then Ok None
      else skip_drive path
  end.

Definition PathSkipRootW (path : option (list Z)) : outcome (option nat) :=
  match path with
  | None => Ok None
  | Some path =>
    c ← rd path 0;
    if c =? 0 then Ok None
    else
      two ← two_slashes path;
      if two : bool then skip_share nextW path else skip_drive path
  end.

Definition strip_path (next : list Z -> nat -> nat) (path : option (list Z))
    : outcome (option (list Z)) :=
  filename ← find_filename next path;
  match filename, path with
  | Some f, Some a => if (f =? 0)%nat then Ok path else a ← lstrcpyW_within a 0 f; Ok (Some a)
  | _, _ => Ok path
  end.

Definition PathStripPathA (path : option (list Z)) : outcome (option (list Z)) := strip_path CharNextA path.

Definition PathStripPathW (path : option (list Z)) : outcome (option (list Z)) := strip_path nextW path.

Definition PathIsSameRootA (path1 path2 : option (list Z)) : outcome bool :=
  match path1, path2 with
  | Some _, Some _ =>
    start ← PathSkipRootA path1;
    match start with
    | None => Ok false
    | Some start => '(len, _) ← PathCommonPrefixA path1 path2 None; Ok (start <=? len + 1)%nat
    end
  | _, _ => Ok false
  end.

Definition PathIsSameRootW (path1 path2 : option (list Z)) : outcome bool :=
  match path1, path2 with
  | Some _, Some _ =>
    start ← PathSkipRootW path1;
    match start with
    | None => Ok false
    | Some start => '(len, _) ← PathCommonPrefixW path1 path2 None; Ok (start <=? len + 1)%nat
    end
  | _, _ => Ok false
  end.

(** ** PathRelativePathToW *)

Definition FILE_ATTRIBUTE_DIRECTORY := 0x10.

(** One ["..\"] for each component of [from] after [off]. *)
Fixpoint dotdots_loop (fuel : nat) (path from : list Z) (off : nat) : outcome (list Z) :=
  match fuel with
  | O => NoFuel
  | S fuel =>
    c ← rd from off;
    if c =? 0 then Ok path
    else
      next ← PathFindNextComponentW (Some from) off;
      match next with
      | None => Fault
      | Some off =>
        c ← rd from off;
        path ← lstrcatW path (if c =? 0 then [dot; dot; 0] else [dot; dot; bslash; 0]) 0;
        dotdots_loop fuel path from off
      end
  end.

(** The local copy of an argument, without its file name when it is a file. *)
Definition directory_of (buf s : list Z) (attributes : Z) : outcome (list Z) :=
  buf ← lstrcpynW buf s 0 (Z.to_nat MAX_PATH);
  if Z.land attributes FILE_ATTRIBUTE_DIRECTORY =? 0
  then '(_, b) ← PathRemoveFileSpecW (Some buf); Ok (default buf b)
  else Ok buf.

(** Append the components of [to] from [len] on. *)
Definition append_to (path to : list Z) (len : nat) : outcome (bool * list Z) :=
  c ← rd to len;
  if c =? 0 then Ok (true, path)
  else
    p ← rd_before to len 1;
    if p =? 0 then Ok (true, path)
    else
      let off := if c =? bslash then len else (len - 1)%nat in
      n ← wcslen path 0;
      m ← wcslen to off;
      if MAX_PATH <=? Z.of_nat n + Z.of_nat m then path ← wr path 0 0; Ok (false, path)
      else path ← lstrcpyW path n to off; Ok (true, path).

(** [fromW] and [toW] are the initial contents of the local arrays. *)
Definition PathRelativePathToW (fromW toW : list Z) (path from : option (list Z)) (attributes_from : Z)
    (to : option (list Z)) (attributes_to : Z) : outcome (bool * option (list Z)) :=
  match path, from, to with
  | Some a, Some from, Some to =>
    a ← wr a 0 0;
    fromW ← directory_of fromW from attributes_from;
    toW ← directory_of toW to attributes_to;
    '(len, _) ← PathCommonPrefixW (Some fromW) (Some toW) None;
    if (len =? 0)%nat then Ok (false, Some a)
    else
      c ← rd fromW len;
      a ← (if c =? 0 then a ← wr a 0 dot; wr a 1 0 else Ok a);
      a ← dotdots_loop (S (length fromW)) a fromW (if c =? bslash then S len else len);
      '(r, a) ← append_to a to len;
      Ok (r, Some a)
  | _, _, _ => Ok (false, path)
  end.

Definition PathRelativePathToA (pathW fromW toW fromW' toW' : list Z) (path from : option (list Z))
    (attributes_from : Z) (to : option (list Z)) (attributes_to : Z)
    : outcome (bool * option (list Z)) :=
  match path, from, to with
  | Some a, Some from, Some to =>
    '(_, fromW) ← MultiByteToWideChar from fromW;
    '(_, toW) ← MultiByteToWideChar to toW;
    '(ret, p) ← PathRelativePathToW fromW' toW' (Some pathW) (Some fromW) attributes_from
                  (Some toW) attributes_to;
    '(_, a) ← WideCharToMultiByte (default pathW p) a;
    Ok (ret, Some a)
  | _, _, _ => Ok (false, path)
  end.

(** ** PathMatchSpecW

    A pointer is the rest of its array here: the functions only move
    forward. *)

(** [while ( *mask == '*') mask++;] and the test that follows. *)
Fixpoint only_stars (mask : list Z) : outcome bool :=
  match mask with
  | [] => Fault
  | m :: mask => if m =? star then only_stars mask else Ok ((m =? 0) || (m =? semicolon))
  end.

Fixpoint path_match_maskW (mask name : list Z) {struct mask} : outcome bool :=
  match name, mask with
  | n :: name', m :: mask' =>
    if isnt n 0 && isnt m 0 && isnt m semicolon then
      if m =? star then
        (fix substrings (name : list Z) : outcome bool :=
           r ← path_match_maskW mask' name;
           if r : bool then Ok true
           else match name with
                | [] => Fault
                | n :: name => if n =? 0 then Ok false else substrings name
                end) name
      else if isnt (towupper m) (towupper n) && isnt m qmark then Ok false
      else path_match_maskW mask' name'
    else if n =? 0 then only_stars mask
    else Ok false
  | _, _ => Fault
  end.

(** [while ( *mask == ' ') mask++;] *)
Fixpoint eat_spaces (mask : list Z) : list Z :=
  match mask with m :: mask' => if m =? space then eat_spaces mask' else mask | [] => [] end.

(** To the separator or the terminator, and past the separator. *)
Fixpoint next_mask (mask : list Z) : outcome (list Z) :=
  match mask with
  | [] => Fault
  | m :: mask' =>
    if m =? 0 then Ok mask else if m =? semicolon then Ok mask' else next_mask mask'
  end.

Fixpoint match_spec_loop (fuel : nat) (path mask : list Z) : outcome Z :=
  match fuel with
  | O => NoFuel
  | S fuel =>
    m ← rd mask 0;
    if m =? 0 then Ok S_FALSE
    else
      let mask := eat_spaces mask in
      r ← path_match_maskW mask path;
      if r : bool then Ok S_OK
      else mask ← next_mask mask; match_spec_loop fuel path mask
  end.

(** kernel32: the comparisons of two strings. *)
Context (lstrcmpA lstrcmpW : list Z -> list Z -> Z).

(** ["*.*"] *)
Definition star_dot_star : list Z := [star; dot; star; 0].

Definition PathMatchSpecExW (path mask : list Z) : outcome Z :=
  if lstrcmpW mask star_dot_star =? 0 then Ok S_OK
  else match_spec_loop (S (length mask)) path mask.

Definition PathMatchSpecW (path mask : list Z) : outcome bool :=
  r ← PathMatchSpecExW path mask; Ok (r =? S_OK).

(** [heap_strdupAtoW]: the length is asked for first; the allocation succeeds. *)
Context (WideLength : list Z -> Z).

Definition heap_strdupAtoW (str : option (list Z)) : outcome (option (list Z)) :=
  match str with
  | None => Ok None
  | Some str =>
    '(_, w) ← MultiByteToWideChar str (replicate (Z.to_nat (WideLength str)) 0);
    Ok (Some w)
  end.

Definition PathMatchSpecExA (path mask : list Z) : outcome Z :=
  if lstrcmpA mask star_dot_star =? 0 then Ok S_OK
  else
    pathW ← heap_strdupAtoW (Some path);
    maskW ← heap_strdupAtoW (Some mask);
    PathMatchSpecExW (default [] pathW) (default [] maskW).

Definition PathMatchSpecA (path mask : list Z) : outcome bool :=
  r ← PathMatchSpecExA path mask; Ok (r =? S_OK).

(** ** PathParseIconLocationW *)

(** shlwapi: the number at a position of the string. *)
Context (StrToInt : list Z -> nat -> Z).

Definition icon_location (next : list Z -> nat -> nat) (path : option (list Z))
    : outcome (Z * option (list Z)) :=
  match path with
  | None => Ok (0, None)
  | Some a =>
    r ← strchr nextW a 0 comma;
    '(ret, a) ← match r with
                | None => Ok (0, a)
                | Some p => a ← wr a p 0; Ok (StrToInt a (S p), a)
                end;
    p ← unquote (Some a);
    p ← remove_blanks next p;
    Ok (ret, p)
  end.

Definition PathParseIconLocationA (path : option (list Z)) : outcome (Z * option (list Z)) :=
  icon_location CharNextA path.

Definition PathParseIconLocationW (path : option (list Z)) : outcome (Z * option (list Z)) :=
  icon_location nextW path.

(** ** PathUnExpandEnvStringsW *)

(** kernel32: the value of a variable (the returned length counts the
    terminator) and the comparison of the first characters ignoring case. *)
Context (ExpandEnvironmentStringsW : list Z -> Z * list Z).
Context (ordinal_equal : list Z -> list Z -> nat -> bool).

Record envvar := Envvar { ev_var : list Z; ev_path : list Z; ev_len : nat }.

(** [init_envvars_map] *)
Definition init_envvars_map (vars : list (list Z)) : list envvar :=
  map (fun v => let '(n, p) := ExpandEnvironmentStringsW v in
                Envvar v p (Z.to_nat (if n =? 0 then 0 else n - 1))) vars.

(** A wide string literal. *)
Definition wide (s : String.string) : list Z :=
  map (fun a => Z.of_N (Ascii.N_of_ascii a)) (String.list_ascii_of_string s) ++ [0].

Definition envvars : list (list Z) :=
  [wide "%ALLUSERSPROFILE%"%string; wide "%APPDATA%"%string; wide "%ProgramFiles%"%string; wide "%SystemRoot%"%string;
   wide "%SystemDrive%"%string; wide "%USERPROFILE%"%string].

Definition null_var : envvar := Envvar [0] [0] 0.

(** The longest value that starts the path; the first of equal ones. *)
Fixpoint best_match (path : list Z) (pathlen : nat) (vars : list envvar) (best : envvar) : envvar :=
  match vars with
  | [] => best
  | cur :: vars =>
    if (ev_len cur =? 0)%nat || (pathlen <? ev_len cur)%nat || negb (ordinal_equal (ev_path cur) path (ev_len cur))
    then best_match path pathlen vars best
    else best_match path pathlen vars (if (ev_len best <? ev_len cur)%nat then cur else best)
  end.

Definition PathUnExpandEnvStringsW (path : list Z) (buffer : list Z)
    (buf_len : Z) : outcome (bool * list Z) :=
  pathlen ← wcslen path 0;
  let best := best_match path pathlen (init_envvars_map envvars) null_var in
  n ← wcslen (ev_var best) 0;
  let needed := Z.of_nat n + 1 + Z.of_nat pathlen - Z.of_nat (ev_len best) in
  if (ev_len best =? 0)%nat || (buf_len <? needed) then Ok (false, buffer)
  else
    buffer ← lstrcpyW buffer 0 (ev_var best) 0;
    buffer ← lstrcatW buffer path (ev_len best);
    Ok (true, buffer).

End Byte.

End Path.
