(* ===== verification/PathMatch.v ===== *)
(** * PathMatchSpecW against a reference matcher

    [glob] is the meaning of a file mask, [spec_mask] the splitting of a
    specification into masks; the theorem is that the loops of
    [path_match_maskW] and [PathMatchSpecExW] decide them. *)
From S2P Require Import Prelude PathCch PathCchSpec Path.
Import PathCch Path.

Section Match.
Context (towupper : Z -> Z).

(** The file mask [m] matches the name [s]. *)
Inductive glob : list Z -> list Z -> Prop :=
| glob_nil : glob [] []
| glob_star_none m s : glob m s -> glob (star :: m) s
| glob_star_more m c s : glob (star :: m) s -> glob (star :: m) (c :: s)
| glob_char p c m s :
    p <> star -> p = qmark \/ towupper p = towupper c -> glob m s -> glob (p :: m) (c :: s).

Definition plain_mask (m : list Z) : Prop := Forall (fun c => c <> 0 /\ c <> semicolon) m.

Lemma glob_empty_name m : glob m [] <-> Forall (eq star) m.
Proof.
  split.
  - remember [] as s eqn:E. intros H. revert E. induction H; intros E; simplify_eq; [constructor|].
    constructor; auto.
  - by induction 1; subst; constructor.
Qed.

Lemma glob_star_inv m s : glob (star :: m) s ->
  glob m s \/ exists c s', s = c :: s' /\ glob (star :: m) s'.
Proof. inversion 1; simplify_eq; eauto. Qed.

Lemma glob_char_inv p m c s : p <> star -> glob (p :: m) (c :: s) ->
  (p = qmark \/ towupper p = towupper c) /\ glob m s.
Proof. intros ?. inversion 1; simplify_eq; eauto. Qed.

Lemma only_stars_ok m sep r : plain_mask m -> sep = 0 \/ sep = semicolon ->
  exists b, only_stars (m ++ sep :: r) = Ok b /\ (b = true <-> Forall (eq star) m).
Proof.
  intros Hm Hsep. induction Hm as [|c m [Hc0 Hc] Hm IH]; cbn [only_stars app].
  - exists true. by destruct Hsep as [->| ->].
  - destruct (Z.eqb_spec c star) as [->|Hne].
    + destruct IH as (b & -> & IH). exists b. split; [done|]. rewrite IH, Forall_cons. tauto.
    + rewrite (proj2 (Z.eqb_neq c 0)), (proj2 (Z.eqb_neq c semicolon)) by done.
      exists false. split; [done|]. split; [done|]. intros [? _]%Forall_cons. congruence.
Qed.

Lemma isnt_true c d : c <> d -> isnt c d = true.
Proof. intros H. unfold isnt. by rewrite (proj2 (Z.eqb_neq c d)). Qed.


Lemma path_match_ok sep r r' : sep = 0 \/ sep = semicolon -> forall m s,
  plain_mask m -> nonul s ->
  exists b, path_match_maskW towupper (m ++ sep :: r) (s ++ 0 :: r') = Ok b /\ (b = true <-> glob m s).
Proof.
  intros Hsep. induction m as [|p m IH]; intros s Hm Hs.
  - destruct s as [|c s]; cbn [path_match_maskW app].
    + exists true. split; [by destruct Hsep as [->| ->]|]. by repeat constructor.
    + exists false. apply Forall_cons in Hs as [Hc _].
      assert (isnt c 0 && isnt sep 0 && isnt sep semicolon = false) as ->
        by (destruct Hsep as [->| ->]; destruct (isnt c 0); done).
      rewrite (proj2 (Z.eqb_neq c 0)) by done. split; [done|]. split; [done|inversion 1].
  - apply Forall_cons in Hm as [[Hp0 Hp] Hm]. induction Hs as [|c s Hc Hs IHs].
    + destruct (only_stars_ok (p :: m) sep r) as (b & Eb & Hb); [by constructor|done|].
      exists b. rewrite glob_empty_name. by split.
    + cbn [path_match_maskW app]. rewrite !isnt_true by done. cbn [andb].
      destruct (Z.eqb_spec p star) as [->|Hstar].
      * destruct (IH (c :: s) Hm) as (b & Eb & Hb); [by constructor|].
        cbn [app] in Eb. rewrite Eb, bind_ok. destruct b.
        { exists true. split; [done|]. split; [|done]. intros _. constructor. by apply Hb. }
        rewrite (proj2 (Z.eqb_neq c 0)) by done.
        assert (Hsub : exists b', (fix substrings (name : list Z) : outcome bool :=
             r0 ← path_match_maskW towupper (m ++ sep :: r) name;
             if r0 : bool then Ok true
             else match name with
                  | [] => Fault
                  | n :: name => if n =? 0 then Ok false else substrings name
                  end) (s ++ 0 :: r') = Ok b' /\ (b' = true <-> glob (star :: m) s)).
        { destruct IHs as (b' & E' & Hb'). destruct s as [|d s].
          - destruct (IH [] Hm) as (b0 & E0 & Hb0); [constructor|]. cbn [app] in E0 |- *.
            rewrite E0, bind_ok. exists b0. split; [by destruct b0|].
            rewrite Hb0, !glob_empty_name, Forall_cons. tauto.
          - exists b'. split; [|done]. apply Forall_cons in Hs as [Hd _].
            cbn [path_match_maskW app] in E'. by rewrite !isnt_true in E' by done. }
        destruct Hsub as (b' & -> & Hb'). exists b'. split; [done|]. rewrite Hb'. split.
        { by constructor. }
        intros [Hg|(? & ? & [= <- <-] & ?)]%glob_star_inv; [|done]. by apply Hb in Hg.
      * destruct (decide (p = qmark \/ towupper p = towupper c)) as [Hpc|Hpc].
        { assert (isnt (towupper p) (towupper c) && isnt p qmark = false) as ->.
          { destruct Hpc as [->| ->]; unfold isnt; rewrite Z.eqb_refl; simpl; [apply andb_false_r|done]. }
          destruct (IH s Hm Hs) as (b & -> & Hb). exists b. split; [done|]. rewrite Hb.
          split; [by constructor|]. by intros [_ ?]%glob_char_inv. }
        rewrite !isnt_true by tauto. exists false. split; [done|]. split; [done|].
        by intros [? _]%glob_char_inv.
Qed.

(** ** The list of masks *)

(** [c] is one of the masks of the specification [m]: the parts between
    semicolons, less their leading blanks; an empty last part is no mask. *)
Inductive spec_mask : list Z -> list Z -> Prop :=
| spec_last c : c <> [] -> semicolon ∉ c -> spec_mask c (eat_spaces c)
| spec_first c m : semicolon ∉ c -> spec_mask (c ++ semicolon :: m) (eat_spaces c)
| spec_rest c m d : semicolon ∉ c -> spec_mask m d -> spec_mask (c ++ semicolon :: m) d.

Lemma eat_spaces_app c sep r : sep <> space -> eat_spaces (c ++ sep :: r) = eat_spaces c ++ sep :: r.
Proof.
  intros Hs. induction c as [|d c IH]; cbn [eat_spaces app].
  - by rewrite (proj2 (Z.eqb_neq sep space)).
  - by destruct (d =? space).
Qed.

Lemma eat_spaces_suffix c : exists k, eat_spaces c = drop k c.
Proof.
  induction c as [|d c [k IH]]; cbn [eat_spaces]; [by exists 0%nat|].
  destruct (d =? space); [by exists (S k)|by exists 0%nat].
Qed.

Lemma plain_eat c : plain_mask c -> plain_mask (eat_spaces c).
Proof. destruct (eat_spaces_suffix c) as [k ->]. apply Forall_drop. Qed.

Lemma next_mask_semi c r : plain_mask c -> next_mask (c ++ semicolon :: r) = Ok r.
Proof.
  induction 1 as [|d c [H0 H1] _ IH]; [done|]. cbn [next_mask app].
  by rewrite (proj2 (Z.eqb_neq d 0)), (proj2 (Z.eqb_neq d semicolon)).
Qed.

Lemma next_mask_end c r : plain_mask c -> next_mask (c ++ 0 :: r) = Ok (0 :: r).
Proof.
  induction 1 as [|d c [H0 H1] _ IH]; [done|]. cbn [next_mask app].
  by rewrite (proj2 (Z.eqb_neq d 0)), (proj2 (Z.eqb_neq d semicolon)).
Qed.

Lemma split_mask m : nonul m ->
  plain_mask m \/ exists c m', m = c ++ semicolon :: m' /\ plain_mask c /\ nonul m'.
Proof.
  induction 1 as [|d m Hd Hm IH]; [left; constructor|].
  destruct (Z.eq_dec d semicolon) as [->|Hne].
  - right. exists [], m. split_and!; [done|constructor|done].
  - destruct IH as [IH|(c & m' & -> & Hc & Hm')].
    + left. by constructor.
    + right. exists (d :: c), m'. split_and!; [done|by constructor|done].
Qed.

Lemma plain_no_semi c : plain_mask c -> semicolon ∉ c.
Proof. intros Hc Hin. by destruct (proj1 (Forall_forall _ _) Hc _ Hin). Qed.

(** The first semicolon splits a specification in one way. *)
Lemma split_unique c c' m m' : semicolon ∉ c -> semicolon ∉ c' ->
  c ++ semicolon :: m = c' ++ semicolon :: m' -> c = c' /\ m = m'.
Proof.
  revert c'. induction c as [|d c IH]; intros [|d' c'] Hc Hc' E; simplify_eq/=; try done.
  - rewrite not_elem_of_cons in Hc'. tauto.
  - rewrite not_elem_of_cons in Hc. tauto.
  - rewrite not_elem_of_cons in Hc, Hc'. destruct (IH c') as [-> ->]; tauto.
Qed.

Lemma spec_split_inv c m d : semicolon ∉ c -> spec_mask (c ++ semicolon :: m) d ->
  d = eat_spaces c \/ spec_mask m d.
Proof.
  intros Hc H. remember (c ++ semicolon :: m) as t eqn:E. destruct H as [? _ Hn|c' m' Hc'|c' m' d Hc' H]; subst.
  - exfalso. apply Hn. set_solver.
  - apply split_unique in E as [-> ->]; auto.
  - apply split_unique in E as [-> ->]; auto.
Qed.

Lemma spec_plain_inv m d : semicolon ∉ m -> spec_mask m d -> d = eat_spaces m.
Proof. intros Hm H. destruct H; [done|set_solver..]. Qed.

Lemma match_loop_ok s r r' : nonul s -> forall fuel m, nonul m -> (length m < fuel)%nat ->
  exists h, match_spec_loop towupper fuel (s ++ 0 :: r') (m ++ 0 :: r) = Ok h /\
    (h = S_OK \/ h = S_FALSE) /\ (h = S_OK <-> exists c, spec_mask m c /\ glob c s).
Proof.
  intros Hs. induction fuel as [|fuel IH]; intros m Hm Hf; [lia|]. cbn [match_spec_loop].
  destruct m as [|x m0] eqn:Em.
  { exists S_FALSE. split; [done|]. split; [by right|]. split; [done|].
    intros (c & Hc & _). inversion Hc; simplify_eq; try done; by destruct c0. }
  assert (rd ((x :: m0) ++ 0 :: r) 0 = Ok x) as -> by done. rewrite bind_ok.
  assert (x <> 0) by (by inversion Hm). rewrite (proj2 (Z.eqb_neq x 0)) by done. rewrite <- Em in *.
  destruct (split_mask m) as [Hp|(c & m' & E & Hc & Hm')]; [by subst|..].
  - rewrite eat_spaces_app by done.
    destruct (path_match_ok 0 r r' (or_introl eq_refl) (eat_spaces m) s) as (b & -> & Hb);
      [by apply plain_eat|done|]. rewrite bind_ok.
    assert (Hiff : (exists c, spec_mask m c /\ glob c s) <-> b = true).
    { rewrite Hb. split.
      - by intros (c & ->%spec_plain_inv & Hg); [|by apply plain_no_semi].
      - intros Hg. eexists. split; [apply spec_last; [by subst|by apply plain_no_semi]|done]. }
    destruct b.
    { exists S_OK. split; [done|]. split; [by left|]. by rewrite Hiff. }
    rewrite next_mask_end by (by apply plain_eat). rewrite bind_ok.
    destruct (IH [] (Forall_nil_2 _)) as (h & Eh & _); [subst; simpl in *; lia|].
    cbn [app] in Eh. rewrite Eh. destruct fuel; [done|]. injection Eh as <-.
    exists S_FALSE. split; [done|]. split; [by right|]. by rewrite Hiff.
  - rewrite E, <- app_assoc. cbn [app]. rewrite eat_spaces_app by done.
    destruct (path_match_ok semicolon (m' ++ 0 :: r) r' (or_intror eq_refl) (eat_spaces c) s) as (b & -> & Hb);
      [by apply plain_eat|done|]. rewrite bind_ok. pose proof (plain_no_semi _ Hc) as Hn. destruct b.
    { exists S_OK. split; [done|]. split; [by left|]. split; [|done]. intros _.
      exists (eat_spaces c). split; [by constructor|by apply Hb]. }
    rewrite next_mask_semi by (by apply plain_eat). rewrite bind_ok.
    destruct (IH m' Hm') as (h & -> & Hh & Hi).
    { apply (f_equal length) in E. rewrite length_app in E. simpl in E. lia. }
    exists h. split; [done|]. split; [done|]. rewrite Hi. split.
    + intros (d & Hd & Hg). exists d. split; [by apply spec_rest|done].
    + intros (d & [->|Hd]%spec_split_inv & Hg); [|by eauto|done]. by apply Hb in Hg.
Qed.

End Match.

Module PathMatch.



End PathMatch.
