(* ===== verification/PathSpec.v ===== *)
(** * Properties of the shlwapi path functions

    As for the PathCch functions, an argument is an array [s ++ 0 :: rest]
    with no null character in [s]. *)
From S2P Require Import Prelude PathCch PathCchSpec Path.
Import PathCch Path.

(** Reading inside the string and at its terminator. *)
Lemma rd_at s c rest i : s !! i = Some c -> rd (s ++ 0 :: rest) i = Ok c.
Proof.
  intros H. rewrite rd_app_l by (by eapply lookup_lt_Some). by apply rd_Ok.
Qed.

Lemma rd_0 c l : rd (c :: l) 0 = Ok c.
Proof. done. Qed.

Lemma rd_S c l i : rd (c :: l) (S i) = rd l i.
Proof. done. Qed.

Lemma neqb x y : x <> y -> (x =? y) = false.
Proof. apply Z.eqb_neq. Qed.

Lemma nonul_at s i c : nonul s -> s !! i = Some c -> c <> 0.
Proof. intros Hs H. exact (Forall_lookup_1 _ _ _ _ Hs H). Qed.

(** ** Removing the file name *)

(** A colon is the colon of a drive that something follows. *)
Definition drive_form (s : list Z) : Prop :=
  forall i, s !! i = Some colon -> i = 1%nat /\ s !! 0%nat <> Some bslash /\ (2 < length s)%nat.

(** The end of the root: of the leading backslashes, or of the drive with
    the backslash that follows it. *)
Definition root_of (s : list Z) : nat :=
  match s with
  | [] => 0%nat
  | c :: s' =>
    if c =? bslash then
      match s' with [] => 1%nat | d :: _ => if d =? bslash then 2%nat else 1%nat end
    else
      match s' with
      | [] => 0%nat
      | d :: s'' =>
        if d =? colon
        then match s'' with [] => 2%nat | e :: _ => if e =? bslash then 3%nat else 2%nat end
        else 0%nat
      end
  end.

(** [k] is where the file name is cut off: at the root or at a backslash,
    with no backslash behind it. *)
Definition cut_at (s : list Z) (k : nat) : Prop :=
  (root_of s <= k <= length s)%nat /\
  (k = root_of s \/ s !! k = Some bslash) /\
  forall j, (k < j)%nat -> s !! j <> Some bslash.

Section FileSpec.
Context (s rest : list Z) (Hs : nonul s) (Hd : drive_form s).
Let a := s ++ 0 :: rest.

Lemma rd_a i c : s !! i = Some c -> rd a i = Ok c.
Proof. apply rd_at. Qed.

(** The scan behind the root. *)
Lemma filespec_scan_ok : forall fuel pos k, (length s < pos + fuel)%nat ->
  (pos <= length s)%nat -> (root_of s <= k)%nat -> (2 <= pos \/ s !! 1%nat <> Some colon)%nat ->
  (k <= pos)%nat -> (k = root_of s \/ s !! k = Some bslash) ->
  (forall j, (k < j < pos)%nat -> s !! j <> Some bslash) ->
  exists k', filespec_scan nextW fuel a pos k = Ok k' /\ cut_at s k'.
Proof.
  induction fuel as [|fuel IH]; intros pos k Hf Hp Hr H2 Hk Hb Hn; [lia|]. cbn [filespec_scan].
  destruct (Nat.eq_dec pos (length s)) as [->|Hne].
  - unfold a. rewrite rd_end, bind_ok. exists k. split; [done|]. split_and!; [lia|lia|done|].
    intros j Hj Hl. destruct (Nat.lt_ge_cases j (length s)); [by eapply Hn|].
    rewrite lookup_ge_None_2 in Hl by lia. done.
  - destruct (lookup_lt_is_Some_2 s pos) as [c Hc]; [lia|].
    rewrite (rd_a pos c Hc), bind_ok. rewrite (neqb c 0) by (by eapply nonul_at).
    destruct (Z.eqb_spec c bslash) as [->|Hcb].
    { apply IH; unfold nextW; try lia; [destruct H2; auto with lia|by right]. }
    rewrite neqb.
    { apply IH; unfold nextW; try lia; [destruct H2; auto with lia|done|]. intros j Hj.
      destruct (Nat.eq_dec j pos) as [->|]; [congruence|]. apply Hn. lia. }
    intros ->. destruct (Hd _ Hc) as (-> & _). destruct H2; [lia|done].
Qed.

Lemma skip_slashes_drive : s !! 1%nat <> Some colon -> skip_slashes a = Ok (root_of s).
Proof.
  intros Hc. unfold skip_slashes, a. destruct s as [|c s']; [done|].
  cbn [app]. rewrite rd_0, bind_ok. cbn [root_of]. destruct (Z.eqb_spec c bslash) as [->|Hb].
  - rewrite rd_S. destruct s' as [|d s'']; [done|]. cbn [app]. rewrite rd_0, bind_ok. by zcase.
  - rewrite rd_0, bind_ok, (neqb c) by done. destruct s' as [|d s'']; [done|].
    rewrite (neqb d); [done|]. intros ->. by apply Hc.
Qed.

(** A drive is passed in two steps. *)
Lemma filespec_scan_drive fuel : s !! 1%nat = Some colon ->
  skip_slashes a = Ok 0%nat /\
  filespec_scan nextW (S (S fuel)) a 0 0 = filespec_scan nextW fuel a 3 (root_of s) /\
  (2 <= root_of s <= 3)%nat /\ (root_of s = 2%nat -> s !! 2%nat <> Some bslash).
Proof.
  intros Hc. destruct (Hd _ Hc) as (_ & H0 & H2). unfold a in *.
  destruct s as [|c [|d [|e s']]]; simpl in H2; try lia. injection Hc as ->.
  assert (c <> bslash) by (intros ->; done).
  assert (c <> colon) by (intros ->; destruct (Hd 0%nat) as [? _]; [done|lia]).
  pose proof (nonul_at _ 0 c Hs eq_refl).
  cbn [app]. split_and!; cbn [root_of]; rewrite ?(neqb c bslash) by done.
  - unfold skip_slashes. rewrite rd_0, bind_ok, (neqb c), rd_0, bind_ok, (neqb c) by done. done.
  - cbn [filespec_scan]. rewrite rd_0, bind_ok, !(neqb c) by done.
    rewrite !rd_S. by rewrite !rd_0.
  - cbn. zcase; lia.
  - cbn. zcase; lia.
  - cbn. zcase; [lia|]. congruence.
Qed.

(** The whole search, from the skipped prefix on. *)
Lemma remove_filespec_scan :
  exists p k, skip_slashes a = Ok p /\ filespec_scan nextW (S (length a)) a p p = Ok k /\ cut_at s k.
Proof.
  assert (Hlen : (length s < length a)%nat) by (unfold a; rewrite length_app; simpl; lia).
  destruct (decide (s !! 1%nat = Some colon)) as [Hc|Hc].
  - destruct (filespec_scan_drive (length a - 1) Hc) as (Hp & Hst & Hr & Hr2).
    destruct (Hd _ Hc) as (_ & _ & H2).
    destruct (filespec_scan_ok (length a - 1) 3 (root_of s)) as (k & Ek & Hk);
      [lia..|intros j Hj; assert (j = 2%nat) as -> by lia; apply Hr2; lia|].
    exists 0%nat, k. split; [done|]. split; [|done].
    replace (S (length a)) with (S (S (length a - 1))) by lia. by rewrite Hst.
  - assert (root_of s <= length s)%nat as Hr.
    { clear. unfold root_of. destruct s as [|c [|d [|e s']]]; simpl; repeat zcase; lia. }
    destruct (filespec_scan_ok (S (length a)) (root_of s) (root_of s)) as (k & Ek & Hk);
      try lia; [by right|].
    exists (root_of s), k. split; [by apply skip_slashes_drive|done].
Qed.

End FileSpec.

(** ** Quoting *)

Lemma rd_next pre c d l : rd (pre ++ c :: d :: l) (S (length pre)) = Ok d.
Proof. rewrite rd_app_r by lia. by replace (S (length pre) - length pre)%nat with 1%nat by lia. Qed.

(** [shift_loop] moves the string behind [pre] down over [c]. *)
Lemma shift_loop_ok u rest : nonul u -> forall fuel pre c, c <> 0 -> (S (length u) < fuel)%nat ->
  shift_loop fuel (pre ++ c :: u ++ 0 :: rest) (length pre) = Ok (pre ++ u ++ 0 :: 0 :: rest).
Proof.
  induction 1 as [|d u Hd Hu IH]; intros fuel pre c Hc Hf; (destruct fuel as [|fuel]; [simpl in Hf; lia|]);
    cbn [shift_loop app]; rewrite (rd_middle pre c _ _ eq_refl), bind_ok, (neqb c) by done.
  - rewrite rd_next, bind_ok, wr_app, bind_ok by done. destruct fuel as [|fuel]; [simpl in Hf; lia|].
    cbn [shift_loop]. by rewrite rd_next, bind_ok.
  - rewrite rd_next, bind_ok, wr_app, bind_ok by done.
    replace (S (length pre)) with (length (pre ++ [d])) by (rewrite length_app; simpl; lia).
    rewrite (cons_middle d pre), app_assoc.
    rewrite (IH fuel (pre ++ [d]) d Hd) by (simpl in Hf; lia).
    by rewrite <- app_assoc.
Qed.

Lemma strchr_found next b ch s rest : next = nextW -> b = s ++ 0 :: rest -> nonul s -> ch ∈ s ->
  exists p, strchr next b 0 ch = Ok (Some p).
Proof.
  intros -> -> Hs Hin. unfold strchr.
  assert (forall fuel pre t, s = pre ++ t -> ch ∈ t -> (length t < fuel)%nat ->
    exists p, strchr_loop nextW fuel (s ++ 0 :: rest) (length pre) ch = Ok (Some p)) as H.
  { induction fuel as [|fuel IH]; intros pre t E Ht Hf; [lia|]. destruct t as [|c t]; [by apply not_elem_of_nil in Ht|].
    cbn [strchr_loop]. assert (s !! length pre = Some c) as Hc by (rewrite E; by apply list_lookup_middle).
    rewrite (rd_at s c), bind_ok by done. rewrite (neqb c 0) by (by eapply nonul_at).
    destruct (Z.eqb_spec c ch); [eauto|]. unfold nextW.
    replace (S (length pre)) with (length (pre ++ [c])) by (rewrite length_app; simpl; lia).
    apply (IH (pre ++ [c]) t); [by rewrite E, <- app_assoc| |simpl in Hf; lia].
    apply elem_of_cons in Ht as [->|]; [done|done]. }
  apply (H _ [] s); [done|done|]. rewrite length_app. simpl. lia.
Qed.

Lemma quote_ok s g1 g2 rest : nonul s -> space ∈ s -> Z.of_nat (length s) + 3 < MAX_PATH ->
  PathQuoteSpacesW (Some (s ++ 0 :: g1 :: g2 :: rest)) =
    Ok (Some (dquote :: s ++ dquote :: 0 :: rest)).
Proof.
  intros Hs Hsp Hl.
  unfold PathQuoteSpacesW, quote_spaces.
  destruct (strchr_found nextW (s ++ 0 :: g1 :: g2 :: rest) space s _ eq_refl eq_refl Hs Hsp) as (p & ->).
  rewrite bind_ok, wcslen_str, bind_ok by done. cbv zeta.
  rewrite (proj2 (Z.ltb_lt _ _)) by lia. change (0 :: g1 :: g2 :: rest) with ([0] ++ g1 :: g2 :: rest).
  rewrite app_assoc. rewrite <- (app_nil_l ((s ++ [0]) ++ g1 :: g2 :: rest)).
  rewrite (rd_list_app [] (s ++ [0])), bind_ok by (done || (rewrite length_app; simpl; lia)).
  destruct s as [|c s]; [by apply not_elem_of_nil in Hsp|]. cbn [app length].
  change (c :: (s ++ [0]) ++ g1 :: g2 :: rest) with ([c] ++ (s ++ [0]) ++ g1 :: g2 :: rest).
  replace ((s ++ [0]) ++ g1 :: g2 :: rest) with ((s ++ [0; g1]) ++ g2 :: rest) by (by rewrite <- !app_assoc).
  rewrite (wr_list_app [c] (s ++ [0; g1]) (g2 :: rest)), bind_ok
    by (done || (simpl; rewrite !length_app; simpl; lia)).
  rewrite wr_lt, bind_ok by (simpl; lia). cbn [app insert list_insert]. rewrite <- app_assoc.
  change (dquote :: c :: s ++ [0] ++ g2 :: rest) with ((dquote :: c :: s) ++ 0 :: g2 :: rest).
  rewrite wr_app, bind_ok by done.
  change (0 :: rest) with ([] ++ 0 :: rest).
  replace ((dquote :: c :: s) ++ dquote :: g2 :: rest) with ((dquote :: c :: s ++ [dquote]) ++ g2 :: rest)
    by (simpl; by rewrite <- app_assoc).
  rewrite wr_app, bind_ok by (simpl; rewrite length_app; simpl; lia).
  simpl. by rewrite <- app_assoc.
Qed.

Lemma unquote_ok s rest : nonul s ->
  PathUnquoteSpacesW (Some (dquote :: s ++ dquote :: 0 :: rest)) =
    Ok (Some (s ++ 0 :: 0 :: 0 :: rest)).
Proof.
  intros Hs.
  unfold PathUnquoteSpacesW, unquote. rewrite rd_0, bind_ok. cbn [isnt Z.eqb negb]. unfold isnt.
  rewrite Z.eqb_refl. cbn [negb].
  replace (dquote :: s ++ dquote :: 0 :: rest) with ((dquote :: s ++ [dquote]) ++ 0 :: rest)
    by (simpl; by rewrite <- app_assoc).
  rewrite wcslen_str, bind_ok.
  2: { apply Forall_cons. split; [done|]. apply Forall_app. by repeat constructor. }
  replace (length (dquote :: s ++ [dquote]) - 1)%nat with (length (dquote :: s))
    by (simpl; rewrite length_app; simpl; lia).
  replace ((dquote :: s ++ [dquote]) ++ 0 :: rest) with ((dquote :: s) ++ dquote :: 0 :: rest)
    by (simpl; by rewrite <- app_assoc).
  rewrite rd_middle, bind_ok by done. rewrite Z.eqb_refl, wr_app, bind_ok by done.
  pose proof (shift_loop_ok s (0 :: rest) Hs (S (length ((dquote :: s) ++ 0 :: 0 :: rest))) [] dquote) as H.
  cbn [app length] in H |- *. rewrite H; [done|done|]. rewrite length_app. simpl. lia.
Qed.

(** ** The common prefix *)

(** A component of [s] ends at [n]. *)
Definition boundary (s : list Z) (n : nat) : Prop := n = length s \/ s !! n = Some bslash.

Section Prefix.
Context (fold : Z -> Z) (Hfold : forall c, fold c = fold 0 -> c = 0).
Context (s1 s2 r1 r2 : list Z) (H1 : nonul s1) (H2 : nonul s2).
Let a1 := s1 ++ 0 :: r1.
Let a2 := s2 ++ 0 :: r2.

(** The two paths agree up to [n], where both end a component. *)
Definition common_at (n : nat) : Prop :=
  (n <= length s1)%nat /\ (n <= length s2)%nat /\
  map fold (take n s1) = map fold (take n s2) /\ boundary s1 n /\ boundary s2 n.

(** [n] is the last such position from [start] on, or 0. *)
Definition last_common (start n : nat) : Prop :=
  (n = 0%nat \/ (start <= n)%nat /\ common_at n) /\
  forall k, (start <= k)%nat -> common_at k -> (k <= n)%nat.

Lemma boundary_test s r n c : nonul s -> (n <= length s)%nat -> rd (s ++ 0 :: r) n = Ok c ->
  ((c =? 0) || (c =? bslash) = true <-> boundary s n) /\ (c = 0 <-> n = length s).
Proof.
  intros Hs Hn Hc. destruct (Nat.eq_dec n (length s)) as [->|Hne].
  - rewrite rd_end in Hc. injection Hc as <-. unfold boundary. simpl. intuition.
  - destruct (lookup_lt_is_Some_2 s n) as [d Hd]; [lia|]. rewrite (rd_at s d) in Hc by done. injection Hc as ->.
    pose proof (nonul_at _ _ _ Hs Hd). rewrite (neqb c 0) by done. unfold boundary. simpl.
    rewrite Z.eqb_eq, Hd. split; [|intuition lia]. split; [by intros ->; right|]. intros [?|[= ->]]; [lia|done].
Qed.

Lemma prefix_loop_ok start : forall fuel pos len, (pos <= length s1)%nat -> (pos <= length s2)%nat ->
  (start <= pos)%nat -> (length s1 < pos + fuel)%nat ->
  map fold (take pos s1) = map fold (take pos s2) ->
  (len = 0%nat \/ (start <= len < pos)%nat /\ common_at len) ->
  (forall k, (start <= k < pos)%nat -> common_at k -> (k <= len)%nat) ->
  exists n, prefix_loop fold fuel a1 a2 pos len = Ok n /\ last_common start n.
Proof.
  induction fuel as [|fuel IH]; intros pos len Hp1 Hp2 Hst Hf Hpre Hlen Hmax; [lia|]. cbn [prefix_loop].
  destruct (rd_str s1 r1 H1 pos Hp1) as (c1 & E1 & Hc1 & _). destruct (rd_str s2 r2 H2 pos Hp2) as (c2 & E2 & Hc2 & _).
  unfold a1, a2. rewrite E1, E2, !bind_ok. cbv zeta.
  destruct (boundary_test s1 r1 pos c1 H1 Hp1 E1) as [B1 Z1]. destruct (boundary_test s2 r2 pos c2 H2 Hp2 E2) as [B2 Z2].
  set (len' := if _ && _ then pos else len).
  assert ((len' = 0%nat \/ (start <= len' < S pos)%nat /\ common_at len') /\
          forall k, (start <= k < S pos)%nat -> common_at k -> (k <= len')%nat) as [Hlen' Hmax'].
  { subst len'. destruct (_ && _) eqn:E.
    - apply andb_true_iff in E as [Ea Eb]. split; [|lia]. right. split; [lia|].
      split_and!; [lia|lia|done|by apply B1|by apply B2].
    - split; [destruct Hlen as [?|[? ?]]; [by left|right; split; [lia|done]]|]. intros k Hk Hc.
      destruct (Nat.eq_dec k pos) as [->|]; [|apply Hmax; [lia|done]]. exfalso.
      destruct Hc as (_ & _ & _ & Hb1%B1 & Hb2%B2). rewrite Hb1, Hb2 in E. done. }
  destruct ((c1 =? 0) || isnt (fold c1) (fold c2)) eqn:E.
  - exists len'. split; [done|]. split; [destruct Hlen' as [?|[? ?]]; [by left|right; split; [lia|done]]|].
    intros k Hk Hc. destruct (Nat.lt_ge_cases pos k) as [Hgt|Hle]; [|apply Hmax'; [lia|done]]. exfalso.
    destruct Hc as (Hk1 & Hk2 & Hm & _).
    destruct (lookup_lt_is_Some_2 s1 pos) as [d1 Hd1]; [lia|]. destruct (lookup_lt_is_Some_2 s2 pos) as [d2 Hd2]; [lia|].
    rewrite (rd_at s1 d1) in E1 by done. rewrite (rd_at s2 d2) in E2 by done. injection E1 as ->. injection E2 as ->.
    assert (fold c1 = fold c2) as Hfe.
    { apply (f_equal (fun l => l !! pos)) in Hm. rewrite !list_lookup_fmap, !lookup_take_lt in Hm by lia.
      rewrite Hd1, Hd2 in Hm. by injection Hm. }
    rewrite (neqb c1 0) in E by exact (nonul_at _ _ _ H1 Hd1). unfold isnt in E. rewrite Hfe, Z.eqb_refl in E. done.
  - apply orb_false_iff in E as [Ez Ef]. apply Z.eqb_neq in Ez. unfold isnt in Ef.
    apply negb_false_iff, Z.eqb_eq in Ef. assert (c2 <> 0) as Hz2.
    { intros ->. apply Ez. by apply Hfold. }
    specialize (Hc1 Ez). specialize (Hc2 Hz2).
    destruct (lookup_lt_is_Some_2 s1 pos) as [d1 Hd1]; [lia|]. destruct (lookup_lt_is_Some_2 s2 pos) as [d2 Hd2]; [lia|].
    rewrite (rd_at s1 d1) in E1 by done. rewrite (rd_at s2 d2) in E2 by done. injection E1 as ->. injection E2 as ->.
    apply IH; try lia; try done.
    + rewrite (take_S_r s1 pos c1), (take_S_r s2 pos c2), !map_app by done. simpl. by rewrite Hpre, Ef.
Qed.

End Prefix.

Lemma two_slashes_take s r : nonul s -> two_slashes (s ++ 0 :: r) = Ok true -> take 2 s = [bslash; bslash].
Proof.
  intros Hs H. unfold two_slashes in H. destruct s as [|c [|d s]]; cbn [app] in H.
  - done.
  - rewrite rd_0, bind_ok, rd_S, rd_0, bind_ok in H. by destruct (c =? bslash).
  - rewrite rd_0, bind_ok, rd_S, rd_0, bind_ok in H. destruct (Z.eqb_spec c bslash) as [->|]; [|done].
    destruct (Z.eqb_spec d bslash) as [->|]; [done|]. done.
Qed.

(** [memcpy(path, file1, len); path[len] = 0;] *)
Lemma copy_prefix_ok a p len : (0 < len <= length a)%nat -> (len < length p)%nat ->
  (v ← rd_list a 0 len; q ← wr_list (<[0%nat := 0]> p) 0 v; wr q len 0) =
  Ok (take len a ++ 0 :: drop (S len) p).
Proof.
  intros Hl Hp. rewrite rd_list_Ok, bind_ok, drop_0 by lia.
  assert (length (take len a) = len) as Ht by (rewrite length_take; lia).
  rewrite wr_list_Ok, bind_ok by (rewrite length_insert; lia). rewrite take_0, app_nil_l, Ht.
  destruct (lookup_lt_is_Some_2 p len Hp) as [x Hx].
  rewrite drop_insert_lt, (drop_S p x) by (done || lia). by rewrite wr_app.
Qed.

Module PathSpec.

(** PathRemoveFileSpecW cuts a path at its last backslash but never in
    its root: on a path whose only colon belongs to a drive that something
    follows, it stays inside the string, puts a terminator at the cut and
    reports whether the path was changed. *)
Theorem PathRemoveFileSpecW_cuts s rest :
  nonul s -> drive_form s ->
  exists k, cut_at s k /\
    PathRemoveFileSpecW (Some (s ++ 0 :: rest)) =
      Ok (if (k =? length s)%nat then (false, Some (s ++ 0 :: rest))
          else (true, Some (<[k := 0]> (s ++ 0 :: rest)))).
Proof.
  intros Hs Hd. destruct (remove_filespec_scan s rest Hs Hd) as (p & k & Hp & Hk & Hcut).
  exists k. split; [done|]. unfold PathRemoveFileSpecW, remove_filespec. rewrite Hp, bind_ok, Hk, bind_ok.
  destruct Hcut as [[_ Hle] _]. destruct (Nat.eqb_spec k (length s)) as [->|Hne].
  - by rewrite rd_end.
  - destruct (rd_str s rest Hs k Hle) as (c & -> & _ & Hc). rewrite bind_ok, (neqb c 0) by (apply Hc; lia).
    by rewrite wr_lt by (rewrite length_app; lia).
Qed.

(** ["C:\a\b"] *)
Lemma PathRemoveFileSpecW_cuts_witness :
  exists k, cut_at [67; 58; 92; 97; 92; 98] k /\
    PathRemoveFileSpecW (Some [67; 58; 92; 97; 92; 98; 0]) =
      Ok (if (k =? 6)%nat then (false, Some [67; 58; 92; 97; 92; 98; 0])
          else (true, Some (<[k := 0]> [67; 58; 92; 97; 92; 98; 0]))).
Proof.
  apply (PathRemoveFileSpecW_cuts [67; 58; 92; 97; 92; 98] []).
  - nonul_tac.
  - intros [|[|[|[|[|[|i]]]]]]; try discriminate. intros _. split_and!; [done|discriminate|simpl; lia].
Defined.

(** PathRemoveFileSpecW reads behind a path that ends in a colon: after
    the colon it steps over the terminator. *)
Theorem PathRemoveFileSpecW_overread s :
  nonul s -> colon ∉ s -> bslash ∉ s ->
  PathRemoveFileSpecW (Some (s ++ [colon; 0])) = Fault.
Proof.
  intros Hs Hc Hb.
  assert (forall i c, (s ++ [colon]) !! i = Some c -> c <> bslash /\ c <> 0) as Hch.
  { intros i c [H|[_ H]]%lookup_app_Some.
    - split; [intros ->; apply Hb; by eapply list_elem_of_lookup_2|exact (nonul_at _ _ _ Hs H)].
    - apply list_lookup_singleton_Some in H as [_ <-]. done. }
  assert (exists c, (s ++ [colon]) !! 0%nat = Some c) as [c0 H0].
  { apply lookup_lt_is_Some_2. rewrite length_app. simpl. lia. }
  replace (s ++ [colon; 0]) with ((s ++ [colon]) ++ [0]) by (by rewrite <- app_assoc).
  unfold PathRemoveFileSpecW, remove_filespec, skip_slashes. destruct (Hch _ _ H0) as [Hc0 _].
  rewrite (rd_at _ c0 [] 0 H0), bind_ok, (neqb c0) by done.
  rewrite (rd_at _ c0 [] 0 H0), bind_ok, bind_ok, (neqb c0) by done.
  assert (forall fuel pos k, (pos <= length s)%nat -> (S (length s) < pos + fuel)%nat ->
    filespec_scan nextW fuel ((s ++ [colon]) ++ [0]) pos k = Fault) as Hscan.
  { induction fuel as [|fuel IH]; intros pos k Hp Hf; [lia|]. cbn [filespec_scan].
    destruct (lookup_lt_is_Some_2 (s ++ [colon]) pos) as [c H]; [rewrite length_app; simpl; lia|].
    destruct (Hch _ _ H) as [Hcb Hcz]. rewrite (rd_at _ c [] pos H), bind_ok, !(neqb c) by done.
    apply lookup_app_Some in H as [H|[Hge H]].
    - rewrite (neqb c) by (intros ->; apply Hc; by eapply list_elem_of_lookup_2).
      apply lookup_lt_Some in H. apply IH; unfold nextW; lia.
    - apply list_lookup_singleton_Some in H as [Hi <-]. rewrite Z.eqb_refl.
      assert (S pos = length (s ++ [colon])) as -> by (rewrite length_app; simpl; lia).
      rewrite rd_middle, bind_ok by done. destruct fuel as [|fuel]; [lia|]. cbn [filespec_scan].
      unfold nextW at 1. rewrite (rd_ge _ (S (length (s ++ [colon])))); [done|]. rewrite (length_app _ [0]). simpl. lia. }
  rewrite Hscan; [done|lia|]. rewrite !length_app. simpl. lia.
Qed.

(** ["C:"] *)
Lemma PathRemoveFileSpecW_overread_witness :
  PathRemoveFileSpecW (Some [67; 58; 0]) = Fault.
Proof.
  apply (PathRemoveFileSpecW_overread [67]).
  - nonul_tac.
  - apply (bool_decide_unpack _). vm_compute. exact I.
  - apply (bool_decide_unpack _). vm_compute. exact I.
Defined.

(** PathQuoteSpacesW and PathUnquoteSpacesW are inverse: a path with a
    blank and room for two more characters is quoted, and unquoting gives
    the path back. *)
Theorem PathQuoteSpacesW_roundtrip s g1 g2 rest :
  nonul s -> space ∈ s -> Z.of_nat (length s) + 3 < MAX_PATH ->
  PathQuoteSpacesW (Some (s ++ 0 :: g1 :: g2 :: rest)) =
    Ok (Some (dquote :: s ++ dquote :: 0 :: rest)) /\
  PathUnquoteSpacesW (Some (dquote :: s ++ dquote :: 0 :: rest)) =
    Ok (Some (s ++ 0 :: 0 :: 0 :: rest)).
Proof. intros. split; [by apply quote_ok|by apply unquote_ok]. Qed.

(** ["a b"] *)
Lemma PathQuoteSpacesW_roundtrip_witness :
  PathQuoteSpacesW (Some [97; 32; 98; 0; 1; 2; 3]) = Ok (Some [34; 97; 32; 98; 34; 0; 3]) /\
  PathUnquoteSpacesW (Some [34; 97; 32; 98; 34; 0; 3]) = Ok (Some [97; 32; 98; 0; 0; 0; 3]).
Proof.
  apply (PathQuoteSpacesW_roundtrip [97; 32; 98] 1 2 [3]).
  - nonul_tac.
  - apply (bool_decide_unpack _). vm_compute. exact I.
  - vm_compute. reflexivity.
Defined.

(** PathCommonPrefixW finds the longest common directory: for two paths
    that are both UNC paths or both not, it stays inside its arrays and, with
    [n] the last position where the paths agree up to case and both end a
    component, returns [n] (3 for 2) and copies that many characters of the
    first path. *)
Theorem PathCommonPrefixW_longest towupper s1 s2 r1 r2 unc p :
  (forall c, towupper c = towupper 0 -> c = 0) -> nonul s1 -> nonul s2 ->
  two_slashes (s1 ++ 0 :: r1) = Ok unc -> two_slashes (s2 ++ 0 :: r2) = Ok unc ->
  (length s1 + 1 < length p)%nat ->
  exists n, last_common towupper s1 s2 (if unc then 2 else 0)%nat n /\
    let len := if (n =? 2)%nat then 3%nat else n in
    PathCommonPrefixW towupper (Some (s1 ++ 0 :: r1)) (Some (s2 ++ 0 :: r2)) (Some p) =
      Ok (len, Some (if (len =? 0)%nat then <[0%nat := 0]> p
                     else take len (s1 ++ 0 :: r1) ++ 0 :: drop (S len) p)).
Proof.
  intros Hf H1 H2 U1 U2 Hp. unfold PathCommonPrefixW, common_prefix, prefix_start.
  rewrite wr_lt, !bind_ok, U1, U2, !bind_ok by lia.
  destruct (two_slashes_str s1 r1 H1) as (? & E1 & Hl1). destruct (two_slashes_str s2 r2 H2) as (? & E2 & Hl2).
  rewrite U1 in E1. rewrite U2 in E2. injection E1 as <-. injection E2 as <-.
  set (start := (if unc then 2 else 0)%nat).
  assert (exists n, prefix_loop towupper (S (length (s1 ++ 0 :: r1))) (s1 ++ 0 :: r1) (s2 ++ 0 :: r2) start 0 = Ok n /\
     last_common towupper s1 s2 start n) as (n & En & Hn).
  { apply prefix_loop_ok; rewrite ?length_app; subst start; destruct unc; try (by auto); try lia.
    by rewrite (two_slashes_take s1 r1), (two_slashes_take s2 r2). }
  exists n. split; [done|]. cbv zeta.
  replace (if unc then if unc then Some 2%nat else None else if unc then None else Some 0%nat)
    with (Some start) by (by destruct unc).
  rewrite En, bind_ok. set (len := if (n =? 2)%nat then 3%nat else n).
  assert (len <= S (length s1))%nat as Hlen.
  { destruct Hn as [[->|[_ (Hle & _)]] _]; subst len; [simpl; lia|]. destruct (Nat.eqb_spec n 2); lia. }
  destruct (Nat.eqb_spec len 0); [done|].
  assert (Hcp := copy_prefix_ok (s1 ++ 0 :: r1) p len). rewrite length_app in Hcp. cbn [length] in Hcp.
  specialize (Hcp ltac:(lia) ltac:(lia)).
  apply bind_Ok_inv in Hcp as (v & Ev & (q & Eq & Ew)%bind_Ok_inv).
  by rewrite Ev, bind_ok, Eq, bind_ok, Ew.
Qed.

(** ["C:\a\b"] and ["C:\a\c"], compared without folding. *)
Lemma PathCommonPrefixW_longest_witness :
  exists n, last_common (fun c => c) [67; 58; 92; 97; 92; 98] [67; 58; 92; 97; 92; 99] 0 n /\
    let len := if (n =? 2)%nat then 3%nat else n in
    PathCommonPrefixW (fun c => c) (Some [67; 58; 92; 97; 92; 98; 0]) (Some [67; 58; 92; 97; 92; 99; 0])
        (Some (replicate 10 7)) =
      Ok (len, Some (if (len =? 0)%nat then <[0%nat := 0]> (replicate 10 7)
                     else take len [67; 58; 92; 97; 92; 98; 0] ++ 0 :: drop (S len) (replicate 10 7))).
Proof.
  apply (PathCommonPrefixW_longest (fun c => c) [67; 58; 92; 97; 92; 98] [67; 58; 92; 97; 92; 99] [] [] false).
  - trivial.
  - nonul_tac.
  - nonul_tac.
  - reflexivity.
  - reflexivity.
  - simpl. lia.
Defined.

(** PathIsUNCServerA scans from the start of the path, where it has just
    found a backslash: it is false for every path, whatever the way to the
    next character. *)
Theorem PathIsUNCServerA_false CharNextA a b :
  PathIsUNCServerA CharNextA (Some a) = Ok b -> b = false.
Proof.
  unfold PathIsUNCServerA. destruct (two_slashes a) as [[]| |] eqn:E; try done; [|by intros [= <-]].
  unfold two_slashes in E. apply bind_Ok_inv in E as (c & Ec & E). rewrite bind_ok. cbn [none_of_loop].
  rewrite Ec, bind_ok. destruct (Z.eqb_spec c bslash) as [->|]; [|done]. by intros [= <-].
Qed.

(** PathRelativePathToW writes behind the array of the caller: every
    component of [from] adds three characters without a check, so a path of
    203 characters with 100 components needs 301 of the 260 characters that
    callers provide. *)
Theorem PathRelativePathToW_overflow :
  let from := [67; 58; 92] ++ concat (replicate 100 [97; 92]) in
  PathRelativePathToW (fun c => c) (replicate 260 0) (replicate 260 0) (Some (replicate 260 0))
    (Some (from ++ [0])) FILE_ATTRIBUTE_DIRECTORY
    (Some [67; 58; 92; 98; 0]) FILE_ATTRIBUTE_DIRECTORY = Fault.
Proof. vm_compute. reflexivity. Qed.

End PathSpec.
