(* ===== verification/PathCanon.v ===== *)
(** * PathCanonicalizeW and PathCombineW

    The loop of [PathCanonicalizeW] moves [src] forward through the path and
    [dst] back and forth through the buffer; the invariant relates them. *)
From S2P Require Import Prelude PathCch PathCchSpec Path PathSpec PathMatch.
Import PathCch Path.

Lemma back_loop_ok b : forall d, (d < length b)%nat ->
  exists d', back_loop b d = Ok d' /\ (d' <= d)%nat.
Proof.
  induction d as [|d IH]; intros Hd; cbn [back_loop]; [by exists 0%nat|].
  destruct (rd_lt b (S d) Hd) as [c ->]. rewrite bind_ok. zcase; [by exists (S d)|].
  destruct IH as (d' & -> & ?); [lia|]. exists d'. split; [done|lia].
Qed.

Lemma rd_before_ok b d k : (k <= d)%nat -> (0 < k)%nat -> (d <= length b)%nat ->
  exists c, rd_before b d k = Ok c /\ b !! (d - k)%nat = Some c.
Proof.
  intros Hk H0 Hd. unfold rd_before. rewrite (proj2 (Nat.ltb_ge d k)) by done.
  destruct (rd_lt b (d - k)) as [c Hc]; [lia|]. exists c. split; [done|]. by apply rd_Ok.
Qed.

Lemma share_loop_ok s r : nonul s -> forall fuel pos seen, (pos <= length s)%nat ->
  (length s < pos + fuel)%nat -> exists o, share_loop nextW fuel (s ++ 0 :: r) pos seen = Ok o.
Proof.
  intros Hs. induction fuel as [|fuel IH]; intros pos seen Hp Hf; [lia|]. cbn [share_loop].
  destruct (rd_str s r Hs pos Hp) as (c & -> & Hc & _). rewrite bind_ok.
  destruct (Z.eqb_spec c 0) as [->|H0]; [eauto|]. specialize (Hc H0).
  destruct (c =? bslash); [destruct seen; [eauto|]|]; apply IH; unfold nextW; lia.
Qed.

(** The test of the buffer needs only a terminator in it. *)
Lemma server_share_ok b k : b !! k = Some 0 -> exists r, PathIsUNCServerShareW (Some b) = Ok r.
Proof.
  intros Hk. destruct (terminated_split b k Hk) as (t & r & -> & Ht & _).
  unfold PathIsUNCServerShareW, server_share.
  destruct (two_slashes_str t r Ht) as (two & -> & H2). rewrite bind_ok. destruct two; [|eauto].
  destruct (share_loop_ok t r Ht (S (length (t ++ 0 :: r))) 2 false) as (o & ->); [by apply H2|rewrite length_app; lia|].
  eauto.
Qed.

Section Canonicalize.
Context (s rest : list Z) (Hs : nonul s) (Hdrive : forall i, s !! i = Some colon -> i = 1%nat).
Context (cap : nat) (Hcap : (length s + 2 <= cap)%nat) (Hlen : (0 < length s)%nat).
Let path := s ++ 0 :: 0 :: rest.

Record canon_inv (buf : list Z) (dst src : nat) : Prop := {
  inv_length : length buf = cap;
  inv_src : (src <= S (length s))%nat;
  inv_dst : (dst <= src)%nat /\ (dst <= length s)%nat;
  inv_nonul : nonul (take dst buf);
  inv_first : (0 < dst)%nat -> buf !! 0%nat <> Some colon;
  inv_plain : dot ∉ take src s -> dst = src /\ take dst buf = take src s }.

Lemma rd_input i c : s !! i = Some c -> rd path i = Ok c.
Proof. apply rd_at. Qed.

Lemma rd_input_str i : (i <= length s)%nat ->
  exists c, rd path i = Ok c /\ (c <> 0 -> (i < length s)%nat) /\ ((i < length s)%nat -> c <> 0).
Proof. by apply rd_str. Qed.

Lemma copy_one_ok buf dst src c : canon_inv buf dst src -> s !! src = Some c ->
  (dst = 0%nat -> c <> colon) ->
  exists buf', copy_one path buf dst src = Ok (buf', S dst, S src) /\ canon_inv buf' (S dst) (S src).
Proof.
  intros [Hl Hsrc [Hd1 Hd2] Hn Hf Hp] Hc H0. pose proof (lookup_lt_Some _ _ _ Hc).
  unfold copy_one. rewrite (rd_input src c Hc), bind_ok, wr_lt, bind_ok by lia.
  exists (<[dst := c]> buf). split; [done|]. assert (take (S dst) (<[dst:=c]> buf) = take dst buf ++ [c]) as Ht.
  { rewrite (take_S_r _ _ c) by (apply list_lookup_insert_eq; lia). f_equal.
    by apply take_insert_ge. }
  split; [by rewrite length_insert|lia|lia| | |].
  - rewrite Ht. apply Forall_app. split; [done|]. repeat constructor. exact (nonul_at _ _ _ Hs Hc).
  - intros _. destruct dst as [|dst].
    + rewrite list_lookup_insert_eq by lia. intros [= ->]. by apply H0.
    + rewrite list_lookup_insert_ne by lia. apply Hf. lia.
  - rewrite (take_S_r _ _ c Hc), Ht. intros Hdot. destruct Hp as [-> ->]; [set_solver|]. done.
Qed.

(** *** Leaving a directory *)

Lemma leave_segment_ok buf dst : (0 < dst < length buf)%nat -> buf !! 0%nat <> Some colon ->
  buf !! dst = Some 0 -> exists d, leave_segment buf dst = Ok d /\ (d <= dst)%nat.
Proof.
  intros Hd Hf Hz. unfold leave_segment. destruct (Nat.ltb_spec 1 dst); [|by exists dst].
  destruct (rd_before_ok buf dst 1) as (c1 & -> & _); [lia..|].
  destruct (rd_before_ok buf dst 2) as (c2 & -> & Hc2); [lia..|]. rewrite !bind_ok.
  destruct ((c1 =? bslash) && _); [|by exists dst].
  destruct (server_share_ok buf dst Hz) as (share & ->).
  assert (exists r, (if c2 =? colon then if (3 <? dst)%nat then Ok true
     else c3 ← rd_before buf dst 3; Ok (c3 =? colon) else Ok false) = Ok r) as (r & ->).
  { destruct (Z.eqb_spec c2 colon) as [->|]; [|eauto]. destruct (Nat.ltb_spec 3 dst); [eauto|].
    destruct (Nat.eq_dec dst 2) as [->|]; [done|].
    destruct (rd_before_ok buf dst 3) as (c3 & -> & _); [lia..|]. eauto. }
  rewrite bind_ok. destruct r.
  - destruct (back_loop_ok buf (dst - 2)) as (d & -> & Hd'); [lia|]. rewrite bind_ok.
    destruct (rd_lt buf d) as [c ->]; [lia|]. rewrite bind_ok. eexists. split; [done|]. zcase; lia.
  - destruct (isnt c2 colon); [|by exists dst]. rewrite bind_ok. eexists. split; [done|]. destruct share; lia.
Qed.

Lemma backup_directory_ok buf dst src : canon_inv buf dst src -> (0 < dst)%nat -> (src + 2 <= length s)%nat ->
  s !! src = Some dot ->
  exists buf' d k, backup_directory buf dst = Ok (buf', d, k) /\ canon_inv buf' d (src + k) /\
    (0 < d)%nat /\ (0 < k)%nat.
Proof.
  intros [Hl Hsrc [Hd1 Hd2] Hn Hf Hp] H0 H2 Hdot. unfold backup_directory. rewrite wr_lt, bind_ok by lia.
  set (b := <[dst:=0]> buf). assert (length b = cap) as Hlb by (unfold b; by rewrite length_insert).
  assert (b !! 0%nat <> Some colon) as Hfb by (unfold b; rewrite list_lookup_insert_ne by lia; by apply Hf).
  destruct (leave_segment_ok b dst) as (d & -> & Hd); [lia|done|unfold b; apply list_lookup_insert_eq; lia|].
  rewrite bind_ok. destruct (back_loop_ok b d) as (d' & -> & Hd'); [lia|]. rewrite bind_ok.
  assert (forall k, dot ∈ take (src + S k) s) as Hin.
  { intros k. apply list_elem_of_lookup. exists src. rewrite lookup_take_lt by lia. done. }
  destruct (Nat.eqb_spec d' 0) as [->|Hne].
  - rewrite wr_lt, bind_ok by lia. exists (<[0%nat:=bslash]> b), 1%nat, 3%nat. split; [done|].
    split; [|lia]. split; [by rewrite length_insert|lia|lia| | |].
    + destruct b as [|x b']; [simpl in Hlb; lia|]. simpl. repeat constructor. done.
    + intros _. rewrite list_lookup_insert_eq by lia. done.
    + intros Hnot. by destruct Hnot.
  - exists b, d', 2%nat. split; [done|]. split; [|lia]. split; [done|lia|lia| | |].
    + unfold b. rewrite take_insert_ge by lia. replace d' with (min d' dst) by lia.
      rewrite <- take_take. by apply Forall_take.
    + done.
    + intros Hnot. by destruct Hnot.
Qed.

(** *** The loop *)

Lemma canonicalize_step_ok buf dst src c : canon_inv buf dst src -> s !! src = Some c ->
  (s !! 1%nat = Some colon -> (0 < dst)%nat) ->
  exists buf' dst' src', canonicalize_step path buf dst src c = Ok (buf', dst', src') /\
    canon_inv buf' dst' src' /\ (src < src')%nat /\ (s !! 1%nat = Some colon -> (0 < dst')%nat).
Proof.
  intros Hi Hc Hdr. pose proof (lookup_lt_Some _ _ _ Hc) as Hlt.
  assert (exists buf' dst' src', copy_one path buf dst src = Ok (buf', dst', src') /\
    canon_inv buf' dst' src' /\ (src < src')%nat /\ (s !! 1%nat = Some colon -> (0 < dst')%nat)) as Hcopy.
  { destruct (copy_one_ok buf dst src c Hi Hc) as (buf' & E & Hi').
    - intros -> ->. pose proof (Hdrive _ Hc) as ->. specialize (Hdr Hc). lia.
    - exists buf', (S dst), (S src). split_and!; [done|done|lia|lia]. }
  unfold canonicalize_step. destruct (Z.eqb_spec c dot) as [->|]; [|done].
  destruct (rd_input_str (S src)) as (c1 & -> & Hc1 & _); [lia|]. rewrite bind_ok.
  assert (exists r, (if c1 =? bslash then if (src =? 0)%nat then Ok true
     else p ← rd path (src - 1); Ok ((p =? bslash) || (p =? colon)) else Ok false) = Ok r /\
     (r = true -> (S src < length s)%nat)) as (skip & -> & Hskip).
  { destruct (Z.eqb_spec c1 bslash) as [->|]; [|by eexists]. destruct (Nat.eqb_spec src 0); [by eexists; eauto|].
    destruct (rd_input_str (src - 1)) as (p & -> & _); [lia|]. rewrite bind_ok.
    eexists. split; [done|]. intros _. by apply Hc1. }
  rewrite bind_ok. destruct skip.
  { specialize (Hskip eq_refl). exists buf, dst, (src + 2)%nat. split; [done|]. split; [|split; [lia|done]].
    destruct Hi as [Hl Hsrc [Hd1 Hd2] Hn Hf Hp]. split; try done; try lia.
    intros Hnot. destruct Hnot. apply list_elem_of_lookup. exists src. rewrite lookup_take_lt by lia. done. }
  destruct (Z.eqb_spec c1 dot) as [->|]; [|done]. destruct (Nat.eqb_spec dst 0); [done|]. cbn [andb negb].
  pose proof (inv_length _ _ _ Hi). pose proof (inv_dst _ _ _ Hi).
  destruct (rd_lt buf (dst - 1)) as [p ->]; [lia|]. rewrite !bind_ok. destruct (p =? bslash); [|done].
  destruct (backup_directory_ok buf dst src Hi) as (buf' & d & k & -> & Hi' & Hd & Hk);
    [lia|specialize (Hc1 ltac:(done)); lia|done|].
  rewrite bind_ok. exists buf', d, (src + k)%nat. split_and!; [done|done|lia|lia].
Qed.

Lemma canonicalize_loop_ok : forall fuel buf dst src, canon_inv buf dst src ->
  (s !! 1%nat = Some colon -> (0 < dst)%nat) -> (S (length s) < src + fuel)%nat ->
  exists buf' dst' src', canonicalize_loop fuel path buf dst src = Ok (buf', dst') /\
    canon_inv buf' dst' src' /\ (length s <= src')%nat.
Proof.
  induction fuel as [|fuel IH]; intros buf dst src Hi Hdr Hf; [destruct Hi; lia|]. cbn [canonicalize_loop].
  destruct (Nat.lt_ge_cases src (length s)) as [Hlt|Hge].
  - destruct (lookup_lt_is_Some_2 s src Hlt) as [c Hc]. rewrite (rd_input src c Hc), bind_ok.
    rewrite (neqb c 0) by exact (nonul_at _ _ _ Hs Hc).
    destruct (canonicalize_step_ok buf dst src c Hi Hc Hdr) as (b & d & k & -> & Hi' & Hk & Hdr').
    rewrite bind_ok. apply IH; [done|done|lia].
  - assert (rd path src = Ok 0) as ->.
    { destruct Hi as [_ Hsrc _ _ _ _]. unfold path. rewrite rd_app_r by lia.
      destruct (src - length s)%nat as [|[|n]] eqn:E; [done|done|lia]. }
    rewrite bind_ok. by exists buf, dst, src.
Qed.

Lemma copy_root_ok buf : length buf = cap ->
  exists buf' dst src, copy_root path buf = Ok (buf', dst, src) /\ canon_inv buf' dst src /\
    (s !! 1%nat = Some colon -> (0 < dst)%nat).
Proof.
  intros Hl. assert (canon_inv buf 0 0) as Hi by (split; try done; try lia; constructor).
  unfold copy_root. destruct (lookup_lt_is_Some_2 s 0 Hlen) as [c Hc].
  assert (c <> colon) as Hcc by (intros ->; by apply Hdrive in Hc).
  rewrite (rd_input 0 c Hc), bind_ok. destruct (copy_one_ok buf 0 0 c Hi Hc) as (b1 & E1 & Hi1); [done|].
  destruct (Z.eqb_spec c bslash) as [->|Hb].
  { rewrite E1. exists b1, 1%nat, 1%nat. split_and!; [done|done|lia]. }
  destruct (rd_input_str 1) as (c1 & Ec1 & Hc1 & _); [lia|]. rewrite Ec1, bind_ok.
  destruct (Z.eqb_spec c1 colon) as [->|Hne].
  - destruct (lookup_lt_is_Some_2 s 1) as [d Hd]; [by apply Hc1|].
    rewrite (rd_input 1 d Hd) in Ec1. injection Ec1 as ->.
    destruct (copy_one_ok b1 1 1 colon Hi1 Hd) as (b2 & E2 & Hi2); [done|].
    rewrite E1, bind_ok, E2, bind_ok. destruct (rd_input_str 2) as (c2 & Ec2 & Hc2 & _).
    { apply lookup_lt_Some in Hd. lia. }
    rewrite Ec2, bind_ok. destruct (Z.eqb_spec c2 bslash) as [->|].
    + destruct (lookup_lt_is_Some_2 s 2) as [e He]; [by apply Hc2|].
      destruct (copy_one_ok b2 2 2 e Hi2 He) as (b3 & E3 & Hi3); [done|].
      rewrite E3. exists b3, 3%nat, 3%nat. split_and!; [done|done|lia].
    + exists b2, 2%nat, 2%nat. split_and!; [done|done|lia].
  - exists buf, 0%nat, 0%nat. split_and!; [done|done|]. intros Hd. rewrite (rd_input 1 colon Hd) in Ec1. congruence.
Qed.

(** The string that is left in the buffer. *)
Definition with_drive_slash (t : list Z) : list Z :=
  if bool_decide (length t = 2%nat /\ t !! 1%nat = Some colon) then t ++ [bslash] else t.

Lemma finish_drive_ok buf dst src : canon_inv buf dst src ->
  exists r, finish_drive buf dst = Ok (with_drive_slash (take dst buf) ++ 0 :: r) /\
    length (with_drive_slash (take dst buf) ++ 0 :: r) = cap.
Proof.
  intros [Hl Hsrc [Hd1 Hd2] Hn Hf Hp]. unfold finish_drive, with_drive_slash.
  assert (length (take dst buf) = dst) as Ht by (rewrite length_take; lia). rewrite Ht.
  assert (exists r, (if (dst =? 2)%nat then c ← rd buf 1; Ok (c =? colon) else Ok false) = Ok r /\
    (r = true <-> dst = 2%nat /\ take dst buf !! 1%nat = Some colon)) as (r & -> & Hr).
  { destruct (Nat.eqb_spec dst 2) as [->|]; [|exists false; split; [done|]; split; [done|lia]].
    destruct (lookup_lt_is_Some_2 buf 1) as [c Hc]; [lia|]. exists (c =? colon).
    rewrite lookup_take_lt, Hc by lia. split; [unfold rd; by rewrite Hc|]. rewrite Z.eqb_eq. intuition congruence. }
  rewrite bind_ok. destruct r.
  - rewrite bool_decide_true by (by apply Hr). destruct Hr as [Hr _]. specialize (Hr eq_refl) as [-> _].
    rewrite wr_lt, bind_ok, wr_lt by (rewrite ?length_insert; lia). exists (drop 4 buf).
    destruct buf as [|x0 [|x1 [|x2 [|x3 buf]]]]; simpl in Hl; try lia. split; [done|]. simpl. rewrite drop_0. lia.
  - rewrite bool_decide_false by (rewrite <- Hr; done). rewrite wr_lt by lia. exists (drop (S dst) buf).
    rewrite (insert_take_drop buf dst 0) by lia. split; [done|].
    rewrite length_app. simpl. rewrite Ht, length_drop. lia.
Qed.

End Canonicalize.

(** ** PathCombineW *)

Lemma lstrcpynW_long tmp s rest : nonul s -> (260 <= length tmp)%nat -> (259 <= length s)%nat ->
  lstrcpynW tmp (s ++ 0 :: rest) 0 (Z.to_nat MAX_PATH) = Ok (take 259 s ++ 0 :: drop 260 tmp).
Proof.
  intros Hs Ht Hl. unfold lstrcpynW. change (Z.to_nat MAX_PATH - 1)%nat with 259%nat.
  assert (forall n pre t, s = pre ++ t -> (n <= length t)%nat ->
            wcsnlen (s ++ 0 :: rest) (length pre) n = Ok n) as H.
  { induction n as [|n IH]; intros pre t E Hn; [done|]. cbn [wcsnlen].
    destruct t as [|c t]; [simpl in Hn; lia|].
    assert (s !! length pre = Some c) as Hc by (rewrite E; by apply list_lookup_middle).
    rewrite (rd_at s c rest _ Hc), bind_ok. rewrite (neqb c 0) by exact (nonul_at _ _ _ Hs Hc).
    replace (S (length pre)) with (length (pre ++ [c])) by (rewrite length_app; simpl; lia).
    rewrite (IH (pre ++ [c]) t); [done|by rewrite E, <- app_assoc|simpl in Hn; lia]. }
  pose proof (H 259%nat [] s eq_refl Hl) as H'. cbn [length] in H'. rewrite H', bind_ok.
  rewrite rd_list_Ok, bind_ok by (rewrite length_app; lia). rewrite drop_0, take_app_le by lia.
  rewrite wr_list_Ok by (rewrite length_app, length_take; cbn [length]; lia).
  rewrite length_app, length_take, (Nat.min_l 259 (length s)), <- app_assoc by lia. done.
Qed.

Module PathCanon.

(** C19. PathCanonicalizeW stays inside its arrays: for a path whose only
    colon is the colon of a drive and which two null characters follow, with
    a buffer of two characters more than the path, it returns a terminated
    string no longer than the path and one backslash.  A path without dots is
    copied, with a backslash after a naked drive. *)
Theorem PathCanonicalizeW_safe buf s rest :
  nonul s -> (forall i, s !! i = Some colon -> i = 1%nat) -> s <> [] ->
  (length s + 2 <= length buf)%nat ->
  exists t r, PathCanonicalizeW (Some buf) (Some (s ++ 0 :: 0 :: rest)) = Ok (true, Some (t ++ 0 :: r)) /\
    length (t ++ 0 :: r) = length buf /\ nonul t /\ (length t <= length s + 1)%nat /\
    (dot ∉ s -> t = with_drive_slash s).
Proof.
  intros Hs Hd Hne Hb. assert (0 < length s)%nat as Hlen by (destruct s; simpl; [done|lia]).
  unfold PathCanonicalizeW. rewrite wr_lt, bind_ok by lia.
  destruct (lookup_lt_is_Some_2 s 0 Hlen) as [c Hc]. rewrite (rd_at s c _ 0 Hc), bind_ok.
  rewrite (neqb c 0) by exact (nonul_at _ _ _ Hs Hc).
  destruct (copy_root_ok s rest Hs Hd (length buf) Hb Hlen (<[0%nat:=0]> buf)) as (b1 & d1 & s1 & -> & Hi1 & Hdr);
    [by rewrite length_insert|]. rewrite bind_ok.
  destruct (canonicalize_loop_ok s rest Hs Hd (length buf) Hb Hlen (S (length (s ++ 0 :: 0 :: rest))) b1 d1 s1 Hi1 Hdr)
    as (b2 & d2 & s2 & -> & Hi2 & Hs2); [rewrite length_app; simpl; lia|]. rewrite bind_ok.
  destruct (finish_drive_ok s (length buf) Hb Hlen b2 d2 s2 Hi2) as (r & -> & Hr). rewrite bind_ok.
  exists (with_drive_slash (take d2 b2)), r. split; [done|]. split; [done|].
  destruct Hi2 as [Hl _ [_ Hd2] Hn _ Hp]. unfold with_drive_slash. split_and!.
  - case_bool_decide; [|done]. apply Forall_app. split; [done|by repeat constructor].
  - case_bool_decide; rewrite ?length_app, length_take; simpl; lia.
  - intros Hdot. rewrite (take_ge s s2) in Hp by lia. destruct (Hp Hdot) as [_ ->]. done.
Qed.

(** ["C:\a\..\b"] *)
Lemma PathCanonicalizeW_safe_witness :
  exists t r, PathCanonicalizeW (Some (replicate 11 7)) (Some [67; 58; 92; 97; 92; 46; 46; 92; 98; 0; 0])
      = Ok (true, Some (t ++ 0 :: r)) /\
    length (t ++ 0 :: r) = 11%nat /\ nonul t /\ (length t <= 10)%nat /\
    (dot ∉ [67; 58; 92; 97; 92; 46; 46; 92; 98] -> t = with_drive_slash [67; 58; 92; 97; 92; 46; 46; 92; 98]).
Proof.
  apply (PathCanonicalizeW_safe (replicate 11 7) [67; 58; 92; 97; 92; 46; 46; 92; 98] []).
  - nonul_tac.
  - intros i. do 9 (destruct i as [|i]; [try discriminate; try reflexivity|]). discriminate.
  - discriminate.
  - vm_compute. lia.
Defined.

(** PathCanonicalizeW passes the terminator of ["\.."]: it skips three
    characters where two are left.  With nothing behind the terminator it
    reads outside the path; otherwise what follows in memory becomes part of
    the result.  A path that starts with [":\.."] makes it read in front of
    the buffer. *)
Theorem PathCanonicalizeW_overread :
  PathCanonicalizeW (Some (replicate 16 0)) (Some [92; 46; 46; 0]) = Fault /\
  PathCanonicalizeW (Some (replicate 8 0)) (Some [92; 46; 46; 0; 120; 0])
    = Ok (true, Some [92; 120; 0; 0; 0; 0; 0; 0]) /\
  PathCanonicalizeW (Some (replicate 16 0)) (Some [58; 92; 46; 46; 0]) = Fault.
Proof. by split_and!. Qed.

(** PathCombineW writes behind its local array: for a directory of 259
    characters or more that does not have a backslash at the last character
    kept, the backslash and the terminator added by PathAddBackslashW need
    261 characters. *)
Theorem PathCombineW_overflow tmp dst dir r f file r' :
  length tmp = Z.to_nat MAX_PATH -> nonul dir -> (259 <= length dir)%nat ->
  dir !! 258%nat <> Some bslash ->
  f <> 0 -> f <> bslash -> hd 0 (file ++ [0]) <> colon ->
  PathCombineW tmp (Some dst) (Some (dir ++ 0 :: r)) (Some (f :: file ++ 0 :: r')) = Fault.
Proof.
  intros Ht Hd Hl Hb Hf Hfb Hfc. unfold PathCombineW, combine_choice, is_empty.
  rewrite rd_0, bind_ok, bind_ok, (neqb f) by done. destruct dir as [|c dir']; [simpl in Hl; lia|].
  cbn [app]. rewrite rd_0, bind_ok, bind_ok. rewrite (neqb c 0) by (by inversion Hd).
  unfold PathIsRelativeW. rewrite rd_0, bind_ok, !(neqb f) by done. rewrite rd_S.
  assert (exists x, rd (file ++ 0 :: r') 0 = Ok x /\ x <> colon) as (x & -> & Hx).
  { destruct file as [|x file]; [by exists 0|]. by exists x. }
  rewrite !bind_ok, isnt_true by done. cbn [negb]. rewrite bind_ok. cbv zeta. cbn [default from_option id].
  change (c :: dir' ++ 0 :: r) with ((c :: dir') ++ 0 :: r).
  rewrite lstrcpynW_long, !bind_ok by (done || (rewrite Ht; vm_compute; lia)).
  unfold PathAddBackslashW. set (t := take 259 (c :: dir')).
  assert (length t = 259%nat) as Hlt by (unfold t; rewrite length_take; lia).
  assert (nonul t) as Htn by (by apply Forall_take).
  rewrite wcslen_str, bind_ok, Hlt by done. cbn [Nat.eqb].
  change (MAX_PATH <=? Z.of_nat 259) with false. cbn iota.
  destruct (lookup_lt_is_Some_2 t 258) as [e He]; [lia|].
  change (259 - 1)%nat with 258%nat. rewrite (rd_at t e _ 258 He), bind_ok, (neqb e).
  2: { intros ->. apply Hb. unfold t in He. by rewrite lookup_take_lt in He by lia. }
  rewrite (drop_ge tmp) by (rewrite Ht; vm_compute; lia).
  rewrite (wr_lt _ 259), bind_ok by (rewrite length_app, Hlt; simpl; lia).
  by rewrite (wr_ge _ 260) by (rewrite length_insert, length_app, Hlt; simpl; lia).
Qed.

(** 259 letters and the file ["b"]. *)
Lemma PathCombineW_overflow_witness :
  PathCombineW (replicate (Z.to_nat MAX_PATH) 0) (Some (replicate 260 0))
    (Some (replicate 259 97 ++ [0])) (Some [98; 0]) = Fault.
Proof.
  apply (PathCombineW_overflow _ _ (replicate 259 97) [] 98 [] []).
  - by rewrite length_replicate.
  - by apply Forall_replicate.
  - rewrite length_replicate. lia.
  - rewrite lookup_replicate_2 by lia. discriminate.
  - discriminate.
  - discriminate.
  - discriminate.
Defined.

End PathCanon.
