(* ===== verification/RunOnce.v ===== *)
(** * One-time initialisation (oca/extensions/ntext/rtl/synch.c)

    [RtlRunOnceBeginInitialize], [RtlRunOnceComplete] and
    [RtlRunOnceExecuteOnce], run by several threads at once.  The word of the
    [RTL_RUN_ONCE] holds a state in its two low bits and, while the
    initialisation is in progress, the head of a list of waiting threads in
    the others: the address of the variable [next] in the frame of the last
    thread that waits, which holds the address of the previous one. *)
From S2P Require Import Prelude.

Module RunOnce.

Definition RTL_RUN_ONCE_CHECK_ONLY := 0x00000001.
Definition RTL_RUN_ONCE_ASYNC := 0x00000002.
Definition RTL_RUN_ONCE_INIT_FAILED := 0x00000004.

Definition has (flags bit : Z) : bool := negb (Z.land flags bit =? 0).

(** [val & 3] and [val & ~3] *)
Definition low (val : Z) : Z := Z.land val 3.
Definition high (val : Z) : Z := Z.ldiff val 3.

(** ** The operations on a value that has been read *)

(** The [RTL_RUN_ONCE_CHECK_ONLY] branch: the status and [*context]. *)
Definition begin_check (flags val : Z) : Z * option Z :=
  if has flags RTL_RUN_ONCE_ASYNC then (STATUS_INVALID_PARAMETER, None)
  else if negb (low val =? 2) then (STATUS_UNSUCCESSFUL, None)
  else (STATUS_SUCCESS, Some (high val)).

(** The [switch] of [RtlRunOnceBeginInitialize]: return a status and a
    context, or try to exchange the word: [TryStart] from 0 to the given
    word, [TryQueue] from [val] to the address of [next]. *)
Inductive begin_action : Type :=
| BeginReturn (status : Z) (context : option Z)
| TryStart (word : Z)
| TryQueue (val : Z).

Definition begin_switch (flags val : Z) : begin_action :=
  if low val =? 0 then TryStart (if has flags RTL_RUN_ONCE_ASYNC then 3 else 1)
  else if low val =? 1 then
    if has flags RTL_RUN_ONCE_ASYNC then BeginReturn STATUS_INVALID_PARAMETER None else TryQueue val
  else if low val =? 2 then BeginReturn STATUS_SUCCESS (Some (high val))
  else if has flags RTL_RUN_ONCE_ASYNC then BeginReturn STATUS_PENDING None
  else BeginReturn STATUS_INVALID_PARAMETER None.

(** The checks of [RtlRunOnceComplete]: an error, or the word to store. *)
Definition complete_word (flags context : Z) : Z + Z :=
  if negb (low context =? 0) then inl STATUS_INVALID_PARAMETER
  else if has flags RTL_RUN_ONCE_INIT_FAILED then
    if negb (context =? 0) then inl STATUS_INVALID_PARAMETER
    else if has flags RTL_RUN_ONCE_ASYNC then inl STATUS_INVALID_PARAMETER
    else inr context
  else inr (Z.lor context 2).

(** The [switch] of [RtlRunOnceComplete]: exchange the word [val] and wake
    the threads of its list, or only exchange it. *)
Inductive complete_action : Type :=
| CompleteReturn (status : Z)
| TryWake (val : Z)
| TryDone (val : Z).

Definition complete_switch (flags val : Z) : complete_action :=
  if low val =? 1 then TryWake val
  else if low val =? 3 then
    if has flags RTL_RUN_ONCE_ASYNC then TryDone val else CompleteReturn STATUS_INVALID_PARAMETER
  else CompleteReturn STATUS_UNSUCCESSFUL.

(** ** Threads in RtlRunOnceExecuteOnce

    The places where a thread can be interrupted; [ok] and [context] are the
    result of the initialisation function. *)
Inductive pc : Type :=
| Begin                                        (* reads the word *)
| Start (word : Z)                             (* exchange of 0 for [word] *)
| Queue (val : Z)                              (* exchange of [val] for [&next | 1] *)
| Wait                                         (* NtWaitForKeyedEvent( &next ) *)
| Run                                          (* calls [func] *)
| Complete (ok : bool) (context : Z)           (* reads the word *)
| Finish (ok : bool) (context val : Z)         (* exchange of [val] *)
| FinishAsync (ok : bool) (context val : Z)
| Wake (ok : bool) (context val : Z)           (* [while (val)] *)
| Release (ok : bool) (context val next : Z)   (* NtReleaseKeyedEvent( val ) *)
| Done (status : Z) (context : option Z).

Record state := State {
  word : Z;          (* once->Ptr *)
  nexts : list Z;    (* the variable [next] of each thread *)
  pcs : list pc;
}.

Definition set_pc (st : state) (t : nat) (p : pc) : state :=
  State (word st) (nexts st) (<[t := p]> (pcs st)).

Definition complete_flags (ok : bool) : Z := if ok then 0 else RTL_RUN_ONCE_INIT_FAILED.

(** [interlocked_cmpxchg_ptr( &once->Ptr, new, old )] by a thread that goes on
    at [yes] or [no]. *)
Definition exchange (st : state) (t : nat) (new old : Z) (yes no : pc) : state :=
  if word st =? old then State new (nexts st) (<[t := yes]> (pcs st)) else set_pc st t no.

(** What [RtlRunOnceExecuteOnce] returns when [RtlRunOnceComplete] returned
    [status]. *)
Definition execute_result (ok : bool) (context status : Z) : pc :=
  if ok then Done status (Some context) else Done STATUS_UNSUCCESSFUL None.

Definition begin_step (st : state) (t : nat) : state :=
  match begin_switch 0 (word st) with
  | BeginReturn status context =>
      set_pc st t (if status =? STATUS_PENDING then Run else Done status context)
  | TryStart w => set_pc st t (Start w)
  | TryQueue val => State (word st) (<[t := high val]> (nexts st)) (<[t := Queue val]> (pcs st))
  end.

(** [func] has returned [ok] and [context]. *)
Definition run_step (st : state) (t : nat) (ok : bool) (context : Z) : state :=
  let context := if ok then context else 0 in
  match complete_word (complete_flags ok) context with
  | inl status => set_pc st t (execute_result ok context status)
  | inr _ => set_pc st t (Complete ok context)
  end.

Definition complete_step (st : state) (t : nat) (ok : bool) (context : Z) : state :=
  set_pc st t
    (match complete_switch (complete_flags ok) (word st) with
     | CompleteReturn status => execute_result ok context status
     | TryWake val => Finish ok context val
     | TryDone val => FinishAsync ok context val
     end).

(** The word that [RtlRunOnceComplete] stores. *)
Definition final_word (ok : bool) (context : Z) : Z :=
  match complete_word (complete_flags ok) context with inl _ => 0 | inr w => w end.

Section Steps.
(** The address of [next] in the frame of a thread, and the results of the
    initialisation function. *)
Context (addr : nat -> Z) (func : bool -> Z -> Prop).

(** One atomic step of thread [t].  The list of waiting threads is read from
    the frames of threads that still wait; NtReleaseKeyedEvent waits for a
    thread that waits for its key. *)
Inductive step : state -> state -> Prop :=
| step_begin st t : pcs st !! t = Some Begin -> step st (begin_step st t)
| step_start st t w : pcs st !! t = Some (Start w) ->
    step st (exchange st t w 0 Run Begin)
| step_queue st t val : pcs st !! t = Some (Queue val) ->
    step st (exchange st t (Z.lor (addr t) 1) val Wait Begin)
| step_run st t ok context : pcs st !! t = Some Run -> func ok context ->
    step st (run_step st t ok context)
| step_complete st t ok context : pcs st !! t = Some (Complete ok context) ->
    step st (complete_step st t ok context)
| step_finish st t ok context val : pcs st !! t = Some (Finish ok context val) ->
    step st (exchange st t (final_word ok context) val (Wake ok context (high val)) (Complete ok context))
| step_finish_async st t ok context val : pcs st !! t = Some (FinishAsync ok context val) ->
    step st (exchange st t (final_word ok context) val
               (execute_result ok context STATUS_SUCCESS) (Complete ok context))
| step_woken st t ok context : pcs st !! t = Some (Wake ok context 0) ->
    step st (set_pc st t (execute_result ok context STATUS_SUCCESS))
| step_wake st t ok context t' n :
    pcs st !! t = Some (Wake ok context (addr t')) -> addr t' <> 0 ->
    pcs st !! t' = Some Wait -> nexts st !! t' = Some n ->
    step st (set_pc st t (Release ok context (addr t') n))
| step_release st t ok context t' n :
    pcs st !! t = Some (Release ok context (addr t') n) -> pcs st !! t' = Some Wait ->
    step st (set_pc (set_pc st t' Begin) t (Wake ok context n)).

End Steps.

(** [RtlRunOnceInitialize], and [n] threads that call
    [RtlRunOnceExecuteOnce]. *)
Definition RtlRunOnceInitialize : Z := 0.

Definition initial (n : nat) : state := State RtlRunOnceInitialize (replicate n 0) (replicate n Begin).

End RunOnce.
