(* ===== verification/RunOnceSpec.v ===== *)
(** * One-time initialisation: safety and progress

    The invariant says where each waiting thread is linked: in the list of
    the word or in the list of exactly one thread that is waking a list. *)
From S2P Require Import Prelude RunOnce.
Import RunOnce.

(** ** The low bits *)

Definition aligned (v : Z) : Prop := Z.land v 3 = 0.

Lemma low_lor v k : aligned v -> 0 <= k <= 3 -> low (Z.lor v k) = k.
Proof.
  unfold aligned, low. intros Hv Hk. rewrite Z.land_lor_distr_l, Hv.
  assert (k = 0 \/ k = 1 \/ k = 2 \/ k = 3) as [->|[->|[->| ->]]] by lia; done.
Qed.

Lemma high_lor v k : aligned v -> 0 <= k <= 3 -> high (Z.lor v k) = v.
Proof.
  unfold aligned, high. intros Hv Hk.
  rewrite Z.ldiff_land, Z.land_lor_distr_l, <- !Z.ldiff_land.
  assert (Z.ldiff k 3 = 0) as ->.
  { assert (k = 0 \/ k = 1 \/ k = 2 \/ k = 3) as [->|[->|[->| ->]]] by lia; done. }
  rewrite Z.lor_0_r. rewrite <- (Z.lor_ldiff_and v 3) at 2. by rewrite Hv, Z.lor_0_r.
Qed.

Lemma aligned_0 : aligned 0.
Proof. done. Qed.

(** ** The invariant *)

Section Proof.
Context (addr : nat -> Z) (func : bool -> Z -> Prop).
Context (addr_aligned : forall t, aligned (addr t)) (addr_nonzero : forall t, addr t <> 0).
Context (addr_inj : forall t t', addr t = addr t' -> t = t').
Context (func_aligned : forall ok context, func ok context -> aligned context).

(** The list of threads that starts at an address. *)
Inductive chain (nx : list Z) : Z -> list nat -> Prop :=
| chain_nil : chain nx 0 []
| chain_cons t n l : nx !! t = Some n -> chain nx n l -> chain nx (addr t) (t :: l).

(** The thread owns the initialisation. *)
Definition owns (p : pc) : Prop :=
  match p with Run | Complete _ _ | Finish _ _ _ | FinishAsync _ _ _ => True | _ => False end.

(** The list [l] that a thread at [p] has still to wake. *)
Definition wakes (nx : list Z) (p : pc) (l : list nat) : Prop :=
  match p with
  | Wake _ _ val => chain nx val l
  | Release _ _ val n => exists t l', l = t :: l' /\ val = addr t /\ chain nx n l'
  | _ => l = []
  end.

(** What a thread at [p] knows. *)
Definition knows (w : Z) (nx : list Z) (t : nat) (p : pc) : Prop :=
  match p with
  | Start v => v = 1
  | Queue val => low val = 1 /\ nx !! t = Some (high val)
  | Complete _ context => aligned context
  | Finish _ context val => aligned context /\ low val = 1
  | FinishAsync _ _ _ => False
  | Wake ok context _ | Release ok context _ _ => ok = true -> w = Z.lor context 2 /\ aligned context
  | Done status (Some context) => status = STATUS_SUCCESS -> w = Z.lor context 2 /\ aligned context
  | _ => True
  end.

(** The word, the threads that own the initialisation and the list [q]. *)
Inductive phase (st : state) (q : list nat) : Prop :=
| phase_free : word st = 0 -> q = [] ->
    (forall t p, pcs st !! t = Some p -> ~ owns p) -> phase st q
| phase_busy h o : word st = Z.lor h 1 -> aligned h -> chain (nexts st) h q ->
    (exists p, pcs st !! o = Some p /\ owns p) ->
    (forall t p, pcs st !! t = Some p -> owns p -> t = o) -> phase st q
| phase_done c : word st = Z.lor c 2 -> aligned c -> q = [] ->
    (forall t p, pcs st !! t = Some p -> ~ owns p) -> phase st q.

(** [q] is the list of the word, [L t] the list of thread [t]. *)
Record inv (st : state) (q : list nat) (L : nat -> list nat) : Prop := {
  inv_length : length (nexts st) = length (pcs st);
  inv_phase : phase st q;
  inv_knows t p : pcs st !! t = Some p -> knows (word st) (nexts st) t p;
  inv_wakes t p : pcs st !! t = Some p -> wakes (nexts st) p (L t);
  inv_queued t : t ∈ q -> pcs st !! t = Some Wait;
  inv_listed w t : t ∈ L w -> pcs st !! t = Some Wait /\ (w < length (pcs st))%nat;
  inv_waits t : pcs st !! t = Some Wait -> t ∈ q \/ exists w, t ∈ L w;
  inv_nodup : NoDup q /\ (forall w, NoDup (L w));
  inv_apart w t : t ∈ L w -> (t ∉ q) /\ (forall w', t ∈ L w' -> w' = w) }.

Lemma chain_update nx v l t x : chain nx v l -> t ∉ l -> chain (<[t := x]> nx) v l.
Proof.
  induction 1 as [|t' n l Hn Hc IH]; intros Ht; [constructor|]. apply not_elem_of_cons in Ht as [Hne Ht].
  econstructor; [by rewrite list_lookup_insert_ne|]. by apply IH.
Qed.

Lemma chain_inv nx v l : chain nx v l ->
  (v = 0 /\ l = []) \/ exists t n l', v = addr t /\ l = t :: l' /\ nx !! t = Some n /\ chain nx n l'.
Proof. destruct 1 as [|t n l]; [by left|right]. by exists t, n, l. Qed.

(** A word whose state is not 2 can be exchanged without a thread noticing. *)
Lemma knows_word w w' nx t p : low w <> 2 -> knows w nx t p -> knows w' nx t p.
Proof.
  intros Hw. destruct p as [| | | | | | | |ok| |s [c|]]; simpl; try done.
  - intros H Hok. destruct (H Hok) as [-> Hc]. rewrite low_lor in Hw by (done || lia). done.
  - intros H Hok. destruct (H Hok) as [-> Hc]. rewrite low_lor in Hw by (done || lia). done.
  - intros H Hok. destruct (H Hok) as [-> Hc]. rewrite low_lor in Hw by (done || lia). done.
Qed.

(** ** Steps that change one thread only *)

Lemma lookup_set (l : list pc) t p t' p' : <[t := p]> l !! t' = Some p' -> (t' = t /\ p' = p) \/ (t' <> t /\ l !! t' = Some p').
Proof. intros H. apply list_lookup_insert_Some in H as [(-> & -> & _)|[? ?]]; [by left|right; auto]. Qed.

(** Thread [t] moves between two places of the same kind; only its own
    variable changes. *)
Lemma inv_local st q L t p p' nx' :
  inv st q L -> pcs st !! t = Some p -> p <> Wait -> p' <> Wait ->
  (owns p <-> owns p') -> (nx' = nexts st \/ exists x, nx' = <[t := x]> (nexts st)) ->
  knows (word st) nx' t p' -> wakes nx' p' (L t) ->
  inv (State (word st) nx' (<[t := p']> (pcs st))) q L.
Proof.
  intros [Hlen Hph Hkn Hwk Hq Hl Hwt Hnd Hap] Hp Hw Hw' Hown Hnx Hk Hwake.
  assert (forall t', t' ∈ q \/ (exists w, t' ∈ L w) -> t' <> t) as Hother.
  { intros t' [H%Hq|[w [H _]%Hl]] ->; congruence. }
  assert (forall v l, chain (nexts st) v l -> (forall t', t' ∈ l -> t' <> t) -> chain nx' v l) as Hchain.
  { intros v l Hc Ht. destruct Hnx as [->|[x ->]]; [done|]. apply chain_update; [done|].
    intros Hin. by apply (Ht t). }
  assert (t < length (pcs st))%nat as Htl by (by eapply lookup_lt_Some).
  split; simpl.
  - rewrite length_insert. destruct Hnx as [->|[x ->]]; [done|by rewrite length_insert].
  - assert (forall t0 p0, <[t:=p']> (pcs st) !! t0 = Some p0 -> owns p0 ->
      exists p1, pcs st !! t0 = Some p1 /\ owns p1) as Hback.
    { intros t0 p0 [[-> ->]|[_ H]]%lookup_set Ho; [|by eauto]. exists p. split; [done|by apply Hown]. }
    destruct Hph as [Hz Hqn Hno|h o Hz Hh Hc (po & Hpo & Hoo) Hu|c Hz Hc Hqn Hno].
    + apply phase_free; [done|done|]. intros t0 p0 H Ho. destruct (Hback _ _ H Ho) as (p1 & H1 & H2). by eapply Hno.
    + apply (phase_busy _ _ h o); [done|done|apply Hchain; [done|auto]|..].
      * destruct (decide (o = t)) as [->|Hne].
        { exists p'. split; [by apply list_lookup_insert_eq|]. apply Hown. congruence. }
        exists po. split; [simpl; by rewrite list_lookup_insert_ne|done].
      * intros t0 p0 H Ho. destruct (Hback _ _ H Ho) as (p1 & H1 & H2). by eapply Hu.
    + apply (phase_done _ _ c); [done|done|done|]. intros t0 p0 H Ho.
      destruct (Hback _ _ H Ho) as (p1 & H1 & H2). by eapply Hno.
  - intros t0 p0 [[-> ->]|[Hne H]]%lookup_set; [done|]. specialize (Hkn _ _ H).
    destruct Hnx as [->|[x ->]]; [done|]. destruct p0; simpl in *; try done.
    rewrite list_lookup_insert_ne by done. done.
  - intros t0 p0 [[-> ->]|[Hne H]]%lookup_set; [done|]. specialize (Hwk _ _ H). destruct p0; simpl in *; try done.
    + apply Hchain; [done|]. eauto.
    + destruct Hwk as (t1 & l' & El & -> & Hc). exists t1, l'. split_and!; [done|done|]. apply Hchain; [done|].
      intros t' Ht'. apply Hother. right. exists t0. rewrite El. apply elem_of_cons. by right.
  - intros t0 H. rewrite list_lookup_insert_ne; [by apply Hq|]. apply not_eq_sym. auto.
  - intros w t0 H. rewrite list_lookup_insert_ne; [rewrite length_insert; by apply Hl|]. apply not_eq_sym. eauto.
  - intros t0 [[-> E]|[_ H]]%lookup_set; [congruence|]. by apply Hwt.
  - done.
  - done.
Qed.

(** ** The four steps that move threads between the lists *)

Definition upd (L : nat -> list nat) (t : nat) (l : list nat) : nat -> list nat :=
  fun w => if decide (w = t) then l else L w.

Lemma upd_eq L t l : upd L t l t = l.
Proof. unfold upd. by rewrite decide_True. Qed.

Lemma upd_ne L t l w : w <> t -> upd L t l w = L w.
Proof. intros. unfold upd. by rewrite decide_False. Qed.

Lemma in_upd L t l w x : x ∈ upd L t l w -> (w = t /\ x ∈ l) \/ (w <> t /\ x ∈ L w).
Proof. unfold upd. case_decide; auto. Qed.

Lemma low_one_busy st q : phase st q -> low (word st) = 1 ->
  exists h o, word st = Z.lor h 1 /\ aligned h /\ chain (nexts st) h q /\
    (exists p, pcs st !! o = Some p /\ owns p) /\
    (forall t p, pcs st !! t = Some p -> owns p -> t = o).
Proof.
  intros [Hw _ _|h o Hw Hh Hc He Hu|c Hw Hc _ _] Hl.
  - by rewrite Hw in Hl.
  - by exists h, o.
  - rewrite Hw, low_lor in Hl by (done || lia). done.
Qed.

Lemma word_zero_free st q : phase st q -> word st = 0 ->
  q = [] /\ forall t p, pcs st !! t = Some p -> ~ owns p.
Proof.
  intros [Hw Hq Hn|h o Hw Hh _ _ _|c Hw Hc _ _] Hz; [done|..]; exfalso.
  - assert (low 0 = 1) as H by (by rewrite <- Hz, Hw, low_lor by (done || lia)). done.
  - assert (low 0 = 2) as H by (by rewrite <- Hz, Hw, low_lor by (done || lia)). done.
Qed.

(** The initialisation starts. *)
Lemma inv_start st q L t : inv st q L -> pcs st !! t = Some (Start 1) -> word st = 0 ->
  inv (State 1 (nexts st) (<[t := Run]> (pcs st))) q L.
Proof.
  intros [Hlen Hph Hkn Hwk Hq Hl Hwt Hnd Hap] Hp Hz.
  destruct (word_zero_free _ _ Hph Hz) as [-> Hno]. assert (t < length (pcs st))%nat by (by eapply lookup_lt_Some).
  split; simpl.
  - by rewrite length_insert.
  - apply (phase_busy _ _ 0 t); simpl; [done|done|constructor|..].
    + exists Run. split; [by apply list_lookup_insert_eq|done].
    + intros t0 p0 [[-> _]|[_ H0]]%lookup_set Ho; [done|]. by destruct (Hno _ _ H0).
  - intros t0 p0 [[-> ->]|[Hne H0]]%lookup_set; [done|]. apply (knows_word (word st)); [by rewrite Hz|by apply Hkn].
  - intros t0 p0 [[-> ->]|[Hne H0]]%lookup_set; [|by apply Hwk]. by apply (Hwk _ _ Hp).
  - intros t0 []%not_elem_of_nil.
  - intros w t0 [H0 ?]%Hl. rewrite length_insert, list_lookup_insert_ne by congruence. done.
  - intros t0 [[_ ?]|[_ H0]]%lookup_set; [done|]. by apply Hwt.
  - done.
  - done.
Qed.

(** A thread enters the list of the word. *)
Lemma inv_queue st q L t val : inv st q L -> pcs st !! t = Some (Queue val) -> word st = val ->
  inv (State (Z.lor (addr t) 1) (nexts st) (<[t := Wait]> (pcs st))) (t :: q) L.
Proof.
  intros [Hlen Hph Hkn Hwk Hq Hl Hwt [Hndq Hndl] Hap] Hp Hz. destruct (Hkn _ _ Hp) as [Hlow Hnx].
  rewrite <- Hz in Hlow, Hnx. destruct (low_one_busy _ _ Hph Hlow) as (h & o & Hw & Hh & Hc & (po & Hpo & Hoo) & Hu).
  assert (t < length (pcs st))%nat by (by eapply lookup_lt_Some).
  assert (o <> t) as Hot by (intros ->; rewrite Hpo in Hp; injection Hp as ->; done).
  assert (t ∉ q) as Htq by (intros ?%Hq; congruence).
  assert (forall w, t ∉ L w) as Htl by (intros w [? _]%Hl; congruence).
  split; simpl.
  - by rewrite length_insert.
  - apply (phase_busy _ _ (addr t) o); simpl; [done|apply addr_aligned|..].
    + rewrite Hw, high_lor in Hnx by (done || lia). by econstructor.
    + exists po. by rewrite list_lookup_insert_ne.
    + intros t0 p0 [[-> ->]|[_ H0]]%lookup_set Ho; [done|]. by eapply Hu.
  - intros t0 p0 [[-> ->]|[Hne H0]]%lookup_set; [done|]. apply (knows_word (word st)); [by rewrite Hlow|by apply Hkn].
  - intros t0 p0 [[-> ->]|[Hne H0]]%lookup_set; [|by apply Hwk]. by apply (Hwk _ _ Hp).
  - intros t0 [->|H0]%elem_of_cons; [by apply list_lookup_insert_eq|].
    rewrite list_lookup_insert_ne; [by apply Hq|]. intros ->. done.
  - intros w t0 H0. destruct (Hl _ _ H0). rewrite length_insert, list_lookup_insert_ne; [done|].
    intros ->. by apply (Htl w).
  - intros t0 [[-> _]|[_ H0]]%lookup_set; [left; by left|]. destruct (Hwt _ H0); [left; by right|by right].
  - split; [by constructor|done].
  - intros w t0 H0. destruct (Hap _ _ H0) as [? ?]. split; [|done]. intros [->|?]%elem_of_cons; [by apply (Htl w)|done].
Qed.

(** The owner stores the result and takes the list over. *)
Lemma inv_finish st q L t ok context val : inv st q L -> pcs st !! t = Some (Finish ok context val) ->
  word st = val ->
  inv (State (final_word ok context) (nexts st) (<[t := Wake ok context (high val)]> (pcs st))) [] (upd L t q).
Proof.
  intros [Hlen Hph Hkn Hwk Hq Hl Hwt [Hndq Hndl] Hap] Hp Hz. destruct (Hkn _ _ Hp) as [Hctx Hlow].
  rewrite <- Hz in Hlow. destruct (low_one_busy _ _ Hph Hlow) as (h & o & Hw & Hh & Hc & _ & Hu).
  assert (t < length (pcs st))%nat as Htlen by (by eapply lookup_lt_Some).
  pose proof (Hu _ _ Hp I) as <-. assert (L t = []) as HLt by (by apply (Hwk _ _ Hp)).
  assert (forall t0 p0, <[t:=Wake ok context (high val)]> (pcs st) !! t0 = Some p0 -> ~ owns p0) as Hno.
  { intros t0 p0 [[-> ->]|[Hne H0]]%lookup_set Ho; [done|]. by apply Hne, (Hu _ _ H0). }
  assert (final_word ok context = if ok then Z.lor context 2 else 0) as Hfin.
  { unfold final_word, complete_word, low. rewrite Hctx. destruct ok; simpl; [done|]. by destruct (Z.eqb_spec context 0) as [->|]. }
  assert (forall t0, pcs st !! t0 = Some Wait -> <[t:=Wake ok context (high val)]> (pcs st) !! t0 = Some Wait) as Hkeep.
  { intros t0 H0. rewrite list_lookup_insert_ne; [done|]. intros ->. congruence. }
  split; simpl.
  - by rewrite length_insert.
  - rewrite Hfin. destruct ok; [by apply (phase_done _ _ context)|by apply phase_free].
  - intros t0 p0 [[-> ->]|[Hne H0]]%lookup_set.
    + simpl. intros ->. by rewrite Hfin.
    + apply (knows_word (word st)); [by rewrite Hlow|by apply Hkn].
  - intros t0 p0 [[-> ->]|[Hne H0]]%lookup_set.
    + rewrite upd_eq. simpl. by rewrite <- Hz, Hw, high_lor by (done || lia).
    + rewrite upd_ne by done. by apply Hwk.
  - intros t0 []%not_elem_of_nil.
  - intros w t0 H0. rewrite length_insert. destruct (decide (w = t)) as [->|Hne].
    + rewrite upd_eq in H0. auto.
    + rewrite upd_ne in H0 by done. destruct (Hl _ _ H0). auto.
  - intros t0 [[-> E]|[_ H0]]%lookup_set; [done|]. right. destruct (Hwt _ H0) as [H1|[w H1]].
    + exists t. by rewrite upd_eq.
    + exists w. rewrite upd_ne; [done|]. intros ->. rewrite HLt in H1. by apply elem_of_nil in H1.
  - split; [constructor|]. intros w. destruct (decide (w = t)) as [->|]; [by rewrite upd_eq|by rewrite upd_ne].
  - intros w t0 H0. split; [apply not_elem_of_nil|]. intros w' H1.
    apply in_upd in H0 as [[-> H0]|[Hne H0]], H1 as [[-> H1]|[Hne' H1]]; [done|..].
    + by destruct (Hap _ _ H1).
    + by destruct (Hap _ _ H0).
    + by eapply Hap.
Qed.

(** A thread of a list is released. *)
Lemma inv_release st q L t ok context t' n : inv st q L ->
  pcs st !! t = Some (Release ok context (addr t') n) -> pcs st !! t' = Some Wait ->
  exists l, L t = t' :: l /\
    inv (State (word st) (nexts st) (<[t := Wake ok context n]> (<[t' := Begin]> (pcs st)))) q (upd L t l).
Proof.
  intros [Hlen Hph Hkn Hwk Hq Hl Hwt [Hndq Hndl] Hap] Hp Hp'.
  destruct (Hwk _ _ Hp) as (t1 & l & El & Ea & Hc). apply addr_inj in Ea as <-. exists l. split; [done|].
  assert (t' <> t) as Hne by congruence. assert (t < length (pcs st))%nat by (by eapply lookup_lt_Some).
  assert (t' < length (pcs st))%nat by (by eapply lookup_lt_Some).
  assert ((t' ∉ l) /\ NoDup l) as [Htl Hndt] by (specialize (Hndl t); rewrite El in Hndl; by apply NoDup_cons in Hndl).
  assert (forall x, x ∈ l -> x ∈ L t) as Hsub by (intros x Hx; rewrite El; by right).
  assert (t' ∈ L t) as Hin by (rewrite El; by left). destruct (Hap _ _ Hin) as [Hnq Huniq].
  assert (forall w x, x ∈ upd L t l w -> x ∈ L w /\ x <> t') as Hupd.
  { intros w x Hx. destruct (decide (w = t)) as [->|Hw].
    - rewrite upd_eq in Hx. split; [auto|]. intros ->. done.
    - rewrite upd_ne in Hx by done. split; [done|]. intros ->. by apply Hw, Huniq. }
  assert (forall x p, <[t := Wake ok context n]> (<[t' := Begin]> (pcs st)) !! x = Some p ->
    (x = t /\ p = Wake ok context n) \/ (x = t' /\ p = Begin) \/ (x <> t /\ x <> t' /\ pcs st !! x = Some p)) as Hlk.
  { intros x p [[-> ->]|[Hx [[-> ->]|[Hx' ?]]%lookup_set]]%lookup_set; auto. }
  assert (forall x, x <> t' -> pcs st !! x = Some Wait ->
    <[t := Wake ok context n]> (<[t' := Begin]> (pcs st)) !! x = Some Wait) as Hkeep.
  { intros x Hx Hw. rewrite !list_lookup_insert_ne; [done|done|]. intros ->. congruence. }
  split; simpl.
  - by rewrite !length_insert.
  - assert (forall x p, <[t := Wake ok context n]> (<[t' := Begin]> (pcs st)) !! x = Some p -> owns p ->
      pcs st !! x = Some p) as Hown by (intros x p [[-> ->]|[[-> ->]|(? & ? & ?)]]%Hlk Ho; done).
    destruct Hph as [Hz Hqn Hno|h o Hz Hh Hch (po & Hpo & Hoo) Hu|c Hz Hcc Hqn Hno].
    + apply phase_free; [done|done|]. intros x p Hx Ho. by eapply Hno; [apply (Hown x p)|].
    + apply (phase_busy _ _ h o); [done|done|done|..].
      * exists po. split; [|done]. simpl. rewrite !list_lookup_insert_ne; [done|..]; intros <-; congruence || (rewrite Hpo in *; simplify_eq; done).
      * intros x p Hx Ho. eapply Hu; [by apply (Hown x p)|done].
    + apply (phase_done _ _ c); [done|done|done|]. intros x p Hx Ho. by eapply Hno; [apply (Hown x p)|].
  - intros x p [[-> ->]|[[-> ->]|(? & ? & ?)]]%Hlk; [by apply (Hkn _ _ Hp)|done|by apply Hkn].
  - intros x p [[-> ->]|[[-> ->]|(? & ? & ?)]]%Hlk.
    + by rewrite upd_eq.
    + rewrite upd_ne by done. by apply (Hwk _ _ Hp').
    + rewrite upd_ne by done. by apply Hwk.
  - intros x Hx. apply Hkeep; [|by apply Hq]. intros ->. done.
  - intros w x [Hx Hxt]%Hupd. rewrite !length_insert. destruct (Hl _ _ Hx). split; [by apply Hkeep|done].
  - intros x [[-> ?]|[[-> ?]|(Hx1 & Hx2 & Hx)]]%Hlk; [done|done|]. destruct (Hwt _ Hx) as [?|[w Hw]]; [by left|right].
    exists w. destruct (decide (w = t)) as [->|]; [|by rewrite upd_ne]. rewrite upd_eq. rewrite El in Hw.
    by apply elem_of_cons in Hw as [?|?].
  - split; [done|]. intros w. destruct (decide (w = t)) as [->|]; [by rewrite upd_eq|by rewrite upd_ne].
  - intros w x [Hx _]%Hupd. destruct (Hap _ _ Hx) as [? Hu]. split; [done|]. intros w' [Hx' _]%Hupd. by apply Hu.
Qed.

(** ** Every step *)

Lemma knows_execute w ok context : (ok = true -> w = Z.lor context 2 /\ aligned context) ->
  forall nx t, knows w nx t (execute_result ok context STATUS_SUCCESS).
Proof. intros H nx t. destruct ok; simpl; auto. Qed.

Lemma inv_begin st q L t : inv st q L -> pcs st !! t = Some Begin -> inv (begin_step st t) q L.
Proof.
  intros Hi Hp. unfold begin_step, begin_switch, set_pc.
  assert (wakes (nexts st) Begin (L t)) as Hw by (by apply (inv_wakes _ _ _ Hi)).
  destruct (inv_phase _ _ _ Hi) as [Hz _ _|h o Hz Hh _ _ _|c Hz Hc _ _].
  - rewrite Hz. simpl. rewrite <- Hz. by eapply inv_local; eauto.
  - rewrite Hz, low_lor by (done || lia). simpl. rewrite <- Hz. eapply inv_local; eauto; try done. simpl.
    split; [by rewrite Hz, low_lor by (done || lia)|]. apply list_lookup_insert_eq.
    rewrite (inv_length _ _ _ Hi). by eapply lookup_lt_Some.
  - rewrite Hz, low_lor by (done || lia). simpl. rewrite high_lor by (done || lia). rewrite <- Hz.
    eapply inv_local; eauto; try done.
Qed.

Lemma inv_step st st' q L : inv st q L -> step addr func st st' -> exists q' L', inv st' q' L'.
Proof.
  intros Hi Hs. destruct Hs as [st t Hp|st t w Hp|st t val Hp|st t ok context Hp Hf|st t ok context Hp
    |st t ok context val Hp|st t ok context val Hp|st t ok context Hp|st t ok context t' n Hp H0 Hp' Hn
    |st t ok context t' n Hp Hp']; pose proof (inv_knows _ _ _ Hi _ _ Hp) as Hk;
    pose proof (inv_wakes _ _ _ Hi _ _ Hp) as Hw; simpl in Hk, Hw.
  - exists q, L. by apply inv_begin.
  - subst w. exists q, L. unfold exchange. destruct (Z.eqb_spec (word st) 0); [by apply inv_start|].
    by eapply inv_local; eauto.
  - unfold exchange. destruct (Z.eqb_spec (word st) val).
    + exists (t :: q), L. by eapply inv_queue.
    + exists q, L. by eapply inv_local; eauto.
  - exists q, L. unfold run_step, complete_word, low, set_pc. pose proof (func_aligned _ _ Hf) as Ha.
    destruct ok; simpl; [rewrite Ha; simpl|]; eapply inv_local; eauto; done.
  - exists q, L. unfold complete_step, complete_switch, set_pc.
    assert (low (word st) = 1) as Hl.
    { destruct (inv_phase _ _ _ Hi) as [_ _ Hno|h o Hz Hh _ _ _|c _ _ _ Hno].
      - by destruct (Hno _ _ Hp).
      - by rewrite Hz, low_lor by (done || lia).
      - by destruct (Hno _ _ Hp). }
    rewrite Hl. simpl. eapply inv_local; eauto; done.
  - unfold exchange. destruct (Z.eqb_spec (word st) val).
    + exists [], (upd L t q). by apply inv_finish.
    + exists q, L. eapply inv_local; eauto; try done. by destruct Hk.
  - done.
  - exists q, L. eapply inv_local; eauto; try done.
    + by destruct ok.
    + by destruct ok.
    + by apply knows_execute.
    + destruct (chain_inv _ _ _ Hw) as [[_ ->]|(t' & ? & ? & E & _)]; [by destruct ok|].
      by destruct (addr_nonzero t').
  - exists q, L. eapply inv_local; eauto; try done. simpl.
    destruct (chain_inv _ _ _ Hw) as [[E _]|(t1 & n1 & l & E & -> & Hn1 & Hc)]; [by destruct (addr_nonzero t')|].
    apply addr_inj in E as <-. rewrite Hn in Hn1. injection Hn1 as <-. by exists t', l.
  - destruct (inv_release st q L t ok context t' n Hi Hp Hp') as (l & _ & Hr). by exists q, (upd L t l).
Qed.

Lemma inv_initial n : inv (initial n) [] (fun _ => []).
Proof.
  split; simpl; rewrite ?length_replicate; try done.
  - apply phase_free; [done|done|]. intros t p [-> _]%lookup_replicate. by intros [].
  - intros t p [-> _]%lookup_replicate. done.
  - intros t p [-> _]%lookup_replicate. done.
  - intros t []%not_elem_of_nil.
  - intros w t []%not_elem_of_nil.
  - by intros t [? _]%lookup_replicate.
  - split; [constructor|]. intros. constructor.
  - intros w t []%not_elem_of_nil.
Qed.

Lemma inv_reachable n st : rtc (step addr func) (initial n) st -> exists q L, inv st q L.
Proof.
  intros H. assert (exists q L, inv (initial n) q L) as Hi by (do 2 eexists; apply inv_initial). revert Hi.
  induction H as [|st st1 st2 Hs _ IH]; [done|]. intros (q & L & Hi). apply IH. by eapply inv_step.
Qed.

(** A thread that is neither waiting nor finished has a step. *)
Lemma enabled st q L t p : inv st q L -> (exists ok context, func ok context) ->
  pcs st !! t = Some p -> p <> Wait -> (forall s c, p <> Done s c) -> exists st', step addr func st st'.
Proof.
  intros Hi (ok & context & Hf) Hp Hw Hd. pose proof (inv_wakes _ _ _ Hi _ _ Hp) as Hwk.
  destruct p as [|w|val| | |ok' c|ok' c val|ok' c val|ok' c val|ok' c val n|s c]; simpl in Hwk; try done.
  - eexists. by apply (step_begin _ _ _ t).
  - eexists. by apply (step_start _ _ _ t w).
  - eexists. by apply (step_queue _ _ _ t val).
  - eexists. by apply (step_run _ _ _ t ok context).
  - eexists. by apply (step_complete _ _ _ t ok' c).
  - eexists. by apply (step_finish _ _ _ t ok' c val).
  - eexists. by apply (step_finish_async _ _ _ t ok' c val).
  - destruct (chain_inv _ _ _ Hwk) as [[-> _]|(t' & n & l & -> & El & Hn & _)].
    + eexists. by apply (step_woken _ _ _ t ok' c).
    + assert (t' ∈ L t) as Hin by (rewrite El; by left). destruct (inv_listed _ _ _ Hi _ _ Hin) as [Hw' _].
      eexists. by apply (step_wake _ _ _ t ok' c t' n).
  - destruct Hwk as (t' & l & El & -> & _). assert (t' ∈ L t) as Hin by (rewrite El; by left).
    destruct (inv_listed _ _ _ Hi _ _ Hin) as [Hw' _]. eexists. by apply (step_release _ _ _ t ok' c t' n).
  - by destruct (Hd s c).
Qed.

(** A finished initialisation is not started again. *)
Lemma done_stays st st' q L : inv st q L -> low (word st) = 2 -> step addr func st st' -> word st' = word st.
Proof.
  intros Hi Hl Hs. destruct Hs as [st t Hp|st t w Hp|st t val Hp|st t ok context Hp Hf|st t ok context Hp
    |st t ok context val Hp|st t ok context val Hp|st t ok context Hp|st t ok context t' n Hp H0 Hp' Hn
    |st t ok context t' n Hp Hp']; try done; pose proof (inv_knows _ _ _ Hi _ _ Hp) as Hk; simpl in Hk.
  - unfold begin_step. by destruct (begin_switch 0 (word st)).
  - unfold exchange. destruct (Z.eqb_spec (word st) 0) as [E|]; [|done]. by rewrite E in Hl.
  - unfold exchange. destruct (Z.eqb_spec (word st) val) as [E|]; [|done]. destruct Hk. congruence.
  - unfold run_step. by destruct (complete_word _ _).
  - unfold exchange. destruct (Z.eqb_spec (word st) val) as [E|]; [|done]. destruct Hk. congruence.
  - done.
Qed.

Lemma done_owned st q L t p : inv st q L -> low (word st) = 2 -> pcs st !! t = Some p -> ~ owns p.
Proof.
  intros Hi Hl Hp. destruct (inv_phase _ _ _ Hi) as [_ _ Hno|h o Hz Hh _ _ _|c _ _ _ Hno].
  - by apply (Hno _ _ Hp).
  - rewrite Hz, low_lor in Hl by (done || lia). done.
  - by apply (Hno _ _ Hp).
Qed.

Lemma done_reachable st st' : (exists q L, inv st q L) -> low (word st) = 2 -> rtc (step addr func) st st' ->
  word st' = word st /\ exists q L, inv st' q L.
Proof.
  intros Hi Hl H. revert Hi Hl. induction H as [|st st1 st2 Hs _ IH]; [done|]. intros (q & L & Hi) Hl.
  pose proof (done_stays _ _ _ _ Hi Hl Hs) as E. rewrite <- E in Hl |- *. apply IH; [by eapply inv_step|done].
Qed.

End Proof.

(** ** Two threads

    Thread 0 starts the initialisation, thread 1 waits, thread 0 stores the
    context 8. *)
Definition frame (t : nat) : Z := 4 * (Z.of_nat t + 1).
Definition gives_8 (ok : bool) (context : Z) : Prop := ok = true /\ context = 8.

Lemma frame_aligned t : aligned (frame t).
Proof. unfold aligned, frame. change 3 with (2 ^ 2 - 1). rewrite land_ones_mod by lia. change (2 ^ 2) with 4. dlia. Qed.

Lemma frame_nonzero t : frame t <> 0.
Proof. unfold frame. lia. Qed.

Lemma frame_inj t t' : frame t = frame t' -> t = t'.
Proof. unfold frame. lia. Qed.

Lemma gives_8_aligned ok context : gives_8 ok context -> aligned context.
Proof. by intros [_ ->]. Qed.

Definition waiting : state := State 9 [0; 0] [Run; Wait].
Definition stored : state := State 10 [0; 0] [Wake true 8 8; Wait].

Lemma waiting_reachable : rtc (step frame gives_8) (initial 2) waiting.
Proof.
  eapply rtc_l; [by apply (step_begin _ _ _ 0)|]. eapply rtc_l; [by apply (step_start _ _ _ 0 1)|].
  eapply rtc_l; [by apply (step_begin _ _ _ 1)|]. eapply rtc_l; [by apply (step_queue _ _ _ 1 1)|].
  apply rtc_refl.
Qed.

Lemma stored_reachable : rtc (step frame gives_8) (initial 2) stored.
Proof.
  etransitivity; [apply waiting_reachable|].
  eapply rtc_l; [by apply (step_run _ _ _ 0 true 8)|]. eapply rtc_l; [by apply (step_complete _ _ _ 0 true 8)|].
  eapply rtc_l; [by apply (step_finish _ _ _ 0 true 8 9)|]. apply rtc_refl.
Qed.

Module RunOnceSpec.

(** C21. At most one thread runs the initialisation function: in every state
    that threads in RtlRunOnceExecuteOnce reach, in any interleaving of their
    atomic steps, two threads that own the initialisation are the same one
    and the word says that it is in progress. *)
Theorem RunOnce_exclusive addr func n st t1 t2 p1 p2 :
  (forall t, aligned (addr t)) -> (forall t, addr t <> 0) ->
  (forall t t', addr t = addr t' -> t = t') ->
  (forall ok context, func ok context -> aligned context) ->
  rtc (step addr func) (initial n) st ->
  pcs st !! t1 = Some p1 -> owns p1 -> pcs st !! t2 = Some p2 -> owns p2 ->
  t1 = t2 /\ low (word st) = 1.
Proof.
  intros Ha Hz Hinj Hf Hr H1 O1 H2 O2.
  destruct (inv_reachable addr func Ha Hz Hinj Hf n st Hr) as (q & L & Hi).
  destruct (inv_phase _ _ _ _ Hi) as [_ _ Hno|h o Hw Hh _ _ Hu|c _ _ _ Hno].
  - by destruct (Hno _ _ H1).
  - rewrite (Hu _ _ H1 O1), (Hu _ _ H2 O2), Hw, low_lor by (done || lia). done.
  - by destruct (Hno _ _ H1).
Qed.

Lemma RunOnce_exclusive_witness : 0%nat = 0%nat /\ low (word waiting) = 1.
Proof.
  apply (RunOnce_exclusive frame gives_8 2 waiting 0 0 Run Run frame_aligned frame_nonzero frame_inj gives_8_aligned
           waiting_reachable); exact I || reflexivity.
Defined.

(** A successful initialisation happens once: when the word says done, it
    never changes again, no thread owns the initialisation any more, and
    every thread that returns STATUS_SUCCESS returns the same context. *)
Theorem RunOnce_once addr func n st st' :
  (forall t, aligned (addr t)) -> (forall t, addr t <> 0) ->
  (forall t t', addr t = addr t' -> t = t') ->
  (forall ok context, func ok context -> aligned context) ->
  rtc (step addr func) (initial n) st -> low (word st) = 2 -> rtc (step addr func) st st' ->
  word st' = word st /\
  (forall t p, pcs st' !! t = Some p -> ~ owns p) /\
  (forall t context, pcs st' !! t = Some (Done STATUS_SUCCESS (Some context)) -> context = high (word st)).
Proof.
  intros Ha Hz Hinj Hf Hr Hl Hr'.
  destruct (done_reachable addr func Ha Hz Hinj Hf st st') as (E & q & L & Hi);
    [by eapply inv_reachable|done|done|].
  split; [done|]. rewrite <- E in Hl |- *. split.
  - intros t p. by eapply done_owned.
  - intros t context Hp. destruct (inv_knows _ _ _ _ Hi _ _ Hp eq_refl) as [-> Hc].
    by rewrite high_lor by (done || lia).
Qed.

Lemma RunOnce_once_witness :
  word stored = word stored /\
  (forall t p, pcs stored !! t = Some p -> ~ owns p) /\
  (forall t context, pcs stored !! t = Some (Done STATUS_SUCCESS (Some context)) -> context = high (word stored)).
Proof.
  apply (RunOnce_once frame gives_8 2 stored stored frame_aligned frame_nonzero frame_inj gives_8_aligned
           stored_reachable).
  - reflexivity.
  - apply rtc_refl.
Defined.

(** No wake-up is lost: as long as some thread has not returned from
    RtlRunOnceExecuteOnce, some thread can take a step, whatever the
    interleaving and whether initialisations failed. *)
Theorem RunOnce_progress addr func n st t p :
  (forall t, aligned (addr t)) -> (forall t, addr t <> 0) ->
  (forall t t', addr t = addr t' -> t = t') ->
  (forall ok context, func ok context -> aligned context) ->
  (exists ok context, func ok context) ->
  rtc (step addr func) (initial n) st ->
  pcs st !! t = Some p -> (forall s c, p <> Done s c) ->
  exists st', step addr func st st'.
Proof.
  intros Ha Hz Hinj Hf He Hr Hp Hd.
  destruct (inv_reachable addr func Ha Hz Hinj Hf n st Hr) as (q & L & Hi).
  assert (p = Wait \/ p <> Wait) as [->|Hw] by (destruct p; (by left) || (by right)); [|by eapply enabled].
  destruct (inv_waits _ _ _ _ Hi _ Hp) as [Hq|[w Hw]].
  - destruct (inv_phase _ _ _ _ Hi) as [_ -> _|h o _ _ _ (po & Hpo & Hoo) _|c _ _ -> _].
    + by apply elem_of_nil in Hq.
    + apply (enabled addr func Hz st q L o po); try done; by destruct po.
    + by apply elem_of_nil in Hq.
  - destruct (inv_listed _ _ _ _ Hi _ _ Hw) as [_ [pw Hpw]%lookup_lt_is_Some_2].
    pose proof (inv_wakes _ _ _ _ Hi _ _ Hpw) as Hk.
    apply (enabled addr func Hz st q L w pw); try done; destruct pw; simpl in Hk; try done;
      rewrite Hk in Hw; by apply elem_of_nil in Hw.
Qed.

Lemma RunOnce_progress_witness : exists st', step frame gives_8 stored st'.
Proof.
  apply (RunOnce_progress frame gives_8 2 stored 1 Wait frame_aligned frame_nonzero frame_inj gives_8_aligned).
  - exists true, 8. split; reflexivity.
  - apply stored_reachable.
  - reflexivity.
  - discriminate.
Defined.

End RunOnceSpec.
