(* ===== verification/Fls.v ===== *)
(** * Fiber local storage (oca/extensions/ntext/rtl/thread.c)

    Indexes are kept in eight chunks of 16, 32, ... 2048 entries, shared by
    all threads; the values of a thread are kept in a block of the same
    shape, which is allocated at its first use and linked into a list.
    Pointers are integers: 0 is NULL, [all_ones] is [~(ULONG_PTR)0]. *)
From S2P Require Import Prelude.

Module Fls.

Definition all_ones : Z := 2 ^ 32 - 1.
Definition MAX_FLS_DATA_COUNT : nat := 0xff0.
Definition chunk_count : nat := 8.

(** FLS_INFO_CHUNK *)
Record chunk := Chunk { count : nat; callbacks : list Z }.

(** TEB_FLS_DATA without its list entry: the chunks of a block. *)
Abbreviation block := (list (option (list Z))).

Definition empty_block : block := replicate chunk_count None.

(** GLOBAL_FLS_DATA and the blocks: [chunks] and [high] are global, [flist]
    is the list of blocks, [blocks] the heap ([None] for a freed block) and
    [tebs] the [FlsData] of each thread. *)
Record state := State {
  chunks : list (option chunk);
  high : nat;
  flist : list nat;
  blocks : list (option block);
  tebs : list (option nat);
}.

Definition fls_chunk_size (chunk_index : nat) : nat := Nat.shiftl 0x10 chunk_index.

Definition fls_index_from_chunk_index (chunk_index index : nat) : nat :=
  (0x10 * (Nat.shiftl 1 chunk_index - 1) + index)%nat.

Fixpoint chunk_index_loop (fuel index chunk_index : nat) : outcome (nat * nat) :=
  match fuel with
  | O => NoFuel
  | S fuel =>
    if (fls_chunk_size chunk_index <=? index)%nat
    then chunk_index_loop fuel (index - fls_chunk_size chunk_index) (S chunk_index)
    else Ok (chunk_index, index)
  end.

(** The chunk and the index in it. *)
Definition fls_chunk_index_from_index (index : nat) : outcome (nat * nat) :=
  chunk_index_loop (S index) index 0.

(** Arrays of any element type. *)
Definition get {A} (l : list A) (i : nat) : outcome A :=
  match l !! i with Some x => Ok x | None => Fault end.

Definition put {A} (l : list A) (i : nat) (x : A) : outcome (list A) :=
  if decide (i < length l)%nat then Ok (<[i := x]> l) else Fault.

(** A block that has not been freed. *)
Definition live (st : state) (b : nat) : outcome block :=
  o ← get (blocks st) b;
  match o with Some d => Ok d | None => Fault end.

Definition set_chunk (st : state) (c : nat) (ch : chunk) : state :=
  State (<[c := Some ch]> (chunks st)) (high st) (flist st) (blocks st) (tebs st).

Definition set_high (st : state) (h : nat) : state :=
  State (chunks st) h (flist st) (blocks st) (tebs st).

Definition set_block (st : state) (b : nat) (d : option block) : state :=
  State (chunks st) (high st) (flist st) (<[b := d]> (blocks st)) (tebs st).

(** [fls_alloc_data]: a block of empty chunks at the end of the list; [ok] is
    the result of the heap. *)
Definition fls_alloc_data (st : state) (ok : bool) : option (state * nat) :=
  if ok then
    let b := length (blocks st) in
    Some (State (chunks st) (high st) (flist st ++ [b])
            (blocks st ++ [Some empty_block]) (tebs st), b)
  else None.

(** [NtCurrentTeb()->FlsData], allocated when it is missing. *)
Definition teb_data (st : state) (t : nat) (ok : bool) : outcome (option (state * nat)) :=
  o ← get (tebs st) t;
  match o with
  | Some b => Ok (Some (st, b))
  | None =>
    match fls_alloc_data st ok with
    | None => Ok None
    | Some (st, b) =>
      tebs ← put (tebs st) t (Some b);
      Ok (Some (State (chunks st) (high st) (flist st) (blocks st) tebs, b))
    end
  end.

(** The first chunk that is missing or not full, from [i] on. *)
Fixpoint find_chunk (cs : list (option chunk)) (i : nat) : nat :=
  match cs with
  | [] => i
  | None :: _ => i
  | Some ch :: cs => if (count ch <? fls_chunk_size i)%nat then i else find_chunk cs (S i)
  end.

(** The first free entry. *)
Fixpoint find_entry (l : list Z) : nat :=
  match l with [] => 0%nat | cb :: l => if cb =? 0 then 0%nat else S (find_entry l) end.

(** A new chunk and its first entry: index 0 is prohibited. *)
Definition new_chunk (c : nat) : chunk * nat :=
  if (c =? 0)%nat then (Chunk 1 (<[0%nat := all_ones]> (replicate (fls_chunk_size c) 0)), 1%nat)
  else (Chunk 0 (replicate (fls_chunk_size c) 0), 0%nat).

(** The chunk [c] with the entry to use; [None] when the heap has no room. *)
Definition chunk_for (st : state) (c : nat) (ok : bool) : outcome (option (chunk * nat)) :=
  o ← get (chunks st) c;
  match o with
  | Some ch =>
    let index := find_entry (callbacks ch) in
    if (index <? fls_chunk_size c)%nat then Ok (Some (ch, index)) else Fault
  | None => Ok (if ok then Some (new_chunk c) else None)
  end.

(** [RtlFlsAlloc( callback, &index )] in thread [t]; [ok1] and [ok2] are the
    results of the heap for the block and for the chunk. *)
Definition RtlFlsAlloc (st : state) (t : nat) (callback : Z) (ok1 ok2 : bool)
    : outcome (Z * nat * state) :=
  r ← teb_data st t ok1;
  match r with
  | None => Ok (STATUS_NO_MEMORY, 0%nat, st)
  | Some (st, _) =>
    let c := find_chunk (chunks st) 0 in
    if (c =? chunk_count)%nat then Ok (STATUS_NO_MEMORY, 0%nat, st)
    else
      r ← chunk_for st c ok2;
      match r with
      | None => Ok (STATUS_NO_MEMORY, 0%nat, st)
      | Some (ch, index) =>
        cbs ← put (callbacks ch) index (if callback =? 0 then all_ones else callback);
        let st := set_chunk st c (Chunk (S (count ch)) cbs) in
        let ret := fls_index_from_chunk_index c index in
        Ok (STATUS_SUCCESS, ret, if (high st <? ret)%nat then set_high st ret else st)
      end
  end.

(** The loop of [RtlFlsFree] over the list of blocks: the state and the calls
    of the callback, with their arguments. *)
Fixpoint free_loop (l : list nat) (st : state) (callback : Z) (c idx : nat)
    : outcome (state * list (Z * Z)) :=
  match l with
  | [] => Ok (st, [])
  | b :: l =>
    d ← live st b;
    o ← get d c;
    match o with
    | None => free_loop l st callback c idx
    | Some data =>
      v ← get data (idx + 1);
      if v =? 0 then free_loop l st callback c idx
      else
        data ← put data (idx + 1) 0;
        '(st, calls) ← free_loop l (set_block st b (Some (<[c := Some data]> d))) callback c idx;
        Ok (st, (if callback =? all_ones then calls else (callback, v) :: calls))
    end
  end.

(** [RtlFlsFree( index )]: the status, the calls of the callback and the
    state. *)
Definition RtlFlsFree (st : state) (index : nat) : outcome (Z * list (Z * Z) * state) :=
  if (index =? 0)%nat || (high st <? index)%nat then Ok (STATUS_INVALID_PARAMETER, [], st)
  else
    '(c, idx) ← fls_chunk_index_from_index index;
    o ← get (chunks st) c;
    match o with
    | None => Ok (STATUS_INVALID_PARAMETER, [], st)
    | Some ch =>
      callback ← get (callbacks ch) idx;
      if callback =? 0 then Ok (STATUS_INVALID_PARAMETER, [], st)
      else
        '(st, calls) ← free_loop (flist st) st callback c idx;
        cbs ← put (callbacks ch) idx 0;
        Ok (STATUS_SUCCESS, calls, set_chunk st c (Chunk (count ch - 1) cbs))
    end.

(** [RtlFlsSetValue( index, data )] in thread [t]. *)
Definition RtlFlsSetValue (st : state) (t index : nat) (data : Z) (ok1 ok2 : bool)
    : outcome (Z * state) :=
  if (index =? 0)%nat || (MAX_FLS_DATA_COUNT <=? index)%nat then Ok (STATUS_INVALID_PARAMETER, st)
  else
    r ← teb_data st t ok1;
    match r with
    | None => Ok (STATUS_NO_MEMORY, st)
    | Some (st, b) =>
      '(c, idx) ← fls_chunk_index_from_index index;
      d ← live st b;
      o ← get d c;
      match o, ok2 with
      | None, false => Ok (STATUS_NO_MEMORY, st)
      | _, _ =>
        v ← put (default (replicate (fls_chunk_size c + 1) 0) o) (idx + 1) data;
        Ok (STATUS_SUCCESS, set_block st b (Some (<[c := Some v]> d)))
      end
    end.

(** [RtlFlsGetValue( index, &data )] in thread [t]: the status and [*data]. *)
Definition RtlFlsGetValue (st : state) (t index : nat) : outcome (Z * option Z) :=
  if (index =? 0)%nat || (MAX_FLS_DATA_COUNT <=? index)%nat then Ok (STATUS_INVALID_PARAMETER, None)
  else
    o ← get (tebs st) t;
    match o with
    | None => Ok (STATUS_INVALID_PARAMETER, None)
    | Some b =>
      '(c, idx) ← fls_chunk_index_from_index index;
      d ← live st b;
      o ← get d c;
      match o with
      | None => Ok (STATUS_SUCCESS, Some 0)
      | Some data => v ← get data (idx + 1); Ok (STATUS_SUCCESS, Some v)
      end
    end.

(** The entries of one chunk in [RtlProcessFlsData]: the values that are
    left (none) and the calls. *)
Fixpoint process_chunk (cbs : list Z) (data : list Z) : list Z * list (Z * Z) :=
  match cbs, data with
  | cb :: cbs, v :: data =>
    let '(data, calls) := process_chunk cbs data in
    (0 :: data, if negb (v =? 0) && negb (cb =? 0) && negb (cb =? all_ones) then (cb, v) :: calls else calls)
  | _, _ => (data, [])
  end.

(** The chunks of a block against the global chunks. *)
Fixpoint process_block (cs : list (option chunk)) (d : block) : block * list (Z * Z) :=
  match cs, d with
  | Some ch :: cs, Some (slot :: data) :: d =>
    let '(d, calls) := process_block cs d in
    if (count ch =? 0)%nat then (Some (slot :: data) :: d, calls)
    else let '(data, calls0) := process_chunk (callbacks ch) data in (Some (slot :: data) :: d, calls0 ++ calls)
  | _ :: cs, o :: d => let '(d, calls) := process_block cs d in (o :: d, calls)
  | _, _ => (d, [])
  end.

(** [RtlProcessFlsData( block, flags )]: the calls and the state. *)
Definition RtlProcessFlsData (st : state) (b : option nat) (flags : Z) : outcome (list (Z * Z) * state) :=
  match b with
  | None => Ok ([], st)
  | Some b =>
    '(calls, st) ←
      (if Z.testbit flags 0 then
         d ← live st b;
         let '(d, calls) := process_block (chunks st) d in
         Ok (calls, State (chunks st) (high st) (filter (fun b' => b' <> b) (flist st))
                      (<[b := Some d]> (blocks st)) (tebs st))
       else Ok ([], st));
    if Z.testbit flags 1 then _ ← live st b; Ok (calls, set_block st b None) else Ok (calls, st)
  end.

(** No thread has used the storage. *)
Definition initial (n : nat) : state :=
  State (replicate chunk_count None) 0 [] [] (replicate n None).

End Fls.
