(* ===== verification/FlsSpec.v ===== *)
(** * Fiber local storage: the indexes and the values

    The storage is abstracted to two maps: the callback of each index (0 when
    the index is free) and the value of each index in each thread. *)
From S2P Require Import Prelude Fls.
Import Fls.

(** ** Chunks and indexes *)

Definition base (c : nat) : nat := (16 * (2 ^ c - 1))%nat.

Lemma chunk_size_eq c : fls_chunk_size c = (16 * 2 ^ c)%nat.
Proof. unfold fls_chunk_size. rewrite Nat.shiftl_mul_pow2. done. Qed.

Lemma pow2_pos c : (0 < 2 ^ c)%nat.
Proof. pose proof (Nat.pow_nonzero 2 c). lia. Qed.

Lemma base_S c : base (S c) = (base c + fls_chunk_size c)%nat.
Proof. unfold base. rewrite chunk_size_eq, Nat.pow_succ_r'. pose proof (pow2_pos c). lia. Qed.

Lemma index_from_eq c i : fls_index_from_chunk_index c i = (base c + i)%nat.
Proof. unfold fls_index_from_chunk_index, base. rewrite Nat.shiftl_mul_pow2. lia. Qed.

Lemma base_mono c c' : (c <= c')%nat -> (base c <= base c')%nat.
Proof. intros H. unfold base. pose proof (Nat.pow_le_mono_r 2 c c'). lia. Qed.

Lemma base_unique c i c' i' : (i < fls_chunk_size c)%nat -> (i' < fls_chunk_size c')%nat ->
  (base c + i = base c' + i')%nat -> c = c' /\ i = i'.
Proof.
  intros Hi Hi' E. destruct (Nat.lt_trichotomy c c') as [H|[->|H]].
  - pose proof (base_mono (S c) c' H). rewrite base_S in *. lia.
  - split; [done|lia].
  - pose proof (base_mono (S c') c H). rewrite base_S in *. lia.
Qed.

Lemma chunk_index_loop_ok : forall fuel index c, (index < fuel)%nat ->
  exists c' i, chunk_index_loop fuel index c = Ok (c', i) /\ (i < fls_chunk_size c')%nat /\
    (base c' + i = base c + index)%nat.
Proof.
  induction fuel as [|fuel IH]; intros index c Hf; [lia|]. cbn [chunk_index_loop].
  destruct (Nat.leb_spec (fls_chunk_size c) index).
  - assert (0 < fls_chunk_size c)%nat by (rewrite chunk_size_eq; pose proof (pow2_pos c); lia).
    destruct (IH (index - fls_chunk_size c)%nat (S c)) as (c' & i & -> & Hi & E); [lia|].
    exists c', i. split_and!; [done|done|]. rewrite E, base_S. lia.
  - by exists c, index.
Qed.

Lemma base_chunk_count : base chunk_count = MAX_FLS_DATA_COUNT.
Proof. done. Qed.

(** Every index lies in one place. *)
Lemma from_index_ok index : exists c i, fls_chunk_index_from_index index = Ok (c, i) /\
  (i < fls_chunk_size c)%nat /\ (base c + i = index)%nat /\ ((index < MAX_FLS_DATA_COUNT)%nat -> (c < chunk_count)%nat).
Proof.
  destruct (chunk_index_loop_ok (S index) index 0) as (c & i & E & Hi & Eb); [lia|]. exists c, i.
  change (base 0) with 0%nat in Eb. split_and!; [done|done|lia|]. intros Hlt.
  destruct (Nat.lt_ge_cases c chunk_count) as [|Hge]; [done|]. pose proof (base_mono _ _ Hge) as Hm.
  rewrite base_chunk_count in Hm. lia.
Qed.

Lemma from_index_at c i : (i < fls_chunk_size c)%nat -> fls_chunk_index_from_index (base c + i) = Ok (c, i).
Proof.
  intros Hi. destruct (from_index_ok (base c + i)) as (c' & i' & -> & Hi' & E & _).
  destruct (base_unique c' i' c i) as [-> ->]; [done..|]. done.
Qed.

(** ** The two maps *)

Definition entry (st : state) (c i : nat) : Z :=
  match chunks st !! c with Some (Some ch) => default 0 (callbacks ch !! i) | _ => 0 end.

Definition slot (st : state) (b c i : nat) : Z :=
  match blocks st !! b with
  | Some (Some d) => match d !! c with Some (Some data) => default 0 (data !! (i + 1)%nat) | _ => 0 end
  | _ => 0
  end.

Definition callback_of (st : state) (index : nat) : Z :=
  match fls_chunk_index_from_index index with Ok (c, i) => entry st c i | _ => 0 end.

Definition value_of (st : state) (t index : nat) : Z :=
  match fls_chunk_index_from_index index, tebs st !! t with
  | Ok (c, i), Some (Some b) => slot st b c i
  | _, _ => 0
  end.

(** ** Well-formed states *)

(** The number of entries in use. *)
Definition used (l : list Z) : nat := length (filter (fun x => x <> 0) l).

Definition wf_chunk (c : nat) (ch : chunk) : Prop :=
  length (callbacks ch) = fls_chunk_size c /\ count ch = used (callbacks ch) /\
  (c = 0%nat -> callbacks ch !! 0%nat <> Some 0).

Definition wf_block (d : block) : Prop :=
  length d = chunk_count /\
  forall c data, d !! c = Some (Some data) -> length data = (fls_chunk_size c + 1)%nat.

Record wf (st : state) : Prop := {
  wf_length : length (chunks st) = chunk_count;
  wf_chunks c ch : chunks st !! c = Some (Some ch) -> wf_chunk c ch;
  wf_high c i : entry st c i <> 0 -> (base c + i <= high st)%nat;
  wf_bound : (high st < MAX_FLS_DATA_COUNT)%nat;
  wf_blocks b d : blocks st !! b = Some (Some d) -> wf_block d;
  wf_flist b : b ∈ flist st -> exists d, blocks st !! b = Some (Some d);
  wf_nodup : NoDup (flist st);
  wf_tebs t b : tebs st !! t = Some (Some b) -> exists d, blocks st !! b = Some (Some d);
  wf_inj t t' b : tebs st !! t = Some (Some b) -> tebs st !! t' = Some (Some b) -> t = t' }.

(** ** Counting *)

Lemma used_app l1 l2 : used (l1 ++ l2) = (used l1 + used l2)%nat.
Proof. unfold used. by rewrite filter_app, length_app. Qed.

Lemma used_cons x l : used (x :: l) = if decide (x <> 0) then S (used l) else used l.
Proof. unfold used. rewrite filter_cons. by destruct (decide (x <> 0)). Qed.

Lemma used_le l : (used l <= length l)%nat.
Proof. apply length_filter. Qed.

Lemma used_insert l i (x y : Z) : l !! i = Some x ->
  (used (<[i := y]> l) + (if decide (x <> 0%Z) then 1 else 0) =
   used l + (if decide (y <> 0%Z) then 1 else 0))%nat.
Proof.
  intros H. pose proof (lookup_lt_Some _ _ _ H). rewrite insert_take_drop by done.
  rewrite <- (take_drop_middle l i x H) at 3. rewrite !used_app, !used_cons. repeat case_decide; lia.
Qed.

Lemma find_entry_ok l : (used l < length l)%nat -> (find_entry l < length l)%nat /\ l !! find_entry l = Some 0.
Proof.
  induction l as [|x l IH]; simpl; [lia|]. rewrite used_cons. intros H.
  destruct (Z.eqb_spec x 0) as [->|Hx]; [by split; [lia|]|]. rewrite decide_True in H by done.
  destruct IH; [lia|]. split; [lia|done].
Qed.

Lemma used_full l i (x : Z) : (length l <= used l)%nat -> l !! i = Some x -> x <> 0.
Proof.
  intros Hl Hi Hx. pose proof (used_insert l i x 1 Hi) as E. subst x. rewrite decide_False, decide_True in E by (done || tauto).
  pose proof (used_le (<[i:=1]> l)) as Hle. rewrite length_insert in Hle. lia.
Qed.

Lemma used_replicate n : used (replicate n 0) = 0%nat.
Proof. induction n as [|n IH]; [done|]. simpl. rewrite used_cons. by rewrite decide_False by tauto. Qed.

Lemma find_chunk_ok cs : forall k, let r := find_chunk cs k in
  (r <= k + length cs)%nat /\
  (forall c ch, (k <= c < r)%nat -> cs !! (c - k)%nat = Some (Some ch) -> (fls_chunk_size c <= count ch)%nat) /\
  (forall c, (k <= c < r)%nat -> cs !! (c - k)%nat <> Some None) /\
  (k <= r)%nat /\
  (forall ch, cs !! (r - k)%nat = Some (Some ch) -> (count ch < fls_chunk_size r)%nat).
Proof.
  induction cs as [|[ch|] cs IH]; intros k; simpl.
  - split_and!; try lia; try (intros; lia). intros ch. by rewrite lookup_nil.
  - destruct (Nat.ltb_spec (count ch) (fls_chunk_size k)) as [Hlt|Hge].
    + split_and!; try lia; try (intros; lia). rewrite Nat.sub_diag. by intros ch' [= <-].
    + destruct (IH (S k)) as (H1 & H2 & H3 & H4 & H5). set (r := find_chunk cs (S k)) in *. split_and!; try lia.
      * intros c ch' Hc. destruct (Nat.eq_dec c k) as [->|]; [rewrite Nat.sub_diag; by intros [= <-]|].
        replace (c - k)%nat with (S (c - S k)) by lia. apply H2. lia.
      * intros c Hc. destruct (Nat.eq_dec c k) as [->|]; [by rewrite Nat.sub_diag|].
        replace (c - k)%nat with (S (c - S k)) by lia. apply H3. lia.
      * intros ch'. replace (r - k)%nat with (S (r - S k)) by lia. apply H5.
  - split_and!; try lia; try (intros; lia). by rewrite Nat.sub_diag.
Qed.

(** ** Updates of the state *)

Lemma entry_set st c ch c' i : (c < length (chunks st))%nat ->
  entry (set_chunk st c ch) c' i = if decide (c' = c) then default 0 (callbacks ch !! i) else entry st c' i.
Proof.
  intros Hc. unfold entry, set_chunk. simpl. case_decide as E.
  - subst. by rewrite list_lookup_insert_eq.
  - by rewrite list_lookup_insert_ne.
Qed.

Lemma callback_of_at st c i : (i < fls_chunk_size c)%nat -> callback_of st (base c + i) = entry st c i.
Proof. intros H. unfold callback_of. by rewrite from_index_at. Qed.

(** A chunk is replaced, the high mark raised. *)
Lemma wf_set_chunk st c ch h : wf st -> (c < chunk_count)%nat -> wf_chunk c ch ->
  (forall i, default 0 (callbacks ch !! i) <> 0 -> (base c + i <= h)%nat) ->
  (high st <= h < MAX_FLS_DATA_COUNT)%nat -> wf (set_high (set_chunk st c ch) h).
Proof.
  intros [Hl Hc Hh Hb Hbl Hf Hn Ht Hi] Hlt Hwf Hmax Hhi. split; simpl; try done.
  - by rewrite length_insert.
  - intros c' ch' [(-> & [= <-] & _)|[_ H]]%list_lookup_insert_Some; [done|by apply Hc].
  - intros c' i. change (entry (set_high (set_chunk st c ch) h) c' i) with (entry (set_chunk st c ch) c' i).
    rewrite entry_set by lia. case_decide as E; [subst; apply Hmax|]. intros H. specialize (Hh _ _ H). lia.
  - lia.
Qed.

Lemma empty_block_lookup c data : empty_block !! c <> Some (Some data).
Proof. unfold empty_block. by intros [? _]%lookup_replicate. Qed.

(** The block of a thread. *)
Lemma teb_data_ok st t ok : wf st -> (t < length (tebs st))%nat ->
  exists r, teb_data st t ok = Ok r /\
    match r with
    | None => ok = false
    | Some (st', b) =>
      wf st' /\ tebs st' !! t = Some (Some b) /\ chunks st' = chunks st /\ high st' = high st /\
      length (tebs st') = length (tebs st) /\
      (forall t' j, value_of st' t' j = value_of st t' j)
    end.
Proof.
  intros Hwf Ht. unfold teb_data, get. destruct (lookup_lt_is_Some_2 _ _ Ht) as [[b|] Hb]; rewrite Hb, bind_ok.
  { eexists. split; [done|]. done. }
  unfold fls_alloc_data. destruct ok; [|by eexists]. unfold put. cbn [chunks high flist blocks tebs]. rewrite decide_True by done.
  eexists. split; [done|]. cbn [chunks high flist blocks tebs]. destruct Hwf as [Hl Hc Hh Hbd Hbl Hf Hn Ht' Hi].
  assert (forall b d, blocks st !! b = Some (Some d) -> (blocks st ++ [Some empty_block]) !! b = Some (Some d)) as Hold.
  { intros b d H. rewrite lookup_app_l; [done|by eapply lookup_lt_Some]. }
  assert ((blocks st ++ [Some empty_block]) !! length (blocks st) = Some (Some empty_block)) as Hnew
    by (by apply list_lookup_middle).
  split_and!; try done.
  - split; cbn [chunks high flist blocks tebs]; try done.
    + intros b d [H|[_ H]]%lookup_app_Some; [by eapply Hbl|].
      apply list_lookup_singleton_Some in H as [_ H]. assert (d = empty_block) as -> by congruence.
      split; [done|]. by intros c data ?%empty_block_lookup.
    + intros b [H|H]%elem_of_app; [destruct (Hf _ H) as [d Hd]; eauto|].
      apply list_elem_of_singleton in H as ->. eauto.
    + apply NoDup_app. split_and!; [done| |apply NoDup_singleton]. intros b Hbf Hs.
      apply list_elem_of_singleton in Hs as ->. destruct (Hf _ Hbf) as [d Hd%lookup_lt_Some]. lia.
    + intros t' b [(-> & [= <-] & _)|[_ H]]%list_lookup_insert_Some; [eauto|].
      destruct (Ht' _ _ H) as [d Hd]. eauto.
    + assert (forall t0, tebs st !! t0 <> Some (Some (length (blocks st)))) as Hfresh.
      { intros t0 H0. destruct (Ht' _ _ H0) as [d Hd%lookup_lt_Some]. lia. }
      intros t1 t2 b H1 H2. apply list_lookup_insert_Some in H1 as [(<- & E1 & _)|[_ H1]],
        H2 as [(<- & E2 & _)|[_ H2]]; [done|..|by eapply Hi]; simplify_eq; by edestruct Hfresh.
  - by apply list_lookup_insert_eq.
  - by rewrite length_insert.
  - intros t' j. unfold value_of. destruct (from_index_ok j) as (c & i & -> & _). cbn [chunks high flist blocks tebs].
    destruct (decide (t' = t)) as [->|Hne].
    + rewrite list_lookup_insert_eq, Hb by done. unfold slot. cbn [chunks high flist blocks tebs]. rewrite list_lookup_middle by done.
      destruct (empty_block !! c) as [[data|]|] eqn:E; try done. by apply empty_block_lookup in E.
    + rewrite list_lookup_insert_ne by done. destruct (tebs st !! t') as [[b|]|] eqn:E; try done.
      destruct (Ht' _ _ E) as [d Hd]. unfold slot. cbn [chunks high flist blocks tebs]. by rewrite Hd, (Hold _ _ Hd).
Qed.

(** The chunk that [RtlFlsAlloc] uses. *)
Lemma new_chunk_ok c : let '(ch, index) := new_chunk c in
  wf_chunk c ch /\ callbacks ch !! index = Some 0 /\ (0 < base c + index)%nat /\
  (forall i, (0 < base c + i)%nat -> default 0 (callbacks ch !! i) = 0).
Proof.
  unfold new_chunk. pose proof (pow2_pos c). pose proof (chunk_size_eq c) as Hs.
  assert (forall i, default 0 (replicate (fls_chunk_size c) 0 !! i) = 0) as Hz.
  { intros i. destruct (replicate (fls_chunk_size c) 0 !! i) eqn:E; [|done]. by apply lookup_replicate in E as [-> _]. }
  destruct (Nat.eqb_spec c 0) as [->|Hne].
  - split_and!; [split_and!|..]; simpl; try done; try lia.
    intros [|i] Hi; [change (base 0) with 0%nat in Hi; lia|]. apply (Hz (S i)).
  - split_and!; [split_and!|..]; cbn [callbacks count]; try done; try (intros i _; apply Hz).
    + by rewrite length_replicate.
    + by rewrite used_replicate.
    + apply lookup_replicate_2. lia.
    + unfold base. destruct c; [done|]. rewrite Nat.pow_succ_r'. pose proof (pow2_pos c). lia.
Qed.

Lemma chunk_for_ok st c ok : wf st -> c = find_chunk (chunks st) 0 -> (c < chunk_count)%nat ->
  exists r, chunk_for st c ok = Ok r /\
    match r with
    | None => ok = false
    | Some (ch, index) =>
      wf_chunk c ch /\ callbacks ch !! index = Some 0 /\ (0 < base c + index)%nat /\
      (forall i, (0 < base c + i)%nat -> default 0 (callbacks ch !! i) = entry st c i)
    end.
Proof.
  intros Hwf Ec Hlt. destruct (find_chunk_ok (chunks st) 0) as (_ & _ & _ & _ & Hroom). rewrite <- Ec, Nat.sub_0_r in Hroom.
  assert (c < length (chunks st))%nat as Hl by (by rewrite (wf_length _ Hwf)).
  destruct (lookup_lt_is_Some_2 _ _ Hl) as [o Ho]. unfold chunk_for, get, entry. rewrite Ho, bind_ok. destruct o as [ch|].
  - destruct (wf_chunks _ Hwf _ _ Ho) as (H1 & H2 & H3). specialize (Hroom _ Ho). rewrite H2, <- H1 in Hroom.
    destruct (find_entry_ok _ Hroom) as [Hi He]. rewrite (proj2 (Nat.ltb_lt _ _)) by lia.
    eexists. split; [done|]. split_and!; [by split_and!|done| |done].
    destruct c as [|c]; [|unfold base; rewrite Nat.pow_succ_r'; pose proof (pow2_pos c); lia].
    destruct (find_entry (callbacks ch)); [by destruct (H3 eq_refl)|lia].
  - destruct ok; [|by eexists]. eexists. split; [done|]. apply new_chunk_ok.
Qed.

(** When every chunk is full, every index is in use. *)
Lemma all_full st j : wf st -> find_chunk (chunks st) 0 = chunk_count -> (j < MAX_FLS_DATA_COUNT)%nat ->
  callback_of st j <> 0.
Proof.
  intros Hwf Hfull Hj. destruct (from_index_ok j) as (c & i & E & Hi & _ & Hc). specialize (Hc Hj).
  unfold callback_of. rewrite E. destruct (find_chunk_ok (chunks st) 0) as (_ & H2 & H3 & _). rewrite Hfull in H2, H3.
  specialize (H2 c). specialize (H3 c). rewrite Nat.sub_0_r in H2, H3.
  destruct (lookup_lt_is_Some_2 (chunks st) c) as [[ch|] Ho]; [by rewrite (wf_length _ Hwf)| |by destruct H3; [lia|]].
  specialize (H2 ch ltac:(lia) Ho). destruct (wf_chunks _ Hwf _ _ Ho) as (L1 & L2 & _).
  unfold entry. rewrite Ho. destruct (lookup_lt_is_Some_2 (callbacks ch) i) as [x Hx]; [lia|]. rewrite Hx.
  apply (used_full (callbacks ch) i); [lia|done].
Qed.

(** The high mark is the maximum. *)
Lemma raise_high st c ch n :
  (if (high (set_chunk st c ch) <? n)%nat then set_high (set_chunk st c ch) n else set_chunk st c ch)
  = set_high (set_chunk st c ch) (Nat.max (high st) n).
Proof.
  cbn [high set_chunk]. destruct (Nat.ltb_spec (high st) n); [by rewrite Nat.max_r by lia|].
  by rewrite Nat.max_l by lia.
Qed.

(** A callback is stored in a free entry. *)
Lemma install_ok st c ch i x : wf st -> (c < chunk_count)%nat -> wf_chunk c ch -> callbacks ch !! i = Some 0 ->
  (0 < base c + i)%nat -> (forall i', (0 < base c + i')%nat -> default 0 (callbacks ch !! i') = entry st c i') ->
  x <> 0 ->
  let st' := set_high (set_chunk st c (Chunk (S (count ch)) (<[i := x]> (callbacks ch))))
               (Nat.max (high st) (base c + i)) in
  wf st' /\ (base c + i < MAX_FLS_DATA_COUNT)%nat /\ callback_of st (base c + i) = 0 /\
  callback_of st' (base c + i) = x /\
  (forall j, (0 < j)%nat -> j <> (base c + i)%nat -> callback_of st' j = callback_of st j).
Proof.
  intros Hwf Hc (L1 & L2 & L3) Hz Hpos Hent Hx. pose proof (lookup_lt_Some _ _ _ Hz) as Hi. rewrite L1 in Hi.
  set (ch' := Chunk (S (count ch)) (<[i := x]> (callbacks ch))). set (h := Nat.max (high st) (base c + i)). cbv zeta.
  assert (c < length (chunks st))%nat as Hcl by (by rewrite (wf_length _ Hwf)).
  assert (base c + i < MAX_FLS_DATA_COUNT)%nat as Hmax.
  { pose proof (base_mono (S c) chunk_count Hc) as Hm. rewrite base_S, base_chunk_count in Hm. lia. }
  assert (forall c' i', entry (set_high (set_chunk st c ch') h) c' i' = entry (set_chunk st c ch') c' i') as Ehi by done.
  split; [apply wf_set_chunk; [done|done|..]|split_and!; [done|..]].
  - split_and!; cbn [callbacks count ch'].
    + by rewrite length_insert.
    + pose proof (used_insert _ _ _ x Hz) as Hu. rewrite decide_False, decide_True in Hu by (done || tauto). lia.
    + intros ->. destruct i as [|i]; [unfold base in Hpos; simpl in Hpos; lia|].
      rewrite list_lookup_insert_ne by done. by apply L3.
  - intros k Hk. destruct (Nat.eq_dec k i) as [->|Hki]; [unfold h; lia|].
    destruct (Nat.eq_dec (base c + k) 0) as [E0|E0]; [lia|].
    cbn [callbacks ch'] in Hk. rewrite list_lookup_insert_ne, Hent in Hk by (done || lia).
    pose proof (wf_high _ Hwf _ _ Hk). unfold h. lia.
  - pose proof (wf_bound _ Hwf). unfold h. lia.
  - rewrite callback_of_at by done. rewrite <- Hent by done. by rewrite Hz.
  - rewrite callback_of_at by done. rewrite Ehi, entry_set, decide_True by done.
    cbn [callbacks ch']. by rewrite list_lookup_insert_eq by lia.
  - intros j Hj Hne. destruct (from_index_ok j) as (c' & i' & E & Hi' & Ej & _). unfold callback_of. rewrite E.
    rewrite Ehi, entry_set by done. case_decide as Ec; [|done]. subst c'. cbn [callbacks ch'].
    rewrite list_lookup_insert_ne by (intros ->; lia). apply Hent. lia.
Qed.

(** ** Freeing an index *)

(** The value that [RtlFlsFree] finds in a block. *)
Definition freed_calls (st : state) (callback : Z) (c i : nat) (l : list nat) : list (Z * Z) :=
  if callback =? all_ones then []
  else map (fun v => (callback, v)) (filter (fun v => v <> 0) (map (fun b => slot st b c i) l)).

Lemma slot_set st b d b' c i : (b < length (blocks st))%nat ->
  slot (set_block st b (Some d)) b' c i =
  if decide (b' = b) then match d !! c with Some (Some data) => default 0 (data !! (i + 1)%nat) | _ => 0 end
  else slot st b' c i.
Proof.
  intros Hb. unfold slot, set_block. simpl. case_decide as E.
  - subst. by rewrite list_lookup_insert_eq.
  - by rewrite list_lookup_insert_ne.
Qed.

(** A block is replaced by one of the same shape. *)
Lemma wf_set_block st b d d' : wf st -> blocks st !! b = Some (Some d) -> wf_block d' -> wf (set_block st b (Some d')).
Proof.
  intros [Hl Hc Hh Hb Hbl Hf Hn Ht Hi] Hd Hd'. pose proof (lookup_lt_Some _ _ _ Hd).
  assert (forall b0, (exists d0, blocks st !! b0 = Some (Some d0)) ->
    exists d0, <[b := Some d']> (blocks st) !! b0 = Some (Some d0)) as Hex.
  { intros b0 [d0 Hd0]. destruct (decide (b0 = b)) as [->|].
    - exists d'. by apply list_lookup_insert_eq.
    - exists d0. by rewrite list_lookup_insert_ne. }
  split; simpl; try done.
  - intros b0 d0 [(-> & [= <-] & _)|[_ H0]]%list_lookup_insert_Some; [done|by eapply Hbl].
  - intros b0 H0. by apply Hex, Hf.
  - intros t b0 H0. by eapply Hex, Ht.
Qed.

Lemma free_loop_ok callback c i : (c < chunk_count)%nat -> (i < fls_chunk_size c)%nat -> forall l st,
  wf st -> NoDup l -> (forall b, b ∈ l -> exists d, blocks st !! b = Some (Some d)) ->
  exists st', free_loop l st callback c i = Ok (st', freed_calls st callback c i l) /\ wf st' /\
    chunks st' = chunks st /\ high st' = high st /\ flist st' = flist st /\ tebs st' = tebs st /\
    (forall b, b ∈ l -> slot st' b c i = 0) /\
    (forall b c' i', (b ∉ l) \/ (c', i') <> (c, i) -> slot st' b c' i' = slot st b c' i').
Proof.
  intros Hc Hi. induction l as [|b l IH]; intros st Hwf Hnd Hl.
  { exists st. split; [unfold freed_calls; by destruct (callback =? all_ones)|]. split_and!; try done.
    intros b []%not_elem_of_nil. }
  apply NoDup_cons in Hnd as [Hb Hnd]. destruct (Hl b) as [d Hd]; [by left|]. cbn [free_loop].
  pose proof (wf_blocks _ Hwf _ _ Hd) as [Hdl Hdata].
  unfold live, get. rewrite Hd, !bind_ok. destruct (lookup_lt_is_Some_2 d c) as [o Ho]; [lia|]. rewrite Ho, bind_ok.
  assert (Hrest : forall b0, b0 ∈ l -> exists d0, blocks st !! b0 = Some (Some d0)) by (intros; apply Hl; by right).
  assert (slot st b c i = 0 -> exists st', free_loop l st callback c i = Ok (st', freed_calls st callback c i (b :: l)) /\ wf st' /\
    chunks st' = chunks st /\ high st' = high st /\ flist st' = flist st /\ tebs st' = tebs st /\
    (forall b0, b0 ∈ b :: l -> slot st' b0 c i = 0) /\
    (forall b0 c' i', (b0 ∉ b :: l) \/ (c', i') <> (c, i) -> slot st' b0 c' i' = slot st b0 c' i')) as Hskip.
  { intros Hz. destruct (IH st Hwf Hnd Hrest) as (st' & E & Hw & E1 & E2 & E3 & E4 & Hcl & Hs). exists st'. split.
    - rewrite E. unfold freed_calls. cbn [map]. rewrite filter_cons, decide_False by (rewrite Hz; tauto). done.
    - split_and!; try done.
      + intros b0 [->|H0]%elem_of_cons; [|by apply Hcl]. rewrite Hs by (by left). done.
      + intros b0 c' i' [H0|H0]; apply Hs; [left; by intros ?; apply H0, elem_of_cons; right|by right]. }
  destruct o as [data|].
  2: { apply Hskip. unfold slot. by rewrite Hd, Ho. }
  pose proof (Hdata _ _ Ho) as Hdl'. destruct (lookup_lt_is_Some_2 data (i + 1)) as [v Hv]; [lia|].
  rewrite Hv, bind_ok. assert (slot st b c i = v) as Hsv by (unfold slot; by rewrite Hd, Ho, Hv).
  destruct (Z.eqb_spec v 0) as [->|Hv0]; [by apply Hskip|]. clear Hskip.
  unfold put. rewrite decide_True, bind_ok by lia. set (d' := <[c:=Some (<[(i+1)%nat:=0]> data)]> d).
  assert (wf_block d') as Hwd.
  { split; [unfold d'; by rewrite length_insert|]. unfold d'.
    intros c' data' [(-> & [= <-] & _)|[_ H0]]%list_lookup_insert_Some; [by rewrite length_insert|by apply Hdata]. }
  pose proof (wf_set_block _ _ _ _ Hwf Hd Hwd) as Hw1. pose proof (lookup_lt_Some _ _ _ Hd) as Hbl.
  destruct (IH (set_block st b (Some d'))) as (st' & -> & Hw & E1 & E2 & E3 & E4 & Hcl & Hs); [done|done|..].
  { intros b0 H0. destruct (Hrest _ H0) as [d0 Hd0]. exists d0. simpl. rewrite list_lookup_insert_ne; [done|]. intros ->. done. }
  rewrite bind_ok. exists st'.
  assert (map (fun b0 => slot (set_block st b (Some d')) b0 c i) l = map (fun b0 => slot st b0 c i) l) as Hm.
  { apply list_fmap_ext. intros j b0 Hj. rewrite slot_set, decide_False; [done| |done].
    intros ->. apply Hb. by eapply list_elem_of_lookup_2. }
  split_and!; try done.
  - unfold freed_calls. rewrite Hm. cbn [map]. rewrite filter_cons, decide_True by (by rewrite Hsv).
    rewrite Hsv. by destruct (callback =? all_ones).
  - intros b0 [->|H0]%elem_of_cons; [|by apply Hcl]. rewrite Hs by (by left). rewrite slot_set, decide_True by done.
    unfold d'. rewrite list_lookup_insert_eq by lia. by rewrite list_lookup_insert_eq by lia.
  - intros b0 c' i' H0. rewrite Hs by (destruct H0 as [H0|]; [left; by intros ?; apply H0, elem_of_cons; right|by right]).
    rewrite slot_set by done. case_decide as Eb; [|done]. subst b0.
    destruct H0 as [H0|H0]; [destruct H0; by left|]. unfold slot. rewrite Hd. unfold d'.
    destruct (decide (c' = c)) as [->|]; [|by rewrite list_lookup_insert_ne].
    rewrite list_lookup_insert_eq, Ho by lia. rewrite list_lookup_insert_ne; [done|]. intros E. apply H0. f_equal. lia.
Qed.

(** ** Storing a value *)

Lemma store_ok st t b c i v d : wf st -> tebs st !! t = Some (Some b) -> blocks st !! b = Some (Some d) ->
  (c < chunk_count)%nat -> (i < fls_chunk_size c)%nat ->
  exists data, put (default (replicate (fls_chunk_size c + 1) 0) (default None (d !! c))) (i + 1) v = Ok data /\
    wf (set_block st b (Some (<[c := Some data]> d))) /\
    forall t' j, value_of (set_block st b (Some (<[c := Some data]> d))) t' j =
      if decide (t' = t /\ j = (base c + i)%nat) then v else value_of st t' j.
Proof.
  intros Hwf Ht Hd Hc Hi. pose proof (wf_blocks _ Hwf _ _ Hd) as [Hl Hdata].
  destruct (lookup_lt_is_Some_2 d c) as [o Ho]; [lia|]. rewrite Ho. cbn [default from_option id].
  set (old := default (replicate (fls_chunk_size c + 1) 0) o).
  assert (length old = (fls_chunk_size c + 1)%nat) as Hold.
  { unfold old. destruct o as [data|]; [by apply Hdata|]. cbn [default from_option]. by rewrite length_replicate. }
  assert (forall k, default 0 (old !! k) = match o with Some data => default 0 (data !! k) | None => 0 end) as Hval.
  { intros k. unfold old. destruct o; [done|]. cbn [default from_option].
    destruct (replicate (fls_chunk_size c + 1) 0 !! k) eqn:E; [|done]. by apply lookup_replicate in E as [-> _]. }
  unfold put. rewrite decide_True by lia. eexists. split; [done|]. split.
  - eapply wf_set_block; [done|done|]. split; [by rewrite length_insert|].
    intros c' data' [(-> & [= <-] & _)|[_ H0]]%list_lookup_insert_Some; [by rewrite length_insert|by apply Hdata].
  - intros t' j. unfold value_of. cbn [tebs set_block]. destruct (from_index_ok j) as (c' & i' & -> & Hi' & Ej & _).
    destruct (decide (t' = t /\ j = (base c + i)%nat)) as [[-> Ej']|Hne].
    + rewrite Ht, slot_set, decide_True by (done || by eapply lookup_lt_Some).
      destruct (base_unique c' i' c i) as [-> ->]; [done|done|lia|].
      by rewrite !list_lookup_insert_eq by lia.
    + destruct (tebs st !! t') as [[b'|]|] eqn:E; try done.
      rewrite slot_set by (by eapply lookup_lt_Some). case_decide as Eb; [|done]. subst b'.
      pose proof (wf_inj _ Hwf _ _ _ E Ht) as ->. unfold slot. rewrite Hd.
      destruct (decide (c' = c)) as [->|]; [|by rewrite list_lookup_insert_ne].
      rewrite list_lookup_insert_eq, Ho by lia. rewrite list_lookup_insert_ne.
      * rewrite Hval. by destruct o.
      * intros Ei. apply Hne. split; [done|lia].
Qed.

Lemma get_value_ok st t b index : wf st -> tebs st !! t = Some (Some b) -> (0 < index < MAX_FLS_DATA_COUNT)%nat ->
  RtlFlsGetValue st t index = Ok (STATUS_SUCCESS, Some (value_of st t index)).
Proof.
  intros Hwf Ht Hin. unfold RtlFlsGetValue, value_of, get, live.
  rewrite (proj2 (Nat.eqb_neq index 0)), (proj2 (Nat.leb_gt MAX_FLS_DATA_COUNT index)) by lia. cbn [orb].
  rewrite Ht, bind_ok. destruct (from_index_ok index) as (c & i & -> & Hi & _ & Hc). rewrite bind_ok.
  destruct (wf_tebs _ Hwf _ _ Ht) as [d Hd]. unfold slot, get. rewrite Hd, !bind_ok.
  destruct (wf_blocks _ Hwf _ _ Hd) as [Hl Hdata]. destruct (lookup_lt_is_Some_2 d c) as [o Ho]; [rewrite Hl; apply Hc; lia|].
  rewrite Ho, bind_ok. destruct o as [data|]; [|done]. specialize (Hdata _ _ Ho).
  destruct (lookup_lt_is_Some_2 data (i + 1)) as [v Hv]; [lia|]. by rewrite Hv.
Qed.

Lemma wf_initial n : wf (initial n).
Proof.
  split; simpl; try done.
  - intros c ch. do 8 (destruct c as [|c]; [done|]). done.
  - intros c i H. exfalso. apply H. unfold entry. simpl. do 8 (destruct c as [|c]; [done|]). done.
  - unfold MAX_FLS_DATA_COUNT. lia.
  - intros b []%not_elem_of_nil.
  - constructor.
  - by intros t b [? _]%lookup_replicate.
  - by intros t t' b [? _]%lookup_replicate.
Qed.

(** A state with one index and one thread. *)
Definition sample_data : list Z := <[2%nat := 5]> (replicate 17 0).
Definition sample_chunk : chunk := Chunk 2 (<[1%nat := 77]> (<[0%nat := all_ones]> (replicate 16 0))).
Definition sample : state :=
  State (<[0%nat := Some sample_chunk]> (replicate chunk_count None)) 1 [0%nat]
    [Some (<[0%nat := Some sample_data]> empty_block)] [Some 0%nat].

Lemma wf_sample : wf sample.
Proof.
  split.
  - done.
  - intros c ch. destruct c as [|[|[|[|[|[|[|[|c]]]]]]]]; try done. intros [= <-]. split_and!; done.
  - intros c i. destruct c as [|[|[|[|[|[|[|[|c]]]]]]]]; try done.
    destruct i as [|[|i]]; [vm_compute; lia..|]. intros H. exfalso. apply H.
    do 14 (destruct i as [|i]; [done|]). done.
  - vm_compute. lia.
  - intros [|[|b]] d; [|done..]. intros [= <-]. split; [done|].
    intros c data. destruct c as [|[|[|[|[|[|[|[|c]]]]]]]]; try done. by intros [= <-].
  - intros b [->|[]%not_elem_of_nil]%elem_of_cons. by eexists.
  - apply NoDup_singleton.
  - intros [|[|t]] b; [|done..]. intros [= <-]. by eexists.
  - by intros [|[|t]] [|[|t']] b.
Qed.

Module FlsSpec.

(** Chunks and indexes correspond: every index below the maximum lies at
    one place of one of the eight chunks, and the index of that place is the
    index again. *)
Theorem fls_index_bijection :
  (forall index, (index < MAX_FLS_DATA_COUNT)%nat ->
     exists c i, fls_chunk_index_from_index index = Ok (c, i) /\ (c < chunk_count)%nat /\
       (i < fls_chunk_size c)%nat /\ fls_index_from_chunk_index c i = index) /\
  (forall c i, (c < chunk_count)%nat -> (i < fls_chunk_size c)%nat ->
     (fls_index_from_chunk_index c i < MAX_FLS_DATA_COUNT)%nat /\
     fls_chunk_index_from_index (fls_index_from_chunk_index c i) = Ok (c, i)).
Proof.
  split.
  - intros index H. destruct (from_index_ok index) as (c & i & E & Hi & Eb & Hc). exists c, i.
    rewrite index_from_eq. auto.
  - intros c i Hc Hi. rewrite index_from_eq. split; [|by apply from_index_at].
    pose proof (base_mono (S c) chunk_count Hc) as Hm. rewrite base_S, base_chunk_count in Hm. lia.
Qed.

(** C22. RtlFlsAlloc gives out a free index: in a well-formed state it returns
    an index that was free, marks it with the callback and changes no other
    index and no value; it fails only when the heap does or when all 4079
    indexes are in use.  The state stays well-formed. *)
Theorem RtlFlsAlloc_fresh st t callback ok1 ok2 :
  wf st -> (t < length (tebs st))%nat ->
  exists status index st', RtlFlsAlloc st t callback ok1 ok2 = Ok (status, index, st') /\ wf st' /\
    (forall t' j, value_of st' t' j = value_of st t' j) /\
    (status = STATUS_SUCCESS /\ (0 < index < MAX_FLS_DATA_COUNT)%nat /\ callback_of st index = 0 /\
       callback_of st' index = (if callback =? 0 then all_ones else callback) /\
       (forall j, (0 < j)%nat -> j <> index -> callback_of st' j = callback_of st j) \/
     status = STATUS_NO_MEMORY /\ (forall j, callback_of st' j = callback_of st j) /\
       (ok1 = true -> ok2 = true -> forall j, (j < MAX_FLS_DATA_COUNT)%nat -> callback_of st j <> 0)).
Proof.
  intros Hwf Ht. unfold RtlFlsAlloc. destruct (teb_data_ok st t ok1 Hwf Ht) as (r & -> & Hr). rewrite bind_ok.
  destruct r as [[st1 b]|].
  2: { subst ok1. do 3 eexists. split; [done|]. split; [done|]. split; [done|]. by right. }
  destruct Hr as (Hwf1 & _ & Hch & Hhi & _ & Hv).
  assert (forall j, callback_of st1 j = callback_of st j) as Hcb by (intros j; unfold callback_of, entry; by rewrite Hch).
  destruct (Nat.eqb_spec (find_chunk (chunks st1) 0) chunk_count) as [Hfull|Hroom].
  { do 3 eexists. split; [done|]. split; [done|]. split; [done|]. right. split_and!; [done|done|].
    intros _ _ j Hj. rewrite <- Hcb. by apply all_full. }
  set (c := find_chunk (chunks st1) 0) in *.
  assert (c < chunk_count)%nat as Hc.
  { destruct (find_chunk_ok (chunks st1) 0) as (Hle & _). rewrite (wf_length _ Hwf1) in Hle. fold c in Hle. lia. }
  destruct (chunk_for_ok st1 c ok2 Hwf1 eq_refl Hc) as (r & -> & Hr). rewrite bind_ok. destruct r as [[ch i]|].
  2: { subst ok2. do 3 eexists. split; [done|]. split; [done|]. split; [done|]. by right. }
  destruct Hr as ((L1 & L2 & L3) & Hz & Hpos & Hent). pose proof (lookup_lt_Some _ _ _ Hz) as Hi. rewrite L1 in Hi.
  unfold put. rewrite decide_True, bind_ok by lia. set (x := if callback =? 0 then all_ones else callback).
  assert (x <> 0) as Hx by (unfold x; by destruct (Z.eqb_spec callback 0)). cbv zeta. rewrite index_from_eq.
  destruct (install_ok st1 c ch i x) as (Hw & Hmax & Hfree & Hset & Hoth); try done.
  rewrite raise_high. do 3 eexists. split; [done|]. split; [done|]. split; [done|]. left. rewrite <- Hcb.
  split_and!; [done|done|done|done|done|]. intros j Hj Hne. rewrite <- Hcb. by apply Hoth.
Qed.

Lemma RtlFlsAlloc_fresh_witness :
  exists status index st', RtlFlsAlloc (initial 1) 0 77 true true = Ok (status, index, st') /\ wf st' /\
    (forall t' j, value_of st' t' j = value_of (initial 1) t' j) /\
    (status = STATUS_SUCCESS /\ (0 < index < MAX_FLS_DATA_COUNT)%nat /\ callback_of (initial 1) index = 0 /\
       callback_of st' index = 77 /\
       (forall j, (0 < j)%nat -> j <> index -> callback_of st' j = callback_of (initial 1) j) \/
     status = STATUS_NO_MEMORY /\ (forall j, callback_of st' j = callback_of (initial 1) j) /\
       (true = true -> true = true -> forall j, (j < MAX_FLS_DATA_COUNT)%nat -> callback_of (initial 1) j <> 0)).
Proof.
  apply (RtlFlsAlloc_fresh (initial 1) 0 77 true true).
  - apply wf_initial.
  - simpl. lia.
Defined.

(** C23. RtlFlsFree releases an index: an index that is not in use is refused;
    otherwise the callback is called once for every listed block that has a
    value, in the order of the list, the value is cleared in all of them, the
    index is free again and no other index or value changes. *)
Theorem RtlFlsFree_releases st index :
  wf st ->
  exists status calls st', RtlFlsFree st index = Ok (status, calls, st') /\
    (status = STATUS_INVALID_PARAMETER /\ (index = 0%nat \/ callback_of st index = 0) /\ calls = [] /\ st' = st \/
     status = STATUS_SUCCESS /\ index <> 0%nat /\ callback_of st index <> 0 /\ wf st' /\
       (exists c i, (base c + i)%nat = index /\ calls = freed_calls st (callback_of st index) c i (flist st) /\
          (forall b, b ∈ flist st -> slot st' b c i = 0) /\
          (forall b c' i', (b ∉ flist st) \/ (c', i') <> (c, i) -> slot st' b c' i' = slot st b c' i')) /\
       callback_of st' index = 0 /\ (forall j, j <> index -> callback_of st' j = callback_of st j)).
Proof.
  intros Hwf. unfold RtlFlsFree. destruct (Nat.eqb_spec index 0) as [->|H0]; cbn [orb].
  { do 3 eexists. split; [done|]. left. auto. }
  destruct (from_index_ok index) as (c & i & E & Hi & Eb & Hc). unfold callback_of at 1 2 3. rewrite E.
  destruct (Nat.ltb_spec (high st) index) as [Hh|Hh].
  { do 3 eexists. split; [done|]. left. split_and!; [done| |done|done]. right.
    destruct (Z.eq_dec (entry st c i) 0) as [|Hn]; [done|]. pose proof (wf_high _ Hwf _ _ Hn). lia. }
  pose proof (wf_bound _ Hwf) as Hb. specialize (Hc ltac:(lia)). rewrite bind_ok. unfold get.
  assert (c < length (chunks st))%nat as Hcl by (by rewrite (wf_length _ Hwf)).
  destruct (lookup_lt_is_Some_2 _ _ Hcl) as [o Ho]. rewrite Ho, bind_ok. unfold entry at 1 2 3. rewrite Ho.
  destruct o as [ch|]; [|do 3 eexists; split; [done|]; by left; auto].
  destruct (wf_chunks _ Hwf _ _ Ho) as (L1 & L2 & L3). destruct (lookup_lt_is_Some_2 (callbacks ch) i) as [x Hx]; [lia|].
  rewrite Hx, bind_ok. cbn [default from_option id]. destruct (Z.eqb_spec x 0) as [->|Hx0]; [do 3 eexists; split; [done|]; by left; auto|].
  destruct (free_loop_ok x c i Hc Hi (flist st) st Hwf (wf_nodup _ Hwf) (wf_flist _ Hwf))
    as (st1 & -> & Hw1 & E1 & E2 & E3 & E4 & Hcl1 & Hs1).
  rewrite bind_ok. unfold put. rewrite decide_True, bind_ok by lia. do 3 eexists. split; [done|]. right.
  set (ch' := Chunk (count ch - 1) (<[i := 0]> (callbacks ch))).
  assert (c < length (chunks st1))%nat as Hcl' by (by rewrite E1).
  split_and!; try done.
  - change (set_chunk st1 c ch') with (set_high (set_chunk st1 c ch') (high st1)).
    apply wf_set_chunk; [done|done|..|lia].
    + split_and!; cbn [callbacks count ch'].
      * by rewrite length_insert.
      * pose proof (used_insert _ _ _ 0 Hx) as Hu. rewrite decide_True, decide_False in Hu by (done || tauto). lia.
      * intros ->. destruct i as [|i]; [by destruct H0|]. rewrite list_lookup_insert_ne by done. by apply L3.
    + intros k Hk. cbn [callbacks ch'] in Hk. rewrite E2. apply (wf_high _ Hwf). unfold entry. rewrite Ho.
      destruct (Nat.eq_dec k i) as [->|]; [by rewrite list_lookup_insert_eq in Hk by lia|].
      by rewrite list_lookup_insert_ne in Hk.
  - by exists c, i.
  - rewrite <- Eb, callback_of_at by done. rewrite entry_set, decide_True by done. cbn [callbacks ch'].
    by rewrite list_lookup_insert_eq by lia.
  - intros j Hj. destruct (from_index_ok j) as (c' & i' & E' & Hi' & Ej & _). unfold callback_of. rewrite E'.
    rewrite entry_set by done. case_decide as Ec; [|unfold entry; by rewrite E1]. subst c'. cbn [callbacks ch'].
    rewrite list_lookup_insert_ne by (intros ->; lia). unfold entry. by rewrite Ho.
Qed.

(** One index with the callback 77, one thread with the value 5 in it. *)
Lemma RtlFlsFree_releases_witness :
  wf sample /\ exists status calls st', RtlFlsFree sample 1 = Ok (status, calls, st') /\
    (status = STATUS_INVALID_PARAMETER /\ (1%nat = 0%nat \/ callback_of sample 1 = 0) /\ calls = [] /\ st' = sample \/
     status = STATUS_SUCCESS /\ 1%nat <> 0%nat /\ callback_of sample 1 <> 0 /\ wf st' /\
       (exists c i, (base c + i)%nat = 1%nat /\ calls = freed_calls sample (callback_of sample 1) c i (flist sample) /\
          (forall b, b ∈ flist sample -> slot st' b c i = 0) /\
          (forall b c' i', (b ∉ flist sample) \/ (c', i') <> (c, i) -> slot st' b c' i' = slot sample b c' i')) /\
       callback_of st' 1 = 0 /\ (forall j, j <> 1%nat -> callback_of st' j = callback_of sample j)).
Proof. split; [exact wf_sample|]. apply (RtlFlsFree_releases sample 1). exact wf_sample. Defined.

(** A stored value is read back: in a well-formed state RtlFlsSetValue of
    an index below the maximum succeeds when the heap does; RtlFlsGetValue
    then returns the value in that thread, and every other value of every
    thread is unchanged.  The state stays well-formed. *)
Theorem RtlFlsSetValue_stores st t index data :
  wf st -> (t < length (tebs st))%nat -> (0 < index < MAX_FLS_DATA_COUNT)%nat ->
  exists st', RtlFlsSetValue st t index data true true = Ok (STATUS_SUCCESS, st') /\ wf st' /\
    RtlFlsGetValue st' t index = Ok (STATUS_SUCCESS, Some data) /\
    (forall j, callback_of st' j = callback_of st j) /\
    (forall t' j, (t', j) <> (t, index) -> value_of st' t' j = value_of st t' j).
Proof.
  intros Hwf Ht Hin. unfold RtlFlsSetValue.
  rewrite (proj2 (Nat.eqb_neq index 0)), (proj2 (Nat.leb_gt MAX_FLS_DATA_COUNT index)) by lia. cbn [orb].
  destruct (teb_data_ok st t true Hwf Ht) as (r & -> & Hr). rewrite bind_ok. destruct r as [[st1 b]|]; [|done].
  destruct Hr as (Hwf1 & Hb & Hch & _ & _ & Hv).
  destruct (from_index_ok index) as (c & i & -> & Hi & Eb & Hc). specialize (Hc ltac:(lia)). rewrite bind_ok.
  destruct (wf_tebs _ Hwf1 _ _ Hb) as [d Hd]. unfold live, get. rewrite Hd, !bind_ok.
  destruct (store_ok st1 t b c i data d Hwf1 Hb Hd Hc Hi) as (v & Ev & Hw & Hval).
  destruct (lookup_lt_is_Some_2 d c) as [o Ho]; [by rewrite (proj1 (wf_blocks _ Hwf1 _ _ Hd))|].
  rewrite Ho in Ev |- *. cbn [default from_option id] in Ev. rewrite bind_ok.
  exists (set_block st1 b (Some (<[c := Some v]> d))). split_and!; [|done|..].
  - destruct o; by rewrite Ev.
  - rewrite (get_value_ok _ t b) by done. rewrite Hval, decide_True by (split; [done|lia]). done.
  - intros j. unfold callback_of, entry. cbn [chunks set_block]. by rewrite Hch.
  - intros t' j Hne. rewrite Hval, decide_False, Hv; [done|]. intros [-> ->]. by rewrite Eb in Hne.
Qed.

Lemma RtlFlsSetValue_stores_witness :
  exists st', RtlFlsSetValue (initial 2) 1 20 5 true true = Ok (STATUS_SUCCESS, st') /\ wf st' /\
    RtlFlsGetValue st' 1 20 = Ok (STATUS_SUCCESS, Some 5) /\
    (forall j, callback_of st' j = callback_of (initial 2) j) /\
    (forall t' j, (t', j) <> (1%nat, 20%nat) -> value_of st' t' j = value_of (initial 2) t' j).
Proof.
  apply (RtlFlsSetValue_stores (initial 2) 1 20 5).
  - apply wf_initial.
  - simpl. lia.
  - unfold MAX_FLS_DATA_COUNT. lia.
Defined.

End FlsSpec.
