(* ===== verification/Avl.v ===== *)
(** * Generic tables (oca/extensions/ntext/rtl/avl.c)

    The nodes of a table are kept in a heap that maps addresses to their
    links; address 0 is NULL and [BalancedRoot] is the address of the root
    links inside the table.  [RTL_BALANCED_LINKS] starts with the fields of
    [RTL_SPLAY_LINKS], and the code casts between the two. *)
From S2P Require Import Prelude.
From stdpp Require Import gmap.
#[local] Open Scope Z_scope.

Module Avl.

(** RTL_BALANCED_LINKS (sdk/include/xdk/rtltypes.h) *)
Record links := Links { Parent : nat; LeftChild : nat; RightChild : nat; Balance : Z }.

Abbreviation heap := (gmap nat links).

Inductive TABLE_SEARCH_RESULT := TableEmptyTree | TableFoundNode | TableInsertAsLeft | TableInsertAsRight.

Inductive RTL_GENERIC_COMPARE_RESULTS := GenericLessThan | GenericGreaterThan | GenericEqual.

#[global] Instance TABLE_SEARCH_RESULT_eq_dec : EqDecision TABLE_SEARCH_RESULT.
Proof. solve_decision. Defined.

#[global] Instance compare_results_eq_dec : EqDecision RTL_GENERIC_COMPARE_RESULTS.
Proof. solve_decision. Defined.

(** RTL_AVL_BALANCE_FACTOR (main.h) *)
Definition RtlLeftHeavyAvlTree : Z := -1.
Definition RtlBalancedAvlTree : Z := 0.
Definition RtlRightHeavyAvlTree : Z := 1.

(** [&Table->BalancedRoot] *)
Definition BalancedRoot : nat := 1.

(** The part of RTL_AVL_TABLE that the functions use, with the memory of its
    nodes: their links and their user data. *)
Record RTL_AVL_TABLE := Table {
  nodes : heap;
  UserData : gmap nat (list Z);
  NumberGenericTableElements : Z;
  DepthOfTree : Z;
}.

Definition ld (h : heap) (p : nat) : outcome links :=
  match h !! p with Some l => Ok l | None => Fault end.

Definition st (h : heap) (p : nat) (f : links -> links) : outcome heap :=
  l ← ld h p; Ok (<[p := f l]> h).

(** [&p->LeftChild] or [&p->RightChild] *)
Inductive side := L | R.

Definition get_child (s : side) (l : links) : nat :=
  match s with L => LeftChild l | R => RightChild l end.

Definition put_child (s : side) (v : nat) (l : links) : links :=
  match s with
  | L => Links (Parent l) v (RightChild l) (Balance l)
  | R => Links (Parent l) (LeftChild l) v (Balance l)
  end.

Definition ld_slot (h : heap) (slot : side * nat) : outcome nat :=
  l ← ld h slot.2; Ok (get_child slot.1 l).

Definition st_slot (h : heap) (slot : side * nat) (v : nat) : outcome heap :=
  st h slot.2 (put_child slot.1 v).

Definition RtlSetParent (h : heap) (n p : nat) : outcome heap :=
  st h n (fun l => Links p (LeftChild l) (RightChild l) (Balance l)).

Definition RtlSetBalance (h : heap) (n : nat) (b : Z) : outcome heap :=
  st h n (fun l => Links (Parent l) (LeftChild l) (RightChild l) b).

Definition RtlBalance (h : heap) (n : nat) : outcome Z := l ← ld h n; Ok (Balance l).
Definition RtlParentAvl (h : heap) (n : nat) : outcome nat := l ← ld h n; Ok (Parent l).
Definition RtlLeftChildAvl (h : heap) (n : nat) : outcome nat := ld_slot h (L, n).
Definition RtlRightChildAvl (h : heap) (n : nat) : outcome nat := ld_slot h (R, n).

Definition RtlIsLeftChildAvl (h : heap) (n : nat) : outcome bool :=
  p ← RtlParentAvl h n; c ← RtlLeftChildAvl h p; Ok (c =? n)%nat.

(** [RtlInsertAsLeftChild] and [RtlInsertAsRightChild] *)
Definition insert_as_child (h : heap) (s : side) (p c : nat) : outcome heap :=
  h ← st_slot h (s, p) c; RtlSetParent h c p.

Definition RtlpPromoteAvlTreeNode (h : heap) (Node : nat) : outcome heap :=
  ParentNode ← RtlParentAvl h Node;
  SuperParentNode ← RtlParentAvl h ParentNode;
  left ← RtlIsLeftChildAvl h Node;
  let SwapNode1 := if left : bool then (L, ParentNode) else (R, ParentNode) in
  let SwapNode2 := if left then (R, Node) else (L, Node) in
  c ← ld_slot h SwapNode2;
  h ← st_slot h SwapNode1 c;
  h ← (if (c =? 0)%nat then Ok h else RtlSetParent h c ParentNode);
  h ← st_slot h SwapNode2 ParentNode;
  h ← RtlSetParent h ParentNode Node;
  c ← RtlLeftChildAvl h SuperParentNode;
  let SwapNode1 := if (c =? ParentNode)%nat then (L, SuperParentNode) else (R, SuperParentNode) in
  h ← st_slot h SwapNode1 Node;
  RtlSetParent h Node SuperParentNode.

(** The result tells whether a deletion can stop. *)
Definition RtlpRebalanceAvlTreeNode (h : heap) (Node : nat) : outcome (heap * bool) :=
  balance ← RtlBalance h Node;
  ChildNode ← (if balance =? RtlRightHeavyAvlTree then RtlRightChildAvl h Node
               else RtlLeftChildAvl h Node);
  cb ← RtlBalance h ChildNode;
  if cb =? balance then
    h ← RtlpPromoteAvlTreeNode h ChildNode;
    h ← RtlSetBalance h ChildNode RtlBalancedAvlTree;
    h ← RtlSetBalance h Node RtlBalancedAvlTree;
    Ok (h, false)
  else if cb =? - balance then
    SubChildNode ← (if balance =? RtlRightHeavyAvlTree then RtlLeftChildAvl h ChildNode
                    else RtlRightChildAvl h ChildNode);
    h ← RtlpPromoteAvlTreeNode h SubChildNode;
    h ← RtlpPromoteAvlTreeNode h SubChildNode;
    sb ← RtlBalance h SubChildNode;
    h ← (if sb =? balance then
           h ← RtlSetBalance h ChildNode RtlBalancedAvlTree;
           RtlSetBalance h Node (- balance)
         else if sb =? - balance then
           h ← RtlSetBalance h ChildNode balance;
           RtlSetBalance h Node RtlBalancedAvlTree
         else
           h ← RtlSetBalance h ChildNode RtlBalancedAvlTree;
           RtlSetBalance h Node RtlBalancedAvlTree);
    h ← RtlSetBalance h SubChildNode RtlBalancedAvlTree;
    Ok (h, false)
  else
    h ← RtlpPromoteAvlTreeNode h ChildNode;
    h ← RtlSetBalance h ChildNode (- balance);
    Ok (h, true).

(** The loop of [RtlpInsertAvlTreeNode] that follows the parents. *)
Fixpoint insert_loop (fuel : nat) (h : heap) (NewNode NodeOrParent : nat) (depth : Z)
    : outcome (heap * Z) :=
  match fuel with
  | O => NoFuel
  | S fuel =>
    left ← RtlIsLeftChildAvl h NewNode;
    let balance := if left : bool then RtlLeftHeavyAvlTree else RtlRightHeavyAvlTree in
    b ← RtlBalance h NodeOrParent;
    if b =? RtlBalancedAvlTree then
      h ← RtlSetBalance h NodeOrParent balance;
      up ← RtlParentAvl h NodeOrParent;
      insert_loop fuel h NodeOrParent up depth
    else if negb (b =? balance) then
      h ← RtlSetBalance h NodeOrParent RtlBalancedAvlTree;
      rb ← RtlBalance h BalancedRoot;
      Ok (h, if rb =? RtlBalancedAvlTree then u32 (depth + 1) else depth)
    else
      '(h, _) ← RtlpRebalanceAvlTreeNode h NodeOrParent;
      Ok (h, depth)
  end.

Definition RtlpInsertAvlTreeNode (tbl : RTL_AVL_TABLE) (NewNode NodeOrParent : nat)
    (SearchResult : TABLE_SEARCH_RESULT) : outcome RTL_AVL_TABLE :=
  h ← st_slot (nodes tbl) (R, NewNode) 0;
  h ← st_slot h (L, NewNode) 0;
  h ← RtlSetBalance h NewNode RtlBalancedAvlTree;
  let count := u32 (NumberGenericTableElements tbl + 1) in
  if decide (SearchResult = TableEmptyTree) then
    h ← insert_as_child h R BalancedRoot NewNode;
    Ok (Table h (UserData tbl) count 1)
  else
    h ← insert_as_child h (if decide (SearchResult = TableInsertAsLeft) then L else R) NodeOrParent NewNode;
    h ← RtlSetBalance h BalancedRoot RtlLeftHeavyAvlTree;
    '(h, depth) ← insert_loop (S (size h)) h NewNode NodeOrParent (DepthOfTree tbl);
    Ok (Table h (UserData tbl) count depth).

(** [RtlInsertElementGenericTableFullAvl]: the table, the node whose user data
    is returned (0 for NULL) and [*NewElement].  [alloc] is the result of the
    allocation routine. *)
Definition RtlInsertElementGenericTableFullAvl (tbl : RTL_AVL_TABLE) (Buffer : list Z) (alloc : nat)
    (NodeOrParent : nat) (SearchResult : TABLE_SEARCH_RESULT)
    : outcome (RTL_AVL_TABLE * nat * bool) :=
  if decide (SearchResult <> TableFoundNode) then
    if (alloc =? 0)%nat then Ok (tbl, 0%nat, false)
    else
      let tbl := Table (<[alloc := Links 0 0 0 0]> (nodes tbl)) (UserData tbl)
                   (NumberGenericTableElements tbl) (DepthOfTree tbl) in
      tbl ← RtlpInsertAvlTreeNode tbl alloc NodeOrParent SearchResult;
      Ok (Table (nodes tbl) (<[alloc := Buffer]> (UserData tbl))
            (NumberGenericTableElements tbl) (DepthOfTree tbl), alloc, true)
  else Ok (tbl, NodeOrParent, false).

Section Lookup.
(** [Table->CompareRoutine]: the buffer of the caller against the user data of
    a node. *)
Variable CompareRoutine : list Z -> list Z -> RTL_GENERIC_COMPARE_RESULTS.

Definition ld_data (data : gmap nat (list Z)) (n : nat) : outcome (list Z) :=
  match data !! n with Some d => Ok d | None => Fault end.

Fixpoint find_loop (fuel : nat) (h : heap) (data : gmap nat (list Z)) (Buffer : list Z) (CurrentNode : nat)
    : outcome (TABLE_SEARCH_RESULT * nat) :=
  match fuel with
  | O => NoFuel
  | S fuel =>
    d ← ld_data data CurrentNode;
    match CompareRoutine Buffer d with
    | GenericLessThan =>
      ChildNode ← RtlLeftChildAvl h CurrentNode;
      if (ChildNode =? 0)%nat then Ok (TableInsertAsLeft, CurrentNode)
      else find_loop fuel h data Buffer ChildNode
    | GenericGreaterThan =>
      ChildNode ← RtlRightChildAvl h CurrentNode;
      if (ChildNode =? 0)%nat then Ok (TableInsertAsRight, CurrentNode)
      else find_loop fuel h data Buffer ChildNode
    | GenericEqual => Ok (TableFoundNode, CurrentNode)
    end
  end.

(** [RtlpFindAvlTableNodeOrParent]: the result and [*NodeOrParent], which
    keeps its value [old] when the table is empty. *)
Definition RtlpFindAvlTableNodeOrParent (tbl : RTL_AVL_TABLE) (Buffer : list Z) (old : nat)
    : outcome (TABLE_SEARCH_RESULT * nat) :=
  if NumberGenericTableElements tbl =? 0 then Ok (TableEmptyTree, old)
  else
    CurrentNode ← RtlRightChildAvl (nodes tbl) BalancedRoot;
    find_loop (S (size (nodes tbl))) (nodes tbl) (UserData tbl) Buffer CurrentNode.

(** [RtlLookupElementGenericTableFullAvl]: the node whose user data is
    returned (0 for NULL), [*SearchResult] and [*NodeOrParent]. *)
Definition RtlLookupElementGenericTableFullAvl (tbl : RTL_AVL_TABLE) (Buffer : list Z) (old : nat)
    : outcome (nat * TABLE_SEARCH_RESULT * nat) :=
  '(SearchResult, n) ← RtlpFindAvlTableNodeOrParent tbl Buffer old;
  if decide (SearchResult <> TableFoundNode) then Ok (0%nat, SearchResult, n)
  else Ok (n, SearchResult, n).

(** A lookup followed by the insertion with its results, as the two functions
    are meant to be called. *)
Definition lookup_insert (tbl : RTL_AVL_TABLE) (Buffer : list Z) (alloc old : nat)
    : outcome (RTL_AVL_TABLE * nat * bool) :=
  '(_, SearchResult, NodeOrParent) ← RtlLookupElementGenericTableFullAvl tbl Buffer old;
  RtlInsertElementGenericTableFullAvl tbl Buffer alloc NodeOrParent SearchResult.

End Lookup.

(** A table after [RtlInitializeGenericTableAvl] (sdk/lib/rtl/avltable.c). *)
Definition empty_table : RTL_AVL_TABLE :=
  Table {[ BalancedRoot := Links BalancedRoot 0 0 0 ]} ∅ 0 0.

End Avl.
