(* ===== verification/AvlSpec.v ===== *)
(** * Generic tables: shape of the tree and rotations

    A heap represents a tree when every node has the links the tree gives it,
    its parent included.  A position in a tree is a subtree in a context, the
    path of frames to the root with the siblings that hang off it. *)
From S2P Require Import Prelude Avl.
From stdpp Require Import gmap.
#[local] Open Scope Z_scope.
Set Warnings "-clear-no-such-hyp".
Import Avl.

Module AvlSpec.

(** ** Trees and contexts *)
Inductive tree := Leaf | Node (a : nat) (b : Z) (l r : tree).

Definition ptr_of (t : tree) : nat := match t with Leaf => 0%nat | Node a _ _ _ => a end.

(** The addresses in order. *)
Fixpoint addrs (t : tree) : list nat :=
  match t with Leaf => [] | Node a _ l r => addrs l ++ a :: addrs r end.

Fixpoint height (t : tree) : nat :=
  match t with Leaf => 0%nat | Node _ _ l r => S (height l `max` height r) end.

(** A node by its near and its far child as seen from side [s]. *)
Definition mk (s : side) (a : nat) (b : Z) (near far : tree) : tree :=
  match s with L => Node a b near far | R => Node a b far near end.

Definition mkl (s : side) (par near far : nat) (b : Z) : links :=
  match s with L => Links par near far b | R => Links par far near b end.

(** The hole is the child of [a] on side [s]; [sib] is its other child. *)
Record frame := Frame { fside : side; faddr : nat; fbal : Z; fsib : tree }.

Definition parent_of (k : list frame) : nat :=
  match k with [] => BalancedRoot | f :: _ => faddr f end.

Definition fill (f : frame) (t : tree) : tree := mk (fside f) (faddr f) (fbal f) t (fsib f).

Definition plug (k : list frame) (t : tree) : tree := foldl (fun t f => fill f t) t k.

Definition frame_addrs (f : frame) : list nat := faddr f :: addrs (fsib f).

Definition ctx_addrs (k : list frame) : list nat := k ≫= frame_addrs.

(** ** Representation *)
Fixpoint rep (h : heap) (par : nat) (t : tree) : Prop :=
  match t with
  | Leaf => True
  | Node a b l r =>
    a <> 0%nat /\ h !! a = Some (Links par (ptr_of l) (ptr_of r) b) /\ rep h a l /\ rep h a r
  end.

(** [c] is the root of the subtree in the hole, [rb] the balance of the root
    links. *)
Fixpoint rep_ctx (h : heap) (rb : Z) (c : nat) (k : list frame) : Prop :=
  match k with
  | [] => h !! BalancedRoot = Some (Links BalancedRoot 0 c rb)
  | f :: k =>
    faddr f <> 0%nat /\
    h !! faddr f = Some (mkl (fside f) (parent_of k) c (ptr_of (fsib f)) (fbal f)) /\
    rep h (faddr f) (fsib f) /\ rep_ctx h rb (faddr f) k
  end.

Record shape (h : heap) (rb : Z) (k : list frame) (t : tree) : Prop := {
  shape_tree : rep h (parent_of k) t;
  shape_ctx : rep_ctx h rb (ptr_of t) k;
  shape_nodup : NoDup (BalancedRoot :: ctx_addrs k ++ addrs t);
}.

(** ** Frames *)
Lemma addrs_mk s a b t u : addrs (mk s a b t u) ≡ₚ a :: addrs t ++ addrs u.
Proof. destruct s; simpl; [|rewrite (Permutation_app_comm (addrs t))]; by rewrite Permutation_middle. Qed.

Lemma ptr_of_mk s a b t u : ptr_of (mk s a b t u) = a.
Proof. by destruct s. Qed.

Lemma rep_mk h par s a b t u : rep h par (mk s a b t u) <->
  a <> 0%nat /\ h !! a = Some (mkl s par (ptr_of t) (ptr_of u) b) /\ rep h a t /\ rep h a u.
Proof. destruct s; simpl; naive_solver. Qed.

(** Only the links of the nodes matter. *)
Lemma rep_agree h h' par t :
  (forall a, a ∈ addrs t -> h' !! a = h !! a) -> rep h par t -> rep h' par t.
Proof.
  revert par. induction t as [|x b tl IHl tr IHr]; intros par Ha; [done|]. simpl in *.
  intros (? & Hx & ? & ?). rewrite Ha by set_solver. split_and!; [done..| |].
  - apply IHl; [|done]. intros a ?. apply Ha. set_solver.
  - apply IHr; [|done]. intros a ?. apply Ha. set_solver.
Qed.

Lemma rep_ctx_agree h h' rb c k :
  (forall a, a ∈ BalancedRoot :: ctx_addrs k -> h' !! a = h !! a) -> rep_ctx h rb c k -> rep_ctx h' rb c k.
Proof.
  revert c. induction k as [|f k IH]; intros c Ha; simpl in *.
  - rewrite Ha by set_solver. done.
  - intros (? & ? & ? & ?). rewrite Ha by set_solver. split_and!; [done..| |].
    + eapply rep_agree; [|done]. intros a ?. apply Ha. set_solver.
    + apply IH; [|done]. intros a ?. apply Ha. set_solver.
Qed.

Lemma ptr_of_in t : ptr_of t <> 0%nat -> ptr_of t ∈ addrs t.
Proof. destruct t; simpl; [done|]. intros _. set_solver. Qed.

Lemma rep_ptr_0 h par t : rep h par t -> ptr_of t = 0%nat -> t = Leaf.
Proof. destruct t; [done|]. intros [? _] ?. done. Qed.

(** The subtree with the parent [par'] at its root. *)
Lemma rep_reparent h par par' t : rep h par t ->
  NoDup (addrs t) ->
  exists h', (if (ptr_of t =? 0)%nat then Ok h else RtlSetParent h (ptr_of t) par') = Ok h' /\
    rep h' par' t /\ (forall a, a ∉ addrs t -> h' !! a = h !! a) /\ dom h' = dom h.
Proof.
  intros Hr Hn. destruct t as [|a b l r].
  - exists h. done.
  - destruct Hr as (Ha & Hl & Hrl & Hrr). cbn [ptr_of]. destruct (Nat.eqb_spec a 0); [done|].
    unfold RtlSetParent, st, ld. rewrite Hl, bind_ok. simpl. eexists. split; [done|].
    simpl in Hn. apply NoDup_app in Hn as (? & Hd & [? ?]%NoDup_cons).
    split_and!; [done|by rewrite lookup_insert_eq| | | |].
    + eapply rep_agree; [|done]. intros x Hx. rewrite lookup_insert_ne; [done|].
      intros <-. apply (Hd _ Hx). set_solver.
    + eapply rep_agree; [|done]. intros x Hx. by rewrite lookup_insert_ne by (by intros <-).
    + intros x Hx. rewrite lookup_insert_ne; [done|]. set_solver.
    + rewrite dom_insert_L. apply elem_of_dom_2 in Hl. set_solver.
Qed.

(** ** Memory operations *)
Lemma st_ok h p f l : h !! p = Some l -> st h p f = Ok (<[p := f l]> h).
Proof. intros H. unfold st, ld. by rewrite H. Qed.

Lemma ld_ok h p l : h !! p = Some l -> ld h p = Ok l.
Proof. intros H. unfold ld. by rewrite H. Qed.

Lemma dom_insert_same (h : heap) p l l' : h !! p = Some l' -> dom (<[p := l]> h) = dom h.
Proof. intros H%elem_of_dom_2. rewrite dom_insert_L. set_solver. Qed.

Definition hole_side (k : list frame) : side := match k with [] => R | f :: _ => fside f end.

Definition other (s : side) : side := match s with L => R | R => L end.

Lemma parent_in k : parent_of k ∈ BalancedRoot :: ctx_addrs k.
Proof. destruct k as [|f k]; simpl; [|destruct f]; set_solver. Qed.

(** The links of the parent of the hole. *)
Lemma parent_links h rb c k : rep_ctx h rb c k -> exists pp o b,
  h !! parent_of k = Some (mkl (hole_side k) pp c o b).
Proof. destruct k as [|f k]; simpl; [|naive_solver]. intros ->. by exists BalancedRoot, 0%nat, rb. Qed.

Lemma rep_ctx_set_child h rb c n k : rep_ctx h rb c k -> NoDup (BalancedRoot :: ctx_addrs k) ->
  exists h', st_slot h (hole_side k, parent_of k) n = Ok h' /\ rep_ctx h' rb n k /\
    (forall a, a <> parent_of k -> h' !! a = h !! a) /\ dom h' = dom h.
Proof.
  intros Hr Hn. unfold st_slot. destruct k as [|f k]; simpl in *.
  - rewrite (st_ok _ _ _ _ Hr). eexists. split_and!; [done|by rewrite lookup_insert_eq| |by eapply dom_insert_same].
    intros a Ha. by rewrite lookup_insert_ne.
  - destruct Hr as (Ha & Hl & Hs & Hk). rewrite (st_ok _ _ _ _ Hl). eexists. split; [done|].
    apply NoDup_cons in Hn as [HR [[Hf ?]%not_elem_of_app Hn]%NoDup_cons].
    split_and!; [done| | | | |by eapply dom_insert_same].
    + rewrite lookup_insert_eq. by destruct (fside f).
    + eapply rep_agree; [|done]. intros x ?. rewrite lookup_insert_ne; set_solver.
    + eapply rep_ctx_agree; [|done]. intros x ?. rewrite lookup_insert_ne; [done|]. set_solver.
    + intros x ?. by rewrite lookup_insert_ne.
Qed.

(** The child that is not on the left of its parent is on its right. *)
Lemma left_child_test h rb c k : rep_ctx h rb c k -> c <> 0%nat -> c ∉ ctx_addrs k ->
  exists x, RtlLeftChildAvl h (parent_of k) = Ok x /\
    (if (x =? c)%nat then L else R) = hole_side k.
Proof.
  intros Hr Hc Hin. unfold RtlLeftChildAvl, ld_slot. destruct k as [|f k]; simpl in *.
  - rewrite (ld_ok _ _ _ Hr). eexists. split; [done|]. by destruct c.
  - destruct Hr as (? & Hl & Hs & _). rewrite (ld_ok _ _ _ Hl). eexists. split; [done|].
    destruct f as [[] a b sib]; simpl in *; [by rewrite Nat.eqb_refl|].
    destruct (Nat.eqb_spec (ptr_of sib) c) as [<-|]; [|done].
    apply ptr_of_in in Hc. set_solver.
Qed.

(** ** Rotation

    [RtlpPromoteAvlTreeNode] moves the node in the hole above its parent; the
    far subtree of the node becomes the near subtree of the parent. *)
Lemma put_near s pp x o b v : put_child s v (mkl s pp x o b) = mkl s pp v o b.
Proof. by destruct s. Qed.

Lemma put_far s pp x o b v : put_child (other s) v (mkl s pp x o b) = mkl s pp x v b.
Proof. by destruct s. Qed.

Lemma get_far s pp x o b : get_child (other s) (mkl s pp x o b) = o.
Proof. by destruct s. Qed.

Lemma parent_mkl s pp x o b : Parent (mkl s pp x o b) = pp.
Proof. by destruct s. Qed.

Lemma reparent_mkl s pp x o b v :
  (fun l => Links v (LeftChild l) (RightChild l) (Balance l)) (mkl s pp x o b) = mkl s v x o b.
Proof. by destruct s. Qed.

(** Facts on the addresses of a position, as separate hypotheses. *)
Ltac split_nodup :=
  repeat match goal with
  | H : NoDup (_ :: _) |- _ => apply NoDup_cons in H as [? ?]
  | H : NoDup (_ ++ _) |- _ => apply NoDup_app in H as (? & ? & ?)
  end.

(** The addresses of a rotation are apart. *)
Lemma rotation_apart (r p n : nat) (S C A F : list nat) :
  NoDup (r :: (p :: S ++ C) ++ n :: A ++ F) ->
  (forall q, q ∈ r :: C -> q <> p /\ q <> n /\ (q ∉ S) /\ (q ∉ A) /\ (q ∉ F)) /\
  (p <> n /\ (p ∉ S) /\ (p ∉ A) /\ (p ∉ F)) /\ ((n ∉ S) /\ (n ∉ A) /\ (n ∉ F)) /\
  (forall a, a ∈ S -> (a ∉ A) /\ (a ∉ F)) /\ (forall a, a ∈ A -> a ∉ F) /\
  NoDup A /\ NoDup F /\ NoDup (r :: C).
Proof.
  intros [Hr (HL & Hd & HR)%NoDup_app]%NoDup_cons.
  apply NoDup_cons in HL as [Hp (HS & HSC & HC)%NoDup_app].
  apply NoDup_cons in HR as [Hn (HA & HAF & HF)%NoDup_app].
  assert (Hx : forall x y, x ∈ p :: S ++ C -> y ∈ n :: A ++ F -> x <> y) by (intros x y ? ? ->; naive_solver).
  assert (Hq : forall q, q ∈ r :: C -> q <> p /\ (q ∉ S)).
  { clear -Hr Hp HSC. intros q [->|Hq]%elem_of_cons; set_solver. }
  split_and!; try done; try (clear -Hx; set_solver); try (clear -Hn Hp; set_solver).
  - intros q Hq'. destruct (Hq q Hq') as [? ?]. split_and!; try done; clear -Hr Hx Hq'; set_solver.
  - apply NoDup_cons. split; [|done]. clear -Hr. set_solver.
Qed.

Ltac apart :=
  match goal with
  | |- _ <> _ => let E := fresh in intros E; subst; naive_solver
  | |- _ ∉ _ => let E := fresh in intros E; naive_solver
  end.

Lemma promote_ok h rb s p b sib k n bn near far :
  shape h rb (Frame s p b sib :: k) (mk s n bn near far) ->
  exists h', RtlpPromoteAvlTreeNode h n = Ok h' /\
    shape h' rb k (mk s n bn near (mk s p b far sib)) /\ dom h' = dom h.
Proof.
  intros [Ht Hk Hn]. rewrite addrs_mk in Hn. simpl in Hn. rewrite ptr_of_mk in Hk.
  pose proof (rotation_apart _ _ _ _ _ _ _ Hn) as (Aq & Ap & An & As & Aa & Nn & Nf & Nk).
  destruct (left_child_test _ _ _ _ Hk) as (x & Ex & Es).
  { by apply rep_mk in Ht as (? & _). } { simpl. clear -Aq An Ap. set_solver. }
  apply rep_mk in Ht as (Hn0 & Hln & Hnear & Hfar). simpl in Hln, Hnear, Hfar, Ex, Es.
  destruct Hk as (Hp0 & Hlp & Hsib & Hk). simpl in Hp0, Hlp, Hsib, Hk.
  unfold RtlpPromoteAvlTreeNode, RtlIsLeftChildAvl, RtlParentAvl.
  rewrite (ld_ok _ _ _ Hln), !bind_ok, parent_mkl, (ld_ok _ _ _ Hlp), !bind_ok, parent_mkl, Ex, !bind_ok.
  assert (E1 : (if (x =? n)%nat then (L, p) else (R, p)) = (s, p)) by (by destruct (x =? n)%nat; subst s).
  assert (E2 : (if (x =? n)%nat then (R, n) else (L, n)) = (other s, n)) by (by destruct (x =? n)%nat; subst s).
  cbv zeta. rewrite E1, E2. clear E1 E2 Ex Es x.
  unfold ld_slot, st_slot. cbn [fst snd]. rewrite (ld_ok _ _ _ Hln), !bind_ok, get_far.
  rewrite (st_ok _ _ _ _ Hlp), put_near, bind_ok. set (h1 := <[p := _]> h).
  destruct (rep_reparent h1 n p far) as (h2 & -> & Hfar2 & A2 & D2); [|done|].
  { eapply rep_agree; [|done]. intros a Ha. apply lookup_insert_ne. apart. }
  rewrite bind_ok.
  assert (Hn2 : h2 !! n = Some (mkl s p (ptr_of near) (ptr_of far) bn)).
  { rewrite A2 by apart. unfold h1. by rewrite lookup_insert_ne by apart. }
  rewrite (st_ok _ _ _ _ Hn2), put_far, bind_ok. set (h3 := <[n := _]> h2).
  assert (Hp3 : h3 !! p = Some (mkl s (parent_of k) (ptr_of far) (ptr_of sib) b)).
  { unfold h3. rewrite lookup_insert_ne, A2 by apart. apply lookup_insert_eq. }
  unfold RtlSetParent. rewrite (st_ok _ _ _ _ Hp3), reparent_mkl, bind_ok. set (h4 := <[p := _]> h3).
  assert (A4 : forall a, a <> p -> a <> n -> a ∉ addrs far -> h4 !! a = h !! a).
  { intros a ???. unfold h4, h3. rewrite !lookup_insert_ne, A2 by done. by apply lookup_insert_ne. }
  assert (Hk4 : rep_ctx h4 rb p k).
  { eapply rep_ctx_agree; [|done]. intros a Ha. apply A4; apart. }
  destruct (left_child_test _ _ _ _ Hk4) as (y & Ey & Es); [done|clear -Aq; set_solver|].
  rewrite Ey, bind_ok.
  assert (E3 : (if (y =? p)%nat then (L, parent_of k) else (R, parent_of k)) = (hole_side k, parent_of k))
    by (rewrite <- Es; by destruct (y =? p)%nat).
  rewrite E3. clear E3 Ey Es y.
  destruct (rep_ctx_set_child h4 rb p n k Hk4 Nk) as (h5 & E5 & Hk5 & A5 & D5).
  unfold st_slot in E5. rewrite E5, bind_ok. clear E5.
  pose proof (Aq _ (parent_in k)) as Hq.
  assert (Hn5 : h5 !! n = Some (mkl s p (ptr_of near) p bn)).
  { rewrite A5 by apart. unfold h4. rewrite lookup_insert_ne by apart. apply lookup_insert_eq. }
  rewrite (st_ok _ _ _ _ Hn5), reparent_mkl.
  eexists. split; [done|]. split; [split|].
  - apply rep_mk. rewrite ptr_of_mk. split_and!; [done|apply lookup_insert_eq| |apply rep_mk; split_and!; [done|..]].
    + eapply rep_agree; [|exact Hnear]. intros a Ha. by rewrite lookup_insert_ne, A5, A4 by apart.
    + rewrite lookup_insert_ne, A5 by apart. apply lookup_insert_eq.
    + eapply rep_agree; [|exact Hfar2]. intros a Ha. rewrite lookup_insert_ne, A5 by apart. unfold h4, h3.
      by rewrite !lookup_insert_ne by apart.
    + eapply rep_agree; [|exact Hsib]. intros a Ha. by rewrite lookup_insert_ne, A5, A4 by apart.
  - rewrite ptr_of_mk. eapply rep_ctx_agree; [|exact Hk5]. intros a Ha. apply lookup_insert_ne. apart.
  - revert Hn. apply NoDup_Permutation_proper. rewrite !addrs_mk. simpl. solve_Permutation.
  - erewrite dom_insert_same by done. rewrite D5. unfold h4, h3. rewrite !dom_insert_L, D2. unfold h1.
    rewrite dom_insert_L. apply elem_of_dom_2 in Hlp, Hln. clear -Hlp Hln. set_solver.
Qed.

(** ** Moving in the tree *)
Lemma shape_fill h rb f k t : shape h rb (f :: k) t <-> shape h rb k (fill f t).
Proof.
  destruct f as [s a b u]. unfold fill. simpl.
  assert (P : BalancedRoot :: ctx_addrs k ++ addrs (mk s a b t u) ≡ₚ
              BalancedRoot :: ctx_addrs (Frame s a b u :: k) ++ addrs t).
  { rewrite addrs_mk. simpl. solve_Permutation. }
  split; intros [Ht Hk Hn].
  - destruct Hk as (? & ? & ? & ?). simpl in *. split; [by apply rep_mk|by rewrite ptr_of_mk|].
    by rewrite P.
  - apply rep_mk in Ht as (? & ? & ? & ?). rewrite ptr_of_mk in Hk. split; [done|done|]. by rewrite <- P.
Qed.

Lemma mk_other s a b t u : mk (other s) a b t u = mk s a b u t.
Proof. by destruct s. Qed.

(** The far child as the hole. *)
Lemma shape_far h rb k s a b t u :
  shape h rb k (mk s a b t u) <-> shape h rb (Frame (other s) a b t :: k) u.
Proof. rewrite shape_fill. unfold fill. simpl. by rewrite mk_other. Qed.

Lemma shape_near h rb k s a b t u :
  shape h rb k (mk s a b t u) <-> shape h rb (Frame s a b u :: k) t.
Proof. by rewrite shape_fill. Qed.

Lemma shape_lookup h rb k s a b t u : shape h rb k (mk s a b t u) ->
  h !! a = Some (mkl s (parent_of k) (ptr_of t) (ptr_of u) b).
Proof. intros [Ht _ _]. by apply rep_mk in Ht as (_ & ? & _). Qed.

Lemma shape_lookup_root h rb k t : shape h rb k t -> exists c,
  h !! BalancedRoot = Some (Links BalancedRoot 0 c rb).
Proof.
  intros [_ Hk _]. revert Hk. generalize (ptr_of t). clear t.
  induction k as [|f k IH]; simpl; intros c; [eauto|]. intros (_ & _ & _ & Hk). eauto.
Qed.

Lemma balance_mkl s pp x o b : Balance (mkl s pp x o b) = b.
Proof. by destruct s. Qed.

Lemma rebalance_mkl s pp x o b v :
  (fun l => Links (Parent l) (LeftChild l) (RightChild l) v) (mkl s pp x o b) = mkl s pp x o v.
Proof. by destruct s. Qed.

Lemma RtlBalance_ok h rb k s a b t u : shape h rb k (mk s a b t u) -> RtlBalance h a = Ok b.
Proof. intros H%shape_lookup. unfold RtlBalance. by rewrite (ld_ok _ _ _ H), bind_ok, balance_mkl. Qed.

Lemma set_balance_ok h rb k s a b t u b' : shape h rb k (mk s a b t u) ->
  exists h', RtlSetBalance h a b' = Ok h' /\ shape h' rb k (mk s a b' t u) /\ dom h' = dom h.
Proof.
  intros Hs. pose proof (shape_lookup _ _ _ _ _ _ _ _ Hs) as Hl. destruct Hs as [Ht Hk Hn].
  unfold RtlSetBalance. rewrite (st_ok _ _ _ _ Hl), rebalance_mkl. eexists. split; [done|].
  rewrite addrs_mk in Hn. rewrite ptr_of_mk in Hk. apply rep_mk in Ht as (? & _ & ? & ?).
  pose proof Hn as [HR (_ & Hd & [Ha _]%NoDup_cons)%NoDup_app]%NoDup_cons.
  split; [split|by eapply dom_insert_same].
  - apply rep_mk. split_and!; [done|apply lookup_insert_eq|..];
      (eapply rep_agree; [|done]); intros x Hx; apply lookup_insert_ne; clear -Ha Hx; set_solver.
  - rewrite ptr_of_mk. eapply rep_ctx_agree; [|done]. intros x [->|Hx]%elem_of_cons; apply lookup_insert_ne.
    + clear -HR. set_solver.
    + intros <-. apply (Hd _ Hx). set_solver.
  - by rewrite addrs_mk.
Qed.

Lemma rep_ctx_root h rb rb' c k l : rep_ctx h rb c k -> NoDup (BalancedRoot :: ctx_addrs k) ->
  h !! BalancedRoot = Some l ->
  rep_ctx (<[BalancedRoot := Links (Parent l) (LeftChild l) (RightChild l) rb']> h) rb' c k.
Proof.
  intros Hr Hn Hl. revert c Hr Hn. induction k as [|f k IH]; simpl; intros c Hr Hn.
  - rewrite Hr in Hl. injection Hl as <-. apply lookup_insert_eq.
  - destruct Hr as (? & ? & ? & ?). apply NoDup_cons in Hn as [HR [Hf (_ & _ & Hn)%NoDup_app]%NoDup_cons].
    rewrite lookup_insert_ne by (clear -HR; set_solver). split_and!; [done..| |].
    + eapply rep_agree; [|done]. intros x Hx. apply lookup_insert_ne. clear -HR Hx. set_solver.
    + apply IH; [done|]. apply NoDup_cons. split; [|done]. clear -HR. set_solver.
Qed.

Lemma set_root_balance_ok h rb k t b' : shape h rb k t ->
  exists h', RtlSetBalance h BalancedRoot b' = Ok h' /\ shape h' b' k t /\ dom h' = dom h.
Proof.
  intros Hs. destruct (shape_lookup_root _ _ _ _ Hs) as [c Hl]. destruct Hs as [Ht Hk Hn].
  unfold RtlSetBalance. rewrite (st_ok _ _ _ _ Hl). eexists. split; [done|]. split; [split|by eapply dom_insert_same].
  - eapply rep_agree; [|done]. intros x Hx. apply lookup_insert_ne. intros <-.
    apply NoDup_cons in Hn as [Hn _]. clear -Hx Hn. set_solver.
  - eapply rep_ctx_root; [done| |done]. apply NoDup_cons in Hn as [HR (? & _)%NoDup_app].
    apply NoDup_cons. split; [|done]. clear -HR. set_solver.
  - done.
Qed.

Lemma get_root_balance h rb k t : shape h rb k t -> RtlBalance h BalancedRoot = Ok rb.
Proof. intros [c Hl]%shape_lookup_root. unfold RtlBalance. by rewrite (ld_ok _ _ _ Hl), bind_ok. Qed.

End AvlSpec.
