(* ===== verification/AvlInsert.v ===== *)
(** * Generic tables: rebalancing and insertion

    The loop of [RtlpInsertAvlTreeNode] climbs from a subtree that has grown
    by one level and restores the balance of the whole tree. *)
From S2P Require Import Prelude Avl AvlSpec.
From stdpp Require Import gmap.
#[local] Open Scope Z_scope.
Set Warnings "-clear-no-such-hyp".
Import Avl AvlSpec.

Module AvlInsert.

(** The balance of a node that is heavy on side [s]. *)
Definition heavy (s : side) : Z := match s with L => RtlLeftHeavyAvlTree | R => RtlRightHeavyAvlTree end.

Lemma near_child h rb k s a b t u : shape h rb k (mk s a b t u) ->
  (if heavy s =? RtlRightHeavyAvlTree then RtlRightChildAvl h a else RtlLeftChildAvl h a) = Ok (ptr_of t).
Proof.
  intros H%shape_lookup. unfold RtlRightChildAvl, RtlLeftChildAvl, ld_slot. destruct s; simpl;
    by rewrite (ld_ok _ _ _ H).
Qed.

Lemma far_child h rb k s a b t u : shape h rb k (mk s a b t u) ->
  (if heavy s =? RtlRightHeavyAvlTree then RtlLeftChildAvl h a else RtlRightChildAvl h a) = Ok (ptr_of u).
Proof.
  intros H%shape_lookup. unfold RtlRightChildAvl, RtlLeftChildAvl, ld_slot. destruct s; simpl;
    by rewrite (ld_ok _ _ _ H).
Qed.

(** Single rotation. *)
Lemma rebalance_single h rb k s a c near far sib :
  shape h rb k (mk s a (heavy s) (mk s c (heavy s) near far) sib) ->
  exists h', RtlpRebalanceAvlTreeNode h a = Ok (h', false) /\
    shape h' rb k (mk s c 0 near (mk s a 0 far sib)) /\ dom h' = dom h.
Proof.
  intros Hs. unfold RtlpRebalanceAvlTreeNode, RtlBalancedAvlTree.
  rewrite (RtlBalance_ok _ _ _ _ _ _ _ _ Hs), bind_ok, (near_child _ _ _ _ _ _ _ _ Hs), bind_ok, ptr_of_mk.
  apply shape_near in Hs. rewrite (RtlBalance_ok _ _ _ _ _ _ _ _ Hs), bind_ok, Z.eqb_refl.
  destruct (promote_ok _ _ _ _ _ _ _ _ _ _ _ Hs) as (h1 & -> & H1 & D1). rewrite bind_ok.
  destruct (set_balance_ok _ _ _ _ _ _ _ _ 0 H1) as (h2 & -> & H2 & D2). rewrite bind_ok.
  apply shape_far in H2.
  destruct (set_balance_ok _ _ _ _ _ _ _ _ 0 H2) as (h3 & -> & H3 & D3). rewrite bind_ok.
  apply shape_far in H3. exists h3. split_and!; [done|done|congruence].
Qed.

(** Balances of the child and of the node after a double rotation around a
    grandchild with balance [bg]. *)
Definition child_balance (s : side) (bg : Z) : Z := if bg =? - heavy s then heavy s else 0.
Definition node_balance (s : side) (bg : Z) : Z := if bg =? heavy s then - heavy s else 0.

Lemma heavy_opp s : - heavy s <> heavy s.
Proof. by destruct s. Qed.

(** Double rotation. *)
Lemma rebalance_double h rb k s a c g bg near gnear gfar sib :
  shape h rb k (mk s a (heavy s) (mk s c (- heavy s) near (mk s g bg gnear gfar)) sib) ->
  exists h', RtlpRebalanceAvlTreeNode h a = Ok (h', false) /\
    shape h' rb k (mk s g 0 (mk s c (child_balance s bg) near gnear)
                            (mk s a (node_balance s bg) gfar sib)) /\ dom h' = dom h.
Proof.
  intros Hs. unfold RtlpRebalanceAvlTreeNode, RtlBalancedAvlTree.
  rewrite (RtlBalance_ok _ _ _ _ _ _ _ _ Hs), bind_ok, (near_child _ _ _ _ _ _ _ _ Hs), bind_ok, ptr_of_mk.
  apply shape_near in Hs. rewrite (RtlBalance_ok _ _ _ _ _ _ _ _ Hs), bind_ok, Z.eqb_refl.
  destruct (Z.eqb_spec (- heavy s) (heavy s)) as [E|_]; [by apply heavy_opp in E|].
  rewrite (far_child _ _ _ _ _ _ _ _ Hs), bind_ok, ptr_of_mk.
  apply shape_far in Hs. rewrite <- (mk_other s g) in Hs.
  destruct (promote_ok _ _ _ _ _ _ _ _ _ _ _ Hs) as (h1 & -> & H1 & D1). rewrite bind_ok.
  rewrite !mk_other in H1.
  destruct (promote_ok _ _ _ _ _ _ _ _ _ _ _ H1) as (h2 & -> & H2 & D2). rewrite bind_ok.
  rewrite (RtlBalance_ok _ _ _ _ _ _ _ _ H2), bind_ok.
  set (setb := if bg =? heavy s then _ else _).
  assert (Es : exists h3 h4, RtlSetBalance h2 c (child_balance s bg) = Ok h3 /\
    RtlSetBalance h3 a (node_balance s bg) = Ok h4 /\ setb = Ok h4 /\ dom h4 = dom h2 /\
    shape h4 rb k (mk s g bg (mk s c (child_balance s bg) near gnear) (mk s a (node_balance s bg) gfar sib))).
  { apply shape_near in H2. destruct (set_balance_ok _ _ _ _ _ _ _ _ (child_balance s bg) H2) as (h3 & E3 & H3 & D3).
    apply shape_near, shape_far in H3.
    destruct (set_balance_ok _ _ _ _ _ _ _ _ (node_balance s bg) H3) as (h4 & E4 & H4 & D4).
    apply shape_far in H4. exists h3, h4. split_and!; [done..| |congruence|done].
    subst setb. unfold child_balance, node_balance in *.
    pose proof (heavy_opp s). destruct (Z.eqb_spec bg (heavy s)), (Z.eqb_spec bg (- heavy s)); [congruence|..];
      by rewrite E3, bind_ok. }
  destruct Es as (h3 & h4 & _ & _ & -> & D4 & H4). rewrite bind_ok.
  destruct (set_balance_ok _ _ _ _ _ _ _ _ 0 H4) as (h5 & -> & H5 & D5). rewrite bind_ok.
  exists h5. split_and!; [done|done|congruence].
Qed.

(** ** Balanced trees *)
Definition near_far_balance (s : side) (near far : nat) : Z :=
  match s with L => Z.of_nat far - Z.of_nat near | R => Z.of_nat near - Z.of_nat far end.

Fixpoint avl (t : tree) : Prop :=
  match t with
  | Leaf => True
  | Node _ b l r => b = Z.of_nat (height r) - Z.of_nat (height l) /\ -1 <= b <= 1 /\ avl l /\ avl r
  end.

Lemma avl_mk s a b t u : avl (mk s a b t u) <->
  b = near_far_balance s (height t) (height u) /\ -1 <= b <= 1 /\ avl t /\ avl u.
Proof. destruct s; simpl; naive_solver. Qed.

Lemma height_mk s a b t u : height (mk s a b t u) = S (height t `max` height u).
Proof. destruct s; simpl; lia. Qed.

(** The frames are balanced around a hole of height [m]. *)
Fixpoint avl_ctx (k : list frame) (m : nat) : Prop :=
  match k with
  | [] => True
  | f :: k =>
    fbal f = near_far_balance (fside f) m (height (fsib f)) /\ -1 <= fbal f <= 1 /\ avl (fsib f) /\
    avl_ctx k (S (m `max` height (fsib f)))
  end.

Lemma avl_plug k t : avl_ctx k (height t) -> avl t -> avl (plug k t).
Proof.
  revert t. induction k as [|f k IH]; intros t Hk Ht; [done|]. simpl in *.
  destruct Hk as (? & ? & ? & Hk). apply IH.
  - unfold fill. by rewrite height_mk.
  - by apply avl_mk.
Qed.

Lemma height_plug k t t' : height t = height t' -> height (plug k t) = height (plug k t').
Proof.
  revert t t'. induction k as [|f k IH]; intros t t' Ht; [done|]. simpl. apply IH.
  unfold fill. by rewrite !height_mk, Ht.
Qed.

Lemma shape_plug h rb k t : shape h rb k t <-> shape h rb [] (plug k t).
Proof. revert t. induction k as [|f k IH]; intros t; [done|]. by rewrite shape_fill, IH. Qed.

(** The height of the tree around a hole of height [m]. *)
Definition ctx_height (k : list frame) (m : nat) : nat :=
  foldl (fun m f => S (m `max` height (fsib f))) m k.

Lemma height_plug_eq k t : height (plug k t) = ctx_height k (height t).
Proof.
  revert t. induction k as [|f k IH]; intros t; [done|]. simpl. rewrite IH.
  unfold fill. by rewrite height_mk.
Qed.

Lemma addrs_plug k t t' : addrs t = addrs t' -> addrs (plug k t) = addrs (plug k t').
Proof.
  revert t t'. induction k as [|f k IH]; intros t t' H; [done|]. simpl. apply IH.
  unfold fill. destruct (fside f); simpl; by rewrite H.
Qed.

Lemma is_left_ok h rb k t : shape h rb k t -> t <> Leaf ->
  exists left, RtlIsLeftChildAvl h (ptr_of t) = Ok left /\
    (if left : bool then RtlLeftHeavyAvlTree else RtlRightHeavyAvlTree) = heavy (hole_side k).
Proof.
  intros [Ht Hk Hn] Hl. destruct t as [|a b l r]; [done|]. destruct Ht as (Ha & Hla & _). simpl in *.
  destruct (left_child_test _ _ _ _ Hk Ha) as (x & Ex & Es).
  { intros Hin. apply NoDup_cons in Hn as [_ (_ & Hd & _)%NoDup_app]. apply (Hd _ Hin). set_solver. }
  unfold RtlIsLeftChildAvl, RtlParentAvl. rewrite (ld_ok _ _ _ Hla), !bind_ok. simpl.
  rewrite Ex, bind_ok. eexists. split; [done|]. rewrite <- Es. by destruct (x =? a)%nat.
Qed.

Definition top_balance (t : tree) : Z := match t with Leaf => 0 | Node _ b _ _ => b end.

Lemma mk_inv s t : t <> Leaf -> exists a near far, t = mk s a (top_balance t) near far.
Proof. destruct t as [|a b l r]; [done|]. intros _. destruct s; [by exists a, l, r|by exists a, r, l]. Qed.

Lemma top_balance_mk s a b t u : top_balance (mk s a b t u) = b.
Proof. by destruct s. Qed.

Lemma heavy_cases s : heavy s = 1 \/ heavy s = -1.
Proof. destruct s; [by right|by left]. Qed.

Lemma nfb_heavy s n f : near_far_balance s n f = heavy s * (Z.of_nat n - Z.of_nat f).
Proof. destruct s; unfold near_far_balance, heavy, RtlLeftHeavyAvlTree, RtlRightHeavyAvlTree; lia. Qed.

(** Arithmetic on balances and heights, for either side. *)
Ltac balances s :=
  rewrite ?avl_mk, ?height_mk, ?nfb_heavy in *; destruct_and?;
  destruct (heavy_cases s) as [Hheavy|Hheavy]; rewrite ?Hheavy in *;
  repeat zcase; split_and?; try done; simpl in *; try lia.

(** The rebalanced subtree has the height of the subtree before it grew. *)
Lemma rebalance_ok h rb k s a t sib m :
  shape h rb k (mk s a (heavy s) t sib) -> t <> Leaf -> avl t -> avl sib -> height t = S m ->
  m = 0%nat \/ top_balance t <> 0 -> heavy s = near_far_balance s m (height sib) ->
  exists h' t', RtlpRebalanceAvlTreeNode h a = Ok (h', false) /\ shape h' rb k t' /\ avl t' /\
    height t' = S (m `max` height sib) /\ addrs t' = addrs (mk s a (heavy s) t sib) /\ dom h' = dom h.
Proof.
  intros Hs Hl Ha Hasib Hm Hb Hbal. destruct (mk_inv s t Hl) as (c & near & far & E). rewrite E in *.
  set (bc := top_balance t) in *. clearbody bc. clear E t. rewrite top_balance_mk in Hb.
  destruct (decide (bc = heavy s)) as [->|Hbc].
  - destruct (rebalance_single _ _ _ _ _ _ _ _ _ Hs) as (h' & E & Hs' & D). eexists h', _.
    split_and!; [done|done| | |by destruct s; simpl; rewrite <- ?app_assoc|done]; clear Hs Hs' E D.
    + balances s.
    + balances s.
  - assert (Hbc' : bc = - heavy s) by (clear Hs; balances s). subst bc.
    assert (Hf : far <> Leaf) by (intros ->; clear Hs; balances s).
    destruct (mk_inv s far Hf) as (g & gn & gf & E). rewrite E in *.
    set (bg := top_balance far) in *. clearbody bg. clear E far.
    destruct (rebalance_double _ _ _ _ _ _ _ _ _ _ _ _ Hs) as (h' & E & Hs' & D). eexists h', _.
    split_and!; [done|done| | |by destruct s; simpl; rewrite <- ?app_assoc; simpl; rewrite <- ?app_assoc|done];
      clear Hs Hs' E D; unfold child_balance, node_balance in *.
    + balances s.
    + balances s.
Qed.

(** The loop restores the balance and tells whether the tree has grown. *)
Lemma insert_loop_ok : forall k fuel h t m depth,
  (length k < fuel)%nat -> shape h RtlLeftHeavyAvlTree k t -> t <> Leaf -> avl t -> height t = S m ->
  m = 0%nat \/ top_balance t <> 0 -> avl_ctx k m ->
  exists h' rb' t' (grew : bool),
    insert_loop fuel h (ptr_of t) (parent_of k) depth = Ok (h', if grew then u32 (depth + 1) else depth) /\
    shape h' rb' [] t' /\ avl t' /\ addrs t' = addrs (plug k t) /\ dom h' = dom h /\
    height t' = (ctx_height k m + if grew then 1 else 0)%nat.
Proof.
  induction k as [|[s a b sib] k IH]; intros fuel h t m depth Hf Hs Hl Ha Hm Hb Hk;
    (destruct fuel as [|fuel]; [simpl in Hf; lia|]); cbn [insert_loop];
    destruct (is_left_ok _ _ _ _ Hs Hl) as (left & -> & Eb); rewrite bind_ok; cbv zeta; rewrite Eb.
  - cbn [parent_of hole_side]. rewrite (get_root_balance _ _ _ _ Hs), bind_ok. cbn.
    destruct (set_root_balance_ok _ _ _ _ 0 Hs) as (h1 & E1 & H1 & D1).
    unfold RtlBalancedAvlTree. rewrite E1, bind_ok, (get_root_balance _ _ _ _ H1), bind_ok.
    exists h1, 0, t, true. split_and!; [done..|]. simpl. lia.
  - cbn [parent_of hole_side faddr fside] in *. destruct Hk as (Hbal & Hrange & Hasib & Hk). simpl in Hbal, Hrange, Hasib, Hk.
    apply shape_near in Hs. rewrite (RtlBalance_ok _ _ _ _ _ _ _ _ Hs), bind_ok.
    unfold RtlBalancedAvlTree. destruct (Z.eqb_spec b 0) as [->|Hb0]; [|destruct (Z.eqb_spec b (heavy s)) as [->|Hbh]]; cbn [negb].
    + destruct (set_balance_ok _ _ _ _ _ _ _ _ (heavy s) Hs) as (h1 & -> & H1 & D1). rewrite bind_ok.
      unfold RtlParentAvl. rewrite (ld_ok _ _ _ (shape_lookup _ _ _ _ _ _ _ _ H1)), !bind_ok, parent_mkl.
      destruct (IH fuel h1 (mk s a (heavy s) t sib) (S (m `max` height sib)) depth)
        as (h' & rb' & t' & grew & E & Hs' & Ha' & Ead & D & Hh); clear IH; try done.
      * simpl in Hf. lia.
      * by destruct s.
      * balances s.
      * clear H1 Hs. balances s.
      * right. rewrite top_balance_mk. by destruct s.
      * rewrite ptr_of_mk in E. exists h', rb', t', grew. split_and!; [done..| |congruence|done].
        rewrite Ead. simpl. apply addrs_plug. by destruct s.
    + destruct (rebalance_ok _ _ _ _ _ _ _ _ Hs Hl Ha Hasib Hm Hb Hbal)
        as (h' & t' & -> & Hs' & Ha' & Hh & Ead & D). rewrite bind_ok.
      apply shape_plug in Hs'. exists h', RtlLeftHeavyAvlTree, (plug k t'), false. split_and!; [done..| | |done|].
      * apply avl_plug; [by rewrite Hh|done].
      * simpl. by apply addrs_plug.
      * rewrite height_plug_eq, Hh. simpl. lia.
    + destruct (set_balance_ok _ _ _ _ _ _ _ _ 0 Hs) as (h1 & -> & H1 & D1). rewrite bind_ok.
      rewrite (get_root_balance _ _ _ _ H1), bind_ok. cbn [Z.eqb]. apply shape_plug in H1.
      exists h1, RtlLeftHeavyAvlTree, (plug k (mk s a 0 t sib)), false.
      assert (height (mk s a 0 t sib) = S (m `max` height sib)) as Eh by (clear H1 Hs; balances s).
      split_and!; [done..| | |done|].
      * apply avl_plug; [by rewrite Eh|]. clear H1 Hs Eh. balances s.
      * simpl. apply addrs_plug. by destruct s.
      * rewrite height_plug_eq, Eh. simpl. lia.
Qed.

End AvlInsert.
