(* ===== verification/AvlTable.v ===== *)
(** * Generic tables: lookup and insertion as operations on a sorted list

    A table stands for the sorted list of the user data of its nodes.  The
    laws of the compare routine are those its documentation asks for. *)
From S2P Require Import Prelude Avl AvlSpec AvlInsert.
From stdpp Require Import gmap.
#[local] Open Scope Z_scope.
Set Warnings "-clear-no-such-hyp".
Import Avl AvlSpec AvlInsert.

Module AvlTable.

(** ** The two sides of a position *)
Fixpoint ctx_left (k : list frame) : list nat :=
  match k with
  | [] => []
  | Frame L _ _ _ :: k => ctx_left k
  | Frame R a _ u :: k => ctx_left k ++ addrs u ++ [a]
  end.

Fixpoint ctx_right (k : list frame) : list nat :=
  match k with
  | [] => []
  | Frame L a _ u :: k => a :: addrs u ++ ctx_right k
  | Frame R _ _ _ :: k => ctx_right k
  end.

Lemma addrs_plug_app k t : addrs (plug k t) = ctx_left k ++ addrs t ++ ctx_right k.
Proof.
  revert t. induction k as [|[[] a b u] k IH]; intros t; simpl.
  - by rewrite app_nil_r.
  - rewrite IH. simpl. by rewrite <- !app_assoc.
  - rewrite IH. simpl. rewrite <- !app_assoc. simpl. done.
Qed.

Lemma addrs_plug_perm k t : addrs (plug k t) ≡ₚ ctx_addrs k ++ addrs t.
Proof.
  revert t. induction k as [|f k IH]; intros t; [done|].
  simpl. rewrite IH. unfold fill. rewrite addrs_mk. solve_Permutation.
Qed.

Lemma avl_unplug k t : avl (plug k t) -> avl_ctx k (height t) /\ avl t.
Proof.
  revert t. induction k as [|f k IH]; intros t; [done|]. simpl. intros [Hk Ht]%IH.
  unfold fill in *. rewrite height_mk in Hk. apply avl_mk in Ht. naive_solver.
Qed.

Lemma rep_dom h par t a : rep h par t -> a ∈ addrs t -> a ∈ dom h.
Proof.
  revert par. induction t as [|x b l IHl r IHr]; intros par; simpl; [set_solver|].
  intros (_ & Hx & Hl & Hr) [?|[->|?]%elem_of_cons]%elem_of_app; [by eapply IHl|by eapply elem_of_dom_2|by eapply IHr].
Qed.

Lemma shape_dom h rb t a : shape h rb [] t -> a ∈ BalancedRoot :: addrs t -> a ∈ dom h.
Proof.
  intros [Ht Hk _] [->|Hin]%elem_of_cons; [by eapply elem_of_dom_2|by eapply rep_dom].
Qed.

Lemma shape_size h rb t : shape h rb [] t -> (length (addrs t) < size h)%nat.
Proof.
  intros Hs. pose proof (shape_nodup _ _ _ _ Hs) as Hn. simpl in Hn.
  assert (Hd : list_to_set (BalancedRoot :: addrs t) ⊆ dom h).
  { intros a Ha%elem_of_list_to_set. by eapply shape_dom. }
  apply subseteq_size in Hd. rewrite size_list_to_set, size_dom in Hd by done. simpl in Hd. lia.
Qed.

Lemma height_addrs t : (height t <= length (addrs t))%nat.
Proof. induction t as [|a b l IHl r IHr]; simpl; [done|]. rewrite length_app. simpl. lia. Qed.

Lemma ctx_length k t : (length k <= length (addrs (plug k t)))%nat.
Proof.
  revert t. induction k as [|[[] a b u] k IH]; intros t; simpl; [lia|..].
  - specialize (IH t). rewrite addrs_plug_app in *. simpl. rewrite ?length_app in *. simpl. rewrite ?length_app in *. simpl. lia.
  - specialize (IH t). rewrite addrs_plug_app in *. simpl. rewrite ?length_app in *. simpl. rewrite ?length_app in *. simpl. lia.
Qed.

(** ** A new leaf *)
Lemma attach_ok h rb k n : shape h rb k Leaf -> h !! n = None -> n <> 0%nat ->
  exists h1 h2 h3 h4, st_slot (<[n := Links 0 0 0 0]> h) (R, n) 0 = Ok h1 /\ st_slot h1 (L, n) 0 = Ok h2 /\
    RtlSetBalance h2 n RtlBalancedAvlTree = Ok h3 /\ insert_as_child h3 (hole_side k) (parent_of k) n = Ok h4 /\
    shape h4 rb k (Node n 0 Leaf Leaf) /\ dom h4 = {[ n ]} ∪ dom h.
Proof.
  intros Hs Hn Hn0. pose proof (proj1 (shape_plug _ _ _ _) Hs) as Hp.
  assert (Hfresh : n ∉ BalancedRoot :: ctx_addrs k).
  { intros Hin. apply not_elem_of_dom in Hn. apply Hn. eapply shape_dom; [exact Hp|].
    rewrite addrs_plug_perm. simpl. by rewrite app_nil_r. }
  destruct Hs as [Ht Hk Hnd]. set (h3 := <[n := Links 0 0 0 0]> h).
  assert (Hst : forall f, f (Links 0 0 0 0) = Links 0 0 0 0 -> st h3 n f = Ok h3).
  { intros f Hf. unfold h3. erewrite st_ok by apply lookup_insert_eq. by rewrite Hf, insert_insert_eq. }
  unfold insert_as_child. assert (Hk3 : rep_ctx h3 rb 0 k).
  { eapply rep_ctx_agree; [|exact Hk]. intros a Ha. apply lookup_insert_ne. by intros <-. }
  rewrite app_nil_r in Hnd. destruct (rep_ctx_set_child h3 rb 0 n k Hk3 Hnd) as (h4 & E4 & Hk4 & A4 & D4).
  pose proof (parent_in k).
  assert (Hn4 : h4 !! n = Some (Links 0 0 0 0)) by (rewrite A4; [apply lookup_insert_eq|]; intros E; apply Hfresh; by rewrite E).
  exists h3, h3, h3, (<[n := Links (parent_of k) 0 0 0]> h4). split_and!; [by apply Hst..| | |].
  - rewrite E4, bind_ok. unfold RtlSetParent. by rewrite (st_ok _ _ _ _ Hn4).
  - split; simpl.
    + split_and!; [done|apply lookup_insert_eq|done..].
    + eapply rep_ctx_agree; [|exact Hk4]. intros a Ha. apply lookup_insert_ne. by intros <-.
    + rewrite (Permutation_app_comm _ [n]). simpl. rewrite perm_swap. by apply NoDup_cons.
  - erewrite dom_insert_same by done. rewrite D4. unfold h3. by rewrite dom_insert_L.
Qed.

(** ** Lookup *)

(** What the documentation asks of a compare routine: it orders the user
    data. *)
Class CompareLaws (cmp : list Z -> list Z -> RTL_GENERIC_COMPARE_RESULTS) : Prop := {
  compare_trans x y z : cmp x y = GenericLessThan -> cmp y z = GenericLessThan -> cmp x z = GenericLessThan;
  compare_flip x y : cmp x y = GenericLessThan <-> cmp y x = GenericGreaterThan;
}.

Section Tables.
Context (cmp : list Z -> list Z -> RTL_GENERIC_COMPARE_RESULTS) `{!CompareLaws cmp}.

Definition less (x y : list Z) : Prop := cmp x y = GenericLessThan.

Definition data_of (data : gmap nat (list Z)) (a : nat) : list Z := default [] (data !! a).

Definition sorted (data : gmap nat (list Z)) (l : list nat) : Prop :=
  StronglySorted less (map (data_of data) l).

Lemma compare_greater x y : cmp x y = GenericGreaterThan -> less y x.
Proof. apply compare_flip. Qed.

(** All of [l] on one side of the buffer. *)
Definition below (data : gmap nat (list Z)) (Buffer : list Z) (l : list nat) : Prop :=
  Forall (fun a => less (data_of data a) Buffer) l.
Definition above (data : gmap nat (list Z)) (Buffer : list Z) (l : list nat) : Prop :=
  Forall (fun a => less Buffer (data_of data a)) l.

Lemma sorted_app data l1 l2 : sorted data (l1 ++ l2) <->
  sorted data l1 /\ sorted data l2 /\
  forall a b, a ∈ l1 -> b ∈ l2 -> less (data_of data a) (data_of data b).
Proof.
  unfold sorted. rewrite map_app, StronglySorted_app. split.
  - intros (H & ? & ?). split_and!; [done..|]. intros a b Ha Hb. apply H; by apply list_elem_of_fmap_2.
  - intros (? & ? & H). split_and!; [|done..].
    intros x y (a & -> & ?)%list_elem_of_fmap (b & -> & ?)%list_elem_of_fmap. by apply H.
Qed.

Lemma find_loop_ok data Buffer h rb : forall t k fuel,
  shape h rb k t -> t <> Leaf -> (height t <= fuel)%nat ->
  (forall a, a ∈ addrs (plug k t) -> is_Some (data !! a)) -> sorted data (addrs (plug k t)) ->
  below data Buffer (ctx_left k) -> above data Buffer (ctx_right k) ->
  (exists a, find_loop cmp fuel h data Buffer (ptr_of t) = Ok (TableFoundNode, a) /\
     a ∈ addrs (plug k t) /\ cmp Buffer (data_of data a) = GenericEqual) \/
  (exists s a b u k', find_loop cmp fuel h data Buffer (ptr_of t) =
       Ok (match s with L => TableInsertAsLeft | R => TableInsertAsRight end, a) /\
     plug (Frame s a b u :: k') Leaf = plug k t /\
     below data Buffer (ctx_left (Frame s a b u :: k')) /\ above data Buffer (ctx_right (Frame s a b u :: k'))).
Proof.
  induction t as [|a b l IHl r IHr]; intros k fuel Hs Hl Hf Hd Hsort Hlo Hhi; [done|].
  simpl in Hf. destruct fuel as [|fuel]; [lia|]. cbn [find_loop ptr_of].
  assert (Ha : a ∈ addrs (plug k (Node a b l r))) by (rewrite addrs_plug_app; set_solver).
  destruct (Hd a Ha) as [d Ed]. unfold ld_data. rewrite Ed, bind_ok.
  assert (Da : data_of data a = d) by (unfold data_of; by rewrite Ed).
  pose proof (shape_lookup h rb k L a b l r Hs) as Hla. unfold RtlLeftChildAvl, RtlRightChildAvl, ld_slot.
  cbn [snd fst]. rewrite (ld_ok _ _ _ Hla), bind_ok. cbn [mkl get_child LeftChild RightChild].
  pose proof Hsort as Hsort'. rewrite addrs_plug_app in Hsort'. simpl in Hsort'.
  destruct (cmp Buffer d) eqn:E.
  - assert (Habove : above data Buffer (ctx_right (Frame L a b r :: k))).
    { simpl. apply Forall_cons. split; [by unfold less; rewrite Da|]. apply Forall_app. split; [|done].
      apply Forall_forall. intros x Hx. apply (compare_trans _ d); [done|]. rewrite <- Da.
      apply sorted_app in Hsort' as (_ & [H _]%sorted_app & _).
      apply sorted_app in H as (_ & H & _). apply (sorted_app data [a]) in H as (_ & _ & H). apply H; [set_solver|done]. }
    rewrite bind_ok. destruct (Nat.eqb_spec (ptr_of l) 0) as [E0|E0].
    + right. assert (l = Leaf) as -> by (eapply rep_ptr_0; [|done]; by apply (shape_tree h rb k _ Hs)).
      by exists L, a, b, r, k.
    + destruct (IHl (Frame L a b r :: k) fuel) as [?|?]; [..|by left|by right]; try done.
      * by apply (shape_near h rb k L).
      * by intros ->.
      * lia.
  - assert (Hbelow : below data Buffer (ctx_left (Frame R a b l :: k))).
    { simpl. apply compare_greater in E. apply Forall_app. split; [done|]. apply Forall_app. split.
      - apply Forall_forall. intros x Hx. apply (compare_trans _ d); [|done]. rewrite <- Da.
        apply sorted_app in Hsort' as (_ & [H _]%sorted_app & _).
        apply sorted_app in H as (_ & _ & H). apply H; [done|set_solver].
      - apply Forall_cons. split; [|done]. unfold less. by rewrite Da. }
    rewrite !bind_ok. cbn [RightChild]. destruct (Nat.eqb_spec (ptr_of r) 0) as [E0|E0].
    + right. assert (r = Leaf) as ->.
      { eapply rep_ptr_0; [|done]. apply shape_tree in Hs as (_ & _ & _ & ?). done. }
      by exists R, a, b, l, k.
    + destruct (IHr (Frame R a b l :: k) fuel) as [?|?]; [..|by left|by right]; try done.
      * by apply (shape_near h rb k R).
      * by intros ->.
      * lia.
  - left. exists a. by rewrite Da.
Qed.

(** ** Tables *)
Record table_ok (tbl : RTL_AVL_TABLE) (t : tree) : Prop := {
  tok_shape : exists rb, shape (nodes tbl) rb [] t;
  tok_avl : avl t;
  tok_count : NumberGenericTableElements tbl = Z.of_nat (length (addrs t));
  tok_depth : DepthOfTree tbl = Z.of_nat (height t);
  tok_data : forall a, a ∈ addrs t -> is_Some (UserData tbl !! a);
  tok_sorted : sorted (UserData tbl) (addrs t);
}.

(** The table stands for the sorted list [l] of user data. *)
Definition represents (tbl : RTL_AVL_TABLE) (l : list (list Z)) : Prop :=
  exists t, table_ok tbl t /\ map (data_of (UserData tbl)) (addrs t) = l.

Lemma represents_sorted tbl l : represents tbl l -> StronglySorted less l.
Proof.
  intros (t & Ht & <-). by apply tok_sorted.
Qed.

(** What the search returns, with the place of a missing element. *)
Lemma find_ok tbl t Buffer old : table_ok tbl t ->
  (exists a, RtlpFindAvlTableNodeOrParent cmp tbl Buffer old = Ok (TableFoundNode, a) /\
     a ∈ addrs t /\ cmp Buffer (data_of (UserData tbl) a) = GenericEqual) \/
  (exists k r p, RtlpFindAvlTableNodeOrParent cmp tbl Buffer old = Ok (r, p) /\ plug k Leaf = t /\
     (r = TableEmptyTree /\ k = [] \/
      r = (match hole_side k with L => TableInsertAsLeft | R => TableInsertAsRight end) /\ p = parent_of k /\ k <> []) /\
     below (UserData tbl) Buffer (ctx_left k) /\ above (UserData tbl) Buffer (ctx_right k)).
Proof.
  intros [[rb Hs] Ha Hc Hd Hdata Hsort]. unfold RtlpFindAvlTableNodeOrParent.
  destruct (Z.eqb_spec (NumberGenericTableElements tbl) 0) as [E|E].
  - right. destruct t as [|a b l r]; [|rewrite Hc in E; simpl in E; rewrite length_app in E; simpl in E; lia].
    exists [], TableEmptyTree, old. split_and!; [done|done|by left|by apply Forall_nil..].
  - assert (Hl : t <> Leaf) by (intros ->; done).
    unfold RtlRightChildAvl, ld_slot. cbn [fst snd]. rewrite (ld_ok _ _ _ (shape_ctx _ _ _ _ Hs)), !bind_ok. cbn [get_child fst RightChild].
    destruct (find_loop_ok (UserData tbl) Buffer (nodes tbl) rb t [] (S (size (nodes tbl))))
      as [(a & Ef & Hin & Heq)|(s & a & b & u & k & Ef & Hp & Hlo & Hhi)]; try done; try by apply Forall_nil.
    + pose proof (shape_size _ _ _ Hs). pose proof (height_addrs t). lia.
    + left. by exists a.
    + right. exists (Frame s a b u :: k). eexists _, _. split_and!; [done|done|by right|done..].
Qed.

Lemma no_equal_element data Buffer k x : below data Buffer (ctx_left k) -> above data Buffer (ctx_right k) ->
  x ∈ map (data_of data) (addrs (plug k Leaf)) -> cmp Buffer x <> GenericEqual.
Proof.
  intros Hlo Hhi Hx E. apply list_elem_of_fmap in Hx as (a & -> & Hin). rewrite addrs_plug_app in Hin. simpl in Hin.
  apply elem_of_app in Hin as [Hin|Hin].
  - eapply Forall_forall in Hlo; [|done]. apply compare_flip in Hlo. congruence.
  - eapply Forall_forall in Hhi; [|done]. unfold less in Hhi. congruence.
Qed.

(** [RtlLookupElementGenericTableFullAvl] returns the node of an element
    that compares equal to the buffer when the table has one, and NULL with
    the place to insert it otherwise. *)
Theorem RtlLookupElementGenericTableFullAvl_finds tbl l Buffer old : represents tbl l ->
  exists n r p, RtlLookupElementGenericTableFullAvl cmp tbl Buffer old = Ok (n, r, p) /\
    ((exists x, r = TableFoundNode /\ p = n /\ UserData tbl !! n = Some x /\ x ∈ l /\ cmp Buffer x = GenericEqual) \/
     (n = 0%nat /\ r <> TableFoundNode /\ forall x, x ∈ l -> cmp Buffer x <> GenericEqual)).
Proof.
  intros (t & Ht & <-). unfold RtlLookupElementGenericTableFullAvl.
  destruct (find_ok tbl t Buffer old Ht) as [(a & -> & Hin & Heq)|(k & r & p & -> & <- & Hr & Hlo & Hhi)]; rewrite bind_ok.
  - exists a, TableFoundNode, a. split; [done|]. left. destruct (tok_data _ _ Ht a Hin) as [x Hx].
    exists x. unfold data_of in Heq. rewrite Hx in Heq. split_and!; [done..| |done].
    apply list_elem_of_fmap. exists a. unfold data_of. by rewrite Hx.
  - assert (Hr' : r <> TableFoundNode) by (destruct Hr as [[-> _]|[-> _]]; [|destruct (hole_side k)]; done).
    rewrite decide_True by done. exists 0%nat, r, p. split; [done|]. right. split_and!; [done..|].
    intros x. by apply no_equal_element.
Qed.

Lemma data_of_insert (data : gmap nat (list Z)) n d a : a <> n -> data_of (<[n := d]> data) a = data_of data a.
Proof. intros. unfold data_of. by rewrite lookup_insert_ne. Qed.

Lemma map_data_insert (data : gmap nat (list Z)) n d l : n ∉ l ->
  map (data_of (<[n := d]> data)) l = map (data_of data) l.
Proof. intros H. apply map_ext_in. intros a Ha%list_elem_of_In. apply data_of_insert. by intros ->. Qed.

Lemma sorted_insert data n Buffer l1 l2 : n ∉ l1 ++ l2 -> sorted data (l1 ++ l2) ->
  below data Buffer l1 -> above data Buffer l2 -> sorted (<[n := Buffer]> data) (l1 ++ n :: l2).
Proof.
  intros [Hn1 Hn2]%not_elem_of_app (H1 & H2 & H12)%sorted_app Hlo Hhi.
  assert (Dn : data_of (<[n := Buffer]> data) n = Buffer) by (unfold data_of; by rewrite lookup_insert_eq).
  unfold sorted in *. rewrite map_app. simpl. rewrite Dn, !map_data_insert by done.
  apply StronglySorted_app. split_and!; [|done|apply StronglySorted_cons; split; [by apply (Forall_map (data_of data))|done]].
  intros x y (a & -> & Ha)%list_elem_of_fmap [->|(b & -> & Hb)%list_elem_of_fmap]%elem_of_cons.
  - by eapply Forall_forall in Hlo.
  - by apply H12.
Qed.

(** A table with one more node at a position of its tree. *)
Lemma insert_new_ok tbl k n r p Buffer : table_ok tbl (plug k Leaf) ->
  nodes tbl !! n = None -> n <> 0%nat -> Z.of_nat (length (addrs (plug k Leaf))) + 1 < 2 ^ 32 ->
  (r = TableEmptyTree /\ k = [] \/
   r = (match hole_side k with L => TableInsertAsLeft | R => TableInsertAsRight end) /\ p = parent_of k /\ k <> []) ->
  below (UserData tbl) Buffer (ctx_left k) -> above (UserData tbl) Buffer (ctx_right k) ->
  exists tbl' t', RtlInsertElementGenericTableFullAvl tbl Buffer n p r = Ok (tbl', n, true) /\
    table_ok tbl' t' /\ addrs t' = ctx_left k ++ n :: ctx_right k /\
    UserData tbl' = <[n := Buffer]> (UserData tbl).
Proof.
  intros [[rb Hs] Ha Hc Hd Hdata Hsort] Hn Hn0 Hlen Hr Hlo Hhi.
  apply shape_plug in Hs. unfold RtlInsertElementGenericTableFullAvl.
  rewrite decide_True by (destruct Hr as [[-> _]|[-> _]]; [|destruct (hole_side k)]; done).
  destruct (Nat.eqb_spec n 0); [done|]. unfold RtlpInsertAvlTreeNode.
  cbn [nodes UserData NumberGenericTableElements DepthOfTree].
  destruct (attach_ok _ _ _ _ Hs Hn Hn0) as (h1 & h2 & h3 & h4 & -> & E2 & E3 & E4 & Hs4 & D4).
  rewrite bind_ok, E2, bind_ok, E3, bind_ok. cbv zeta.
  assert (Hnin : n ∉ ctx_left k ++ ctx_right k).
  { intros Hin. apply not_elem_of_dom in Hn. apply Hn. eapply (shape_dom _ rb (plug k Leaf)); [by apply (proj1 (shape_plug _ _ _ _))|].
    rewrite addrs_plug_app. simpl. by right. }
  assert (Hfin : forall h' rb' t' depth, shape h' rb' [] t' -> avl t' -> depth = Z.of_nat (height t') ->
    addrs t' = ctx_left k ++ n :: ctx_right k ->
    table_ok (Table h' (<[n := Buffer]> (UserData tbl)) (u32 (NumberGenericTableElements tbl + 1)) depth) t').
  { intros h' rb' t' depth H1 H2 H3 H4. rewrite addrs_plug_app in *. simpl in *. split; simpl; [by exists rb'|done| |done|..].
    - rewrite H4, Hc, u32_small by lia. rewrite !length_app. simpl. lia.
    - intros a. rewrite H4. intros Hin. destruct (decide (a = n)) as [->|]; [by rewrite lookup_insert_eq|].
      rewrite lookup_insert_ne by done. apply Hdata. set_solver.
    - rewrite H4. by apply sorted_insert. }
  destruct Hr as [[-> ->]|(Hr & -> & Hk)].
  - rewrite decide_True by done. simpl in E4. rewrite E4, bind_ok. eexists _, _. split; [done|].
    split; [eapply Hfin; [exact Hs4|by simpl|done|done]|done].
  - rewrite decide_False by (rewrite Hr; by destruct (hole_side k)).
    replace (if decide (r = TableInsertAsLeft) then L else R) with (hole_side k)
      by (rewrite Hr; by destruct (hole_side k)).
    rewrite E4, bind_ok.
    destruct (set_root_balance_ok _ _ _ _ RtlLeftHeavyAvlTree Hs4) as (h5 & -> & Hs5 & D5). rewrite bind_ok.
    apply avl_unplug in Ha as [Hctx _].
    destruct (insert_loop_ok k (S (size h5)) h5 (Node n 0 Leaf Leaf) 0 (DepthOfTree tbl))
      as (h' & rb' & t' & grew & El & Hs' & Ha' & Ead & D' & Hh); try done; try by left.
    { pose proof (ctx_length k Leaf). pose proof (shape_size _ _ _ (proj1 (shape_plug _ _ _ _) Hs)).
      assert (size (nodes tbl) <= size h5)%nat; [|lia]. rewrite <- !size_dom. apply subseteq_size. set_solver. }
    cbn [ptr_of] in El. rewrite El, bind_ok. eexists _, t'. split; [done|]. split_and!; [|by rewrite Ead, addrs_plug_app|done].
    eapply Hfin; [exact Hs'|done| |by rewrite Ead, addrs_plug_app].
    rewrite Hh, Hd, height_plug_eq. simpl. destruct grew; [|f_equal; lia]. rewrite u32_small; [lia|].
    pose proof (height_addrs (plug k Leaf)) as Hle. rewrite height_plug_eq in Hle. simpl in Hle. lia.
Qed.

(** A lookup followed by an insertion with its results. *)
Lemma lookup_insert_ok tbl l Buffer alloc old :
  represents tbl l -> Z.of_nat (length l) + 1 < 2 ^ 32 -> nodes tbl !! alloc = None ->
  exists tbl' n new, lookup_insert cmp tbl Buffer alloc old = Ok (tbl', n, new) /\
    ((new = false /\ tbl' = tbl /\
        exists x, UserData tbl !! n = Some x /\ x ∈ l /\ cmp Buffer x = GenericEqual) \/
     ((forall x, x ∈ l -> cmp Buffer x <> GenericEqual) /\
       (new = false /\ tbl' = tbl /\ n = 0%nat /\ alloc = 0%nat \/
        new = true /\ n = alloc /\ UserData tbl' = <[alloc := Buffer]> (UserData tbl) /\
        exists l1 l2, l = l1 ++ l2 /\ represents tbl' (l1 ++ Buffer :: l2)))).
Proof.
  intros (t & Ht & <-) Hlen Halloc. unfold lookup_insert, RtlLookupElementGenericTableFullAvl. rewrite length_map in Hlen.
  destruct (find_ok tbl t Buffer old Ht) as [(a & -> & Hin & Heq)|(k & r & p & -> & <- & Hr & Hlo & Hhi)]; rewrite bind_ok.
  - exists tbl, a, false. split; [done|]. left. split_and!; [done..|].
    destruct (tok_data _ _ Ht a Hin) as [x Hx]. exists x. unfold data_of in Heq. rewrite Hx in Heq.
    split_and!; [done| |done]. apply list_elem_of_fmap. exists a. unfold data_of. by rewrite Hx.
  - assert (Hr' : r <> TableFoundNode) by (destruct Hr as [[-> _]|[-> _]]; [|destruct (hole_side k)]; done).
    rewrite decide_True, bind_ok by done. destruct (Nat.eq_dec alloc 0%nat) as [->|Ha0].
    + exists tbl, 0%nat, false. unfold RtlInsertElementGenericTableFullAvl. rewrite decide_True by done.
      split; [done|]. right. split; [intros x; by apply no_equal_element|by left].
    + destruct (insert_new_ok tbl k alloc r p Buffer Ht Halloc Ha0 Hlen Hr Hlo Hhi) as (tbl' & t' & -> & Ht' & Ead & Ed).
      exists tbl', alloc, true. split; [done|]. right. split; [intros x; by apply no_equal_element|]. right. split_and!; [done..|].
      exists (map (data_of (UserData tbl)) (ctx_left k)), (map (data_of (UserData tbl)) (ctx_right k)).
      split; [rewrite addrs_plug_app; simpl; by rewrite map_app|]. exists t'. split; [done|].
      assert (Hnin : alloc ∉ ctx_left k ++ ctx_right k).
      { intros Hin. apply not_elem_of_dom in Halloc. apply Halloc. destruct (tok_shape _ _ Ht) as [rb Hs].
        eapply shape_dom; [exact Hs|]. rewrite addrs_plug_app. by right. }
      apply not_elem_of_app in Hnin as [??]. rewrite Ead, Ed, map_app. simpl.
      rewrite !map_data_insert by done. unfold data_of at 2. by rewrite lookup_insert_eq.
Qed.

(** C7. A lookup followed by an insertion with its results keeps the table
    a balanced search tree.  An element that compares equal is returned and
    nothing is changed; a failed allocation changes nothing; otherwise the new
    element is inserted at its place in the sorted list. *)
Theorem lookup_insert_refines tbl l Buffer alloc old :
  represents tbl l -> Z.of_nat (length l) + 1 < 2 ^ 32 -> nodes tbl !! alloc = None ->
  exists tbl' n new, lookup_insert cmp tbl Buffer alloc old = Ok (tbl', n, new) /\
    ((new = false /\ tbl' = tbl /\
        exists x, UserData tbl !! n = Some x /\ x ∈ l /\ cmp Buffer x = GenericEqual) \/
     ((forall x, x ∈ l -> cmp Buffer x <> GenericEqual) /\
       (new = false /\ tbl' = tbl /\ n = 0%nat /\ alloc = 0%nat \/
        new = true /\ n = alloc /\ UserData tbl' = <[alloc := Buffer]> (UserData tbl) /\
        exists l1 l2, l = l1 ++ l2 /\ represents tbl' (l1 ++ Buffer :: l2)))).
Proof. apply lookup_insert_ok. Qed.

(** The squares of the sizes of the subtrees bound the square of the size. *)
Lemma square_step x m n : 0 <= x -> 0 <= m -> 0 <= n -> 2 * x <= m * m -> x <= n * n -> 4 * x <= (m + n) * (m + n).
Proof.
  intros. assert (x <= m * n); [|nia].
  apply Z.square_le_simpl_nonneg; [nia|]. assert (2 * x * x <= (m * m) * (n * n)) by (apply Z.mul_le_mono_nonneg; lia). nia.
Qed.

Lemma avl_size t : avl t -> 2 ^ Z.of_nat (height t) <= (Z.of_nat (length (addrs t)) + 1) ^ 2.
Proof.
  induction t as [|a b l IHl r IHr]; [done|]. simpl height. simpl addrs. intros (Hb & Hr & Hl%IHl & Hrr%IHr).
  rewrite length_app. simpl length. rewrite !Z.pow_2_r in *.
  set (m := Z.of_nat (length (addrs l)) + 1) in *. set (n := Z.of_nat (length (addrs r)) + 1) in *.
  assert (Hm : 0 <= m) by lia. assert (Hn : 0 <= n) by lia.
  replace (Z.of_nat (length (addrs l) + S (length (addrs r))) + 1) with (m + n) by lia. clearbody m n.
  rewrite Nat2Z.inj_succ, Z.pow_succ_r by lia.
  assert (E : (height l = height r \/ height l = S (height r) \/ height r = S (height l))%nat) by lia.
  destruct E as [E|[E|E]]; rewrite E in *;
    [rewrite Nat.max_id|rewrite Nat.max_l by lia|rewrite Nat.max_r by lia];
    rewrite ?Nat2Z.inj_succ, ?Z.pow_succ_r in * by lia.
  - assert (0 <= m * n) by nia. nia.
  - pose proof (square_step (2 ^ Z.of_nat (height r)) m n). lia.
  - pose proof (square_step (2 ^ Z.of_nat (height l)) n m). rewrite (Z.add_comm m n). lia.
Qed.

Lemma find_loop_mono h data Buffer : forall fuel fuel' n r, (fuel <= fuel')%nat ->
  find_loop cmp fuel h data Buffer n = Ok r -> find_loop cmp fuel' h data Buffer n = Ok r.
Proof.
  induction fuel as [|fuel IH]; intros fuel' n r Hf; [done|]. destruct fuel' as [|fuel']; [lia|].
  cbn [find_loop]. intros (d & -> & H)%bind_Ok_inv. rewrite bind_ok.
  destruct (cmp Buffer d); [| |done]; apply bind_Ok_inv in H as (c & -> & H); rewrite bind_ok;
    (destruct (c =? 0)%nat; [done|]); apply IH; [lia|done|lia|done].
Qed.

(** [DepthOfTree] turns of the loop give the result of the search. *)
Lemma search_depth tbl l Buffer old : represents tbl l -> l <> [] ->
  exists root r, RtlRightChildAvl (nodes tbl) BalancedRoot = Ok root /\
    find_loop cmp (Z.to_nat (DepthOfTree tbl)) (nodes tbl) (UserData tbl) Buffer root = Ok r /\
    RtlpFindAvlTableNodeOrParent cmp tbl Buffer old = Ok r.
Proof.
  intros (t & Ht & <-) Hl. destruct Ht as [[rb Hs] Ha Hc Hd Hdata Hsort].
  assert (Ht : t <> Leaf) by (intros ->; done).
  unfold RtlpFindAvlTableNodeOrParent. rewrite (proj2 (Z.eqb_neq _ _)).
  2: { rewrite Hc. destruct t; [done|]. simpl. rewrite length_app. simpl. lia. }
  unfold RtlRightChildAvl, ld_slot. cbn [fst snd]. rewrite (ld_ok _ _ _ (shape_ctx _ _ _ _ Hs)), !bind_ok.
  assert (E : exists r, find_loop cmp (height t) (nodes tbl) (UserData tbl) Buffer (ptr_of t) = Ok r).
  { destruct (find_loop_ok (UserData tbl) Buffer (nodes tbl) rb t [] (height t))
      as [(a & -> & _)|(s & a & b & u & k & -> & _)]; eauto; by apply Forall_nil. }
  destruct E as [r E]. exists (ptr_of t), r. split; [done|]. rewrite Hd, Nat2Z.id. split; [done|].
  eapply find_loop_mono; [|exact E]. pose proof (shape_size _ _ _ Hs). pose proof (height_addrs t). lia.
Qed.

Lemma represents_empty : represents empty_table [].
Proof.
  exists Leaf. split; [|done]. split; try done.
  - exists 0. split; [done|done|]. by apply NoDup_singleton.
  - intros a Ha. by apply elem_of_nil in Ha.
  - constructor.
Qed.

(** The tables that lookups with insertions make from an empty one; the
    allocation routine returns blocks that are not in use, or fails. *)
Inductive built : RTL_AVL_TABLE -> Prop :=
| built_empty : built empty_table
| built_insert tbl Buffer alloc old tbl' n new :
    built tbl -> nodes tbl !! alloc = None -> NumberGenericTableElements tbl + 1 < 2 ^ 32 ->
    lookup_insert cmp tbl Buffer alloc old = Ok (tbl', n, new) -> built tbl'.

Lemma represents_count tbl l : represents tbl l -> NumberGenericTableElements tbl = Z.of_nat (length l).
Proof. intros (t & Ht & <-). by rewrite (tok_count _ _ Ht), length_map. Qed.

Lemma built_represents tbl : built tbl -> exists l, represents tbl l.
Proof.
  induction 1 as [|tbl Buffer alloc old tbl' n new _ [l Hl] Ha Hc E]; [exists []; apply represents_empty|].
  rewrite (represents_count tbl l) in Hc by done.
  destruct (lookup_insert_ok tbl l Buffer alloc old Hl Hc Ha) as (tbl1 & n1 & new1 & E' & H). rewrite E' in E. injection E as -> -> ->.
  destruct H as [(_ & -> & _)|(_ & [(_ & -> & _)|(_ & _ & _ & l1 & l2 & _ & H)])]; eauto.
Qed.

(** C24. However a table has been filled, by lookups with insertions in any
    order, a search in it returns after at most [DepthOfTree] comparisons,
    and [DepthOfTree] is at most twice the binary logarithm of the number of
    its elements plus one: the rotations and the count of the depth are
    right for every sequence of insertions. *)
Theorem search_logarithmic tbl Buffer old : built tbl ->
  let n := NumberGenericTableElements tbl in n <> 0 ->
  0 <= DepthOfTree tbl /\ 2 ^ DepthOfTree tbl <= (n + 1) ^ 2 /\
  exists root r, RtlRightChildAvl (nodes tbl) BalancedRoot = Ok root /\
    find_loop cmp (Z.to_nat (DepthOfTree tbl)) (nodes tbl) (UserData tbl) Buffer root = Ok r /\
    RtlpFindAvlTableNodeOrParent cmp tbl Buffer old = Ok r.
Proof.
  intros [l Hl]%built_represents n Hn. subst n. pose proof Hl as (t & Ht & _).
  rewrite (tok_depth _ _ Ht) at 1 2. rewrite (tok_count _ _ Ht). split_and!; [lia|apply avl_size, (tok_avl _ _ Ht)|].
  apply (search_depth tbl l Buffer old Hl). intros ->. by rewrite (represents_count tbl []) in Hn.
Qed.

End Tables.

(** ** Witnesses: a table of three elements ordered by their first byte *)
Definition compare_first (x y : list Z) : RTL_GENERIC_COMPARE_RESULTS :=
  let a := default 0 (head x) in let b := default 0 (head y) in
  if a <? b then GenericLessThan else if b <? a then GenericGreaterThan else GenericEqual.

#[global] Instance compare_first_laws : CompareLaws compare_first.
Proof.
  split; unfold compare_first; intros x y; [intros z|]; repeat zcase; try done; try lia.
Qed.

Definition insert_all (l : list Z) : outcome RTL_AVL_TABLE :=
  foldl (fun tbl x => tbl ← tbl; '(tbl, _, _) ← lookup_insert compare_first tbl [x] (Z.to_nat x + 10) 0; Ok tbl)
    (Ok empty_table) l.

Definition table3 : RTL_AVL_TABLE := match insert_all [1; 2; 3] with Ok tbl => tbl | _ => empty_table end.

(** The third insertion has rotated the tree. *)
Lemma table3_represents : represents compare_first table3 [[1]; [2]; [3]].
Proof.
  exists (Node 12 0 (Node 11 0 Leaf Leaf) (Node 13 0 Leaf Leaf)). split; [|reflexivity]. split; try reflexivity.
  - exists (-1). split.
    + simpl. repeat split; try lia; reflexivity.
    + reflexivity.
    + by apply (bool_decide_unpack _).
  - simpl. repeat split; lia.
  - intros a Ha. simpl in Ha. repeat (apply elem_of_cons in Ha as [->|Ha]); [eexists; reflexivity..|].
    by apply elem_of_nil in Ha.
  - repeat constructor.
Qed.

Lemma RtlLookupElementGenericTableFullAvl_finds_witness :
  represents compare_first table3 [[1]; [2]; [3]] /\
  exists n r p, RtlLookupElementGenericTableFullAvl compare_first table3 [2] 0 = Ok (n, r, p) /\
    ((exists x, r = TableFoundNode /\ p = n /\ UserData table3 !! n = Some x /\ x ∈ [[1]; [2]; [3]] /\
        compare_first [2] x = GenericEqual) \/
     (n = 0%nat /\ r <> TableFoundNode /\ forall x, x ∈ [[1]; [2]; [3]] -> compare_first [2] x <> GenericEqual)).
Proof.
  split; [exact table3_represents|].
  exact (RtlLookupElementGenericTableFullAvl_finds compare_first table3 _ [2] 0 table3_represents).
Defined.

Lemma lookup_insert_refines_witness :
  Z.of_nat (length [[1]; [2]; [3]]) + 1 < 2 ^ 32 /\ nodes table3 !! 14%nat = None /\
  exists tbl' n new, lookup_insert compare_first table3 [4] 14 0 = Ok (tbl', n, new).
Proof.
  assert (Hl : Z.of_nat (length [[1]; [2]; [3]]) + 1 < 2 ^ 32) by (simpl; lia).
  assert (Hn : nodes table3 !! 14%nat = None) by reflexivity. split_and!; [exact Hl|exact Hn|].
  destruct (lookup_insert_refines compare_first table3 _ [4] 14 0 table3_represents Hl Hn) as (tbl' & n & new & H & _).
  exists tbl', n, new. exact H.
Defined.

Definition table_of (l : list Z) : RTL_AVL_TABLE := match insert_all l with Ok tbl => tbl | _ => empty_table end.

Lemma table3_built : built compare_first table3.
Proof.
  change table3 with (table_of [1; 2; 3]).
  apply (built_insert compare_first (table_of [1; 2]) [3] 13 0 _ 13%nat true); [|vm_compute; reflexivity..].
  apply (built_insert compare_first (table_of [1]) [2] 12 0 _ 12%nat true); [|vm_compute; reflexivity..].
  apply (built_insert compare_first empty_table [1] 11 0 _ 11%nat true); [apply built_empty|vm_compute; reflexivity..].
Qed.

Lemma search_logarithmic_witness :
  built compare_first table3 /\ 0 <= DepthOfTree table3 /\ exists r, RtlpFindAvlTableNodeOrParent compare_first table3 [3] 0 = Ok r.
Proof.
  split; [exact table3_built|]. destruct (search_logarithmic compare_first table3 [3] 0 table3_built) as (H & _ & root & r & _ & _ & E);
    [vm_compute; discriminate|]. split; [exact H|exists r; exact E].
Defined.

End AvlTable.
