(* ===== verification/Srw.v ===== *)
(** * Slim reader/writer locks (oca/extensions/ntext/rtl/synch.c)

    The lock is one word.  Without [SRWF_Wait] it holds the number of shared
    owners above its four flag bits, 0 for an exclusive owner; with
    [SRWF_Wait] it holds the address of the wait node that was queued last,
    in the stack frame of a thread inside RtlAcquireSRWLockExclusive or
    RtlAcquireSRWLockShared.  Nodes are linked by [prev] from the last to the
    first; the thread that has set [SRWF_Link] fills in [next] and the
    shortcut [head] to the first node.

    Threads run interleaved; a step is one access to the word or to a field
    of a wait node. *)
From S2P Require Import Prelude.

Module Srw.

Definition SRWF_Hold : Z := 1.
Definition SRWF_Wait : Z := 2.
Definition SRWF_Link : Z := 4.
Definition SRWF_Many : Z := 8.
Definition SRWM_ITEM : Z := 0xFFFFFFF0.
Definition SRW_COUNT : Z := Z.shiftl 1 4.    (* 1 << SRW_COUNT_BIT *)
Definition NODEF_EXCL : Z := 1.
Definition NODEF_SPIN : Z := 2.

Definition has (w flag : Z) : bool := negb (Z.land w flag =? 0).
Definition item (w : Z) : Z := Z.land w SRWM_ITEM.

(** SRW_WAIT_NODE *)
Record node := Node { prev : Z; head : Z; next : Z; shareSnapshot : Z; flags : Z }.

Inductive kind := Exclusive | Shared.

(** Where RtlpSrwWake and RtlpSrwCompressQueue return to: the end of a
    release, or the wait of a thread that has queued its node. *)
Inductive kont := Return | Park (k : kind) (old : Z).

(** The places where a thread can be interrupted. *)
Inductive pc : Type :=
| Idle
(* RtlAcquireSRWLockExclusive and RtlAcquireSRWLockShared *)
| Start (k : kind)                            (* the first interlocked operation *)
| Read (k : kind)                             (* OldStatus = SRWLock->Ptr *)
| Loop (k : kind) (old : Z)                   (* while (1) *)
| Enq (k : kind) (old new : Z) (opt : bool)   (* exchange of [old] for [new] *)
| Wait (k : kind) (old : Z)                   (* InterlockedBitTestAndReset( &node.flags ) *)
| Keyed (k : kind) (old : Z)                  (* NtWaitForKeyedEvent( &node ) *)
| Own (k : kind)                              (* has the lock *)
(* RtlTryAcquireSRWLockExclusive and RtlTryAcquireSRWLockShared *)
| TryExclusive
| TryShared
| TryRead
| TryLoop (old : Z)
(* RtlReleaseSRWLockExclusive *)
| ExCas (old : Z)
(* RtlReleaseSRWLockShared *)
| ShCas (old : Z)                             (* do ... while *)
| ShWalk (old curr : Z)                       (* curr->head == NULL *)
| ShPrev (old curr : Z)                       (* curr = curr->prev *)
| ShHead (old curr : Z)                       (* curr = curr->head *)
| ShDec (old curr : Z)                        (* InterlockedDecrement( &curr->shareSnapshot ) *)
| ShClear (old : Z)                           (* while (1) *)
(* RtlpSrwCompressQueue *)
| CompLoop (old : Z) (c : kont)
| CompWalk (old tail curr : Z) (c : kont)     (* curr->head == NULL *)
| CompLink (old tail curr : Z) (c : kont)     (* curr->prev->next = curr *)
| CompSet (old tail curr : Z) (c : kont)      (* tail->head = curr->head *)
| CompCas (old : Z) (c : kont)
(* RtlpSrwWake *)
| WakeLoop (old : Z) (c : kont)
| WakeLink (old tail curr : Z) (c : kont)     (* curr->prev->next = curr *)
| WakeHead (old tail curr : Z) (c : kont)     (* first = curr->head *)
| WakeSet (old tail first : Z) (c : kont)     (* tail->head = first *)
| WakeFirst (old tail first : Z) (c : kont)   (* tests of [first] *)
| WakeDeq (tail first : Z) (c : kont)         (* tail->head = first->next *)
| WakeCut (first : Z) (c : kont)              (* first->next = NULL *)
| WakeUnlink (first : Z) (c : kont)           (* InterlockedAndPointer *)
| WakeAll (old tail first : Z) (c : kont)     (* exchange of [old] for NULL *)
| WakeBack (old tail first : Z) (c : kont)    (* tail->head = first *)
| WakeNext (first : Z) (c : kont)             (* next = first->next *)
| WakeBtr (first nxt : Z) (c : kont)          (* InterlockedBitTestAndReset( &first->flags ) *)
| WakeKey (first nxt : Z) (c : kont).         (* NtReleaseKeyedEvent( first ) *)

Record state := State { word : Z; nodes : list node; pcs : list pc }.

(** The address of the node of a thread: a multiple of 16. *)
Definition addr (t : nat) : Z := 16 * (Z.of_nat t + 1).

Definition thread_at (a : Z) : nat := Z.to_nat (a / 16 - 1).

(** The thread is inside one of the functions whose frame holds a node. *)
Definition parks (c : kont) : bool := match c with Return => false | Park _ _ => true end.

Definition in_acquire (p : pc) : bool :=
  match p with
  | Start _ | Read _ | Loop _ _ | Enq _ _ _ _ | Wait _ _ | Keyed _ _ => true
  | CompLoop _ c | CompWalk _ _ _ c | CompLink _ _ _ c | CompSet _ _ _ c | CompCas _ c
  | WakeLoop _ c | WakeLink _ _ _ c | WakeHead _ _ _ c | WakeSet _ _ _ c | WakeFirst _ _ _ c
  | WakeDeq _ _ c | WakeCut _ c | WakeUnlink _ c | WakeAll _ _ _ c | WakeBack _ _ _ c
  | WakeNext _ c | WakeBtr _ _ c | WakeKey _ _ c => parks c
  | _ => false
  end.

(** The thread whose node is at address [a]: a fault unless its frame is
    there. *)
Definition deref (st : state) (a : Z) : outcome nat :=
  let u := thread_at a in
  if (a =? addr u) && match pcs st !! u with Some p => in_acquire p | None => false end
  then Ok u else Fault.

Definition load (st : state) (a : Z) : outcome node :=
  u ← deref st a; match nodes st !! u with Some n => Ok n | None => Fault end.

Definition store (st : state) (a : Z) (f : node -> node) : outcome state :=
  u ← deref st a;
  match nodes st !! u with Some n => Ok (State (word st) (<[u := f n]> (nodes st)) (pcs st)) | None => Fault end.

Definition set_head (v : Z) (n : node) : node := Node (prev n) v (next n) (shareSnapshot n) (flags n).
Definition set_next (v : Z) (n : node) : node := Node (prev n) (head n) v (shareSnapshot n) (flags n).
Definition set_share (v : Z) (n : node) : node := Node (prev n) (head n) (next n) v (flags n).
Definition set_flags (v : Z) (n : node) : node := Node (prev n) (head n) (next n) (shareSnapshot n) v.

Definition go (st : state) (t : nat) (p : pc) : state := State (word st) (nodes st) (<[t := p]> (pcs st)).

Definition set_word (st : state) (w : Z) : state := State w (nodes st) (pcs st).

(** [InterlockedCompareExchangePointer( &SRWLock->Ptr, new, old )] by a thread
    that goes on at [yes], or at [no] with the current word. *)
Definition cas (st : state) (t : nat) (old new : Z) (yes : pc) (no : Z -> pc) : state :=
  if word st =? old then go (set_word st new) t yes else go st t (no (word st)).

Definition resume (c : kont) : pc := match c with Return => Idle | Park k old => Wait k old end.

(** [RtlpInterlockedBit0SetPointer] *)
Definition bit0_set (st : state) (t : nat) (was_set was_clear : pc) : state :=
  go (set_word st (Z.lor (word st) SRWF_Hold)) t (if has (word st) SRWF_Hold then was_set else was_clear).

(** [InterlockedBitTestAndReset( &node.flags, NODE_SPIN_BIT )]: the old bit. *)
Definition spin_reset (st : state) (a : Z) : outcome (bool * state) :=
  n ← load st a;
  st ← store st a (set_flags (Z.ldiff (flags n) NODEF_SPIN));
  Ok (has (flags n) NODEF_SPIN, st).

(** ** RtlAcquireSRWLockExclusive and RtlAcquireSRWLockShared *)

(** The lock can not be had now. *)
Definition must_wait (k : kind) (old : Z) : bool :=
  match k with
  | Exclusive => has old SRWF_Hold
  | Shared => has old SRWF_Hold && (has old SRWF_Wait || (item old =? 0))
  end.

(** The node that is queued, from the fields it had. *)
Definition queue_node (k : kind) (t : nat) (old : Z) (n : node) : node :=
  let fl := match k with Exclusive => Z.lor NODEF_EXCL NODEF_SPIN | Shared => NODEF_SPIN end in
  if has old SRWF_Wait then Node (item old) 0 0 0 fl
  else Node (prev n) (addr t) 0 (match k with Exclusive => Z.shiftr old 4 | Shared => 0 end) fl.

(** The new word, and whether the queue is to be compressed. *)
Definition queue_word (k : kind) (t : nat) (old : Z) : Z * bool :=
  if has old SRWF_Wait then
    (match k with
     | Exclusive => Z.lor (Z.lor (addr t) (Z.land old SRWF_Many)) (Z.lor (Z.lor SRWF_Link SRWF_Wait) SRWF_Hold)
     | Shared => Z.lor (Z.lor (addr t) (Z.land old (Z.lor SRWF_Many SRWF_Hold))) (Z.lor SRWF_Link SRWF_Wait)
     end, negb (has old SRWF_Link))
  else
    (match k with
     | Exclusive => if 1 <? Z.shiftr old 4 then Z.lor (addr t) (Z.lor (Z.lor SRWF_Many SRWF_Wait) SRWF_Hold)
                    else Z.lor (addr t) (Z.lor SRWF_Wait SRWF_Hold)
     | Shared => Z.lor (addr t) (Z.lor SRWF_Wait SRWF_Hold)
     end, false).

(** The word of a thread that takes the lock. *)
Definition take_word (k : kind) (old : Z) : Z :=
  match k with
  | Exclusive => old + SRWF_Hold
  | Shared => if has old SRWF_Wait then old + SRWF_Hold else Z.lor (old + SRW_COUNT) SRWF_Hold
  end.

Definition acquire_start (st : state) (t : nat) (k : kind) : state :=
  match k with
  | Exclusive => bit0_set st t (Read Exclusive) (Own Exclusive)
  | Shared => cas st t 0 (Z.lor SRW_COUNT SRWF_Hold) (Own Shared) (Loop Shared)
  end.

Definition acquire_loop (st : state) (t : nat) (k : kind) (old : Z) : outcome state :=
  if must_wait k old then
    st ← store st (addr t) (queue_node k t old);
    Ok (go st t (Enq k old (queue_word k t old).1 (queue_word k t old).2))
  else Ok (cas st t old (take_word k old) (Own k) (fun _ => Read k)).

Definition wait_step (st : state) (t : nat) (k : kind) (old : Z) : outcome state :=
  '(was_set, st) ← spin_reset st (addr t);
  Ok (go st t (if was_set : bool then Keyed k old else Loop k old)).

(** ** RtlReleaseSRWLockExclusive and RtlReleaseSRWLockShared *)
Definition release_exclusive (st : state) (t : nat) : state :=
  let old := word st in
  go (set_word st (u32 (old - SRWF_Hold))) t
    (if has old SRWF_Wait && negb (has old SRWF_Link) then ExCas (old - SRWF_Hold) else Idle).

Definition shared_count_word (old : Z) : Z := if item old <=? SRW_COUNT then 0 else old - SRW_COUNT.

Definition release_shared_loop (st : state) (t : nat) (old : Z) : state :=
  if negb (has old SRWF_Wait) then cas st t old (shared_count_word old) Idle ShCas
  else go st t (if has old SRWF_Many then ShWalk old (item old) else ShClear old).

Definition release_shared_dec (st : state) (t : nat) (old curr : Z) : outcome state :=
  n ← load st curr;
  let count := u32 (shareSnapshot n - 1) in
  st ← store st curr (set_share count);
  Ok (go st t (if 0 <? count then Idle else ShClear old)).

Definition release_shared_clear (st : state) (t : nat) (old : Z) : state :=
  let new := Z.ldiff old (Z.lor SRWF_Many SRWF_Hold) in
  if has old SRWF_Link then cas st t old new Idle ShClear
  else cas st t old (Z.lor new SRWF_Link) (WakeLoop (Z.lor new SRWF_Link) Return) ShClear.

(** ** RtlTryAcquireSRWLockShared *)
Definition try_word (old : Z) : Z :=
  if has old SRWF_Wait then old + SRWF_Hold else old + SRW_COUNT.

Definition try_loop (st : state) (t : nat) (old : Z) : state :=
  if must_wait Shared old then go st t Idle
  else cas st t old (try_word old) (Own Shared) (fun _ => TryRead).

(** ** RtlpSrwCompressQueue *)
Definition compress_loop (st : state) (t : nat) (old : Z) (c : kont) : state :=
  go st t (if has old SRWF_Hold then
             if item old =? 0 then CompCas old c else CompWalk old (item old) (item old) c
           else WakeLoop old c).

(** [curr->prev->next = curr] *)
Definition link_prev (st : state) (curr : Z) : outcome (Z * state) :=
  n ← load st curr; st ← store st (prev n) (set_next curr); Ok (prev n, st).

(** ** RtlpSrwWake *)
Definition wake_loop (st : state) (t : nat) (old : Z) (c : kont) : outcome state :=
  if has old SRWF_Hold then Ok (cas st t old (old - SRWF_Link) (resume c) (fun w => WakeLoop w c))
  else
    let tail := item old in
    n ← load st tail;
    Ok (go st t (if head n =? 0 then WakeLink old tail tail c else WakeFirst old tail (head n) c)).

Definition wake_first (st : state) (t : nat) (old tail first : Z) (c : kont) : outcome state :=
  n ← load st first;
  Ok (go st t (if negb (next n =? 0) && has (flags n) NODEF_EXCL then WakeDeq tail first c
               else WakeAll old tail first c)).

(** The loop that releases the nodes that were removed. *)
Definition wake_rest (nxt : Z) (c : kont) : pc := if nxt =? 0 then resume c else WakeNext nxt c.

Definition wake_btr (st : state) (t : nat) (first nxt : Z) (c : kont) : outcome state :=
  '(was_set, st) ← spin_reset st first;
  Ok (go st t (if was_set : bool then wake_rest nxt c else WakeKey first nxt c)).

(** ** Steps *)

(** The thread is outside the functions, or waits at a keyed event. *)
Definition blocked (p : pc) : bool :=
  match p with Idle | Keyed _ _ | WakeKey _ _ _ => true | _ => false end.

(** The access of thread [t] at [p]. *)
Definition access (st : state) (t : nat) (p : pc) : outcome state :=
  match p with
  | Start k => Ok (acquire_start st t k)
  | Read k => Ok (go st t (Loop k (word st)))
  | Loop k old => acquire_loop st t k old
  | Enq k old new opt =>
      Ok (cas st t old new (if opt then CompLoop new (Park k old) else Wait k old) (fun _ => Read k))
  | Wait k old => wait_step st t k old
  | Own Exclusive => Ok (release_exclusive st t)
  | Own Shared => Ok (cas st t (Z.lor SRW_COUNT SRWF_Hold) 0 Idle ShCas)
  | TryExclusive => Ok (bit0_set st t Idle (Own Exclusive))
  | TryShared => Ok (cas st t 0 (Z.lor SRW_COUNT SRWF_Hold) (Own Shared) TryLoop)
  | TryRead => Ok (go st t (TryLoop (word st)))
  | TryLoop old => Ok (try_loop st t old)
  | ExCas old => Ok (cas st t old (old + SRWF_Link) (WakeLoop (old + SRWF_Link) Return) (fun _ => Idle))
  | ShCas old => Ok (release_shared_loop st t old)
  | ShWalk old curr =>
      n ← load st curr; Ok (go st t (if head n =? 0 then ShPrev old curr else ShHead old curr))
  | ShPrev old curr => n ← load st curr; Ok (go st t (ShWalk old (prev n)))
  | ShHead old curr => n ← load st curr; Ok (go st t (ShDec old (head n)))
  | ShDec old curr => release_shared_dec st t old curr
  | ShClear old => Ok (release_shared_clear st t old)
  | CompLoop old c => Ok (compress_loop st t old c)
  | CompWalk old tail curr c =>
      n ← load st curr;
      Ok (go st t (if head n =? 0 then CompLink old tail curr c else CompSet old tail curr c))
  | CompLink old tail curr c =>
      '(p, st) ← link_prev st curr; Ok (go st t (CompWalk old tail p c))
  | CompSet old tail curr c =>
      n ← load st curr; st ← store st tail (set_head (head n)); Ok (go st t (CompCas old c))
  | CompCas old c => Ok (cas st t old (old - SRWF_Link) (resume c) (fun w => CompLoop w c))
  | WakeLoop old c => wake_loop st t old c
  | WakeLink old tail curr c =>
      '(p, st) ← link_prev st curr; Ok (go st t (WakeHead old tail p c))
  | WakeHead old tail curr c =>
      n ← load st curr;
      Ok (go st t (if head n =? 0 then WakeLink old tail curr c
                   else if tail =? curr then WakeFirst old tail (head n) c
                   else WakeSet old tail (head n) c))
  | WakeSet old tail first c =>
      st ← store st tail (set_head first); Ok (go st t (WakeFirst old tail first c))
  | WakeFirst old tail first c => wake_first st t old tail first c
  | WakeDeq tail first c =>
      n ← load st first; st ← store st tail (set_head (next n)); Ok (go st t (WakeCut first c))
  | WakeCut first c => st ← store st first (set_next 0); Ok (go st t (WakeUnlink first c))
  | WakeUnlink first c => Ok (go (set_word st (Z.ldiff (word st) SRWF_Link)) t (WakeNext first c))
  | WakeAll old tail first c => Ok (cas st t old 0 (WakeNext first c) (fun w => WakeBack w tail first c))
  | WakeBack old tail first c =>
      st ← store st tail (set_head first); Ok (go st t (WakeLoop old c))
  | WakeNext first c => n ← load st first; Ok (go st t (WakeBtr first (next n) c))
  | WakeBtr first nxt c => wake_btr st t first nxt c
  | Idle | Keyed _ _ | WakeKey _ _ _ => Ok st
  end.

(** The functions a thread can call. *)
Inductive call := AcquireExclusive | AcquireShared | TryAcquireExclusive | TryAcquireShared.

Definition entry (f : call) : pc :=
  match f with
  | AcquireExclusive => Start Exclusive
  | AcquireShared => Start Shared
  | TryAcquireExclusive => TryExclusive
  | TryAcquireShared => TryShared
  end.

(** A step of the threads, which may call the functions that [calls] admits
    and release what they own: a call, an access, or the meeting of
    NtReleaseKeyedEvent and NtWaitForKeyedEvent at the key of a node. *)
Inductive step (calls : call -> bool) : state -> state -> Prop :=
| step_call st t f : pcs st !! t = Some Idle -> calls f = true -> step calls st (go st t (entry f))
| step_access st t p st' : pcs st !! t = Some p -> blocked p = false -> access st t p = Ok st' -> step calls st st'
| step_meet st t u first nxt c k old :
    pcs st !! t = Some (WakeKey first nxt c) -> pcs st !! u = Some (Keyed k old) -> first = addr u ->
    step calls st (go (go st u (Loop k old)) t (wake_rest nxt c)).

(** [RtlInitializeSRWLock], and [n] threads. *)
Definition RtlInitializeSRWLock : Z := 0.

Definition initial (n : nat) : state :=
  State RtlInitializeSRWLock (replicate n (Node 0 0 0 0 0)) (replicate n Idle).

End Srw.
