(* ===== verification/SrwWord.v ===== *)
(** * Slim reader/writer locks: the word

    A lock word is an item above four flags.  The operations of the code on
    words are computed on this form. *)
From S2P Require Import Prelude Srw.
Import Srw.

Module SrwWord.

(** [i] is the number of shared owners, or one plus the thread of the last
    node. *)
Definition enc (i : Z) (h w l m : bool) : Z :=
  16 * i + (Z.b2z h + 2 * Z.b2z w + 4 * Z.b2z l + 8 * Z.b2z m).

Definition small (i : Z) : Prop := 0 <= i < 2 ^ 28.

Lemma land_low i f c : 0 <= f < 16 -> 0 <= c < 16 -> Z.land (16 * i + f) c = Z.land f c.
Proof.
  intros Hf Hc. apply Z.bits_inj'; intros n Hn. rewrite !Z.land_spec.
  destruct (Z.lt_ge_cases n 4) as [H|H].
  - f_equal. rewrite <- (Z.mod_pow2_bits_low (16 * i + f) 4 n), <- (Z.mod_pow2_bits_low f 4 n) by lia.
    f_equal. change (2 ^ 4) with 16. dlia.
  - rewrite <- (Z.mod_small c (2 ^ 4)), (Z.mod_pow2_bits_high c 4 n), !andb_false_r by lia. done.
Qed.

Lemma flags_range h w l m : 0 <= Z.b2z h + 2 * Z.b2z w + 4 * Z.b2z l + 8 * Z.b2z m < 16.
Proof. by destruct h, w, l, m. Qed.

(** Ranges of constants. *)
Ltac const := vm_compute; split; [discriminate|reflexivity].

Lemma has_enc i h w l m c : 0 <= c < 16 ->
  has (enc i h w l m) c = has (Z.b2z h + 2 * Z.b2z w + 4 * Z.b2z l + 8 * Z.b2z m) c.
Proof. intros. unfold has, enc. rewrite land_low; [done|apply flags_range|done]. Qed.

Lemma has_hold i h w l m : has (enc i h w l m) SRWF_Hold = h.
Proof. rewrite has_enc by const. by destruct h, w, l, m. Qed.
Lemma has_wait i h w l m : has (enc i h w l m) SRWF_Wait = w.
Proof. rewrite has_enc by const. by destruct h, w, l, m. Qed.
Lemma has_link i h w l m : has (enc i h w l m) SRWF_Link = l.
Proof. rewrite has_enc by const. by destruct h, w, l, m. Qed.
Lemma has_many i h w l m : has (enc i h w l m) SRWF_Many = m.
Proof. rewrite has_enc by const. by destruct h, w, l, m. Qed.

Lemma enc_div i h w l m : enc i h w l m / 16 = i.
Proof. unfold enc. pose proof (flags_range h w l m). dlia. Qed.

Lemma enc_shiftr i h w l m : Z.shiftr (enc i h w l m) 4 = i.
Proof. rewrite Z.shiftr_div_pow2 by lia. apply enc_div. Qed.

Lemma item_enc i h w l m : small i -> item (enc i h w l m) = 16 * i.
Proof.
  intros Hi. unfold item, SRWM_ITEM. change 0xFFFFFFF0 with (Z.shiftl (2 ^ 28 - 1) 4).
  apply Z.bits_inj'; intros n Hn. rewrite Z.land_spec, Z.shiftl_spec by lia.
  replace (16 * i) with (Z.shiftl i 4) by (rewrite Z.shiftl_mul_pow2; lia). rewrite Z.shiftl_spec by lia.
  destruct (Z.lt_ge_cases n 4) as [H|H].
  - rewrite !(Z.testbit_neg_r _ (n - 4)) by lia. apply andb_false_r.
  - replace (Z.testbit (enc i h w l m) n) with (Z.testbit i (n - 4)).
    + destruct (Z.lt_ge_cases (n - 4) 28) as [H'|H'].
      * change (2 ^ 28 - 1) with (Z.ones 28). rewrite Z.ones_spec_low by lia. apply andb_true_r.
      * replace (Z.testbit i (n - 4)) with false; [done|]. unfold small in Hi.
        rewrite <- (Z.mod_small i (2 ^ 28)), Z.mod_pow2_bits_high by lia. done.
    + rewrite <- (enc_shiftr i h w l m) at 1. rewrite Z.shiftr_spec by lia. f_equal. lia.
Qed.

Lemma enc_inj i h w l m i' h' w' l' m' :
  enc i h w l m = enc i' h' w' l' m' -> i = i' /\ h = h' /\ w = w' /\ l = l' /\ m = m'.
Proof.
  intros E. split_and!.
  - by rewrite <- (enc_div i h w l m), E, enc_div.
  - by rewrite <- (has_hold i h w l m), E, has_hold.
  - by rewrite <- (has_wait i h w l m), E, has_wait.
  - by rewrite <- (has_link i h w l m), E, has_link.
  - by rewrite <- (has_many i h w l m), E, has_many.
Qed.

Lemma enc_0 : enc 0 false false false false = 0.
Proof. done. Qed.

Lemma enc_is_0 i h w l m : small i -> enc i h w l m = 0 -> i = 0 /\ h = false /\ w = false /\ l = false /\ m = false.
Proof. intros _ E. by apply (enc_inj _ _ _ _ _ 0 false false false false). Qed.

(** Additions and subtractions of single bits. *)
Lemma enc_add_hold i w l m : enc i false w l m + SRWF_Hold = enc i true w l m.
Proof. unfold enc, SRWF_Hold. simpl. lia. Qed.
Lemma enc_sub_hold i w l m : enc i true w l m - SRWF_Hold = enc i false w l m.
Proof. unfold enc, SRWF_Hold. simpl. lia. Qed.
Lemma enc_add_link i h w m : enc i h w false m + SRWF_Link = enc i h w true m.
Proof. unfold enc, SRWF_Link. simpl. lia. Qed.
Lemma enc_sub_link i h w m : enc i h w true m - SRWF_Link = enc i h w false m.
Proof. unfold enc, SRWF_Link. simpl. lia. Qed.
Lemma enc_add_count i h w l m : enc i h w l m + SRW_COUNT = enc (i + 1) h w l m.
Proof. unfold enc. change SRW_COUNT with 16. lia. Qed.
Lemma enc_sub_count i h w l m : enc i h w l m - SRW_COUNT = enc (i - 1) h w l m.
Proof. unfold enc. change SRW_COUNT with 16. lia. Qed.

Lemma lor_low i f c : 0 <= f < 16 -> 0 <= c < 16 -> Z.lor (16 * i + f) c = 16 * i + Z.lor f c.
Proof.
  intros Hf Hc.
  assert (E : forall g, 0 <= g < 16 -> 16 * i + g = Z.lor (Z.shiftl i 4) g).
  { intros g Hg. rewrite lor_shiftl_add by lia. lia. }
  rewrite !E, Z.lor_assoc; [done| |done].
  split; [apply Z.lor_nonneg; lia|]. change 16 with (2 ^ 4) in *.
  destruct (Z.eq_dec (Z.lor f c) 0) as [->|Hz]; [done|]. apply Z.log2_lt_pow2; [|rewrite Z.log2_lor by lia].
  - pose proof (proj2 (Z.lor_nonneg f c)). lia.
  - apply Z.max_lub_lt.
    + destruct (Z.eq_dec f 0) as [->|]; [done|]. apply Z.log2_lt_pow2; lia.
    + destruct (Z.eq_dec c 0) as [->|]; [done|]. apply Z.log2_lt_pow2; lia.
Qed.

Lemma enc_lor i h w l m c : 0 <= c < 16 ->
  Z.lor (enc i h w l m) c = 16 * i + Z.lor (Z.b2z h + 2 * Z.b2z w + 4 * Z.b2z l + 8 * Z.b2z m) c.
Proof. intros. unfold enc. apply lor_low; [apply flags_range|done]. Qed.

Lemma enc_lor_hold i h w l m : Z.lor (enc i h w l m) SRWF_Hold = enc i true w l m.
Proof. rewrite enc_lor by const. unfold enc. by destruct h, w, l, m. Qed.
Lemma enc_lor_link i h w l m : Z.lor (enc i h w l m) SRWF_Link = enc i h w true m.
Proof. rewrite enc_lor by const. unfold enc. by destruct h, w, l, m. Qed.

Lemma ldiff_sub x c : Z.ldiff x c = x - Z.land x c.
Proof.
  assert (E : Z.lor (Z.land x c) (Z.ldiff x c) = x).
  { apply Z.bits_inj'; intros n _. rewrite Z.lor_spec, Z.land_spec, Z.ldiff_spec.
    by destruct (Z.testbit x n), (Z.testbit c n). }
  rewrite lor_disjoint_add in E; [lia|]. apply Z.bits_inj'; intros n _.
  rewrite !Z.land_spec, Z.ldiff_spec, Z.bits_0. by destruct (Z.testbit x n), (Z.testbit c n).
Qed.

Lemma enc_ldiff i h w l m c : 0 <= c < 16 ->
  Z.ldiff (enc i h w l m) c = 16 * i + Z.ldiff (Z.b2z h + 2 * Z.b2z w + 4 * Z.b2z l + 8 * Z.b2z m) c.
Proof. intros. unfold enc. rewrite !ldiff_sub, land_low; [lia|apply flags_range|done]. Qed.

Lemma enc_clear i h w l m : Z.ldiff (enc i h w l m) (Z.lor SRWF_Many SRWF_Hold) = enc i false w l false.
Proof. rewrite enc_ldiff by const. unfold enc. by destruct h, w, l, m. Qed.

Lemma enc_clear_link i h w l m : Z.ldiff (enc i h w l m) SRWF_Link = enc i h w false m.
Proof. rewrite enc_ldiff by const. unfold enc. by destruct h, w, l, m. Qed.

Lemma enc_land i h w l m c : 0 <= c < 16 ->
  Z.land (enc i h w l m) c = Z.land (Z.b2z h + 2 * Z.b2z w + 4 * Z.b2z l + 8 * Z.b2z m) c.
Proof. intros. unfold enc. apply land_low; [apply flags_range|done]. Qed.

(** ** Addresses *)
Lemma addr_inj t u : addr t = addr u -> t = u.
Proof. unfold addr. lia. Qed.

Lemma thread_at_addr t : thread_at (addr t) = t.
Proof. unfold thread_at, addr. replace (16 * (Z.of_nat t + 1) / 16 - 1) with (Z.of_nat t) by dlia. apply Nat2Z.id. Qed.

Lemma addr_pos t : addr t <> 0.
Proof. unfold addr. lia. Qed.

Lemma addr_lor t c : 0 <= c < 16 -> Z.lor (addr t) c = addr t + c.
Proof.
  intros. unfold addr. rewrite <- (Z.add_0_r (16 * _)) at 1. rewrite lor_low by lia. by rewrite Z.lor_0_l.
Qed.

(** The word after [t] has queued its node. *)
Lemma queue_word_enc k t i w l m : small i -> must_wait k (enc i true w l m) = true ->
  (w = false -> l = false /\ m = false) ->
  queue_word k t (enc i true w l m) =
  (enc (Z.of_nat t + 1) true true w (if w then m else match k with Exclusive => 1 <? i | Shared => false end),
   w && negb l).
Proof.
  intros Hi Hk Hw. unfold queue_word. rewrite has_wait, has_link, enc_shiftr.
  assert (Ea : forall c, 0 <= c < 16 -> Z.lor (addr t) c = 16 * (Z.of_nat t + 1) + c)
    by (intros; rewrite addr_lor by lia; done).
  destruct w; cbn [andb]; f_equal.
  - rewrite !enc_land by const. unfold enc.
    destruct k; rewrite <- Z.lor_assoc, Ea; destruct l, m; try const; reflexivity.
  - destruct k; [destruct (1 <? i)|]; rewrite Ea by const; reflexivity.
Qed.

(** The word of the owner that [k] makes of a free or shared lock. *)
Lemma take_word_enc k i h w l m : small i -> must_wait k (enc i h w l m) = false ->
  (w = false -> l = false /\ m = false /\ (h = false -> i = 0)) ->
  take_word k (enc i h w l m) =
  enc (match k with Exclusive => i | Shared => if w then i else i + 1 end) true w l m.
Proof.
  intros Hi Hk Hw. unfold take_word, must_wait in *. rewrite has_hold, ?has_wait, ?item_enc in * by done.
  destruct k; [subst h; apply enc_add_hold|]. destruct w.
  - rewrite andb_true_r in Hk. subst h. apply enc_add_hold.
  - rewrite enc_add_count. apply enc_lor_hold.
Qed.

Lemma shared_count_word_enc i : small i -> 0 < i ->
  shared_count_word (enc i true false false false) =
  enc (i - 1) (1 <? i) false false false.
Proof.
  intros Hi H. unfold shared_count_word. rewrite item_enc by done. change SRW_COUNT with 16.
  destruct (Z.ltb_spec 1 i), (Z.leb_spec (16 * i) 16); try lia.
  - unfold enc. simpl. lia.
  - replace i with 1 by lia. done.
Qed.

End SrwWord.
