(* ===== verification/SrwQueue.v ===== *)
(** * Slim reader/writer locks: the queue of wait nodes

    [Q] lists the threads of the queue from the last to the first.  The nodes
    that were queued since the queue was last linked have no [head]; the node
    below them has the shortcut to the first, and from the first the [next]
    fields lead up to it. *)
From S2P Require Import Prelude Srw SrwWord.
Import Srw SrwWord.
Set Warnings "-clear-no-such-hyp".

Module SrwQueue.

#[global] Instance node_inhabited : Inhabited node := populate (Node 0 0 0 0 0).

(** [next] leads from each node to the one before it in the list, [prev] to
    the one after it. *)
Fixpoint linked (N : list node) (l : list nat) : Prop :=
  match l with
  | [] => True
  | a :: l' => match l' with [] => True | b :: _ => next (N !!! b) = addr a end /\ linked N l'
  end.

Fixpoint prev_chain (N : list node) (l : list nat) : Prop :=
  match l with
  | [] => True
  | a :: l' => match l' with [] => True | b :: _ => prev (N !!! a) = addr b end /\ prev_chain N l'
  end.

(** No thread is walking: [O] is linked and [x], its newest node, has the
    shortcut to the first node [f]. *)
Record normal (N : list node) (Q : list nat) (f : nat) (A : list nat) (x : nat) (O : list nat) : Prop := {
  nm_eq : Q = A ++ x :: O;
  nm_null : forall u, u ∈ A -> head (N !!! u) = 0 /\ next (N !!! u) = 0;
  nm_head : head (N !!! x) = addr f;
  nm_next : next (N !!! x) = 0;
  nm_linked : linked N (x :: O);
}.

(** A walk from [tail] has linked the nodes down to [curr], which has no
    shortcut. *)
Record at_null (N : list node) (Q : list nat) (f tail curr : nat) (A T S : list nat) (x : nat) (O : list nat) : Prop := {
  an_eq : Q = A ++ T ++ S ++ x :: O;
  an_null : forall u, u ∈ A ++ T ++ S -> head (N !!! u) = 0;
  an_next : forall u, u ∈ A ++ S -> next (N !!! u) = 0;
  an_tail : list.head T = Some tail /\ next (N !!! tail) = 0;
  an_curr : last T = Some curr;
  an_linkedT : linked N T;
  an_head : head (N !!! x) = addr f;
  an_topnext : next (N !!! x) = 0;
  an_linked : linked N (x :: O);
}.

(** The walk has reached the node with the shortcut. *)
Record at_top (N : list node) (Q : list nat) (f tail curr : nat) (A T O : list nat) : Prop := {
  at_eq : Q = A ++ T ++ curr :: O;
  at_null_heads : forall u, u ∈ A ++ T -> head (N !!! u) = 0;
  at_next : forall u, u ∈ A -> next (N !!! u) = 0;
  at_tail : list.head (T ++ [curr]) = Some tail /\ next (N !!! tail) = 0;
  at_head : head (N !!! curr) = addr f;
  at_linked : linked N (T ++ curr :: O);
}.

(** ** Chains *)
Lemma linked_app N l1 a b l2 : linked N (l1 ++ [a]) -> linked N (b :: l2) -> next (N !!! b) = addr a ->
  linked N (l1 ++ a :: b :: l2).
Proof.
  induction l1 as [|c l1 IH]; intros H1 H2 E; [done|]. destruct H1 as [H1 H1'].
  split; [by destruct l1|]. by apply IH.
Qed.

Lemma linked_tail N a l : linked N (a :: l) -> linked N l.
Proof. by intros [_ ?]. Qed.

Lemma linked_app_r N l1 l2 : linked N (l1 ++ l2) -> linked N l2.
Proof. induction l1 as [|a l1 IH]; [done|]. intros [_ ?]. auto. Qed.

Lemma linked_app_l N l1 l2 : linked N (l1 ++ l2) -> linked N l1.
Proof.
  induction l1 as [|a l1 IH]; [done|]. intros [H H']. split; [|by apply IH]. by destruct l1.
Qed.

(** Only the nodes after the first one of the list matter. *)
Lemma linked_agree N N' a l : (forall u, u ∈ l -> next (N' !!! u) = next (N !!! u)) ->
  linked N (a :: l) -> linked N' (a :: l).
Proof.
  revert a. induction l as [|b l IH]; intros a Ha; [done|]. intros [H H'].
  split; [by rewrite Ha by set_solver|]. apply IH; [|done]. intros u Hu. apply Ha. set_solver.
Qed.

Lemma linked_agree_all N N' l : (forall u, u ∈ l -> next (N' !!! u) = next (N !!! u)) ->
  linked N l -> linked N' l.
Proof. destruct l as [|a l]; [done|]. intros H. apply linked_agree. intros u Hu. apply H. set_solver. Qed.

Lemma prev_chain_agree N N' l : (forall u, u ∈ l -> prev (N' !!! u) = prev (N !!! u)) ->
  prev_chain N l -> prev_chain N' l.
Proof.
  induction l as [|a l IH]; intros Ha; [done|]. intros [H H']. split.
  - destruct l as [|b l]; [done|]. by rewrite Ha by set_solver.
  - apply IH; [|done]. intros u Hu. apply Ha. set_solver.
Qed.

Lemma prev_chain_app N l1 a b l2 : prev_chain N (l1 ++ a :: b :: l2) -> prev (N !!! a) = addr b.
Proof. induction l1 as [|c l1 IH]; [by intros [? _]|]. intros [_ H]. by apply IH. Qed.

Lemma prev_chain_app_l N l1 l2 : prev_chain N (l1 ++ l2) -> prev_chain N l1.
Proof. induction l1 as [|a l1 IH]; [done|]. intros [H H']. split; [|by apply IH]. by destruct l1. Qed.

(** The next of the last element. *)
Lemma linked_last N a l f : linked N (a :: l) -> l <> [] -> last (a :: l) = Some f ->
  exists l' s, a :: l = l' ++ [s; f] /\ next (N !!! f) = addr s.
Proof.
  revert a. induction l as [|b l IH]; intros a H Hl Hf; [done|]. destruct l as [|c l].
  - simpl in Hf. injection Hf as <-. exists [], a. split; [done|]. by destruct H.
  - destruct (IH b) as (l' & s & E & En); [by destruct H|done|done|]. exists (a :: l'), s. by rewrite E.
Qed.

(** ** Agreement: the queue does not depend on other fields and nodes *)
Definition same_links (N N' : list node) (Q : list nat) : Prop :=
  forall u, u ∈ Q -> head (N' !!! u) = head (N !!! u) /\ next (N' !!! u) = next (N !!! u).

Lemma normal_agree N N' Q f A x O : same_links N N' Q -> normal N Q f A x O -> normal N' Q f A x O.
Proof.
  intros Hs [-> H1 H2 H3 H4].
  assert (Hx : head (N' !!! x) = head (N !!! x) /\ next (N' !!! x) = next (N !!! x)) by (apply Hs; set_solver).
  split; [done| | | |].
  - intros u Hu. destruct (Hs u) as [-> ->]; [set_solver|]. by apply H1.
  - by rewrite (proj1 Hx).
  - by rewrite (proj2 Hx).
  - eapply linked_agree_all; [|done]. intros u Hu. apply Hs. set_solver.
Qed.

Lemma at_null_agree N N' Q f tail curr A T S x O : same_links N N' Q ->
  at_null N Q f tail curr A T S x O -> at_null N' Q f tail curr A T S x O.
Proof.
  intros Hs [-> H1 H2 [H3 H3'] H4 H5 H6 H7 H8].
  assert (Hin : forall u, u ∈ A ++ T ++ S ++ x :: O -> head (N' !!! u) = head (N !!! u)) by (intros; by apply Hs).
  assert (Hin' : forall u, u ∈ A ++ T ++ S ++ x :: O -> next (N' !!! u) = next (N !!! u)) by (intros; by apply Hs).
  apply head_Some in H3 as [T' ->].
  split; [done|..].
  - intros u Hu. rewrite Hin by (clear -Hu; set_solver). by apply H1.
  - intros u Hu. rewrite Hin' by (clear -Hu; set_solver). by apply H2.
  - split; [done|]. rewrite Hin' by (clear; set_solver). done.
  - done.
  - eapply linked_agree_all; [|done]. intros u Hu. apply Hin'. clear -Hu. set_solver.
  - rewrite Hin by (clear; set_solver). done.
  - rewrite Hin' by (clear; set_solver). done.
  - eapply linked_agree_all; [|done]. intros u Hu. apply Hin'. clear -Hu. set_solver.
Qed.

Lemma at_top_agree N N' Q f tail curr A T O : same_links N N' Q ->
  at_top N Q f tail curr A T O -> at_top N' Q f tail curr A T O.
Proof.
  intros Hs [-> H1 H2 [H3 H3'] H4 H5].
  assert (Hin : forall u, u ∈ A ++ T ++ curr :: O -> head (N' !!! u) = head (N !!! u)) by (intros; by apply Hs).
  assert (Hin' : forall u, u ∈ A ++ T ++ curr :: O -> next (N' !!! u) = next (N !!! u)) by (intros; by apply Hs).
  assert (Ht : tail ∈ T ++ [curr]) by (apply head_Some in H3 as [T' ->]; set_solver).
  split; [done|..].
  - intros u Hu. rewrite Hin by (clear -Hu; set_solver). by apply H1.
  - intros u Hu. rewrite Hin' by (clear -Hu; set_solver). by apply H2.
  - split; [done|]. rewrite Hin' by (clear -Ht; set_solver). done.
  - rewrite Hin by (clear; set_solver). done.
  - eapply linked_agree_all; [|done]. intros u Hu. apply Hin'. clear -Hu. set_solver.
Qed.

(** ** Updates of a node *)
Lemma node_upd_eq (N : list node) u n : (u < length N)%nat -> <[u := n]> N !!! u = n.
Proof. apply list_lookup_total_insert_eq. Qed.

Lemma node_upd_ne (N : list node) u v n : v <> u -> <[u := n]> N !!! v = N !!! v.
Proof. intros. by apply list_lookup_total_insert_ne. Qed.

(** The fields of all nodes after one field of [u] was set. *)
Lemma upd_field {A} (g : node -> A) (N : list node) u n v :
  g n = g (N !!! u) -> g (<[u := n]> N !!! v) = g (N !!! v).
Proof.
  intros E. destruct (decide (v = u)) as [->|]; [|by rewrite node_upd_ne].
  destruct (decide (u < length N)%nat); [by rewrite node_upd_eq|]. by rewrite list_insert_ge by lia.
Qed.

(** ** The walk *)
Lemma walk_start N Q f A x O u : normal N Q f A x O -> u ∈ A ++ [x] ->
  (exists A' S, at_null N Q f u u A' [u] S x O) \/ (u = x /\ at_top N Q f u u A [] O).
Proof.
  intros [-> H1 H2 H3 H4] [Hu|Hu]%elem_of_app.
  - left. apply list_elem_of_split in Hu as (A1 & A2 & ->). exists A1, A2.
    split; [by rewrite <- !app_assoc|..]; try done.
    + intros v Hv. apply H1. clear -Hv. set_solver.
    + intros v Hv. apply H1. clear -Hv. set_solver.
    + split; [done|]. apply H1. clear. set_solver.
  - apply list_elem_of_singleton in Hu as ->. right. split; [done|]. split; try done. intros v Hv. apply H1. clear -Hv. set_solver.
    intros v Hv. by apply H1.
Qed.

Lemma at_null_curr N Q f tail curr A T S x O : at_null N Q f tail curr A T S x O ->
  curr ∈ Q /\ tail ∈ Q /\ head (N !!! curr) = 0.
Proof.
  intros [-> H1 _ [H3 _] H4 _ _ _ _].
  assert (curr ∈ T) by (apply last_Some in H4 as [T' ->]; set_solver).
  assert (tail ∈ T) by (apply head_Some in H3 as [T' ->]; set_solver).
  split_and!; [clear -H; set_solver|clear -H0; set_solver|]. apply H1. clear -H. set_solver.
Qed.

Lemma at_top_tail N Q f tail curr A T O : at_top N Q f tail curr A T O -> curr ∈ Q /\ tail ∈ Q.
Proof.
  intros [-> _ _ [H _] _ _]. split; [clear; set_solver|]. apply head_Some in H as [T' E].
  assert (Ht : tail ∈ T ++ [curr]) by (rewrite E; set_solver). clear -Ht. set_solver.
Qed.

(** [curr->prev->next = curr] *)
Lemma walk_link N Q f tail curr A T S x O : at_null N Q f tail curr A T S x O -> NoDup Q ->
  prev_chain N Q -> (forall u, u ∈ Q -> (u < length N)%nat) ->
  exists p, p ∈ Q /\ prev (N !!! curr) = addr p /\
    let N' := <[p := set_next (addr curr) (N !!! p)]> N in
    (exists T' S', at_null N' Q f tail p A T' S' x O) \/ at_top N' Q f tail p A T O.
Proof.
  intros [-> H1 H2 [H3 H3'] H4 H5 H6 H7 H8] Hn Hp Hlen.
  apply last_Some in H4 as [T0 ->].
  destruct S as [|p S].
  - exists x. split; [clear; set_solver|]. split.
    { rewrite <- app_assoc, app_assoc in Hp. by apply prev_chain_app in Hp. }
    assert (Hx : forall u, u ∈ A ++ T0 ++ [curr] -> u <> x).
    { intros u Hu ->. rewrite app_assoc in Hn. apply NoDup_app in Hn as (_ & Hd & _). apply (Hd x Hu). set_solver. }
    right. split; [done|..].
    + intros u Hu. rewrite (upd_field head) by done. apply H1. clear -Hu. set_solver.
    + intros u Hu. rewrite node_upd_ne by (apply Hx; clear -Hu; set_solver). apply H2. clear -Hu. set_solver.
    + split; [apply head_Some in H3 as [T' E]; by rewrite E|]. rewrite node_upd_ne; [done|]. apply Hx.
      apply head_Some in H3 as [T' E]. rewrite E. clear. set_solver.
    + by rewrite (upd_field head).
    + rewrite <- app_assoc. simpl. apply linked_app.
      * eapply linked_agree_all; [|exact H5]. intros u Hu. rewrite node_upd_ne; [done|]. apply Hx. clear -Hu. set_solver.
      * eapply linked_agree; [|exact H8]. intros u Hu. rewrite node_upd_ne; [done|]. intros ->.
        rewrite !app_assoc in Hn. apply NoDup_app in Hn as (_ & _ & [Hx' _]%NoDup_cons). done.
      * rewrite node_upd_eq; [done|]. apply Hlen. clear. set_solver.
  - exists p. split; [clear; set_solver|]. split.
    { rewrite <- app_assoc, app_assoc in Hp. by apply prev_chain_app in Hp. }
    assert (Hn' : NoDup ((A ++ T0 ++ [curr]) ++ p :: S ++ x :: O)) by (revert Hn; by rewrite <- !app_assoc).
    assert (Hx : forall u, u ∈ (A ++ T0 ++ [curr]) ++ S ++ x :: O -> u <> p).
    { intros u Hu ->. apply NoDup_app in Hn' as (_ & Hd & [Hp' _]%NoDup_cons).
      apply elem_of_app in Hu as [Hu|Hu]; [|done]. apply (Hd p Hu). set_solver. }
    left. exists ((T0 ++ [curr]) ++ [p]), S. split; [by rewrite <- !app_assoc|..].
    + intros u Hu. rewrite (upd_field head) by done. apply H1. clear -Hu. set_solver.
    + intros u Hu. rewrite node_upd_ne by (apply Hx; clear -Hu; set_solver). apply H2. clear -Hu. set_solver.
    + apply head_Some in H3 as [T' E]. split; [by rewrite E|]. rewrite node_upd_ne; [done|]. apply Hx. rewrite E. clear. set_solver.
    + apply last_snoc.
    + rewrite <- app_assoc. apply linked_app; [|done|].
      * eapply linked_agree_all; [|exact H5]. intros u Hu. rewrite node_upd_ne; [done|]. apply Hx. clear -Hu. set_solver.
      * rewrite node_upd_eq; [done|]. apply Hlen. clear. set_solver.
    + by rewrite (upd_field head).
    + rewrite node_upd_ne; [done|]. apply Hx. clear. set_solver.
    + eapply linked_agree_all; [|exact H8]. intros u Hu. rewrite node_upd_ne; [done|]. apply Hx. clear -Hu. set_solver.
Qed.

(** [tail->head = first] *)
Lemma walk_end N Q f tail curr A T O : at_top N Q f tail curr A T O -> NoDup Q -> (tail < length N)%nat ->
  exists O', normal (<[tail := set_head (addr f) (N !!! tail)]> N) Q f A tail O'.
Proof.
  intros [-> H1 H2 [H3 H3'] H4 H5] Hn Hlen.
  assert (E : exists O', T ++ curr :: O = tail :: O').
  { apply head_Some in H3 as [T' E]. exists (T' ++ O). rewrite (cons_middle curr), app_assoc, E. done. }
  destruct E as [O' E]. exists O'. rewrite E in *. split; [done|..].
  - intros u Hu. rewrite (upd_field next) by done. rewrite node_upd_ne.
    + split; [apply H1; clear -Hu; set_solver|by apply H2].
    + intros ->. apply NoDup_app in Hn as (_ & Hd & _). apply (Hd _ Hu). set_solver.
  - by rewrite node_upd_eq.
  - by rewrite node_upd_eq.
  - eapply linked_agree_all; [|done]. intros u Hu. by rewrite (upd_field next).
Qed.

(** ** Queueing *)
Lemma normal_enqueue N Q f A x O t : normal N Q f A x O -> head (N !!! t) = 0 -> next (N !!! t) = 0 ->
  normal N (t :: Q) f (t :: A) x O.
Proof.
  intros [-> H1 H2 H3 H4] Hh Hx. split; try done. intros u [->|Hu]%elem_of_cons; [done|by apply H1].
Qed.

Lemma at_null_enqueue N Q f tail curr A T S x O t :
  at_null N Q f tail curr A T S x O -> head (N !!! t) = 0 -> next (N !!! t) = 0 ->
  at_null N (t :: Q) f tail curr (t :: A) T S x O.
Proof.
  intros [-> H1 H2 H3 H4 H5 H6 H7 H8] Hh Hx. split; try done.
  - intros u [->|Hu]%elem_of_cons; [done|by apply H1].
  - intros u [->|Hu]%elem_of_cons; [done|by apply H2].
Qed.

Lemma at_top_enqueue N Q f tail curr A T O t :
  at_top N Q f tail curr A T O -> head (N !!! t) = 0 -> next (N !!! t) = 0 ->
  at_top N (t :: Q) f tail curr (t :: A) T O.
Proof.
  intros [-> H1 H2 H3 H4 H5] Hh Hx. split; try done.
  - intros u [->|Hu]%elem_of_cons; [done|by apply H1].
  - intros u [->|Hu]%elem_of_cons; [done|by apply H2].
Qed.

Lemma normal_first N t : head (N !!! t) = addr t -> next (N !!! t) = 0 -> normal N [t] t [] t [].
Proof. intros Hh Hx. split; try done. intros u Hu. by apply elem_of_nil in Hu. Qed.

(** ** Removal *)

(** [tail->head = first->next] takes the first node off the queue. *)
Lemma normal_dequeue N Q f A x O : normal N Q f A x O -> last Q = Some f -> O <> [] -> NoDup Q ->
  (x < length N)%nat ->
  exists Q' s O', Q = Q' ++ [f] /\ next (N !!! f) = addr s /\ last Q' = Some s /\
    normal (<[x := set_head (addr s) (N !!! x)]> N) Q' s A x O'.
Proof.
  intros [-> H1 H2 H3 H4] Hl HO Hn Hlen.
  rewrite last_app_cons in Hl. destruct (linked_last _ _ _ _ H4 HO Hl) as (l & s & E & En).
  assert (E' : exists O', l ++ [s] = x :: O').
  { destruct l as [|y l]; simpl in E |- *; injection E as ??; subst; eauto. }
  destruct E' as [O' E'].
  assert (EQ : A ++ x :: O = (A ++ x :: O') ++ [f]).
  { rewrite E, <- E', <- !app_assoc. done. }
  exists (A ++ x :: O'), s, O'. split_and!; [done..|by rewrite last_app_cons, <- E', last_snoc|].
  rewrite EQ in Hn. apply NoDup_app in Hn as (Hn & _ & _). split; [done|..].
  - intros u Hu. rewrite (upd_field next) by done. rewrite node_upd_ne; [by apply H1|].
    intros ->. apply NoDup_app in Hn as (_ & Hd & _). apply (Hd _ Hu). set_solver.
  - by rewrite node_upd_eq.
  - by rewrite node_upd_eq.
  - assert (Hlk : linked N (x :: O')).
    { apply (linked_app_l _ _ [f]). rewrite <- E', <- app_assoc. simpl. by rewrite <- E. }
    eapply linked_agree_all; [|exact Hlk]. intros u Hu. by rewrite (upd_field next).
Qed.

(** A list of nodes that [next] leads through, from the pointer [p] to the
    pointer [q]. *)
Fixpoint segment (N : list node) (p : Z) (l : list nat) (q : Z) : Prop :=
  match l with [] => p = q | u :: l => p = addr u /\ segment N (next (N !!! u)) l q end.

Lemma segment_app N p l1 q l2 r : segment N p l1 q -> segment N q l2 r -> segment N p (l1 ++ l2) r.
Proof.
  revert p. induction l1 as [|u l1 IH]; intros p; simpl; [by intros ->|]. intros [-> H] H2. split; [done|]. by apply IH.
Qed.

Lemma segment_agree N N' p l q : (forall u, u ∈ l -> next (N' !!! u) = next (N !!! u)) ->
  segment N p l q -> segment N' p l q.
Proof.
  revert p. induction l as [|u l IH]; intros p Ha; [done|]. intros [-> H]. split; [done|].
  rewrite Ha by set_solver. apply IH; [|done]. intros v Hv. apply Ha. set_solver.
Qed.

Lemma linked_segment N : forall l a f, linked N (a :: l) -> last (a :: l) = Some f ->
  segment N (addr f) (reverse (a :: l)) (next (N !!! a)).
Proof.
  induction l as [|b l IH]; intros a f H Hf.
  - simpl in Hf. injection Hf as <-. by split.
  - destruct H as [Hb H]. rewrite reverse_cons. apply (segment_app _ _ _ (addr a)); [|by split].
    rewrite <- Hb. apply IH; done.
Qed.

(** All nodes are taken off a queue whose last node has the shortcut. *)
Lemma normal_take_all N Q f x O : normal N Q f [] x O -> last Q = Some f ->
  segment N (addr f) (reverse Q) 0.
Proof.
  intros [-> H1 H2 H3 H4] Hl. simpl. rewrite <- H3. apply linked_segment; [done|]. done.
Qed.

End SrwQueue.
