(* ===== verification/SrwInv.v ===== *)
(** * Slim reader/writer locks: the invariant

    The state is described by the fields of the word, the queue [Q] of
    waiting threads and, for each thread that wakes others, the list [W t] of
    the threads whose nodes it has taken off the queue and not yet released. *)
From S2P Require Import Prelude Srw SrwWord SrwQueue.
Import Srw SrwWord SrwQueue.
Set Warnings "-clear-no-such-hyp".

Module SrwInv.

(** ** Classes of places *)

(** Exclusive owners; shared owners that have not given up their share; the
    last shared owner, which clears the word. *)
Definition is_ex (p : pc) : nat := match p with Own Exclusive => 1%nat | _ => 0%nat end.
Definition is_sh (p : pc) : nat :=
  match p with
  | Own Shared | ShCas _ | ShWalk _ _ | ShPrev _ _ | ShHead _ _ | ShDec _ _ => 1%nat
  | _ => 0%nat
  end.
Definition is_fin (p : pc) : nat := match p with ShClear _ => 1%nat | _ => 0%nat end.

(** The thread has set [SRWF_Link]. *)
Definition is_owner (p : pc) : nat :=
  match p with
  | CompLoop _ _ | CompWalk _ _ _ _ | CompLink _ _ _ _ | CompSet _ _ _ _ | CompCas _ _
  | WakeLoop _ _ | WakeLink _ _ _ _ | WakeHead _ _ _ _ | WakeSet _ _ _ _ | WakeFirst _ _ _ _
  | WakeDeq _ _ _ | WakeCut _ _ | WakeUnlink _ _ | WakeAll _ _ _ _ | WakeBack _ _ _ _ => 1%nat
  | _ => 0%nat
  end.

(** The thread has queued its node and not yet found that it was released. *)
Definition parked (p : pc) : bool :=
  match p with Start _ | Read _ | Loop _ _ | Enq _ _ _ _ => false | _ => in_acquire p end.

Definition keyed (p : pc) : bool := match p with Keyed _ _ => true | _ => false end.

Definition cnt (f : pc -> nat) (l : list pc) : nat := sum_list_with f l.

Lemma cnt_insert f l t p p' : l !! t = Some p -> (cnt f (<[t := p']> l) + f p = cnt f l + f p')%nat.
Proof.
  revert t. induction l as [|q l IH]; intros [|t]; simpl; try done.
  - intros [= ->]. lia.
  - intros H%IH. unfold cnt in *. simpl. lia.
Qed.

Lemma cnt_le f l t p : l !! t = Some p -> (f p <= cnt f l)%nat.
Proof.
  revert t. induction l as [|q l IH]; intros [|t]; simpl; try done.
  - intros [= ->]. unfold cnt. simpl. lia.
  - intros H%IH. unfold cnt in *. simpl. lia.
Qed.

Lemma cnt_le2 f l t t' p p' : t <> t' -> l !! t = Some p -> l !! t' = Some p' -> (f p + f p' <= cnt f l)%nat.
Proof.
  revert t t'. induction l as [|q l IH]; intros [|t] [|t'] Hne; simpl; try done.
  - intros [= ->] H%(cnt_le f). unfold cnt in *. simpl. lia.
  - intros H%(cnt_le f) [= ->]. unfold cnt in *. simpl. lia.
  - intros H H'. specialize (IH t t'). unfold cnt in *. simpl. assert (t <> t') by congruence. specialize (IH H0 H H'). lia.
Qed.

Lemma cnt_pos f l : (0 < cnt f l)%nat -> exists t p, l !! t = Some p /\ (0 < f p)%nat.
Proof.
  induction l as [|q l IH]; unfold cnt in *; simpl; [lia|]. intros H.
  destruct (decide (0 < f q)%nat); [by exists 0%nat, q|]. destruct IH as (t & p & ? & ?); [lia|].
  by exists (S t), p.
Qed.

(** ** Facts about one thread *)

(** The word [old] was read when no node below the shortcut was the last. *)
Definition cover (N : list node) (Q : list nat) (f : nat) (old : Z) : Prop :=
  exists A x O u, normal N Q f A x O /\ item old = addr u /\ u ∈ A ++ [x].

Definition walking (N : list node) (Q : list nat) (f tail curr : nat) : Prop :=
  (exists A T S x O, at_null N Q f tail curr A T S x O) \/ (exists A T O, at_top N Q f tail curr A T O).

(** The last node has the shortcut. *)
Definition topped (N : list node) (Q : list nat) (old tail first : Z) : Prop :=
  exists f A x O, last Q = Some f /\ normal N Q f A x O /\ tail = addr x /\ first = addr f /\ item old = tail.

Definition thread_ok (w m : bool) (N : list node) (Q Wt : list nat) (t : nat) (p : pc) : Prop :=
  match p with
  | Enq k old new opt =>
      Wt = [] /\ queue_word k t old = (new, opt) /\ must_wait k old = true /\ exists n, N !!! t = queue_node k t old n
  | ExCas old =>
      Wt = [] /\ has old SRWF_Wait = true /\ has old SRWF_Link = false /\ has old SRWF_Hold = false
  | ShCas old =>
      Wt = [] /\ (has old SRWF_Wait = true -> w = true /\ has old SRWF_Many = m /\
                  (m = true -> exists u, u ∈ Q /\ item old = addr u))
  | ShWalk _ curr => Wt = [] /\ m = true /\ exists u, u ∈ Q /\ curr = addr u
  | ShPrev _ curr => Wt = [] /\ m = true /\ exists u, u ∈ Q /\ curr = addr u /\ last Q <> Some u
  | ShHead _ curr => Wt = [] /\ m = true /\ exists u, u ∈ Q /\ curr = addr u /\ head (N !!! u) <> 0
  | ShDec _ curr => Wt = [] /\ m = true /\ exists f, last Q = Some f /\ curr = addr f
  | CompLoop old _ | WakeLoop old _ =>
      Wt = [] /\ (has old SRWF_Hold = false -> m = false) /\ exists f, last Q = Some f /\ cover N Q f old
  | CompCas old _ => Wt = [] /\ has old SRWF_Hold = true /\ exists f, last Q = Some f /\ cover N Q f old
  | CompWalk old tail curr _ =>
      Wt = [] /\ has old SRWF_Hold = true /\ item old = tail /\ exists f a b, last Q = Some f /\ tail = addr a /\ curr = addr b /\ walking N Q f a b
  | CompLink old tail curr _ =>
      Wt = [] /\ has old SRWF_Hold = true /\ item old = tail /\ exists f a b A T S x O,
        last Q = Some f /\ tail = addr a /\ curr = addr b /\ at_null N Q f a b A T S x O
  | CompSet old tail curr _ =>
      Wt = [] /\ has old SRWF_Hold = true /\ item old = tail /\ exists f a b A T O,
        last Q = Some f /\ tail = addr a /\ curr = addr b /\ at_top N Q f a b A T O
  | WakeHead old tail curr _ =>
      Wt = [] /\ m = false /\ has old SRWF_Hold = false /\ item old = tail /\
      exists f a b, last Q = Some f /\ tail = addr a /\ curr = addr b /\ walking N Q f a b
  | WakeLink old tail curr _ =>
      Wt = [] /\ m = false /\ has old SRWF_Hold = false /\ item old = tail /\ exists f a b A T S x O,
        last Q = Some f /\ tail = addr a /\ curr = addr b /\ at_null N Q f a b A T S x O
  | WakeSet old tail first _ =>
      Wt = [] /\ m = false /\ has old SRWF_Hold = false /\ item old = tail /\ exists f a b A T O,
        last Q = Some f /\ tail = addr a /\ first = addr f /\ at_top N Q f a b A T O
  | WakeFirst old tail first _ | WakeAll old tail first _ =>
      Wt = [] /\ m = false /\ has old SRWF_Hold = false /\ topped N Q old tail first
  | WakeDeq tail first _ =>
      Wt = [] /\ m = false /\ exists f A x O,
        last Q = Some f /\ normal N Q f A x O /\ tail = addr x /\ first = addr f /\ O <> []
  | WakeBack old tail first _ =>
      Wt = [] /\ m = false /\ exists f A x O u, last Q = Some f /\ normal N Q f A x O /\
        tail = addr x /\ first = addr f /\ item old = addr u /\ u ∈ A ++ [x]
  | WakeCut first _ =>
      m = false /\ (exists u, Wt = [u] /\ first = addr u) /\ exists f A x O, last Q = Some f /\ normal N Q f A x O
  | WakeUnlink first _ =>
      m = false /\ (exists u, Wt = [u] /\ first = addr u /\ next (N !!! u) = 0) /\
      exists f A x O, last Q = Some f /\ normal N Q f A x O
  | WakeNext first _ => Wt <> [] /\ segment N first Wt 0
  | WakeBtr first nxt _ => exists u l, Wt = u :: l /\ first = addr u /\ segment N nxt l 0
  | WakeKey first nxt _ =>
      exists u l, Wt = u :: l /\ first = addr u /\ segment N nxt l 0 /\ has (flags (N !!! u)) NODEF_SPIN = false
  | TryShared | TryRead | TryLoop _ => False
  | _ => Wt = []
  end.

(** ** Ownership *)
Definition snapshot (N : list node) (Q : list nat) : Z :=
  match last Q with Some f => shareSnapshot (N !!! f) | None => 0 end.

(** The owners that the word stands for. *)
Definition hold_ok (i : Z) (h w l m : bool) (ex sh fin : nat) (snap : Z) : Prop :=
  if w then
    if h then
      if m then ex = 0%nat /\ snap = Z.of_nat sh /\ ((0 < sh)%nat /\ fin = 0%nat \/ sh = 0%nat /\ fin = 1%nat)
      else (ex + sh + fin = 1)%nat
    else m = false /\ ex = 0%nat /\ sh = 0%nat /\ fin = 0%nat
  else
    l = false /\ m = false /\ fin = 0%nat /\
    if h then i = 0 /\ ex = 1%nat /\ sh = 0%nat \/ 0 < i /\ ex = 0%nat /\ Z.of_nat sh = i
    else i = 0 /\ ex = 0%nat /\ sh = 0%nat.

Record good (st : state) (i : Z) (h w l m : bool) (Q : list nat) (W : nat -> list nat) : Prop := {
  g_word : word st = enc i h w l m;
  g_small : small i;
  g_len : length (nodes st) = length (pcs st);
  g_bound : Z.of_nat (length (pcs st)) < 2 ^ 28 - 1;
  g_hold : hold_ok i h w l m (cnt is_ex (pcs st)) (cnt is_sh (pcs st)) (cnt is_fin (pcs st)) (snapshot (nodes st) Q);
  g_owner : cnt is_owner (pcs st) = if l then 1%nat else 0%nat;
  g_queue : if w then exists q Q', Q = q :: Q' /\ i = Z.of_nat q + 1 else Q = [];
  g_prev : prev_chain (nodes st) Q;
  g_many : m = true -> exists f, last Q = Some f /\ head (nodes st !!! f) = addr f /\
             forall u, u ∈ Q -> head (nodes st !!! u) = 0 \/ head (nodes st !!! u) = addr f;
  g_nodupQ : NoDup Q;
  g_nodupW : forall t, NoDup (W t);
  g_disj : forall t u, u ∈ W t -> u ∉ Q;
  g_disjW : forall t t' u, u ∈ W t -> u ∈ W t' -> t = t';
  g_in : forall u, u ∈ Q \/ (exists t, u ∈ W t) -> exists p, pcs st !! u = Some p /\ parked p = true /\
           has (flags (nodes st !!! u)) NODEF_SPIN = negb (keyed p);
  g_out : forall u p, pcs st !! u = Some p -> parked p = true -> (u ∉ Q) -> (forall t, u ∉ W t) ->
           keyed p = false /\ has (flags (nodes st !!! u)) NODEF_SPIN = false;
  g_norm : l = false -> w = true -> exists f A x O, last Q = Some f /\ normal (nodes st) Q f A x O;
  g_threads : forall t p, pcs st !! t = Some p -> thread_ok w m (nodes st) Q (W t) t p;
  g_none : forall t, pcs st !! t = None -> W t = [];
  g_live : w = true -> h = false -> l = false ->
    (exists t, pcs st !! t = Some (ExCas (word st))) \/
    (exists t p, pcs st !! t = Some p /\ in_acquire p = true /\ (t ∉ Q));
}.

Definition inv (st : state) : Prop := exists i h w l m Q W, good st i h w l m Q W.

End SrwInv.
