(* ===== verification/SrwSteps.v ===== *)
(** * Slim reader/writer locks: the invariant is kept

    First the lemmas for each kind of change of the shared state, then the
    accesses one by one. *)
From S2P Require Import Prelude Srw SrwWord SrwQueue SrwInv.
Import Srw SrwWord SrwQueue SrwInv.
Set Warnings "-clear-no-such-hyp".

Module SrwSteps.

(** ** Reading the invariant *)
Lemma parked_in_acquire p : parked p = true -> in_acquire p = true.
Proof. by destruct p. Qed.

Section Good.
Context {st : state} {i : Z} {h w l m : bool} {Q : list nat} {W : nat -> list nat}.
Context (G : good st i h w l m Q W).

Lemma good_lookup t p : pcs st !! t = Some p -> nodes st !! t = Some (nodes st !!! t).
Proof. intros H%lookup_lt_Some. apply list_lookup_lookup_total_lt. rewrite (g_len _ _ _ _ _ _ _ _ G). done. Qed.

Lemma good_lt t p : pcs st !! t = Some p -> (t < length (nodes st))%nat.
Proof. intros H%lookup_lt_Some. by rewrite (g_len _ _ _ _ _ _ _ _ G). Qed.

Lemma deref_ok u p : pcs st !! u = Some p -> in_acquire p = true -> deref st (addr u) = Ok u.
Proof. intros H Hp. unfold deref. by rewrite thread_at_addr, H, Hp, Z.eqb_refl. Qed.

Lemma load_acquire u p : pcs st !! u = Some p -> in_acquire p = true -> load st (addr u) = Ok (nodes st !!! u).
Proof. intros H Hp. unfold load. by rewrite (deref_ok u p), bind_ok, (good_lookup u p). Qed.

Lemma store_acquire u p f : pcs st !! u = Some p -> in_acquire p = true ->
  store st (addr u) f = Ok (State (word st) (<[u := f (nodes st !!! u)]> (nodes st)) (pcs st)).
Proof. intros H Hp. unfold store. by rewrite (deref_ok u p), bind_ok, (good_lookup u p). Qed.

(** The nodes of the queue and of the lists are there. *)
Definition member (u : nat) : Prop := u ∈ Q \/ exists t, u ∈ W t.

Lemma load_member u : member u -> load st (addr u) = Ok (nodes st !!! u).
Proof. intros Hu. destruct (g_in _ _ _ _ _ _ _ _ G u Hu) as (p & H & Hp & _). by eapply load_acquire, parked_in_acquire. Qed.

Lemma store_member u f : member u ->
  store st (addr u) f = Ok (State (word st) (<[u := f (nodes st !!! u)]> (nodes st)) (pcs st)).
Proof. intros Hu. destruct (g_in _ _ _ _ _ _ _ _ G u Hu) as (p & H & Hp & _). by eapply store_acquire, parked_in_acquire. Qed.

Lemma member_lt u : member u -> (u < length (nodes st))%nat.
Proof. intros Hu. destruct (g_in _ _ _ _ _ _ _ _ G u Hu) as (p & H & _). by eapply good_lt. Qed.

Lemma not_member t p : pcs st !! t = Some p -> parked p = false -> ~ member t.
Proof. intros H Hp Hu. destruct (g_in _ _ _ _ _ _ _ _ G t Hu) as (p' & H' & Hp' & _). congruence. Qed.

(** There is one owner of the link flag. *)
Lemma owner_link t p : pcs st !! t = Some p -> is_owner p = 1%nat -> l = true.
Proof. intros H Hp. pose proof (cnt_le is_owner _ _ _ H). rewrite (g_owner _ _ _ _ _ _ _ _ G) in *. destruct l; [done|lia]. Qed.

Lemma owner_unique t p t' p' : pcs st !! t = Some p -> is_owner p = 1%nat -> t' <> t ->
  pcs st !! t' = Some p' -> is_owner p' = 0%nat.
Proof.
  intros H Hp Hne H'. pose proof (cnt_le2 is_owner _ _ _ _ _ Hne H' H).
  rewrite (g_owner _ _ _ _ _ _ _ _ G) in *. destruct l; lia.
Qed.

Lemma no_owner t p : l = false -> pcs st !! t = Some p -> is_owner p = 0%nat.
Proof. intros -> H. pose proof (cnt_le is_owner _ _ _ H). rewrite (g_owner _ _ _ _ _ _ _ _ G) in *. lia. Qed.

(** A shared owner holds the lock, and so on. *)
Lemma sh_hold t p : pcs st !! t = Some p -> is_sh p = 1%nat -> h = true.
Proof.
  intros H Hp. pose proof (cnt_le is_sh _ _ _ H). pose proof (g_hold _ _ _ _ _ _ _ _ G) as Hh.
  unfold hold_ok in Hh. destruct w, h; try done; naive_solver lia.
Qed.

Lemma wait_flags : w = false -> l = false /\ m = false /\ Q = [].
Proof.
  intros ->. pose proof (g_hold _ _ _ _ _ _ _ _ G) as Hh. pose proof (g_queue _ _ _ _ _ _ _ _ G). simpl in *. naive_solver.
Qed.

Lemma wait_queue : w = true -> exists q Q', Q = q :: Q' /\ i = Z.of_nat q + 1.
Proof. intros ->. apply (g_queue _ _ _ _ _ _ _ _ G). Qed.

Lemma many_wait : m = true -> w = true /\ h = true.
Proof.
  intros ->. pose proof (g_hold _ _ _ _ _ _ _ _ G) as Hh. unfold hold_ok in Hh.
  destruct w, h; naive_solver.
Qed.

Lemma hold_many : h = false -> m = false.
Proof. intros Hh. apply not_true_is_false. intros Hm. destruct (many_wait Hm). congruence. Qed.

Lemma word_item : w = true -> exists q Q', Q = q :: Q' /\ item (word st) = addr q.
Proof.
  intros Hw. destruct (wait_queue Hw) as (q & Q' & -> & Hi). exists q, Q'. split; [done|].
  rewrite (g_word _ _ _ _ _ _ _ _ G), item_enc by apply (g_small _ _ _ _ _ _ _ _ G). by rewrite Hi.
Qed.

End Good.

(** ** Stability of the facts about a thread *)
Lemma thread_ok_many w m m' N Q Wt t q :
  m' = m \/ m' = false /\ is_sh q = 0%nat -> thread_ok w m N Q Wt t q -> thread_ok w m' N Q Wt t q.
Proof. intros [->|[-> H]]; [done|]. destruct q; simpl in *; try done; naive_solver. Qed.

Lemma cover_agree N N' Q f old : same_links N N' Q -> cover N Q f old -> cover N' Q f old.
Proof. intros H (A & x & O & u & Hn & ? & ?). exists A, x, O, u. by split; [eapply normal_agree|]. Qed.

Lemma walking_agree N N' Q f tail curr : same_links N N' Q -> walking N Q f tail curr -> walking N' Q f tail curr.
Proof.
  intros H [(A & T & S & x & O & Hn)|(A & T & O & Hn)]; [left|right].
  - exists A, T, S, x, O. by eapply at_null_agree.
  - exists A, T, O. by eapply at_top_agree.
Qed.

Lemma topped_agree N N' Q old tail first : same_links N N' Q -> topped N Q old tail first -> topped N' Q old tail first.
Proof. intros H (f & A & x & O & ? & Hn & ?). exists f, A, x, O. split_and!; [done|by eapply normal_agree|naive_solver..]. Qed.

Ltac unpack := repeat match goal with H : _ /\ _ |- _ => destruct H | H : exists _, _ |- _ => destruct H end.

(** Conjunctions and witnesses, each part by a hypothesis or by [tac]. *)
Ltac repack tac :=
  repeat match goal with |- _ /\ _ => split | |- exists _, _ => eexists end;
  first [eassumption | reflexivity | tac].

Lemma thread_ok_nodes w m N N' Q Wt t q :
  (parked q = false -> N' !!! t = N !!! t) ->
  (forall v, v ∈ Q -> head (N !!! v) <> 0 -> head (N' !!! v) <> 0) ->
  (forall v, v ∈ Wt -> next (N' !!! v) = next (N !!! v) /\
     (has (flags (N !!! v)) NODEF_SPIN = false -> has (flags (N' !!! v)) NODEF_SPIN = false)) ->
  is_owner q = 0%nat \/ same_links N N' Q ->
  thread_ok w m N Q Wt t q -> thread_ok w m N' Q Wt t q.
Proof.
  intros Ht Hh HW Ho Hok.
  assert (Hseg : forall p l q, (forall v, v ∈ l -> v ∈ Wt) -> segment N p l q -> segment N' p l q).
  { intros p l q' Hl. apply segment_agree. intros v Hv. by apply HW, Hl. }
  assert (Hn : is_owner q <> 0%nat -> same_links N N' Q) by (by destruct Ho).
  destruct q; simpl in *; try done; try (specialize (Hn ltac:(discriminate)));
    try (unpack; repack ltac:(eauto using normal_agree, at_null_agree, at_top_agree, cover_agree, walking_agree, topped_agree); fail).
  - by rewrite Ht.
  - destruct Hok as (? & (u & -> & ? & Hx) & f & A & x & O & ? & ?). split_and!; [done| |].
    + exists u. split_and!; [done..|]. by rewrite (proj1 (HW u ltac:(set_solver))).
    + exists f, A, x, O. split; [done|by eapply normal_agree].
  - destruct Hok as (u & l & -> & ? & ?). exists u, l. split_and!; [done..|]. eapply Hseg; [|done]. set_solver.
  - destruct Hok as (u & l & -> & ? & ? & ?). exists u, l. split_and!; [done..| |].
    + eapply Hseg; [|done]. set_solver.
    + apply (HW u ltac:(set_solver)). done.
Qed.

(** ** Changes of the word and of the place of one thread *)

(** Somebody will wake the queue of a lock that is free. *)
Definition live (w' : Z) (P : list pc) (Q : list nat) : Prop :=
  (exists t, P !! t = Some (ExCas w')) \/ (exists t p, P !! t = Some p /\ in_acquire p = true /\ (t ∉ Q)).

Lemma live_insert w' P Q t p p' : P !! t = Some p -> (in_acquire p = true -> in_acquire p' = true) ->
  p <> ExCas w' -> live w' P Q -> live w' (<[t := p']> P) Q.
Proof.
  intros Hp Ha Hne [[u Hu]|(u & q & Hu & Hq & Hin)].
  - left. exists u. rewrite list_lookup_insert_ne; [done|]. intros <-. congruence.
  - right. destruct (decide (u = t)) as [->|].
    + exists t, p'. rewrite list_lookup_insert_eq by (by eapply lookup_lt_Some). split_and!; [done| |done].
      apply Ha. congruence.
    + exists u, q. by rewrite list_lookup_insert_ne.
Qed.

Lemma live_intro w' P Q t p p' : P !! t = Some p -> in_acquire p' = true -> (t ∉ Q) -> live w' (<[t := p']> P) Q.
Proof. intros Hp Ha Hin. right. exists t, p'. by rewrite list_lookup_insert_eq by (by eapply lookup_lt_Some). Qed.

Lemma good_word {st i h w l m Q W} t p p' i' h' l' m' : good st i h w l m Q W -> pcs st !! t = Some p ->
  parked p' = parked p -> keyed p' = keyed p -> small i' -> (w = true -> i' = i) ->
  (let P := <[t := p']> (pcs st) in
   hold_ok i' h' w l' m' (cnt is_ex P) (cnt is_sh P) (cnt is_fin P) (snapshot (nodes st) Q) /\
   cnt is_owner P = (if l' then 1 else 0)%nat /\
   (w = true -> h' = false -> l' = false -> live (enc i' h' w l' m') P Q)) ->
  m' = m \/ m' = false /\ cnt is_sh (pcs st) = is_sh p ->
  (l' = false -> w = true -> exists f A x O, last Q = Some f /\ normal (nodes st) Q f A x O) ->
  thread_ok w m' (nodes st) Q (W t) t p' ->
  inv (State (enc i' h' w l' m') (nodes st) (<[t := p']> (pcs st))).
Proof.
  intros G Hp Epark Ekey Hi' Hi (Hh & Ho & Hl) Hm Hnorm Hok.
  assert (Ht : (t < length (pcs st))%nat) by (by eapply lookup_lt_Some).
  exists i', h', w, l', m', Q, W. destruct G. split; simpl; try done.
  - by rewrite length_insert.
  - by rewrite length_insert.
  - destruct w; [|done]. destruct g_queue0 as (q & Q' & ? & ?). exists q, Q'. split; [done|]. by rewrite Hi.
  - intros ->. apply g_many0. destruct Hm as [|[? _]]; congruence.
  - intros u Hu. destruct (g_in0 u Hu) as (q & Hq & ? & ?). destruct (decide (u = t)) as [->|].
    + exists p'. rewrite list_lookup_insert_eq by done. simplify_eq. rewrite Epark, Ekey. done.
    + exists q. by rewrite list_lookup_insert_ne.
  - intros u q Hq Hpq Hu Hw. destruct (decide (u = t)) as [->|].
    + rewrite list_lookup_insert_eq in Hq by done. injection Hq as <-. rewrite Ekey. rewrite Epark in Hpq. eauto.
    + rewrite list_lookup_insert_ne in Hq by done. eauto.
  - intros u q Hq. destruct (decide (u = t)) as [->|].
    + rewrite list_lookup_insert_eq in Hq by done. by injection Hq as <-.
    + rewrite list_lookup_insert_ne in Hq by done. eapply thread_ok_many; [|by eapply g_threads0].
      destruct Hm as [?|[-> Hs]]; [by left|right]. split; [done|].
      pose proof (cnt_le2 is_sh _ _ _ _ _ n Hq Hp). lia.
  - intros u Hu. apply g_none0. by rewrite list_lookup_insert_ne in Hu by (intros ->; rewrite list_lookup_insert_eq in Hu; done).
Qed.

Definition class (p : pc) : nat * nat * nat * nat * bool * bool :=
  (is_ex p, is_sh p, is_fin p, is_owner p, parked p, keyed p).

Lemma cnt_same f l t p p' : l !! t = Some p -> f p' = f p -> cnt f (<[t := p']> l) = cnt f l.
Proof. intros H E. pose proof (cnt_insert f l t p p' H). lia. Qed.

(** A step that only moves a thread. *)
Lemma good_go {st i h w l m Q W} t p p' : good st i h w l m Q W -> pcs st !! t = Some p ->
  class p' = class p -> (in_acquire p = true -> in_acquire p' = true) -> p <> ExCas (word st) ->
  thread_ok w m (nodes st) Q (W t) t p' -> inv (go st t p').
Proof.
  intros G Hp Ec Ha Hne Hok. injection Ec as E1 E2 E3 E4 E5 E6. unfold go. rewrite (g_word _ _ _ _ _ _ _ _ G).
  eapply (good_word t p p' i h l m); try done.
  - apply G.
  - cbv zeta. rewrite !(cnt_same _ _ _ _ _ Hp) by done. split_and!; [apply G|apply G|].
    intros Hw Hh Hl. rewrite <- (g_word _ _ _ _ _ _ _ _ G). eapply live_insert; [done..|].
    destruct (g_live _ _ _ _ _ _ _ _ G Hw Hh Hl) as [?|?]; [by left|by right].
  - by left.
  - apply G.
Qed.

(** The exchange of the word: the thread of [p] finds [old], or it moves. *)
Lemma good_cas {st i h w l m Q W} t p old new yes no : good st i h w l m Q W -> pcs st !! t = Some p ->
  (word st = old -> inv (State new (nodes st) (<[t := yes]> (pcs st)))) ->
  (word st <> old -> inv (go st t (no (word st)))) ->
  inv (cas st t old new yes no).
Proof. intros G Hp Hy Hn. unfold cas. destruct (Z.eqb_spec (word st) old); [by apply Hy|by apply Hn]. Qed.

(** ** Taking the lock *)
Lemma W_nil {st i h w l m Q W} t p : good st i h w l m Q W -> pcs st !! t = Some p ->
  match p with WakeCut _ _ | WakeUnlink _ _ | WakeNext _ _ | WakeBtr _ _ _ | WakeKey _ _ _
             | TryShared | TryRead | TryLoop _ => False | _ => True end -> W t = [].
Proof. intros G Hp H. pose proof (g_threads _ _ _ _ _ _ _ _ G t p Hp) as Ht. destruct p; simpl in *; try done; naive_solver. Qed.

(** Arithmetic on the counters after thread [t] has moved from [p] to [p']. *)
Ltac counters Hp p' :=
  cbv zeta;
  pose proof (cnt_insert is_ex _ _ _ p' Hp); pose proof (cnt_insert is_sh _ _ _ p' Hp);
  pose proof (cnt_insert is_fin _ _ _ p' Hp); pose proof (cnt_insert is_owner _ _ _ p' Hp);
  pose proof (cnt_le is_ex _ _ _ Hp); pose proof (cnt_le is_sh _ _ _ Hp);
  pose proof (cnt_le is_fin _ _ _ Hp); pose proof (cnt_le is_owner _ _ _ Hp);
  cbn [is_ex is_sh is_fin is_owner] in *.

(** A free lock is taken. *)
Lemma take_free {st i w l m Q W} t p k : good st i false w l m Q W -> pcs st !! t = Some p ->
  class p = (0, 0, 0, 0, false, false)%nat -> W t = [] ->
  inv (State (enc (match k with Exclusive => i | Shared => if w then i else i + 1 end) true w l m)
         (nodes st) (<[t := Own k]> (pcs st))).
Proof.
  intros G Hp Ec HW. injection Ec as E1 E2 E3 E4 E5 E6. pose proof (g_hold _ _ _ _ _ _ _ _ G) as Hh.
  pose proof (g_owner _ _ _ _ _ _ _ _ G) as Ho. unfold hold_ok in Hh.
  eapply (good_word t p); try done; try (by destruct k).
  - destruct k; [apply G|]. destruct w; [apply G|]. destruct Hh as (_ & _ & _ & -> & _). done.
  - intros ->. by destruct k.
  - counters Hp (Own k). split_and!; [|destruct k; simpl in *; lia|done]. unfold hold_ok.
    destruct w.
    + destruct Hh as (-> & ? & ? & ?). destruct k; simpl in *; lia.
    + destruct Hh as (-> & -> & ? & -> & ? & ?). destruct k; simpl in *; split_and!; try done; try lia; first [left; lia|right; lia].
  - by left.
  - apply G.
Qed.

Lemma cnt_bound f l : (forall p, (f p <= 1)%nat) -> (cnt f l <= length l)%nat.
Proof. intros H. induction l as [|p l IH]; [done|]. unfold cnt in *. simpl. specialize (H p). lia. Qed.

Lemma is_sh_1 p : (is_sh p <= 1)%nat.
Proof. destruct p; simpl; try lia. destruct k; lia. Qed.

(** A shared lock gets one more owner. *)
Lemma take_shared {st i Q W} t p : good st i true false false false Q W -> pcs st !! t = Some p -> i <> 0 ->
  class p = (0, 0, 0, 0, false, false)%nat -> W t = [] ->
  inv (State (enc (i + 1) true false false false) (nodes st) (<[t := Own Shared]> (pcs st))).
Proof.
  intros G Hp Hi Ec HW. injection Ec as E1 E2 E3 E4 E5 E6. pose proof (g_hold _ _ _ _ _ _ _ _ G) as Hh.
  pose proof (g_owner _ _ _ _ _ _ _ _ G) as Ho. simpl in Hh, Ho. destruct Hh as (_ & _ & Hf & [?|(? & ? & Hs)]); [lia|].
  pose proof (cnt_bound is_sh (pcs st) is_sh_1). pose proof (g_bound _ _ _ _ _ _ _ _ G).
  eapply (good_word t p); try done.
  - unfold small in *. lia.
  - counters Hp (Own Shared). simpl. split_and!; try done; try lia.
  - by left.
Qed.

Definition access_ok (st : state) (t : nat) (p : pc) : Prop := exists st', access st t p = Ok st' /\ inv st'.

Lemma start_ok {st i h w l m Q W} t k : good st i h w l m Q W -> pcs st !! t = Some (Start k) -> access_ok st t (Start k).
Proof.
  intros G Hp. eexists. split; [done|]. pose proof (W_nil _ _ G Hp I) as HW.
  pose proof (g_word _ _ _ _ _ _ _ _ G) as Ew. destruct k; simpl.
  - unfold bit0_set, set_word, go. simpl. rewrite Ew, has_hold, enc_lor_hold. destruct h.
    + rewrite <- Ew. by apply (good_go t (Start Exclusive) (Read Exclusive) G).
    + by apply (take_free t (Start Exclusive) Exclusive G).
  - eapply good_cas; [done|done|..].
    + intros E0. rewrite Ew in E0. apply enc_is_0 in E0 as (-> & -> & -> & -> & ->); [|apply G].
      by apply (take_free t (Start Shared) Shared G).
    + intros _. by apply (good_go t (Start Shared) (Loop Shared (word st)) G).
Qed.

Lemma try_exclusive_ok {st i h w l m Q W} t : good st i h w l m Q W -> pcs st !! t = Some TryExclusive ->
  access_ok st t TryExclusive.
Proof.
  intros G Hp. eexists. split; [done|]. pose proof (W_nil _ _ G Hp I) as HW. simpl.
  unfold bit0_set, set_word, go. simpl. rewrite (g_word _ _ _ _ _ _ _ _ G), has_hold, enc_lor_hold. destruct h.
  - rewrite <- (g_word _ _ _ _ _ _ _ _ G). by apply (good_go t TryExclusive Idle G).
  - by apply (take_free t TryExclusive Exclusive G).
Qed.

Lemma read_ok {st i h w l m Q W} t k : good st i h w l m Q W -> pcs st !! t = Some (Read k) -> access_ok st t (Read k).
Proof.
  intros G Hp. eexists. split; [done|]. pose proof (W_nil _ _ G Hp I) as HW. by apply (good_go t (Read k) _ G).
Qed.

(** A thread writes its node while the node is not queued. *)
Lemma good_own_node {st i h w l m Q W} t p p' n : good st i h w l m Q W -> pcs st !! t = Some p ->
  ~ member (Q := Q) (W := W) t -> parked p' = false ->
  (is_ex p', is_sh p', is_fin p', is_owner p') = (is_ex p, is_sh p, is_fin p, is_owner p) ->
  (in_acquire p = true -> in_acquire p' = true) -> p <> ExCas (word st) ->
  thread_ok w m (<[t := n]> (nodes st)) Q (W t) t p' ->
  inv (State (word st) (<[t := n]> (nodes st)) (<[t := p']> (pcs st))).
Proof.
  intros G Hp Hnm E5 Ec Ha Hne Hok. injection Ec as E1 E2 E3 E4.
  assert (HN : forall u, u <> t -> <[t := n]> (nodes st) !!! u = nodes st !!! u) by (intros; by apply node_upd_ne).
  assert (HQ : forall u, member (Q := Q) (W := W) u -> <[t := n]> (nodes st) !!! u = nodes st !!! u).
  { intros u Hu. apply HN. by intros ->. }
  assert (HQ' : forall u, u ∈ Q -> <[t := n]> (nodes st) !!! u = nodes st !!! u) by (intros; apply HQ; by left).
  assert (Hsl : same_links (nodes st) (<[t := n]> (nodes st)) Q) by (intros u Hu; by rewrite HQ').
  assert (Ht : (t < length (pcs st))%nat) by (by eapply lookup_lt_Some).
  exists i, h, w, l, m, Q, W. destruct G. split; simpl; try done; try (by rewrite !length_insert).
  - rewrite !(cnt_same _ _ _ _ _ Hp) by done. unfold snapshot in *. destruct (last Q) as [f|] eqn:El; [|done].
    rewrite HQ'; [done|]. apply last_Some in El as [? ->]. set_solver.
  - by rewrite !(cnt_same _ _ _ _ _ Hp).
  - eapply prev_chain_agree; [|done]. intros u Hu. by rewrite HQ'.
  - intros Hm. destruct (g_many0 Hm) as (f & El & Hf & Hall). exists f. split; [done|].
    rewrite HQ' by (apply last_Some in El as [? ->]; set_solver). split; [done|]. intros u Hu. rewrite HQ'; auto.
  - intros u Hu. rewrite HQ by done. destruct (g_in0 u Hu) as (q & Hq & ?). exists q.
    rewrite list_lookup_insert_ne; [done|]. by intros ->.
  - intros u q Hq Hpq Hu Hw. destruct (decide (u = t)) as [->|].
    + rewrite list_lookup_insert_eq in Hq by done. injection Hq as <-. congruence.
    + rewrite list_lookup_insert_ne in Hq by done. rewrite HN by done. eauto.
  - intros Hl Hw. destruct (g_norm0 Hl Hw) as (f & A & x & O & ? & ?). exists f, A, x, O. split; [done|].
    by eapply normal_agree.
  - intros u q Hq. destruct (decide (u = t)) as [->|].
    + rewrite list_lookup_insert_eq in Hq by done. by injection Hq as <-.
    + rewrite list_lookup_insert_ne in Hq by done. eapply thread_ok_nodes; [| | |by right|by eapply g_threads0].
      * intros _. by apply HN.
      * intros v Hv. by rewrite HQ'.
      * intros v Hv. rewrite HQ; [done|]. right. by exists u.
  - intros u Hu. apply g_none0. by rewrite list_lookup_insert_ne in Hu by (intros ->; rewrite list_lookup_insert_eq in Hu; done).
  - intros Hw Hh Hl. eapply live_insert; [done..|]. by apply g_live0.
Qed.

(** A node of the queue or of a list is written. *)
Lemma good_node {st i h w l m Q W} t p p' u n : good st i h w l m Q W -> pcs st !! t = Some p ->
  member (Q := Q) (W := W) u -> parked p' = parked p -> is_owner p' = is_owner p ->
  (in_acquire p = true -> in_acquire p' = true) -> p <> ExCas (word st) -> prev n = prev (nodes st !!! u) ->
  (let N' := <[u := n]> (nodes st) in let P := <[t := p']> (pcs st) in
   hold_ok i h w l m (cnt is_ex P) (cnt is_sh P) (cnt is_fin P) (snapshot N' Q) /\
   (same_links (nodes st) N' Q \/ is_owner p = 1%nat) /\
   thread_ok w m N' Q (W t) t p') ->
  head n = head (nodes st !!! u) \/ (forall f, last Q = Some f -> head n = addr f) ->
  (flags n = flags (nodes st !!! u) /\ keyed p' = keyed p \/
   u = t /\ has (flags n) NODEF_SPIN = negb (keyed p') /\ has (flags n) NODEF_SPIN = false) ->
  (forall t', t' <> t -> u ∈ W t' -> next n = next (nodes st !!! u)) ->
  inv (State (word st) (<[u := n]> (nodes st)) (<[t := p']> (pcs st))).
Proof.
  intros G Hp Hu Epark Eown Ha Hne Eprev (Hh & Hsl & Hok) Hhead Hflag Hnext.
  assert (Ht : (t < length (pcs st))%nat) by (by eapply lookup_lt_Some).
  pose proof (member_lt G u Hu) as Hlt. set (N' := <[u := n]> (nodes st)) in *.
  assert (HN : forall v, v <> u -> N' !!! v = nodes st !!! v) by (intros; by apply node_upd_ne).
  assert (Hun : N' !!! u = n) by (by apply node_upd_eq).
  exists i, h, w, l, m, Q, W. pose proof G as G'. destruct G'. split; cbn [word nodes pcs]; try done.
  - unfold N'. by rewrite !length_insert.
  - by rewrite length_insert.
  - by rewrite (cnt_same _ _ _ _ _ Hp).
  - eapply prev_chain_agree; [|done]. intros v Hv. by apply (upd_field prev).
  - intros Hm. destruct (g_many0 Hm) as (f & El & Hf & Hall). exists f. split; [done|].
    assert (Hc : forall v, head (N' !!! v) = head (nodes st !!! v) \/ head (N' !!! v) = addr f).
    { intros v. destruct (decide (v = u)) as [->|]; [rewrite Hun|left; by rewrite HN].
      destruct Hhead as [?|Hhd]; [by left|right; by apply Hhd]. }
    split; [destruct (Hc f) as [->| ->]; done|]. intros v Hv. destruct (Hc v) as [->| ->]; [by apply Hall|by right].
  - intros v Hv. destruct (g_in0 v Hv) as (q & Hq & Hpq & Hfq). destruct (decide (v = t)) as [->|Hvt].
    + assert (q = p) as -> by congruence. exists p'. rewrite list_lookup_insert_eq by done. rewrite Epark. split_and!; [done..|].
      destruct Hflag as [[Ef Ek]|(-> & Ef & _)]; [|by rewrite Hun]. rewrite Ek.
      destruct (decide (t = u)) as [->|]; [by rewrite Hun, Ef|by rewrite HN].
    + exists q. rewrite list_lookup_insert_ne by done. split_and!; [done..|].
      destruct (decide (v = u)) as [->|]; [|by rewrite HN]. rewrite Hun.
      destruct Hflag as [[-> _]|(? & _)]; done.
  - intros v q Hq Hpq Hv Hw. assert (v <> u) by (intros ->; destruct Hu as [?|[t' ?]]; [done|by apply (Hw t')]).
    rewrite HN by done. destruct (decide (v = t)) as [->|].
    + rewrite list_lookup_insert_eq in Hq by done. injection Hq as <-. rewrite Epark in Hpq.
      destruct Hflag as [[_ ->]|(? & _)]; [eauto|done].
    + rewrite list_lookup_insert_ne in Hq by done. eauto.
  - intros Hl Hw. destruct (g_norm0 Hl Hw) as (f & A & x & O & ? & ?). exists f, A, x, O. split; [done|].
    eapply normal_agree; [|done]. destruct Hsl as [?|Ho]; [done|]. pose proof (owner_link G t p Hp Ho). congruence.
  - intros v q Hq. destruct (decide (v = t)) as [->|Hvt].
    + rewrite list_lookup_insert_eq in Hq by done. by injection Hq as <-.
    + rewrite list_lookup_insert_ne in Hq by done. eapply thread_ok_nodes; [..|by eapply g_threads0].
      * intros Hpq. apply HN. intros ->. by eapply (not_member G).
      * intros x Hx Hx0. destruct (decide (x = u)) as [->|]; [|by rewrite HN]. rewrite Hun.
        destruct Hhead as [->|Hhd]; [done|]. destruct (last Q) as [f|] eqn:El.
        { rewrite (Hhd f eq_refl). apply addr_pos. } apply last_None in El as ->. by apply elem_of_nil in Hx.
      * intros x Hx. destruct (decide (x = u)) as [->|]; [|by rewrite HN]. rewrite Hun.
        split; [by eapply Hnext|]. destruct Hflag as [[-> _]|(_ & _ & ->)]; done.
      * destruct Hsl as [?|Ho]; [by right|left]. by eapply (owner_unique G t p).
  - intros v Hv. apply g_none0. by rewrite list_lookup_insert_ne in Hv by (intros ->; rewrite list_lookup_insert_eq in Hv; done).
  - intros Hw Hh0 Hl. eapply live_insert; [done..|]. by apply g_live0.
Qed.

End SrwSteps.
