(* ===== verification/SrwAcquire.v ===== *)
(** * Slim reader/writer locks: acquiring the lock keeps the invariant *)
From S2P Require Import Prelude Srw SrwWord SrwQueue SrwInv SrwSteps.
Import Srw SrwWord SrwQueue SrwInv SrwSteps.
Set Warnings "-clear-no-such-hyp".

Module SrwAcquire.

Lemma loop_ok {st i h w l m Q W} t k old : good st i h w l m Q W -> pcs st !! t = Some (Loop k old) ->
  access_ok st t (Loop k old).
Proof.
  intros G Hp. pose proof (W_nil _ _ G Hp I) as HW. unfold access_ok. simpl. unfold acquire_loop.
  destruct (must_wait k old) eqn:Ek.
  - rewrite (store_acquire G t _ _ Hp), bind_ok by done. eexists. split; [done|].
    unfold go. cbn [word nodes pcs]. apply (good_own_node t (Loop k old) _ _ G); try done; [by eapply (not_member G)|].
    split_and!; [done|by destruct (queue_word k t old)|done|].
    exists (nodes st !!! t). rewrite node_upd_eq; [done|by eapply good_lt].
  - eexists. split; [done|]. eapply good_cas; [done|done|..].
    + intros <-. rewrite (g_word _ _ _ _ _ _ _ _ G) in *.
      pose proof (g_hold _ _ _ _ _ _ _ _ G) as Hh. pose proof (wait_flags G) as Hf.
      rewrite take_word_enc; [|apply G|done|].
      2: { intros Hw. destruct (Hf Hw) as (-> & -> & _). split_and!; [done..|]. intros ->. subst w. by destruct Hh as (_ & _ & _ & ? & _). }
      destruct h; [|by eapply (take_free t _ k G)].
      unfold must_wait in Ek. rewrite has_hold, ?has_wait, ?item_enc in Ek by apply G.
      destruct k; [done|]. simpl in Ek. destruct w; [done|]. destruct (Hf eq_refl) as (-> & -> & _).
      eapply (take_shared t _ G); [done| |done..]. simpl in Ek. destruct (Z.eqb_spec (16 * i) 0); [done|lia].
    + intros _. by apply (good_go t (Loop k old) (Read k) G).
Qed.

Lemma last_cons_ne {A} (a b : A) l : last (a :: b :: l) = last (b :: l).
Proof. done. Qed.

(** Another thread queues its node. *)
Lemma thread_ok_enqueue w m m' N Q Wt t u q :
  (w = true -> m' = m /\ Q <> [] /\ head (N !!! t) = 0 /\ next (N !!! t) = 0) ->
  (w = false -> is_owner q = 0%nat /\ m = false) ->
  thread_ok w m N Q Wt u q -> thread_ok true m' N (t :: Q) Wt u q.
Proof.
  intros Hw Hnw Hok. destruct w.
  - destruct (Hw eq_refl) as (-> & HQ & Hh & Hn). clear Hw Hnw.
    assert (El : last (t :: Q) = last Q) by (by destruct Q).
    assert (Hc : forall f old, cover N Q f old -> cover N (t :: Q) f old).
    { intros f old (A & x & O & v & ? & ? & ?). exists (t :: A), x, O, v.
      split_and!; [by apply normal_enqueue|done|set_solver]. }
    assert (Hwk : forall f a b, walking N Q f a b -> walking N (t :: Q) f a b).
    { intros f a b [(A & T & S & x & O & ?)|(A & T & O & ?)]; [left|right].
      - exists (t :: A), T, S, x, O. by apply at_null_enqueue.
      - exists (t :: A), T, O. by apply at_top_enqueue. }
    assert (Ht : forall old tail first, topped N Q old tail first -> topped N (t :: Q) old tail first).
    { intros old tail first (f & A & x & O & ? & ? & ?). exists f, (t :: A), x, O. rewrite El.
      split_and!; [done|by apply normal_enqueue|naive_solver..]. }
    destruct q; simpl in *; rewrite ?El; try done;
      try (unpack; repack ltac:(eauto using normal_enqueue, at_null_enqueue, at_top_enqueue); fail).
    + destruct Hok as [? Ho]. split; [done|]. intros Hold. destruct (Ho Hold) as (_ & ? & Hu). split_and!; [done..|].
      intros Hm. destruct (Hu Hm) as (v & ? & ?). exists v. split; [set_solver|done].
    + destruct Hok as (? & ? & v & ? & ?). split_and!; [done..|]. exists v. split; [set_solver|done].
    + destruct Hok as (? & ? & v & ? & ?). split_and!; [done..|]. exists v. split; [set_solver|done].
    + destruct Hok as (? & ? & v & ? & ?). split_and!; [done..|]. exists v. split; [set_solver|done].
    + destruct Hok as (? & ? & f & A & x & O & v & ? & ? & ? & ? & ? & ?). split_and!; [done..|].
      exists f, (t :: A), x, O, v. split_and!; [done|by apply normal_enqueue|done..|set_solver].
  - destruct (Hnw eq_refl) as [Ho ->]. clear Hw Hnw. destruct q; simpl in *; try done; naive_solver.
Qed.

Lemma queue_node_spin k t old n : has (flags (queue_node k t old n)) NODEF_SPIN = true.
Proof. unfold queue_node. by destruct (has old SRWF_Wait), k. Qed.

Lemma queue_node_wait k t i h l m n : let nd := queue_node k t (enc i h true l m) n in
  small i -> prev nd = 16 * i /\ head nd = 0 /\ next nd = 0.
Proof. cbv zeta. intros Hi. unfold queue_node. by rewrite has_wait, item_enc. Qed.

Lemma queue_node_first k t i h n : let nd := queue_node k t (enc i h false false false) n in
  head nd = addr t /\ next nd = 0 /\ (k = Exclusive -> shareSnapshot nd = i).
Proof. cbv zeta. unfold queue_node. rewrite has_wait, enc_shiftr. split_and!; [done..|]. by intros ->. Qed.

Lemma must_wait_enc k i h w l m : small i -> must_wait k (enc i h w l m) = true ->
  h = true /\ (k = Shared -> w = true \/ i = 0).
Proof.
  intros Hi. unfold must_wait. rewrite has_hold, ?has_wait, ?item_enc by done. destruct k.
  - by intros ->.
  - intros [-> [->|Hz]%orb_true_iff]%andb_true_iff; split; [done|by left|done|]. apply Z.eqb_eq in Hz. right. lia.
Qed.

(** The owners are the same after the node was queued. *)
Lemma hold_enqueue k i i' w l m ex sh fin snap snap' :
  hold_ok i true w l m ex sh fin snap -> (k = Shared -> w = true \/ i = 0) ->
  (w = true -> snap' = snap) -> (w = false -> k = Exclusive -> snap' = i) ->
  hold_ok i' true true w (if w then m else match k with Exclusive => 1 <? i | Shared => false end) ex sh fin snap'.
Proof.
  intros Hh Hk Hw Hnw. unfold hold_ok in *. destruct w.
  - by rewrite Hw.
  - destruct Hh as (_ & _ & -> & Hh). destruct k.
    + specialize (Hnw eq_refl eq_refl). destruct (Z.ltb_spec 1 i); lia.
    + destruct (Hk eq_refl) as [?| ->]; [done|]. lia.
Qed.

Lemma enqueue_ok {st i h w l m Q W} t k new opt : good st i h w l m Q W ->
  pcs st !! t = Some (Enq k (word st) new opt) ->
  inv (State new (nodes st) (<[t := if opt then CompLoop new (Park k (word st)) else Wait k (word st)]> (pcs st))).
Proof.
  intros G Hp. destruct (g_threads _ _ _ _ _ _ _ _ G t _ Hp) as (HW & Eq & Ek & n & En).
  pose proof (g_word _ _ _ _ _ _ _ _ G) as Ew. pose proof (g_small _ _ _ _ _ _ _ _ G) as Hi.
  rewrite Ew in Eq, Ek, En. destruct (must_wait_enc _ _ _ _ _ _ Hi Ek) as [-> Hk].
  rewrite queue_word_enc in Eq; [|done|done|]. 2: { intros Hw. destruct (wait_flags G Hw) as (-> & -> & _). done. }
  injection Eq as <- <-. set (m' := if w then m else _). set (p' := if w && negb l then _ else _).
  assert (Hpp : parked p' = true /\ keyed p' = false /\ is_ex p' = 0%nat /\ is_sh p' = 0%nat /\ is_fin p' = 0%nat)
    by (unfold p'; by destruct (w && negb l)). destruct Hpp as (Hpk & Hky & E1 & E2 & E3).
  pose proof (not_member G t _ Hp eq_refl) as Hnm.
  assert (Ht : (t < length (pcs st))%nat) by (by eapply lookup_lt_Some).
  assert (Hfirst : w = false -> Q = [] /\ l = false /\ m = false) by (intros Hw; by destruct (wait_flags G Hw) as (? & ? & ?)).
  assert (Hwait : w = true -> Q <> [] /\ head (nodes st !!! t) = 0 /\ next (nodes st !!! t) = 0 /\ prev (nodes st !!! t) = 16 * i).
  { intros ->. destruct (wait_queue G eq_refl) as (q & Q' & -> & _). split; [done|].
    destruct (queue_node_wait k t i true l m n Hi) as (? & ? & ?). by rewrite En. }
  exists (Z.of_nat t + 1), true, true, w, m', (t :: Q), W. pose proof G as G'. destruct G'. split; cbn [word nodes pcs]; try done.
  - unfold small. lia.
  - by rewrite length_insert.
  - by rewrite length_insert.
  - rewrite !(cnt_same _ _ _ _ _ Hp) by done.
    eapply hold_enqueue; [done|done|..].
    + intros Hw. destruct (Hwait Hw) as (HQ & _). unfold snapshot. by destruct Q.
    + intros Hw ->. destruct (Hfirst Hw) as (-> & -> & ->). subst w. unfold snapshot. simpl. rewrite En.
      by destruct (queue_node_first Exclusive t i true n) as (_ & _ & ->).
  - pose proof (cnt_insert is_owner _ _ _ p' Hp). rewrite g_owner0 in *. simpl in *. unfold p' in *.
    destruct w, l; simpl in *; try lia.
  - by exists t, Q.
  - split; [|done]. destruct w; [|by destruct (Hfirst eq_refl) as (-> & _)].
    destruct g_queue0 as (q & Q' & -> & ->). destruct (Hwait eq_refl) as (_ & _ & _ & ->). done.
  - intros Hm. unfold m' in Hm. destruct w.
    + destruct (Hwait eq_refl) as (HQ & Hh0 & _). destruct (g_many0 Hm) as (f & El & Hf & Hall). exists f.
      split_and!; [by destruct Q|done|]. intros u [->|Hu]%elem_of_cons; [by left|by apply Hall].
    + destruct (Hfirst eq_refl) as (-> & -> & ->). exists t. rewrite En.
      destruct (queue_node_first k t i true n) as (Hhd & _). split_and!; [done..|].
      intros u Hu. apply list_elem_of_singleton in Hu as ->. right. by rewrite En.
  - apply NoDup_cons. split; [|done]. intros Hin. apply Hnm. by left.
  - intros t' u Hu [->|Hin]%elem_of_cons; [|by eapply g_disj0]. apply Hnm. right. by exists t'.
  - intros u Hu. destruct (decide (u = t)) as [->|Hne].
    + exists p'. rewrite list_lookup_insert_eq by done. rewrite Hpk, Hky, En, queue_node_spin. done.
    + rewrite list_lookup_insert_ne by done. apply g_in0. destruct Hu as [Hu|Hu]; [|by right].
      apply elem_of_cons in Hu as [?|?]; [done|by left].
  - intros u q Hq Hpq Hu Hw. apply not_elem_of_cons in Hu as [Hne Hu]. rewrite list_lookup_insert_ne in Hq by done. eauto.
  - intros -> _. destruct (Hfirst eq_refl) as (-> & -> & ->). exists t, [], t, []. split; [done|].
    destruct (queue_node_first k t i true n) as (? & ? & _). apply normal_first; by rewrite En.
  - intros u q Hq. destruct (decide (u = t)) as [->|Hne].
    + rewrite list_lookup_insert_eq in Hq by done. injection Hq as <-. unfold p'.
      destruct w; [destruct l|]; simpl; try done. destruct (Hwait eq_refl) as (HQ & Hh0 & Hn0 & _).
      split_and!; [done|by rewrite has_hold|]. destruct (g_norm0 eq_refl eq_refl) as (f & A & x & O & El & Hnm0).
      exists f. split; [by destruct Q|]. exists (t :: A), x, O, t. split_and!; [by apply normal_enqueue| |set_solver].
      rewrite item_enc; [done|]. unfold small. lia.
    + rewrite list_lookup_insert_ne in Hq by done. eapply (thread_ok_enqueue w m); [..|by apply g_threads0].
      * intros Hw. destruct (Hwait Hw) as (? & ? & ? & _). unfold m'. by rewrite Hw.
      * intros Hw. destruct (Hfirst Hw) as (_ & Hl & ?). split; [|done]. by eapply (no_owner G).
  - intros u Hu. apply g_none0. by rewrite list_lookup_insert_ne in Hu by (intros ->; rewrite list_lookup_insert_eq in Hu; done).
Qed.

Lemma enq_ok {st i h w l m Q W} t k old new opt : good st i h w l m Q W ->
  pcs st !! t = Some (Enq k old new opt) -> access_ok st t (Enq k old new opt).
Proof.
  intros G Hp. eexists. split; [done|]. eapply good_cas; [done|done|..].
  - intros <-. by eapply enqueue_ok.
  - intros _. pose proof (W_nil _ _ G Hp I). by apply (good_go t (Enq k old new opt) (Read k) G).
Qed.

End SrwAcquire.
