(* ===== verification/SrwRelease.v ===== *)
(** * Slim reader/writer locks: waiting and releasing keep the invariant *)
From S2P Require Import Prelude Srw SrwWord SrwQueue SrwInv SrwSteps.
Import Srw SrwWord SrwQueue SrwInv SrwSteps.
Set Warnings "-clear-no-such-hyp".

Module SrwRelease.

(** ** The wait of a queued thread *)
Lemma member_dec {st i h w l m Q W} u : good st i h w l m Q W ->
  {member (Q := Q) (W := W) u} + {~ member (Q := Q) (W := W) u}.
Proof.
  intros G. destruct (decide (u ∈ Q)); [by left; left|].
  destruct (decide (Exists (fun t => u ∈ W t) (seq 0 (length (pcs st))))) as [He|He].
  - left. right. apply Exists_exists in He as (t & _ & ?). by exists t.
  - right. intros [?|[t Ht]]; [done|]. apply He, Exists_exists. exists t. split; [|done].
    apply elem_of_seq. split; [lia|]. destruct (decide (t < length (pcs st))%nat); [done|].
    rewrite (g_none _ _ _ _ _ _ _ _ G t) in Ht; [by apply elem_of_nil in Ht|]. apply lookup_ge_None_2. lia.
Qed.

Lemma spin_cleared f : has (Z.ldiff f NODEF_SPIN) NODEF_SPIN = false.
Proof.
  unfold has. replace (Z.land (Z.ldiff f NODEF_SPIN) NODEF_SPIN) with 0; [done|].
  apply Z.bits_inj'; intros n _. rewrite Z.land_spec, Z.ldiff_spec, Z.bits_0.
  by destruct (Z.testbit f n), (Z.testbit NODEF_SPIN n).
Qed.

Lemma snapshot_agree N N' Q : (forall u, shareSnapshot (N' !!! u) = shareSnapshot (N !!! u)) -> snapshot N' Q = snapshot N Q.
Proof. intros H. unfold snapshot. by destruct (last Q). Qed.

Lemma same_links_upd N Q u n : head n = head (N !!! u) -> next n = next (N !!! u) -> same_links N (<[u := n]> N) Q.
Proof. intros Hh Hn v _. by rewrite (upd_field head), (upd_field next). Qed.

Lemma wait_ok {st i h w l m Q W} t k old : good st i h w l m Q W -> pcs st !! t = Some (Wait k old) ->
  access_ok st t (Wait k old).
Proof.
  intros G Hp. pose proof (W_nil _ _ G Hp I) as HW. unfold access_ok. simpl. unfold wait_step, spin_reset.
  rewrite (load_acquire G t _ Hp), bind_ok, (store_acquire G t _ _ Hp), !bind_ok by done. eexists. split; [done|].
  unfold go. cbn [word nodes pcs]. destruct (member_dec t G) as [Hm|Hm].
  - destruct (g_in _ _ _ _ _ _ _ _ G t Hm) as (q & Hq & _ & Hs). assert (q = Wait k old) as -> by congruence. rewrite Hs. simpl.
    apply (good_node t (Wait k old) _ t _ G Hp); try done.
    + cbv zeta. rewrite !(cnt_same _ _ _ _ _ Hp) by done. split_and!; [|left; by apply same_links_upd|done].
      rewrite (snapshot_agree (nodes st)); [apply G|]. intros u. by apply (upd_field shareSnapshot).
    + by left.
    + right. split_and!; [done|exact (spin_cleared _)|exact (spin_cleared _)].
  - destruct (g_out _ _ _ _ _ _ _ _ G t _ Hp eq_refl) as [_ Hs].
    { intros ?. apply Hm. by left. } { intros t' ?. apply Hm. right. by exists t'. }
    rewrite Hs. by apply (good_own_node t (Wait k old) _ _ G).
Qed.

(** ** RtlReleaseSRWLockExclusive *)
Lemma enc_range i h w l m : small i -> 0 <= enc i h w l m < 2 ^ 32.
Proof. unfold small, enc. intros. pose proof (flags_range h w l m). lia. Qed.

Lemma own_exclusive_ok {st i h w l m Q W} t : good st i h w l m Q W -> pcs st !! t = Some (Own Exclusive) ->
  access_ok st t (Own Exclusive).
Proof.
  intros G Hp. eexists. split; [done|]. pose proof (W_nil _ _ G Hp I) as HW.
  pose proof (cnt_le is_ex _ _ _ Hp) as Hex. simpl in Hex.
  pose proof (g_hold _ _ _ _ _ _ _ _ G) as Hh. unfold hold_ok in Hh.
  assert (Eh : h = true) by (destruct w, h; try done; lia). subst h.
  assert (Em : m = false) by (destruct w, m; try done; lia). subst m.
  unfold release_exclusive, go, set_word. cbn [word nodes pcs]. rewrite (g_word _ _ _ _ _ _ _ _ G), has_wait, has_link, enc_sub_hold.
  rewrite u32_small by (apply enc_range, G). set (p' := if w && negb l then _ else _).
  apply (good_word t (Own Exclusive) p' i false l false G); try done.
  - unfold p'. by destruct (w && negb l).
  - unfold p'. by destruct (w && negb l).
  - apply G.
  - pose proof (g_owner _ _ _ _ _ _ _ _ G). counters Hp p'.
    assert (is_ex p' = 0 /\ is_sh p' = 0 /\ is_fin p' = 0 /\ is_owner p' = 0)%nat as (E1 & E2 & E3 & E4)
      by (unfold p'; by destruct (w && negb l)).
    split_and!; [|lia|].
    + unfold hold_ok. destruct w; [split_and!; try done; lia|]. destruct Hh as (-> & _ & ? & ?). split_and!; try done; lia.
    + intros -> _ ->. left. exists t. by rewrite list_lookup_insert_eq by (by eapply lookup_lt_Some).
  - by left.
  - apply G.
  - unfold p'. destruct w, l; simpl; try done. by rewrite has_wait, has_link, has_hold.
Qed.

Lemma head_cover N Q f A x O q Q' : normal N Q f A x O -> Q = q :: Q' -> q ∈ A ++ [x].
Proof. intros [-> _ _ _ _]. destruct A as [|a A]; simpl; intros [= ->]; set_solver. Qed.

(** The current word covers the queue. *)
Lemma cover_now {st i h w l m Q W} h' l' m' : good st i h w l m Q W -> w = true -> forall f A x O,
  last Q = Some f -> normal (nodes st) Q f A x O -> cover (nodes st) Q f (enc i h' w l' m').
Proof.
  intros G Hw f A x O Hl Hn. destruct (wait_queue G Hw) as (q & Q' & EQ & Ei). exists A, x, O, q. split_and!; [done| |].
  - rewrite item_enc by apply G. by rewrite Ei.
  - by eapply head_cover.
Qed.

Lemma ex_cas_ok {st i h w l m Q W} t old : good st i h w l m Q W -> pcs st !! t = Some (ExCas old) ->
  access_ok st t (ExCas old).
Proof.
  intros G Hp. eexists. split; [done|]. destruct (g_threads _ _ _ _ _ _ _ _ G t _ Hp) as (HW & H1 & H2 & H3).
  eapply good_cas; [done|done|..].
  - intros <-. rewrite (g_word _ _ _ _ _ _ _ _ G) in *. rewrite has_wait, has_link, has_hold in *. subst w l h.
    rewrite enc_add_link. pose proof (g_owner _ _ _ _ _ _ _ _ G).
    apply (good_word t (ExCas (enc i false true false m)) _ i false true m G); try done.
    + apply G.
    + counters Hp (WakeLoop (enc i false true true m) Return). split_and!; [|lia|done].
      pose proof (g_hold _ _ _ _ _ _ _ _ G) as Hh. unfold hold_ok in *. split_and!; [naive_solver|lia..].
    + by left.
    + split_and!; [done|intros _; by apply (hold_many G)|].
      destruct (g_norm _ _ _ _ _ _ _ _ G eq_refl eq_refl) as (f & A & x & O & El & Hn). exists f. split; [done|].
      by eapply (cover_now false true m G).
  - intros Hne. apply (good_go t (ExCas old) Idle G); try done. congruence.
Qed.

(** ** RtlReleaseSRWLockShared *)

(** A shared owner that has read the word. *)
Lemma sh_cas_now {st i h w l m Q W} t p : good st i h w l m Q W -> pcs st !! t = Some p -> W t = [] ->
  is_sh p = 1%nat -> class p = class (ShCas 0) -> inv (go st t (ShCas (word st))).
Proof.
  intros G Hp HW Hs Hc. apply (good_go t p _ G); try done.
  - intros Ha. by destruct p as [| | | | | | |[]| | | | | | | | | | | | | | | | | | | | | | | | | | | | |].
  - intros ->. done.
  - split; [done|]. rewrite (g_word _ _ _ _ _ _ _ _ G), has_wait, has_many. intros Hw. split_and!; [done..|].
    intros _. destruct (word_item G Hw) as (q & Q' & -> & E). exists q. split; [set_solver|].
    by rewrite <- (g_word _ _ _ _ _ _ _ _ G).
Qed.

(** The count of a lock without waiting threads goes down. *)
Lemma shared_count_down {st i Q W} t p : good st i true false false false Q W -> pcs st !! t = Some p -> W t = [] ->
  is_sh p = 1%nat -> class p = class (ShCas 0) ->
  0 < i /\ inv (State (enc (i - 1) (1 <? i) false false false) (nodes st) (<[t := Idle]> (pcs st))).
Proof.
  intros G Hp HW Hs Ec. injection Ec as E1 E2 E3 E4 E5 E6.
  pose proof (g_hold _ _ _ _ _ _ _ _ G) as Hh. pose proof (cnt_le is_sh _ _ _ Hp) as Hle. pose proof (g_owner _ _ _ _ _ _ _ _ G).
  simpl in Hh. assert (0 < i) by lia. split; [done|]. pose proof (g_small _ _ _ _ _ _ _ _ G) as Hi. unfold small in Hi.
  apply (good_word t p Idle (i - 1) (1 <? i) false false G); try done.
  - unfold small. lia.
  - counters Hp Idle. unfold hold_ok. split_and!; try done; try lia. destruct (Z.ltb_spec 1 i); lia.
  - by left.
Qed.

Lemma own_shared_ok {st i h w l m Q W} t : good st i h w l m Q W -> pcs st !! t = Some (Own Shared) ->
  access_ok st t (Own Shared).
Proof.
  intros G Hp. eexists. split; [done|]. pose proof (W_nil _ _ G Hp I) as HW. eapply good_cas; [done|done|..].
  - intros E. change (Z.lor SRW_COUNT SRWF_Hold) with (enc 1 true false false false) in E.
    rewrite (g_word _ _ _ _ _ _ _ _ G) in E. apply enc_inj in E as (-> & -> & -> & -> & ->).
    by destruct (shared_count_down t (Own Shared) G Hp HW) as [_ ?].
  - intros _. by apply (sh_cas_now t (Own Shared) G).
Qed.

Lemma sh_cas_ok {st i h w l m Q W} t old : good st i h w l m Q W -> pcs st !! t = Some (ShCas old) ->
  access_ok st t (ShCas old).
Proof.
  intros G Hp. eexists. split; [done|]. destruct (g_threads _ _ _ _ _ _ _ _ G t _ Hp) as (HW & Hold).
  pose proof (sh_hold G t _ Hp eq_refl) as ->. unfold release_shared_loop. destruct (has old SRWF_Wait) eqn:Ew; cbn [negb].
  - destruct (Hold eq_refl) as (-> & Em & Hu). rewrite Em. destruct m.
    + apply (good_go t (ShCas old) _ G); try done. split_and!; [done..|by apply Hu].
    + unfold go. rewrite (g_word _ _ _ _ _ _ _ _ G).
      apply (good_word t (ShCas old) (ShClear old) i true l false G); try done.
      * apply G.
      * pose proof (g_owner _ _ _ _ _ _ _ _ G). pose proof (g_hold _ _ _ _ _ _ _ _ G) as Hh. simpl in Hh.
        counters Hp (ShClear old). unfold hold_ok. split_and!; [lia|lia|done].
      * by left.
      * apply G.
  - eapply good_cas; [done|done|..].
    + intros <-. rewrite (g_word _ _ _ _ _ _ _ _ G) in *. rewrite has_wait in Ew. subst w.
      destruct (wait_flags G eq_refl) as (-> & -> & _).
      destruct (shared_count_down t (ShCas (enc i true false false false)) G Hp HW) as [? ?]; try done.
      rewrite shared_count_word_enc; [done|apply G|done].
    + intros _. by apply (sh_cas_now t (ShCas old) G).
Qed.

Lemma sh_walk_ok {st i h w l m Q W} t old curr : good st i h w l m Q W -> pcs st !! t = Some (ShWalk old curr) ->
  access_ok st t (ShWalk old curr).
Proof.
  intros G Hp. destruct (g_threads _ _ _ _ _ _ _ _ G t _ Hp) as (HW & Hm & u & Hu & ->).
  unfold access_ok. simpl. rewrite (load_member G) by (by left). rewrite bind_ok. eexists. split; [done|].
  destruct (Z.eqb_spec (head (nodes st !!! u)) 0) as [E|E]; apply (good_go t (ShWalk old (addr u)) _ G); try done.
  - split_and!; [done..|]. exists u. split_and!; [done..|]. intros Hl.
    destruct (g_many _ _ _ _ _ _ _ _ G Hm) as (f & Hf & Hhf & _). rewrite Hl in Hf. injection Hf as ->.
    rewrite Hhf in E. by apply addr_pos in E.
  - split_and!; [done..|]. by exists u.
Qed.

Lemma prev_in N Q u : prev_chain N Q -> u ∈ Q -> last Q <> Some u -> exists v, v ∈ Q /\ prev (N !!! u) = addr v.
Proof.
  intros Hp (Q1 & Q2 & ->)%list_elem_of_split Hl. destruct Q2 as [|v Q2]; [by rewrite last_snoc in Hl|].
  exists v. split; [set_solver|]. by eapply prev_chain_app.
Qed.

Lemma sh_prev_ok {st i h w l m Q W} t old curr : good st i h w l m Q W -> pcs st !! t = Some (ShPrev old curr) ->
  access_ok st t (ShPrev old curr).
Proof.
  intros G Hp. destruct (g_threads _ _ _ _ _ _ _ _ G t _ Hp) as (HW & Hm & u & Hu & -> & Hl).
  unfold access_ok. simpl. rewrite (load_member G) by (by left). rewrite bind_ok. eexists. split; [done|].
  destruct (prev_in _ _ _ (g_prev _ _ _ _ _ _ _ _ G) Hu Hl) as (v & Hv & ->).
  apply (good_go t (ShPrev old (addr u)) _ G); try done. split_and!; [done..|]. by exists v.
Qed.

Lemma sh_head_ok {st i h w l m Q W} t old curr : good st i h w l m Q W -> pcs st !! t = Some (ShHead old curr) ->
  access_ok st t (ShHead old curr).
Proof.
  intros G Hp. destruct (g_threads _ _ _ _ _ _ _ _ G t _ Hp) as (HW & Hm & u & Hu & -> & Hn).
  unfold access_ok. simpl. rewrite (load_member G) by (by left). rewrite bind_ok. eexists. split; [done|].
  destruct (g_many _ _ _ _ _ _ _ _ G Hm) as (f & Hf & _ & Hall). destruct (Hall u Hu) as [?| ->]; [done|].
  apply (good_go t (ShHead old (addr u)) _ G); try done. split_and!; [done..|]. by exists f.
Qed.

Lemma last_in {A} (Q : list A) f : last Q = Some f -> f ∈ Q.
Proof. intros [Q' ->]%last_Some. set_solver. Qed.

Lemma sh_dec_ok {st i h w l m Q W} t old curr : good st i h w l m Q W -> pcs st !! t = Some (ShDec old curr) ->
  access_ok st t (ShDec old curr).
Proof.
  intros G Hp. destruct (g_threads _ _ _ _ _ _ _ _ G t _ Hp) as (HW & Hm & f & Hf & ->). subst m.
  destruct (many_wait G eq_refl) as [-> ->].
  assert (Hin : member (Q := Q) (W := W) f) by (left; by apply last_in).
  unfold access_ok. simpl. unfold release_shared_dec. rewrite (load_member G) by done. rewrite bind_ok. cbv zeta.
  rewrite (store_member G) by done. rewrite bind_ok. eexists. split; [done|]. unfold go. cbn [word nodes pcs].
  pose proof (g_hold _ _ _ _ _ _ _ _ G) as Hh. pose proof (cnt_le is_sh _ _ _ Hp) as Hle. simpl in Hle.
  unfold hold_ok, snapshot in Hh. rewrite Hf in Hh. destruct Hh as (Hex & Hs & [[Hsh Hfin]|?]); [|lia].
  pose proof (cnt_bound is_sh (pcs st) is_sh_1). pose proof (g_bound _ _ _ _ _ _ _ _ G).
  rewrite Hs, u32_small by lia. set (count := Z.of_nat (cnt is_sh (pcs st)) - 1).
  assert (Hcl : forall p', p' = Idle \/ p' = ShClear old -> p' = (if 0 <? count then Idle else ShClear old) ->
    inv (State (word st) (<[f := set_share count (nodes st !!! f)]> (nodes st)) (<[t := p']> (pcs st)))).
  { intros p' Hp' Ep'. apply (good_node t (ShDec old (addr f)) p' f _ G); try done.
    - by destruct Hp' as [->| ->].
    - by destruct Hp' as [->| ->].
    - cbv zeta. split_and!; [|left; by apply same_links_upd|by destruct Hp' as [->| ->]].
      unfold hold_ok, snapshot. rewrite Hf, node_upd_eq by (by apply (member_lt G)). simpl.
      counters Hp p'. rewrite Ep' in *. destruct (Z.ltb_spec 0 count); simpl in *; lia.
    - by left.
    - left. split; [done|]. by destruct Hp' as [->| ->]. }
  apply Hcl; [|done]. destruct (0 <? count); auto.
Qed.

Lemma sh_clear_ok {st i h w l m Q W} t old : good st i h w l m Q W -> pcs st !! t = Some (ShClear old) ->
  access_ok st t (ShClear old).
Proof.
  intros G Hp. eexists. split; [done|]. pose proof (W_nil _ _ G Hp I) as HW.
  pose proof (cnt_le is_fin _ _ _ Hp) as Hle. simpl in Hle. pose proof (g_hold _ _ _ _ _ _ _ _ G) as Hh. unfold hold_ok in Hh.
  assert (w = true /\ h = true) as [-> ->] by (destruct w, h; try done; lia).
  assert (Hz : cnt is_ex (pcs st) = 0%nat /\ cnt is_sh (pcs st) = 0%nat /\ cnt is_fin (pcs st) = 1%nat) by (destruct m; lia).
  destruct Hz as (H1 & H2 & H3). pose proof (g_owner _ _ _ _ _ _ _ _ G).
  unfold release_shared_clear. destruct (has old SRWF_Link) eqn:El; (eapply good_cas; [done|done|..]);
    try (intros _; by apply (good_go t (ShClear old) _ G)).
  - intros <-. rewrite (g_word _ _ _ _ _ _ _ _ G) in *. rewrite has_link in El. subst l. rewrite enc_clear.
    apply (good_word t (ShClear (enc i true true true m)) Idle i false true false G); try done.
    + apply G.
    + counters Hp Idle. unfold hold_ok. split_and!; try done; lia.
    + right. split; [done|]. by rewrite H2.
  - intros <-. rewrite (g_word _ _ _ _ _ _ _ _ G) in *. rewrite has_link in El. subst l. rewrite enc_clear, enc_lor_link.
    apply (good_word t (ShClear (enc i true true false m)) _ i false true false G); try done.
    + apply G.
    + counters Hp (WakeLoop (enc i false true true false) Return). unfold hold_ok. split_and!; try done; lia.
    + right. split; [done|]. by rewrite H2.
    + split_and!; [done|done|]. destruct (g_norm _ _ _ _ _ _ _ _ G eq_refl eq_refl) as (f & A & x & O & Hl & Hn).
      exists f. split; [done|]. by eapply (cover_now false true false G).
Qed.

End SrwRelease.
