(* ===== verification/SrwWake.v ===== *)
(** * Slim reader/writer locks: linking the queue and waking its threads keep
    the invariant *)
From S2P Require Import Prelude Srw SrwWord SrwQueue SrwInv SrwSteps SrwRelease.
Import Srw SrwWord SrwQueue SrwInv SrwSteps SrwRelease.
Set Warnings "-clear-no-such-hyp".

Module SrwWake.

Lemma normal_in N Q f A x O u : normal N Q f A x O -> u ∈ A ++ [x] -> u ∈ Q.
Proof. intros [-> _ _ _ _] Hu. set_solver. Qed.

Lemma last_wait {st i h w l m Q W} f : good st i h w l m Q W -> last Q = Some f -> w = true.
Proof. intros G Hl. destruct w; [done|]. destruct (wait_flags G eq_refl) as (_ & _ & ->). done. Qed.

(** A node of the queue is written by the owner of the link flag. *)
Lemma good_owner_node {st i h w l m Q W} t p p' u n : good st i h w l m Q W -> pcs st !! t = Some p ->
  is_owner p = 1%nat -> class p' = class p -> (in_acquire p = true -> in_acquire p' = true) ->
  u ∈ Q -> prev n = prev (nodes st !!! u) -> shareSnapshot n = shareSnapshot (nodes st !!! u) ->
  flags n = flags (nodes st !!! u) ->
  head n = head (nodes st !!! u) \/ (forall f, last Q = Some f -> head n = addr f) ->
  thread_ok w m (<[u := n]> (nodes st)) Q (W t) t p' ->
  inv (State (word st) (<[u := n]> (nodes st)) (<[t := p']> (pcs st))).
Proof.
  intros G Hp Ho Ec Ha Hu Hprev Hsh Hfl Hhd Hok. injection Ec as E1 E2 E3 E4 E5 E6.
  apply (good_node t p p' u n G); try done.
  - by left.
  - by intros ->.
  - cbv zeta. rewrite !(cnt_same _ _ _ _ _ Hp) by done. split_and!; [|by right|done].
    rewrite (snapshot_agree (nodes st)); [apply G|]. intros v. by apply (upd_field shareSnapshot).
  - by left.
  - intros t' _ Hin. by destruct (g_disj _ _ _ _ _ _ _ _ G t' u Hin).
Qed.

(** ** RtlpSrwCompressQueue *)
Lemma comp_loop_ok {st i h w l m Q W} t old c : good st i h w l m Q W -> pcs st !! t = Some (CompLoop old c) ->
  access_ok st t (CompLoop old c).
Proof.
  intros G Hp. eexists. split; [done|].
  destruct (g_threads _ _ _ _ _ _ _ _ G t _ Hp) as (HW & Hm & f & Hf & Hc). unfold compress_loop.
  destruct (has old SRWF_Hold) eqn:Eh.
  - pose proof Hc as (A & x & O & u & Hn & Hi & Hu). destruct (Z.eqb_spec (item old) 0) as [E|_].
    { rewrite Hi in E. by apply addr_pos in E. }
    apply (good_go t (CompLoop old c) _ G); try done. split_and!; [done..|]. exists f, u, u. split_and!; [done..|].
    destruct (walk_start _ _ _ _ _ _ _ Hn Hu) as [(A' & S & ?)|[-> ?]]; [left|right]; eauto 10.
  - apply (good_go t (CompLoop old c) _ G); try done. split_and!; [done|intros _; by apply Hm|]. by exists f.
Qed.

Lemma at_top_head N Q f tail curr A T O : at_top N Q f tail curr A T O -> head (N !!! curr) = addr f.
Proof. by intros []. Qed.

(** The test of the walk tells whether the node with the shortcut is
    reached. *)
Lemma walking_test N Q f a b : walking N Q f a b -> a ∈ Q /\ b ∈ Q /\
  ((head (N !!! b) = 0 /\ exists A T S x O, at_null N Q f a b A T S x O) \/
   (head (N !!! b) = addr f /\ exists A T O, at_top N Q f a b A T O)).
Proof.
  intros [(A & T & S & x & O & H)|(A & T & O & H)].
  - destruct (at_null_curr _ _ _ _ _ _ _ _ _ _ H) as (? & ? & ?). split_and!; [done..|left]. split; [done|]. eauto 10.
  - destruct (at_top_tail _ _ _ _ _ _ _ _ H). split_and!; [done..|right]. split; [by eapply at_top_head|]. eauto 10.
Qed.

Lemma comp_walk_ok {st i h w l m Q W} t old tail curr c : good st i h w l m Q W ->
  pcs st !! t = Some (CompWalk old tail curr c) -> access_ok st t (CompWalk old tail curr c).
Proof.
  intros G Hp. destruct (g_threads _ _ _ _ _ _ _ _ G t _ Hp) as (HW & Hh & Hi & f & a & b & Hf & -> & -> & Hwk).
  destruct (walking_test _ _ _ _ _ Hwk) as (Ha & Hb & Ht). unfold access_ok. simpl.
  rewrite (load_member G) by (by left). rewrite bind_ok. eexists. split; [done|].
  destruct Ht as [(-> & A & T & S & x & O & Hn)|(-> & A & T & O & Hn)].
  - apply (good_go t (CompWalk old (addr a) (addr b) c) _ G); try done. split_and!; [done..|].
    exists f, a, b, A, T, S, x, O. done.
  - destruct (Z.eqb_spec (addr f) 0) as [E|_]; [by apply addr_pos in E|].
    apply (good_go t (CompWalk old (addr a) (addr b) c) _ G); try done. split_and!; [done..|].
    exists f, a, b, A, T, O. done.
Qed.

(** [curr->prev->next = curr], in both walks. *)
Lemma link_ok {st i h w l m Q W} t p p' f a b A T S x O : good st i h w l m Q W -> pcs st !! t = Some p ->
  is_owner p = 1%nat -> (forall q, class (p' q) = class p /\ (in_acquire p = true -> in_acquire (p' q) = true)) ->
  last Q = Some f -> at_null (nodes st) Q f a b A T S x O ->
  (forall N q, walking N Q f a q -> thread_ok w m N Q (W t) t (p' (addr q))) ->
  exists st', ('(q, st) ← link_prev st (addr b); Ok (go st t (p' q))) = Ok st' /\ inv st'.
Proof.
  intros G Hp Ho Hp' Hf Hn Hok. destruct (at_null_curr _ _ _ _ _ _ _ _ _ _ Hn) as (Hb & _ & _).
  destruct (walk_link _ _ _ _ _ _ _ _ _ _ Hn (g_nodupQ _ _ _ _ _ _ _ _ G) (g_prev _ _ _ _ _ _ _ _ G))
    as (q & Hq & Eq & Hwk).
  { intros u Hu. apply (member_lt G). by left. }
  unfold link_prev. rewrite (load_member G) by (by left). rewrite bind_ok, Eq, (store_member G) by (by left).
  rewrite !bind_ok. eexists. split; [done|]. unfold go. cbn [word nodes pcs].
  destruct (Hp' (addr q)) as [Hc Hia]. apply (good_owner_node t p _ q _ G); try done; [by left|].
  apply Hok. destruct Hwk as [(T' & S' & ?)|?]; [left|right]; eauto 10.
Qed.

Lemma comp_link_ok {st i h w l m Q W} t old tail curr c : good st i h w l m Q W ->
  pcs st !! t = Some (CompLink old tail curr c) -> access_ok st t (CompLink old tail curr c).
Proof.
  intros G Hp. destruct (g_threads _ _ _ _ _ _ _ _ G t _ Hp)
    as (HW & Hh & Hi & f & a & b & A & T & S & x & O & Hf & -> & -> & Hn).
  apply (link_ok t (CompLink old (addr a) (addr b) c) (fun q => CompWalk old (addr a) q c) f a b A T S x O G); try done.
  intros N q Hwk. split_and!; [done..|]. by exists f, a, q.
Qed.

Lemma comp_set_ok {st i h w l m Q W} t old tail curr c : good st i h w l m Q W ->
  pcs st !! t = Some (CompSet old tail curr c) -> access_ok st t (CompSet old tail curr c).
Proof.
  intros G Hp. destruct (g_threads _ _ _ _ _ _ _ _ G t _ Hp)
    as (HW & Hh & Hi & f & a & b & A & T & O & Hf & -> & -> & Hn).
  destruct (at_top_tail _ _ _ _ _ _ _ _ Hn) as [Hb Ha].
  unfold access_ok. simpl. rewrite (load_member G) by (by left).
  rewrite bind_ok, (at_top_head _ _ _ _ _ _ _ _ Hn), (store_member G), bind_ok by (by left).
  eexists. split; [done|]. unfold go. cbn [word nodes pcs].
  apply (good_owner_node t (CompSet old (addr a) (addr b) c) _ a _ G); try done.
  - right. intros f' Hf'. simpl. congruence.
  - split_and!; [done..|]. exists f. split; [done|].
    destruct (walk_end _ _ _ _ _ _ _ _ Hn (g_nodupQ _ _ _ _ _ _ _ _ G)) as [O' Hn']; [apply (member_lt G); by left|].
    exists A, a, O', a. split_and!; [done..|]. set_solver.
Qed.

(** The owner of the link flag gives it up while the lock is held. *)
Lemma unlink_ok {st i h w l m Q W} t p c f : good st i h w l m Q W -> pcs st !! t = Some p ->
  is_owner p = 1%nat -> class p = class (CompCas 0 c) -> W t = [] -> has (word st) SRWF_Hold = true ->
  last Q = Some f -> cover (nodes st) Q f (word st) ->
  inv (State (word st - SRWF_Link) (nodes st) (<[t := resume c]> (pcs st))).
Proof.
  intros G Hp Ho Ec HW Hh Hf (A & x & O & u & Hn & _). pose proof (owner_link G t p Hp Ho) as ->.
  rewrite (g_word _ _ _ _ _ _ _ _ G) in *. rewrite has_hold in Hh. subst h. rewrite enc_sub_link.
  injection Ec as E1 E2 E3 E4 E5 E6. pose proof (g_owner _ _ _ _ _ _ _ _ G). pose proof (g_hold _ _ _ _ _ _ _ _ G) as Hh.
  pose proof (last_wait f G Hf) as ->.
  apply (good_word t p (resume c) i true false m G); try done.
  - rewrite E5. by destruct c.
  - rewrite E6. by destruct c.
  - apply G.
  - assert (is_ex (resume c) = 0 /\ is_sh (resume c) = 0 /\ is_fin (resume c) = 0 /\ is_owner (resume c) = 0)%nat
      as (F1 & F2 & F3 & F4) by (by destruct c).
    counters Hp (resume c). rewrite !(cnt_same _ _ _ _ _ Hp) by congruence. split_and!; [exact Hh|lia|done].
  - by left.
  - intros _ _. by exists f, A, x, O.
  - by destruct c.
Qed.

(** The owner of the link flag has read the word again. *)
Lemma again_ok {st i h w l m Q W} t p p' f : good st i h w l m Q W -> pcs st !! t = Some p ->
  is_owner p = 1%nat -> class p' = class p -> (in_acquire p = true -> in_acquire p' = true) ->
  last Q = Some f -> (exists A x O, normal (nodes st) Q f A x O) ->
  ((has (word st) SRWF_Hold = false -> m = false) -> cover (nodes st) Q f (word st) ->
   thread_ok w m (nodes st) Q (W t) t p') ->
  inv (go st t p').
Proof.
  intros G Hp Ho Ec Ha Hf (A & x & O & Hn) Hok. apply (good_go t p p' G); try done.
  - by intros ->.
  - rewrite (g_word _ _ _ _ _ _ _ _ G) in Hok. apply Hok.
    + rewrite has_hold. apply (hold_many G).
    + eapply (cover_now h l m G); [by eapply last_wait|done..].
Qed.

Lemma comp_cas_ok {st i h w l m Q W} t old c : good st i h w l m Q W -> pcs st !! t = Some (CompCas old c) ->
  access_ok st t (CompCas old c).
Proof.
  intros G Hp. eexists. split; [done|]. destruct (g_threads _ _ _ _ _ _ _ _ G t _ Hp) as (HW & Hh & f & Hf & Hc).
  eapply good_cas; [done|done|..].
  - intros <-. by apply (unlink_ok t (CompCas (word st) c) c f G).
  - intros _. eapply (again_ok t (CompCas old c) _ f G); try done.
    + destruct Hc as (A & x & O & _ & ? & _). by exists A, x, O.
    + intros Hm Hc'. split_and!; [done..|]. by exists f.
Qed.

(** ** RtlpSrwWake: the walk *)
Lemma wake_loop_ok {st i h w l m Q W} t old c : good st i h w l m Q W -> pcs st !! t = Some (WakeLoop old c) ->
  access_ok st t (WakeLoop old c).
Proof.
  intros G Hp. destruct (g_threads _ _ _ _ _ _ _ _ G t _ Hp) as (HW & Hm & f & Hf & Hc).
  pose proof Hc as (A & x & O & u & Hn & Hi & Hu). unfold access_ok. simpl. unfold wake_loop.
  destruct (has old SRWF_Hold) eqn:Eh.
  - eexists. split; [done|]. eapply good_cas; [done|done|..].
    + intros <-. by apply (unlink_ok t (WakeLoop (word st) c) c f G).
    + intros _. eapply (again_ok t (WakeLoop old c) _ f G); try done; [by exists A, x, O|].
      intros Hm' Hc'. split_and!; [done..|]. by exists f.
  - specialize (Hm eq_refl). rewrite Hi, (load_member G) by (left; by eapply normal_in). rewrite bind_ok. eexists. split; [done|].
    destruct (walk_start _ _ _ _ _ _ _ Hn Hu) as [(A' & S & Ht)|[-> Ht]].
    + destruct (at_null_curr _ _ _ _ _ _ _ _ _ _ Ht) as (_ & _ & ->).
      apply (good_go t (WakeLoop old c) _ G); try done. split_and!; [done..|]. exists f, u, u, A', [u], S, x, O. done.
    + rewrite (at_top_head _ _ _ _ _ _ _ _ Ht). destruct (Z.eqb_spec (addr f) 0) as [E|_]; [by apply addr_pos in E|].
      apply (good_go t (WakeLoop old c) _ G); try done. split_and!; [done..|]. by exists f, A, x, O.
Qed.

Lemma wake_link_ok {st i h w l m Q W} t old tail curr c : good st i h w l m Q W ->
  pcs st !! t = Some (WakeLink old tail curr c) -> access_ok st t (WakeLink old tail curr c).
Proof.
  intros G Hp. destruct (g_threads _ _ _ _ _ _ _ _ G t _ Hp)
    as (HW & Hm & Hh & Hi & f & a & b & A & T & S & x & O & Hf & -> & -> & Hn).
  apply (link_ok t (WakeLink old (addr a) (addr b) c) (fun q => WakeHead old (addr a) q c) f a b A T S x O G); try done.
  intros N q Hwk. split_and!; [done..|]. by exists f, a, q.
Qed.

(** A walk that has not moved. *)
Lemma at_top_start N Q f a A T O : at_top N Q f a a A T O -> NoDup Q -> normal N Q f A a O.
Proof.
  intros [-> H1 H2 [H3 H3'] H4 H5] Hd. destruct T as [|b T]; simpl in *.
  - split; try done. intros u Hu. split; [apply H1; set_solver|by apply H2].
  - injection H3 as ->. apply NoDup_app in Hd as (_ & _ & [Hd _]%NoDup_cons). set_solver.
Qed.

Lemma wake_head_ok {st i h w l m Q W} t old tail curr c : good st i h w l m Q W ->
  pcs st !! t = Some (WakeHead old tail curr c) -> access_ok st t (WakeHead old tail curr c).
Proof.
  intros G Hp. destruct (g_threads _ _ _ _ _ _ _ _ G t _ Hp) as (HW & Hm & Hh & Hi & f & a & b & Hf & -> & -> & Hwk).
  destruct (walking_test _ _ _ _ _ Hwk) as (Ha & Hb & Ht). unfold access_ok. simpl.
  rewrite (load_member G) by (by left). rewrite bind_ok. eexists. split; [done|].
  destruct Ht as [(-> & A & T & S & x & O & Hn)|(-> & A & T & O & Hn)].
  - apply (good_go t (WakeHead old (addr a) (addr b) c) _ G); try done. split_and!; [done..|].
    exists f, a, b, A, T, S, x, O. done.
  - destruct (Z.eqb_spec (addr f) 0) as [E|_]; [by apply addr_pos in E|]. destruct (Z.eqb_spec (addr a) (addr b)) as [E|_].
    + apply addr_inj in E as ->. apply (good_go t (WakeHead old (addr b) (addr b) c) _ G); try done. split_and!; [done..|].
      exists f, A, b, O. split_and!; try done. eapply at_top_start; [done|apply G].
    + apply (good_go t (WakeHead old (addr a) (addr b) c) _ G); try done. split_and!; [done..|]. by exists f, a, b, A, T, O.
Qed.

Lemma wake_set_ok {st i h w l m Q W} t old tail first c : good st i h w l m Q W ->
  pcs st !! t = Some (WakeSet old tail first c) -> access_ok st t (WakeSet old tail first c).
Proof.
  intros G Hp. destruct (g_threads _ _ _ _ _ _ _ _ G t _ Hp)
    as (HW & Hm & Hh & Hi & f & a & b & A & T & O & Hf & -> & -> & Hn).
  destruct (at_top_tail _ _ _ _ _ _ _ _ Hn) as [Hb Ha].
  unfold access_ok. simpl. rewrite (store_member G), bind_ok by (by left).
  eexists. split; [done|]. unfold go. cbn [word nodes pcs].
  apply (good_owner_node t (WakeSet old (addr a) (addr f) c) _ a _ G); try done.
  - right. intros f' Hf'. simpl. congruence.
  - destruct (walk_end _ _ _ _ _ _ _ _ Hn (g_nodupQ _ _ _ _ _ _ _ _ G)) as [O' Hn']; [apply (member_lt G); by left|].
    split_and!; [done..|]. by exists f, A, a, O'.
Qed.

(** ** RtlpSrwWake: the choice of the nodes *)
Lemma wake_first_ok {st i h w l m Q W} t old tail first c : good st i h w l m Q W ->
  pcs st !! t = Some (WakeFirst old tail first c) -> access_ok st t (WakeFirst old tail first c).
Proof.
  intros G Hp. destruct (g_threads _ _ _ _ _ _ _ _ G t _ Hp) as (HW & Hm & Hh & f & A & x & O & Hf & Hn & -> & -> & Hi).
  unfold access_ok. simpl. unfold wake_first. rewrite (load_member G) by (left; by apply last_in). rewrite bind_ok.
  eexists. split; [done|]. destruct (Z.eqb_spec (next (nodes st !!! f)) 0) as [E|E]; cbn [negb andb].
  2: destruct (has (flags (nodes st !!! f)) NODEF_EXCL).
  - apply (good_go t (WakeFirst old (addr x) (addr f) c) _ G); try done. split_and!; [done..|]. by exists f, A, x, O.
  - apply (good_go t (WakeFirst old (addr x) (addr f) c) _ G); try done. split_and!; [done..|]. exists f, A, x, O.
    split_and!; try done. intros ->. destruct Hn as [EQ _ _ Hx _]. rewrite EQ, last_snoc in Hf. congruence.
  - apply (good_go t (WakeFirst old (addr x) (addr f) c) _ G); try done. split_and!; [done..|]. by exists f, A, x, O.
Qed.

Lemma wake_back_ok {st i h w l m Q W} t old tail first c : good st i h w l m Q W ->
  pcs st !! t = Some (WakeBack old tail first c) -> access_ok st t (WakeBack old tail first c).
Proof.
  intros G Hp. destruct (g_threads _ _ _ _ _ _ _ _ G t _ Hp)
    as (HW & Hm & f & A & x & O & u & Hf & Hn & -> & -> & Hi & Hu).
  assert (Hx : x ∈ Q) by (eapply normal_in; [done|set_solver]).
  unfold access_ok. simpl. rewrite (store_member G), bind_ok by (by left).
  eexists. split; [done|]. unfold go. cbn [word nodes pcs].
  apply (good_owner_node t (WakeBack old (addr x) (addr f) c) _ x _ G); try done.
  - right. intros f' Hf'. simpl. congruence.
  - split_and!; [done..|]. exists f. split; [done|]. exists A, x, O, u. split_and!; try done.
    eapply normal_agree; [|done]. apply same_links_upd; [|done]. simpl. by destruct Hn.
Qed.

Lemma wake_cut_ok {st i h w l m Q W} t first c : good st i h w l m Q W ->
  pcs st !! t = Some (WakeCut first c) -> access_ok st t (WakeCut first c).
Proof.
  intros G Hp. destruct (g_threads _ _ _ _ _ _ _ _ G t _ Hp) as (Hm & (u & HW & ->) & f & A & x & O & Hf & Hn).
  assert (Hu : u ∈ W t) by (rewrite HW; set_solver). pose proof (g_disj _ _ _ _ _ _ _ _ G t u Hu) as HuQ.
  assert (Hmem : member (Q := Q) (W := W) u) by (right; by exists t).
  assert (Hsl : same_links (nodes st) (<[u := set_next 0 (nodes st !!! u)]> (nodes st)) Q).
  { intros v Hv. rewrite node_upd_ne; [done|]. by intros ->. }
  unfold access_ok. simpl. rewrite (store_member G), bind_ok by done. eexists. split; [done|]. unfold go. cbn [word nodes pcs].
  apply (good_node t (WakeCut (addr u) c) _ u _ G); try done.
  - cbv zeta. rewrite !(cnt_same _ _ _ _ _ Hp) by done. split_and!; [|by left|].
    + rewrite (snapshot_agree (nodes st)); [apply G|]. intros v. by apply (upd_field shareSnapshot).
    + split_and!; [done| |].
      * exists u. split_and!; [done..|]. rewrite node_upd_eq; [done|]. by apply (member_lt G).
      * exists f, A, x, O. split; [done|]. by eapply normal_agree.
  - by left.
  - by left.
  - intros t' Hne Hin. by destruct Hne; eapply (g_disjW _ _ _ _ _ _ _ _ G t' t u).
Qed.

Lemma wake_unlink_ok {st i h w l m Q W} t first c : good st i h w l m Q W ->
  pcs st !! t = Some (WakeUnlink first c) -> access_ok st t (WakeUnlink first c).
Proof.
  intros G Hp. eexists. split; [done|].
  destruct (g_threads _ _ _ _ _ _ _ _ G t _ Hp) as (-> & (u & HW & -> & Hx) & f & A & x & O & Hf & Hn).
  assert (Hu : u ∈ W t) by (rewrite HW; set_solver). pose proof (g_disj _ _ _ _ _ _ _ _ G t u Hu) as HuQ.
  pose proof (last_wait f G Hf) as ->. pose proof (owner_link G t _ Hp eq_refl) as ->.
  unfold go, set_word. cbn [word nodes pcs]. rewrite (g_word _ _ _ _ _ _ _ _ G), enc_clear_link.
  apply (good_word t (WakeUnlink (addr u) c) (WakeNext (addr u) c) i h false false G); try done.
  - apply G.
  - pose proof (g_owner _ _ _ _ _ _ _ _ G). pose proof (g_hold _ _ _ _ _ _ _ _ G) as Hh.
    counters Hp (WakeNext (addr u) c). rewrite !(cnt_same _ _ _ _ _ Hp) by done. split_and!; [exact Hh|lia|].
    intros _ _ _. destruct (g_in _ _ _ _ _ _ _ _ G u) as (q & Hq & Hpk & _); [right; by exists t|].
    apply parked_in_acquire in Hpk. eapply live_insert; [done..|]. right. by exists u, q.
  - by left.
  - intros _ _. by exists f, A, x, O.
  - rewrite HW. split; [done|]. by split.
Qed.

Lemma wake_next_ok {st i h w l m Q W} t first c : good st i h w l m Q W ->
  pcs st !! t = Some (WakeNext first c) -> access_ok st t (WakeNext first c).
Proof.
  intros G Hp. destruct (g_threads _ _ _ _ _ _ _ _ G t _ Hp) as (HW & Hs).
  destruct (W t) as [|u l'] eqn:EW; [done|]. destruct Hs as [-> Hs].
  unfold access_ok. simpl. rewrite (load_member G) by (right; exists t; rewrite EW; set_solver). rewrite bind_ok.
  eexists. split; [done|]. apply (good_go t (WakeNext (addr u) c) _ G); try done. simpl. rewrite EW. by exists u, l'.
Qed.

End SrwWake.
