(* ===== verification/SrwFree.v ===== *)
(** * Slim reader/writer locks: taking nodes off the queue and releasing their
    threads keep the invariant *)
From stdpp Require Import functions.
From S2P Require Import Prelude Srw SrwWord SrwQueue SrwInv SrwSteps SrwRelease SrwWake.
Import Srw SrwWord SrwQueue SrwInv SrwSteps SrwRelease SrwWake.
Set Warnings "-clear-no-such-hyp".

Module SrwFree.

(** A thread that does not own the link flag does not see that nodes are taken
    off the queue. *)
Lemma thread_ok_other w w' N N' Q Q' Wt t q : is_owner q = 0%nat -> is_sh q = 0%nat \/ w' = w ->
  (parked q = false -> N' !!! t = N !!! t) ->
  (forall v, v ∈ Wt -> next (N' !!! v) = next (N !!! v) /\ flags (N' !!! v) = flags (N !!! v)) ->
  thread_ok w false N Q Wt t q -> thread_ok w' false N' Q' Wt t q.
Proof.
  intros Ho Hsh Ht HW Hok.
  assert (Hseg : forall p l q, (forall v, v ∈ l -> v ∈ Wt) -> segment N p l q -> segment N' p l q).
  { intros p l q' Hl. apply segment_agree. intros v Hv. by apply HW, Hl. }
  destruct q; simpl in *; try done; try (by unpack).
  - by rewrite Ht.
  - destruct Hok as [? Ho']. split; [done|]. intros Hw. destruct (Ho' Hw) as (-> & ? & _). destruct Hsh as [| ->]; done.
  - destruct Hok. split; [done|]. by apply Hseg.
  - destruct Hok as (u & l & -> & ? & ?). exists u, l. split_and!; [done..|]. apply Hseg; [set_solver|done].
  - destruct Hok as (u & l & -> & ? & ? & ?). exists u, l. split_and!; [done..| |].
    + apply Hseg; [set_solver|done].
    + by rewrite (proj2 (HW u ltac:(set_solver))).
Qed.

(** The members when thread [t] takes the nodes of [R], which are all those of
    [Q] that are not in [Q']. *)
Section Taken.
Context {st : state} {i : Z} {h w l m : bool} {Q : list nat} {W : nat -> list nat}.
Context (G : good st i h w l m Q W) (t : nat) (Q' R : list nat).
Context (HQ : forall u, u ∈ Q <-> u ∈ Q' \/ u ∈ R) (Hd : forall u, u ∈ R -> u ∉ Q') (HR : NoDup R) (HWt : W t = []).

Lemma taken_nodup t' : NoDup ((<[t := R]> W) t').
Proof. destruct (decide (t' = t)) as [->|]; [by rewrite fn_lookup_insert|rewrite fn_lookup_insert_ne by done; apply G]. Qed.

Lemma taken_disj t' u : u ∈ (<[t := R]> W) t' -> u ∉ Q'.
Proof.
  destruct (decide (t' = t)) as [->|]; [rewrite fn_lookup_insert; apply Hd|rewrite fn_lookup_insert_ne by done].
  intros Hu Hin. apply (g_disj _ _ _ _ _ _ _ _ G t' u Hu), HQ. by left.
Qed.

Lemma taken_disjW t1 t2 u : u ∈ (<[t := R]> W) t1 -> u ∈ (<[t := R]> W) t2 -> t1 = t2.
Proof.
  assert (Hx : forall t', u ∈ R -> u ∈ W t' -> False).
  { intros t' Hu Hw. apply (g_disj _ _ _ _ _ _ _ _ G t' u Hw), HQ. by right. }
  destruct (decide (t1 = t)) as [->|]; destruct (decide (t2 = t)) as [->|];
    rewrite ?fn_lookup_insert, ?fn_lookup_insert_ne by done; intros H1 H2; try done; [naive_solver..|].
  by eapply (g_disjW _ _ _ _ _ _ _ _ G).
Qed.

Lemma taken_member u : (u ∈ Q' \/ exists t', u ∈ (<[t := R]> W) t') <-> (u ∈ Q \/ exists t', u ∈ W t').
Proof.
  rewrite HQ. split.
  - intros [?|[t' Hu]]; [by auto|]. destruct (decide (t' = t)) as [->|].
    + rewrite fn_lookup_insert in Hu. auto.
    + rewrite fn_lookup_insert_ne in Hu by done. right. by exists t'.
  - intros [[?|?]|[t' Hu]]; [by auto|right; exists t; by rewrite fn_lookup_insert|]. destruct (decide (t' = t)) as [->|].
    + rewrite HWt in Hu. by apply elem_of_nil in Hu.
    + right. exists t'. by rewrite fn_lookup_insert_ne.
Qed.

(** What the invariant says of the members, when thread [t] moves to a place of
    the same class. *)
Lemma taken_in p p' (N' : list node) : pcs st !! t = Some p -> parked p' = parked p -> keyed p' = keyed p ->
  (forall u, flags (N' !!! u) = flags (nodes st !!! u)) ->
  (forall u, u ∈ Q' \/ (exists t', u ∈ (<[t := R]> W) t') -> exists q, <[t := p']> (pcs st) !! u = Some q /\ parked q = true /\
     has (flags (N' !!! u)) NODEF_SPIN = negb (keyed q)) /\
  (forall u q, <[t := p']> (pcs st) !! u = Some q -> parked q = true -> (u ∉ Q') -> (forall t', u ∉ (<[t := R]> W) t') ->
     keyed q = false /\ has (flags (N' !!! u)) NODEF_SPIN = false) /\
  (forall u, <[t := p']> (pcs st) !! u = None -> (<[t := R]> W) u = []).
Proof.
  intros Hp Ep Ek Hfl. assert (Ht : (t < length (pcs st))%nat) by (by eapply lookup_lt_Some). split_and!.
  - intros u Hu%taken_member. rewrite Hfl. destruct (g_in _ _ _ _ _ _ _ _ G u Hu) as (q & Hq & ? & ?).
    destruct (decide (u = t)) as [->|]; [|by exists q; rewrite list_lookup_insert_ne].
    exists p'. rewrite list_lookup_insert_eq by done. simplify_eq. rewrite Ep, Ek. done.
  - intros u q Hq Hpq HuQ HuW. rewrite Hfl.
    assert (Hnm : ~ (u ∈ Q \/ exists t', u ∈ W t')) by (rewrite <- taken_member; intros [?|[t' ?]]; [done|by apply (HuW t')]).
    assert (Hg : forall q, pcs st !! u = Some q -> parked q = true ->
                 keyed q = false /\ has (flags (nodes st !!! u)) NODEF_SPIN = false).
    { intros q' Hq' Hpq'. apply (g_out _ _ _ _ _ _ _ _ G u q' Hq' Hpq'); [naive_solver|]. intros t' ?. apply Hnm. eauto. }
    destruct (decide (u = t)) as [->|]; [|rewrite list_lookup_insert_ne in Hq by done; by apply Hg].
    rewrite list_lookup_insert_eq in Hq by done. injection Hq as <-. rewrite Ek. rewrite Ep in Hpq. by apply Hg.
  - intros u Hu. assert (u <> t) by (intros ->; by rewrite list_lookup_insert_eq in Hu).
    rewrite list_lookup_insert_ne in Hu by done. rewrite fn_lookup_insert_ne by done. by apply G.
Qed.

(** The facts about the other threads. *)
Lemma taken_threads p p' w' N' : pcs st !! t = Some p -> is_owner p = 1%nat -> m = false ->
  (forall u, next (N' !!! u) = next (nodes st !!! u) \/ u ∈ Q) -> (forall u, flags (N' !!! u) = flags (nodes st !!! u)) ->
  (forall u, (u ∉ Q) -> N' !!! u = nodes st !!! u) ->
  cnt is_sh (pcs st) = 0%nat \/ w' = w ->
  thread_ok w' false N' Q' R t p' ->
  forall u q, <[t := p']> (pcs st) !! u = Some q -> thread_ok w' false N' Q' ((<[t := R]> W) u) u q.
Proof.
  intros Hp Ho -> Hnx Hfl HN Hsh Hok u q Hq. assert (Ht : (t < length (pcs st))%nat) by (by eapply lookup_lt_Some).
  destruct (decide (u = t)) as [->|].
  - rewrite list_lookup_insert_eq in Hq by done. injection Hq as <-. by rewrite fn_lookup_insert.
  - rewrite list_lookup_insert_ne in Hq by done. rewrite fn_lookup_insert_ne by done.
    eapply thread_ok_other; [| | | |by apply G].
    + by eapply (owner_unique G t p).
    + destruct Hsh as [Hs|]; [left|by right]. pose proof (cnt_le is_sh _ _ _ Hq). lia.
    + intros Hpq. apply HN. intros Hin. eapply (not_member G); [done..|by left].
    + intros v Hv. split; [|done]. destruct (Hnx v) as [|Hin]; [done|]. by destruct (g_disj _ _ _ _ _ _ _ _ G u v Hv).
Qed.

End Taken.

(** ** Taking nodes off the queue *)
Lemma hold_ok_snap i h w l ex sh fin s s' : hold_ok i h w l false ex sh fin s -> hold_ok i h w l false ex sh fin s'.
Proof. by destruct w, h. Qed.

Lemma wake_deq_ok {st i h w l m Q W} t tail first c : good st i h w l m Q W ->
  pcs st !! t = Some (WakeDeq tail first c) -> access_ok st t (WakeDeq tail first c).
Proof.
  intros G Hp. destruct (g_threads _ _ _ _ _ _ _ _ G t _ Hp) as (HW & -> & f & A & x & O & Hf & Hn & -> & -> & HO).
  assert (Hx : x ∈ Q) by (eapply normal_in; [done|set_solver]).
  pose proof (last_wait f G Hf) as ->. pose proof (owner_link G t _ Hp eq_refl) as ->.
  destruct (normal_dequeue _ _ _ _ _ _ Hn Hf HO (g_nodupQ _ _ _ _ _ _ _ _ G)) as (Q' & s & O' & EQ & En & Hs & Hn').
  { apply (member_lt G). by left. }
  unfold access_ok. simpl. rewrite (load_member G) by (left; by apply last_in).
  rewrite bind_ok, En, (store_member G), bind_ok by (by left). eexists. split; [done|]. unfold go. cbn [word nodes pcs].
  set (N' := <[x := _]> (nodes st)) in *.
  assert (HQ : forall u, u ∈ Q <-> u ∈ Q' \/ u ∈ [f]) by (intros u; rewrite EQ; apply elem_of_app).
  assert (Hnd : NoDup Q' /\ forall u, u ∈ [f] -> u ∉ Q').
  { pose proof (g_nodupQ _ _ _ _ _ _ _ _ G) as Hd. rewrite EQ in Hd. apply NoDup_app in Hd as (? & Hd & _).
    split; [done|]. intros u Hu Hu'. by apply (Hd u Hu'). }
  destruct Hnd as [Hnd Hd].
  destruct (taken_in G t Q' [f] HQ HW (WakeDeq (addr x) (addr f) c) (WakeCut (addr f) c) N') as (T1 & T2 & T3); try done.
  { intros u. by apply (upd_field flags). }
  exists i, h, true, true, false, Q', (<[t := [f]]> W). split; cbn [word nodes pcs]; rewrite ?length_insert; try done; try apply G.
  - unfold N'. rewrite length_insert. apply G.
  - rewrite !(cnt_same _ _ _ _ _ Hp) by done. eapply hold_ok_snap, G.
  - rewrite (cnt_same _ _ _ _ _ Hp) by done. apply G.
  - destruct (wait_queue G eq_refl) as (q & Q0 & E0 & ?). rewrite EQ in E0. destruct Q' as [|q' Q']; [done|].
    injection E0 as -> _. by exists q, Q'.
  - apply (prev_chain_agree (nodes st)); [intros u _; by apply (upd_field prev)|].
    apply (prev_chain_app_l _ _ [f]). rewrite <- EQ. apply G.
  - apply (taken_nodup G). apply NoDup_singleton.
  - by apply (taken_disj G t Q' [f] HQ).
  - by apply (taken_disjW G t Q' [f] HQ).
  - eapply (taken_threads G t Q' [f] (WakeDeq (addr x) (addr f) c)); try done.
    + intros u. left. by apply (upd_field next).
    + intros u. by apply (upd_field flags).
    + intros u Hu. apply node_upd_ne. by intros ->.
    + by right.
    + split_and!; [done|by exists f|by exists s, A, x, O'].
Qed.

(** The last node has the shortcut and all nodes are linked. *)
Lemma topped_all N Q f A x O q Q' : normal N Q f A x O -> Q = q :: Q' -> q = x -> NoDup Q -> A = [].
Proof.
  intros [-> _ _ _ _] E -> Hd. destruct A as [|a A]; [done|]. injection E as -> _.
  apply NoDup_cons in Hd as [Hd _]. set_solver.
Qed.

Lemma wake_all_ok {st i h w l m Q W} t old tail first c : good st i h w l m Q W ->
  pcs st !! t = Some (WakeAll old tail first c) -> access_ok st t (WakeAll old tail first c).
Proof.
  intros G Hp. eexists. split; [done|].
  destruct (g_threads _ _ _ _ _ _ _ _ G t _ Hp) as (HW & -> & Hh & f & A & x & O & Hf & Hn & -> & -> & Hi).
  pose proof (last_wait f G Hf) as ->. pose proof (owner_link G t _ Hp eq_refl) as ->. eapply good_cas; [done|done|..].
  - intros <-. destruct (word_item G eq_refl) as (q & Q' & EQ & Eq). rewrite Eq in Hi. apply addr_inj in Hi.
    pose proof (topped_all _ _ _ _ _ _ _ _ Hn EQ Hi (g_nodupQ _ _ _ _ _ _ _ _ G)) as ->.
    rewrite (g_word _ _ _ _ _ _ _ _ G), has_hold in Hh. subst h.
    pose proof (g_hold _ _ _ _ _ _ _ _ G) as (_ & H1 & H2 & H3). pose proof (g_owner _ _ _ _ _ _ _ _ G).
    assert (HQ : forall u, u ∈ Q <-> u ∈ [] \/ u ∈ reverse Q).
    { intros u. rewrite elem_of_reverse, elem_of_nil. naive_solver. }
    assert (HR : NoDup (reverse Q)) by (rewrite reverse_Permutation; apply G).
    assert (Hd : forall u, u ∈ reverse Q -> u ∉ []) by (intros u _; apply not_elem_of_nil).
    destruct (taken_in G t [] (reverse Q) HQ HW (WakeAll (word st) (addr x) (addr f) c) (WakeNext (addr f) c) (nodes st))
      as (T1 & T2 & T3); try done.
    exists 0, false, false, false, false, [], (<[t := reverse Q]> W).
    split; cbn [word nodes pcs]; rewrite ?length_insert; try done; try apply G.
    + counters Hp (WakeNext (addr f) c). unfold hold_ok. lia.
    + counters Hp (WakeNext (addr f) c). lia.
    + constructor.
    + by apply (taken_nodup G).
    + by apply (taken_disj G t [] (reverse Q) HQ).
    + by apply (taken_disjW G t [] (reverse Q) HQ).
    + eapply (taken_threads G t [] (reverse Q) (WakeAll (word st) (addr x) (addr f) c)); try done; [by left|by left|].
      split; [|by eapply normal_take_all]. rewrite EQ, reverse_cons. by destruct (reverse Q').
  - intros _. eapply (again_ok t (WakeAll old (addr x) (addr f) c) _ f G); try done; [by exists A, x, O|].
    intros _ _. split_and!; [done..|]. destruct (word_item G eq_refl) as (q & Q' & EQ & Eq).
    exists f, A, x, O, q. split_and!; try done. by eapply head_cover.
Qed.

(** ** Releasing the threads *)
Lemma wake_rest_class nxt c : class (wake_rest nxt c) = (0, 0, 0, 0, parks c, false)%nat /\
  in_acquire (wake_rest nxt c) = parks c.
Proof. unfold wake_rest. destruct (nxt =? 0), c; done. Qed.

Lemma wake_rest_ok w m N Q l t nxt c : segment N nxt l 0 -> thread_ok w m N Q l t (wake_rest nxt c).
Proof.
  intros Hs. unfold wake_rest. destruct l as [|v l].
  - simpl in Hs. subst nxt. by destruct c.
  - destruct Hs as [-> Hs]. destruct (Z.eqb_spec (addr v) 0) as [E|_]; [by apply addr_pos in E|]. by split.
Qed.

(** Thread [t], at [p], is done with the first node [u] of its list; the thread
    of the node goes from [q] to [q'] and does not wait for a release any more. *)
Section Released.
Context {st : state} {i : Z} {h w l m : bool} {Q : list nat} {W : nat -> list nat} (G : good st i h w l m Q W).
Context (t : nat) (p : pc) (u : nat) (r : list nat) (nxt : Z) (c : kont) (q q' : pc) (N' : list node).
Context (Hp : pcs st !! t = Some p) (Ec : class p = (0, 0, 0, 0, parks c, false)%nat) (Ea : in_acquire p = parks c).
Context (EW : W t = u :: r) (Hseg : segment (nodes st) nxt r 0).
Context (Hq : pcs st !! u = Some q) (Eut : u = t -> q' = p).
Context (Eq : (is_ex q', is_sh q', is_fin q', is_owner q') = (is_ex q, is_sh q, is_fin q, is_owner q)).
Context (Haq : in_acquire q' = true) (Hkq : keyed q' = false).
Context (HN : forall v, v <> u -> N' !!! v = nodes st !!! v) (Hlen : length N' = length (nodes st)).

Let P' : list pc := <[t := wake_rest nxt c]> (<[u := q']> (pcs st)).

Lemma released_t : P' !! t = Some (wake_rest nxt c).
Proof. unfold P'. rewrite list_lookup_insert_eq; [done|]. rewrite length_insert. by eapply lookup_lt_Some. Qed.

Lemma released_u : u <> t -> P' !! u = Some q'.
Proof.
  intros Hne. unfold P'. rewrite list_lookup_insert_ne by done. rewrite list_lookup_insert_eq; [done|by eapply lookup_lt_Some].
Qed.

Lemma released_ne v : v <> t -> v <> u -> P' !! v = pcs st !! v.
Proof. intros ??. unfold P'. by rewrite !list_lookup_insert_ne. Qed.

Lemma released_mid : <[u := q']> (pcs st) !! t = Some p.
Proof.
  destruct (decide (t = u)) as [->|]; [|by rewrite list_lookup_insert_ne].
  rewrite list_lookup_insert_eq by (by eapply lookup_lt_Some). by rewrite Eut.
Qed.

Lemma released_cnt f : f q' = f q -> f (wake_rest nxt c) = f p -> cnt f P' = cnt f (pcs st).
Proof.
  intros E E'. unfold P'. rewrite (cnt_same _ _ _ _ _ released_mid) by done. by rewrite (cnt_same _ _ _ _ _ Hq).
Qed.

Lemma released_notin : u ∉ Q.
Proof. apply (g_disj _ _ _ _ _ _ _ _ G t). rewrite EW. set_solver. Qed.

Lemma released_queue v : v ∈ Q -> N' !!! v = nodes st !!! v.
Proof. intros Hv. apply HN. intros ->. by apply released_notin. Qed.

Lemma released_W t' v : v ∈ (<[t := r]> W) t' <-> v ∈ W t' /\ v <> u.
Proof.
  pose proof (g_nodupW _ _ _ _ _ _ _ _ G t) as Hnd. rewrite EW in Hnd. apply NoDup_cons in Hnd as [Hur _].
  destruct (decide (t' = t)) as [->|Hne]; [rewrite fn_lookup_insert, EW|rewrite fn_lookup_insert_ne by done].
  - rewrite elem_of_cons. split; [intros ?; split; [by right|by intros ->]|naive_solver].
  - split; [intros Hv; split; [done|]|naive_solver]. intros ->. apply Hne.
    eapply (g_disjW _ _ _ _ _ _ _ _ G); [done|]. rewrite EW. set_solver.
Qed.

Lemma released_nodup t' : NoDup ((<[t := r]> W) t').
Proof.
  pose proof (g_nodupW _ _ _ _ _ _ _ _ G t') as Hnd.
  destruct (decide (t' = t)) as [->|]; [rewrite fn_lookup_insert|by rewrite fn_lookup_insert_ne].
  rewrite EW in Hnd. by apply NoDup_cons in Hnd as [_ ?].
Qed.

Lemma released_in v : v ∈ Q \/ (exists t', v ∈ (<[t := r]> W) t') ->
  exists x, P' !! v = Some x /\ parked x = true /\ has (flags (N' !!! v)) NODEF_SPIN = negb (keyed x).
Proof.
  intros Hv. assert (Hv' : (v ∈ Q \/ exists t', v ∈ W t') /\ v <> u).
  { destruct Hv as [Hv|[t' [Hv Hne]%released_W]]; [|by eauto]. split; [by left|]. intros ->. by apply released_notin. }
  destruct Hv' as [Hv' Hne]. destruct (g_in _ _ _ _ _ _ _ _ G v Hv') as (x & Hxv & Hxp & Hxs). rewrite HN by done.
  destruct (decide (v = t)) as [->|]; [|by exists x; rewrite released_ne].
  exists (wake_rest nxt c). rewrite released_t. assert (x = p) as -> by congruence.
  destruct (wake_rest_class nxt c) as [Ec' _]. pose proof Ec as Ec0. injection Ec0 as _ _ _ _ E5 E6. injection Ec' as _ _ _ _ -> ->.
  by rewrite <- E5, <- E6.
Qed.

Lemma released_out v x : (parked q' = true -> has (flags (N' !!! u)) NODEF_SPIN = false) ->
  P' !! v = Some x -> parked x = true -> (v ∉ Q) -> (forall t', v ∉ (<[t := r]> W) t') ->
  keyed x = false /\ has (flags (N' !!! v)) NODEF_SPIN = false.
Proof.
  intros Hsp Hxv Hxp HvQ HvW. destruct (wake_rest_class nxt c) as [Ec' _]. pose proof Ec as Ec0. injection Ec0 as _ _ _ _ E5 E6. injection Ec' as _ _ _ _ D5 D6.
  destruct (decide (v = t)) as [->|Hvt].
  - rewrite released_t in Hxv. injection Hxv as <-. split; [done|]. destruct (decide (t = u)) as [->|].
    + apply Hsp. rewrite (Eut eq_refl). congruence.
    + rewrite HN by done. destruct (g_out _ _ _ _ _ _ _ _ G t p Hp) as [_ ?]; [congruence|done| |done].
      intros t' Hv. apply (HvW t'), released_W. done.
  - destruct (decide (v = u)) as [->|Hvu].
    + rewrite released_u in Hxv by done. injection Hxv as <-. auto.
    + rewrite released_ne in Hxv by done. rewrite HN by done. apply (g_out _ _ _ _ _ _ _ _ G v x Hxv Hxp HvQ).
      intros t' Hv. apply (HvW t'), released_W. done.
Qed.

Lemma released_threads v x : (u <> t -> thread_ok w m N' Q (W u) u q') ->
  P' !! v = Some x -> thread_ok w m N' Q ((<[t := r]> W) v) v x.
Proof.
  intros Hok Hv. destruct (decide (v = t)) as [->|Hvt].
  - rewrite released_t in Hv. injection Hv as <-. rewrite fn_lookup_insert. apply wake_rest_ok.
    eapply segment_agree; [|done]. intros y Hy. rewrite HN; [done|].
    pose proof (g_nodupW _ _ _ _ _ _ _ _ G t) as Hnd. rewrite EW in Hnd. apply NoDup_cons in Hnd as [Hur _]. by intros ->.
  - rewrite fn_lookup_insert_ne by done. destruct (decide (v = u)) as [->|Hvu].
    + rewrite released_u in Hv by done. injection Hv as <-. by apply Hok.
    + rewrite released_ne in Hv by done. eapply thread_ok_nodes; [| | | |by eapply (g_threads _ _ _ _ _ _ _ _ G)].
      * intros _. by apply HN.
      * intros y Hy. by rewrite released_queue.
      * intros y Hy. rewrite HN; [done|]. intros ->. apply Hvt. eapply (g_disjW _ _ _ _ _ _ _ _ G); [done|]. rewrite EW. set_solver.
      * right. intros y Hy. by rewrite released_queue.
Qed.

Lemma release_ok : p <> ExCas (word st) -> (u <> t -> thread_ok w m N' Q (W u) u q') ->
  (parked q' = true -> has (flags (N' !!! u)) NODEF_SPIN = false) -> inv (State (word st) N' P').
Proof.
  intros Hx Hok Hsp. destruct (wake_rest_class nxt c) as [Ec' Ea'].
  pose proof Ec as Ec0. pose proof Eq as Eq0. injection Ec0 as E1 E2 E3 E4 _ _. injection Ec' as D1 D2 D3 D4 _ _. injection Eq0 as F1 F2 F3 F4.
  exists i, h, w, l, m, Q, (<[t := r]> W). pose proof G as G'. destruct G'. split; cbn [word nodes pcs]; try done.
  - rewrite Hlen. unfold P'. by rewrite !length_insert.
  - unfold P'. by rewrite !length_insert.
  - rewrite !released_cnt by congruence. replace (snapshot N' Q) with (snapshot (nodes st) Q); [done|].
    unfold snapshot. destruct (last Q) eqn:El; [|done]. by rewrite released_queue by (by apply last_in).
  - by rewrite released_cnt by congruence.
  - eapply prev_chain_agree; [|done]. intros v Hv. by rewrite released_queue.
  - intros Hm. destruct (g_many0 Hm) as (f & El & Hf & Hall). exists f. rewrite released_queue by (by apply last_in).
    split_and!; [done..|]. intros v Hv. rewrite released_queue by done. by apply Hall.
  - apply released_nodup.
  - intros t' v [Hv _]%released_W. by eapply g_disj0.
  - intros t1 t2 v [Hv1 _]%released_W [Hv2 _]%released_W. by eapply g_disjW0.
  - apply released_in.
  - intros v x. by apply released_out.
  - intros Hl Hw. destruct (g_norm0 Hl Hw) as (f & A & x & O & ? & ?). exists f, A, x, O. split; [done|].
    eapply normal_agree; [|done]. intros v Hv. by rewrite released_queue.
  - intros v x. by apply released_threads.
  - intros v Hv. destruct (decide (v = t)) as [->|]; [by rewrite released_t in Hv|].
    destruct (decide (v = u)) as [->|]; [by rewrite released_u in Hv|].
    rewrite released_ne in Hv by done. rewrite fn_lookup_insert_ne by done. by apply g_none0.
  - intros Hw Hh Hl. eapply live_insert; [exact released_mid|congruence|done|]. right. exists u, q'.
    rewrite list_lookup_insert_eq by (by eapply lookup_lt_Some). split_and!; [done..|]. by apply released_notin.
Qed.

End Released.

Lemma has_clear_noop f : has f NODEF_SPIN = false -> Z.ldiff f NODEF_SPIN = f.
Proof. unfold has. intros H%negb_false_iff%Z.eqb_eq. rewrite ldiff_sub, H. lia. Qed.

Lemma wake_btr_ok {st i h w l m Q W} t first nxt c : good st i h w l m Q W ->
  pcs st !! t = Some (WakeBtr first nxt c) -> access_ok st t (WakeBtr first nxt c).
Proof.
  intros G Hp. destruct (g_threads _ _ _ _ _ _ _ _ G t _ Hp) as (u & r & EW & -> & Hs).
  assert (Hu : u ∈ W t) by (rewrite EW; set_solver). assert (Hm : member (Q := Q) (W := W) u) by (right; by exists t).
  destruct (g_in _ _ _ _ _ _ _ _ G u Hm) as (q & Hq & Hpq & Hf).
  unfold access_ok. simpl. unfold wake_btr, spin_reset. rewrite (load_member G), bind_ok, (store_member G), !bind_ok by done.
  eexists. split; [done|]. rewrite Hf. unfold go. cbn [word nodes pcs]. destruct (keyed q) eqn:Ek; cbn [negb].
  - apply (good_node t (WakeBtr (addr u) nxt c) _ u _ G); try done.
    + cbv zeta. rewrite !(cnt_same _ _ _ _ _ Hp) by done. split_and!; [|left; by apply same_links_upd|].
      * rewrite (snapshot_agree (nodes st)); [apply G|]. intros v. by apply (upd_field shareSnapshot).
      * exists u, r. split_and!; [done..| |].
        -- eapply segment_agree; [|done]. intros v _. by apply (upd_field next).
        -- rewrite node_upd_eq by (by apply (member_lt G)). apply spin_cleared.
    + by left.
    + left. split; [|done]. simpl. by apply has_clear_noop.
  - rewrite <- (list_insert_id (pcs st) u q) at 1 by done.
    eapply (release_ok G t (WakeBtr (addr u) nxt c) u r nxt c q q); try done.
    + intros ->. congruence.
    + by apply parked_in_acquire.
    + intros v Hv. by apply node_upd_ne.
    + by rewrite length_insert.
    + intros _. eapply thread_ok_nodes; [| | | |by apply G].
      * congruence.
      * intros v _. by rewrite (upd_field head).
      * intros v _. split; [by apply (upd_field next)|]. intros Hv. destruct (decide (v = u)) as [->|]; [|by rewrite node_upd_ne].
        rewrite node_upd_eq by (by apply (member_lt G)). apply spin_cleared.
      * right. by apply same_links_upd.
    + intros _. rewrite node_upd_eq by (by apply (member_lt G)). apply spin_cleared.
Qed.

(** NtReleaseKeyedEvent meets NtWaitForKeyedEvent. *)
Lemma meet_ok {st i h w l m Q W} t u nxt c k old : good st i h w l m Q W ->
  pcs st !! t = Some (WakeKey (addr u) nxt c) -> pcs st !! u = Some (Keyed k old) ->
  inv (go (go st u (Loop k old)) t (wake_rest nxt c)).
Proof.
  intros G Hp Hu. destruct (g_threads _ _ _ _ _ _ _ _ G t _ Hp) as (u' & r & EW & Eu & Hs & _). apply addr_inj in Eu as <-.
  pose proof (W_nil _ _ G Hu I).
  eapply (release_ok G t (WakeKey (addr u) nxt c) u r nxt c (Keyed k old) (Loop k old)); try done.
  intros ->. congruence.
Qed.

End SrwFree.
