(* ===== verification/SrwSpec.v ===== *)
(** * Slim reader/writer locks: what the lock guarantees

    The abstract lock is a list that says of each thread whether it owns the
    lock and how.  The theorems hold of every interleaving of any number of
    threads below 2^28 - 1 that call RtlAcquireSRWLockExclusive,
    RtlAcquireSRWLockShared, RtlTryAcquireSRWLockExclusive and the releases;
    the last one shows why RtlTryAcquireSRWLockShared is left out. *)
From S2P Require Import Prelude Srw SrwWord SrwQueue SrwInv SrwSteps SrwAcquire SrwRelease SrwWake SrwFree.
Import Srw SrwWord SrwQueue SrwInv SrwSteps SrwAcquire SrwRelease SrwWake SrwFree.
Set Warnings "-clear-no-such-hyp".

Module SrwSpec.

(** ** The invariant holds of the reachable states *)

Create HintDb srw.
#[local] Hint Resolve start_ok try_exclusive_ok read_ok loop_ok enq_ok wait_ok own_exclusive_ok own_shared_ok ex_cas_ok
  sh_cas_ok sh_walk_ok sh_prev_ok sh_head_ok sh_dec_ok sh_clear_ok comp_loop_ok comp_walk_ok comp_link_ok comp_set_ok
  comp_cas_ok wake_loop_ok wake_link_ok wake_head_ok wake_set_ok wake_first_ok wake_deq_ok wake_cut_ok wake_unlink_ok
  wake_all_ok wake_back_ok wake_next_ok wake_btr_ok : srw.

Lemma access_inv st t p : inv st -> pcs st !! t = Some p -> blocked p = false -> access_ok st t p.
Proof.
  intros (i & h & w & l & m & Q & W & G) Hp Hb.
  destruct p; try done; eauto with srw.
  - destruct k; eauto with srw.
  - by destruct (g_threads _ _ _ _ _ _ _ _ G t _ Hp).
  - by destruct (g_threads _ _ _ _ _ _ _ _ G t _ Hp).
  - by destruct (g_threads _ _ _ _ _ _ _ _ G t _ Hp).
Qed.

(** The calls of a program that does not use RtlTryAcquireSRWLockShared. *)
Definition calls (f : call) : bool := match f with TryAcquireShared => false | _ => true end.

Lemma srw_step st st' : inv st -> step calls st st' -> inv st'.
Proof.
  intros Hi Hs. destruct Hs as [st t f Ht Hf|st t p st' Ht Hb Ha|st t u first nxt c k old Ht Hu ->].
  - destruct Hi as (i & h & w & l & m & Q & W & G). pose proof (W_nil _ _ G Ht I).
    apply (good_go t Idle _ G); try done; by destruct f.
  - destruct (access_inv st t p Hi Ht Hb) as (st1 & E & ?). congruence.
  - destruct Hi as (i & h & w & l & m & Q & W & G). by eapply meet_ok.
Qed.

Lemma cnt_replicate f n : f Idle = 0%nat -> cnt f (replicate n Idle) = 0%nat.
Proof. intros H. unfold cnt. induction n as [|n IH]; simpl; [done|]. by rewrite H, IH. Qed.

Lemma srw_initial n : Z.of_nat n < 2 ^ 28 - 1 -> inv (initial n).
Proof.
  intros Hn. exists 0, false, false, false, false, [], (fun _ => []).
  assert (Hr : forall t p, replicate n Idle !! t = Some p -> p = Idle) by (by intros t p [-> _]%lookup_replicate).
  split; simpl; rewrite ?length_replicate, ?cnt_replicate by done; try done.
  - constructor.
  - intros _. constructor.
  - intros t u Hu. by apply elem_of_nil in Hu.
  - intros t t' u Hu. by apply elem_of_nil in Hu.
  - intros u [Hu|[t Hu]]; by apply elem_of_nil in Hu.
  - intros u p Hp%Hr. by subst p.
  - intros t p Hp%Hr. by subst p.
Qed.

(** The states that [n] threads can reach. *)
Definition reachable (c : call -> bool) (n : nat) : state -> Prop := rtc (step c) (initial n).

Lemma inv_run st st' : rtc (step calls) st st' -> inv st -> inv st'.
Proof. induction 1 as [|st st1 st' Hs _ IH]; [done|]. intros Hi. by eapply IH, srw_step. Qed.

Lemma srw_reachable n st : Z.of_nat n < 2 ^ 28 - 1 -> reachable calls n st -> inv st.
Proof. intros Hn Hr. by eapply inv_run, srw_initial. Qed.

(** ** The abstract lock *)

(** A thread is outside, inside an acquire, inside a try, or owns the lock. *)
Inductive status := Out | Waits (k : kind) | Tries (k : kind) | Owns (k : kind).

(** Who may take the lock. *)
Definition free (k : kind) (o : list status) : Prop :=
  match k with
  | Exclusive => forall u k', o !! u <> Some (Owns k')
  | Shared => forall u, o !! u <> Some (Owns Exclusive)
  end.

Inductive rw_step : list status -> list status -> Prop :=
| rw_call o t k : o !! t = Some Out -> rw_step o (<[t := Waits k]> o)
| rw_try o t k : o !! t = Some Out -> rw_step o (<[t := Tries k]> o)
| rw_take o t k : o !! t = Some (Waits k) \/ o !! t = Some (Tries k) -> free k o -> rw_step o (<[t := Owns k]> o)
| rw_fail o t k : o !! t = Some (Tries k) -> rw_step o (<[t := Out]> o)
| rw_release o t k : o !! t = Some (Owns k) -> rw_step o (<[t := Out]> o).

(** The abstract state of a thread: it has given up its share of a shared lock
    when it has left the place that says so in the word or in a node. *)
Definition inside (c : kont) : status := match c with Return => Out | Park k _ => Waits k end.

Definition status_of (p : pc) : status :=
  match p with
  | Start k | Read k | Loop k _ | Enq k _ _ _ | Wait k _ | Keyed k _ => Waits k
  | CompLoop _ c | CompWalk _ _ _ c | CompLink _ _ _ c | CompSet _ _ _ c | CompCas _ c
  | WakeLoop _ c | WakeLink _ _ _ c | WakeHead _ _ _ c | WakeSet _ _ _ c | WakeFirst _ _ _ c
  | WakeDeq _ _ c | WakeCut _ c | WakeUnlink _ c | WakeAll _ _ _ c | WakeBack _ _ _ c
  | WakeNext _ c | WakeBtr _ _ c | WakeKey _ _ c => inside c
  | TryExclusive => Tries Exclusive
  | TryShared | TryRead | TryLoop _ => Tries Shared
  | Own k => Owns k
  | ShCas _ | ShWalk _ _ | ShPrev _ _ | ShHead _ _ | ShDec _ _ | ShClear _ => Owns Shared
  | Idle | ExCas _ => Out
  end.

Definition statuses (st : state) : list status := status_of <$> pcs st.

(** What an access can do to the thread that makes it. *)
Inductive moves : status -> status -> Prop :=
| moves_same s : moves s s
| moves_wait k : moves (Waits k) (Owns k)
| moves_try k : moves (Tries k) (Owns k)
| moves_fail k : moves (Tries k) Out
| moves_release k : moves (Owns k) Out.
#[local] Hint Constructors moves : srw.

Lemma status_resume c : status_of (resume c) = inside c.
Proof. by destruct c. Qed.

Lemma status_wake_rest nxt c : status_of (wake_rest nxt c) = inside c.
Proof. unfold wake_rest. case_match; [apply status_resume|done]. Qed.

Lemma store_pcs st a f st' : store st a f = Ok st' -> pcs st' = pcs st.
Proof. unfold store. destruct (deref st a); [|done..]. simpl. by case_match; intros [= <-]. Qed.

Lemma spin_reset_pcs st a b st' : spin_reset st a = Ok (b, st') -> pcs st' = pcs st.
Proof. unfold spin_reset. intros H. inv_bind. simplify_eq. by eapply store_pcs. Qed.

Lemma link_prev_pcs st a b st' : link_prev st a = Ok (b, st') -> pcs st' = pcs st.
Proof. unfold link_prev. intros H. inv_bind. simplify_eq. by eapply store_pcs. Qed.

(** The place a thread goes to. *)
Definition goes (st st' : state) (t : nat) (s : status) : Prop :=
  exists p, pcs st' = <[t := p]> (pcs st) /\ moves s (status_of p).

Lemma goes_go st st0 t s p : pcs st0 = pcs st -> moves s (status_of p) -> goes st (go st0 t p) t s.
Proof. intros E H. exists p. simpl. by rewrite E. Qed.

Lemma goes_cas st t old new yes no s : moves s (status_of yes) -> (forall w, moves s (status_of (no w))) ->
  goes st (cas st t old new yes no) t s.
Proof. intros Hy Hn. unfold cas. case_match; by apply goes_go. Qed.

(** A step that ends by moving the thread or by an exchange. *)
Ltac solve_goes :=
  first [ apply goes_go; [first [done | by eapply store_pcs | by eapply spin_reset_pcs | by eapply link_prev_pcs]|]
        | apply goes_cas; [|intros ?] ];
  repeat case_match; rewrite ?status_wake_rest, ?status_resume; cbn [status_of inside]; eauto with srw.

Lemma access_goes st t p st' : blocked p = false -> access st t p = Ok st' -> goes st st' t (status_of p).
Proof.
  intros Hb H. destruct p; try done; cbn [access status_of] in H |- *;
    unfold acquire_start, bit0_set, acquire_loop, wait_step, release_exclusive, release_shared_dec,
      release_shared_loop, release_shared_clear, try_loop, wake_loop, wake_first, wake_btr, compress_loop in H;
    repeat case_match; inv_bind; repeat match goal with a : (_ * _)%type |- _ => destruct a end; inv_bind;
    simplify_eq; cbn [status_of]; solve_goes.
Qed.

(** ** Exclusion *)
Lemma owns_counts p k : status_of p = Owns k -> match k with Exclusive => is_ex p = 1%nat | Shared => (is_sh p + is_fin p = 1)%nat end.
Proof. destruct p; simpl; try done; try (by destruct c); intros [= <-]; try done. by destruct k0. Qed.

(** An exclusive owner is alone. *)
Lemma inv_exclusive st t u p q k : inv st -> pcs st !! t = Some p -> status_of p = Owns Exclusive ->
  pcs st !! u = Some q -> status_of q = Owns k -> t = u.
Proof.
  intros (i & h & w & l & m & Q & W & G) Hp Ht Hq Hu. destruct (decide (t = u)) as [|Hne]; [done|exfalso].
  apply owns_counts in Ht, Hu. pose proof (g_hold _ _ _ _ _ _ _ _ G) as Hh. unfold hold_ok in Hh.
  pose proof (cnt_le is_ex _ _ _ Hp). pose proof (cnt_le is_sh _ _ _ Hq). pose proof (cnt_le is_fin _ _ _ Hq).
  pose proof (cnt_le2 is_ex _ _ _ _ _ Hne Hp Hq). destruct k, w, h, m; lia.
Qed.

(** So a lock that was taken was free. *)
Lemma inv_free st st' t p k : inv st' -> pcs st' = <[t := p]> (pcs st) -> status_of p = Owns k ->
  forall q, pcs st !! t = Some q -> (forall k', status_of q <> Owns k') -> free k (statuses st).
Proof.
  intros Hi E Hp q Hq Hn. assert (Ht : pcs st' !! t = Some p) by (rewrite E, list_lookup_insert_eq; [done|by eapply lookup_lt_Some]).
  assert (Hex : forall u k', statuses st !! u = Some (Owns k') -> k = Exclusive \/ k' = Exclusive -> False).
  { intros u k' Hu Hk. unfold statuses in Hu. apply list_lookup_fmap_Some in Hu as (x & Hx & Hu). symmetry in Hx.
    assert (u <> t) by (intros ->; assert (x = q) as -> by congruence; by eapply Hn).
    assert (Hu' : pcs st' !! u = Some x) by (by rewrite E, list_lookup_insert_ne).
    destruct Hk as [-> | ->]; [assert (t = u) by (by eapply (inv_exclusive _ t u p x k' Hi))|
      assert (u = t) by (by eapply (inv_exclusive _ u t x p k Hi))]; done. }
  destruct k; simpl; [intros u k' ?|intros u ?]; eapply Hex; eauto.
Qed.

Lemma statuses_lookup st t p : pcs st !! t = Some p -> statuses st !! t = Some (status_of p).
Proof. intros H. unfold statuses. by rewrite list_lookup_fmap, H. Qed.

Lemma statuses_insert st st' t p : pcs st' = <[t := p]> (pcs st) -> statuses st' = <[t := status_of p]> (statuses st).
Proof. intros E. unfold statuses. rewrite E. apply list_fmap_insert. Qed.

Lemma statuses_same st st' t p q : pcs st' = <[t := p]> (pcs st) -> pcs st !! t = Some q -> status_of p = status_of q ->
  statuses st' = statuses st.
Proof. intros E Hq Es. rewrite (statuses_insert _ _ _ _ E), Es. by apply list_insert_id, statuses_lookup. Qed.

(** ** Runs as data: who calls, who makes an access, who meets at an event *)
Inductive act := Call (t : nat) (f : call) | Do (t : nat) | Meet (t u : nat).

Definition exec (c : call -> bool) (st : state) (a : act) : option state :=
  match a with
  | Call t f => match pcs st !! t with Some Idle => if c f then Some (go st t (entry f)) else None | _ => None end
  | Do t =>
      match pcs st !! t with
      | Some p => if blocked p then None else match access st t p with Ok st' => Some st' | _ => None end
      | None => None
      end
  | Meet t u =>
      match pcs st !! t, pcs st !! u with
      | Some (WakeKey first nxt k), Some (Keyed kd old) =>
          if first =? addr u then Some (go (go st u (Loop kd old)) t (wake_rest nxt k)) else None
      | _, _ => None
      end
  end.

Fixpoint run (c : call -> bool) (st : state) (l : list act) : option state :=
  match l with [] => Some st | a :: l => match exec c st a with Some st' => run c st' l | None => None end end.

Lemma exec_step c st a st' : exec c st a = Some st' -> step c st st'.
Proof.
  destruct a as [t f|t|t u]; simpl; intros H; repeat case_match; simplify_eq.
  - by constructor.
  - by eapply step_access.
  - eapply step_meet; [done..|by apply Z.eqb_eq].
Qed.

Lemma run_rtc c l st st' : run c st l = Some st' -> rtc (step c) st st'.
Proof.
  revert st. induction l as [|a l IH]; intros st; simpl; [intros [= <-]; done|].
  destruct (exec c st a) as [st1|] eqn:E; [|done]. intros H. eapply rtc_l; [by eapply exec_step|by apply IH].
Qed.

(** ** A thread that waits is not forgotten *)

(** A step that needs no new call. *)
Definition continues (st : state) : Prop :=
  exists t a st', (a = Do t \/ exists v, a = Meet t v) /\ exec calls st a = Some st'.

Lemma can_act {st i h w l m Q W} t p : good st i h w l m Q W -> pcs st !! t = Some p -> p <> Idle -> keyed p = false -> continues st.
Proof.
  intros G Hp Hi Hk. destruct (blocked p) eqn:Hb.
  - destruct p; try done. destruct (g_threads _ _ _ _ _ _ _ _ G t _ Hp) as (u & r & EW & -> & _ & Hf).
    destruct (g_in _ _ _ _ _ _ _ _ G u) as (q & Hq & _ & Hs); [right; exists t; rewrite EW; set_solver|].
    rewrite Hf in Hs. destruct q; try done. exists t, (Meet t u). simpl. rewrite Hp, Hq, Z.eqb_refl. eauto.
  - destruct (access_inv st t p) as (st' & E & _); [by exists i, h, w, l, m, Q, W|done..|].
    exists t, (Do t), st'. split; [by left|]. simpl. by rewrite Hp, Hb, E.
Qed.

(** A thread with nodes to release is in the loop that releases them. *)
Lemma waker_acts {st i h w l m Q W} t u : good st i h w l m Q W -> u ∈ W t -> continues st.
Proof.
  intros G Hu. destruct (pcs st !! t) as [p|] eqn:Hp.
  2: { rewrite (g_none _ _ _ _ _ _ _ _ G t Hp) in Hu. by apply elem_of_nil in Hu. }
  assert (HW : W t <> []) by (intros E; rewrite E in Hu; by apply elem_of_nil in Hu).
  eapply (can_act t p G); [done|..].
  - intros ->. by apply HW, (W_nil _ _ G Hp).
  - destruct p; try done. by destruct HW; apply (W_nil _ _ G Hp).
Qed.

Lemma class_acts {st i h w l m Q W} f : good st i h w l m Q W -> (0 < cnt f (pcs st))%nat -> f Idle = 0%nat ->
  (forall k old, f (Keyed k old) = 0%nat) -> continues st.
Proof.
  intros G Hc HI HK. apply cnt_pos in Hc as (t & p & Hp & Hf). eapply (can_act t p G); [done|..].
  - intros ->. lia.
  - destruct p; try done. rewrite HK in Hf. lia.
Qed.

Lemma keyed_acts {st i h w l m Q W} u p : good st i h w l m Q W -> pcs st !! u = Some p -> keyed p = true -> (u ∉ Q) -> continues st.
Proof.
  intros G Hp Hk Hu. destruct (member_dec u G) as [[?|[t Ht]]|Hm]; [done|by eapply (waker_acts t u G)|].
  destruct (g_out _ _ _ _ _ _ _ _ G u p Hp) as [? _]; [by destruct p|done| |congruence].
  intros t Ht. apply Hm. right. by exists t.
Qed.

Lemma inv_continues st u p : inv st -> pcs st !! u = Some p -> keyed p = true -> continues st.
Proof.
  intros (i & h & w & l & m & Q & W & G) Hp Hk. destruct (decide (u ∈ Q)) as [Hu|]; [|by eapply (keyed_acts u p G)].
  assert (w = true) as ->.
  { destruct w; [done|]. destruct (wait_flags G eq_refl) as (_ & _ & ->). by apply elem_of_nil in Hu. }
  pose proof (g_owner _ _ _ _ _ _ _ _ G) as Ho. pose proof (g_hold _ _ _ _ _ _ _ _ G) as Hh. unfold hold_ok in Hh. destruct l.
  { apply (class_acts is_owner G); [lia|done..]. } destruct h.
  - assert (0 < cnt is_ex (pcs st) \/ 0 < cnt is_sh (pcs st) \/ 0 < cnt is_fin (pcs st))%nat as [?|[?|?]] by (destruct m; lia).
    + by apply (class_acts is_ex G).
    + by apply (class_acts is_sh G).
    + by apply (class_acts is_fin G).
  - destruct (g_live _ _ _ _ _ _ _ _ G eq_refl eq_refl eq_refl) as [[t Ht]|(t & q & Ht & Ha & HtQ)].
    + by eapply (can_act t _ G).
    + destruct (keyed q) eqn:Ekq; [by eapply (keyed_acts t q G)|]. eapply (can_act t q G); [done|by intros ->|done].
Qed.

(** ** The theorems *)

(** C2. Refinement: each step of the threads, seen at their abstract states, is
    a step of the abstract reader/writer lock or changes nothing: a thread
    takes the lock only in the mode it asked for, exclusively only when no
    thread owns it, shared only when no thread owns it exclusively; only a
    try returns without the lock. *)
Theorem SrwLock_refines n st st' : Z.of_nat n < 2 ^ 28 - 1 -> reachable calls n st -> step calls st st' ->
  statuses st' = statuses st \/ rw_step (statuses st) (statuses st').
Proof.
  intros Hn Hr Hs. pose proof (srw_reachable n st Hn Hr) as Hi. pose proof (srw_step _ _ Hi Hs) as Hi'.
  destruct Hs as [st t f Ht _|st t p st' Ht Hb Ha|st t u first nxt c k old Ht Hu ->].
  - right. rewrite (statuses_insert st (go st t (entry f)) t (entry f) eq_refl). pose proof (statuses_lookup _ _ _ Ht).
    destruct f; by econstructor.
  - destruct (access_goes _ _ _ _ Hb Ha) as (p' & E & Hm). pose proof (statuses_lookup _ _ _ Ht) as Hl.
    inversion Hm as [s E1 E2|k E1 E2|k E1 E2|k E1 E2|k E1 E2]; [left; by eapply statuses_same|right..];
      rewrite (statuses_insert _ _ _ _ E), <- E2; rewrite <- E1 in Hl.
    + apply rw_take; [by left|]. eapply inv_free; [done..|by rewrite <- E1].
    + apply rw_take; [by right|]. eapply inv_free; [done..|by rewrite <- E1].
    + by eapply rw_fail.
    + by eapply rw_release.
  - left. rewrite (statuses_same (go st u (Loop k old)) _ t (wake_rest nxt c) (WakeKey (addr u) nxt c));
      [by eapply statuses_same|done| |apply status_wake_rest].
    simpl. rewrite list_lookup_insert_ne; [done|]. intros ->. congruence.
Qed.

(** Safety: while a thread owns the lock exclusively no other thread owns
    it in any mode, and a shared owner keeps its share until the word or the
    count of the first node says that it has given it up. *)
Theorem SrwLock_exclusion n st t u k : Z.of_nat n < 2 ^ 28 - 1 -> reachable calls n st ->
  statuses st !! t = Some (Owns Exclusive) -> statuses st !! u = Some (Owns k) -> t = u.
Proof.
  intros Hn Hr Ht Hu. unfold statuses in Ht, Hu. apply list_lookup_fmap_Some in Ht as (p & Ep & Hp), Hu as (q & Eq & Hq).
  by apply (inv_exclusive st t u p q k (srw_reachable n st Hn Hr)).
Qed.

(** Safety: no access of any thread goes to a wait node whose frame is gone:
    every access of a reachable state succeeds. *)
Theorem SrwLock_memory_safe n st t p : Z.of_nat n < 2 ^ 28 - 1 -> reachable calls n st -> pcs st !! t = Some p ->
  exists st', access st t p = Ok st'.
Proof.
  intros Hn Hr Hp. destruct (blocked p) eqn:Hb; [destruct p; try done; by eexists|].
  destruct (access_inv st t p) as (st' & ? & _); [by eapply srw_reachable|done..|]. by exists st'.
Qed.

(** C20. Liveness, for programs that do not call RtlTryAcquireSRWLockShared (its
    defect makes the statement false) and have less than 2^28 - 1 threads: a
    thread that waits at its keyed event is not forgotten.  As long as one
    waits, some thread owns the lock or is inside a function, and can make its
    next access, or a release and a wait can meet; no further call is needed. *)
Theorem SrwLock_progress n st u k old : Z.of_nat n < 2 ^ 28 - 1 -> reachable calls n st ->
  pcs st !! u = Some (Keyed k old) -> continues st.
Proof. intros Hn Hr Hu. by apply (inv_continues st u _ (srw_reachable n st Hn Hr) Hu). Qed.

(** ** Runs *)

(** Thread 0 owns the lock, thread 1 waits for a share of it. *)
Definition contended : list act :=
  [Call 0 AcquireExclusive; Do 0; Call 1 AcquireShared; Do 1; Do 1; Do 1; Do 1]%nat.

(** Then thread 0 releases it and wakes thread 1, which finds the word changed. *)
Definition handed : list act := contended ++ [Do 0; Do 0; Do 0; Do 0; Do 0; Do 0; Do 0; Meet 0 1; Do 1; Do 1; Do 1]%nat.

Definition after (l : list act) : state := default (initial 0) (run calls (initial 3) l).

Lemma after_reachable l : run calls (initial 3) l = Some (after l) -> reachable calls 3 (after l).
Proof. apply run_rtc. Qed.

Lemma SrwLock_refines_witness : statuses (after handed) <> statuses (after (handed ++ [Do 1])) /\
  (statuses (after (handed ++ [Do 1])) = statuses (after handed) \/
   rw_step (statuses (after handed)) (statuses (after (handed ++ [Do 1])))).
Proof.
  split; [by vm_compute|]. apply (SrwLock_refines 3); [done|by apply after_reachable|].
  apply (exec_step _ _ (Do 1)). by vm_compute.
Defined.

Lemma SrwLock_exclusion_witness : statuses (after contended) !! 0%nat = Some (Owns Exclusive) /\ (0 = 0)%nat.
Proof.
  split; [by vm_compute|].
  apply (SrwLock_exclusion 3 (after contended) 0 0 Exclusive); [done|by apply after_reachable|by vm_compute..].
Defined.

Lemma SrwLock_memory_safe_witness : exists st', access (after (handed ++ [Do 1])) 1 (Own Shared) = Ok st'.
Proof. apply (SrwLock_memory_safe 3); [done|by apply after_reachable|by vm_compute]. Defined.

Lemma SrwLock_progress_witness : continues (after contended).
Proof. eapply (SrwLock_progress 3 _ 1 Shared); [done|by apply after_reachable|by vm_compute]. Defined.

(** ** RtlTryAcquireSRWLockShared *)

(** C40. With RtlTryAcquireSRWLockShared two threads can own the lock, one shared
    and one exclusively: when the function reads the word again and finds it
    0, it stores a count of one without [SRWF_Hold], and
    RtlAcquireSRWLockExclusive takes the lock. *)
Theorem RtlTryAcquireSRWLockShared_breaks : exists st, reachable (fun _ => true) 3 st /\
  pcs st !! 1%nat = Some (Own Shared) /\ pcs st !! 2%nat = Some (Own Exclusive).
Proof.
  pose (l := [Call 0 AcquireShared; Do 0; Call 1 TryAcquireShared; Do 1; Do 0; Do 1; Do 1; Do 1;
              Call 2 AcquireExclusive; Do 2]%nat).
  exists (default (initial 0) (run (fun _ => true) (initial 3) l)).
  split; [apply (run_rtc _ l); by vm_compute|by vm_compute].
Qed.

End SrwSpec.
