(* ===== verification/Sha1.v ===== *)
(** * SHA-1 of ntext (oca/extensions/ntext/crypt.c)

    A_SHAInit, A_SHAUpdate and A_SHAFinal, which hash in place with a circular
    message schedule of 16 words and unrolled rounds that rename five
    variables; and RtlCreateServiceSid of ntext, which hashes the name of a
    service.

    Bytes and words are integers; words are stored in little-endian order. *)
From S2P Require Import Prelude.

(** ** Words in memory *)

(** [Buffer] read as an array of ULONG. *)
Fixpoint words_le (l : list Z) : list Z :=
  match l with
  | b0 :: b1 :: b2 :: b3 :: l => (b0 + 2 ^ 8 * b1 + 2 ^ 16 * b2 + 2 ^ 24 * b3) :: words_le l
  | _ => []
  end.

Definition bytes_of (x : Z) : list Z := [x mod 2 ^ 8; x / 2 ^ 8 mod 2 ^ 8; x / 2 ^ 16 mod 2 ^ 8; x / 2 ^ 24 mod 2 ^ 8].

Definition bytes_le (l : list Z) : list Z := flat_map bytes_of l.

Module Sha1.

(** ** The macros of ntext/main.h *)
Definition rol (value bits : Z) : Z := u32 (Z.lor (Z.shiftl value bits) (Z.shiftr value (32 - bits))).

Definition DWORD2BE (x : Z) : Z :=
  Z.lor (Z.lor (Z.lor (Z.land (Z.shiftr x 24) 0xff) (Z.land (Z.shiftr x 8) 0xff00))
    (Z.land (Z.shiftl x 8) 0xff0000)) (Z.land (Z.shiftl x 24) 0xff000000).

Definition blk0 (Block : list Z) (i : nat) : Z * list Z :=
  let x := Z.lor (Z.land (rol (Block !!! i) 24) 0xFF00FF00) (Z.land (rol (Block !!! i) 8) 0x00FF00FF) in
  (x, <[i := x]> Block).

Definition blk1 (Block : list Z) (i : nat) : Z * list Z :=
  let at15 j := Block !!! Nat.land j 15 in
  let x := rol (Z.lxor (Z.lxor (Z.lxor (at15 (i + 13)%nat) (at15 (i + 8)%nat)) (at15 (i + 2)%nat)) (at15 i)) 1 in
  (x, <[Nat.land i 15 := x]> Block).

Definition f1 (x y z : Z) : Z := Z.lxor z (Z.land x (Z.lxor y z)).
Definition f2 (x y z : Z) : Z := Z.lxor (Z.lxor x y) z.
Definition f3 (x y z : Z) : Z := Z.lor (Z.land x y) (Z.land z (Z.lor x y)).
Definition f4 (x y z : Z) : Z := Z.lxor (Z.lxor x y) z.

(** The variables [a] to [e] and the words of the block. *)
Definition vars : Type := list Z * list Z.

Definition a : nat := 0.
Definition b : nat := 1.
Definition c : nat := 2.
Definition d : nat := 3.
Definition e : nat := 4.

(** [z += f(w,x,y) + blk(i) + k + rol(v,5); w = rol(w,30)] *)
Definition R (f : Z -> Z -> Z -> Z) (blk : list Z -> nat -> Z * list Z) (k : Z) (v w x y z i : nat) (s : vars) : vars :=
  let '(r, Block) := s in
  let '(m, Block) := blk Block i in
  let r := <[z := u32 (r !!! z + (f (r !!! w) (r !!! x) (r !!! y) + m + k + rol (r !!! v) 5))]> r in
  (<[w := rol (r !!! w) 30]> r, Block).

Definition R0 := R f1 blk0 0x5A827999.
Definition R1 := R f1 blk1 0x5A827999.
Definition R2 := R f2 blk1 0x6ED9EBA1.
Definition R3 := R f3 blk1 0x8F1BBCDC.
Definition R4 := R f4 blk1 0xCA62C1D6.

(** 4 rounds of 20 operations each. *)
Definition rounds : list (vars -> vars) :=
  [R0 a b c d e 0; R0 e a b c d 1; R0 d e a b c 2; R0 c d e a b 3;
   R0 b c d e a 4; R0 a b c d e 5; R0 e a b c d 6; R0 d e a b c 7;
   R0 c d e a b 8; R0 b c d e a 9; R0 a b c d e 10; R0 e a b c d 11;
   R0 d e a b c 12; R0 c d e a b 13; R0 b c d e a 14; R0 a b c d e 15;
   R1 e a b c d 16; R1 d e a b c 17; R1 c d e a b 18; R1 b c d e a 19;
   R2 a b c d e 20; R2 e a b c d 21; R2 d e a b c 22; R2 c d e a b 23;
   R2 b c d e a 24; R2 a b c d e 25; R2 e a b c d 26; R2 d e a b c 27;
   R2 c d e a b 28; R2 b c d e a 29; R2 a b c d e 30; R2 e a b c d 31;
   R2 d e a b c 32; R2 c d e a b 33; R2 b c d e a 34; R2 a b c d e 35;
   R2 e a b c d 36; R2 d e a b c 37; R2 c d e a b 38; R2 b c d e a 39;
   R3 a b c d e 40; R3 e a b c d 41; R3 d e a b c 42; R3 c d e a b 43;
   R3 b c d e a 44; R3 a b c d e 45; R3 e a b c d 46; R3 d e a b c 47;
   R3 c d e a b 48; R3 b c d e a 49; R3 a b c d e 50; R3 e a b c d 51;
   R3 d e a b c 52; R3 c d e a b 53; R3 b c d e a 54; R3 a b c d e 55;
   R3 e a b c d 56; R3 d e a b c 57; R3 c d e a b 58; R3 b c d e a 59;
   R4 a b c d e 60; R4 e a b c d 61; R4 d e a b c 62; R4 c d e a b 63;
   R4 b c d e a 64; R4 a b c d e 65; R4 e a b c d 66; R4 d e a b c 67;
   R4 c d e a b 68; R4 b c d e a 69; R4 a b c d e 70; R4 e a b c d 71;
   R4 d e a b c 72; R4 c d e a b 73; R4 b c d e a 74; R4 a b c d e 75;
   R4 e a b c d 76; R4 d e a b c 77; R4 c d e a b 78; R4 b c d e a 79].

Definition SHA1Transform (State Buffer : list Z) : list Z * list Z :=
  let '(r, Block) := fold_left (fun s op => op s) rounds (State, words_le Buffer) in
  (zip_with (fun s x => u32 (s + x)) State r, bytes_le Block).

(** ** The context *)
Record SHA_CTX := Ctx { State : list Z; Count0 : Z; Count1 : Z; Buffer : list Z }.

Definition A_SHAInit (ctx : SHA_CTX) : SHA_CTX :=
  Ctx [0x67452301; 0xEFCDAB89; 0x98BADCFE; 0x10325476; 0xC3D2E1F0] 0 0 (Buffer ctx).

(** [while (BufferContentSize + BufferSize >= 64)], on the bytes that are left. *)
Fixpoint update_loop (fuel : nat) (State Buffer : list Z) (BufferContentSize : nat) (data : list Z)
  : outcome (list Z * list Z * nat * list Z) :=
  if 64 <=? u32 (Z.of_nat BufferContentSize + Z.of_nat (length data)) then
    match fuel with
    | O => NoFuel
    | S fuel =>
        piece ← rd_list data 0 (64 - BufferContentSize);
        Buffer ← wr_list Buffer BufferContentSize piece;
        let '(State, Buffer) := SHA1Transform State Buffer in
        update_loop fuel State Buffer 0 (drop (64 - BufferContentSize) data)
    end
  else Ok (State, Buffer, BufferContentSize, data).

(** [data]: the [BufferSize] bytes at [Buffer]. *)
Definition A_SHAUpdate (ctx : SHA_CTX) (data : list Z) : outcome SHA_CTX :=
  let BufferSize := Z.of_nat (length data) in
  let BufferContentSize := Z.to_nat (Z.land (Count1 ctx) 63) in
  let Count1' := u32 (Count1 ctx + BufferSize) in
  let Count0' := if Count1' <? BufferSize then u32 (Count0 ctx + 1) else Count0 ctx in
  let Count0' := u32 (Count0' + Z.shiftr BufferSize 29) in
  '(State, Buffer, BufferContentSize, data) ←
    update_loop (S (length data)) (State ctx) (Buffer ctx) BufferContentSize data;
  Buffer ← wr_list Buffer BufferContentSize data;
  Ok (Ctx State Count0' Count1' Buffer).

(** [local]: the bytes that the array [Buffer] of the function happens to hold. *)
Definition A_SHAFinal (ctx : SHA_CTX) (local : list Z) : outcome (list Z * SHA_CTX) :=
  let BufferContentSize := Z.to_nat (Z.land (Count1 ctx) 63) in
  let Pad := (if 56 <=? BufferContentSize then 56 + 64 - BufferContentSize else 56 - BufferContentSize)%nat in
  let LengthHi := Z.lor (u32 (Z.shiftl (Count0 ctx) 3)) (Z.shiftr (Count1 ctx) (32 - 3)) in
  let LengthLo := u32 (Z.shiftl (Count1 ctx) 3) in
  Buf ← wr_list local 1 (replicate (Pad - 1) 0);
  Buf ← wr Buf 0 0x80;
  Buf ← wr_list Buf Pad (bytes_of (DWORD2BE LengthHi));
  Buf ← wr_list Buf (Pad + 4) (bytes_of (DWORD2BE LengthLo));
  data ← rd_list Buf 0 (Pad + 8);
  ctx ← A_SHAUpdate ctx data;
  Ok (DWORD2BE <$> State ctx, A_SHAInit ctx).

End Sha1.

(** ** RtlCreateServiceSid (ntext/rtl/sid.c) *)
Module ServiceSid.

(** [upcase]: the status of RtlUpcaseUnicodeString, or the bytes of its string;
    [Buffer]: the address of these bytes, which is the value of the variable
    [UpUnicodeString.Buffer]; [ctx] and [local]: what the stack happens to
    hold.  The results are the status, the length and the subauthorities. *)
Definition RtlCreateServiceSid (upcase : list Z -> Z + list Z) (Buffer : Z) (ctx : Sha1.SHA_CTX) (local : list Z)
  (ServiceName : option (list Z)) (ServiceSidLength : option Z) : outcome (Z * option Z * list Z) :=
  match ServiceName, ServiceSidLength with
  | Some name, Some TempSize =>
      if TempSize <? 0x20 then Ok (STATUS_BUFFER_TOO_SMALL, Some 0x20, [])
      else
        match upcase name with
        | inl Status => Ok (Status, Some 0x20, [])
        | inr UpUnicodeString =>
            data ← rd_list (bytes_of Buffer) 0 (length UpUnicodeString);
            ctx ← Sha1.A_SHAUpdate (Sha1.A_SHAInit ctx) data;
            '(Sha1Hash, _) ← Sha1.A_SHAFinal ctx local;
            Ok (STATUS_SUCCESS, Some 0x20, 0x50 :: Sha1Hash)
        end
  | _, _ => Ok (STATUS_INVALID_PARAMETER, ServiceSidLength, [])
  end.

End ServiceSid.
