(* ===== verification/ShaInfo.v ===== *)
(** * SHA-1 of advapiex (oca/extensions/advapiex/sha1.c)

    A second implementation of A_SHAInit, A_SHAUpdate and A_SHAFinal: it
    expands the message schedule to 80 words and renames six variables. *)
From S2P Require Import Prelude Sha1.

Module ShaInfo.

(** ** The macros of advapiex/sha1.c *)
Definition f1 (x y z : Z) : Z := Z.lor (Z.land x y) (Z.land (Z.lnot x) z).
Definition f2 (x y z : Z) : Z := Z.lxor (Z.lxor x y) z.
Definition f3 (x y z : Z) : Z := Z.lor (Z.lor (Z.land x y) (Z.land x z)) (Z.land y z).
Definition f4 (x y z : Z) : Z := Z.lxor (Z.lxor x y) z.

(** [f##n] and [CONST##n] *)
Definition f (n : nat) : Z -> Z -> Z -> Z := match n with 1%nat => f1 | 2%nat => f2 | 3%nat => f3 | _ => f4 end.
Definition CONST (n : nat) : Z :=
  match n with 1%nat => 0x5a827999 | 2%nat => 0x6ed9eba1 | 3%nat => 0x8f1bbcdc | _ => 0xca62c1d6 end.

Definition T32 (x : Z) : Z := Z.land x 0xffffffff.
Definition R32 (x n : Z) : Z := T32 (Z.lor (u32 (Z.shiftl x n)) (Z.shiftr x (32 - n))).

(** The variables and the index of [WP]. *)
Definition vars : Type := list Z * nat.

Definition A : nat := 0.
Definition B : nat := 1.
Definition C : nat := 2.
Definition D : nat := 3.
Definition E : nat := 4.
Definition T : nat := 5.

(** [dst = T32(R32(u, 5) + f##n(x, y, z) + w + *WP++ + CONST##n); x = R32(x, 30)],
    with the expanded schedule [W]. *)
Definition step (dst u x y z w : nat) (n : nat) (W : list Z) (s : vars) : vars :=
  let '(r, WP) := s in
  let r := <[dst := T32 (R32 (r !!! u) 5 + f n (r !!! x) (r !!! y) (r !!! z) + r !!! w + W !!! WP + CONST n)]> r in
  (<[x := R32 (r !!! x) 30]> r, S WP).

Definition FA := step T A B C D E.
Definition FB := step E T A B C D.
Definition FC := step D E T A B C.
Definition FD := step C D E T A B.
Definition FE := step B C D E T A.
Definition FT := step A B C D E T.

Definition unraveled : list (list Z -> vars -> vars) :=
  [FA 1; FB 1; FC 1; FD 1; FE 1; FT 1; FA 1; FB 1; FC 1; FD 1;
   FE 1; FT 1; FA 1; FB 1; FC 1; FD 1; FE 1; FT 1; FA 1; FB 1;
   FC 2; FD 2; FE 2; FT 2; FA 2; FB 2; FC 2; FD 2; FE 2; FT 2;
   FA 2; FB 2; FC 2; FD 2; FE 2; FT 2; FA 2; FB 2; FC 2; FD 2;
   FE 3; FT 3; FA 3; FB 3; FC 3; FD 3; FE 3; FT 3; FA 3; FB 3;
   FC 3; FD 3; FE 3; FT 3; FA 3; FB 3; FC 3; FD 3; FE 3; FT 3;
   FA 4; FB 4; FC 4; FD 4; FE 4; FT 4; FA 4; FB 4; FC 4; FD 4;
   FE 4; FT 4; FA 4; FB 4; FC 4; FD 4; FE 4; FT 4; FA 4; FB 4]%nat.

(** ** ShaTransform *)
Definition swap (T : Z) : Z :=
  Z.lor (Z.lor (Z.lor (Z.land (Z.shiftl T 24) 0xff000000) (Z.land (Z.shiftl T 8) 0x00ff0000))
    (Z.land (Z.shiftr T 8) 0x0000ff00)) (Z.land (Z.shiftr T 24) 0x000000ff).

(** [for (i = 16; i < 80; ++i)] *)
Fixpoint expand (n i : nat) (W : list Z) : list Z :=
  match n with
  | O => W
  | S n =>
      let x := Z.lxor (Z.lxor (Z.lxor (W !!! (i - 3)%nat) (W !!! (i - 8)%nat)) (W !!! (i - 14)%nat)) (W !!! (i - 16)%nat) in
      expand n (S i) (<[i := R32 x 1]> W)
  end.

(** [rest]: the words 16 to 79 of the array [W] before they are computed. *)
Definition ShaTransform (digest data rest : list Z) : list Z :=
  let W := expand 64 16 ((swap <$> words_le data) ++ rest) in
  let '(r, _) := fold_left (fun s op => op W s) unraveled (digest ++ [0], 0%nat) in
  [T32 (digest !!! 0%nat + r !!! E); T32 (digest !!! 1%nat + r !!! T); T32 (digest !!! 2%nat + r !!! A);
   T32 (digest !!! 3%nat + r !!! B); T32 (digest !!! 4%nat + r !!! C)].

(** ** The context *)
Record SHA_INFO := Info { digest : list Z; count_lo : Z; count_hi : Z; data : list Z; local : nat }.

Definition A_SHAInit (info : SHA_INFO) : SHA_INFO :=
  Info [0x67452301; 0xefcdab89; 0x98badcfe; 0x10325476; 0xc3d2e1f0] 0 0 (data info) 0.

(** [while (count >= SHA_BLOCKSIZE)], on the bytes that are left. *)
Fixpoint blocks_loop (fuel : nat) (rest digest data buffer : list Z) : outcome (list Z * list Z * list Z) :=
  if (64 <=? length buffer)%nat then
    match fuel with
    | O => NoFuel
    | S fuel =>
        data ← wr_list data 0 (take 64 buffer);
        blocks_loop fuel rest (ShaTransform digest data rest) data (drop 64 buffer)
    end
  else Ok (digest, data, buffer).

(** The part of A_SHAUpdate after the counts. *)
Definition update_blocks (rest digest : list Z) (lo hi : Z) (data buffer : list Z) : outcome SHA_INFO :=
  '(digest, data, buffer) ← blocks_loop (S (length buffer)) rest digest data buffer;
  data ← wr_list data 0 buffer;
  Ok (Info digest lo hi data (length buffer)).

(** [buffer]: the [count] bytes at [buffer]. *)
Definition A_SHAUpdate (rest : list Z) (info : SHA_INFO) (buffer : list Z) : outcome SHA_INFO :=
  let count := Z.of_nat (length buffer) in
  let clo := T32 (count_lo info + u32 (Z.shiftl count 3)) in
  let hi := if clo <? count_lo info then u32 (count_hi info + 1) else count_hi info in
  let hi := u32 (hi + Z.shiftr count 29) in
  if (local info =? 0)%nat then update_blocks rest (digest info) clo hi (data info) buffer
  else
    let i := Nat.min (64 - local info) (length buffer) in
    data ← wr_list (data info) (local info) (take i buffer);
    if (local info + i =? 64)%nat then update_blocks rest (ShaTransform (digest info) data rest) clo hi data (drop i buffer)
    else Ok (Info (digest info) clo hi data (local info + i)).

(** [(unsigned char)((x >> n) & 0xff)] for [n] from 24 down to 0 *)
Definition bytes_be (x : Z) : list Z :=
  (fun n => Z.land (Z.shiftr x n) 0xff) <$> [24; 16; 8; 0].

Definition A_SHAFinal (rest : list Z) (info : SHA_INFO) : outcome (list Z) :=
  let count := Z.to_nat (Z.land (Z.shiftr (count_lo info) 3) 0x3f) in
  data ← wr (data info) count 0x80;
  let count := S count in
  '(digest, data) ←
    (if (64 - 8 <? count)%nat then
       data ← wr_list data count (replicate (64 - count) 0);
       let digest := ShaTransform (digest info) data rest in
       data ← wr_list data 0 (replicate (64 - 8) 0);
       Ok (digest, data)
     else
       data ← wr_list data count (replicate (64 - 8 - count) 0);
       Ok (digest info, data));
  data ← wr_list data 56 (bytes_be (count_hi info) ++ bytes_be (count_lo info));
  let digest := ShaTransform digest data rest in
  Ok (flat_map bytes_be digest).

End ShaInfo.
