(* ===== verification/Sha1Spec.v ===== *)
(** * SHA-1: the standard, and that both implementations compute it

    The reference definition follows FIPS 180-4: functions, constants, message
    schedule, rounds, padding.  The two implementations are related to it
    round by round; the state of a context is related to the message that has
    been hashed so far. *)
From S2P Require Import Prelude Sha1 ShaInfo.
Set Warnings "-clear-no-such-hyp".

(** ** FIPS 180-4 *)
Module Fips.

Definition ROTL (n x : Z) : Z := u32 (Z.lor (Z.shiftl x n) (Z.shiftr x (32 - n))).

Definition Ch (x y z : Z) : Z := Z.lxor (Z.land x y) (Z.land (Z.lnot x) z).
Definition Parity (x y z : Z) : Z := Z.lxor (Z.lxor x y) z.
Definition Maj (x y z : Z) : Z := Z.lxor (Z.lxor (Z.land x y) (Z.land x z)) (Z.land y z).

Definition ft (t : nat) : Z -> Z -> Z -> Z :=
  if (t <? 20)%nat then Ch else if (t <? 40)%nat then Parity else if (t <? 60)%nat then Maj else Parity.

Definition Kt (t : nat) : Z :=
  if (t <? 20)%nat then 0x5a827999 else if (t <? 40)%nat then 0x6ed9eba1
  else if (t <? 60)%nat then 0x8f1bbcdc else 0xca62c1d6.

(** The message schedule: each further word from the last 16. *)
Definition next_word (ws : list Z) : Z :=
  let back k := ws !!! (length ws - k)%nat in
  ROTL 1 (Z.lxor (Z.lxor (Z.lxor (back 3%nat) (back 8%nat)) (back 14%nat)) (back 16%nat)).

Fixpoint extend (n : nat) (ws : list Z) : list Z :=
  match n with O => ws | S n => extend n (ws ++ [next_word ws]) end.

Definition round (t : nat) (w : Z) (s : list Z) : list Z :=
  match s with
  | [a; b; c; d; e] => [u32 (ROTL 5 a + ft t b c d + e + Kt t + w); a; ROTL 30 b; c; d]
  | _ => s
  end.

Fixpoint run_rounds (n t : nat) (W s : list Z) : list Z :=
  match n with O => s | S n => run_rounds n (S t) W (round t (W !!! t) s) end.

Definition compress (H M : list Z) : list Z :=
  zip_with (fun x y => u32 (x + y)) H (run_rounds 80 0 (extend 64 M) H).

Fixpoint words_be (l : list Z) : list Z :=
  match l with
  | b0 :: b1 :: b2 :: b3 :: l => (2 ^ 24 * b0 + 2 ^ 16 * b1 + 2 ^ 8 * b2 + b3) :: words_be l
  | _ => []
  end.

(** The hash value after [n] blocks of 64 bytes. *)
Fixpoint blocks (n : nat) (H m : list Z) : list Z :=
  match n with O => H | S n => blocks n (compress H (words_be (take 64 m))) (drop 64 m) end.

Definition be32 (x : Z) : list Z := [x / 2 ^ 24 mod 2 ^ 8; x / 2 ^ 16 mod 2 ^ 8; x / 2 ^ 8 mod 2 ^ 8; x mod 2 ^ 8].

Definition padding (n : nat) : list Z :=
  0x80 :: replicate ((119 - n mod 64) mod 64) 0 ++ be32 (8 * Z.of_nat n / 2 ^ 32) ++ be32 (8 * Z.of_nat n).

Definition H0 : list Z := [0x67452301; 0xefcdab89; 0x98badcfe; 0x10325476; 0xc3d2e1f0].

(** The digest of a message of bytes. *)
Definition sha1 (m : list Z) : list Z :=
  let p := m ++ padding (length m) in flat_map be32 (blocks (length p / 64) H0 p).

End Fips.
Import Fips.

(** ** Bits *)
Ltac bits :=
  apply Z.bits_inj'; intros ? ?;
  repeat first [rewrite Z.lxor_spec | rewrite Z.lor_spec | rewrite Z.land_spec | rewrite Z.lnot_spec by done];
  repeat match goal with |- context [Z.testbit ?x ?i] => destruct (Z.testbit x i) end; done.

Lemma f1_Ch x y z : Sha1.f1 x y z = Ch x y z.
Proof. unfold Sha1.f1, Ch. bits. Qed.
Lemma f3_Maj x y z : Sha1.f3 x y z = Maj x y z.
Proof. unfold Sha1.f3, Maj. bits. Qed.
Lemma f1_Ch' x y z : ShaInfo.f1 x y z = Ch x y z.
Proof. unfold ShaInfo.f1, Ch. bits. Qed.
Lemma f3_Maj' x y z : ShaInfo.f3 x y z = Maj x y z.
Proof. unfold ShaInfo.f3, Maj. bits. Qed.

Lemma T32_u32 x : ShaInfo.T32 x = u32 x.
Proof. apply (land_ones_mod x 32). lia. Qed.

Lemma R32_ROTL x n : ShaInfo.R32 x n = ROTL n x.
Proof.
  unfold ShaInfo.R32, ROTL. rewrite <- !T32_u32. unfold ShaInfo.T32.
  rewrite !Z.land_lor_distr_l, <- Z.land_assoc. done.
Qed.

(** A byte below a number. *)
Lemma land_byte h l h' l' : 0 <= l < 256 -> 0 <= l' < 256 ->
  Z.land (256 * h + l) (256 * h' + l') = 256 * Z.land h h' + Z.land l l'.
Proof.
  intros Hl Hl'. assert (Hb : 0 <= Z.land l l' < 256).
  { split; [apply Z.land_nonneg; lia|]. destruct (decide (Z.land l l' = 0)); [lia|].
    apply (Z.log2_lt_pow2 _ 8); [pose proof (proj2 (Z.land_nonneg l l')); lia|].
    eapply Z.le_lt_trans; [apply Z.log2_land; lia|]. destruct (decide (l = 0)) as [->|]; [done|].
    apply Z.min_lt_iff. left. apply Z.log2_lt_pow2; lia. }
  rewrite !(Z.mul_comm 256). change 256 with (2 ^ 8) in *.
  rewrite <- (lor_shiftl_add h l 8), <- (lor_shiftl_add h' l' 8), <- (lor_shiftl_add _ (Z.land l l') 8) by lia.
  apply Z.bits_inj'. intros n Hn. rewrite ?Z.lor_spec, ?Z.land_spec, ?Z.lor_spec, !Z.shiftl_spec, ?Z.land_spec by done.
  destruct (decide (n < 8)).
  - by rewrite !(Z.testbit_neg_r _ (n - 8)) by lia.
  - assert (Hx : forall v, 0 <= v < 2 ^ 8 -> Z.testbit v n = false).
    { intros v Hv. apply Z.testbit_false; [done|]. rewrite Z.div_small; [done|].
      split; [lia|]. eapply Z.lt_le_trans; [apply Hv|]. apply Z.pow_le_mono_r; lia. }
    rewrite (Hx l), (Hx l') by done. by rewrite !orb_false_r.
Qed.

Lemma lor_byte h l h' l' : 0 <= l < 256 -> 0 <= l' < 256 ->
  Z.lor (256 * h + l) (256 * h' + l') = 256 * Z.lor h h' + Z.lor l l'.
Proof.
  intros Hl Hl'. pose proof (land_byte (Z.lnot h) (255 - l) (Z.lnot h') (255 - l') ltac:(lia) ltac:(lia)) as H.
  assert (Hn : forall x, 0 <= x < 256 -> 255 - x = Z.land (Z.lnot x) 255).
  { intros x Hx. change 255 with (2 ^ 8 - 1). rewrite land_ones_mod by lia. unfold Z.lnot. dlia. }
  assert (E : forall g x, 0 <= x < 256 -> 256 * Z.lnot g + (255 - x) = Z.lnot (256 * g + x)) by (unfold Z.lnot; lia).
  rewrite !E in H by done. apply (f_equal Z.lnot) in H. rewrite Z.lnot_land, !Z.lnot_involutive in H. rewrite H.
  replace (Z.land (255 - l) (255 - l')) with (255 - Z.lor l l').
  - rewrite <- Z.lnot_lor. unfold Z.lnot. lia.
  - rewrite (Hn l), (Hn l') by done.
    replace (Z.land (Z.land (Z.lnot l) 255) (Z.land (Z.lnot l') 255)) with (Z.land (Z.lnot (Z.lor l l')) 255).
    + change 255 with (2 ^ 8 - 1). rewrite land_ones_mod by lia.
      assert (0 <= Z.lor l l' < 256); [|unfold Z.lnot; dlia].
      split; [apply Z.lor_nonneg; lia|].
      assert (Hm : Z.lor l l' = Z.lor l l' mod 2 ^ 8); [|rewrite Hm; apply Z.mod_pos_bound; lia].
      rewrite <- land_ones_mod, Z.land_lor_distr_l, !land_ones_mod by lia. f_equal; symmetry; apply Z.mod_small; lia.
    + bits.
Qed.

(** ** Words of four bytes *)
Definition num4 (b3 b2 b1 b0 : Z) : Z := 256 * (256 * (256 * b3 + b2) + b1) + b0.

Abbreviation byte x := (0 <= x < 256).

Lemma land_num4 a3 a2 a1 a0 b3 b2 b1 b0 : byte a0 -> byte a1 -> byte a2 -> byte b0 -> byte b1 -> byte b2 ->
  Z.land (num4 a3 a2 a1 a0) (num4 b3 b2 b1 b0) = num4 (Z.land a3 b3) (Z.land a2 b2) (Z.land a1 b1) (Z.land a0 b0).
Proof. intros. unfold num4. by rewrite !land_byte. Qed.

Lemma lor_num4 a3 a2 a1 a0 b3 b2 b1 b0 : byte a0 -> byte a1 -> byte a2 -> byte b0 -> byte b1 -> byte b2 ->
  Z.lor (num4 a3 a2 a1 a0) (num4 b3 b2 b1 b0) = num4 (Z.lor a3 b3) (Z.lor a2 b2) (Z.lor a1 b1) (Z.lor a0 b0).
Proof. intros. unfold num4. by rewrite !lor_byte. Qed.

Lemma land_255 x : byte x -> Z.land x 255 = x.
Proof. intros. change 255 with (2 ^ 8 - 1). rewrite land_ones_mod by lia. apply Z.mod_small. lia. Qed.

Lemma rol_add x n : 0 <= x < 2 ^ 32 -> 0 <= n <= 32 -> ROTL n x = (x * 2 ^ n + x / 2 ^ (32 - n)) mod 2 ^ 32.
Proof.
  intros Hx Hn. unfold ROTL, u32. rewrite Z.shiftr_div_pow2, lor_shiftl_add; [done|lia| |lia].
  split; [apply Z.div_pos; lia|]. apply Z.div_lt_upper_bound; [lia|]. rewrite <- Z.pow_add_r by lia.
  replace (32 - n + n) with 32 by lia. lia.
Qed.

Section Bytes.
Context (b3 b2 b1 b0 : Z) (H3 : byte b3) (H2 : byte b2) (H1 : byte b1) (H0' : byte b0).

Lemma rol_num4_24 : ROTL 24 (num4 b3 b2 b1 b0) = num4 b0 b3 b2 b1.
Proof. rewrite rol_add by (unfold num4; lia). unfold num4. change (2 ^ (32 - 24)) with 256. dlia. Qed.

Lemma rol_num4_8 : ROTL 8 (num4 b3 b2 b1 b0) = num4 b2 b1 b0 b3.
Proof. rewrite rol_add by (unfold num4; lia). unfold num4. change (2 ^ (32 - 8)) with (2 ^ 24). dlia. Qed.

Lemma blk0_num4 : Z.lor (Z.land (Sha1.rol (num4 b3 b2 b1 b0) 24) 0xFF00FF00) (Z.land (Sha1.rol (num4 b3 b2 b1 b0) 8) 0x00FF00FF) =
  num4 b0 b1 b2 b3.
Proof.
  change (Sha1.rol ?x ?n) with (ROTL n x). rewrite rol_num4_24, rol_num4_8.
  change 0xFF00FF00 with (num4 255 0 255 0). change 0x00FF00FF with (num4 0 255 0 255).
  rewrite !land_num4, !Z.land_0_r, !land_255, lor_num4 by lia. by rewrite !Z.lor_0_r, !Z.lor_0_l.
Qed.

(** The four terms of the swaps by shifts and masks. *)
Lemma swap_terms : let x := num4 b3 b2 b1 b0 in
  Z.land (Z.shiftl x 24) 0xff000000 = num4 b0 0 0 0 /\ Z.land (Z.shiftl x 8) 0xff0000 = num4 0 b1 0 0 /\
  Z.land (Z.shiftr x 8) 0xff00 = num4 0 0 b2 0 /\ Z.land (Z.shiftr x 24) 0xff = num4 0 0 0 b3.
Proof.
  cbv zeta. rewrite !Z.shiftl_mul_pow2, !Z.shiftr_div_pow2 by lia.
  change 0xff000000 with (num4 255 0 0 0). change 0xff0000 with (num4 0 255 0 0). change 0xff00 with (num4 0 0 255 0).
  replace (num4 b3 b2 b1 b0 * 2 ^ 24) with (num4 (num4 b3 b2 b1 b0) 0 0 0) by (unfold num4; lia).
  replace (num4 b3 b2 b1 b0 * 2 ^ 8) with (num4 (256 * b3 + b2) b1 b0 0) by (unfold num4; lia).
  replace (num4 b3 b2 b1 b0 / 2 ^ 8) with (num4 0 b3 b2 b1) by (unfold num4; dlia).
  replace (num4 b3 b2 b1 b0 / 2 ^ 24) with b3 by (unfold num4; dlia).
  assert (E : Z.land (num4 b3 b2 b1 b0) 255 = b0).
  { change 255 with (2 ^ 8 - 1). rewrite land_ones_mod by lia. unfold num4. dlia. }
  rewrite !land_num4, E, !Z.land_0_r, !land_255 by lia. done.
Qed.

Lemma DWORD2BE_num4 : Sha1.DWORD2BE (num4 b3 b2 b1 b0) = num4 b0 b1 b2 b3.
Proof.
  unfold Sha1.DWORD2BE. destruct swap_terms as (-> & -> & -> & ->). rewrite !lor_num4 by (rewrite ?Z.lor_0_l, ?Z.lor_0_r; lia).
  by rewrite !Z.lor_0_l, !Z.lor_0_r.
Qed.

Lemma swap_num4 : ShaInfo.swap (num4 b3 b2 b1 b0) = num4 b0 b1 b2 b3.
Proof.
  unfold ShaInfo.swap. destruct swap_terms as (-> & -> & -> & ->). rewrite !lor_num4 by (rewrite ?Z.lor_0_l, ?Z.lor_0_r; lia).
  by rewrite !Z.lor_0_l, !Z.lor_0_r.
Qed.

End Bytes.

(** ** Words of a block *)
Lemma four_ind (P : list Z -> Prop) : (forall l, (length l < 4)%nat -> P l) ->
  (forall b0 b1 b2 b3 l, P l -> P (b0 :: b1 :: b2 :: b3 :: l)) -> forall l, P l.
Proof.
  intros Hs H4 l. remember (length l) as n eqn:E. revert l E. induction n as [n IH] using lt_wf_ind. intros l ->.
  destruct l as [|b0 [|b1 [|b2 [|b3 l]]]]; try (apply Hs; simpl; lia). apply H4, (IH (length l)); [simpl; lia|done].
Qed.

Lemma word_num4 b0 b1 b2 b3 : b0 + 2 ^ 8 * b1 + 2 ^ 16 * b2 + 2 ^ 24 * b3 = num4 b3 b2 b1 b0.
Proof. unfold num4. lia. Qed.

Lemma words_swap (g : Z -> Z) l :
  (forall b3 b2 b1 b0, byte b3 -> byte b2 -> byte b1 -> byte b0 -> g (num4 b3 b2 b1 b0) = num4 b0 b1 b2 b3) ->
  Forall (fun x => byte x) l -> g <$> words_le l = words_be l.
Proof.
  intros Hg. induction l as [l Hl|b0 b1 b2 b3 l IH] using four_ind; intros Hb.
  - by destruct l as [|? [|? [|? [|? ?]]]]; simpl in Hl; try lia.
  - rewrite !Forall_cons in Hb. destruct Hb as (? & ? & ? & ? & Hb). simpl words_le. rewrite word_num4, fmap_cons, Hg, IH by done.
    simpl. f_equal. unfold num4. lia.
Qed.

Lemma words_length l : (length (words_le l) = length l / 4 /\ length (words_be l) = length l / 4)%nat.
Proof.
  induction l as [l Hl|b0 b1 b2 b3 l [IH1 IH2]] using four_ind.
  - rewrite Nat.div_small by done. by destruct l as [|? [|? [|? [|? ?]]]]; simpl in Hl; try lia.
  - simpl length. rewrite IH1, IH2. replace (S (S (S (S (length l))))) with (length l + 1 * 4)%nat by lia.
    rewrite Nat.div_add by lia. lia.
Qed.

Lemma bytes_le_length l : length (bytes_le l) = (4 * length l)%nat.
Proof. induction l as [|x l IH]; [done|]. unfold bytes_le in *. simpl. rewrite IH. lia. Qed.

(** ** The schedule *)
Definition recurs (W : list Z) (t : nat) : Z :=
  ROTL 1 (Z.lxor (Z.lxor (Z.lxor (W !!! (t - 3)%nat) (W !!! (t - 8)%nat)) (W !!! (t - 14)%nat)) (W !!! (t - 16)%nat)).

Lemma lookup_snoc_lt (ws : list Z) x t : (t < length ws)%nat -> (ws ++ [x]) !!! t = ws !!! t.
Proof. intros. by rewrite !list_lookup_total_alt, lookup_app_l. Qed.

Lemma recurs_app ws x t : (16 <= t)%nat -> (t <= length ws)%nat -> recurs (ws ++ [x]) t = recurs ws t.
Proof. intros. unfold recurs. by rewrite !lookup_snoc_lt by lia. Qed.

Lemma extend_spec n : forall ws, (16 <= length ws)%nat ->
  length (extend n ws) = (length ws + n)%nat /\
  (forall t, (t < length ws)%nat -> extend n ws !!! t = ws !!! t) /\
  (forall t, (length ws <= t < length ws + n)%nat -> extend n ws !!! t = recurs (extend n ws) t).
Proof.
  induction n as [|n IH]; intros ws Hl; simpl.
  - split_and!; [lia|done|intros; lia].
  - destruct (IH (ws ++ [next_word ws])) as (E & H1 & H2); [rewrite length_app; simpl; lia|].
    rewrite length_app in *. simpl in *. split_and!; [lia| |].
    + intros t Ht. rewrite H1 by lia. by apply lookup_snoc_lt.
    + intros t Ht. destruct (decide (t = length ws)) as [->|]; [|apply H2; lia].
      rewrite H1 by lia. rewrite list_lookup_total_alt, lookup_app_r, Nat.sub_diag by lia.
      unfold recurs. by rewrite !H1, !lookup_snoc_lt by lia.
Qed.

(** The array that is filled in place. *)
Lemma expand_extend n : forall ws rest, (16 <= length ws)%nat -> length rest = n ->
  ShaInfo.expand n (length ws) (ws ++ rest) = extend n ws.
Proof.
  induction n as [|n IH]; intros ws rest Hl Hr; simpl.
  - apply nil_length_inv in Hr as ->. apply app_nil_r.
  - destruct rest as [|r rest]; [done|]. assert (Hx : forall t, (t < length ws)%nat -> (ws ++ r :: rest) !!! t = ws !!! t).
    { intros. by rewrite !list_lookup_total_alt, lookup_app_l. }
    rewrite !Hx, R32_ROTL by lia. rewrite insert_app_r_alt, Nat.sub_diag by lia. simpl.
    fold (next_word ws). rewrite (cons_middle (next_word ws) ws rest), app_assoc.
    replace (S (length ws)) with (length (ws ++ [next_word ws])) by (rewrite length_app; simpl; lia).
    apply IH; [rewrite length_app; simpl; lia|simpl in Hr; lia].
Qed.

Lemma list5 (l : list Z) : length l = 5%nat -> exists a b c d e, l = [a; b; c; d; e].
Proof. intros Hl. destruct l as [|a [|b [|c [|d [|e [|? ?]]]]]]; try done. by exists a, b, c, d, e. Qed.

Lemma run_rounds_length n : forall t W s, length s = 5%nat -> length (run_rounds n t W s) = 5%nat.
Proof.
  induction n as [|n IH]; intros t W s Hs; [done|]. simpl. apply IH.
  destruct s as [|a [|b [|c [|d [|e [|? ?]]]]]]; done.
Qed.

(** ** The rounds of ntext *)
Module Rounds.

(** The variable with the role [j] in round [i], and the roles of the
    variables. *)
Definition pos (j i : nat) : nat := ((j + 4 * i) mod 5)%nat.

Definition place (i : nat) (s : list Z) : list Z := (fun p => s !!! ((p + i) mod 5)%nat) <$> [0; 1; 2; 3; 4]%nat.

Definition blk (i : nat) := if (i <? 16)%nat then Sha1.blk0 else Sha1.blk1.

Definition macro (i : nat) : nat -> nat -> nat -> nat -> nat -> nat -> Sha1.vars -> Sha1.vars :=
  if (i <? 16)%nat then Sha1.R0 else if (i <? 20)%nat then Sha1.R1 else if (i <? 40)%nat then Sha1.R2
  else if (i <? 60)%nat then Sha1.R3 else Sha1.R4.

Definition op (i : nat) : Sha1.vars -> Sha1.vars :=
  macro i (pos 0 i) (pos 1 i) (pos 2 i) (pos 3 i) (pos 4 i) i.

Lemma rounds_ops : Sha1.rounds = op <$> seq 0 80.
Proof. reflexivity. Qed.

Lemma macro_R i : exists g, (forall x y z, g x y z = ft i x y z) /\ macro i = Sha1.R g (blk i) (Kt i).
Proof.
  unfold macro, ft, Kt, blk.
  destruct (Nat.ltb_spec i 16), (Nat.ltb_spec i 20), (Nat.ltb_spec i 40), (Nat.ltb_spec i 60); try lia.
  - exists Sha1.f1. split; [apply f1_Ch|done].
  - exists Sha1.f1. split; [apply f1_Ch|done].
  - by exists Sha1.f2.
  - exists Sha1.f3. split; [apply f3_Maj|done].
  - by exists Sha1.f4.
Qed.

(** Places depend on the round modulo 5. *)
Lemma mod5 i p q : ((p + i) mod 5 = (p + i mod 5) mod 5 /\ (p + S i) mod 5 = (p + 1 + i mod 5) mod 5 /\
  (q + 4 * i) mod 5 = (q + 4 * (i mod 5)) mod 5)%nat.
Proof.
  replace (p + S i)%nat with (p + 1 + i)%nat by lia.
  assert (E : (4 * i)%nat = (4 * (i mod 5) + (4 * (i / 5)) * 5)%nat) by (pose proof (Nat.div_mod_eq i 5); lia).
  rewrite E, Nat.add_assoc, Nat.Div0.mod_add. by rewrite (Nat.Div0.add_mod_idemp_r p), (Nat.Div0.add_mod_idemp_r (p + 1)).
Qed.

Lemma op_round i s Block w Block' : length s = 5%nat -> blk i Block i = (w, Block') ->
  op i (place i s, Block) = (place (S i) (round i w s), Block').
Proof.
  intros Hs Hb. unfold op. destruct (macro_R i) as (g & Hg & ->). unfold Sha1.R. rewrite Hb.
  destruct s as [|a [|b [|c [|d [|e [|? ?]]]]]]; try done. clear Hs.
  assert (Hi : (i mod 5 = 0 \/ i mod 5 = 1 \/ i mod 5 = 2 \/ i mod 5 = 3 \/ i mod 5 = 4)%nat).
  { pose proof (Nat.mod_upper_bound i 5). lia. }
  unfold place, pos. cbn [fmap list_fmap].
  rewrite !(fun p => proj1 (mod5 i p 0)), !(fun p => proj1 (proj2 (mod5 i p 0))), !(fun q => proj2 (proj2 (mod5 i 0 q))).
  unfold round. rewrite <- Hg. change (Sha1.rol) with (fun x n => ROTL n x). cbv beta. generalize (Kt i), ROTL. intros k rot.
  destruct Hi as [-> | [-> | [-> | [-> | ->]]]]; cbn; f_equal; repeat (f_equal; try lia).
Qed.

(** The block before round [i]: first the words are swapped one by one, then
    it holds the last 16 words of the schedule. *)
Definition circular (raw W : list Z) (i : nat) (Block : list Z) : Prop :=
  length Block = 16%nat /\
  if (i <? 16)%nat then (forall k, (k < i)%nat -> Block !!! k = W !!! k) /\ (forall k, (i <= k < 16)%nat -> Block !!! k = raw !!! k)
  else forall k, (k < 16)%nat -> Block !!! ((i + k) mod 16)%nat = W !!! (i - 16 + k)%nat.

Lemma land_15 i : Nat.land i 15 = (i mod 16)%nat.
Proof. apply (Nat.land_ones i 4). Qed.

Lemma lookup_upd (B : list Z) k x : (k < length B)%nat -> <[k := x]> B !!! k = x.
Proof. apply list_lookup_total_insert_eq. Qed.

(** The words of the second phase. *)
Lemma circular_next raw W i Block : (16 <= i < 80)%nat -> W !!! i = recurs W i -> circular raw W i Block ->
  exists Block', Sha1.blk1 Block i = (W !!! i, Block') /\ circular raw W (S i) Block'.
Proof.
  intros Hi Hw [Hl Hc]. unfold circular. destruct (Nat.ltb_spec i 16), (Nat.ltb_spec (S i) 16); try lia.
  assert (Hx : forall k, (k < 16)%nat -> Block !!! Nat.land (i + k) 15 = W !!! (i - 16 + k)%nat) by (intros; by rewrite land_15, Hc).
  unfold Sha1.blk1. cbv zeta. rewrite !Hx by lia. pose proof (Hx 0%nat ltac:(lia)) as H0'. rewrite !Nat.add_0_r in H0'. rewrite H0'.
  replace (i - 16 + 13)%nat with (i - 3)%nat by lia. replace (i - 16 + 8)%nat with (i - 8)%nat by lia.
  replace (i - 16 + 2)%nat with (i - 14)%nat by lia. change (Sha1.rol ?x 1) with (ROTL 1 x). fold (recurs W i). rewrite <- Hw.
  eexists. split; [done|]. split; [by rewrite length_insert|]. intros k Hk. rewrite land_15.
  assert (i mod 16 < 16)%nat by (apply Nat.mod_upper_bound; lia).
  destruct (decide (k = 15%nat)) as [->|].
  - replace (S i + 15)%nat with (i + 1 * 16)%nat by lia. rewrite Nat.Div0.mod_add, lookup_upd by lia. f_equal. lia.
  - rewrite list_lookup_total_insert_ne.
    + replace (S i + k)%nat with (i + S k)%nat by lia. rewrite Hc by lia. f_equal. lia.
    + pose proof (Nat.div_mod_eq i 16). pose proof (Nat.div_mod_eq (S i + k) 16).
      pose proof (Nat.mod_upper_bound (S i + k) 16). intros ?. nia.
Qed.

Lemma circular_blk raw W i Block : (i < 80)%nat -> (forall t, (16 <= t < 80)%nat -> W !!! t = recurs W t) ->
  (forall k, (k < 16)%nat -> (Sha1.blk0 raw k).1 = W !!! k) -> circular raw W i Block ->
  exists Block', blk i Block i = (W !!! i, Block') /\ circular raw W (S i) Block'.
Proof.
  intros Hi Hw Hraw Hc. unfold blk. destruct (Nat.ltb_spec i 16) as [Hlt|]; [|by apply circular_next; auto].
  destruct Hc as [Hl Hc]. destruct (Nat.ltb_spec i 16) in Hc; [|lia]. destruct Hc as [H1 H2].
  assert (E : (Sha1.blk0 Block i).1 = W !!! i) by (rewrite <- Hraw by done; unfold Sha1.blk0; simpl; by rewrite H2 by lia).
  unfold Sha1.blk0 in *. simpl in E |- *. rewrite E. eexists. split; [done|].
  assert (Hk : forall k, (k < S i)%nat -> <[i := W !!! i]> Block !!! k = W !!! k).
  { intros k Hk. destruct (decide (k = i)) as [->|]; [by apply lookup_upd; lia|].
    rewrite list_lookup_total_insert_ne by done. apply H1. lia. }
  split; [by rewrite length_insert|]. destruct (Nat.ltb_spec (S i) 16).
  - split; [done|]. intros k Hk'. rewrite list_lookup_total_insert_ne by lia. apply H2. lia.
  - intros k Hk'. assert (i = 15%nat) as -> by lia. replace (16 + k)%nat with (k + 1 * 16)%nat by lia.
    rewrite Nat.Div0.mod_add, Nat.mod_small, Hk by lia. f_equal.
Qed.

Lemma rounds_run raw W : (forall t, (16 <= t < 80)%nat -> W !!! t = recurs W t) ->
  (forall k, (k < 16)%nat -> (Sha1.blk0 raw k).1 = W !!! k) ->
  forall n i s Block, (i + n = 80)%nat -> length s = 5%nat -> circular raw W i Block ->
  exists Block', fold_left (fun (s : Sha1.vars) op => op s) (op <$> seq i n) (place i s, Block) = (place 80 (run_rounds n i W s), Block') /\
    length Block' = 16%nat.
Proof.
  intros Hw Hraw. induction n as [|n IH]; intros i s Block Hi Hs Hc.
  - exists Block. assert (i = 80%nat) as -> by lia. split; [done|]. apply Hc.
  - destruct (circular_blk raw W i Block) as (Block1 & Hb & Hc1); [lia|done..|].
    cbn [seq fmap list_fmap fold_left]. rewrite (op_round i s Block _ _ Hs Hb). apply IH; [lia| |done].
    apply (run_rounds_length 1 i W s Hs).
Qed.

Lemma place_0 i s : (i mod 5 = 0)%nat -> length s = 5%nat -> place i s = s.
Proof.
  intros Hi Hs. unfold place. cbn [fmap list_fmap]. rewrite !(Nat.Div0.add_mod _ i), Hi.
  by destruct s as [|? [|? [|? [|? [|? [|? ?]]]]]].
Qed.

End Rounds.

(** ** The rounds of advapiex *)
Module InfoRounds.

Definition pos (j i : nat) : nat := ((j + 5 * i) mod 6)%nat.

Definition place (i : nat) (s : list Z) : list Z := (fun p => s !!! ((p + i) mod 6)%nat) <$> [0; 1; 2; 3; 4; 5]%nat.

Definition op (i : nat) : list Z -> ShaInfo.vars -> ShaInfo.vars :=
  ShaInfo.step (pos 5 i) (pos 0 i) (pos 1 i) (pos 2 i) (pos 3 i) (pos 4 i) (S (i / 20)).

Lemma unraveled_ops : ShaInfo.unraveled = op <$> seq 0 80.
Proof. reflexivity. Qed.

Lemma kind_ft i x y z : (i < 80)%nat -> ShaInfo.f (S (i / 20)) x y z = ft i x y z /\ ShaInfo.CONST (S (i / 20)) = Kt i.
Proof.
  intros Hi. unfold ft, Kt. pose proof (Nat.div_mod_eq i 20). pose proof (Nat.mod_upper_bound i 20).
  destruct (Nat.ltb_spec i 20), (Nat.ltb_spec i 40), (Nat.ltb_spec i 60); try lia.
  - replace (i / 20)%nat with 0%nat by lia. split; [apply f1_Ch'|done].
  - by replace (i / 20)%nat with 1%nat by lia.
  - replace (i / 20)%nat with 2%nat by lia. split; [apply f3_Maj'|done].
  - by replace (i / 20)%nat with 3%nat by lia.
Qed.

(** Places depend on the round modulo 6. *)
Lemma mod6 i p q : ((p + i) mod 6 = (p + i mod 6) mod 6 /\ (p + S i) mod 6 = (p + 1 + i mod 6) mod 6 /\
  (q + 5 * i) mod 6 = (q + 5 * (i mod 6)) mod 6)%nat.
Proof.
  replace (p + S i)%nat with (p + 1 + i)%nat by lia.
  assert (E : (5 * i)%nat = (5 * (i mod 6) + (5 * (i / 6)) * 6)%nat) by (pose proof (Nat.div_mod_eq i 6); lia).
  rewrite E, Nat.add_assoc, Nat.Div0.mod_add. by rewrite (Nat.Div0.add_mod_idemp_r p), (Nat.Div0.add_mod_idemp_r (p + 1)).
Qed.

Lemma info_op_round i W s x : (i < 80)%nat -> length s = 5%nat ->
  op i W (place i (s ++ [x]), i) = (place (S i) (round i (W !!! i) s ++ [s !!! 4%nat]), S i).
Proof.
  intros Hi Hs. unfold op, ShaInfo.step. rewrite !(proj1 (kind_ft i _ _ _ Hi)), (proj2 (kind_ft i 0 0 0 Hi)).
  rewrite T32_u32, !R32_ROTL. destruct s as [|a [|b [|c [|d [|e [|? ?]]]]]]; try done. clear Hs.
  assert (Hr : (i mod 6 = 0 \/ i mod 6 = 1 \/ i mod 6 = 2 \/ i mod 6 = 3 \/ i mod 6 = 4 \/ i mod 6 = 5)%nat).
  { pose proof (Nat.mod_upper_bound i 6). lia. }
  unfold place, pos. cbn [fmap list_fmap app].
  rewrite !(fun p => proj1 (mod6 i p 0)), !(fun p => proj1 (proj2 (mod6 i p 0))), !(fun q => proj2 (proj2 (mod6 i 0 q))).
  unfold round. generalize (ft i), (Kt i), (W !!! i), ROTL. intros g k wi rot.
  destruct Hr as [-> | [-> | [-> | [-> | [-> | ->]]]]]; cbn; f_equal; repeat (f_equal; try lia).
Qed.

Lemma info_rounds_run W : forall n i s x, (i + n = 80)%nat -> length s = 5%nat ->
  exists y, fold_left (fun (s : ShaInfo.vars) op => op W s) (op <$> seq i n) (place i (s ++ [x]), i) =
    (place 80 (run_rounds n i W s ++ [y]), 80%nat).
Proof.
  induction n as [|n IH]; intros i s x Hi Hs.
  - exists x. by assert (i = 80%nat) as -> by lia.
  - cbn [seq fmap list_fmap fold_left]. rewrite info_op_round by lia. apply IH; [lia|]. apply (run_rounds_length 1 i W s Hs).
Qed.

End InfoRounds.

(** The message block of 64 bytes. *)
Section Block.
Context (data : list Z) (Hlen : length data = 64%nat) (Hb : Forall (fun x => byte x) data).

Lemma block_words : length (words_be data) = 16%nat /\ length (words_le data) = 16%nat.
Proof. destruct (words_length data) as [-> ->]. by rewrite Hlen. Qed.

Lemma block_schedule t : (16 <= t < 80)%nat -> extend 64 (words_be data) !!! t = recurs (extend 64 (words_be data)) t.
Proof. destruct block_words as [E _]. destruct (extend_spec 64 (words_be data)) as (_ & _ & H); [lia|]. rewrite E in H. apply H. Qed.

Lemma SHA1Transform_compress H : length H = 5%nat ->
  exists B, Sha1.SHA1Transform H data = (compress H (words_be data), B) /\ length B = 64%nat.
Proof.
  intros HH. destruct block_words as [E E']. unfold Sha1.SHA1Transform. rewrite Rounds.rounds_ops.
  set (W := extend 64 (words_be data)).
  assert (Hraw : forall k, (k < 16)%nat -> (Sha1.blk0 (words_le data) k).1 = W !!! k).
  { intros k Hk. destruct (extend_spec 64 (words_be data)) as (_ & Hx & _); [lia|]. unfold W. rewrite Hx by lia.
    rewrite <- (words_swap (fun x => Z.lor (Z.land (Sha1.rol x 24) 0xFF00FF00) (Z.land (Sha1.rol x 8) 0x00FF00FF)) data blk0_num4 Hb). by rewrite (list_lookup_total_alt (_ <$> _)), list_lookup_fmap, list_lookup_lookup_total_lt by lia. }
  assert (Hc : Rounds.circular (words_le data) W 0 (words_le data)) by (split; [done|]; simpl; split; [intros; lia|done]).
  destruct (Rounds.rounds_run (words_le data) W block_schedule Hraw 80 0 H (words_le data) eq_refl HH Hc) as (B & EB & HB).
  rewrite Rounds.place_0 in EB by done. rewrite EB. exists (bytes_le B). split; [|by rewrite bytes_le_length, HB].
  unfold compress. by rewrite Rounds.place_0 by (try apply run_rounds_length; done).
Qed.

Lemma ShaTransform_compress H rest : length H = 5%nat -> length rest = 64%nat ->
  ShaInfo.ShaTransform H data rest = compress H (words_be data).
Proof.
  intros HH Hr. destruct block_words as [E _]. unfold ShaInfo.ShaTransform. rewrite (words_swap _ data swap_num4 Hb).
  pose proof (expand_extend 64 (words_be data) rest) as Ex. rewrite E in Ex. rewrite Ex by lia. rewrite InfoRounds.unraveled_ops.
  destruct (InfoRounds.info_rounds_run (extend 64 (words_be data)) 80 0 H 0 eq_refl HH) as [y Ey].
  unfold compress. pose proof (run_rounds_length 80 0 (extend 64 (words_be data)) H HH) as Hl.
  destruct (list5 _ Hl) as (x0 & x1 & x2 & x3 & x4 & Ex'). destruct (list5 _ HH) as (h0 & h1 & h2 & h3 & h4 & ->).
  change (InfoRounds.place 0 ([h0; h1; h2; h3; h4] ++ [0])) with ([h0; h1; h2; h3; h4] ++ [0]) in Ey.
  rewrite Ey, Ex'. cbn. by rewrite !T32_u32.
Qed.

End Block.
