(* ===== verification/Sha1Hash.v ===== *)
(** * SHA-1: messages in pieces

    What a context stands for: the bytes that have been hashed so far.  Both
    implementations give the digest of FIPS 180-4, however the message is cut
    into pieces. *)
From S2P Require Import Prelude Sha1 ShaInfo Sha1Spec.
Import Fips.
Set Warnings "-clear-no-such-hyp".

Abbreviation bytes l := (Forall (fun x => 0 <= x < 256) l).

(** ** Blocks *)
Lemma compress_length H M : length H = 5%nat -> length (compress H M) = 5%nat.
Proof. intros HH. unfold compress. by rewrite length_zip_with, run_rounds_length, HH by done. Qed.

Lemma blocks_length n : forall H m, length H = 5%nat -> length (blocks n H m) = 5%nat.
Proof. induction n as [|n IH]; intros H m HH; [done|]. simpl. by apply IH, compress_length. Qed.

Lemma blocks_split q r : forall H m, blocks (q + r) H m = blocks r (blocks q H m) (drop (64 * q) m).
Proof.
  induction q as [|q IH]; intros H m; [done|]. cbn [Nat.add blocks]. rewrite IH, drop_drop. do 2 f_equal. lia.
Qed.

Lemma blocks_app q x : forall H m, (64 * q <= length m)%nat -> blocks q H (m ++ x) = blocks q H m.
Proof.
  induction q as [|q IH]; intros H m Hm; [done|]. cbn [blocks]. rewrite take_app_le, drop_app_le by lia.
  apply IH. rewrite length_drop. lia.
Qed.

(** The blocks of a message that goes on. *)
Lemma blocks_more H m data : let q := (length m / 64)%nat in let p := drop (64 * q) m ++ data in
  blocks (length p / 64) (blocks q H m) p = blocks (length (m ++ data) / 64) H (m ++ data) /\
  drop (64 * (length p / 64)) p = drop (64 * (length (m ++ data) / 64)) (m ++ data) /\
  (length p mod 64 = length (m ++ data) mod 64)%nat.
Proof.
  intros q p. pose proof (Nat.div_mod_eq (length m) 64) as Hq. fold q in Hq.
  assert (Ep : p = drop (64 * q) (m ++ data)) by (unfold p; by rewrite drop_app_le by lia).
  assert (El : length (m ++ data) = (length p + q * 64)%nat) by (rewrite Ep, length_drop, length_app; lia).
  rewrite El, Nat.div_add, Nat.Div0.mod_add by lia. split_and!; [|rewrite Ep, drop_drop; f_equal; lia|done].
  rewrite (Nat.add_comm (length p / 64)), blocks_split, (blocks_app q data H m) by lia. by rewrite <- Ep.
Qed.

(** ** Words and bytes *)
Abbreviation word x := (0 <= x < 2 ^ 32).

Lemma u32_word x : word (u32 x).
Proof. apply Z.mod_pos_bound. lia. Qed.

Lemma num4_of x : word x -> x = num4 (x / 2 ^ 24) (x / 2 ^ 16 mod 256) (x / 2 ^ 8 mod 256) (x mod 256).
Proof. intros. unfold num4. dlia. Qed.

(** Equal lists, element by element. *)
Ltac list_dlia := repeat match goal with |- _ :: _ = _ :: _ => apply (f_equal2 cons) end; try reflexivity; dlia.

Lemma be32_u32 x : be32 (u32 x) = be32 x.
Proof. unfold be32, u32. list_dlia. Qed.

Lemma DWORD2BE_bytes x : word x -> bytes_of (Sha1.DWORD2BE x) = be32 x.
Proof.
  intros Hx. rewrite (num4_of x Hx) at 1. rewrite DWORD2BE_num4 by dlia. unfold bytes_of, num4, be32. list_dlia.
Qed.

Lemma bytes_be_be32 x : ShaInfo.bytes_be x = be32 x.
Proof.
  unfold ShaInfo.bytes_be, be32. cbn [fmap list_fmap]. rewrite !Z.shiftr_div_pow2 by lia. change 255 with (2 ^ 8 - 1).
  rewrite !land_ones_mod by lia. by rewrite Z.div_1_r.
Qed.

Lemma be32_bytes x : bytes (be32 x).
Proof. unfold be32. forall_lia. Qed.

Lemma blocks_words n : forall H m, Forall (fun x => word x) H -> Forall (fun x => word x) (blocks n H m).
Proof.
  induction n as [|n IH]; intros H m HH; [done|]. cbn [blocks]. apply IH. unfold compress.
  generalize (run_rounds 80 0 (extend 64 (words_be (take 64 m))) H). clear IH HH.
  induction H as [|x H IH]; intros [|y l]; simpl; constructor; [apply u32_word|apply IH].
Qed.

Lemma padding_bytes n : bytes (padding n).
Proof.
  unfold padding. repeat first [apply Forall_cons; split; [lia|] | apply Forall_app; split]; try apply be32_bytes.
  by apply Forall_replicate.
Qed.

Lemma padding_length n : ((n + length (padding n)) mod 64 = 0)%nat.
Proof.
  unfold padding. cbn [length]. rewrite !length_app, length_replicate. cbn [length be32].
  pose proof (Nat.div_mod_eq n 64). pose proof (Nat.mod_upper_bound n 64).
  destruct (decide (n mod 64 < 56)%nat).
  - replace ((119 - n mod 64) mod 64)%nat with (55 - n mod 64)%nat.
    + replace (n + _)%nat with ((n / 64 + 1) * 64)%nat by lia. apply Nat.Div0.mod_mul.
    + apply (Nat.mod_unique _ _ 1); lia.
  - rewrite (Nat.mod_small (119 - _)) by lia.
    replace (n + _)%nat with ((n / 64 + 2) * 64)%nat by lia. apply Nat.Div0.mod_mul.
Qed.

(** ** The contexts of ntext *)
Module Hash.

Record absorbed (ctx : Sha1.SHA_CTX) (m : list Z) : Prop := {
  ab_state : Sha1.State ctx = blocks (length m / 64) H0 m;
  ab_count0 : Sha1.Count0 ctx = u32 (Z.of_nat (length m) / 2 ^ 32);
  ab_count1 : Sha1.Count1 ctx = u32 (Z.of_nat (length m));
  ab_length : length (Sha1.Buffer ctx) = 64%nat;
  ab_buffer : take (length m mod 64) (Sha1.Buffer ctx) = drop (64 * (length m / 64)) m;
  ab_bytes : bytes m;
}.

Lemma update_loop_ok : forall fuel St Buf n data, length St = 5%nat -> length Buf = 64%nat -> (n < 64)%nat ->
  bytes (take n Buf) -> bytes data -> (length data < fuel)%nat -> Z.of_nat (n + length data) < 2 ^ 32 ->
  let p := take n Buf ++ data in
  exists Buf' n' data', Sha1.update_loop fuel St Buf n data = Ok (blocks (length p / 64) St p, Buf', n', data') /\
    length Buf' = 64%nat /\ (n' + length data' = length p mod 64)%nat /\ take n' Buf' ++ data' = drop (64 * (length p / 64)) p.
Proof.
  induction fuel as [|fuel IH]; intros St Buf n data HS HB Hn Hbn Hbd Hf Hsz p; [lia|].
  assert (Hp : length p = (n + length data)%nat) by (unfold p; rewrite length_app, length_take; lia).
  cbn [Sha1.update_loop]. rewrite u32_small, <- Nat2Z.inj_add by lia. destruct (Z.leb_spec 64 (Z.of_nat (n + length data))) as [Hge|Hlt].
  - rewrite rd_list_Ok, bind_ok by lia. rewrite drop_0.
    rewrite wr_list_Ok, bind_ok by (rewrite length_take; lia).
    set (B1 := take n Buf ++ _ ++ _). assert (E1 : B1 = take 64 p).
    { unfold B1, p. rewrite length_take, drop_ge, app_nil_r by lia. rewrite take_app_ge by (rewrite length_take; lia).
      rewrite length_take. do 2 f_equal. lia. }
    destruct (SHA1Transform_compress B1) with (H := St) as (B & -> & HB'); [rewrite E1, length_take; lia|rewrite E1; apply Forall_take, Forall_app; by split|done|].
    destruct (IH (compress St (words_be B1)) B 0%nat (drop (64 - n) data)) as (Buf' & n' & data' & E & ? & Hn' & Hd); try done.
    + by apply compress_length.
    + lia.
    + by apply Forall_drop.
    + rewrite length_drop. lia.
    + rewrite length_drop. lia.
    + rewrite take_0, app_nil_l in E, Hn', Hd. assert (Ed : drop (64 - n) data = drop 64 p).
      { unfold p. rewrite drop_app_ge by (rewrite length_take; lia). rewrite length_take. do 2 f_equal. lia. }
      assert (Eq : (length p / 64 = S (length (drop 64 p) / 64))%nat).
      { rewrite length_drop. replace (length p) with (length p - 64 + 1 * 64)%nat at 1 by lia. rewrite Nat.div_add by lia. lia. }
      exists Buf', n', data'. rewrite Ed in Hn', Hd, E. rewrite Ed, E, E1, Eq. split_and!; [done..| |].
      * rewrite Hn', length_drop, <- (Nat.Div0.mod_add (length p - 64) 1). f_equal; lia.
      * rewrite Hd, drop_drop. f_equal. lia.
  - exists Buf, n, data. rewrite Nat.div_small, Nat.mod_small by lia. split_and!; done.
Qed.

Lemma land_63 n : Z.to_nat (Z.land (u32 (Z.of_nat n)) 63) = (n mod 64)%nat.
Proof.
  change 63 with (2 ^ 6 - 1). rewrite land_ones_mod by lia. unfold u32.
  apply Nat2Z.inj. rewrite Z2Nat.id by (apply Z.mod_pos_bound; lia). rewrite Nat2Z.inj_mod. change (Z.of_nat 64) with (2 ^ 6). dlia.
Qed.

(** The counts of bytes: correct for pieces below 2^29 bytes. *)
Lemma count_ok n k : 0 <= n -> 0 <= k < 2 ^ 29 ->
  let c1 := u32 (u32 n + k) in
  let c0 := if c1 <? k then u32 (u32 (n / 2 ^ 32) + 1) else u32 (n / 2 ^ 32) in
  c1 = u32 (n + k) /\ u32 (c0 + Z.shiftr k 29) = u32 ((n + k) / 2 ^ 32).
Proof.
  intros Hn Hk. cbv zeta. rewrite Z.shiftr_div_pow2, (Z.div_small k) by lia. unfold u32.
  destruct (Z.ltb_spec ((n mod 2 ^ 32 + k) mod 2 ^ 32) k); split; dlia.
Qed.

Lemma A_SHAUpdate_absorbs ctx m data : absorbed ctx m -> bytes data -> Z.of_nat (length data) < 2 ^ 29 ->
  exists ctx', Sha1.A_SHAUpdate ctx data = Ok ctx' /\ absorbed ctx' (m ++ data).
Proof.
  intros [HS H0' H1' HB HT Hm] Hd Hsz. unfold Sha1.A_SHAUpdate. cbv zeta. rewrite H0', H1', land_63.
  destruct (count_ok (Z.of_nat (length m)) (Z.of_nat (length data))) as [E1 E0]; [lia..|]. cbv zeta in E0. rewrite E0, E1.
  pose proof (Nat.mod_upper_bound (length m) 64).
  destruct (update_loop_ok (S (length data)) (Sha1.State ctx) (Sha1.Buffer ctx) (length m mod 64) data)
    as (Buf & n' & data' & -> & HBuf & Hn' & Hdata); try done.
  - rewrite HS. by apply blocks_length.
  - lia.
  - rewrite HT. by apply Forall_drop.
  - lia.
  - lia.
  - rewrite HT, HS in *. destruct (blocks_more H0 m data) as (Eb & Ed & Em). rewrite Eb, Ed, Em in *.
    rewrite bind_ok. rewrite wr_list_Ok, bind_ok by (pose proof (Nat.mod_upper_bound (length (m ++ data)) 64); lia).
    eexists. split; [done|]. split; cbn [Sha1.State Sha1.Count0 Sha1.Count1 Sha1.Buffer]; try done.
    + by rewrite length_app, Nat2Z.inj_add.
    + by rewrite length_app, Nat2Z.inj_add.
    + rewrite !length_app, length_take, length_drop. pose proof (Nat.mod_upper_bound (length (m ++ data)) 64). lia.
    + rewrite <- Hn', <- Hdata, app_assoc. apply take_app_length'. rewrite length_app, length_take.
      pose proof (Nat.mod_upper_bound (length (m ++ data)) 64). lia.
    + apply Forall_app. by split.
Qed.

(** The lengths that A_SHAFinal stores, in bits. *)
Lemma length_words n : 0 <= n ->
  Z.lor (u32 (Z.shiftl (u32 (n / 2 ^ 32)) 3)) (Z.shiftr (u32 n) (32 - 3)) = u32 (8 * n / 2 ^ 32) /\
  u32 (Z.shiftl (u32 n) 3) = u32 (8 * n).
Proof.
  intros Hn. rewrite !Z.shiftl_mul_pow2, Z.shiftr_div_pow2 by lia. change (32 - 3) with 29. unfold u32.
  split; [|dlia]. replace ((n / 2 ^ 32) mod 2 ^ 32 * 2 ^ 3 mod 2 ^ 32) with ((n / 2 ^ 32) mod 2 ^ 29 * 2 ^ 3) by dlia.
  rewrite lor_const_add by dlia. dlia.
Qed.

(** The local array of A_SHAFinal holds the padding. *)
Lemma pad_array x l1 l2 l3 l4 Pad v1 v2 : length l1 = (Pad - 1)%nat -> (0 < Pad)%nat -> length l2 = 4%nat -> length l3 = 4%nat ->
  length v1 = 4%nat -> length v2 = 4%nat ->
  (Buf ← wr_list (x :: l1 ++ l2 ++ l3 ++ l4) 1 (replicate (Pad - 1) 0);
   Buf ← wr Buf 0 0x80;
   Buf ← wr_list Buf Pad v1;
   Buf ← wr_list Buf (Pad + 4) v2;
   rd_list Buf 0 (Pad + 8)) = Ok (0x80 :: replicate (Pad - 1) 0 ++ v1 ++ v2).
Proof.
  intros E1 HP E2 E3 F1 F2. rewrite (wr_list_app [x] l1 (l2 ++ l3 ++ l4)) by (rewrite ?length_replicate; done). rewrite bind_ok.
  rewrite wr_lt by (simpl; lia). rewrite bind_ok. simpl insert.
  set (z := replicate (Pad - 1) 0). assert (Hz : length (128 :: z) = Pad) by (unfold z; simpl; rewrite length_replicate; lia).
  change (128 :: z ++ l2 ++ l3 ++ l4) with ((128 :: z) ++ l2 ++ l3 ++ l4). rewrite wr_list_app, bind_ok by lia.
  rewrite app_assoc. rewrite wr_list_app, bind_ok by (rewrite ?length_app; lia).
  rewrite rd_list_Ok by (rewrite !length_app; lia). rewrite drop_0, app_assoc, take_app_length' by (rewrite !length_app; lia).
  by rewrite <- !app_assoc.
Qed.

Lemma A_SHAFinal_digest ctx m local : absorbed ctx m -> length local = 72%nat ->
  exists result ctx', Sha1.A_SHAFinal ctx local = Ok (result, Sha1.A_SHAInit ctx') /\ bytes_le result = sha1 m.
Proof.
  intros Hab Hl. pose proof Hab as [HS H0' H1' HB HT Hm]. unfold Sha1.A_SHAFinal. cbv zeta. rewrite H0', H1', land_63.
  destruct (length_words (Z.of_nat (length m))) as [-> ->]; [lia|]. rewrite !DWORD2BE_bytes, !be32_u32 by apply u32_word.
  set (Pad := (if 56 <=? length m mod 64 then 56 + 64 - length m mod 64 else 56 - length m mod 64)%nat).
  assert (HP : (Pad - 1 = (119 - length m mod 64) mod 64)%nat /\ (0 < Pad <= 64)%nat).
  { unfold Pad. pose proof (Nat.mod_upper_bound (length m) 64). destruct (Nat.leb_spec 56 (length m mod 64)).
    - rewrite (Nat.mod_small (119 - _)) by lia. lia.
    - split; [|lia]. apply (Nat.mod_unique _ _ 1); lia. }
  destruct HP as [HP1 HP].
  assert (El : exists x l1 l2 l3 l4, local = x :: l1 ++ l2 ++ l3 ++ l4 /\ length l1 = (Pad - 1)%nat /\ length l2 = 4%nat /\ length l3 = 4%nat).
  { destruct local as [|x l]; [done|]. simpl in Hl.
    exists x, (take (Pad - 1) l), (take 4 (drop (Pad - 1) l)), (take 4 (drop 4 (drop (Pad - 1) l))), (drop 4 (drop 4 (drop (Pad - 1) l))).
    rewrite !take_drop, !length_take, !length_drop. split_and!; [done|lia..]. }
  destruct El as (x & l1 & l2 & l3 & l4 & -> & L1 & L2 & L3).
  pose proof (pad_array x l1 l2 l3 l4 Pad (be32 (8 * Z.of_nat (length m) / 2 ^ 32)) (be32 (8 * Z.of_nat (length m)))
    L1 ltac:(lia) L2 L3 eq_refl eq_refl) as Hpad.
  apply bind_Ok_inv in Hpad as (B1 & -> & Hpad). rewrite bind_ok. apply bind_Ok_inv in Hpad as (B2 & -> & Hpad). rewrite bind_ok.
  apply bind_Ok_inv in Hpad as (B3 & -> & Hpad). rewrite bind_ok. apply bind_Ok_inv in Hpad as (B4 & -> & Hpad). rewrite bind_ok.
  rewrite Hpad, bind_ok, HP1. fold (padding (length m)).
  destruct (A_SHAUpdate_absorbs ctx m (padding (length m)) Hab) as (ctx' & -> & Hab').
  { apply padding_bytes. }
  { unfold padding. simpl length. rewrite !length_app, length_replicate. simpl length. pose proof (Nat.mod_upper_bound (119 - length m mod 64) 64). lia. }
  rewrite bind_ok. exists (Sha1.DWORD2BE <$> Sha1.State ctx'), ctx'. split; [done|]. destruct Hab' as [-> _ _ _ _ _].
  unfold sha1, bytes_le. cbv zeta. assert (Hw : Forall (fun x => word x) H0) by (unfold H0; forall_lia).
  apply (blocks_words (length (m ++ padding (length m)) / 64) H0 (m ++ padding (length m))) in Hw.
  induction Hw as [|y ys Hy _ IH]; [done|]. rewrite fmap_cons. cbn [flat_map]. by rewrite IH, DWORD2BE_bytes.
Qed.

End Hash.

(** ** The contexts of advapiex *)
Module InfoHash.

Record absorbed (info : ShaInfo.SHA_INFO) (m : list Z) : Prop := {
  ab_digest : ShaInfo.digest info = blocks (length m / 64) H0 m;
  ab_hi : ShaInfo.count_hi info = u32 (8 * Z.of_nat (length m) / 2 ^ 32);
  ab_lo : ShaInfo.count_lo info = u32 (8 * Z.of_nat (length m));
  ab_length : length (ShaInfo.data info) = 64%nat;
  ab_local : ShaInfo.local info = (length m mod 64)%nat;
  ab_data : take (length m mod 64) (ShaInfo.data info) = drop (64 * (length m / 64)) m;
  ab_bytes : bytes m;
}.

Section Rest.
Context (rest : list Z) (Hrest : length rest = 64%nat).

Lemma blocks_loop_ok : forall fuel H data buffer, length H = 5%nat -> length data = 64%nat -> bytes buffer ->
  (length buffer < fuel)%nat ->
  exists data', ShaInfo.blocks_loop fuel rest H data buffer =
    Ok (blocks (length buffer / 64) H buffer, data', drop (64 * (length buffer / 64)) buffer) /\ length data' = 64%nat.
Proof.
  induction fuel as [|fuel IH]; intros H data buffer HH Hd Hb Hf; [lia|]. cbn [ShaInfo.blocks_loop].
  destruct (Nat.leb_spec 64 (length buffer)) as [Hge|Hlt].
  - rewrite wr_list_Ok, bind_ok by (rewrite length_take; lia). rewrite take_0, app_nil_l, drop_ge, app_nil_r by (rewrite length_take; lia).
    rewrite ShaTransform_compress; [|rewrite length_take; lia|by apply Forall_take|done..].
    assert (Eq : (length buffer / 64 = S (length (drop 64 buffer) / 64))%nat).
    { rewrite length_drop. replace (length buffer) with (length buffer - 64 + 1 * 64)%nat at 1 by lia. rewrite Nat.div_add by lia. lia. }
    destruct (IH (compress H (words_be (take 64 buffer))) (take 64 buffer) (drop 64 buffer)) as (data' & -> & ?).
    + by apply compress_length.
    + rewrite length_take. lia.
    + by apply Forall_drop.
    + rewrite length_drop. lia.
    + exists data'. rewrite Eq, drop_drop. split; [|done]. cbn [blocks]. do 2 f_equal. f_equal. lia.
  - exists data. by rewrite Nat.div_small by lia.
Qed.

Lemma update_blocks_ok H lo hi data buffer : length H = 5%nat -> length data = 64%nat -> bytes buffer ->
  exists data', ShaInfo.update_blocks rest H lo hi data buffer =
    Ok (ShaInfo.Info (blocks (length buffer / 64) H buffer) lo hi data' (length buffer mod 64)) /\
    length data' = 64%nat /\ take (length buffer mod 64) data' = drop (64 * (length buffer / 64)) buffer.
Proof.
  intros HH Hd Hb. unfold ShaInfo.update_blocks.
  destruct (blocks_loop_ok (S (length buffer)) H data buffer HH Hd Hb) as (data' & -> & Hd'); [lia|]. rewrite bind_ok.
  pose proof (Nat.div_mod_eq (length buffer) 64). pose proof (Nat.mod_upper_bound (length buffer) 64).
  assert (El : length (drop (64 * (length buffer / 64)) buffer) = (length buffer mod 64)%nat) by (rewrite length_drop; lia).
  rewrite wr_list_Ok, bind_ok by lia. rewrite take_0, app_nil_l, El. eexists. split; [done|]. split.
  - rewrite length_app, !length_drop. lia.
  - by apply take_app_length'.
Qed.

Lemma info_count_ok n k : 0 <= n -> 0 <= k < 2 ^ 32 ->
  let lo := ShaInfo.T32 (u32 (8 * n) + u32 (Z.shiftl k 3)) in
  let hi := if lo <? u32 (8 * n) then u32 (u32 (8 * n / 2 ^ 32) + 1) else u32 (8 * n / 2 ^ 32) in
  lo = u32 (8 * (n + k)) /\ u32 (hi + Z.shiftr k 29) = u32 (8 * (n + k) / 2 ^ 32).
Proof.
  intros Hn Hk. cbv zeta. rewrite T32_u32, Z.shiftl_mul_pow2, Z.shiftr_div_pow2 by lia. unfold u32.
  destruct (Z.ltb_spec (((8 * n) mod 2 ^ 32 + k * 2 ^ 3 mod 2 ^ 32) mod 2 ^ 32) ((8 * n) mod 2 ^ 32)); split; dlia.
Qed.

(** The block that is being filled. *)
Lemma fill_ok H lo hi data buffer n : length H = 5%nat -> length data = 64%nat -> (0 < n < 64)%nat ->
  bytes (take n data) -> bytes buffer ->
  let p := take n data ++ buffer in let i := Nat.min (64 - n) (length buffer) in
  exists data',
    (data ← wr_list data n (take i buffer);
     if (n + i =? 64)%nat then ShaInfo.update_blocks rest (ShaInfo.ShaTransform H data rest) lo hi data (drop i buffer)
     else Ok (ShaInfo.Info H lo hi data (n + i))) =
    Ok (ShaInfo.Info (blocks (length p / 64) H p) lo hi data' (length p mod 64)) /\
    length data' = 64%nat /\ take (length p mod 64) data' = drop (64 * (length p / 64)) p.
Proof.
  intros HH HB Hn Ht Hb p i. assert (Hlp : length p = (n + length buffer)%nat) by (unfold p; rewrite length_app, length_take; lia).
  assert (Hbp : bytes p) by (apply Forall_app; by split).
  rewrite wr_list_Ok, bind_ok by (rewrite length_take; lia). rewrite length_take.
  set (data1 := take n _ ++ _ ++ _). assert (H1 : take (n + i) data1 = take (n + i) p).
  { unfold data1, p. rewrite app_assoc, take_app_length' by (rewrite length_app, !length_take; lia).
    rewrite take_app_ge by (rewrite length_take; lia). rewrite length_take. do 2 f_equal. lia. }
  assert (Hl1 : length data1 = 64%nat) by (unfold data1; rewrite !length_app, !length_take, length_drop; lia).
  destruct (Nat.eqb_spec (n + i) 64) as [E64|Hne].
  - rewrite E64, (take_ge data1) in H1 by lia. rewrite H1.
    rewrite ShaTransform_compress; [|rewrite length_take; lia|by apply Forall_take|done..].
    assert (Ed : drop i buffer = drop 64 p).
    { unfold p. rewrite drop_app_ge by (rewrite length_take; lia). rewrite length_take. f_equal. lia. }
    assert (El : length p = (length (drop 64 p) + 1 * 64)%nat) by (rewrite length_drop; lia).
    rewrite Ed, El, Nat.div_add, Nat.Div0.mod_add, Nat.add_1_r by lia. cbn [blocks].
    replace (64 * S (length (drop 64 p) / 64))%nat with (64 + 64 * (length (drop 64 p) / 64))%nat by lia. rewrite <- drop_drop.
    apply update_blocks_ok; [by apply compress_length|rewrite length_take; lia|by apply Forall_drop].
  - exists data1. rewrite Nat.div_small, Nat.mod_small by lia. rewrite Hlp. replace (n + length buffer)%nat with (n + i)%nat by lia.
    split_and!; [done..|]. rewrite H1, take_ge by lia. done.
Qed.

Lemma info_A_SHAUpdate_absorbs info m buffer : absorbed info m -> bytes buffer -> Z.of_nat (length buffer) < 2 ^ 32 ->
  exists info', ShaInfo.A_SHAUpdate rest info buffer = Ok info' /\ absorbed info' (m ++ buffer).
Proof.
  intros [HD Hhi Hlo HB Hloc HT Hm] Hb Hsz. unfold ShaInfo.A_SHAUpdate. cbv zeta. rewrite Hhi, Hlo, Hloc.
  destruct (info_count_ok (Z.of_nat (length m)) (Z.of_nat (length buffer))) as [El Eh]; [lia..|]. cbv zeta in Eh. rewrite Eh, El.
  rewrite <- Nat2Z.inj_add, <- length_app. set (lo := u32 (8 * Z.of_nat (length (m ++ buffer)))).
  set (hi := u32 (8 * Z.of_nat (length (m ++ buffer)) / 2 ^ 32)).
  destruct (blocks_more H0 m buffer) as (Eb & Ed & Em). rewrite <- HD, <- HT in Eb. rewrite <- HT in Ed, Em.
  set (n := (length m mod 64)%nat) in *. set (p := take n (ShaInfo.data info) ++ buffer) in *.
  assert (Hn : (n < 64)%nat) by (apply Nat.mod_upper_bound; lia).
  assert (HH : length (ShaInfo.digest info) = 5%nat) by (rewrite HD; by apply blocks_length).
  assert (Hfin : forall d, (exists data', d = Ok (ShaInfo.Info (blocks (length p / 64) (ShaInfo.digest info) p) lo hi data' (length p mod 64)) /\
    length data' = 64%nat /\ take (length p mod 64) data' = drop (64 * (length p / 64)) p) ->
    exists info', d = Ok info' /\ absorbed info' (m ++ buffer)).
  { intros d (data' & -> & Hd' & Ht'). eexists. split; [done|]. rewrite Eb, Em, Ed in *.
    split; cbn [ShaInfo.digest ShaInfo.count_hi ShaInfo.count_lo ShaInfo.data ShaInfo.local]; try done. apply Forall_app. by split. }
  apply Hfin. clear Hfin. destruct (Nat.eqb_spec n 0) as [E0|Hn0].
  - assert (Ep : p = buffer) by (unfold p; by rewrite E0). rewrite Ep. by apply update_blocks_ok.
  - apply fill_ok; try done; [lia|]. rewrite HT. by apply Forall_drop.
Qed.

(** The tail of the message with its padding, in one or two blocks. *)
Lemma final_blocks H t z v (two : bool) : length H = 5%nat -> bytes t -> (length t < 64)%nat -> bytes v -> length v = 8%nat ->
  (length t + 1 + z + 8 = if two then 128 else 64)%nat ->
  let p := t ++ 0x80 :: replicate z 0 ++ v in
  blocks (length p / 64) H p =
  (if two then ShaInfo.ShaTransform (ShaInfo.ShaTransform H (t ++ 0x80 :: replicate (63 - length t) 0) rest) (replicate 56 0 ++ v) rest
   else ShaInfo.ShaTransform H p rest).
Proof.
  intros HH Ht Hlt Hv Hlv Hz p. assert (Hl : length p = if two then 128%nat else 64%nat).
  { unfold p. rewrite length_app. cbn [length]. rewrite length_app, length_replicate. destruct two; lia. }
  assert (Hbz : forall k, bytes (replicate k 0)) by (intros; by apply Forall_replicate).
  assert (Hbp : bytes p) by (unfold p; apply Forall_app; split; [done|]; constructor; [lia|]; apply Forall_app; by split).
  rewrite Hl. destruct two.
  - change (128 / 64)%nat with 2%nat. cbn [blocks].
    assert (E1 : take 64 p = t ++ 0x80 :: replicate (63 - length t) 0).
    { unfold p. rewrite take_app_ge by lia. f_equal. replace (64 - length t)%nat with (S (63 - length t)) by lia. cbn [take].
      f_equal. rewrite take_app_le by (rewrite length_replicate; lia). rewrite take_replicate; f_equal; lia. }
    assert (E2 : drop 64 p = replicate 56 0 ++ v).
    { unfold p. rewrite drop_app_ge by lia. replace (64 - length t)%nat with (S (63 - length t)) by lia. cbn [drop].
      rewrite drop_app_le by (rewrite length_replicate; lia). rewrite drop_replicate. do 2 f_equal. lia. }
    rewrite E1, E2. rewrite (take_ge (_ ++ v)) by (rewrite length_app, length_replicate; lia).
    rewrite ShaTransform_compress; [|rewrite length_app, length_replicate; lia|apply Forall_app; by split| |done].
    + rewrite ShaTransform_compress; [done|rewrite <- E1, length_take; lia|rewrite <- E1; by apply Forall_take|done..].
    + rewrite ShaTransform_compress; [by apply compress_length|rewrite <- E1, length_take; lia|rewrite <- E1; by apply Forall_take|done..].
  - change (64 / 64)%nat with 1%nat. cbn [blocks]. rewrite take_ge by lia. by rewrite ShaTransform_compress.
Qed.

End Rest.

End InfoHash.
