(* ===== verification/Sha1Main.v ===== *)
(** * SHA-1: both implementations compute FIPS 180-4

    The digest of a message in pieces, for the functions of ntext and of
    advapiex; where the count of ntext goes wrong; and the identifier of a
    service. *)
From S2P Require Import Prelude Sha1 ShaInfo Sha1Spec Sha1Hash.
Import Fips.
Set Warnings "-clear-no-such-hyp".

Module Sha1Main.

(** ** A_SHAFinal of advapiex *)
Lemma info_padding (m : list Z) : let n := (length m mod 64)%nat in
  padding (length m) = 0x80 :: replicate (if (56 <=? n)%nat then 119 - n else 55 - n) 0 ++
    ShaInfo.bytes_be (u32 (8 * Z.of_nat (length m) / 2 ^ 32)) ++ ShaInfo.bytes_be (u32 (8 * Z.of_nat (length m))).
Proof.
  cbv zeta. rewrite !bytes_be_be32, !be32_u32. unfold padding. do 3 f_equal.
  pose proof (Nat.mod_upper_bound (length m) 64). destruct (Nat.leb_spec 56 (length m mod 64)).
  - rewrite (Nat.mod_small (119 - _)); lia.
  - symmetry. apply (Nat.mod_unique _ _ 1); lia.
Qed.

(** The writes of A_SHAFinal to the block. *)
Section Final.
Context (rest H t r v : list Z) (b : Z).
Context (Hr : length r = (63 - length t)%nat) (Ht : (length t < 64)%nat) (Hv : length v = 8%nat).

Definition final_steps : outcome (list Z) :=
  data ← wr (t ++ b :: r) (length t) 0x80;
  '(digest, data) ←
    (if (64 - 8 <? S (length t))%nat then
       data ← wr_list data (S (length t)) (replicate (64 - S (length t)) 0);
       let digest := ShaInfo.ShaTransform H data rest in
       data ← wr_list data 0 (replicate (64 - 8) 0);
       Ok (digest, data)
     else
       data ← wr_list data (S (length t)) (replicate (64 - 8 - S (length t)) 0);
       Ok (H, data));
  data ← wr_list data 56 v;
  Ok (ShaInfo.ShaTransform digest data rest).

Lemma final_steps_ok : final_steps = Ok
  (if (56 <=? length t)%nat
   then ShaInfo.ShaTransform (ShaInfo.ShaTransform H (t ++ 0x80 :: replicate (63 - length t) 0) rest) (replicate 56 0 ++ v) rest
   else ShaInfo.ShaTransform H (t ++ 0x80 :: replicate (55 - length t) 0 ++ v) rest).
Proof.
  unfold final_steps. rewrite wr_lt by (rewrite length_app; simpl; lia). rewrite bind_ok, insert_app_r_alt, Nat.sub_diag by lia.
  change (<[0%nat := 128]> (b :: r)) with (128 :: r). rewrite (cons_middle 128 t r), app_assoc.
  assert (Hl : length (t ++ [128]) = S (length t)) by (rewrite length_app; simpl; lia).
  destruct (Nat.ltb_spec (64 - 8) (S (length t))), (Nat.leb_spec 56 (length t)); try lia.
  - rewrite wr_list_tail, bind_ok by (rewrite ?length_replicate; lia). rewrite length_replicate, drop_ge, app_nil_r by lia.
    rewrite wr_list_Ok by (rewrite length_app, !length_replicate; lia). rewrite bind_ok, take_0, app_nil_l, length_replicate, bind_ok.
    rewrite wr_list_tail, bind_ok by (rewrite ?length_replicate, ?length_drop, ?length_app, ?length_replicate; simpl; lia).
    rewrite (drop_ge (drop _ _)), app_nil_r by (rewrite !length_drop, length_app, length_replicate; lia).
    rewrite <- app_assoc. done.
  - rewrite wr_list_tail, bind_ok by (rewrite ?length_replicate; lia). rewrite length_replicate, bind_ok, app_assoc.
    rewrite wr_list_tail, bind_ok by (rewrite ?length_app, ?length_replicate, ?length_drop; simpl; lia).
    rewrite (drop_ge (drop _ _)), app_nil_r by (rewrite length_drop; lia). by rewrite <- !app_assoc.
Qed.

End Final.

Lemma InfoFinal_digest rest info m : length rest = 64%nat -> InfoHash.absorbed info m ->
  ShaInfo.A_SHAFinal rest info = Ok (sha1 m).
Proof.
  intros Hrest [HD Hhi Hlo HB Hloc HT Hm]. set (n := (length m mod 64)%nat) in *.
  assert (Hn : (n < 64)%nat) by (apply Nat.mod_upper_bound; lia).
  assert (Hc : Z.to_nat (Z.land (Z.shiftr (ShaInfo.count_lo info) 3) 0x3f) = n).
  { rewrite Hlo, Z.shiftr_div_pow2 by lia. change 63 with (2 ^ 6 - 1). rewrite land_ones_mod by lia. unfold u32, n.
    apply Nat2Z.inj. rewrite Z2Nat.id by (apply Z.mod_pos_bound; lia). rewrite Nat2Z.inj_mod. change (Z.of_nat 64) with (2 ^ 6). dlia. }
  set (t := drop (64 * (length m / 64)) m) in *.
  assert (Hlt : length t = n) by (rewrite <- HT, length_take; lia).
  assert (El : exists b r, ShaInfo.data info = t ++ b :: r /\ length r = (63 - length t)%nat).
  { destruct (drop n (ShaInfo.data info)) as [|b r] eqn:E; [apply (f_equal length) in E; rewrite length_drop in E; simpl in E; lia|].
    exists b, r. rewrite <- HT, <- E, take_drop. split; [done|]. apply (f_equal length) in E. rewrite length_drop in E. simpl in E.
    rewrite length_take. lia. }
  destruct El as (b & r & El & Hr).
  set (v := ShaInfo.bytes_be (ShaInfo.count_hi info) ++ ShaInfo.bytes_be (ShaInfo.count_lo info)).
  assert (Hv : length v = 8%nat) by done.
  assert (Hbv : bytes v) by (unfold v; rewrite !bytes_be_be32; apply Forall_app; split; apply be32_bytes).
  pose proof (final_steps_ok rest (ShaInfo.digest info) t r v b Hr ltac:(lia) Hv) as Hf.
  assert (EF : ShaInfo.A_SHAFinal rest info = (d ← final_steps rest (ShaInfo.digest info) t r v b; Ok (flat_map ShaInfo.bytes_be d))).
  { unfold ShaInfo.A_SHAFinal, final_steps. cbv zeta. rewrite Hc, El, Hlt. fold v.
    generalize ShaInfo.ShaTransform. intros F. unfold mbind, outcome_bind. repeat case_match; simplify_eq; done. }
  rewrite EF, Hf, bind_ok. f_equal. unfold sha1. cbv zeta.
  destruct (blocks_more H0 m (padding (length m))) as (Eb & _ & _). fold t in Eb. rewrite <- Eb, <- HD.
  rewrite info_padding, <- Hhi, <- Hlo. fold n v. rewrite Hlt.
  rewrite (InfoHash.final_blocks rest Hrest (ShaInfo.digest info) t (if (56 <=? n)%nat then 119 - n else 55 - n) v (56 <=? n)%nat).
  - rewrite Hlt. destruct (56 <=? n)%nat; apply flat_map_ext; intros; apply bytes_be_be32.
  - rewrite HD. by apply blocks_length.
  - by apply Forall_drop.
  - lia.
  - done.
  - done.
  - rewrite Hlt. destruct (Nat.leb_spec 56 n); lia.
Qed.

(** ** The theorems *)

(** The updates with the pieces of a message. *)
Fixpoint updates {C} (update : C -> list Z -> outcome C) (ctx : C) (pieces : list (list Z)) : outcome C :=
  match pieces with [] => Ok ctx | p :: pieces => ctx ← update ctx p; updates update ctx pieces end.

Lemma updates_absorb {C} (update : C -> list Z -> outcome C) (absorbed : C -> list Z -> Prop) (ok : list Z -> Prop) :
  (forall ctx m p, absorbed ctx m -> ok p -> exists ctx', update ctx p = Ok ctx' /\ absorbed ctx' (m ++ p)) ->
  forall pieces ctx m, Forall ok pieces -> absorbed ctx m ->
  exists ctx', updates update ctx pieces = Ok ctx' /\ absorbed ctx' (m ++ concat pieces).
Proof.
  intros Hu. induction pieces as [|p pieces IH]; intros ctx m Hp Ha; simpl.
  - exists ctx. by rewrite app_nil_r.
  - apply Forall_cons in Hp as [Hok Hp]. destruct (Hu ctx m p Ha Hok) as (ctx1 & -> & Ha1).
    destruct (IH ctx1 (m ++ p) Hp Ha1) as (ctx' & ? & ?). exists ctx'. by rewrite app_assoc.
Qed.

Definition piece (limit : Z) (p : list Z) : Prop := bytes p /\ Z.of_nat (length p) < limit.

Lemma absorbed_init ctx : length (Sha1.Buffer ctx) = 64%nat -> Hash.absorbed (Sha1.A_SHAInit ctx) [].
Proof. intros Hl. by split. Qed.

Lemma info_absorbed_init info : length (ShaInfo.data info) = 64%nat -> InfoHash.absorbed (ShaInfo.A_SHAInit info) [].
Proof. intros Hl. by split. Qed.

(** C11. Equivalence: A_SHAInit, any number of A_SHAUpdate with pieces below 2^29
    bytes, and A_SHAFinal of ntext stay inside their arrays, return, and
    store the digest that FIPS 180-4 defines for the whole message; the
    context is ready for the next message. *)
Theorem A_SHA_ntext_correct ctx pieces local : length (Sha1.Buffer ctx) = 64%nat -> length local = 72%nat ->
  Forall (piece (2 ^ 29)) pieces ->
  exists result ctx', (ctx ← updates Sha1.A_SHAUpdate (Sha1.A_SHAInit ctx) pieces; Sha1.A_SHAFinal ctx local) =
    Ok (result, Sha1.A_SHAInit ctx') /\ bytes_le result = sha1 (concat pieces).
Proof.
  intros Hl Hloc Hp. destruct (updates_absorb Sha1.A_SHAUpdate Hash.absorbed (piece (2 ^ 29))) with (pieces := pieces)
    (ctx := Sha1.A_SHAInit ctx) (m := @nil Z) as (ctx1 & -> & Ha).
  - intros c m p Ha [??]. by apply Hash.A_SHAUpdate_absorbs.
  - done.
  - by apply absorbed_init.
  - rewrite bind_ok. by apply Hash.A_SHAFinal_digest.
Qed.

(** C25. Equivalence: the same for the functions of advapiex, with pieces below
    2^31 bytes. *)
Theorem A_SHA_advapi_correct info pieces rest : length (ShaInfo.data info) = 64%nat -> length rest = 64%nat ->
  Forall (piece (2 ^ 31)) pieces ->
  (info ← updates (ShaInfo.A_SHAUpdate rest) (ShaInfo.A_SHAInit info) pieces; ShaInfo.A_SHAFinal rest info) =
    Ok (sha1 (concat pieces)).
Proof.
  intros Hl Hrest Hp. destruct (updates_absorb (ShaInfo.A_SHAUpdate rest) InfoHash.absorbed (piece (2 ^ 31))) with (pieces := pieces)
    (ctx := ShaInfo.A_SHAInit info) (m := @nil Z) as (info1 & -> & Ha).
  - intros c m p Ha [??]. apply (InfoHash.info_A_SHAUpdate_absorbs rest Hrest); [done..|lia].
  - done.
  - by apply info_absorbed_init.
  - rewrite bind_ok. by apply InfoFinal_digest.
Qed.

(** The count of ntext: a single piece of 2^29 bytes or more is counted
    wrongly, because [BufferSize >> 29] is added to a count of bytes as if it
    were a count of bits; the length in the padding is then not that of the
    message. *)
Theorem A_SHAUpdate_miscounts ctx data : length (Sha1.Buffer ctx) = 64%nat -> bytes data ->
  2 ^ 29 <= Z.of_nat (length data) < 2 ^ 32 - 64 ->
  exists ctx', Sha1.A_SHAUpdate (Sha1.A_SHAInit ctx) data = Ok ctx' /\
    2 ^ 32 * Sha1.Count0 ctx' + Sha1.Count1 ctx' <> Z.of_nat (length data).
Proof.
  intros Hl Hb Hsz. unfold Sha1.A_SHAUpdate. cbv zeta. cbn [Sha1.Count0 Sha1.Count1 Sha1.A_SHAInit Sha1.State Sha1.Buffer].
  change (Z.to_nat (Z.land 0 63)) with 0%nat.
  destruct (Hash.update_loop_ok (S (length data)) H0 (Sha1.Buffer ctx) 0 data) as (B & n & d & E & HB & Hn & _); try done; try lia.
  fold H0. rewrite E, bind_ok. rewrite take_0, app_nil_l in Hn. pose proof (Nat.mod_upper_bound (length data) 64).
  rewrite wr_list_Ok, bind_ok by lia. eexists. split; [done|]. cbn [Sha1.Count0 Sha1.Count1].
  rewrite Z.shiftr_div_pow2 by lia. unfold u32. destruct (Z.ltb_spec ((0 + Z.of_nat (length data)) mod 2 ^ 32) (Z.of_nat (length data))); dlia.
Qed.

(** RtlCreateServiceSid does not hash the name of the service: it passes the
    address of the pointer to the upcased string to A_SHAUpdate, which reads
    behind that variable for every string of more than four bytes. *)
Theorem RtlCreateServiceSid_overread upcase Buffer ctx local name up size : 0x20 <= size -> upcase name = inr up ->
  (4 < length up)%nat -> ServiceSid.RtlCreateServiceSid upcase Buffer ctx local (Some name) (Some size) = Fault.
Proof.
  intros Hs Hu Hl. unfold ServiceSid.RtlCreateServiceSid. destruct (Z.ltb_spec size 0x20); [lia|]. rewrite Hu.
  unfold rd_list. rewrite decide_False; [done|]. simpl. lia.
Qed.

(** ** Examples *)
Definition some_ctx : Sha1.SHA_CTX := Sha1.Ctx [] 0 0 (replicate 64 7).
Definition some_info : ShaInfo.SHA_INFO := ShaInfo.Info [] 0 0 (replicate 64 7) 0.

(** The message abc. *)
Lemma A_SHA_ntext_correct_witness : exists result ctx',
  (ctx ← updates Sha1.A_SHAUpdate (Sha1.A_SHAInit some_ctx) [[97; 98]; [99]]; Sha1.A_SHAFinal ctx (replicate 72 9)) =
    Ok (result, Sha1.A_SHAInit ctx') /\ bytes_le result = sha1 [97; 98; 99].
Proof. apply (A_SHA_ntext_correct some_ctx [[97; 98]; [99]] (replicate 72 9)); [done..|]. repeat constructor; try done; simpl; lia. Defined.

Lemma A_SHA_advapi_correct_witness :
  (info ← updates (ShaInfo.A_SHAUpdate (replicate 64 5)) (ShaInfo.A_SHAInit some_info) [[97; 98]; [99]];
   ShaInfo.A_SHAFinal (replicate 64 5) info) = Ok (sha1 [97; 98; 99]).
Proof. apply (A_SHA_advapi_correct some_info [[97; 98]; [99]]); [done..|]. repeat constructor; try done; simpl; lia. Defined.

Lemma A_SHAUpdate_miscounts_witness : exists ctx',
  Sha1.A_SHAUpdate (Sha1.A_SHAInit some_ctx) (replicate (Z.to_nat (2 ^ 29)) 0) = Ok ctx' /\
  2 ^ 32 * Sha1.Count0 ctx' + Sha1.Count1 ctx' <> Z.of_nat (length (replicate (Z.to_nat (2 ^ 29)) 0)).
Proof.
  apply (A_SHAUpdate_miscounts some_ctx (replicate (Z.to_nat (2 ^ 29)) 0)); [done|by apply Forall_replicate|].
  rewrite length_replicate, Z2Nat.id; lia.
Defined.

Lemma RtlCreateServiceSid_overread_witness :
  ServiceSid.RtlCreateServiceSid (fun s => inr s) 0x1000 some_ctx (replicate 72 0) (Some [65; 0; 66; 0; 67; 0]) (Some 0x20) = Fault.
Proof. apply (RtlCreateServiceSid_overread _ _ _ _ _ [65; 0; 66; 0; 67; 0]); [done..|simpl; lia]. Defined.

(** The digest of abc in the standard. *)
Example sha1_abc : sha1 [97; 98; 99] =
  [0xa9; 0x99; 0x3e; 0x36; 0x47; 0x06; 0x81; 0x6a; 0xba; 0x3e; 0x25; 0x71; 0x78; 0x50; 0xc2; 0x6c; 0x9c; 0xd0; 0xd8; 0x9d].
Proof. by vm_compute. Qed.

End Sha1Main.
