(* ===== verification/Url.v ===== *)
(** * Escaping and unescaping of URLs (oca/extensions/kernelex/path.c, pathmisc.c)

    The scheme of a URL, UrlUnescape, UrlEscape, and the conversions between
    file names and file URLs, with the string functions of pathmisc.c they
    use.  A string is the array that holds it, with its terminator and
    whatever follows; a null pointer is [None]; a count of characters is a
    natural.  [isalnum] and [isxdigit] are those of the C locale. *)
From Stdlib Require Import String Ascii.
From S2P Require Import Prelude PathCch Path.
Import PathCch Path.

Module Url.

(** A wide string literal without its terminator. *)
Definition L (s : String.string) : list Z :=
  map (fun a => Z.of_N (Ascii.N_of_ascii a)) (String.list_ascii_of_string s).
Arguments L s%_string.

Definition percent : Z := 37.
Definition hash : Z := 35.
Definition at_sign : Z := 64.
Definition is_slash_or_bslash (c : Z) : bool := (c =? slash) || (c =? bslash).

(** HRESULT values *)
Definition E_NOTIMPL := 0x80004001.
Definition E_POINTER := 0x80004003.
Definition E_FAIL := 0x80004005.
Definition URL_E_INVALID_SYNTAX := 0x80041001.

Definition INTERNET_MAX_SCHEME_LENGTH : nat := 32.
Definition INTERNET_MAX_URL_LENGTH : nat := 2084.

(** ** Constants of shlwapi.h *)
Definition URL_SCHEME_INVALID := 0xFFFFFFFF.
Definition URL_SCHEME_UNKNOWN := 0.
Definition URL_SCHEME_FTP := 1.
Definition URL_SCHEME_HTTP := 2.
Definition URL_SCHEME_GOPHER := 3.
Definition URL_SCHEME_MAILTO := 4.
Definition URL_SCHEME_NEWS := 5.
Definition URL_SCHEME_NNTP := 6.
Definition URL_SCHEME_TELNET := 7.
Definition URL_SCHEME_WAIS := 8.
Definition URL_SCHEME_FILE := 9.
Definition URL_SCHEME_MK := 10.
Definition URL_SCHEME_HTTPS := 11.
Definition URL_SCHEME_SHELL := 12.
Definition URL_SCHEME_SNEWS := 13.
Definition URL_SCHEME_LOCAL := 14.
Definition URL_SCHEME_JAVASCRIPT := 15.
Definition URL_SCHEME_VBSCRIPT := 16.
Definition URL_SCHEME_ABOUT := 17.
Definition URL_SCHEME_RES := 18.

Definition URL_WININET_COMPATIBILITY := 0x80000000.
Definition URL_PLUGGABLE_PROTOCOL := 0x40000000.
Definition URL_ESCAPE_UNSAFE := 0x20000000.
Definition URL_UNESCAPE := 0x10000000.
Definition URL_DONT_SIMPLIFY := 0x08000000.
Definition URL_ESCAPE_SPACES_ONLY := 0x04000000.
Definition URL_DONT_ESCAPE_EXTRA_INFO := 0x02000000.
Definition URL_DONT_UNESCAPE_EXTRA_INFO := URL_DONT_ESCAPE_EXTRA_INFO.
Definition URL_UNESCAPE_INPLACE := 0x00100000.
Definition URL_FILE_USE_PATHURL := 0x00010000.
Definition URL_ESCAPE_AS_UTF8 := 0x00040000.
Definition URL_ESCAPE_SEGMENT_ONLY := 0x00002000.
Definition URL_ESCAPE_PERCENT := 0x00001000.

Definition STIF_SUPPORT_HEX := 1.

(** ** Schemes *)
Definition url_schemes : list (Z * list Z) :=
  [(URL_SCHEME_FTP, L "ftp"); (URL_SCHEME_HTTP, L "http"); (URL_SCHEME_GOPHER, L "gopher");
   (URL_SCHEME_MAILTO, L "mailto"); (URL_SCHEME_NEWS, L "news"); (URL_SCHEME_NNTP, L "nntp");
   (URL_SCHEME_TELNET, L "telnet"); (URL_SCHEME_WAIS, L "wais"); (URL_SCHEME_FILE, L "file");
   (URL_SCHEME_MK, L "mk"); (URL_SCHEME_HTTPS, L "https"); (URL_SCHEME_SHELL, L "shell");
   (URL_SCHEME_SNEWS, L "snews"); (URL_SCHEME_LOCAL, L "local"); (URL_SCHEME_JAVASCRIPT, L "javascript");
   (URL_SCHEME_VBSCRIPT, L "vbscript"); (URL_SCHEME_ABOUT, L "about"); (URL_SCHEME_RES, L "res")].

Fixpoint scheme_loop (schemes : list (Z * list Z)) (scheme : list Z) (scheme_len : nat) : outcome Z :=
  match schemes with
  | [] => Ok URL_SCHEME_UNKNOWN
  | (scheme_number, scheme_name) :: schemes =>
    same ← (if (scheme_len =? length scheme_name)%nat then starts_nocase scheme 0 scheme_name else Ok false);
    if same : bool then Ok scheme_number else scheme_loop schemes scheme scheme_len
  end.

Definition get_scheme_code (scheme : list Z) (scheme_len : nat) : outcome Z :=
  scheme_loop url_schemes scheme scheme_len.

(** PARSEDURLA and PARSEDURLW; the pointers are positions in the URL. *)
Record PARSEDURL := ParsedUrl {
  cbSize : Z; pszProtocol : option nat; cchProtocol : nat; pszSuffix : nat; cchSuffix : nat; nScheme : Z }.

(** [sizeof(PARSEDURLW)], on a machine of 32 bits *)
Definition sizeof_PARSEDURL := 24.

(** A structure of which only [cbSize] has been set.  The callers read the
    other fields only after ParseURL has set them. *)
Definition new_PARSEDURL : PARSEDURL := ParsedUrl sizeof_PARSEDURL None 0 0 0 0.

Definition is_scheme_char (c : Z) : bool := isalnum c || (c =? 45) || (c =? 43) || (c =? dot).

(** [while ( *ptr && (isalnum( *ptr ) || ...)) ptr++] *)
Fixpoint scheme_end (fuel : nat) (url : list Z) (ptr : nat) : outcome nat :=
  match fuel with
  | O => NoFuel
  | S fuel =>
    c ← rd url ptr;
    if negb (c =? 0) && is_scheme_char c then scheme_end fuel url (S ptr) else Ok ptr
  end.

(** Both versions, with the scheme code found by [code]. *)
Definition parse_scheme_part (code : nat -> outcome Z) (url : list Z) (result : PARSEDURL)
    : outcome (Z * PARSEDURL) :=
  if negb (cbSize result =? sizeof_PARSEDURL) then Ok (E_INVALIDARG, result)
  else
    ptr ← scheme_end (S (length url)) url 0;
    c ← rd url ptr;
    if negb (c =? colon) || (ptr <=? 1)%nat
    then Ok (URL_E_INVALID_SYNTAX,
             ParsedUrl (cbSize result) None (cchProtocol result) (pszSuffix result) (cchSuffix result) (nScheme result))
    else
      n ← wcslen url (S ptr);
      scheme ← code ptr;
      Ok (S_OK, ParsedUrl (cbSize result) (Some 0%nat) ptr (S ptr) n scheme).

Definition ParseURLW (url : list Z) (result : PARSEDURL) : outcome (Z * PARSEDURL) :=
  parse_scheme_part (get_scheme_code url) url result.

Definition PathIsURLW (path : option (list Z)) : outcome bool :=
  match path with
  | None => Ok false
  | Some path =>
    c ← rd path 0;
    if c =? 0 then Ok false
    else
      '(hr, base) ← ParseURLW path new_PARSEDURL;
      Ok ((hr =? S_OK) && negb (nScheme base =? URL_SCHEME_INVALID))
  end.

(** ** pathmisc.c *)

(** [while ((count > 1) && *s)], and the terminator *)
Fixpoint StrCpyNW_loop (count : nat) (dst : list Z) (d : nat) (src : list Z) (s : nat) : outcome (list Z) :=
  match count with
  | O => Ok dst
  | S O => wr dst d 0
  | S (S _ as count) =>
    c ← rd src s;
    if c =? 0 then wr dst d 0 else dst ← wr dst d c; StrCpyNW_loop count dst (S d) src (S s)
  end.

(** [StrCpyNW( dst + d, src + s, count )] *)
Definition StrCpyNW (dst : list Z) (d : nat) (src : list Z) (s : nat) (count : nat) : outcome (list Z) :=
  StrCpyNW_loop count dst d src s.

Definition isspace (c : Z) : bool := ((9 <=? c) && (c <=? 13)) || (c =? 32).

Fixpoint skip_space (fuel : nat) (str : list Z) (off : nat) : outcome nat :=
  match fuel with
  | O => NoFuel
  | S fuel => c ← rd str off; if isspace c then skip_space fuel str (S off) else Ok off
  end.

Definition digit_of (c : Z) : Z := if isdigit c then c - 48 else 10 + (lower c - 97).

(** A LONGLONG wraps in the loops that read a number. *)
Definition i64 (z : Z) : Z := (z + 2 ^ 63) mod 2 ^ 64 - 2 ^ 63.

Fixpoint read_number (is_digit : Z -> bool) (base : Z) (fuel : nat) (str : list Z) (off : nat) (iRet : Z) : outcome Z :=
  match fuel with
  | O => NoFuel
  | S fuel =>
    c ← rd str off;
    if is_digit c then read_number is_digit base fuel str (S off) (i64 (i64 (iRet * base) + digit_of c)) else Ok iRet
  end.

(** The value stored at [lpiRet], or [None] for the result [FALSE]. *)
Definition StrToInt64ExW (str : list Z) (dwFlags : Z) : outcome (option Z) :=
  off ← skip_space (S (length str)) str 0;
  c ← rd str off;
  let bNegative := c =? 45 in
  let off := if bNegative || (c =? 43) then S off else off in
  hex ← (if flag dwFlags STIF_SUPPORT_HEX then
           c ← rd str off;
           if c =? 48 then c1 ← rd str (S off); Ok (lower c1 =? 120) else Ok false
         else Ok false);
  if hex : bool then
    c ← rd str (off + 2);
    if negb (isxdigit c) then Ok None
    else n ← read_number isxdigit 16 (S (length str)) str (off + 2) 0; Ok (Some n)
  else
    c ← rd str off;
    if negb (isdigit c) then Ok None
    else n ← read_number isdigit 10 (S (length str)) str off 0; Ok (Some (if bNegative then i64 (- n) else n)).

Definition StrToIntExW (str : list Z) (dwFlags : Z) : outcome (option Z) :=
  r ← StrToInt64ExW str dwFlags; Ok (option_map i32 r).

(** ** Unescaping *)

(** [*src == '%' && isxdigit( *(src + 1) ) && isxdigit( *(src + 2) )] *)
Definition is_escape (url : list Z) (src : nat) : outcome bool :=
  c ← rd url src;
  if c =? percent then
    c1 ← rd url (S src);
    if isxdigit c1 then c2 ← rd url (src + 2); Ok (isxdigit c2) else Ok false
  else Ok false.

(** The character of an escape; [number] reads the two digits. *)
Definition next_unescaped (number : list Z -> outcome Z) (flags : Z) (url : list Z) (src : nat) (stop_unescaping : bool)
    : outcome (Z * nat * bool) :=
  c ← rd url src;
  if flag flags URL_DONT_UNESCAPE_EXTRA_INFO && ((c =? hash) || (c =? qmark)) then Ok (c, src, true)
  else
    escape ← is_escape url src;
    if escape && negb stop_unescaping
    then digits ← rd_list url (S src) 2; next ← number digits; Ok (next, (src + 2)%nat, stop_unescaping)
    else Ok (c, src, stop_unescaping).

(** [for (src = url, needed = 0; *src; src++, needed++)].  [out] is the array
    [unescaped]; in place, [url] is both the source and the destination. *)
Fixpoint unescape_loop (number : list Z -> outcome Z) (flags : Z) (unescaped_len : nat) (fuel : nat)
    (url out : list Z) (src dst needed : nat) (stop_unescaping : bool) : outcome (list Z * list Z * nat * nat) :=
  match fuel with
  | O => NoFuel
  | S fuel =>
    c ← rd url src;
    if c =? 0 then Ok (url, out, dst, needed)
    else
      '(next, src, stop_unescaping) ← next_unescaped number flags url src stop_unescaping;
      if flag flags URL_UNESCAPE_INPLACE then
        url ← wr url dst next;
        unescape_loop number flags unescaped_len fuel url out (S src) (S dst) (S needed) stop_unescaping
      else if (needed <? unescaped_len)%nat then
        out ← wr out dst next;
        unescape_loop number flags unescaped_len fuel url out (S src) (S dst) (S needed) stop_unescaping
      else unescape_loop number flags unescaped_len fuel url out (S src) dst (S needed) stop_unescaping
  end.

(** Both versions.  The results are the status, [url], [unescaped] and
    [unescaped_len]. *)
Definition url_unescape (number : list Z -> outcome Z) (url unescaped : option (list Z)) (unescaped_len : option nat)
    (flags : Z) : outcome (Z * option (list Z) * option (list Z) * option nat) :=
  match url with
  | None => Ok (E_INVALIDARG, url, unescaped, unescaped_len)
  | Some u =>
    if flag flags URL_UNESCAPE_INPLACE then
      '(u, _, dst, _) ← unescape_loop number flags 0 (S (length u)) u [] 0 0 0 false;
      u ← wr u dst 0;
      Ok (S_OK, Some u, unescaped, unescaped_len)
    else
      match unescaped, unescaped_len with
      | Some out, Some size =>
        '(_, out, dst, needed) ← unescape_loop number flags size (S (length u)) u out 0 0 0 false;
        if (needed <? size)%nat
        then out ← wr out dst 0; Ok (S_OK, url, Some out, Some needed)
        else Ok (E_POINTER, url, Some out, Some (S needed))
      | _, _ => Ok (E_INVALIDARG, url, unescaped, unescaped_len)
      end
  end.

(** [strtol( buf, NULL, 16 )] of two hexadecimal digits, as a [CHAR] *)
Definition strtol16 (digits : list Z) : outcome Z :=
  Ok (u8 (fold_left (fun n c => n * 16 + digit_of c) digits 0)).

(** [StrToIntExW( buf, STIF_SUPPORT_HEX, &ih )] with the digits after 0x *)
Definition StrToInt16 (digits : list Z) : outcome Z :=
  ih ← StrToIntExW (L "0x" ++ digits ++ [0]) STIF_SUPPORT_HEX;
  match ih with Some ih => Ok (u16 ih) | None => Fault end.

Definition UrlUnescapeA := url_unescape strtol16.

Definition UrlUnescapeW := url_unescape StrToInt16.

(** ** Escaping *)
Definition WINE_URL_BASH_AS_SLASH := 0x01.
Definition WINE_URL_COLLAPSE_SLASHES := 0x02.
Definition WINE_URL_ESCAPE_SLASH := 0x04.
Definition WINE_URL_ESCAPE_HASH := 0x08.
Definition WINE_URL_ESCAPE_QUESTION := 0x10.
Definition WINE_URL_STOP_ON_HASH := 0x20.
Definition WINE_URL_STOP_ON_QUESTION := 0x40.

(** The characters of the first group of the [switch]: space, the angle
    brackets, the double quote, the braces, the bar, the backslash, the
    caret, the brackets, the back quote and the ampersand. *)
Definition unsafe_chars : list Z := [space; 60; 62; dquote; 123; 125; 124; bslash; 94; 93; 91; 96; 38].

Definition url_needs_escape (ch flags int_flags : Z) : bool :=
  if flag flags URL_ESCAPE_SPACES_ONLY then ch =? space
  else if flag flags URL_ESCAPE_PERCENT && (ch =? percent) then true
  else if flag flags URL_ESCAPE_AS_UTF8 && (0x80 <=? ch) then true
  else if (ch <=? 31) || ((127 <=? ch) && (ch <=? 255)) then true
  else if isalnum ch then false
  else if one_of ch unsafe_chars then true
  else if ch =? slash then flag int_flags WINE_URL_ESCAPE_SLASH
  else if ch =? qmark then flag int_flags WINE_URL_ESCAPE_QUESTION
  else if ch =? hash then flag int_flags WINE_URL_ESCAPE_HASH
  else false.

Definition hexDigits : list Z := L "0123456789ABCDEF".

Definition hexDigit (i : Z) : Z := default 0 (hexDigits !! Z.to_nat (Z.land i 0xf)).

(** [next[0] = '%'; next[1] = hexDigits[(c >> 4) & 0xf]; next[2] = hexDigits[c & 0xf]] *)
Definition percent_encode (c : Z) : list Z := [percent; hexDigit (Z.shiftr c 4); hexDigit c].

(** "fix up flags" *)
Definition fix_flags (flags : Z) : Z :=
  if flag flags URL_ESCAPE_SPACES_ONLY
  then Z.land flags (Z.lnot (Z.lor (Z.lor URL_DONT_ESCAPE_EXTRA_INFO URL_ESCAPE_PERCENT) URL_ESCAPE_SEGMENT_ONLY))
  else Z.lor flags URL_DONT_ESCAPE_EXTRA_INFO.

(** The [switch] on the scheme; [suffix]: the character [pszSuffix[0]]. *)
Definition scheme_flags (scheme : Z) (suffix : Z) (int_flags : Z) : Z :=
  if scheme =? URL_SCHEME_FILE then
    Z.land (Z.lor int_flags (Z.lor (Z.lor WINE_URL_BASH_AS_SLASH WINE_URL_COLLAPSE_SLASHES) WINE_URL_ESCAPE_HASH))
           (Z.lnot WINE_URL_STOP_ON_HASH)
  else if (scheme =? URL_SCHEME_HTTP) || (scheme =? URL_SCHEME_HTTPS) then
    let int_flags := Z.lor int_flags WINE_URL_BASH_AS_SLASH in
    if isnt suffix slash && isnt suffix bslash then Z.lor int_flags WINE_URL_ESCAPE_SLASH else int_flags
  else if scheme =? URL_SCHEME_MAILTO then
    Z.land (Z.lor int_flags (Z.lor (Z.lor WINE_URL_ESCAPE_SLASH WINE_URL_ESCAPE_QUESTION) WINE_URL_ESCAPE_HASH))
           (Z.lnot (Z.lor WINE_URL_STOP_ON_QUESTION WINE_URL_STOP_ON_HASH))
  else if scheme =? URL_SCHEME_INVALID then int_flags
  else if isnt suffix slash then Z.lor int_flags WINE_URL_ESCAPE_SLASH else int_flags.

(** [int_flags] and [parsed_url.cchProtocol]. *)
Definition escape_int_flags (url : list Z) (flags : Z) : outcome (Z * nat) :=
  if flag flags URL_ESCAPE_SEGMENT_ONLY
  then Ok (Z.lor (Z.lor WINE_URL_ESCAPE_QUESTION WINE_URL_ESCAPE_HASH) WINE_URL_ESCAPE_SLASH, 0%nat)
  else
    '(hr, parsed_url) ← ParseURLW url new_PARSEDURL;
    let int_flags := if flag flags URL_DONT_ESCAPE_EXTRA_INFO
                     then Z.lor WINE_URL_STOP_ON_HASH WINE_URL_STOP_ON_QUESTION else 0 in
    if isnt hr S_OK then Ok (scheme_flags URL_SCHEME_INVALID 0 int_flags, 0%nat)
    else
      suffix ← rd url (pszSuffix parsed_url);
      Ok (scheme_flags (nScheme parsed_url) suffix int_flags, cchProtocol parsed_url).

(** [while (cur == '/' || cur == '\\')]: the position behind the slashes. *)
Fixpoint skip_slash_run (fuel : nat) (url : list Z) (src : nat) : outcome nat :=
  match fuel with
  | O => NoFuel
  | S fuel => c ← rd url src; if is_slash_or_bslash c then skip_slash_run fuel url (S src) else Ok src
  end.

(** The slashes behind the scheme of a file URL: the characters to store,
    none when there is no slash, and the position behind.  The position
    [cchProtocol + 1] is met once, with [slashes] still 0. *)
Definition collapse_slashes (url : list Z) (src : nat) : outcome (list Z * nat) :=
  src' ← skip_slash_run (S (length url)) url src;
  let slashes := (src' - src)%nat in
  '(slashes, src') ←
    (if (slashes =? 2)%nat then
       localhost ← starts_nocase url src' (L "localhost");
       if localhost : bool then
         c ← rd url (src' + 9);
         Ok (3%nat, if is_slash_or_bslash c then (src' + 10)%nat else src')
       else Ok (2%nat, src')
     else Ok (slashes, src'));
  match slashes with
  | 1%nat | 3%nat => Ok ([slash; slash; slash], src')
  | 0%nat => Ok ([], src')
  | _ => Ok ([slash; slash], src')
  end.

Section Escape.
(** kernel32: the bytes that WideCharToMultiByte stores for the code page
    CP_UTF8 with WC_ERR_INVALID_CHARS, none when it fails; and the heap: an
    array for a number of characters, with any contents. *)
Context (WideCharToUtf8 : list Z -> list Z).
Context (heap_alloc : nat -> option (list Z)).

(** The escapes of one character, and the number of characters read. *)
Definition escape_utf8 (url : list Z) (src : nat) (cur : Z) : outcome (list Z * nat) :=
  '(utf, src) ←
    (if (0xd800 <=? cur) && (cur <=? 0xdfff) then
       c1 ← rd url (S src);
       if (0xdc00 <=? c1) && (c1 <=? 0xdfff)
       then pair ← rd_list url src 2; Ok (WideCharToUtf8 pair, S src)
       else Ok (WideCharToUtf8 [cur], src)
     else Ok (WideCharToUtf8 [cur], src));
  let utf := match utf with [] => [0xef; 0xbf; 0xbd] | _ => utf end in
  if (4 <? length utf)%nat then Fault else Ok (flat_map percent_encode utf, src).

(** The part of the loop for a character: what is stored, the position of
    the next character and [stop_escaping]. *)
Definition escape_char (flags int_flags : Z) (url : list Z) (src : nat) (stop_escaping : bool)
    : outcome (list Z * nat * bool) :=
  cur ← rd url src;
  let stop_escaping := stop_escaping || ((cur =? hash) && flag int_flags WINE_URL_STOP_ON_HASH)
                       || ((cur =? qmark) && flag int_flags WINE_URL_STOP_ON_QUESTION) in
  let cur := if (cur =? bslash) && flag int_flags WINE_URL_BASH_AS_SLASH && negb stop_escaping then slash else cur in
  if url_needs_escape cur flags int_flags && negb stop_escaping then
    if flag flags URL_ESCAPE_AS_UTF8
    then '(next, src) ← escape_utf8 url src cur; Ok (next, S src, stop_escaping)
    else Ok (percent_encode cur, S src, stop_escaping)
  else Ok ([cur], S src, stop_escaping).

(** [for (src = url; *src; )] *)
Fixpoint escape_loop (flags int_flags : Z) (cchProtocol escaped_len : nat) (fuel : nat)
    (url dst : list Z) (src pos needed : nat) (stop_escaping : bool) : outcome (list Z * nat * nat) :=
  match fuel with
  | O => NoFuel
  | S fuel =>
    c ← rd url src;
    if c =? 0 then Ok (dst, pos, needed)
    else
      '(next, src') ←
        (if flag int_flags WINE_URL_COLLAPSE_SLASHES && (src =? cchProtocol + 1)%nat
         then collapse_slashes url src else Ok ([], src));
      '(next, src', stop_escaping) ←
        (match next with
         | [] => escape_char flags int_flags url src' stop_escaping
         | _ => Ok (next, src', stop_escaping)
         end);
      if (needed + length next <=? escaped_len)%nat then
        dst ← wr_list dst pos next;
        escape_loop flags int_flags cchProtocol escaped_len fuel url dst src' (pos + length next)
          (needed + length next) stop_escaping
      else escape_loop flags int_flags cchProtocol escaped_len fuel url dst src' pos (needed + length next) stop_escaping
  end.

(** The results are the status, [escaped] and [escaped_len]. *)
Definition UrlEscapeW (url escaped : option (list Z)) (escaped_len : option nat) (flags : Z)
    : outcome (Z * option (list Z) * option nat) :=
  match url, escaped, escaped_len with
  | Some u, Some out, Some size =>
    if (size =? 0)%nat then Ok (E_INVALIDARG, escaped, escaped_len)
    else
      match heap_alloc size with
      | None => Ok (E_OUTOFMEMORY, escaped, escaped_len)
      | Some dst =>
        let flags := fix_flags flags in
        '(int_flags, cchProtocol) ← escape_int_flags u flags;
        '(dst, pos, needed) ← escape_loop flags int_flags cchProtocol size (S (length u)) u dst 0 0 0 false;
        if (needed <? size)%nat then
          dst ← wr dst pos 0;
          v ← rd_list dst 0 (needed + 1);
          out ← wr_list out 0 v;
          Ok (S_OK, Some out, Some needed)
        else Ok (E_POINTER, escaped, Some (needed + 1)%nat)
      end
  | _, _, _ => Ok (E_INVALIDARG, escaped, escaped_len)
  end.

(** ** From a file name to a URL *)
Definition url_create_from_path (path url : list Z) (url_len : nat) : outcome (Z * list Z * nat) :=
  '(hr, parsed_url) ← ParseURLW path new_PARSEDURL;
  if (hr =? S_OK) && negb (nScheme parsed_url =? URL_SCHEME_INVALID) && (1 <? cchProtocol parsed_url)%nat then
    needed ← wcslen path 0;
    if (url_len <=? needed)%nat then Ok (E_POINTER, url, (needed + 1)%nat) else Ok (S_FALSE, url, needed)
  else
    n ← wcslen path 0;
    match heap_alloc (n + 9) with
    | None => Fault
    | Some new_url =>
      new_url ← lstrcpyW new_url 0 (L "file:" ++ [0]) 0;
      drive ← is_drive_spec path 0;
      new_url ← (if drive : bool then lstrcatW new_url (L "///" ++ [0]) 0 else Ok new_url);
      new_url ← lstrcatW new_url path 0;
      '(hr, url, url_len) ← UrlEscapeW (Some new_url) (Some url) (Some url_len) URL_ESCAPE_PERCENT;
      Ok (hr, default [] url, default 0%nat url_len)
    end.

Definition UrlCreateFromPathW (path : list Z) (url : option (list Z)) (url_len : option nat) (reserved : Z)
    : outcome (Z * option (list Z) * option nat) :=
  match url, url_len with
  | Some u, Some len =>
    if negb (reserved =? 0) then Ok (E_INVALIDARG, url, url_len)
    else
      '(hr, u, len) ← url_create_from_path path u len;
      u ← (if hr =? S_FALSE then lstrcpyW u 0 path 0 else Ok u);
      Ok (hr, Some u, Some len)
  | _, _ => Ok (E_INVALIDARG, url, url_len)
  end.

(** ** From a URL to a file name *)

(** [for (dst = tpath; *dst; dst++) if ( *dst == '/') *dst = '\\'] *)
Fixpoint to_backslashes (fuel : nat) (tpath : list Z) (dst : nat) : outcome (list Z) :=
  match fuel with
  | O => NoFuel
  | S fuel =>
    c ← rd tpath dst;
    if c =? 0 then Ok tpath
    else
      tpath ← (if c =? slash then wr tpath dst bslash else Ok tpath);
      to_backslashes fuel tpath (S dst)
  end.

(** [while ( *src && *src != '/' && *src != '\\') src++] *)
Fixpoint host_end (fuel : nat) (url : list Z) (src : nat) : outcome nat :=
  match fuel with
  | O => NoFuel
  | S fuel =>
    c ← rd url src;
    if negb (c =? 0) && negb (is_slash_or_bslash c) then host_end fuel url (S src) else Ok src
  end.

(** [lstrlenW(src) >= 10 && !_wcsnicmp( src, L"localhost", 9) && (src[9] == '/' || src[9] == '\\')] *)
Definition is_localhost (url : list Z) (src : nat) : outcome bool :=
  n ← wcslen url src;
  if (10 <=? n)%nat then
    l ← starts_nocase url src (L "localhost");
    if l : bool then c ← rd url (src + 9); Ok (is_slash_or_bslash c) else Ok false
  else Ok false.

(** The [switch] on the number of slashes: [tpath], [dst], [src] and
    [unescape].  [start]: the position of [url] behind the scheme. *)
Definition url_prefix (url : list Z) (start : nat) (nslashes : nat) (src : nat) (tpath : list Z)
    : outcome (list Z * nat * nat * bool) :=
  match nslashes with
  | 0%nat => Ok (tpath, 0%nat, src, true)
  | 1%nat | 3%nat =>
    drive ← is_escaped_drive_spec url src;
    Ok (tpath, 0%nat, if drive : bool then src else (src - 1)%nat, true)
  | 2%nat =>
    localhost ← is_localhost url src;
    if localhost : bool then Ok (tpath, 0%nat, (src + 10)%nat, true)
    else
      drive ← is_escaped_drive_spec url src;
      if drive : bool then Ok (tpath, 0%nat, src, false)
      else
        src ← host_end (S (length url)) url src;
        let len := (src - start)%nat in
        tpath ← StrCpyNW tpath 0 url start (len + 1);
        c ← rd url src;
        drive ← (if c =? 0 then Ok false else is_escaped_drive_spec url (S src));
        Ok (tpath, len, if drive : bool then S src else src, true)
  | 4%nat =>
    drive ← is_escaped_drive_spec url src;
    if drive : bool then Ok (tpath, 0%nat, src, false) else Ok (tpath, 0%nat, (src - 2)%nat, false)
  | _ => Ok (tpath, 0%nat, (src - 2)%nat, true)
  end.

(** The rest of the path, the conversions and the unescaping: [tpath] and
    the length. *)
Definition url_path (url : list Z) (tpath : list Z) (dst src : nat) (unescape : bool) : outcome (Z * list Z * nat) :=
  n ← wcslen url src;
  tpath ← lstrcpyW tpath dst url src;
  tpath ← to_backslashes (S (length tpath)) tpath 0;
  drive ← is_escaped_drive_spec tpath 0;
  tpath ← (if drive : bool then wr tpath 1 colon else Ok tpath);
  if unescape : bool then
    '(hr, t, _, _) ← UrlUnescapeW (Some tpath) None (Some (dst + n)%nat) URL_UNESCAPE_INPLACE;
    let tpath := default [] t in
    if hr =? S_OK then len ← wcslen tpath 0; Ok (hr, tpath, len) else Ok (hr, tpath, (dst + n)%nat)
  else Ok (S_OK, tpath, (dst + n)%nat).

(** The results are the status, [path] and [pcchPath]. *)
Definition PathCreateFromUrlW (url path : option (list Z)) (pcchPath : option nat)
    : outcome (Z * option (list Z) * option nat) :=
  match url, path, pcchPath with
  | Some u, Some p, Some size =>
    if (size =? 0)%nat then Ok (E_INVALIDARG, path, pcchPath)
    else
      file ← starts_nocase u 0 (L "file:");
      if negb file then Ok (E_INVALIDARG, path, pcchPath)
      else
        src ← skip_slash_run (S (length u)) u 5;
        n ← wcslen u 5;
        let heap := (size <? 2 + n + 1)%nat in
        match (if heap then heap_alloc (2 + n + 1) else Some p) with
        | None => Fault
        | Some tpath =>
          '(tpath, dst, src, unescape) ← url_prefix u 5 (src - 5) src tpath;
          '(hr, tpath, len) ← url_path u tpath dst src unescape;
          if (size <? len + 1)%nat
          then Ok (E_POINTER, if heap then path else Some tpath, Some (len + 1)%nat)
          else
            p ← (if heap then lstrcpyW p 0 tpath 0 else Ok tpath);
            Ok (hr, Some p, Some len)
        end
  | _, _, _ => Ok (E_INVALIDARG, path, pcchPath)
  end.

(** [StrDupW]; [LocalAlloc]: whether the allocation of the bytes succeeds. *)
Definition StrDupW (LocalAlloc : Z -> bool) (str : option (list Z)) : outcome (option (list Z)) :=
  match str with
  | None => Ok (if LocalAlloc 2 then Some [0] else None)
  | Some s => n ← wcslen s 0; if LocalAlloc (2 * (Z.of_nat n + 1)) then v ← rd_list s 0 (S n); Ok (Some v) else Ok None
  end.

(** [pathW]: what the array of the function happens to hold.  The results
    are the status and [path], when it is set. *)
Definition PathCreateFromUrlAlloc (LocalAlloc : Z -> bool) (pathW : list Z) (url : option (list Z))
    : outcome (Z * option (option (list Z))) :=
  '(hr, pathW, _) ← PathCreateFromUrlW url (Some pathW) (Some (Z.to_nat MAX_PATH));
  if negb (FAILED hr) then path ← StrDupW LocalAlloc pathW; Ok (hr, Some path) else Ok (hr, None).

(** ** The byte versions *)

(** ntdll: the wide string of a byte string, with its terminator, or none
    when there is no memory; and the bytes of wide characters.  kernel32: the
    wide characters of bytes. *)
Context (RtlCreateUnicodeStringFromAsciiz : list Z -> option (list Z)).
Context (RtlUnicodeToMultiByteN : list Z -> list Z).
Context (MultiByteToWideCharN : list Z -> list Z).

(** The scheme has room for 32 characters; a longer one is not converted. *)
Definition ParseURLA (url : list Z) (result : PARSEDURL) : outcome (Z * PARSEDURL) :=
  parse_scheme_part
    (fun ptr =>
       v ← rd_list url 0 ptr;
       let scheme := MultiByteToWideCharN v in
       if (INTERNET_MAX_SCHEME_LENGTH <? length scheme)%nat then get_scheme_code [] 0
       else get_scheme_code scheme (length scheme))
    url result.

Definition PathIsURLA (path : option (list Z)) : outcome bool :=
  match path with
  | None => Ok false
  | Some path =>
    c ← rd path 0;
    if c =? 0 then Ok false
    else
      '(hr, base) ← ParseURLA path new_PARSEDURL;
      Ok ((hr =? S_OK) && negb (nScheme base =? URL_SCHEME_INVALID))
  end.

(** The end of the byte versions: the [lenW] characters of [wide] are stored
    at [out] when the buffer has room for them. *)
Definition store_multibyte (hr : Z) (wide : option (list Z)) (lenW : option nat) (out : list Z) (size : nat)
    : outcome (Z * option (list Z) * option nat) :=
  v ← rd_list (default [] wide) 0 (default 0%nat lenW);
  let a := RtlUnicodeToMultiByteN v in
  if (length a <? size)%nat then
    out ← wr_list out 0 a;
    out ← wr out (length a) 0;
    Ok (hr, Some out, Some (length a))
  else Ok (E_POINTER, Some out, Some (length a + 1)%nat).

(** The call with the buffer [bufW] of the function, and the second call
    with a buffer of the size it asks for. *)
Definition with_retry (f : option (list Z) -> option nat -> outcome (Z * option (list Z) * option nat)) (bufW : list Z)
    : outcome (Z * option (list Z) * option nat) :=
  '(hr, w, lenW) ← f (Some bufW) (Some (length bufW));
  if hr =? E_POINTER then f (heap_alloc (default 0%nat lenW)) lenW else Ok (hr, w, lenW).

Definition PathCreateFromUrlA (bufW : list Z) (url path : option (list Z)) (pcchPath : option nat)
    : outcome (Z * option (list Z) * option nat) :=
  match url, path, pcchPath with
  | Some u, Some p, Some size =>
    if (size =? 0)%nat then Ok (E_INVALIDARG, path, pcchPath)
    else
      match RtlCreateUnicodeStringFromAsciiz u with
      | None => Ok (E_INVALIDARG, path, pcchPath)
      | Some urlW =>
        '(hr, w, lenW) ← with_retry (PathCreateFromUrlW (Some urlW)) bufW;
        if hr =? S_OK then store_multibyte hr w lenW p size else Ok (hr, path, pcchPath)
      end
  | _, _, _ => Ok (E_INVALIDARG, path, pcchPath)
  end.

Definition UrlEscapeA (bufW : list Z) (url : list Z) (escaped : option (list Z)) (escaped_len : option nat) (flags : Z)
    : outcome (Z * option (list Z) * option nat) :=
  match escaped, escaped_len with
  | Some out, Some size =>
    if (size =? 0)%nat then Ok (E_INVALIDARG, escaped, escaped_len)
    else
      match RtlCreateUnicodeStringFromAsciiz url with
      | None => Ok (E_INVALIDARG, escaped, escaped_len)
      | Some urlW =>
        if flag flags URL_ESCAPE_AS_UTF8 then Ok (E_NOTIMPL, escaped, escaped_len)
        else
          '(hr, w, lenW) ← with_retry (fun out len => UrlEscapeW (Some urlW) out len flags) bufW;
          if hr =? S_OK then store_multibyte hr w lenW out size else Ok (hr, escaped, escaped_len)
      end
  | _, _ => Ok (E_INVALIDARG, escaped, escaped_len)
  end.

Definition UrlCreateFromPathA (bufW : list Z) (path url : list Z) (url_len : nat) (reserved : Z)
    : outcome (Z * option (list Z) * option nat) :=
  match RtlCreateUnicodeStringFromAsciiz path with
  | None => Ok (E_INVALIDARG, Some url, Some url_len)
  | Some pathW =>
    '(hr, w, lenW) ← with_retry (fun out len => UrlCreateFromPathW pathW out len reserved) bufW;
    if negb (FAILED hr) then store_multibyte hr w lenW url url_len else Ok (hr, Some url, Some url_len)
  end.

End Escape.

End Url.
