(* ===== verification/UrlSpec.v ===== *)
(** * Escaping and unescaping: what the loops compute

    The texts that UrlUnescape and UrlEscape produce as functions on lists,
    and that the array programs of [Url] store these texts. *)
From Stdlib Require Import String.
From S2P Require Import Prelude PathCch PathCchSpec Path Url.
Import PathCch Path Url.

Module UrlSpec.

(** ** An array seen from a position *)
Lemma rd_drop b i c l : drop i b = c :: l -> rd b i = Ok c.
Proof. intros H. apply rd_Ok. rewrite <- (Nat.add_0_r i), <- lookup_drop, H. done. Qed.

Lemma drop_next {A} (b : list A) i c l : drop i b = c :: l -> drop (S i) b = l.
Proof. intros H. rewrite <- Nat.add_1_r, <- drop_drop, H. done. Qed.

Lemma drop_more {A} (b : list A) i q l : drop i b = q ++ l -> drop (i + length q) b = l.
Proof. intros H. by rewrite <- drop_drop, H, drop_app_length. Qed.

Lemma drop_length_lt {A} (b : list A) i c l : drop i b = c :: l -> (i < length b)%nat.
Proof. intros H%(f_equal length). rewrite length_drop in H. simpl in H. lia. Qed.

Lemma rd_list_drop b i n q c l : drop i b = q ++ c :: l -> n = length q -> rd_list b i n = Ok q.
Proof.
  intros H ->. rewrite rd_list_Ok, H, take_app_length; [done|].
  apply (f_equal length) in H. rewrite length_drop, length_app in H. simpl in H. lia.
Qed.

Lemma wcslen_drop b i s rest : drop i b = s ++ 0 :: rest -> nonul s -> wcslen b i = Ok (length s).
Proof. intros H Hs. unfold wcslen. rewrite H. by apply wcslen_list_str. Qed.

Lemma nonul_cons c s : nonul (c :: s) -> c <> 0 /\ nonul s.
Proof. intros H. by inversion H. Qed.

Lemma nonul_app s t : nonul (s ++ t) <-> nonul s /\ nonul t.
Proof. apply Forall_app. Qed.

(** The head of a string that may be empty, and its terminator. *)
Lemma head_or_nul (s rest : list Z) : exists c l, s ++ 0 :: rest = c :: l.
Proof. destruct s; simpl; eauto. Qed.

(** ** Numbers *)
Lemma digit_of_range c : isxdigit c = true -> 0 <= digit_of c < 16.
Proof.
  unfold isxdigit, digit_of, isdigit, lower. intros H.
  repeat (zcase; simpl in H |- *; try lia); try discriminate.
Qed.

(** [hexval h l]: the value of two hexadecimal digits *)
Definition hexval (h l : Z) : Z := digit_of h * 16 + digit_of l.

Lemma xdigit_facts c : isxdigit c = true -> c <> 0 /\ c <> percent.
Proof. unfold isxdigit, percent. intros H. split; intros ->; discriminate. Qed.

Lemma read_number_hex2 a b h l fuel : isxdigit h = true -> isxdigit l = true ->
  read_number isxdigit 16 (S (S (S fuel))) [a; b; h; l; 0] 2 0 = Ok (hexval h l).
Proof.
  intros Hh Hl. pose proof (digit_of_range h Hh). pose proof (digit_of_range l Hl).
  assert (E : forall z, 0 <= z < 256 -> i64 z = z) by (intros; unfold i64; rewrite Z.mod_small; lia).
  cbn [read_number]. change (rd [a; b; h; l; 0] 2) with (Ok h). rewrite bind_ok, Hh.
  change (rd [a; b; h; l; 0] 3) with (Ok l). rewrite bind_ok, Hl.
  change (rd [a; b; h; l; 0] 4) with (Ok 0). rewrite bind_ok. change (isxdigit 0) with false. cbv iota.
  unfold hexval. change (i64 (0 * 16)) with 0. rewrite (E (0 + _)), Z.add_0_l, (E (_ * 16)), E by lia. done.
Qed.

Lemma StrToInt16_value h l : isxdigit h = true -> isxdigit l = true -> StrToInt16 [h; l] = Ok (hexval h l).
Proof.
  intros Hh Hl. pose proof (digit_of_range h Hh). pose proof (digit_of_range l Hl).
  unfold StrToInt16, StrToIntExW, StrToInt64ExW. change (L "0x" ++ [h; l] ++ [0]) with [48; 120; h; l; 0].
  change (skip_space _ _ 0) with (Ok 0%nat). rewrite bind_ok. change (rd _ 0) with (Ok 48). rewrite bind_ok. cbv zeta.
  change (flag _ _) with true. change (if (48 =? 45) || (48 =? 43) then 1%nat else 0%nat) with 0%nat. cbv iota.
  match goal with |- context [?x ≫= (fun hex : bool => _)] => change x with (Ok true) end. rewrite bind_ok. cbv iota.
  change (rd _ (0 + 2)) with (Ok h). rewrite bind_ok, Hh. cbn [negb].
  change (S (length _)) with 6%nat. change (0 + 2)%nat with 2%nat. rewrite read_number_hex2 by done.
  rewrite bind_ok. simpl. unfold hexval. by rewrite i32_small, u16_small by lia.
Qed.

Lemma strtol16_value h l : isxdigit h = true -> isxdigit l = true -> strtol16 [h; l] = Ok (hexval h l).
Proof.
  intros Hh Hl. pose proof (digit_of_range h Hh). pose proof (digit_of_range l Hl).
  unfold strtol16, hexval. cbn -[digit_of]. unfold u8. by rewrite Z.mod_small by lia.
Qed.

(** ** The text that unescaping gives *)

(** [extra]: a hash or a question mark ends the unescaping. *)
Fixpoint unescape_text (extra stop : bool) (s : list Z) : list Z :=
  match s with
  | [] => []
  | c :: s' =>
    if extra && ((c =? hash) || (c =? qmark)) then c :: unescape_text extra true s'
    else
      match s' with
      | h :: l :: s'' =>
        if (c =? percent) && isxdigit h && isxdigit l && negb stop
        then hexval h l :: unescape_text extra stop s'' else c :: unescape_text extra stop s'
      | _ => c :: unescape_text extra stop s'
      end
  end.

(** One character of the text: what is stored, what is left, and whether
    unescaping has ended. *)
Definition unescape_head (extra stop : bool) (c : Z) (s : list Z) : Z * list Z * bool :=
  if extra && ((c =? hash) || (c =? qmark)) then (c, s, true)
  else
    match s with
    | h :: l :: s' =>
      if (c =? percent) && isxdigit h && isxdigit l && negb stop then (hexval h l, s', stop) else (c, s, stop)
    | _ => (c, s, stop)
    end.

Lemma unescape_text_head extra stop c s : let '(v, r, stop') := unescape_head extra stop c s in
  unescape_text extra stop (c :: s) = v :: unescape_text extra stop' r.
Proof.
  unfold unescape_head. simpl. destruct (extra && _); [done|]. destruct s as [|h [|l s]]; try done.
  by destruct (_ && _ && _ && _).
Qed.

Lemma unescape_text_length extra s : forall stop, (length (unescape_text extra stop s) <= length s)%nat.
Proof.
  induction s as [s IH] using (induction_ltof1 _ (@length Z)); unfold ltof in IH. intros stop.
  destruct s as [|c s]; [done|]. pose proof (unescape_text_head extra stop c s) as H.
  destruct (unescape_head extra stop c s) as [[v r] stop'] eqn:E. rewrite H. simpl. apply le_n_S.
  assert (length r <= length s)%nat.
  { unfold unescape_head in E. repeat case_match; simplify_eq; simpl; lia. }
  etransitivity; [apply IH; simpl; lia|lia].
Qed.

Section Unescape.
Context (number : list Z -> outcome Z).
Context (Hnumber : forall h l, isxdigit h = true -> isxdigit l = true -> number [h; l] = Ok (hexval h l)).
Context (flags : Z).
Let extra := flag flags URL_DONT_UNESCAPE_EXTRA_INFO.

Lemma is_escape_text u src c s rest : drop src u = c :: s ++ 0 :: rest -> nonul s ->
  is_escape u src = Ok (match s with h :: l :: _ => (c =? percent) && isxdigit h && isxdigit l | _ => false end).
Proof.
  intros Hd Hs. unfold is_escape. rewrite (rd_drop _ _ _ _ Hd), bind_ok. apply drop_next in Hd.
  destruct (Z.eqb_spec c percent); [|by destruct s as [|? [|??]]].
  destruct s as [|h s]; rewrite (rd_drop _ _ _ _ Hd), bind_ok; [done|].
  apply drop_next in Hd. destruct (isxdigit h); [|by destruct s].
  replace (src + 2)%nat with (S (S src)) by lia.
  destruct s as [|l s]; by rewrite (rd_drop _ _ _ _ Hd), bind_ok.
Qed.

Lemma next_unescaped_text u src c s rest stop : drop src u = c :: s ++ 0 :: rest -> nonul s ->
  let '(v, r, stop') := unescape_head extra stop c s in
  exists q, s = q ++ r /\ next_unescaped number flags u src stop = Ok (v, (src + length q)%nat, stop').
Proof.
  intros Hd Hs. unfold next_unescaped, unescape_head. rewrite (rd_drop _ _ _ _ Hd), bind_ok. fold extra.
  destruct (extra && _); [exists []; simpl; by rewrite Nat.add_0_r|].
  rewrite (is_escape_text u src c s rest Hd Hs), bind_ok.
  destruct s as [|h [|l s]]; try (exists []; simpl; by rewrite Nat.add_0_r).
  destruct ((c =? percent) && isxdigit h && isxdigit l) eqn:E; [|exists []; simpl; by rewrite Nat.add_0_r].
  destruct stop; [exists []; simpl; by rewrite Nat.add_0_r|]. apply andb_true_iff in E as [[? ?]%andb_true_iff ?].
  exists [h; l]. apply drop_next in Hd. destruct (head_or_nul s rest) as (x & y & Exy).
  rewrite (rd_list_drop u (S src) 2 [h; l] x y), bind_ok by (by rewrite ?Hd, <- ?Exy).
  rewrite Hnumber, bind_ok by done. done.
Qed.

(** In place. *)
Lemma unescape_inplace : flag flags URL_UNESCAPE_INPLACE = true ->
  forall fuel size s u out src dst needed stop rest,
  (length s < fuel)%nat -> nonul s -> (dst <= src)%nat -> drop src u = s ++ 0 :: rest ->
  let t := unescape_text extra stop s in
  exists u', unescape_loop number flags size fuel u out src dst needed stop =
    Ok (u', out, (dst + length t)%nat, (needed + length t)%nat) /\ length u' = length u /\
    take (dst + length t) u' = take dst u ++ t /\ drop (src + length s) u' = 0 :: rest.
Proof.
  intros Hin. induction fuel as [|fuel IH]; intros size s u out src dst needed stop rest Hf Hs Hle Hd; [lia|].
  simpl. destruct s as [|c s].
  - rewrite (rd_drop _ _ _ _ Hd), bind_ok. simpl. exists u.
    rewrite !Nat.add_0_r, app_nil_r. split_and!; done.
  - rewrite (rd_drop _ _ _ _ Hd), bind_ok. apply nonul_cons in Hs as [Hc Hs].
    rewrite (proj2 (Z.eqb_neq c 0) Hc). cbn [app] in Hd.
    pose proof (next_unescaped_text u src c s rest stop Hd Hs) as Hn.
    pose proof (unescape_text_head extra stop c s) as Ht.
    destruct (unescape_head extra stop c s) as [[v r] stop']. destruct Hn as (q & -> & ->).
    rewrite bind_ok, Hin. pose proof (drop_length_lt _ _ _ _ Hd) as Hlt. rewrite wr_lt, bind_ok by lia.
    apply nonul_app in Hs as [_ Hr]. simpl in Hf. rewrite length_app in Hf.
    destruct (IH size r (<[dst := v]> u) out (S (src + length q)) (S dst) (S needed) stop' rest) as (u' & E & Hl & Htk & Hdr);
      [lia|done|lia| |].
    { rewrite drop_insert_lt by lia. change (S (src + length q)) with (S src + length q)%nat.
      apply drop_more. apply drop_next in Hd. by rewrite <- app_assoc in Hd. }
    exists u'. rewrite E, Ht. simpl. rewrite length_insert in Hl. split_and!.
    + do 3 f_equal; lia.
    + done.
    + replace (dst + S _)%nat with (S dst + length (unescape_text extra stop' r))%nat by lia. rewrite Htk.
      rewrite (take_S_r _ _ v) by (by apply list_lookup_insert_eq; lia). rewrite take_insert_ge by lia.
      by rewrite <- app_assoc.
    + rewrite <- Hdr. f_equal. rewrite length_app. lia.
Qed.

(** Into another buffer: the first [size] characters are stored. *)
Lemma unescape_out : flag flags URL_UNESCAPE_INPLACE = false ->
  forall fuel size s u out src needed stop rest,
  (length s < fuel)%nat -> nonul s -> (size <= length out)%nat -> drop src u = s ++ 0 :: rest ->
  let t := unescape_text extra stop s in
  unescape_loop number flags size fuel u out src (Nat.min needed size) needed stop =
    Ok (u, take (Nat.min needed size) out ++ take (size - needed) t ++ drop (Nat.min (needed + length t) size) out,
        Nat.min (needed + length t) size, (needed + length t)%nat).
Proof.
  intros Hin. induction fuel as [|fuel IH]; intros size s u out src needed stop rest Hf Hs Hle Hd; [lia|].
  cbn [unescape_loop]. destruct s as [|c s].
  - rewrite (rd_drop _ _ _ _ Hd), bind_ok. cbn. by rewrite Nat.add_0_r, take_nil, app_nil_l, take_drop.
  - rewrite (rd_drop _ _ _ _ Hd), bind_ok. apply nonul_cons in Hs as [Hc Hs].
    rewrite (proj2 (Z.eqb_neq c 0) Hc). cbn [app] in Hd.
    pose proof (next_unescaped_text u src c s rest stop Hd Hs) as Hn.
    pose proof (unescape_text_head extra stop c s) as Ht.
    destruct (unescape_head extra stop c s) as [[v r] stop']. destruct Hn as (q & -> & ->).
    rewrite bind_ok, Hin, Ht. apply nonul_app in Hs as [_ Hr]. cbn [length] in Hf. rewrite length_app in Hf.
    assert (Hd' : drop (S (src + length q)) u = r ++ 0 :: rest).
    { change (S (src + length q)) with (S src + length q)%nat. apply drop_more. apply drop_next in Hd.
      by rewrite <- app_assoc in Hd. }
    destruct (Nat.ltb_spec needed size).
    + rewrite (Nat.min_l needed) by lia. rewrite wr_lt, bind_ok by lia.
      replace (S needed) with (Nat.min (S needed) size) at 1 by lia.
      rewrite (IH size r u (<[needed := v]> out) _ _ _ rest) by (done || rewrite ?length_insert; lia).
      cbn [length]. rewrite (Nat.min_l (S needed)) by lia. rewrite drop_insert_lt by lia.
      rewrite (take_S_r _ _ v) by (apply list_lookup_insert_eq; lia). rewrite take_insert_ge by lia.
      replace (size - needed)%nat with (S (size - S needed)) by lia. cbn [take]. rewrite <- !app_assoc.
      replace (needed + S (length (unescape_text extra stop' r)))%nat with (S needed + length (unescape_text extra stop' r))%nat by lia.
      done.
    + rewrite (Nat.min_r needed) by lia. replace size with (Nat.min (S needed) size) at 2 by lia.
      rewrite (IH size r u out _ _ _ rest) by (done || lia). cbn [length]. rewrite !Nat.min_r by lia.
      replace (size - S needed)%nat with 0%nat by lia. replace (size - needed)%nat with 0%nat by lia.
      by rewrite Nat.add_succ_r.
Qed.

(** The whole function, with a buffer. *)
Lemma url_unescape_out s rest out size : flag flags URL_UNESCAPE_INPLACE = false -> nonul s -> (size <= length out)%nat ->
  let u := s ++ 0 :: rest in let t := unescape_text extra false s in
  url_unescape number (Some u) (Some out) (Some size) flags =
    if (length t <? size)%nat
    then Ok (S_OK, Some u, Some (t ++ 0 :: drop (S (length t)) out), Some (length t))
    else Ok (E_POINTER, Some u, Some (take size t ++ drop size out), Some (S (length t))).
Proof.
  intros Hin Hs Hle u t. unfold url_unescape. rewrite Hin.
  pose proof (unescape_out Hin (S (length u)) size s u out 0 0 false rest) as H. cbn [Nat.min] in H.
  rewrite H; [|unfold u; rewrite length_app; simpl; lia|done|done|done]. rewrite bind_ok. fold t. cbn [Nat.add].
  rewrite take_0, app_nil_l, Nat.sub_0_r. destruct (Nat.ltb_spec (length t) size).
  - rewrite Nat.min_l by lia. rewrite take_ge by lia. destruct (lookup_lt_is_Some_2 out (length t)) as [x Hx]; [lia|].
    rewrite (drop_S _ _ _ Hx), wr_app, bind_ok by done. done.
  - by rewrite Nat.min_r by lia.
Qed.

(** The whole function, in place. *)
Lemma url_unescape_inplace s rest out size : flag flags URL_UNESCAPE_INPLACE = true -> nonul s ->
  let u := s ++ 0 :: rest in let t := unescape_text extra false s in
  exists junk, length junk = (length s - length t)%nat /\
  url_unescape number (Some u) out size flags = Ok (S_OK, Some (t ++ 0 :: junk ++ rest), out, size).
Proof.
  intros Hin Hs u t. unfold url_unescape. rewrite Hin.
  destruct (unescape_inplace Hin (S (length u)) 0 s u [] 0 0 0 false rest) as (u' & E & Hl & Htk & Hdr);
    [unfold u; rewrite length_app; simpl; lia|done|done|done|].
  rewrite E, bind_ok. fold t in Htk |- *. cbn [Nat.add] in *. rewrite app_nil_l in Htk.
  pose proof (unescape_text_length extra s false) as Hlen. fold t in Hlen.
  assert (Eu : u' = t ++ drop (length t) u') by (by rewrite <- (take_drop (length t) u') at 1; rewrite Htk).
  assert (Ed : exists x junk, drop (length t) u' = x :: junk ++ rest /\ length junk = (length s - length t)%nat).
  { assert (Hdd : drop (length s - length t) (drop (length t) u') = 0 :: rest)
      by (rewrite drop_drop, <- Hdr; f_equal; lia).
    rewrite <- (take_drop (length s - length t) (drop (length t) u')), Hdd.
    destruct (take (length s - length t) (drop (length t) u')) as [|x l] eqn:El.
    - exists 0, []. split; [done|]. apply (f_equal length) in El. rewrite length_take, length_drop in El.
      apply (f_equal length) in Hdr. rewrite length_drop in Hdr. simpl in El, Hdr |- *. lia.
    - exists x, (l ++ [0]). rewrite <- app_assoc. split; [done|]. apply (f_equal length) in El.
      rewrite length_take, length_drop in El. apply (f_equal length) in Hdr. rewrite length_drop in Hdr.
      rewrite length_app. simpl in El, Hdr |- *. lia. }
  destruct Ed as (x & junk & Ed & Hj). rewrite Eu, Ed, wr_app, bind_ok by done. by exists junk.
Qed.

End Unescape.

End UrlSpec.
