(* ===== verification/UrlEscapeSpec.v ===== *)
(** * The scheme of a URL and the text that UrlEscapeW stores

    ParseURLW splits a URL at its scheme; the escaped text as a function on
    lists; and that UrlEscapeW stores this text or asks for its size. *)
From Stdlib Require Import String.
From S2P Require Import Prelude PathCch PathCchSpec Path Url UrlSpec.
Import PathCch Path Url UrlSpec.

Module UrlEscapeSpec.

(** ** The scheme *)

(** The longest prefix of characters that satisfy [P], and the rest. *)
Fixpoint span (P : Z -> bool) (s : list Z) : list Z * list Z :=
  match s with
  | [] => ([], [])
  | c :: s' => if P c then let '(q, r) := span P s' in (c :: q, r) else ([], s)
  end.

Lemma span_app P s : let '(q, r) := span P s in
  s = q ++ r /\ Forall (fun c => P c = true) q /\ match r with [] => True | c :: _ => P c = false end.
Proof.
  induction s as [|c s IH]; simpl; [done|]. destruct (P c) eqn:E; [|done].
  destruct (span P s) as [q r]. destruct IH as (-> & ? & ?). repeat split; try done. by constructor.
Qed.

(** The scheme and what follows its colon. *)
Definition split_scheme (s : list Z) : option (list Z * list Z) :=
  let '(q, r) := span is_scheme_char s in
  match r with
  | c :: r => if (c =? colon) && (2 <=? length q)%nat then Some (q, r) else None
  | [] => None
  end.

Lemma split_scheme_app s q r : split_scheme s = Some (q, r) ->
  s = q ++ colon :: r /\ (2 <= length q)%nat /\ Forall (fun c => is_scheme_char c = true) q.
Proof.
  unfold split_scheme. pose proof (span_app is_scheme_char s) as H. destruct (span is_scheme_char s) as [q' r'].
  destruct H as (-> & Hq & _). destruct r' as [|c r']; [done|].
  destruct (Z.eqb_spec c colon); [|done]. destruct (Nat.leb_spec 2 (length q')); [|done]. by intros [= <- <-]; subst.
Qed.

Fixpoint same_text (q name : list Z) : bool :=
  match q, name with
  | [], [] => true
  | c :: q, d :: name => (lower c =? lower d) && same_text q name
  | _, _ => false
  end.

Definition scheme_number (q : list Z) : Z :=
  match List.find (fun e => same_text q (snd e)) url_schemes with Some (n, _) => n | None => URL_SCHEME_UNKNOWN end.

Lemma starts_nocase_same q name : forall b i l, length q = length name -> drop i b = q ++ l ->
  starts_nocase b i name = Ok (same_text q name).
Proof.
  revert name. induction q as [|c q IH]; intros [|d name] b i l Hl Hd; try done.
  simpl. rewrite (rd_drop _ _ _ _ Hd), bind_ok. destruct (lower c =? lower d); [|done]. simpl.
  apply (IH name b (S i) l); [by injection Hl|]. by apply drop_next in Hd.
Qed.

Lemma same_text_length q : forall name, same_text q name = true -> length q = length name.
Proof.
  induction q as [|c q IH]; intros [|d name] H; try done. simpl in *. f_equal. apply IH.
  by apply andb_true_iff in H as [_ ?].
Qed.

Lemma get_scheme_code_number q l : get_scheme_code (q ++ l) (length q) = Ok (scheme_number q).
Proof.
  unfold get_scheme_code, scheme_number. generalize url_schemes. intros es.
  induction es as [|[n name] es IH]; [done|]. simpl.
  destruct (Nat.eqb_spec (length q) (length name)) as [E|E].
  - rewrite (starts_nocase_same q name _ 0 l) by done. rewrite bind_ok. by destruct (same_text q name).
  - rewrite bind_ok. destruct (same_text q name) eqn:Es; [|done]. by apply same_text_length in Es.
Qed.

Lemma scheme_end_span : forall fuel s u i rest, (length s < fuel)%nat -> nonul s -> drop i u = s ++ 0 :: rest ->
  scheme_end fuel u i = Ok (i + length (fst (span is_scheme_char s)))%nat.
Proof.
  induction fuel as [|fuel IH]; intros s u i rest Hf Hs Hd; [lia|]. simpl. destruct s as [|c s].
  - rewrite (rd_drop _ _ _ _ Hd), bind_ok. simpl. by rewrite Nat.add_0_r.
  - rewrite (rd_drop _ _ _ _ Hd), bind_ok. apply nonul_cons in Hs as [Hc Hs].
    rewrite (proj2 (Z.eqb_neq c 0) Hc). simpl. destruct (is_scheme_char c); [|simpl; by rewrite Nat.add_0_r].
    apply drop_next in Hd. rewrite (IH s u (S i) rest) by (done || simpl in Hf; lia).
    destruct (span is_scheme_char s). simpl. f_equal. lia.
Qed.

(** ParseURLW, with a structure of the right size. *)
Lemma ParseURLW_split s rest res : nonul s -> cbSize res = sizeof_PARSEDURL ->
  ParseURLW (s ++ 0 :: rest) res =
    match split_scheme s with
    | Some (q, r) => Ok (S_OK, ParsedUrl sizeof_PARSEDURL (Some 0%nat) (length q) (S (length q)) (length r) (scheme_number q))
    | None => Ok (URL_E_INVALID_SYNTAX,
        ParsedUrl sizeof_PARSEDURL None (cchProtocol res) (pszSuffix res) (cchSuffix res) (nScheme res))
    end.
Proof.
  intros Hs Hres. unfold ParseURLW, parse_scheme_part. rewrite Hres, Z.eqb_refl. cbn [negb].
  rewrite (scheme_end_span _ s _ 0 rest) by (done || rewrite length_app; simpl; lia). rewrite bind_ok.
  unfold split_scheme. pose proof (span_app is_scheme_char s) as H. destruct (span is_scheme_char s) as [q r].
  destruct H as (-> & Hq & Hr). cbn [fst Nat.add]. rewrite <- app_assoc.
  destruct r as [|c r]; cbn [app].
  - rewrite rd_middle, bind_ok by done. done.
  - rewrite rd_middle, bind_ok by done. destruct (Z.eqb_spec c colon) as [->|]; [|done]. cbn [negb orb andb].
    destruct (Nat.leb_spec (length q) 1), (Nat.leb_spec 2 (length q)); try lia; try done.
    apply nonul_app in Hs as [_ [_ Hs]%nonul_cons].
    rewrite (wcslen_drop _ _ r rest), bind_ok; [|by rewrite <- Nat.add_1_r, drop_app_add|done].
    change (q ++ colon :: r ++ 0 :: rest) with (q ++ (colon :: r ++ 0 :: rest)).
    by rewrite get_scheme_code_number, bind_ok.
Qed.

(** ** The slashes of a file URL *)
Lemma starts_nocase_text name : nonul (map lower name) -> forall r b i rest, drop i b = r ++ 0 :: rest ->
  starts_nocase b i name = Ok (same_text (take (length name) r) name).
Proof.
  induction name as [|d name IH]; intros Hn r b i rest Hd; [by destruct r|]. simpl.
  apply nonul_cons in Hn as [Hd0 Hn]. destruct r as [|c r]; rewrite (rd_drop _ _ _ _ Hd), bind_ok.
  - change (lower 0) with 0. rewrite (proj2 (Z.eqb_neq 0 _)); [done|congruence].
  - simpl. destruct (lower c =? lower d); [|done]. apply (IH Hn r b (S i) rest). by apply drop_next in Hd.
Qed.

Lemma skip_slash_run_span : forall fuel r u i rest, (length r < fuel)%nat -> drop i u = r ++ 0 :: rest ->
  skip_slash_run fuel u i = Ok (i + length (fst (span is_slash_or_bslash r)))%nat.
Proof.
  induction fuel as [|fuel IH]; intros r u i rest Hf Hd; [lia|]. simpl. destruct r as [|c r].
  - rewrite (rd_drop _ _ _ _ Hd), bind_ok. simpl. by rewrite Nat.add_0_r.
  - rewrite (rd_drop _ _ _ _ Hd), bind_ok. simpl. destruct (is_slash_or_bslash c); [|simpl; by rewrite Nat.add_0_r].
    apply drop_next in Hd. rewrite (IH r u (S i) rest) by (done || simpl in Hf; lia).
    destruct (span is_slash_or_bslash r). simpl. f_equal. lia.
Qed.

Definition starts_with_slash (r : list Z) : bool := match r with c :: _ => is_slash_or_bslash c | [] => false end.

(** One or three slashes become three, more become two, and the host
    localhost is dropped. *)
Definition collapse_text (r : list Z) : list Z * list Z :=
  let '(a, r1) := span is_slash_or_bslash r in
  let '(k, r2) :=
    if (length a =? 2)%nat && same_text (take 9 r1) (L "localhost")
    then (3%nat, if starts_with_slash (drop 9 r1) then drop 10 r1 else r1) else (length a, r1) in
  match k with
  | 0%nat => ([], r2)
  | 1%nat | 3%nat => ([slash; slash; slash], r2)
  | _ => ([slash; slash], r2)
  end.

Lemma localhost_part r1 : exists q, r1 = q ++ (if starts_with_slash (drop 9 r1) then drop 10 r1 else r1) /\
  length q = (if starts_with_slash (drop 9 r1) then 10 else 0)%nat.
Proof.
  destruct (starts_with_slash (drop 9 r1)) eqn:E; [|by exists []]. exists (take 10 r1). rewrite take_drop.
  split; [done|]. destruct (drop 9 r1) eqn:Ed; [done|]. apply (f_equal length) in Ed. rewrite length_drop in Ed.
  rewrite length_take. simpl in Ed. lia.
Qed.

Lemma collapse_slashes_text u src r rest : drop src u = r ++ 0 :: rest ->
  let '(x, r') := collapse_text r in
  exists q, r = q ++ r' /\ collapse_slashes u src = Ok (x, (src + length q)%nat) /\ (x = [] <-> q = []).
Proof.
  intros Hd. unfold collapse_slashes, collapse_text.
  assert (Hlen : (length r < S (length u))%nat).
  { apply (f_equal length) in Hd. rewrite length_drop, length_app in Hd. simpl in Hd. lia. }
  rewrite (skip_slash_run_span _ r u src rest Hlen Hd), bind_ok. cbv zeta.
  pose proof (span_app is_slash_or_bslash r) as Hsp. destruct (span is_slash_or_bslash r) as [a r1].
  destruct Hsp as (-> & _ & _). cbn [fst]. replace (src + length a - src)%nat with (length a) by lia.
  assert (Hd1 : drop (src + length a) u = r1 ++ 0 :: rest) by (apply drop_more; by rewrite <- app_assoc in Hd).
  assert (Hfin : forall k q r2, r1 = q ++ r2 -> (k = 0%nat <-> a = []) -> (a = [] -> q = []) ->
    let '(x, r') := match k with 0%nat => ([], r2) | 1%nat | 3%nat => ([slash; slash; slash], r2) | _ => ([slash; slash], r2) end in
    exists q', a ++ r1 = q' ++ r' /\
      match k with 0%nat => Ok ([], (src + length a + length q)%nat)
      | 1%nat | 3%nat => Ok ([slash; slash; slash], (src + length a + length q)%nat)
      | _ => Ok ([slash; slash], (src + length a + length q)%nat) end = Ok (x, (src + length q')%nat) /\ (x = [] <-> q' = [])).
  { intros k q r2 -> Hk Haq. destruct (decide (a = [])) as [->|Ha].
    - rewrite (Haq eq_refl), (proj2 Hk eq_refl). exists []. by rewrite !Nat.add_0_r.
    - destruct k as [|[|[|[|k]]]]; [by destruct Ha; apply Hk|..]; exists (a ++ q);
        rewrite <- app_assoc, length_app, Nat.add_assoc; (split_and!; [done|done|]); (split; [done|]); by intros [? _]%app_eq_nil. }
  destruct (Nat.eqb_spec (length a) 2) as [E2|E2]; cbn [andb].
  - rewrite (starts_nocase_text (L "localhost") ltac:(nonul_tac) r1 u _ rest Hd1), bind_ok.
    change (length (L "localhost")) with 9%nat. destruct (same_text (take 9 r1) (L "localhost")) eqn:El.
    + assert (Hc : exists c, rd u (src + length a + 9) = Ok c /\ is_slash_or_bslash c = starts_with_slash (drop 9 r1)).
      { apply same_text_length in El. rewrite length_take in El. change (length (L "localhost")) with 9%nat in El.
        assert (Hd9 : drop (src + length a + 9) u = drop 9 r1 ++ 0 :: rest)
          by (rewrite <- drop_drop, Hd1, drop_app_le by lia; done).
        destruct (drop 9 r1) as [|c l]; rewrite (rd_drop _ _ _ _ Hd9); by eexists. }
      destruct Hc as (c & -> & Hc). rewrite !bind_ok, Hc. destruct (localhost_part r1) as (q & Hq & Hlq).
      specialize (Hfin 3%nat q _ Hq ltac:(by destruct a) ltac:(by destruct a)). cbv beta iota in Hfin |- *.
      rewrite Hlq in Hfin. destruct (starts_with_slash (drop 9 r1)); [done|]. by rewrite Nat.add_0_r in Hfin.
    + rewrite bind_ok, E2. specialize (Hfin 2%nat [] r1 eq_refl ltac:(by destruct a) ltac:(done)). cbn [length] in Hfin. rewrite E2, Nat.add_0_r in Hfin. exact Hfin.
  - rewrite bind_ok. specialize (Hfin (length a) [] r1 eq_refl). cbn [length] in Hfin. rewrite Nat.add_0_r in Hfin.
    apply Hfin; [apply length_zero_iff_nil|done].
Qed.

(** ** The escaped text *)
Section Escape.
Context (WideCharToUtf8 : list Z -> list Z).
Context (Hutf8 : forall l, (length (WideCharToUtf8 l) <= 4)%nat).

Definition utf8_escapes (l : list Z) : list Z :=
  flat_map percent_encode (match WideCharToUtf8 l with [] => [0xef; 0xbf; 0xbd] | _ => WideCharToUtf8 l end).

Definition surrogate (c : Z) : bool := (0xd800 <=? c) && (c <=? 0xdfff).
Definition low_surrogate (c : Z) : bool := (0xdc00 <=? c) && (c <=? 0xdfff).

Section Flags.
Context (flags int_flags : Z).

Definition stops (stop : bool) (c : Z) : bool :=
  stop || ((c =? hash) && flag int_flags WINE_URL_STOP_ON_HASH)
  || ((c =? qmark) && flag int_flags WINE_URL_STOP_ON_QUESTION).

Definition shown (stop : bool) (c : Z) : Z :=
  if (c =? bslash) && flag int_flags WINE_URL_BASH_AS_SLASH && negb stop then slash else c.

(** What is stored for the character [c] in front of [s], what is left, and
    whether escaping has ended. *)
Definition escape_head (stop : bool) (c : Z) (s : list Z) : list Z * list Z * bool :=
  let stop := stops stop c in
  let c := shown stop c in
  if url_needs_escape c flags int_flags && negb stop then
    if flag flags URL_ESCAPE_AS_UTF8 then
      match s with
      | d :: s' => if surrogate c && low_surrogate d then (utf8_escapes [c; d], s', stop) else (utf8_escapes [c], s, stop)
      | [] => (utf8_escapes [c], s, stop)
      end
    else (percent_encode c, s, stop)
  else ([c], s, stop).

Fixpoint escape_text (stop : bool) (s : list Z) : list Z :=
  match s with
  | [] => []
  | c :: s' =>
    let '(x, _, stop') := escape_head stop c s' in
    x ++ match s' with
         | d :: s'' =>
           if url_needs_escape (shown (stops stop c) c) flags int_flags && negb (stops stop c) && flag flags URL_ESCAPE_AS_UTF8
              && surrogate (shown (stops stop c) c) && low_surrogate d
           then escape_text stop' s'' else escape_text stop' s'
         | [] => []
         end
  end.

Lemma escape_text_head stop c s : let '(x, r, stop') := escape_head stop c s in
  escape_text stop (c :: s) = x ++ escape_text stop' r.
Proof.
  unfold escape_head. cbn [escape_text]. unfold escape_head. cbv zeta.
  destruct (url_needs_escape _ _ _ && _); [|destruct s; by rewrite ?app_nil_r].
  destruct (flag flags URL_ESCAPE_AS_UTF8); [|destruct s; cbn [andb]; by rewrite ?app_nil_r].
  destruct s as [|d s]; [done|]. cbn [andb]. by destruct (surrogate _ && low_surrogate d).
Qed.

Lemma escape_head_shape stop c s : let '(x, r, _) := escape_head stop c s in x <> [] /\ exists q, s = q ++ r.
Proof.
  assert (Hn : forall l, utf8_escapes l <> []) by (intros l; unfold utf8_escapes; by destruct (WideCharToUtf8 l)).
  unfold escape_head. destruct (url_needs_escape _ _ _ && _); [|split; [done|by exists []]].
  destruct (flag flags URL_ESCAPE_AS_UTF8); [|split; [done|by exists []]].
  destruct s as [|d s]; [split; [done|by exists []]|].
  destruct (surrogate _ && low_surrogate d); split; try done; [by exists [d]|by exists []].
Qed.

Lemma shown_surrogate stop c : surrogate (shown stop c) = true -> shown stop c = c.
Proof. unfold shown. by destruct (_ && _ && _). Qed.

Lemma escape_utf8_text u src c' c s rest : drop src u = c :: s ++ 0 :: rest -> (surrogate c' = true -> c' = c) ->
  escape_utf8 WideCharToUtf8 u src c' =
    match s with
    | d :: _ => if surrogate c' && low_surrogate d then Ok (utf8_escapes [c'; d], S src) else Ok (utf8_escapes [c'], src)
    | [] => Ok (utf8_escapes [c'], src)
    end.
Proof.
  intros Hd Hc. assert (Hle : forall l, Nat.ltb 4 (length (match WideCharToUtf8 l with [] => [0xef; 0xbf; 0xbd] | _ :: _ => WideCharToUtf8 l end)) = false).
  { intros l. apply Nat.ltb_ge. pose proof (Hutf8 l). destruct (WideCharToUtf8 l); simpl in *; lia. }
  unfold escape_utf8. change ((0xd800 <=? c') && (c' <=? 0xdfff)) with (surrogate c').
  destruct (surrogate c'); cbn [andb].
  - rewrite Hc in * by done. pose proof (drop_next _ _ _ _ Hd) as Hd1. destruct s as [|d s].
    + rewrite (rd_drop _ _ _ _ Hd1), bind_ok. change ((0xdc00 <=? 0) && (0 <=? 0xdfff)) with false. cbv iota. rewrite bind_ok. cbv zeta. by rewrite Hle.
    + rewrite (rd_drop _ _ _ _ Hd1), bind_ok. change ((0xdc00 <=? d) && (d <=? 0xdfff)) with (low_surrogate d).
      destruct (low_surrogate d); [|rewrite bind_ok; cbv zeta; by rewrite Hle].
      destruct (head_or_nul s rest) as (x & y & E).
      rewrite (rd_list_drop _ _ 2 [c; d] x y), !bind_ok by (by rewrite ?Hd, <- ?E). cbv zeta. by rewrite Hle.
  - rewrite bind_ok. cbv zeta. rewrite Hle. by destruct s.
Qed.

Lemma escape_char_text u src c s rest stop : drop src u = c :: s ++ 0 :: rest ->
  let '(x, r, stop') := escape_head stop c s in
  exists q, s = q ++ r /\ escape_char WideCharToUtf8 flags int_flags u src stop = Ok (x, S (src + length q), stop').
Proof.
  intros Hd. unfold escape_char, escape_head. rewrite (rd_drop _ _ _ _ Hd), bind_ok. cbv zeta.
  fold (stops stop c). fold (shown (stops stop c) c). set (st := stops stop c). set (c' := shown st c).
  destruct (url_needs_escape c' flags int_flags && negb st); [|exists []; by rewrite Nat.add_0_r].
  destruct (flag flags URL_ESCAPE_AS_UTF8); [|exists []; by rewrite Nat.add_0_r].
  rewrite (escape_utf8_text u src c' c s rest Hd (shown_surrogate st c)).
  destruct s as [|d s]; [exists []; by rewrite bind_ok, Nat.add_0_r|].
  destruct (surrogate c' && low_surrogate d); rewrite bind_ok.
  - exists [d]. by rewrite Nat.add_1_r.
  - exists []. by rewrite Nat.add_0_r.
Qed.

(** ** The loop *)

(** The text [t] has been produced so far; it is in the buffer when it fits. *)
Definition stored (size : nat) (dst0 t dst : list Z) (pos : nat) : Prop :=
  length dst = size /\ (pos <= length t)%nat /\
  ((length t <= size)%nat -> pos = length t /\ dst = t ++ drop (length t) dst0).

Lemma stored_nil size dst : length dst = size -> stored size dst [] dst 0.
Proof. done. Qed.

Lemma stored_app size dst0 t dst pos x : length dst0 = size -> stored size dst0 t dst pos ->
  (length t + length x <= size)%nat ->
  exists dst', wr_list dst pos x = Ok dst' /\ stored size dst0 (t ++ x) dst' (pos + length x).
Proof.
  intros H0 (Hl & Hp & Ht) Hle. destruct Ht as [-> Ed]; [lia|]. exists (t ++ x ++ drop (length t + length x) dst0). split.
  - rewrite Ed, wr_list_tail by (rewrite ?length_drop; lia). by rewrite drop_drop.
  - split_and!; rewrite ?length_app, ?length_drop; try lia. intros _. split; [lia|]. by rewrite <- app_assoc.
Qed.

Context (p size : nat).

(** One iteration that produces [x]. *)
Lemma escape_loop_emit fuel u dst0 dst src pos t stop c x src' stop' : rd u src = Ok c -> c <> 0 ->
  ('(next, src') ← (if flag int_flags WINE_URL_COLLAPSE_SLASHES && (src =? p + 1)%nat then collapse_slashes u src else Ok ([], src));
   match next with [] => escape_char WideCharToUtf8 flags int_flags u src' stop | _ => Ok (next, src', stop) end) = Ok (x, src', stop') ->
  length dst0 = size -> stored size dst0 t dst pos ->
  exists dst' pos', stored size dst0 (t ++ x) dst' pos' /\
    escape_loop WideCharToUtf8 flags int_flags p size (S fuel) u dst src pos (length t) stop =
    escape_loop WideCharToUtf8 flags int_flags p size fuel u dst' src' pos' (length (t ++ x)) stop'.
Proof.
  intros Hr Hc He H0 Hst. cbn [escape_loop]. rewrite Hr, bind_ok, (proj2 (Z.eqb_neq c 0) Hc).
  apply bind_Ok_inv in He as ([next src1] & -> & He). rewrite bind_ok, He, bind_ok. rewrite length_app.
  destruct (Nat.leb_spec (length t + length x) size).
  - destruct (stored_app size dst0 t dst pos x H0 Hst) as (dst' & -> & Hst'); [lia|]. rewrite bind_ok. by exists dst', (pos + length x)%nat.
  - exists dst, pos. split; [|done]. destruct Hst as (? & ? & _). split_and!; rewrite ?length_app; lia.
Qed.

(** No slashes are collapsed from here on. *)
Definition beyond (src : nat) : Prop := flag int_flags WINE_URL_COLLAPSE_SLASHES = false \/ (p + 1 < src)%nat.

Lemma beyond_off src : beyond src -> flag int_flags WINE_URL_COLLAPSE_SLASHES && (src =? p + 1)%nat = false.
Proof. intros [->|H]; [done|]. rewrite (proj2 (Nat.eqb_neq _ _)); [apply andb_false_r|lia]. Qed.

Lemma beyond_le src src' : beyond src -> (src <= src')%nat -> beyond src'.
Proof. intros [?|?] ?; [by left|right; lia]. Qed.

(** The rest of the string, from a character on. *)
Lemma escape_loop_rest dst0 : length dst0 = size -> forall fuel s u dst src pos t stop rest,
  (length s < fuel)%nat -> nonul s -> drop src u = s ++ 0 :: rest ->
  (beyond src \/ exists c s', s = c :: s' /\ beyond (S src) /\ collapse_slashes u src = Ok ([], src)) ->
  stored size dst0 t dst pos ->
  exists dst' pos', stored size dst0 (t ++ escape_text stop s) dst' pos' /\
    escape_loop WideCharToUtf8 flags int_flags p size fuel u dst src pos (length t) stop =
      Ok (dst', pos', length (t ++ escape_text stop s)).
Proof.
  intros H0. induction fuel as [|fuel IH]; intros s u dst src pos t stop rest Hf Hs Hd Hb Hst; [lia|].
  destruct s as [|c s].
  - cbn [escape_loop]. rewrite (rd_drop _ _ _ _ Hd), bind_ok. cbn. rewrite app_nil_r. by exists dst, pos.
  - cbn [app] in Hd. pose proof (nonul_cons _ _ Hs) as [Hc Hs'].
    pose proof (escape_char_text u src c s rest stop Hd) as He. pose proof (escape_text_head stop c s) as Ht.
    pose proof (escape_head_shape stop c s) as Hsh. destruct (escape_head stop c s) as [[x r] stop'].
    destruct He as (q & -> & He). destruct Hsh as [Hx _].
    destruct (escape_loop_emit fuel u dst0 dst src pos t stop c x (S (src + length q)) stop') as (dst' & pos' & Hst' & ->).
    + by apply rd_drop in Hd.
    + done.
    + destruct Hb as [Hb|(? & ? & _ & _ & Hcol)]; [by rewrite (beyond_off src Hb), bind_ok|].
      destruct (_ && _); by rewrite ?Hcol, bind_ok.
    + done.
    + done.
    + rewrite Ht, app_assoc. simpl in Hf. rewrite length_app in Hf. apply nonul_app in Hs' as [_ Hr].
      apply (IH r u dst' _ pos' (t ++ x) stop' rest); [lia|done| |left|done].
      * change (S (src + length q)) with (S src + length q)%nat. apply drop_more. apply drop_next in Hd.
        by rewrite <- app_assoc in Hd.
      * destruct Hb as [Hb|(? & ? & _ & Hb & _)]; (eapply beyond_le; [done|lia]).
Qed.

(** A prefix of characters that are kept. *)
Definition kept (c : Z) : Prop := escape_head false c = fun s => ([c], s, false).

Lemma escape_loop_prefix dst0 : length dst0 = size -> forall q fuel u dst src pos t s rest,
  (length q <= fuel)%nat -> nonul q -> Forall kept q -> drop src u = q ++ s ++ 0 :: rest ->
  (src + length q <= p + 1)%nat -> stored size dst0 t dst pos ->
  exists dst' pos', stored size dst0 (t ++ q) dst' pos' /\
    escape_loop WideCharToUtf8 flags int_flags p size fuel u dst src pos (length t) false =
    escape_loop WideCharToUtf8 flags int_flags p size (fuel - length q) u dst' (src + length q) pos' (length (t ++ q)) false.
Proof.
  intros H0. induction q as [|c q IH]; intros fuel u dst src pos t s rest Hf Hs Hk Hd Hp Hst.
  - exists dst, pos. rewrite app_nil_r, Nat.add_0_r, Nat.sub_0_r. done.
  - destruct fuel as [|fuel]; [simpl in Hf; lia|]. apply nonul_cons in Hs as [Hc Hs]. pose proof (Forall_inv Hk) as Hkc. pose proof (Forall_inv_tail Hk) as Hkq.
    assert (Hd' : drop src u = c :: (q ++ s) ++ 0 :: rest) by (rewrite Hd; cbn [app]; by rewrite <- app_assoc).
    pose proof (escape_char_text u src c (q ++ s) rest false Hd') as He. unfold kept in Hkc. rewrite Hkc in He.
    destruct He as (q0 & Hq0 & He). assert (q0 = []) as ->.
    { apply (f_equal length) in Hq0. rewrite (length_app q0) in Hq0. destruct q0; [done|simpl in Hq0; lia]. }
    destruct (escape_loop_emit fuel u dst0 dst src pos t false c [c] (S (src + 0)) false) as (dst' & pos' & Hst' & ->).
    + by apply rd_drop in Hd.
    + done.
    + rewrite (proj2 (Nat.eqb_neq src (p + 1))) by (simpl in Hp; lia). rewrite andb_false_r, bind_ok. exact He.
    + done.
    + done.
    + rewrite Nat.add_0_r. destruct (IH fuel u dst' (S src) pos' (t ++ [c]) s rest) as (dst2 & pos2 & Hst2 & ->).
      * simpl in Hf; lia.
      * done.
      * done.
      * by apply drop_next in Hd.
      * simpl in Hp; lia.
      * done.
      * exists dst2, pos2. rewrite <- app_assoc in Hst2 |- *. split; [done|]. simpl. by rewrite Nat.add_succ_r.
Qed.

End Flags.

(** ** UrlEscapeW *)

(** The flags of a URL without a scheme. *)
Definition extra_flags (flags : Z) : Z :=
  if flag flags URL_DONT_ESCAPE_EXTRA_INFO then Z.lor WINE_URL_STOP_ON_HASH WINE_URL_STOP_ON_QUESTION else 0.

Definition segment_flags : Z := Z.lor (Z.lor WINE_URL_ESCAPE_QUESTION WINE_URL_ESCAPE_HASH) WINE_URL_ESCAPE_SLASH.

(** The escaped URL. *)
Definition escape_url (flags : Z) (s : list Z) : list Z :=
  let flags := fix_flags flags in
  if flag flags URL_ESCAPE_SEGMENT_ONLY then escape_text flags segment_flags false s
  else
    match split_scheme s with
    | None => escape_text flags (extra_flags flags) false s
    | Some (q, r) =>
      let int_flags := scheme_flags (scheme_number q) (List.hd 0 r) (extra_flags flags) in
      if flag int_flags WINE_URL_COLLAPSE_SLASHES
      then let '(x, r') := collapse_text r in q ++ colon :: x ++ escape_text flags int_flags false r'
      else escape_text flags int_flags false s
    end.

Lemma escape_int_flags_text s rest flags : nonul s ->
  escape_int_flags (s ++ 0 :: rest) flags =
    if flag flags URL_ESCAPE_SEGMENT_ONLY then Ok (segment_flags, 0%nat)
    else match split_scheme s with
         | None => Ok (extra_flags flags, 0%nat)
         | Some (q, r) => Ok (scheme_flags (scheme_number q) (List.hd 0 r) (extra_flags flags), length q)
         end.
Proof.
  intros Hs. unfold escape_int_flags. destruct (flag flags URL_ESCAPE_SEGMENT_ONLY); [done|].
  rewrite ParseURLW_split by done. fold (extra_flags flags). destruct (split_scheme s) as [[q r]|] eqn:E; [|done].
  apply split_scheme_app in E as (-> & _ & _). rewrite bind_ok. cbn [isnt negb pszSuffix nScheme cchProtocol].
  change (isnt S_OK S_OK) with false. cbv iota zeta. rewrite <- app_assoc. cbn [app].
  rewrite (rd_drop _ _ (List.hd 0 r) (List.tl (r ++ 0 :: rest))), bind_ok; [done|].
  rewrite <- Nat.add_1_r, drop_app_add. by destruct r.
Qed.

(** Characters of a scheme, and its colon, are kept. *)
Lemma scheme_char_kept flags int_flags c : is_scheme_char c = true \/ c = colon -> kept flags int_flags c.
Proof.
  intros Hc. set (ok c := negb (is_scheme_char c || (c =? colon)) ||
    negb (c =? space) && negb (c =? percent) && (c <? 0x80) && negb ((c <=? 31) || ((127 <=? c) && (c <=? 255))) &&
    (isalnum c || negb (one_of c unsafe_chars) && negb (c =? slash)) && negb (c =? qmark) && negb (c =? hash) && negb (c =? bslash)).
  assert (Hok : ok c = true).
  { apply (seqZ_forallb ok 0 128); [by vm_compute|]. destruct Hc as [Hc| ->]; [|unfold colon; lia].
    unfold is_scheme_char, isalnum, isalpha, isdigit, dot in Hc. repeat (zcase; simpl in Hc; try lia); try discriminate; lia. }
  assert (Hc' : is_scheme_char c || (c =? colon) = true) by (destruct Hc as [->| ->]; done).
  unfold ok in Hok. rewrite Hc' in Hok. cbn [negb orb] in Hok.
  repeat match goal with H : _ && _ = true |- _ => apply andb_true_iff in H as [H ?] end.
  repeat match goal with H : negb _ = true |- _ => apply negb_true_iff in H end.
  unfold kept, escape_head, stops, shown. rewrite H, H0, H1. cbn [andb orb negb].
  assert (E : url_needs_escape c flags int_flags = false); [|by rewrite E].
  unfold url_needs_escape. rewrite Hok, H5, H3. rewrite (proj2 (Z.leb_gt 128 c)) by lia. rewrite !andb_false_r.
  destruct (flag flags URL_ESCAPE_SPACES_ONLY); [done|]. apply orb_true_iff in H2 as [->|H2]; [done|].
  apply andb_true_iff in H2 as [->%negb_true_iff ->%negb_true_iff]. rewrite H0, H1. by destruct (isalnum c).
Qed.

Lemma no_collapse flags : flag segment_flags WINE_URL_COLLAPSE_SLASHES = false /\
  flag (extra_flags flags) WINE_URL_COLLAPSE_SLASHES = false.
Proof. unfold extra_flags. by destruct (flag flags URL_DONT_ESCAPE_EXTRA_INFO). Qed.

(** From the slashes that are collapsed on. *)
Lemma escape_loop_collapse f i p size dst0 u src r rest t dst pos fuel : length dst0 = size ->
  flag i WINE_URL_COLLAPSE_SLASHES = true -> src = (p + 1)%nat -> nonul r -> drop src u = r ++ 0 :: rest ->
  (length r + 2 <= fuel)%nat -> stored size dst0 t dst pos ->
  let '(x, r') := collapse_text r in
  exists dst' pos', stored size dst0 (t ++ x ++ escape_text f i false r') dst' pos' /\
    escape_loop WideCharToUtf8 f i p size fuel u dst src pos (length t) false =
      Ok (dst', pos', length (t ++ x ++ escape_text f i false r')).
Proof.
  intros Hl Ei Hsrc Hr Hd Hf Hst. pose proof (collapse_slashes_text u src r rest Hd) as Hcol.
  destruct (collapse_text r) as [x r']. destruct Hcol as (q' & -> & Hcol & Hxq).
  rewrite length_app in Hf. apply nonul_app in Hr as [Hq' Hr'].
  destruct fuel as [|fuel]; [lia|]. destruct x as [|c x].
  - rewrite (proj1 Hxq eq_refl) in *. rewrite app_nil_l. cbn [app length] in *. rewrite Nat.add_0_r in Hcol.
    destruct r' as [|c r'].
    + cbn [escape_text escape_loop]. rewrite (rd_drop _ _ _ _ Hd), bind_ok. rewrite app_nil_r. by exists dst, pos.
    + apply (escape_loop_rest f i p size dst0 Hl (S fuel) (c :: r') u dst src pos t false rest); try done; [lia|].
      right. exists c, r'. split_and!; [done|right; lia|done].
  - destruct q' as [|d q']; [discriminate (proj2 Hxq eq_refl)|]. cbn [app] in Hd.
    destruct (escape_loop_emit f i p size fuel u dst0 dst src pos t false d (c :: x) (src + length (d :: q')) false)
      as (dst2 & pos2 & Hst2 & ->); try done.
    { by apply rd_drop in Hd. }
    { by apply nonul_cons in Hq' as [? _]. }
    { by rewrite Ei, (proj2 (Nat.eqb_eq _ _) Hsrc); cbn [andb]; rewrite Hcol. }
    rewrite !(app_assoc t).
    apply (escape_loop_rest f i p size dst0 Hl fuel r' u dst2 _ pos2 (t ++ c :: x) false rest); try done; [simpl in Hf; lia| |].
    { apply drop_more. by rewrite Hd, <- app_assoc. }
    { left. right. simpl. lia. }
Qed.

(** The loop on a URL with slashes to collapse. *)
Lemma escape_loop_file f i q r rest dst size : nonul (q ++ colon :: r) -> length dst = size ->
  Forall (fun c => is_scheme_char c = true) q -> flag i WINE_URL_COLLAPSE_SLASHES = true ->
  let u := q ++ colon :: r ++ 0 :: rest in
  let t := let '(x, r') := collapse_text r in q ++ colon :: x ++ escape_text f i false r' in
  exists dst' pos', stored size dst t dst' pos' /\
    escape_loop WideCharToUtf8 f i (length q) size (S (length u)) u dst 0 0 0 false = Ok (dst', pos', length t).
Proof.
  intros Hs Hl Hq Ei u. assert (Hu : u = (q ++ [colon]) ++ r ++ 0 :: rest) by (unfold u; rewrite <- !app_assoc; done).
  apply nonul_app in Hs as [Hsq Hs']. pose proof (nonul_cons _ _ Hs') as [_ Hsr].
  destruct (escape_loop_prefix f i (length q) size dst Hl (q ++ [colon]) (S (length u)) u dst 0 0 [] r rest)
    as (dst1 & pos1 & Hst1 & E1).
  { rewrite Hu, !length_app. lia. }
  { apply nonul_app. split; [done|]. by repeat constructor. }
  { apply Forall_app. split; [|repeat constructor; by apply scheme_char_kept; right].
    eapply Forall_impl; [exact Hq|]. intros c Hc. apply scheme_char_kept. by left. }
  { by rewrite Hu. }
  { rewrite length_app. simpl. lia. }
  { by apply stored_nil. }
  cbn [length] in E1. rewrite E1. cbn [app Nat.add] in Hst1 |- *.
  pose proof (escape_loop_collapse f i (length q) size dst u (length (q ++ [colon])) r rest (q ++ [colon]) dst1 pos1
    (S (length u) - length (q ++ [colon])) Hl Ei) as Hc.
  destruct (collapse_text r) as [x r'].
  replace (q ++ colon :: x ++ escape_text f i false r') with ((q ++ [colon]) ++ x ++ escape_text f i false r') by (by rewrite <- app_assoc).
  apply Hc; try done; rewrite ?Hu, ?drop_app_length, ?length_app; try done; simpl; lia.
Qed.

(** The whole loop. *)
Lemma escape_loop_url flags s rest dst size : nonul s -> length dst = size ->
  let f := fix_flags flags in
  exists int_flags p dst' pos', escape_int_flags (s ++ 0 :: rest) f = Ok (int_flags, p) /\
    stored size dst (escape_url flags s) dst' pos' /\
    escape_loop WideCharToUtf8 f int_flags p size (S (length (s ++ 0 :: rest))) (s ++ 0 :: rest) dst 0 0 0 false =
      Ok (dst', pos', length (escape_url flags s)).
Proof.
  intros Hs Hl f. set (u := s ++ 0 :: rest). destruct (no_collapse f) as [Hn1 Hn2].
  assert (Hlu : (length s < length u)%nat) by (unfold u; rewrite length_app; simpl; lia).
  assert (Hplain : forall i p, flag i WINE_URL_COLLAPSE_SLASHES = false ->
    exists dst' pos', stored size dst (escape_text f i false s) dst' pos' /\
      escape_loop WideCharToUtf8 f i p size (S (length u)) u dst 0 0 0 false = Ok (dst', pos', length (escape_text f i false s))).
  { intros i p Hi. destruct (escape_loop_rest f i p size dst Hl (S (length u)) s u dst 0 0 [] false rest) as (dst' & pos' & Hst & E);
      [lia|done|done|by left; left|by apply stored_nil|]. by exists dst', pos'. }
  unfold u. rewrite escape_int_flags_text by done. unfold escape_url. cbv zeta. fold f u.
  destruct (flag f URL_ESCAPE_SEGMENT_ONLY).
  { destruct (Hplain segment_flags 0%nat Hn1) as (dst' & pos' & ? & ?). by exists segment_flags, 0%nat, dst', pos'. }
  destruct (split_scheme s) as [[q r]|] eqn:Esp.
  2:{ destruct (Hplain (extra_flags f) 0%nat Hn2) as (dst' & pos' & ? & ?). by exists (extra_flags f), 0%nat, dst', pos'. }
  set (i := scheme_flags (scheme_number q) (List.hd 0 r) (extra_flags f)).
  destruct (flag i WINE_URL_COLLAPSE_SLASHES) eqn:Ei.
  2:{ destruct (Hplain i (length q) Ei) as (dst' & pos' & ? & ?). by exists i, (length q), dst', pos'. }
  apply split_scheme_app in Esp as (Es & _ & Hq). exists i, (length q).
  destruct (escape_loop_file f i q r rest dst size) as (dst' & pos' & ? & E); try done; [by rewrite <- Es|].
  assert (Eu : u = q ++ colon :: r ++ 0 :: rest) by (unfold u; by rewrite Es, <- app_assoc).
  rewrite <- Eu in E. by exists dst', pos'.
Qed.

(** UrlEscapeW stores the escaped URL, or asks for its size. *)
Lemma UrlEscapeW_text heap_alloc flags s rest out size dst : nonul s -> (0 < size <= length out)%nat ->
  heap_alloc size = Some dst -> length dst = size ->
  let t := escape_url flags s in
  UrlEscapeW WideCharToUtf8 heap_alloc (Some (s ++ 0 :: rest)) (Some out) (Some size) flags =
    if (length t <? size)%nat then Ok (S_OK, Some (t ++ 0 :: drop (S (length t)) out), Some (length t))
    else Ok (E_POINTER, Some out, Some (length t + 1)%nat).
Proof.
  intros Hs Hsz Ha Hl t. unfold UrlEscapeW. rewrite (proj2 (Nat.eqb_neq size 0)), Ha by lia. cbv zeta.
  destruct (escape_loop_url flags s rest dst size Hs Hl) as (i & p & dst' & pos' & -> & Hst & E).
  rewrite bind_ok, E, bind_ok. fold t in Hst |- *. destruct (Nat.ltb_spec (length t) size); [|done].
  destruct Hst as (Hl' & _ & Hst). destruct Hst as [-> Ed]; [lia|].
  destruct (lookup_lt_is_Some_2 dst (length t)) as [x Hx]; [lia|]. rewrite (drop_S _ _ _ Hx) in Ed.
  rewrite Ed, wr_app, bind_ok by done. rewrite (cons_middle 0 t), app_assoc.
  rewrite rd_list_Ok, drop_0, take_app_length', bind_ok by (rewrite !length_app; simpl; lia).
  rewrite wr_list_Ok, bind_ok by (rewrite length_app; simpl; lia). rewrite take_0, app_nil_l, length_app, <- app_assoc.
  by rewrite Nat.add_0_l, Nat.add_1_r.
Qed.

End Escape.

End UrlEscapeSpec.
