(* ===== verification/UrlMain.v ===== *)
(** * URLs: the properties of escaping

    What UrlEscapeW stores, which characters it leaves, that UrlUnescapeW
    inverts it, and that a file name survives the way through a URL. *)
From Stdlib Require Import String.
From S2P Require Import Prelude PathCch PathCchSpec Path Url UrlSpec UrlEscapeSpec.
Import PathCch Path Url UrlSpec UrlEscapeSpec.

Module UrlMain.

(** ** Percent encoding *)
Definition byte_ok (c : Z) : bool :=
  match percent_encode c with
  | [p; h; l] => (p =? percent) && isxdigit h && isxdigit l && (hexval h l =? c) && isnt h slash && isnt l slash
  | _ => false
  end.

Lemma percent_encode_ok c : 0 <= c < 256 -> exists h l, percent_encode c = [percent; h; l] /\
  isxdigit h = true /\ isxdigit l = true /\ hexval h l = c /\ h <> slash /\ l <> slash.
Proof.
  intros Hc. assert (H : byte_ok c = true) by (apply (seqZ_forallb byte_ok 0 256); [by vm_compute|lia]).
  unfold byte_ok, percent_encode, isnt in H. exists (hexDigit (Z.shiftr c 4)), (hexDigit c). split; [done|].
  repeat match goal with H : _ && _ = true |- _ => apply andb_true_iff in H as [H ?] end.
  split_and!; try done; lia.
Qed.

(** A character that may stand in a segment: printable ASCII other than the
    unsafe characters and the delimiters. *)
Definition segment_char (c : Z) : bool :=
  (33 <=? c) && (c <=? 126) && negb (one_of c unsafe_chars) && isnt c slash && isnt c qmark && isnt c hash.

Lemma hexDigit_char i : segment_char (hexDigit i) = true.
Proof.
  assert (0 <= Z.land i 0xf < 16) as H by (change 0xf with (2 ^ 4 - 1); rewrite land_ones_mod by lia; apply Z.mod_pos_bound; lia).
  unfold hexDigit. set (k := Z.land i 0xf) in *.
  apply (seqZ_forallb (fun k => segment_char (default 0 (hexDigits !! Z.to_nat k))) 0 16); [by vm_compute|done].
Qed.

Lemma percent_encode_char c : Forall (fun d => segment_char d = true) (percent_encode c).
Proof. unfold percent_encode. repeat constructor; apply hexDigit_char. Qed.

(** ** Segments *)
Section Segment.
Context (WideCharToUtf8 : list Z -> list Z).

Lemma utf8_escapes_char l : Forall (fun d => segment_char d = true) (utf8_escapes WideCharToUtf8 l).
Proof.
  unfold utf8_escapes. generalize (match WideCharToUtf8 l with [] => [0xef; 0xbf; 0xbd] | _ => WideCharToUtf8 l end).
  intros bs. induction bs as [|b bs IH]; [done|]. cbn [flat_map]. apply Forall_app. split; [apply percent_encode_char|done].
Qed.

Lemma kept_segment_char flags c : flag flags URL_ESCAPE_SPACES_ONLY = false -> flag flags URL_ESCAPE_AS_UTF8 = true ->
  url_needs_escape c flags segment_flags = false -> segment_char c = true.
Proof.
  unfold url_needs_escape, segment_char. intros -> ->. destruct (flag flags URL_ESCAPE_PERCENT && _); [done|]. cbn [andb].
  destruct (Z.leb_spec 128 c); [done|]. destruct ((c <=? 31) || _) eqn:E; [done|].
  destruct (isalnum c) eqn:Ea.
  - intros _. assert (Hc : 0 <= c < 128) by lia. revert Ea. clear -Hc. intros Ea.
    assert (H : implb (isalnum c) (segment_char c) = true)
      by (apply (seqZ_forallb (fun c => implb (isalnum c) (segment_char c)) 0 128); [by vm_compute|lia]).
    by rewrite Ea in H.
  - destruct (one_of c unsafe_chars) eqn:Eu; [done|]. unfold isnt.
    destruct (c =? slash); [done|]. destruct (c =? qmark); [done|]. destruct (c =? hash); [done|]. intros _. cbn [negb].
    rewrite !andb_true_r. assert (c <> 32) by (intros ->; done). lia.
Qed.

Lemma escape_text_segment flags s stop : stop = false ->
  flag flags URL_ESCAPE_SPACES_ONLY = false -> flag flags URL_ESCAPE_AS_UTF8 = true ->
  Forall (fun d => segment_char d = true) (escape_text WideCharToUtf8 flags segment_flags stop s).
Proof.
  intros Hst Hsp Hu. revert stop Hst. induction s as [s IH] using (induction_ltof1 _ (@length Z)); unfold ltof in IH. intros stop ->.
  destruct s as [|c s]; [done|]. pose proof (escape_text_head WideCharToUtf8 flags segment_flags false c s) as H.
  pose proof (escape_head_shape WideCharToUtf8 flags segment_flags false c s) as Hs.
  assert (Ex : let '(x, r, stop') := escape_head WideCharToUtf8 flags segment_flags false c s in
    Forall (fun d => segment_char d = true) x /\ stop' = false).
  { unfold escape_head. assert (Es : stops segment_flags false c = false) by (unfold stops; cbn; by rewrite !andb_false_r).
    cbv zeta. rewrite Es. rewrite Hu. unfold shown. rewrite andb_false_r. cbn [andb negb].
    rewrite andb_true_r. destruct (url_needs_escape c flags segment_flags) eqn:En.
    - destruct s as [|d s']; [split; [apply utf8_escapes_char|done]|].
      by destruct (surrogate c && low_surrogate d); (split; [apply utf8_escapes_char|]).
    - split; [|done]. repeat constructor. by eapply kept_segment_char. }
  destruct (escape_head WideCharToUtf8 flags segment_flags false c s) as [[x r] stop']. destruct Ex as [Hx ->].
  destruct Hs as (_ & q & ->). rewrite H. apply Forall_app. split; [done|]. apply IH; [|done]. simpl. rewrite length_app. lia.
Qed.

End Segment.

(** ** The inverse *)

(** Escaping with URL_ESCAPE_PERCENT of a text in which nothing ends the
    escaping; [back] is what a file name undoes before it unescapes. *)
Lemma unescape_escape WideCharToUtf8 flags i (back : Z -> Z) s :
  flag flags URL_ESCAPE_SPACES_ONLY = false -> flag flags URL_ESCAPE_AS_UTF8 = false -> flag flags URL_ESCAPE_PERCENT = true ->
  (forall c, c <> slash -> back c = c) ->
  Forall (fun c => 0 <= c /\ stops i false c = false /\ (url_needs_escape (shown i false c) flags i = true -> shown i false c = c) /\
                   back (shown i false c) = c) s ->
  unescape_text false false (map back (escape_text WideCharToUtf8 flags i false s)) = s.
Proof.
  intros Hsp Hu Hp Hback. induction s as [|c s IH]; intros Hs; [done|].
  pose proof (Forall_inv Hs) as (Hc & Hst & Hsh & Hb). apply Forall_inv_tail in Hs.
  pose proof (escape_text_head WideCharToUtf8 flags i false c s) as H. unfold escape_head in H. cbv zeta in H.
  rewrite Hst, Hu in H. cbn [negb] in H. rewrite andb_true_r in H.
  destruct (url_needs_escape (shown i false c) flags i) eqn:En; rewrite H, map_app.
  - rewrite Hsh in * by done. assert (Hc' : 0 <= c < 256).
    { split; [done|]. unfold url_needs_escape in En. rewrite Hsp, Hu, Hp in En. cbn [andb] in En. unfold percent in En.
      destruct (Z.ltb_spec c 256); [done|]. exfalso.
      repeat match type of En with (if ?b then _ else _) = _ => let E := fresh in destruct b eqn:E end; try lia; try done.
      - unfold one_of, unsafe_chars, space, dquote, bslash in *. cbn [existsb] in *. lia.
      - unfold slash in *; lia.
      - unfold qmark in *; lia.
      - unfold hash in *; lia. }
    destruct (percent_encode_ok c Hc') as (h & l & -> & Hh & Hl & Hv & Hsh1 & Hsl).
    cbn [map app]. rewrite !Hback by (done || (unfold percent, slash; lia)). cbn [unescape_text andb].
    rewrite Z.eqb_refl, Hh, Hl. cbn [andb negb]. by rewrite Hv, IH.
  - cbn [map app]. rewrite Hb. assert (Hcp : c <> percent).
    { intros ->. unfold url_needs_escape, shown in En. cbn [andb] in En. change (percent =? bslash) with false in En.
      cbn [andb] in En. rewrite Hsp, Hp in En. done. }
    pose proof (unescape_text_head false false c (map back (escape_text WideCharToUtf8 flags i false s))) as Ht.
    unfold unescape_head in Ht. cbn [andb] in Ht. rewrite (proj2 (Z.eqb_neq _ _) Hcp) in Ht. cbn [andb] in Ht.
    rewrite <- (IH Hs) at 2. destruct (map back _) as [|d [|e m]]; exact Ht.
Qed.

Lemma escape_text_length W flags i s : flag flags URL_ESCAPE_AS_UTF8 = false ->
  forall stop, (length (escape_text W flags i stop s) <= 3 * length s)%nat.
Proof.
  intros Hu. induction s as [|c s IH]; intros stop; [done|].
  pose proof (escape_text_head W flags i stop c s) as H. unfold escape_head in H. cbv zeta in H. rewrite Hu in H.
  destruct (url_needs_escape _ _ _ && _); rewrite H, length_app; cbn [length percent_encode];
    specialize (IH (stops i stop c)); lia.
Qed.

Lemma segment_char_nonul l : Forall (fun d => segment_char d = true) l -> nonul l.
Proof. intros H. eapply Forall_impl; [exact H|]. by intros d Hd ->. Qed.

Lemma escape_text_nonul W flags i s : forall stop, nonul s -> nonul (escape_text W flags i stop s).
Proof.
  induction s as [s IH] using (induction_ltof1 _ (@length Z)); unfold ltof in IH. intros stop Hs.
  destruct s as [|c s]; [done|]. apply nonul_cons in Hs as [Hc Hs].
  pose proof (escape_text_head W flags i stop c s) as H. pose proof (escape_head_shape W flags i stop c s) as Hsh.
  assert (Hx : nonul (fst (fst (escape_head W flags i stop c s)))).
  { unfold escape_head. cbv zeta. destruct (url_needs_escape _ _ _ && _); [destruct (flag flags URL_ESCAPE_AS_UTF8)|].
    - destruct s as [|d s']; [|destruct (surrogate _ && _)]; apply segment_char_nonul, utf8_escapes_char.
    - apply segment_char_nonul, percent_encode_char.
    - repeat constructor. unfold shown. by destruct (_ && _ && _). }
  destruct (escape_head W flags i stop c s) as [[x r] stop']. destruct Hsh as (_ & q & ->). rewrite H.
  apply nonul_app in Hs as [_ Hr]. apply nonul_app. split; [done|]. apply IH; [simpl; rewrite length_app; lia|done].
Qed.

Lemma fix_flags_keeps flags bit : flag flags URL_ESCAPE_SPACES_ONLY = false -> Z.land URL_DONT_ESCAPE_EXTRA_INFO bit = 0 ->
  flag (fix_flags flags) bit = flag flags bit.
Proof.
  intros Hs Hb. unfold fix_flags. rewrite Hs. unfold flag. by rewrite Z.land_lor_distr_l, Hb, Z.lor_0_r.
Qed.

(** A heap that never runs out. *)
Definition heap_total (heap_alloc : nat -> option (list Z)) : Prop :=
  forall n, exists b, heap_alloc n = Some b /\ length b = n.

(** ** The theorems on escaping *)


(** Round trip: UrlUnescapeW gives back every string of 16-bit units that
    UrlEscapeW has escaped as a segment with its percent signs. *)
Theorem UrlEscapeW_UrlUnescapeW W heap_alloc s rest out size out' size' :
  (forall l, (length (W l) <= 4)%nat) -> heap_total heap_alloc -> Forall (fun c => 0 < c < 2 ^ 16) s ->
  (3 * length s < size <= length out)%nat -> (length s < size' <= length out')%nat ->
  exists t escaped, 
    UrlEscapeW W heap_alloc (Some (s ++ 0 :: rest)) (Some out) (Some size) (Z.lor URL_ESCAPE_SEGMENT_ONLY URL_ESCAPE_PERCENT) =
      Ok (S_OK, Some escaped, Some (length t)) /\ escaped = t ++ 0 :: drop (S (length t)) out /\
    UrlUnescapeW (Some escaped) (Some out') (Some size') 0 =
      Ok (S_OK, Some escaped, Some (s ++ 0 :: drop (S (length s)) out'), Some (length s)).
Proof.
  intros HW Hheap Hs Hsz Hsz'. destruct (Hheap size) as (dst & Ha & Hl). set (flags := Z.lor _ _).
  assert (Hn : nonul s) by (eapply Forall_impl; [exact Hs|]; simpl; lia).
  set (t := escape_text W (fix_flags flags) segment_flags false s).
  assert (Ht : (length t <= 3 * length s)%nat) by (by apply escape_text_length).
  assert (Hinv : unescape_text false false t = s).
  { rewrite <- (map_id t). apply unescape_escape; try done. eapply Forall_impl; [exact Hs|]. intros c Hc. cbv beta in *.
    assert (Esh : shown segment_flags false c = c) by (unfold shown; by rewrite andb_false_r).
    rewrite Esh. unfold stops. split_and!; [lia| |done|done]. cbn. by rewrite !andb_false_r. }
  exists t, (t ++ 0 :: drop (S (length t)) out). split_and!; [|done|].
  - rewrite (UrlEscapeW_text W HW heap_alloc flags s rest out size dst) by (done || lia).
    change (escape_url W flags s) with t. by rewrite (proj2 (Nat.ltb_lt _ _)) by lia.
  - assert (Hnt : nonul t) by (by apply escape_text_nonul).
    unfold UrlUnescapeW. rewrite (url_unescape_out StrToInt16 StrToInt16_value 0) by (done || lia).
    change (flag 0 URL_DONT_UNESCAPE_EXTRA_INFO) with false. rewrite Hinv. by rewrite (proj2 (Nat.ltb_lt _ _)) by lia.
Qed.

(** ** Examples *)
Definition some_heap (n : nat) : option (list Z) := Some (replicate n 7).

Lemma some_heap_total : heap_total some_heap.
Proof. intros n. eexists. split; [done|]. apply length_replicate. Qed.

(** The bytes of characters below U+0080; other characters fail. *)
Definition ascii_utf8 (l : list Z) : list Z := match l with [c] => if c <? 0x80 then [c] else [] | _ => [] end.

Lemma ascii_utf8_length l : (length (ascii_utf8 l) <= 4)%nat.
Proof. destruct l as [|c [|d l]]; simpl; try destruct (c <? 128); simpl; lia. Qed.


Lemma UrlEscapeW_UrlUnescapeW_witness : exists t escaped,
  UrlEscapeW ascii_utf8 some_heap (Some (L "50% off" ++ [0])) (Some (replicate 30 1)) (Some 30%nat)
    (Z.lor URL_ESCAPE_SEGMENT_ONLY URL_ESCAPE_PERCENT) = Ok (S_OK, Some escaped, Some (length t)) /\
  escaped = t ++ 0 :: drop (S (length t)) (replicate 30 1) /\
  UrlUnescapeW (Some escaped) (Some (replicate 9 1)) (Some 9%nat) 0 =
    Ok (S_OK, Some escaped, Some (L "50% off" ++ 0 :: drop 8 (replicate 9 1)), Some 7%nat).
Proof.
  apply (UrlEscapeW_UrlUnescapeW ascii_utf8 some_heap (L "50% off") [] (replicate 30 1) 30 (replicate 9 1) 9);
    [apply ascii_utf8_length|apply some_heap_total|repeat constructor; cbv; done|simpl; lia|simpl; lia].
Defined.

(** A space is escaped, a percent sign only on request. *)
Example UrlEscapeW_spaces :
  UrlEscapeW ascii_utf8 some_heap (Some (L "a b%20" ++ [0])) (Some (replicate 9 1)) (Some 9%nat) 0 =
  Ok (S_OK, Some (L "a%20b%20" ++ [0]), Some 8%nat).
Proof. by vm_compute. Qed.

End UrlMain.
