(* ===== verification/UrlPath.v ===== *)
(** * File names and file URLs

    A file name on a drive becomes a file URL and comes back unchanged. *)
From Stdlib Require Import String.
From S2P Require Import Prelude PathCch PathCchSpec Path Url UrlSpec UrlEscapeSpec UrlMain.
Import PathCch Path Url UrlSpec UrlEscapeSpec UrlMain.

Module UrlPath.

(** ** Copies of strings *)
Lemma lstrcpyW_text b i v off s r : drop off v = s ++ 0 :: r -> nonul s -> (i + length s < length b)%nat ->
  lstrcpyW b i v off = Ok (take i b ++ s ++ 0 :: drop (i + S (length s)) b).
Proof.
  intros Hd Hs Hl. unfold lstrcpyW. rewrite (wcslen_drop v off s r), bind_ok by done.
  rewrite rd_list_Ok; [|apply (f_equal length) in Hd; rewrite length_drop, length_app in Hd; simpl in Hd; lia].
  rewrite bind_ok, Hd, cons_middle, app_assoc, take_app_length' by (rewrite length_app; simpl; lia).
  rewrite wr_list_Ok by (rewrite length_app; simpl; lia). rewrite length_app, <- app_assoc. by rewrite Nat.add_1_r.
Qed.

Lemma lstrcatW_text t rb v off s r : nonul t -> drop off v = s ++ 0 :: r -> nonul s -> (length s <= length rb)%nat ->
  lstrcatW (t ++ 0 :: rb) v off = Ok ((t ++ s) ++ 0 :: drop (length s) rb).
Proof.
  intros Ht Hd Hs Hl. unfold lstrcatW. rewrite (wcslen_drop _ 0 t rb), bind_ok by done.
  rewrite (lstrcpyW_text _ _ _ _ s r) by (done || rewrite length_app; simpl; lia).
  rewrite take_app_length, drop_app_add, <- app_assoc. done.
Qed.

(** ** From a URL *)
Definition tobs (c : Z) : Z := if c =? slash then bslash else c.

Lemma to_backslashes_text : forall fuel e t rest, (length e < fuel)%nat -> nonul e ->
  to_backslashes fuel (t ++ e ++ 0 :: rest) (length t) = Ok (t ++ map tobs e ++ 0 :: rest).
Proof.
  induction fuel as [|fuel IH]; intros e t rest Hf He; [lia|]. cbn [to_backslashes]. destruct e as [|c e]; cbn [app].
  - by rewrite rd_middle, bind_ok.
  - rewrite rd_middle, bind_ok by done. apply nonul_cons in He as [Hc He]. rewrite (proj2 (Z.eqb_neq c 0) Hc).
    assert (E : (if c =? slash then wr (t ++ c :: e ++ 0 :: rest) (length t) bslash else Ok (t ++ c :: e ++ 0 :: rest)) =
      Ok (t ++ tobs c :: e ++ 0 :: rest)) by (unfold tobs; destruct (c =? slash); [by rewrite wr_app|done]).
    rewrite E, bind_ok. cbn [map app]. rewrite (cons_middle (tobs c)), (cons_middle (tobs c) t (map tobs e ++ _)), !app_assoc.
    rewrite <- (app_assoc (t ++ [tobs c]) e), <- (app_assoc (t ++ [tobs c]) (map tobs e)).
    replace (S (length t)) with (length (t ++ [tobs c])) by (rewrite length_app; simpl; lia).
    apply IH; [simpl in Hf; lia|done].
Qed.

(** The last part, for a path that starts with a drive. *)
Lemma url_path_drive url src d e rest tpath s : isalpha d = true -> nonul (d :: colon :: e) ->
  drop src url = (d :: colon :: e) ++ 0 :: rest -> (length (d :: colon :: e) < length tpath)%nat -> nonul s ->
  unescape_text false false (map tobs (d :: colon :: e)) = s ->
  exists rest', url_path url tpath 0 src true = Ok (S_OK, s ++ 0 :: rest', length s) /\
    length (s ++ 0 :: rest') = length tpath.
Proof.
  intros Hd He Hdr Hl Hs Hun. unfold url_path. set (e1 := d :: colon :: e) in *.
  rewrite (wcslen_drop url src e1 rest), bind_ok by done. rewrite (lstrcpyW_text _ _ _ _ e1 rest), bind_ok by done.
  rewrite take_0, app_nil_l. cbn [Nat.add]. set (r1 := drop (S (length e1)) tpath).
  assert (Hr1 : length r1 = (length tpath - S (length e1))%nat) by apply length_drop.
  change (e1 ++ 0 :: r1) with ([] ++ e1 ++ 0 :: r1) at 2.
  rewrite (to_backslashes_text _ e1 [] r1) by (done || rewrite length_app; simpl; lia). rewrite bind_ok, app_nil_l.
  assert (Ed : tobs d = d) by (unfold tobs; destruct (Z.eqb_spec d slash) as [->|]; done).
  assert (Em : map tobs e1 = d :: colon :: map tobs e) by (unfold e1; cbn [map]; by rewrite Ed).
  rewrite Em. cbn [app]. unfold is_escaped_drive_spec. change (rd (d :: _) 0) with (Ok d). rewrite bind_ok, Hd.
  change (rd (d :: colon :: map tobs e ++ 0 :: r1) (0 + 1)) with (Ok colon). rewrite bind_ok, Z.eqb_refl. cbn [orb].
  rewrite bind_ok, wr_lt, bind_ok by (simpl; lia). cbn [insert list_insert].
  change (d :: colon :: map tobs e ++ 0 :: r1) with ((d :: colon :: map tobs e) ++ 0 :: r1). rewrite <- Em.
  assert (Hm : nonul (map tobs e1)).
  { apply Forall_map. eapply Forall_impl; [exact He|]. intros c Hc. unfold tobs. by destruct (c =? slash). }
  unfold UrlUnescapeW.
  destruct (url_unescape_inplace StrToInt16 StrToInt16_value URL_UNESCAPE_INPLACE (map tobs e1) r1 None (Some (0 + length e1)%nat))
    as (junk & Hj & E); [done|done|].
  change (flag URL_UNESCAPE_INPLACE URL_DONT_UNESCAPE_EXTRA_INFO) with false in *. rewrite Hun in Hj, E.
  cbn [Nat.add] in E. rewrite E, bind_ok. cbv zeta. cbn [default]. rewrite Z.eqb_refl, (wcslen_drop _ 0 s (junk ++ r1)), bind_ok by done.
  exists (junk ++ r1). split; [done|]. rewrite !length_app. cbn [length]. rewrite length_app, Hj, length_map.
  pose proof (unescape_text_length false (map tobs e1) false) as Hlen. rewrite Hun, length_map in Hlen. lia.
Qed.

(** A URL with three slashes and a drive. *)
Lemma PathCreateFromUrlW_drive heap_alloc d e rest s out size : heap_total heap_alloc -> isalpha d = true ->
  nonul (d :: colon :: e) -> nonul s -> unescape_text false false (map tobs (d :: colon :: e)) = s ->
  (length s < size <= length out)%nat ->
  exists rest', PathCreateFromUrlW heap_alloc (Some (L "file:///" ++ (d :: colon :: e) ++ 0 :: rest)) (Some out) (Some size) =
    Ok (S_OK, Some (s ++ 0 :: rest'), Some (length s)).
Proof.
  intros Hheap Hd He Hs Hun Hsz. set (e1 := d :: colon :: e) in *. set (u := L "file:///" ++ e1 ++ 0 :: rest).
  unfold PathCreateFromUrlW. rewrite (proj2 (Nat.eqb_neq size 0)) by lia.
  rewrite (starts_nocase_text (L "file:") ltac:(nonul_tac) (L "file:///" ++ e1) u 0 rest) by (unfold u; by rewrite <- app_assoc).
  rewrite bind_ok. change (take (length (L "file:")) (L "file:///" ++ e1)) with (L "file:").
  change (same_text (L "file:") (L "file:")) with true. cbn [negb].
  assert (H5 : drop 5 u = (L "///" ++ e1) ++ 0 :: rest) by done.
  assert (Hn5 : nonul (L "///" ++ e1)) by (apply nonul_app; split; [nonul_tac|done]).
  rewrite (skip_slash_run_span _ (L "///" ++ e1) u 5 rest) by (done || (unfold u; rewrite !length_app; simpl; lia)).
  assert (Hds : is_slash_or_bslash d = false).
  { unfold is_slash_or_bslash. destruct (Z.eqb_spec d slash) as [->|]; [done|]. by destruct (Z.eqb_spec d bslash) as [->|]. }
  assert (Hsp : length (fst (span is_slash_or_bslash (L "///" ++ e1))) = 3%nat) by (cbn; by rewrite Hds).
  rewrite Hsp, bind_ok, (wcslen_drop u 5 (L "///" ++ e1) rest), bind_ok by done. cbv zeta.
  set (n := length (L "///" ++ e1)). assert (Hn : n = (3 + length e1)%nat) by (unfold n; by rewrite length_app).
  assert (Htp : exists tpath, (if (size <? 2 + n + 1)%nat then heap_alloc (2 + n + 1)%nat else Some out) = Some tpath /\
    (length e1 < length tpath)%nat /\ ((size <? 2 + n + 1)%nat = false -> length tpath = length out)).
  { destruct (Nat.ltb_spec size (2 + n + 1)).
    - destruct (Hheap (2 + n + 1)%nat) as (b & -> & Hb). exists b. split_and!; [done|lia|done].
    - exists out. split_and!; [done|lia|done]. }
  destruct Htp as (tpath & -> & Hlt & Hno). change (5 + 3 - 5)%nat with 3%nat. change (5 + 3)%nat with 8%nat.
  cbn [url_prefix]. unfold is_escaped_drive_spec. assert (H8 : drop 8 u = e1 ++ 0 :: rest) by done.
  rewrite (rd_drop _ _ _ _ H8), bind_ok, Hd. rewrite (rd_drop _ (8 + 1) colon (e ++ 0 :: rest)), bind_ok by done.
  rewrite Z.eqb_refl. cbn [orb]. rewrite !bind_ok.
  destruct (url_path_drive u 8 d e rest tpath s Hd He H8 Hlt Hs Hun) as (r' & -> & Hlr). rewrite bind_ok.
  destruct (Nat.ltb_spec size (length s + 1)); [lia|]. destruct (size <? 2 + n + 1)%nat.
  - rewrite (lstrcpyW_text out 0 _ 0 s r'), bind_ok by (done || lia). rewrite take_0. by eexists.
  - rewrite bind_ok. by eexists.
Qed.

(** ** To a URL *)
Lemma drive_no_scheme d s : isalpha d = true -> split_scheme (d :: colon :: s) = None.
Proof.
  intros Hd. unfold split_scheme. cbn [span]. unfold is_scheme_char at 1, isalnum at 1. rewrite Hd. cbn [orb].
  change (is_scheme_char colon) with false. done.
Qed.

(** The flags in the loop of UrlEscapeW for a file name. *)
Definition path_flags : Z := fix_flags URL_ESCAPE_PERCENT.
Definition path_int_flags : Z := scheme_flags URL_SCHEME_FILE slash (extra_flags path_flags).

Lemma escape_url_file W d s : isalpha d = true ->
  escape_url W URL_ESCAPE_PERCENT (L "file:///" ++ d :: s) =
    L "file:///" ++ escape_text W path_flags path_int_flags false (d :: s).
Proof.
  intros Hd. unfold escape_url. fold path_flags. change (flag path_flags URL_ESCAPE_SEGMENT_ONLY) with false. cbv iota zeta.
  change (split_scheme (L "file:///" ++ d :: s)) with (Some (L "file", L "///" ++ d :: s)). cbv iota zeta.
  change (scheme_flags _ _ _) with path_int_flags. change (flag path_int_flags WINE_URL_COLLAPSE_SLASHES) with true. cbv iota.
  assert (Hds : is_slash_or_bslash d = false).
  { unfold is_slash_or_bslash. destruct (Z.eqb_spec d slash) as [->|]; [done|]. by destruct (Z.eqb_spec d bslash) as [->|]. }
  assert (E : collapse_text (L "///" ++ d :: s) = (L "///", d :: s)); [|by rewrite E].
  unfold collapse_text. assert (Es : span is_slash_or_bslash (L "///" ++ d :: s) = (L "///", d :: s)) by (cbn; by rewrite Hds).
  by rewrite Es.
Qed.

Lemma UrlCreateFromPathW_drive W heap_alloc d s rest out size : (forall l, (length (W l) <= 4)%nat) -> heap_total heap_alloc ->
  isalpha d = true -> nonul (d :: colon :: s) -> (3 * length (d :: colon :: s) + 8 < size <= length out)%nat ->
  let t := L "file:///" ++ escape_text W path_flags path_int_flags false (d :: colon :: s) in
  UrlCreateFromPathW W heap_alloc ((d :: colon :: s) ++ 0 :: rest) (Some out) (Some size) 0 =
    Ok (S_OK, Some (t ++ 0 :: drop (S (length t)) out), Some (length t)).
Proof.
  intros HW Hheap Hd Hs Hsz t. set (p := d :: colon :: s) in *. set (n := length p).
  assert (Ht : (length t <= 3 * n + 8)%nat).
  { unfold t. rewrite length_app. pose proof (escape_text_length W path_flags path_int_flags p eq_refl false).
    change (length (L "file:///")) with 8%nat. unfold n. lia. }
  unfold UrlCreateFromPathW. cbn [negb Z.eqb]. unfold url_create_from_path.
  rewrite ParseURLW_split by done. rewrite (drive_no_scheme d s Hd : split_scheme p = None), bind_ok.
  change (URL_E_INVALID_SYNTAX =? S_OK) with false. cbn [andb]. rewrite (wcslen_drop _ 0 p rest), bind_ok by done. fold n.
  destruct (Hheap (n + 9)%nat) as (b & -> & Hb).
  rewrite (lstrcpyW_text b 0 _ 0 (L "file:") []), bind_ok by (done || (change (length (L "file:")) with 5%nat; lia) || nonul_tac).
  rewrite take_0, app_nil_l. unfold is_drive_spec. change (rd _ 0) with (Ok d) at 1. rewrite bind_ok, Hd.
  change (rd _ (0 + 1)) with (Ok colon). rewrite bind_ok, Z.eqb_refl, bind_ok. set (b1 := drop _ b).
  assert (Hb1 : length b1 = (n + 3)%nat) by (unfold b1; rewrite length_drop; change (length (L "file:")) with 5%nat; lia).
  rewrite (lstrcatW_text (L "file:") b1 _ 0 (L "///") []), bind_ok
    by (done || (change (length (L "///")) with 3%nat; lia) || nonul_tac).
  rewrite (lstrcatW_text _ _ _ 0 p rest), bind_ok
    by (done || nonul_tac || (rewrite length_drop; change (length (L "///")) with 3%nat; fold n; lia)).
  change (L "file:" ++ L "///") with (L "file:///").
  destruct (Hheap size) as (dst & Ha & Hdst).
  rewrite (UrlEscapeW_text W HW heap_alloc URL_ESCAPE_PERCENT (L "file:///" ++ p) _ out size dst)
    by (done || lia || (apply nonul_app; split; [nonul_tac|done])).
  unfold p at 1 2 3 4 5. rewrite (escape_url_file W d (colon :: s) Hd). fold p t. rewrite (proj2 (Nat.ltb_lt _ _)) by lia.
  done.
Qed.

(** ** There and back *)
Lemma path_text_back W d s : isalpha d = true -> Forall (fun c => 0 < c < 2 ^ 16 /\ c <> slash /\ c <> qmark) s ->
  exists e, escape_text W path_flags path_int_flags false (d :: colon :: s) = d :: colon :: e /\
    unescape_text false false (map tobs (d :: colon :: e)) = d :: colon :: s.
Proof.
  intros Hd Hs. assert (Hk : forall c s, is_scheme_char c = true \/ c = colon ->
    escape_text W path_flags path_int_flags false (c :: s) = c :: escape_text W path_flags path_int_flags false s).
  { intros c s0 Hc. pose proof (escape_text_head W path_flags path_int_flags false c s0) as H.
    by rewrite (scheme_char_kept W path_flags path_int_flags c Hc) in H. }
  assert (Hsc : is_scheme_char d = true) by (unfold is_scheme_char, isalnum; by rewrite Hd).
  exists (escape_text W path_flags path_int_flags false s).
  rewrite <- (Hk colon s) by (by right). rewrite <- (Hk d) by (by left). split; [done|].
  assert (Hgood : forall c, 0 < c < 2 ^ 16 /\ c <> slash /\ c <> qmark -> 0 <= c /\ stops path_int_flags false c = false /\
    (url_needs_escape (shown path_int_flags false c) path_flags path_int_flags = true -> shown path_int_flags false c = c) /\
    tobs (shown path_int_flags false c) = c).
  { intros c (? & Hsl & Hq). split; [lia|]. unfold stops, shown, tobs. cbn. rewrite andb_false_r.
    rewrite (proj2 (Z.eqb_neq c qmark)) by done. split; [done|]. rewrite !andb_true_r.
    destruct (Z.eqb_spec c bslash) as [->|]; [done|]. split; [done|]. by rewrite (proj2 (Z.eqb_neq c slash)). }
  apply unescape_escape; try done.
  - intros c Hc. unfold tobs. by rewrite (proj2 (Z.eqb_neq c slash)).
  - assert (Hdr : 0 < d < 2 ^ 16 /\ d <> slash /\ d <> qmark).
    { unfold isalpha in Hd. split; [lia|]. split; intros ->; done. }
    constructor; [by apply Hgood|]. constructor; [apply Hgood; unfold colon, slash, qmark; lia|].
    eapply Forall_impl; [exact Hs|]. intros c Hc. by apply Hgood.
Qed.

(** C27. Round trip: a file name on a drive, of any 16-bit units but the slash
    and the question mark that file names cannot hold, becomes a file URL
    that PathCreateFromUrlW turns back into the same file name. *)
Theorem path_url_roundtrip W heap_alloc d s rest url url_size path path_size :
  (forall l, (length (W l) <= 4)%nat) -> heap_total heap_alloc -> isalpha d = true ->
  Forall (fun c => 0 < c < 2 ^ 16 /\ c <> slash /\ c <> qmark) s ->
  let p := d :: colon :: s in
  (3 * length p + 8 < url_size <= length url)%nat -> (length p < path_size <= length path)%nat ->
  exists url' len rest',
    UrlCreateFromPathW W heap_alloc (p ++ 0 :: rest) (Some url) (Some url_size) 0 = Ok (S_OK, Some url', Some len) /\
    PathCreateFromUrlW heap_alloc (Some url') (Some path) (Some path_size) = Ok (S_OK, Some (p ++ 0 :: rest'), Some (length p)).
Proof.
  intros HW Hheap Hd Hs p Hu Hp. assert (Hns : nonul s) by (eapply Forall_impl; [exact Hs|]; simpl; lia).
  assert (Hnp : nonul p) by (unfold p; repeat constructor; [by intros ->|done|done]).
  destruct (path_text_back W d s Hd Hs) as (e & He & Hback).
  destruct (PathCreateFromUrlW_drive heap_alloc d e
    (drop (S (length (L "file:///" ++ d :: colon :: e))) url) p path path_size) as (rest' & E); try done.
  { rewrite <- He. by apply escape_text_nonul. }
  eexists _, _, rest'. split; [by apply UrlCreateFromPathW_drive|]. rewrite He. by rewrite <- app_assoc.
Qed.

Lemma path_url_roundtrip_witness : exists url' len rest',
  UrlCreateFromPathW ascii_utf8 some_heap (L "c:\d e%#" ++ [0]) (Some (replicate 40 1)) (Some 40%nat) 0 =
    Ok (S_OK, Some url', Some len) /\
  PathCreateFromUrlW some_heap (Some url') (Some (replicate 12 1)) (Some 12%nat) =
    Ok (S_OK, Some (L "c:\d e%#" ++ 0 :: rest'), Some 8%nat).
Proof.
  apply (path_url_roundtrip ascii_utf8 some_heap 99 (L "\d e%#") [] (replicate 40 1) 40 (replicate 12 1) 12);
    [apply ascii_utf8_length|apply some_heap_total|done|repeat constructor; cbv; done|simpl; lia|simpl; lia].
Defined.

Example UrlCreateFromPathW_example :
  UrlCreateFromPathW ascii_utf8 some_heap (L "c:\d e%#" ++ [0]) (Some (replicate 25 1)) (Some 25%nat) 0 =
  Ok (S_OK, Some (L "file:///c:/d%20e%25%23" ++ [0; 1; 1]), Some 22%nat).
Proof. by vm_compute. Qed.

End UrlPath.
