(* ===== verification/UrlParts.v ===== *)
(** * The parts of a URL (oca/extensions/kernelex/path.c)

    parse_url and UrlGetPart, the tests UrlIs, UrlCompare, UrlGetLocation,
    UrlFixup, and HashData.  The pointers of [parsed_url] are positions in the
    URL, [None] when null. *)
From Stdlib Require Import String.
From S2P Require Import Prelude PathCch Path Url.
Import PathCch Path Url.

Module UrlParts.

Definition URL_PART_SCHEME := 1.
Definition URL_PART_HOSTNAME := 2.
Definition URL_PART_USERNAME := 3.
Definition URL_PART_PASSWORD := 4.
Definition URL_PART_PORT := 5.
Definition URL_PART_QUERY := 6.
Definition URL_PARTFLAG_KEEPSCHEME := 1.

Record parsed_url := Pl {
  scheme : option nat; scheme_len : nat;
  username : option nat; username_len : nat;
  password : option nat; password_len : nat;
  hostname : option nat; hostname_len : nat;
  port : option nat; port_len : nat;
  query : option nat; query_len : nat;
  scheme_number : Z }.

Fixpoint parse_scheme_loop (fuel : nat) (url : list Z) (p : nat) : outcome nat :=
  match fuel with
  | O => NoFuel
  | S fuel =>
    c ← rd url p;
    if isalnum c || (c =? 43) || (c =? 45) || (c =? dot) then parse_scheme_loop fuel url (S p) else Ok p
  end.

Definition parse_scheme (url : list Z) (p : nat) : outcome nat := parse_scheme_loop (S (length url)) url p.

(** [wcspbrk( url, separators )], or the end of the string *)
Fixpoint element_loop (fuel : nat) (url : list Z) (p : nat) (separators : list Z) : outcome nat :=
  match fuel with
  | O => NoFuel
  | S fuel =>
    c ← rd url p;
    if (c =? 0) || one_of c separators then Ok p else element_loop fuel url (S p) separators
  end.

Definition parse_url_element (url : list Z) (p : nat) (separators : list Z) : outcome nat :=
  element_loop (S (length url)) url p separators.

(** The argument is a [char]: the low byte of a wide character. *)
Definition is_slash (c : Z) : bool := (u8 c =? slash) || (u8 c =? bslash).

(** [wcschr( url + p, '?' )] and the characters behind it. *)
Definition parse_query (url : list Z) (work : nat) (pl : parsed_url) : outcome parsed_url :=
  q ← strchr nextW url work qmark;
  match q with
  | None => Ok pl
  | Some q =>
    n ← wcslen url (S q);
    Ok (Pl (scheme pl) (scheme_len pl) (username pl) (username_len pl) (password pl) (password_len pl)
           (hostname pl) (hostname_len pl) (port pl) (port_len pl) (Some (S q)) n (scheme_number pl))
  end.

(** The user name and the password: [pl->username], [pl->username_len],
    [pl->password], [pl->password_len] and [work]. *)
Definition parse_credentials (url : list Z) (work : nat) : outcome (option nat * nat * option nat * nat * nat) :=
  user_end ← parse_url_element url work (L ":@/\?#");
  c ← rd url user_end;
  if c =? colon then
    pass_end ← parse_url_element url (S user_end) (L "@/\?#");
    c ← rd url pass_end;
    if c =? at_sign
    then Ok (Some work, (user_end - work)%nat, Some (S user_end), (pass_end - S user_end)%nat, S pass_end)
    else Ok (None, 0%nat, None, 0%nat, work)
  else if c =? at_sign then Ok (Some work, (user_end - work)%nat, None, 0%nat, S user_end)
  else Ok (None, 0%nat, None, 0%nat, work).

(** From the host name on. *)
Definition parse_host (url : list Z) (number : Z) (slen : nat) (cred : option nat * nat * option nat * nat * nat)
    : outcome parsed_url :=
  let '(user, ulen, pass, plen, work) := cred in
  let host := work in
  if number =? URL_SCHEME_FILE then
    work ← parse_url_element url host (L "/\?#");
    let hlen := (work - host)%nat in
    drive ← (if (2 <=? hlen)%nat then c ← rd url (S host); Ok (c =? colon) else Ok false);
    let hlen := if drive : bool then 0%nat else hlen in
    parse_query url work (Pl (Some 0%nat) slen user ulen pass plen (Some host) hlen None 0 None 0 number)
  else
    work ← parse_url_element url host (L ":/\?#");
    let hlen := (work - host)%nat in
    c ← rd url work;
    if c =? colon then
      let port := S work in
      work ← parse_url_element url port (L "/\?#");
      parse_query url work (Pl (Some 0%nat) slen user ulen pass plen (Some host) hlen (Some port) (work - port) None 0 number)
    else parse_query url work (Pl (Some 0%nat) slen user ulen pass plen (Some host) hlen None 0 None 0 number).

Definition parse_url (url : list Z) : outcome parsed_url :=
  let none number slen := Pl (Some 0%nat) slen None 0 None 0 None 0 None 0 None 0 number in
  work ← parse_scheme url 0;
  c ← rd url work;
  if (work <? 2)%nat || negb (c =? colon) then Ok (none 0 0%nat)
  else
    let slen := work in
    number ← get_scheme_code url slen;
    c0 ← rd url (work + 1);
    two ← (if is_slash c0 then c1 ← rd url (work + 2); Ok (is_slash c1) else Ok false);
    if negb two then Ok (none (if number =? URL_SCHEME_FILE then number else URL_SCHEME_UNKNOWN) slen)
    else
      let work := (work + 3)%nat in
      cred ← (if number =? URL_SCHEME_FILE then Ok (None, 0%nat, None, 0%nat, work) else parse_credentials url work);
      parse_host url number slen cred.

(** The schemes with all parts. *)
Definition full_schemes : list Z :=
  [URL_SCHEME_FTP; URL_SCHEME_GOPHER; URL_SCHEME_HTTP; URL_SCHEME_HTTPS; URL_SCHEME_TELNET; URL_SCHEME_NEWS;
   URL_SCHEME_NNTP; URL_SCHEME_SNEWS].

(** The first [switch] returns E_FAIL. *)
Definition part_refused (number part : Z) : bool :=
  if one_of number full_schemes then false
  else if number =? URL_SCHEME_FILE then negb (one_of part [URL_PART_SCHEME; URL_PART_QUERY; URL_PART_HOSTNAME])
  else negb (one_of part [URL_PART_SCHEME; URL_PART_QUERY]).

(** The second [switch]: [addr], [size] and [flags], or E_INVALIDARG. *)
Definition select_part (pl : parsed_url) (part flags : Z) : option (option nat * nat * Z) :=
  let no_scheme := Z.land flags (Z.lnot URL_PARTFLAG_KEEPSCHEME) in
  let present p n := match p with None => None | Some _ => Some (p, n, flags) end in
  if part =? URL_PART_SCHEME then Some (scheme pl, scheme_len pl, no_scheme)
  else if part =? URL_PART_HOSTNAME then Some (hostname pl, hostname_len pl, flags)
  else if part =? URL_PART_USERNAME then present (username pl) (username_len pl)
  else if part =? URL_PART_PASSWORD then present (password pl) (password_len pl)
  else if part =? URL_PART_PORT then present (port pl) (port_len pl)
  else if part =? URL_PART_QUERY then Some (query pl, query_len pl, no_scheme)
  else None.

(** The [size] characters at [addr], which may be null when [size] is 0. *)
Definition part_text (url : list Z) (addr : option nat) (size : nat) : outcome (list Z) :=
  match addr with Some p => rd_list url p size | None => if (size =? 0)%nat then Ok [] else Fault end.

(** [tolower] of a character *)
Definition tolower (c : Z) : Z := lower c.

(** The results are the status, [out] and [out_len]. *)
Definition UrlGetPartW (url out : option (list Z)) (out_len : option nat) (part flags : Z)
    : outcome (Z * option (list Z) * option nat) :=
  match url, out, out_len with
  | Some u, Some o, Some len =>
    if (len =? 0)%nat then Ok (E_INVALIDARG, out, out_len)
    else
      pl ← parse_url u;
      if part_refused (scheme_number pl) part then Ok (E_FAIL, out, out_len)
      else
        match select_part pl part flags with
        | None => Ok (E_INVALIDARG, out, out_len)
        | Some (addr, size, flags) =>
          if (flags =? URL_PARTFLAG_KEEPSCHEME) && negb (scheme_number pl =? URL_SCHEME_FILE) then
            if (scheme_len pl =? 0)%nat then Ok (E_FAIL, out, out_len)
            else if (len <? scheme_len pl + size + 2)%nat then Ok (E_POINTER, out, Some (scheme_len pl + size + 2)%nat)
            else
              s ← part_text u (scheme pl) (scheme_len pl);
              v ← part_text u addr size;
              o ← wr_list o 0 s;
              o ← wr o (scheme_len pl) colon;
              o ← wr_list o (scheme_len pl + 1) v;
              o ← wr o (scheme_len pl + 1 + size) 0;
              Ok (S_OK, Some o, Some (scheme_len pl + 1 + size)%nat)
          else if (len <? size + 1)%nat then Ok (E_POINTER, out, Some (size + 1)%nat)
          else
            v ← part_text u addr size;
            o ← wr_list o 0 (if part =? URL_PART_SCHEME then map tolower v else v);
            o ← wr o size 0;
            Ok (S_OK, Some o, Some size)
        end
  | _, _, _ => Ok (E_INVALIDARG, out, out_len)
  end.

(** ** Tests on URLs *)
Definition URLIS_URL := 0.
Definition URLIS_OPAQUE := 1.
Definition URLIS_NOHISTORY := 2.
Definition URLIS_FILEURL := 3.
Definition URLIS_DIRECTORY := 5.

Definition opaque_schemes : list Z :=
  [URL_SCHEME_MAILTO; URL_SCHEME_SHELL; URL_SCHEME_JAVASCRIPT; URL_SCHEME_VBSCRIPT; URL_SCHEME_ABOUT].

(** Both versions, with the functions that differ as arguments. *)
Definition url_is (parse : list Z -> PARSEDURL -> outcome (Z * PARSEDURL)) (is_file : list Z -> outcome bool)
    (path_is_url : option (list Z) -> outcome bool) (url : option (list Z)) (Urlis : Z) : outcome bool :=
  match url with
  | None => Ok false
  | Some u =>
    if Urlis =? URLIS_OPAQUE then
      '(hr, base) ← parse u new_PARSEDURL;
      Ok ((hr =? S_OK) && one_of (nScheme base) opaque_schemes)
    else if Urlis =? URLIS_FILEURL then is_file u
    else if Urlis =? URLIS_DIRECTORY then
      n ← wcslen u 0;
      if (n =? 0)%nat then Ok false else c ← rd u (n - 1); Ok (is_slash_or_bslash c)
    else if Urlis =? URLIS_URL then path_is_url url
    else Ok false
  end.

Definition UrlIsW := url_is ParseURLW (fun u => starts_nocase u 0 (L "file:")) PathIsURLW.

Definition UrlIsOpaqueW (url : option (list Z)) : outcome bool := UrlIsW url URLIS_OPAQUE.

Definition UrlIsNoHistoryW (url : option (list Z)) : outcome bool := UrlIsW url URLIS_NOHISTORY.

(** [wcsncmp( url1, url2, n )], as a sign *)
Fixpoint strncmp (url1 url2 : list Z) (i n : nat) : outcome Z :=
  match n with
  | O => Ok 0
  | S n =>
    c1 ← rd url1 i;
    c2 ← rd url2 i;
    if c1 =? c2 then if c1 =? 0 then Ok 0 else strncmp url1 url2 (S i) n
    else Ok (if c1 <? c2 then -1 else 1)
  end.

(** [len = lstrlenW(url); if (url[len-1] == '/') len--] *)
Definition length_without_slash (url : list Z) : outcome nat :=
  n ← wcslen url 0;
  if (n =? 0)%nat then Fault else c ← rd url (n - 1); Ok (if c =? slash then (n - 1)%nat else n).

(** Both versions; [compare]: the comparison of whole strings. *)
Definition url_compare (compare : list Z -> list Z -> outcome Z) (url1 url2 : list Z) (ignore_slash : bool) : outcome Z :=
  if negb ignore_slash then compare url1 url2
  else
    len1 ← length_without_slash url1;
    len2 ← length_without_slash url2;
    if (len1 =? len2)%nat then strncmp url1 url2 0 len1
    else
      ret ← strncmp url1 url2 0 (Nat.min len1 len2);
      Ok (if negb (ret =? 0) then ret else if (len2 <? len1)%nat then 1 else -1).

(** [strcmp] *)
Definition strcmp (url1 url2 : list Z) : outcome Z := strncmp url1 url2 0 (length url1).

Definition UrlCompareA := url_compare strcmp.

(** kernel32: the comparison lstrcmpW depends on the locale. *)
Definition UrlCompareW (lstrcmpW : list Z -> list Z -> Z) := url_compare (fun u v => Ok (lstrcmpW u v)).

Definition UrlFixupW (url : option (list Z)) (translatedUrl : list Z) (maxChars : nat) : outcome (Z * list Z) :=
  match url with
  | None => Ok (E_FAIL, translatedUrl)
  | Some u =>
    n ← wcslen u 0;
    let count := if (maxChars <? n + 1)%nat then maxChars else (n + 1)%nat in
    t ← (if (count =? 0)%nat then Ok translatedUrl else lstrcpynW translatedUrl u 0 count);
    Ok (S_OK, t)
  end.

(** Both versions of UrlGetLocation. *)
Definition url_get_location (parse : list Z -> PARSEDURL -> outcome (Z * PARSEDURL)) (url : list Z) : outcome (option nat) :=
  '(hr, base) ← parse url new_PARSEDURL;
  if negb (hr =? S_OK) then Ok None
  else
    file ← starts url 0 (take (Nat.min 4 (cchProtocol base)) (L "file"));
    if file : bool then Ok None else strchr nextW url (pszSuffix base) hash.

Definition UrlGetLocationW := url_get_location ParseURLW.

Section Byte.
(** kernel32, as in [Path]: the conversions store the result in a buffer and
    return a count; the comparison with file: ignores case. *)
Context (MultiByteToWideCharN : list Z -> list Z).
Context (MultiByteToWideChar : list Z -> list Z -> outcome (Z * list Z)).
Context (WideCharToMultiByteN : list Z -> list Z).
Context (is_file_url : list Z -> bool).
Context (heap_alloc : nat -> option (list Z)).

Definition UrlIsA :=
  url_is (ParseURLA MultiByteToWideCharN) (fun u => Ok (is_file_url u)) (PathIsURLA MultiByteToWideCharN).

Definition UrlIsOpaqueA (url : option (list Z)) : outcome bool := UrlIsA url URLIS_OPAQUE.

Definition UrlIsNoHistoryA (url : option (list Z)) : outcome bool := UrlIsA url URLIS_NOHISTORY.

Definition UrlGetLocationA := url_get_location (ParseURLA MultiByteToWideCharN).

(** [inW] and [outW] are the halves of one block. *)
Definition UrlGetPartA (url out : option (list Z)) (out_len : option nat) (part flags : Z)
    : outcome (Z * option (list Z) * option nat) :=
  match url, out, out_len with
  | Some u, Some o, Some len =>
    if (len =? 0)%nat then Ok (E_INVALIDARG, out, out_len)
    else
      match heap_alloc (2 * INTERNET_MAX_URL_LENGTH) with
      | None => Fault
      | Some b =>
        '(_, inW) ← MultiByteToWideChar u (take INTERNET_MAX_URL_LENGTH b);
        '(hr, outW, lenW) ←
          UrlGetPartW (Some inW) (Some (drop INTERNET_MAX_URL_LENGTH b)) (Some INTERNET_MAX_URL_LENGTH) part flags;
        if FAILED hr then Ok (hr, out, out_len)
        else
          v ← rd_list (default [] outW) 0 (default 0%nat lenW + 1);
          let a := WideCharToMultiByteN v in
          if (len <? length a)%nat then Ok (E_POINTER, out, Some (length a))
          else
            o ← wr_list o 0 a;
            Ok (if (hr =? S_OK) && (length a - 1 =? 0)%nat then S_FALSE else hr, Some o, Some (length a - 1)%nat)
      end
  | _, _, _ => Ok (E_INVALIDARG, out, out_len)
  end.

End Byte.

(** ** HashData

    The lengths are at most 2^31: the counters of the loops are [INT]s. *)
Definition hashdata_lookup : list Z := [
    0x01; 0x0e; 0x6e; 0x19; 0x61; 0xae; 0x84; 0x77; 0x8a; 0xaa; 0x7d; 0x76; 0x1b; 0xe9; 0x8c; 0x33;
    0x57; 0xc5; 0xb1; 0x6b; 0xea; 0xa9; 0x38; 0x44; 0x1e; 0x07; 0xad; 0x49; 0xbc; 0x28; 0x24; 0x41;
    0x31; 0xd5; 0x68; 0xbe; 0x39; 0xd3; 0x94; 0xdf; 0x30; 0x73; 0x0f; 0x02; 0x43; 0xba; 0xd2; 0x1c;
    0x0c; 0xb5; 0x67; 0x46; 0x16; 0x3a; 0x4b; 0x4e; 0xb7; 0xa7; 0xee; 0x9d; 0x7c; 0x93; 0xac; 0x90;
    0xb0; 0xa1; 0x8d; 0x56; 0x3c; 0x42; 0x80; 0x53; 0x9c; 0xf1; 0x4f; 0x2e; 0xa8; 0xc6; 0x29; 0xfe;
    0xb2; 0x55; 0xfd; 0xed; 0xfa; 0x9a; 0x85; 0x58; 0x23; 0xce; 0x5f; 0x74; 0xfc; 0xc0; 0x36; 0xdd;
    0x66; 0xda; 0xff; 0xf0; 0x52; 0x6a; 0x9e; 0xc9; 0x3d; 0x03; 0x59; 0x09; 0x2a; 0x9b; 0x9f; 0x5d;
    0xa6; 0x50; 0x32; 0x22; 0xaf; 0xc3; 0x64; 0x63; 0x1a; 0x96; 0x10; 0x91; 0x04; 0x21; 0x08; 0xbd;
    0x79; 0x40; 0x4d; 0x48; 0xd0; 0xf5; 0x82; 0x7a; 0x8f; 0x37; 0x69; 0x86; 0x1d; 0xa4; 0xb9; 0xc2;
    0xc1; 0xef; 0x65; 0xf2; 0x05; 0xab; 0x7e; 0x0b; 0x4a; 0x3b; 0x89; 0xe4; 0x6c; 0xbf; 0xe8; 0x8b;
    0x06; 0x18; 0x51; 0x14; 0x7f; 0x11; 0x5b; 0x5c; 0xfb; 0x97; 0xe1; 0xcf; 0x15; 0x62; 0x71; 0x70;
    0x54; 0xe2; 0x12; 0xd6; 0xc7; 0xbb; 0x0d; 0x20; 0x5e; 0xdc; 0xe0; 0xd4; 0xf7; 0xcc; 0xc4; 0x2b;
    0xf9; 0xec; 0x2d; 0xf4; 0x6f; 0xb6; 0x99; 0x88; 0x81; 0x5a; 0xd9; 0xca; 0x13; 0xa5; 0xe7; 0x47;
    0xe6; 0x8e; 0x60; 0xe3; 0x3e; 0xb3; 0xf6; 0x72; 0xa2; 0x35; 0xa0; 0xd7; 0xcd; 0xb4; 0x2f; 0x6d;
    0x2c; 0x26; 0x1f; 0x95; 0x87; 0x00; 0xd8; 0x34; 0x3f; 0x17; 0x25; 0x45; 0x27; 0x75; 0x92; 0xb8;
    0xa3; 0xc8; 0xde; 0xeb; 0xf8; 0xf3; 0xdb; 0x0a; 0x98; 0x83; 0x7b; 0xe5; 0xcb; 0x4c; 0x78; 0xd1].

(** [while (dest_count >= 0)], for [dest_count] from [n - 1] down to 0 *)
Fixpoint hash_init (n : nat) (dest : list Z) : outcome (list Z) :=
  match n with
  | O => Ok dest
  | S n => dest ← wr dest n (Z.land (Z.of_nat n) 0xff); hash_init n dest
  end.

Fixpoint hash_round (n : nat) (c : Z) (dest : list Z) : outcome (list Z) :=
  match n with
  | O => Ok dest
  | S n =>
    h ← rd dest n;
    v ← rd hashdata_lookup (Z.to_nat (Z.lxor c h));
    dest ← wr dest n v;
    hash_round n c dest
  end.

Fixpoint hash_loop (src_count : nat) (src dest : list Z) (dest_len : nat) : outcome (list Z) :=
  match src_count with
  | O => Ok dest
  | S src_count => c ← rd src src_count; dest ← hash_round dest_len c dest; hash_loop src_count src dest dest_len
  end.

Definition HashData (src : option (list Z)) (src_len : nat) (dest : option (list Z)) (dest_len : nat)
    : outcome (Z * option (list Z)) :=
  match src, dest with
  | Some s, Some d =>
    d ← hash_init dest_len d;
    d ← hash_loop src_len s d dest_len;
    Ok (S_OK, Some d)
  | _, _ => Ok (E_INVALIDARG, dest)
  end.

End UrlParts.
