(* ===== verification/UrlCanon.v ===== *)
(** * Canonicalisation of URLs (oca/extensions/kernelex/path.c)

    UrlCanonicalize as the state machine of the source on the arrays [url]
    (the input without tabs) and [url_copy] (the output).
    The position [wk1] walks through [url], [wk2] through [url_copy]. *)
From Stdlib Require Import String.
From S2P Require Import Prelude PathCch Path Url.
Import PathCch Path Url.

Module UrlCanon.

Definition tab : Z := 9.

(** ** Copying without tabs *)

(** [do { while ( *wk1 == '\t') wk1++; *wk2++ = *wk1; } while ( *wk1++)]: [url]
    and the number of characters with the terminator. *)
Fixpoint remove_tabs (fuel : nat) (src url : list Z) (wk1 wk2 : nat) : outcome (list Z * nat) :=
  match fuel with
  | O => NoFuel
  | S fuel =>
    c ← rd src wk1;
    if c =? tab then remove_tabs fuel src url (S wk1) wk2
    else
      url ← wr url wk2 c;
      if c =? 0 then Ok (url, S wk2) else remove_tabs fuel src url (S wk1) (S wk2)
  end.

(** [wcsrchr( b + off, ch )] *)
Fixpoint strrchr_loop (fuel : nat) (b : list Z) (off : nat) (ch : Z) (last : option nat) : outcome (option nat) :=
  match fuel with
  | O => NoFuel
  | S fuel =>
    c ← rd b off;
    if c =? 0 then Ok last else strrchr_loop fuel b (S off) ch (if c =? ch then Some off else last)
  end.

Definition strrchr (b : list Z) (off : nat) (ch : Z) : outcome (option nat) := strrchr_loop (S (length b)) b off ch None.

(** [if (mp2 && (!mp || mp2 < mp)) mp = mp2] *)
Definition first_of (mp mp2 : option nat) : option nat :=
  match mp, mp2 with
  | Some p, Some p2 => if (p2 <? p)%nat then mp2 else mp
  | None, _ => mp2
  | _, None => mp
  end.

Section Machine.
(** The variables that the state machine only reads. *)
Context (flags slash_char : Z) (is_file_url : bool) (nLen : nat) (url : list Z).

Definition use_pathurl : bool := flag flags URL_FILE_USE_PATHURL.
Definition wininet : bool := flag flags URL_WININET_COMPATIBILITY.

(** [*wk2++ = c] *)
Definition put (copy : list Z) (wk2 : nat) (c : Z) : outcome (list Z * nat) := copy ← wr copy wk2 c; Ok (copy, S wk2).

(** [if (slash) *wk2++ = slash; else *wk2++ = c] *)
Definition put_slash (copy : list Z) (wk2 : nat) (c : Z) : outcome (list Z * nat) :=
  put copy wk2 (if slash_char =? 0 then c else slash_char).

(** [while ( *p == ch) p++] *)
Fixpoint skip_run (fuel : nat) (ch : Z) (p : nat) : outcome nat :=
  match fuel with
  | O => NoFuel
  | S fuel => c ← rd url p; if c =? ch then skip_run fuel ch (S p) else Ok p
  end.

(** A state of the machine: [state], [url_copy], [wk1] and [wk2]. *)
Definition mstate : Type := nat * list Z * nat * nat.

Definition case0 (copy : list Z) (wk1 wk2 : nat) : outcome mstate :=
  c ← rd url wk1;
  if negb (isalnum c) then Ok (3%nat, copy, wk1, wk2)
  else
    '(copy, wk2) ← put copy wk2 c;
    c ← rd url (S wk1);
    if negb (isalnum c) then Ok (3%nat, copy, S wk1, wk2)
    else '(copy, wk2) ← put copy wk2 c; Ok (1%nat, copy, (wk1 + 2)%nat, wk2).

Definition case1 (copy : list Z) (wk1 wk2 : nat) : outcome mstate :=
  c ← rd url wk1;
  '(copy, wk2) ← put copy wk2 c;
  Ok (if c =? colon then 2%nat else 1%nat, copy, S wk1, wk2).

(** [*wk1 == '/' && *(wk1 + 1) != '/'] *)
Definition single_slash (wk1 : nat) : outcome bool :=
  c ← rd url wk1;
  if c =? slash then c1 ← rd url (S wk1); Ok (isnt c1 slash) else Ok false.

(** The slashes of a file URL: [url_copy], [wk1] and [wk2]. *)
Definition file_slashes (copy : list Z) (wk1 wk2 : nat) : outcome (list Z * nat * nat) :=
  body ← skip_run (S (length url)) slash wk1;
  drive ← is_drive_spec url body;
  '(copy, wk2) ←
    (if drive : bool then
       if wininet || use_pathurl then Ok (copy, wk2) else put_slash copy wk2 slash
     else
       single ← single_slash wk1;
       if wininet then
         '(copy, wk2) ← put copy wk2 bslash;
         if single : bool then Ok (copy, wk2) else put copy wk2 bslash
       else if single : bool then put_slash copy wk2 slash else Ok (copy, wk2));
  Ok (copy, body, wk2).

Definition case2 (copy : list Z) (wk1 wk2 : nat) : outcome mstate :=
  c ← rd url wk1;
  '(copy, wk2) ← put copy wk2 c;
  let wk1 := S wk1 in
  c ← rd url wk1;
  if negb (c =? slash) then Ok (6%nat, copy, wk1, wk2)
  else
    '(copy, wk2) ← put copy wk2 c;
    let wk1 := S wk1 in
    localhost ← (if use_pathurl && (9 <=? nLen)%nat && is_file_url then starts url wk1 (L "localhost") else Ok false);
    wk1 ← (if localhost : bool then skip_run (S (length url)) bslash (wk1 + 9) else Ok wk1);
    c ← rd url wk1;
    if (c =? slash) && use_pathurl then Ok (4%nat, copy, S wk1, wk2)
    else if is_file_url then '(copy, wk1, wk2) ← file_slashes copy wk1 wk2; Ok (4%nat, copy, wk1, wk2)
    else Ok (4%nat, copy, wk1, wk2).

(** [while (mp < wk2) { if ( *mp == '/' || *mp == '\\') *mp = slash; mp++; }] *)
Fixpoint set_slashes (n : nat) (copy : list Z) (mp : nat) : outcome (list Z) :=
  match n with
  | O => Ok copy
  | S n =>
    c ← rd copy mp;
    copy ← (if is_slash_or_bslash c then wr copy mp slash_char else Ok copy);
    set_slashes n copy (S mp)
  end.

(** The rest of the string, with its terminator. *)
Definition copy_rest (copy : list Z) (wk1 wk2 : nat) : outcome (list Z * nat) :=
  n ← wcslen url wk1;
  v ← rd_list url wk1 (S n);
  copy ← wr_list copy wk2 v;
  Ok (copy, n).

Definition case3 (copy : list Z) (wk1 wk2 : nat) : outcome mstate :=
  '(copy, n) ← copy_rest copy wk1 wk2;
  copy ← (if slash_char =? 0 then Ok copy else set_slashes n copy wk2);
  Ok (3%nat, copy, (wk1 + n)%nat, (wk2 + n)%nat).

Definition is_host_char (c : Z) : bool := isalnum c || (c =? 45) || (c =? dot) || (c =? colon).

Fixpoint copy_host (fuel : nat) (copy : list Z) (wk1 wk2 : nat) : outcome (list Z * nat * nat) :=
  match fuel with
  | O => NoFuel
  | S fuel =>
    c ← rd url wk1;
    if is_host_char c then '(copy, wk2) ← put copy wk2 c; copy_host fuel copy (S wk1) wk2
    else Ok (copy, wk1, wk2)
  end.

Definition case4 (copy : list Z) (wk1 wk2 : nat) : outcome mstate :=
  c ← rd url wk1;
  if negb (is_host_char c) then Ok (3%nat, copy, wk1, wk2)
  else
    '(copy, wk1, wk2) ← copy_host (S (length url)) copy wk1 wk2;
    c ← rd url wk1;
    if c =? 0 then '(copy, wk2) ← put_slash copy wk2 slash; Ok (5%nat, copy, wk1, wk2)
    else Ok (5%nat, copy, wk1, wk2).

Fixpoint copy_slashes (fuel : nat) (copy : list Z) (wk1 wk2 : nat) : outcome (list Z * nat * nat) :=
  match fuel with
  | O => NoFuel
  | S fuel =>
    c ← rd url wk1;
    if is_slash_or_bslash c then '(copy, wk2) ← put_slash copy wk2 c; copy_slashes fuel copy (S wk1) wk2
    else Ok (copy, wk1, wk2)
  end.

Definition case5 (copy : list Z) (wk1 wk2 : nat) : outcome mstate :=
  c ← rd url wk1;
  if negb (is_slash_or_bslash c) then Ok (3%nat, copy, wk1, wk2)
  else '(copy, wk1, wk2) ← copy_slashes (S (length url)) copy wk1 wk2; Ok (6%nat, copy, wk1, wk2).

(** [wk1[1] == '.' && (wk1[2] == '/' || ... || !wk1[2])], with [wk1[1]] read *)
Definition is_dotdot (wk1 : nat) (c1 : Z) : outcome bool :=
  if c1 =? dot then
    c2 ← rd url (wk1 + 2);
    Ok (is_slash_or_bslash c2 || (c2 =? qmark) || (c2 =? hash) || (c2 =? 0))
  else Ok false.

(** [while ( *wk1 == '.')]: the segments . and .. behind a slash. *)
Fixpoint dot_loop (fuel : nat) (root : nat) (copy : list Z) (wk1 wk2 : nat) : outcome (list Z * nat * nat) :=
  match fuel with
  | O => NoFuel
  | S fuel =>
    c ← rd url wk1;
    if negb (c =? dot) then Ok (copy, wk1, wk2)
    else
      c1 ← rd url (S wk1);
      if is_slash_or_bslash c1 then dot_loop fuel root copy (wk1 + 2) wk2
      else
        dotdot ← is_dotdot wk1 c1;
        if dotdot : bool then
          copy ← wr copy (wk2 - 1) 0;
          mp ← strrchr copy root slash;
          mp2 ← strrchr copy root bslash;
          match first_of mp mp2 with
          | Some mp =>
            c2 ← rd url (wk1 + 2);
            dot_loop fuel root copy (if is_slash_or_bslash c2 then (wk1 + 3)%nat else (wk1 + 2)%nat) (S mp)
          | None => copy ← wr copy (wk2 - 1) slash_char; Ok (copy, wk1, wk2)
          end
        else Ok (copy, wk1, wk2)
  end.

(** [while ( *wk1)]: the segments behind the root. *)
Fixpoint segment_loop (fuel : nat) (root : nat) (copy : list Z) (wk1 wk2 : nat) : outcome (list Z * nat * nat) :=
  match fuel with
  | O => NoFuel
  | S fuel =>
    c ← rd url wk1;
    if c =? 0 then Ok (copy, wk1, wk2)
    else
      mp ← strchr nextW url wk1 slash;
      mp2 ← strchr nextW url wk1 bslash;
      match first_of mp mp2 with
      | None => '(copy, n) ← copy_rest copy wk1 wk2; segment_loop fuel root copy (wk1 + n) (wk2 + n)
      | Some mp =>
        v ← rd_list url wk1 (mp - wk1);
        copy ← wr_list copy wk2 v;
        let wk2 := (wk2 + (mp - wk1))%nat in
        c ← rd url mp;
        '(copy, wk2) ← put_slash copy wk2 c;
        '(copy, wk1, wk2) ← dot_loop (S (length url)) root copy (S mp) wk2;
        segment_loop fuel root copy wk1 wk2
      end
  end.

Definition case6 (copy : list Z) (wk1 wk2 : nat) : outcome mstate :=
  if flag flags URL_DONT_SIMPLIFY then Ok (3%nat, copy, wk1, wk2)
  else
    '(copy, wk1, wk2) ← segment_loop (S (length url)) (wk2 - 1) copy wk1 wk2;
    copy ← wr copy wk2 0;
    Ok (6%nat, copy, wk1, wk2).

(** The [switch] on the state. *)
Definition machine_step (state : nat) (copy : list Z) (wk1 wk2 : nat) : outcome mstate :=
  match state with
  | 0%nat => case0 copy wk1 wk2
  | 1%nat => case1 copy wk1 wk2
  | 2%nat => case2 copy wk1 wk2
  | 3%nat => case3 copy wk1 wk2
  | 4%nat => case4 copy wk1 wk2
  | 5%nat => case5 copy wk1 wk2
  | _ => case6 copy wk1 wk2
  end.

(** [while ( *wk1)]; the result is [url_copy]. *)
Fixpoint machine_loop (fuel : nat) (state : nat) (copy : list Z) (wk1 wk2 : nat) : outcome (list Z) :=
  match fuel with
  | O => NoFuel
  | S fuel =>
    c ← rd url wk1;
    if c =? 0 then Ok copy
    else
      '(state, copy, wk1, wk2) ← machine_step state copy wk1 wk2;
      copy ← wr copy wk2 0;
      machine_loop fuel state copy wk1 wk2
  end.

End Machine.

(** [while ((nLen > 0) && (url_copy[nLen-1] <= ' ')) url_copy[--nLen] = 0] *)
Fixpoint trim_blanks (copy : list Z) (nLen : nat) : outcome (list Z * nat) :=
  match nLen with
  | O => Ok (copy, O)
  | S n => c ← rd copy n; if c <=? space then copy ← wr copy n 0; trim_blanks copy n else Ok (copy, nLen)
  end.

(** [slash], from the scheme and the flags; [nLen]: the characters of [url]
    with the terminator; and [flags]. *)
Definition slash_of (url : list Z) (nLen : nat) (flags : Z) (is_file_url : bool) : outcome (Z * Z) :=
  http ← (if (5 <=? nLen)%nat then starts url 0 (L "http:") else Ok false);
  let slash_char := if http || is_file_url then slash else 0 in
  let slash_char := if (flag flags URL_FILE_USE_PATHURL || flag flags URL_WININET_COMPATIBILITY) && is_file_url
                    then bslash else slash_char in
  res ← (if (4 <=? nLen)%nat then starts url 0 (L "res:") else Ok false);
  Ok (if res : bool then (0, Z.land flags (Z.lnot URL_FILE_USE_PATHURL)) else (slash_char, flags)).

(** "Assume path": the start of the state machine: [flags], [slash],
    [is_file_url], [state], [url_copy] and [wk2]. *)
Definition machine_start (url : list Z) (flags slash_char : Z) (is_file_url : bool) (copy : list Z)
    : outcome (Z * Z * bool * nat * list Z * nat) :=
  c1 ← rd url 1;
  if c1 =? colon then
    copy ← lstrcpyW copy 0 (L "file:///" ++ [0]) 0;
    Ok (if flag flags URL_FILE_USE_PATHURL || flag flags URL_WININET_COMPATIBILITY
        then (flags, bslash, true, 5%nat, copy, 7%nat)
        else (Z.lor flags URL_ESCAPE_UNSAFE, slash_char, true, 5%nat, copy, 8%nat))
  else
    c0 ← rd url 0;
    Ok (if c0 =? slash then (flags, slash_char, true, 5%nat, copy, 0%nat)
        else (flags, slash_char, is_file_url, 0%nat, copy, 0%nat)).

Section Canonicalize.
Context (WideCharToUtf8 : list Z -> list Z).
Context (heap_alloc : nat -> option (list Z)).

(** The simplified URL, unescaped when the flags say so, and the flags. *)
Definition simplify_url (url copy : list Z) (nLen : nat) (flags : Z) : outcome (list Z * Z) :=
  is_file_url ← starts url 0 (L "file:");
  '(slash_char, flags) ← slash_of url nLen flags is_file_url;
  '(flags, slash_char, is_file, state, copy, wk2) ← machine_start url flags slash_char is_file_url copy;
  copy ← machine_loop flags slash_char is_file nLen url (S (S (length url))) state copy 0 wk2;
  n ← wcslen copy 0;
  '(copy, n) ← trim_blanks copy n;
  if flag flags URL_UNESCAPE || (flag flags URL_FILE_USE_PATHURL && (5 <=? nLen)%nat && is_file_url) then
    '(_, u, _, _) ← UrlUnescapeW (Some copy) None (Some n) URL_UNESCAPE_INPLACE;
    Ok (default [] u, flags)
  else Ok (copy, flags).

(** The flags that are passed on to UrlEscapeW. *)
Definition escape_mask : Z :=
  Z.lor (Z.lor (Z.lor (Z.lor URL_ESCAPE_UNSAFE URL_ESCAPE_SPACES_ONLY) URL_ESCAPE_PERCENT) URL_DONT_ESCAPE_EXTRA_INFO)
    URL_ESCAPE_SEGMENT_ONLY.

(** The end of the function: escaping, or a copy. *)
Definition store_url (copy : list Z) (flags : Z) (out : list Z) (size : nat) : outcome (Z * option (list Z) * option nat) :=
  let escape_flags := Z.land flags escape_mask in
  if negb (escape_flags =? 0)
  then UrlEscapeW WideCharToUtf8 heap_alloc (Some copy) (Some out) (Some size) (Z.land escape_flags (Z.lnot URL_ESCAPE_UNSAFE))
  else
    n ← wcslen copy 0;
    if (n <? size)%nat then
      v ← rd_list copy 0 (n + 1);
      out ← wr_list out 0 v;
      Ok (S_OK, Some out, Some n)
    else Ok (E_POINTER, Some out, Some (n + 1)%nat).

(** The results are the status, [canonicalized] and [canonicalized_len]. *)
Definition UrlCanonicalizeW (src_url canonicalized : option (list Z)) (canonicalized_len : option nat) (flags : Z)
    : outcome (Z * option (list Z) * option nat) :=
  match src_url, canonicalized, canonicalized_len with
  | Some src, Some out, Some size =>
    if (size =? 0)%nat then Ok (E_INVALIDARG, canonicalized, canonicalized_len)
    else
      c ← rd src 0;
      if c =? 0 then out ← wr out 0 0; Ok (S_OK, Some out, canonicalized_len)
      else
        n ← wcslen src 0;
        match heap_alloc (n + 1) with
        | None => Ok (E_OUTOFMEMORY, canonicalized, canonicalized_len)
        | Some url =>
          '(url, nLen) ← remove_tabs (S (length src)) src url 0 0;
          match heap_alloc (nLen + 9) with
          | None => Ok (E_OUTOFMEMORY, canonicalized, canonicalized_len)
          | Some copy => '(copy, flags) ← simplify_url url copy nLen flags; store_url copy flags out size
          end
        end
  | _, _, _ => Ok (E_INVALIDARG, canonicalized, canonicalized_len)
  end.

End Canonicalize.

End UrlCanon.
