(* ===== verification/UrlCanonSpec.v ===== *)
(** * UrlCanonicalizeW stays inside its buffers and terminates

    Every state of the machine keeps its position in the copy within eight
    characters of its position in the URL. *)
From Stdlib Require Import String.
From S2P Require Import Prelude PathCch PathCchSpec Path Url UrlSpec UrlEscapeSpec UrlMain UrlPath UrlCanon.
Import PathCch PathCchSpec Path Url UrlSpec UrlEscapeSpec UrlMain UrlPath UrlCanon.

Module UrlCanonSpec.

(** ** Programs that return *)

(** [m] returns a value that satisfies [P]. *)
Definition returns {A} (m : outcome A) (P : A -> Prop) : Prop := exists a, m = Ok a /\ P a.

Lemma returns_ok {A} (a : A) (P : A -> Prop) : P a -> returns (Ok a) P.
Proof. by exists a. Qed.

Lemma returns_bind {A B} (m : outcome A) (f : A -> outcome B) P Q :
  returns m P -> (forall a, P a -> returns (f a) Q) -> returns (m ≫= f) Q.
Proof. intros (a & -> & Ha) Hf. by apply Hf. Qed.

Lemma returns_impl {A} (m : outcome A) (P Q : A -> Prop) : returns m P -> (forall a, P a -> Q a) -> returns m Q.
Proof. intros (a & -> & Ha) H. exists a. eauto. Qed.

Lemma returns_if {A} (b : bool) (m n : outcome A) P :
  (b = true -> returns m P) -> (b = false -> returns n P) -> returns (if b then m else n) P.
Proof. destruct b; eauto. Qed.

Lemma returns_put copy wk2 c : (wk2 < length copy)%nat ->
  returns (put copy wk2 c) (fun '(copy', wk2') => length copy' = length copy /\ wk2' = S wk2).
Proof. intros H. unfold put. rewrite wr_lt, bind_ok by done. apply returns_ok. by rewrite length_insert. Qed.

Lemma returns_put_slash sl copy wk2 c : (wk2 < length copy)%nat ->
  returns (put_slash sl copy wk2 c) (fun '(copy', wk2') => length copy' = length copy /\ wk2' = S wk2).
Proof. apply returns_put. Qed.

Lemma returns_wr b i c : (i < length b)%nat -> returns (wr b i c) (fun b' => length b' = length b /\ b' !! i = Some c).
Proof.
  intros H. rewrite wr_lt by done. apply returns_ok. rewrite length_insert. split; [done|]. by apply list_lookup_insert_eq.
Qed.

Lemma returns_wr_list b i v : (i + length v <= length b)%nat -> returns (wr_list b i v) (fun b' => length b' = length b).
Proof.
  intros H. rewrite wr_list_Ok by done. apply returns_ok. rewrite !length_app, length_take, length_drop. lia.
Qed.

(** The last occurrence of a character in front of a terminator. *)
Lemma strrchr_loop_ok b ch z : b !! z = Some 0 -> forall fuel off last, (z < off + fuel)%nat -> (off <= z)%nat ->
  returns (strrchr_loop fuel b off ch last) (fun r => r = last \/ exists p, r = Some p /\ (off <= p < z)%nat).
Proof.
  intros Hz. induction fuel as [|fuel IH]; intros off last Hf Hle; [lia|]. cbn [strrchr_loop].
  destruct (lookup_lt_is_Some_2 b off) as [c Hc]; [apply lookup_lt_Some in Hz; lia|].
  rewrite (proj2 (rd_Ok _ _ _) Hc), bind_ok. destruct (Z.eqb_spec c 0) as [->|]; [apply returns_ok; by left|].
  assert (off <> z) by (intros ->; congruence).
  eapply returns_impl; [apply IH; lia|]. intros r [->|(p & -> & ?)]; [|right; exists p; split; [done|lia]].
  destruct (c =? ch); [right; exists off; split; [done|lia]|by left].
Qed.

Lemma strrchr_ok b ch off z : b !! z = Some 0 -> (off <= z)%nat ->
  returns (strrchr b off ch) (fun r => forall p, r = Some p -> (off <= p < z)%nat).
Proof.
  intros Hz Hle. eapply returns_impl; [apply (strrchr_loop_ok b ch z Hz); [|done]|].
  - apply lookup_lt_Some in Hz. lia.
  - intros r [->|(p & -> & ?)] p'; [done|]. by intros [= <-].
Qed.

Lemma first_of_some mp mp2 p (P : nat -> Prop) : (forall q, mp = Some q -> P q) -> (forall q, mp2 = Some q -> P q) ->
  first_of mp mp2 = Some p -> P p.
Proof. unfold first_of. intros H1 H2. destruct mp as [q|], mp2 as [q2|]; try destruct (q2 <? q)%nat; naive_solver. Qed.

(** ** The machine *)
Section Machine.
Context (flags sl : Z) (is_file : bool) (nLen : nat) (s rest : list Z) (Hs : nonul s).
Let url := s ++ 0 :: rest.
Let m := length s.

(** A character at or before the terminator. *)
Lemma returns_rd i : (i <= m)%nat -> returns (rd url i) (fun c => (c <> 0 -> (i < m)%nat) /\ ((i < m)%nat -> c <> 0)).
Proof. intros Hi. destruct (rd_str s rest Hs i Hi) as (c & E & H). by exists c. Qed.

Lemma strchr_ok ch off : ch <> 0 -> (off <= m)%nat ->
  returns (strchr nextW url off ch) (fun r => forall p, r = Some p -> (off <= p < m)%nat).
Proof.
  intros Hch Hoff. unfold strchr. assert (Hf : (m - off < S (length url))%nat) by (unfold url; rewrite length_app; simpl; fold m; lia).
  revert off Hoff Hf. generalize (S (length url)). intros fuel. induction fuel as [|fuel IH]; intros off Hoff Hf; [lia|].
  cbn [strchr_loop]. eapply returns_bind; [by apply returns_rd|]. intros c [Hc _]. destruct (Z.eqb_spec c 0); [by apply returns_ok|].
  specialize (Hc ltac:(done)). destruct (c =? ch); [apply returns_ok; intros p [= <-]; lia|].
  change (nextW url off) with (S off). eapply returns_impl; [apply IH; lia|]. intros r Hr p Hp. apply Hr in Hp. lia.
Qed.

Lemma skip_run_ok ch : ch <> 0 -> forall fuel p, (p <= m)%nat -> (m - p < fuel)%nat ->
  returns (skip_run url fuel ch p) (fun p' => (p <= p' <= m)%nat).
Proof.
  intros Hch. induction fuel as [|fuel IH]; intros p Hp Hf; [lia|]. cbn [skip_run].
  eapply returns_bind; [by apply returns_rd|]. intros c [Hc _]. destruct (Z.eqb_spec c ch); [|apply returns_ok; lia].
  specialize (Hc ltac:(congruence)). eapply returns_impl; [apply IH; lia|]. intros ? ?. cbv beta in *. lia.
Qed.

Lemma url_fuel p : (m - p < S (length url))%nat.
Proof. unfold url. rewrite length_app. simpl. fold m. lia. Qed.

(** The position in the copy is at most [k] characters ahead. *)
Definition ahead (k : nat) (copy : list Z) (wk1 wk2 : nat) : Prop :=
  (wk1 <= m)%nat /\ (wk2 <= wk1 + k)%nat /\ length copy = (m + 10)%nat.

Lemma ahead_le k k' copy wk1 wk2 : ahead k copy wk1 wk2 -> (k <= k')%nat -> ahead k' copy wk1 wk2.
Proof. intros (? & ? & ?) ?. split_and!; [done|lia|done]. Qed.

(** What each state guarantees. *)
Definition state_ok (state : nat) (copy : list Z) (wk1 wk2 : nat) : Prop :=
  match state with
  | 0%nat | 1%nat | 2%nat => ahead 0 copy wk1 wk2
  | 4%nat => ahead 2 copy wk1 wk2
  | 3%nat | 5%nat => ahead 8 copy wk1 wk2
  | _ => ahead 8 copy wk1 wk2 /\ (0 < wk2)%nat
  end.

(** A step goes forward, or to the state that copies the rest. *)
Definition step_ok (state wk1 : nat) : mstate -> Prop := fun '(state', copy', wk1', wk2') =>
  state_ok state' copy' wk1' wk2' /\ ((wk1 < wk1')%nat /\ (state = 3%nat -> state' = 3%nat) \/ wk1' = wk1 /\ state' = 3%nat /\ state <> 3%nat).

Ltac ret := apply returns_ok; unfold step_ok, state_ok, ahead in *; split_and?; cbv beta in *; try lia.

Lemma case0_ok copy wk1 wk2 : state_ok 0 copy wk1 wk2 -> (wk1 < m)%nat -> returns (case0 url copy wk1 wk2) (step_ok 0 wk1).
Proof.
  intros (H1 & H2 & H3) Hlt. unfold case0. eapply returns_bind; [by apply returns_rd|]. intros c _.
  apply returns_if; intros _; [ret|]. eapply returns_bind; [apply returns_put; lia|]. intros [copy1 k1] [Hl ->].
  eapply returns_bind; [apply returns_rd; lia|]. intros c1 [Hc1 _]. apply returns_if; intros Ha; [ret|].
  assert (c1 <> 0) by (intros ->; done). specialize (Hc1 ltac:(done)).
  eapply returns_bind; [apply returns_put; lia|]. intros [copy2 k2] [Hl2 ->]. ret.
Qed.

Lemma case1_ok copy wk1 wk2 : state_ok 1 copy wk1 wk2 -> (wk1 < m)%nat -> returns (case1 url copy wk1 wk2) (step_ok 1 wk1).
Proof.
  intros (H1 & H2 & H3) Hlt. unfold case1. eapply returns_bind; [by apply returns_rd|]. intros c _.
  eapply returns_bind; [apply returns_put; lia|]. intros [copy1 k1] [Hl ->]. destruct (c =? colon); ret.
Qed.

Lemma is_drive_spec_ok i : (i <= m)%nat -> returns (is_drive_spec url i) (fun _ => True).
Proof. intros Hi. destruct (is_drive_spec_str s rest Hs i Hi) as (r & E & _). by exists r. Qed.

Lemma single_slash_ok wk1 : (wk1 <= m)%nat -> returns (single_slash url wk1) (fun _ => True).
Proof.
  intros Hw. unfold single_slash. eapply returns_bind; [by apply returns_rd|]. intros c [Hc _].
  apply returns_if; intros E; [|by apply returns_ok]. assert (c <> 0) by (intros ->; done). specialize (Hc ltac:(done)).
  eapply returns_bind; [apply returns_rd; lia|]. intros c1 _. by apply returns_ok.
Qed.

Lemma file_slashes_ok copy wk1 wk2 : ahead 0 copy wk1 wk2 ->
  returns (file_slashes flags sl url copy wk1 wk2) (fun '(copy', wk1', wk2') => ahead 2 copy' wk1' wk2' /\ (wk1 <= wk1')%nat).
Proof.
  intros (H1 & H2 & H3). unfold file_slashes. eapply returns_bind; [apply skip_run_ok; [done|done|apply url_fuel]|].
  intros body Hb. cbv beta in Hb. eapply returns_bind; [apply is_drive_spec_ok; lia|]. intros drive _.
  eapply (returns_bind _ _ (fun '(copy', wk2') => length copy' = length copy /\ (wk2' <= wk2 + 2)%nat)).
  2:{ intros [copy' wk2'] [Hl Hk]. apply returns_ok. unfold ahead. split_and!; lia. }
  destruct drive.
  - apply returns_if; intros _; [apply returns_ok; split; [done|lia]|].
    eapply returns_impl; [apply returns_put_slash; lia|]. intros [c' k'] [? ->]. split; [done|lia].
  - eapply returns_bind; [by apply single_slash_ok|]. intros single _. apply returns_if; intros _.
    + eapply returns_bind; [apply returns_put; lia|]. intros [c' k'] [? ->].
      destruct single; [apply returns_ok; split; [done|lia]|].
      eapply returns_impl; [apply returns_put; lia|]. intros [c2 k2] [? ->]. split; [congruence|lia].
    + destruct single; [|apply returns_ok; split; [done|lia]].
      eapply returns_impl; [apply returns_put_slash; lia|]. intros [c' k'] [? ->]. split; [done|lia].
Qed.

Lemma starts_ok lit i : nonul lit -> (i <= m)%nat -> returns (starts url i lit) (fun r => r = true -> (i + length lit <= m)%nat).
Proof. intros Hl Hi. destruct (starts_str s rest Hs lit Hl i Hi) as (r & E & H). by exists r. Qed.

Lemma case2_ok copy wk1 wk2 : state_ok 2 copy wk1 wk2 -> (wk1 < m)%nat ->
  returns (case2 flags sl is_file nLen url copy wk1 wk2) (step_ok 2 wk1).
Proof.
  intros (H1 & H2 & H3) Hlt. unfold case2. eapply returns_bind; [by apply returns_rd|]. intros c _.
  eapply returns_bind; [apply returns_put; lia|]. intros [copy1 k1] [Hl ->]. cbv zeta.
  eapply returns_bind; [apply returns_rd; lia|]. intros c1 [Hc1 _]. destruct (Z.eqb_spec c1 slash) as [->|]; cbn [negb]; [|ret].
  specialize (Hc1 ltac:(done)). eapply returns_bind; [apply returns_put; lia|]. intros [copy2 k2] [Hl2 ->].
  eapply (returns_bind _ _ (fun r : bool => r = true -> (S (S wk1) + 9 <= m)%nat)).
  { apply returns_if; intros _; [|by apply returns_ok]. apply (starts_ok (L "localhost")); [nonul_tac|lia]. }
  intros localhost Hloc. eapply (returns_bind _ _ (fun w => (S (S wk1) <= w <= m)%nat)).
  { destruct localhost; [|apply returns_ok; lia]. specialize (Hloc eq_refl).
    eapply returns_impl; [apply skip_run_ok; [done|lia|apply url_fuel]|]. intros ? ?. cbv beta in *. lia. }
  intros w Hw. eapply returns_bind; [apply returns_rd; lia|]. intros c3 [Hc3 _]. apply returns_if; intros E.
  - assert (c3 <> 0) by (intros ->; done). specialize (Hc3 ltac:(done)). ret.
  - apply returns_if; intros _; [|ret].
    eapply returns_bind; [apply file_slashes_ok; split_and!; lia|]. intros [[c' w1] w2] [Ha Hw1]. ret; try apply Ha.
Qed.

Lemma set_slashes_ok : forall n copy mp, (mp + n <= length copy)%nat ->
  returns (set_slashes sl n copy mp) (fun copy' => length copy' = length copy).
Proof.
  induction n as [|n IH]; intros copy mp Hn; [by apply returns_ok|]. cbn [set_slashes].
  destruct (rd_lt copy mp) as [c Hc]; [lia|]. rewrite Hc, bind_ok.
  eapply (returns_bind _ _ (fun copy' => length copy' = length copy)).
  - apply returns_if; intros _; [|by apply returns_ok]. eapply returns_impl; [apply returns_wr; lia|]. by intros ? [? _].
  - intros copy' Hl. eapply returns_impl; [apply IH; lia|]. congruence.
Qed.

Lemma copy_rest_ok copy wk1 wk2 : ahead 8 copy wk1 wk2 ->
  returns (copy_rest url copy wk1 wk2) (fun '(copy', n) => length copy' = length copy /\ n = (m - wk1)%nat).
Proof.
  intros (H1 & H2 & H3). unfold copy_rest. unfold url. rewrite wcslen_off, bind_ok by done. fold m.
  rewrite rd_list_Ok, bind_ok by (rewrite length_app; fold m; simpl; lia).
  eapply returns_bind; [apply returns_wr_list; rewrite length_take; lia|]. intros copy' Hl. by apply returns_ok.
Qed.

Lemma case3_ok copy wk1 wk2 : state_ok 3 copy wk1 wk2 -> (wk1 < m)%nat -> returns (case3 sl url copy wk1 wk2) (step_ok 3 wk1).
Proof.
  intros Ha Hlt. unfold case3. eapply returns_bind; [by apply copy_rest_ok|]. intros [copy' n] [Hl ->].
  destruct Ha as (H1 & H2 & H3). eapply (returns_bind _ _ (fun copy2 => length copy2 = length copy)).
  - apply returns_if; intros _; [by apply returns_ok|]. eapply returns_impl; [apply set_slashes_ok; lia|]. congruence.
  - intros copy2 Hl2. ret.
Qed.

Lemma copy_host_ok k : (k <= 8)%nat -> forall fuel copy wk1 wk2, ahead k copy wk1 wk2 -> (m - wk1 < fuel)%nat ->
  returns (copy_host url fuel copy wk1 wk2) (fun '(copy', wk1', wk2') => ahead k copy' wk1' wk2' /\ (wk1 <= wk1')%nat /\
    (forall c, rd url wk1 = Ok c -> is_host_char c = true -> (wk1 < wk1')%nat)).
Proof.
  intros Hk. induction fuel as [|fuel IH]; intros copy wk1 wk2 (H1 & H2 & H3) Hf; [lia|]. cbn [copy_host].
  destruct (returns_rd wk1 H1) as (c & Hc & Hc0 & _). rewrite Hc, bind_ok. apply returns_if; intros Eh.
  - assert (c <> 0) by (intros ->; done). specialize (Hc0 ltac:(done)).
    eapply returns_bind; [apply returns_put; lia|]. intros [copy1 k1] [Hl ->].
    eapply returns_impl; [apply IH; [split_and!|]; lia|]. intros [[c' w1] w2] (Ha & Hw & _). split_and!; [done|lia|intros; lia].
  - apply returns_ok. split_and!; [split_and!; lia|lia|]. intros c' [= <-]. congruence.
Qed.

Lemma case4_ok copy wk1 wk2 : state_ok 4 copy wk1 wk2 -> (wk1 < m)%nat -> returns (case4 sl url copy wk1 wk2) (step_ok 4 wk1).
Proof.
  intros Ha Hlt. unfold case4. destruct (returns_rd wk1) as (c & Hc & _); [lia|]. rewrite Hc, bind_ok.
  destruct (is_host_char c) eqn:Eh; cbn [negb]; [|destruct Ha as (?&?&?); ret].
  eapply returns_bind; [apply (copy_host_ok 2); [lia|done|apply url_fuel]|].
  intros [[copy1 w1] w2] ((H1 & H2 & H3) & Hw & Hw'). specialize (Hw' c Hc Eh).
  eapply returns_bind; [by apply returns_rd|]. intros c1 _. apply returns_if; intros _; [|ret].
  eapply returns_bind; [apply returns_put_slash; lia|]. intros [copy2 k2] [Hl ->]. ret.
Qed.

Lemma copy_slashes_ok : forall fuel copy wk1 wk2, ahead 8 copy wk1 wk2 -> (m - wk1 < fuel)%nat ->
  returns (copy_slashes sl url fuel copy wk1 wk2) (fun '(copy', wk1', wk2') => ahead 8 copy' wk1' wk2' /\
    (wk1 <= wk1')%nat /\ (wk2 <= wk2')%nat /\
    (forall c, rd url wk1 = Ok c -> is_slash_or_bslash c = true -> (wk1 < wk1')%nat /\ (0 < wk2')%nat)).
Proof.
  induction fuel as [|fuel IH]; intros copy wk1 wk2 (H1 & H2 & H3) Hf; [lia|]. cbn [copy_slashes].
  destruct (returns_rd wk1 H1) as (c & Hc & Hc0 & _). rewrite Hc, bind_ok. apply returns_if; intros Eh.
  - assert (c <> 0) by (intros ->; done). specialize (Hc0 ltac:(done)).
    eapply returns_bind; [apply returns_put_slash; lia|]. intros [copy1 k1] [Hl ->].
    eapply returns_impl; [apply IH; [split_and!|]; lia|]. intros [[c' w1] w2] (Ha & Hw & Hw2 & _).
    split_and!; [done|lia|lia|intros; lia].
  - apply returns_ok. split_and!; [split_and!; lia|lia|lia|]. intros c' [= <-]. congruence.
Qed.

Lemma case5_ok copy wk1 wk2 : state_ok 5 copy wk1 wk2 -> (wk1 < m)%nat -> returns (case5 sl url copy wk1 wk2) (step_ok 5 wk1).
Proof.
  intros Ha Hlt. unfold case5. destruct (returns_rd wk1) as (c & Hc & _); [lia|]. rewrite Hc, bind_ok.
  destruct (is_slash_or_bslash c) eqn:Eh; cbn [negb]; [|destruct Ha as (?&?&?); ret].
  eapply returns_bind; [apply copy_slashes_ok; [done|apply url_fuel]|].
  intros [[copy1 w1] w2] (Ha' & Hw & _ & Hw'). specialize (Hw' c Hc Eh). ret.
Qed.

(** The loops of the simplification, behind [root]. *)
Definition behind (root wk1 : nat) : list Z * nat * nat -> Prop := fun '(copy', wk1', wk2') =>
  ahead 8 copy' wk1' wk2' /\ (wk1 <= wk1')%nat /\ (root < wk2')%nat.

Lemma is_dotdot_ok wk1 c1 : (S wk1 < m)%nat \/ c1 = 0 ->
  returns (is_dotdot url wk1 c1) (fun r => r = true -> (wk1 + 2 <= m)%nat).
Proof.
  intros Hc. unfold is_dotdot. destruct (Z.eqb_spec c1 dot) as [->|]; [|by apply returns_ok].
  destruct Hc as [Hc|?]; [|done]. eapply returns_bind; [apply returns_rd; lia|]. intros c2 _. apply returns_ok. lia.
Qed.

Lemma dot_loop_ok root : forall fuel copy wk1 wk2, ahead 8 copy wk1 wk2 -> (root < wk2)%nat -> (m - wk1 < fuel)%nat ->
  returns (dot_loop sl url fuel root copy wk1 wk2) (behind root wk1).
Proof.
  induction fuel as [|fuel IH]; intros copy wk1 wk2 Ha Hr Hf; [lia|]. pose proof Ha as (H1 & H2 & H3). cbn [dot_loop].
  eapply returns_bind; [by apply returns_rd|]. intros c [Hc _].
  destruct (Z.eqb_spec c dot) as [->|]; cbn [negb]; [|apply returns_ok; split_and!; (done || lia)].
  specialize (Hc ltac:(done)). eapply returns_bind; [apply returns_rd; lia|]. intros c1 [Hc1 _].
  assert (Hc1' : (S wk1 < m)%nat \/ c1 = 0) by (destruct (Z.eq_dec c1 0); [by right|left; auto]).
  apply returns_if; intros E1.
  { assert (c1 <> 0) by (intros ->; done). specialize (Hc1 ltac:(done)).
    eapply returns_impl; [apply IH; [split_and!| |]; lia|]. intros [[c' w1] w2] (? & ? & ?). split_and!; (done || lia). }
  eapply returns_bind; [by apply is_dotdot_ok|]. intros dotdot Hd.
  destruct dotdot; [|apply returns_ok; split_and!; (done || lia)]. specialize (Hd eq_refl).
  eapply returns_bind; [apply returns_wr; lia|]. intros copy1 [Hl Hz].
  eapply returns_bind; [apply (strrchr_ok _ _ _ (wk2 - 1)); [done|lia]|]. intros mp Hmp.
  eapply returns_bind; [apply (strrchr_ok _ _ _ (wk2 - 1)); [done|lia]|]. intros mp2 Hmp2.
  destruct (first_of mp mp2) as [p|] eqn:Ep.
  - assert (Hp : (root <= p < wk2 - 1)%nat) by (revert Ep; by apply (first_of_some mp mp2 p (fun p => (root <= p < wk2 - 1)%nat))).
    eapply returns_bind; [by apply returns_rd|]. intros c2 [Hc2 _].
    assert (Hs2 : is_slash_or_bslash c2 = true -> (wk1 + 3 <= m)%nat).
    { intros E2. assert (c2 <> 0) by (intros ->; done). specialize (Hc2 ltac:(done)). lia. }
    destruct (is_slash_or_bslash c2); [specialize (Hs2 eq_refl)|];
      (eapply returns_impl; [apply IH; [split_and!| |]; lia|]; intros [[c' w1] w2] (? & ? & ?); split_and!; (done || lia)).
  - eapply returns_bind; [apply returns_wr; lia|]. intros copy2 [Hl2 _]. apply returns_ok. split_and!; try lia. split_and!; lia.
Qed.

Lemma segment_loop_ok root : forall fuel copy wk1 wk2, ahead 8 copy wk1 wk2 -> (root < wk2)%nat -> (m - wk1 < fuel)%nat ->
  returns (segment_loop sl url fuel root copy wk1 wk2) (fun '(copy', wk1', wk2') => behind root wk1 (copy', wk1', wk2') /\ wk1' = m).
Proof.
  induction fuel as [|fuel IH]; intros copy wk1 wk2 Ha Hr Hf; [lia|]. pose proof Ha as (H1 & H2 & H3). cbn [segment_loop].
  eapply returns_bind; [by apply returns_rd|]. intros c [Hc Hc'].
  destruct (Z.eqb_spec c 0) as [->|Hn]; [apply returns_ok; unfold behind; split_and!; try done; try lia|].
  specialize (Hc Hn). eapply returns_bind; [by apply strchr_ok|]. intros mp Hmp.
  eapply returns_bind; [by apply strchr_ok|]. intros mp2 Hmp2. destruct (first_of mp mp2) as [p|] eqn:Ep.
  - assert (Hp : (wk1 <= p < m)%nat) by (revert Ep; by apply (first_of_some mp mp2 p (fun p => (wk1 <= p < m)%nat))).
    rewrite rd_list_Ok, bind_ok by (unfold url; rewrite length_app; simpl; fold m; lia).
    eapply returns_bind; [apply returns_wr_list; rewrite length_take; lia|]. intros copy1 Hl. cbv beta in Hl. cbv zeta.
    eapply returns_bind; [apply returns_rd; lia|]. intros c1 _.
    eapply returns_bind; [apply returns_put_slash; lia|]. intros [copy2 k2] [Hl2 ->].
    eapply returns_bind; [apply (dot_loop_ok root); [split_and!; lia|lia|apply url_fuel]|].
    intros [[copy3 w1] w2] (Ha3 & Hw & Hr3).
    eapply returns_impl; [apply IH; [done|done|lia]|]. intros [[c' w1'] w2'] ((? & ? & ?) & ?). unfold behind, ahead in *. split_and!; try done; lia.
  - eapply returns_bind; [by apply copy_rest_ok|]. intros [copy' n] [Hl ->].
    eapply returns_impl; [apply IH; [split_and!| |]; lia|]. intros [[c' w1'] w2'] ((? & ? & ?) & ?). unfold behind, ahead in *. split_and!; try done; lia.
Qed.

Lemma case6_ok state copy wk1 wk2 : state_ok 6 copy wk1 wk2 -> (wk1 < m)%nat -> state <> 3%nat ->
  returns (case6 flags sl url copy wk1 wk2) (step_ok state wk1).
Proof.
  intros [Ha Hpos] Hlt Hst. unfold case6. apply returns_if; intros _; [destruct Ha as (?&?&?); ret|].
  eapply returns_bind; [apply segment_loop_ok; [done|lia|apply url_fuel]|].
  intros [[copy1 w1] w2] ((Ha1 & Hw & Hr) & ->). destruct Ha1 as (? & ? & ?).
  eapply returns_bind; [apply returns_wr; lia|]. intros copy2 [Hl _]. ret.
Qed.

Lemma machine_step_ok state copy wk1 wk2 : state_ok state copy wk1 wk2 -> (wk1 < m)%nat ->
  returns (machine_step flags sl is_file nLen url state copy wk1 wk2) (step_ok state wk1).
Proof.
  intros Ha Hlt. do 6 (destruct state as [|state]; cbn [machine_step];
    [by (apply case0_ok || apply case1_ok || apply case2_ok || apply case3_ok || apply case4_ok || apply case5_ok)|]).
  by apply case6_ok.
Qed.

Lemma state_ok_ahead state copy wk1 wk2 : state_ok state copy wk1 wk2 -> ahead 8 copy wk1 wk2.
Proof.
  do 6 (destruct state as [|state]; [intros H; apply (ahead_le _ 8 _ _ _ H); lia|]). by intros [H _].
Qed.

(** Stores of a terminator keep the guarantees. *)
Lemma state_ok_length state copy copy' wk1 wk2 : length copy' = length copy -> state_ok state copy wk1 wk2 -> state_ok state copy' wk1 wk2.
Proof. unfold state_ok, ahead. intros ->. done. Qed.

(** The machine ends with a string in the copy. *)
Lemma machine_loop_ok : forall fuel state copy wk1 wk2, state_ok state copy wk1 wk2 ->
  (m - wk1 + (if (state =? 3)%nat then 0 else 1) < fuel)%nat -> (wk1 < m)%nat \/ copy !! wk2 = Some 0 ->
  returns (machine_loop flags sl is_file nLen url fuel state copy wk1 wk2)
    (fun copy' => length copy' = (m + 10)%nat /\ exists z, copy' !! z = Some 0).
Proof.
  induction fuel as [|fuel IH]; intros state copy wk1 wk2 Ha Hf Hz; [lia|]. cbn [machine_loop].
  pose proof (state_ok_ahead _ _ _ _ Ha) as (H1 & H2 & H3).
  eapply returns_bind; [by apply returns_rd|]. intros c [Hc Hc']. destruct (Z.eqb_spec c 0) as [->|Hn].
  { apply returns_ok. split; [done|]. destruct Hz as [Hlt|Hz]; [by destruct (Hc' Hlt)|by exists wk2]. }
  specialize (Hc Hn). eapply returns_bind; [by apply machine_step_ok|]. intros [[[state1 copy1] w1] w2] [Ha1 Hp].
  pose proof (state_ok_ahead _ _ _ _ Ha1) as (? & ? & ?).
  eapply returns_bind; [apply returns_wr; lia|]. intros copy2 [Hl Hz2]. apply IH; [by eapply state_ok_length| |by right].
  destruct (Nat.eqb_spec state1 3), (Nat.eqb_spec state 3); lia.
Qed.

(** The scheme and the start. *)
Lemma slash_of_ok fl is_f : returns (slash_of url nLen fl is_f) (fun _ => True).
Proof.
  unfold slash_of. eapply (returns_bind _ _ (fun _ => True)).
  { apply returns_if; intros _; [|by apply returns_ok].
    eapply returns_impl; [apply (starts_ok (L "http:")); [nonul_tac|lia]|done]. }
  intros http _. cbv zeta. eapply (returns_bind _ _ (fun _ => True)).
  { apply returns_if; intros _; [|by apply returns_ok].
    eapply returns_impl; [apply (starts_ok (L "res:")); [nonul_tac|lia]|done]. }
  intros res _. by apply returns_ok.
Qed.

Lemma machine_start_ok fl slc is_f copy : (0 < m)%nat -> length copy = (m + 10)%nat ->
  returns (machine_start url fl slc is_f copy) (fun '(_, _, _, state, copy', wk2) => state_ok state copy' 0 wk2).
Proof.
  intros Hm Hl. unfold machine_start. eapply returns_bind; [apply returns_rd; lia|]. intros c1 _. apply returns_if; intros _.
  - rewrite (lstrcpyW_text copy 0 _ 0 (L "file:///") []), bind_ok by (done || nonul_tac || (simpl; lia)).
    apply returns_ok. cbn [take app Nat.add length L].
    assert (Hlen : length (L "file:///" ++ 0 :: drop 9 copy) = (m + 10)%nat)
      by (rewrite length_app; cbn [length L]; rewrite length_drop; simpl; lia).
    destruct (_ || _); unfold state_ok, ahead; (split_and!; [lia|lia|exact Hlen]).
  - eapply returns_bind; [apply returns_rd; lia|]. intros c0 _. apply returns_ok.
    destruct (c0 =? slash); unfold state_ok, ahead; split_and!; lia.
Qed.

End Machine.

(** ** The rest of the function *)

Definition without_tabs (s : list Z) : list Z := List.filter (fun c => negb (c =? tab)) s.

Lemma without_tabs_length s : (length (without_tabs s) <= length s)%nat.
Proof. apply List.filter_length_le. Qed.

Lemma without_tabs_nonul s : nonul s -> nonul (without_tabs s).
Proof.
  intros Hs. induction s as [|c s IH]; [done|]. apply nonul_cons in Hs as [Hc Hs]. simpl.
  destruct (c =? tab); simpl; [by apply IH|]. constructor; [done|by apply IH].
Qed.

Lemma remove_tabs_text src : forall fuel s url wk1 wk2 rest, (length s < fuel)%nat -> drop wk1 src = s ++ 0 :: rest -> nonul s ->
  (wk2 + length (without_tabs s) < length url)%nat ->
  let t := without_tabs s in
  remove_tabs fuel src url wk1 wk2 = Ok (take wk2 url ++ t ++ 0 :: drop (wk2 + S (length t)) url, (wk2 + S (length t))%nat).
Proof.
  induction fuel as [|fuel IH]; intros s url wk1 wk2 rest Hf Hd Hs Hl; [lia|]. cbn [remove_tabs]. cbv zeta. destruct s as [|c s].
  - rewrite (rd_drop _ _ _ _ Hd), bind_ok. change (0 =? tab) with false. cbv iota. simpl in Hl.
    rewrite wr_lt, bind_ok by lia. cbn [Z.eqb without_tabs List.filter app length]. rewrite insert_take_drop by lia.
    by rewrite <- Nat.add_1_r.
  - rewrite (rd_drop _ _ _ _ Hd), bind_ok. apply nonul_cons in Hs as [Hc Hs]. apply drop_next in Hd. simpl in Hf.
    cbn [without_tabs List.filter] in *. destruct (Z.eqb_spec c tab); cbn [negb] in *.
    + rewrite (IH s url (S wk1) wk2 rest) by (done || lia). done.
    + simpl in Hl. rewrite wr_lt, bind_ok by lia. rewrite (proj2 (Z.eqb_neq _ _) Hc).
      rewrite (IH s _ (S wk1) (S wk2) rest); [|lia|done|done|rewrite length_insert; fold (without_tabs s) in *; lia].
      fold (without_tabs s). cbn [length app]. f_equal. f_equal; [|lia].
      rewrite (take_S_r _ _ c) by (apply list_lookup_insert_eq; lia). rewrite take_insert_ge by lia.
      rewrite <- app_assoc. cbn [app]. do 4 f_equal. rewrite drop_insert_lt by lia. f_equal. lia.
Qed.

(** A string without the blanks and control characters at its end. *)
Fixpoint trim_end (s : list Z) : list Z :=
  match s with
  | [] => []
  | c :: s => match trim_end s with [] => if c <=? space then [] else [c] | r => c :: r end
  end.

Lemma trim_end_snoc s c : trim_end (s ++ [c]) = if c <=? space then trim_end s else s ++ [c].
Proof. induction s as [|d s IH]; [done|]. simpl. rewrite IH. destruct (c <=? space); [done|]. by destruct s. Qed.

Lemma trim_end_nonul s : nonul s -> nonul (trim_end s).
Proof.
  induction s as [|c s IH]; intros Hs; [done|]. apply nonul_cons in Hs as [Hc Hs]. specialize (IH Hs). simpl.
  destruct (trim_end s); [destruct (c <=? space); by repeat constructor|by constructor].
Qed.

Lemma trim_blanks_text n : forall t r, n = length t ->
  exists r', trim_blanks (t ++ 0 :: r) n = Ok (trim_end t ++ 0 :: r', length (trim_end t)).
Proof.
  induction n as [|n IH]; intros t r Hn; cbn [trim_blanks].
  - destruct t; [|done]. by exists r.
  - destruct t as [|c t _] using rev_ind; [done|]. rewrite length_app in Hn; simpl in Hn.
    rewrite <- app_assoc, trim_end_snoc. cbn [app]. rewrite rd_middle, bind_ok by lia. destruct (c <=? space).
    + rewrite wr_app, bind_ok by lia. apply IH. lia.
    + exists r. rewrite length_app. cbn [length]. rewrite <- app_assoc. do 2 f_equal. lia.
Qed.

Section Canonicalize.
Context (W : list Z -> list Z) (HW : forall l, (length (W l) <= 4)%nat).

Lemma escape_url_nonul flags s : nonul s -> nonul (escape_url W flags s).
Proof.
  intros Hs. unfold escape_url. destruct (flag _ URL_ESCAPE_SEGMENT_ONLY); [by apply escape_text_nonul|].
  destruct (split_scheme s) as [[q r]|] eqn:E; [|by apply escape_text_nonul]. cbv zeta.
  destruct (flag _ WINE_URL_COLLAPSE_SLASHES); [|by apply escape_text_nonul]. apply split_scheme_app in E as (-> & _ & _).
  apply nonul_app in Hs as [Hq Hr]. apply nonul_cons in Hr as [_ Hr].
  pose proof (collapse_slashes_text (r ++ [0]) 0 r [] eq_refl) as Hc.
  assert (Hx : nonul (fst (collapse_text r))).
  { unfold collapse_text. destruct (span is_slash_or_bslash r) as [a r1]. destruct (if _ && _ then _ else _) as [k r2].
    destruct k as [|[|[|[|k]]]]; nonul_tac. }
  destruct (collapse_text r) as [x r']. destruct Hc as (q' & -> & _). apply nonul_app in Hr as [_ Hr].
  apply nonul_app. split; [done|]. constructor; [done|]. apply nonul_app. split; [done|]. by apply escape_text_nonul.
Qed.

(** What is stored of the simplified URL. *)
Definition stored_url (t : list Z) (flags : Z) : list Z :=
  let f := Z.land flags escape_mask in if f =? 0 then t else escape_url W (Z.land f (Z.lnot URL_ESCAPE_UNSAFE)) t.

Lemma stored_url_nonul t flags : nonul t -> nonul (stored_url t flags).
Proof. intros Ht. unfold stored_url. cbv zeta. destruct (_ =? 0); [done|]. by apply escape_url_nonul. Qed.

(** A string is stored with its length, or the size it needs is. *)
Definition stored_or_size (t out : list Z) (size : nat) : Z * option (list Z) * option nat :=
  if (length t <? size)%nat then (S_OK, Some (t ++ 0 :: drop (S (length t)) out), Some (length t))
  else (E_POINTER, Some out, Some (length t + 1)%nat).

Lemma store_url_text heap_alloc t r flags out size : heap_total heap_alloc -> nonul t -> (0 < size <= length out)%nat ->
  store_url W heap_alloc (t ++ 0 :: r) flags out size = Ok (stored_or_size (stored_url t flags) out size).
Proof.
  intros Hh Ht Hsz. unfold store_url, stored_url, stored_or_size. cbv zeta.
  destruct (Z.land flags escape_mask =? 0) eqn:E; cbn [negb].
  - rewrite wcslen_str, bind_ok by done. destruct (Nat.ltb_spec (length t) size); [|done].
    rewrite rd_list_Ok, bind_ok by (rewrite length_app; simpl; lia). rewrite drop_0.
    rewrite wr_list_Ok by (rewrite length_take, length_app; simpl; lia). rewrite bind_ok. f_equal. f_equal. f_equal. f_equal.
    rewrite take_app_ge by lia. replace (length t + 1 - length t)%nat with 1%nat by lia. cbn [take firstn].
    rewrite length_app. cbn [length]. rewrite <- app_assoc. rewrite !take_0. cbn [app length]. do 3 f_equal. lia.
  - destruct (Hh size) as (dst & Ha & Hl). rewrite (UrlEscapeW_text W HW heap_alloc _ t r out size dst) by done.
    by destruct (_ <? _)%nat.
Qed.

Lemma simplify_url_ok s rest copy nLen flags : nonul s -> (0 < length s)%nat -> length copy = (length s + 10)%nat ->
  returns (simplify_url (s ++ 0 :: rest) copy nLen flags) (fun '(copy', _) => exists t r, copy' = t ++ 0 :: r /\ nonul t).
Proof.
  intros Hs Hm Hl. unfold simplify_url. eapply returns_bind; [apply (starts_ok s rest Hs (L "file:")); [nonul_tac|lia]|].
  intros is_f _. eapply returns_bind; [by apply slash_of_ok|]. intros [slc fl] _.
  eapply returns_bind; [by apply machine_start_ok|]. intros [[[[[fl1 slc1] is_f1] state] copy1] wk2] Hst.
  eapply returns_bind.
  { apply machine_loop_ok; [done|exact Hst| |by left]. rewrite length_app. simpl. destruct (state =? 3)%nat; lia. }
  intros copy2 (_ & z & Hz). apply terminated_split in Hz as (t & r & -> & Ht & _).
  rewrite wcslen_str, bind_ok by done. destruct (trim_blanks_text _ t r eq_refl) as (r' & ->).
  rewrite bind_ok. pose proof (trim_end_nonul t Ht) as Ht'. set (t' := trim_end t) in *. apply returns_if; intros _; [|apply returns_ok; by exists t', r'].
  unfold UrlUnescapeW.
  destruct (url_unescape_inplace StrToInt16 StrToInt16_value URL_UNESCAPE_INPLACE t' r' None (Some (length t')) eq_refl Ht')
    as (junk & _ & ->). rewrite bind_ok. apply returns_ok. cbn [default].
  set (u := unescape_text _ _ _). destruct (terminated_split (u ++ 0 :: junk ++ r') (length u)) as (t2 & r2 & E & Ht2 & _).
  { by rewrite lookup_app_r, Nat.sub_diag by done. }
  exists t2, r2. split; [exact E|done].
Qed.

(** The function on a string that is not empty: the tabs are dropped. *)
Lemma UrlCanonicalizeW_steps heap_alloc s rest out size flags url copy : nonul s -> s <> [] -> (0 < size)%nat ->
  let t := without_tabs s in
  heap_alloc (length s + 1)%nat = Some url -> length url = (length s + 1)%nat -> heap_alloc (S (length t) + 9)%nat = Some copy ->
  UrlCanonicalizeW W heap_alloc (Some (s ++ 0 :: rest)) (Some out) (Some size) flags =
    ('(copy, flags) ← simplify_url (t ++ 0 :: drop (S (length t)) url) copy (S (length t)) flags;
     store_url W heap_alloc copy flags out size).
Proof.
  intros Hs Hs0 Hsz t Ea Hl Ea2. pose proof (without_tabs_length s) as Hle. fold t in Hle.
  unfold UrlCanonicalizeW. destruct (Nat.eqb_spec size 0); [lia|].
  destruct s as [|c s0]; [done|]. pose proof (nonul_cons _ _ Hs) as [Hc _]. cbn [app].
  change (rd (c :: s0 ++ 0 :: rest) 0) with (Ok c). rewrite bind_ok, (proj2 (Z.eqb_neq _ _) Hc).
  change (c :: s0 ++ 0 :: rest) with ((c :: s0) ++ 0 :: rest). rewrite wcslen_str, bind_ok by done. rewrite Ea.
  rewrite (remove_tabs_text ((c :: s0) ++ 0 :: rest) _ (c :: s0) url 0 0 rest);
    [|rewrite length_app; simpl; lia|done|done|fold t; simpl in *; lia].
  fold t. rewrite take_0. cbn [app Nat.add]. rewrite bind_ok, Ea2. done.
Qed.

End Canonicalize.

(** ** The theorem *)

(** C29. UrlCanonicalizeW is total: for every combination of flags and every
    URL with a character other than a tab it stays inside the buffers it has
    allocated, its state machine ends, and there is one string, without a
    terminator inside, that is stored whenever it fits; otherwise the size
    that suffices is reported and the buffer is left alone. *)
Theorem UrlCanonicalizeW_total W heap_alloc s rest flags :
  (forall l, (length (W l) <= 4)%nat) -> heap_total heap_alloc -> nonul s -> Exists (fun c => c <> tab) s ->
  exists t, nonul t /\ forall out size, (0 < size <= length out)%nat ->
    UrlCanonicalizeW W heap_alloc (Some (s ++ 0 :: rest)) (Some out) (Some size) flags =
      if (length t <? size)%nat then Ok (S_OK, Some (t ++ 0 :: drop (S (length t)) out), Some (length t))
      else Ok (E_POINTER, Some out, Some (length t + 1)%nat).
Proof.
  intros HW Hh Hs Hex. set (s1 := without_tabs s).
  assert (Hm : (0 < length s1)%nat).
  { unfold s1. clear -Hex. induction Hex as [c s Hc|c s Hex IH]; simpl.
    - rewrite (proj2 (Z.eqb_neq _ _) Hc). simpl. lia.
    - destruct (c =? tab); simpl; lia. }
  pose proof (without_tabs_length s) as Hle. pose proof (without_tabs_nonul s Hs) as Hs1. fold s1 in Hle, Hs1.
  destruct (Hh (length s + 1)%nat) as (url & Ea & Hl). destruct (Hh (S (length s1) + 9)%nat) as (copy & Ea2 & Hl2).
  set (rest1 := drop (S (length s1)) url).
  destruct (simplify_url_ok s1 rest1 copy (S (length s1)) flags Hs1 Hm) as ([copy' flags'] & Esim & t & r & -> & Ht); [lia|].
  exists (stored_url W t flags'). split; [by apply stored_url_nonul|].
  intros out size Hsz. rewrite (UrlCanonicalizeW_steps W heap_alloc s rest out size flags url copy);
    [|done|by destruct Hex|lia|done|done|done]. fold s1 rest1. rewrite Esim, bind_ok.
  rewrite (store_url_text W HW) by done. unfold stored_or_size. by destruct (_ <? _)%nat.
Qed.

Lemma UrlCanonicalizeW_total_witness : exists t, nonul t /\ forall out size, (0 < size <= length out)%nat ->
  UrlCanonicalizeW ascii_utf8 some_heap (Some (L "file:///c:/a/../b" ++ [0])) (Some out) (Some size) URL_FILE_USE_PATHURL =
    if (length t <? size)%nat then Ok (S_OK, Some (t ++ 0 :: drop (S (length t)) out), Some (length t))
    else Ok (E_POINTER, Some out, Some (length t + 1)%nat).
Proof.
  apply (UrlCanonicalizeW_total ascii_utf8 some_heap (L "file:///c:/a/../b") [] URL_FILE_USE_PATHURL);
    [apply ascii_utf8_length|apply some_heap_total|nonul_tac|by left].
Defined.

End UrlCanonSpec.
