(* ===== verification/UrlDots.v ===== *)
(** * UrlCanonicalizeW removes dot segments

    The state machine works in place, with positions in two arrays and
    searches backwards for a slash.  Against it stands a stack of segments:
    a segment is pushed, "." is dropped and ".." takes the last one off.  The
    first segment is always taken as it is, and so is a "." at the end of the
    path. *)
From Stdlib Require Import String.
From S2P Require Import Prelude PathCch PathCchSpec Path Url UrlSpec UrlEscapeSpec UrlMain UrlPath UrlCanon UrlCanonSpec.
Import PathCch PathCchSpec Path Url UrlSpec UrlEscapeSpec UrlMain UrlPath UrlCanon UrlCanonSpec.

Module UrlDots.

(** ** The specification *)

(** The segments of a path: all but the last are followed by a slash. *)
Fixpoint pieces (w : list Z) : list (list Z) :=
  match w with
  | [] => [[]]
  | c :: w =>
    if is_slash_or_bslash c then [] :: pieces w
    else match pieces w with p :: ps => (c :: p) :: ps | [] => [[c]] end
  end.

(** What follows ".." when the segment goes up: nothing, or a query or a
    fragment. *)
Definition up_tail (p : list Z) : option (list Z) :=
  match p with
  | a :: b :: u =>
    if (a =? dot) && (b =? dot) then
      match u with [] => Some u | c :: _ => if (c =? qmark) || (c =? hash) then Some u else None end
    else None
  | _ => None
  end.

(** A segment behind a slash and in front of one; the stack has the last
    segment first.  At the root ".." is kept as a name. *)
Definition resolve_piece (stack : list (list Z)) (p : list Z) : list (list Z) :=
  if bool_decide (p = [dot]) then stack
  else match up_tail p, stack with
       | Some u, _ :: stack' => if bool_decide (u = []) then stack' else u :: stack'
       | _, _ => p :: stack
       end.

Definition text (stack : list (list Z)) : list Z := concat (map (fun p => p ++ [slash]) (rev stack)).

(** The segments behind a slash, up to the last one. *)
Fixpoint resolve (stack ps : list (list Z)) : list Z :=
  match ps with
  | [] => text stack
  | [p] =>
    match up_tail p, stack with
    | Some u, _ :: stack' => text stack' ++ u
    | _, _ => text stack ++ p
    end
  | p :: ps => resolve (resolve_piece stack p) ps
  end.

(** The first of the segments is taken as it is. *)
Definition literally (stack ps : list (list Z)) : list Z :=
  match ps with
  | [] => text stack
  | [p] => text stack ++ p
  | p :: ps => resolve (p :: stack) ps
  end.

Definition remove_dots (w : list Z) : list Z := literally [] (pieces w).

(** ** Segments *)
Definition noslash (p : list Z) : Prop := Forall (fun c => is_slash_or_bslash c = false) p.

Lemma text_cons p stack : text (p :: stack) = text stack ++ p ++ [slash].
Proof. unfold text. simpl. rewrite map_app, concat_app. simpl. by rewrite app_nil_r. Qed.

(** The slash of the root or of the last segment. *)
Lemma text_last stack : exists a, slash :: text stack = a ++ [slash] /\ length a = length (text stack).
Proof.
  destruct stack as [|p stack]; [by exists []|]. exists (slash :: text stack ++ p). rewrite text_cons. simpl.
  rewrite <- app_assoc, !length_app. simpl. split; [done|lia].
Qed.

Lemma pieces_nonempty w : pieces w <> [].
Proof. destruct w as [|c w]; [done|]. simpl. destruct (is_slash_or_bslash c); [done|]. by destruct (pieces w). Qed.

Lemma pieces_last p : noslash p -> pieces p = [p].
Proof. induction 1 as [|c p Hc _ IH]; [done|]. simpl. by rewrite Hc, IH. Qed.

Lemma pieces_app p c w : noslash p -> is_slash_or_bslash c = true -> pieces (p ++ c :: w) = p :: pieces w.
Proof. intros Hp Hc. induction Hp as [|d p Hd _ IH]; simpl; [by rewrite Hc|]. by rewrite Hd, IH. Qed.

(** The first segment of a text. *)
Lemma first_piece w : exists p, noslash p /\ (w = p \/ exists c w', w = p ++ c :: w' /\ is_slash_or_bslash c = true).
Proof.
  induction w as [|c w (p & Hp & H)]; [exists []; split; [constructor|by left]|].
  destruct (is_slash_or_bslash c) eqn:E; [exists []; split; [constructor|]; right; by exists c, w|].
  exists (c :: p). split; [by constructor|]. destruct H as [->|(d & w' & -> & Hd)]; [by left|]. right. by exists d, w'.
Qed.

Lemma resolve_cons stack p w : resolve stack (p :: pieces w) = resolve (resolve_piece stack p) (pieces w).
Proof. pose proof (pieces_nonempty w). by destruct (pieces w). Qed.

Lemma literally_cons stack p w : literally stack (p :: pieces w) = resolve (p :: stack) (pieces w).
Proof. pose proof (pieces_nonempty w). by destruct (pieces w). Qed.

(** A first segment that is no dot segment is taken as it is. *)
Lemma resolve_literally stack w p : noslash p -> up_tail p = None ->
  (w = p \/ p <> [dot] /\ exists c w', w = p ++ c :: w' /\ is_slash_or_bslash c = true) ->
  resolve stack (pieces w) = literally stack (pieces w).
Proof.
  intros Hp Hu [->|(Hd & c & w' & -> & Hc)].
  - rewrite pieces_last by done. simpl. by rewrite Hu.
  - rewrite pieces_app, resolve_cons, literally_cons by done. unfold resolve_piece. by rewrite bool_decide_eq_false_2, Hu by done.
Qed.

(** So is any segment that does not begin with a dot. *)
Lemma resolve_no_dot stack w : match w with c :: _ => c <> dot | [] => True end ->
  resolve stack (pieces w) = literally stack (pieces w).
Proof.
  intros Hw. destruct (first_piece w) as (p & Hp & H). apply (resolve_literally _ _ p); [done|..].
  - destruct p as [|a [|b u]]; [done|done|]. simpl. assert (a <> dot) by (by destruct H as [->|(? & ? & -> & ?)]).
    by rewrite (proj2 (Z.eqb_neq a dot)) by done.
  - destruct H as [->|H]; [by left|]. right. split; [|done]. destruct H as (c & w' & -> & _). by intros ->.
Qed.

(** The ends of "..". *)
Definition is_up_end (c : Z) : bool := is_slash_or_bslash c || (c =? qmark) || (c =? hash) || (c =? 0).

Lemma resolve_dot stack c w : is_slash_or_bslash c = true -> resolve stack (pieces (dot :: c :: w)) = resolve stack (pieces w).
Proof.
  intros Hc. change (dot :: c :: w) with ([dot] ++ c :: w). rewrite (pieces_app [dot] c w) by (done || by constructor). by rewrite resolve_cons.
Qed.

Lemma resolve_up_slash p stack c w : is_slash_or_bslash c = true ->
  resolve (p :: stack) (pieces (dot :: dot :: c :: w)) = resolve stack (pieces w).
Proof.
  intros Hc. change (dot :: dot :: c :: w) with ([dot; dot] ++ c :: w). rewrite (pieces_app [dot; dot] c w) by (done || by repeat constructor). by rewrite resolve_cons.
Qed.

Lemma resolve_up_query p stack c w : (c =? qmark) || (c =? hash) = true ->
  resolve (p :: stack) (pieces (dot :: dot :: c :: w)) = resolve stack (pieces (c :: w)).
Proof.
  intros Hc. assert (Hs : is_slash_or_bslash c = false) by (unfold is_slash_or_bslash, slash, bslash, qmark, hash in *; lia).
  assert (Hd : c <> dot) by (unfold dot, qmark, hash in *; lia). rewrite (resolve_no_dot stack) by done.
  cbn [pieces]. change (is_slash_or_bslash dot) with false. rewrite Hs. cbv iota.
  pose proof (pieces_nonempty w) as Hn. destruct (pieces w) as [|q qs]; [done|].
  destruct qs as [|q1 qs]; cbn [resolve literally]; unfold resolve_piece; cbn [up_tail]; by rewrite Hc.
Qed.

Lemma noslash_dots p : noslash p -> noslash (dot :: dot :: p).
Proof. intros H. constructor; [done|]. by constructor. Qed.

Lemma resolve_root w : resolve [] (pieces (dot :: dot :: w)) = literally [] (pieces (dot :: dot :: w)).
Proof.
  destruct (first_piece w) as (p & Hp & [->|(c & w' & -> & Hc)]).
  - rewrite pieces_last by (by apply noslash_dots). cbn [resolve literally]. by destruct (up_tail _).
  - change (dot :: dot :: p ++ c :: w') with ((dot :: dot :: p) ++ c :: w'). rewrite pieces_app by (done || by apply noslash_dots).
    rewrite resolve_cons, literally_cons. unfold resolve_piece.
    rewrite bool_decide_eq_false_2 by done. by destruct (up_tail _).
Qed.

Lemma resolve_name stack w : match w with
    | [] => True
    | c :: w => is_slash_or_bslash c = false /\ (c = dot -> match w with [] => False | c2 :: _ => is_up_end c2 = false end)
    end -> resolve stack (pieces (dot :: w)) = literally stack (pieces (dot :: w)).
Proof.
  destruct w as [|c w]; [done|]. intros [Hs Hc]. destruct (first_piece w) as (p & Hp & H).
  apply (resolve_literally _ _ (dot :: c :: p)); [by repeat constructor| |].
  - cbn [up_tail]. rewrite Z.eqb_refl. cbn [andb]. destruct (Z.eqb_spec c dot) as [->|]; [|done]. specialize (Hc eq_refl).
    unfold is_up_end in Hc. destruct p as [|c2 p]; [destruct H as [->|(c2 & w' & -> & Hs2)]; [done|]; cbn [app] in Hc; by rewrite Hs2 in Hc|].
    destruct w as [|c3 w]; [done|]. assert (c3 = c2) as -> by (destruct H as [[= -> ->]|(? & ? & [= -> ->] & ?)]; done).
    by destruct (c2 =? qmark), (c2 =? hash), (is_slash_or_bslash c2).
  - destruct H as [->|(c2 & w' & -> & Hs2)]; [by left|]. right. split; [done|]. by exists c2, w'.
Qed.

(** ** Searches *)

Lemma strchr_bound ch : ch <> 0 -> forall fuel a b u i rest, drop i u = a ++ b ++ 0 :: rest -> nonul (a ++ b) ->
  Forall (fun c => c <> ch) a -> (length (a ++ b) < fuel)%nat ->
  returns (strchr_loop nextW fuel u i ch) (fun r => (forall q, r = Some q -> (i + length a <= q)%nat) /\
    (forall b', b = ch :: b' -> r = Some (i + length a)%nat) /\ (b = [] -> r = None)).
Proof.
  intros Hch. induction fuel as [|fuel IH]; intros a b u i rest Hd Hn Ha Hf; [lia|]. cbn [strchr_loop].
  destruct a as [|c a]; cbn [app] in *.
  - destruct b as [|c b]; cbn [app] in *.
    + rewrite (rd_drop _ _ _ _ Hd), bind_ok. apply returns_ok. naive_solver.
    + rewrite (rd_drop _ _ _ _ Hd), bind_ok. apply nonul_cons in Hn as [Hc Hn]. rewrite (proj2 (Z.eqb_neq _ _) Hc).
      apply drop_next in Hd. simpl in Hf. destruct (Z.eqb_spec c ch) as [->|Hne].
      * apply returns_ok. split_and!; [|by intros b' [= <-]; rewrite Nat.add_0_r|done]. intros q [= <-]. simpl. lia.
      * change (nextW u i) with (S i). eapply returns_impl; [apply (IH [] b u (S i) rest); [done|done|constructor|simpl; lia]|].
        intros r (Hr & _ & _). split_and!; [|by intros b' [= -> ->]|done]. intros q Hq. apply Hr in Hq. simpl in *. lia.
  - rewrite (rd_drop _ _ _ _ Hd), bind_ok. apply nonul_cons in Hn as [Hc Hn]. rewrite (proj2 (Z.eqb_neq _ _) Hc).
    pose proof (Forall_inv Ha) as Hac. apply Forall_inv_tail in Ha. rewrite (proj2 (Z.eqb_neq _ _) Hac).
    apply drop_next in Hd. simpl in Hf. change (nextW u i) with (S i).
    eapply returns_impl; [apply (IH a b u (S i) rest); try done; lia|]. intros r (Hr & Hb & Hb0). simpl.
    split_and!; [|intros b' Hb'; rewrite (Hb _ Hb'); f_equal; lia|done]. intros q Hq. apply Hr in Hq. lia.
Qed.

Lemma noslash_not ch p : noslash p -> is_slash_or_bslash ch = true -> Forall (fun c => c <> ch) p.
Proof. intros Hp Hch. eapply Forall_impl; [exact Hp|]. cbv beta. intros c Hc ->. congruence. Qed.

(** The two searches for the end of a segment. *)
Lemma first_slash u i p w rest : drop i u = p ++ w ++ 0 :: rest -> nonul (p ++ w) -> noslash p ->
  match w with c :: _ => is_slash_or_bslash c = true | [] => True end ->
  exists mp mp2, strchr nextW u i slash = Ok mp /\ strchr nextW u i bslash = Ok mp2 /\
    first_of mp mp2 = match w with [] => None | _ => Some (i + length p)%nat end.
Proof.
  intros Hd Hn Hp Hw. assert (Hf : (length (p ++ w) < S (length u))%nat).
  { apply (f_equal length) in Hd. rewrite length_drop, !length_app in Hd. simpl in Hd. rewrite length_app. lia. }
  destruct w as [|c w].
  - destruct (strchr_bound slash ltac:(done) (S (length u)) p [] u i rest) as (mp & E1 & _ & _ & Hm1); try done; [by apply noslash_not|].
    destruct (strchr_bound bslash ltac:(done) (S (length u)) p [] u i rest) as (mp2 & E2 & _ & _ & Hm2); try done; [by apply noslash_not|].
    specialize (Hm1 eq_refl). specialize (Hm2 eq_refl). subst. by exists None, None.
  - unfold is_slash_or_bslash in Hw. apply orb_true_iff in Hw as [->%Z.eqb_eq | ->%Z.eqb_eq].
    + destruct (strchr_bound slash ltac:(done) (S (length u)) p (slash :: w) u i rest) as (mp & E1 & _ & Hmp & _); try done; [by apply noslash_not|].
      destruct (strchr_bound bslash ltac:(done) (S (length u)) p (slash :: w) u i rest) as (mp2 & E2 & Hmp2 & _ & _); try done; [by apply noslash_not|].
      exists mp, mp2. split_and!; [done|done|]. rewrite (Hmp w eq_refl). unfold first_of. destruct mp2 as [q|]; [|done].
      specialize (Hmp2 q eq_refl). by destruct (Nat.ltb_spec q (i + length p)); [lia|].
    + destruct (strchr_bound slash ltac:(done) (S (length u)) p (bslash :: w) u i rest) as (mp & E1 & Hmp & _ & _); try done; [by apply noslash_not|].
      destruct (strchr_bound bslash ltac:(done) (S (length u)) p (bslash :: w) u i rest) as (mp2 & E2 & _ & Hmp2 & _); try done; [by apply noslash_not|].
      exists mp, mp2. split_and!; [done|done|]. rewrite (Hmp2 w eq_refl). unfold first_of. destruct mp as [q|]; [|done].
      specialize (Hmp q eq_refl). destruct (Nat.ltb_spec (i + length p) q); [done|]. f_equal. lia.
Qed.

(** The search backwards. *)
Lemma strrchr_none ch rest : forall fuel s b off last, drop off b = s ++ 0 :: rest -> nonul s -> Forall (fun c => c <> ch) s ->
  (length s < fuel)%nat -> strrchr_loop fuel b off ch last = Ok last.
Proof.
  induction fuel as [|fuel IH]; intros s b off last Hd Hn Hs Hf; [lia|]. cbn [strrchr_loop]. destruct s as [|c s]; cbn [app] in Hd;
    rewrite (rd_drop _ _ _ _ Hd), bind_ok; [done|]. apply nonul_cons in Hn as [Hc Hn]. rewrite (proj2 (Z.eqb_neq _ _) Hc).
  pose proof (Forall_inv Hs) as Hne. rewrite (proj2 (Z.eqb_neq _ _) Hne). apply drop_next in Hd. simpl in Hf.
  apply (IH s); [done|done|by apply Forall_inv_tail in Hs|lia].
Qed.

Lemma strrchr_last ch rest p : nonul p -> Forall (fun c => c <> ch) p -> ch <> 0 ->
  forall fuel a b off last, drop off b = a ++ ch :: p ++ 0 :: rest -> nonul a -> (S (length a + length p) < fuel)%nat ->
  strrchr_loop fuel b off ch last = Ok (Some (off + length a)%nat).
Proof.
  intros Hnp Hp Hch. induction fuel as [|fuel IH]; intros a b off last Hd Hn Hf; [lia|]. cbn [strrchr_loop].
  destruct a as [|c a]; cbn [app] in Hd; rewrite (rd_drop _ _ _ _ Hd), bind_ok; apply drop_next in Hd.
  - rewrite (proj2 (Z.eqb_neq _ _) Hch), Z.eqb_refl. rewrite (strrchr_none ch rest _ p); [|done|done|done|simpl in Hf; lia].
    by rewrite Nat.add_0_r.
  - apply nonul_cons in Hn as [Hc Hn]. rewrite (proj2 (Z.eqb_neq _ _) Hc). simpl in Hf.
    rewrite (IH a) by (done || lia). simpl. do 2 f_equal. lia.
Qed.

(** ** The loops *)
Definition good (p : list Z) : Prop := nonul p /\ noslash p.

Lemma good_text stack : Forall good stack -> nonul (text stack) /\ Forall (fun c => c <> bslash) (text stack).
Proof.
  induction 1 as [|p stack [Hn Hp] _ [IH1 IH2]]; [by split; constructor|]. rewrite text_cons.
  split; (apply Forall_app; split; [done|]; apply Forall_app; split; [|by constructor]); [done|by apply noslash_not].
Qed.

Section Loops.
Context (url rest pre : list Z).

(** The copy that holds a stack behind the root, and the position behind it. *)
Definition copy_of (stack : list (list Z)) (junk : list Z) : list Z := pre ++ slash :: text stack ++ junk.
Definition pos_of (stack : list (list Z)) : nat := (length pre + S (length (text stack)))%nat.

Lemma cut_slash p stack junk :
  wr (copy_of (p :: stack) junk) (pos_of (p :: stack) - 1) 0 = Ok (copy_of stack (p ++ 0 :: junk)).
Proof.
  unfold copy_of, pos_of. rewrite text_cons.
  replace (pre ++ slash :: (text stack ++ p ++ [slash]) ++ junk) with ((pre ++ slash :: text stack ++ p) ++ slash :: junk)
    by (rewrite <- !app_assoc; cbn [app]; by rewrite <- !app_assoc).
  rewrite wr_app by (rewrite !length_app; simpl; rewrite !length_app; simpl; lia).
  rewrite <- !app_assoc. cbn [app]. by rewrite <- !app_assoc.
Qed.

Lemma cut_root junk : wr (copy_of [] junk) (pos_of [] - 1) 0 = Ok (pre ++ 0 :: junk).
Proof. unfold copy_of, pos_of. rewrite wr_app by (simpl; lia). done. Qed.

Lemma copy_of_drop stack junk : drop (length pre) (copy_of stack junk) = slash :: text stack ++ junk.
Proof. apply drop_app_length. Qed.

(** The search from the root finds the slash in front of the last segment. *)
Lemma back_slash p stack junk : good p -> Forall good stack ->
  strrchr (copy_of stack (p ++ 0 :: junk)) (length pre) slash = Ok (Some (pos_of stack - 1)%nat).
Proof.
  intros [Hn Hp] Hs. destruct (good_text _ Hs) as [Ht _]. destruct (text_last stack) as (a & Ea & Hl).
  unfold strrchr. rewrite (strrchr_last slash junk p Hn) with (a := a).
  - do 2 f_equal. unfold pos_of. lia.
  - by apply noslash_not.
  - done.
  - rewrite copy_of_drop, app_comm_cons, Ea, <- app_assoc. done.
  - assert (Hc : nonul (slash :: text stack)) by (by constructor). rewrite Ea in Hc. by apply nonul_app in Hc as [? _].
  - unfold copy_of. rewrite length_app. simpl. rewrite !length_app. simpl. lia.
Qed.

Lemma back_bslash p stack junk : good p -> Forall good stack ->
  strrchr (copy_of stack (p ++ 0 :: junk)) (length pre) bslash = Ok None.
Proof.
  intros [Hn Hp] Hs. destruct (good_text _ Hs) as [Ht Hb]. unfold strrchr.
  rewrite (strrchr_none bslash junk _ (slash :: text stack ++ p)); [done|..].
  - rewrite copy_of_drop. cbn [app]. by rewrite <- app_assoc.
  - constructor; [done|]. by apply nonul_app.
  - constructor; [done|]. apply Forall_app. split; [done|by apply noslash_not].
  - unfold copy_of. rewrite length_app. simpl. rewrite !length_app. simpl. lia.
Qed.

Lemma back_root junk ch : strrchr (pre ++ 0 :: junk) (length pre) ch = Ok None.
Proof.
  unfold strrchr. rewrite (strrchr_none ch junk _ []); [done|apply drop_app_length|constructor|constructor|].
  rewrite length_app. simpl. lia.
Qed.

(** What a loop makes of a stack and the text in front of it. *)
Definition reaches (stack : list (list Z)) (w junk : list Z) (r : outcome (list Z * nat * nat)) : Prop :=
  exists stack' w' junk' wk1', r = Ok (copy_of stack' junk', wk1', pos_of stack') /\ drop wk1' url = w' ++ 0 :: rest /\
    nonul w' /\ (length w' <= length w)%nat /\ Forall good stack' /\ (length w' + length junk <= length w + length junk')%nat /\
    resolve stack (pieces w) = literally stack' (pieces w').

Lemma reaches_here stack w junk wk1 : drop wk1 url = w ++ 0 :: rest -> nonul w -> Forall good stack ->
  resolve stack (pieces w) = literally stack (pieces w) -> reaches stack w junk (Ok (copy_of stack junk, wk1, pos_of stack)).
Proof. intros. exists stack, w, junk, wk1. split_and!; (done || lia). Qed.

Lemma reaches_from stack w junk stack' w' junk' r : reaches stack' w' junk' r -> (length w' <= length w)%nat ->
  (length w' + length junk <= length w + length junk')%nat -> resolve stack (pieces w) = resolve stack' (pieces w') ->
  reaches stack w junk r.
Proof.
  intros (st & v & j & k & H1 & H2 & H3 & H4 & H5 & H6 & H7) Hl Hj He. exists st, v, j, k. split_and!; try done; try lia. congruence.
Qed.

Lemma dot_loop_up fuel w junk wk1 : 
  (forall stack w junk wk1, drop wk1 url = w ++ 0 :: rest -> nonul w -> (length w < fuel)%nat -> Forall good stack ->
    reaches stack w junk (dot_loop slash url fuel (length pre) (copy_of stack junk) wk1 (pos_of stack))) ->
  forall stack, drop wk1 url = dot :: dot :: w ++ 0 :: rest -> nonul w -> (S (length w) < fuel)%nat -> Forall good stack ->
  match w with [] => True | c :: _ => is_up_end c = true end ->
  reaches stack (dot :: dot :: w) junk (dot_loop slash url (S fuel) (length pre) (copy_of stack junk) wk1 (pos_of stack)).
Proof.
  intros IH stack Hd Hn Hf Hg Hw. cbn [dot_loop]. pose proof (drop_next _ _ _ _ Hd) as Hd1. pose proof (drop_next _ _ _ _ Hd1) as Hd2.
  rewrite (rd_drop _ _ _ _ Hd), bind_ok. change (dot =? dot) with true. cbn [negb].
  rewrite (rd_drop _ _ _ _ Hd1), bind_ok. change (is_slash_or_bslash dot) with false. cbv iota.
  unfold is_dotdot. change (dot =? dot) with true. cbv iota. replace (wk1 + 2)%nat with (S (S wk1)) by lia.
  replace (wk1 + 3)%nat with (S (S (S wk1))) by lia.
  destruct (head_or_nul w rest) as (c2 & l & El). rewrite El in Hd2. rewrite (rd_drop _ _ _ _ Hd2), !bind_ok.
  fold (is_up_end c2). assert (Hup : is_up_end c2 = true) by (destruct w; by injection El as <- <-). rewrite Hup.
  destruct stack as [|p stack].
  - rewrite cut_root, bind_ok. rewrite !back_root, !bind_ok. cbn [first_of].
    rewrite wr_app, bind_ok by (unfold pos_of; simpl; lia). 
    apply (reaches_here [] (dot :: dot :: w)); [done| |done|apply resolve_root]. by repeat constructor.
  - pose proof (Forall_inv Hg) as Hp. apply Forall_inv_tail in Hg.
    rewrite cut_slash, bind_ok, back_slash, bind_ok, back_bslash, bind_ok by done. cbn [first_of].
    replace (S (pos_of stack - 1)) with (pos_of stack) by (unfold pos_of; lia). rewrite bind_ok.
    destruct w as [|c w]; injection El as <- <-.
    + change (is_slash_or_bslash 0) with false. cbv iota.
      eapply reaches_from; [apply (IH stack [] (p ++ 0 :: junk)); [done|done|simpl in *; lia|done]| | |]; simpl; try lia.
      * rewrite length_app. simpl. lia.
      * done.
    + destruct (is_slash_or_bslash c) eqn:Es.
      * apply drop_next in Hd2. apply nonul_cons in Hn as [_ Hn].
        eapply reaches_from; [apply (IH stack w (p ++ 0 :: junk)); [done|done|simpl in *; lia|done]| | |by apply resolve_up_slash];
          simpl; try rewrite length_app; simpl; lia.
      * eapply reaches_from; [apply (IH stack (c :: w) (p ++ 0 :: junk)); [done|done|simpl in *; lia|done]| | |];
          [simpl; lia|simpl; rewrite length_app; simpl; lia|].
        apply resolve_up_query. apply nonul_cons in Hn as [Hc0 _]. unfold is_up_end in Hup. rewrite Es in Hup.
        rewrite (proj2 (Z.eqb_neq _ _) Hc0), orb_false_r in Hup. done.
Qed.

Lemma dot_loop_stack : forall fuel stack w junk wk1, drop wk1 url = w ++ 0 :: rest -> nonul w -> (length w < fuel)%nat ->
  Forall good stack -> reaches stack w junk (dot_loop slash url fuel (length pre) (copy_of stack junk) wk1 (pos_of stack)).
Proof.
  induction fuel as [|fuel IH]; intros stack w junk wk1 Hd Hn Hf Hg; [lia|].
  destruct w as [|c w]; cbn [app] in Hd.
  { cbn [dot_loop]. rewrite (rd_drop _ _ _ _ Hd), bind_ok. change (0 =? dot) with false. cbn [negb].
    apply reaches_here; [done|done|done|]. by apply resolve_no_dot. }
  destruct (Z.eq_dec c dot) as [->|Hc].
  2:{ cbn [dot_loop]. rewrite (rd_drop _ _ _ _ Hd), bind_ok, (proj2 (Z.eqb_neq _ _) Hc). cbn [negb].
      apply reaches_here; [done|done|done|]. by apply resolve_no_dot. }
  pose proof (drop_next _ _ _ _ Hd) as Hd1. destruct (head_or_nul w rest) as (c1 & l & El). rewrite El in Hd1.
  destruct (is_slash_or_bslash c1) eqn:E1.
  { cbn [dot_loop]. rewrite (rd_drop _ _ _ _ Hd), bind_ok. change (dot =? dot) with true. cbn [negb].
    rewrite (rd_drop _ _ _ _ Hd1), bind_ok, E1. destruct w as [|c w]; injection El as <- <-; [done|].
    apply drop_next in Hd1. replace (wk1 + 2)%nat with (S (S wk1)) by lia. apply nonul_cons in Hn as [_ Hn].
    apply nonul_cons in Hn as [_ Hn]. simpl in Hf.
    eapply reaches_from; [apply (IH stack w junk); [done|done|lia|done]| | |by apply resolve_dot]; simpl; lia. }
  assert (Hup : (exists w2, w = dot :: w2 /\ match w2 with [] => True | c2 :: _ => is_up_end c2 = true end) \/
    is_dotdot url wk1 c1 = Ok false /\ match w with
    | [] => True
    | c :: w => is_slash_or_bslash c = false /\ (c = dot -> match w with [] => False | c2 :: _ => is_up_end c2 = false end)
    end).
  { unfold is_dotdot. destruct w as [|c w]; injection El as <- <-; [by right|]. destruct (Z.eqb_spec c dot) as [->|]; [|by right].
    apply drop_next in Hd1. destruct w as [|c2 w]; [left; by exists []|]. replace (wk1 + 2)%nat with (S (S wk1)) by lia.
    cbn [app] in Hd1. rewrite (rd_drop _ _ _ _ Hd1), bind_ok. fold (is_up_end c2).
    destruct (is_up_end c2) eqn:E2; [left; by exists (c2 :: w)|by right]. }
  destruct Hup as [(w2 & -> & Hup)|[Hdd Hname]].
  - apply dot_loop_up; try done; [by do 2 apply nonul_cons in Hn as [_ Hn]|simpl in Hf; lia].
  - cbn [dot_loop]. rewrite (rd_drop _ _ _ _ Hd), bind_ok. change (dot =? dot) with true. cbn [negb].
    rewrite (rd_drop _ _ _ _ Hd1), bind_ok, E1, Hdd, bind_ok. apply reaches_here; [|done|done|by apply resolve_name].
    done.
Qed.

Lemma drop_end (i : nat) l (u : list Z) : drop i u = 0 :: l -> i = (length u - S (length l))%nat.
Proof. intros H. apply (f_equal length) in H. rewrite length_drop in H. simpl in H. lia. Qed.

Lemma rd_list_snoc u k w r : drop k u = w ++ 0 :: r -> rd_list u k (S (length w)) = Ok (w ++ [0]).
Proof.
  intros Hd. rewrite rd_list_Ok, Hd.
  - rewrite take_app_ge by lia. replace (S (length w) - length w)%nat with 1%nat by lia. cbn [take]. by rewrite take_0.
  - apply (f_equal length) in Hd. rewrite length_drop, length_app in Hd. simpl in Hd. lia.
Qed.

Lemma copy_rest_at u r d junk wk1 w : drop wk1 u = w ++ 0 :: r -> nonul w -> (length w < length junk)%nat ->
  copy_rest u (d ++ junk) wk1 (length d) = Ok (d ++ w ++ 0 :: drop (S (length w)) junk, length w).
Proof.
  intros Hd Hn Hl. unfold copy_rest. rewrite (wcslen_drop u wk1 w r), bind_ok by done.
  rewrite (rd_list_snoc u wk1 w r), bind_ok by done. rewrite <- (take_drop (S (length w)) junk) at 1.
  rewrite wr_list_app, bind_ok by (rewrite ?length_take, ?length_app; cbn [length]; lia).
  rewrite <- !app_assoc. cbn [app]. done.
Qed.

Lemma copy_rest_text stack junk wk1 w : drop wk1 url = w ++ 0 :: rest -> nonul w -> (length w < length junk)%nat ->
  copy_rest url (copy_of stack junk) wk1 (pos_of stack) =
    Ok (pre ++ slash :: text stack ++ w ++ 0 :: drop (S (length w)) junk, length w).
Proof.
  intros Hd Hn Hl. unfold copy_of, pos_of. rewrite app_comm_cons, app_assoc.
  replace (length pre + S (length (text stack)))%nat with (length (pre ++ slash :: text stack)) by (rewrite length_app; simpl; lia).
  rewrite (copy_rest_at url rest _ junk wk1 w) by done. by rewrite <- app_assoc.
Qed.

(** A segment and its slash are stored behind the stack. *)
Lemma push_piece p stack junk c : (length p < length junk)%nat ->
  exists copy1 junk', length junk = (length p + S (length junk'))%nat /\
    wr_list (copy_of stack junk) (pos_of stack) p = Ok copy1 /\
    put_slash slash copy1 (pos_of stack + length p) c = Ok (copy_of (p :: stack) junk', pos_of (p :: stack)).
Proof.
  intros Hl. destruct (lookup_lt_is_Some_2 junk (length p) Hl) as [x Hx].
  eexists _, (drop (S (length p)) junk). split; [rewrite length_drop; lia|]. rewrite <- (take_drop (length p) junk) at 1. rewrite (drop_S _ _ _ Hx).
  unfold copy_of, pos_of.
  replace (pre ++ slash :: text stack ++ take (length p) junk ++ x :: drop (S (length p)) junk)
    with ((pre ++ slash :: text stack) ++ take (length p) junk ++ x :: drop (S (length p)) junk) by (by rewrite <- app_assoc).
  rewrite wr_list_app by (rewrite ?length_take, ?length_app; cbn [length]; lia). split; [done|].
  unfold put_slash, put. cbn [Z.eqb slash]. rewrite app_assoc, wr_app, bind_ok by (rewrite !length_app; simpl; lia).
  rewrite text_cons, !length_app. cbn [length]. f_equal. f_equal; [|lia].
  rewrite <- ?app_assoc. cbn [app]. by rewrite <- ?app_assoc.
Qed.

(** The loop over the segments leaves their resolution behind the root. *)
Lemma segment_loop_stack : forall fuel stack w junk wk1, drop wk1 url = w ++ 0 :: rest -> nonul w -> (length w < fuel)%nat ->
  Forall good stack -> (length w < length junk)%nat ->
  exists junk', (0 < length junk')%nat /\
    segment_loop slash url fuel (length pre) (copy_of stack junk) wk1 (pos_of stack) =
      Ok (pre ++ slash :: literally stack (pieces w) ++ junk', (length url - S (length rest))%nat,
          (length pre + S (length (literally stack (pieces w))))%nat).
Proof.
  induction fuel as [|fuel IH]; intros stack w junk wk1 Hd Hn Hf Hg Hj; [lia|]. destruct w as [|c0 w0].
  { exists junk. split; [simpl in Hj; lia|]. cbn [segment_loop]. rewrite (rd_drop _ _ _ _ Hd), bind_ok. cbn [Z.eqb pieces literally].
    rewrite app_nil_r. do 2 f_equal. f_equal. by rewrite (drop_end _ _ _ Hd). }
  cbn [segment_loop]. cbn [app] in Hd. rewrite (rd_drop _ _ _ _ Hd), bind_ok. pose proof (nonul_cons _ _ Hn) as [Hc0 _].
  rewrite (proj2 (Z.eqb_neq _ _) Hc0). destruct (first_piece (c0 :: w0)) as (p & Hp & [Ew|(c & w & Ew & Hc)]).
  - destruct (first_slash url wk1 p [] rest) as (mp & mp2 & E1 & E2 & E3); [by rewrite <- Ew|by rewrite app_nil_r, <- Ew|done|done|].
    rewrite E1, bind_ok, E2, bind_ok, E3. change (c0 :: w0 ++ 0 :: rest) with ((c0 :: w0) ++ 0 :: rest) in Hd. rewrite Ew in *.
    rewrite (copy_rest_text stack junk wk1 p) by (done || lia). rewrite bind_ok. clear E1 E2 E3 IH. apply drop_more in Hd.
    destruct fuel as [|fuel]; [subst p; simpl in Hf; lia|]. cbn [segment_loop]. rewrite (rd_drop _ _ _ _ Hd), bind_ok. cbn [Z.eqb].
    exists (0 :: drop (S (length p)) junk). split; [simpl; lia|]. rewrite pieces_last by done. cbn [literally].
    rewrite <- app_assoc. do 2 f_equal; [|rewrite length_app; unfold pos_of; lia]. f_equal. by rewrite (drop_end _ _ _ Hd).
  - change (c0 :: w0 ++ 0 :: rest) with ((c0 :: w0) ++ 0 :: rest) in Hd. rewrite Ew in *. clear c0 w0 Hc0 Ew.
    rewrite <- app_assoc in Hd. cbn [app] in Hd. pose proof Hn as [Hnp Hnw]%nonul_app. apply nonul_cons in Hnw as [Hc0 Hnw].
    destruct (first_slash url wk1 p (c :: w) rest) as (mp & mp2 & E1 & E2 & E3); try done.
    rewrite E1, bind_ok, E2, bind_ok, E3. rewrite length_app in *; cbn [length] in *.
    replace (wk1 + length p - wk1)%nat with (length p) by lia. rewrite (rd_list_drop _ _ _ p c _ Hd), bind_ok by done.
    pose proof (drop_more _ _ _ _ Hd) as Hd1. apply drop_next in Hd1 as Hd2.
    destruct (push_piece p stack junk c) as (copy1 & junk1 & Hl1 & Ew1 & Ep); [lia|].
    rewrite Ew1, bind_ok, (rd_drop _ _ _ _ Hd1), bind_ok, Ep, bind_ok.
    destruct (dot_loop_stack (S (length url)) (p :: stack) w junk1 (S (wk1 + length p)))
      as (stack2 & w2 & junk2 & wk2 & -> & Hd3 & Hn3 & Hw3 & Hg3 & Hj3 & Hres); [done|done|..].
    { apply (f_equal length) in Hd2. rewrite length_drop, length_app in Hd2. simpl in Hd2. lia. }
    { by constructor. }
    rewrite bind_ok, pieces_app, literally_cons, Hres by done. apply IH; (done || lia).
Qed.

End Loops.

(** ** A URL of the http scheme *)
Section Http.
Context (flags : Z) (nLen : nat) (host w rest : list Z).
Context (Hsimp : flag flags URL_DONT_SIMPLIFY = false).
Context (Hhost : Forall (fun c => is_host_char c = true) host) (Hh0 : host <> []).
Context (Hw : nonul w) (Hw0 : match w with c :: _ => is_slash_or_bslash c = false | [] => True end).
Let tail := w ++ 0 :: rest.
Let url := L "http://" ++ host ++ slash :: tail.
Let pre := L "http://" ++ host.

Lemma url_drop_host : drop 7 url = host ++ slash :: tail.
Proof. done. Qed.

Lemma url_drop_slash : drop (7 + length host) url = slash :: tail.
Proof. apply drop_more. exact url_drop_host. Qed.

Lemma url_drop_tail : drop (8 + length host) url = tail.
Proof. apply (drop_next url (7 + length host) slash). exact url_drop_slash. Qed.

Lemma copy_host_text u c l : is_host_char c = false -> forall fuel h d j wk1, drop wk1 u = h ++ c :: l ->
  Forall (fun c => is_host_char c = true) h -> (length h < fuel)%nat -> (length h <= length j)%nat ->
  copy_host u fuel (d ++ j) wk1 (length d) =
    Ok ((d ++ h) ++ drop (length h) j, (wk1 + length h)%nat, length (d ++ h)).
Proof.
  intros Hc. induction fuel as [|fuel IH]; intros h d j wk1 Hd Hh Hf Hj; [lia|]. cbn [copy_host]. destruct h as [|b h]; cbn [app] in Hd.
  - rewrite (rd_drop _ _ _ _ Hd), bind_ok, Hc. by rewrite app_nil_r, drop_0, Nat.add_0_r.
  - rewrite (rd_drop _ _ _ _ Hd), bind_ok. pose proof (Forall_inv Hh) as Hb. cbv beta in Hb. rewrite Hb.
    apply Forall_inv_tail in Hh. destruct j as [|x j]; [simpl in Hj; lia|]. simpl in Hf, Hj.
    unfold put. rewrite wr_app, !bind_ok by done. cbv beta iota.
    replace (d ++ b :: j) with ((d ++ [b]) ++ j) by (by rewrite <- app_assoc).
    replace (S (length d)) with (length (d ++ [b])) by (rewrite length_app; simpl; lia).
    rewrite (IH h (d ++ [b]) j (S wk1)) by (eauto using drop_next || lia). cbn [length drop].
    rewrite <- (app_assoc d [b] h). cbn [app]. by replace (S wk1 + length h)%nat with (wk1 + S (length h))%nat by lia.
Qed.

Lemma put_next d x j c k : k = length d -> put (d ++ x :: j) k c = Ok (d ++ c :: j, S k).
Proof. intros ->. unfold put. by rewrite wr_app by done. Qed.

(** The scheme: two characters, the rest of it, the colon and two slashes. *)
Lemma machine_scheme copy fuel : (8 <= length copy)%nat -> exists j, length j = (length copy - 8)%nat /\
  machine_loop flags slash false nLen url (5 + fuel) 0 copy 0 0 =
  machine_loop flags slash false nLen url fuel 4 (L "http://" ++ 0 :: j) 7 7.
Proof.
  intros Hl. destruct copy as [|x0 [|x1 [|x2 [|x3 [|x4 [|x5 [|x6 [|x7 j]]]]]]]]; try (simpl in Hl; lia).
  exists j. split; [simpl; lia|].
  change (machine_loop flags slash false nLen url (5 + fuel) 0 _ 0 0)
    with (machine_loop flags slash false nLen url (S fuel) 2 (L "http:" ++ 0 :: x6 :: x7 :: j) 5 5).
  assert (E : machine_step flags slash false nLen url 2 (L "http:" ++ 0 :: x6 :: x7 :: j) 5 5 =
    Ok (4%nat, L "http://" ++ x7 :: j, 7%nat, 7%nat)).
  { cbn [machine_step]. unfold case2. change (rd url 5) with (Ok slash). change (rd url 6) with (Ok slash).
    rewrite bind_ok, (put_next (L "http:")), bind_ok by done. cbv zeta beta iota. rewrite bind_ok.
    change (negb (slash =? slash)) with false. cbv iota.
    change (L "http:" ++ slash :: x6 :: x7 :: j) with (L "http:/" ++ x6 :: x7 :: j).
    rewrite (put_next (L "http:/")), bind_ok by done. cbv beta iota. rewrite andb_false_r, !bind_ok.
    destruct host as [|h host']; [done|]. change (rd url 7) with (Ok h). rewrite bind_ok.
    pose proof (Forall_inv Hhost) as Hh. cbv beta in Hh. destruct (Z.eqb_spec h slash) as [->|]; [done|]. done. }
  cbn [machine_loop]. change (rd url 5) with (Ok slash). rewrite bind_ok. change (slash =? 0) with false. cbv iota.
  rewrite E, bind_ok. cbv beta iota. rewrite wr_app, bind_ok by done. done.
Qed.

(** The host. *)
Lemma machine_host j fuel : (length host <= length j)%nat -> exists j', length j' = (length j - length host)%nat /\
  machine_loop flags slash false nLen url (S fuel) 4 (L "http://" ++ 0 :: j) 7 7 =
  machine_loop flags slash false nLen url fuel 5 (pre ++ 0 :: j') (7 + length host) (length pre).
Proof.
  intros Hl. exists (drop (length host) j). split; [by rewrite length_drop|].
  assert (Hh : exists h, rd url 7 = Ok h /\ is_host_char h = true).
  { destruct host as [|h host']; [done|]. exists h. split; [done|]. by pose proof (Forall_inv Hhost). }
  destruct Hh as (h & E7 & Hh). assert (Hz : h <> 0) by (by intros ->).
  cbn [machine_loop machine_step]. rewrite E7, bind_ok, (proj2 (Z.eqb_neq _ _) Hz). unfold case4. rewrite E7, bind_ok, Hh. cbn [negb].
  change 7%nat with (length (L "http://")) at 2.
  rewrite (copy_host_text url slash tail eq_refl _ host (L "http://")); [|exact url_drop_host|done| |simpl; lia].
  2:{ unfold url. rewrite !length_app. simpl. lia. }
  rewrite bind_ok. cbv beta iota. rewrite (rd_drop _ _ _ _ url_drop_slash), bind_ok. cbn [Z.eqb slash]. rewrite bind_ok.
  cbv beta iota. fold pre. destruct (drop (length host) (0 :: j)) as [|x j1] eqn:Ej.
  { apply (f_equal length) in Ej. rewrite length_drop in Ej. simpl in Ej. lia. }
  rewrite wr_app, bind_ok by done. assert (j1 = drop (length host) j) as -> by (apply drop_next in Ej; exact (eq_sym Ej)). done.
Qed.

(** The slash behind it. *)
Lemma machine_slash j fuel : (2 <= length j)%nat -> exists j', length j' = (length j - 1)%nat /\
  machine_loop flags slash false nLen url (S fuel) 5 (pre ++ 0 :: j) (7 + length host) (length pre) =
  machine_loop flags slash false nLen url fuel 6 (pre ++ slash :: 0 :: j') (8 + length host) (S (length pre)).
Proof.
  intros Hl. destruct j as [|x j]; [simpl in Hl; lia|]. exists j. split; [simpl; lia|].
  cbn [machine_loop machine_step]. rewrite (rd_drop _ _ _ _ url_drop_slash), bind_ok. cbn [Z.eqb slash].
  unfold case5. rewrite (rd_drop _ _ _ _ url_drop_slash), bind_ok. change (negb (is_slash_or_bslash slash)) with false. cbv iota.
  assert (E : exists n, length url = S n) by (by eexists). destruct E as [n ->]. cbn [copy_slashes].
  rewrite (rd_drop _ _ _ _ url_drop_slash), bind_ok. change (is_slash_or_bslash slash) with true. cbv iota.
  unfold put_slash, put. cbn [Z.eqb slash]. rewrite wr_app, !bind_ok by done. cbv beta iota.
  change (S (7 + length host)) with (8 + length host)%nat. pose proof url_drop_tail as Ht. unfold tail in Ht.
  destruct (head_or_nul w rest) as (c & l & El). rewrite El in Ht. rewrite (rd_drop _ _ _ _ Ht), bind_ok.
  assert (Hc : is_slash_or_bslash c = false) by (destruct w; by injection El as <- <-). rewrite Hc, !bind_ok. cbv beta iota.
  assert (E : wr (pre ++ slash :: x :: j) (S (length pre)) 0 = Ok (pre ++ slash :: 0 :: j)).
  { change (slash :: x :: j) with ([slash] ++ x :: j). rewrite app_assoc, wr_app by (rewrite length_app; simpl; lia).
    by rewrite <- app_assoc. }
  rewrite E, bind_ok. done.
Qed.

(** The path. *)
Lemma machine_path j fuel : (length w <= length j)%nat -> exists j',
  machine_loop flags slash false nLen url (S (S fuel)) 6 (pre ++ slash :: 0 :: j) (8 + length host) (S (length pre)) =
  Ok (pre ++ slash :: remove_dots w ++ 0 :: j').
Proof.
  intros Hl. cbn [machine_loop machine_step]. pose proof url_drop_tail as Ht. unfold tail in Ht.
  destruct (head_or_nul w rest) as (c & l & El). rewrite El in Ht. rewrite (rd_drop _ _ _ _ Ht), bind_ok. rewrite <- El in Ht.
  destruct (Z.eqb_spec c 0) as [->|Hc].
  { destruct w as [|c' w']; [|injection El as -> _; by apply nonul_cons in Hw as [? _]]. exists j. done. }
  unfold case6. rewrite Hsimp. replace (S (length pre) - 1)%nat with (length pre) by lia.
  destruct (segment_loop_stack url rest pre (S (length url)) [] w (0 :: j) (8 + length host) Ht Hw) as (j' & Hj' & E).
  { apply (f_equal length) in Ht. rewrite length_drop, length_app in Ht. cbn [length] in Ht. lia. }
  { constructor. }
  { simpl. lia. }
  unfold copy_of, pos_of in E. cbn [text rev map concat app length] in E. 
  replace (length pre + 1)%nat with (S (length pre)) in E by lia. rewrite E, bind_ok. cbv beta iota. fold (remove_dots w).
  destruct j' as [|x j']; [simpl in Hj'; lia|]. rewrite app_comm_cons, app_assoc.
  rewrite wr_app, !bind_ok by (rewrite length_app; simpl; lia). cbv beta iota.
  rewrite wr_app, bind_ok by (rewrite length_app; simpl; lia).
  assert (Hend : rd url (length url - S (length rest)) = Ok 0).
  { apply drop_more in Ht. rewrite <- (drop_end _ _ _ Ht). by apply (rd_drop _ _ _ rest). }
  rewrite Hend, bind_ok. cbn [Z.eqb]. exists j'. by rewrite <- app_assoc.
Qed.

Lemma http_simplified copy : flag flags URL_UNESCAPE = false -> nonul (remove_dots w) -> (5 <= nLen)%nat ->
  length copy = (18 + length host + length w)%nat -> exists r,
  simplify_url url copy nLen flags = Ok (trim_end (pre ++ slash :: remove_dots w) ++ 0 :: r, flags).
Proof.
  intros Hun Hrd Hn Hc. unfold simplify_url. change (starts url 0 (L "file:")) with (Ok false). rewrite bind_ok.
  unfold slash_of. rewrite (proj2 (Nat.leb_le 5 nLen) Hn), (proj2 (Nat.leb_le 4 nLen)) by lia.
  change (starts url 0 (L "http:")) with (Ok true). change (starts url 0 (L "res:")) with (Ok false). rewrite !bind_ok.
  rewrite andb_false_r. cbn [orb]. cbv beta zeta iota. unfold machine_start. change (rd url 1) with (Ok 116).
  change (rd url 0) with (Ok 104). rewrite !bind_ok. change (116 =? colon) with false. cbv iota. rewrite !bind_ok.
  change (104 =? slash) with false. cbv iota beta.
  assert (Hlu : length url = (8 + length host + length w + S (length rest))%nat).
  { unfold url, tail. rewrite !length_app. cbn [length]. rewrite length_app. simpl. lia. }
  replace (S (S (length url))) with (5 + (S (S (S (S (length url - 7))))))%nat by lia.
  destruct (machine_scheme copy (S (S (S (S (length url - 7)))))) as (j & Hj & ->); [lia|].
  destruct (machine_host j (S (S (S (length url - 7))))) as (j1 & Hj1 & ->); [lia|].
  destruct (machine_slash j1 (S (S (length url - 7)))) as (j2 & Hj2 & ->); [lia|].
  destruct (machine_path j2 (length url - 7)) as (j3 & ->); [lia|]. rewrite bind_ok.
  assert (Ht : nonul (pre ++ slash :: remove_dots w)).
  { unfold pre. apply nonul_app. split; [apply nonul_app; split; [nonul_tac|]|by constructor].
    eapply Forall_impl; [exact Hhost|]. by intros c Hc0 ->. }
  rewrite app_comm_cons, app_assoc. rewrite wcslen_str, bind_ok by done.
  destruct (trim_blanks_text _ (pre ++ slash :: remove_dots w) j3 eq_refl) as (r & ->). rewrite bind_ok.
  exists r. rewrite Hun, andb_false_r. done.
Qed.

End Http.

(** ** The characters of the result *)

Section Kept.
Context (P : Z -> Prop) (Hslash : P slash).

Lemma pieces_kept w : Forall P w -> Forall (Forall P) (pieces w).
Proof.
  induction 1 as [|c w Hc _ IH]; [by repeat constructor|]. simpl.
  destruct (is_slash_or_bslash c); [constructor; [constructor|done]|]. destruct IH as [|p ps Hp Hps]; [by repeat constructor|].
  constructor; [by constructor|done].
Qed.

Lemma text_kept stack : Forall (Forall P) stack -> Forall P (text stack).
Proof.
  induction 1 as [|p stack Hp _ IH]; [constructor|]. rewrite text_cons. apply Forall_app. split; [done|].
  apply Forall_app. split; [done|]. by repeat constructor.
Qed.

Lemma up_tail_kept p u : Forall P p -> up_tail p = Some u -> Forall P u.
Proof.
  intros Hp. destruct p as [|a [|b q]]; [done|done|]. do 2 apply Forall_inv_tail in Hp. simpl.
  destruct (_ && _); [|done]. destruct q as [|c q]; [by intros [= <-]|]. destruct (_ || _); [|done]. by intros [= <-].
Qed.

Lemma resolve_piece_kept stack p : Forall (Forall P) stack -> Forall P p -> Forall (Forall P) (resolve_piece stack p).
Proof.
  intros Hs Hp. unfold resolve_piece. destruct (bool_decide (p = [dot])); [done|].
  destruct (up_tail p) as [u|] eqn:E; [|by constructor]. destruct Hs as [|q stack Hq Hs]; [by repeat constructor|].
  destruct (bool_decide (u = [])); [done|]. constructor; [by eapply up_tail_kept|done].
Qed.

Lemma resolve_kept ps : forall stack, Forall (Forall P) stack -> Forall (Forall P) ps -> Forall P (resolve stack ps).
Proof.
  induction ps as [|p ps IH]; intros stack Hs Hps; [by apply text_kept|].
  pose proof (Forall_inv Hps) as Hp. apply Forall_inv_tail in Hps. cbn [resolve]. destruct ps as [|q qs].
  - destruct (up_tail p) as [u|] eqn:E; [|apply Forall_app; split; [by apply text_kept|done]].
    apply up_tail_kept in E; [|done]. destruct Hs as [|q stack Hq Hs]; apply Forall_app; split; try done; by apply text_kept.
  - apply IH; [by apply resolve_piece_kept|done].
Qed.

(** The result has no characters but slashes and those of the path. *)
Lemma remove_dots_kept w : Forall P w -> Forall P (remove_dots w).
Proof.
  intros Hw. unfold remove_dots, literally. pose proof (pieces_kept w Hw) as Hps. destruct (pieces w) as [|p ps]; [constructor|].
  pose proof (Forall_inv Hps) as Hp. apply Forall_inv_tail in Hps. destruct ps as [|q qs]; [done|].
  apply resolve_kept; [by repeat constructor|done].
Qed.

End Kept.

Lemma remove_dots_nonul w : nonul w -> nonul (remove_dots w).
Proof. by apply (remove_dots_kept (fun c => c <> 0)). Qed.

(** Nor is it longer. *)
Definition total (ps : list (list Z)) : nat := sum_list_with (fun p => S (length p)) ps.

Lemma pieces_total w : total (pieces w) = S (length w).
Proof.
  induction w as [|c w IH]; [done|]. simpl. pose proof (pieces_nonempty w) as Hn. destruct (is_slash_or_bslash c); simpl; [lia|].
  destruct (pieces w) as [|p ps]; [done|]. simpl in *. lia.
Qed.

Lemma text_length_cons p stack : length (text (p :: stack)) = (length (text stack) + S (length p))%nat.
Proof. rewrite text_cons, !length_app. simpl. lia. Qed.

Lemma up_tail_length p u : up_tail p = Some u -> (length u <= length p)%nat.
Proof.
  destruct p as [|a [|b q]]; [done|done|]. simpl. destruct (_ && _); [|done].
  destruct q as [|c q]; [intros [= <-]; simpl; lia|]. destruct (_ || _); [|done]. intros [= <-]. simpl. lia.
Qed.

Lemma resolve_piece_length stack p : (length (text (resolve_piece stack p)) <= length (text stack) + S (length p))%nat.
Proof.
  unfold resolve_piece. destruct (bool_decide (p = [dot])); [lia|].
  destruct (up_tail p) as [u|] eqn:E; [|rewrite text_length_cons; lia]. apply up_tail_length in E.
  destruct stack as [|q stack]; [rewrite text_length_cons; lia|]. rewrite (text_length_cons q).
  destruct (bool_decide (u = [])); [lia|]. rewrite text_length_cons. lia.
Qed.

Lemma resolve_length ps : forall stack, ps <> [] -> (S (length (resolve stack ps)) <= length (text stack) + total ps)%nat.
Proof.
  induction ps as [|p ps IH]; intros stack Hps; [done|]. cbn [resolve]. destruct ps as [|q qs].
  - unfold total. cbn [sum_list_with]. destruct (up_tail p) as [u|] eqn:E; [apply up_tail_length in E|rewrite length_app; lia].
    destruct stack as [|q stack]; rewrite ?text_length_cons, length_app; lia.
  - specialize (IH (resolve_piece stack p) ltac:(done)). pose proof (resolve_piece_length stack p). unfold total in *.
    cbn [sum_list_with] in *. lia.
Qed.

Lemma remove_dots_length w : (length (remove_dots w) <= length w)%nat.
Proof.
  pose proof (pieces_total w) as Ht. pose proof (pieces_nonempty w) as Hn. unfold remove_dots, literally.
  destruct (pieces w) as [|p [|q ps]]; [done|unfold total in Ht; simpl in *; lia|].
  pose proof (resolve_length (q :: ps) [p] ltac:(done)) as H. rewrite text_length_cons in H. unfold total in *.
  cbn [sum_list_with length text rev map concat] in *. simpl in *. lia.
Qed.

Lemma without_tabs_id s : Forall (fun c => c <> tab) s -> without_tabs s = s.
Proof. induction 1 as [|c s Hc _ IH]; [done|]. simpl. rewrite (proj2 (Z.eqb_neq _ _) Hc). simpl. by rewrite IH. Qed.

(** The whole function. *)
Lemma canonicalize_http W heap_alloc host w rest out size flags :
  (forall l, (length (W l) <= 4)%nat) -> heap_total heap_alloc ->
  Forall (fun c => is_host_char c = true) host -> host <> [] ->
  Forall (fun c => c <> 0 /\ c <> tab) w -> match w with c :: _ => is_slash_or_bslash c = false | [] => True end ->
  flag flags URL_DONT_SIMPLIFY = false -> flag flags URL_UNESCAPE = false -> (0 < size <= length out)%nat ->
  let t := stored_url W (trim_end (L "http://" ++ host ++ slash :: remove_dots w)) flags in
  UrlCanonicalizeW W heap_alloc (Some (L "http://" ++ host ++ slash :: w ++ 0 :: rest)) (Some out) (Some size) flags =
    if (length t <? size)%nat then Ok (S_OK, Some (t ++ 0 :: drop (S (length t)) out), Some (length t))
    else Ok (E_POINTER, Some out, Some (length t + 1)%nat).
Proof.
  intros HW Hh Hhost Hh0 Hw Hw0 Hsimp Hun Hsz t. set (s := L "http://" ++ host ++ slash :: w).
  assert (Hnw : nonul w) by (eapply Forall_impl; [exact Hw|]; by intros c [? _]).
  assert (Hns : nonul s /\ Forall (fun c => c <> tab) s).
  { unfold s. split; (apply Forall_app; split; [apply (bool_decide_unpack _); by vm_compute|]; apply Forall_app; split; [|constructor; [done|]]);
      try done; (eapply Forall_impl; [exact Hhost || exact Hw|]); [by intros c Hc ->|by intros c Hc ->|by intros c [_ ?]]. }
  destruct Hns as [Hns Hnt].
  destruct (Hh (length s + 1)%nat) as (url & Ea & Hl). destruct (Hh (S (length s) + 9)%nat) as (copy & Ea2 & Hl2).
  assert (Hls : length s = (8 + length host + length w)%nat) by (unfold s; rewrite !length_app; simpl; lia).
  destruct (http_simplified flags (S (length s)) host w (drop (S (length s)) url) Hsimp Hhost Hh0 Hnw Hw0 copy Hun)
    as (r & Esim); [by apply remove_dots_nonul|lia|lia|].
  assert (Es : forall r, L "http://" ++ host ++ slash :: w ++ 0 :: r = s ++ 0 :: r)
    by (intros; unfold s; rewrite <- !app_assoc; by rewrite <- app_comm_cons).
  rewrite Es in *. pose proof (UrlCanonicalizeW_steps W heap_alloc s rest out size flags url copy Hns) as Hst.
  cbv zeta in Hst. rewrite without_tabs_id in Hst by done. rewrite Hst by (done || lia). rewrite Esim, bind_ok. cbv beta iota. rewrite (store_url_text W HW); [|done| |done].
  - unfold stored_or_size. rewrite <- app_assoc. fold t. by destruct (_ <? _)%nat.
  - apply trim_end_nonul. rewrite <- app_assoc. unfold s in Hns. rewrite !app_assoc in Hns |- *.
    apply nonul_app in Hns as [Hp _]. apply nonul_app. split; [done|]. constructor; [done|]. by apply remove_dots_nonul.
Qed.

(** ** The theorem *)

(** C8. Refinement: on a URL of the http scheme with a host and a path that
    starts behind one slash, without the flags URL_DONT_SIMPLIFY and
    URL_UNESCAPE, UrlCanonicalizeW stores the host and the path that the stack
    of segments [remove_dots] gives.  The segments are what lies between
    slashes and backslashes, which become slashes.  The first segment is
    pushed as it is, also "." or "..".  Of the others a "." that a slash
    follows is dropped; a ".." in front of a slash, a query, a fragment or the
    end takes the last segment off, and is kept as a name when there is none;
    every other segment, also a "." at the end, is kept.  The result is stored
    without the blanks at its end and escaped as the flags ask, or the size
    that is needed is reported. *)
Theorem UrlCanonicalizeW_http W heap_alloc host w rest out size flags :
  (forall l, (length (W l) <= 4)%nat) -> heap_total heap_alloc ->
  Forall (fun c => is_host_char c = true) host -> host <> [] ->
  Forall (fun c => c <> 0 /\ c <> tab) w -> match w with c :: _ => is_slash_or_bslash c = false | [] => True end ->
  flag flags URL_DONT_SIMPLIFY = false -> flag flags URL_UNESCAPE = false -> (0 < size <= length out)%nat ->
  let t := stored_url W (trim_end (L "http://" ++ host ++ slash :: remove_dots w)) flags in
  UrlCanonicalizeW W heap_alloc (Some (L "http://" ++ host ++ slash :: w ++ 0 :: rest)) (Some out) (Some size) flags =
    if (length t <? size)%nat then Ok (S_OK, Some (t ++ 0 :: drop (S (length t)) out), Some (length t))
    else Ok (E_POINTER, Some out, Some (length t + 1)%nat).
Proof. apply canonicalize_http. Qed.

Lemma UrlCanonicalizeW_http_witness :
  UrlCanonicalizeW ascii_utf8 some_heap (Some (L "http://" ++ L "host" ++ slash :: L "a/./b\c/../../d?x " ++ [0]))
    (Some (replicate 30 1)) (Some 30%nat) 0 =
  Ok (S_OK, Some (L "http://host/a/d?x" ++ 0 :: replicate 12 1), Some 17%nat).
Proof.
  apply (UrlCanonicalizeW_http ascii_utf8 some_heap (L "host") (L "a/./b\c/../../d?x ") [] (replicate 30 1) 30 0);
    [apply ascii_utf8_length|apply some_heap_total|by repeat constructor|done|by repeat constructor|done|done|done|simpl; lia].
Defined.

(** ** Limits *)

(** At the root the code puts back its variable for the slash, which is a
    terminator for every scheme but http and file: the rest of the URL is
    lost. *)
(** For "https://host/a/../../x" UrlCanonicalizeW succeeds with the URL
    "https://host", while it keeps the path of "http://host/a/../../x". *)
Theorem UrlCanonicalizeW_https_truncated :
  UrlCanonicalizeW ascii_utf8 some_heap (Some (L "https://host/a/../../x" ++ [0])) (Some (replicate 30 1)) (Some 30%nat) 0 =
    Ok (S_OK, Some (L "https://host" ++ 0 :: replicate 17 1), Some 12%nat) /\
  UrlCanonicalizeW ascii_utf8 some_heap (Some (L "http://host/a/../../x" ++ [0])) (Some (replicate 30 1)) (Some 30%nat) 0 =
    Ok (S_OK, Some (L "http://host/../x" ++ 0 :: replicate 13 1), Some 16%nat).
Proof. by vm_compute. Qed.

(** The canonical form with no flags, in a buffer of 60 characters. *)
Definition canonical_form (url : string) : option (list Z) :=
  match UrlCanonicalizeW ascii_utf8 some_heap (Some (L url ++ [0])) (Some (replicate 60 1)) (Some 60%nat) 0 with
  | Ok (0, Some out, Some n) => Some (take n out)
  | _ => None
  end.

(** URLs of the http scheme from the tests of shlwapi (winetests, url.c, lines
    114 to 130), with the results that these expect. *)
Example UrlCanonicalizeW_tests :
  Forall (fun '(url, expected) => canonical_form url = Some (L expected)) [
    ("http://www.winehq.org/..", "http://www.winehq.org/..");
    ("http://www.winehq.org/tests/tests2/../../tests", "http://www.winehq.org/tests");
    ("http://www.winehq.org/tests/../tests", "http://www.winehq.org/tests");
    ("http://www.winehq.org/tests/../tests/", "http://www.winehq.org/tests/");
    ("http://www.winehq.org/tests/../tests/..", "http://www.winehq.org/");
    ("http://www.winehq.org/tests/../tests/../", "http://www.winehq.org/");
    ("http://www.winehq.org/tests/..?query=x&return=y", "http://www.winehq.org/?query=x&return=y");
    ("http://www.winehq.org/tests/..#example", "http://www.winehq.org/#example");
    ("http://www.winehq.org/tests\../#example", "http://www.winehq.org/#example")]%string.
Proof. repeat constructor; by vm_compute. Qed.

(** And the tests that the code does not meet: ".." at the end of a path that
    is back at the root is kept (line 113, expected "http://www.winehq.org/"),
    and a relative path is not simplified (lines 207 and 208, expected "A" and
    "A/B"). *)
Theorem UrlCanonicalizeW_tests_missed :
  canonical_form "http://www.winehq.org/tests/../tests/../.." = Some (L "http://www.winehq.org/..") /\
  canonical_form "./A" = Some (L "./A") /\ canonical_form "./A/./B" = Some (L "./A/./B").
Proof. split_and!; by vm_compute. Qed.

(** A string of tabs leaves the copy as the heap has returned it: its length
    is taken of memory that was never written. *)
Theorem UrlCanonicalizeW_tabs :
  UrlCanonicalizeW ascii_utf8 some_heap (Some [tab; 0]) (Some (replicate 30 1)) (Some 30%nat) 0 = Fault.
Proof. by vm_compute. Qed.

End UrlDots.
