(* ===== verification/UrlCombine.v ===== *)
(** * Joining URLs (oca/extensions/kernelex/path.c)

    UrlCanonicalizeA, UrlApplyScheme and UrlCombine.  UrlCombine keeps its
    three strings in one block of the heap; positions in [mbase] and in
    [mrelative] are counted from the start of these parts. *)
From Stdlib Require Import String.
From S2P Require Import Prelude PathCch Path Url UrlParts UrlCanon.
Import PathCch Path Url UrlParts UrlCanon.

Module UrlCombine.

Definition URL_APPLY_FORCEAPPLY := 0x00000008.
Definition URL_APPLY_GUESSFILE := 0x00000004.
Definition URL_APPLY_GUESSSCHEME := 0x00000002.
Definition URL_APPLY_DEFAULT := 0x00000001.

(** ** Searches *)

(** [wcspbrk( b + off, set )] *)
Fixpoint wcspbrk_loop (fuel : nat) (b : list Z) (off : nat) (set : list Z) : outcome (option nat) :=
  match fuel with
  | O => NoFuel
  | S fuel =>
    c ← rd b off;
    if c =? 0 then Ok None else if one_of c set then Ok (Some off) else wcspbrk_loop fuel b (S off) set
  end.

Definition wcspbrk (b : list Z) (off : nat) (set : list Z) : outcome (option nat) := wcspbrk_loop (S (length b)) b off set.

(** [wcsstr( b + off, lit )], with a string that is not empty *)
Fixpoint wcsstr_loop (fuel : nat) (b : list Z) (off : nat) (lit : list Z) : outcome (option nat) :=
  match fuel with
  | O => NoFuel
  | S fuel =>
    c ← rd b off;
    if c =? 0 then Ok None
    else
      same ← starts b off lit;
      if same : bool then Ok (Some off) else wcsstr_loop fuel b (S off) lit
  end.

Definition wcsstr (b : list Z) (off : nat) (lit : list Z) : outcome (option nat) := wcsstr_loop (S (length b)) b off lit.

Section Combine.
(** As in [Url] and [UrlCanon]. *)
Context (WideCharToUtf8 : list Z -> list Z).
Context (heap_alloc : nat -> option (list Z)).

(** ** UrlApplyScheme *)

(** shlwapi: whether two characters differ when case is ignored. *)
Context (ChrCmpIW : Z -> Z -> bool).
(** The values of the key URL\Prefixes, in the order of the enumeration: the
    name, without its terminator, and the data, with it; and the data of the
    default value of the key URL\DefaultPrefix. *)
Context (prefixes : list (list Z * list Z)).
Context (default_prefix : list Z).

(** [for (i = 0; i < value_len; ++i)]: whether [url] starts with [value]. *)
Fixpoint same_prefix (url : list Z) (i : nat) (value : list Z) : outcome bool :=
  match value with
  | [] => Ok true
  | Wyy :: value => Wxx ← rd url i; if ChrCmpIW Wxx Wyy then Ok false else same_prefix url (S i) value
  end.

(** [lstrcpyW(out, data); lstrcatW(out, url)] with the test of the length;
    the results are the status, [out] and [out_len]. *)
Definition prepend (data url out : list Z) (out_len : nat) : outcome (Z * list Z * nat) :=
  nd ← wcslen data 0;
  nu ← wcslen url 0;
  if (out_len <? nd + nu + 1)%nat then Ok (E_POINTER, out, (nd + nu + 1)%nat)
  else
    out ← lstrcpyW out 0 data 0;
    out ← lstrcatW out url 0;
    n ← wcslen out 0;
    Ok (S_OK, out, n).

Fixpoint guess_loop (values : list (list Z * list Z)) (url out : list Z) (out_len : nat) : outcome (Z * list Z * nat) :=
  match values with
  | [] => Ok (E_FAIL, out, out_len)
  | (value, data) :: values =>
    same ← same_prefix url 0 value;
    if same : bool then prepend data url out out_len else guess_loop values url out out_len
  end.

Definition url_guess_scheme (url out : list Z) (out_len : nat) : outcome (Z * list Z * nat) := guess_loop prefixes url out out_len.

Definition url_apply_default_scheme (url out : list Z) (length : nat) : outcome (Z * list Z * nat) :=
  prepend default_prefix url out length.

(** [*length > 1 && ':' == url[1] || PathIsUNCW(url)] *)
Definition is_file_name (url : list Z) (length : nat) : outcome bool :=
  drive ← (if (1 <? length)%nat then c ← rd url 1; Ok (c =? colon) else Ok false);
  if drive : bool then Ok true else PathIsUNCW (Some url).

(** The second half: the scheme, and what to do without one. *)
Definition apply_scheme (url out : list Z) (length : nat) (flags : Z) : outcome (Z * list Z * nat) :=
  '(res1, _) ← ParseURLW url new_PARSEDURL;
  '(hr, out, length) ←
    (if negb (res1 =? 0) && flag flags URL_APPLY_GUESSSCHEME then url_guess_scheme url out length else Ok (E_FAIL, out, length));
  if negb (hr =? E_FAIL) then Ok (hr, out, length)
  else if ((res1 =? 0) && flag flags URL_APPLY_FORCEAPPLY || negb (res1 =? 0)) && flag flags URL_APPLY_DEFAULT
  then url_apply_default_scheme url out length
  else Ok (S_FALSE, out, length).

(** The results are the status, [out] and [length]. *)
Definition UrlApplySchemeW (url out : option (list Z)) (length : option nat) (flags : Z)
    : outcome (Z * option (list Z) * option nat) :=
  match url, out, length with
  | Some u, Some o, Some len =>
    guess ← (if flag flags URL_APPLY_GUESSFILE then is_file_name u len else Ok false);
    '(hr, o, res1) ← (if guess : bool then url_create_from_path WideCharToUtf8 heap_alloc u o len else Ok (E_FAIL, o, len));
    if guess && ((hr =? S_OK) || (hr =? E_POINTER)) then Ok (hr, Some o, Some res1)
    else if guess && (hr =? S_FALSE) then Ok (hr, Some o, Some len)
    else '(hr, o, len) ← apply_scheme u o len flags; Ok (hr, Some o, Some len)
  | _, _, _ => Ok (E_INVALIDARG, out, length)
  end.

(** ** UrlCombineW *)

(** ntdll: the lower-case character. *)
Context (RtlDowncaseUnicodeChar : Z -> Z).

Definition mbase : nat := INTERNET_MAX_URL_LENGTH.
Definition mrelative : nat := (2 * INTERNET_MAX_URL_LENGTH)%nat.

(** [for (i = 0; i < n; ++i) work[i] = RtlDowncaseUnicodeChar(work[i])] *)
Fixpoint downcase_loop (n : nat) (b : list Z) (work : nat) : outcome (list Z) :=
  match n with
  | O => Ok b
  | S n => c ← rd b work; b ← wr b work (RtlDowncaseUnicodeChar c); downcase_loop n b (S work)
  end.

(** [while ( *work && ( *work != '/')) work++] *)
Fixpoint location_end (fuel : nat) (mb : list Z) (work : nat) : outcome nat :=
  match fuel with
  | O => NoFuel
  | S fuel => c ← rd mb work; if (c =? 0) || (c =? slash) then Ok work else location_end fuel mb (S work)
  end.

(** The size of the location field. *)
Definition location_size (mb : list Z) (suffix : nat) : outcome nat :=
  c ← rd mb suffix;
  if c =? slash then
    c ← rd mb (S suffix);
    if c =? slash then work ← location_end (S (length mb)) mb (suffix + 2); Ok (work - suffix)%nat else Ok 0%nat
  else Ok 0%nat.

(** The scheme of mk: URLs goes up to the double colon. *)
Definition mk_parts (mb : list Z) (base : PARSEDURL) : outcome PARSEDURL :=
  ptr ← wcsstr mb (pszSuffix base) (L "::");
  match ptr with
  | None => Ok base
  | Some ptr =>
    let delta := (ptr + 2 - pszSuffix base)%nat in
    Ok (ParsedUrl (cbSize base) (pszProtocol base) (cchProtocol base + delta) (pszSuffix base + delta)
          (cchSuffix base - delta) (nScheme base))
  end.

(** [manual_search]: whether the last leaf is looked for from [work]. *)
Definition manual_search (mb : list Z) (base : PARSEDURL) (work : nat) : outcome bool :=
  c ← rd mb work;
  manual ←
    (if (c =? qmark) || (nScheme base =? URL_SCHEME_HTTP) || (nScheme base =? URL_SCHEME_HTTPS) then Ok true
     else if (4 <? work - pszSuffix base)%nat then starts_nocase mb (work - 4) (L ".htm") else Ok false);
  if manual : bool then Ok true
  else if (5 <? work - pszSuffix base)%nat then starts_nocase mb (work - 5) (L ".html") else Ok false.

(** [while ( *work != '/' && work > base.pszSuffix + sizeloc) --work] *)
Fixpoint back_to_slash (work : nat) (mb : list Z) (low : nat) : outcome nat :=
  c ← rd mb work;
  if negb (c =? slash) && (low <? work)%nat then match work with O => Ok work | S work => back_to_slash work mb low end
  else Ok work.

(** [base.cchSuffix]: the length up to the last leaf. *)
Definition base_suffix (mb : list Z) (base : PARSEDURL) (sizeloc : nat) : outcome nat :=
  let low := (pszSuffix base + sizeloc)%nat in
  work ← wcspbrk mb low [hash; qmark];
  manual ← match work with Some work => manual_search mb base work | None => Ok false end;
  match work, manual with
  | Some work, true => work ← back_to_slash work mb low; Ok (work - pszSuffix base + 1)%nat
  | _, _ =>
    work ← strrchr mb low slash;
    Ok match work with Some work => (work - pszSuffix base + 1)%nat | None => sizeloc end
  end.

(** The parts of the base: the structure and [sizeloc]. *)
Definition base_parts (mb : list Z) (base : PARSEDURL) : outcome (PARSEDURL * nat) :=
  base' ← (if nScheme base =? URL_SCHEME_MK then mk_parts mb base else Ok base);
  sizeloc ← (if nScheme base =? URL_SCHEME_MK then Ok 0%nat else location_size mb (pszSuffix base));
  n ← base_suffix mb base' sizeloc;
  Ok (ParsedUrl (cbSize base') (pszProtocol base') (cchProtocol base') (pszSuffix base') n (nScheme base'), sizeloc).

(** The first characters of the base are stored at [preliminary]. *)
Definition copy_base (b : list Z) (n : nat) : outcome (list Z) := v ← rd_list b mbase n; wr_list b 0 v.

(** A relative URL without a scheme: [process_case] and the block. *)
Definition case_without_scheme (b : list Z) (base : PARSEDURL) (relativeW : list Z) (flags : Z) : outcome (nat * list Z) :=
  let mb := drop mbase b in let mr := drop mrelative b in
  c ← rd relativeW 0;
  if c =? colon then Ok (if flag flags URL_PLUGGABLE_PROTOCOL then 5%nat else 1%nat, b)
  else
    drive ← is_drive_spec mr 0;
    if drive : bool then b ← lstrcpyW b 0 (L "file:///" ++ [0]) 0; Ok (1%nat, b)
    else
      c0 ← rd mr 0;
      if c0 =? slash then c1 ← rd mr 1; Ok (if c1 =? slash then 3%nat else 4%nat, b)
      else if c0 =? hash then
        work ← strchr nextW mb (pszSuffix base + cchSuffix base) hash;
        work ← match work with Some work => Ok work | None => n ← wcslen mb (pszSuffix base); Ok (pszSuffix base + n)%nat end;
        b ← copy_base b work;
        b ← wr b work 0;
        Ok (1%nat, b)
      else
        s0 ← rd mb (pszSuffix base);
        Ok (if (s0 =? slash) || (nScheme base =? URL_SCHEME_MK) then 5%nat else 3%nat, b).

(** [*p == '/' && *(p+1) == '/'], and [*p == '/'] *)
Definition leading_slashes (mr : list Z) (p : nat) : outcome nat :=
  c ← rd mr p;
  if c =? slash then c1 ← rd mr (S p); Ok (if c1 =? slash then 2%nat else 1%nat) else Ok 0%nat.

(** A relative URL with a scheme. *)
Definition case_with_scheme (b : list Z) (base relative : PARSEDURL) : outcome (nat * list Z) :=
  b ← downcase_loop (cchProtocol relative) b mrelative;
  let mb := drop mbase b in let mr := drop mrelative b in
  same ← (if (cchProtocol base =? cchProtocol relative)%nat then r ← strncmp mb mr 0 (cchProtocol base); Ok (r =? 0) else Ok false);
  slashes ← leading_slashes mr (pszSuffix relative);
  if same : bool then
    match slashes with
    | 2%nat => Ok (3%nat, b)
    | 1%nat => Ok (4%nat, b)
    | _ => s0 ← rd mb (pszSuffix base); Ok (if s0 =? slash then 5%nat else 1%nat, b)
    end
  else Ok (if (slashes =? 2)%nat then 2%nat else 1%nat, b).

(** The choice: [process_case], the block, [base], [sizeloc] and
    [relative.pszSuffix]. *)
Definition combine_case (b relativeW : list Z) (flags : Z) : outcome (nat * list Z * PARSEDURL * nat * nat) :=
  '(hr, base) ← ParseURLW (drop mbase b) new_PARSEDURL;
  if negb (hr =? S_OK) then Ok (1%nat, b, base, 0%nat, 0%nat)
  else
    b ← downcase_loop (cchProtocol base) b mbase;
    '(base, sizeloc) ← base_parts (drop mbase b) base;
    '(hr, relative) ← ParseURLW (drop mrelative b) new_PARSEDURL;
    if negb (hr =? S_OK)
    then '(n, b) ← case_without_scheme b base relativeW flags; Ok (n, b, base, sizeloc, 0%nat)
    else '(n, b) ← case_with_scheme b base relative; Ok (n, b, base, sizeloc, pszSuffix relative).

(** The [switch]: the block with the string at [preliminary]. *)
Definition preliminary_url (process_case : nat) (b : list Z) (base : PARSEDURL) (sizeloc suffix : nat) (flags : Z)
    : outcome (list Z) :=
  match process_case with
  | 1%nat => n ← wcslen b 0; lstrcpyW_within b n mrelative
  | 2%nat => lstrcpyW_within b 0 mrelative
  | 3%nat => b ← copy_base b (cchProtocol base + 1); lstrcpyW_within b (cchProtocol base + 1) (mrelative + suffix)
  | 4%nat =>
    let work := (cchProtocol base + 1 + sizeloc)%nat in
    b ← copy_base b work;
    if flag flags URL_PLUGGABLE_PROTOCOL then b ← wr b work slash; lstrcpyW_within b (S work) (mrelative + suffix)
    else lstrcpyW_within b work (mrelative + suffix)
  | _ =>
    b ← copy_base b (cchProtocol base + 1 + cchSuffix base);
    let work := (cchProtocol base + 1 + cchSuffix base)%nat in
    c ← rd b (work - 1);
    if negb (c =? slash) then b ← wr b work slash; lstrcpyW_within b (S work) (mrelative + suffix)
    else lstrcpyW_within b work (mrelative + suffix)
  end.

(** [UrlCanonicalizeW( src, b + off, &size, flags )], with the status, the block and the size *)
Definition canonicalize_into (src b : list Z) (off size : nat) (flags : Z) : outcome (Z * list Z * nat) :=
  '(hr, out, len) ← UrlCanonicalizeW WideCharToUtf8 heap_alloc (Some src) (Some (drop off b)) (Some size) flags;
  Ok (hr, take off b ++ default [] out, default 0%nat len).

(** The results are the status, [combined] and [combined_len]. *)
Definition UrlCombineW (baseW relativeW combined : option (list Z)) (combined_len : option nat) (flags : Z)
    : outcome (Z * option (list Z) * option nat) :=
  match baseW, relativeW, combined_len with
  | Some bw, Some rw, Some size =>
    match heap_alloc (3 * INTERNET_MAX_URL_LENGTH) with
    | None => Fault
    | Some b =>
      b ← wr b 0 0;
      let myflags := Z.land flags (Z.lor URL_DONT_SIMPLIFY URL_UNESCAPE) in
      '(_, b, _) ← canonicalize_into bw b mbase INTERNET_MAX_URL_LENGTH myflags;
      '(_, b, _) ← canonicalize_into rw b mrelative INTERNET_MAX_URL_LENGTH myflags;
      '(process_case, b, base, sizeloc, suffix) ← combine_case b rw flags;
      b ← preliminary_url process_case b base sizeloc suffix flags;
      '(hr, b, len) ←
        canonicalize_into b b mrelative (if (size =? 0)%nat then 1%nat else size) (Z.land flags (Z.lnot URL_FILE_USE_PATHURL));
      match combined with
      | Some out => if negb (FAILED hr) then out ← lstrcpyW out 0 b mrelative; Ok (hr, Some out, Some len) else Ok (hr, combined, Some len)
      | None => Ok (hr, combined, Some len)
      end
    end
  | _, _, _ => Ok (E_INVALIDARG, combined, combined_len)
  end.

(** ** The byte versions *)

(** kernel32, as in [Path]: the conversions of a string store the result in a
    buffer and return a count; and the bytes of wide characters. *)
Context (MultiByteToWideChar : list Z -> list Z -> outcome (Z * list Z)).
Context (WideCharToMultiByte : list Z -> list Z -> outcome (Z * list Z)).
Context (WideCharToMultiByteN : list Z -> list Z).
Context (WideLength : list Z -> Z).

(** A conversion into the first [size] bytes of a buffer. *)
Definition to_bytes (wide out : list Z) (size : nat) : outcome (list Z) :=
  '(_, o) ← WideCharToMultiByte wide (take size out); Ok (o ++ drop size out).

(** [canonical] has [*canonicalized_len] characters. *)
Definition UrlCanonicalizeA (src_url canonicalized : option (list Z)) (canonicalized_len : option nat) (flags : Z)
    : outcome (Z * option (list Z) * option nat) :=
  match src_url, canonicalized, canonicalized_len with
  | Some src, Some out, Some size =>
    if (size =? 0)%nat then Ok (E_INVALIDARG, canonicalized, canonicalized_len)
    else
      url ← heap_strdupAtoW MultiByteToWideChar WideLength (Some src);
      match url, heap_alloc size with
      | Some url, Some canonical =>
        '(hr, canonical, len) ← UrlCanonicalizeW WideCharToUtf8 heap_alloc (Some url) (Some canonical) (Some size) flags;
        if hr =? S_OK
        then out ← to_bytes (default [] canonical) out (default 0%nat len + 1); Ok (hr, Some out, len)
        else Ok (hr, canonicalized, len)
      | _, _ => Ok (E_OUTOFMEMORY, canonicalized, canonicalized_len)
      end
  | _, _, _ => Ok (E_INVALIDARG, canonicalized, canonicalized_len)
  end.

(** [inW] and [outW] are the halves of one block. *)
Definition UrlApplySchemeA (url out : option (list Z)) (out_len : option nat) (flags : Z)
    : outcome (Z * option (list Z) * option nat) :=
  match url, out, out_len with
  | Some u, Some o, Some size =>
    match heap_alloc (2 * INTERNET_MAX_URL_LENGTH) with
    | None => Fault
    | Some b =>
      '(_, inW) ← MultiByteToWideChar u (take INTERNET_MAX_URL_LENGTH b);
      '(hr, outW, _) ←
        UrlApplySchemeW (Some inW) (Some (drop INTERNET_MAX_URL_LENGTH b)) (Some INTERNET_MAX_URL_LENGTH) flags;
      if negb (hr =? S_OK) then Ok (hr, out, out_len)
      else
        let outW := default [] outW in
        n ← wcslen outW 0;
        v ← rd_list outW 0 (n + 1);
        let len := length (WideCharToMultiByteN v) in
        if (size <? len)%nat then Ok (E_POINTER, out, Some len)
        else o ← to_bytes outW o size; Ok (hr, Some o, Some (len - 1)%nat)
    end
  | _, _, _ => Ok (E_INVALIDARG, out, out_len)
  end.

(** [baseW], [relativeW] and [combinedW] are the thirds of one block. *)
Definition UrlCombineA (base relative combined : option (list Z)) (combined_len : option nat) (flags : Z)
    : outcome (Z * option (list Z) * option nat) :=
  match base, relative, combined_len with
  | Some bs, Some rl, Some size =>
    match heap_alloc (3 * INTERNET_MAX_URL_LENGTH) with
    | None => Fault
    | Some b =>
      '(_, baseW) ← MultiByteToWideChar bs (take INTERNET_MAX_URL_LENGTH b);
      '(_, relativeW) ← MultiByteToWideChar rl (take INTERNET_MAX_URL_LENGTH (drop mbase b));
      '(hr, combinedW, len) ←
        UrlCombineW (Some baseW) (Some relativeW) (match combined with Some _ => Some (drop mrelative b) | None => None end)
          (Some size) flags;
      let len := default 0%nat len in
      if negb (hr =? S_OK) then Ok (hr, combined, Some len)
      else
        let combinedW := default (drop mrelative b) combinedW in
        v ← rd_list combinedW 0 len;
        let len2 := length (WideCharToMultiByteN v) in
        if (size <? len2)%nat then Ok (E_POINTER, combined, Some len2)
        else
          v ← rd_list combinedW 0 (len + 1);
          match combined with
          | Some out => out ← to_bytes v out (size + 1); Ok (S_OK, Some out, Some len2)
          | None => Ok (S_OK, combined, Some len2)
          end
    end
  | _, _, _ => Ok (E_INVALIDARG, combined, combined_len)
  end.

End Combine.

End UrlCombine.
