(* ===== verification/UrlCombineSpec.v ===== *)
(** * Relative URLs against a base

    UrlCombineW canonicalises both URLs into one block, puts a third together
    from them and canonicalises it; UrlApplySchemeW puts a prefix in front of
    a URL.  Both against specifications on strings. *)
From Stdlib Require Import String.
From S2P Require Import Prelude PathCch PathCchSpec Path Url UrlSpec UrlEscapeSpec UrlMain UrlPath UrlParts UrlCanon UrlCanonSpec UrlDots UrlCombine.
Import PathCch PathCchSpec Path Url UrlSpec UrlEscapeSpec UrlMain UrlPath UrlParts UrlCanon UrlCanonSpec UrlDots UrlCombine.

Module UrlCombineSpec.

(** ** Canonicalisation of a string without a scheme *)

Lemma trim_end_id s : Forall (fun c => space < c) s -> trim_end s = s.
Proof.
  induction 1 as [|c s Hc _ IH]; [done|]. simpl. rewrite IH. destruct s; [|done]. by destruct (Z.leb_spec c space); [lia|].
Qed.

(** The states that copy: one character, or the rest. *)
Lemma machine_plain fl is_f nLen url rest : forall fuel state d w j k, state = 1%nat \/ state = 3%nat ->
  drop k url = w ++ 0 :: rest -> nonul w -> Forall (fun c => c <> colon) w -> (length w < fuel)%nat -> (length w < length j)%nat ->
  (w = [] -> exists j', j = 0 :: j') ->
  exists j', machine_loop fl 0 is_f nLen url fuel state (d ++ j) k (length d) = Ok (d ++ w ++ 0 :: j').
Proof.
  induction fuel as [|fuel IH]; intros state d w j k Hst Hd Hn Hc Hf Hj H0; [lia|]. cbn [machine_loop].
  destruct w as [|c w]; cbn [app] in Hd; rewrite (rd_drop _ _ _ _ Hd), bind_ok.
  { destruct (H0 eq_refl) as [j' ->]. by exists j'. }
  pose proof (nonul_cons _ _ Hn) as [Hc0 Hnw]. rewrite (proj2 (Z.eqb_neq _ _) Hc0). destruct Hst as [-> | ->]; cbn [machine_step].
  - unfold case1. rewrite (rd_drop _ _ _ _ Hd), bind_ok. destruct j as [|x [|y j]]; try (simpl in Hj; lia).
    rewrite put_next, bind_ok by done. cbv beta iota. pose proof (Forall_inv Hc) as Hcol. cbv beta in Hcol.
    rewrite (proj2 (Z.eqb_neq _ _) Hcol), bind_ok. cbv beta iota. rewrite (cons_middle c d), app_assoc.
    replace (S (length d)) with (length (d ++ [c])) by (rewrite length_app; simpl; lia).
    rewrite wr_app, bind_ok by done. apply Forall_inv_tail in Hc. apply drop_next in Hd. simpl in Hf, Hj.
    destruct (IH 1%nat (d ++ [c]) w (0 :: j) (S k)) as (j' & ->); [by left|done|done|done|lia|simpl; lia|by eexists|].
    exists j'. by rewrite <- app_assoc.
  - unfold case3. change (c :: w ++ 0 :: rest) with ((c :: w) ++ 0 :: rest) in Hd.
    rewrite (copy_rest_at url rest d j k (c :: w) Hd Hn Hj), bind_ok. cbv beta iota. cbn [Z.eqb]. rewrite !bind_ok. cbv beta iota.
    rewrite app_assoc, wr_app, bind_ok by (rewrite length_app; done). apply drop_more in Hd.
    destruct fuel as [|fuel]; [simpl in Hf; lia|]. cbn [machine_loop]. rewrite (rd_drop _ _ _ _ Hd), bind_ok. cbn [Z.eqb].
    exists (drop (S (length (c :: w))) j). by rewrite <- app_assoc.
Qed.

Section Relative.
Context (s : list Z) (Hs : nonul s) (Hs0 : s <> []) (Hcol : Forall (fun c => c <> colon) s).

Lemma starts_nocolon : forall lit u i t rest, drop i u = t ++ 0 :: rest -> Forall (fun c => c <> colon) t -> nonul lit ->
  colon ∈ lit -> starts u i lit = Ok false.
Proof.
  induction lit as [|l lit IH]; intros u i t rest Hd Ht Hl Hin; [by apply elem_of_nil in Hin|]. cbn [starts].
  apply nonul_cons in Hl as [Hl0 Hl]. destruct t as [|c t]; cbn [app] in Hd; rewrite (rd_drop _ _ _ _ Hd), bind_ok.
  { by rewrite (proj2 (Z.eqb_neq 0 l)) by congruence. }
  pose proof (Forall_inv Ht) as Hc. cbv beta in Hc. destruct (Z.eqb_spec c l) as [->|]; [|done].
  apply elem_of_cons in Hin as [Hin|Hin]; [congruence|]. apply (IH u (S i) t rest); [by apply drop_next in Hd|by apply Forall_inv_tail in Ht|done|done].
Qed.

Lemma machine_relative fl is_f nLen rest copy fuel : (S (length s) < fuel)%nat -> (S (length s) < length copy)%nat ->
  exists j, machine_loop fl 0 is_f nLen (s ++ 0 :: rest) fuel 0 copy 0 0 = Ok (s ++ 0 :: j).
Proof.
  intros Hf Hl. destruct fuel as [|fuel]; [lia|]. destruct s as [|c0 s0] eqn:Es; [done|].
  destruct copy as [|x [|y [|z copy]]]; try (simpl in Hl; lia). simpl in Hf, Hl. cbn [machine_loop machine_step].
  unfold case0. set (url := (c0 :: s0) ++ 0 :: rest). change (rd url 0) with (Ok c0). rewrite !bind_ok.
  pose proof (nonul_cons _ _ Hs) as [Hc0 Hn0]. rewrite (proj2 (Z.eqb_neq _ _) Hc0).
  pose proof (Forall_inv_tail Hcol) as Hcol0. destruct (isalnum c0) eqn:E0; cbn [negb].
  2:{ rewrite bind_ok. cbv beta iota. change (wr (x :: y :: z :: copy) 0 0) with (Ok (0 :: y :: z :: copy)). rewrite bind_ok.
      apply (machine_plain fl is_f nLen url rest fuel 3 [] (c0 :: s0) (0 :: y :: z :: copy) 0); try done; [by right|simpl; lia|simpl; lia]. }
  change (put (x :: y :: z :: copy) 0 c0) with (Ok (c0 :: y :: z :: copy, 1%nat)). rewrite bind_ok. cbv beta iota.
  change (rd url 1) with (rd (s0 ++ 0 :: rest) 0). destruct (head_or_nul s0 rest) as (c1 & l & El).
  rewrite (rd_drop _ 0 c1 l) by (by rewrite El). rewrite bind_ok.
  assert (Hst3 : exists j, machine_loop fl 0 is_f nLen url fuel 3 (c0 :: 0 :: z :: copy) 1 1 = Ok ((c0 :: s0) ++ 0 :: j)).
  { apply (machine_plain fl is_f nLen url rest fuel 3 [c0] s0 (0 :: z :: copy) 1); try done; [by right|lia|simpl; lia|by eexists]. }
  destruct (isalnum c1) eqn:E1; cbn [negb].
  2:{ rewrite bind_ok. cbv beta iota. change (wr (c0 :: y :: z :: copy) 1 0) with (Ok (c0 :: 0 :: z :: copy)). by rewrite bind_ok. }
  destruct s0 as [|c s1]; injection El as <- <-; [done|].
  change (put (c0 :: y :: z :: copy) 1 c) with (Ok (c0 :: c :: z :: copy, 2%nat)). rewrite !bind_ok. cbv beta iota.
  change (wr (c0 :: c :: z :: copy) 2 0) with (Ok (c0 :: c :: 0 :: copy)). rewrite bind_ok.
  apply nonul_cons in Hn0 as [_ Hn1]. apply Forall_inv_tail in Hcol0. simpl in Hf, Hl.
  apply (machine_plain fl is_f nLen url rest fuel 1 [c0; c] s1 (0 :: copy) 2); try done; [by left|lia|simpl; lia|by eexists].
Qed.

Lemma relative_simplified rest copy nLen : Forall (fun c => space < c) s ->
  match s with c :: _ => c <> slash | [] => True end -> (S (length s) < length copy)%nat ->
  exists r, simplify_url (s ++ 0 :: rest) copy nLen 0 = Ok (s ++ 0 :: r, 0).
Proof.
  intros Hp Hsl Hl. set (url := s ++ 0 :: rest).
  assert (Hst : forall lit, nonul lit -> colon ∈ lit -> starts url 0 lit = Ok false) by (intros; by apply (starts_nocolon lit url 0 s rest)).
  unfold simplify_url. rewrite Hst, bind_ok by (nonul_tac || by apply (bool_decide_unpack _)).
  unfold slash_of. assert (Hif : forall b lit, nonul lit -> colon ∈ lit -> (if b : bool then starts url 0 lit else Ok false) = Ok false)
    by (intros [] ? ? ?; [by apply Hst|done]).
  rewrite !Hif, !bind_ok by (nonul_tac || by apply (bool_decide_unpack _)). cbv beta zeta iota. cbn [orb].
  change (flag 0 URL_FILE_USE_PATHURL) with false. change (flag 0 URL_WININET_COMPATIBILITY) with false. cbn [orb andb]. rewrite ?bind_ok.
  cbv beta iota. unfold machine_start. 
  assert (Es : exists c0 s0, s = c0 :: s0 /\ c0 <> slash) by (destruct s as [|c0 s0]; [done|by exists c0, s0]).
  destruct Es as (c0 & s0 & Es & Hsl0). assert (Eu : url = (c0 :: s0) ++ 0 :: rest) by (unfold url; by rewrite Es).
  assert (E1 : exists c1, rd url 1 = Ok c1 /\ c1 <> colon).
  { destruct (head_or_nul s0 rest) as (c1 & l & El). exists c1. rewrite Eu. split.
    - change (rd ((c0 :: s0) ++ 0 :: rest) 1) with (rd (s0 ++ 0 :: rest) 0). apply (rd_drop _ 0 c1 l). by rewrite El.
    - destruct s0 as [|c s1]; injection El as <- <-; [done|]. pose proof Hcol as Hcol'. rewrite Es in Hcol'.
      apply Forall_inv_tail in Hcol'. by apply Forall_inv in Hcol'. }
  destruct E1 as (c1 & E1 & Hc1). rewrite E1, bind_ok, (proj2 (Z.eqb_neq _ _) Hc1).
  assert (E0 : rd url 0 = Ok c0) by (by rewrite Eu). rewrite E0, !bind_ok. rewrite (proj2 (Z.eqb_neq _ _) Hsl0). cbv beta iota.
  destruct (machine_relative 0 false nLen rest copy (S (S (length url)))) as (j & Ej);
    [unfold url; rewrite length_app; simpl; lia|done|]. fold url in Ej. rewrite Ej, bind_ok.
  rewrite wcslen_str, bind_ok by done. destruct (trim_blanks_text _ s j eq_refl) as (r & ->). rewrite bind_ok.
  rewrite (trim_end_id s Hp). exists r. done.
Qed.

End Relative.

Lemma printable_nonul s : Forall (fun c => space < c) s -> nonul s.
Proof. intros H. eapply Forall_impl; [exact H|]. cbv beta. unfold space. intros c Hc ->. lia. Qed.

Lemma printable_notab s : Forall (fun c => space < c) s -> Forall (fun c => c <> tab) s.
Proof. intros H. eapply Forall_impl; [exact H|]. cbv beta. unfold space, tab. intros c Hc ->. lia. Qed.

Lemma stored_url_0 W s : stored_url W s 0 = s.
Proof. done. Qed.

(** It is stored as it is. *)
Lemma canonicalize_relative W heap_alloc s rest out size : (forall l, (length (W l) <= 4)%nat) -> heap_total heap_alloc ->
  Forall (fun c => space < c) s -> Forall (fun c => c <> colon) s -> match s with c :: _ => c <> slash | [] => False end ->
  (0 < size <= length out)%nat ->
  UrlCanonicalizeW W heap_alloc (Some (s ++ 0 :: rest)) (Some out) (Some size) 0 = Ok (stored_or_size s out size).
Proof.
  intros HW Hh Hp Hcol Hsl Hsz. pose proof (printable_nonul s Hp) as Hn. assert (Hs0 : s <> []) by (by intros ->).
  destruct (Hh (length s + 1)%nat) as (url & Ea & Hl). destruct (Hh (S (length s) + 9)%nat) as (copy & Ea2 & Hl2).
  pose proof (UrlCanonicalizeW_steps W heap_alloc s rest out size 0 url copy Hn) as Hst. cbv zeta in Hst.
  rewrite without_tabs_id in Hst by (by apply printable_notab). rewrite Hst by (done || lia).
  destruct (relative_simplified s Hn Hs0 Hcol (drop (S (length s)) url) copy (S (length s)) Hp) as (r & ->); [by destruct s|lia|].
  rewrite bind_ok. cbv beta iota. by rewrite (store_url_text W HW), stored_url_0.
Qed.

(** ** The parts of the base *)

(** A path without what follows its last slash. *)
Fixpoint up_to_slash (w : list Z) : list Z :=
  match w with
  | [] => []
  | c :: w => match up_to_slash w with [] => if c =? slash then [c] else [] | d => c :: d end
  end.

Lemma up_to_slash_split w : exists leaf, w = up_to_slash w ++ leaf /\ Forall (fun c => c <> slash) leaf /\
  exists a, slash :: up_to_slash w = a ++ [slash] /\ length a = length (up_to_slash w).
Proof.
  induction w as [|c w (leaf & Ew & Hl & a & Ea & Hla)]; [exists []; split_and!; [done|constructor|by exists []]|]. cbn [up_to_slash].
  destruct (up_to_slash w) as [|d ds] eqn:E.
  - destruct (Z.eqb_spec c slash) as [->|Hc].
    + exists leaf. split_and!; [cbn [app] in *; f_equal; exact Ew|done|by exists [slash]].
    + exists (c :: leaf). split_and!; [cbn [app] in *; f_equal; exact Ew|by constructor|by exists []].
  - exists leaf. split_and!; [cbn [app] in *; f_equal; exact Ew|done|]. destruct a as [|x a]; [by destruct ds|]. injection Ea as -> Ea.
    exists (x :: c :: a). rewrite Ea. split; [done|]. cbn [length]. rewrite length_app. simpl. lia.
Qed.

Section Base.
Context (host p rest : list Z) (Hhost : Forall (fun c => is_host_char c = true) host).
Context (Hn : nonul p) (Hq : Forall (fun c => c <> hash /\ c <> qmark) p).
Let mb := L "http://" ++ host ++ slash :: p ++ 0 :: rest.

Lemma location_end_host : forall fuel h u k l, drop k u = h ++ slash :: l -> Forall (fun c => is_host_char c = true) h ->
  (length h < fuel)%nat -> location_end fuel u k = Ok (k + length h)%nat.
Proof.
  induction fuel as [|fuel IH]; intros h u k l Hd Hh Hf; [lia|]. cbn [location_end].
  destruct h as [|c h]; cbn [app] in Hd; rewrite (rd_drop _ _ _ _ Hd), bind_ok; [by rewrite Nat.add_0_r|].
  pose proof (Forall_inv Hh) as Hc. cbv beta in Hc. apply Forall_inv_tail in Hh. simpl in Hf.
  destruct (Z.eqb_spec c 0) as [->|]; [done|]. destruct (Z.eqb_spec c slash) as [->|]; [done|]. cbn [orb].
  rewrite (IH h u (S k) l) by (done || lia || by apply drop_next in Hd). simpl. f_equal. lia.
Qed.

Lemma wcspbrk_none set : forall fuel t u k l, drop k u = t ++ 0 :: l -> nonul t -> Forall (fun c => one_of c set = false) t ->
  (length t < fuel)%nat -> wcspbrk_loop fuel u k set = Ok None.
Proof.
  induction fuel as [|fuel IH]; intros t u k l Hd Ht Hs Hf; [lia|]. cbn [wcspbrk_loop].
  destruct t as [|c t]; cbn [app] in Hd; rewrite (rd_drop _ _ _ _ Hd), bind_ok; [done|].
  apply nonul_cons in Ht as [Hc Ht]. rewrite (proj2 (Z.eqb_neq _ _) Hc). pose proof (Forall_inv Hs) as Hcs. cbv beta in Hcs.
  rewrite Hcs. apply Forall_inv_tail in Hs. simpl in Hf. apply (IH t u (S k) l); [by apply drop_next in Hd|done|done|lia].
Qed.

Lemma mb_location : drop (7 + length host) mb = slash :: p ++ 0 :: rest.
Proof. apply drop_more. done. Qed.

(** The structure that ParseURLW fills in. *)
Lemma parse_base : ParseURLW mb new_PARSEDURL =
  Ok (S_OK, ParsedUrl sizeof_PARSEDURL (Some 0%nat) 4 5 (3 + length host + length p) URL_SCHEME_HTTP).
Proof.
  pose proof (ParseURLW_split (L "http://" ++ host ++ slash :: p) rest new_PARSEDURL) as H.
  replace ((L "http://" ++ host ++ slash :: p) ++ 0 :: rest) with mb in H by (unfold mb; by rewrite <- !app_assoc).
  rewrite H; [|apply nonul_app; split; [nonul_tac|]; apply nonul_app; split; [|by constructor]|done].
  - change (split_scheme (L "http://" ++ host ++ slash :: p)) with (Some (L "http", slash :: slash :: host ++ slash :: p)). cbv iota.
    change (UrlEscapeSpec.scheme_number (L "http")) with URL_SCHEME_HTTP. cbn [length L]. rewrite length_app. cbn [length]. do 3 f_equal. lia.
  - eapply Forall_impl; [exact Hhost|]. by intros c Hc ->.
Qed.

Lemma base_parts_http : base_parts mb (ParsedUrl sizeof_PARSEDURL (Some 0%nat) 4 5 (3 + length host + length p) URL_SCHEME_HTTP) =
  Ok (ParsedUrl sizeof_PARSEDURL (Some 0%nat) 4 5 (3 + length host + length (up_to_slash p)) URL_SCHEME_HTTP, (2 + length host)%nat).
Proof.
  assert (Hlen : length mb = (8 + length host + length p + S (length rest))%nat).
  { unfold mb. rewrite !length_app. cbn [length L]. rewrite length_app. simpl. lia. }
  unfold base_parts. cbn [nScheme]. change (URL_SCHEME_HTTP =? URL_SCHEME_MK) with false. cbv iota. rewrite bind_ok.
  unfold location_size. cbn [pszSuffix]. change (rd mb 5) with (Ok slash). change (rd mb 6) with (Ok slash). rewrite !bind_ok.
  change (slash =? slash) with true. cbv iota. rewrite (location_end_host _ host mb 7 (p ++ 0 :: rest)), !bind_ok by (done || lia).
  replace (7 + length host - 5)%nat with (2 + length host)%nat by lia.
  unfold base_suffix. cbn [pszSuffix]. cbv zeta. replace (5 + (2 + length host))%nat with (7 + length host)%nat by lia.
  unfold wcspbrk. rewrite (wcspbrk_none [hash; qmark] _ (slash :: p) mb _ rest mb_location), !bind_ok.
  - destruct (up_to_slash_split p) as (leaf & Ep & Hleaf & a & Ea & Hla). rewrite ?bind_ok. cbv beta iota. unfold strrchr.
    rewrite (strrchr_last slash rest leaf) with (a := a).
    + rewrite !bind_ok, Hla. cbn [cbSize pszProtocol cchProtocol pszSuffix nScheme]. do 3 f_equal. lia.
    + rewrite Ep in Hn. by apply nonul_app in Hn as [_ ?].
    + done.
    + done.
    + rewrite mb_location, Ep at 1. rewrite <- app_assoc, app_comm_cons, Ea, <- app_assoc. done.
    + assert (Hc : nonul (slash :: up_to_slash p)) by (rewrite Ep in Hn; apply nonul_app in Hn as [? _]; by constructor).
      rewrite Ea in Hc. by apply nonul_app in Hc as [? _].
    + assert (length p = (length (up_to_slash p) + length leaf)%nat) by (rewrite Ep at 1; by rewrite length_app). lia.
  - by constructor.
  - constructor; [done|]. eapply Forall_impl; [exact Hq|]. intros c [Hc1 Hc2]. unfold one_of. cbn [existsb].
    rewrite (proj2 (Z.eqb_neq _ _) Hc1), (proj2 (Z.eqb_neq _ _) Hc2). done.
  - cbn [length]. rewrite Hlen. lia.
Qed.

End Base.

(** ** The block *)

Abbreviation N := INTERNET_MAX_URL_LENGTH.

Section Block.
Context (A B C : list Z) (HA : length A = N) (HB : length B = N).

Lemma block_base : drop mbase (A ++ B ++ C) = B ++ C.
Proof. unfold mbase. rewrite <- HA. apply drop_app_length. Qed.

Lemma block_relative : drop mrelative (A ++ B ++ C) = C.
Proof. unfold mrelative. rewrite app_assoc. apply drop_app_length'. rewrite length_app. lia. Qed.

Lemma block_before_base : take mbase (A ++ B ++ C) = A.
Proof. unfold mbase. rewrite <- HA. apply take_app_length. Qed.

Lemma block_before_relative : take mrelative (A ++ B ++ C) = A ++ B.
Proof. unfold mrelative. rewrite app_assoc. apply take_app_length'. rewrite length_app. lia. Qed.

End Block.

Lemma drop_within {X} (l1 l2 : list X) n : (n <= length l1)%nat -> drop n (l1 ++ l2) = drop n l1 ++ l2.
Proof. intros. by apply drop_app_le. Qed.

(** Characters that are lower case already. *)
Lemma downcase_loop_id D : forall v b k l, drop k b = v ++ l -> Forall (fun c => D c = c) v -> downcase_loop D (length v) b k = Ok b.
Proof.
  induction v as [|c v IH]; intros b k l Hd Hv; [done|]. cbn [length downcase_loop app] in *.
  pose proof (Forall_inv Hv) as Hc. cbv beta in Hc. apply Forall_inv_tail in Hv. rewrite (rd_drop _ _ _ _ Hd), bind_ok, Hc.
  assert (Hk : b !! k = Some c) by (apply rd_Ok; by apply (rd_drop _ _ _ _ Hd)).
  rewrite wr_lt, list_insert_id, bind_ok by (done || by apply lookup_lt_Some in Hk). apply (IH b (S k) l); [by apply drop_next in Hd|done].
Qed.

Section Combine.
Context (W : list Z -> list Z) (HW : forall l, (length (W l) <= 4)%nat) (heap_alloc : nat -> option (list Z)) (Hh : heap_total heap_alloc).
Context (D : Z -> Z) (HD : forall c, 97 <= c <= 122 -> D c = c).

(** A canonical URL is stored in a part of the block. *)
Lemma into_base src A B C t fl : length A = N -> length B = N -> (length t < N)%nat ->
  (forall out, (N <= length out)%nat ->
    UrlCanonicalizeW W heap_alloc (Some src) (Some out) (Some N) fl = Ok (stored_or_size t out N)) ->
  canonicalize_into W heap_alloc src (A ++ B ++ C) mbase N fl =
    Ok (S_OK, A ++ (t ++ 0 :: drop (S (length t)) B) ++ C, length t).
Proof.
  intros HA HB Ht Hc. unfold canonicalize_into. rewrite block_base, block_before_base by done.
  rewrite Hc by (rewrite length_app; lia). unfold stored_or_size. rewrite (proj2 (Nat.ltb_lt _ _) Ht), bind_ok. cbn [default].
  rewrite drop_within by lia. by rewrite <- app_assoc.
Qed.

Lemma into_relative src A B C t fl size : length A = N -> length B = N -> (size <= length C)%nat ->
  UrlCanonicalizeW W heap_alloc (Some src) (Some C) (Some size) fl = Ok (stored_or_size t C size) ->
  canonicalize_into W heap_alloc src (A ++ B ++ C) mrelative size fl =
    Ok (if (length t <? size)%nat then (S_OK, A ++ B ++ t ++ 0 :: drop (S (length t)) C, length t)
        else (E_POINTER, A ++ B ++ C, (length t + 1)%nat)).
Proof.
  intros HA HB Ht Hc. unfold canonicalize_into. rewrite block_relative, block_before_relative, Hc by done. unfold stored_or_size.
  destruct (length t <? size)%nat; rewrite bind_ok; cbn [default]; by rewrite <- app_assoc.
Qed.

(** A relative URL without a scheme that starts with a name: the base up to
    its last slash is kept. *)
Lemma combine_case_name A p1 C host p rx rest flags : length A = N -> length (L "http://" ++ host ++ slash :: p ++ 0 :: p1) = N ->
  Forall (fun c => is_host_char c = true) host -> nonul p -> Forall (fun c => c <> hash /\ c <> qmark) p ->
  nonul rx -> Forall (fun c => c <> colon) rx -> match rx with c :: _ => c <> slash /\ c <> hash | [] => False end ->
  combine_case D (A ++ (L "http://" ++ host ++ slash :: p ++ 0 :: p1) ++ rx ++ 0 :: C) (rx ++ 0 :: rest) flags =
    Ok (5%nat, A ++ (L "http://" ++ host ++ slash :: p ++ 0 :: p1) ++ rx ++ 0 :: C,
        ParsedUrl sizeof_PARSEDURL (Some 0%nat) 4 5 (3 + length host + length (up_to_slash p)) URL_SCHEME_HTTP,
        (2 + length host)%nat, 0%nat).
Proof.
  intros HA HB Hhost Hn Hq Hrn Hcol Hr. set (B := L "http://" ++ host ++ slash :: p ++ 0 :: p1) in *.
  set (b := A ++ B ++ rx ++ 0 :: C). assert (Eb : drop mbase b = L "http://" ++ host ++ slash :: p ++ 0 :: (p1 ++ rx ++ 0 :: C)).
  { unfold b. rewrite block_base by done. unfold B. rewrite <- !app_assoc. cbn [app]. by rewrite <- app_assoc. }
  assert (Er : drop mrelative b = rx ++ 0 :: C) by (unfold b; by rewrite block_relative).
  unfold combine_case. rewrite Eb, parse_base, bind_ok by done. cbv beta iota. cbn [negb Z.eqb S_OK cchProtocol].
  assert (Ed : downcase_loop D 4 b mbase = Ok b).
  { apply (downcase_loop_id D (L "http") b mbase (L "://" ++ host ++ slash :: p ++ 0 :: p1 ++ rx ++ 0 :: C)); [by rewrite Eb|].
    repeat (constructor; [apply HD; cbn; lia|]); constructor. }
  rewrite Ed, bind_ok, Eb, base_parts_http, bind_ok by done. cbv beta iota. rewrite Er, ParseURLW_split by done.
  assert (Esp : split_scheme rx = None).
  { destruct (split_scheme rx) as [[q r]|] eqn:E; [|done]. apply split_scheme_app in E as (-> & _).
    apply Forall_app in Hcol as [_ Hcol]. by apply Forall_inv in Hcol. }
  rewrite Esp, bind_ok. cbv beta iota. change (negb (URL_E_INVALID_SYNTAX =? S_OK)) with true. cbv iota.
  unfold case_without_scheme. rewrite Eb, Er. cbv zeta. destruct rx as [|c rx]; [done|]. destruct Hr as [Hsl Hha].
  pose proof (Forall_inv Hcol) as Hc. cbv beta in Hc. change (rd ((c :: rx) ++ 0 :: rest) 0) with (Ok c).
  change (rd ((c :: rx) ++ 0 :: C) 0) with (Ok c). rewrite !bind_ok, (proj2 (Z.eqb_neq _ _) Hc).
  assert (Edr : is_drive_spec ((c :: rx) ++ 0 :: C) 0 = Ok false).
  { unfold is_drive_spec. change (rd ((c :: rx) ++ 0 :: C) 0) with (Ok c). rewrite bind_ok. destruct (isalpha c); [|done].
    change (rd ((c :: rx) ++ 0 :: C) (0 + 1)) with (rd (rx ++ 0 :: C) 0). destruct (head_or_nul rx C) as (c1 & l & El).
    rewrite (rd_drop _ 0 c1 l), bind_ok by (by rewrite El). f_equal. apply Z.eqb_neq.
    destruct rx as [|c2 rx]; injection El as <- <-; [done|]. apply Forall_inv_tail in Hcol. by apply Forall_inv in Hcol. }
  rewrite Edr, !bind_ok, (proj2 (Z.eqb_neq _ _) Hsl), (proj2 (Z.eqb_neq _ _) Hha). cbn [pszSuffix nScheme].
  change (rd (L "http://" ++ host ++ slash :: p ++ 0 :: p1 ++ (c :: rx) ++ 0 :: C) 5) with (Ok slash). rewrite !bind_ok. done.
Qed.

(** The kept part of the base and the relative URL. *)
Lemma preliminary_name A p1 C host p rx flags sizeloc :
  let q := L "http://" ++ host ++ slash :: up_to_slash p in
  length A = N -> length (L "http://" ++ host ++ slash :: p ++ 0 :: p1) = N -> nonul rx -> (length q + length rx < N)%nat ->
  exists A', length A' = N /\ (exists j, A' = q ++ rx ++ 0 :: j) /\
  preliminary_url 5 (A ++ (L "http://" ++ host ++ slash :: p ++ 0 :: p1) ++ rx ++ 0 :: C)
    (ParsedUrl sizeof_PARSEDURL (Some 0%nat) 4 5 (3 + length host + length (up_to_slash p)) URL_SCHEME_HTTP) sizeloc 0 flags =
    Ok (A' ++ (L "http://" ++ host ++ slash :: p ++ 0 :: p1) ++ rx ++ 0 :: C).
Proof.
  intros q HA HB Hrn Hlen. set (B := L "http://" ++ host ++ slash :: p ++ 0 :: p1) in *.
  destruct (up_to_slash_split p) as (leaf & Ep & Hleaf & a & Ea & Hla).
  assert (Hq : length q = (8 + length host + length (up_to_slash p))%nat) by (unfold q; rewrite !length_app; simpl; lia).
  set (A1 := q ++ drop (length q) A). assert (HA1 : length A1 = N) by (unfold A1; rewrite length_app, length_drop; lia).
  set (A2 := q ++ rx ++ 0 :: drop (length q + S (length rx)) A).
  exists A2. split_and!; [unfold A2; rewrite !length_app; cbn [length]; rewrite length_drop; lia|by eexists|].
  unfold preliminary_url. cbn [cchProtocol cchSuffix]. replace (4 + 1 + (3 + length host + length (up_to_slash p)))%nat with (length q) by lia.
  assert (EB : B = q ++ leaf ++ 0 :: p1).
  { unfold B, q. rewrite Ep at 1. rewrite <- !app_assoc. cbn [app]. by rewrite <- ?app_assoc. }
  assert (Ecopy : copy_base (A ++ B ++ rx ++ 0 :: C) (length q) = Ok (A1 ++ B ++ rx ++ 0 :: C)).
  { unfold copy_base. rewrite rd_list_Ok; rewrite ?block_base by done.
    - rewrite EB at 1. rewrite <- app_assoc, take_app_length, bind_ok. rewrite <- (take_drop (length q) A) at 1. rewrite <- app_assoc.
      rewrite <- (app_nil_l (take _ _ ++ _)), wr_list_app by (done || rewrite length_take; lia). unfold A1. by rewrite <- app_assoc.
    - unfold mbase. rewrite !length_app, HA, HB. lia. }
  rewrite Ecopy, bind_ok. cbv zeta.
  assert (Elast : rd (A1 ++ B ++ rx ++ 0 :: C) (length q - 1) = Ok slash).
  { unfold A1, q. rewrite (app_assoc (L "http://")), Ea, app_assoc, <- !app_assoc. rewrite (app_assoc _ a), (app_assoc (L "http://")).
    apply rd_middle. rewrite !length_app in *. cbn [length] in *. lia. }
  rewrite Elast, bind_ok. change (negb (slash =? slash)) with false. cbv iota. rewrite Nat.add_0_r. unfold lstrcpyW_within.
  assert (Er : drop mrelative (A1 ++ B ++ rx ++ 0 :: C) = rx ++ 0 :: C) by (by apply block_relative).
  rewrite (wcslen_drop _ _ rx C), bind_ok by done.
  rewrite (rd_list_snoc _ _ rx C), bind_ok by done. unfold A1.
  rewrite <- (take_drop (S (length rx)) (drop (length q) A)), <- !app_assoc.
  rewrite wr_list_app by (rewrite ?length_take, ?length_app, ?length_drop; cbn [length]; lia).
  unfold A2. rewrite drop_drop, <- !app_assoc. done.
Qed.

Lemma http_kept P host w : Forall P (L "http://") -> P slash -> Forall P host -> Forall P w ->
  Forall P (L "http://" ++ host ++ slash :: remove_dots w).
Proof.
  intros H1 H2 H3 H4. apply Forall_app. split; [done|]. apply Forall_app. split; [done|]. constructor; [done|]. by apply remove_dots_kept.
Qed.

Lemma host_printable host : Forall (fun c => is_host_char c = true) host -> Forall (fun c => space < c) host.
Proof.
  intros H. eapply Forall_impl; [exact H|]. cbv beta. unfold is_host_char, isalnum, isdigit, isalpha, space, dot, colon.
  intros c Hc. lia.
Qed.

Lemma up_to_slash_kept (P : Z -> Prop) p : Forall P p -> Forall P (up_to_slash p).
Proof. intros Hp. destruct (up_to_slash_split p) as (leaf & Ep & _). rewrite Ep in Hp. by apply Forall_app in Hp as [? _]. Qed.

(** The theorem of [UrlDots] for printable paths. *)
Lemma canonicalize_printable host w rest out size flags : Forall (fun c => is_host_char c = true) host -> host <> [] ->
  Forall (fun c => space < c) w -> match w with c :: _ => is_slash_or_bslash c = false | [] => True end ->
  flag flags URL_DONT_SIMPLIFY = false -> flag flags URL_UNESCAPE = false -> (0 < size <= length out)%nat ->
  UrlCanonicalizeW W heap_alloc (Some (L "http://" ++ host ++ slash :: w ++ 0 :: rest)) (Some out) (Some size) flags =
    Ok (stored_or_size (stored_url W (L "http://" ++ host ++ slash :: remove_dots w) flags) out size).
Proof.
  intros Hhost Hh0 Hw Hw0 Hsimp Hun Hsz.
  rewrite canonicalize_http; try done.
  - rewrite trim_end_id; [unfold stored_or_size; by destruct (_ <? _)%nat|].
    apply http_kept; [apply (bool_decide_unpack _); by vm_compute|done|by apply host_printable|done].
  - eapply Forall_impl; [exact Hw|]. cbv beta. unfold space, tab. lia.
Qed.

Lemma no_flags flags x y : flag flags x = false -> flag flags y = false -> Z.land flags (Z.lor x y) = 0.
Proof.
  unfold flag. rewrite !negb_false_iff, !Z.eqb_eq. intros Hx Hy. by rewrite Z.land_lor_distr_r, Hx, Hy.
Qed.

(** The flag that is dropped for the last call is none that it looks at. *)
Lemma drop_pathurl flags x : Z.land (Z.lnot URL_FILE_USE_PATHURL) x = x ->
  Z.land (Z.land flags (Z.lnot URL_FILE_USE_PATHURL)) x = Z.land flags x.
Proof. intros Hx. by rewrite <- Z.land_assoc, Hx. Qed.

Lemma stored_url_pathurl s flags : stored_url W s (Z.land flags (Z.lnot URL_FILE_USE_PATHURL)) = stored_url W s flags.
Proof. unfold stored_url. by rewrite drop_pathurl. Qed.

(** The second pass: the preliminary URL, in front of the rest of the block. *)
Lemma canonicalize_joined host p r j rest out size flags : Forall (fun c => is_host_char c = true) host -> host <> [] ->
  Forall (fun c => space < c) p -> Forall (fun c => space < c) r -> match p with c :: _ => is_slash_or_bslash c = false | [] => True end ->
  match r with c :: _ => is_slash_or_bslash c = false | [] => False end ->
  flag flags URL_DONT_SIMPLIFY = false -> flag flags URL_UNESCAPE = false -> (0 < size <= length out)%nat ->
  UrlCanonicalizeW W heap_alloc (Some (((L "http://" ++ host ++ slash :: up_to_slash p) ++ r ++ 0 :: j) ++ rest)) (Some out) (Some size)
    (Z.land flags (Z.lnot URL_FILE_USE_PATHURL)) =
    Ok (stored_or_size (stored_url W (L "http://" ++ host ++ slash :: remove_dots (up_to_slash p ++ r)) flags) out size).
Proof.
  intros Hhost Hh0 Hp Hr Hp0 Hr0 Hsimp Hun Hsz. destruct (up_to_slash_split p) as (leaf & Ep & _).
  replace (((L "http://" ++ host ++ slash :: up_to_slash p) ++ r ++ 0 :: j) ++ rest)
    with (L "http://" ++ host ++ slash :: (up_to_slash p ++ r) ++ 0 :: (j ++ rest)) by (repeat (rewrite <- app_assoc; cbn [app]); done).
  rewrite canonicalize_printable; [|done|done| | |by unfold flag; rewrite drop_pathurl|by unfold flag; rewrite drop_pathurl|done].
  - by rewrite stored_url_pathurl.
  - apply Forall_app. split; [by apply up_to_slash_kept|done].
  - rewrite Ep in Hp0. destruct (up_to_slash p); [by destruct r|done].
Qed.

Lemma split_block {X} (l : list X) : length l = (3 * N)%nat -> exists A B C, l = A ++ B ++ C /\ length A = N /\ length B = N /\ length C = N.
Proof.
  intros Hl. exists (take N l), (take N (drop N l)), (drop N (drop N l)). rewrite !take_drop. split; [done|].
  rewrite !length_take, !length_drop. lia.
Qed.

(** The end of the function: the string is copied out. *)
Lemma copy_out out A B C s : length A = N -> length B = N -> nonul s -> (length s < length out)%nat ->
  lstrcpyW out 0 (A ++ B ++ s ++ 0 :: C) mrelative = Ok (s ++ 0 :: drop (S (length s)) out).
Proof. intros HA HB Hs Hl. by rewrite (lstrcpyW_text out 0 _ _ s C) by (done || by rewrite block_relative). Qed.

End Combine.

(** ** The theorem on UrlCombineW *)



(** The combination with no flags, in a buffer of 60 characters. *)
Definition combined (base relative : string) : option (list Z) :=
  match UrlCombineW ascii_utf8 some_heap lower (Some (L base ++ [0])) (Some (L relative ++ [0])) (Some (replicate 60 1)) (Some 60%nat) 0 with
  | Ok (0, Some out, Some n) => Some (take n out)
  | _ => None
  end.

(** From the tests of shlwapi (winetests, url.c, lines 377 to 402), with the
    results that these expect. *)
Example UrlCombineW_tests :
  Forall (fun '(base, relative, expected) => combined base relative = Some (L expected)) [
    ("http://www.winehq.org/tests", "tests1", "http://www.winehq.org/tests1");
    ("http://www.winehq.org/tests/", "../tests3", "http://www.winehq.org/tests3");
    ("http://www.winehq.org/tests/test1", "test2", "http://www.winehq.org/tests/test2");
    ("http://www.winehq.org/tests/../tests/", "tests5", "http://www.winehq.org/tests/tests5");
    ("http://www.winehq.org/tests/../tests/..", "tests7/..", "http://www.winehq.org/");
    ("http://www.winehq.org/tests19/test", "./", "http://www.winehq.org/tests19/");
    ("http://www.winehq.org/tests/test", "./test22/../test", "http://www.winehq.org/tests/test");
    ("http://www.winehq.org/tests/", "tests24/./test/../test", "http://www.winehq.org/tests/tests24/test")]%string.
Proof. repeat constructor; by vm_compute. Qed.

(** And the tests that the code does not meet: the relative URL "." stays at
    the end of the result (lines 395 and 396, expected "http://www.winehq.org/"
    and "http://www.winehq.org/tests18/"). *)
Theorem UrlCombineW_tests_missed :
  combined "http://www.winehq.org/tests17" "." = Some (L "http://www.winehq.org/.") /\
  combined "http://www.winehq.org/tests18/test" "." = Some (L "http://www.winehq.org/tests18/.").
Proof. split; by vm_compute. Qed.

(** The block of UrlCombineW has room for URLs of INTERNET_MAX_URL_LENGTH
    characters, but the size of the caller's buffer is passed on: with a base
    and a relative URL of 2,000 characters each the result is written behind
    the end of the block. *)
Theorem UrlCombineW_overflow :
  UrlCombineW ascii_utf8 some_heap lower (Some (L "http://h/" ++ replicate 2000 98 ++ L "/" ++ [0])) (Some (replicate 2000 97 ++ [0]))
    (Some (replicate 5000 1)) (Some 5000%nat) 0 = Fault.
Proof. by vm_compute. Qed.

(** ** UrlApplySchemeW *)
Section Apply.
Context (W : list Z -> list Z) (heap_alloc : nat -> option (list Z)).
Context (ChrCmpIW : Z -> Z -> bool) (Hcmp : forall c, c <> 0 -> ChrCmpIW 0 c = true).
Context (prefixes : list (list Z * list Z)) (default_prefix : list Z).

(** Whether a string starts with a value of the registry. *)
Fixpoint has_prefix (s value : list Z) : bool :=
  match value, s with
  | [], _ => true
  | v :: value, c :: s => negb (ChrCmpIW c v) && has_prefix s value
  | _ :: _, [] => false
  end.

Lemma same_prefix_text : forall value s u i rest, drop i u = s ++ 0 :: rest -> nonul value ->
  same_prefix ChrCmpIW u i value = Ok (has_prefix s value).
Proof.
  induction value as [|v value IH]; intros s u i rest Hd Hv; [by destruct s|]. apply nonul_cons in Hv as [Hv0 Hv]. cbn [same_prefix].
  destruct s as [|c s]; cbn [app] in Hd; rewrite (rd_drop _ _ _ _ Hd), bind_ok; [by rewrite Hcmp|]. cbn [has_prefix].
  destruct (ChrCmpIW c v); [done|]. cbn [negb andb]. apply (IH s u (S i) rest); [by apply drop_next in Hd|done].
Qed.

(** The first prefix whose value the string starts with. *)
Fixpoint guessed (values : list (list Z * list Z)) (s : list Z) : option (list Z) :=
  match values with
  | [] => None
  | (value, data) :: values => if has_prefix s value then Some data else guessed values s
  end.

(** The prefix that UrlApplySchemeW puts in front of a string. *)
Definition scheme_to_apply (s : list Z) (flags : Z) : option (list Z) :=
  let default := if flag flags URL_APPLY_DEFAULT then Some default_prefix else None in
  match split_scheme s with
  | Some _ => if flag flags URL_APPLY_FORCEAPPLY then default else None
  | None =>
    if flag flags URL_APPLY_GUESSSCHEME
    then match guessed prefixes s with Some data => Some data | None => default end else default
  end.

Lemma prepend_text d drest s rest out size : nonul d -> nonul s -> (size <= length out)%nat ->
  prepend (d ++ 0 :: drest) (s ++ 0 :: rest) out size =
    if (length (d ++ s) <? size)%nat then Ok (S_OK, (d ++ s) ++ 0 :: drop (S (length (d ++ s))) out, length (d ++ s))
    else Ok (E_POINTER, out, (length (d ++ s) + 1)%nat).
Proof.
  intros Hd Hs Hsz. unfold prepend. rewrite (wcslen_str d), bind_ok by done. rewrite wcslen_str, bind_ok by done. rewrite length_app.
  destruct (Nat.ltb_spec size (length d + length s + 1)), (Nat.ltb_spec (length d + length s) size); try lia; [done|].
  rewrite (lstrcpyW_text out 0 _ 0 d drest), bind_ok by (done || lia). rewrite take_0. cbn [app Nat.add].
  unfold lstrcatW. rewrite wcslen_str, bind_ok by done.
  rewrite (lstrcpyW_text _ (length d) _ 0 s rest), bind_ok; [|done|done|rewrite length_app; cbn [length]; rewrite length_drop; lia].
  rewrite take_app_length. rewrite drop_app_ge by lia. replace (length d + S (length s) - length d)%nat with (S (length s)) by lia.
  cbn [drop]. rewrite drop_drop, !app_assoc. rewrite wcslen_str by (by apply nonul_app). rewrite bind_ok, length_app.
  do 4 f_equal.
Qed.

(** The data of the registry, with their terminators. *)
Definition stored_values (values : list (list Z * list Z)) : list (list Z * list Z) := map (fun v => (v.1, v.2 ++ [0])) values.

Lemma guess_loop_text s rest out size : nonul s -> (size <= length out)%nat -> forall values,
  Forall (fun v => nonul v.1 /\ nonul v.2) values ->
  guess_loop ChrCmpIW (stored_values values) (s ++ 0 :: rest) out size =
    match guessed values s with
    | Some d =>
      if (length (d ++ s) <? size)%nat then Ok (S_OK, (d ++ s) ++ 0 :: drop (S (length (d ++ s))) out, length (d ++ s))
      else Ok (E_POINTER, out, (length (d ++ s) + 1)%nat)
    | None => Ok (E_FAIL, out, size)
    end.
Proof.
  intros Hs Hsz. induction values as [|[v d] values IH]; intros Hv; [done|]. pose proof (Forall_inv Hv) as [Hv1 Hv2].
  cbn [stored_values map guess_loop guessed fst snd]. rewrite (same_prefix_text v s _ 0 rest), bind_ok by done.
  destruct (has_prefix s v); [by apply prepend_text|]. apply IH. by apply Forall_inv_tail in Hv.
Qed.

Lemma apply_scheme_text s rest out size flags : nonul s -> (size <= length out)%nat ->
  Forall (fun v => nonul v.1 /\ nonul v.2) prefixes -> nonul default_prefix ->
  apply_scheme ChrCmpIW (stored_values prefixes) (default_prefix ++ [0]) (s ++ 0 :: rest) out size flags =
    match scheme_to_apply s flags with
    | Some d =>
      if (length (d ++ s) <? size)%nat then Ok (S_OK, (d ++ s) ++ 0 :: drop (S (length (d ++ s))) out, length (d ++ s))
      else Ok (E_POINTER, out, (length (d ++ s) + 1)%nat)
    | None => Ok (S_FALSE, out, size)
    end.
Proof.
  intros Hs Hsz Hp Hd. unfold apply_scheme, scheme_to_apply. rewrite ParseURLW_split by done. cbv zeta.
  destruct (split_scheme s) as [[q r]|]; rewrite bind_ok; cbv beta iota.
  - change (S_OK =? 0) with true. cbn [negb andb orb]. rewrite bind_ok. cbv beta iota. change (negb (E_FAIL =? E_FAIL)) with false. cbv iota.
    destruct (flag flags URL_APPLY_FORCEAPPLY), (flag flags URL_APPLY_DEFAULT); try done. by apply prepend_text.
  - change (URL_E_INVALID_SYNTAX =? 0) with false. cbn [negb andb orb].
    assert (Hdef : (if flag flags URL_APPLY_DEFAULT then url_apply_default_scheme (default_prefix ++ [0]) (s ++ 0 :: rest) out size
                    else Ok (S_FALSE, out, size)) =
      match (if flag flags URL_APPLY_DEFAULT then Some default_prefix else None) with
      | Some d => if (length (d ++ s) <? size)%nat then Ok (S_OK, (d ++ s) ++ 0 :: drop (S (length (d ++ s))) out, length (d ++ s))
                  else Ok (E_POINTER, out, (length (d ++ s) + 1)%nat)
      | None => Ok (S_FALSE, out, size)
      end) by (destruct (flag flags URL_APPLY_DEFAULT); [by apply prepend_text|done]).
    destruct (flag flags URL_APPLY_GUESSSCHEME); [|by rewrite bind_ok].
    unfold url_guess_scheme. rewrite guess_loop_text by done. destruct (guessed prefixes s) as [d|]; [|by rewrite bind_ok].
    destruct (_ <? _)%nat; by rewrite bind_ok.
Qed.

End Apply.

(** UrlApplySchemeW puts the prefix in front of a URL that the flags and
    the registry give: the first one of the list that fits a URL without a
    scheme, then the default, which URL_APPLY_FORCEAPPLY also puts in front
    of a URL with a scheme.  It stores the result, reports the size it needs,
    or leaves the buffer alone and returns S_FALSE. *)
Theorem UrlApplySchemeW_applies W heap_alloc ChrCmpIW prefixes default_prefix s rest out size flags :
  (forall c, c <> 0 -> ChrCmpIW 0 c = true) -> Forall (fun v => nonul v.1 /\ nonul v.2) prefixes -> nonul default_prefix ->
  nonul s -> (size <= length out)%nat -> flag flags URL_APPLY_GUESSFILE = false ->
  UrlApplySchemeW W heap_alloc ChrCmpIW (stored_values prefixes) (default_prefix ++ [0]) (Some (s ++ 0 :: rest)) (Some out) (Some size) flags =
    match scheme_to_apply ChrCmpIW prefixes default_prefix s flags with
    | Some d =>
      let t := d ++ s in
      if (length t <? size)%nat then Ok (S_OK, Some (t ++ 0 :: drop (S (length t)) out), Some (length t))
      else Ok (E_POINTER, Some out, Some (length t + 1)%nat)
    | None => Ok (S_FALSE, Some out, Some size)
    end.
Proof.
  intros Hcmp Hp Hd Hs Hsz Hf. unfold UrlApplySchemeW. rewrite Hf, !bind_ok. cbv beta iota. cbn [andb].
  rewrite apply_scheme_text by done. destruct (scheme_to_apply _ _ _ _ _) as [d|]; [|by rewrite bind_ok].
  cbv zeta. destruct (_ <? _)%nat; by rewrite bind_ok.
Qed.

(** Characters differ when they do so in lower case. *)
Definition ascii_differ (a b : Z) : bool := negb (lower a =? lower b).

Lemma UrlApplySchemeW_applies_witness :
  UrlApplySchemeW ascii_utf8 some_heap ascii_differ (stored_values [(L "ftp.", L "ftp://"); (L "www.", L "http://")]) (L "http://" ++ [0])
    (Some (L "WWW.host" ++ [0])) (Some (replicate 20 1)) (Some 20%nat) (Z.lor URL_APPLY_GUESSSCHEME URL_APPLY_DEFAULT) =
  Ok (S_OK, Some (L "http://WWW.host" ++ 0 :: replicate 4 1), Some 15%nat).
Proof.
  apply (UrlApplySchemeW_applies ascii_utf8 some_heap ascii_differ [(L "ftp.", L "ftp://"); (L "www.", L "http://")] (L "http://") (L "WWW.host") []
    (replicate 20 1) 20); [|by repeat constructor|nonul_tac|nonul_tac|simpl; lia|done].
  intros c Hc. unfold ascii_differ. change (lower 0) with 0. apply negb_true_iff, Z.eqb_neq. unfold lower.
  destruct ((65 <=? c) && (c <=? 90)) eqn:Ec; lia.
Defined.

(** With URL_APPLY_GUESSFILE the second character of the URL is read before
    the first one is looked at: for an empty string it lies behind the
    terminator. *)
Theorem UrlApplySchemeW_empty :
  UrlApplySchemeW ascii_utf8 some_heap ascii_differ [] [0] (Some [0]) (Some (replicate 20 1)) (Some 20%nat) URL_APPLY_GUESSFILE = Fault.
Proof. by vm_compute. Qed.

End UrlCombineSpec.
