(* ===== verification/Barrier.v ===== *)
(** * Synchronisation barriers (oca/extensions/kernelex/synch.c)

    InitializeSynchronizationBarrier, EnterSynchronizationBarrier and
    DeleteSynchronizationBarrier, run by several threads at once.  Each access
    to the structure and each call on an event is a step of its own. *)
From stdpp Require Import gmap.
From S2P Require Import Prelude.

Module Barrier.

Definition SYNCHRONIZATION_BARRIER_FLAGS_SPIN_ONLY := 0x01.
Definition SYNCHRONIZATION_BARRIER_FLAGS_BLOCK_ONLY := 0x02.
Definition ERROR_INVALID_PARAMETER := 87.

(** [Reserved3] is an array of two handles. *)
Record RTL_BARRIER := RtlBarrier {
  Reserved1 : Z; Reserved2 : Z; Reserved3_0 : Z; Reserved3_1 : Z; Reserved4 : Z; Reserved5 : Z }.

Definition zero_barrier : RTL_BARRIER := RtlBarrier 0 0 0 0 0 0.

(** kernel32: the results of the two calls of CreateEvent, 0 when they fail,
    and the number of processors.  The results are the return value, the
    last error when it is set, and the structure. *)
Definition InitializeSynchronizationBarrier (hEvent0 hEvent1 dwNumberOfProcessors : Z) (lpBarrier : option RTL_BARRIER)
    (lTotalThreads lSpinCount : Z) : bool * option Z * option RTL_BARRIER :=
  match lpBarrier with
  | None => (false, Some ERROR_INVALID_PARAMETER, None)
  | Some b =>
    if (lTotalThreads <? 1) || (lSpinCount <? -1) then (false, Some ERROR_INVALID_PARAMETER, Some b)
    else
      let lSpinCount := if lSpinCount =? -1 then 2000 else lSpinCount in
      if (hEvent0 =? 0) || (hEvent1 =? 0) then (false, None, Some zero_barrier)
      else (true, None, Some (RtlBarrier lTotalThreads lTotalThreads hEvent0 hEvent1 dwNumberOfProcessors lSpinCount))
  end.

(** ** A thread *)

(** The point that a thread has reached, with its local variables: [cur] and
    [dorm] are hCurrentEvent and hDormantEvent.  The last constructors belong
    to DeleteSynchronizationBarrier. *)
Inductive pc : Type :=
| Outside
| ReadCurrent (dwFlags : Z)
| ReadDormant (dwFlags cur : Z)
| Decrement (dwFlags cur dorm : Z)
| ReadProcessors (dwFlags cur remainingThreads : Z)
| ReadSpinCount (dwFlags cur : Z)
| Spin (dwFlags cur sp dwSpinCount : Z)
| Wait (cur : Z)
| ResetDormant (cur dorm : Z)
| ReadTotal (cur dorm : Z)
| StoreRemaining (cur dorm total : Z)
| StoreDormant (cur dorm : Z)
| StoreCurrent (cur dorm : Z)
| Signal (cur : Z)
| DeleteRead
| DeleteCompare (remaining : Z)
| DeleteClose0
| DeleteClose1
| DeleteZero.

(** What a thread does that its caller can see: it has been counted, and it
    has returned from EnterSynchronizationBarrier. *)
Inductive label : Type :=
| Arrives
| Returns (result : bool).

#[export] Instance label_eq_dec : EqDecision label.
Proof. solve_decision. Defined.

(** The events that are open, and whether they are set. *)
Abbreviation event_map := (gmap Z bool).

(** [SetEvent] and [ResetEvent], which do nothing to a closed handle *)
Definition set_event (evs : event_map) (h : Z) (v : bool) : event_map :=
  match evs !! h with Some _ => <[h := v]> evs | None => evs end.

Definition flag (flags bit : Z) : bool := negb (Z.land flags bit =? 0).

Definition set1 (b : RTL_BARRIER) (v : Z) := RtlBarrier v (Reserved2 b) (Reserved3_0 b) (Reserved3_1 b) (Reserved4 b) (Reserved5 b).
Definition set3_0 (b : RTL_BARRIER) (v : Z) := RtlBarrier (Reserved1 b) (Reserved2 b) v (Reserved3_1 b) (Reserved4 b) (Reserved5 b).
Definition set3_1 (b : RTL_BARRIER) (v : Z) := RtlBarrier (Reserved1 b) (Reserved2 b) (Reserved3_0 b) v (Reserved4 b) (Reserved5 b).

Definition effect : Type := RTL_BARRIER * event_map * pc * list label.

Definition goto (b : RTL_BARRIER) (evs : event_map) (p : pc) : option effect := Some (b, evs, p, []).

(** The next step of a thread inside a function; [None]: it has none, or it
    waits. *)
Definition advance (b : RTL_BARRIER) (evs : event_map) (p : pc) : option effect :=
  match p with
  | Outside => None
  | ReadCurrent fl => goto b evs (ReadDormant fl (Reserved3_0 b))
  | ReadDormant fl cur => goto b evs (Decrement fl cur (Reserved3_1 b))
  | Decrement fl cur dorm =>
    let remainingThreads := i32 (Reserved1 b - 1) in
    let b := set1 b (u32 (Reserved1 b - 1)) in
    if 0 <? remainingThreads then Some (b, evs, ReadProcessors fl cur remainingThreads, [Arrives])
    else Some (b, evs, ResetDormant cur dorm, [Arrives])
  | ReadProcessors fl cur remainingThreads =>
    let spinOnly := flag fl SYNCHRONIZATION_BARRIER_FLAGS_SPIN_ONLY in
    let blockOnly := flag fl SYNCHRONIZATION_BARRIER_FLAGS_BLOCK_ONLY in
    if spinOnly || (remainingThreads <? Reserved4 b) && negb blockOnly then goto b evs (ReadSpinCount fl cur)
    else goto b evs (Wait cur)
  | ReadSpinCount fl cur => goto b evs (Spin fl cur 0 (Reserved5 b))
  | Spin fl cur sp dwSpinCount =>
    if Reserved3_0 b =? cur then
      if flag fl SYNCHRONIZATION_BARRIER_FLAGS_SPIN_ONLY then goto b evs p
      else if dwSpinCount <? u32 (sp + 1) then goto b evs (Wait cur) else goto b evs (Spin fl cur (u32 (sp + 1)) dwSpinCount)
    else Some (b, evs, Outside, [Returns false])
  | Wait cur =>
    match evs !! cur with
    | Some false => None
    | _ => Some (b, evs, Outside, [Returns false])
    end
  | ResetDormant cur dorm => goto b (set_event evs dorm false) (ReadTotal cur dorm)
  | ReadTotal cur dorm => goto b evs (StoreRemaining cur dorm (Reserved2 b))
  | StoreRemaining cur dorm total => goto (set1 b total) evs (StoreDormant cur dorm)
  | StoreDormant cur dorm => goto (set3_1 b cur) evs (StoreCurrent cur dorm)
  | StoreCurrent cur dorm => goto (set3_0 b dorm) evs (Signal cur)
  | Signal cur => Some (b, set_event evs cur true, Outside, [Returns true])
  | DeleteRead => goto b evs (DeleteCompare (Reserved1 b))
  | DeleteCompare remaining => goto b evs (if remaining =? Reserved2 b then DeleteClose0 else DeleteRead)
  | DeleteClose0 => goto b (if Reserved3_0 b =? 0 then evs else delete (Reserved3_0 b) evs) DeleteClose1
  | DeleteClose1 => goto b (if Reserved3_1 b =? 0 then evs else delete (Reserved3_1 b) evs) DeleteZero
  | DeleteZero => goto zero_barrier evs Outside
  end.

(** ** All threads *)
Record state := State { bar : RTL_BARRIER; events : event_map; pcs : list pc }.

(** A thread outside calls a function, or a thread inside goes on. *)
Inductive action : Type :=
| Enter (dwFlags : Z)
| Delete
| Run.

Definition exec (a : action) (t : nat) (s : state) : option (state * list label) :=
  match pcs s !! t, a with
  | Some Outside, Enter fl => Some (State (bar s) (events s) (<[t := ReadCurrent fl]> (pcs s)), [])
  | Some Outside, Delete => Some (State (bar s) (events s) (<[t := DeleteRead]> (pcs s)), [])
  | Some p, Run =>
    match advance (bar s) (events s) p with
    | Some (b, evs, p, l) => Some (State b evs (<[t := p]> (pcs s)), l)
    | None => None
    end
  | _, _ => None
  end.

(** What has happened, the latest first. *)
Abbreviation trace := (list (nat * label)).

(** The start: [n] threads, and what InitializeSynchronizationBarrier leaves. *)
Definition initial (n : nat) (b : RTL_BARRIER) : state :=
  State b (<[Reserved3_0 b := false]> (<[Reserved3_1 b := false]> ∅)) (replicate n Outside).

(** The runs of threads that enter the barrier again and again, in any
    order. *)
Inductive run (n : nat) (b : RTL_BARRIER) : trace -> state -> Prop :=
| run_start : run n b [] (initial n b)
| run_step tr s a t s' l : run n b tr s -> a <> Delete -> exec a t s = Some (s', l) -> run n b (map (pair t) l ++ tr) s'.

(** A schedule, step by step. *)
Fixpoint exec_all (l : list (action * nat)) (s : state) (tr : trace) : option (state * trace) :=
  match l with
  | [] => Some (s, tr)
  | (a, t) :: l => match exec a t s with Some (s, lb) => exec_all l s (map (pair t) lb ++ tr) | None => None end
  end.

(** Counts of what has happened. *)
Definition happened (P : nat * label -> bool) (tr : trace) : nat := length (List.filter P tr).

Definition arrivals (t : nat) : trace -> nat := happened (fun e => bool_decide (e = (t, Arrives))).
Definition departures (t : nat) : trace -> nat := happened (fun e => (t =? e.1)%nat && negb (bool_decide (e.2 = Arrives))).
Definition winners : trace -> nat := happened (fun e => bool_decide (e.2 = Returns true)).

End Barrier.
