(* ===== verification/BarrierSpec.v ===== *)
(** * The barrier holds back every thread until all have arrived

    The invariant counts the threads that have arrived in the present phase;
    at most one thread, the last to arrive, changes the structure. *)
From stdpp Require Import gmap.
From S2P Require Import Prelude Barrier.
Import Barrier.

Module BarrierSpec.

(** ** Counting *)
Definition b2n (b : bool) : nat := if b then 1 else 0.

Section Count.
Context {A : Type} (f : A -> bool).

Definition count (l : list A) : nat := sum_list_with (fun x => b2n (f x)) l.

Lemma count_insert l i x y : l !! i = Some x -> (count (<[i := y]> l) + b2n (f x) = count l + b2n (f y))%nat.
Proof.
  revert i. induction l as [|z l IH]; intros i Hi; [done|]. destruct i as [|i]; unfold count in *; simpl in *.
  - injection Hi as ->. lia.
  - specialize (IH i Hi). lia.
Qed.

Lemma count_le l : (count l <= length l)%nat.
Proof. induction l as [|x l IH]; [done|]. unfold count in *. simpl. destruct (f x); simpl; lia. Qed.

Lemma count_all l : count l = length l -> forall i x, l !! i = Some x -> f x = true.
Proof.
  induction l as [|z l IH]; intros Hc i x Hi; [done|]. pose proof (count_le l). unfold count in *. simpl in Hc.
  destruct (f z) eqn:E; simpl in Hc; [|lia]. destruct i as [|i]; [by injection Hi as <-|]. apply (IH ltac:(lia) i x Hi).
Qed.

Lemma count_none l : (forall i x, l !! i = Some x -> f x = false) -> count l = 0%nat.
Proof.
  induction l as [|z l IH]; intros Hl; [done|]. unfold count in *. simpl. rewrite (Hl 0%nat z eq_refl). simpl. apply IH.
  intros i x Hi. by apply (Hl (S i) x).
Qed.

Lemma count_full l : (forall i x, l !! i = Some x -> f x = true) -> count l = length l.
Proof.
  induction l as [|z l IH]; intros Hl; [done|]. unfold count in *. simpl. rewrite (Hl 0%nat z eq_refl). simpl. f_equal. apply IH.
  intros i x Hi. by apply (Hl (S i) x).
Qed.

End Count.

(** ** The invariant *)
Section Inv.
Context (n : nat) (h0 h1 : Z) (Hne : h0 <> h1) (Hn : (0 < n)%nat) (Hmax : Z.of_nat n < 2 ^ 31).

(** The event of a phase. *)
Definition ev (ph : nat) : Z := if Nat.even ph then h0 else h1.

Lemma ev_next ph : ev (S ph) <> ev ph.
Proof. unfold ev. rewrite Nat.even_succ, <- Nat.negb_even. by destruct (Nat.even ph); simpl. Qed.

Lemma ev_next_next ph : ev (S (S ph)) = ev ph.
Proof. unfold ev. by rewrite Nat.even_succ_succ. Qed.

(** The last thread of a phase, until it returns. *)
Definition is_last (p : pc) : bool :=
  match p with ResetDormant _ _ | ReadTotal _ _ | StoreRemaining _ _ _ | StoreDormant _ _ | StoreCurrent _ _ | Signal _ => true | _ => false end.

(** The event that a thread waits for. *)
Definition awaits (p : pc) : option Z :=
  match p with ReadProcessors _ c _ | ReadSpinCount _ c | Spin _ c _ _ | Wait c => Some c | _ => None end.

(** It has been counted in the present phase. *)
Definition arrived (ph : nat) (p : pc) : bool :=
  match p with
  | ResetDormant _ _ | ReadTotal _ _ | StoreRemaining _ _ _ | StoreDormant _ _ | StoreCurrent _ _ => true
  | _ => match awaits p with Some c => c =? ev ph | None => false end
  end.

(** It has been counted and has not returned. *)
Definition inside (p : pc) : bool := is_last p || match awaits p with Some _ => true | None => false end.

Definition pc_ok (ph : nat) (p : pc) : Prop :=
  match p with
  | Outside | ReadCurrent _ => True
  | ReadDormant _ c => c = ev ph
  | Decrement _ c d | ResetDormant c d | ReadTotal c d | StoreDormant c d | StoreCurrent c d => c = ev ph /\ d = ev (S ph)
  | StoreRemaining c d k => c = ev ph /\ d = ev (S ph) /\ k = Z.of_nat n
  | ReadProcessors _ c _ | ReadSpinCount _ c | Spin _ c _ _ | Wait c => c = ev ph \/ c = ev (S ph)
  | Signal c => c = ev (S ph)
  | _ => False
  end.

(** It waits for the event of the phase before. *)
Definition leaving (ph : nat) (p : pc) : bool := match awaits p with Some c => negb (c =? ev ph) | None => false end.

Definition others_not_last (t : nat) (ps : list pc) : Prop := forall u q, u <> t -> ps !! u = Some q -> is_last q = false.

Inductive mode (ph : nat) (tr : trace) (s : state) : Prop :=
| Gathering v :
    (forall u q, pcs s !! u = Some q -> is_last q = false) -> Reserved3_1 (bar s) = ev (S ph) ->
    Reserved1 (bar s) = Z.of_nat n - Z.of_nat (count (arrived ph) (pcs s)) /\ (count (arrived ph) (pcs s) < n)%nat ->
    events s !! ev ph = Some false -> events s !! ev (S ph) = Some v ->
    (v = false -> forall u q, pcs s !! u = Some q -> leaving ph q = false) -> winners tr = ph -> mode ph tr s
| Finishing t p v :
    pcs s !! t = Some p -> is_last p = true -> others_not_last t (pcs s) ->
    (forall u q, pcs s !! u = Some q -> arrived ph q = true) ->
    Reserved3_1 (bar s) = (match p with StoreCurrent _ _ => ev ph | _ => ev (S ph) end) ->
    Reserved1 (bar s) = (match p with StoreDormant _ _ | StoreCurrent _ _ => Z.of_nat n | _ => 0 end) ->
    events s !! ev ph = Some false -> events s !! ev (S ph) = Some v ->
    (match p with ResetDormant _ _ => True | _ => v = false end) -> winners tr = ph -> mode ph tr s
| Signalling t :
    pcs s !! t = Some (Signal (ev (S ph))) -> others_not_last t (pcs s) -> Reserved3_1 (bar s) = ev (S ph) ->
    Reserved1 (bar s) = Z.of_nat n - Z.of_nat (count (arrived ph) (pcs s)) ->
    events s !! ev ph = Some false -> events s !! ev (S ph) = Some false -> S (winners tr) = ph -> mode ph tr s.

(** What holds of one thread. *)
Definition thread_ok (ph : nat) (tr : trace) (t : nat) (p : pc) : Prop :=
  pc_ok ph p /\ arrivals t tr = (ph + b2n (arrived ph p))%nat /\ (departures t tr + b2n (inside p))%nat = arrivals t tr.

Record inv (ph : nat) (tr : trace) (s : state) : Prop := Inv {
  inv_length : length (pcs s) = n;
  inv_total : Reserved2 (bar s) = Z.of_nat n;
  inv_current : Reserved3_0 (bar s) = ev ph;
  inv_threads : forall t p, pcs s !! t = Some p -> thread_ok ph tr t p;
  inv_mode : mode ph tr s }.

(** ** Steps *)

(** The counts of the other threads stay. *)
Lemma arrivals_other t u l tr : u <> t -> arrivals u (map (pair t) l ++ tr) = arrivals u tr.
Proof.
  intros Hu. unfold arrivals, happened. rewrite List.filter_app, length_app. induction l as [|x l IH]; [done|]. simpl.
  rewrite bool_decide_eq_false_2 by congruence. done.
Qed.

Lemma departures_other t u l tr : u <> t -> departures u (map (pair t) l ++ tr) = departures u tr.
Proof.
  intros Hu. unfold departures, happened. rewrite List.filter_app, length_app. induction l as [|x l IH]; [done|]. simpl.
  rewrite (proj2 (Nat.eqb_neq u t) Hu). done.
Qed.

Lemma barrier_other ph tr t u l p : u <> t -> thread_ok ph tr u p -> thread_ok ph (map (pair t) l ++ tr) u p.
Proof. intros Hu (H1 & H2 & H3). unfold thread_ok. by rewrite arrivals_other, departures_other. Qed.

Lemma threads_update ph tr s t l q : (forall u p, pcs s !! u = Some p -> thread_ok ph tr u p) ->
  thread_ok ph (map (pair t) l ++ tr) t q ->
  forall u p, <[t := q]> (pcs s) !! u = Some p -> thread_ok ph (map (pair t) l ++ tr) u p.
Proof.
  intros Hall Hq u p Hu. destruct (decide (u = t)) as [->|Hne'].
  - apply list_lookup_insert_Some in Hu as [(_ & <- & _)|[? _]]; done.
  - rewrite list_lookup_insert_ne in Hu by done. apply barrier_other; [done|by apply Hall].
Qed.

Lemma insert_cases (ps : list pc) t q u x : <[t := q]> ps !! u = Some x -> u = t /\ x = q \/ u <> t /\ ps !! u = Some x.
Proof.
  intros Hu. destruct (decide (u = t)) as [->|Hne']; [|rewrite list_lookup_insert_ne in Hu by done; by right].
  apply list_lookup_insert_Some in Hu as [(_ & <- & _)|[? _]]; [by left|done].
Qed.

Lemma winners_none t l tr : Forall (fun x => x <> Returns true) l -> winners (map (pair t) l ++ tr) = winners tr.
Proof.
  unfold winners, happened. induction 1 as [|x l Hx _ IH]; [done|]. simpl. by rewrite bool_decide_eq_false_2 by done.
Qed.

(** A step of a thread other than the last that leaves the structure alone
    and is not its arrival. *)
Lemma local_step ph tr s t p q l : inv ph tr s -> pcs s !! t = Some p -> is_last p = false -> is_last q = false ->
  arrived ph q = arrived ph p -> (leaving ph q = true -> leaving ph p = true) -> thread_ok ph (map (pair t) l ++ tr) t q ->
  Forall (fun x => x <> Returns true) l -> inv ph (map (pair t) l ++ tr) (State (bar s) (events s) (<[t := q]> (pcs s))).
Proof.
  intros [Hlen Htot Hcur Hthr Hm] Ht Hp Hq Harr Hlv Hok Hl. split; cbn [bar events pcs]; try done.
  { by rewrite length_insert. }
  { by apply threads_update. }
  assert (Hc : count (arrived ph) (<[t := q]> (pcs s)) = count (arrived ph) (pcs s)).
  { pose proof (count_insert (arrived ph) (pcs s) t p q Ht) as H. rewrite Harr in H. lia. }
  destruct Hm as [v H1 H2 H3 H4 H5 H6 H7|t0 p0 v H0 H1 H2 H3 H4 H5 H6 H7 H8 H9|t0 H0 H1 H2 H3 H4 H5 H6].
  - apply (Gathering _ _ _ v); cbn [bar events pcs]; rewrite ?Hc, ?winners_none by done; try done.
    + intros u x [[-> ->]|[_ Hu]]%insert_cases; [done|by apply (H1 u)].
    + intros Hv u x [[-> ->]|[_ Hu]]%insert_cases; [|by apply (H6 Hv u)]. specialize (H6 Hv t p Ht).
      destruct (leaving ph q); [|done]. by rewrite Hlv in H6.
  - assert (Htt : t0 <> t) by (intros ->; congruence).
    apply (Finishing _ _ _ t0 p0 v); cbn [bar events pcs]; rewrite ?winners_none by done; try done.
    + by rewrite list_lookup_insert_ne.
    + intros u x Hu [[-> ->]|[_ Hx]]%insert_cases; [done|by apply (H2 u)].
    + intros u x [[-> ->]|[_ Hx]]%insert_cases; [|by apply (H3 u)]. rewrite Harr. by apply (H3 t).
  - assert (Htt : t0 <> t) by (intros ->; rewrite H0 in Ht; by injection Ht as <-).
    apply (Signalling _ _ _ t0); cbn [bar events pcs]; rewrite ?Hc, ?winners_none by done; try done.
    + by rewrite list_lookup_insert_ne.
    + intros u x Hu [[-> ->]|[_ Hx]]%insert_cases; [done|by apply (H1 u)].
Qed.

(** The same without a label, and a return. *)
Lemma silent_step ph tr s t p q : inv ph tr s -> pcs s !! t = Some p -> is_last p = false -> is_last q = false ->
  arrived ph q = arrived ph p -> inside q = inside p -> (leaving ph q = true -> leaving ph p = true) -> pc_ok ph q ->
  inv ph tr (State (bar s) (events s) (<[t := q]> (pcs s))).
Proof.
  intros Hi Ht Hp Hq Harr Hin Hlv Hok. apply (local_step ph tr s t p q []); try done.
  destruct (inv_threads _ _ _ Hi t p Ht) as (_ & H1 & H2). unfold thread_ok. by rewrite Harr, Hin.
Qed.

Lemma departures_return t r tr : departures t (map (pair t) [Returns r] ++ tr) = S (departures t tr).
Proof. unfold departures, happened. simpl. by rewrite Nat.eqb_refl. Qed.

Lemma arrivals_return t r tr : arrivals t (map (pair t) [Returns r] ++ tr) = arrivals t tr.
Proof. unfold arrivals, happened. simpl. by rewrite bool_decide_eq_false_2. Qed.

Lemma arrivals_arrive t tr : arrivals t (map (pair t) [Arrives] ++ tr) = S (arrivals t tr).
Proof. unfold arrivals, happened. simpl. by rewrite bool_decide_eq_true_2. Qed.

Lemma departures_arrive t tr : departures t (map (pair t) [Arrives] ++ tr) = departures t tr.
Proof. unfold departures, happened. simpl. by rewrite andb_false_r. Qed.

(** A thread that waits for the event of the phase before returns. *)
Lemma return_step ph tr s t p : inv ph tr s -> pcs s !! t = Some p -> leaving ph p = true ->
  inv ph (map (pair t) [Returns false] ++ tr) (State (bar s) (events s) (<[t := Outside]> (pcs s))).
Proof.
  intros Hi Ht Hlv. destruct (inv_threads _ _ _ Hi t p Ht) as (_ & H1 & H2).
  assert (Hp : is_last p = false /\ arrived ph p = false /\ inside p = true).
  { unfold leaving in Hlv. unfold arrived, inside. destruct p; cbn [awaits is_last] in *; try done; by destruct (cur =? ev ph). }
  destruct Hp as (Hp1 & Hp2 & Hp3). apply (local_step ph tr s t p); [done|done|done|done|by rewrite Hp2|done| |by repeat constructor].
  split_and!; [done| |]; rewrite ?arrivals_return, ?departures_return; rewrite ?Hp2, ?Hp3 in *; simpl in *; lia.
Qed.

(** A thread is counted: it waits, or it is the last one. *)
Lemma arrive_step ph tr s t fl c d : inv ph tr s -> pcs s !! t = Some (Decrement fl c d) ->
  exists q, advance (bar s) (events s) (Decrement fl c d) = Some (set1 (bar s) (Reserved1 (bar s) - 1), events s, q, [Arrives]) /\
    inv ph (map (pair t) [Arrives] ++ tr) (State (set1 (bar s) (Reserved1 (bar s) - 1)) (events s) (<[t := q]> (pcs s))).
Proof.
  intros [Hlen Htot Hcur Hthr Hm] Ht. destruct (Hthr t _ Ht) as ([-> ->] & Ha & Hd). cbn [arrived awaits inside is_last] in Ha, Hd.
  set (cnt := count (arrived ph) (pcs s)).
  assert (Hcnt : (cnt < n)%nat).
  { pose proof (count_le (arrived ph) (pcs s)) as Hle. fold cnt in Hle. destruct (decide (cnt = n)) as [E|]; [|lia].
    exfalso. pose proof (count_all (arrived ph) (pcs s) ltac:(unfold cnt in E; lia) t _ Ht). done. }
  assert (Hok : forall q, pc_ok ph q -> arrived ph q = true -> inside q = true -> thread_ok ph (map (pair t) [Arrives] ++ tr) t q).
  { intros q Hq1 Hq2 Hq3. split_and!; [done| |]; rewrite ?arrivals_arrive, ?departures_arrive, ?Hq2, ?Hq3; simpl in *; lia. }
  assert (Hc : forall q, arrived ph q = true -> count (arrived ph) (<[t := q]> (pcs s)) = S cnt).
  { intros q Hq. pose proof (count_insert (arrived ph) (pcs s) t _ q Ht) as H. rewrite Hq in H. simpl in H. unfold cnt. lia. }
  assert (HR : Reserved1 (bar s) = Z.of_nat n - Z.of_nat cnt).
  { destruct Hm as [v H1 H2 [H3 _]|t0 p0 v H0 H1 H2 H3|t0 H0 H1 H2 H3]; [done| |done]. by specialize (H3 t _ Ht). }
  cbn [advance]. assert (Eu : u32 (Reserved1 (bar s) - 1) = Reserved1 (bar s) - 1) by (unfold u32; apply Z.mod_small; lia).
  assert (Ei : i32 (Reserved1 (bar s) - 1) = Reserved1 (bar s) - 1) by (unfold i32; rewrite Z.mod_small; lia).
  rewrite Eu, Ei. assert (Hw : forall l, Forall (fun x => x <> Returns true) l -> winners (map (pair t) l ++ tr) = winners tr)
    by (intros; by apply winners_none).
  destruct (Z.ltb_spec 0 (Reserved1 (bar s) - 1)) as [Hpos|Hzero]; (eexists; split; [done|]).
  - set (q := ReadProcessors fl (ev ph) (Reserved1 (bar s) - 1)).
    assert (Hq : arrived ph q = true) by (unfold q; simpl; apply Z.eqb_refl).
    assert (Hlq : leaving ph q = false) by (unfold q, leaving; simpl; by rewrite Z.eqb_refl).
    split; cbn [bar events pcs set1 Reserved1 Reserved2 Reserved3_0 Reserved3_1]; try done;
      [by rewrite length_insert|apply threads_update; [done|apply Hok; [by left|done|done]]|].
    destruct Hm as [v H1 H2 H3 H4 H5 H6 H7|t0 p0 v H0 H1 H2 H3|t0 H0 H1 H2 H3 H4 H5 H6]; [|by specialize (H3 t _ Ht)|].
    + apply (Gathering _ _ _ v); cbn [bar events pcs set1 Reserved1 Reserved3_1]; try done.
      * intros u x [[-> ->]|[_ Hu]]%insert_cases; [done|by apply (H1 u)].
      * rewrite Hc by done. lia.
      * intros Hv u x [[-> ->]|[_ Hu]]%insert_cases; [done|by apply (H6 Hv u)].
    + apply (Signalling _ _ _ t0); cbn [bar events pcs set1 Reserved1 Reserved3_1]; try done.
      * rewrite list_lookup_insert_ne; [done|]. intros ->. rewrite H0 in Ht. done.
      * intros u x Hu [[-> ->]|[_ Hx]]%insert_cases; [done|by apply (H1 u)].
      * rewrite Hc by done. lia.
  - set (q := ResetDormant (ev ph) (ev (S ph))). assert (Hall : count (arrived ph) (<[t := q]> (pcs s)) = length (<[t := q]> (pcs s))).
    { rewrite Hc, length_insert by done. lia. }
    pose proof (count_all _ _ Hall) as Har.
    split; cbn [bar events pcs set1 Reserved1 Reserved2 Reserved3_0 Reserved3_1]; try done;
      [by rewrite length_insert|apply threads_update; [done|by apply Hok]|].
    destruct Hm as [v H1 H2 H3 H4 H5 H6 H7|t0 p0 v H0 H1 H2 H3|t0 H0 H1 H2 H3 H4 H5 H6]; [|by specialize (H3 t _ Ht)|].
    + apply (Finishing _ _ _ t q v); cbn [bar events pcs set1 Reserved1 Reserved3_1]; try done.
      * apply list_lookup_insert_eq. by apply lookup_lt_Some in Ht.
      * intros u x Hu [[-> ->]|[_ Hx]]%insert_cases; [done|by apply (H1 u)].
      * simpl. lia.
    + exfalso. assert (t0 <> t) by (intros ->; by rewrite H0 in Ht).
      assert (Ht0 : <[t := q]> (pcs s) !! t0 = Some (Signal (ev (S ph)))) by (by rewrite list_lookup_insert_ne).
      by apply Har in Ht0.
Qed.

(** ** The last thread *)

(** Everything that is known when it takes a step in the present phase. *)
Lemma finishing_facts ph tr s t p : inv ph tr s -> pcs s !! t = Some p -> is_last p = true -> arrived ph p = true ->
  others_not_last t (pcs s) /\ (forall u q, pcs s !! u = Some q -> arrived ph q = true) /\
  Reserved3_1 (bar s) = (match p with StoreCurrent _ _ => ev ph | _ => ev (S ph) end) /\
  Reserved1 (bar s) = (match p with StoreDormant _ _ | StoreCurrent _ _ => Z.of_nat n | _ => 0 end) /\
  events s !! ev ph = Some false /\ (exists v, events s !! ev (S ph) = Some v /\ match p with ResetDormant _ _ => True | _ => v = false end) /\
  winners tr = ph.
Proof.
  intros [Hlen Htot Hcur Hthr Hm] Ht Hp Ha. destruct Hm as [v H1|t0 p0 v H0 H1 H2 H3 H4 H5 H6 H7 H8 H9|t0 H0 H1].
  - specialize (H1 t p Ht). congruence.
  - assert (t0 = t) as ->. { destruct (decide (t0 = t)); [done|]. rewrite (H2 t p) in Hp by done. done. }
    assert (p0 = p) as -> by congruence. split_and!; try done. by exists v.
  - assert (t0 = t) as ->. { destruct (decide (t0 = t)); [done|]. rewrite (H1 t p) in Hp by done. done. }
    assert (p = Signal (ev (S ph))) as -> by congruence. done.
Qed.

(** A step of it before the events are switched. *)
Lemma finish_step ph tr s t p q b' evs' : inv ph tr s -> pcs s !! t = Some p -> is_last p = true -> arrived ph p = true ->
  is_last q = true -> arrived ph q = true -> pc_ok ph q -> Reserved2 b' = Z.of_nat n -> Reserved3_0 b' = ev ph ->
  Reserved3_1 b' = (match q with StoreCurrent _ _ => ev ph | _ => ev (S ph) end) ->
  Reserved1 b' = (match q with StoreDormant _ _ | StoreCurrent _ _ => Z.of_nat n | _ => 0 end) ->
  evs' !! ev ph = Some false -> evs' !! ev (S ph) = Some false -> inv ph tr (State b' evs' (<[t := q]> (pcs s))).
Proof.
  intros Hi Ht Hp Ha Hq Haq Hok H2 H30 H31 H1 He1 He2. pose proof (finishing_facts ph tr s t p Hi Ht Hp Ha) as (Ho & Hall & _ & _ & _ & _ & Hw).
  destruct Hi as [Hlen Htot Hcur Hthr _]. split; cbn [bar events pcs]; try done; [by rewrite length_insert| |].
  - apply (threads_update ph tr s t []); [done|]. destruct (Hthr t p Ht) as (_ & E1 & E2). split_and!; [done|by rewrite Haq, <- Ha|].
    unfold inside in *. by rewrite Hq, Hp in *.
  - apply (Finishing _ _ _ t q false); cbn [bar events pcs]; try done.
    + apply list_lookup_insert_eq. by apply lookup_lt_Some in Ht.
    + intros u x Hu [[-> ->]|[_ Hx]]%insert_cases; [done|by apply (Ho u)].
    + intros u x [[-> ->]|[_ Hx]]%insert_cases; [done|by apply (Hall u)].
    + by destruct q.
Qed.

(** The switch: every thread that has arrived belongs to the phase before. *)
Lemma switch_step ph tr s t : inv ph tr s -> pcs s !! t = Some (StoreCurrent (ev ph) (ev (S ph))) ->
  inv (S ph) tr (State (set3_0 (bar s) (ev (S ph))) (events s) (<[t := Signal (ev ph)]> (pcs s))).
Proof.
  intros Hi Ht. pose proof (finishing_facts ph tr s t _ Hi Ht eq_refl eq_refl) as (Ho & Hall & H31 & H1 & He & (v & Hv & ->) & Hw).
  destruct Hi as [Hlen Htot Hcur Hthr _].
  assert (Hnew : forall u x, <[t := Signal (ev ph)]> (pcs s) !! u = Some x ->
    arrived (S ph) x = false /\ thread_ok (S ph) tr u x).
  { intros u x [[-> ->]|[Hu Hx]]%insert_cases.
    - split; [done|]. destruct (Hthr t _ Ht) as (_ & E1 & E2). split_and!; [cbn [pc_ok]; by rewrite ev_next_next|simpl in *; lia|exact E2].
    - pose proof (Ho u x Hu Hx) as Hl. pose proof (Hall u x Hx) as Hax. destruct (Hthr u x Hx) as (_ & E1 & E2).
      assert (Hw' : awaits x = Some (ev ph)).
      { destruct x; cbn [is_last arrived awaits] in *; try done; apply Z.eqb_eq in Hax; by subst. }
      assert (Hax' : arrived (S ph) x = false).
      { destruct x; cbn [is_last arrived awaits] in *; try done; injection Hw' as ->; apply Z.eqb_neq; pose proof (ev_next ph); congruence. }
      split; [done|]. split_and!; [|rewrite Hax'; rewrite Hax in E1; simpl in *; lia|done].
      destruct x; cbn [is_last awaits pc_ok] in *; try done; injection Hw' as ->; right; by rewrite ev_next_next. }
  split; cbn [bar events pcs set3_0 Reserved2 Reserved3_0]; try done; [by rewrite length_insert|intros u x Hx; by apply (Hnew u x Hx)|].
  apply (Signalling _ _ _ t); cbn [bar events pcs set3_0 Reserved1 Reserved3_1]; rewrite ?ev_next_next; try done.
  - apply list_lookup_insert_eq. by apply lookup_lt_Some in Ht.
  - intros u x Hu [[-> ->]|[_ Hx]]%insert_cases; [done|by apply (Ho u)].
  - rewrite count_none, H1; [lia|]. intros u x Hx. by apply (Hnew u x Hx).
  - by rewrite Hw.
Qed.

(** The threads of the phase before are woken. *)
Lemma signal_step ph tr s t : inv ph tr s -> pcs s !! t = Some (Signal (ev (S ph))) ->
  inv ph (map (pair t) [Returns true] ++ tr) (State (bar s) (set_event (events s) (ev (S ph)) true) (<[t := Outside]> (pcs s))).
Proof.
  intros [Hlen Htot Hcur Hthr Hm] Ht. destruct (Hthr t _ Ht) as (_ & E1 & E2).
  destruct Hm as [v H1|t0 p0 v H0 H1 H2 H3|t0 H0 H1 H2 H3 H4 H5 H6]; [by specialize (H1 t _ Ht)|by specialize (H3 t _ Ht)|].
  assert (t0 = t) as ->. { destruct (decide (t0 = t)); [done|]. by specialize (H1 t _ ltac:(done) Ht). }
  assert (Ee : set_event (events s) (ev (S ph)) true = <[ev (S ph) := true]> (events s)) by (unfold set_event; by rewrite H5).
  rewrite Ee. split; cbn [bar events pcs]; try done; [by rewrite length_insert| |].
  - apply threads_update; [done|]. split_and!; [done| |]; rewrite ?arrivals_return, ?departures_return; simpl in *; lia.
  - apply (Gathering _ _ _ true); cbn [bar events pcs]; try done.
    + intros u x [[-> ->]|[Hu Hx]]%insert_cases; [done|by apply (H1 u)].
    + pose proof (count_insert (arrived ph) (pcs s) t _ Outside Ht) as Hc. simpl in Hc. rewrite H3. split; [lia|].
      pose proof (count_le (arrived ph) (pcs s)) as Hle. destruct (decide (count (arrived ph) (pcs s) = n)) as [E|]; [|lia].
      exfalso. pose proof (count_all (arrived ph) (pcs s) ltac:(lia) t _ Ht). done.
    + rewrite lookup_insert_ne; [done|]. apply ev_next.
    + by rewrite lookup_insert_eq.
Qed.

(** A step of a thread that waits. *)
Lemma waiting_step ph tr s t p c b evs q l : inv ph tr s -> pcs s !! t = Some p -> awaits p = Some c ->
  advance (bar s) (events s) p = Some (b, evs, q, l) -> inv ph (map (pair t) l ++ tr) (State b evs (<[t := q]> (pcs s))).
Proof.
  intros Hi Ht Hc Ha. pose proof (inv_threads _ _ _ Hi t p Ht) as (Hok & _). pose proof (inv_current _ _ _ Hi) as Hcur.
  assert (Hsil : forall q', awaits q' = Some c -> pc_ok ph q' -> inv ph tr (State (bar s) (events s) (<[t := q']> (pcs s)))).
  { intros q' Hq' Hok'. apply (silent_step ph tr s t p); try done.
    - by destruct p.
    - by destruct q'.
    - destruct p; try done; destruct q'; try done; cbn [arrived awaits] in *; congruence.
    - unfold inside. destruct p; try done; by destruct q'.
    - unfold leaving. by rewrite Hc, Hq'. }
  assert (Hret : c <> ev ph -> inv ph (map (pair t) [Returns false] ++ tr) (State (bar s) (events s) (<[t := Outside]> (pcs s)))).
  { intros Hne'. apply (return_step ph tr s t p); try done. unfold leaving. rewrite Hc. by rewrite (proj2 (Z.eqb_neq _ _) Hne'). }
  destruct p; cbn [awaits] in Hc; try done; injection Hc as ->; cbn [advance] in Ha; unfold goto in Ha; cbn [pc_ok] in Hok.
  - destruct (_ || _); injection Ha as <- <- <- <-; by apply Hsil.
  - injection Ha as <- <- <- <-. by apply Hsil.
  - rewrite Hcur in Ha. destruct (Z.eqb_spec (ev ph) c) as [|Hne'].
    + destruct (flag _ _); [|destruct (_ <? _)]; injection Ha as <- <- <- <-; by apply Hsil.
    + injection Ha as <- <- <- <-. apply Hret. congruence.
  - destruct (decide (c = ev ph)) as [->|Hne'].
    + assert (He : events s !! ev ph = Some false) by (by destruct (inv_mode _ _ _ Hi)). by rewrite He in Ha.
    + destruct (events s !! c) as [[]|]; try done; injection Ha as <- <- <- <-; by apply Hret.
Qed.

(** Every step keeps the invariant, in the present phase or the next. *)
Lemma barrier_step ph tr s a t s' l : inv ph tr s -> a <> Delete -> exec a t s = Some (s', l) ->
  exists ph', inv ph' (map (pair t) l ++ tr) s'.
Proof.
  intros Hi Ha He. unfold exec in He. destruct (pcs s !! t) as [p|] eqn:Ht; [|done].
  pose proof (inv_threads _ _ _ Hi t p Ht) as (Hok & _). pose proof (inv_total _ _ _ Hi) as Htot. pose proof (inv_current _ _ _ Hi) as Hcur.
  destruct (awaits p) as [c|] eqn:Hc.
  { exists ph. assert (Hr : exists b evs q, advance (bar s) (events s) p = Some (b, evs, q, l) /\ s' = State b evs (<[t := q]> (pcs s))).
    { destruct p; try done; destruct a; try done; cbv beta iota in He; destruct (advance _ _ _) as [[[[b evs] q] l']|]; try done;
        injection He as <- <-; by eexists _, _, _. }
    destruct Hr as (b & evs & q & Hadv & ->). by apply (waiting_step ph tr s t p c). }
  destruct p; try done; destruct a; try done; cbn [advance goto] in He; cbv beta iota in He.
  - injection He as <- <-. exists ph. by apply (silent_step ph tr s t Outside).
  - injection He as <- <-. exists ph. apply (silent_step ph tr s t (ReadCurrent dwFlags)); try done.
  - injection He as <- <-. exists ph. cbn [pc_ok] in Hok. subst cur. apply (silent_step ph tr s t (ReadDormant dwFlags (ev ph))); try done.
    cbn [pc_ok]. split; [done|]. destruct (inv_mode _ _ _ Hi) as [v H1 H2|t0 p0 v H0 H1 H2 H3|t0 H0 H1 H2]; [done| |done]. by specialize (H3 t _ Ht).
  - destruct (arrive_step ph tr s t dwFlags cur dorm Hi Ht) as (q & Hadv & Hi'). cbn [advance] in Hadv. rewrite Hadv in He.
    injection He as <- <-. by exists ph.
  - destruct Hok as [-> ->]. injection He as <- <-. exists ph.
    pose proof (finishing_facts ph tr s t _ Hi Ht eq_refl eq_refl) as (_ & _ & H31 & H1 & He & (v & Hv & _) & _).
    unfold set_event. rewrite Hv. apply (finish_step ph tr s t (ResetDormant (ev ph) (ev (S ph)))); try done.
    + rewrite lookup_insert_ne; [done|]. apply ev_next.
    + by rewrite lookup_insert_eq.
  - destruct Hok as [-> ->]. injection He as <- <-. exists ph.
    pose proof (finishing_facts ph tr s t _ Hi Ht eq_refl eq_refl) as (_ & _ & H31 & H1 & He & (v & Hv & ->) & _).
    by apply (finish_step ph tr s t (ReadTotal (ev ph) (ev (S ph)))).
  - destruct Hok as (-> & -> & ->). injection He as <- <-. exists ph.
    pose proof (finishing_facts ph tr s t _ Hi Ht eq_refl eq_refl) as (_ & _ & H31 & H1 & He & (v & Hv & ->) & _).
    by apply (finish_step ph tr s t (StoreRemaining (ev ph) (ev (S ph)) (Z.of_nat n))).
  - destruct Hok as [-> ->]. injection He as <- <-. exists ph.
    pose proof (finishing_facts ph tr s t _ Hi Ht eq_refl eq_refl) as (_ & _ & H31 & H1 & He & (v & Hv & ->) & _).
    by apply (finish_step ph tr s t (StoreDormant (ev ph) (ev (S ph)))).
  - destruct Hok as [-> ->]. injection He as <- <-. exists (S ph). by apply switch_step.
  - cbn [pc_ok] in Hok. subst cur. injection He as <- <-. exists ph. by apply signal_step.
Qed.

Lemma barrier_initial procs spin : inv 0 [] (initial n (RtlBarrier (Z.of_nat n) (Z.of_nat n) h0 h1 procs spin)).
Proof.
  assert (Hall : forall u q, replicate n Outside !! u = Some q -> q = Outside) by (intros u q Hu; by apply lookup_replicate in Hu as [? _]).
  split; cbn [initial bar events pcs Reserved1 Reserved2 Reserved3_0 Reserved3_1]; try done.
  - apply length_replicate.
  - intros t p ->%Hall. done.
  - apply (Gathering _ _ _ false); cbn [bar events pcs Reserved1 Reserved3_1]; try done.
    + by intros u q ->%Hall.
    + assert (E : count (arrived 0) (replicate n Outside) = 0%nat) by (apply count_none; by intros u q ->%Hall).
      unfold initial. cbn [pcs bar Reserved1]. rewrite E. split; lia.
    + unfold initial, ev. cbn. by rewrite lookup_insert_eq.
    + unfold initial, ev. cbn. rewrite lookup_insert_ne by done. by rewrite lookup_insert_eq.
    + by intros _ u q ->%Hall.
Qed.

Lemma barrier_run procs spin tr s : run n (RtlBarrier (Z.of_nat n) (Z.of_nat n) h0 h1 procs spin) tr s -> exists ph, inv ph tr s.
Proof.
  induction 1 as [|tr s a t s' l _ [ph IH] Ha He]; [exists 0%nat; apply barrier_initial|]. by apply (barrier_step ph tr s a t s' l).
Qed.

(** The number of returns lies between those of the phase. *)
Lemma inv_phase ph tr s t : inv ph tr s -> (t < n)%nat -> (departures t tr <= ph)%nat /\ (ph <= arrivals t tr <= S ph)%nat.
Proof.
  intros Hi Ht. rewrite <- (inv_length _ _ _ Hi) in Ht. apply lookup_lt_is_Some in Ht as [p Hp].
  destruct (inv_threads _ _ _ Hi t p Hp) as (Hok & H1 & H2). unfold inside in H2.
  destruct p; cbn [is_last awaits arrived orb] in *; cbn [b2n] in *; try done;
    try lia; destruct (cur =? ev ph); simpl in *; lia.
Qed.

(** A thread that can go on: it neither waits for an event that is not set
    nor looks again at a structure that has not changed. *)
Definition can_act (s : state) (p : pc) : bool :=
  match p with
  | Outside => false
  | Spin _ c _ _ => negb (Reserved3_0 (bar s) =? c)
  | Wait c => match events s !! c with Some false => false | _ => true end
  | _ => true
  end.

Lemma inv_progress ph tr s : inv ph tr s -> (forall t, pcs s !! t <> Some Outside) -> exists t p, pcs s !! t = Some p /\ can_act s p = true.
Proof.
  intros Hi Hin. pose proof (inv_current _ _ _ Hi) as Hcur. pose proof (inv_length _ _ _ Hi) as Hlen.
  destruct (inv_mode _ _ _ Hi) as [v H1 H2 H3 H4 H5 H6 H7|t p v H0 H1 H2 H3|t H0].
  2:{ exists t, p. split; [done|]. by destruct p. }
  2:{ by exists t, (Signal (ev (S ph))). }
  destruct (decide (Exists (fun p => can_act s p = true) (pcs s))) as [Hex|Hno].
  { apply Exists_exists in Hex as (p & Hp & Hact). apply list_elem_of_lookup in Hp as [t Ht]. by exists t, p. }
  exfalso. rewrite <- Forall_Exists_neg in Hno. rewrite Forall_lookup in Hno.
  assert (Hall : count (arrived ph) (pcs s) = length (pcs s)).
  { apply count_full. intros t p Ht. specialize (Hno t p Ht). apply not_true_iff_false in Hno. pose proof (inv_threads _ _ _ Hi t p Ht) as (Hok & _).
    assert (Hlv : v = false -> leaving ph p = false) by (intros Hv; by apply (H6 Hv t)).
    destruct p; try done; [by destruct (Hin t)|..]; cbn [can_act arrived awaits leaving pc_ok] in *.
    - rewrite Hcur in Hno. by destruct (Z.eqb_spec (ev ph) cur); [subst; apply Z.eqb_refl|].
    - destruct Hok as [-> | ->]; [apply Z.eqb_refl|]. rewrite H5 in Hno. destruct v; [done|].
      specialize (Hlv eq_refl). unfold leaving in Hlv. cbn [awaits] in Hlv. by apply negb_false_iff in Hlv. }
  destruct H3 as [_ H3]. lia.
Qed.

Lemma can_act_runs s t p : pcs s !! t = Some p -> can_act s p = true -> exists s' l, exec Run t s = Some (s', l).
Proof.
  intros Ht Hp. unfold exec. rewrite Ht. assert (Ha : exists e, advance (bar s) (events s) p = Some e).
  { destruct p; cbn [can_act advance] in *; try done; unfold goto;
      repeat match goal with |- exists _, (if ?b then _ else _) = _ => destruct b end; try (by eexists).
    by destruct (events s !! cur) as [[]|]; try done; eexists. }
  destruct Ha as ([[[b evs] q] l] & Ha). destruct p; try done; rewrite Ha; by eexists _, _.
Qed.

(** With all threads outside, each phase has had one winner. *)
Lemma inv_winners ph tr s : inv ph tr s -> (forall u q, pcs s !! u = Some q -> q = Outside) ->
  forall t, (t < n)%nat -> departures t tr = winners tr /\ arrivals t tr = winners tr.
Proof.
  intros Hi Hout t Ht. rewrite <- (inv_length _ _ _ Hi) in Ht. apply lookup_lt_is_Some in Ht as [p Hp]. pose proof (Hout t p Hp) as ->.
  destruct (inv_threads _ _ _ Hi t _ Hp) as (_ & H1 & H2). simpl in H1, H2.
  destruct (inv_mode _ _ _ Hi) as [v _ _ _ _ _ _ Hw|t0 p0 v H0 Hl|t0 H0]; [lia| |].
  - pose proof (Hout t0 p0 H0) as ->. done.
  - by specialize (Hout t0 _ H0).
Qed.

End Inv.

(** What a successful call of InitializeSynchronizationBarrier leaves. *)
Lemma initialized hEvent0 hEvent1 procs b0 n spin e b :
  InitializeSynchronizationBarrier hEvent0 hEvent1 procs (Some b0) n spin = (true, e, Some b) ->
  1 <= n /\ exists sp, b = RtlBarrier n n hEvent0 hEvent1 procs sp.
Proof.
  unfold InitializeSynchronizationBarrier. cbv zeta. destruct ((n <? 1) || (spin <? -1)) eqn:E; [done|].
  destruct ((hEvent0 =? 0) || (hEvent1 =? 0)); [done|]. intros [= <- <-].
  split; [lia|by eexists].
Qed.

(** ** The theorems *)

(** C10. A barrier separates the phases: in every interleaving of as many
    threads as it was initialised for, entering it again and again with any
    flags, no thread has returned more often than any other has arrived; and
    when all are outside, exactly one call of each phase has returned TRUE. *)
Theorem Barrier_separates n hEvent0 hEvent1 procs spin b0 b e tr s :
  InitializeSynchronizationBarrier hEvent0 hEvent1 procs (Some b0) (Z.of_nat n) spin = (true, e, Some b) ->
  Z.of_nat n < 2 ^ 31 -> hEvent0 <> hEvent1 -> run n b tr s ->
  (forall t u, (t < n)%nat -> (u < n)%nat -> (departures t tr <= arrivals u tr)%nat) /\
  ((forall u q, pcs s !! u = Some q -> q = Outside) ->
   forall t, (t < n)%nat -> departures t tr = winners tr /\ arrivals t tr = winners tr).
Proof.
  intros (Hn & sp & ->)%initialized Hmax Hne Hrun. assert (Hn0 : (0 < n)%nat) by lia. destruct (barrier_run n hEvent0 hEvent1 Hne Hn0 Hmax procs sp tr s Hrun) as [ph Hi].
  split; [|by apply (inv_winners n hEvent0 hEvent1 Hn0 ph)].
  intros t u Ht Hu. pose proof (inv_phase n hEvent0 hEvent1 Hn0 ph tr s t Hi Ht). pose proof (inv_phase n hEvent0 hEvent1 Hn0 ph tr s u Hi Hu). lia.
Qed.

(** C31. No wake-up is lost: whenever all threads are inside the barrier, one of
    them can take a step, and it neither spins on a structure that has not
    changed nor waits for an event that is not set. *)
Theorem Barrier_progress n hEvent0 hEvent1 procs spin b0 b e tr s :
  InitializeSynchronizationBarrier hEvent0 hEvent1 procs (Some b0) (Z.of_nat n) spin = (true, e, Some b) ->
  Z.of_nat n < 2 ^ 31 -> hEvent0 <> hEvent1 -> run n b tr s -> (forall t, pcs s !! t <> Some Outside) ->
  exists t p s' l, pcs s !! t = Some p /\ can_act s p = true /\ exec Run t s = Some (s', l).
Proof.
  intros (Hn & sp & ->)%initialized Hmax Hne Hrun Hin. assert (Hn0 : (0 < n)%nat) by lia. destruct (barrier_run n hEvent0 hEvent1 Hne Hn0 Hmax procs sp tr s Hrun) as [ph Hi].
  destruct (inv_progress n hEvent0 hEvent1 Hn0 ph tr s Hi Hin) as (t & p & Ht & Hp).
  destruct (can_act_runs s t p Ht Hp) as (s' & l & He). by exists t, p, s', l.
Qed.

(** ** Examples *)

(** A barrier for two threads with the handles 4 and 8. *)
Definition two_threads : RTL_BARRIER := RtlBarrier 2 2 4 8 1 2000.

(** Thread 1 arrives and waits, thread 0 arrives and returns. *)
Definition first_wins : list (action * nat) :=
  [(Enter 0, 1); (Run, 1); (Run, 1); (Run, 1); (Run, 1); (Enter 0, 0); (Run, 0); (Run, 0); (Run, 0); (Run, 0); (Run, 0); (Run, 0);
   (Run, 0); (Run, 0); (Run, 0)]%nat.

Lemma exec_all_run n b l : Forall (fun x => x.1 <> Delete) l -> forall s tr s' tr', run n b tr s -> exec_all l s tr = Some (s', tr') -> run n b tr' s'.
Proof.
  induction 1 as [|[a t] l Ha _ IH]; intros s tr s' tr' Hrun He; cbn [exec_all] in He; [by injection He as <- <-|].
  destruct (exec a t s) as [[s1 lb]|] eqn:E; [|done]. eapply IH; [|exact He]. by eapply run_step.
Qed.

Definition two_done : state := State (RtlBarrier 2 2 8 4 1 2000) (<[4 := true]> (<[8 := false]> ∅)) [Outside; Outside].
Definition two_trace : trace := [(1, Returns false); (0, Returns true); (0, Arrives); (1, Arrives)]%nat.

Lemma two_done_run : run 2 two_threads two_trace two_done.
Proof.
  apply (exec_all_run 2 two_threads (first_wins ++ [(Run, 1)])%nat) with (s := initial 2 two_threads) (tr := []);
    [by repeat constructor|apply run_start|by vm_compute].
Qed.

Lemma Barrier_separates_witness :
  (forall t u, (t < 2)%nat -> (u < 2)%nat -> (departures t two_trace <= arrivals u two_trace)%nat) /\
  ((forall u q, pcs two_done !! u = Some q -> q = Outside) ->
   forall t, (t < 2)%nat -> departures t two_trace = winners two_trace /\ arrivals t two_trace = winners two_trace).
Proof.
  apply (Barrier_separates 2 4 8 1 (-1) zero_barrier two_threads None two_trace two_done); [done|lia|done|apply two_done_run].
Defined.

Definition both_inside : state :=
  State (RtlBarrier 1 2 4 8 1 2000) (<[4 := false]> (<[8 := false]> ∅)) [Decrement 0 4 8; Wait 4].

Lemma both_inside_run : run 2 two_threads [(1, Arrives)]%nat both_inside.
Proof.
  apply (exec_all_run 2 two_threads (take 8 first_wins)) with (s := initial 2 two_threads) (tr := []);
    [by repeat constructor|apply run_start|by vm_compute].
Qed.

Lemma Barrier_progress_witness :
  exists t p s' l, pcs both_inside !! t = Some p /\ can_act both_inside p = true /\ exec Run t both_inside = Some (s', l).
Proof.
  apply (Barrier_progress 2 4 8 1 (-1) zero_barrier two_threads None [(1, Arrives)]%nat both_inside);
    [done|lia|done|apply both_inside_run|by intros [|[|t]]].
Defined.

(** DeleteSynchronizationBarrier waits only until the counter has been
    reset: a thread that has won may close the event while another one is
    still in front of its call of WaitForSingleObject. *)
Theorem DeleteSynchronizationBarrier_closes :
  exists s tr h, exec_all (first_wins ++ [(Delete, 0); (Run, 0); (Run, 0); (Run, 0); (Run, 0)]%nat) (initial 2 two_threads) [] = Some (s, tr) /\
    pcs s !! 1%nat = Some (Wait h) /\ events s !! h = None.
Proof. eexists _, _, 4. split; [by vm_compute|done]. Qed.

End BarrierSpec.
