(* ===== verification/WaitAddr.v ===== *)
(** * Waiting on an address (oca/extensions/ntext/rtl/synch.c)

    RtlWaitOnAddress, RtlWakeAddressSingle and RtlWakeAddressAll.  A thread
    that waits has a wait block on its stack, in the circular list of the
    bucket of its address.  The lists are accessed only by a thread that owns
    the reader/writer lock of the bucket exclusively.  A thread whose event is
    set returns and frees its block without the lock, so in RtlpWakeByAddress
    the accesses in front of NtSetEvent, NtSetEvent itself and what follows it
    are steps of their own: the woken thread may run, and its block may be
    gone, before the loop goes on. *)
From stdpp Require Import gmap.
From S2P Require Import Prelude.

Module WaitAddr.

Definition STATUS_TIMEOUT := 0x00000102.

(** KEX_RTL_WAIT_ON_ADDRESS_WAIT_BLOCK.  A pointer is the number of the thread
    that owns the block, [None] when null; the event belongs to the block. *)
Record wait_block := WaitBlock { Address : Z; Next : option nat; Previous : option nat }.

(** The blocks in the frames that exist. *)
Abbreviation memory := (gmap nat wait_block).

Definition ld (m : memory) (p : option nat) : outcome wait_block :=
  match p with
  | Some p => match m !! p with Some b => Ok b | None => Fault end
  | None => Fault
  end.

(** [p->Next = v] and [p->Previous = v] *)
Definition set_next (m : memory) (p v : option nat) : outcome memory :=
  b ← ld m p; Ok (<[default 0%nat p := WaitBlock (Address b) v (Previous b)]> m).
Definition set_previous (m : memory) (p v : option nat) : outcome memory :=
  b ← ld m p; Ok (<[default 0%nat p := WaitBlock (Address b) (Next b) v]> m).

(** ** The buckets *)
Definition KexRtlWoaHashEntries : nat := 128.

Definition KexRtlpGetWoaHashBucket (Address : Z) : nat :=
  Z.to_nat (Z.land (Z.shiftr Address 4) (Z.of_nat KexRtlWoaHashEntries - 1)).

(** The bytes at the two addresses. *)
Definition KexRtlpEqualVolatileMemory (Address1 Address2 : list Z) (Size : Z) : bool :=
  if (Size =? 1) || (Size =? 2) || (Size =? 4) || (Size =? 8)
  then bool_decide (take (Z.to_nat Size) Address1 = take (Z.to_nat Size) Address2) else false.

(** ** The critical sections

    [head]: the field WaitBlocks of the bucket. *)

(** The end of the list. *)
Definition add_block (m : memory) (head : option nat) (t : nat) (addr : Z) : outcome (memory * option nat) :=
  let wb := Some t in
  match head with
  | None => Ok (<[t := WaitBlock addr wb wb]> m, wb)
  | Some _ =>
    h ← ld m head;
    let m := <[t := WaitBlock addr head (Previous h)]> m in
    m ← set_next m (Previous h) wb;
    m ← set_previous m head wb;
    Ok (m, head)
  end.

Definition KexRtlpRemoveWoaWaitBlock (m : memory) (head wb : option nat) : outcome (memory * option nat) :=
  b ← ld m wb;
  match Previous b with
  | None => Ok (m, head)
  | Some _ =>
    if bool_decide (Next b = wb) then Ok (m, None)
    else
      let head := if bool_decide (wb = head) then Next b else head in
      m ← set_next m (Previous b) (Next b);
      b ← ld m wb;
      m ← set_previous m (Next b) (Previous b);
      Ok (m, head)
  end.

(** ** Threads *)

(** Where a thread is: outside; behind the checks of RtlWaitOnAddress; in
    NtWaitForSingleObject; behind it, with the status of a wait that ended
    without the event; in front of NtClose; and in RtlpWakeByAddress in front
    of the acquisition of the lock, at the head of the loop body, in front of
    NtSetEvent for a block that has been removed, and behind the body, where
    [stop] is the [break] of a call that wakes one thread. *)
Inductive pc : Type :=
| Outside
| Adding (addr : Z) (size : Z)
| Blocked (addr : Z)
| Removing (addr : Z) (status : Z)
| Closing (status : Z)
| Waking (addr : Z) (WakeAll : bool)
| Scanning (addr : Z) (WakeAll : bool) (WaitBlock : option nat)
| Signalling (addr : Z) (WakeAll : bool) (WaitBlock NextWaitBlock : option nat)
| Advancing (addr : Z) (WakeAll : bool) (NextWaitBlock : option nat) (stop : bool).

(** [owners]: the threads that own the locks of the buckets; [signalled]: the
    events that exist. *)
Record state := State {
  heads : list (option nat); owners : list (option nat); blocks : memory; signalled : gmap nat bool; pcs : list pc }.

Definition head_of (s : state) (addr : Z) : option nat := default None (heads s !! KexRtlpGetWoaHashBucket addr).

Definition owner_of (s : state) (addr : Z) : option nat := default None (owners s !! KexRtlpGetWoaHashBucket addr).

Definition set_head (s : state) (addr : Z) (h : option nat) : list (option nat) := <[KexRtlpGetWoaHashBucket addr := h]> (heads s).

Definition set_owner (s : state) (addr : Z) (o : option nat) : list (option nat) := <[KexRtlpGetWoaHashBucket addr := o]> (owners s).

(** The checks of RtlWaitOnAddress: an error, or the wait goes on. *)
Definition wait_refused (addr CompareAddress AddressSize : Z) : bool :=
  (addr =? 0) || (CompareAddress =? 0) ||
  negb (AddressSize =? 4) && negb (AddressSize =? 2) && negb (AddressSize =? 1) && negb (AddressSize =? 8).

(** The calls, and the steps inside them.  [now] and [expected] are the bytes
    at the two addresses when they are compared, [created] is the status of
    NtCreateEvent; [Interrupted] is the end of a wait by its timeout or with an
    error. *)
Inductive action : Type :=
| WaitOnAddress (addr CompareAddress AddressSize : Z)
| WakeByAddress (addr : Z) (WakeAll : bool)
| Add (now expected : list Z) (created : Z)
| Interrupted (status : Z)
| Run.

Definition NT_SUCCESS (status : Z) : bool := status <? 0x80000000.

(** What the caller of RtlWaitOnAddress sees. *)
Definition result : Type := option Z.

Definition goto (s : state) (t : nat) (p : pc) : state := State (heads s) (owners s) (blocks s) (signalled s) (<[t := p]> (pcs s)).

(** [NtSetEvent(WaitBlock->EventHandle, NULL)]: a fault when the block or its
    event is gone. *)
Definition set_event (s : state) (wb : option nat) : outcome (gmap nat bool) :=
  _ ← ld (blocks s) wb;
  match signalled s !! default 0%nat wb with
  | Some _ => Ok (<[default 0%nat wb := true]> (signalled s))
  | None => Fault
  end.

(** The first critical section of RtlWaitOnAddress: the status that is returned at once, or the
    wait block is in the list. *)
Definition add_section (s : state) (t : nat) (addr size : Z) (now expected : list Z) (created : Z) : outcome (state * result) :=
  if negb (KexRtlpEqualVolatileMemory now expected size) then Ok (goto s t Outside, Some STATUS_SUCCESS)
  else if negb (NT_SUCCESS created) then Ok (goto s t Outside, Some created)
  else
    '(m, h) ← add_block (blocks s) (head_of s addr) t addr;
    Ok (State (set_head s addr h) (owners s) m (<[t := false]> (signalled s)) (<[t := Blocked addr]> (pcs s)), None).

(** The second one, of a wait that was interrupted. *)
Definition remove_section (s : state) (t : nat) (addr status : Z) : outcome (state * result) :=
  '(m, h) ← KexRtlpRemoveWoaWaitBlock (blocks s) (head_of s addr) (Some t);
  Ok (State (set_head s addr h) (owners s) m (signalled s) (<[t := Closing status]> (pcs s)), None).

(** RtlpWakeByAddress up to the loop: the lock is acquired, and released again
    when there is no block. *)
Definition wake_acquire (s : state) (t : nat) (addr : Z) (WakeAll : bool) : state :=
  match head_of s addr with
  | None => goto s t Outside
  | Some _ =>
    State (heads s) (set_owner s addr (Some t)) (blocks s) (signalled s) (<[t := Scanning addr WakeAll (head_of s addr)]> (pcs s))
  end.

(** The loop body in front of NtSetEvent. *)
Definition wake_scan (s : state) (t : nat) (addr : Z) (WakeAll : bool) (wb : option nat) : outcome state :=
  b ← ld (blocks s) wb;
  let NextWaitBlock := Next b in
  if Address b =? addr then
    '(m, h) ← KexRtlpRemoveWoaWaitBlock (blocks s) (head_of s addr) wb;
    m ← set_previous m wb None;
    Ok (State (set_head s addr h) (owners s) m (signalled s) (<[t := Signalling addr WakeAll wb NextWaitBlock]> (pcs s)))
  else Ok (goto s t (Advancing addr WakeAll NextWaitBlock false)).

(** NtSetEvent, and [if (!WakeAll) break]. *)
Definition wake_signal (s : state) (t : nat) (addr : Z) (WakeAll : bool) (wb NextWaitBlock : option nat) : outcome state :=
  sg ← set_event s wb;
  Ok (State (heads s) (owners s) (blocks s) sg (<[t := Advancing addr WakeAll NextWaitBlock (negb WakeAll)]> (pcs s))).

(** The loop ends, by [break]. *)
Definition scan_ends (head NextWaitBlock : option nat) (stop : bool) : bool :=
  stop || bool_decide (head = None) || bool_decide (NextWaitBlock = head).

(** The end of the loop body: the next block, or the release of the lock. *)
Definition wake_advance (s : state) (t : nat) (addr : Z) (WakeAll : bool) (NextWaitBlock : option nat) (stop : bool) : state :=
  if scan_ends (head_of s addr) NextWaitBlock stop
  then State (heads s) (set_owner s addr None) (blocks s) (signalled s) (<[t := Outside]> (pcs s))
  else goto s t (Scanning addr WakeAll NextWaitBlock).

(** A step that returns nothing to the caller. *)
Definition silent (o : outcome state) : outcome (state * result) := s ← o; Ok (s, None).

(** A step of a thread; [None]: the thread has no such step, or waits for the
    lock. *)
Definition exec (a : action) (t : nat) (s : state) : option (outcome (state * result)) :=
  match pcs s !! t, a with
  | Some Outside, WaitOnAddress addr cmp size =>
    Some (if wait_refused addr cmp size then Ok (s, Some STATUS_INVALID_PARAMETER) else Ok (goto s t (Adding addr size), None))
  | Some Outside, WakeByAddress addr all => Some (Ok (goto s t (Waking addr all), None))
  | Some (Adding addr size), Add now expected created =>
    if owner_of s addr then None else Some (add_section s t addr size now expected created)
  | Some (Blocked addr), Run => if default false (signalled s !! t) then Some (Ok (goto s t (Closing STATUS_SUCCESS), None)) else None
  | Some (Blocked addr), Interrupted status =>
    if (status =? STATUS_TIMEOUT) || negb (NT_SUCCESS status) then Some (Ok (goto s t (Removing addr status), None)) else None
  | Some (Removing addr status), Run => if owner_of s addr then None else Some (remove_section s t addr status)
  | Some (Closing status), Run =>
    Some (Ok (State (heads s) (owners s) (delete t (blocks s)) (delete t (signalled s)) (<[t := Outside]> (pcs s)), Some status))
  | Some (Waking addr all), Run => if owner_of s addr then None else Some (Ok (wake_acquire s t addr all, None))
  | Some (Scanning addr all wb), Run => Some (silent (wake_scan s t addr all wb))
  | Some (Signalling addr all wb next), Run => Some (silent (wake_signal s t addr all wb next))
  | Some (Advancing addr all next stop), Run => Some (Ok (wake_advance s t addr all next stop, None))
  | _, _ => None
  end.

Definition initial (n : nat) : state := State (replicate KexRtlWoaHashEntries None) (replicate KexRtlWoaHashEntries None) ∅ ∅ (replicate n Outside).

(** The states that [n] threads reach, in any order of their steps. *)
Inductive reachable (n : nat) : state -> Prop :=
| reach_start : reachable n (initial n)
| reach_step s a t s' r : reachable n s -> exec a t s = Some (Ok (s', r)) -> reachable n s'.

End WaitAddr.
