(* ===== verification/WaitAddrSpec.v ===== *)
(** * The lists of waiting threads

    The circular lists of the buckets against queues of threads. *)
From stdpp Require Import gmap.
From S2P Require Import Prelude WaitAddr.
Import WaitAddr.

Module WaitAddrSpec.

(** ** Circular lists *)

Definition nx (m : memory) (x : nat) : option nat := m !! x ≫= Next.
Definition pv (m : memory) (x : nat) : option nat := m !! x ≫= Previous.
Definition ad (m : memory) (x : nat) : option Z := Address <$> m !! x.

(** Neighbours in a list point at each other. *)
Fixpoint chain (m : memory) (l : list nat) : Prop :=
  match l with
  | a :: (b :: _) as l' => nx m a = Some b /\ pv m b = Some a /\ chain m l'
  | _ => True
  end.

Definition cycle (m : memory) (q : list nat) : Prop := match q with [] => True | x :: _ => chain m (q ++ [x]) end.

Lemma chain_app m l1 a l2 : chain m (l1 ++ a :: l2) <-> chain m (l1 ++ [a]) /\ chain m (a :: l2).
Proof.
  induction l1 as [|b l1 IH]; [simpl; tauto|]. destruct l1 as [|c l1]; [simpl; tauto|].
  cbn [app] in *. cbn [chain] in *. tauto.
Qed.

Lemma cycle_rotate m x q : cycle m (x :: q) <-> cycle m (q ++ [x]).
Proof.
  destruct q as [|y q]; [done|]. unfold cycle. cbn [app].
  change (x :: y :: q ++ [x]) with ([x] ++ y :: (q ++ [x])). rewrite chain_app.
  change (y :: (q ++ [x]) ++ [y]) with ((y :: q ++ [x]) ++ [y]). 
  replace ((y :: q ++ [x]) ++ [y]) with ((y :: q) ++ x :: [y]) by (cbn [app]; by rewrite <- app_assoc).
  rewrite (chain_app m (y :: q) x [y]). cbn [app chain]. tauto.
Qed.

Lemma cycle_swap m q1 q2 : cycle m (q1 ++ q2) <-> cycle m (q2 ++ q1).
Proof.
  revert q2. induction q1 as [|x q1 IH]; intros q2; [by rewrite app_nil_r|]. cbn [app]. rewrite cycle_rotate, <- app_assoc, IH.
  by rewrite <- app_assoc.
Qed.

(** Only the links inside the list matter. *)
Lemma chain_ext m m' l : (forall x, x ∈ removelast l -> nx m' x = nx m x) -> (forall x, x ∈ tail l -> pv m' x = pv m x) ->
  chain m l -> chain m' l.
Proof.
  induction l as [|a l IH]; intros Hn Hp Hc; [done|]. destruct l as [|b l]; [done|]. cbn [chain] in *. destruct Hc as (H1 & H2 & H3).
  split_and!; [rewrite Hn; [done|left]|rewrite Hp; [done|left]|]. apply IH; [|intros x Hx; apply Hp; by right|done].
  intros x Hx. apply Hn. by right.
Qed.

Lemma removelast_snoc {A} (l : list A) x : removelast (l ++ [x]) = l.
Proof. apply removelast_last. Qed.

(** The list of a bucket. *)
Record list_ok (m : memory) (h : option nat) (q : list nat) : Prop := ListOk {
  list_head : h = head q;
  list_nodup : NoDup q;
  list_cycle : cycle m q }.

(** The links of a member, seen from it. *)
Lemma member_links m q1 x q2 : cycle m (q1 ++ x :: q2) ->
  nx m x = Some (default x (head (q2 ++ q1))) /\ pv m x = Some (default x (last (q2 ++ q1))).
Proof.
  rewrite cycle_swap. cbn [app]. set (l := q2 ++ q1). intros Hc. destruct l as [|y l]; [by destruct Hc as (? & ? & _)|].
  unfold cycle in Hc. cbn [app] in Hc. split; [by destruct Hc as (? & _)|].
  destruct (exists_last (l := y :: l)) as (l' & z & E); [done|]. rewrite E, last_snoc. cbn [default].
  change (x :: y :: l ++ [x]) with (x :: (y :: l) ++ [x]) in Hc. rewrite E in Hc. rewrite <- app_assoc in Hc.
  rewrite app_comm_cons in Hc. cbn [app] in Hc. apply (chain_app m (x :: l') z [x]) in Hc as [_ Hc]. by destruct Hc as (_ & ? & _).
Qed.

(** ** The links that the operations write *)

Lemma set_next_spec m p v : is_Some (m !! p) -> exists m', set_next m (Some p) v = Ok m' /\
  (forall x, nx m' x = if decide (x = p) then v else nx m x) /\ (forall x, pv m' x = pv m x) /\ (forall x, ad m' x = ad m x) /\
  (forall x, x <> p -> m' !! x = m !! x).
Proof.
  intros [b Hb]. unfold set_next, ld. rewrite Hb. eexists. split; [reflexivity|]. unfold nx, pv, ad. cbn [default].
  split_and!; intros x; try case_decide; subst; rewrite ?lookup_insert_eq, ?Hb, ?lookup_insert_ne by done; try done;
    destruct (decide (x = p)) as [->|]; by rewrite ?lookup_insert_eq, ?Hb, ?lookup_insert_ne by done.
Qed.

Lemma set_previous_spec m p v : is_Some (m !! p) -> exists m', set_previous m (Some p) v = Ok m' /\
  (forall x, nx m' x = nx m x) /\ (forall x, pv m' x = if decide (x = p) then v else pv m x) /\ (forall x, ad m' x = ad m x) /\
  (forall x, x <> p -> m' !! x = m !! x).
Proof.
  intros [b Hb]. unfold set_previous, ld. rewrite Hb. eexists. split; [reflexivity|]. unfold nx, pv, ad. cbn [default].
  split_and!; intros x; try case_decide; subst; rewrite ?lookup_insert_eq, ?Hb, ?lookup_insert_ne by done; try done;
    destruct (decide (x = p)) as [->|]; by rewrite ?lookup_insert_eq, ?Hb, ?lookup_insert_ne by done.
Qed.

Lemma ld_some m x b : m !! x = Some b -> ld m (Some x) = Ok b.
Proof. intros H. unfold ld. by rewrite H. Qed.

Lemma nx_ld m x v : nx m x = Some v -> exists b, m !! x = Some b /\ Next b = Some v.
Proof. unfold nx. destruct (m !! x) as [b|]; [|done]. intros H. by exists b. Qed.

(** A list with first member [y] and last member [z] is closed by two links. *)
Lemma close_cycle m l y z : head l = Some y -> last l = Some z ->
  cycle m l <-> chain m l /\ nx m z = Some y /\ pv m y = Some z.
Proof.
  intros Hy Hz. destruct l as [|y' l]; [done|]. injection Hy as ->. apply last_Some in Hz as [l' E]. unfold cycle. rewrite E.
  rewrite <- app_assoc. cbn [app]. rewrite chain_app. cbn [chain]. tauto.
Qed.

Lemma cycle_alloc m q x : cycle m q -> x ∈ q -> exists b, m !! x = Some b /\ is_Some (Next b) /\ is_Some (Previous b).
Proof.
  intros Hc [q1 [q2 ->]]%list_elem_of_split. apply member_links in Hc as [Hn Hp]. unfold nx, pv in *.
  destruct (m !! x) as [b|]; [|done]. cbn in *. exists b. by rewrite Hn, Hp.
Qed.

Lemma cycle_ext m m' q : (forall x, x ∈ q -> m' !! x = m !! x) -> cycle m q -> cycle m' q.
Proof.
  intros H. destruct q as [|y q]; [done|]. unfold cycle. apply chain_ext; intros x Hx; unfold nx, pv; rewrite H; try done.
  - by rewrite removelast_snoc in Hx.
  - cbn [app tail] in Hx. apply elem_of_app in Hx as [Hx | ->%list_elem_of_singleton]; [by right|left].
Qed.

Lemma list_ok_ext m m' h q : (forall x, x ∈ q -> m' !! x = m !! x) -> list_ok m h q -> list_ok m' h q.
Proof. intros H [? ? ?]. split; [done|done|]. by apply (cycle_ext m). Qed.

(** ** Adding a block *)
Lemma add_block_ok m h q t addr : list_ok m h q -> t ∉ q ->
  exists m' h', add_block m h t addr = Ok (m', h') /\ list_ok m' h' (q ++ [t]) /\ ad m' t = Some addr /\
    (forall x, x <> t -> ad m' x = ad m x) /\ (forall x, x ∉ q ++ [t] -> m' !! x = m !! x).
Proof.
  intros [-> Hnd Hc] Ht. destruct q as [|y q].
  { eexists _, _. split; [reflexivity|]. split_and!.
    - split; [done|by apply NoDup_singleton|]. cbn. unfold nx, pv. by rewrite lookup_insert_eq.
    - unfold ad. by rewrite lookup_insert_eq.
    - intros x Hx. unfold ad. by rewrite lookup_insert_ne.
    - intros x Hx. rewrite lookup_insert_ne; [done|]. intros ->. apply Hx. left. }
  destruct (exists_last (l := y :: q)) as (l & z & E); [done|].
  assert (Hz : last (y :: q) = Some z) by (by rewrite E, last_snoc).
  pose proof Hc as Hc'. rewrite (close_cycle _ _ y z) in Hc' by done. destruct Hc' as (Hch & Hzn & Hyp).
  destruct (cycle_alloc m (y :: q) y Hc) as (b & Hb & _); [left|].
  assert (Hbp : Previous b = Some z) by (unfold pv in Hyp; by rewrite Hb in Hyp).
  assert (Hzq : z ∈ y :: q) by (rewrite E; apply elem_of_app; right; left).
  assert (Hty : t <> y /\ t <> z) by (split; intros ->; [apply Ht; left|done]). destruct Hty as [Hty Htz].
  unfold add_block. cbn [head]. rewrite (ld_some _ _ _ Hb). cbn [mbind outcome_bind]. rewrite Hbp.
  set (m0 := <[t := _]> m).
  destruct (set_next_spec m0 z (Some t)) as (m1 & -> & Hn1 & Hp1 & Ha1 & Ho1).
  { unfold m0. rewrite lookup_insert_ne by done. destruct (cycle_alloc m (y :: q) z Hc Hzq) as (? & -> & _). by eexists. }
  cbn [mbind outcome_bind].
  destruct (set_previous_spec m1 y (Some t)) as (m2 & -> & Hn2 & Hp2 & Ha2 & Ho2).
  { destruct (decide (y = z)) as [->|]; [|rewrite Ho1 by done; unfold m0; by rewrite lookup_insert_ne, Hb by done].
    specialize (Hn1 z). rewrite decide_True in Hn1 by done. unfold nx in Hn1. destruct (m1 !! z); [by eexists|done]. }
  assert (Hold : forall x, x <> t -> nx m0 x = nx m x /\ pv m0 x = pv m x /\ ad m0 x = ad m x)
    by (intros x Hx; unfold nx, pv, ad, m0; by rewrite lookup_insert_ne).
  eexists _, _. split; [reflexivity|]. split_and!.
  - split; [done|apply NoDup_app; split_and!; [done|set_solver|apply NoDup_singleton]|].
    rewrite (close_cycle _ _ y t) by (by rewrite ?last_snoc). split_and!.
    + rewrite E, <- app_assoc. cbn [app]. rewrite chain_app, <- E. split; [apply (chain_ext m); [| |done]|cbn [chain]; split_and!; [| |done]].
      * intros x Hx. rewrite E, removelast_snoc in Hx. rewrite Hn2, Hn1. rewrite E in Hnd, Ht.
        apply NoDup_app in Hnd as (_ & Hnd & _). rewrite decide_False; [apply Hold; set_solver|]. intros ->. apply (Hnd z Hx). left.
      * intros x Hx. cbn [tail] in Hx. rewrite Hp2, Hp1. apply NoDup_cons in Hnd as [Hnd _].
        rewrite decide_False by (intros ->; done). apply Hold. intros ->. apply Ht. by right.
      * by rewrite Hn2, Hn1, decide_True.
      * rewrite Hp2, Hp1, decide_False by done. unfold pv, m0. by rewrite lookup_insert_eq.
    + rewrite Hn2, Hn1, decide_False by done. unfold nx, m0. by rewrite lookup_insert_eq.
    + by rewrite Hp2, decide_True.
  - rewrite Ha2, Ha1. unfold ad, m0. by rewrite lookup_insert_eq.
  - intros x Hx. rewrite Ha2, Ha1. by apply Hold.
  - intros x Hx. apply not_elem_of_app in Hx as [Hx Hxt]. rewrite Ho2, Ho1 by (intros ->; try done; apply Hx; left). apply lookup_insert_ne.
    intros ->. apply Hxt. left.
Qed.

(** ** Removing a block *)

Lemma list_ok_rotated m h q1 x q2 : list_ok m h (q1 ++ x :: q2) ->
  NoDup (q2 ++ q1) /\ (x ∉ q2 ++ q1) /\ cycle m (x :: q2 ++ q1).
Proof.
  intros [_ Hnd Hc]. rewrite cycle_swap in Hc.
  assert (Hp : NoDup (x :: q2 ++ q1)) by (rewrite (Permutation_app_comm q2 q1), Permutation_middle; done).
  apply NoDup_cons in Hp. tauto.
Qed.

(** Without its first member a cycle of at least two is closed by two links. *)
Lemma cycle_shrink m m' x l y z : NoDup l -> head l = Some y -> last l = Some z -> cycle m (x :: l) ->
  (forall v, nx m' v = if decide (v = z) then Some y else nx m v) -> (forall v, pv m' v = if decide (v = y) then Some z else pv m v) ->
  cycle m' l.
Proof.
  intros Hnd Hy Hz Hc Hn Hp. rewrite (close_cycle _ _ y z) by done. rewrite Hn, Hp, !decide_True by done. split; [|done].
  unfold cycle in Hc. cbn [app] in Hc. assert (Hl : chain m l).
  { destruct l as [|y' l]; [done|]. apply last_Some in Hz as [l' E]. rewrite E in Hc |- *. rewrite <- app_assoc, app_comm_cons in Hc.
    apply (chain_app m (x :: l') z) in Hc as [Hc _]. cbn [app] in Hc. rewrite <- E in Hc |- *. apply Hc. }
  apply (chain_ext m); [| |done].
  - intros v Hv. rewrite Hn, decide_False; [done|]. intros ->. apply last_Some in Hz as [l' ->]. rewrite removelast_snoc in Hv.
    apply NoDup_app in Hnd as (_ & Hnd & _). apply (Hnd z Hv). left.
  - intros v Hv. rewrite Hp, decide_False; [done|]. intros ->. destruct l as [|y' l]; [done|]. injection Hy as ->.
    by apply NoDup_cons in Hnd as [? _].
Qed.

Lemma remove_head (q1 q2 : list nat) x h : h = head (q1 ++ x :: q2) -> q2 ++ q1 <> [] -> NoDup (q1 ++ x :: q2) ->
  (if bool_decide (Some x = h) then Some (default x (head (q2 ++ q1))) else h) = head (q1 ++ q2).
Proof.
  intros -> Hne Hnd. destruct q1 as [|y q1]; cbn [app head] in *.
  - rewrite bool_decide_true by done. rewrite app_nil_r in *. by destruct q2.
  - rewrite bool_decide_false; [done|]. intros [= ->]. apply NoDup_cons in Hnd as [Hnd _]. apply Hnd. set_solver.
Qed.

Lemma remove_ok m h q1 x q2 : list_ok m h (q1 ++ x :: q2) ->
  exists m' h', KexRtlpRemoveWoaWaitBlock m h (Some x) = Ok (m', h') /\ list_ok m' h' (q1 ++ q2) /\
    (forall v, ad m' v = ad m v) /\ (forall v, v ∉ q1 ++ q2 -> m' !! v = m !! v).
Proof.
  intros Hok. destruct (list_ok_rotated _ _ _ _ _ Hok) as (Hnd & Hx & Hc). destruct Hok as [Hh Hnd' Hc'].
  destruct (member_links _ _ _ _ Hc') as [Hxn Hxp]. destruct (nx_ld _ _ _ Hxn) as (b & Hb & Hbn).
  assert (Hbp : Previous b = Some (default x (last (q2 ++ q1)))) by (unfold pv in Hxp; by rewrite Hb in Hxp).
  unfold KexRtlpRemoveWoaWaitBlock. rewrite (ld_some _ _ _ Hb). cbn [mbind outcome_bind]. rewrite Hbp, Hbn.
  destruct (decide (q2 ++ q1 = [])) as [E|E].
  { rewrite E. cbn [head default]. rewrite bool_decide_true by done. apply app_eq_nil in E as [-> ->].
    eexists _, _. split; [reflexivity|]. split; [by split; [|constructor|]|]. done. }
  rewrite (remove_head q1 q2 x h) by done.
  destruct (head (q2 ++ q1)) as [y|] eqn:Hy; [|by destruct (q2 ++ q1)]. destruct (last (q2 ++ q1)) as [z|] eqn:Hz; [|by apply last_None in Hz].
  cbn [default id] in *. assert (Hyl : y ∈ q2 ++ q1) by (by apply head_Some_elem_of). assert (Hzl : z ∈ q2 ++ q1) by (by apply last_Some_elem_of).
  rewrite bool_decide_false by (intros [= ->]; done).
  destruct (set_next_spec m z (Some y)) as (m1 & -> & Hn1 & Hp1 & Ha1 & Ho1).
  { destruct (cycle_alloc _ _ z Hc) as (? & -> & _); [by right|by eexists]. }
  cbn [mbind outcome_bind]. rewrite (ld_some m1 x b) by (rewrite Ho1, Hb by (intros ->; done); done). cbn [mbind outcome_bind]. rewrite Hbn, Hbp.
  destruct (set_previous_spec m1 y (Some z)) as (m2 & -> & Hn2 & Hp2 & Ha2 & Ho2).
  { destruct (decide (y = z)) as [->|Hyz]; [specialize (Hn1 z); rewrite decide_True in Hn1 by done; unfold nx in Hn1; destruct (m1 !! z); [by eexists|done]|].
    rewrite Ho1 by done. destruct (cycle_alloc _ _ y Hc) as (? & -> & _); [by right|by eexists]. }
  cbn [mbind outcome_bind]. eexists _, _. split; [reflexivity|]. split_and!.
  - split; [done|by rewrite Permutation_app_comm|]. rewrite cycle_swap. apply (cycle_shrink m _ x _ y z); try done.
    + intros v. by rewrite Hn2, Hn1.
    + intros v. by rewrite Hp2, Hp1.
  - intros v. by rewrite Ha2, Ha1.
  - intros v Hv. assert (v ∉ q2 ++ q1) by set_solver. by rewrite Ho2, Ho1 by (intros ->; done).
Qed.

(** A block that a waking thread has removed is left alone. *)
Lemma remove_removed m h x : is_Some (m !! x) -> pv m x = None -> KexRtlpRemoveWoaWaitBlock m h (Some x) = Ok (m, h).
Proof.
  intros [b Hb] Hp. unfold pv in Hp. unfold KexRtlpRemoveWoaWaitBlock, ld. rewrite Hb in Hp |- *. cbn in *. by rewrite Hp.
Qed.

(** ** Waking *)

(** The queue without a thread. *)
Definition without (x : nat) (q : list nat) : list nat := List.filter (fun y => negb (bool_decide (y = x))) q.

Lemma elem_of_without x q y : y ∈ without x q <-> (y ∈ q) /\ y <> x.
Proof. unfold without. by rewrite !list_elem_of_In, List.filter_In, negb_true_iff, bool_decide_eq_false. Qed.

Lemma without_absent x q : x ∉ q -> without x q = q.
Proof.
  unfold without. induction q as [|a q IH]; intros H; [done|]. cbn [List.filter].
  apply not_elem_of_cons in H as [? ?]. rewrite bool_decide_false by done. cbn [negb]. f_equal. by apply IH.
Qed.

Lemma without_middle x q1 q2 : x ∉ q1 ++ q2 -> without x (q1 ++ x :: q2) = q1 ++ q2.
Proof.
  intros [H1 H2]%not_elem_of_app. unfold without. rewrite List.filter_app. cbn [List.filter]. rewrite bool_decide_true by done. cbn [negb].
  f_equal; by apply without_absent.
Qed.

(** The block of a thread that waits on the address leaves the list, marked
    as removed. *)
Lemma wake_one m h q1 x q2 : list_ok m h (q1 ++ x :: q2) ->
  exists m1 m2 h', KexRtlpRemoveWoaWaitBlock m h (Some x) = Ok (m1, h') /\ set_previous m1 (Some x) None = Ok m2 /\
    list_ok m2 h' (q1 ++ q2) /\ pv m2 x = None /\ (forall v, ad m2 v = ad m v) /\ (forall v, v ∉ q1 ++ x :: q2 -> m2 !! v = m !! v).
Proof.
  intros Hok. destruct (list_ok_rotated _ _ _ _ _ Hok) as (Hnd & Hx & Hc). assert (Hx' : x ∉ q1 ++ q2) by set_solver.
  destruct (remove_ok _ _ _ _ _ Hok) as (m1 & h1 & Hr & Hl & Ha & Ho).
  destruct (cycle_alloc _ _ x Hc) as (b & Hb & _); [left|].
  destruct (set_previous_spec m1 x None) as (m2 & Hs & Hn2 & Hp2 & Ha2 & Ho2); [rewrite Ho by done; by eexists|].
  exists m1, m2, h1. split_and!; [done|done| | | |].
  - apply (list_ok_ext m1); [|done]. intros v Hv. apply Ho2. intros ->. done.
  - by rewrite Hp2, decide_True.
  - intros v. by rewrite Ha2, Ha.
  - intros v Hv. rewrite Ho2, Ho by set_solver. done.
Qed.

(** The block behind a member. *)
Lemma next_of m h q1 x q2 : list_ok m h (q1 ++ x :: q2) ->
  exists b, m !! x = Some b /\ Next b = Some (default x (head (q2 ++ q1))) /\ ad m x = Some (Address b).
Proof.
  intros [_ _ Hc]. apply member_links in Hc as [Hn _]. destruct (nx_ld _ _ _ Hn) as (b & Hb & Hbn). exists b. split_and!; [done|done|].
  unfold ad. by rewrite Hb.
Qed.

End WaitAddrSpec.
