(* ===== verification/WaitAddrInv.v ===== *)
(** * The threads that wait on addresses

    Every bucket holds a queue of threads.  The steps of the threads against
    the queues, in any order, and what the callers of the wake functions can
    rely on. *)
From stdpp Require Import gmap functions.
From S2P Require Import Prelude WaitAddr WaitAddrSpec.
Import WaitAddr WaitAddrSpec.

Module WaitAddrInv.

(** The address that a thread waits on, its wait block in use. *)
Definition waits_at (p : pc) : option Z :=
  match p with Blocked addr => Some addr | Removing addr _ => Some addr | _ => None end.

(** The address whose bucket a thread has locked. *)
Definition holds (p : pc) : option Z :=
  match p with Scanning addr _ _ => Some addr | Signalling addr _ _ _ => Some addr | Advancing addr _ _ _ => Some addr | _ => None end.

Abbreviation queues := (nat -> list nat).
Abbreviation bucket := KexRtlpGetWoaHashBucket.

(** [x] waits on [addr] and its event is not set. *)
Definition waiter (s : state) (addr : Z) (x : nat) : Prop :=
  (pcs s !! x ≫= waits_at) = Some addr /\ signalled s !! x = Some false.

(** The lists hold the queues, and a thread that waits has a block that is in
    its queue or marked as removed. *)
Record lists_inv (s : state) (Q : queues) : Prop := ListsInv {
  inv_heads : length (heads s) = KexRtlWoaHashEntries;
  inv_lists : forall i h, heads s !! i = Some h -> list_ok (blocks s) h (Q i);
  inv_members : forall i x, x ∈ Q i -> exists addr, waiter s addr x /\ bucket addr = i;
  inv_waiting : forall x addr, (pcs s !! x ≫= waits_at) = Some addr -> ad (blocks s) x = Some addr /\
    ((x ∈ Q (bucket addr)) /\ signalled s !! x = Some false \/ pv (blocks s) x = None /\ is_Some (signalled s !! x)) }.

(** The threads that hold the locks. *)
Record locks_inv (s : state) : Prop := LocksInv {
  inv_owners : length (owners s) = KexRtlWoaHashEntries;
  inv_holds : forall t p addr, pcs s !! t = Some p -> holds p = Some addr -> owner_of s addr = Some t;
  inv_held : forall i t, owners s !! i = Some (Some t) -> exists p addr, pcs s !! t = Some p /\ holds p = Some addr /\ bucket addr = i }.

(** The pointer to the next block: the queue is empty, or the block is in it
    and no thread in front of it waits on the address. *)
Definition next_ok (s : state) (Q : queues) (addr : Z) (next : option nat) : Prop :=
  Q (bucket addr) = [] \/
  exists q1 y q2, next = Some y /\ Q (bucket addr) = q1 ++ y :: q2 /\ Forall (fun x => ad (blocks s) x <> Some addr) q1.

Definition scan_ok (s : state) (Q : queues) (p : pc) : Prop :=
  match p with
  | Scanning addr _ wb => Q (bucket addr) <> [] /\ next_ok s Q addr wb
  | Signalling addr _ wb next =>
    (exists x, wb = Some x /\ waiter s addr x /\ x ∉ Q (bucket addr)) /\ next_ok s Q addr next
  | Advancing addr _ next stop => next_ok s Q addr next
  | _ => True
  end.

(** A thread is about to set the event of [x]. *)
Definition pending (s : state) (addr : Z) (x : nat) : Prop :=
  exists t all next, pcs s !! t = Some (Signalling addr all (Some x) next).

Record inv (s : state) (Q : queues) : Prop := Inv {
  inv_base : lists_inv s Q;
  inv_locks : locks_inv s;
  inv_scans : forall t p, pcs s !! t = Some p -> scan_ok s Q p;
  inv_pending : forall x addr, waiter s addr x -> x ∉ Q (bucket addr) -> pending s addr x }.

Lemma bucket_bound addr : (bucket addr < KexRtlWoaHashEntries)%nat.
Proof.
  unfold bucket. change (Z.of_nat KexRtlWoaHashEntries - 1) with (Z.ones 7). rewrite Z.land_ones by lia.
  pose proof (Z.mod_pos_bound (addr ≫ 4) (2 ^ 7)). change KexRtlWoaHashEntries with 128%nat. lia.
Qed.

Lemma inv_head s Q addr : lists_inv s Q -> list_ok (blocks s) (head_of s addr) (Q (bucket addr)).
Proof.
  intros H. unfold head_of. destruct (heads s !! _) as [h|] eqn:E; [by apply (inv_lists s Q H)|].
  apply lookup_ge_None in E. rewrite (inv_heads s Q H) in E. pose proof (bucket_bound addr). lia.
Qed.

(** A thread is in one queue at most. *)
Lemma inv_disjoint s Q i j x : lists_inv s Q -> x ∈ Q i -> x ∈ Q j -> i = j.
Proof.
  intros H Hi Hj. destruct (inv_members s Q H i x Hi) as (a & [Ha _] & <-). destruct (inv_members s Q H j x Hj) as (b & [Hb _] & <-). congruence.
Qed.

(** A step of [t] that leaves the other buckets alone. *)
Lemma lists_update s Q addr os m' h' q' sg' ps' : let i := bucket addr in
  lists_inv s Q -> list_ok m' h' q' ->
  (forall j x, j <> i -> x ∈ Q j -> m' !! x = blocks s !! x /\ sg' !! x = signalled s !! x /\ ps' !! x = pcs s !! x) ->
  (forall x, x ∈ q' -> exists a, (ps' !! x ≫= waits_at) = Some a /\ bucket a = i /\ sg' !! x = Some false) ->
  (forall x a, (ps' !! x ≫= waits_at) = Some a -> ad m' x = Some a /\
    ((x ∈ (<[i := q']> Q : queues) (bucket a)) /\ sg' !! x = Some false \/ pv m' x = None /\ is_Some (sg' !! x))) ->
  lists_inv (State (set_head s addr h') os m' sg' ps') (<[i := q']> Q).
Proof.
  intros i H Hl Ho Hq Hw. split; cbn [heads blocks signalled pcs].
  - unfold set_head. rewrite length_insert. apply (inv_heads s Q H).
  - unfold set_head. intros j h. destruct (decide (j = i)) as [->|Hj].
    + unfold i. rewrite list_lookup_insert_eq by (rewrite (inv_heads s Q H); apply bucket_bound). intros [= <-]. by rewrite fn_lookup_insert.
    + rewrite list_lookup_insert_ne by done. intros Hh. rewrite fn_lookup_insert_ne by done. apply (list_ok_ext (blocks s)); [|by apply (inv_lists s Q H)].
      intros x Hx. by apply (Ho j).
  - intros j x. destruct (decide (j = i)) as [->|Hj].
    + rewrite fn_lookup_insert. intros Hx. destruct (Hq x Hx) as (a & ? & ? & ?). by exists a.
    + rewrite fn_lookup_insert_ne by done. intros Hx. destruct (inv_members s Q H j x Hx) as (a & [? ?] & ?). destruct (Ho j x Hj Hx) as (_ & E1 & E2).
      exists a. split; [|done]. unfold waiter. cbn [pcs signalled]. by rewrite E1, E2.
  - done.
Qed.

Lemma not_queued s Q t p i : lists_inv s Q -> pcs s !! t = Some p -> waits_at p = None -> t ∉ Q i.
Proof. intros H Hp Hw Hi. destruct (inv_members s Q H i t Hi) as (a & [Ha _] & _). rewrite Hp in Ha. cbn in Ha. congruence. Qed.

Lemma pc_insert s t p p' x : pcs s !! t = Some p ->
  (<[t := p']> (pcs s) !! x ≫= waits_at) = if decide (x = t) then waits_at p' else pcs s !! x ≫= waits_at.
Proof.
  intros Hp. case_decide as E; [|by rewrite list_lookup_insert_ne by done].
  subst x. by rewrite list_lookup_insert_eq by (by eapply lookup_lt_Some).
Qed.

(** A step that only moves [t]. *)
Lemma lists_goto s Q t p p' os : lists_inv s Q -> pcs s !! t = Some p -> waits_at p' = waits_at p ->
  lists_inv (State (heads s) os (blocks s) (signalled s) (<[t := p']> (pcs s))) Q.
Proof.
  intros H Hp Hw. assert (E : forall x, (<[t := p']> (pcs s) !! x ≫= waits_at) = (pcs s !! x ≫= waits_at)).
  { intros x. rewrite (pc_insert s t p) by done. case_decide; [subst; by rewrite Hp|done]. }
  split; unfold waiter; cbn [heads blocks signalled pcs]; [apply H|apply H| |]; setoid_rewrite E; apply H.
Qed.

(** A thread leaves that is in no queue. *)
Lemma lists_leave s Q t p p' m' sg' : lists_inv s Q -> pcs s !! t = Some p -> waits_at p' = None -> (forall i, t ∉ Q i) ->
  (forall x, x <> t -> m' !! x = blocks s !! x /\ sg' !! x = signalled s !! x) ->
  lists_inv (State (heads s) (owners s) m' sg' (<[t := p']> (pcs s))) Q.
Proof.
  intros H Hp Hw Ht Ho. split; cbn [heads blocks signalled pcs]; [apply H| | |].
  - intros i h Hh. apply (list_ok_ext (blocks s)); [|by apply (inv_lists s Q H)]. intros x Hx. apply Ho. intros ->. by apply (Ht i).
  - intros i x Hx. destruct (inv_members s Q H i x Hx) as (a & [Ha Hs] & Hb). exists a. split; [|done]. unfold waiter. cbn [pcs signalled].
    assert (x <> t) by (intros ->; by apply (Ht i)). rewrite (pc_insert s t p) by done. rewrite decide_False by done. split; [done|].
    by rewrite (proj2 (Ho x ltac:(done))).
  - intros x a. rewrite (pc_insert s t p) by done. case_decide as E; [congruence|]. intros Ha. destruct (inv_waiting s Q H x a Ha) as [Had Hr].
    destruct (Ho x E) as [E1 E2]. unfold ad, pv in *. rewrite E1, E2. done.
Qed.

(** A thread whose event is set, or whose block is marked, is in no queue. *)
Lemma signalled_not_queued s Q t i : lists_inv s Q -> signalled s !! t = Some true -> t ∉ Q i.
Proof. intros H Hs Hi. destruct (inv_members s Q H i t Hi) as (a & [_ Hf] & _). congruence. Qed.

Lemma removed_not_queued s Q t i : lists_inv s Q -> pv (blocks s) t = None -> t ∉ Q i.
Proof.
  intros H Hv Hi. destruct (inv_members s Q H i t Hi) as (a & _ & <-). destruct (inv_head s Q a H) as [_ _ Hc].
  destruct (cycle_alloc _ _ _ Hc Hi) as (b & Hb & _ & [z Hz]). unfold pv in Hv. rewrite Hb in Hv. cbn in Hv. congruence.
Qed.

(** The other threads, in a step on the bucket [i] by [t]. *)
Lemma other_bucket s Q t i j x : lists_inv s Q -> (forall j, j <> i -> t ∉ Q j) -> j <> i -> x ∈ Q j -> (x ∉ Q i) /\ x <> t.
Proof. intros H Ht Hj Hx. split; [intros Hi; apply Hj; by apply (inv_disjoint s Q j i x)|]. intros ->. by apply (Ht j). Qed.

Lemma lists_add s Q t addr p m' h' : let i := bucket addr in
  lists_inv s Q -> pcs s !! t = Some p -> (forall j, t ∉ Q j) ->
  list_ok m' h' (Q i ++ [t]) -> ad m' t = Some addr -> (forall x, x <> t -> ad m' x = ad (blocks s) x) ->
  (forall x, x ∉ Q i ++ [t] -> m' !! x = blocks s !! x) ->
  lists_inv (State (set_head s addr h') (owners s) m' (<[t := false]> (signalled s)) (<[t := Blocked addr]> (pcs s))) (<[i := Q i ++ [t]]> Q).
Proof.
  intros i H Hp Ht Hl Hat Ha Ho. apply lists_update; [done|done| | |].
  - intros j x Hj Hx. destruct (other_bucket s Q t i j x H) as [Hxi Hxt]; [done|done|done|]. rewrite lookup_insert_ne, list_lookup_insert_ne by done.
    split; [|done]. apply Ho. set_solver.
  - intros x [Hx| ->%list_elem_of_singleton]%elem_of_app; rewrite (pc_insert s t _ _ _ Hp).
    + assert (x <> t) by (intros ->; by apply (Ht i)). rewrite decide_False, lookup_insert_ne by done.
      destruct (inv_members s Q H _ x Hx) as (a & [? ?] & ?). by exists a.
    + rewrite decide_True, lookup_insert_eq by done. by exists addr.
  - intros x a. rewrite (pc_insert s t _ _ _ Hp). case_decide as E.
    + subst x. intros [= <-]. split; [done|]. left. fold i. rewrite fn_lookup_insert, lookup_insert_eq. split; [set_solver|done].
    + intros Hx. destruct (inv_waiting s Q H x a Hx) as [Hxa [[Hq Hs]|[Hv Hs]]]; rewrite lookup_insert_ne, Ha by done; split; [done| |done|].
      * left. split; [|done]. destruct (decide (bucket a = i)) as [E'|]; [|by rewrite fn_lookup_insert_ne by done].
        rewrite E', fn_lookup_insert. rewrite E' in Hq. set_solver.
      * right. split; [|done]. unfold pv. rewrite Ho; [done|]. assert (x ∉ Q i) by (by apply (removed_not_queued s)). set_solver.
Qed.

(** The thread [x] leaves the queue of a bucket: [t] itself, or a thread that
    [t] is going to wake, with its block marked. *)
Lemma lists_shrink s Q t p p' addr x m' h' : let i := bucket addr in
  lists_inv s Q -> pcs s !! t = Some p -> waits_at p' = None -> (forall j, t ∈ Q j -> t = x) -> (forall j, x ∈ Q j -> j = i) ->
  list_ok m' h' (without x (Q i)) -> (forall y, y ∉ Q i -> m' !! y = blocks s !! y) -> (forall y, ad m' y = ad (blocks s) y) ->
  (x <> t -> pv m' x = None) ->
  lists_inv (State (set_head s addr h') (owners s) m' (signalled s) (<[t := p']> (pcs s))) (<[i := without x (Q i)]> Q).
Proof.
  intros i H Hp Hw Ht Hx Hl Ho Ha Hm. apply lists_update; [done|done| | |].
  - intros j y Hj Hy. destruct (other_bucket s Q t i j y H) as [Hyi Hyt]; [|done|done|].
    { intros k Hk Hkt. apply Hk, Hx. by rewrite <- (Ht k). }
    rewrite list_lookup_insert_ne by done. split_and!; [by apply Ho|done|done].
  - intros y [Hy Hyx]%elem_of_without. rewrite (pc_insert s t _ _ _ Hp). assert (y <> t) by (intros ->; by apply Hyx, (Ht i)).
    rewrite decide_False by done. destruct (inv_members s Q H _ y Hy) as (a & [? ?] & ?). by exists a.
  - intros y a. rewrite (pc_insert s t _ _ _ Hp). case_decide as E; [congruence|]. intros Hy. rewrite Ha.
    destruct (inv_waiting s Q H y a Hy) as [Hya Hr]. split; [done|]. destruct (decide (y = x)) as [->|Hyx].
    { right. split; [by apply Hm|]. destruct Hr as [[_ ->]|[_ ?]]; [by eexists|done]. }
    destruct Hr as [[Hq Hs]|[Hv Hs]]; [left|right]; (split; [|done]).
    + destruct (decide (bucket a = i)) as [E'|]; [|by rewrite fn_lookup_insert_ne by done].
      rewrite E', fn_lookup_insert. rewrite E' in Hq. by apply elem_of_without.
    + unfold pv. rewrite Ho; [done|]. by apply (removed_not_queued s).
Qed.

(** An event is set, of a thread whose block is marked. *)
Lemma lists_signal s Q t p p' x : lists_inv s Q -> pcs s !! t = Some p -> waits_at p = None -> waits_at p' = None -> (forall i, x ∉ Q i) ->
  lists_inv (State (heads s) (owners s) (blocks s) (<[x := true]> (signalled s)) (<[t := p']> (pcs s))) Q.
Proof.
  intros H Hp Hw Hw' Hx. assert (E : forall y, (<[t := p']> (pcs s) !! y ≫= waits_at) = (pcs s !! y ≫= waits_at)).
  { intros y. rewrite (pc_insert s t p) by done. case_decide; [subst; rewrite Hp; by cbn; rewrite Hw|done]. }
  split; unfold waiter; cbn [heads blocks signalled pcs]; [apply H|apply H| |]; setoid_rewrite E.
  - intros i y Hy. rewrite lookup_insert_ne by (intros ->; by apply (Hx i)). by apply (inv_members s Q H).
  - intros y a Hy. destruct (inv_waiting s Q H y a Hy) as [Ha Hr]. split; [done|]. destruct (decide (y = x)) as [->|].
    + right. destruct Hr as [[Hq _]|[? _]]; [by apply Hx in Hq|]. split; [done|]. by rewrite lookup_insert_eq.
    + by rewrite lookup_insert_ne by done.
Qed.

(** ** The locks *)

Lemma one_holder s t u p p' a a' : locks_inv s -> pcs s !! t = Some p -> holds p = Some a -> pcs s !! u = Some p' -> holds p' = Some a' ->
  bucket a = bucket a' -> t = u.
Proof.
  intros H Ht Ha Hu Ha' E. pose proof (inv_holds s H t p a Ht Ha) as H1. pose proof (inv_holds s H u p' a' Hu Ha') as H2.
  unfold owner_of in *. rewrite E in H1. congruence.
Qed.

Section Locks.
Context (s : state) (t : nat) (p p' : pc) (hs : list (option nat)) (m : memory) (sg : gmap nat bool).
Context (H : locks_inv s) (Hp : pcs s !! t = Some p).

Lemma pcs_insert x p'' : <[t := p']> (pcs s) !! x = Some p'' -> (x = t /\ p'' = p') \/ (x <> t /\ pcs s !! x = Some p'').
Proof.
  destruct (decide (x = t)) as [->|]; [|rewrite list_lookup_insert_ne by done; auto].
  rewrite list_lookup_insert_eq by (by eapply lookup_lt_Some). intros [= ->]. auto.
Qed.

Lemma locks_move : holds p' = holds p -> locks_inv (State hs (owners s) m sg (<[t := p']> (pcs s))).
Proof.
  intros E. split; cbn [owners pcs].
  - apply H.
  - intros x px a [[-> ->]|[_ Hx]]%pcs_insert Ha; [rewrite E in Ha; by apply (inv_holds s H t p)|by apply (inv_holds s H x px)].
  - intros i x Hx. destruct (inv_held s H i x Hx) as (px & a & H1 & H2 & H3). destruct (decide (x = t)) as [->|].
    + exists p', a. rewrite list_lookup_insert_eq by (by eapply lookup_lt_Some). split_and!; [done|congruence|done].
    + exists px, a. by rewrite list_lookup_insert_ne.
Qed.

Context (addr : Z).

Lemma bucket_owner : (bucket addr < length (owners s))%nat.
Proof. rewrite (inv_owners s H). apply bucket_bound. Qed.

Lemma locks_acquire : holds p = None -> holds p' = Some addr -> owner_of s addr = None ->
  locks_inv (State hs (set_owner s addr (Some t)) m sg (<[t := p']> (pcs s))).
Proof.
  intros E E' Ho. unfold set_owner. split; cbn [owners pcs].
  - rewrite length_insert. apply H.
  - intros x px a Hx Ha. unfold owner_of. cbn [owners]. apply pcs_insert in Hx as [[-> ->]|[_ Hx]].
    + assert (a = addr) as -> by congruence. by rewrite list_lookup_insert_eq by apply bucket_owner.
    + pose proof (inv_holds s H x px a Hx Ha) as Hox. rewrite list_lookup_insert_ne; [done|]. intros Eb. unfold owner_of in *. congruence.
  - intros i x. destruct (decide (i = bucket addr)) as [->|].
    + rewrite list_lookup_insert_eq by apply bucket_owner. intros [= <-]. exists p', addr.
      by rewrite list_lookup_insert_eq by (by eapply lookup_lt_Some).
    + rewrite list_lookup_insert_ne by done. intros Hx. destruct (inv_held s H i x Hx) as (px & a & H1 & H2 & H3). exists px, a.
      rewrite list_lookup_insert_ne; [done|]. intros ->. congruence.
Qed.

Lemma locks_release : holds p = Some addr -> holds p' = None ->
  locks_inv (State hs (set_owner s addr None) m sg (<[t := p']> (pcs s))).
Proof.
  intros E E'. unfold set_owner. split; cbn [owners pcs].
  - rewrite length_insert. apply H.
  - intros x px a Hx Ha. unfold owner_of. cbn [owners]. apply pcs_insert in Hx as [[-> ->]|[Hxt Hx]]; [congruence|].
    rewrite list_lookup_insert_ne; [by apply (inv_holds s H x px)|]. intros Eb. apply Hxt. symmetry. by apply (one_holder s t x p px addr a).
  - intros i x. destruct (decide (i = bucket addr)) as [->|]; [by rewrite list_lookup_insert_eq by apply bucket_owner|].
    rewrite list_lookup_insert_ne by done. intros Hx. destruct (inv_held s H i x Hx) as (px & a & H1 & H2 & H3). exists px, a.
    rewrite list_lookup_insert_ne; [done|]. intros ->. congruence.
Qed.
End Locks.

(** ** The steps *)

Lemma queued_waiter s Q addr x : lists_inv s Q -> x ∈ Q (bucket addr) -> exists a, waiter s a x /\ bucket a = bucket addr.
Proof. intros H Hx. by apply (inv_members s Q H). Qed.

(** What the scan of a thread relies on. *)
Definition undisturbed (s s' : state) (Q Q' : queues) (addr : Z) : Prop :=
  Q' (bucket addr) = Q (bucket addr) /\
  forall a x, bucket a = bucket addr -> waiter s a x -> waiter s' a x /\ ad (blocks s') x = ad (blocks s) x.

Lemma next_frame s s' Q Q' addr next : lists_inv s Q -> undisturbed s s' Q Q' addr -> next_ok s Q addr next -> next_ok s' Q' addr next.
Proof.
  intros H [EQ Hw] [E|(q1 & y & q2 & -> & E & HF)]; [left; congruence|]. right. exists q1, y, q2. split_and!; [done|congruence|].
  apply Forall_forall. intros x Hx. rewrite Forall_forall in HF. specialize (HF x Hx).
  destruct (queued_waiter s Q addr x H) as (a & Ha & Eb); [rewrite E; set_solver|]. by destruct (Hw a x Eb Ha) as [_ ->].
Qed.

Lemma scan_frame s s' Q Q' p addr : lists_inv s Q -> holds p = Some addr -> undisturbed s s' Q Q' addr -> scan_ok s Q p -> scan_ok s' Q' p.
Proof.
  intros H Hp Hu. pose proof Hu as [EQ Hw]. destruct p; try done; injection Hp as ->; cbn [scan_ok].
  - intros [Hne Hn]. split; [by rewrite EQ|by eapply next_frame].
  - intros [(x & -> & Hx & Hq) Hn]. split; [|by eapply next_frame]. exists x. rewrite EQ. split_and!; [done| |done]. by apply Hw.
  - by eapply next_frame.
Qed.

(** A step of [t] from [p] to [p']: the scans of the other threads go on, and
    a thread that has lost its place has somebody to wake it. *)
Lemma locked_step s s' Q Q' t p p' : inv s Q -> pcs s !! t = Some p -> pcs s' = <[t := p']> (pcs s) ->
  lists_inv s' Q' -> locks_inv s' -> scan_ok s' Q' p' ->
  (forall u pu addr, u <> t -> pcs s !! u = Some pu -> holds pu = Some addr -> undisturbed s s' Q Q' addr) ->
  (forall x addr, waiter s' addr x -> x ∉ Q' (bucket addr) -> (exists all next, p' = Signalling addr all (Some x) next) \/
    waiter s addr x /\ (x ∉ Q (bucket addr)) /\ forall all next, p <> Signalling addr all (Some x) next) ->
  inv s' Q'.
Proof.
  intros H Hp Hps Hb Hl Hsc Hu Hpend. split; [done|done| |].
  - intros u pu Hpu. rewrite Hps in Hpu. apply (pcs_insert s t p p' Hp) in Hpu as [[-> ->]|[Hut Hpu]]; [done|].
    destruct (holds pu) as [a|] eqn:Ea; [|by destruct pu]. eapply (scan_frame s s' Q); [apply H|done|by eapply Hu|by apply (inv_scans s Q H u)].
  - intros x addr Hx Hq. destruct (Hpend x addr Hx Hq) as [(all & next & ->)|(Hx' & Hq' & Hne)].
    + exists t, all, next. rewrite Hps. by rewrite list_lookup_insert_eq by (by eapply lookup_lt_Some).
    + destruct (inv_pending s Q H x addr Hx' Hq') as (u & all & next & Hu'). exists u, all, next. rewrite Hps.
      rewrite list_lookup_insert_ne; [done|]. intros ->. apply (Hne all next). congruence.
Qed.

(** A step that changes no list and no event. *)
Lemma locked_quiet s Q t p p' os : inv s Q -> pcs s !! t = Some p -> waits_at p' = waits_at p ->
  (forall addr all x next, p <> Signalling addr all x next) ->
  locks_inv (State (heads s) os (blocks s) (signalled s) (<[t := p']> (pcs s))) ->
  scan_ok s Q p' ->
  inv (State (heads s) os (blocks s) (signalled s) (<[t := p']> (pcs s))) Q.
Proof.
  intros H Hp Hw Hne Hl Hsc. set (s' := State _ _ _ _ _).
  assert (E : forall a x, waiter s' a x <-> waiter s a x).
  { intros a x. unfold waiter, s'. cbn [pcs signalled]. rewrite (pc_insert s t p) by done. case_decide; [subst; rewrite Hp; cbn; by rewrite Hw|done]. }
  assert (Hu : forall addr, undisturbed s s' Q Q addr) by (intros addr; split; [done|]; intros a x _; by rewrite E).
  apply (locked_step s s' Q Q t p p'); try done; [eapply lists_goto; [apply H|done|done]| |].
  - destruct (holds p') as [a|] eqn:Ea; [|by destruct p']. eapply (scan_frame s s' Q); [apply H|done|done|done].
  - intros x addr. rewrite E. intros Hx Hq. right. by split_and!.
Qed.

(** While a bucket is free, no thread scans it. *)
Lemma free_bucket s u pu a addr : locks_inv s -> owner_of s addr = None -> pcs s !! u = Some pu -> holds pu = Some a -> bucket a <> bucket addr.
Proof. intros H Ho Hu Ha E. pose proof (inv_holds s H u pu a Hu Ha). unfold owner_of in *. congruence. Qed.

(** A waiter is another thread than one that waits nowhere, or elsewhere. *)
Lemma waiter_ne s t p a x : pcs s !! t = Some p -> waits_at p <> Some a -> waiter s a x -> x <> t.
Proof. intros Hp Hw [Hx _] ->. rewrite Hp in Hx. cbn in Hx. congruence. Qed.

Lemma add_section_ok s Q t addr size now expected created : inv s Q -> pcs s !! t = Some (Adding addr size) -> owner_of s addr = None ->
  exists s' r, add_section s t addr size now expected created = Ok (s', r) /\
    inv s' (if KexRtlpEqualVolatileMemory now expected size && NT_SUCCESS created
            then <[bucket addr := Q (bucket addr) ++ [t]]> Q else Q).
Proof.
  intros H Hp Ho. unfold add_section.
  destruct (KexRtlpEqualVolatileMemory _ _ _); cbn [negb andb];
    [|eexists _, _; split; [reflexivity|eapply locked_quiet; try done; eapply locks_move; by try apply H]].
  destruct (NT_SUCCESS created); cbn [negb]; [|eexists _, _; split; [reflexivity|eapply locked_quiet; try done; eapply locks_move; by try apply H]].
  set (i := bucket addr). assert (Ht : forall j, t ∉ Q j) by (intros j; by eapply not_queued; first apply H).
  destruct (add_block_ok _ _ _ t addr (inv_head s Q addr (inv_base s Q H)) (Ht i)) as (m' & h' & -> & Hl & Hat & Ha & Hf). cbn [mbind outcome_bind].
  eexists _, _. split; [reflexivity|]. eapply (locked_step s _ Q); [done|done|reflexivity| | |done| |].
  - eapply lists_add; try done. apply H.
  - eapply locks_move; try done. apply H.
  - intros u pu a Hu Hpu Hh. pose proof (free_bucket s u pu a addr (inv_locks s Q H) Ho Hpu Hh) as Hb.
    split; [by rewrite fn_lookup_insert_ne by done|]. intros a' x _ Hx. pose proof (waiter_ne s t _ a' x Hp ltac:(done) Hx) as Hxt.
    destruct Hx as [Hx Hs]. unfold waiter. cbn [pcs signalled blocks]. rewrite (pc_insert s t _ _ _ Hp), decide_False, lookup_insert_ne by done.
    split; [done|by apply Ha].
  - intros x a [Hx Hs] Hq. cbn [pcs signalled] in *. right. rewrite (pc_insert s t _ _ _ Hp) in Hx. case_decide as E.
    { injection Hx as <-. subst x. fold i in Hq. rewrite fn_lookup_insert in Hq. set_solver. }
    rewrite lookup_insert_ne in Hs by done. split_and!; [done| |done].
    intros Hq'. apply Hq. destruct (decide (bucket a = i)) as [E'|]; [|by rewrite fn_lookup_insert_ne by done].
    rewrite E', fn_lookup_insert. rewrite E' in Hq'. set_solver.
Qed.

(** A thread that gives up finds its block in the list, or marked. *)
Lemma remove_lists s Q t addr status : lists_inv s Q -> pcs s !! t = Some (Removing addr status) ->
  exists m' h', KexRtlpRemoveWoaWaitBlock (blocks s) (head_of s addr) (Some t) = Ok (m', h') /\ (forall x, ad m' x = ad (blocks s) x) /\
    lists_inv (State (set_head s addr h') (owners s) m' (signalled s) (<[t := Closing status]> (pcs s)))
      (<[bucket addr := without t (Q (bucket addr))]> Q).
Proof.
  intros H Hp. set (i := bucket addr). pose proof (inv_head s Q addr H) as Hok. fold i in Hok.
  destruct (inv_waiting s Q H t addr) as [Had [[Hq Hs]|[Hv Hs]]]; [by rewrite Hp| |].
  - pose proof Hq as Hq'. apply list_elem_of_split in Hq' as (q1 & q2 & E). fold i in E. rewrite E in Hok.
    destruct (list_ok_rotated _ _ _ _ _ Hok) as (_ & Hx & _). destruct (remove_ok _ _ _ _ _ Hok) as (m' & h' & Er & Hl & Ha & Ho).
    exists m', h'. split_and!; [done|done|]. apply (lists_shrink s Q t (Removing addr status)); fold i; try done.
    + intros j Hj. by apply (inv_disjoint s Q j i t).
    + by rewrite E, without_middle by set_solver.
    + intros x Hxq. apply Ho. rewrite E in Hxq. set_solver.
  - assert (Hnt : forall j, t ∉ Q j) by (intros j; by apply (removed_not_queued s)).
    exists (blocks s), (head_of s addr). split_and!; [apply remove_removed; [|done]|done|].
    { unfold ad in Had. destruct (blocks s !! t); [by eexists|done]. }
    apply (lists_shrink s Q t (Removing addr status)); fold i; try done; [by intros j ?%Hnt|].
    by rewrite without_absent.
Qed.

Lemma remove_section_ok s Q t addr status : inv s Q -> pcs s !! t = Some (Removing addr status) -> owner_of s addr = None ->
  exists s', remove_section s t addr status = Ok (s', None) /\ inv s' (<[bucket addr := without t (Q (bucket addr))]> Q).
Proof.
  intros H Hp Ho. unfold remove_section. destruct (remove_lists s Q t addr status (inv_base s Q H) Hp) as (m' & h' & -> & Ha & Hl).
  eexists. split; [reflexivity|]. eapply (locked_step s _ Q); [done|done|reflexivity|done| |done| |].
  - eapply locks_move; try done. apply H.
  - intros u pu a Hu Hpu Hh. pose proof (free_bucket s u pu a addr (inv_locks s Q H) Ho Hpu Hh) as Hb.
    split; [by rewrite fn_lookup_insert_ne by done|]. intros a' x Eb Hx. pose proof (waiter_ne s t _ a' x Hp ltac:(cbn; congruence) Hx) as Hxt.
    destruct Hx as [Hx Hs]. unfold waiter. cbn [pcs signalled blocks]. by rewrite (pc_insert s t _ _ _ Hp), decide_False by done.
  - intros x a [Hx Hs] Hq. cbn [pcs signalled] in *. right. rewrite (pc_insert s t _ _ _ Hp) in Hx. case_decide as E; [done|].
    split_and!; [done| |done]. intros Hq'. apply Hq. destruct (decide (bucket a = bucket addr)) as [E'|]; [|by rewrite fn_lookup_insert_ne by done].
    rewrite E', fn_lookup_insert. rewrite E' in Hq'. by apply elem_of_without.
Qed.

Lemma wake_acquire_ok s Q t addr all : inv s Q -> pcs s !! t = Some (Waking addr all) -> owner_of s addr = None -> inv (wake_acquire s t addr all) Q.
Proof.
  intros H Hp Ho. pose proof (inv_head s Q addr (inv_base s Q H)) as Hok. unfold wake_acquire. destruct (head_of s addr) as [h|] eqn:Eh.
  - eapply locked_quiet; try done; [eapply locks_acquire; try done; apply H|]. cbn [scan_ok]. pose proof (list_head _ _ _ Hok) as E.
    destruct (Q (bucket addr)) as [|y q] eqn:EQ; [done|]. injection E as ->. split; [done|]. right. exists [], y, q. by rewrite EQ.
  - eapply locked_quiet; try done. eapply locks_move; try done. apply H.
Qed.

(** The block behind the one that is scanned, in the queue with or without
    that one. *)
Lemma next_after s s' Q addr q1 x q2 : Q (bucket addr) = q1 ++ x :: q2 -> Forall (fun y => ad (blocks s) y <> Some addr) q1 ->
  (forall y, ad (blocks s') y = ad (blocks s) y) ->
  (ad (blocks s) x <> Some addr -> next_ok s' Q addr (Some (default x (head (q2 ++ q1))))) /\
  next_ok s' (<[bucket addr := q1 ++ q2]> Q) addr (Some (default x (head (q2 ++ q1)))).
Proof.
  intros E HF Ha. assert (HF' : Forall (fun y => ad (blocks s') y <> Some addr) q1) by (eapply Forall_impl; [exact HF|]; intros y; by rewrite Ha).
  unfold next_ok. rewrite fn_lookup_insert. split.
  - intros Hx. right. destruct q2 as [|y q2]; [destruct q1 as [|z q1]|]; cbn [app head default id].
    + by exists [], x, [].
    + exists [], z, (q1 ++ [x]). by rewrite E.
    + exists (q1 ++ [x]), y, q2. rewrite E, <- app_assoc. split_and!; [done|done|]. apply Forall_app. split; [done|]. constructor; [by rewrite Ha|done].
  - destruct q2 as [|y q2]; [destruct q1 as [|z q1]|]; cbn [app head default id].
    + by left.
    + right. exists [], z, q1. by rewrite app_nil_r.
    + right. by exists q1, y, q2.
Qed.

Lemma scan_split s Q addr all wb : scan_ok s Q (Scanning addr all wb) ->
  exists q1 x q2, wb = Some x /\ Q (bucket addr) = q1 ++ x :: q2 /\ Forall (fun y => ad (blocks s) y <> Some addr) q1.
Proof. by intros [Hne [E|Hn]]. Qed.

Lemma wake_scan_ok s Q t addr all wb : inv s Q -> pcs s !! t = Some (Scanning addr all wb) ->
  exists s' x, wb = Some x /\ wake_scan s t addr all wb = Ok s' /\
    inv s' (if bool_decide (ad (blocks s) x = Some addr) then <[bucket addr := without x (Q (bucket addr))]> Q else Q).
Proof.
  intros H Hp. destruct (scan_split s Q addr all wb (inv_scans s Q H t _ Hp)) as (q1 & x & q2 & -> & E & HF).
  set (i := bucket addr) in *. pose proof (inv_head s Q addr (inv_base s Q H)) as Hok. fold i in Hok. rewrite E in Hok.
  destruct (next_of _ _ _ _ _ Hok) as (b & Hb & Hn & Hbx). unfold wake_scan. rewrite (ld_some _ _ _ Hb). cbn [mbind outcome_bind]. rewrite Hn.
  assert (Hxq : x ∈ Q i) by (rewrite E; set_solver). destruct (list_ok_rotated _ _ _ _ _ Hok) as (_ & Hx & _). assert (Hx' : x ∉ q1 ++ q2) by set_solver.
  destruct (Z.eqb_spec (Address b) addr) as [Eb|Hne].
  - destruct (wake_one _ _ _ _ _ Hok) as (m1 & m2 & h' & -> & Es & Hl & Hv & Ha & Hf). cbn [mbind outcome_bind]. rewrite Es. cbn [mbind outcome_bind].
    eexists _, x. split; [done|]. split; [reflexivity|]. rewrite bool_decide_true by congruence. set (s' := State _ _ _ _ _).
    assert (Hw : forall a y, waiter s' a y <-> waiter s a y).
    { intros a y. unfold waiter, s'. cbn [pcs signalled]. rewrite (pc_insert s t _ _ _ Hp). case_decide; [subst; by rewrite Hp|done]. }
    assert (Hwx : waiter s addr x).
    { destruct (inv_members s Q (inv_base s Q H) i x Hxq) as (a & [Hw1 Hw2] & _). destruct (inv_waiting s Q (inv_base s Q H) x a Hw1) as [Hax _].
      assert (a = addr) as -> by congruence. done. }
    eapply (locked_step s s' Q); [done|done|reflexivity| | | | |].
    + apply (lists_shrink s Q t (Scanning addr all (Some x))); fold i; try done; [apply H| | | |].
      * intros j Hj. exfalso. eapply (not_queued s Q t); [apply H|done|done|done].
      * intros j Hj. apply (inv_disjoint s Q j i x); [apply H|done|done].
      * by rewrite E, without_middle.
      * intros y Hy. apply Hf. by rewrite <- E.
    + eapply locks_move; try done. apply H.
    + cbn [scan_ok]. fold i. rewrite fn_lookup_insert. rewrite E, without_middle by done. split.
      * exists x. by rewrite Hw.
      * by apply (next_after s s' Q addr q1 x q2).
    + intros u pu a Hu Hpu Hh. split.
      * rewrite fn_lookup_insert_ne; [done|]. intros Ei. apply Hu. by apply (one_holder s u t pu _ a addr (inv_locks s Q H) Hpu Hh Hp).
      * intros a' y _ Hy. rewrite Hw. split; [done|apply Ha].
    + intros y a Hy Hq. rewrite Hw in Hy. destruct (decide (y = x)) as [->|Hyx].
      * left. assert (a = addr) as -> by (destruct Hy as [Hy _], Hwx as [Hwx _]; congruence). by eexists _, _.
      * right. split_and!; [done| |done]. intros Hq'. apply Hq. destruct (decide (bucket a = i)) as [E'|]; [|by rewrite fn_lookup_insert_ne by done].
        rewrite E', fn_lookup_insert. rewrite E' in Hq'. by apply elem_of_without.
  - eexists _, x. split; [done|]. split; [reflexivity|]. rewrite bool_decide_false by congruence.
    eapply locked_quiet; try done; [eapply locks_move; try done; apply H|]. cbn [scan_ok]. apply (next_after s s Q addr q1 x q2); [done|done|done|congruence].
Qed.

Lemma wake_signal_ok s Q t addr all wb next : inv s Q -> pcs s !! t = Some (Signalling addr all wb next) ->
  exists s' x, wb = Some x /\ wake_signal s t addr all wb next = Ok s' /\ inv s' Q.
Proof.
  intros H Hp. destruct (inv_scans s Q H t _ Hp) as [(x & -> & [Hx Hs] & Hq) Hn].
  destruct (inv_waiting s Q (inv_base s Q H) x addr Hx) as [Ha _].
  unfold wake_signal, set_event. unfold ad in Ha. destruct (blocks s !! x) as [b|] eqn:Eb; [|done]. rewrite (ld_some _ _ _ Eb).
  cbn [mbind outcome_bind default id]. rewrite Hs. eexists _, x. split; [done|]. split; [reflexivity|]. set (s' := State _ _ _ _ _).
  assert (Hw : forall a y, y <> x -> waiter s' a y <-> waiter s a y).
  { intros a y Hy. unfold waiter, s'. cbn [pcs signalled]. rewrite (pc_insert s t _ _ _ Hp), lookup_insert_ne by done. case_decide; [subst; by rewrite Hp|done]. }
  assert (Hxi : forall i, x ∉ Q i).
  { intros i Hi. destruct (inv_members s Q (inv_base s Q H) i x Hi) as (a & [Hw1 _] & <-). assert (a = addr) as -> by congruence. done. }
  eapply (locked_step s s' Q Q); [done|done|reflexivity| | | | |].
  - eapply lists_signal; try done. apply H.
  - eapply locks_move; try done. apply H.
  - cbn [scan_ok]. destruct Hn as [Hn|(q1 & y & q2 & ? & ? & ?)]; [by left|]. right. by exists q1, y, q2.
  - intros u pu a Hu Hpu Hh. split; [done|]. intros a' y Ebk Hy. split; [|done]. apply Hw; [|done]. intros ->.
    assert (a' = addr) as -> by (destruct Hy; congruence). apply Hu. by apply (one_holder s u t pu _ a addr (inv_locks s Q H) Hpu Hh Hp).
  - intros y a Hy Hq'. destruct (decide (y = x)) as [->|Hyx].
    { destruct Hy as [_ Hy]. cbn [signalled s'] in Hy. by rewrite lookup_insert_eq in Hy. }
    right. apply Hw in Hy; [|done]. split_and!; [done|done|]. intros ? ? [=]. congruence.
Qed.

(** The end of a loop body. *)
Lemma wake_advance_ok s Q t addr all next stop : inv s Q -> pcs s !! t = Some (Advancing addr all next stop) -> inv (wake_advance s t addr all next stop) Q.
Proof.
  intros H Hp. pose proof (inv_scans s Q H t _ Hp) as Hn. cbn [scan_ok] in Hn. unfold wake_advance, scan_ends. 
  destruct (stop || bool_decide _ || bool_decide _) eqn:Ee.
  - eapply locked_quiet; try done. eapply locks_release; try done. apply H.
  - apply orb_false_iff in Ee as [Ee _]. apply orb_false_iff in Ee as [_ Ee%bool_decide_eq_false].
    eapply locked_quiet; try done; [eapply locks_move; try done; apply H|]. split; [|done]. intros E.
    apply Ee. rewrite (list_head _ _ _ (inv_head s Q addr (inv_base s Q H))), E. done.
Qed.

(** A thread leaves: its event was set, or it closes its event and returns. *)
Lemma leave_ok s Q t p p' m' sg' : inv s Q -> pcs s !! t = Some p -> holds p = None -> holds p' = None -> waits_at p' = None ->
  (forall a, ~ waiter s a t) -> (forall x, x <> t -> m' !! x = blocks s !! x /\ sg' !! x = signalled s !! x) ->
  inv (State (heads s) (owners s) m' sg' (<[t := p']> (pcs s))) Q.
Proof.
  intros H Hp Hh Hh' Hw' Hnw Ho. set (s' := State _ _ _ _ _).
  assert (Hw : forall a y, waiter s' a y <-> waiter s a y).
  { intros a y. unfold waiter, s'. cbn [pcs signalled]. rewrite (pc_insert s t _ _ _ Hp). case_decide as E.
    - subst y. rewrite Hw'. split; [by intros [? _]|]. intros Hy. by apply Hnw in Hy.
    - by rewrite (proj2 (Ho y E)). }
  eapply (locked_step s s' Q Q); [done|done|reflexivity| | | | |].
  - eapply lists_leave; try done; [apply H|]. intros i Hi. destruct (inv_members s Q (inv_base s Q H) i t Hi) as (a & Ha & _). by apply (Hnw a).
  - eapply locks_move; try done; [apply H|congruence].
  - by destruct p'.
  - intros u pu a Hu Hpu Hhu. split; [done|]. intros a' y _ Hy. rewrite Hw. split; [done|]. assert (y <> t) by (intros ->; by apply (Hnw a')).
    unfold ad, s'. cbn [blocks]. by rewrite (proj1 (Ho y ltac:(done))).
  - intros y a Hy Hq. rewrite Hw in Hy. right. split_and!; [done|done|]. intros all next ->. done.
Qed.

(** ** The queues *)

(** What a step does to the queues: a new waiter goes to the end, one that
    gives up leaves, and a waking thread takes the thread it looks at when
    that one waits on its address. *)
Definition queue_step (a : action) (t : nat) (s : state) (Q : queues) : queues :=
  match pcs s !! t, a with
  | Some (Adding addr size), Add now expected created =>
    let i := bucket addr in if KexRtlpEqualVolatileMemory now expected size && NT_SUCCESS created then <[i := Q i ++ [t]]> Q else Q
  | Some (Removing addr _), Run => let i := bucket addr in <[i := without t (Q i)]> Q
  | Some (Scanning addr _ (Some x)), Run =>
    let i := bucket addr in if bool_decide (ad (blocks s) x = Some addr) then <[i := without x (Q i)]> Q else Q
  | _, _ => Q
  end.

Lemma exec_ok s Q a t o : inv s Q -> exec a t s = Some o -> exists s' r, o = Ok (s', r) /\ inv s' (queue_step a t s Q).
Proof.
  intros H. unfold exec, queue_step, silent. destruct (pcs s !! t) as [p|] eqn:Hp; [|done].
  assert (Hmove : forall p', waits_at p' = waits_at p -> holds p' = holds p -> (forall addr all x next, p <> Signalling addr all x next) ->
    scan_ok s Q p' -> inv (goto s t p') Q).
  { intros p' ? ? ? ?. eapply locked_quiet; try done. eapply locks_move; try done. apply H. }
  destruct p as [|addr size|addr|addr status|status|addr all|addr all wb|addr all wb next|addr all next stop],
    a as [addr' cmp size'|addr' all'|now expected created|status'|]; try done; cbn zeta; intros E.
  - injection E as <-. destruct (wait_refused _ _ _); eexists _, _; (split; [reflexivity|]); [done|by apply Hmove].
  - injection E as <-. eexists _, _. split; [reflexivity|]. by apply Hmove.
  - destruct (owner_of s addr) eqn:Ho; [done|]. injection E as <-. by apply add_section_ok.
  - destruct (_ || _); [|done]. injection E as <-. eexists _, _. split; [reflexivity|]. by apply Hmove.
  - destruct (signalled s !! t) as [[]|] eqn:Es; try done. injection E as <-. eexists _, _. split; [reflexivity|].
    eapply leave_ok; try done. intros a [_ Ha]. congruence.
  - destruct (owner_of s addr) eqn:Ho; [done|]. injection E as <-. destruct (remove_section_ok s Q t addr status H Hp Ho) as (s' & -> & Hi). by eexists _, _.
  - injection E as <-. eexists _, _. split; [reflexivity|]. eapply leave_ok; try done.
    + intros a [Ha _]. by rewrite Hp in Ha.
    + intros x Hx. by rewrite !lookup_delete_ne.
  - destruct (owner_of s addr) eqn:Ho; [done|]. injection E as <-. eexists _, _. split; [reflexivity|]. by apply wake_acquire_ok.
  - injection E as <-. destruct (wake_scan_ok s Q t addr all wb H Hp) as (s' & x & -> & -> & Hi). by eexists _, _.
  - injection E as <-. destruct (wake_signal_ok s Q t addr all wb next H Hp) as (s' & x & -> & -> & Hi). by eexists _, _.
  - injection E as <-. eexists _, _. split; [reflexivity|]. by apply wake_advance_ok.
Qed.

(** The states that [n] threads reach, with the queues that their steps make. *)
Inductive tracks (n : nat) : state -> queues -> Prop :=
| tracks_start : tracks n (initial n) (fun _ => [])
| tracks_step s Q a t s' r : tracks n s Q -> exec a t s = Some (Ok (s', r)) -> tracks n s' (queue_step a t s Q).

Lemma queues_initial n : inv (initial n) (fun _ => []).
Proof.
  assert (Hout : forall x p, replicate n Outside !! x = Some p -> p = Outside) by (intros x p Hx; by apply lookup_replicate in Hx as [-> _]).
  assert (Hw : forall x addr, (replicate n Outside !! x ≫= waits_at) <> Some addr).
  { intros x addr. destruct (replicate n Outside !! x) as [p|] eqn:E; [|done]. by rewrite (Hout x p E). }
  split; [split|split| |]; cbn [initial heads owners blocks signalled pcs].
  - apply length_replicate.
  - intros i h [-> _]%lookup_replicate. split; [done|constructor|done].
  - intros i x Hx. by apply not_elem_of_nil in Hx.
  - intros x addr Hx. by apply Hw in Hx.
  - apply length_replicate.
  - intros t p addr ->%Hout. done.
  - by intros i t [? _]%lookup_replicate.
  - intros t p ->%Hout. done.
  - intros x addr [Hx _]. by apply Hw in Hx.
Qed.

Lemma tracks_inv n s Q : tracks n s Q -> inv s Q.
Proof.
  induction 1 as [|s Q a t s' r _ IH E]; [apply queues_initial|]. destruct (exec_ok s Q a t _ IH E) as (s1 & r1 & [= -> ->] & Hi). done.
Qed.

Lemma reachable_tracks n s : reachable n s -> exists Q, tracks n s Q.
Proof. induction 1 as [|s a t s' r _ [Q IH] E]; [eexists; constructor|]. eexists. by eapply tracks_step. Qed.

(** ** The loop of RtlpWakeByAddress ends *)

(** The number of threads behind [x]. *)
Fixpoint behind (x : nat) (q : list nat) : nat :=
  match q with [] => 0 | y :: q => if bool_decide (y = x) then length q else behind x q end.

Lemma behind_app x q1 q2 : x ∉ q1 -> behind x (q1 ++ x :: q2) = length q2.
Proof.
  induction q1 as [|y q1 IH]; cbn [app behind]; [by rewrite bool_decide_true|]. intros [? ?]%not_elem_of_cons.
  rewrite bool_decide_false by done. by apply IH.
Qed.

Definition advance_left (q : list nat) (next : option nat) (stop : bool) : nat :=
  if scan_ends (head q) next stop then 1 else match next with Some y => 3 * behind y q + 5 | None => 1 end.

(** A bound for the steps to the release of the lock. *)
Definition steps_left (Q : queues) (p : pc) : nat :=
  match p with
  | Scanning addr _ (Some x) => 3 * behind x (Q (bucket addr)) + 4
  | Signalling addr all _ next => S (advance_left (Q (bucket addr)) next (negb all))
  | Advancing addr _ next stop => advance_left (Q (bucket addr)) next stop
  | _ => 0
  end.

(** Behind [x], with [x] still in the queue or not. *)
Lemma advance_left_next q1 x q2 stop : NoDup (q1 ++ x :: q2) ->
  let next := Some (default x (head (q2 ++ q1))) in
  (advance_left (q1 ++ x :: q2) next stop <= 3 * length q2 + 2)%nat /\ (advance_left (q1 ++ q2) next stop <= 3 * length q2 + 2)%nat.
Proof.
  intros Hnd next. unfold advance_left. destruct q2 as [|y q2]; cbn [app] in *.
  { subst next. rewrite app_nil_r. unfold scan_ends. destruct stop; [cbn; lia|]. destruct q1 as [|z q1]; cbn [head app default id].
    - rewrite (bool_decide_true (Some x = Some x)) by done. cbn. lia.
    - rewrite !(bool_decide_true (Some z = Some z)) by done. rewrite !orb_true_r. cbn. lia. }
  subst next. cbn [head default id length]. rewrite NoDup_app, !NoDup_cons in Hnd. destruct Hnd as (_ & Hd & Hx & Hy & _).
  assert (Hyq : y ∉ q1) by (intros Hy'; apply (Hd y Hy'); set_solver).
  split; (case_match; [lia|]).
  - change (q1 ++ x :: y :: q2) with (q1 ++ [x] ++ y :: q2). rewrite app_assoc, behind_app; [lia|]. set_solver.
  - rewrite behind_app by done. lia.
Qed.

Lemma holder_steps s Q t p addr : inv s Q -> pcs s !! t = Some p -> holds p = Some addr ->
  exists s' p', exec Run t s = Some (Ok (s', None)) /\ pcs s' !! t = Some p' /\ (steps_left (queue_step Run t s Q) p' < steps_left Q p)%nat.
Proof.
  intros H Hp Hh. assert (Hlt : (t < length (pcs s))%nat) by (by eapply lookup_lt_Some).
  pose proof (inv_head s Q addr (inv_base s Q H)) as Hok. unfold exec, queue_step, silent. rewrite Hp.
  destruct p as [| | | | | |a all wb|a all wb next|a all next stop]; try done; injection Hh as ->.
  - destruct (wake_scan_ok s Q t addr all wb H Hp) as (s' & x' & -> & Es & _). rewrite Es.
    destruct (scan_split s Q addr all _ (inv_scans s Q H t _ Hp)) as (q1 & x & q2 & [= <-] & E & HF).
    pose proof Hok as Hok'. rewrite E in Hok'. pose proof (list_nodup _ _ _ Hok') as Hnd. destruct (advance_left_next q1 x' q2 (negb all) Hnd) as [_ B].
    destruct (advance_left_next q1 x' q2 false Hnd) as [A _]. destruct (list_ok_rotated _ _ _ _ _ Hok') as (_ & Hx & _).
    destruct (next_of _ _ _ _ _ Hok') as (b & Hb & Hn & Hbx). unfold wake_scan in Es. rewrite (ld_some _ _ _ Hb) in Es. cbn [mbind outcome_bind] in Es.
    rewrite Hn in Es. rewrite Hbx, E. cbn [steps_left]. rewrite E, behind_app by set_solver. destruct (Z.eqb_spec (Address b) addr) as [Eb|Hne].
    + apply bind_Ok_inv in Es as ([m h] & _ & Es). apply bind_Ok_inv in Es as (m' & _ & [= <-]). eexists _, _. split; [reflexivity|].
      cbn [pcs]. rewrite list_lookup_insert_eq by done. split; [reflexivity|]. rewrite bool_decide_true by congruence. cbn [steps_left].
      rewrite fn_lookup_insert, without_middle by set_solver. lia.
    + injection Es as <-. eexists _, _. split; [reflexivity|]. cbn [goto pcs]. rewrite list_lookup_insert_eq by done. split; [reflexivity|].
      rewrite bool_decide_false by congruence. cbn [steps_left]. rewrite E. lia.
  - destruct (wake_signal_ok s Q t addr all wb next H Hp) as (s' & x & -> & Es & _). rewrite Es. unfold wake_signal in Es.
    apply bind_Ok_inv in Es as (sg & _ & [= <-]). eexists _, _. split; [reflexivity|]. cbn [pcs]. rewrite list_lookup_insert_eq by done.
    split; [reflexivity|]. cbn [steps_left]. lia.
  - unfold wake_advance. cbn [steps_left]. unfold advance_left.
    rewrite <- (list_head _ _ _ Hok). pose proof (inv_scans s Q H t _ Hp) as Hn. cbn [scan_ok] in Hn.
    destruct (scan_ends _ _ _) eqn:Ee; eexists _, _; (split; [reflexivity|]); cbn [goto pcs]; rewrite list_lookup_insert_eq by done;
      (split; [reflexivity|]); cbn [steps_left]; [lia|].
    destruct Hn as [E|(q1 & y & q2 & -> & _)]; [|lia]. pose proof (list_head _ _ _ Hok) as Eh. rewrite E in Eh. rewrite Eh in Ee.
    unfold scan_ends in Ee. rewrite (bool_decide_true (_ = None)) in Ee by done. by rewrite orb_true_r in Ee.
Qed.

(** A step moves the thread that takes it. *)
Lemma exec_moves a u s s' r : exec a u s = Some (Ok (s', r)) -> s' = s \/ exists p, pcs s' = <[u := p]> (pcs s).
Proof.
  unfold exec, silent. destruct (pcs s !! u) as [pu|]; [|done]. destruct pu, a; try done; intros E;
    unfold add_section, remove_section, wake_acquire, wake_scan, wake_signal, wake_advance in E;
    repeat match type of E with
    | context [if ?b then _ else _] => destruct b
    | context [match head_of ?s ?a with _ => _ end] => destruct (head_of s a)
    end; try done; injection E as E; repeat (inv_bind; case_match); inv_bind; simplify_eq; eauto.
Qed.

(** The steps of the other threads. *)
Lemma holder_frame s Q t p addr a u s' r : inv s Q -> pcs s !! t = Some p -> holds p = Some addr -> u <> t -> exec a u s = Some (Ok (s', r)) ->
  pcs s' !! t = Some p /\ queue_step a u s Q (bucket addr) = Q (bucket addr).
Proof.
  intros H Hp Hh Hu E. split.
  { destruct (exec_moves a u s s' r E) as [->|[p' ->]]; [done|]. by rewrite list_lookup_insert_ne. }
  pose proof (inv_holds s (inv_locks s Q H) t p addr Hp Hh) as Hown.
  assert (Hfree : forall a', owner_of s a' = None -> bucket addr <> bucket a') by (intros a' Ha' Eb; unfold owner_of in *; congruence).
  unfold exec in E. unfold queue_step. destruct (pcs s !! u) as [pu|] eqn:Hpu; [|done].
  destruct pu as [|a1 size|a1|a1 status|status|a1 all|a1 all wb|a1 all wb next|a1 all next stop], a; try done.
  - destruct (owner_of s a1) eqn:Eo; [done|]. destruct (_ && _); [|done]. by rewrite fn_lookup_insert_ne by (by apply not_eq_sym, Hfree).
  - destruct (owner_of s a1) eqn:Eo; [done|]. by rewrite fn_lookup_insert_ne by (by apply not_eq_sym, Hfree).
  - destruct wb as [x|]; [|done]. destruct (bool_decide _); [|done]. rewrite fn_lookup_insert_ne; [done|]. intros Eb. apply Hu. symmetry.
    by apply (one_holder s t u p (Scanning a1 all (Some x)) addr a1 (inv_locks s Q H)).
Qed.

(** ** Runs *)

(** A list of steps. *)
Fixpoint run (l : list (action * nat)) (s : state) : option state :=
  match l with
  | [] => Some s
  | (a, t) :: l => match exec a t s with Some (Ok (s', _)) => run l s' | _ => None end
  end.

Lemma run_reachable n l s s' : reachable n s -> run l s = Some s' -> reachable n s'.
Proof.
  revert s. induction l as [|[a t] l IH]; intros s H; cbn [run]; [by intros [= ->]|].
  destruct (exec a t s) as [[[s1 r]| | ]|] eqn:E; try done. apply IH. by eapply reach_step.
Qed.

Definition wait_steps (addr : Z) (t : nat) : list (action * nat) :=
  [(WaitOnAddress addr 0x2000 4, t); (Add [1; 0; 0; 0] [1; 0; 0; 0] 0, t)].

(** Thread 0 and thread 1 wait on an address and thread 2 is about to wake. *)
Definition two_waiters : list (action * nat) := wait_steps 0x1000 0 ++ wait_steps 0x1000 1 ++ [(WakeByAddress 0x1000 true, 2%nat)].

Definition two_waiting : state := default (initial 3) (run two_waiters (initial 3)).

(** Thread 0 waits on an address, threads 1 and 2 on another one in the same
    bucket; thread 3 has passed over thread 0 and set the event of thread 1,
    and thread 1 has returned, its block with it. *)
Definition block_gone : list (action * nat) :=
  wait_steps 0x1800 0 ++ wait_steps 0x1000 1 ++ wait_steps 0x1000 2 ++ (WakeByAddress 0x1000 true, 3%nat) ::
  replicate 5 (Run, 3%nat) ++ replicate 2 (Run, 1%nat).

Definition waker_goes_on : state := default (initial 4) (run block_gone (initial 4)).

Lemma waker_goes_on_reachable : reachable 4 waker_goes_on.
Proof. apply (run_reachable 4 block_gone (initial 4)); [constructor|]. by vm_compute. Qed.

(** C9. The circular lists of the hash table implement queues.  In every state
    that threads reach, by any interleaving of the steps of RtlWaitOnAddress,
    RtlWakeAddressSingle and RtlWakeAddressAll, with waits that end by the
    event, a timeout or an error at any time, and with threads that return and
    free their wait blocks as soon as their events are set, also between
    NtSetEvent and the rest of the loop of RtlpWakeByAddress: no step uses a
    wait block whose frame is gone or sets an event that has been closed, and
    each step changes the queues as [queue_step] says (the invariant adds that
    the threads in front of the one that a waking thread looks at do not wait
    on its address, and that a thread which is out of its queue with its event
    not set has a thread that is about to set it).  A thread in the
    loop of RtlpWakeByAddress can always take its next step, each of its steps
    lowers the bound [steps_left], and the steps of other threads move neither
    it nor the queue of its bucket: the loop ends. *)
Theorem WaitOnAddress_refines n s : reachable n s ->
  exists Q, tracks n s Q /\ inv s Q /\
    (forall a t o, exec a t s = Some o -> exists s' r, o = Ok (s', r) /\ inv s' (queue_step a t s Q)) /\
    (forall t p addr, pcs s !! t = Some p -> holds p = Some addr ->
      (exists s' p', exec Run t s = Some (Ok (s', None)) /\ pcs s' !! t = Some p' /\
        (steps_left (queue_step Run t s Q) p' < steps_left Q p)%nat) /\
      (forall a u s' r, u <> t -> exec a u s = Some (Ok (s', r)) ->
        pcs s' !! t = Some p /\ queue_step a u s Q (bucket addr) = Q (bucket addr))).
Proof.
  intros [Q HQ]%reachable_tracks. pose proof (tracks_inv n s Q HQ) as Hi. exists Q. split_and!; [done|done| |].
  - intros a t o E. by apply exec_ok.
  - intros t p addr Hp Hh. split; [by apply (holder_steps s Q t p addr)|]. intros a u s' r. by apply holder_frame.
Qed.

Lemma WaitOnAddress_refines_witness : blocks waker_goes_on !! 1%nat = None /\
  exists s' p', exec Run 3 waker_goes_on = Some (Ok (s', None)) /\ pcs s' !! 3%nat = Some p'.
Proof.
  split; [by vm_compute|]. destruct (WaitOnAddress_refines 4 waker_goes_on) as (Q & _ & _ & _ & H); [apply waker_goes_on_reachable|].
  destruct (H 3%nat (Advancing 0x1000 true (Some 2%nat) false) 0x1000) as [(s' & p' & E & Hp & _) _]; [by vm_compute|done|].
  exists s', p'. by split.
Defined.

(** The thread that a waking thread takes has waited longest on the address. *)
Theorem RtlpWakeByAddress_longest n s Q t addr all x : tracks n s Q -> pcs s !! t = Some (Scanning addr all (Some x)) ->
  ad (blocks s) x = Some addr ->
  waiter s addr x /\ exists q1 q2, Q (bucket addr) = q1 ++ x :: q2 /\ forall y, y ∈ q1 -> ~ waiter s addr y.
Proof.
  intros H%tracks_inv Hp Ha. pose proof (inv_base s Q H) as Hb.
  destruct (scan_split s Q addr all _ (inv_scans s Q H t _ Hp)) as (q1 & x' & q2 & [= <-] & E & HF). split.
  - destruct (inv_members s Q Hb (bucket addr) x) as (a & [Hw Hs] & _); [rewrite E; set_solver|].
    destruct (inv_waiting s Q Hb x a Hw) as [Ha' _]. assert (a = addr) as -> by congruence. done.
  - exists q1, q2. split; [done|]. intros y Hy [Hw _]. rewrite Forall_forall in HF. apply (HF y Hy). by apply (inv_waiting s Q Hb y addr Hw).
Qed.

(** RtlWakeAddressAll leaves a waiter behind.  Two threads wait on the same
    address and no other thread waits in its bucket; the call wakes the first
    and ends, since the block that was next has become the first of the list,
    and the second thread still waits on the address. *)
Theorem RtlWakeAddressAll_leaves_waiter : exists s s', reachable 3 s /\ waiter s 0x1000 0 /\ waiter s 0x1000 1 /\
  pcs s !! 2%nat = Some (Waking 0x1000 true) /\ run (replicate 4 (Run, 2%nat)) s = Some s' /\ pcs s' !! 2%nat = Some Outside /\
  signalled s' !! 0%nat = Some true /\ waiter s' 0x1000 1.
Proof.
  exists two_waiting, (default two_waiting (run (replicate 4 (Run, 2%nat)) two_waiting)).
  split; [apply (run_reachable 3 two_waiters (initial 3)); [constructor|by vm_compute]|]. unfold waiter. split_and!; by vm_compute.
Qed.

End WaitAddrInv.
