(* ===== verification/CondVar.v ===== *)
(** * Condition variables (oca/extensions/ntext/rtl/synch.c)

    A condition variable is one word: the address of the wait block that was
    queued last, in the stack frame of a thread that sleeps, and four flag
    bits.  The bit 8 is a lock on the list of blocks; the low three bits count
    the calls of RtlWakeConditionVariable that found it taken, 7 asks its owner
    to wake all.  Blocks are linked by [back] from the last to the first; the
    owner of the lock fills in [next] and the shortcut [notify] to the first.

    Threads run interleaved.  A step is one access to the word, to the flag of
    a block or to a keyed event, with the accesses to the links of blocks
    around it: the links of a queued block are accessed only by the owner of
    the lock, those of a block that was taken out only by the thread that took
    it.  The critical section or lock of the caller is not part of the state.
    The field SRWLock of a block is always NULL, so that a block never moves to
    the queue of a lock. *)
From S2P Require Import Prelude.

Module CondVar.

Definition STATUS_TIMEOUT : Z := 0x00000102.
Definition YY_CV_MASK : Z := 0xF.
Definition YY_CV_GET_BLOCK (cv : Z) : Z := Z.ldiff cv YY_CV_MASK.

(** YY_CV_WAIT_BLOCK *)
Record block := Block { back : Z; notify : Z; next : Z; flag : Z; uWakeupThreadId : Z }.

Definition set_back (v : Z) (b : block) : block := Block v (notify b) (next b) (flag b) (uWakeupThreadId b).
Definition set_notify (v : Z) (b : block) : block := Block (back b) v (next b) (flag b) (uWakeupThreadId b).
Definition set_next (v : Z) (b : block) : block := Block (back b) (notify b) v (flag b) (uWakeupThreadId b).
Definition set_flag (v : Z) (b : block) : block := Block (back b) (notify b) (next b) v (uWakeupThreadId b).
Definition set_wakeup (v : Z) (b : block) : block := Block (back b) (notify b) (next b) (flag b) v.

(** The locals pWake, ppInsert and Count of RtlpWakeConditionVariable;
    [ppInsert] is the block whose field [back] it points at, [None] for the
    local pWake. *)
Record chain := Chain { pWake : Z; ppInsert : option Z; Count : Z }.

(** Where RtlpWakeConditionVariable returns to: the end of a wake function,
    the wait of a thread that has queued its block, or RtlpWakeSingle. *)
Inductive kont := Return | ToWait | FromSingle (bRet : bool).

(** The places where a thread can be interrupted. *)
Inductive pc : Type :=
| Idle
(* RtlSleepConditionVariableCS and RtlSleepConditionVariableSRW *)
| SleepRead
| SleepPush (old : Z)                               (* for (;;) *)
| OptLoop (status : Z)                              (* RtlpOptimizeConditionVariableWaitList *)
| SleepBtr                                          (* InterlockedBitTestAndReset( &flag ) *)
| SleepKeyed                                        (* NtWaitForKeyedEvent *)
| SingleLoop (current : Z)                          (* RtlpWakeSingle *)
| SingleScan (current new : Z) (bRet : bool)        (* for (; pWaitBlock;) *)
| SleepAgain                                        (* SecondWaitWorkaroundNtWaitForKeyedEvent *)
| SleepDone (status : Z)
(* RtlWakeConditionVariable and RtlWakeAllConditionVariable *)
| WakeRead
| WakeTry (current : Z)
| AllTry (current : Z)
(* RtlpWakeConditionVariable *)
| WakeLoop (status WakeCount : Z) (ch : chain) (k : kont)
| Release (p : Z) (k : kont)                        (* for (; pWake;) *)
| ReleaseSet (p rest : Z) (k : kont)                (* SecondWaitWorkaroundNtReleaseKeyedEvent *)
| ReleaseKey (p rest : Z) (k : kont).               (* NtReleaseKeyedEvent *)

Record state := State { word : Z; blocks : list block; pcs : list pc }.

(** The address of the block of a thread, a multiple of 16. *)
Definition addr (t : nat) : Z := 32 * (Z.of_nat t + 1).

Definition thread_at (a : Z) : nat := Z.to_nat (a / 32 - 1).

Definition parks (k : kont) : bool := match k with Return => false | _ => true end.

(** The thread is inside a function whose frame holds a block. *)
Definition in_sleep (p : pc) : bool :=
  match p with
  | Idle | WakeRead | WakeTry _ | AllTry _ => false
  | WakeLoop _ _ _ k | Release _ k | ReleaseSet _ _ k | ReleaseKey _ _ k => parks k
  | _ => true
  end.

(** The thread whose block is at address [a]: a fault unless its frame is
    there. *)
Definition deref (st : state) (a : Z) : outcome nat :=
  let u := thread_at a in
  if (a =? addr u) && match pcs st !! u with Some p => in_sleep p | None => false end then Ok u else Fault.

Definition load (st : state) (a : Z) : outcome block :=
  u ← deref st a; match blocks st !! u with Some b => Ok b | None => Fault end.

Definition store (st : state) (a : Z) (f : block -> block) : outcome state :=
  u ← deref st a;
  match blocks st !! u with Some b => Ok (State (word st) (<[u := f b]> (blocks st)) (pcs st)) | None => Fault end.

Definition go (st : state) (t : nat) (p : pc) : state := State (word st) (blocks st) (<[t := p]> (pcs st)).

Definition set_word (st : state) (w : Z) : state := State w (blocks st) (pcs st).

(** [InterlockedCompareExchangePointer( ConditionVariable, new, old )] by a
    thread that goes on at [yes], or at [no] with the word. *)
Definition cas (st : state) (t : nat) (old new : Z) (yes : pc) (no : Z -> pc) : state :=
  if word st =? old then go (set_word st new) t yes else go st t (no (word st)).

Definition has (w bits : Z) : bool := negb (Z.land w bits =? 0).

(** [InterlockedBitTestAndReset( &flag, 1 )]: the old bit. *)
Definition flag_reset (st : state) (a : Z) : outcome (bool * state) :=
  b ← load st a; st ← store st a (set_flag (Z.ldiff (flag b) 2)); Ok (has (flag b) 2, st).

(** What the end of RtlpWakeConditionVariable, or of RtlpWakeSingle, leads to. *)
Definition resume (k : kont) : pc :=
  match k with
  | Return => Idle
  | ToWait => SleepBtr
  | FromSingle bRet => if bRet then SleepDone STATUS_TIMEOUT else SleepAgain
  end.

Definition release_rest (rest : Z) (k : kont) : pc := if rest =? 0 then resume k else Release rest k.

(** ** Walking the list *)

(** [for (; pBlock->notify == NULL;)] of RtlpWakeConditionVariable and
    RtlpOptimizeConditionVariableWaitList. *)
Fixpoint walk (fuel : nat) (st : state) (pBlock : Z) : outcome (state * Z) :=
  match fuel with
  | O => NoFuel
  | S fuel =>
    b ← load st pBlock;
    if notify b =? 0 then st ← store st (back b) (set_next pBlock); walk fuel st (back b)
    else Ok (st, pBlock)
  end.

Definition walk_fuel (st : state) : nat := S (length (blocks st)).

(** [*ppInsert = v] *)
Definition insert_at (st : state) (ch : chain) (v : Z) : outcome (state * chain) :=
  match ppInsert ch with
  | None => Ok (st, Chain v None (Count ch))
  | Some a => st ← store st a (set_back v); Ok (st, ch)
  end.

(** [for (; MaxWakeCount > Count && notify->next;)] *)
Fixpoint dequeue (fuel : nat) (st : state) (pWaitBlock ntf MaxWakeCount : Z) (ch : chain) : outcome (state * Z * chain) :=
  match fuel with
  | O => NoFuel
  | S fuel =>
    if Count ch <? MaxWakeCount then
      b ← load st ntf;
      if next b =? 0 then Ok (st, ntf, ch)
      else
        '(st, ch) ← insert_at st ch ntf;
        st ← store st ntf (set_back 0);
        b ← load st ntf;
        st ← store st pWaitBlock (set_notify (next b));
        st ← store st (next b) (set_back 0);
        dequeue fuel st pWaitBlock (next b) MaxWakeCount (Chain (pWake ch) (Some ntf) (Count ch + 1))
    else Ok (st, ntf, ch)
  end.

(** ** RtlpWakeConditionVariable: one round of [for (;;)] *)
Definition wake_round (st : state) (t : nat) (status WakeCount : Z) (ch : chain) (k : kont) : outcome state :=
  if Z.land status 7 =? 7 then
    let last := word st in
    '(st, ch) ← insert_at (set_word st 0) ch (YY_CV_GET_BLOCK last);
    Ok (go st t (release_rest (pWake ch) k))
  else
    let pWaitBlock := YY_CV_GET_BLOCK status in
    let MaxWakeCount := WakeCount + Z.land status 7 in
    '(st, pBlock) ← walk (walk_fuel st) st pWaitBlock;
    let unlock st ch := cas st t status pWaitBlock (release_rest (pWake ch) k) (fun last => WakeLoop last WakeCount ch k) in
    if MaxWakeCount <=? Count ch then Ok (unlock st ch)
    else
      b ← load st pBlock;
      '(st, ntf, ch) ← dequeue (walk_fuel st) st pWaitBlock (notify b) MaxWakeCount ch;
      if MaxWakeCount <=? Count ch then Ok (unlock st ch)
      else if word st =? status then
        '(st, ch) ← insert_at (set_word st 0) ch ntf;
        st ← store st ntf (set_back 0);
        Ok (go st t (release_rest (pWake ch) k))
      else Ok (go st t (WakeLoop (word st) WakeCount ch k)).

(** pWake = NULL, ppInsert = &pWake, Count = 0 *)
Definition no_chain : chain := Chain 0 None 0.

(** ** RtlpOptimizeConditionVariableWaitList *)
Definition optimize (st : state) (t : nat) (status : Z) : outcome state :=
  let pWaitBlock := YY_CV_GET_BLOCK status in
  '(st, pItem) ← walk (walk_fuel st) st pWaitBlock;
  b ← load st pItem;
  st ← store st pWaitBlock (set_notify (notify b));
  Ok (cas st t status pWaitBlock SleepBtr (fun last => if has last 7 then WakeLoop last 0 no_chain ToWait else OptLoop last)).

(** ** RtlpWakeSingle *)
Definition single_loop (st : state) (t : nat) (current : Z) : state :=
  if (current =? 0) || (Z.land current 7 =? 7) then go st t SleepAgain
  else if has current 8 then cas st t current (Z.lor current 7) SleepAgain SingleLoop
  else let new := Z.lor current 8 in cas st t current new (SingleScan new new false) SingleLoop.

(** The rest of the scan, behind the last block. *)
Fixpoint scan (fuel : nat) (st : state) (pBlock pWaitBlock ntf : Z) (bRet : bool) : outcome (state * Z * bool) :=
  match fuel with
  | O => NoFuel
  | S fuel =>
    if pWaitBlock =? 0 then Ok (st, ntf, bRet)
    else
      b ← load st pWaitBlock;
      if pWaitBlock =? pBlock then
        st ← store st ntf (set_back (back b));
        if back b =? 0 then Ok (st, ntf, true)
        else st ← store st (back b) (set_next ntf); scan fuel st pBlock (back b) ntf true
      else st ← store st pWaitBlock (set_next ntf); scan fuel st pBlock (back b) pWaitBlock bRet
  end.

Definition single_scan (st : state) (t : nat) (current new : Z) (bRet : bool) : outcome state :=
  let pSuccessor := YY_CV_GET_BLOCK current in
  let done st bRet := Ok (go st t (WakeLoop current 0 no_chain (FromSingle bRet))) in
  if pSuccessor =? 0 then done st bRet
  else if pSuccessor =? addr t then
    b ← load st (addr t);
    let new := if back b =? 0 then back b else Z.lxor (back b) (Z.land (Z.lxor new (back b)) 0xF) in
    Ok (cas st t current new (if back b =? 0 then SleepDone STATUS_TIMEOUT else SingleScan new new true) (fun last => SingleScan last new bRet))
  else
    '(st, ntf, bRet) ← scan (S (walk_fuel st)) st (addr t) pSuccessor 0 bRet;
    st ← store st pSuccessor (set_notify ntf);
    done st bRet.

(** ** RtlSleepConditionVariableCS and RtlSleepConditionVariableSRW *)

(** The exchange that queues the block. *)
Definition push_word (t : nat) (old : Z) : Z :=
  let new := Z.lor (addr t) (Z.land old YY_CV_MASK) in if YY_CV_GET_BLOCK old =? 0 then new else Z.lor new 8.

Definition push (st : state) (t : nat) (old : Z) : outcome state :=
  let prev := YY_CV_GET_BLOCK old in
  st ← store st (addr t) (fun b => set_notify (if prev =? 0 then addr t else 0) (set_back prev b));
  let new := push_word t old in
  Ok (cas st t old new (if has (Z.lxor old new) 8 then OptLoop new else SleepBtr) SleepPush).

Definition sleep_btr (st : state) (t : nat) : outcome state :=
  '(was_set, st) ← flag_reset st (addr t); Ok (go st t (if was_set : bool then SleepKeyed else SleepDone STATUS_SUCCESS)).

(** ** RtlWakeConditionVariable and RtlWakeAllConditionVariable *)
Definition wake_try (st : state) (t : nat) (current : Z) : state :=
  if current =? 0 then go st t Idle
  else if has current 8 then
    if Z.land current 7 =? 7 then go st t Idle else cas st t current (current + 1) Idle WakeTry
  else cas st t current (Z.lor current 8) (WakeLoop (current + 8) 1 no_chain Return) WakeTry.

Definition all_try (st : state) (t : nat) (current : Z) : state :=
  if (current =? 0) || (Z.land current 7 =? 7) then go st t Idle
  else if has current 8 then cas st t current (Z.lor current 7) Idle AllTry
  else cas st t current 0 (release_rest (YY_CV_GET_BLOCK current) Return) AllTry.

(** One block of the loop that releases the blocks that were taken out. *)
Definition release (st : state) (t : nat) (p : Z) (k : kont) : outcome state :=
  b ← load st p;
  '(was_set, st) ← flag_reset st p;
  Ok (go st t (if was_set : bool then release_rest (back b) k else ReleaseSet p (back b) k)).

(** ** Steps *)
(** [Sleep]: either function, with the flags that it accepts (with others
    RtlSleepConditionVariableSRW returns at once). *)
Inductive call := Sleep (shared : bool) | Wake | WakeAll.

(** What the threads, the kernel and the clock do: a call; an access; the
    meeting of NtReleaseKeyedEvent and NtWaitForKeyedEvent at the key of a
    block; the end of the time that the caller gave; the end of the five
    milliseconds of SecondWaitWorkaroundNtWaitForKeyedEvent. *)
Inductive event := Call (t : nat) (c : call) | Do (t : nat) | Meet (t u : nat) | TimeOut (u : nat) | Expire (u : nat).

Section Variable_address.

(** The address of the condition variable, which RtlpWakeSingle and
    RtlWakeAllConditionVariable use as the first value of the word. *)
Variable ConditionVariable : Z.

Definition entry (st : state) (t : nat) (c : call) : state :=
  match c with
  | Sleep shared =>
    let init b := Block (back b) (notify b) 0 (if shared then Z.lor 2 4 else 2) 0 in
    State (word st) (alter init t (blocks st)) (<[t := SleepRead]> (pcs st))
  | Wake => go st t WakeRead
  | WakeAll => go st t (AllTry ConditionVariable)
  end.

(** The access of thread [t] at [p]; [None]: it is outside or in the kernel. *)
Definition access (st : state) (t : nat) (p : pc) : option (outcome state) :=
  match p with
  | Idle | SleepKeyed | SleepAgain | ReleaseKey _ _ _ => None
  | SleepRead => Some (Ok (go st t (SleepPush (word st))))
  | SleepPush old => Some (push st t old)
  | OptLoop status => Some (optimize st t status)
  | SleepBtr => Some (sleep_btr st t)
  | SingleLoop current => Some (Ok (single_loop st t current))
  | SingleScan current new bRet => Some (single_scan st t current new bRet)
  | SleepDone _ => Some (Ok (go st t Idle))
  | WakeRead => Some (Ok (go st t (WakeTry (word st))))
  | WakeTry current => Some (Ok (wake_try st t current))
  | AllTry current => Some (Ok (all_try st t current))
  | WakeLoop status WakeCount ch k => Some (wake_round st t status WakeCount ch k)
  | Release p k => Some (release st t p k)
  | ReleaseSet p rest k => Some (st ← store st p (set_wakeup (Z.of_nat t + 1)); Ok (go st t (ReleaseKey p rest k)))
  end.

(** The thread waits at its key. *)
Definition at_key (p : pc) : bool := match p with SleepKeyed | SleepAgain => true | _ => false end.

Definition exec (e : event) (st : state) : option (outcome state) :=
  match e with
  | Call t c => match pcs st !! t with Some Idle => Some (Ok (entry st t c)) | _ => None end
  | Do t => match pcs st !! t with Some p => access st t p | None => None end
  | Meet t u =>
    match pcs st !! t, pcs st !! u with
    | Some (ReleaseKey p rest k), Some q =>
      if at_key q && (p =? addr u) then Some (Ok (go (go st u (SleepDone STATUS_SUCCESS)) t (release_rest rest k))) else None
    | _, _ => None
    end
  | TimeOut u => match pcs st !! u with Some SleepKeyed => Some (Ok (go st u (SingleLoop ConditionVariable))) | _ => None end
  | Expire u =>
    match pcs st !! u, blocks st !! u with
    | Some SleepAgain, Some b => if uWakeupThreadId b =? 0 then None else Some (Ok (go st u (SleepDone STATUS_SUCCESS)))
    | _, _ => None
    end
  end.

(** RtlInitializeConditionVariable, and [n] threads. *)
Definition RtlInitializeConditionVariable : Z := 0.

Definition initial (n : nat) : state :=
  State RtlInitializeConditionVariable (replicate n (Block 0 0 0 0 0)) (replicate n Idle).

(** The states that [n] threads reach by events that [admits] allows. *)
Inductive reachable (admits : event -> bool) (n : nat) : state -> Prop :=
| reach_start : reachable admits n (initial n)
| reach_step st e st' : reachable admits n st -> admits e = true -> exec e st = Some (Ok st') -> reachable admits n st'.

(** A list of events. *)
Fixpoint run (l : list event) (st : state) : option state :=
  match l with
  | [] => Some st
  | e :: l => match exec e st with Some (Ok st') => run l st' | _ => None end
  end.

End Variable_address.

End CondVar.
