(* ===== verification/CondVarList.v ===== *)
(** * The list of a condition variable

    The words, the links of the wait blocks, and what the loops over them do to
    the list of sleeping threads, newest first. *)
From S2P Require Import Prelude SrwWord CondVar.
Import CondVar.

Module CondVarList.

(** ** Words: the address of a block, or 0, and flags *)

Lemma word_land k f m : 0 <= f < 16 -> 0 <= m < 16 -> Z.land (16 * k + f) m = Z.land f m.
Proof. apply SrwWord.land_low. Qed.

Lemma word_block k f : 0 <= f < 16 -> YY_CV_GET_BLOCK (16 * k + f) = 16 * k.
Proof.
  intros Hf. unfold YY_CV_GET_BLOCK, YY_CV_MASK. rewrite SrwWord.ldiff_sub, word_land by lia. change 0xF with (2 ^ 4 - 1).
  rewrite land_ones_mod by lia. rewrite Z.mod_small; lia.
Qed.

(** The flags of one word in another. *)
Lemma word_merge k j f : 0 <= f < 16 -> Z.lxor (16 * k) (Z.land (Z.lxor (16 * j + f) (16 * k)) 0xF) = 16 * k + f.
Proof.
  intros Hf. assert (E : forall a b m, Z.land (Z.lxor a b) m = Z.lxor (Z.land a m) (Z.land b m)).
  { intros a b m. apply Z.bits_inj'. intros i _. rewrite !Z.land_spec, !Z.lxor_spec, !Z.land_spec. by destruct (Z.testbit a i), (Z.testbit b i), (Z.testbit m i). }
  rewrite E, word_land by lia. replace (Z.land (16 * k) 15) with 0 by (rewrite <- (Z.add_0_r (16 * k)), word_land by lia; done).
  rewrite Z.lxor_0_r. change 15 with (2 ^ 4 - 1). rewrite land_ones_mod, Z.mod_small by lia.
  rewrite Z.lxor_lor; rewrite <- (Z.add_0_r (16 * k)) at 1; [by rewrite SrwWord.lor_low by lia|by rewrite word_land by lia].
Qed.

Lemma cv_addr_inj t u : addr t = addr u -> t = u.
Proof. unfold addr. lia. Qed.

Lemma cv_addr_pos t : addr t <> 0.
Proof. unfold addr. lia. Qed.

Lemma addr_block t f : 0 <= f < 16 -> YY_CV_GET_BLOCK (addr t + f) = addr t.
Proof. intros Hf. replace (addr t) with (16 * (2 * (Z.of_nat t + 1))) by (unfold addr; lia). by apply word_block. Qed.

Lemma addr_land t f m : 0 <= f < 16 -> 0 <= m < 16 -> Z.land (addr t + f) m = Z.land f m.
Proof. replace (addr t) with (16 * (2 * (Z.of_nat t + 1))) by (unfold addr; lia). apply word_land. Qed.

Lemma cv_addr_lor t f m : 0 <= f < 16 -> 0 <= m < 16 -> Z.lor (addr t + f) m = addr t + Z.lor f m.
Proof. replace (addr t) with (16 * (2 * (Z.of_nat t + 1))) by (unfold addr; lia). apply SrwWord.lor_low. Qed.

(** A word is an address in one way only. *)
Lemma addr_flags_inj t u f g : 0 <= f < 16 -> 0 <= g < 16 -> addr t + f = addr u + g -> t = u /\ f = g.
Proof. unfold addr. lia. Qed.

(** ** Memory *)

(** The blocks as a function of the thread. *)
Definition view (st : state) (u : nat) : block := default (Block 0 0 0 0 0) (blocks st !! u).

Definition alive (st : state) (u : nat) : Prop := exists p, pcs st !! u = Some p /\ in_sleep p = true.

(** There is a block for every thread. *)
Definition sized (st : state) : Prop := length (blocks st) = length (pcs st).

Lemma cv_thread_at_addr u : thread_at (addr u) = u.
Proof. unfold thread_at, addr. rewrite Z.mul_comm, Z.div_mul by lia. lia. Qed.

Lemma deref_alive st u : alive st u -> deref st (addr u) = Ok u.
Proof. intros (p & Hp & Hs). unfold deref. rewrite cv_thread_at_addr, Z.eqb_refl, Hp, Hs. done. Qed.

Lemma alive_block st u : sized st -> alive st u -> blocks st !! u = Some (view st u).
Proof.
  intros Hs (p & Hp & _). unfold view. destruct (blocks st !! u) eqn:E; [done|]. apply lookup_ge_None in E. apply lookup_lt_Some in Hp.
  unfold sized in Hs. lia.
Qed.

Lemma load_ok st u : sized st -> alive st u -> load st (addr u) = Ok (view st u).
Proof. intros Hs Ha. unfold load. rewrite deref_alive by done. cbn. by rewrite alive_block. Qed.

(** The state after a store into a block. *)
Definition upd (st : state) (u : nat) (f : block -> block) : state := State (word st) (<[u := f (view st u)]> (blocks st)) (pcs st).

Lemma cv_store_ok st u f : sized st -> alive st u -> store st (addr u) f = Ok (upd st u f).
Proof. intros Hs Ha. unfold store. rewrite deref_alive by done. cbn. by rewrite alive_block. Qed.

Lemma view_upd st u f v : sized st -> alive st u -> view (upd st u f) v = if decide (v = u) then f (view st u) else view st v.
Proof.
  intros Hs (p & Hp & _). apply lookup_lt_Some in Hp. unfold view at 1, upd. cbn [blocks]. case_decide as E.
  - subst. rewrite list_lookup_insert_eq by (unfold sized in Hs; lia). done.
  - by rewrite list_lookup_insert_ne by done.
Qed.

(** What the loops leave as it is. *)
Record same (st st' : state) : Prop := Same {
  same_word : word st' = word st;
  same_pcs : pcs st' = pcs st;
  same_size : length (blocks st') = length (blocks st);
  same_flag : forall u, flag (view st' u) = flag (view st u) }.

Lemma same_refl st : same st st.
Proof. by split. Qed.

Lemma same_trans st1 st2 st3 : same st1 st2 -> same st2 st3 -> same st1 st3.
Proof. intros [? ? ? H1] [? ? ? H2]. split; congruence. Qed.

Lemma same_upd st u f : sized st -> alive st u -> (forall b, flag (f b) = flag b) -> same st (upd st u f).
Proof.
  intros Hs Ha Hf. split; [done|done|apply length_insert|]. intros v. rewrite view_upd by done. case_decide as E; [rewrite E; apply Hf|done].
Qed.

Lemma same_sized st st' : same st st' -> sized st -> sized st'.
Proof. intros [? Hp ? ?]. unfold sized. rewrite Hp. congruence. Qed.

Lemma same_alive st st' u : same st st' -> alive st u -> alive st' u.
Proof. intros [? Hp ? ?]. unfold alive. by rewrite Hp. Qed.

(** ** Links *)

(** From the address [p] the fields [back] lead through [l] to [v]. *)
Fixpoint seg (M : nat -> block) (p : Z) (l : list nat) (v : Z) : Prop :=
  match l with
  | [] => p = v
  | x :: l' => p = addr x /\ seg M (back (M x)) l' v
  end.

(** The fields [next] lead back from the end of [l] to [o]. *)
Fixpoint linked (M : nat -> block) (o : Z) (l : list nat) : Prop :=
  match l with
  | [] => True
  | x :: l' => next (M x) = o /\ linked M (addr x) l'
  end.

(** [next] and [notify] are good enough to find the end of the list: [notify]
    is empty up to a block where it is the last one, [next] is set behind it
    and empty or right in front of it. *)
Fixpoint good (M : nat -> block) (o : Z) (l : list nat) : Prop :=
  match l with
  | [] => False
  | x :: l' => (next (M x) = 0 \/ next (M x) = o) /\
      (notify (M x) = 0 /\ good M (addr x) l' \/ notify (M x) = addr (List.last l' x) /\ linked M (addr x) l')
  end.

Lemma seg_app M p l1 l2 v : seg M p (l1 ++ l2) v <-> exists m, seg M p l1 m /\ seg M m l2 v.
Proof.
  revert p. induction l1 as [|x l1 IH]; intros p; cbn [app seg].
  - split; [intros H; by exists p|]. by intros (m & -> & H).
  - rewrite IH. split; [intros (-> & m & H1 & H2); by exists m|]. by intros (m & (-> & H1) & H2); split; [|exists m].
Qed.

Lemma seg_ext M M' p l v : (forall x, x ∈ l -> back (M' x) = back (M x)) -> seg M p l v -> seg M' p l v.
Proof.
  revert p. induction l as [|x l IH]; intros p H; [done|]. intros [-> Hs]. split; [done|]. rewrite H by left. apply IH; [|done].
  intros y Hy. apply H. by right.
Qed.

Lemma linked_ext M M' o l : (forall x, x ∈ l -> next (M' x) = next (M x)) -> linked M o l -> linked M' o l.
Proof.
  revert o. induction l as [|x l IH]; intros o H; [done|]. intros [E Hs]. split; [rewrite H; [done|left]|]. apply IH; [|done].
  intros y Hy. apply H. by right.
Qed.

Lemma good_ext M M' o l : (forall x, x ∈ l -> next (M' x) = next (M x) /\ notify (M' x) = notify (M x)) -> good M o l -> good M' o l.
Proof.
  revert o. induction l as [|x l IH]; intros o H; [done|]. cbn [good]. destruct (H x) as [-> ->]; [left|].
  intros [E [[E' Hg]|[E' Hg]]]; (split; [done|]); [left|right]; (split; [done|]).
  - apply IH; [|done]. intros y Hy. apply H. by right.
  - apply (linked_ext M); [|done]. intros y Hy. apply H. by right.
Qed.

(** The last block of a segment gets a new successor. *)
Lemma seg_close M M' p l y v v' : NoDup (l ++ [y]) -> seg M p (l ++ [y]) v -> (forall x, x ∈ l -> back (M' x) = back (M x)) -> back (M' y) = v' ->
  seg M' p (l ++ [y]) v'.
Proof.
  intros Hnd Hs Ho Hy. apply seg_app in Hs as (m & H1 & -> & _). apply seg_app. exists (addr y). split; [|split; done]. by apply (seg_ext M).
Qed.

(** New blocks in front. *)
Definition fresh (M : nat -> block) (l : list nat) : Prop := Forall (fun x => next (M x) = 0 /\ notify (M x) = 0) l.

Lemma good_top M o l x : good M o (x :: l) -> next (M x) = 0 -> forall o', good M o' (x :: l).
Proof. intros [_ H] E o'. split; [by left|done]. Qed.

Lemma good_extend M q1 x q2 : fresh M q1 -> good M 0 (x :: q2) -> good M 0 (q1 ++ x :: q2).
Proof.
  intros Hf Hg. assert (E : next (M x) = 0) by (destruct Hg as [[? | ?] _]; done).
  assert (H : forall o, good M o (q1 ++ x :: q2)); [|apply H].
  induction Hf as [|y q1 [Hn Hy] _ IH]; intros o; [by apply (good_top M 0)|]. split; [by left|]. left. split; [done|]. apply IH.
Qed.

Lemma last_shift (l : list nat) y d : List.last (y :: l) d = List.last l y.
Proof. revert y d. induction l as [|z l IH]; intros y d; [done|]. change (List.last (y :: z :: l) d) with (List.last (z :: l) d). by rewrite !IH. Qed.

Definition is_nil {A} (l : list A) : bool := match l with [] => true | _ => false end.

(** ** The loop that looks for the first block *)

(** What [walk] leaves behind: it only writes [next]. *)
Record walked (st st' : state) (l : list nat) : Prop := Walked {
  walked_same : same st st';
  walked_back : forall u, back (view st' u) = back (view st u);
  walked_notify : forall u, notify (view st' u) = notify (view st u);
  walked_frame : forall u, u ∉ l -> view st' u = view st u }.

Lemma walked_refl st l : walked st st l.
Proof. split; [apply same_refl|done..]. Qed.

Lemma walk_ok fuel st o x l : sized st -> (forall u, u ∈ x :: l -> alive st u) -> NoDup (x :: l) -> seg (view st) (addr x) (x :: l) 0 ->
  good (view st) o (x :: l) -> (length l < fuel)%nat ->
  exists st' y, walk fuel st (addr x) = Ok (st', addr y) /\ walked st st' l /\ (y ∈ x :: l) /\ notify (view st' y) = addr (List.last l x) /\
    linked (view st') (next (view st x)) (x :: l) /\ good (view st') o (x :: l).
Proof.
  revert st o x l. induction fuel as [|fuel IH]; intros st o x l Hs Ha Hnd Hseg Hg Hf; [lia|]. cbn [walk].
  rewrite load_ok by (try done; apply Ha; left). cbn [mbind outcome_bind]. destruct Hg as [Hn [[Hz Hg]|[Hz Hl]]].
  2: { rewrite Hz. rewrite (proj2 (Z.eqb_neq _ 0)) by apply cv_addr_pos. exists st, x. split_and!; [done|apply walked_refl|left|done|done|]. split; [done|by right]. }
  rewrite Hz, Z.eqb_refl. destruct l as [|x' l]; [done|]. destruct Hseg as (_ & Hb & Hseg). rewrite Hb.
  assert (Hax : alive st x') by (apply Ha; right; left). rewrite cv_store_ok by done. cbn [mbind outcome_bind].
  set (st1 := upd st x' (set_next (addr x))). assert (Hv : forall v, view st1 v = if decide (v = x') then set_next (addr x) (view st x') else view st v) by (intros v; by apply view_upd).
  assert (Hsame : same st st1) by (by apply same_upd). apply NoDup_cons in Hnd as [Hxl Hnd].
  assert (Hx'x : x <> x') by (intros ->; apply Hxl; left).
  destruct (IH st1 (addr x) x' l) as (st2 & y & -> & [Hw1 Hw2 Hw3 Hw4] & Hy & Hny & Hlk & Hg2); try done.
  - by apply (same_sized st).
  - intros u Hu. apply (same_alive st); [done|]. apply Ha. by right.
  - split; [done|]. rewrite Hv, decide_True by done. cbn [set_next back]. apply (seg_ext (view st)); [|done].
    intros v Hvl. rewrite Hv. case_decide as E; [by subst|done].
  - destruct Hg as [_ Hg]. cbn [good]. rewrite Hv, decide_True by done. cbn [set_next next notify]. split; [by right|].
    assert (Hne : forall v, v ∈ l -> view st1 v = view st v).
    { intros v Hvl. rewrite Hv, decide_False; [done|]. intros ->. by apply NoDup_cons in Hnd as [? _]. }
    destruct Hg as [[E Hg]|[E Hg]]; [left|right]; (split; [done|]); [apply (good_ext (view st))|apply (linked_ext (view st))]; try done;
      intros v Hvl; by rewrite Hne.
  - cbn in Hf |- *. lia.
  - assert (Hvx : view st2 x = view st x).
    { rewrite Hw4, Hv, decide_False; [done|done|]. intros Hxx. apply Hxl. by right. }
    exists st2, y. split_and!; [done| |by right| | |].
    + split; [by eapply same_trans| | |].
      * intros u. rewrite Hw2, Hv. case_decide as E; [by subst|done].
      * intros u. rewrite Hw3, Hv. case_decide as E; [by subst|done].
      * intros u Hu. rewrite Hw4, Hv, decide_False; [done|intros ->; apply Hu; left|]. intros Hul. apply Hu. by right.
    + by rewrite last_shift.
    + split; [by rewrite Hvx|]. rewrite Hv, decide_True in Hlk by done. done.
    + split; [by rewrite Hvx|]. left. by rewrite Hvx.
Qed.

(** ** The loop that takes blocks out *)

(** The blocks [w] that have been taken out, in order. *)
Definition taken (st : state) (ch : chain) (w : list nat) : Prop := seg (view st) (pWake ch) w 0 /\ ppInsert ch = addr <$> last w.

Lemma cons_snoc (h : nat) m : exists l, h :: m = l ++ [List.last m h].
Proof. revert h. induction m as [|x m IH]; intros h; [by exists []|]. rewrite last_shift. destruct (IH x) as [l E]. exists (h :: l). cbn [app]. by rewrite <- E. Qed.

Lemma cv_linked_app M o l y z : linked M o (l ++ [y; z]) -> next (M z) = addr y /\ linked M o (l ++ [y]).
Proof. revert o. induction l as [|x l IH]; intros o; cbn [app linked]; [tauto|]. intros [? ?%IH]. tauto. Qed.

Lemma insert_ok st ch w v : sized st -> (forall u, u ∈ w -> alive st u) -> NoDup w -> taken st ch w ->
  exists st' ch', insert_at st ch v = Ok (st', ch') /\ same st st' /\ (forall u, u ∉ w -> view st' u = view st u) /\
    (forall u, next (view st' u) = next (view st u) /\ notify (view st' u) = notify (view st u)) /\
    seg (view st') (pWake ch') w v /\ Count ch' = Count ch.
Proof.
  intros Hs Ha Hnd [Hseg Hp]. unfold insert_at. rewrite Hp. destruct (last w) as [z|] eqn:Hz; cbn [fmap option_fmap option_map].
  - assert (Hzw : z ∈ w) by (by apply last_Some_elem_of). rewrite cv_store_ok by (try done; by apply Ha). cbn [mbind outcome_bind].
    assert (Hv : forall u, view (upd st z (set_back v)) u = if decide (u = z) then set_back v (view st z) else view st u) by (intros u; apply view_upd; [done|by apply Ha]).
    eexists _, _. split; [reflexivity|]. split_and!.
    + apply same_upd; [done|by apply Ha|done].
    + intros u Hu. rewrite Hv, decide_False; [done|]. by intros ->.
    + intros u. rewrite Hv. case_decide as E; [by subst|done].
    + apply last_Some in Hz as [l ->]. apply (seg_close (view st) _ _ _ _ 0); [done|done| |by rewrite Hv, decide_True].
      intros x Hx. rewrite Hv, decide_False; [done|]. intros ->. apply NoDup_app in Hnd as (_ & Hnd & _). apply (Hnd z Hx). left.
    + done.
  - apply last_None in Hz as ->. eexists _, _. split; [reflexivity|]. by split_and!; [apply same_refl|..].
Qed.

(** What one round leaves of the list [h :: m], and takes out of it. *)
Record dequeued (st st' : state) (h : nat) (m m1 w : list nat) (ch ch' : chain) (d : list nat) : Prop := Dequeued {
  deq_split : m = m1 ++ d;
  deq_same : same st st';
  deq_frame : forall u, u ∉ h :: m ++ w -> view st' u = view st u;
  deq_seg : seg (view st') (addr h) (h :: m1) 0;
  deq_linked : linked (view st') 0 (h :: m1);
  deq_taken : taken st' ch' (w ++ rev d);
  deq_count : Count ch' = Count ch + Z.of_nat (length d);
  deq_notify : if is_nil d then st' = st else notify (view st' h) = addr (List.last m1 h) }.

Section Take_one.

Context (st : state) (h : nat) (m : list nat) (z : nat) (w : list nat) (ch : chain).
Hypothesis (Hs : sized st) (Ha : forall u, u ∈ h :: (m ++ [z]) ++ w -> alive st u) (Hnd : NoDup (h :: (m ++ [z]) ++ w)).
Hypothesis (Hseg : seg (view st) (addr h) (h :: m ++ [z]) 0) (Hl : linked (view st) 0 (h :: m ++ [z])) (Ht : taken st ch w).

Let y : nat := List.last m h.

Lemma one_member : y ∈ h :: m.
Proof. destruct (cons_snoc h m) as [l ->]. fold y. set_solver. Qed.

Lemma one_next : next (view st z) = addr y /\ linked (view st) 0 (h :: m).
Proof.
  destruct (cons_snoc h m) as [l E]. fold y in E. rewrite E. rewrite app_comm_cons, E, <- app_assoc in Hl. by apply cv_linked_app in Hl.
Qed.

Lemma one_apart : (z ∉ h :: m) /\ (z ∉ w) /\ (forall u, u ∈ h :: m -> u ∉ w) /\ NoDup (h :: m) /\ NoDup w.
Proof.
  assert (H : NoDup ((h :: m) ++ z :: w)) by (cbn [app]; by rewrite <- app_assoc in Hnd). apply NoDup_app in H as (H1 & H2 & H3).
  apply NoDup_cons in H3 as [H3 H4]. split_and!; [|done| |done|done].
  - intros Hz. apply (H2 z Hz). left.
  - intros u Hu Hw. apply (H2 u Hu). by right.
Qed.

(** One round of the loop. *)
Lemma take_one : exists st1 ch1 st2 st3 st4, insert_at st ch (addr z) = Ok (st1, ch1) /\ store st1 (addr z) (set_back 0) = Ok st2 /\
  load st2 (addr z) = Ok (view st2 z) /\ next (view st2 z) = addr y /\ store st2 (addr h) (set_notify (addr y)) = Ok st3 /\
  store st3 (addr y) (set_back 0) = Ok st4 /\
  dequeued st st4 h (m ++ [z]) m w ch (Chain (pWake ch1) (Some (addr z)) (Count ch1 + 1)) [z].
Proof.
  destruct one_next as [Hzn Hlm]. destruct one_apart as (Hzm & Hzw & Hmw & Hndm & Hndw). pose proof one_member as Hym.
  destruct (cons_snoc h m) as [l E]. fold y in E. assert (Ey : List.last m h = y) by done. clearbody y.
  assert (Hal : alive st z /\ alive st h /\ alive st y) by (split_and!; apply Ha; set_solver). destruct Hal as (Haz & Hah & Hay).
  destruct (insert_ok st ch w (addr z)) as (st1 & ch1 & E1 & S1 & F1 & N1 & G1 & C1); [done|intros u Hu; apply Ha; set_solver|done|done|].
  assert (Hs1 : sized st1) by (by apply (same_sized st)). assert (A1 : forall u, alive st u -> alive st1 u) by (intros u; by apply same_alive).
  set (st2 := upd st1 z (set_back 0)). assert (S2 : same st1 st2) by (apply same_upd; auto). assert (Hs2 : sized st2) by (by apply (same_sized st1)).
  set (st3 := upd st2 h (set_notify (addr y))). assert (S3 : same st2 st3) by (apply same_upd; eauto using same_alive). assert (Hs3 : sized st3) by (by apply (same_sized st2)).
  set (st4 := upd st3 y (set_back 0)). assert (S4 : same st3 st4) by (apply same_upd; eauto using same_alive).
  assert (V2 : forall u, view st2 u = if decide (u = z) then set_back 0 (view st1 z) else view st1 u) by (intros u; apply view_upd; auto).
  assert (V3 : forall u, view st3 u = if decide (u = h) then set_notify (addr y) (view st2 h) else view st2 u) by (intros u; apply view_upd; eauto using same_alive).
  assert (V4 : forall u, view st4 u = if decide (u = y) then set_back 0 (view st3 y) else view st3 u) by (intros u; apply view_upd; eauto using same_alive).
  assert (HN : forall u, next (view st4 u) = next (view st u)).
  { intros u. destruct (N1 u) as [<- _]. rewrite V4. case_decide; subst; cbn; rewrite V3; case_decide; subst; cbn; rewrite V2; case_decide; subst; cbn; congruence. }
  assert (HB : forall u, back (view st4 u) = if decide (u = y) then 0 else if decide (u = z) then 0 else back (view st1 u)).
  { intros u. rewrite V4. case_decide as E1'; subst; [done|]. rewrite V3. case_decide as E'; subst; cbn; rewrite V2; case_decide; subst; done. }
  exists st1, ch1, st2, st3, st4. split_and!; [done|apply cv_store_ok; auto|apply load_ok; eauto using same_alive| |apply cv_store_ok; eauto using same_alive|apply cv_store_ok; eauto using same_alive|].
  { rewrite V2, decide_True by done. cbn. by rewrite (proj1 (N1 z)). }
  split.
  - done.
  - eauto using same_trans.
  - intros u Hu. rewrite V4, decide_False by set_solver. rewrite V3, decide_False by set_solver. rewrite V2, decide_False by set_solver. apply F1. set_solver.
  - rewrite E. rewrite E in Hndm. pose proof Hseg as Hseg0. rewrite app_comm_cons, E in Hseg0.
    apply seg_app in Hseg0 as (m' & Hseg' & _). apply (seg_close (view st) _ _ _ _ m'); [done|done| |by rewrite HB, decide_True].
    intros x Hx. assert (Hxm : x ∈ h :: m) by (rewrite E; set_solver). apply NoDup_app in Hndm as (_ & Hndm & _).
    rewrite HB, !decide_False; [by rewrite F1 by (by apply Hmw)|set_solver|]. intros ->. apply (Hndm y Hx). left.
  - apply (linked_ext (view st)); [done|done].
  - split; cbn [pWake ppInsert rev app]; [|by rewrite last_snoc]. apply seg_app. exists (addr z). split; [|split; [done|]].
    + apply (seg_ext (view st1)); [|done]. intros x Hx. rewrite HB, !decide_False; [done|set_solver|]. intros ->. by apply (Hmw y).
    + rewrite HB. rewrite decide_False by (intros ->; done). by rewrite decide_True.
  - cbn [Count length]. lia.
  - cbn [is_nil]. rewrite Ey, V4. case_decide as E'; [subst; cbn; rewrite V3|rewrite V3]; by rewrite decide_True.
Qed.

End Take_one.

Lemma dequeued_trans st st1 st2 h m z m1 w ch ch1 ch2 d :
  dequeued st st1 h (m ++ [z]) m w ch ch1 [z] -> dequeued st1 st2 h m m1 (w ++ [z]) ch1 ch2 d -> dequeued st st2 h (m ++ [z]) m1 w ch ch2 (d ++ [z]).
Proof.
  intros [_ S1 F1 _ _ _ C1 N1] [-> S2 F2 G2 L2 T2 C2 N2]. split; [by rewrite <- app_assoc|by eapply same_trans| |done|done| | |].
  - intros u Hu. rewrite F2, F1; [done|done|]. set_solver.
  - rewrite rev_app_distr. cbn [rev app]. by rewrite <- app_assoc in T2.
  - rewrite C2, C1, length_app. cbn [length]. lia.
  - replace (is_nil (d ++ [z])) with false by (by destruct d). destruct d; cbn [is_nil] in *; [|done]. subst st2. by rewrite app_nil_r in *.
Qed.

Lemma dequeue_ok fuel st h m Max ch w : sized st -> (forall u, u ∈ h :: m ++ w -> alive st u) -> NoDup (h :: m ++ w) ->
  seg (view st) (addr h) (h :: m) 0 -> linked (view st) 0 (h :: m) -> taken st ch w -> (length m < fuel)%nat ->
  exists st' m1 d ch', dequeue fuel st (addr h) (addr (List.last m h)) Max ch = Ok (st', addr (List.last m1 h), ch') /\
    dequeued st st' h m m1 w ch ch' d /\ (Max <= Count ch' \/ m1 = []) /\ Count ch' <= Z.max (Count ch) Max.
Proof.
  revert st m ch w. induction fuel as [|fuel IH]; intros st m ch w Hs Ha Hnd Hseg Hl Ht Hf; [lia|]. cbn [dequeue].
  assert (Hstop : dequeued st st h m m w ch ch []).
  { split; [by rewrite app_nil_r|apply same_refl|done|done|done|cbn [rev]; by rewrite app_nil_r|cbn; lia|done]. }
  destruct (Z.ltb_spec (Count ch) Max) as [HM|HM]; [|exists st, m, [], ch; split_and!; [done|done|by left|lia]].
  destruct m as [|z m _] using rev_ind.
  { cbn [List.last]. rewrite load_ok by (try done; apply Ha; left). cbn [mbind outcome_bind]. destruct Hl as [-> _]. rewrite Z.eqb_refl.
    exists st, [], [], ch. split_and!; [done|done|by right|lia]. }
  clear Hstop. rewrite last_last. rewrite load_ok by (try done; apply Ha; set_solver). cbn [mbind outcome_bind].
  rewrite (proj1 (one_next st h m z Hl)), (proj2 (Z.eqb_neq _ 0)) by apply cv_addr_pos.
  destruct (take_one st h m z w ch) as (st1 & ch1 & st2 & st3 & st4 & -> & H2 & H3 & H4 & H5 & H6 & HD); try done.
  cbn [mbind outcome_bind]. rewrite H2. cbn [mbind outcome_bind]. rewrite H3. cbn [mbind outcome_bind]. rewrite H4, H5. cbn [mbind outcome_bind]. rewrite H6.
  cbn [mbind outcome_bind]. pose proof HD as [_ S F G L T C N].
  destruct (IH st4 m (Chain (pWake ch1) (Some (addr z)) (Count ch1 + 1)) (w ++ [z])) as (st' & m1 & d & ch' & E & HD2 & Hend & Hmax); try done.
  - by apply (same_sized st).
  - intros u Hu. apply (same_alive st); [done|]. apply Ha. set_solver.
  - rewrite <- app_assoc in Hnd. by rewrite (Permutation_app_comm w [z]).
  - rewrite length_app in Hf. cbn in Hf. lia.
  - exists st', m1, (d ++ [z]), ch'. split_and!; [done|by eapply dequeued_trans|done|]. cbn [Count length] in *. lia.
Qed.

(** ** The loop that removes a block *)

Definition head_addr (l : list nat) : Z := match l with [] => 0 | x :: _ => addr x end.
Definition last_addr (l : list nat) : Z := match last l with Some z => addr z | None => 0 end.

(** The list without one thread. *)
Definition without (me : nat) (l : list nat) : list nat := filter (fun u => u <> me) l.

Lemma seg_head M p l : seg M p l 0 -> p = head_addr l.
Proof. destruct l; [done|by intros [-> _]]. Qed.

Lemma linked_snoc M l x : linked M 0 l -> next (M x) = last_addr l -> linked M 0 (l ++ [x]).
Proof.
  assert (H : forall o, linked M o l -> next (M x) = match last l with Some z => addr z | None => o end -> linked M o (l ++ [x])); [|intros; by apply H].
  induction l as [|y l IH]; intros o; [done|]. intros [E Hl] Hn. split; [done|]. apply IH; [done|]. rewrite Hn, last_cons. by destruct (last l).
Qed.

Lemma without_here me l : me ∉ l -> without me l = l.
Proof. intros H. unfold without. induction l as [|x l IH]; [done|]. rewrite filter_cons_True by set_solver. rewrite IH; [done|set_solver]. Qed.

Record scanned (st st' : state) (l : list nat) (p : Z) (l' : list nat) : Prop := Scanned {
  scan_same : same st st';
  scan_frame : forall u, u ∉ l -> view st' u = view st u;
  scan_seg : seg (view st') p l' 0;
  scan_linked : linked (view st') 0 l' }.

Section Scan.

Context (st : state) (me : nat) (p : Z) (l1 : list nat) (x : nat) (l2 : list nat).
Hypothesis (Hs : sized st) (Ha : forall u, u ∈ l1 ++ x :: l2 -> alive st u) (Hnd : NoDup (l1 ++ x :: l2)).
Hypothesis (Hseg : seg (view st) p (l1 ++ x :: l2) 0) (Hl : linked (view st) 0 l1).

Lemma scan_parts : back (view st x) = head_addr l2 /\ (x ∉ l1) /\ (x ∉ l2) /\ NoDup l1 /\ NoDup l2 /\ (forall u, u ∈ l1 -> u ∉ l2) /\
  seg (view st) p l1 (addr x) /\ seg (view st) (head_addr l2) l2 0.
Proof.
  pose proof Hseg as Hs'. apply seg_app in Hs' as (v & Hs1 & -> & Hs2). pose proof (seg_head _ _ _ Hs2) as Hb. rewrite Hb in Hs2.
  pose proof Hnd as Hnd'. apply NoDup_app in Hnd' as (Hn1 & Hn12 & Hn2). apply NoDup_cons in Hn2 as [Hx2 Hn2]. split_and!; try done.
  - intros Hx. apply (Hn12 x Hx). left.
  - intros u Hu Hu'. apply (Hn12 u Hu). by right.
Qed.

(** Another block: [next] is written. *)
Lemma scan_pass : let st1 := upd st x (set_next (last_addr l1)) in
  same st st1 /\ (forall u, u <> x -> view st1 u = view st u) /\ seg (view st1) p ((l1 ++ [x]) ++ l2) 0 /\ linked (view st1) 0 (l1 ++ [x]).
Proof.
  destruct scan_parts as (_ & Hx1 & _). assert (Hax : alive st x) by (apply Ha; apply elem_of_app; right; left). cbn zeta. set (st1 := upd _ _ _).
  assert (V : forall u, view st1 u = if decide (u = x) then set_next (last_addr l1) (view st x) else view st u) by (intros u; by apply view_upd).
  split_and!; [by apply same_upd|intros u Hu; by rewrite V, decide_False| |].
  - rewrite <- app_assoc. apply (seg_ext (view st)); [|done]. intros y _. rewrite V. case_decide as E; [by rewrite E|done].
  - apply linked_snoc; [|by rewrite V, decide_True]. apply (linked_ext (view st)); [|done]. intros y Hy. rewrite V, decide_False; [done|]. by intros ->.
Qed.

(** The block itself: the one in front of it leads past it. *)
Lemma scan_unlink z : last l1 = Some z -> let st1 := upd st z (set_back (head_addr l2)) in
  same st st1 /\ (forall u, u ∉ l1 -> view st1 u = view st u) /\ seg (view st1) p (l1 ++ l2) 0 /\ linked (view st1) 0 l1.
Proof.
  intros Hz. destruct scan_parts as (_ & _ & _ & Hn1 & _ & Hn12 & Hs1 & Hs2). assert (Hzl : z ∈ l1) by (by apply last_Some_elem_of).
  assert (Haz : alive st z) by (apply Ha; apply elem_of_app; by left). cbn zeta. set (st1 := upd _ _ _).
  assert (V : forall u, view st1 u = if decide (u = z) then set_back (head_addr l2) (view st z) else view st u) by (intros u; by apply view_upd).
  split_and!; [by apply same_upd|intros u Hu; rewrite V, decide_False; [done|]; by intros ->| |].
  - apply seg_app. exists (head_addr l2). split.
    + apply last_Some in Hz as [l0 ->]. apply (seg_close (view st) _ _ _ _ (addr x)); [done|done| |by rewrite V, decide_True]. intros y Hy. rewrite V, decide_False; [done|].
      intros ->. apply NoDup_app in Hn1 as (_ & Hn1 & _). apply (Hn1 z Hy). left.
    + apply (seg_ext (view st)); [|done]. intros y Hy. rewrite V, decide_False; [done|]. intros ->. by apply (Hn12 z).
  - apply (linked_ext (view st)); [|done]. intros y _. rewrite V. case_decide as E; [by rewrite E|done].
Qed.

End Scan.

Lemma scan_ok fuel st me p l1 l2 bRet : sized st -> (forall u, u ∈ l1 ++ l2 -> alive st u) -> NoDup (l1 ++ l2) ->
  seg (view st) p (l1 ++ l2) 0 -> linked (view st) 0 l1 -> (l1 = [] -> head l2 <> Some me) -> (length l2 < fuel)%nat ->
  let l' := l1 ++ without me l2 in
  exists st', scan fuel st (addr me) (head_addr l2) (last_addr l1) bRet = Ok (st', last_addr l', bRet || bool_decide (me ∈ l2)) /\
    scanned st st' (l1 ++ l2) p l'.
Proof.
  revert st l1 l2 bRet. induction fuel as [|fuel IH]; intros st l1 l2 bRet Hs Ha Hnd Hseg Hl Hme Hf; [lia|]. cbn [scan]. cbn zeta.
  destruct l2 as [|x l2]; cbn [head_addr].
  { unfold without. rewrite filter_nil, app_nil_r in *. rewrite bool_decide_false, orb_false_r by set_solver.
    exists st. split; [done|]. split; [apply same_refl|done|done|done]. }
  rewrite (proj2 (Z.eqb_neq _ 0)) by apply cv_addr_pos. assert (Hax : alive st x) by (apply Ha; set_solver). rewrite load_ok by done. cbn [mbind outcome_bind].
  destruct (scan_parts st p l1 x l2 Hnd Hseg) as (Hb & Hx1 & Hx2 & Hn1 & Hn2 & Hn12 & _). rewrite Hb.
  destruct (Z.eqb_spec (addr x) (addr me)) as [->%cv_addr_inj|Hne].
  - destruct (last l1) as [z|] eqn:Hz; [|apply last_None in Hz as ->; by destruct Hme].
    assert (Hlast : last_addr l1 = addr z) by (unfold last_addr; by rewrite Hz). rewrite Hlast.
    assert (Haz : alive st z) by (apply Ha, elem_of_app; left; by apply last_Some_elem_of). rewrite cv_store_ok by done. cbn [mbind outcome_bind].
    destruct (scan_unlink st p l1 me l2 Hs Ha Hnd Hseg Hl z Hz) as (S1 & F1 & G1 & L1). set (st1 := upd st z _) in *. assert (Hs1 : sized st1) by (by apply (same_sized st)).
    assert (W : without me (me :: l2) = l2) by (unfold without; rewrite filter_cons_False by auto; by apply without_here).
    rewrite W, bool_decide_true, orb_true_r by left. destruct l2 as [|x' l2]; cbn [head_addr].
    + rewrite Z.eqb_refl. exists st1. rewrite app_nil_r in *. split; [by rewrite Hlast|]. split; [done| |done|done]. intros u Hu. apply F1. intros Hu'. apply Hu, elem_of_app. by left.
    + rewrite (proj2 (Z.eqb_neq _ 0)) by apply cv_addr_pos. assert (Hax' : alive st1 x') by (apply (same_alive st); [done|]; apply Ha; set_solver).
      assert (Hnd1 : NoDup (l1 ++ x' :: l2)) by (by apply NoDup_app).
      assert (Ha1 : forall u, u ∈ l1 ++ x' :: l2 -> alive st1 u) by (intros u Hu; apply (same_alive st); [done|]; apply Ha; clear -Hu; set_solver).
      rewrite <- Hlast. rewrite cv_store_ok by done. cbn [mbind outcome_bind]. destruct (scan_pass st1 p l1 x' l2 Hs1 Ha1 Hnd1 G1 L1) as (S2 & F2 & G2 & L2). set (st2 := upd st1 x' _) in *.
      destruct (IH st2 l1 (x' :: l2) true) as (st' & E & [S' F' G' L']).
      * by apply (same_sized st1).
      * intros u Hu. apply (same_alive st1); auto.
      * done.
      * by rewrite <- app_assoc in G2.
      * apply (linked_ext (view st1)); [|done]. intros y Hy. rewrite F2; [done|]. intros ->. apply (Hn12 x' Hy). left.
      * intros ->. done.
      * cbn in Hf |- *. lia.
      * cbn [head_addr] in E. rewrite (without_here me (x' :: l2) Hx2) in *. exists st'. split; [done|]. split; [eauto using same_trans| |done|done].
        intros u Hu. assert (Hu' : (u ∉ l1) /\ u <> x' /\ (u ∉ l1 ++ x' :: l2)) by (clear -Hu; set_solver). destruct Hu' as (Hu1 & Hu2 & Hu3). by rewrite F', F2, F1.
  - assert (Hxme : x <> me) by (intros ->; done). rewrite cv_store_ok by done. cbn [mbind outcome_bind].
    destruct (scan_pass st p l1 x l2 Hs Ha Hnd Hseg Hl) as (S1 & F1 & G1 & L1). set (st1 := upd st x _) in *.
    assert (EL : last_addr (l1 ++ [x]) = addr x) by (unfold last_addr; by rewrite last_snoc).
    assert (W : l1 ++ without me (x :: l2) = (l1 ++ [x]) ++ without me l2) by (unfold without; rewrite filter_cons_True by done; by rewrite <- app_assoc).
    destruct (IH st1 (l1 ++ [x]) l2 bRet) as (st' & E & [S' F' G' L']); try done; [by apply (same_sized st)|by rewrite <- app_assoc|by rewrite <- app_assoc|by intros []%app_nil|cbn in Hf; lia|].
    rewrite EL in E. exists st'. rewrite W. split; [rewrite E; do 2 f_equal; f_equal; apply bool_decide_ext; set_solver|].
    rewrite <- app_assoc in F'. split; [by eapply same_trans| |done|done].
    intros u Hu. rewrite F' by done. apply F1. intros ->. apply Hu, elem_of_app. right. left.
Qed.

End CondVarList.
