(* ===== verification/CondVarInv.v ===== *)
(** * Condition variables: the invariant

    The list of the variable is a queue of threads; the blocks that a waking
    thread has taken out are a second list, of its own.  Every thread that
    sleeps is in one of them. *)
From stdpp Require Import functions.
From S2P Require Import Prelude CondVar CondVarList.
Import CondVar CondVarList.

Module CondVarInv.

(** ** The queue and its owner *)

(** The word of a queue with flags. *)
Definition word_of (q : list nat) (f : Z) : Z := match q with [] => 0 | x :: _ => addr x + f end.

(** The thread has set the bit 8. *)
Definition holding (p : pc) : bool := match p with OptLoop _ | SingleScan _ _ _ | WakeLoop _ _ _ _ => true | _ => false end.

(** A status that the owner has read: the queue as it was then, and new blocks
    in front of it. *)
Definition cut (M : nat -> block) (q : list nat) (s : Z) (P : list nat -> Prop) : Prop :=
  exists q1 x q2 g, q = q1 ++ x :: q2 /\ s = addr x + g /\ 8 <= g < 16 /\ fresh M q1 /\ P (x :: q2).

(** What the owner [h] of the list relies on. *)
Definition holds (M : nat -> block) (q : list nat) (h : nat) (p : pc) : Prop :=
  match p with
  | OptLoop s | WakeLoop s _ _ _ => cut M q s (good M 0)
  | SingleScan s n _ => cut M q s (fun l => h ∈ q -> h ∈ l) /\ ((exists j g, n = 16 * j + g /\ 8 <= g < 16) \/ last q = Some h)
  | _ => False
  end.

Definition lock_ok (ps : list pc) (M : nat -> block) (q : list nat) (f : Z) : Prop :=
  (f = 0 /\ (forall t p, ps !! t = Some p -> holding p = false) /\ (q = [] \/ good M 0 q)) \/
  (8 <= f < 16 /\ exists h p, ps !! h = Some p /\ holds M q h p /\ forall t p', t <> h -> ps !! t = Some p' -> holding p' = false).

(** The blocks [o] that a thread has taken out and has not released. *)
Definition owes (M : nat -> block) (p : pc) (o : list nat) : Prop :=
  match p with
  | WakeLoop _ _ ch _ => seg M (pWake ch) o 0 /\ ppInsert ch = addr <$> last o
  | Release p _ => seg M p o 0 /\ o <> []
  | ReleaseSet p r _ | ReleaseKey p r _ => exists u o', o = u :: o' /\ p = addr u /\ seg M r o' 0 /\ has (flag (M u)) 2 = false
  | _ => o = []
  end.

(** ** The threads *)

(** Outside of the lists; queued, the flag says whether it still is; in the
    kernel or on the way to it again; taken out for certain. *)
Inductive phase := Out | Pushed | Asleep | Owed.

Definition phase_of (p : pc) : phase :=
  match p with
  | OptLoop _ | SleepBtr => Pushed
  | SleepKeyed | SingleLoop _ | SleepAgain => Asleep
  | SingleScan _ _ bRet => if bRet then Out else Asleep
  | WakeLoop _ _ _ k | Release _ k | ReleaseSet _ _ k | ReleaseKey _ _ k =>
    match k with Return => Out | ToWait => Pushed | FromSingle bRet => if bRet then Out else Owed end
  | _ => Out
  end.

Definition listed (q : list nat) (O : nat -> list nat) (u : nat) : Prop := u ∈ q \/ exists t, u ∈ O t.

Definition phase_ok (M : nat -> block) (q : list nat) (O : nat -> list nat) (u : nat) (ph : phase) : Prop :=
  match ph with
  | Out => ~ listed q O u
  | Pushed => if has (flag (M u)) 2 then listed q O u else ~ listed q O u
  | Asleep => has (flag (M u)) 2 = false /\ listed q O u
  | Owed => has (flag (M u)) 2 = false /\ exists t, u ∈ O t
  end.

(** A block that is about to be queued. *)
Definition ready (M : nat -> block) (u : nat) (p : pc) : Prop :=
  match p with SleepRead | SleepPush _ => has (flag (M u)) 2 = true /\ next (M u) = 0 | _ => True end.

Definition thread_fine (st : state) (q : list nat) (O : nat -> list nat) (u : nat) : Prop :=
  match pcs st !! u with Some p => phase_ok (view st) q O u (phase_of p) /\ ready (view st) u p | None => ~ listed q O u end.

Record inv (st : state) (q : list nat) (f : Z) (O : nat -> list nat) : Prop := Inv {
  i_size : sized st;
  i_word : word st = word_of q f;
  i_seg : seg (view st) (head_addr q) q 0;
  i_nodup : NoDup q;
  i_lock : lock_ok (pcs st) (view st) q f;
  i_owes : forall t p, pcs st !! t = Some p -> owes (view st) p (O t) /\ NoDup (O t);
  i_none : forall t, pcs st !! t = None -> O t = [];
  i_apart : forall t u, u ∈ O t -> u ∉ q;
  i_once : forall t t' u, u ∈ O t -> u ∈ O t' -> t = t';
  i_thread : forall u, thread_fine st q O u }.

Lemma listed_alive st q f O u : inv st q f O -> listed q O u -> alive st u.
Proof.
  intros H Hl. pose proof (i_thread _ _ _ _ H u) as Ht. unfold thread_fine in Ht. destruct (pcs st !! u) as [p|] eqn:E; [|done].
  exists p. split; [done|]. destruct Ht as [Ht _]. destruct p; try done; destruct k; try done.
Qed.

Lemma listed_queue q O u : u ∈ q -> listed q O u.
Proof. by left. Qed.

Lemma listed_owed q (O : nat -> list nat) t u : u ∈ O t -> listed q O u.
Proof. right. by exists t. Qed.

(** The flags of the word are a small number. *)
Lemma lock_flags ps M q f : lock_ok ps M q f -> 0 <= f < 16.
Proof. intros [[-> _]|[? _]]; lia. Qed.

(** ** Steps of one thread *)

(** The blocks that a thread has taken out are still as it needs them. *)
Lemma owes_ext M M' p o : (forall u, u ∈ o -> back (M' u) = back (M u) /\ (has (flag (M u)) 2 = false -> has (flag (M' u)) 2 = false)) -> owes M p o -> owes M' p o.
Proof.
  intros He. assert (Hs : forall v l, (forall u, u ∈ l -> u ∈ o) -> seg M v l 0 -> seg M' v l 0).
  { intros v l Hl. apply seg_ext. intros x Hx. by apply He, Hl. }
  destruct p; cbn [owes]; try done.
  - intros [? ?]. split; [by apply Hs|done].
  - intros [? ?]. split; [by apply Hs|done].
  - intros (u & o' & -> & -> & ? & ?). exists u, o'. split_and!; [done|done|apply Hs; [intros x Hx; by right|done]|apply He; [left|done]].
  - intros (u & o' & -> & -> & ? & ?). exists u, o'. split_and!; [done|done|apply Hs; [intros x Hx; by right|done]|apply He; [left|done]].
Qed.

(** A step of [t] that changes the lists of the variable and its own, and
    perhaps where a thread without such a list is. *)
Lemma inv_core st st' q f O t p' q' f' o' : inv st q f O -> pcs st' !! t = Some p' -> let O' := <[t := o']> O in
  sized st' -> word st' = word_of q' f' -> seg (view st') (head_addr q') q' 0 -> NoDup q' -> lock_ok (pcs st') (view st') q' f' ->
  owes (view st') p' o' -> NoDup o' -> (forall u, u ∈ o' -> u ∉ q') ->
  (forall t' u, t' <> t -> u ∈ O t' -> (u ∉ q') /\ (u ∉ o')) ->
  (forall t' u, t' <> t -> u ∈ O t' -> back (view st' u) = back (view st u) /\ (has (flag (view st u)) 2 = false -> has (flag (view st' u)) 2 = false)) ->
  (forall t', t' <> t -> pcs st' !! t' = pcs st !! t' \/ O t' = [] /\ exists p, pcs st' !! t' = Some p /\ owes (view st') p []) ->
  (forall u, thread_fine st' q' O' u) -> inv st' q' f' O'.
Proof.
  intros H Hp O' Hs Hw Hseg Hnd Hlock Ho Hndo Hapart Hfar Hother Hps Hth.
  assert (HO : forall u, u <> t -> O' u = O u) by (intros u Hu; unfold O'; by rewrite fn_lookup_insert_ne).
  assert (HOt : O' t = o') by (unfold O'; by rewrite fn_lookup_insert).
  split; try done.
  - intros u pu Hu. destruct (decide (u = t)) as [->|Hut]; [rewrite Hp in Hu; injection Hu as <-; by rewrite HOt|]. rewrite HO by done.
    destruct (Hps u Hut) as [E|(E & pu' & Hpu' & Hou')].
    + rewrite E in Hu. destruct (i_owes _ _ _ _ H u pu Hu) as [Hou Hnu]. split; [|done]. apply (owes_ext (view st)); [|done]. intros v Hv. by apply (Hother u).
    + rewrite E. assert (pu = pu') as -> by congruence. split; [done|constructor].
  - intros u Hu. assert (Hut : u <> t) by (intros ->; congruence). rewrite HO by done. destruct (Hps u Hut) as [E|[? _]]; [|done].
    rewrite E in Hu. by apply (i_none _ _ _ _ H).
  - intros t' u Hu. destruct (decide (t' = t)) as [->|Ht']; [rewrite HOt in Hu; by apply Hapart|]. rewrite HO in Hu by done. by apply (Hfar t').
  - intros t1 t2 u H1 H2. destruct (decide (t1 = t)) as [->|Ht1], (decide (t2 = t)) as [->|Ht2]; try done.
    + rewrite HOt in H1. rewrite HO in H2 by done. by apply (Hfar t2) in H2 as [_ ?].
    + rewrite HOt in H2. rewrite HO in H1 by done. by apply (Hfar t1) in H1 as [_ ?].
    + rewrite HO in H1, H2 by done. by apply (i_once _ _ _ _ H t1 t2 u).
Qed.

(** A thread that a step leaves alone. *)
Lemma thread_fine_ext st st' q q' O O' u : pcs st' !! u = pcs st !! u -> (listed q' O' u <-> listed q O u) ->
  ((exists t, u ∈ O t) -> exists t, u ∈ O' t) -> has (flag (view st' u)) 2 = has (flag (view st u)) 2 ->
  (~ listed q O u -> view st' u = view st u) -> thread_fine st q O u -> thread_fine st' q' O' u.
Proof.
  intros Hps Hl Ho Hf Hv. unfold thread_fine. rewrite Hps. destruct (pcs st !! u) as [pu|]; [|by rewrite Hl]. intros [Hph Hrd]. split.
  - destruct (phase_of pu); cbn [phase_ok] in *; rewrite ?Hf, ?Hl; [done|by destruct (has (flag (view st u)) 2); rewrite Hl|done|].
    destruct Hph as [? ?]. split; [done|by apply Ho].
  - destruct pu; try done; cbn [ready phase_of phase_ok] in *; by rewrite Hv.
Qed.

(** A step of [t] that changes its own lists and those of the variable, and the
    blocks in them; the other threads stay in the lists. *)
Lemma inv_change st q f O t p w' bl' p' q' f' o' :
  inv st q f O -> pcs st !! t = Some p ->
  let st' := State w' bl' (<[t := p']> (pcs st)) in let O' := <[t := o']> O in
  length bl' = length (blocks st) -> w' = word_of q' f' -> seg (view st') (head_addr q') q' 0 -> NoDup q' ->
  owes (view st') p' o' -> NoDup o' -> (forall u, u ∈ o' -> u ∉ q') ->
  (forall u, u ∈ q' \/ u ∈ o' -> u ∈ q \/ u ∈ O t \/ u = t /\ ~ listed q O t) ->
  (forall t' u, t' <> t -> u ∈ O t' -> view st' u = view st u) ->
  (forall u, u <> t -> ~ listed q O u -> view st' u = view st u) ->
  (forall u, u <> t -> has (flag (view st' u)) 2 = has (flag (view st u)) 2) ->
  (forall u, u <> t -> u ∈ q -> u ∈ q' \/ u ∈ o') -> (forall u, u <> t -> u ∈ O t -> u ∈ o') ->
  phase_ok (view st') q' O' t (phase_of p') -> ready (view st') t p' -> lock_ok (pcs st') (view st') q' f' ->
  inv st' q' f' O'.
Proof.
  intros H Hp st' O' Hlen Hw Hseg Hnd Ho Hndo Hapart Hsub Hother Hunl Hflag Hq Hot Hph Hrd Hlock.
  assert (Hps : forall u, u <> t -> pcs st' !! u = pcs st !! u) by (intros u Hu; unfold st'; cbn [pcs]; by rewrite list_lookup_insert_ne).
  assert (HO : forall u, u <> t -> O' u = O u) by (intros u Hu; unfold O'; by rewrite fn_lookup_insert_ne).
  assert (HOt : O' t = o') by (unfold O'; by rewrite fn_lookup_insert).
  assert (Hpt : pcs st' !! t = Some p') by (unfold st'; cbn [pcs]; apply list_lookup_insert_eq; by eapply lookup_lt_Some).
  assert (HL : forall u, listed q' O' u <-> u ∈ q' \/ u ∈ o' \/ exists t', t' <> t /\ u ∈ O t').
  { intros u. unfold listed. split.
    - intros [?|[t' Hx]]; [by left|]. right. destruct (decide (t' = t)) as [->|Ht']; [left; by rewrite <- HOt|right; exists t'; by rewrite <- HO].
    - intros [?|[?|(t' & Ht' & ?)]]; [by left|right; exists t; by rewrite HOt|right; exists t'; by rewrite HO]. }
  apply (inv_core st st' q f O t p'); try done.
  - unfold sized, st'. cbn [blocks pcs]. rewrite length_insert, Hlen. apply (i_size _ _ _ _ H).
  - intros t' u Ht' Hu. assert (Hn : ~ (u ∈ q' \/ u ∈ o')); [|tauto]. intros [Hx|[Hx|[-> Hx]]]%Hsub.
    + by apply (i_apart _ _ _ _ H t' u).
    + apply Ht'. by apply (i_once _ _ _ _ H t' t u).
    + apply Hx. by eapply listed_owed.
  - intros t' u Ht' Hu. by rewrite (Hother t' u).
  - intros u Hu. left. by apply Hps.
  - intros u. destruct (decide (u = t)) as [->|Hut]; [unfold thread_fine; by rewrite Hpt|].
    change (thread_fine st' q' O' u). apply (thread_fine_ext st st' q q' O O'); auto; [|intros [t' Hx]|apply H].
    + rewrite HL. split.
      * intros Hx. assert (Hx' : (u ∈ q' \/ u ∈ o') \/ exists t', t' <> t /\ u ∈ O t') by tauto.
        destruct Hx' as [[?|[?|[? _]]]%Hsub|(t' & _ & ?)]; [by left|by eapply listed_owed|done|by eapply listed_owed].
      * intros [Hx|[t' Hx]]; [destruct (Hq u Hut Hx); tauto|]. destruct (decide (t' = t)) as [->|]; [right; left; by apply Hot|right; right; by exists t'].
    + destruct (decide (t' = t)) as [->|]; [exists t; rewrite HOt; by apply Hot|exists t'; by rewrite HO].
Qed.

(** ** The owner of the list *)

Lemma lock_holder ps M q f t p : lock_ok ps M q f -> ps !! t = Some p -> holding p = true ->
  8 <= f < 16 /\ holds M q t p /\ forall t' p', t' <> t -> ps !! t' = Some p' -> holding p' = false.
Proof.
  intros [(_ & Hn & _)|(Hf & h & ph & Hh & Hho & Hn)] Hp Hholds; [by rewrite (Hn t p Hp) in Hholds|].
  destruct (decide (t = h)) as [->|Ht]; [|by rewrite (Hn t p Ht Hp) in Hholds]. assert (ph = p) by congruence. by subst.
Qed.

Lemma insert_other (ps : list pc) t p' (P : nat -> pc -> Prop) : (forall u pu, u <> t -> ps !! u = Some pu -> P u pu) -> P t p' ->
  forall u pu, <[t := p']> ps !! u = Some pu -> P u pu.
Proof.
  intros Ho Hp u pu Hu. destruct (decide (u = t)) as [->|Hut]; [|rewrite list_lookup_insert_ne in Hu by done; by apply (Ho u)].
  apply list_lookup_insert_Some in Hu as [(_ & <- & _)|[? _]]; done.
Qed.

(** The lock is taken, kept by its owner, given back. *)
Lemma lock_take ps M q t p p' M' q' f' : lock_ok ps M q 0 -> ps !! t = Some p -> holds M' q' t p' -> 8 <= f' < 16 -> lock_ok (<[t := p']> ps) M' q' f'.
Proof.
  intros [(_ & Hn & _)|[? _]] Hp Hh Hf; [|lia]. right. split; [done|]. exists t, p'. split; [apply list_lookup_insert_eq; by eapply lookup_lt_Some|].
  split; [done|]. intros u pu Hu. rewrite list_lookup_insert_ne by done. apply Hn.
Qed.

Lemma lock_keep ps M q f t p p' M' q' f' : lock_ok ps M q f -> ps !! t = Some p -> holding p = true -> holds M' q' t p' -> 8 <= f' < 16 ->
  lock_ok (<[t := p']> ps) M' q' f'.
Proof.
  intros Hl Hp Hh Hh' Hf. destruct (lock_holder _ _ _ _ _ _ Hl Hp Hh) as (_ & _ & Hn). right. split; [done|]. exists t, p'.
  split; [apply list_lookup_insert_eq; by eapply lookup_lt_Some|]. split; [done|]. intros u pu Hu. rewrite list_lookup_insert_ne by done. by apply Hn.
Qed.

Lemma lock_free ps M q f t p p' M' q' : lock_ok ps M q f -> ps !! t = Some p -> holding p = true -> holding p' = false -> (q' = [] \/ good M' 0 q') ->
  lock_ok (<[t := p']> ps) M' q' 0.
Proof.
  intros Hl Hp Hh Hh' Hg. destruct (lock_holder _ _ _ _ _ _ Hl Hp Hh) as (_ & _ & Hn). left. split; [done|]. split; [|done].
  by apply (insert_other ps t p' (fun _ p => holding p = false)).
Qed.

(** A step of a thread that does not own it. *)
Lemma lock_other ps M q f t p p' M' q' f' : lock_ok ps M q f -> ps !! t = Some p -> holding p = false -> holding p' = false ->
  (f = 0 /\ f' = 0 /\ (q = [] \/ good M 0 q -> q' = [] \/ good M' 0 q') \/ 8 <= f < 16 /\ 8 <= f' < 16) ->
  (forall u pu, u <> t -> ps !! u = Some pu -> holds M q u pu -> holds M' q' u pu) -> lock_ok (<[t := p']> ps) M' q' f'.
Proof.
  intros Hl Hp Hh Hh' Hf Hho. destruct Hl as [(-> & Hn & Hg)|(Hf8 & h & ph & Hph & Hhp & Hn)].
  - left. destruct Hf as [(_ & -> & Hg')|[? _]]; [|lia]. split_and!; [done| |by apply Hg']. apply (insert_other ps t p' (fun _ p => holding p = false)); [|done]. intros u pu _. apply Hn.
  - right. destruct Hf as [(? & _)|[_ Hf]]; [lia|]. split; [done|]. assert (h <> t) by (intros ->; assert (ph = p) by congruence; subst; by destruct p).
    exists h, ph. rewrite list_lookup_insert_ne by done. split_and!; [done|by apply (Hho h)|].
    intros u pu Hu Hpu. revert u pu Hpu Hu. apply (insert_other ps t p' (fun u p => u <> h -> holding p = false)); [|done].
    intros u pu _ Hpu Hu. by apply (Hn u).
Qed.

(** Other threads than the owner rely on nothing. *)
Lemma holds_holding M q h p : holds M q h p -> holding p = true.
Proof. by destruct p. Qed.

Lemma phase_same M q (O O' : nat -> list nat) u ph : (forall t, O' t = O t) -> phase_ok M q O u ph -> phase_ok M q O' u ph.
Proof.
  intros E. assert (H : (exists t, u ∈ O' t) <-> (exists t, u ∈ O t)) by (by setoid_rewrite E).
  destruct ph; cbn [phase_ok]; unfold listed; rewrite ?H; [done|by destruct (has _ _); rewrite H|done|done].
Qed.

(** A step that changes at most the flags of the word and moves [t]. *)
Lemma inv_word st q f O t p p' f' : inv st q f O -> pcs st !! t = Some p -> owes (view st) p' (O t) ->
  phase_ok (view st) q O t (phase_of p') -> ready (view st) t p' -> lock_ok (<[t := p']> (pcs st)) (view st) q f' ->
  inv (go (set_word st (word_of q f')) t p') q f' (<[t := O t]> O).
Proof.
  intros H Hp Ho Hph Hrd Hl. apply (inv_change st q f O t p); try done.
  - apply H.
  - apply H.
  - apply (i_owes _ _ _ _ H t p Hp).
  - intros u. apply (i_apart _ _ _ _ H).
  - tauto.
  - tauto.
  - apply (phase_same _ _ O); [|done]. intros u. destruct (decide (u = t)) as [->|]; by rewrite ?fn_lookup_insert, ?fn_lookup_insert_ne.
Qed.

Definition valid (st : state) : Prop := exists q f O, inv st q f O.

Lemma holds_owes st q f O t p : inv st q f O -> pcs st !! t = Some p -> holding p = false -> (forall r k, p <> Release r k) ->
  (forall r s k, p <> ReleaseSet r s k) -> (forall r s k, p <> ReleaseKey r s k) -> O t = [].
Proof. intros H Hp Hh H1 H2 H3. destruct (i_owes _ _ _ _ H t p Hp) as [Ho _]. destruct p; try done; exfalso; [by eapply H1|by eapply H2|by eapply H3]. Qed.

(** A move of a thread that does not own the list and has taken out nothing. *)
Lemma cv_inv_goto st q f O t p p' : inv st q f O -> pcs st !! t = Some p -> holding p = false -> holding p' = false -> O t = [] ->
  owes (view st) p' [] -> phase_ok (view st) q O t (phase_of p') -> ready (view st) t p' -> valid (go st t p').
Proof.
  intros H Hp Hh Hh' HO Ho Hph Hrd. exists q, f, (<[t := O t]> O).
  replace (go st t p') with (go (set_word st (word_of q f)) t p') by (unfold go, set_word; cbn; by rewrite <- (i_word _ _ _ _ H)).
  apply (inv_word st q f O t p); try done; [by rewrite HO|].
  apply (lock_other _ (view st) q f t p); try done; [apply H|]. destruct (i_lock _ _ _ _ H) as [(-> & _)|[? _]]; [by left|by right].
Qed.

(** The flags of a list that another thread owns. *)
Lemma inv_flags st q f O t p p' f' : inv st q f O -> pcs st !! t = Some p -> holding p = false -> holding p' = false -> O t = [] ->
  owes (view st) p' [] -> phase_ok (view st) q O t (phase_of p') -> ready (view st) t p' -> 8 <= f < 16 -> 8 <= f' < 16 ->
  valid (go (set_word st (word_of q f')) t p').
Proof.
  intros H Hp Hh Hh' HO Ho Hph Hrd Hf Hf'. exists q, f', (<[t := O t]> O). apply (inv_word st q f O t p); try done; [by rewrite HO|].
  apply (lock_other _ (view st) q f t p); try done; [apply H|by right].
Qed.

(** ** Words that were read *)

Lemma flag_has x f : f = 0 \/ 8 <= f < 16 -> has (addr x + f) 8 = (8 <=? f).
Proof.
  intros Hf. unfold has. rewrite addr_land by lia. destruct Hf as [->|Hf]; [done|].
  assert (E : f = 8 \/ f = 9 \/ f = 10 \/ f = 11 \/ f = 12 \/ f = 13 \/ f = 14 \/ f = 15) by lia. by destruct_or! E; subst f.
Qed.

Lemma flag_count x f : 8 <= f < 16 -> Z.land (addr x + f) 7 = f - 8.
Proof.
  intros Hf. rewrite addr_land by lia.
  assert (E : f = 8 \/ f = 9 \/ f = 10 \/ f = 11 \/ f = 12 \/ f = 13 \/ f = 14 \/ f = 15) by lia. by destruct_or! E; subst f.
Qed.

Lemma flag_all x f : 8 <= f < 16 -> Z.lor (addr x + f) 7 = addr x + 15.
Proof.
  intros Hf. rewrite cv_addr_lor by lia.
  assert (E : f = 8 \/ f = 9 \/ f = 10 \/ f = 11 \/ f = 12 \/ f = 13 \/ f = 14 \/ f = 15) by lia. by destruct_or! E; subst f.
Qed.

Lemma flag_lock x : Z.lor (addr x + 0) 8 = addr x + 8.
Proof. by rewrite cv_addr_lor by lia. Qed.

(** The word, when it is not 0. *)
Lemma word_inv st q f O : inv st q f O -> word st <> 0 -> exists x q', q = x :: q' /\ word st = addr x + f /\ (f = 0 \/ 8 <= f < 16).
Proof.
  intros H Hw. rewrite (i_word _ _ _ _ H) in *. destruct q as [|x q']; [done|]. exists x, q'. split_and!; [done|done|].
  destruct (i_lock _ _ _ _ H) as [(? & _)|[? _]]; [by left|by right].
Qed.

Lemma word_nil st q f O : inv st q f O -> word st = 0 -> q = [].
Proof. intros H Hw. rewrite (i_word _ _ _ _ H) in Hw. destruct q as [|x q]; [done|]. cbn in Hw. pose proof (lock_flags _ _ _ _ (i_lock _ _ _ _ H)). unfold addr in Hw. lia. Qed.

Lemma thread_phase st q f O t p : inv st q f O -> pcs st !! t = Some p -> phase_ok (view st) q O t (phase_of p) /\ ready (view st) t p.
Proof. intros H Hp. pose proof (i_thread _ _ _ _ H t) as Ht. unfold thread_fine in Ht. by rewrite Hp in Ht. Qed.

Lemma cut_top M x q f (P : list nat -> Prop) : 8 <= f < 16 -> P (x :: q) -> cut M (x :: q) (addr x + f) P.
Proof. intros Hf HP. exists [], x, q, f. split; [done|]. split; [done|]. split; [done|]. split; [by constructor|done]. Qed.

Lemma addr_16 x : addr x = 16 * (2 * (Z.of_nat x + 1)).
Proof. unfold addr. lia. Qed.

(** ** RtlpWakeSingle, before it has the list *)
Lemma single_loop_ok st t cur : valid st -> pcs st !! t = Some (SingleLoop cur) -> valid (single_loop st t cur).
Proof.
  intros (q & f & O & H) Hp. destruct (thread_phase _ _ _ _ _ _ H Hp) as [Hph _]. assert (HO : O t = []) by (by eapply holds_owes).
  assert (Hg : forall p', phase_of p' = Asleep -> owes (view st) p' [] -> holding p' = false -> ready (view st) t p' -> valid (go st t p')).
  { intros p' E Ho Hh Hr. eapply cv_inv_goto; try done. by rewrite E. }
  unfold single_loop. destruct ((cur =? 0) || _) eqn:E0; [by apply Hg|]. apply orb_false_iff in E0 as [E0%Z.eqb_neq E7].
  destruct (has cur 8) eqn:E8; unfold cas; destruct (Z.eqb_spec (word st) cur) as [<-|]; [|by apply Hg| |by apply Hg];
    destruct (word_inv _ _ _ _ H E0) as (x & q' & -> & Hw & Hf); rewrite Hw in E8 |- *; rewrite flag_has in E8 by done.
  - assert (Hf8 : 8 <= f < 16) by lia. rewrite flag_all by done. apply (inv_flags st (x :: q') f O t (SingleLoop (word st)) SleepAgain 15); try done; lia.
  - assert (f = 0) as -> by lia. rewrite flag_lock. exists (x :: q'), 8, (<[t := O t]> O).
    apply (inv_word st (x :: q') 0 O t (SingleLoop (word st))); try done.
    apply (lock_take _ (view st) (x :: q') t (SingleLoop (word st))); [apply H|done| |lia]. split; [by apply cut_top|].
    left. exists (2 * (Z.of_nat x + 1)), 8. rewrite addr_16. lia.
Qed.

(** ** RtlWakeConditionVariable *)
Lemma wake_try_ok st t cur : valid st -> pcs st !! t = Some (WakeTry cur) -> valid (wake_try st t cur).
Proof.
  intros (q & f & O & H) Hp. destruct (thread_phase _ _ _ _ _ _ H Hp) as [Hph _]. assert (HO : O t = []) by (by eapply holds_owes).
  assert (Hg : forall p', phase_of p' = Out -> owes (view st) p' [] -> holding p' = false -> ready (view st) t p' -> valid (go st t p')).
  { intros p' E Ho Hh Hr. eapply cv_inv_goto; try done. by rewrite E. }
  unfold wake_try. destruct (Z.eqb_spec cur 0) as [E0|E0]; [by apply Hg|]. destruct (has cur 8) eqn:E8.
  - destruct (Z.eqb_spec (Z.land cur 7) 7) as [E7|E7]; [by apply Hg|]. unfold cas. destruct (Z.eqb_spec (word st) cur) as [<-|]; [|by apply Hg].
    destruct (word_inv _ _ _ _ H E0) as (x & q' & -> & Hw & Hf). rewrite Hw in E8, E7 |- *. rewrite flag_has in E8 by done.
    assert (Hf8 : 8 <= f < 16) by lia. rewrite flag_count in E7 by done. rewrite <- Z.add_assoc.
    apply (inv_flags st (x :: q') f O t (WakeTry (word st)) Idle (f + 1)); try done; lia.
  - unfold cas. destruct (Z.eqb_spec (word st) cur) as [<-|]; [|by apply Hg].
    destruct (word_inv _ _ _ _ H E0) as (x & q' & -> & Hw & Hf). rewrite Hw in E8 |- *. rewrite flag_has in E8 by done.
    assert (f = 0) as -> by lia. rewrite flag_lock, Z.add_0_r. exists (x :: q'), 8, (<[t := O t]> O).
    apply (inv_word st (x :: q') 0 O t (WakeTry (word st))); try done; [by rewrite HO|].
    apply (lock_take _ (view st) (x :: q') t (WakeTry (word st))); [apply H|done| |lia]. apply cut_top; [done|].
    destruct (i_lock _ _ _ _ H) as [(_ & _ & [?|?])|[? _]]; [done|done|lia].
Qed.

(** ** RtlWakeAllConditionVariable *)

(** The whole queue is taken out by a thread that has the blocks [o]. *)
Lemma inv_take_all st q f O t p p' bl' : inv st q f O -> pcs st !! t = Some p -> holding p' = false ->
  let st' := State 0 bl' (<[t := p']> (pcs st)) in
  length bl' = length (blocks st) -> owes (view st') p' (O t ++ q) -> (forall u, u ∉ O t -> view st' u = view st u) ->
  (forall u, flag (view st' u) = flag (view st u)) -> phase_of p' = phase_of p -> ready (view st') t p' ->
  (holding p = true \/ f = 0) -> valid st'.
Proof.
  intros H Hp Hh' st' Hlen Ho Hfr Hfl Eph Hrd Hhold. exists [], 0, (<[t := O t ++ q]> O).
  destruct (i_owes _ _ _ _ H t p Hp) as [_ Hnd].
  apply (inv_change st q f O t p); try done.
  - constructor.
  - apply NoDup_app. split_and!; [done|intros u; apply (i_apart _ _ _ _ H)|apply H].
  - intros u _. apply not_elem_of_nil.
  - intros u [Hu%not_elem_of_nil|[Hu|Hu]%elem_of_app]; [done|by right; left|by left].
  - intros t' u Ht' Hu. apply Hfr. intros Hu'. apply Ht'. by apply (i_once _ _ _ _ H t' t u).
  - intros u _ Hu. apply Hfr. intros Hu'. apply Hu. by eapply listed_owed.
  - intros u _. by rewrite Hfl.
  - intros u _ Hu. right. apply elem_of_app. by right.
  - intros u _ Hu. apply elem_of_app. by left.
  - rewrite Eph. destruct (thread_phase _ _ _ _ _ _ H Hp) as [Hph _]. fold st'.
    assert (E : listed [] (<[t := O t ++ q]> O) t <-> listed q O t).
    { split.
      - intros [Hx%not_elem_of_nil|[t' Hx]]; [done|]. destruct (decide (t' = t)) as [->|]; [|rewrite fn_lookup_insert_ne in Hx by done; by eapply listed_owed].
        rewrite fn_lookup_insert in Hx. apply elem_of_app in Hx as [Hx|Hx]; [by eapply listed_owed|by left].
      - intros [Hx|[t' Hx]]; right; [exists t; rewrite fn_lookup_insert; apply elem_of_app; by right|].
        destruct (decide (t' = t)) as [->|]; [exists t; rewrite fn_lookup_insert; apply elem_of_app; by left|exists t'; by rewrite fn_lookup_insert_ne]. }
    destruct (phase_of p); cbn [phase_ok] in *; rewrite ?Hfl, ?E; [done|by destruct (has _ _); rewrite E|done|].
    destruct Hph as (? & t' & Hx). split; [done|]. destruct (decide (t' = t)) as [->|]; [exists t; rewrite fn_lookup_insert; apply elem_of_app; by left|exists t'; by rewrite fn_lookup_insert_ne].
  - left. split; [done|]. split; [|by left]. cbn [pcs st'].
    apply (insert_other (pcs st) t p' (fun _ p => holding p = false)); [|done]. intros u pu Hu Hpu. destruct Hhold as [Hhold| ->].
    + by apply (lock_holder _ _ _ _ t p (i_lock _ _ _ _ H) Hp Hhold) with u.
    + destruct (i_lock _ _ _ _ H) as [(_ & Hn & _)|[? _]]; [by apply (Hn u)|lia].
Qed.

Lemma all_try_ok st t cur : valid st -> pcs st !! t = Some (AllTry cur) -> valid (all_try st t cur).
Proof.
  intros (q & f & O & H) Hp. destruct (thread_phase _ _ _ _ _ _ H Hp) as [Hph _]. assert (HO : O t = []) by (by eapply holds_owes).
  assert (Hg : forall p', phase_of p' = Out -> owes (view st) p' [] -> holding p' = false -> ready (view st) t p' -> valid (go st t p')).
  { intros p' E Ho Hh Hr. eapply cv_inv_goto; try done. by rewrite E. }
  unfold all_try. destruct ((cur =? 0) || _) eqn:E0; [by apply Hg|]. apply orb_false_iff in E0 as [E0%Z.eqb_neq E7].
  destruct (has cur 8) eqn:E8; unfold cas; destruct (Z.eqb_spec (word st) cur) as [<-|]; [|by apply Hg| |by apply Hg];
    destruct (word_inv _ _ _ _ H E0) as (x & q' & -> & Hw & Hf); rewrite Hw in E8 |- *; rewrite flag_has in E8 by done.
  - assert (Hf8 : 8 <= f < 16) by lia. rewrite flag_all by done. apply (inv_flags st (x :: q') f O t (AllTry (word st)) Idle 15); try done; lia.
  - assert (f = 0) as -> by lia. rewrite addr_block by lia. unfold release_rest. rewrite (proj2 (Z.eqb_neq _ 0)) by apply cv_addr_pos.
    apply (inv_take_all st (x :: q') 0 O t (AllTry (word st))); try done; [|by right]. rewrite HO. split; [|done]. apply (i_seg _ _ _ _ H).
Qed.

(** ** Queueing a block *)

Lemma nil_unlocked st f O : inv st [] f O -> f = 0.
Proof.
  intros H. destruct (i_lock _ _ _ _ H) as [[? _]|(_ & h & p & _ & Hh & _)]; [done|]. exfalso.
  destruct p; try done; cbn [holds] in Hh; [|destruct Hh as [Hh _]|]; destruct Hh as (q1 & x & q2 & g & E & _); by destruct q1.
Qed.

Section Push.

Context (st : state) (q : list nat) (f : Z) (O : nat -> list nat) (t : nat) (old : Z).
Hypothesis (H : inv st q f O) (Hp : pcs st !! t = Some (SleepPush old)).

Lemma push_alive : alive st t.
Proof. by exists (SleepPush old). Qed.

Lemma push_unlisted : ~ listed q O t.
Proof. apply (thread_phase _ _ _ _ _ _ H Hp). Qed.

Lemma push_view g u : view (upd st t g) u = if decide (u = t) then g (view st t) else view st u.
Proof. apply view_upd; [apply H|apply push_alive]. Qed.

Lemma push_frame g u : listed q O u -> view (upd st t g) u = view st u.
Proof. intros Hu. rewrite push_view, decide_False; [done|]. intros ->. by apply push_unlisted. Qed.

Lemma push_owes : O t = [].
Proof. by eapply holds_owes. Qed.

Lemma push_holds g u pu q1 : u <> t -> (q1 = [] \/ q1 = [t] /\ next (g (view st t)) = 0 /\ notify (g (view st t)) = 0) -> holds (view st) q u pu ->
  holds (view (upd st t g)) (q1 ++ q) u pu.
Proof.
  intros Hut Hq1. assert (Hc : forall s (P P' : list nat -> Prop), (forall l, (forall v, v ∈ l -> v ∈ q) -> P l -> P' l) -> cut (view st) q s P -> cut (view (upd st t g)) (q1 ++ q) s P').
  { intros s P P' HP (q0 & x & q2 & e & E & -> & He & Hf & Hx). exists (q1 ++ q0), x, q2, e. rewrite E, <- app_assoc. split; [done|]. split; [done|]. split; [done|]. split.
    - apply Forall_app. split.
      + destruct Hq1 as [->|(-> & ? & ?)]; [by constructor|]. constructor; [|by constructor]. rewrite push_view, decide_True by done. done.
      + apply Forall_forall. intros v Hv. rewrite push_frame by (left; rewrite E; set_solver). by apply (proj1 (Forall_forall _ _) Hf).
    - apply HP; [|done]. intros v Hv. rewrite E. set_solver. }
  assert (Hgd : forall l, (forall v, v ∈ l -> v ∈ q) -> good (view st) 0 l -> good (view (upd st t g)) 0 l).
  { intros l Hl. apply good_ext. intros v Hv. by rewrite push_frame by (left; by apply Hl). }
  destruct pu; cbn [holds]; try done; [by apply Hc| |by apply Hc]. intros [Hcut Hn]. split.
  - revert Hcut. apply Hc. intros l Hl HP Hu. apply HP. apply elem_of_app in Hu as [Hu|?]; [|done]. destruct Hq1 as [->|(-> & _)]; [by apply not_elem_of_nil in Hu|].
    by apply list_elem_of_singleton in Hu.
  - destruct Hn as [?|Hn]; [by left|right]. rewrite last_app, Hn. done.
Qed.

(** The exchange failed: only the own block was written. *)
Lemma push_again g : flag (g (view st t)) = flag (view st t) -> next (g (view st t)) = next (view st t) ->
  valid (go (upd st t g) t (SleepPush (word st))).
Proof.
  intros Hfl Hnx. exists q, f, (<[t := []]> O). destruct (thread_phase _ _ _ _ _ _ H Hp) as [_ [Hrf Hrn]].
  apply (inv_change st q f O t (SleepPush old) (word st) (blocks (upd st t g))); try done.
  - apply length_insert.
  - apply H.
  - apply (seg_ext (view st)); [|apply H]. intros u Hu. change (back (view (upd st t g) u) = back (view st u)). rewrite push_frame; [done|by left].
  - apply H.
  - constructor.
  - intros u Hu. by apply not_elem_of_nil in Hu.
  - intros u [Hu|Hu%not_elem_of_nil]; [by left|done].
  - intros t' u _ Hu. apply push_frame. by eapply listed_owed.
  - intros u Hu _. change (view (upd st t g) u = view st u). by rewrite push_view, decide_False.
  - intros u Hu. change (has (flag (view (upd st t g) u)) 2 = has (flag (view st u)) 2). by rewrite push_view, decide_False.
  - by left.
  - rewrite push_owes. done.
  - intros [Hu|[t' Hu]]; [apply push_unlisted; by left|]. destruct (decide (t' = t)) as [->|]; [by rewrite fn_lookup_insert in Hu; apply not_elem_of_nil in Hu|].
    rewrite fn_lookup_insert_ne in Hu by done. apply push_unlisted. by eapply listed_owed.
  - change (has (flag (view (upd st t g) t)) 2 = true /\ next (view (upd st t g) t) = 0). rewrite push_view, decide_True by done. by rewrite Hfl, Hnx.
  - apply (lock_other _ (view st) q f t (SleepPush old)); try done; [apply H| |].
    + destruct (i_lock _ _ _ _ H) as [(Hf0 & _ & Hg)|[? _]]; [left|by right]. split_and!; [done|done|]. intros [?|Hg']; [by left|right].
      apply (good_ext (view st)); [|done]. intros u Hu. change (next (view (upd st t g) u) = next (view st u) /\ notify (view (upd st t g) u) = notify (view st u)).
      by rewrite push_frame by (by left).
    + intros u pu Hu _ Hh. apply (push_holds g u pu []); [done|by left|done].
Qed.

(** It has queued the block. *)
Lemma push_done g f' p' : flag (g (view st t)) = flag (view st t) -> next (g (view st t)) = 0 -> back (g (view st t)) = head_addr q ->
  phase_of p' = Pushed -> (forall M, owes M p' []) -> (forall M u, ready M u p') ->
  lock_ok (<[t := p']> (pcs st)) (view (upd st t g)) (t :: q) f' ->
  valid (go (set_word (upd st t g) (addr t + f')) t p').
Proof.
  intros Hfl Hnx Hbk Hph Ho Hrd Hlock. exists (t :: q), f', (<[t := []]> O). destruct (thread_phase _ _ _ _ _ _ H Hp) as [_ [Hrf Hrn]].
  apply (inv_change st q f O t (SleepPush old) (addr t + f') (blocks (upd st t g))); try done.
  - apply length_insert.
  - split; [done|]. change (seg (view (upd st t g)) (back (view (upd st t g) t)) q 0). rewrite push_view, decide_True by done. rewrite Hbk.
    apply (seg_ext (view st)); [|apply H]. intros u Hu. rewrite push_frame; [done|by left].
  - apply NoDup_cons. split; [|apply H]. intros Hu. apply push_unlisted. by left.
  - constructor.
  - intros u Hu. by apply not_elem_of_nil in Hu.
  - intros u [[->|Hu]%elem_of_cons|Hu%not_elem_of_nil]; [right; right; split; [done|apply push_unlisted]|by left|done].
  - intros t' u _ Hu. apply push_frame. by eapply listed_owed.
  - intros u Hu _. change (view (upd st t g) u = view st u). by rewrite push_view, decide_False.
  - intros u Hu. change (has (flag (view (upd st t g) u)) 2 = has (flag (view st u)) 2). by rewrite push_view, decide_False.
  - intros u _ Hu. left. by right.
  - rewrite push_owes. done.
  - rewrite Hph. cbn [phase_ok]. change (if has (flag (view (upd st t g) t)) 2 then listed (t :: q) (<[t := []]> O) t else ~ listed (t :: q) (<[t := []]> O) t).
    rewrite push_view, decide_True, Hfl, Hrf by done. left. left.
Qed.

End Push.

Lemma land_lxor a b m : Z.land (Z.lxor a b) m = Z.lxor (Z.land a m) (Z.land b m).
Proof. apply Z.bits_inj'. intros i _. rewrite !Z.land_spec, !Z.lxor_spec, !Z.land_spec. by destruct (Z.testbit a i), (Z.testbit b i), (Z.testbit m i). Qed.

(** The word that a push stores, and whether it takes the lock. *)
Lemma push_word_nil t : push_word t 0 = addr t + 0 /\ has (Z.lxor 0 (addr t + 0)) 8 = false.
Proof.
  unfold push_word. cbn. split; [rewrite Z.lor_0_r; lia|]. unfold has. rewrite land_lxor, addr_land by lia. done.
Qed.

Lemma push_word_cons t x f : f = 0 \/ 8 <= f < 16 -> let g := if f =? 0 then 8 else f in
  push_word t (addr x + f) = addr t + g /\ has (Z.lxor (addr x + f) (addr t + g)) 8 = (f =? 0).
Proof.
  intros Hf g. unfold push_word. rewrite addr_block by lia. rewrite (proj2 (Z.eqb_neq _ 0)) by apply cv_addr_pos.
  unfold YY_CV_MASK, has. rewrite addr_land by lia. rewrite <- (Z.add_0_r (addr t)) at 1. rewrite cv_addr_lor by (try lia; change 0xF with (2 ^ 4 - 1); rewrite land_ones_mod by lia; rewrite Z.mod_small; lia).
  assert (Hg : 0 <= g < 16) by (unfold g; destruct (Z.eqb_spec f 0); lia).
  rewrite cv_addr_lor; [|rewrite Z.lor_0_l; change 0xF with (2 ^ 4 - 1); rewrite land_ones_mod by lia; rewrite Z.mod_small; lia|lia].
  rewrite land_lxor, !addr_land by lia. unfold g. destruct Hf as [->|Hf]; [done|].
  assert (E : f = 8 \/ f = 9 \/ f = 10 \/ f = 11 \/ f = 12 \/ f = 13 \/ f = 14 \/ f = 15) by lia. by destruct_or! E; subst f.
Qed.

Lemma push_ok st t old : valid st -> pcs st !! t = Some (SleepPush old) -> exists st', push st t old = Ok st' /\ valid st'.
Proof.
  intros (q & f & O & H) Hp. unfold push. rewrite cv_store_ok by (try apply H; by eapply push_alive). cbn [mbind outcome_bind].
  set (g := fun b => set_notify (if YY_CV_GET_BLOCK old =? 0 then addr t else 0) (set_back (YY_CV_GET_BLOCK old) b)).
  eexists. split; [reflexivity|]. unfold cas. change (word (upd st t g)) with (word st). destruct (thread_phase _ _ _ _ _ _ H Hp) as [_ [Hrf Hrn]].
  destruct (Z.eqb_spec (word st) old) as [<-|]; [|by eapply push_again].
  destruct (Z.eq_dec (word st) 0) as [E0|E0].
  - assert (q = []) as -> by (by eapply word_nil). pose proof (nil_unlocked _ _ _ H) as ->. destruct (push_word_nil t) as [E1 E2].
    assert (Hg : forall b, g b = set_notify (addr t) (set_back 0 b)) by (intros b; unfold g; by rewrite E0).
    rewrite E0, E1, E2 in *. eapply push_done; try done; rewrite ?Hg; try done.
    apply (lock_other _ (view st) [] 0 t (SleepPush 0)); try done; [apply H| |].
    + left. split_and!; [done|done|]. intros _. right. cbn [good List.last linked]. rewrite (push_view _ _ _ _ _ _ H Hp), decide_True by done. rewrite Hg. split; [by left|by right].
    + intros u pu _ _ Hh. exfalso. destruct pu; try done; cbn [holds] in Hh; [|destruct Hh as [Hh _]|]; destruct Hh as (q1 & y & q2 & e & E & _); by destruct q1.
  - destruct (word_inv _ _ _ _ H E0) as (x & q' & -> & Hw & Hf). destruct (push_word_cons t x f Hf) as [E1 E2].
    assert (Eb : YY_CV_GET_BLOCK (addr x + f) = addr x) by (apply addr_block; lia). assert (Ex : (addr x =? 0) = false) by apply Z.eqb_neq, cv_addr_pos.
    assert (Hg : forall b, g b = set_notify 0 (set_back (addr x) b)) by (intros b; unfold g; by rewrite Hw, Eb, Ex).
    rewrite Hw in *. rewrite E1, E2.
    eapply push_done; try done; rewrite ?Hg; try done; [by destruct (f =? 0)..|].
    assert (Hin : next (g (view st t)) = 0 /\ notify (g (view st t)) = 0) by (by rewrite Hg).
    destruct (Z.eqb_spec f 0) as [->|Hf0].
    + apply (lock_take _ (view st) (x :: q') t (SleepPush (addr x + 0))); [apply H|done| |lia]. apply cut_top; [lia|].
      apply (good_extend _ [t] x q'); [constructor; [|by constructor]; by rewrite (push_view _ _ _ _ _ _ H Hp), decide_True|].
      apply (good_ext (view st)); [intros u Hu; rewrite (push_frame _ _ _ _ _ _ H Hp); [done|by left]|].
      destruct (i_lock _ _ _ _ H) as [(_ & _ & [?|?])|[? _]]; [done|done|lia].
    + apply (lock_other _ (view st) (x :: q') f t (SleepPush (addr x + f))); try done; [apply H|right; lia|].
      intros u pu Hu _ Hh. apply (push_holds _ _ _ _ _ _ H Hp g u pu [t]); [done|right; done|done].
Qed.

End CondVarInv.
