(* ===== verification/CondVarSteps.v ===== *)
(** * Condition variables: waiting and releasing

    The steps around the flag of a block and its key keep the invariant. *)
From stdpp Require Import functions.
From S2P Require Import Prelude CondVar CondVarList CondVarInv.
Import CondVar CondVarList CondVarInv.

Module CondVarSteps.

Lemma flag_cleared x : has (Z.ldiff x 2) 2 = false.
Proof.
  unfold has. replace (Z.land (Z.ldiff x 2) 2) with 0; [done|]. apply Z.bits_inj'. intros i _. rewrite Z.land_spec, Z.ldiff_spec, Z.bits_0.
  by destruct (Z.testbit x i), (Z.testbit 2 i).
Qed.

Lemma flag_clear x : has x 2 = false -> Z.ldiff x 2 = x.
Proof.
  unfold has. intros E%negb_false_iff%Z.eqb_eq. apply Z.bits_inj'. intros i Hi. rewrite Z.ldiff_spec.
  assert (Hb : Z.testbit (Z.land x 2) i = false) by (by rewrite E, Z.bits_0). rewrite Z.land_spec in Hb. by destruct (Z.testbit x i), (Z.testbit 2 i).
Qed.

Definition clear (b : block) : block := set_flag (Z.ldiff (flag b) 2) b.

Lemma flag_reset_ok st u : sized st -> alive st u -> flag_reset st (addr u) = Ok (has (flag (view st u)) 2, upd st u clear).
Proof. intros Hs Ha. unfold flag_reset. rewrite load_ok by done. cbn [mbind outcome_bind]. by rewrite cv_store_ok. Qed.

(** The links of the queue matter to the lock, nothing else. *)
Lemma holds_ext M M' q h p : (forall u, u ∈ q -> next (M' u) = next (M u) /\ notify (M' u) = notify (M u)) -> holds M q h p -> holds M' q h p.
Proof.
  intros He. assert (Hc : forall s P P', (forall l, (forall u, u ∈ l -> u ∈ q) -> P l -> P' l) -> cut M q s P -> cut M' q s P').
  { intros s P P' HP (q1 & x & q2 & g & -> & -> & Hg & Hf & Hx). exists q1, x, q2, g. split; [done|]. split; [done|]. split; [done|]. split.
    - apply Forall_forall. intros u Hu. destruct (He u) as [-> ->]; [set_solver|]. by apply (proj1 (Forall_forall _ _) Hf).
    - apply HP; [set_solver|done]. }
  assert (Hg : forall l, (forall u, u ∈ l -> u ∈ q) -> good M 0 l -> good M' 0 l) by (intros l Hl; apply good_ext; intros u Hu; by apply He, Hl).
  destruct p; cbn [holds]; try done; [by apply Hc| |by apply Hc]. intros [Hcut ?]. split; [|done]. revert Hcut. by apply Hc.
Qed.

Lemma lock_same ps M M' q f t p p' : lock_ok ps M q f -> ps !! t = Some p -> holding p = false -> holding p' = false ->
  (forall u, u ∈ q -> next (M' u) = next (M u) /\ notify (M' u) = notify (M u)) -> lock_ok (<[t := p']> ps) M' q f.
Proof.
  intros Hl Hp Hh Hh' He. apply (lock_other ps M q f t p); try done.
  - destruct Hl as [(-> & _)|[? _]]; [left|by right]. split_and!; [done|done|]. intros [?|?]; [by left|right]. by apply (good_ext M).
  - intros u pu _ _. by apply holds_ext.
Qed.

(** A block whose flag is cleared. *)
Lemma view_clear st u v : sized st -> alive st u -> view (upd st u clear) v = if decide (v = u) then clear (view st u) else view st v.
Proof. apply view_upd. Qed.

Lemma clear_links st u v : sized st -> alive st u -> back (view (upd st u clear) v) = back (view st v) /\
  next (view (upd st u clear) v) = next (view st v) /\ notify (view (upd st u clear) v) = notify (view st v) /\
  (has (flag (view st v)) 2 = false -> has (flag (view (upd st u clear) v)) 2 = false).
Proof. intros Hs Ha. rewrite view_clear by done. case_decide as E; [subst|done]. split_and!; try done. intros _. apply flag_cleared. Qed.

(** ** The end of the spinning *)
Lemma sleep_btr_ok st t : valid st -> pcs st !! t = Some SleepBtr -> exists st', sleep_btr st t = Ok st' /\ valid st'.
Proof.
  intros (q & f & O & H) Hp. destruct (thread_phase _ _ _ _ _ _ H Hp) as [Hph _]. assert (HO : O t = []) by (by eapply holds_owes).
  assert (Ha : alive st t) by (by exists SleepBtr). assert (Hs : sized st) by apply H. unfold sleep_btr. rewrite flag_reset_ok by done.
  cbn [mbind outcome_bind]. eexists. split; [reflexivity|]. set (p' := if has _ _ then SleepKeyed else _).
  set (st' := go (upd st t clear) t p'). assert (Hv : forall v, view st' v = view (upd st t clear) v) by done.
  assert (HOt : forall u, (<[t := []]> O : nat -> list nat) u = O u) by (intros u; destruct (decide (u = t)) as [->|]; by rewrite ?fn_lookup_insert, ?fn_lookup_insert_ne).
  exists q, f, (<[t := []]> O). pose proof (fun v => clear_links st t v Hs Ha) as HL.
  assert (Hpt : pcs st' !! t = Some p') by (unfold st', go; cbn [pcs upd]; apply list_lookup_insert_eq; by eapply lookup_lt_Some).
  apply (inv_core st st' q f O t p'); try done.
  - unfold sized, st', go. cbn [blocks pcs upd]. rewrite !length_insert. apply H.
  - apply H.
  - apply (seg_ext (view st)); [|apply H]. intros u _. by apply HL.
  - apply H.
  - unfold st', go. cbn [pcs upd]. apply (lock_same _ (view st) _ _ _ _ SleepBtr); [apply H|done|done|by unfold p'; destruct (has _ _)|]. intros u _. split; apply HL.
  - unfold p'. by destruct (has _ _).
  - constructor.
  - intros u Hu. by apply not_elem_of_nil in Hu.
  - intros t' u _ Hu. split; [by apply (i_apart _ _ _ _ H t')|apply not_elem_of_nil].
  - intros t' u _ _. rewrite Hv. split; apply HL.
  - intros t' Ht'. left. unfold st', go. cbn [pcs upd]. by rewrite list_lookup_insert_ne.
  - intros u. assert (El : listed q (<[t := []]> O) u <-> listed q O u) by (unfold listed; by setoid_rewrite HOt).
    destruct (decide (u = t)) as [->|Hut].
    + unfold thread_fine. rewrite Hpt. split; [|unfold p'; by destruct (has _ _)]. cbn [phase_of phase_ok] in Hph. unfold p'.
      destruct (has (flag (view st t)) 2); cbn [phase_of phase_ok]; rewrite El; [|done]. split; [|done]. rewrite Hv, view_clear, decide_True by done. apply flag_cleared.
    + apply (thread_fine_ext st st' q q O); [unfold st', go; cbn [pcs upd]; by rewrite list_lookup_insert_ne|done|by setoid_rewrite HOt| | |apply H].
      * by rewrite Hv, view_clear, decide_False.
      * intros _. by rewrite Hv, view_clear, decide_False.
Qed.

(** ** Releasing the blocks that were taken out *)

Lemma upd_clear_id st u : sized st -> alive st u -> has (flag (view st u)) 2 = false -> upd st u clear = st.
Proof.
  intros Hs Ha Hf. unfold upd. replace (clear (view st u)) with (view st u).
  - rewrite list_insert_id; [by destruct st|by apply alive_block].
  - unfold clear. rewrite flag_clear by done. by destruct (view st u).
Qed.

Lemma release_rest_owes M r o k : seg M r o 0 -> owes M (release_rest r k) o.
Proof.
  intros Hs. unfold release_rest. pose proof (seg_head _ _ _ Hs) as ->. destruct o as [|x o]; cbn [head_addr].
  - rewrite Z.eqb_refl. by destruct k as [| |[]].
  - rewrite (proj2 (Z.eqb_neq _ 0)) by apply cv_addr_pos. done.
Qed.

Lemma release_rest_phase M q O t r0 r k : phase_ok M q O t (phase_of (Release r0 k)) -> phase_ok M q O t (phase_of (release_rest r k)).
Proof.
  unfold release_rest. destruct (r =? 0); [|done]. destruct k as [| |[]]; try done. intros [? [t' ?]]. split; [done|]. by eapply listed_owed.
Qed.

Lemma release_rest_quiet r k : holding (release_rest r k) = false /\ forall M u, ready M u (release_rest r k).
Proof. unfold release_rest. by destruct (r =? 0), k as [| |[]]. Qed.

(** A thread with the lists it has, without the lock, in front of its next
    block. *)
Lemma inv_stay st q f O t p p' : inv st q f O -> pcs st !! t = Some p -> holding p = false -> holding p' = false -> owes (view st) p' (O t) ->
  phase_ok (view st) q O t (phase_of p') -> ready (view st) t p' -> valid (go st t p').
Proof.
  intros H Hp Hh Hh' Ho Hph Hrd. exists q, f, (<[t := O t]> O).
  replace (go st t p') with (go (set_word st (word_of q f)) t p') by (unfold go, set_word; cbn; by rewrite <- (i_word _ _ _ _ H)).
  apply (inv_word st q f O t p); try done. by apply (lock_same _ (view st) _ _ _ _ p); [apply H|..].
Qed.

(** Taking the head off the list of [t]. *)
Lemma listed_tail q (O : nat -> list nat) t u o : O t = u :: o -> NoDup (O t) -> (forall t' v, v ∈ O t' -> v ∉ q) -> (forall t1 t2 v, v ∈ O t1 -> v ∈ O t2 -> t1 = t2) ->
  forall v, (listed q (<[t := o]> O) v <-> listed q O v /\ v <> u) /\ (v <> u -> (exists t', v ∈ O t') -> exists t', v ∈ (<[t := o]> O : nat -> list nat) t').
Proof.
  intros E Hnd Hap Hon v. rewrite E in Hnd. apply NoDup_cons in Hnd as [Huo _]. assert (Hut : u ∈ O t) by (rewrite E; left).
  assert (Hown : v <> u -> (exists t', v ∈ O t') -> exists t', v ∈ (<[t := o]> O : nat -> list nat) t').
  { intros Hvu [t' Hv]. exists t'. destruct (decide (t' = t)) as [->|]; [|by rewrite fn_lookup_insert_ne]. rewrite fn_lookup_insert. rewrite E in Hv.
    by apply elem_of_cons in Hv as [?|?]. }
  split; [|done]. split.
  - intros [Hv|[t' Hv]]; [split; [by left|]; intros ->; by apply (Hap t u)|]. destruct (decide (t' = t)) as [->|Ht'].
    + rewrite fn_lookup_insert in Hv. split; [right; exists t; rewrite E; by right|]. by intros ->.
    + rewrite fn_lookup_insert_ne in Hv by done. split; [by eapply listed_owed|]. intros ->. by apply Ht', (Hon t' t u).
  - intros [[Hv|Hv] Hvu]; [by left|right]. by apply Hown.
Qed.

Section Release.

Context (st : state) (q : list nat) (f : Z) (O : nat -> list nat) (t u : nat) (o : list nat) (r : Z) (k : kont).
Hypothesis (H : inv st q f O) (HO : O t = u :: o).

Lemma rel_alive : alive st u.
Proof. eapply listed_alive; [done|]. apply (listed_owed _ _ t). rewrite HO. left. Qed.

Lemma rel_nodup p : pcs st !! t = Some p -> NoDup (O t).
Proof. intros Hp. by destruct (i_owes _ _ _ _ H t p Hp). Qed.

(** The flag was still set: the thread has not gone to the kernel. *)
Lemma release_early : pcs st !! t = Some (Release (addr u) k) -> seg (view st) r o 0 -> has (flag (view st u)) 2 = true ->
  valid (go (upd st u clear) t (release_rest r k)).
Proof.
  intros Hp Hseg Hf. assert (Hs : sized st) by apply H. pose proof rel_alive as Ha. pose proof (rel_nodup _ Hp) as Hnd.
  pose proof (fun v => clear_links st u v Hs Ha) as HL. pose proof (listed_tail q O t u o HO Hnd (i_apart _ _ _ _ H) (i_once _ _ _ _ H)) as Hlt.
  set (p' := release_rest r k). set (st' := go (upd st u clear) t p'). assert (Hv : forall v, view st' v = view (upd st u clear) v) by done.
  destruct (release_rest_quiet r k) as [Hq1 Hq2]. fold p' in Hq1, Hq2.
  assert (Hpt : pcs st' !! t = Some p') by (unfold st', go; cbn [pcs upd]; apply list_lookup_insert_eq; by eapply lookup_lt_Some).
  assert (Hps : forall v, v <> t -> pcs st' !! v = pcs st !! v) by (intros v Hvt; unfold st', go; cbn [pcs upd]; by rewrite list_lookup_insert_ne).
  exists q, f, (<[t := o]> O). apply (inv_core st st' q f O t p'); try done.
  - unfold sized, st', go. cbn [blocks pcs upd]. rewrite !length_insert. apply H.
  - apply H.
  - apply (seg_ext (view st)); [|apply H]. intros v _. by apply HL.
  - apply H.
  - unfold st', go. cbn [pcs upd]. apply (lock_same _ (view st) _ _ _ _ (Release (addr u) k)); [apply H|done|done|done|]. intros v _. split; apply HL.
  - apply release_rest_owes. apply (seg_ext (view st)); [|done]. intros v _. by apply HL.
  - rewrite HO in Hnd. by apply NoDup_cons in Hnd as [_ ?].
  - intros v Hvo. apply (i_apart _ _ _ _ H t). rewrite HO. by right.
  - intros t' v Ht' Hvt. split; [by apply (i_apart _ _ _ _ H t')|]. intros Hvo. apply Ht', (i_once _ _ _ _ H t' t v); [done|]. rewrite HO. by right.
  - intros t' v _ _. rewrite Hv. split; apply HL.
  - intros t' Ht'. left. by apply Hps.
  - intros v. destruct (Hlt v) as [El Eo]. destruct (decide (v = u)) as [->|Hvu].
    + assert (Hnl : ~ listed q (<[t := o]> O) u) by (rewrite El; tauto).
      assert (Hcl : has (flag (view st' u)) 2 = false) by (rewrite Hv, view_clear, decide_True by done; apply flag_cleared).
      pose proof (i_thread _ _ _ _ H u) as Hth. unfold thread_fine in *. assert (Hlu : listed q O u) by (apply (listed_owed _ _ t); rewrite HO; left).
      destruct (decide (u = t)) as [Eut|Hut].
      * rewrite Eut in *. rewrite Hpt. rewrite Hp in Hth. destruct Hth as [Hth _]. split; [|done].
        cbn [phase_of phase_ok] in Hth. assert (k = ToWait) as Ek.
        { destruct k as [| |[]]; cbn [phase_ok] in Hth; [done|done|done|]. destruct Hth as [Hth _]. congruence. }
        unfold p', release_rest. rewrite Ek. destruct (r =? 0); cbn [phase_of resume phase_ok]; by rewrite Hcl.
      * rewrite Hps by done. destruct (pcs st !! u) as [pu|]; [|done]. destruct Hth as [Hth _]. destruct (phase_of pu) eqn:Epu; cbn [phase_ok] in Hth; [done| |destruct Hth; congruence|destruct Hth; congruence].
        split; [cbn [phase_ok]; by rewrite Hcl|]. by destruct pu.
    + destruct (decide (v = t)) as [->|Hvt].
      * unfold thread_fine. rewrite Hpt. split; [|done]. apply (release_rest_phase _ _ _ _ (addr u)). destruct (thread_phase _ _ _ _ _ _ H Hp) as [Hph _].
        assert (Efl : flag (view st' t) = flag (view st t)) by (by rewrite Hv, view_clear, decide_False).
        destruct (phase_of (Release (addr u) k)); cbn [phase_ok] in *; rewrite ?Efl, ?El; [tauto|destruct (has (flag (view st t)) 2); rewrite El; tauto|tauto|].
        destruct Hph. split; [done|by apply Eo].
      * apply (thread_fine_ext st st' q q O); [by apply Hps|rewrite El; tauto|by apply Eo|by rewrite Hv, view_clear, decide_False| |apply H].
        intros _. by rewrite Hv, view_clear, decide_False.
Qed.

End Release.

Lemma cv_release_ok st t p k : valid st -> pcs st !! t = Some (Release p k) -> exists st', release st t p k = Ok st' /\ valid st'.
Proof.
  intros (q & f & O & H) Hp. destruct (i_owes _ _ _ _ H t _ Hp) as [[Hseg Hne] Hnd]. destruct (O t) as [|u o] eqn:HO; [done|].
  destruct Hseg as [-> Hseg]. assert (Hs : sized st) by apply H. pose proof (rel_alive _ _ _ _ _ _ _ H HO) as Ha. unfold release.
  rewrite load_ok by done. cbn [mbind outcome_bind]. rewrite flag_reset_ok by done. cbn [mbind outcome_bind]. eexists. split; [reflexivity|].
  destruct (has (flag (view st u)) 2) eqn:Hf; [by eapply release_early|]. rewrite upd_clear_id by done. destruct (thread_phase _ _ _ _ _ _ H Hp) as [Hph _].
  eapply inv_stay; try done. rewrite HO. by exists u, o.
Qed.

(** [uWakeupThreadId] is set in front of NtReleaseKeyedEvent. *)
Lemma release_set_ok st t p r k w : valid st -> pcs st !! t = Some (ReleaseSet p r k) ->
  exists st', (st1 ← store st p (set_wakeup w); Ok (go st1 t (ReleaseKey p r k))) = Ok st' /\ valid st'.
Proof.
  intros (q & f & O & H) Hp. destruct (i_owes _ _ _ _ H t _ Hp) as [(u & o & HO & -> & Hseg & Hf) Hnd].
  assert (Hs : sized st) by apply H. pose proof (rel_alive _ _ _ _ _ _ _ H HO) as Ha. rewrite cv_store_ok by done. cbn [mbind outcome_bind].
  eexists. split; [reflexivity|]. exists q, f, (<[t := O t]> O). set (st1 := upd st u (set_wakeup w)).
  assert (V : forall v, view st1 v = if decide (v = u) then set_wakeup w (view st u) else view st v) by (intros v; by apply view_upd).
  assert (VL : forall v, back (view st1 v) = back (view st v) /\ next (view st1 v) = next (view st v) /\ notify (view st1 v) = notify (view st v) /\ flag (view st1 v) = flag (view st v))
    by (intros v; rewrite V; case_decide as E; [by subst|done]).
  assert (Hlu : listed q O u) by (apply (listed_owed _ _ t); rewrite HO; left).
  apply (inv_change st q f O t (ReleaseSet (addr u) r k) (word st) (blocks st1)); try done.
  - apply length_insert.
  - apply H.
  - apply (seg_ext (view st)); [|apply H]. intros v _. apply (VL v).
  - apply H.
  - exists u, o. split_and!; [done|done| |]; [apply (seg_ext (view st)); [|done]; intros v _; apply (VL v)|].
    change (has (flag (view st1 u)) 2 = false). by rewrite (proj2 (proj2 (proj2 (VL u)))).
  - intros v. apply (i_apart _ _ _ _ H).
  - tauto.
  - intros t' v Ht' Hv. change (view st1 v = view st v). rewrite V, decide_False; [done|]. intros ->. apply Ht', (i_once _ _ _ _ H t' t u); [done|]. rewrite HO. left.
  - intros v _ Hv. change (view st1 v = view st v). rewrite V, decide_False; [done|]. by intros ->.
  - intros v _. change (has (flag (view st1 v)) 2 = has (flag (view st v)) 2). by rewrite (proj2 (proj2 (proj2 (VL v)))).
  - tauto.
  - destruct (thread_phase _ _ _ _ _ _ H Hp) as [Hph _]. apply (phase_same _ _ O); [intros v; destruct (decide (v = t)) as [->|]; by rewrite ?fn_lookup_insert, ?fn_lookup_insert_ne|].
    assert (Hm : forall ph, phase_ok (view st) q O t ph -> phase_ok (view st1) q O t ph); [|by apply Hm].
    intros ph. destruct ph; cbn [phase_ok]; by rewrite ?(proj2 (proj2 (proj2 (VL t)))).
  - apply (lock_same _ (view st) _ _ _ _ (ReleaseSet (addr u) r k)); [apply H|done|done|done|]. intros v _. split; apply (VL v).
Qed.

(** NtReleaseKeyedEvent and NtWaitForKeyedEvent meet. *)
Lemma cv_meet_ok st t u r k pu : valid st -> pcs st !! t = Some (ReleaseKey (addr u) r k) -> pcs st !! u = Some pu -> at_key pu = true ->
  valid (go (go st u (SleepDone STATUS_SUCCESS)) t (release_rest r k)).
Proof.
  intros (q & f & O & H) Hp Hpu Hkey. destruct (i_owes _ _ _ _ H t _ Hp) as [(u' & o & HO & ->%cv_addr_inj & Hseg & Hf) Hnd].
  assert (Hut : u' <> t) by (intros ->; rewrite Hp in Hpu; by injection Hpu as <-). assert (Htu : t <> u') by congruence.
  pose proof (listed_tail q O t u' o HO Hnd (i_apart _ _ _ _ H) (i_once _ _ _ _ H)) as Hlt. destruct (release_rest_quiet r k) as [Hq1 Hq2].
  set (p' := release_rest r k) in *. set (st' := go _ t p'). assert (Hv : forall v, view st' v = view st v) by done.
  assert (Hps : forall v, pcs st' !! v = if decide (v = t) then Some p' else if decide (v = u') then Some (SleepDone STATUS_SUCCESS) else pcs st !! v).
  { intros v. unfold st', go. cbn [pcs]. apply lookup_lt_Some in Hp as Hl1, Hpu as Hl2. case_decide as E1; [subst; apply list_lookup_insert_eq; by rewrite length_insert|].
    rewrite list_lookup_insert_ne by done. case_decide as E2; [subst; by apply list_lookup_insert_eq|by rewrite list_lookup_insert_ne]. }
  exists q, f, (<[t := o]> O). apply (inv_core st st' q f O t p'); try done.
  - by rewrite Hps, decide_True.
  - unfold sized, st', go. cbn [blocks pcs]. rewrite !length_insert. apply H.
  - apply H.
  - apply H.
  - apply H.
  - unfold st', go. cbn [pcs]. eapply (lock_same _ (view st) _ _ _ _ (ReleaseKey (addr u') r k)); [eapply (lock_same _ (view st)); [apply H|exact Hpu|by destruct pu|done|done]| |done|done|done].
    by rewrite list_lookup_insert_ne.
  - by apply release_rest_owes.
  - rewrite HO in Hnd. by apply NoDup_cons in Hnd as [_ ?].
  - intros v Hvo. apply (i_apart _ _ _ _ H t). rewrite HO. by right.
  - intros t' v Ht' Hvt. split; [by apply (i_apart _ _ _ _ H t')|]. intros Hvo. apply Ht', (i_once _ _ _ _ H t' t v); [done|]. rewrite HO. by right.
  - intros t' Ht'. rewrite Hps, decide_False by done. case_decide as E; [subst|by left]. right. split; [|by eexists].
    destruct (i_owes _ _ _ _ H _ _ Hpu) as [Ho _]. by destruct pu.
  - intros v. destruct (Hlt v) as [El Eo]. destruct (decide (v = t)) as [->|Hvt].
    + unfold thread_fine. rewrite Hps, decide_True by done. split; [|done]. destruct (thread_phase _ _ _ _ _ _ H Hp) as [Hph _].
      apply (release_rest_phase _ _ _ _ (addr u')). change (phase_of (ReleaseKey (addr u') r k)) with (phase_of (Release (addr u') k)) in Hph.
      destruct (phase_of (Release (addr u') k)); cbn [phase_ok] in *; rewrite ?Hv, ?El; [tauto|destruct (has (flag (view st t)) 2); rewrite El; tauto|split; [tauto|]; split; [tauto|congruence]|].
      destruct Hph. split; [done|apply Eo; [congruence|done]].
    + destruct (decide (v = u')) as [->|Hvu].
      * unfold thread_fine. rewrite Hps, decide_False, decide_True by done. split; [|done]. cbn [phase_of phase_ok]. rewrite El. tauto.
      * apply (thread_fine_ext st st' q q O); [by rewrite Hps, !decide_False|rewrite El; tauto|by apply Eo|done|done|apply H].
Qed.

(** ** Calls and moves *)
Lemma entry_ok cv st t c : valid st -> pcs st !! t = Some Idle -> valid (entry cv st t c).
Proof.
  intros (q & f & O & H) Hp. destruct (thread_phase _ _ _ _ _ _ H Hp) as [Hph _]. assert (HO : O t = []) by (by eapply holds_owes).
  destruct c as [shared| |]; [|by eapply cv_inv_goto|by eapply cv_inv_goto]. cbn [entry].
  set (init := fun b => Block _ _ _ _ _). set (st' := State _ _ _).
  assert (V : forall v, view st' v = if decide (v = t) then init (view st t) else view st v).
  { intros v. unfold view, st'. cbn [blocks]. case_decide as E; [subst|by rewrite list_lookup_alter_ne]. rewrite list_lookup_alter_eq.
    destruct (blocks st !! t) eqn:E; [done|]. apply lookup_ge_None in E. apply lookup_lt_Some in Hp. pose proof (i_size _ _ _ _ H). unfold sized in *. lia. }
  assert (Hfr : forall v, listed q O v -> view st' v = view st v) by (intros v Hv; rewrite V, decide_False; [done|]; by intros ->).
  exists q, f, (<[t := []]> O). apply (inv_change st q f O t Idle (word st) (alter init t (blocks st))); try done.
  - apply length_alter.
  - apply H.
  - apply (seg_ext (view st)); [|apply H]. intros v Hv. change (back (view st' v) = back (view st v)). rewrite Hfr; [done|by left].
  - apply H.
  - constructor.
  - intros v Hv. by apply not_elem_of_nil in Hv.
  - intros v [Hv|Hv%not_elem_of_nil]; [by left|done].
  - intros t' v _ Hv. apply Hfr. by eapply listed_owed.
  - intros v Hv _. change (view st' v = view st v). by rewrite V, decide_False.
  - intros v Hv. change (has (flag (view st' v)) 2 = has (flag (view st v)) 2). by rewrite V, decide_False.
  - by left.
  - by rewrite HO.
  - intros [Hv|[t' Hv]]; [apply Hph; by left|]. destruct (decide (t' = t)) as [->|]; [by rewrite fn_lookup_insert in Hv; apply not_elem_of_nil in Hv|].
    rewrite fn_lookup_insert_ne in Hv by done. apply Hph. by eapply listed_owed.
  - change (has (flag (view st' t)) 2 = true /\ next (view st' t) = 0). rewrite V, decide_True by done. by destruct shared.
  - apply (lock_same _ (view st) _ _ _ _ Idle); [apply H|done|done|done|]. intros v Hv. change (next (view st' v) = next (view st v) /\ notify (view st' v) = notify (view st v)).
    rewrite Hfr; [done|by left].
Qed.

(** A thread that does not own the list and owes nothing goes on in the same
    phase. *)
Lemma move_ok st t p p' : valid st -> pcs st !! t = Some p -> holding p = false -> holding p' = false -> phase_of p' = phase_of p ->
  (forall M o, owes M p o -> o = []) -> (forall M, owes M p' []) -> (forall M, ready M t p -> ready M t p') -> valid (go st t p').
Proof.
  intros (q & f & O & H) Hp Hh Hh' Eph Ho Ho' Hrd. destruct (thread_phase _ _ _ _ _ _ H Hp) as [Hph Hr]. destruct (i_owes _ _ _ _ H t p Hp) as [HO%Ho _].
  eapply cv_inv_goto; try done; [by rewrite Eph|by apply Hrd].
Qed.

End CondVarSteps.
