(* ===== verification/CondVarOwner.v ===== *)
(** * Condition variables: the owner of the list

    The steps of a thread that has set the bit 8 keep the invariant: shortening
    the way to the first block, removing a block whose time has run out, and
    taking blocks out. *)
From stdpp Require Import functions.
From S2P Require Import Prelude CondVar CondVarList CondVarInv CondVarSteps.
Import CondVar CondVarList CondVarInv CondVarSteps.

Module CondVarOwner.

Lemma elem_rev (l : list nat) u : u ∈ rev l <-> u ∈ l.
Proof. rewrite !list_elem_of_In. symmetry. apply in_rev. Qed.

(** There are no more blocks in the queue than frames. *)
Lemma queue_length st q f O : inv st q f O -> (length q <= length (blocks st))%nat.
Proof.
  intros H. rewrite <- (length_seq (length (blocks st)) 0). apply NoDup_incl_length; [apply NoDup_ListNoDup, H|].
  intros u Hu. apply list_elem_of_In in Hu. destruct (listed_alive _ _ _ _ u H (listed_queue q O u Hu)) as (p & Hp & _).
  apply lookup_lt_Some in Hp. apply in_seq. pose proof (i_size _ _ _ _ H). unfold sized in *. lia.
Qed.

(** The part of the queue that the owner works on. *)
Lemma owner_part st q1 x q2 f O : inv st (q1 ++ x :: q2) f O ->
  seg (view st) (addr x) (x :: q2) 0 /\ NoDup (x :: q2) /\ (forall u, u ∈ x :: q2 -> alive st u) /\ (length q2 < length (blocks st))%nat /\
  (forall u, u ∈ q1 -> u ∉ x :: q2).
Proof.
  intros H. pose proof (i_seg _ _ _ _ H) as Hs. apply seg_app in Hs as (m & _ & Hs). pose proof (seg_head _ _ _ Hs) as ->.
  pose proof (i_nodup _ _ _ _ H) as Hnd. apply NoDup_app in Hnd as (_ & Hn & Hnd). split_and!; [done|done| | |done].
  - intros u Hu. eapply listed_alive; [done|]. left. apply elem_of_app. by right.
  - pose proof (queue_length _ _ _ _ H) as Hl. rewrite length_app in Hl. cbn in Hl. lia.
Qed.

(** The owner [t] has worked on the blocks of [x :: q2] and on those that it
    took out before; it has taken out [d]. *)
Lemma owner_change st q1 x q2' d f O t p st1 p' f' : let q2 := q2' ++ d in
  inv st (q1 ++ x :: q2) f O -> pcs st !! t = Some p -> same st st1 ->
  (forall u, u ∉ x :: q2 ++ O t -> view st1 u = view st u) ->
  seg (view st1) (addr x) (x :: q2') 0 -> owes (view st1) p' (O t ++ rev d) ->
  phase_ok (view st) (q1 ++ x :: q2) O t (phase_of p') -> (forall M u, ready M u p') ->
  lock_ok (<[t := p']> (pcs st)) (view st1) (q1 ++ x :: q2') f' ->
  inv (go (set_word st1 (word_of (q1 ++ x :: q2') f')) t p') (q1 ++ x :: q2') f' (<[t := O t ++ rev d]> O).
Proof.
  intros q2 H Hp [Sw Sp Sl Sf] Hfr Hseg Ho Hph Hrd Hlock. unfold go, set_word. cbn [word blocks pcs]. rewrite Sp.
  pose proof (i_nodup _ _ _ _ H) as Hnd. assert (Hq : forall u, u ∈ q1 ++ x :: q2 <-> u ∈ q1 ++ x :: q2' \/ u ∈ rev d).
  { intros u. unfold q2. rewrite !elem_of_app, !elem_of_cons, elem_of_app, elem_rev. tauto. }
  assert (Hnd2 : NoDup (q1 ++ x :: q2') /\ NoDup d /\ forall u, u ∈ q1 ++ x :: q2' -> u ∉ d).
  { unfold q2 in Hnd. rewrite app_comm_cons, app_assoc in Hnd. apply NoDup_app in Hnd. tauto. }
  destruct Hnd2 as (Hn1 & Hn2 & Hn3). destruct (i_owes _ _ _ _ H t p Hp) as [_ HndO].
  assert (Hin : forall u, u ∈ O t -> u ∈ x :: q2 ++ O t) by (intros u Hu; right; apply elem_of_app; by right).
  apply (inv_change st (q1 ++ x :: q2) f O t p); try done.
  - change (seg (view st1) (head_addr (q1 ++ x :: q2')) (q1 ++ x :: q2') 0). pose proof (i_seg _ _ _ _ H) as Hs. apply seg_app in Hs as (m & Hs1 & Hs2).
    pose proof (seg_head _ _ _ Hs2) as ->. replace (head_addr (q1 ++ x :: q2')) with (head_addr (q1 ++ x :: q2)) by (by destruct q1).
    apply seg_app. exists (addr x). split; [|done]. apply (seg_ext (view st)); [|done]. intros u Hu. rewrite Hfr; [done|].
    intros Hu'. apply NoDup_app in Hnd as (_ & Hnd & _). apply elem_of_cons in Hu' as [->|[Hu'|Hu']%elem_of_app].
    + apply (Hnd x Hu). left.
    + apply (Hnd u Hu). by right.
    + apply (i_apart _ _ _ _ H t u Hu'). apply elem_of_app. by left.
  - apply NoDup_app. split_and!; [done| |by rewrite <- Permutation_rev]. intros u Hu Hu'. apply (i_apart _ _ _ _ H t u Hu). apply Hq. by right.
  - intros u [Hu|Hu]%elem_of_app Hu'; [apply (i_apart _ _ _ _ H t u Hu), Hq; by left|]. rewrite elem_rev in Hu. by apply (Hn3 u).
  - intros u [Hu|[Hu|Hu]%elem_of_app]; [left; apply Hq; by left|by right; left|left; apply Hq; by right].
  - intros t' u Ht' Hu. change (view st1 u = view st u). apply Hfr. intros Hu'. apply elem_of_cons in Hu' as [->|[Hu'|Hu']%elem_of_app].
    + apply (i_apart _ _ _ _ H t' x Hu). apply elem_of_app. right. left.
    + apply (i_apart _ _ _ _ H t' u Hu). apply elem_of_app. right. by right.
    + by apply Ht', (i_once _ _ _ _ H t' t u).
  - intros u _ Hu. change (view st1 u = view st u). apply Hfr. intros Hu'. apply Hu. apply elem_of_cons in Hu' as [->|[Hu'|Hu']%elem_of_app].
    + left. apply elem_of_app. right. left.
    + left. apply elem_of_app. right. by right.
    + by eapply listed_owed.
  - intros u _. change (has (flag (view st1 u)) 2 = has (flag (view st u)) 2). by rewrite Sf.
  - intros u _ Hu. apply Hq in Hu as [?|?]; [by left|right; apply elem_of_app; by right].
  - intros u _ Hu. apply elem_of_app. by left.
  - set (O' := <[t := O t ++ rev d]> O). assert (El : listed (q1 ++ x :: q2') O' t <-> listed (q1 ++ x :: q2) O t).
    { unfold listed. rewrite (Hq t). unfold O'. split.
      - intros [?|[t' Hx]]; [by left; left|]. destruct (decide (t' = t)) as [->|]; [|rewrite fn_lookup_insert_ne in Hx by done; right; by exists t'].
        rewrite fn_lookup_insert in Hx. apply elem_of_app in Hx as [?|?]; [right; by exists t|left; by right].
      - intros [[?|?]|[t' Hx]]; [by left|right; exists t; rewrite fn_lookup_insert; apply elem_of_app; by right|right; exists t'].
        destruct (decide (t' = t)) as [->|]; [rewrite fn_lookup_insert; apply elem_of_app; by left|by rewrite fn_lookup_insert_ne]. }
    change (phase_ok (view st1) (q1 ++ x :: q2') O' t (phase_of p')).
    destruct (phase_of p'); cbn [phase_ok] in *; rewrite ?Sf, ?El; [done|by destruct (has (flag (view st t)) 2); rewrite El|done|].
    destruct Hph as (? & t' & Hx). split; [done|]. exists t'. unfold O'. destruct (decide (t' = t)) as [->|]; [rewrite fn_lookup_insert; apply elem_of_app; by left|by rewrite fn_lookup_insert_ne].
Qed.

(** Other blocks than those worked on. *)
Lemma fresh_frame st st1 q1 x q2 f O t p : inv st (q1 ++ x :: q2) f O -> pcs st !! t = Some p ->
  (forall u, u ∉ x :: q2 ++ O t -> view st1 u = view st u) -> fresh (view st) q1 -> fresh (view st1) q1.
Proof.
  intros H Hp Hfr Hf. apply Forall_forall. intros u Hu. rewrite Hfr; [by apply (proj1 (Forall_forall _ _) Hf)|].
  destruct (owner_part _ _ _ _ _ _ H) as (_ & _ & _ & _ & Hn). intros Hu'. rewrite app_comm_cons in Hu'. apply elem_of_app in Hu' as [Hu'|Hu'].
  - by apply (Hn u).
  - apply (i_apart _ _ _ _ H t u Hu'). apply elem_of_app. by left.
Qed.

(** The status that the owner has is the word: nothing was queued since. *)
Lemma cut_current st q1 x q2 f O g : inv st (q1 ++ x :: q2) f O -> 0 <= g < 16 -> word st = addr x + g -> q1 = [] /\ f = g.
Proof.
  intros H Hg Hw. rewrite (i_word _ _ _ _ H) in Hw. pose proof (lock_flags _ _ _ _ (i_lock _ _ _ _ H)) as Hf.
  destruct q1 as [|y q1]; cbn [word_of app] in Hw; apply addr_flags_inj in Hw as [E Ef]; try done. exfalso. subst y.
  pose proof (i_nodup _ _ _ _ H) as Hnd. cbn [app] in Hnd. apply NoDup_cons in Hnd as [Hnd _]. apply Hnd, elem_of_app. right. left.
Qed.

(** The word as the next status. *)
Lemma cut_all M q1 x q2 f : fresh M q1 -> good M 0 (x :: q2) -> 8 <= f < 16 -> cut M (q1 ++ x :: q2) (word_of (q1 ++ x :: q2) f) (good M 0).
Proof.
  intros Hf Hg Hr. pose proof (good_extend M q1 x q2 Hf Hg) as Hge. destruct q1 as [|y q1]; cbn [app word_of] in *; by apply cut_top.
Qed.

Lemma go_word st w t p : w = word st -> go st t p = go (set_word st w) t p.
Proof. by intros ->. Qed.

Lemma good_next M x q : good M 0 (x :: q) -> next (M x) = 0.
Proof. by intros [[?|?] _]. Qed.

(** ** RtlpOptimizeConditionVariableWaitList *)
Lemma optimize_ok st t s : valid st -> pcs st !! t = Some (OptLoop s) -> exists st', optimize st t s = Ok st' /\ valid st'.
Proof.
  intros (q & f & O & H) Hp. destruct (lock_holder _ _ _ _ _ _ (i_lock _ _ _ _ H) Hp eq_refl) as (Hf8 & (q1 & x & q2 & g & -> & -> & Hg8 & Hfr & Hg) & _).
  destruct (owner_part _ _ _ _ _ _ H) as (Hseg & Hnd & Hal & Hlen & Hq1). destruct (thread_phase _ _ _ _ _ _ H Hp) as [Hph _].
  destruct (i_owes _ _ _ _ H t _ Hp) as [HO _]. cbn [owes] in HO. assert (Hs : sized st) by apply H.
  unfold optimize. rewrite addr_block by lia.
  destruct (walk_ok (walk_fuel st) st 0 x q2 Hs Hal Hnd Hseg Hg) as (st1 & y & -> & [W1 W2 W3 W4] & Hy & Hny & Hlk & Hg1); [unfold walk_fuel; lia|].
  assert (Hs1 : sized st1) by (by apply (same_sized st)). assert (Hal1 : forall u, u ∈ x :: q2 -> alive st1 u) by (intros u Hu; apply (same_alive st); auto).
  cbn [mbind outcome_bind]. rewrite load_ok by auto. cbn [mbind outcome_bind]. rewrite cv_store_ok by (try done; apply Hal1; left). cbn [mbind outcome_bind]. rewrite Hny.
  set (st2 := upd st1 x (set_notify (addr (List.last q2 x)))). eexists. split; [reflexivity|].
  assert (V2 : forall u, view st2 u = if decide (u = x) then set_notify (addr (List.last q2 x)) (view st1 x) else view st1 u) by (intros u; apply view_upd; [done|apply Hal1; left]).
  assert (S2 : same st st2) by (eapply same_trans; [done|]; apply same_upd; [done|apply Hal1; left|done]).
  assert (F2 : forall u, u ∉ x :: q2 ++ O t -> view st2 u = view st u).
  { intros u Hu. rewrite HO, app_nil_r in Hu. rewrite V2, decide_False by (intros ->; apply Hu; left). apply W4. intros Hu'. apply Hu. by right. }
  assert (G2 : good (view st2) 0 (x :: q2)).
  { rewrite (good_next _ _ _ Hg) in Hlk. destruct Hlk as [Hl1 Hl2]. cbn [good]. rewrite V2, decide_True by done. cbn [set_notify next notify]. split; [by left|]. right.
    split; [done|]. apply (linked_ext (view st1)); [|done]. intros u Hu. rewrite V2. case_decide as E; [by rewrite E|done]. }
  assert (B2 : seg (view st2) (addr x) (x :: q2) 0).
  { apply (seg_ext (view st)); [|done]. intros u Hu. rewrite V2. case_decide as E; [subst; cbn [set_notify back]|]; apply W2. }
  assert (Fr2 : fresh (view st2) q1) by (eapply fresh_frame; [exact H|exact Hp|done|done]).
  unfold cas. rewrite (same_word _ _ S2). destruct (Z.eqb_spec (word st) (addr x + g)) as [Ew|Ew].
  - assert (Hg16 : 0 <= g < 16) by lia. destruct (cut_current _ _ _ _ _ _ _ H Hg16 Ew) as [-> ->]. exists (x :: q2), 0, (<[t := O t ++ rev []]> O).
    assert (Eq2 : q2 = q2 ++ []) by (by rewrite app_nil_r). cbn [app] in *. rewrite Eq2 in H, F2, Hph.
    rewrite <- (Z.add_0_r (addr x)) at 1. apply (owner_change st [] x q2 [] g O t (OptLoop (addr x + g)) st2 SleepBtr 0); try done.
    + by rewrite HO.
    + eapply lock_free; [apply H|exact Hp|done|done|by right].
  - exists (q1 ++ x :: q2), f, (<[t := O t ++ rev []]> O). set (p' := if has _ _ then _ else _).
    rewrite (go_word st2 (word_of (q1 ++ x :: q2) f)) by (rewrite (same_word _ _ S2); symmetry; apply (i_word _ _ _ _ H)).
    assert (Eq2 : q2 = q2 ++ []) by (by rewrite app_nil_r). pose proof (i_word _ _ _ _ H) as Hword.
    assert (Hh : holds (view st2) (q1 ++ x :: q2) t p').
    { unfold p'. rewrite Hword. case (has _ 7); by apply cut_all. }
    rewrite Eq2 in H, F2, Hph. apply (owner_change st q1 x q2 [] f O t (OptLoop (addr x + g)) st2 p' f); try done.
    + rewrite HO. unfold p'. by case (has (word st) 7).
    + unfold p'. by case (has (word st) 7).
    + unfold p'. by case (has (word st) 7).
    + eapply lock_keep; [apply H|exact Hp|done|done|done].
Qed.

(** ** RtlpWakeConditionVariable *)

Lemma go_go st t p p' : go (go st t p) t p' = go st t p'.
Proof. unfold go. cbn. by rewrite list_insert_insert_eq. Qed.

Lemma cas_go st t p old new yes no : cas (go st t p) t old new yes no = cas st t old new yes no.
Proof. unfold cas. cbn [word go]. destruct (word st =? old); [|by rewrite go_go]. change (set_word (go st t p) new) with (go (set_word st new) t p). by rewrite go_go. Qed.

Lemma deref_go st t p p' a : pcs st !! t = Some p -> in_sleep p' = in_sleep p -> deref (go st t p') a = deref st a.
Proof.
  intros Hp E. unfold deref. cbn [pcs go]. destruct (decide (thread_at a = t)) as [->|]; [|by rewrite list_lookup_insert_ne by done].
  rewrite list_lookup_insert_eq by (by eapply lookup_lt_Some). by rewrite Hp, E.
Qed.

Lemma store_go st t p p' a g : pcs st !! t = Some p -> in_sleep p' = in_sleep p -> store (go st t p') a g = (st1 ← store st a g; Ok (go st1 t p')).
Proof. intros Hp E. unfold store. rewrite (deref_go _ _ p) by done. destruct (deref st a) as [u| |]; try done. cbn. by destruct (blocks st !! u). Qed.

Lemma insert_go st t p p' ch v : pcs st !! t = Some p -> in_sleep p' = in_sleep p ->
  insert_at (go st t p') ch v = ('(st1, ch1) ← insert_at st ch v; Ok (go st1 t p', ch1)).
Proof.
  intros Hp E. unfold insert_at. destruct (ppInsert ch) as [a|]; [|done]. rewrite (store_go _ _ p) by done. by destruct (store st a _).
Qed.

Lemma insert_pcs st ch v st' ch' : insert_at st ch v = Ok (st', ch') -> pcs st' = pcs st /\ length (blocks st') = length (blocks st).
Proof.
  unfold insert_at. destruct (ppInsert ch) as [a|]; [|by intros [= <- <-]]. unfold store. destruct (deref st a) as [u| |]; try done. cbn.
  destruct (blocks st !! u); [|done]. cbn. intros [= <- <-]. split; [done|]. apply length_insert.
Qed.

(** The owner reads the word again. *)
Lemma reload_ok st t s wc ch k : valid st -> pcs st !! t = Some (WakeLoop s wc ch k) -> valid (go st t (WakeLoop (word st) wc ch k)).
Proof.
  intros (q & f & O & H) Hp. destruct (lock_holder _ _ _ _ _ _ (i_lock _ _ _ _ H) Hp eq_refl) as (Hf8 & (q1 & x & q2 & g & -> & -> & Hg8 & Hfr & Hg) & _).
  exists (q1 ++ x :: q2), f, (<[t := O t]> O). rewrite (go_word st (word_of (q1 ++ x :: q2) f)) by (symmetry; apply (i_word _ _ _ _ H)).
  destruct (thread_phase _ _ _ _ _ _ H Hp) as [Hph _]. destruct (i_owes _ _ _ _ H t _ Hp) as [Ho _].
  apply (inv_word st _ f O t (WakeLoop (addr x + g) wc ch k)); try done. eapply lock_keep; [apply H|exact Hp|done| |done].
  rewrite (i_word _ _ _ _ H). by apply cut_all.
Qed.

(** The exchange that gives the list back. *)
Lemma unlock_ok st t s wc ch k : valid st -> pcs st !! t = Some (WakeLoop s wc ch k) ->
  valid (cas st t s (YY_CV_GET_BLOCK s) (release_rest (pWake ch) k) (fun last => WakeLoop last wc ch k)).
Proof.
  intros Hv Hp. unfold cas. destruct (Z.eqb_spec (word st) s) as [Ew|Ew]; [|by eapply reload_ok]. destruct Hv as (q & f & O & H).
  destruct (lock_holder _ _ _ _ _ _ (i_lock _ _ _ _ H) Hp eq_refl) as (Hf8 & (q1 & x & q2 & g & -> & -> & Hg8 & Hfr & Hg) & _).
  assert (Hg16 : 0 <= g < 16) by lia. destruct (cut_current _ _ _ _ _ _ _ H Hg16 Ew) as [-> ->]. rewrite addr_block by done.
  destruct (thread_phase _ _ _ _ _ _ H Hp) as [Hph _]. destruct (i_owes _ _ _ _ H t _ Hp) as [[Ho _] _]. destruct (release_rest_quiet (pWake ch) k) as [Hq1 Hq2].
  exists (x :: q2), 0, (<[t := O t]> O). rewrite <- (Z.add_0_r (addr x)). apply (inv_word st (x :: q2) g O t (WakeLoop (addr x + g) wc ch k)); try done.
  - by apply release_rest_owes.
  - by apply (release_rest_phase _ _ _ _ 0).
  - eapply lock_free; [apply H|exact Hp|done|done|by right].
Qed.

(** The owner takes out the whole queue. *)
Lemma take_all_ok st t s wc ch k q f O : inv st q f O -> pcs st !! t = Some (WakeLoop s wc ch k) ->
  exists st1 ch1, insert_at (set_word st 0) ch (YY_CV_GET_BLOCK (word st)) = Ok (st1, ch1) /\ same (set_word st 0) st1 /\
    (forall u, u ∈ q -> view st1 u = view st u) /\ valid (go st1 t (release_rest (pWake ch1) k)).
Proof.
  intros H Hp. destruct (lock_holder _ _ _ _ _ _ (i_lock _ _ _ _ H) Hp eq_refl) as (Hf8 & (q1 & x & q2 & g & Eq & Es & Hg8 & Hfr & Hg) & _).
  assert (Hw : YY_CV_GET_BLOCK (word st) = head_addr q).
  { rewrite (i_word _ _ _ _ H), Eq. destruct q1; cbn [app word_of head_addr]; apply addr_block; lia. }
  destruct (i_owes _ _ _ _ H t _ Hp) as [Ho Hnd]. rewrite Hw.
  destruct (insert_ok (set_word st 0) ch (O t) (head_addr q)) as (st1 & ch1 & E & S1 & F1 & N1 & G1 & _); [apply H| |done|exact Ho|].
  { intros u Hu. change (alive st u). eapply listed_alive; [done|]. by eapply listed_owed. }
  exists st1, ch1. split_and!; [done|done|intros u Hu; apply F1; intros Hu'; by apply (i_apart _ _ _ _ H t u)|].
  assert (Hne : release_rest (pWake ch1) k = Release (pWake ch1) k).
  { unfold release_rest. destruct (Z.eqb_spec (pWake ch1) 0) as [E0|]; [|done]. exfalso. rewrite E0 in G1. destruct (O t) as [|y o]; cbn [seg] in G1.
    - rewrite Eq in G1. destruct q1; cbn in G1; by eapply cv_addr_pos.
    - destruct G1 as [G1 _]. by eapply cv_addr_pos. }
  unfold go. rewrite (same_word _ _ S1), (same_pcs _ _ S1), Hne. cbn [word pcs set_word].
  apply (inv_take_all st q f O t (WakeLoop s wc ch k)); try done.
  - apply (same_size _ _ S1).
  - split; [|rewrite Eq; by destruct (O t), q1]. apply seg_app. exists (head_addr q). split; [done|].
    apply (seg_ext (view st)); [|apply H]. intros u Hu. change (back (view st1 u) = back (view st u)). rewrite F1; [done|]. intros Hu'. by apply (i_apart _ _ _ _ H t u).
  - apply (same_flag _ _ S1).
  - by left.
Qed.

Lemma go_same st t p : pcs st !! t = Some p -> go st t p = st.
Proof. intros Hp. unfold go. rewrite list_insert_id by done. by destruct st. Qed.

Section Round.

Context (st : state) (q1 : list nat) (x : nat) (q2 : list nat) (f g : Z) (O : nat -> list nat) (t : nat) (wc : Z) (ch : chain) (k : kont).
Let p : pc := WakeLoop (addr x + g) wc ch k.
Hypothesis (H : inv st (q1 ++ x :: q2) f O) (Hp : pcs st !! t = Some p) (Hg8 : 8 <= g < 16).
Hypothesis (Hfr : fresh (view st) q1) (Hg : good (view st) 0 (x :: q2)).

Lemma round_locked : 8 <= f < 16.
Proof. by destruct (lock_holder _ _ _ _ _ _ (i_lock _ _ _ _ H) Hp eq_refl). Qed.

(** The loop that looks for the first block. *)
Lemma round_walk : exists st1 y O1, walk (walk_fuel st) st (addr x) = Ok (st1, addr y) /\ inv st1 (q1 ++ x :: q2) f O1 /\ O1 t = O t /\
  pcs st1 = pcs st /\ word st1 = word st /\ fresh (view st1) q1 /\ good (view st1) 0 (x :: q2) /\ linked (view st1) 0 (x :: q2) /\
  (y ∈ x :: q2) /\ notify (view st1 y) = addr (List.last q2 x).
Proof.
  destruct (owner_part _ _ _ _ _ _ H) as (Hseg & Hnd & Hal & Hlen & Hq1). assert (Hs : sized st) by apply H.
  destruct (walk_ok (walk_fuel st) st 0 x q2 Hs Hal Hnd Hseg Hg) as (st1 & y & E & [W1 W2 W3 W4] & Hy & Hny & Hlk & Hg1); [unfold walk_fuel; lia|].
  rewrite (good_next _ _ _ Hg) in Hlk. destruct (thread_phase _ _ _ _ _ _ H Hp) as [Hph _]. destruct (i_owes _ _ _ _ H t _ Hp) as [Ho _].
  assert (F1 : forall u, u ∉ x :: q2 ++ O t -> view st1 u = view st u) by (intros u Hu; apply W4; set_solver).
  assert (Fr1 : fresh (view st1) q1) by (eapply fresh_frame; [exact H|exact Hp|done|done]).
  exists st1, y, (<[t := O t ++ rev []]> O). split_and!; try done; [|by rewrite fn_lookup_insert, app_nil_r|apply W1|apply W1].
  rewrite <- (go_same st1 t p) by (by rewrite (same_pcs _ _ W1)).
  rewrite (go_word st1 (word_of (q1 ++ x :: q2) f)) by (rewrite (same_word _ _ W1); symmetry; apply (i_word _ _ _ _ H)).
  assert (Eq2 : q2 = q2 ++ []) by (by rewrite app_nil_r). pose proof H as H0. rewrite Eq2 in H0, F1, Hph. apply (owner_change st q1 x q2 [] f O t p st1 p f); try done.
  - apply (seg_ext (view st)); [|done]. intros u _. apply W2.
  - cbn [rev]. rewrite app_nil_r. apply (owes_ext (view st)); [|done]. intros u _. by rewrite W2, (same_flag _ _ W1).
  - eapply lock_keep; [apply H|exact Hp|done| |apply round_locked]. exists q1, x, q2, g. split; [done|]. split; [done|]. split; [done|]. by split.
Qed.

(** The loop that takes blocks out. *)
Lemma round_dequeue Max : linked (view st) 0 (x :: q2) ->
  exists st2 m1 d ch2, dequeue (walk_fuel st) st (addr x) (addr (List.last q2 x)) Max ch = Ok (st2, addr (List.last m1 x), ch2) /\
    q2 = m1 ++ d /\ (Max <= Count ch2 \/ m1 = []) /\ pcs st2 = pcs st /\ word st2 = word st /\
    inv (go st2 t (WakeLoop (addr x + g) wc ch2 k)) (q1 ++ x :: m1) f (<[t := O t ++ rev d]> O).
Proof.
  intros Hlk. destruct (owner_part _ _ _ _ _ _ H) as (Hseg & Hnd & Hal & Hlen & Hq1). assert (Hs : sized st) by apply H.
  destruct (thread_phase _ _ _ _ _ _ H Hp) as [Hph _]. destruct (i_owes _ _ _ _ H t _ Hp) as [Ho HndO].
  destruct (dequeue_ok (walk_fuel st) st x q2 Max ch (O t)) as (st2 & m1 & d & ch2 & E & [D1 D2 D3 D4 D5 D6 D7 D8] & Hend & _); try done.
  - intros u Hu. rewrite app_comm_cons in Hu. apply elem_of_app in Hu as [Hu|Hu]; [by apply Hal|]. eapply listed_alive; [done|]. by eapply listed_owed.
  - rewrite app_comm_cons. apply NoDup_app. split_and!; [done| |done]. intros u Hu Hu'. apply (i_apart _ _ _ _ H t u Hu'), elem_of_app. by right.
  - unfold walk_fuel. lia.
  - exists st2, m1, d, ch2. split_and!; [done|done|done|apply D2|apply D2|].
    assert (Fr2 : fresh (view st2) q1) by (eapply fresh_frame; [exact H|exact Hp|done|done]).
    assert (Hg2 : good (view st2) 0 (x :: m1)).
    { destruct d as [|z d]; cbn [is_nil] in D8; [subst st2; by rewrite D1, app_nil_r in Hg|]. destruct D5 as [D5 D5']. split; [by left|]. by right. }
    assert (Hwd : word_of (q1 ++ x :: q2) f = word_of (q1 ++ x :: m1) f) by (by destruct q1).
    rewrite (go_word st2 (word_of (q1 ++ x :: m1) f)) by (rewrite (same_word _ _ D2), <- Hwd; symmetry; apply (i_word _ _ _ _ H)).
    pose proof H as H0. rewrite D1 in H0, D3, Hph. apply (owner_change st q1 x m1 d f O t p st2 _ f); try done.
    eapply lock_keep; [apply H|exact Hp|done| |apply round_locked]. exists q1, x, m1, g. split; [done|]. split; [done|]. split; [done|]. by split.
Qed.

End Round.

Lemma wake_round_ok st t s wc ch k : valid st -> pcs st !! t = Some (WakeLoop s wc ch k) -> exists st', wake_round st t s wc ch k = Ok st' /\ valid st'.
Proof.
  intros (q & f & O & H) Hp. unfold wake_round. destruct (Z.land s 7 =? 7).
  { destruct (take_all_ok _ _ _ _ _ _ _ _ _ H Hp) as (st1 & ch1 & -> & _ & _ & Hv). eexists. by split; [reflexivity|]. }
  destruct (lock_holder _ _ _ _ _ _ (i_lock _ _ _ _ H) Hp eq_refl) as (Hf8 & (q1 & x & q2 & g & -> & -> & Hg8 & Hfr & Hg) & _).
  assert (Eb : YY_CV_GET_BLOCK (addr x + g) = addr x) by (apply addr_block; lia). rewrite Eb.
  destruct (round_walk _ _ _ _ _ _ _ _ _ _ _ H Hp Hg8 Hfr Hg) as (st1 & y & O1 & -> & H1 & EO & Hp1 & Hw1 & Hfr1 & Hg1 & Hlk1 & Hy & Hny).
  assert (Hpc1 : pcs st1 !! t = Some (WakeLoop (addr x + g) wc ch k)) by (by rewrite Hp1). cbn [mbind outcome_bind].
  assert (Hv1 : valid st1) by (by exists (q1 ++ x :: q2), f, O1).
  assert (Hun : forall st t ch, valid st -> pcs st !! t = Some (WakeLoop (addr x + g) wc ch k) ->
    valid (cas st t (addr x + g) (addr x) (release_rest (pWake ch) k) (fun last => WakeLoop last wc ch k))) by (intros; rewrite <- Eb at 2; by apply unlock_ok).
  destruct (wc + Z.land (addr x + g) 7 <=? Count ch); [eexists; split; [reflexivity|]; by apply Hun|].
  rewrite load_ok; [|apply H1|eapply listed_alive; [done|]; left; apply elem_of_app; by right]. cbn [mbind outcome_bind]. rewrite Hny.
  destruct (round_dequeue _ _ _ _ _ _ _ _ _ _ _ H1 Hpc1 Hg8 Hfr1 Hg1 (wc + Z.land (addr x + g) 7) Hlk1) as (st2 & m1 & d & ch2 & -> & Ed & Hend & Hp2 & Hw2 & H2).
  set (m2 := go st2 t (WakeLoop (addr x + g) wc ch2 k)) in *. assert (Hv2 : valid m2) by (by eexists _, _, _).
  assert (Hpc2 : pcs st2 !! t = Some (WakeLoop (addr x + g) wc ch k)) by (by rewrite Hp2).
  assert (Hpm : pcs m2 !! t = Some (WakeLoop (addr x + g) wc ch2 k)) by (unfold m2, go; cbn [pcs]; apply list_lookup_insert_eq; by eapply lookup_lt_Some).
  cbn [mbind outcome_bind]. destruct (Z.leb_spec (wc + Z.land (addr x + g) 7) (Count ch2)) as [Hc|Hc].
  { eexists. split; [reflexivity|]. rewrite <- (cas_go st2 t (WakeLoop (addr x + g) wc ch2 k)). by apply Hun. }
  destruct (Z.eqb_spec (word st2) (addr x + g)) as [Ew|Ew].
  2: { eexists. split; [reflexivity|]. rewrite <- (go_go st2 t (WakeLoop (addr x + g) wc ch2 k)). by apply (reload_ok m2 t (addr x + g)). }
  destruct Hend as [Hend| ->]; [lia|]. assert (Hg16 : 0 <= g < 16) by lia. destruct (cut_current m2 _ _ _ _ _ _ H2 Hg16 Ew) as [-> ->]. cbn [List.last].
  destruct (take_all_ok _ _ _ _ _ _ _ _ _ H2 Hpm) as (st3 & ch3 & E3 & S3 & F3 & Hv3). change (word m2) with (word st2) in E3. rewrite Ew, Eb in E3.
  change (set_word m2 0) with (go (set_word st2 0) t (WakeLoop (addr x + g) wc ch2 k)) in E3. rewrite (insert_go _ _ (WakeLoop (addr x + g) wc ch k)) in E3 by done.
  destruct (insert_at (set_word st2 0) ch2 (addr x)) as [[st4 ch4]| |] eqn:E4; try done. cbn [mbind outcome_bind] in *. injection E3 as <- <-.
  destruct (insert_pcs _ _ _ _ _ E4) as [Ep El].
  assert (Hax : alive st4 x).
  { destruct (listed_alive _ _ _ _ x H1 (listed_queue _ _ _ ltac:(left))) as (px & Hpx & Hin). exists px. split; [|done]. rewrite Ep. cbn [pcs set_word]. by rewrite Hp2. }
  assert (Hs4 : sized st4).
  { unfold sized. rewrite Ep, El. pose proof (i_size _ _ _ _ H2) as Hsz. unfold sized, m2 in Hsz. cbn [blocks pcs go] in Hsz. rewrite length_insert in Hsz. exact Hsz. }
  rewrite cv_store_ok by done. cbn [mbind outcome_bind]. eexists. split; [reflexivity|]. rewrite go_go in Hv3. replace (upd st4 x (set_back 0)) with st4; [done|].
  assert (Hx : back (view st4 x) = 0).
  { change (back (view (go st4 t (WakeLoop (addr x + g) wc ch2 k)) x) = 0). rewrite F3 by left. pose proof (i_seg _ _ _ _ H2) as Hsx. by destruct Hsx as [_ ?]. }
  unfold upd. replace (set_back 0 (view st4 x)) with (view st4 x) by (rewrite <- Hx; by destruct (view st4 x)).
  rewrite list_insert_id; [by destruct st4|by apply alive_block].
Qed.

(** ** RtlpWakeSingle *)

(** The owner removes its own block from the queue. *)
Lemma inv_remove st q f O t p w' bl' p' q' f' : inv st q f O -> pcs st !! t = Some p -> O t = [] ->
  let st' := State w' bl' (<[t := p']> (pcs st)) in
  length bl' = length (blocks st) -> w' = word_of q' f' -> seg (view st') (head_addr q') q' 0 -> NoDup q' ->
  (forall u, u ∈ q' <-> u ∈ q /\ u <> t) -> (forall u, u ∉ q -> view st' u = view st u) -> (forall u, flag (view st' u) = flag (view st u)) ->
  owes (view st') p' [] -> ready (view st') t p' -> lock_ok (pcs st') (view st') q' f' ->
  match phase_of p' with Out => forall t', t ∉ O t' | Owed => has (flag (view st t)) 2 = false /\ exists t', t ∈ O t' | _ => False end ->
  valid st'.
Proof.
  intros H Hp HO st' Hlen Hw Hseg Hnd Hq Hfr Hfl Ho Hrd Hlock Hph. exists q', f', (<[t := []]> O).
  apply (inv_change st q f O t p); try done.
  - constructor.
  - intros u Hu. by apply not_elem_of_nil in Hu.
  - intros u [Hu|Hu%not_elem_of_nil]; [left; by apply Hq|done].
  - intros t' u _ Hu. apply Hfr. intros Hu'. by apply (i_apart _ _ _ _ H t' u).
  - intros u _ Hu. apply Hfr. intros Hu'. apply Hu. by left.
  - intros u _. by rewrite Hfl.
  - intros u Hu Hu'. left. by apply Hq.
  - intros u _. by rewrite HO.
  - set (O' := <[t := []]> O). assert (EO : (exists t', t ∈ O' t') <-> exists t', t ∈ O t').
    { unfold O'. split; intros [t' Hx]; exists t'; (destruct (decide (t' = t)) as [->|]; [|by rewrite fn_lookup_insert_ne in *]).
      - rewrite fn_lookup_insert in Hx. by apply not_elem_of_nil in Hx.
      - rewrite HO in Hx. by apply not_elem_of_nil in Hx. }
    destruct (phase_of p'); try done; cbn [phase_ok].
    + intros [[_ ?]%Hq|[t' Hx]%EO]; [done|]. by apply (Hph t').
    + rewrite EO. change (has (flag (view st' t)) 2 = false /\ exists t', t ∈ O t'). by rewrite Hfl.
Qed.

Lemma last_addr_cons x l : last_addr (x :: l) = addr (List.last l x).
Proof. destruct (cons_snoc x l) as [l0 E]. unfold last_addr. rewrite E at 1. by rewrite last_snoc. Qed.

Section Scan.

Context (st : state) (q1 : list nat) (x : nat) (q2 : list nat) (f g : Z) (O : nat -> list nat) (t : nat) (n : Z) (bRet : bool).
Let p : pc := SingleScan (addr x + g) n bRet.
Hypothesis (H : inv st (q1 ++ x :: q2) f O) (Hp : pcs st !! t = Some p) (Hg8 : 8 <= g < 16).
Hypothesis (Hfr : fresh (view st) q1) (Hin : t ∈ q1 ++ x :: q2 -> t ∈ x :: q2).
Hypothesis (Hn : (exists j e, n = 16 * j + e /\ 8 <= e < 16) \/ last (q1 ++ x :: q2) = Some t).

Lemma scan_locked : 8 <= f < 16.
Proof. by destruct (lock_holder _ _ _ _ _ _ (i_lock _ _ _ _ H) Hp eq_refl). Qed.

Lemma scan_owes : O t = [].
Proof. by destruct (i_owes _ _ _ _ H t _ Hp). Qed.

(** Its block is the last that was queued. *)
Lemma scan_top : x = t -> exists st', single_scan st t (addr x + g) n bRet = Ok st' /\ valid st'.
Proof.
  intros E. pose proof (i_seg _ _ _ _ H) as Hs. apply seg_app in Hs as (m & Hs1 & Hs2). pose proof (seg_head _ _ _ Hs2) as ->. destruct Hs2 as [_ Hs2].
  pose proof (seg_head _ _ _ Hs2) as Hb. pose proof scan_locked as Hf8. pose proof scan_owes as HO. destruct (thread_phase _ _ _ _ _ _ H Hp) as [Hph _].
  unfold single_scan. rewrite addr_block by lia. rewrite (proj2 (Z.eqb_neq _ 0)) by apply cv_addr_pos. rewrite E, Z.eqb_refl.
  rewrite load_ok; [|apply H|by exists p]. cbn [mbind outcome_bind]. assert (Hb' : back (view st t) = head_addr q2) by (by rewrite <- E). rewrite Hb'. set (n' := if head_addr q2 =? 0 then _ else _).
  assert (Hnd : NoDup (x :: q2)) by (by apply owner_part in H as (_ & ? & _)).
  assert (Hn' : match q2 with [] => n' = 0 | y :: _ => exists e, n' = addr y + e /\ 8 <= e < 16 end).
  { unfold n'. destruct q2 as [|y q3]; cbn [head_addr]; [done|]. rewrite (proj2 (Z.eqb_neq _ 0)) by apply cv_addr_pos.
    destruct Hn as [(j & e & -> & He)|Hl].
    - exists e. split; [|done]. rewrite addr_16. apply word_merge. lia.
    - exfalso. rewrite last_app in Hl. destruct (last (x :: y :: q3)) as [z|] eqn:El; [|by apply last_None in El]. injection Hl as ->.
      rewrite last_cons_cons in El. apply last_Some_elem_of in El. subst x. by apply NoDup_cons in Hnd as [? _]. }
  eexists. split; [reflexivity|]. unfold cas. destruct (Z.eqb_spec (word st) (addr t + g)) as [Ew|Ew].
  - rewrite <- E in Ew. assert (Hg16 : 0 <= g < 16) by lia. destruct (cut_current _ _ _ _ _ _ _ H Hg16 Ew) as [Eq1 Ef]. rewrite Eq1 in *. cbn [app] in *.
    apply (inv_remove st (x :: q2) f O t p n' (blocks st) _ q2 (match q2 with [] => 0 | _ => n' - head_addr q2 end)); try done.
    + destruct q2 as [|y q3]; cbn [word_of head_addr]; [done|lia].
    + change (seg (view st) (head_addr q2) q2 0). by rewrite <- Hb.
    + by apply NoDup_cons in Hnd as [_ ?].
    + intros u. rewrite elem_of_cons, E. split; [|tauto]. intros Hu. split; [by right|]. intros ->. rewrite E in Hnd. by apply NoDup_cons in Hnd as [? _].
    + destruct q2; cbn [head_addr]; [by rewrite Z.eqb_refl|]. by rewrite (proj2 (Z.eqb_neq _ 0)) by apply cv_addr_pos.
    + destruct q2; cbn [head_addr]; [by rewrite Z.eqb_refl|]. by rewrite (proj2 (Z.eqb_neq _ 0)) by apply cv_addr_pos.
    + destruct q2 as [|y q3]; cbn [head_addr].
      * rewrite Z.eqb_refl. eapply lock_free; [apply H|exact Hp|done|done|by left].
      * rewrite (proj2 (Z.eqb_neq _ 0)) by apply cv_addr_pos. destruct Hn' as (e & -> & He). eapply lock_keep; [apply H|exact Hp|done| |lia].
        split; [by apply cut_top|]. left. exists (2 * (Z.of_nat y + 1)), e. rewrite addr_16. lia.
    + replace (phase_of _) with Out by (by destruct (head_addr q2 =? 0)). intros t' Ht'. apply (i_apart _ _ _ _ H t' t Ht'). rewrite E. left.
  - exists (q1 ++ x :: q2), f, (<[t := O t]> O). rewrite (go_word st (word_of (q1 ++ x :: q2) f)) by (symmetry; apply (i_word _ _ _ _ H)).
    apply (inv_word st _ f O t p); try done. eapply lock_keep; [apply H|exact Hp|done| |done]. split.
    + rewrite (i_word _ _ _ _ H). destruct q1; cbn [app word_of]; by apply cut_top.
    + destruct q2 as [|y q3]; [right; by rewrite last_app, <- E|]. destruct Hn' as (e & -> & He). left. exists (2 * (Z.of_nat y + 1)), e. rewrite addr_16. lia.
Qed.

(** It is another one: the loop goes through the queue. *)
Lemma scan_rest : x <> t -> exists st', single_scan st t (addr x + g) n bRet = Ok st' /\ valid st'.
Proof.
  intros Hxt. destruct (owner_part _ _ _ _ _ _ H) as (Hseg & Hnd & Hal & Hlen & Hq1). pose proof scan_locked as Hf8. pose proof scan_owes as HO.
  destruct (thread_phase _ _ _ _ _ _ H Hp) as [Hph _]. assert (Hs : sized st) by apply H.
  unfold single_scan. rewrite addr_block by lia. rewrite (proj2 (Z.eqb_neq _ 0)) by apply cv_addr_pos.
  rewrite (proj2 (Z.eqb_neq (addr x) (addr t))) by (intros E%cv_addr_inj; done).
  destruct (scan_ok (S (walk_fuel st)) st t (addr x) [] (x :: q2) bRet) as (st1 & E & [S1 F1 G1 L1]); try done.
  { intros _ [= E]. done. }
  { unfold walk_fuel. cbn. lia. }
  cbn [head_addr last_addr last app] in *. rewrite E. cbn [mbind outcome_bind].
  assert (W : without t (x :: q2) = x :: without t q2) by (unfold without; by rewrite filter_cons_True). rewrite W in *. rewrite last_addr_cons.
  assert (Hax : alive st1 x) by (apply (same_alive st); [done|]; apply Hal; left). assert (Hs1 : sized st1) by (by apply (same_sized st)).
  rewrite cv_store_ok by done. cbn [mbind outcome_bind]. set (q3 := without t q2) in *. set (st2 := upd st1 x _). set (b := bRet || _).
  eexists. split; [reflexivity|].
  assert (V2 : forall u, view st2 u = if decide (u = x) then set_notify (addr (List.last q3 x)) (view st1 x) else view st1 u) by (intros u; by apply view_upd).
  assert (S2 : same st st2) by (eapply same_trans; [done|]; by apply same_upd).
  assert (Hq3 : forall u, u ∈ x :: q3 <-> u ∈ x :: q2 /\ u <> t) by (intros u; rewrite <- W; unfold without; rewrite list_elem_of_filter; tauto).
  assert (Ht1 : t ∉ q1) by (intros Ht; apply (Hq1 t Ht), Hin, elem_of_app; by left).
  assert (F2 : forall u, u ∉ x :: q2 -> view st2 u = view st u) by (intros u Hu; rewrite V2, decide_False by (intros ->; apply Hu; left); by apply F1).
  unfold go. rewrite (same_word _ _ S2), (same_pcs _ _ S2).
  apply (inv_remove st (q1 ++ x :: q2) f O t p (word st) (blocks st2) _ (q1 ++ x :: q3) f); try done.
  - apply (same_size _ _ S2).
  - rewrite (i_word _ _ _ _ H). by destruct q1.
  - change (seg (view st2) (head_addr (q1 ++ x :: q3)) (q1 ++ x :: q3) 0). replace (head_addr (q1 ++ x :: q3)) with (head_addr (q1 ++ x :: q2)) by (by destruct q1).
    pose proof (i_seg _ _ _ _ H) as Hsq. apply seg_app in Hsq as (m & Hsq1 & Hsq2). pose proof (seg_head _ _ _ Hsq2) as ->. apply seg_app. exists (addr x). split.
    + apply (seg_ext (view st)); [|done]. intros u Hu. by rewrite F2 by (by apply Hq1).
    + apply (seg_ext (view st1)); [|done]. intros u _. rewrite V2. destruct (decide (u = x)) as [Eu|]; [by rewrite Eu|done].
  - pose proof (i_nodup _ _ _ _ H) as Hndq. apply NoDup_app in Hndq as (Hn1 & Hn2 & Hn3). apply NoDup_app. split_and!; [done| |].
    + intros u Hu Hu'. apply Hq3 in Hu' as [Hu' _]. by apply (Hn2 u).
    + rewrite <- W. unfold without. by apply NoDup_filter.
  - intros u. rewrite !elem_of_app, Hq3. split; [|tauto]. intros [Hu|[Hu ?]]; [|tauto]. split; [by left|]. by intros ->.
  - intros u Hu. apply F2. intros Hu'. apply Hu, elem_of_app. by right.
  - apply (same_flag _ _ S2).
  - eapply lock_keep; [apply H|exact Hp|done| |done]. exists q1, x, q3, g. split; [done|]. split; [done|]. split; [done|]. split.
    + apply Forall_forall. intros u Hu. change (next (view st2 u) = 0 /\ notify (view st2 u) = 0). rewrite F2 by (by apply Hq1). by apply (proj1 (Forall_forall _ _) Hfr).
    + change (good (view st2) 0 (x :: q3)). destruct L1 as [L1 L1']. cbn [good]. rewrite V2, decide_True by done. cbn [set_notify next notify]. split; [by left|]. right. split; [done|].
      apply (linked_ext (view st1)); [|done]. intros u _. rewrite V2. destruct (decide (u = x)) as [Eu|]; [by rewrite Eu|done].
  - cbn [phase_of]. unfold b. cbn [p phase_of] in Hph. destruct bRet; cbn [orb phase_ok] in *; [intros t' Ht'; apply Hph; by eapply listed_owed|].
    case_bool_decide as Ht.
    + intros t' Ht'. apply (i_apart _ _ _ _ H t' t Ht'), elem_of_app. by right.
    + destruct Hph as [? [Hl|?]]; [|done]. by apply Hin in Hl.
Qed.

End Scan.

Lemma single_scan_ok st t s n bRet : valid st -> pcs st !! t = Some (SingleScan s n bRet) -> exists st', single_scan st t s n bRet = Ok st' /\ valid st'.
Proof.
  intros (q & f & O & H) Hp. destruct (lock_holder _ _ _ _ _ _ (i_lock _ _ _ _ H) Hp eq_refl) as (Hf8 & [(q1 & x & q2 & g & -> & -> & Hg8 & Hfr & Hin) Hn] & _).
  destruct (decide (x = t)) as [E|E]; [by apply (scan_top st q1 x q2 f g O)|by apply (scan_rest st q1 x q2 f g O)].
Qed.

End CondVarOwner.
