(* ===== verification/CondVarSpec.v ===== *)
(** * What condition variables promise

    In every interleaving of sleeping and waking threads no thread touches the
    block of a thread that has gone, and no sleeping thread is forgotten, as
    long as the five milliseconds of the second wait are enough; a wake call
    takes out the thread that has slept longest.  Two runs show where the code
    falls short. *)
From stdpp Require Import functions.
From S2P Require Import Prelude CondVar CondVarList CondVarInv CondVarSteps CondVarOwner.
Import CondVar CondVarList CondVarInv CondVarSteps CondVarOwner.

Module CondVarSpec.

Lemma valid_initial n : valid (initial n).
Proof.
  exists [], 0, (fun _ => []). assert (Hi : forall t p, replicate n Idle !! t = Some p -> p = Idle) by (by intros t p [-> _]%lookup_replicate).
  split; cbn [initial word pcs].
  - unfold sized. cbn. by rewrite !length_replicate.
  - done.
  - done.
  - constructor.
  - left. split; [done|]. split; [by intros t p ->%Hi|by left].
  - intros t p ->%Hi. split; [done|constructor].
  - done.
  - intros t u Hu. by apply not_elem_of_nil in Hu.
  - intros t t' u Hu. by apply not_elem_of_nil in Hu.
  - intros u. assert (Hn : ~ listed [] (fun _ => []) u) by (by intros [Hu|[_ Hu]]; apply not_elem_of_nil in Hu).
    unfold thread_fine. cbn [pcs initial]. destruct (replicate n Idle !! u) as [p|] eqn:E; [|done]. apply Hi in E as ->. by split.
Qed.

(** The second wait never runs out. *)
Definition timely (e : event) : bool := match e with Expire _ => false | _ => true end.

Lemma access_ok st t p o : valid st -> pcs st !! t = Some p -> access st t p = Some o -> exists st', o = Ok st' /\ valid st'.
Proof.
  intros Hv Hp Ha. destruct p; try done; cbn [access] in Ha; injection Ha as <-.
  - eexists. split; [reflexivity|]. by eapply move_ok.
  - by apply push_ok.
  - by apply optimize_ok.
  - by apply sleep_btr_ok.
  - eexists. split; [reflexivity|]. by apply single_loop_ok.
  - by apply single_scan_ok.
  - eexists. split; [reflexivity|]. by eapply move_ok.
  - eexists. split; [reflexivity|]. by eapply move_ok.
  - eexists. split; [reflexivity|]. by apply wake_try_ok.
  - eexists. split; [reflexivity|]. by apply all_try_ok.
  - by apply wake_round_ok.
  - by apply cv_release_ok.
  - by apply release_set_ok.
Qed.

Lemma cv_exec_ok cv e st o : valid st -> timely e = true -> exec cv e st = Some o -> exists st', o = Ok st' /\ valid st'.
Proof.
  intros Hv He. destruct e as [t c|t|t u|u|u]; cbn [exec]; [| | | |done].
  - destruct (pcs st !! t) as [[]|] eqn:Hp; try done. intros [= <-]. eexists. split; [reflexivity|]. by apply entry_ok.
  - destruct (pcs st !! t) as [p|] eqn:Hp; [|done]. by apply access_ok.
  - destruct (pcs st !! t) as [[]|] eqn:Hp; try done. destruct (pcs st !! u) as [pu|] eqn:Hpu; [|done].
    destruct (at_key pu) eqn:Hk; [|done]. destruct (Z.eqb_spec p (addr u)) as [->|]; [|done]. intros [= <-]. eexists. split; [reflexivity|]. by eapply cv_meet_ok.
  - destruct (pcs st !! u) as [[]|] eqn:Hp; try done. intros [= <-]. eexists. split; [reflexivity|]. by eapply move_ok.
Qed.

Lemma reachable_valid cv n st : reachable cv timely n st -> valid st.
Proof.
  induction 1 as [|st e st' _ IH He E]; [apply valid_initial|]. by destruct (cv_exec_ok cv e st _ IH He E) as (st1 & [= ->] & Hv).
Qed.

Lemma cv_run_reachable cv admits n l st st' : reachable cv admits n st -> Forall (fun e => admits e = true) l -> run cv l st = Some st' -> reachable cv admits n st'.
Proof.
  intros Hr Hl. revert st Hr. induction Hl as [|e l He _ IH]; intros st Hr; cbn [run]; [by intros [= <-]|].
  destruct (exec cv e st) as [[st1| |]|] eqn:E; try done. apply IH. by eapply reach_step.
Qed.

(** ** Safety *)

(** Two threads sleep, the time of the second one runs out, and it has the
    list. *)
Definition sleeping (t : nat) : list event := [Call t (Sleep false); Do t; Do t].

Definition scanning : list event :=
  sleeping 0 ++ [Do 0%nat] ++ sleeping 1 ++ [Do 1%nat; Do 1%nat; TimeOut 1; Do 1%nat; Do 1%nat].

Definition after (cv : Z) (l : list event) : state := default (initial 3) (run cv l (initial 3)).

Lemma cv_after_reachable cv admits l : forallb admits l = true -> bool_decide (is_Some (run cv l (initial 3))) = true -> reachable cv admits 3 (after cv l).
Proof.
  intros Hl [st E]%bool_decide_eq_true. unfold after. rewrite E. cbn [default]. apply (cv_run_reachable cv admits 3 l (initial 3)); [constructor| |done].
  apply Forall_forall. intros e He. rewrite forallb_forall in Hl. by apply Hl, list_elem_of_In.
Qed.

(** C3. Memory safety: in every interleaving of RtlSleepConditionVariableCS or
    SRW, RtlWakeConditionVariable and RtlWakeAllConditionVariable, with time
    running out anywhere, no thread accesses the wait block of a thread that
    has returned, and no loop over the list runs on, as long as the second wait
    of SecondWaitWorkaroundNtWaitForKeyedEvent does not run out. *)
Theorem ConditionVariable_safe cv n st e o : reachable cv timely n st -> exec cv e st = Some o -> exists st', o = Ok st'.
Proof.
  intros Hr%reachable_valid He. destruct (timely e) eqn:Ht.
  - destruct (cv_exec_ok cv e st o Hr Ht He) as (st' & -> & _). by exists st'.
  - destruct e as [| | | |u]; try done. cbn [exec] in He. destruct (pcs st !! u) as [[]|], (blocks st !! u) as [b|]; try done.
    destruct (uWakeupThreadId b =? 0); [done|]. injection He as <-. by eexists.
Qed.

Lemma ConditionVariable_safe_witness : exists st', exec 16 (Do 1) (after 16 scanning) = Some (Ok st').
Proof.
  destruct (exec 16 (Do 1) (after 16 scanning)) as [o|] eqn:E; [|by vm_compute in E].
  destruct (ConditionVariable_safe 16 3 (after 16 scanning) (Do 1) o) as [st' ->]; [by apply cv_after_reachable|done|by exists st'].
Defined.

(** ** The sleeping threads *)

(** The threads whose blocks the fields [back] lead to. *)
Fixpoint follow (fuel : nat) (st : state) (a : Z) : list nat :=
  match fuel with
  | O => []
  | S fuel => if a =? 0 then [] else thread_at a :: follow fuel st (back (view st (thread_at a)))
  end.

(** The list of the variable, newest first; the blocks that a thread has taken
    out and is going to release. *)
Definition queue_of (st : state) : list nat := follow (length (blocks st)) st (YY_CV_GET_BLOCK (word st)).

Definition taken_by (st : state) (p : pc) : list nat :=
  let n := length (blocks st) in
  match p with
  | WakeLoop _ _ ch _ => follow n st (pWake ch)
  | Release p _ => follow n st p
  | ReleaseSet p r _ | ReleaseKey p r _ => thread_at p :: follow n st r
  | _ => []
  end.

Lemma seg_follow st l : forall fuel a, seg (view st) a l 0 -> (length l <= fuel)%nat -> follow fuel st a = l.
Proof.
  induction l as [|x l IH]; intros fuel a Hs Hl; cbn [seg] in Hs.
  - subst. by destruct fuel.
  - destruct Hs as [-> Hs]. destruct fuel as [|fuel]; [cbn in Hl; lia|]. cbn [follow]. rewrite (proj2 (Z.eqb_neq _ 0)) by apply cv_addr_pos.
    rewrite cv_thread_at_addr. f_equal. apply IH; [done|]. cbn in Hl. lia.
Qed.

Lemma alive_length st l : sized st -> NoDup l -> (forall u, u ∈ l -> alive st u) -> (length l <= length (blocks st))%nat.
Proof.
  intros Hs Hnd Ha. rewrite <- (length_seq (length (blocks st)) 0). apply NoDup_incl_length; [by apply NoDup_ListNoDup|].
  intros u Hu. apply list_elem_of_In in Hu. destruct (Ha u Hu) as (p & Hp & _). apply lookup_lt_Some in Hp. apply in_seq. unfold sized in Hs. lia.
Qed.

Lemma queue_is st q f O : inv st q f O -> queue_of st = q.
Proof.
  intros H. pose proof (i_seg _ _ _ _ H) as Hs. apply seg_follow; [|by eapply queue_length]. replace (YY_CV_GET_BLOCK (word st)) with (head_addr q); [done|].
  rewrite (i_word _ _ _ _ H). pose proof (lock_flags _ _ _ _ (i_lock _ _ _ _ H)). destruct q; [done|]. cbn. by rewrite addr_block.
Qed.

Lemma taken_is st q f O t p : inv st q f O -> pcs st !! t = Some p -> taken_by st p = O t.
Proof.
  intros H Hp. destruct (i_owes _ _ _ _ H t p Hp) as [Ho Hnd].
  assert (Hl : forall l, (forall u, u ∈ l -> u ∈ O t) -> NoDup l -> (length l <= length (blocks st))%nat).
  { intros l Hin Hn. apply alive_length; [apply H|done|]. intros u Hu. eapply listed_alive; [done|]. eapply listed_owed. by apply Hin. }
  destruct p; cbn [owes taken_by] in *; try done.
  - apply seg_follow; [by destruct Ho|by apply Hl].
  - apply seg_follow; [by destruct Ho|by apply Hl].
  - destruct Ho as (u & o & E & -> & Hs & _). rewrite E, cv_thread_at_addr in *. f_equal. apply NoDup_cons in Hnd as [_ Hnd].
    apply seg_follow; [done|]. apply Hl; [intros v Hv; by right|done].
  - destruct Ho as (u & o & E & -> & Hs & _). rewrite E, cv_thread_at_addr in *. f_equal. apply NoDup_cons in Hnd as [_ Hnd].
    apply seg_follow; [done|]. apply Hl; [intros v Hv; by right|done].
Qed.

(** C32. No sleeping thread is forgotten, in every run in which the second
    wait of SecondWaitWorkaroundNtWaitForKeyedEvent does not run out (it gives
    up after five milliseconds; SecondWait_use_after_return shows what happens
    then): a thread that waits at its key is in
    the list of the variable, or another thread has taken its block out and is
    going to release it; no thread is in two of these places. *)
Theorem ConditionVariable_keeps cv n st u p : reachable cv timely n st -> pcs st !! u = Some p -> at_key p = true ->
  (u ∈ queue_of st \/ exists t pt, t <> u /\ pcs st !! t = Some pt /\ u ∈ taken_by st pt) /\
  NoDup (queue_of st) /\ (forall t pt, pcs st !! t = Some pt -> u ∈ taken_by st pt -> u ∉ queue_of st) /\
  (forall t t' pt pt', pcs st !! t = Some pt -> pcs st !! t' = Some pt' -> u ∈ taken_by st pt -> u ∈ taken_by st pt' -> t = t').
Proof.
  intros (q & f & O & H)%reachable_valid Hp Hk. rewrite (queue_is _ _ _ _ H). destruct (thread_phase _ _ _ _ _ _ H Hp) as [Hph _]. split_and!.
  - assert (Hl : listed q O u) by (destruct p; try done; apply Hph). destruct Hl as [?|[t Ht]]; [by left|right].
    destruct (pcs st !! t) as [pt|] eqn:Hpt; [|rewrite (i_none _ _ _ _ H t Hpt) in Ht; by apply not_elem_of_nil in Ht].
    exists t, pt. rewrite (taken_is _ _ _ _ t pt H Hpt). split_and!; [|done|done]. intros ->. destruct (i_owes _ _ _ _ H u p Hp) as [Ho _].
    destruct p; try done; cbn [owes] in Ho; rewrite Ho in Ht; by apply not_elem_of_nil in Ht.
  - apply H.
  - intros t pt Hpt. rewrite (taken_is _ _ _ _ t pt H Hpt). apply (i_apart _ _ _ _ H).
  - intros t t' pt pt' Hpt Hpt'. rewrite (taken_is _ _ _ _ t pt H Hpt), (taken_is _ _ _ _ t' pt' H Hpt'). apply (i_once _ _ _ _ H).
Qed.

Lemma ConditionVariable_keeps_witness : 0%nat ∈ queue_of (after 16 scanning).
Proof.
  destruct (ConditionVariable_keeps 16 3 (after 16 scanning) 0 SleepKeyed) as [[?|(t & pt & Ht & Hpt & Hu)] _]; [by apply cv_after_reachable|by vm_compute|done|done|].
  exfalso. destruct t as [|[|[|t]]]; [done| | |]; vm_compute in Hpt; first [discriminate Hpt|injection Hpt as <-; vm_compute in Hu; by apply not_elem_of_nil in Hu].
Defined.

(** ** The order of waking *)

Lemma last_cons_last (x : nat) l : last (x :: l) = Some (List.last l x).
Proof. destruct (cons_snoc x l) as [l0 E]. rewrite E at 1. apply last_snoc. Qed.

(** One round of RtlpWakeConditionVariable for one thread, undisturbed. *)
Lemma round_one st t x q2 O : inv st (x :: q2) 8 O -> pcs st !! t = Some (WakeLoop (addr x + 8) 1 no_chain Return) ->
  exists st', wake_round st t (addr x + 8) 1 no_chain Return = Ok st' /\ pcs st' !! t = Some (Release (addr (List.last q2 x)) Return) /\
    back (view st' (List.last q2 x)) = 0 /\ length (blocks st') = length (blocks st).
Proof.
  intros H Hp. destruct (lock_holder _ _ _ _ _ _ (i_lock _ _ _ _ H) Hp eq_refl) as (_ & (q1 & x' & q2' & g & Eq & Es & Hg8 & Hfr & Hg) & _).
  apply addr_flags_inj in Es as [<- <-]; [|lia|lia]. assert (Hg16 : 0 <= 8 < 16) by lia. assert (Hlt : (t < length (pcs st))%nat) by (by eapply lookup_lt_Some).
  assert (Hw : word st = addr x + 8) by apply (i_word _ _ _ _ H). rewrite Eq in H. destruct (cut_current _ _ _ _ _ _ _ H Hg16 Hw) as [-> _]. cbn [app] in Eq. injection Eq as <-.
  unfold wake_round. rewrite flag_count by lia. rewrite addr_block by lia. change (8 - 8) with 0. change (0 =? 7) with false. change (1 + 0) with 1.
  destruct (round_walk st [] x q2 8 8 O t 1 no_chain Return H Hp Hg8 Hfr Hg) as (st1 & y & O1 & -> & H1 & EO & Hp1 & Hw1 & Hfr1 & Hg1 & Hlk1 & Hy & Hny).
  cbn [mbind outcome_bind app no_chain Count] in *. change (1 <=? 0) with false. rewrite load_ok; [|apply H1|eapply listed_alive; [done|]; by left]. cbn [mbind outcome_bind]. rewrite Hny.
  assert (HO : O1 t = []).
  { rewrite EO. destruct (i_owes _ _ _ _ H t _ Hp) as [[Hs _] _]. cbn [pWake no_chain] in Hs. destruct (O t) as [|v o]; [done|]. destruct Hs as [Hs _]. by destruct (cv_addr_pos v). }
  destruct (owner_part _ [] _ _ _ _ H1) as (Hseg & Hnd & Hal & Hlen & _).
  destruct (dequeue_ok (walk_fuel st1) st1 x q2 1 no_chain []) as (st2 & m1 & d & ch2 & -> & [D1 D2 D3 D4 D5 D6 D7 D8] & Hend & Hmax); rewrite ?app_nil_r; try done; [apply H1|unfold walk_fuel; lia|].
  cbn [mbind outcome_bind app Count no_chain] in *. assert (Hpl : (t < length (pcs st2))%nat) by (by rewrite (same_pcs _ _ D2), Hp1).
  assert (Hbl : length (blocks st2) = length (blocks st)) by (rewrite (same_size _ _ D2); pose proof (i_size _ _ _ _ H1); pose proof (i_size _ _ _ _ H); unfold sized in *; congruence).
  destruct (Z.leb_spec 1 (Count ch2)) as [Hc|Hc].
  - destruct d as [|z [|z' d]]; [cbn in D7; lia| |cbn in D7; lia]. unfold cas. rewrite (same_word _ _ D2), Hw1, Hw, Z.eqb_refl.
    assert (Ez : List.last q2 x = z) by (rewrite D1; apply last_last). rewrite Ez. destruct D6 as [D6 _]. cbn [rev app seg] in D6. destruct D6 as [Epw Ebk].
    unfold release_rest. rewrite Epw, (proj2 (Z.eqb_neq _ 0)) by apply cv_addr_pos. eexists. split; [reflexivity|].
    split_and!; [unfold go; cbn [pcs set_word]; by apply list_lookup_insert_eq|done|done].
  - destruct d as [|z d]; [|cbn in D7; lia]. destruct Hend as [?|Em1]; [lia|]. subst m1. cbn [app is_nil] in *. rewrite D1 in *. cbn [List.last] in *. subst st2.
    rewrite Hw1, Hw, Z.eqb_refl. destruct D6 as [D6 D6']. cbn [rev last fmap option_fmap option_map] in D6'. unfold insert_at. rewrite D6'. cbn [mbind outcome_bind pWake].
    rewrite cv_store_ok; [|apply H1|apply (Hal x); left]. cbn [mbind outcome_bind]. unfold release_rest. rewrite (proj2 (Z.eqb_neq _ 0)) by apply cv_addr_pos.
    eexists. split; [reflexivity|]. split_and!; [unfold go; cbn [pcs set_word upd]; by apply list_lookup_insert_eq| |].
    + change (back (view (upd (set_word st1 0) x (set_back 0)) x) = 0). rewrite view_upd, decide_True by (try apply H1; try done; apply (Hal x); left). done.
    + unfold go. cbn [blocks upd set_word]. by rewrite length_insert.
Qed.

(** RtlWakeConditionVariable, undisturbed, wakes the thread that has slept
    longest: when the list is not empty and nobody works on it, four steps
    take the block of its first thread out, and no other, for release. *)
Theorem RtlWakeConditionVariable_oldest cv n st t : reachable cv timely n st -> pcs st !! t = Some Idle -> word st <> 0 -> has (word st) 8 = false ->
  exists st' z, run cv [Call t Wake; Do t; Do t; Do t] st = Some st' /\ last (queue_of st) = Some z /\
    pcs st' !! t = Some (Release (addr z) Return) /\ taken_by st' (Release (addr z) Return) = [z].
Proof.
  intros (q & f & O & H)%reachable_valid Hp Hw0 H8. rewrite (queue_is _ _ _ _ H). destruct (word_inv _ _ _ _ H Hw0) as (x & q2 & -> & Hw & Hf).
  rewrite Hw, flag_has in H8 by done. assert (f = 0) as -> by lia. assert (Hlt : (t < length (pcs st))%nat) by (by eapply lookup_lt_Some).
  assert (Hgo : forall s p, length (pcs s) = length (pcs st) -> pcs (go s t p) !! t = Some p) by (intros s p E; unfold go; cbn [pcs]; apply list_lookup_insert_eq; by rewrite E).
  set (st3 := go (set_word st (addr x + 8)) t (WakeLoop (addr x + 8) 1 no_chain Return)).
  assert (H3 : inv st3 (x :: q2) 8 (<[t := O t]> O)).
  { unfold st3. destruct (thread_phase _ _ _ _ _ _ H Hp) as [Hph _]. assert (HO : O t = []) by (by eapply holds_owes).
    apply (inv_word st (x :: q2) 0 O t Idle); try done; [by rewrite HO|]. apply (lock_take _ (view st) (x :: q2) t Idle); [apply H|done| |lia]. apply cut_top; [lia|].
    destruct (i_lock _ _ _ _ H) as [(_ & _ & [?|?])|[? _]]; [done|done|lia]. }
  destruct (round_one st3 t x q2 _ H3 (Hgo _ _ eq_refl)) as (st' & E & Hp' & Hb & Hl). exists st', (List.last q2 x).
  split_and!; [|apply last_cons_last|done|].
  - cbn [run]. unfold exec at 1. rewrite Hp. cbn [entry]. unfold exec at 1. rewrite Hgo by done. cbn [access]. rewrite go_go.
    unfold exec at 1. rewrite Hgo by done. cbn [access]. unfold wake_try. change (word (go st t WakeRead)) with (word st). rewrite Hw.
    assert (Enz : (addr x + 0 =? 0) = false) by (apply Z.eqb_neq; rewrite Z.add_0_r; apply cv_addr_pos). rewrite Enz. rewrite flag_has by done. cbn [Z.leb Z.compare].
    rewrite cas_go. unfold cas. rewrite Hw, Z.eqb_refl, flag_lock, Z.add_0_r. fold st3. unfold exec at 1. unfold st3 at 1. rewrite Hgo by done. cbn [access]. by rewrite E.
  - cbn [taken_by]. apply seg_follow; [by split|]. rewrite Hl. cbn [length]. destruct (owner_part _ [] _ _ _ _ H) as (_ & _ & _ & Hlen & _). change (blocks st3) with (blocks st). lia.
Qed.

Definition two_asleep : list event := sleeping 0 ++ [Do 0%nat] ++ sleeping 1 ++ [Do 1%nat; Do 1%nat].

Lemma RtlWakeConditionVariable_oldest_witness : exists st' z, run 16 [Call 2 Wake; Do 2; Do 2; Do 2] (after 16 two_asleep) = Some st' /\
  last (queue_of (after 16 two_asleep)) = Some z /\ pcs st' !! 2%nat = Some (Release (addr z) Return) /\ taken_by st' (Release (addr z) Return) = [z].
Proof. apply (RtlWakeConditionVariable_oldest 16 3 (after 16 two_asleep) 2); [by apply cv_after_reachable|by vm_compute|by vm_compute|by vm_compute]. Defined.

(** ** Where the code falls short *)

(** RtlpWakeSingle loses a wake-up.  Thread 0 sleeps, the time of thread 1
    has run out and it owns the list; thread 2 calls RtlWakeConditionVariable,
    which counts the request in the word and returns.  Thread 1 then retries
    its exchange with the flags it read before, and when it has returned thread
    0 still sleeps and no thread is left to wake it. *)
Theorem RtlpWakeSingle_loses_wake : exists st1 st2 st3, reachable 16 timely 3 st1 /\ pcs st1 !! 0%nat = Some SleepKeyed /\
  run 16 [Call 2 Wake; Do 2; Do 2] st1 = Some st2 /\ pcs st2 !! 2%nat = Some Idle /\ Z.land (word st2) 7 = 1 /\
  run 16 (replicate 5 (Do 1)) st2 = Some st3 /\ pcs st3 = [SleepKeyed; Idle; Idle] /\ queue_of st3 = [0%nat].
Proof.
  exists (after 16 scanning). eexists _, _. split; [by apply cv_after_reachable|]. split; [by vm_compute|]. split; [by vm_compute|]. split; [by vm_compute|].
  split; [by vm_compute|]. split; [by vm_compute|]. by split; vm_compute.
Qed.

(** Thread 2 wakes thread 0 and is stopped in front of NtReleaseKeyedEvent;
    the time of thread 0 runs out, then the five milliseconds of its second
    wait; it sleeps again, meets the old release, and leaves with its block in
    the list. *)
Definition expired : list event :=
  sleeping 0 ++ [Do 0%nat; Call 2 Wake; Do 2%nat; Do 2%nat; Do 2%nat; Do 2%nat; Do 2%nat; TimeOut 0; Do 0%nat; Do 0%nat; Expire 0; Do 0%nat] ++
  sleeping 0 ++ [Do 0%nat; Meet 2 0; Do 0%nat; Call 1 Wake; Do 1%nat; Do 1%nat].

(** When the five milliseconds of SecondWaitWorkaroundNtWaitForKeyedEvent
    run out before the waking thread has called NtReleaseKeyedEvent, its
    release meets a later sleep of the same thread, which returns with its
    block still queued; the next wake call reads the block of a frame that is
    gone. *)
Theorem SecondWait_use_after_return : exists st, reachable 16 (fun _ => true) 3 st /\ exec 16 (Do 1) st = Some Fault.
Proof. exists (after 16 expired). split; [by apply cv_after_reachable|by vm_compute]. Qed.

End CondVarSpec.
