(* ===== verification/Threadpool.v ===== *)
(** * The thread pool: data and functions (oca/extensions/ntext/rtl/threadpool.c)

    A pool runs the callbacks of its objects on worker threads.  An object is a
    work item, a timer, a wait, an I/O completion or a simple callback; it keeps
    its pool alive, may be a member of a cleanup group, and lives as long as its
    reference count is positive.  Pools, groups and the queue of timers are
    each guarded by a critical section.

    Threads run interleaved.  A step is the body of one critical section, one
    interlocked operation, or an access to memory that no lock guards; a
    function that keeps a critical section over several such steps (a worker
    that releases an object, the timer thread that submits timers, the release
    of the members of a group) is recorded as its owner in between.  A thread
    has a stack of frames, one per function that has begun, because a callback
    may call any function of the interface.

    Memory is a list of cells that are never reused: a cell that was freed is
    [None], and an access to it, or an ASSERT that does not hold, is [Crash].
    The flag of a cell says that the client has a pointer from an allocation
    and has not released it; a call that breaks the contract of the interface
    is [Misuse].  Calls of the system that can fail (memory, threads, kernel
    timers) and the clocks are decided by the label of the step.  Counters are
    unbounded: each of them counts threads, objects or queued callbacks.

    The timers' part is here; [IoQueue] and [WaitQueue] hold the queues of I/O
    completions and of waits. *)
From S2P Require Import Prelude.

Module Tp.

Definition u64 (z : Z) : Z := z mod 2 ^ 64.
Definition MAXLONGLONG : Z := 0x7fffffffffffffff.
Definition STATUS_TOO_MANY_THREADS : Z := 0xC0000129.

(** TP_CALLBACK_PRIORITY, the index of the list of a pool *)
Definition PRIORITY_HIGH : nat := 0%nat.
Definition PRIORITY_NORMAL : nat := 1%nat.
Definition PRIORITY_LOW : nat := 2%nat.

(** ** Objects *)

(** The members timer, wait and io of the union u. *)
Record timer := Timer {
  timer_initialized : bool; timer_pending : bool; timer_set : bool;
  timeout : Z; period : Z; window_length : Z }.

Record wait := Wait {
  signaled : Z; bucket : option nat; wait_pending : bool;
  wait_timeout : Z; handle : Z; duped_handle : Z; wait_flags : Z }.

(** struct io_completion *)
Record io_completion := Completion { iosb : Z; cvalue : Z }.

Record io := Io {
  pending_count : Z; skipped_count : Z; completion_count : Z; completion_max : Z;
  shutting_down : bool; completions : list io_completion }.

Inductive objdata :=
| USimple | UWork | UTimer (x : timer) | UWait (x : wait) | UIo (x : io).

(** enum threadpool_objtype: the member of the union that is in use *)
Inductive objtype :=
| TP_OBJECT_TYPE_SIMPLE | TP_OBJECT_TYPE_WORK | TP_OBJECT_TYPE_TIMER
| TP_OBJECT_TYPE_WAIT | TP_OBJECT_TYPE_IO.

#[global] Instance objtype_eq : EqDecision objtype.
Proof. solve_decision. Defined.

Definition objtype_of (u : objdata) : objtype :=
  match u with
  | USimple => TP_OBJECT_TYPE_SIMPLE
  | UWork => TP_OBJECT_TYPE_WORK
  | UTimer _ => TP_OBJECT_TYPE_TIMER
  | UWait _ => TP_OBJECT_TYPE_WAIT
  | UIo _ => TP_OBJECT_TYPE_IO
  end.

(** struct threadpool_object.  The condition variables are the threads that
    sleep on them. *)
Record object := Object {
  refcount : Z; shutdown : bool; opool : nat; ogroup : option nat;
  group_cancel_callback : bool; finalization_callback : bool;
  may_run_long : bool; priority : nat; is_group_member : bool;
  num_pending_callbacks : Z; num_running_callbacks : Z; num_associated_callbacks : Z;
  u : objdata }.

Definition otype (ob : object) : objtype := objtype_of (u ob).

Definition set_refcount (v : Z) (ob : object) : object :=
  Object v (shutdown ob) (opool ob) (ogroup ob) (group_cancel_callback ob)
    (finalization_callback ob) (may_run_long ob) (priority ob) (is_group_member ob)
    (num_pending_callbacks ob) (num_running_callbacks ob) (num_associated_callbacks ob) (u ob).

Definition set_shutdown (ob : object) : object :=
  Object (refcount ob) true (opool ob) (ogroup ob) (group_cancel_callback ob)
    (finalization_callback ob) (may_run_long ob) (priority ob) (is_group_member ob)
    (num_pending_callbacks ob) (num_running_callbacks ob) (num_associated_callbacks ob) (u ob).

Definition set_member (v : bool) (ob : object) : object :=
  Object (refcount ob) (shutdown ob) (opool ob) (ogroup ob) (group_cancel_callback ob)
    (finalization_callback ob) (may_run_long ob) (priority ob) v
    (num_pending_callbacks ob) (num_running_callbacks ob) (num_associated_callbacks ob) (u ob).

(** The three counters of callbacks. *)
Definition set_callbacks (pending running associated : Z) (ob : object) : object :=
  Object (refcount ob) (shutdown ob) (opool ob) (ogroup ob) (group_cancel_callback ob)
    (finalization_callback ob) (may_run_long ob) (priority ob) (is_group_member ob)
    pending running associated (u ob).

Definition set_u (v : objdata) (ob : object) : object :=
  Object (refcount ob) (shutdown ob) (opool ob) (ogroup ob) (group_cancel_callback ob)
    (finalization_callback ob) (may_run_long ob) (priority ob) (is_group_member ob)
    (num_pending_callbacks ob) (num_running_callbacks ob) (num_associated_callbacks ob) v.

(** ** Pools and groups *)

(** TP_POOL_STACK_INFORMATION *)
Record stack_information := StackInfo { StackReserve : Z; StackCommit : Z }.

(** struct threadpool; [cs] is the owner of the critical section. *)
Record pool := Pool {
  prefcount : Z; objcount : Z; pshutdown : bool; pcs : option nat;
  queues : list (list nat);
  max_workers : Z; min_workers : Z; num_workers : Z; num_busy_workers : Z;
  stack_info : stack_information; base_priority : Z }.

(** The reference count and the number of objects. *)
Definition set_prefcount (v : Z) (p : pool) : pool :=
  Pool v (objcount p) (pshutdown p) (pcs p) (queues p) (max_workers p)
    (min_workers p) (num_workers p) (num_busy_workers p) (stack_info p) (base_priority p).

Definition set_objcount (v : Z) (p : pool) : pool :=
  Pool (prefcount p) v (pshutdown p) (pcs p) (queues p) (max_workers p)
    (min_workers p) (num_workers p) (num_busy_workers p) (stack_info p) (base_priority p).

Definition set_pshutdown (p : pool) : pool :=
  Pool (prefcount p) (objcount p) true (pcs p) (queues p) (max_workers p)
    (min_workers p) (num_workers p) (num_busy_workers p) (stack_info p) (base_priority p).

Definition set_pcs (v : option nat) (p : pool) : pool :=
  Pool (prefcount p) (objcount p) (pshutdown p) v (queues p) (max_workers p)
    (min_workers p) (num_workers p) (num_busy_workers p) (stack_info p) (base_priority p).

Definition set_queues (v : list (list nat)) (p : pool) : pool :=
  Pool (prefcount p) (objcount p) (pshutdown p) (pcs p) v (max_workers p)
    (min_workers p) (num_workers p) (num_busy_workers p) (stack_info p) (base_priority p).

Definition set_workers (num busy : Z) (p : pool) : pool :=
  Pool (prefcount p) (objcount p) (pshutdown p) (pcs p) (queues p) (max_workers p)
    (min_workers p) num busy (stack_info p) (base_priority p).

Definition set_limits (mx mn : Z) (p : pool) : pool :=
  Pool (prefcount p) (objcount p) (pshutdown p) (pcs p) (queues p) mx
    mn (num_workers p) (num_busy_workers p) (stack_info p) (base_priority p).

Definition set_stack_info (si : stack_information) (prio : Z) (p : pool) : pool :=
  Pool (prefcount p) (objcount p) (pshutdown p) (pcs p) (queues p) (max_workers p)
    (min_workers p) (num_workers p) (num_busy_workers p) si prio.

(** struct threadpool_group *)
Record group := Group {
  grefcount : Z; gshutdown : bool; gcs : option nat; members : list nat }.

(** The global timerqueue; [armed] are the due times that update_timers set
    last for its two kernel timers. *)
Record timerqueue := TimerQueue {
  tcs : option nat; tobjcount : Z; thread_running : bool;
  abs_timers : list nat; rel_timers : list nat; armed : Z * Z }.

(** ** Threads *)

(** struct threadpool_instance, in the frame of a worker that runs a callback *)
Record cleanup := Cleanup {
  critical_section : option Z; mutex : option Z; semaphore : option (Z * Z);
  event : option Z; library : option Z }.

Record instance := Instance { associated : bool; long : bool; tasks : cleanup }.

(** TP_CALLBACK_ENVIRON *)
Record environ := Environ {
  Version : Z; env_pool : option nat; env_group : option nat;
  CleanupGroupCancelCallback : bool; FinalizationCallback : bool;
  LongFunction : bool; CallbackPriority : Z }.

(** threadpool_worker_proc.  [WLoop]: at the head of the inner loop, with the
    critical section; [WRun] and [WFinal]: in the callback and in the
    finalization callback; [WEnd]: before the critical section is entered again. *)
Inductive wphase :=
| WStart | WLoop | WSleep | WRun (o : nat) (i : instance)
| WFinal (o : nat) (i : instance) | WEnd (o : nat) (i : instance).

(** tp_object_release *)
Inductive rphase := RDec | RGroup | RGroupRelease | RPool | RPoolRelease | RFree.

(** TpAllocWork, TpAllocTimer and TpSimpleTryPost up to tp_object_initialize *)
Inductive aphase := ALock | ACas (p : nat) | AEnter (p : nat) | ATimer (p : nat) | AInit (p : nat).

(** tp_object_initialize once the fields are set *)
Inductive iphase := IAssert | ISubmit | IGroupRef | IGroupAdd | IFinish.

(** TpReleaseCleanupGroupMembers.  [l] is the list of members that have been
    processed so far, later the temporary list. *)
Inductive mphase :=
| MEnter
| MLoop (l rest : list nat)
| MPrepare (o : nat) (l rest : list nat)
| MCancel (todo l : list nat)
| MCancelRelease (n : nat) (o : nat) (todo l : list nat)
| MWait (asleep : bool) (todo : list nat)
| MCheck (o : nat) (rest : list nat)
| MCallback (o : nat) (rest : list nat)
| MRelease (o : nat) (rest : list nat)
| MShutdown (o : nat) (rest : list nat).

(** timerqueue_thread_proc: [abs] says which list submit_expired_timers
    works on. *)
Inductive tphase :=
| TWait (started : bool)
| TScan (abs : bool) (abs_now rel_now : Z)
| TAssert (o : nat) (abs : bool) (abs_now rel_now : Z)
| TSubmit (o : nat) (abs : bool) (abs_now rel_now : Z)
| TInsert (o : nat) (abs : bool) (abs_now rel_now : Z).

Inductive frame :=
| FUser                                                  (* code of the client *)
| FWorker (p : nat) (ph : wphase)
| FTimers (ph : tphase)
| FPoolRelease (p : nat)                                 (* tp_threadpool_release *)
| FPoolUnlock (p : nat)                                  (* tp_threadpool_unlock *)
| FGroupRelease (g : nat)                                (* tp_group_release *)
| FRelease (o : nat) (ph : rphase)
| FAlloc (k : objtype) (env : option environ) (ph : aphase)
| FInit (o : nat) (ph : iphase)
| FSubmit (o : nat) (asserted : bool)                    (* tp_object_submit *)
| FCancel (o : nat)                                      (* tp_object_cancel *)
| FCancelRelease (o : nat) (n : nat)
| FWait (o : nat) (asleep : bool)                        (* tp_object_wait *)
| FSetTimer (o : nat) (tmo : option Z) (per win : Z)
| FClose (o : nat) (prepared : bool)                     (* TpReleaseWork, TpReleaseTimer *)
| FMembers (g : nat) (cancel : bool) (ph : mphase).

(** [ret] and [out] are what the last call returned and stored. *)
Record thread := Thread { stack : list frame; ret : Z; out : option nat }.

(** ** The state *)
Record cell (A : Type) := Cell { held : bool; contents : A }.
Arguments Cell {A}. Arguments held {A}. Arguments contents {A}.

Notation heap A := (list (option (cell A))).

Record state := State {
  objects : heap object; pools : heap pool; groups : heap group;
  default_threadpool : option nat; timers : timerqueue; threads : list thread;
  dll_shutdown : bool }.

Definition init (n : nat) (shut : bool) : state :=
  State [] [] [] None (TimerQueue None 0 false [] [] (0, 0))
    (replicate n (Thread [FUser] 0 None)) shut.

(** What a step does outside of the state. *)
Inductive event_ :=
| ESubmit (o : nat)                       (* a callback is queued *)
| EStart (o : nat)                        (* a worker begins a callback *)
| ECancel (o : nat) (n : Z)               (* n queued callbacks are dropped *)
| EWaited (o : nat)                       (* tp_object_wait returns *)
| ECleanup (c : Z) (h : Z)                (* a cleanup task of an instance *)
| EGroupCancel (o : nat).                 (* the group cancel callback *)

Inductive result :=
| Blocked | Misuse | Crash | Next (s : state) (es : list event_).

(** *** Access to the state *)
Definition with_object (s : state) (o : nat) (k : bool -> object -> result) : result :=
  match objects s !! o with Some (Some c) => k (held c) (contents c) | _ => Crash end.

Definition with_pool (s : state) (p : nat) (k : bool -> pool -> result) : result :=
  match pools s !! p with Some (Some c) => k (held c) (contents c) | _ => Crash end.

Definition with_group (s : state) (g : nat) (k : bool -> group -> result) : result :=
  match groups s !! g with Some (Some c) => k (held c) (contents c) | _ => Crash end.

Definition ASSERT (b : bool) (r : result) : result := if b then r else Crash.

(** A contract of the caller. *)
Definition requires (b : bool) (r : result) : result := if b then r else Misuse.

(** An argument of a function of the interface: a pointer that the client has
    and has not released. *)
Definition held_object (s : state) (o : nat) (k : object -> result) : result :=
  match objects s !! o with
  | Some (Some c) => requires (held c) (k (contents c))
  | _ => Misuse
  end.

Definition held_pool (s : state) (p : nat) (k : pool -> result) : result :=
  match pools s !! p with
  | Some (Some c) => requires (held c) (k (contents c))
  | _ => Misuse
  end.

Definition held_group (s : state) (g : nat) (k : group -> result) : result :=
  match groups s !! g with
  | Some (Some c) => requires (held c) (k (contents c))
  | _ => Misuse
  end.

(** RtlEnterCriticalSection: a thread may enter a section it owns. *)
Definition enter (cs : option nat) (t : nat) (r : result) : result :=
  match cs with
  | None => r
  | Some t' => if decide (t = t') then r else Blocked
  end.

Definition put_object (o : nat) (h : bool) (ob : object) (s : state) : state :=
  State (<[o := Some (Cell h ob)]> (objects s)) (pools s) (groups s)
    (default_threadpool s) (timers s) (threads s) (dll_shutdown s).

Definition free_object (o : nat) (s : state) : state :=
  State (<[o := None]> (objects s)) (pools s) (groups s)
    (default_threadpool s) (timers s) (threads s) (dll_shutdown s).

Definition put_pool (p : nat) (h : bool) (pl : pool) (s : state) : state :=
  State (objects s) (<[p := Some (Cell h pl)]> (pools s)) (groups s)
    (default_threadpool s) (timers s) (threads s) (dll_shutdown s).

Definition free_pool (p : nat) (s : state) : state :=
  State (objects s) (<[p := None]> (pools s)) (groups s)
    (default_threadpool s) (timers s) (threads s) (dll_shutdown s).

Definition put_group (g : nat) (h : bool) (gr : group) (s : state) : state :=
  State (objects s) (pools s) (<[g := Some (Cell h gr)]> (groups s))
    (default_threadpool s) (timers s) (threads s) (dll_shutdown s).

Definition free_group (g : nat) (s : state) : state :=
  State (objects s) (pools s) (<[g := None]> (groups s))
    (default_threadpool s) (timers s) (threads s) (dll_shutdown s).

Definition set_timers (tq : timerqueue) (s : state) : state :=
  State (objects s) (pools s) (groups s) (default_threadpool s) tq (threads s) (dll_shutdown s).

Definition set_default (d : option nat) (s : state) : state :=
  State (objects s) (pools s) (groups s) d (timers s) (threads s) (dll_shutdown s).

Definition set_threads (ths : list thread) (s : state) : state :=
  State (objects s) (pools s) (groups s) (default_threadpool s) (timers s) ths (dll_shutdown s).

Definition alloc_object (h : bool) (ob : object) (s : state) : state :=
  State (objects s ++ [Some (Cell h ob)]) (pools s) (groups s)
    (default_threadpool s) (timers s) (threads s) (dll_shutdown s).

Definition alloc_pool (h : bool) (pl : pool) (s : state) : state :=
  State (objects s) (pools s ++ [Some (Cell h pl)]) (groups s)
    (default_threadpool s) (timers s) (threads s) (dll_shutdown s).

Definition alloc_group (h : bool) (gr : group) (s : state) : state :=
  State (objects s) (pools s) (groups s ++ [Some (Cell h gr)])
    (default_threadpool s) (timers s) (threads s) (dll_shutdown s).

(** The frames of thread [t] become [st]. *)
Definition goto (t : nat) (st : list frame) (s : state) : state :=
  set_threads (alter (fun th => Thread st (ret th) (out th)) t (threads s)) s.

(** The function on top of the stack of [t] returns. *)
Definition return_to (t : nat) (st : list frame) (v : Z) (po : option nat) (s : state) : state :=
  set_threads (alter (fun _ => Thread st v po) t (threads s)) s.

(** ** What the environment answers *)

(** [sys]: the status of the call of the system that a step makes;
    [created]: how many threads can be created; the clocks; [timed_out]: the
    result of a sleep of a worker, or a spurious wake; the statuses of the
    cleanup tasks; the stack sizes in the header of the image. *)
Record answers := Answers {
  sys : Z; created : nat; system_time : Z; counter : Z; timed_out : bool;
  mutex_status : Z; semaphore_status : Z; event_status : Z;
  image_stack : stack_information }.

Definition succeeded (a : answers) : bool := sys a =? STATUS_SUCCESS.

(** ** Functions on one object *)
Definition is_simple (ob : object) : bool := bool_decide (otype ob = TP_OBJECT_TYPE_SIMPLE).

Definition object_is_finished (ob : object) (grp : bool) : bool :=
  if negb (num_pending_callbacks ob =? 0) then false
  else if match u ob with UIo x => negb (pending_count x =? 0) | _ => false end then false
  else if grp then num_running_callbacks ob =? 0 else num_associated_callbacks ob =? 0.

(** tp_object_submit: the reference and the callback counter, and
    u.wait.signaled of a wait *)
Definition submit_object (sig : bool) (ob : object) : object :=
  let ob := set_callbacks (num_pending_callbacks ob + 1) (num_running_callbacks ob)
              (num_associated_callbacks ob) (set_refcount (refcount ob + 1) ob) in
  match u ob with
  | UWait x =>
      if sig then set_u (UWait (Wait (signaled x + 1) (bucket x) (wait_pending x)
                    (wait_timeout x) (handle x) (duped_handle x) (wait_flags x))) ob
      else ob
  | _ => ob
  end.

(** tp_object_cancel up to the end of the critical section, for an object with
    callbacks pending or not *)
Definition cancel_object (ob : object) : object :=
  let ob1 := set_callbacks 0 (num_running_callbacks ob) (num_associated_callbacks ob) ob in
  match u ob with
  | UWait x =>
      if num_pending_callbacks ob =? 0 then ob1
      else set_u (UWait (Wait 0 (bucket x) (wait_pending x)
             (wait_timeout x) (handle x) (duped_handle x) (wait_flags x))) ob1
  | UIo x =>
      set_u (UIo (Io 0 (skipped_count x + pending_count x) (completion_count x)
                   (completion_max x) (shutting_down x) (completions x))) ob1
  | _ => ob1
  end.

(** tp_object_execute up to the first RtlLeaveCriticalSection; [None]: the
    ASSERT on the completions of an I/O object fails. *)
Definition execute_begin (ob : object) : option object :=
  let ob1 := set_callbacks (num_pending_callbacks ob - 1) (num_running_callbacks ob + 1)
               (num_associated_callbacks ob + 1) ob in
  match u ob with
  | UWait x =>
      if signaled x =? 0 then Some ob1
      else Some (set_u (UWait (Wait (signaled x - 1) (bucket x) (wait_pending x)
                   (wait_timeout x) (handle x) (duped_handle x) (wait_flags x))) ob1)
  | UIo x =>
      if completion_count x =? 0 then None
      else Some (set_u (UIo (Io (pending_count x) (skipped_count x) (completion_count x - 1)
                   (completion_max x) (shutting_down x) (completions x))) ob1)
  | _ => Some ob1
  end.

(** tp_object_execute from the second RtlEnterCriticalSection on; simple
    callbacks are shut down *)
Definition execute_end (i : instance) (ob : object) : object :=
  let ob := if is_simple ob then set_shutdown ob else ob in
  set_callbacks (num_pending_callbacks ob) (num_running_callbacks ob - 1)
    (num_associated_callbacks ob - (if associated i then 1 else 0)) ob.

(** The cleanup tasks of an instance: a task that fails skips the rest. *)
Definition run_cleanup (a : answers) (c : cleanup) : list event_ :=
  match critical_section c with Some h => [ECleanup 0 h] | None => [] end ++
  match mutex c with
  | Some h => [ECleanup 1 h]
  | None => []
  end ++
  (if match mutex c with Some _ => mutex_status a =? STATUS_SUCCESS | None => true end then
     match semaphore c with Some (h, n) => [ECleanup 2 h] | None => [] end ++
     (if match semaphore c with Some _ => semaphore_status a =? STATUS_SUCCESS | None => true end then
        match event c with Some h => [ECleanup 3 h] | None => [] end ++
        (if match event c with Some _ => event_status a =? STATUS_SUCCESS | None => true end then
           match library c with Some h => [ECleanup 4 h] | None => [] end
         else [])
      else [])
   else []).

(** ** Functions on one pool *)

(** list_remove of an entry, which is on one list at most *)
Definition list_remove (o : nat) (l : list nat) : list nat := filter (fun x => x <> o) l.

Definition threadpool_get_next_item (pl : pool) : option nat :=
  match queues pl with
  | (o :: _) :: _ => Some o
  | [] :: (o :: _) :: _ => Some o
  | [] :: [] :: (o :: _) :: _ => Some o
  | _ => None
  end.

Definition tp_object_prio_queue (o : nat) (ob : object) (pl : pool) : pool :=
  set_queues (alter (fun q => q ++ [o]) (priority ob) (queues pl))
    (set_workers (num_workers pl) (num_busy_workers pl + 1) pl).

(** The condition under which submitting starts a worker. *)
Definition wants_worker (pl : pool) : bool :=
  (num_workers pl <=? num_busy_workers pl) && (num_workers pl <? max_workers pl).

(** A worker that timed out terminates. *)
Definition may_terminate (pl : pool) : bool :=
  bool_decide (threadpool_get_next_item pl = None) &&
  ((Z.max (min_workers pl) 1 <? num_workers pl) ||
   ((min_workers pl =? 0) && (objcount pl =? 0))).

(** tp_new_worker_thread, [n] times *)
Definition new_workers (n : nat) (pl : pool) : pool :=
  set_workers (num_workers pl + Z.of_nat n) (num_busy_workers pl)
    (set_prefcount (prefcount pl + Z.of_nat n) pl).

Definition spawn_workers (n : nat) (p : nat) (s : state) : state :=
  set_threads (threads s ++ replicate n (Thread [FWorker p WStart] 0 None)) s.

(** tp_threadpool_alloc *)
Definition new_pool (si : stack_information) : pool :=
  Pool 1 0 false None [[]; []; []] 500 0 0 0 si 0.

(** ** Wake-ups *)
Definition wake_frame (o : nat) (grp : bool) (f : frame) : frame :=
  match f with
  | FWait o' b => if decide (o' = o) then FWait o' (b && grp) else f
  | FMembers g c (MWait b (o' :: l)) =>
      if decide (o' = o) then FMembers g c (MWait (b && negb grp) (o' :: l)) else f
  | _ => f
  end.

(** RtlWakeAllConditionVariable of finished_event or group_finished_event *)
Definition wake_all (o : nat) (grp : bool) (s : state) : state :=
  set_threads (map (fun th => Thread (map (wake_frame o grp) (stack th)) (ret th) (out th))
                 (threads s)) s.

Definition wake_if (b : bool) (o : nat) (grp : bool) (s : state) : state :=
  if b then wake_all o grp s else s.

(** ** Submitting *)

(** tp_object_submit, the critical section *)
Definition submit_section (t o : nat) (a : answers) (k : state -> result) (s : state) : result :=
  with_object s o (fun h ob =>
  with_pool s (opool ob) (fun hp pl =>
  enter (pcs pl) t (
    let started := wants_worker pl && succeeded a in
    let pl := if started then new_workers 1 pl else pl in
    let s := if started then spawn_workers 1 (opool ob) s else s in
    let pl := if num_pending_callbacks ob =? 0 then tp_object_prio_queue o ob pl else pl in
    let s := put_object o h (submit_object false ob) (put_pool (opool ob) hp pl s) in
    ASSERT (started || (0 <? num_workers pl)) (k s)))).

(** tp_object_submit, the assertions before it *)
Definition submit_assert (o : nat) (s : state) (r : result) : result :=
  with_object s o (fun _ ob =>
  ASSERT (negb (shutdown ob)) (
  with_pool s (opool ob) (fun _ pl => ASSERT (negb (pshutdown pl)) r))).

(** ** Timers *)
Definition timer_of (s : state) (o : nat) : option timer :=
  match objects s !! o with
  | Some (Some c) => match u (contents c) with UTimer x => Some x | _ => None end
  | _ => None
  end.

(** LIST_FOR_EACH_ENTRY with list_add_before: before the first timer whose
    timeout is later *)
Fixpoint insert_timer (look : nat -> option timer) (v : Z) (o : nat) (l : list nat) : option (list nat) :=
  match l with
  | [] => Some [o]
  | x :: l' =>
      tx ← look x;
      if v <? timeout tx then Some (o :: x :: l')
      else l'' ← insert_timer look v o l'; Some (x :: l'')
  end.

Fixpoint next_timeout (look : nat -> option timer) (lower upper : Z) (l : list nat) : option Z :=
  match l with
  | [] => Some lower
  | x :: l' =>
      tx ← look x;
      if upper <=? timeout tx then Some lower
      else
        let new := u64 (timeout tx + u64 (window_length tx) * 10000) in
        next_timeout look (timeout tx) (if new <? upper then new else upper) l'
  end.

Definition get_next_timeout (look : nat -> option timer) (l : list nat) : option Z :=
  next_timeout look MAXLONGLONG MAXLONGLONG l.

Definition THREADPOOL_WORKER_TIMEOUT : Z := 5000.

(** update_timers: the due times given to NtSetTimer *)
Definition update_timers (look : nat -> option timer) (rel_now : Z) (tq : timerqueue) : option timerqueue :=
  due_abs ← get_next_timeout look (abs_timers tq);
  due_rel ← if tobjcount tq =? 0 then Some (- (THREADPOOL_WORKER_TIMEOUT * 10000))
            else next ← get_next_timeout look (rel_timers tq);
                 Some (if rel_now <? next then rel_now - next else 0);
  Some (TimerQueue (tcs tq) (tobjcount tq) (thread_running tq) (abs_timers tq) (rel_timers tq)
          (due_abs, due_rel)).

Definition set_tcs (v : option nat) (tq : timerqueue) : timerqueue :=
  TimerQueue v (tobjcount tq) (thread_running tq) (abs_timers tq) (rel_timers tq) (armed tq).

Definition set_lists (a r : list nat) (tq : timerqueue) : timerqueue :=
  TimerQueue (tcs tq) (tobjcount tq) (thread_running tq) a r (armed tq).

Definition set_tobjcount (v : Z) (b : bool) (tq : timerqueue) : timerqueue :=
  TimerQueue (tcs tq) v b (abs_timers tq) (rel_timers tq) (armed tq).

Definition set_timer (v : timer) (ob : object) : object := set_u (UTimer v) ob.

(** list_remove of timer_entry with timer_pending = FALSE *)
Definition unlink_timer (o : nat) (tq : timerqueue) : timerqueue :=
  set_lists (list_remove o (abs_timers tq)) (list_remove o (rel_timers tq)) tq.

Definition not_pending (x : timer) : timer :=
  Timer (timer_initialized x) false (timer_set x) (timeout x) (period x) (window_length x).

(** The step that updates the kernel timers. *)
Definition with_update (rel_now : Z) (s : state) (k : state -> result) : result :=
  match update_timers (timer_of s) rel_now (timers s) with
  | Some tq => k (set_timers tq s)
  | None => Crash
  end.

(** tp_timerqueue_unlock *)
Definition tp_timerqueue_unlock (t o : nat) (a : answers) (k : state -> result) (s : state) : result :=
  with_object s o (fun h ob =>
  match u ob with
  | UTimer x =>
    enter (tcs (timers s)) t (
      if timer_initialized x then
        let tq := if timer_pending x then unlink_timer o (timers s) else timers s in
        let tq := set_tobjcount (tobjcount tq - 1) (thread_running tq) tq in
        let ob' := set_timer (Timer false false (timer_set x) (timeout x) (period x) (window_length x)) ob in
        let s := set_timers tq (put_object o h ob' s) in
        if tobjcount tq =? 0 then
          ASSERT (bool_decide (abs_timers tq = []) && bool_decide (rel_timers tq = []))
            (with_update (counter a) s k)
        else k s
      else k s)
  | _ => Crash
  end).

(** tp_object_prepare_shutdown of a simple, work or timer object *)
Definition tp_object_prepare_shutdown (t o : nat) (a : answers) (k : state -> result) (s : state) : result :=
  with_object s o (fun _ ob =>
  match u ob with
  | UTimer _ => tp_timerqueue_unlock t o a k s
  | USimple | UWork => k s
  | UWait _ | UIo _ => Misuse
  end).

(** The list that submit_expired_timers works on and its current time. *)
Definition scanned (abs : bool) (tq : timerqueue) : list nat :=
  if abs then abs_timers tq else rel_timers tq.

(** The new timeout of a periodic timer that has expired. *)
Definition next_expiry (abs : bool) (rel_now : Z) (x : timer) : Z :=
  let v := u64 ((if abs then rel_now else timeout x) + u64 (period x) * 10000) in
  if v <=? rel_now then rel_now + 1 else v.

(** submit_expired_timers, one iteration up to tp_object_submit; at the end of
    both lists update_timers and the wait of the timer thread *)
Definition timers_scan (t : nat) (abs : bool) (abs_now rel_now : Z) (rest : list frame) (s : state) : result :=
  match scanned abs (timers s) with
  | o :: _ =>
      with_object s o (fun h ob =>
      match u ob with
      | UTimer x =>
          ASSERT (timer_pending x) (
          if (if abs then abs_now else rel_now) <? timeout x then
            (if abs then Next (goto t (FTimers (TScan false abs_now rel_now) :: rest) s) []
             else with_update rel_now s (fun s =>
                    Next (goto t (FTimers (TWait false) :: rest)
                            (set_timers (set_tcs None (timers s)) s)) []))
          else
            let s := put_object o h (set_timer (not_pending x) ob)
                       (set_timers (unlink_timer o (timers s)) s) in
            Next (goto t (FTimers (TAssert o abs abs_now rel_now) :: rest) s) [])
      | _ => Crash
      end)
  | [] =>
      if abs then Next (goto t (FTimers (TScan false abs_now rel_now) :: rest) s) []
      else with_update rel_now s (fun s =>
             Next (goto t (FTimers (TWait false) :: rest)
                     (set_timers (set_tcs None (timers s)) s)) [])
  end.

(** submit_expired_timers, the rest of the iteration: a periodic timer goes
    back into the list of relative timers. *)
Definition timers_insert (t o : nat) (abs : bool) (abs_now rel_now : Z) (rest : list frame) (s : state) : result :=
  with_object s o (fun h ob =>
  match u ob with
  | UTimer x =>
      let s' := goto t (FTimers (TScan abs abs_now rel_now) :: rest) s in
      if negb (period x =? 0) && negb (shutdown ob) then
        let v := next_expiry abs rel_now x in
        match insert_timer (timer_of s) v o (rel_timers (timers s)) with
        | Some l =>
            Next (put_object o h (set_timer (Timer (timer_initialized x) true (timer_set x)
                                    v (period x) (window_length x)) ob)
                   (set_timers (set_lists (abs_timers (timers s)) l (timers s)) s')) []
        | None => Crash
        end
      else Next s' []
  | _ => Crash
  end).

(** timerqueue_thread_proc *)
Definition timerqueue_thread_proc (t : nat) (ph : tphase) (rest : list frame) (a : answers) (s : state) : result :=
  match ph with
  | TWait started =>
      enter (tcs (timers s)) t (
        if negb started && (tobjcount (timers s) =? 0) then
          Next (goto t rest (set_timers (set_tobjcount 0 false (timers s)) s)) []
        else
          Next (goto t (FTimers (TScan true (system_time a) (counter a)) :: rest)
                  (set_timers (set_tcs (Some t) (timers s)) s)) [])
  | TScan abs abs_now rel_now => timers_scan t abs abs_now rel_now rest s
  | TAssert o abs abs_now rel_now =>
      submit_assert o s (Next (goto t (FTimers (TSubmit o abs abs_now rel_now) :: rest) s) [])
  | TSubmit o abs abs_now rel_now =>
      submit_section t o a (fun s =>
        Next (goto t (FTimers (TInsert o abs abs_now rel_now) :: rest) s) [ESubmit o]) s
  | TInsert o abs abs_now rel_now => timers_insert t o abs abs_now rel_now rest s
  end.

(** ** References *)

(** tp_threadpool_release; the pool is freed with its last reference. *)
Definition tp_threadpool_release (p : nat) (s : state) (k : state -> result) : result :=
  with_pool s p (fun h pl =>
    let pl := set_prefcount (prefcount pl - 1) pl in
    if prefcount pl =? 0 then
      ASSERT (pshutdown pl) (ASSERT (objcount pl =? 0)
        (ASSERT (forallb (fun q => bool_decide (q = [])) (queues pl)) (k (free_pool p s))))
    else k (put_pool p h pl s)).

(** tp_threadpool_unlock, the critical section *)
Definition unlock_section (t p : nat) (s : state) (k : state -> result) : result :=
  with_pool s p (fun h pl =>
    enter (pcs pl) t (k (put_pool p h (set_objcount (objcount pl - 1) pl) s))).

(** tp_group_release *)
Definition tp_group_release (g : nat) (s : state) (k : state -> result) : result :=
  with_group s g (fun h gr =>
    let gr := Group (grefcount gr - 1) (gshutdown gr) (gcs gr) (members gr) in
    if grefcount gr =? 0 then
      ASSERT (gshutdown gr) (ASSERT (bool_decide (members gr = [])) (k (free_group g s)))
    else k (put_group g h gr s)).

(** tp_object_release *)
Definition tp_object_release (t o : nat) (ph : rphase) (rest : list frame) (s : state) : result :=
  with_object s o (fun h ob =>
  match ph with
  | RDec =>
      let ob := set_refcount (refcount ob - 1) ob in
      let s := put_object o h ob s in
      if refcount ob =? 0 then
        ASSERT (shutdown ob) (ASSERT (num_pending_callbacks ob =? 0)
          (ASSERT (num_running_callbacks ob =? 0) (ASSERT (num_associated_callbacks ob =? 0)
            (Next (goto t (FRelease o (if ogroup ob is Some _ then RGroup else RPool) :: rest) s) []))))
      else Next (goto t rest s) []
  | RGroup =>
      match ogroup ob with
      | Some g =>
          with_group s g (fun hg gr =>
          enter (gcs gr) t (
            let s := if is_group_member ob then
                       put_object o h (set_member false ob)
                         (put_group g hg (Group (grefcount gr) (gshutdown gr) (gcs gr)
                                            (list_remove o (members gr))) s)
                     else s in
            Next (goto t (FRelease o RGroupRelease :: rest) s) []))
      | None => Crash
      end
  | RGroupRelease =>
      match ogroup ob with
      | Some g => tp_group_release g s (fun s => Next (goto t (FRelease o RPool :: rest) s) [])
      | None => Crash
      end
  | RPool =>
      unlock_section t (opool ob) s (fun s => Next (goto t (FRelease o RPoolRelease :: rest) s) [])
  | RPoolRelease =>
      tp_threadpool_release (opool ob) s (fun s => Next (goto t (FRelease o RFree :: rest) s) [])
  | RFree => Next (goto t rest (free_object o s)) []
  end).

(** ** Allocation *)
Definition env_fields (env : option environ) : environ :=
  match env with
  | Some e => e
  | None => Environ 1 None None false false false 0
  end.

(** The validation of tp_threadpool_lock. *)
Definition valid_environ (env : option environ) : bool :=
  match env with
  | Some e => negb (Version e =? 3) || ((0 <=? CallbackPriority e) && (CallbackPriority e <=? 2))
  | None => true
  end.

(** tp_object_initialize, the fields *)
Definition new_object (k : objtype) (p : nat) (env : option environ) : object :=
  let e := env_fields env in
  Object 1 false p (env_group e) (CleanupGroupCancelCallback e) (FinalizationCallback e)
    (LongFunction e)
    (if Version e =? 3 then Z.to_nat (CallbackPriority e) else PRIORITY_NORMAL)
    false 0 0 0
    (match k with
     | TP_OBJECT_TYPE_TIMER => UTimer (Timer true false false 0 0 0)
     | TP_OBJECT_TYPE_WORK => UWork
     | _ => USimple
     end).

(** tp_timerqueue_lock; on failure TpAllocTimer unlocks the pool.  The fields of
    the timer are set in [new_object]. *)
Definition tp_timerqueue_lock (t : nat) (k : objtype) (env : option environ) (p : nat)
    (rest : list frame) (a : answers) (s : state) : result :=
  let tq := timers s in
  enter (tcs tq) t (
    if negb (thread_running tq) && negb (succeeded a) then
      Next (return_to t (FPoolUnlock p :: rest) (sys a) None s) []
    else
      let s := if thread_running tq then s
               else set_threads (threads s ++ [Thread [FTimers (TWait true)] 0 None]) s in
      Next (goto t (FAlloc k env (AInit p) :: rest)
              (set_timers (set_tobjcount (tobjcount tq + 1) true tq) s)) []).

(** TpAllocWork, TpAllocTimer and TpSimpleTryPost: tp_threadpool_lock,
    tp_timerqueue_lock, and the beginning of tp_object_initialize *)
Definition alloc_step (t : nat) (k : objtype) (env : option environ) (ph : aphase)
    (rest : list frame) (a : answers) (s : state) : result :=
  match ph with
  | ALock =>
      if valid_environ env then
        match env_pool (env_fields env) with
        | Some p => Next (goto t (FAlloc k env (AEnter p) :: rest) s) []
        | None =>
            match default_threadpool s with
            | Some p => Next (goto t (FAlloc k env (AEnter p) :: rest) s) []
            | None =>
                if succeeded a then
                  Next (goto t (FAlloc k env (ACas (length (pools s))) :: rest)
                          (alloc_pool false (new_pool (image_stack a)) s)) []
                else Next (return_to t rest STATUS_NO_MEMORY None s) []
            end
        end
      else Next (return_to t rest STATUS_INVALID_PARAMETER None s) []
  | ACas p =>
      match default_threadpool s with
      | None => Next (goto t (FAlloc k env (AEnter p) :: rest) (set_default (Some p) s)) []
      | Some d =>
          with_pool s p (fun h pl =>
            Next (goto t (FPoolRelease p :: FAlloc k env (AEnter d) :: rest)
                    (put_pool p h (set_pshutdown pl) s)) [])
      end
  | AEnter p =>
      with_pool s p (fun h pl =>
      enter (pcs pl) t (
        if (num_workers pl =? 0) && negb (succeeded a) then
          Next (return_to t rest (sys a) None s) []
        else
          let new := num_workers pl =? 0 in
          let pl := if new then new_workers 1 pl else pl in
          let s := if new then spawn_workers 1 p s else s in
          let pl := set_objcount (objcount pl + 1) (set_prefcount (prefcount pl + 1) pl) in
          Next (goto t (FAlloc k env (if decide (k = TP_OBJECT_TYPE_TIMER) then ATimer p else AInit p) :: rest)
                  (put_pool p h pl s)) []))
  | ATimer p => tp_timerqueue_lock t k env p rest a s
  | AInit p =>
      let ob := new_object k p env in
      ASSERT (priority ob <? 3)%nat (
        Next (goto t (FInit (length (objects s)) (if is_simple ob then IAssert else IGroupRef) :: rest)
                (alloc_object false ob s)) [])
  end.

(** tp_object_initialize: submit a simple callback, join the group *)
Definition init_step (t o : nat) (ph : iphase) (rest : list frame) (a : answers) (s : state) : result :=
  match ph with
  | IAssert => submit_assert o s (Next (goto t (FInit o ISubmit :: rest) s) [])
  | ISubmit =>
      submit_section t o a (fun s => Next (goto t (FInit o IGroupRef :: rest) s) [ESubmit o]) s
  | IGroupRef =>
      with_object s o (fun _ ob =>
      match ogroup ob with
      | Some g =>
          with_group s g (fun hg gr =>
            Next (goto t (FInit o IGroupAdd :: rest)
              (put_group g hg (Group (grefcount gr + 1) (gshutdown gr) (gcs gr) (members gr)) s)) [])
      | None => Next (goto t (FInit o IFinish :: rest) s) []
      end)
  | IGroupAdd =>
      with_object s o (fun h ob =>
      match ogroup ob with
      | Some g =>
          with_group s g (fun hg gr =>
          enter (gcs gr) t (
            Next (goto t (FInit o IFinish :: rest)
              (put_object o h (set_member true ob)
                (put_group g hg (Group (grefcount gr) (gshutdown gr) (gcs gr) (members gr ++ [o])) s))) []))
      | None => Crash
      end)
  | IFinish =>
      with_object s o (fun h ob =>
        if is_simple ob then Next (return_to t (FRelease o RDec :: rest) STATUS_SUCCESS None s) []
        else Next (return_to t rest STATUS_SUCCESS (Some o) (put_object o true ob s)) [])
  end.

(** ** Workers *)

(** The head of the loop, with the critical section *)
Definition worker_loop (t p : nat) (h : bool) (pl : pool) (rest : list frame) (s : state) : result :=
  match threadpool_get_next_item pl with
  | Some o =>
      with_object s o (fun ho ob =>
      ASSERT (0 <? num_pending_callbacks ob) (
        let pl := set_queues (map (list_remove o) (queues pl)) pl in
        let pl := if 1 <? num_pending_callbacks ob then tp_object_prio_queue o ob pl else pl in
        match execute_begin ob with
        | Some ob' =>
            Next (goto t (FWorker p (WRun o (Instance true (may_run_long ob)
                            (Cleanup None None None None None))) :: rest)
                    (put_object o ho ob' (put_pool p h (set_pcs None pl) s))) [EStart o]
        | None => Crash
        end))
  | None =>
      if pshutdown pl then
        Next (goto t (FPoolRelease p :: rest)
                (put_pool p h (set_pcs None (set_workers (num_workers pl - 1) (num_busy_workers pl) pl)) s)) []
      else Next (goto t (FWorker p WSleep :: rest) (put_pool p h (set_pcs None pl) s)) []
  end.

(** threadpool_worker_proc, with tp_object_execute *)
Definition threadpool_worker_proc (t p : nat) (ph : wphase) (rest : list frame) (a : answers) (s : state) : result :=
  match ph with
  | WStart | WLoop =>
      with_pool s p (fun h pl => enter (pcs pl) t (worker_loop t p h pl rest s))
  | WSleep =>
      with_pool s p (fun h pl => enter (pcs pl) t (
        if timed_out a && may_terminate pl then
          Next (goto t (FPoolRelease p :: rest)
                  (put_pool p h (set_workers (num_workers pl - 1) (num_busy_workers pl) pl) s)) []
        else worker_loop t p h pl rest s))
  | WRun o i =>
      with_object s o (fun _ ob =>
        if finalization_callback ob then Next (goto t (FWorker p (WFinal o i) :: rest) s) []
        else Next (goto t (FWorker p (WEnd o i) :: rest) s) (run_cleanup a (tasks i)))
  | WFinal o i => Next (goto t (FWorker p (WEnd o i) :: rest) s) (run_cleanup a (tasks i))
  | WEnd o i =>
      with_pool s p (fun h pl => enter (pcs pl) t (
        with_object s o (fun ho ob =>
        let ob := execute_end i ob in
        ASSERT (negb (num_busy_workers pl =? 0)) (
          let pl := set_pcs (Some t) (set_workers (num_workers pl) (num_busy_workers pl - 1) pl) in
          let s := put_object o ho ob (put_pool p h pl s) in
          let s := goto t (FRelease o RDec :: FWorker p WLoop :: rest) s in
          let s := wake_if (object_is_finished ob true) o true s in
          let s := wake_if (associated i && object_is_finished ob false) o false s in
          Next s []))))
  end.

(** ** Cancelling and waiting *)

(** tp_object_cancel, the critical section; [k] gets the number of references
    to release. *)
Definition cancel_section (t o : nat) (s : state) (k : Z -> state -> result) : result :=
  with_object s o (fun h ob =>
  with_pool s (opool ob) (fun hp pl =>
  enter (pcs pl) t (
    let n := num_pending_callbacks ob in
    let pl := if n =? 0 then pl else set_queues (map (list_remove o) (queues pl)) pl in
    k n (put_object o h (cancel_object ob) (put_pool (opool ob) hp pl s))))).

(** tp_object_wait, one evaluation of its loop condition *)
Definition wait_section (t o : nat) (grp : bool) (s : state) (fin sleep : result) : result :=
  with_object s o (fun _ ob =>
  with_pool s (opool ob) (fun _ pl =>
  enter (pcs pl) t (if dll_shutdown s || object_is_finished ob grp then fin else sleep))).

(** ** TpReleaseCleanupGroupMembers *)

(** A function of the interface works on object [o]. *)
Definition uses_object (o : nat) (f : frame) : bool :=
  match f with
  | FInit o' _ | FSubmit o' _ | FCancel o' | FCancelRelease o' _ | FWait o' _
  | FSetTimer o' _ _ _ | FClose o' _ => bool_decide (o = o')
  | _ => false
  end.

Definition any_frame (P : frame -> bool) (s : state) : bool :=
  existsb (fun th => existsb P (stack th)) (threads s).

Definition members_step (t g : nat) (cancel : bool) (ph : mphase) (rest : list frame)
    (a : answers) (s : state) : result :=
  let at_ ph := FMembers g cancel ph :: rest in
  match ph with
  | MEnter =>
      with_group s g (fun h gr =>
      match gcs gr with
      | Some _ => Blocked
      | None =>
          Next (goto t (at_ (MLoop [] (members gr)))
            (put_group g h (Group (grefcount gr) (gshutdown gr) (Some t) (members gr)) s)) []
      end)
  | MLoop l (o :: r) =>
      with_object s o (fun ho ob =>
      with_group s g (fun h gr =>
      ASSERT (bool_decide (ogroup ob = Some g)) (ASSERT (is_group_member ob) (
      requires (is_simple ob || negb (any_frame (uses_object o) s)) (
        if refcount ob + 1 =? 1 then
          Next (goto t (at_ (MLoop l r))
            (put_object o ho (set_member false ob)
              (put_group g h (Group (grefcount gr) (gshutdown gr) (gcs gr)
                                (list_remove o (members gr))) s))) []
        else
          Next (goto t (at_ (MPrepare o l r))
            (put_object o false (set_member false (set_refcount (refcount ob + 1) ob)) s)) [])))))
  | MPrepare o l r =>
      tp_object_prepare_shutdown t o a (fun s => Next (goto t (at_ (MLoop (l ++ [o]) r)) s) []) s
  | MLoop l [] =>
      with_group s g (fun h gr =>
        Next (goto t (at_ (if cancel then MCancel l l else MWait false l))
          (put_group g h (Group (grefcount gr) (gshutdown gr) None []) s)) [])
  | MCancel (o :: todo) l =>
      cancel_section t o s (fun n s =>
        Next (goto t (at_ (MCancelRelease (Z.to_nat n) o todo l)) s) [ECancel o n])
  | MCancel [] l => Next (goto t (at_ (MWait false l)) s) []
  | MCancelRelease (S n) o todo l =>
      Next (goto t (FRelease o RDec :: at_ (MCancelRelease n o todo l)) s) []
  | MCancelRelease 0 o todo l => Next (goto t (at_ (MCancel todo l)) s) []
  | MWait true (o :: todo) =>
      if timed_out a then Next (goto t (at_ (MWait false (o :: todo))) s) [] else Blocked
  | MWait false (o :: todo) =>
      wait_section t o true s (Next (goto t (at_ (MCheck o todo)) s) [EWaited o])
        (Next (goto t (at_ (MWait true (o :: todo))) s) [])
  | MWait _ [] => Next (goto t rest s) []
  | MCheck o todo =>
      with_object s o (fun _ ob =>
        if shutdown ob then Next (goto t (at_ (MShutdown o todo)) s) []
        else if cancel && group_cancel_callback ob
        then Next (goto t (at_ (MCallback o todo)) s) [EGroupCancel o]
        else Next (goto t (at_ (MRelease o todo)) s) [])
  | MCallback o todo => Next (goto t (at_ (MRelease o todo)) s) []
  | MRelease o todo =>
      with_object s o (fun _ ob =>
        if is_simple ob then Next (goto t (at_ (MShutdown o todo)) s) []
        else Next (goto t (FRelease o RDec :: at_ (MShutdown o todo)) s) [])
  | MShutdown o todo =>
      with_object s o (fun h ob =>
        Next (goto t (FRelease o RDec :: at_ (MWait false todo))
                (put_object o h (set_shutdown ob) s)) [])
  end.

(** ** TpSetTimerEx *)
Definition set_timer_section (t o : nat) (tmo : option Z) (per win : Z) (a : answers)
    (rest : list frame) (s : state) : result :=
  with_object s o (fun h ob =>
  match u ob with
  | UTimer x =>
    enter (tcs (timers s)) t (
    ASSERT (timer_initialized x) (
      let has_timer := timer_set x in
      let set := bool_decide (tmo <> None) in
      (* the timestamp, the list and whether the timer is submitted at once *)
      let '(due, submit) :=
        match tmo with
        | None => (None, false)
        | Some v =>
            if 0 <? v then (Some (v, true), false)
            else if v <? 0 then (Some (u64 (counter a - v), false), false)
            else if per =? 0 then (None, true)
            else (Some (u64 (counter a + u64 per * 10000), false), true)
        end in
      let s1 := if timer_pending x then set_timers (unlink_timer o (timers s)) s else s in
      let fin s :=
        if submit then Next (return_to t (FSubmit o false :: rest) (if has_timer then 1 else 0) None s) []
        else Next (return_to t rest (if has_timer then 1 else 0) None s) [] in
      match due with
      | None =>
          fin (put_object o h (set_timer (Timer true false set (timeout x) (period x) (window_length x)) ob) s1)
      | Some (v, abs) =>
          let tq := timers s1 in
          let s2 := put_object o h (set_timer (Timer true true set v per win) ob) s1 in
          match insert_timer (timer_of s2) v o (scanned abs tq) with
          | None => Crash
          | Some l =>
              let s3 := set_timers (if abs then set_lists l (rel_timers tq) tq
                                    else set_lists (abs_timers tq) l tq) s2 in
              if bool_decide (head l = Some o) then with_update (counter a) s3 fin else fin s3
          end
      end))
  | _ => Crash
  end).

(** ** The functions of the interface *)

Inductive call :=
| TpAllocPool
| TpReleasePool (p : nat)
| TpSetPoolMaxThreads (p : nat) (maximum : Z)
| TpSetPoolMinThreads (p : nat) (minimum : Z)
| TpSetPoolStackInformation (p : nat) (si : option stack_information)
| TpSetPoolThreadBasePriority (p : nat) (prio : Z)
| TpAllocCleanupGroup
| TpReleaseCleanupGroup (g : nat)
| TpReleaseCleanupGroupMembers (g : nat) (cancel_pending : bool)
| TpAllocWork (env : option environ)
| TpAllocTimer (env : option environ)
| TpSimpleTryPost (env : option environ)
| TpPostWork (o : nat)
| TpSetTimerEx (o : nat) (tmo : option Z) (per win : Z)
| TpIsTimerSet (o : nat)
| TpWaitForWork (o : nat) (cancel_pending : bool)
| TpWaitForTimer (o : nat) (cancel_pending : bool)
| TpReleaseWork (o : nat)
| TpReleaseTimer (o : nat)
| TpCallbackMayRunLong (i : nat)
| TpDisassociateCallback (i : nat)
| TpCallbackLeaveCriticalSectionOnCompletion (i : nat) (crit : Z)
| TpCallbackReleaseMutexOnCompletion (i : nat) (h : Z)
| TpCallbackReleaseSemaphoreOnCompletion (i : nat) (h n : Z)
| TpCallbackSetEventOnCompletion (i : nat) (h : Z)
| TpCallbackUnloadDllOnCompletion (i : nat) (m : Z).

(** An allocation or an initialisation that works on pool [p]. *)
Definition allocates_in (s : state) (p : nat) (f : frame) : bool :=
  match f with
  | FAlloc _ env ph =>
      bool_decide (env_pool (env_fields env) = Some p) ||
      match ph with
      | ACas p' | AEnter p' | ATimer p' | AInit p' => bool_decide (p = p')
      | ALock => false
      end
  | FInit o _ =>
      match objects s !! o with
      | Some (Some c) => bool_decide (opool (contents c) = p)
      | _ => false
      end
  | _ => false
  end.

(** All work and timer objects of the pool have been released, and no
    function is allocating in it. *)
Definition pool_idle (s : state) (p : nat) : bool :=
  forallb (fun c : option (cell object) =>
    match c with
    | Some c => let ob := contents c in
        negb (bool_decide (opool ob = p)) || is_simple ob || shutdown ob
    | None => true
    end) (objects s) &&
  negb (any_frame (allocates_in s p) s).

(** A function of the interface works with group [g]. *)
Definition uses_group (s : state) (g : nat) (f : frame) : bool :=
  match f with
  | FAlloc _ env _ => bool_decide (env_group (env_fields env) = Some g)
  | FInit o _ =>
      match objects s !! o with
      | Some (Some c) => bool_decide (ogroup (contents c) = Some g)
      | _ => false
      end
  | FMembers g' _ _ => bool_decide (g = g')
  | _ => false
  end.

(** TpReleasePool *)
Definition release_pool (t p : nat) (rest : list frame) (s : state) : result :=
  held_pool s p (fun pl => requires (pool_idle s p) (
    ASSERT (bool_decide (default_threadpool s <> Some p)) (
      Next (goto t (FPoolRelease p :: rest) (put_pool p false (set_pshutdown pl) s)) []))).

Definition set_pool_max_threads (t p : nat) (maximum : Z) (st : list frame) (s : state) : result :=
  held_pool s p (fun pl => enter (pcs pl) t (
    let mx := i32 (Z.max maximum 1) in
    Next (return_to t st 0 None
      (put_pool p true (set_limits mx (Z.min (min_workers pl) mx) pl) s)) [])).

Definition set_pool_min_threads (t p : nat) (minimum : Z) (a : answers) (st : list frame) (s : state) : result :=
  held_pool s p (fun pl => enter (pcs pl) t (
    let want := Z.to_nat (minimum - num_workers pl) in
    let made := Nat.min want (created a) in
    let pl := new_workers made pl in
    let s := spawn_workers made p s in
    if decide (made = want) then
      let mn := i32 minimum in
      Next (return_to t st 1 None (put_pool p true (set_limits (Z.max mn (max_workers pl)) mn pl) s)) []
    else Next (return_to t st 0 None (put_pool p true pl s)) [])).

Definition set_pool_stack_information (t p : nat) (si : option stack_information)
    (st : list frame) (s : state) : result :=
  match si with
  | None => Next (return_to t st STATUS_INVALID_PARAMETER None s) []
  | Some si =>
      held_pool s p (fun pl => enter (pcs pl) t (
        Next (return_to t st STATUS_SUCCESS None
          (put_pool p true (set_stack_info si (base_priority pl) pl) s)) []))
  end.

Definition set_pool_base_priority (t p : nat) (prio : Z) (st : list frame) (s : state) : result :=
  held_pool s p (fun pl => enter (pcs pl) t (
    Next (return_to t st STATUS_SUCCESS None
      (put_pool p true (set_stack_info (stack_info pl) prio pl) s)) [])).

(** TpReleaseCleanupGroup *)
Definition release_cleanup_group (t g : nat) (rest : list frame) (s : state) : result :=
  held_group s g (fun gr => requires (negb (any_frame (uses_group s g) s)) (
    Next (goto t (FGroupRelease g :: rest)
      (put_group g false (Group (grefcount gr) true (gcs gr) (members gr)) s)) [])).

(** The pointers of an environment are the client's. *)
Definition env_held (env : option environ) (s : state) : bool :=
  match env_pool (env_fields env) with
  | Some p => match pools s !! p with Some (Some c) => held c | _ => false end
  | None => true
  end &&
  match env_group (env_fields env) with
  | Some g => match groups s !! g with Some (Some c) => held c | _ => false end
  | None => true
  end.

Definition alloc_call (t : nat) (k : objtype) (env : option environ) (a : answers)
    (st : list frame) (s : state) : result :=
  requires (env_held env s) (
    if succeeded a then Next (goto t (FAlloc k env ALock :: st) s) []
    else Next (return_to t st STATUS_NO_MEMORY None s) []).

(** The object is of the given type and the client has a pointer to it. *)
Definition object_call (s : state) (o : nat) (k : objtype) (r : result) : result :=
  held_object s o (fun ob => requires (bool_decide (otype ob = k)) r).

Definition wait_call (t o : nat) (k : objtype) (cancel : bool) (st : list frame) (s : state) : result :=
  object_call s o k (
    Next (goto t (if cancel then FCancel o :: FWait o false :: st else FWait o false :: st) s) []).

Definition release_call (t o : nat) (k : objtype) (st : list frame) (s : state) : result :=
  object_call s o k (with_object s o (fun _ ob =>
    requires (negb (any_frame (uses_object o) s)) (
      Next (goto t (FClose o false :: st) (put_object o false ob s)) []))).

(** *** Functions on the instance of a callback *)

(** The callback that a thread runs, with the worker frame that holds the
    instance; [None] if there is none. *)
Definition running_instance (th : thread) : option (nat * nat * instance) :=
  match last (stack th) with
  | Some (FWorker p (WRun o i)) | Some (FWorker p (WFinal o i)) => Some (p, o, i)
  | _ => None
  end.

Definition with_instance (i : instance) (f : frame) : frame :=
  match f with
  | FWorker p (WRun o _) => FWorker p (WRun o i)
  | FWorker p (WFinal o _) => FWorker p (WFinal o i)
  | _ => f
  end.

(** The instance of the callback that thread [t'] runs becomes [i]. *)
Fixpoint set_instance (i : instance) (st : list frame) : list frame :=
  match st with
  | [] => []
  | [f] => [with_instance i f]
  | f :: rest => f :: set_instance i rest
  end.

Definition put_instance (t' : nat) (i : instance) (s : state) : state :=
  set_threads (alter (fun th => Thread (set_instance i (stack th)) (ret th) (out th)) t'
                 (threads s)) s.

Definition instance_call (t' : nat) (s : state) (k : nat -> nat -> instance -> result) : result :=
  match threads s !! t' ≫= running_instance with
  | Some (p, o, i) => k p o i
  | None => Misuse
  end.

(** TpCallbackMayRunLong *)
Definition callback_may_run_long (t t' : nat) (a : answers) (st : list frame) (s : state) : result :=
  instance_call t' s (fun _ o i =>
    if decide (t' = t) then
      if long i then Next (return_to t st STATUS_SUCCESS None s) []
      else
        with_object s o (fun _ ob =>
        with_pool s (opool ob) (fun h pl =>
        enter (pcs pl) t (
          let fin v s := Next (put_instance t (Instance (associated i) true (tasks i))
                                 (return_to t st v None s)) [] in
          if num_workers pl <=? num_busy_workers pl then
            if num_workers pl <? max_workers pl then
              if succeeded a then
                fin STATUS_SUCCESS (put_pool (opool ob) h (new_workers 1 pl) (spawn_workers 1 (opool ob) s))
              else fin (sys a) s
            else fin STATUS_TOO_MANY_THREADS s
          else fin STATUS_SUCCESS s)))
    else Next (return_to t st STATUS_UNSUCCESSFUL None s) []).

(** TpDisassociateCallback *)
Definition disassociate_callback (t t' : nat) (st : list frame) (s : state) : result :=
  instance_call t' s (fun _ o i =>
    if decide (t' = t) then
      if associated i then
        with_object s o (fun h ob =>
        with_pool s (opool ob) (fun _ pl =>
        enter (pcs pl) t (
          let ob := set_callbacks (num_pending_callbacks ob) (num_running_callbacks ob)
                      (num_associated_callbacks ob - 1) ob in
          let s := put_object o h ob (return_to t st 0 None s) in
          let s := put_instance t (Instance false (long i) (tasks i)) s in
          Next (wake_if (object_is_finished ob false) o false s) [])))
      else Next (return_to t st 0 None s) []
    else Next (return_to t st 0 None s) []).

(** The five functions that register a cleanup task: the first one of its kind
    is kept. *)
Definition callback_on_completion (t t' : nat) (f : cleanup -> cleanup) (st : list frame) (s : state) : result :=
  instance_call t' s (fun _ _ i =>
    Next (put_instance t' (Instance (associated i) (long i) (f (tasks i)))
            (return_to t st 0 None s)) []).

Definition or_else {A} (x y : option A) : option A :=
  match x with Some _ => x | None => y end.

(** A null handle registers nothing. *)
Definition unless_null {A} (v : Z) (x : A) : option A := if v =? 0 then None else Some x.

Definition leave_critical_section (v : Z) (c : cleanup) : cleanup :=
  Cleanup (or_else (critical_section c) (unless_null v v)) (mutex c) (semaphore c) (event c) (library c).
Definition release_mutex (v : Z) (c : cleanup) : cleanup :=
  Cleanup (critical_section c) (or_else (mutex c) (unless_null v v)) (semaphore c) (event c) (library c).
Definition release_semaphore (v n : Z) (c : cleanup) : cleanup :=
  Cleanup (critical_section c) (mutex c) (or_else (semaphore c) (unless_null v (v, n))) (event c) (library c).
Definition set_event (v : Z) (c : cleanup) : cleanup :=
  Cleanup (critical_section c) (mutex c) (semaphore c) (or_else (event c) (unless_null v v)) (library c).
Definition unload_dll (v : Z) (c : cleanup) : cleanup :=
  Cleanup (critical_section c) (mutex c) (semaphore c) (event c) (or_else (library c) (unless_null v v)).

(** TpAllocPool, with tp_threadpool_alloc *)
Definition alloc_pool_call (t : nat) (a : answers) (st : list frame) (s : state) : result :=
  if succeeded a then
    Next (return_to t st STATUS_SUCCESS (Some (length (pools s)))
            (alloc_pool true (new_pool (image_stack a)) s)) []
  else Next (return_to t st STATUS_NO_MEMORY None s) [].

(** TpAllocCleanupGroup, with tp_group_alloc *)
Definition alloc_group_call (t : nat) (a : answers) (st : list frame) (s : state) : result :=
  if succeeded a then
    Next (return_to t st STATUS_SUCCESS (Some (length (groups s)))
            (alloc_group true (Group 1 false None []) s)) []
  else Next (return_to t st STATUS_NO_MEMORY None s) [].

(** TpPostWork *)
Definition post_work (t o : nat) (st : list frame) (s : state) : result :=
  object_call s o TP_OBJECT_TYPE_WORK (Next (goto t (FSubmit o false :: st) s) []).

(** TpIsTimerSet *)
Definition is_timer_set (t o : nat) (st : list frame) (s : state) : result :=
  object_call s o TP_OBJECT_TYPE_TIMER (
    match timer_of s o with
    | Some x => Next (return_to t st (if timer_set x then 1 else 0) None s) []
    | None => Crash
    end).

(** A call by thread [t], whose stack is [st]. *)
Definition call_step (t : nat) (c : call) (a : answers) (st : list frame) (s : state) : result :=
  match c with
  | TpAllocPool => alloc_pool_call t a st s
  | TpReleasePool p => release_pool t p st s
  | TpSetPoolMaxThreads p n => set_pool_max_threads t p n st s
  | TpSetPoolMinThreads p n => set_pool_min_threads t p n a st s
  | TpSetPoolStackInformation p si => set_pool_stack_information t p si st s
  | TpSetPoolThreadBasePriority p n => set_pool_base_priority t p n st s
  | TpAllocCleanupGroup => alloc_group_call t a st s
  | TpReleaseCleanupGroup g => release_cleanup_group t g st s
  | TpReleaseCleanupGroupMembers g cancel =>
      held_group s g (fun _ => Next (goto t (FMembers g cancel MEnter :: st) s) [])
  | TpAllocWork env => alloc_call t TP_OBJECT_TYPE_WORK env a st s
  | TpAllocTimer env => alloc_call t TP_OBJECT_TYPE_TIMER env a st s
  | TpSimpleTryPost env => alloc_call t TP_OBJECT_TYPE_SIMPLE env a st s
  | TpPostWork o => post_work t o st s
  | TpSetTimerEx o tmo per win =>
      object_call s o TP_OBJECT_TYPE_TIMER (Next (goto t (FSetTimer o tmo per win :: st) s) [])
  | TpIsTimerSet o => is_timer_set t o st s
  | TpWaitForWork o cancel => wait_call t o TP_OBJECT_TYPE_WORK cancel st s
  | TpWaitForTimer o cancel => wait_call t o TP_OBJECT_TYPE_TIMER cancel st s
  | TpReleaseWork o => release_call t o TP_OBJECT_TYPE_WORK st s
  | TpReleaseTimer o => release_call t o TP_OBJECT_TYPE_TIMER st s
  | TpCallbackMayRunLong i => callback_may_run_long t i a st s
  | TpDisassociateCallback i => disassociate_callback t i st s
  | TpCallbackLeaveCriticalSectionOnCompletion i v =>
      callback_on_completion t i (leave_critical_section v) st s
  | TpCallbackReleaseMutexOnCompletion i v => callback_on_completion t i (release_mutex v) st s
  | TpCallbackReleaseSemaphoreOnCompletion i v n => callback_on_completion t i (release_semaphore v n) st s
  | TpCallbackSetEventOnCompletion i v => callback_on_completion t i (set_event v) st s
  | TpCallbackUnloadDllOnCompletion i v => callback_on_completion t i (unload_dll v) st s
  end.

(** ** Steps *)

(** The thread runs code of the client. *)
Definition in_user_code (f : frame) : bool :=
  match f with
  | FUser | FWorker _ (WRun _ _) | FWorker _ (WFinal _ _) | FMembers _ _ (MCallback _ _) => true
  | _ => false
  end.

(** The step of the function on top of the stack of [t]. *)
Definition frame_step (t : nat) (f : frame) (rest : list frame) (a : answers) (s : state) : result :=
  match f with
  | FUser => Blocked
  | FWorker p ph => threadpool_worker_proc t p ph rest a s
  | FTimers ph => timerqueue_thread_proc t ph rest a s
  | FPoolRelease p => tp_threadpool_release p s (fun s => Next (goto t rest s) [])
  | FPoolUnlock p => unlock_section t p s (fun s => Next (goto t (FPoolRelease p :: rest) s) [])
  | FGroupRelease g => tp_group_release g s (fun s => Next (goto t rest s) [])
  | FRelease o ph => tp_object_release t o ph rest s
  | FAlloc k env ph => alloc_step t k env ph rest a s
  | FInit o ph => init_step t o ph rest a s
  | FSubmit o false => submit_assert o s (Next (goto t (FSubmit o true :: rest) s) [])
  | FSubmit o true => submit_section t o a (fun s => Next (goto t rest s) [ESubmit o]) s
  | FCancel o =>
      cancel_section t o s (fun n s =>
        Next (goto t (FCancelRelease o (Z.to_nat n) :: rest) s) [ECancel o n])
  | FCancelRelease o 0 => Next (goto t rest s) []
  | FCancelRelease o (S n) => Next (goto t (FRelease o RDec :: FCancelRelease o n :: rest) s) []
  | FWait o true => if timed_out a then Next (goto t (FWait o false :: rest) s) [] else Blocked
  | FWait o false =>
      wait_section t o false s (Next (goto t rest s) [EWaited o])
        (Next (goto t (FWait o true :: rest) s) [])
  | FSetTimer o tmo per win => set_timer_section t o tmo per win a rest s
  | FClose o false =>
      tp_object_prepare_shutdown t o a (fun s => Next (goto t (FClose o true :: rest) s) []) s
  | FClose o true =>
      with_object s o (fun h ob =>
        Next (goto t (FRelease o RDec :: rest) (put_object o h (set_shutdown ob) s)) [])
  | FMembers g cancel ph => members_step t g cancel ph rest a s
  end.

(** [None]: the function on top continues; [Some c]: the client calls [c]. *)
Definition step (t : nat) (l : option call) (a : answers) (s : state) : result :=
  match threads s !! t with
  | Some th =>
      match stack th with
      | f :: rest =>
          match l with
          | Some c => if in_user_code f then call_step t c a (f :: rest) s else Misuse
          | None => frame_step t f rest a s
          end
      | [] => Blocked
      end
  | None => Blocked
  end.

(** Runs from a state, with what they do. *)
Inductive runs (s : state) : list event_ -> state -> Prop :=
| runs_nil : runs s [] s
| runs_step es s1 t l a es' s2 :
    runs s es s1 -> step t l a s1 = Next s2 es' -> runs s (es ++ es') s2.

(** A run given by its labels; [None] if a step does not return a state. *)
Fixpoint exec (ls : list (nat * option call * answers)) (s : state) : option (state * list event_) :=
  match ls with
  | [] => Some (s, [])
  | (t, l, a) :: ls =>
      match step t l a s with
      | Next s' es => '(s'', es') ← exec ls s'; Some (s'', es ++ es')
      | _ => None
      end
  end.

Lemma exec_runs ls s s' es0 s0 es :
  runs s0 es0 s -> exec ls s = Some (s', es) -> runs s0 (es0 ++ es) s'.
Proof.
  revert s es0 es. induction ls as [|[[t l] a] ls IH]; intros s es0 es Hr He; simpl in He.
  - simplify_eq. by rewrite app_nil_r.
  - destruct (step t l a s) as [| | |s1 es1] eqn:Hs; try discriminate.
    destruct (exec ls s1) as [[s2 es2]|] eqn:H2; simplify_option_eq.
    rewrite app_assoc. eapply IH; [|done]. by econstructor.
Qed.

End Tp.
