(* ===== verification/TpInv.v ===== *)
(** * The thread pool: the invariant

    Every reference that is counted in an object, a pool or a group belongs to
    someone: the client, a queued callback, a worker, an object, or a frame of
    a thread.  [oc], [pc] and [gc] say how many references of each kind a frame
    accounts for; the invariant equates the counters of the program with sums
    over all threads, and with sums over all objects for the references that
    objects have on their pool and group. *)
From S2P Require Import Prelude Threadpool.

Module TpInv.
Import Tp.

(** ** Sums *)
Definition b2z (b : bool) : Z := if b then 1 else 0.
Definition eqz (x y : nat) : Z := if decide (x = y) then 1 else 0.

Definition zsum (l : list Z) : Z := foldr Z.add 0 l.

Fixpoint countz (o : nat) (l : list nat) : Z :=
  match l with [] => 0 | x :: l => eqz o x + countz o l end.

Definition stot (f : frame -> Z) (st : list frame) : Z := zsum (map f st).
Definition total (f : frame -> Z) (ths : list thread) : Z :=
  zsum (map (fun th => stot f (stack th)) ths).

(** ** What a frame accounts for, by object *)
Inductive okind :=
| KRef          (* references *)
| KRun          (* callbacks that run *)
| KAssoc        (* of these, the ones that are associated *)
| KDestroy      (* destroyed: past the last reference *)
| KPast2        (* destroyed, past the removal from the group *)
| KNoGroup      (* without a reference on the group *)
| KPast4        (* destroyed, no longer counted in the pool *)
| KPast5        (* destroyed, no longer with a reference on the pool *)
| KKeep         (* a frame that is going to shut the object down *)
| KInit         (* tp_object_initialize *)
| KEarly        (* tp_object_initialize before a simple callback is submitted *)
| KOne          (* keeps a group from taking the object *)
| KGroup        (* the group has taken the reference of the client too *)
| KReady        (* the timer has been taken out of the timer queue *)
| KClose        (* the client has released the object *)
| KRelease.     (* the group is about to release the reference of the client *)

Definition members_lists (k : okind) (o : nat) (ph : mphase) : Z :=
  match k, ph with
  | (KRef | KKeep | KOne | KGroup | KReady), (MLoop l _ | MCancel _ l) => countz o l
  | (KRef | KKeep | KOne | KGroup), MPrepare o' l _ => eqz o o' + countz o l
  | KReady, MPrepare _ l _ => countz o l
  | KRef, MCancelRelease n o' _ l => Z.of_nat n * eqz o o' + countz o l
  | (KKeep | KOne | KGroup | KReady), MCancelRelease _ _ _ l => countz o l
  | (KRef | KKeep | KOne | KGroup | KReady), MWait _ l => countz o l
  | (KRef | KKeep | KOne | KGroup | KReady),
    (MCheck o' l | MCallback o' l | MRelease o' l) => eqz o o' + countz o l
  | (KRef | KKeep | KOne | KReady), MShutdown o' l => eqz o o' + countz o l
  | KGroup, MShutdown _ l => countz o l
  | KRelease, (MCallback o' _ | MRelease o' _) => eqz o o'
  | _, _ => 0
  end.

Definition release_counts (k : okind) (ph : rphase) : bool :=
  match k, ph with
  | KRef, RDec => true
  | KDestroy, (RGroup | RGroupRelease | RPool | RPoolRelease | RFree) => true
  | KPast2, (RGroupRelease | RPool | RPoolRelease | RFree) => true
  | KNoGroup, (RPool | RPoolRelease | RFree) => true
  | KPast4, (RPoolRelease | RFree) => true
  | KPast5, RFree => true
  | _, _ => false
  end.

Definition init_counts (k : okind) (ph : iphase) : bool :=
  match k, ph with
  | (KRef | KInit), _ => true
  | KEarly, (IAssert | ISubmit) => true
  | KNoGroup, (IAssert | ISubmit | IGroupRef) => true
  | KOne, (IAssert | ISubmit | IGroupRef | IGroupAdd) => true
  | _, _ => false
  end.

Definition oc (k : okind) (o : nat) (f : frame) : Z :=
  match f with
  | FWorker _ (WRun o' i | WFinal o' i | WEnd o' i) =>
      match k with
      | KRef | KRun => eqz o o'
      | KAssoc => b2z (associated i) * eqz o o'
      | _ => 0
      end
  | FRelease o' ph => if release_counts k ph then eqz o o' else 0
  | FInit o' ph => if init_counts k ph then eqz o o' else 0
  | FCancelRelease o' n => match k with KRef => Z.of_nat n * eqz o o' | _ => 0 end
  | FClose o' b =>
      match k with
      | KRef | KKeep | KClose => eqz o o'
      | KReady => b2z b * eqz o o'
      | _ => 0
      end
  | FMembers _ _ ph => members_lists k o ph
  | _ => 0
  end.

(** ** By pool *)
Inductive pkind :=
| PWorker       (* worker threads *)
| PRef          (* references *)
| PObj          (* objects that are being allocated *)
| PExec         (* workers that run a callback *)
| PKeep.        (* a default pool that is not published yet *)

Definition alloc_counts (k : pkind) (p : nat) (ph : aphase) : Z :=
  match k, ph with
  | PRef, (ACas p' | ATimer p' | AInit p') => eqz p p'
  | PObj, (ATimer p' | AInit p') => eqz p p'
  | PKeep, ACas p' => eqz p p'
  | _, _ => 0
  end.

Definition pc (k : pkind) (p : nat) (f : frame) : Z :=
  match f with
  | FWorker p' ph =>
      match k, ph with
      | PWorker, _ => eqz p p'
      | PExec, (WRun _ _ | WFinal _ _ | WEnd _ _) => eqz p p'
      | _, _ => 0
      end
  | FPoolRelease p' => match k with PRef => eqz p p' | _ => 0 end
  | FPoolUnlock p' => match k with PRef | PObj => eqz p p' | _ => 0 end
  | FAlloc _ _ ph => alloc_counts k p ph
  | _ => 0
  end.

(** ** By group, and in the timer queue *)
Definition gc (g : nat) (f : frame) : Z :=
  match f with FGroupRelease g' => eqz g g' | _ => 0 end.

Definition tc (f : frame) : Z :=
  match f with
  | FAlloc k _ (AInit _) => if decide (k = TP_OBJECT_TYPE_TIMER) then 1 else 0
  | _ => 0
  end.

(** ** Sums over the objects *)
Definition at_ {A} (h : heap A) (i : nat) : option (cell A) := default None (h !! i).

Definition oterm (f : nat -> object -> Z) (h : heap object) (i : nat) : Z :=
  match at_ h i with Some c => f i (contents c) | None => 0 end.

Definition osum (f : nat -> object -> Z) (h : heap object) : Z :=
  zsum (map (oterm f h) (seq 0 (length h))).

Definition otot (s : state) (o : nat) (k : okind) : Z := total (oc k o) (threads s).
Definition ptot (s : state) (p : nat) (k : pkind) : Z := total (pc k p) (threads s).

(** The references of the objects of pool [p] on it, and how many it counts. *)
Definition pool_refs (s : state) (p : nat) : Z :=
  osum (fun o ob => eqz p (opool ob) * (1 - otot s o KPast5)) (objects s).
Definition pool_objs (s : state) (p : nat) : Z :=
  osum (fun o ob => eqz p (opool ob) * (1 - otot s o KPast4)) (objects s).

Definition in_group (g : nat) (ob : object) : Z :=
  match ogroup ob with Some g' => eqz g g' | None => 0 end.

Definition group_refs (s : state) (g : nat) : Z :=
  osum (fun o ob => in_group g ob * (1 - otot s o KNoGroup)) (objects s).

Definition initialized (ob : object) : bool :=
  match u ob with UTimer x => timer_initialized x | _ => false end.
Definition pending_timer (ob : object) : bool :=
  match u ob with UTimer x => timer_pending x | _ => false end.
Definition is_timer (ob : object) : bool :=
  match u ob with UTimer _ => true | _ => false end.

(** ** Objects *)
Record live_object (h : bool) (ob : object) (T : okind -> Z) : Prop := {
  lo_ref : refcount ob = b2z h + num_pending_callbacks ob + T KRef
             + (if shutdown ob || is_simple ob then 0 else T KGroup);
  lo_pending : 0 <= num_pending_callbacks ob;
  lo_run : num_running_callbacks ob = T KRun;
  lo_assoc : num_associated_callbacks ob = T KAssoc;
  lo_destroy : T KDestroy = (if refcount ob =? 0 then 1 else 0);
  lo_keep : shutdown ob = false ->
    1 <= b2z h + T KKeep
         + (if is_simple ob then T KEarly + num_pending_callbacks ob + T KRun else T KInit);
  lo_one : b2z (is_group_member ob) + T KOne <= 1;
  lo_member : is_group_member ob = true -> T KPast2 = 0 /\ ogroup ob <> None;
  lo_simple : is_simple ob = true ->
    h = false /\ T KEarly + num_pending_callbacks ob + T KRun <= 1;
  lo_early : 1 <= T KEarly -> shutdown ob = false /\ is_simple ob = true;
  lo_held : h = true -> shutdown ob = false /\ T KInit = 0 /\ T KKeep = 0;
  lo_timer : initialized ob = true -> shutdown ob = false /\ T KReady = 0;
  lo_timer_set : pending_timer ob = true -> initialized ob = true;
  lo_owned : is_timer ob = true -> 1 <= b2z h + T KInit -> initialized ob = true;
  lo_kind : match u ob with UWait _ | UIo _ => False | _ => True end;
  lo_prio : (priority ob < 3)%nat;
  lo_init : 1 <= T KInit -> is_simple ob = false ->
    h = false /\ shutdown ob = false /\ T KInit = 1 /\ T KKeep = 0;
  lo_only : shutdown ob = false -> is_simple ob = false -> b2z h + T KInit + T KKeep <= 1;
  lo_closed : is_simple ob = true -> T KClose = 0;
  lo_release : 1 <= T KRelease -> is_simple ob = false -> shutdown ob = false }.

Definition object_ok (c : option (cell object)) (T : okind -> Z) : Prop :=
  match c with
  | Some c => live_object (held c) (contents c) T
  | None => T KRef = 0 /\ T KDestroy = 0
  end.

(** ** Pools *)
Definition qlen (pl : pool) : Z := Z.of_nat (length (concat (queues pl))).

Record live_pool (h : bool) (d : Z) (pl : pool) (T : pkind -> Z) (refs objs : Z) : Prop := {
  lp_ref : prefcount pl = b2z h + d + num_workers pl + T PRef + refs;
  lp_num : num_workers pl = T PWorker;
  lp_objs : objcount pl = T PObj + objs;
  lp_busy : qlen pl + T PExec <= num_busy_workers pl;
  lp_keep : pshutdown pl = false -> 1 <= b2z h + d + T PKeep;
  lp_open : 1 <= b2z h + d -> pshutdown pl = false;
  lp_new : 1 <= T PKeep -> prefcount pl = 1 /\ pshutdown pl = false;
  lp_worker : pshutdown pl = false /\ 0 < objcount pl \/ 0 < qlen pl -> 1 <= num_workers pl;
  lp_owner : b2z h + d <= 1 }.

Definition pool_ok (c : option (cell pool)) (d : Z) (T : pkind -> Z) (refs objs : Z) : Prop :=
  match c with
  | Some c => live_pool (held c) d (contents c) T refs objs
  | None => d = 0 /\ T PWorker = 0 /\ T PRef = 0 /\ refs = 0
  end.

(** The lists of a pool hold its objects with pending callbacks, each once, by
    priority. *)
Definition queue_ok (s : state) (p : nat) (pl : pool) : Prop :=
  length (queues pl) = 3%nat /\ NoDup (concat (queues pl)) /\
  forall i q o, queues pl !! i = Some q -> o ∈ q ->
    exists c, at_ (objects s) o = Some c /\ opool (contents c) = p /\
      priority (contents c) = i /\ 0 < num_pending_callbacks (contents c).

Definition queued (s : state) (o : nat) (ob : object) : Prop :=
  0 < num_pending_callbacks ob ->
  exists c q, at_ (pools s) (opool ob) = Some c /\
    queues (contents c) !! priority ob = Some q /\ o ∈ q.

(** A pool is not shut down before its work and timer objects. *)
Definition home_ok (s : state) (ob : object) : Prop :=
  is_simple ob = false -> shutdown ob = false ->
  exists c, at_ (pools s) (opool ob) = Some c /\ pshutdown (contents c) = false.

(** ** Groups *)
Record live_group (h : bool) (gr : group) (T refs : Z) : Prop := {
  lg_ref : grefcount gr = b2z h + T + refs;
  lg_open : gshutdown gr = false -> h = true }.

Definition group_ok (c : option (cell group)) (T refs : Z) : Prop :=
  match c with
  | Some c => live_group (held c) (contents c) T refs
  | None => T = 0 /\ refs = 0
  end.

Definition member_of (s : state) (g o : nat) : Prop :=
  exists c, at_ (objects s) o = Some c /\ ogroup (contents c) = Some g /\
    is_group_member (contents c) = true.

(** The frame of the thread that iterates over the members. *)
Definition iterates (g : nat) (l r : list nat) (f : frame) : Prop :=
  exists c, f = FMembers g c (MLoop l r) \/
    exists o l', l = l' ++ [o] /\ f = FMembers g c (MPrepare o l' r).

(** Members that the iteration has not reached are objects of the group. *)
Definition members_ok (s : state) (g : nat) (gr : group) : Prop :=
  exists l r, members gr = l ++ r /\ NoDup r /\
    (forall o, o ∈ r <-> member_of s g o) /\
    match gcs gr with
    | None => l = []
    | Some t => exists th f rest, threads s !! t = Some th /\ stack th = f :: rest /\
                  iterates g l r f
    end.

(** ** The timer queue *)
Definition tq_refs (s : state) : Z := osum (fun _ ob => b2z (initialized ob)) (objects s).

Definition scanning (ph : tphase) : bool := match ph with TWait _ => false | _ => true end.

Record timers_ok (s : state) : Prop := {
  tq_count : tobjcount (timers s) = tq_refs s + total tc (threads s);
  tq_nodup : NoDup (abs_timers (timers s) ++ rel_timers (timers s));
  tq_elem : forall o, o ∈ abs_timers (timers s) ++ rel_timers (timers s) <->
    exists c, at_ (objects s) o = Some c /\ pending_timer (contents c) = true;
  tq_lock : forall t, tcs (timers s) = Some t ->
    exists th ph, threads s !! t = Some th /\ stack th = [FTimers ph] /\ scanning ph = true }.

(** ** Frames *)
Definition held_obj (s : state) (o : nat) (P : object -> Prop) : Prop :=
  exists c, at_ (objects s) o = Some c /\ held c = true /\ P (contents c).

Definition open_pool (s : state) (p : nat) : Prop :=
  exists c, at_ (pools s) p = Some c /\ pshutdown (contents c) = false.

Definition env_ok (s : state) (env : option environ) : Prop :=
  (forall p, env_pool (env_fields env) = Some p ->
     exists c, at_ (pools s) p = Some c /\ held c = true) /\
  (forall g, env_group (env_fields env) = Some g ->
     exists c, at_ (groups s) g = Some c /\ held c = true).

Definition timer_due (s : state) (o : nat) : Prop :=
  exists c, at_ (objects s) o = Some c /\ initialized (contents c) = true /\
    pending_timer (contents c) = false.

Definition frame_ok (s : state) (t : nat) (f : frame) : Prop :=
  match f with
  | FSubmit o _ | FCancel o | FWait o _ => held_obj s o (fun _ => True)
  | FSetTimer o _ _ _ => held_obj s o (fun ob => is_timer ob = true)
  | FTimers ph =>
      match ph with
      | TWait _ => True
      | TScan _ _ _ => tcs (timers s) = Some t
      | TAssert o _ _ _ | TSubmit o _ _ _ | TInsert o _ _ _ =>
          tcs (timers s) = Some t /\ timer_due s o
      end
  | FWorker p (WRun o _ | WFinal o _ | WEnd o _) =>
      exists c, at_ (objects s) o = Some c /\ opool (contents c) = p
  | FRelease o (RGroup | RGroupRelease) =>
      exists c, at_ (objects s) o = Some c /\ ogroup (contents c) <> None
  | FAlloc k env ph =>
      env_ok s env /\
      (k = TP_OBJECT_TYPE_SIMPLE \/ k = TP_OBJECT_TYPE_WORK \/ k = TP_OBJECT_TYPE_TIMER) /\
      match ph with
      | ALock => True
      | ACas _ => valid_environ env = true
      | AEnter p =>
          valid_environ env = true /\
          exists c, at_ (pools s) p = Some c /\ (held c = true \/ default_threadpool s = Some p)
      | ATimer p => valid_environ env = true /\ k = TP_OBJECT_TYPE_TIMER /\ open_pool s p
      | AInit p => valid_environ env = true /\ open_pool s p
      end
  | FInit o ph =>
      exists c, at_ (objects s) o = Some c /\ open_pool s (opool (contents c)) /\
      match ph with
      | IAssert | ISubmit | IGroupRef =>
          forall g, ogroup (contents c) = Some g ->
            exists cg, at_ (groups s) g = Some cg /\ held cg = true
      | IGroupAdd => ogroup (contents c) <> None
      | IFinish => True
      end
  | FMembers g _ ph =>
      exists c, at_ (groups s) g = Some c /\ held c = true /\
      match ph with
      | MLoop _ _ | MPrepare _ _ _ => gcs (contents c) = Some t
      | MCancel todo l | MCancelRelease _ _ todo l => todo ⊆ l
      | _ => True
      end
  | _ => True
  end.

(** Frames below the top of a stack. *)
Definition resting (f : frame) : bool :=
  match f with
  | FUser | FWorker _ (WLoop | WRun _ _ | WFinal _ _) | FCancelRelease _ _ | FWait _ false
  | FAlloc _ _ (AEnter _)
  | FMembers _ _ (MCancelRelease _ _ _ _ | MWait false _ | MCallback _ _ | MShutdown _ _) => true
  | _ => false
  end.

Definition shape (st : list frame) : Prop :=
  match st with
  | [] => True
  | FTimers _ :: rest => rest = []
  | _ :: rest => Forall (fun f => resting f = true) rest
  end.

(** ** The invariant *)
Record Inv (s : state) : Prop := {
  inv_object : forall o, object_ok (at_ (objects s) o) (otot s o);
  inv_pool : forall p,
    pool_ok (at_ (pools s) p) (b2z (bool_decide (default_threadpool s = Some p)))
      (ptot s p) (pool_refs s p) (pool_objs s p);
  inv_group : forall g,
    group_ok (at_ (groups s) g) (total (gc g) (threads s)) (group_refs s g);
  inv_queue : forall p c, at_ (pools s) p = Some c -> queue_ok s p (contents c);
  inv_queued : forall o c, at_ (objects s) o = Some c -> queued s o (contents c);
  inv_home : forall o c, at_ (objects s) o = Some c -> home_ok s (contents c);
  inv_members : forall g c, at_ (groups s) g = Some c -> members_ok s g (contents c);
  inv_timers : timers_ok s;
  inv_frames : forall t th f, threads s !! t = Some th -> f ∈ stack th -> frame_ok s t f;
  inv_shape : forall t th, threads s !! t = Some th -> shape (stack th) }.

(** ** Lemmas on sums *)
Lemma zsum_app l1 l2 : zsum (l1 ++ l2) = zsum l1 + zsum l2.
Proof. induction l1; simpl; lia. Qed.

Lemma zsum_nonneg l : Forall (Z.le 0) l -> 0 <= zsum l.
Proof. induction 1; simpl; lia. Qed.

Lemma zsum_map_le {A} (f g : A -> Z) l :
  (forall x, x ∈ l -> f x <= g x) -> zsum (map f l) <= zsum (map g l).
Proof.
  induction l as [|x l IH]; intros H; simpl; [lia|].
  pose proof (H x ltac:(left)). specialize (IH (fun y Hy => H y ltac:(by right))). lia.
Qed.

Lemma zsum_map_ext {A} (f g : A -> Z) l :
  (forall x, x ∈ l -> f x = g x) -> zsum (map f l) = zsum (map g l).
Proof.
  intros H. apply Z.le_antisymm; apply zsum_map_le; intros x Hx; rewrite (H x Hx); lia.
Qed.

Lemma zsum_map_elem {A} (f : A -> Z) l x :
  (forall y, y ∈ l -> 0 <= f y) -> x ∈ l -> f x <= zsum (map f l).
Proof.
  intros H. induction 1 as [x l|x y l Hx IH]; simpl.
  - pose proof (zsum_map_le (fun _ => 0) f l (fun y Hy => H y ltac:(by right))) as Hl.
    assert (zsum (map (fun _ => 0) l) = 0) by (clear; induction l; simpl; lia). lia.
  - pose proof (H y ltac:(left)). specialize (IH (fun z Hz => H z ltac:(by right))). lia.
Qed.

Lemma zsum_map_pos {A} (f : A -> Z) l : 0 < zsum (map f l) -> exists x, x ∈ l /\ 0 < f x.
Proof.
  induction l as [|x l IH]; simpl; intros H; [lia|].
  destruct (Z.lt_ge_cases 0 (f x)); [exists x; split; [left|done]|].
  destruct IH as (y & ? & ?); [lia|]. exists y. split; [by right|done].
Qed.

(** One term of a sum changes. *)
Lemma zsum_seq_update (f g : nat -> Z) o n :
  (o < n)%nat -> (forall i, i <> o -> f i = g i) ->
  zsum (map g (seq 0 n)) = zsum (map f (seq 0 n)) - f o + g o.
Proof.
  intros Hn Hfg.
  replace n with (o + S (n - S o))%nat by lia.
  rewrite seq_app, !map_app, !zsum_app. simpl.
  rewrite (zsum_map_ext f g (seq 0 o)), (zsum_map_ext f g (seq (S o) _)); [lia| |];
    intros x Hx%elem_of_seq; apply Hfg; lia.
Qed.

Lemma total_alter f t (F : thread -> thread) ths th :
  ths !! t = Some th ->
  total f (alter F t ths) = total f ths - stot f (stack th) + stot f (stack (F th)).
Proof.
  unfold total. revert t. induction ths as [|x ths IH]; intros [|t] H; simplify_eq/=; [lia|].
  rewrite (IH t H). lia.
Qed.

Lemma total_app f l1 l2 : total f (l1 ++ l2) = total f l1 + total f l2.
Proof. unfold total. by rewrite map_app, zsum_app. Qed.

Lemma total_map f (F : thread -> thread) ths :
  (forall th, stot f (stack (F th)) = stot f (stack th)) -> total f (map F ths) = total f ths.
Proof. intros H. unfold total. rewrite map_map. apply zsum_map_ext. intros x _. apply H. Qed.

Lemma total_le f g ths : (forall x, f x <= g x) -> total f ths <= total g ths.
Proof. intros H. apply zsum_map_le. intros th _. apply zsum_map_le. auto. Qed.

Lemma total_nonneg f ths : (forall x, 0 <= f x) -> 0 <= total f ths.
Proof.
  intros H. apply zsum_nonneg, Forall_map, Forall_forall. intros th _. simpl.
  apply zsum_nonneg, Forall_map, Forall_forall. intros x _. apply H.
Qed.

Lemma total_elem f ths t th x :
  (forall x, 0 <= f x) -> ths !! t = Some th -> x ∈ stack th -> f x <= total f ths.
Proof.
  intros H Ht Hx. transitivity (stot f (stack th)).
  - apply (zsum_map_elem f); [auto|done].
  - apply (zsum_map_elem (fun th => stot f (stack th))).
    + intros y _. apply zsum_nonneg, Forall_map, Forall_forall. intros z _. apply H.
    + by eapply list_elem_of_lookup_2.
Qed.

Lemma total_pos f ths :
  0 < total f ths -> exists t th x, ths !! t = Some th /\ x ∈ stack th /\ 0 < f x.
Proof.
  intros (th & (t & Ht)%list_elem_of_lookup & Hp)%zsum_map_pos.
  apply zsum_map_pos in Hp as (x & ? & ?). naive_solver.
Qed.

Lemma total_add f g ths : total (fun x => f x + g x) ths = total f ths + total g ths.
Proof.
  unfold total. induction ths as [|th ths IH]; simpl; [done|]. rewrite IH.
  assert (stot (fun x => f x + g x) (stack th) = stot f (stack th) + stot g (stack th)) as ->; [|lia].
  unfold stot. induction (stack th) as [|x l IHl]; simpl; [done|]. lia.
Qed.

Lemma total_sub f g ths : total (fun x => f x - g x) ths = total f ths - total g ths.
Proof.
  enough (total g ths + total (fun x => f x - g x) ths = total f ths) by lia.
  rewrite <- total_add. apply zsum_map_ext. intros th _. apply zsum_map_ext. intros. lia.
Qed.

(** What one frame has more of. *)
Lemma total_slack f g ths t th x :
  (forall z, g z <= f z) -> ths !! t = Some th -> x ∈ stack th ->
  f x - g x <= total f ths - total g ths.
Proof.
  intros H Ht Hx. rewrite <- total_sub.
  apply (total_elem (fun x => f x - g x) ths t th); [|done..]. intros z. specialize (H z). lia.
Qed.

Lemma oterm_out f h i : (length h <= i)%nat -> oterm f h i = 0.
Proof. intros H. unfold oterm, at_. by rewrite lookup_ge_None_2. Qed.

(** The sum over the objects may run past the end of the heap. *)
Lemma osum_long f h n : (length h <= n)%nat -> osum f h = zsum (map (oterm f h) (seq 0 n)).
Proof.
  intros H. unfold osum. replace n with (length h + (n - length h))%nat by lia.
  rewrite seq_app, map_app, zsum_app.
  rewrite (zsum_map_ext (oterm f h) (fun _ => 0) (seq (0 + length h) _)).
  - assert (forall l : list nat, zsum (map (fun _ => 0) l) = 0) as ->
      by (induction l; simpl; lia). lia.
  - intros x Hx%elem_of_seq. apply oterm_out. lia.
Qed.

(** One object changes. *)
Lemma osum_update f f' h h' o :
  (forall i, i <> o -> at_ h' i = at_ h i) ->
  (forall i c, i <> o -> at_ h i = Some c -> f' i (contents c) = f i (contents c)) ->
  osum f' h' = osum f h - oterm f h o + oterm f' h' o.
Proof.
  intros Hh Hf. set (n := S (Nat.max o (Nat.max (length h) (length h')))).
  rewrite (osum_long f h n), (osum_long f' h' n) by lia.
  apply zsum_seq_update; [lia|]. intros i Hi. unfold oterm. rewrite (Hh i Hi).
  destruct (at_ h i) eqn:E; [|done]. symmetry. by apply Hf.
Qed.

Lemma osum_elem f h o :
  (forall i c, at_ h i = Some c -> 0 <= f i (contents c)) -> oterm f h o <= osum f h.
Proof.
  intros H. assert (Hn : forall i, 0 <= oterm f h i).
  { intros i. unfold oterm. destruct (at_ h i) eqn:E; [by apply H|lia]. }
  rewrite (osum_long f h (S (Nat.max o (length h)))) by lia.
  apply (zsum_map_elem (oterm f h)); [intros; apply Hn|]. apply elem_of_seq. lia.
Qed.

Lemma osum_le f g h :
  (forall i c, at_ h i = Some c -> f i (contents c) <= g i (contents c)) -> osum f h <= osum g h.
Proof.
  intros H. apply zsum_map_le. intros i _. unfold oterm.
  destruct (at_ h i) eqn:E; [by apply H|lia].
Qed.

Lemma osum_pos f h : 0 < osum f h -> exists o c, at_ h o = Some c /\ 0 < f o (contents c).
Proof.
  intros (o & _ & H)%zsum_map_pos. unfold oterm in H.
  destruct (at_ h o) eqn:E; [eauto|lia].
Qed.

End TpInv.
