(* ===== verification/TpUpdate.v ===== *)
(** * The thread pool: states that differ in one place

    A step changes the stack of one thread and at most one object, one pool
    and one group, and may start threads.  [pool_update] reduces the invariant
    of the new state to facts on these; [inv_quiet] is its form for steps that
    do not change who holds what, only counters and frames. *)
From S2P Require Import Prelude Threadpool TpInv.

Module TpUpdate.
Import Tp TpInv.

(** ** What frames account for *)
Lemma eqz_nonneg x y : 0 <= eqz x y.
Proof. unfold eqz. case_decide; lia. Qed.

Lemma eqz_refl x : eqz x x = 1.
Proof. unfold eqz. by rewrite decide_True. Qed.

Lemma eqz_ne x y : x <> y -> eqz x y = 0.
Proof. intros. unfold eqz. by rewrite decide_False. Qed.

Lemma countz_nonneg o l : 0 <= countz o l.
Proof. induction l; simpl; [lia|]. pose proof (eqz_nonneg o a). lia. Qed.

Lemma countz_app o l1 l2 : countz o (l1 ++ l2) = countz o l1 + countz o l2.
Proof. induction l1; simpl; lia. Qed.

Lemma countz_elem o l : o ∈ l -> 1 <= countz o l.
Proof.
  induction l as [|x l IH]; [by intros ?%not_elem_of_nil|]. simpl.
  pose proof (eqz_nonneg o x). pose proof (countz_nonneg o l).
  intros [->|Hl]%elem_of_cons; [rewrite eqz_refl; lia|specialize (IH Hl); lia].
Qed.

Ltac oc_cases :=
  intros; repeat match goal with
  | f : frame |- _ => destruct f
  | ph : wphase |- _ => destruct ph
  | ph : rphase |- _ => destruct ph
  | ph : iphase |- _ => destruct ph
  | ph : mphase |- _ => destruct ph
  | ph : aphase |- _ => destruct ph
  end; simpl;
  repeat match goal with
  | |- context [eqz ?x ?y] => pose proof (eqz_nonneg x y); generalize dependent (eqz x y); intros
  | |- context [countz ?x ?l] => pose proof (countz_nonneg x l); generalize dependent (countz x l); intros
  | |- context [b2z ?b] => destruct b; simpl
  end; try lia; try nia.

Lemma oc_nonneg k o f : 0 <= oc k o f.
Proof. destruct k; oc_cases. Qed.

Lemma pc_nonneg k p f : 0 <= pc k p f.
Proof. destruct k; oc_cases. Qed.

Lemma gc_nonneg g f : 0 <= gc g f.
Proof. oc_cases. Qed.

Lemma tc_nonneg f : 0 <= tc f.
Proof. oc_cases. case_decide; lia. Qed.

Definition oc_sum (ks : list okind) (o : nat) (f : frame) : Z := zsum (map (fun k => oc k o f) ks).

Record counts (T : okind -> Z) : Prop := {
  ct_nonneg : forall k, 0 <= T k;
  ct_run : T KAssoc <= T KRun <= T KRef;
  ct_past : T KPast5 <= T KPast4 <= T KNoGroup;
  ct_past2 : T KPast4 <= T KPast2 <= T KDestroy;
  ct_early : T KEarly <= T KInit <= T KRef;
  ct_group : T KGroup <= T KKeep <= T KRef;
  ct_ready : T KReady <= T KKeep;
  ct_run_keep : T KRun + T KInit + T KKeep <= T KRef;
  ct_one : T KGroup + T KEarly <= T KOne <= T KKeep + T KInit;
  ct_nogroup : T KNoGroup <= T KPast2 + T KOne;
  ct_close : T KClose + T KGroup <= T KKeep <= T KClose + T KOne;
  ct_release : T KRelease <= T KGroup }.

Lemma otot_counts s o : counts (otot s o).
Proof.
  unfold otot. split; repeat split; intros; rewrite <- ?total_add;
    try (apply total_nonneg; intros; apply oc_nonneg); apply total_le; oc_cases.
Qed.

Record pcounts (T : pkind -> Z) : Prop := {
  pct_nonneg : forall k, 0 <= T k;
  pct_exec : T PExec <= T PWorker;
  pct_obj : T PObj + T PKeep <= T PRef }.

Lemma ptot_counts s p : pcounts (ptot s p).
Proof.
  unfold ptot. split; repeat split; intros; rewrite <- ?total_add;
    try (apply total_nonneg; intros; apply pc_nonneg); apply total_le; oc_cases.
Qed.

Lemma object_ok_ext c T1 T2 : (forall k, T1 k = T2 k) -> object_ok c T1 -> object_ok c T2.
Proof.
  intros H. destruct c as [c|]; simpl; [|by rewrite !H].
  intros []. split; rewrite <- ?H; auto.
Qed.

Lemma pool_ok_ext c d T1 T2 r n : (forall k, T1 k = T2 k) -> pool_ok c d T1 r n -> pool_ok c d T2 r n.
Proof.
  intros H. destruct c as [c|]; simpl; [|by rewrite !H].
  intros []. split; rewrite <- ?H; auto.
Qed.

(** ** Consequences of the invariant *)
Lemma at_Some {A} (h : heap A) i c : at_ h i = Some c <-> h !! i = Some (Some c).
Proof. unfold at_. destruct (h !! i) as [[?|]|]; simpl; naive_solver. Qed.

Section Facts.
Context (s : state) (HI : Inv s).

(** An object that a frame has a reference on exists. *)
Lemma ref_live o : 1 <= otot s o KRef + otot s o KDestroy -> exists c, at_ (objects s) o = Some c.
Proof.
  intros H. pose proof (inv_object _ HI o) as Ho. destruct (at_ (objects s) o); [eauto|].
  simpl in Ho. lia.
Qed.

Lemma live o c : at_ (objects s) o = Some c -> live_object (held c) (contents c) (otot s o).
Proof. intros H. pose proof (inv_object _ HI o) as Ho. by rewrite H in Ho. Qed.

Lemma past_le1 o c : at_ (objects s) o = Some c -> otot s o KDestroy <= 1.
Proof. intros H%live. rewrite (lo_destroy _ _ _ H). destruct (_ =? _); lia. Qed.

Lemma nogroup_le1 o c : at_ (objects s) o = Some c -> otot s o KNoGroup <= 1.
Proof.
  intros H%live. pose proof (otot_counts s o) as [].
  pose proof (ct_nonneg0 KRef). pose proof (ct_nonneg0 KRun). pose proof (ct_nonneg0 KGroup).
  destruct H. destruct (held c), (is_group_member (contents c)), (shutdown (contents c) || _);
    destruct (Z.eqb_spec (refcount (contents c)) 0); simpl in *; lia.
Qed.

Lemma lpool p c : at_ (pools s) p = Some c ->
  live_pool (held c) (b2z (bool_decide (default_threadpool s = Some p))) (contents c)
    (ptot s p) (pool_refs s p) (pool_objs s p).
Proof. intros H. pose proof (inv_pool _ HI p) as Hp. by rewrite H in Hp. Qed.

Lemma lgroup g c : at_ (groups s) g = Some c ->
  live_group (held c) (contents c) (total (gc g) (threads s)) (group_refs s g).
Proof. intros H. pose proof (inv_group _ HI g) as Hg. by rewrite H in Hg. Qed.

Lemma pool_refs_bounds p : 0 <= pool_objs s p <= pool_refs s p.
Proof.
  assert (Hb : forall o c, at_ (objects s) o = Some c ->
    0 <= otot s o KPast5 <= otot s o KPast4 /\ otot s o KPast4 <= 1).
  { intros o c Hc. pose proof (past_le1 o c Hc). pose proof (otot_counts s o) as [].
    pose proof (ct_nonneg0 KPast5). lia. }
  split.
  - transitivity (osum (fun _ _ => 0) (objects s)).
    + apply zsum_nonneg, Forall_map, Forall_forall. intros i _. unfold oterm. simpl.
      by destruct (at_ (objects s) i).
    + apply osum_le. intros o c Hc. pose proof (Hb o c Hc). pose proof (eqz_nonneg p (opool (contents c))). nia.
  - apply osum_le. intros o c Hc. pose proof (Hb o c Hc). pose proof (eqz_nonneg p (opool (contents c))). nia.
Qed.

(** The pool of an object that has a reference on it. *)
Lemma object_refs o c : at_ (objects s) o = Some c ->
  1 - otot s o KPast5 <= pool_refs s (opool (contents c)).
Proof.
  intros Hc.
  assert (oterm (fun o ob => eqz (opool (contents c)) (opool ob) * (1 - otot s o KPast5)) (objects s) o
          <= pool_refs s (opool (contents c))) as H.
  { apply osum_elem. intros i c' Hc'. pose proof (past_le1 i c' Hc'). pose proof (otot_counts s i) as [].
    pose proof (eqz_nonneg (opool (contents c)) (opool (contents c'))). nia. }
  unfold oterm in H. rewrite Hc, eqz_refl in H. lia.
Qed.

Lemma object_pool o c : at_ (objects s) o = Some c -> otot s o KPast5 = 0 ->
  exists cp, at_ (pools s) (opool (contents c)) = Some cp.
Proof.
  intros Hc H0. pose proof (object_refs o c Hc) as Hr.
  pose proof (inv_pool _ HI (opool (contents c))) as Hp.
  destruct (at_ (pools s) _); [eauto|]. simpl in Hp. lia.
Qed.

Lemma group_refs_elem o c g : at_ (objects s) o = Some c -> ogroup (contents c) = Some g ->
  1 - otot s o KNoGroup <= group_refs s g.
Proof.
  intros Hc Hg.
  assert (oterm (fun o ob => in_group g ob * (1 - otot s o KNoGroup)) (objects s) o
          <= group_refs s g) as H.
  { apply osum_elem. intros i c' Hc'. pose proof (nogroup_le1 i c' Hc').
    unfold in_group. destruct (ogroup (contents c')) as [g'|]; [|lia].
    pose proof (eqz_nonneg g g'). nia. }
  unfold oterm in H. rewrite Hc in H. unfold in_group in H. rewrite Hg, eqz_refl in H. lia.
Qed.

Lemma group_refs_nonneg g : 0 <= group_refs s g.
Proof.
  apply zsum_nonneg, Forall_map, Forall_forall. intros i _. unfold oterm. simpl.
  destruct (at_ (objects s) i) as [c|] eqn:Hc; [|lia]. pose proof (nogroup_le1 i c Hc).
  unfold in_group. destruct (ogroup (contents c)) as [g'|]; [|lia].
  pose proof (eqz_nonneg g g'). nia.
Qed.

Lemma object_group o c g : at_ (objects s) o = Some c -> ogroup (contents c) = Some g ->
  otot s o KNoGroup = 0 -> exists cg, at_ (groups s) g = Some cg.
Proof.
  intros Hc Hg H0. pose proof (group_refs_elem o c g Hc Hg).
  pose proof (inv_group _ HI g) as Hgr. destruct (at_ (groups s) g); [eauto|].
  simpl in Hgr. lia.
Qed.

Lemma pool_live p : 1 <= ptot s p PWorker + ptot s p PRef -> exists c, at_ (pools s) p = Some c.
Proof.
  intros H. pose proof (inv_pool _ HI p) as Hp. destruct (at_ (pools s) p); [eauto|].
  simpl in Hp. lia.
Qed.

(** A frame on a stack. *)
Lemma frame_otot t th f k o : threads s !! t = Some th -> f ∈ stack th -> oc k o f <= otot s o k.
Proof. intros Ht Hf. eapply total_elem; [apply oc_nonneg|done..]. Qed.

Lemma frame_ptot t th f k p : threads s !! t = Some th -> f ∈ stack th -> pc k p f <= ptot s p k.
Proof. intros Ht Hf. eapply total_elem; [apply pc_nonneg|done..]. Qed.

End Facts.

Lemma lookup_alter_app t (th th' : thread) ths new :
  ths !! t = Some th -> (alter (fun _ => th') t ths ++ new) !! t = Some th'.
Proof.
  intros H. rewrite lookup_app_l by (rewrite length_alter; by eapply lookup_lt_Some).
  by rewrite list_lookup_alter_eq, H.
Qed.

(** ** One place changes *)
Definition left_over (c : option (cell object)) (x : Z) : Z :=
  match c with Some _ => 1 - x | None => 0 end.

Definition left_group (c : option (cell object)) (g : nat) (x : Z) : Z :=
  match c with Some c => in_group g (contents c) * (1 - x) | None => 0 end.

Definition init_count (c : option (cell object)) : Z :=
  match c with Some c => b2z (initialized (contents c)) | None => 0 end.

Definition focused (p g : nat) (c : option (cell object)) : Prop :=
  forall x, c = Some x -> opool (contents x) = p /\
    (forall y, ogroup (contents x) = Some y -> y = g).

Section Update.
Context (s : state) (HI : Inv s) (t : nat) (th th' : thread) (new : list thread) (o p g : nat).
Context (O' : heap object) (P' : heap pool) (G' : heap group) (d' : option nat)
  (tq' : timerqueue) (dl : bool).

Definition after : state :=
  State O' P' G' d' tq' (alter (fun _ => th') t (threads s) ++ new) dl.

(** What the frames that come account for more than those that leave. *)
Definition delta (f : frame -> Z) : Z := stot f (stack th') - stot f (stack th) + total f new.

(** The states differ in [o], [p] and [g] only. *)
Record focus_ok : Prop := {
  fo_thread : threads s !! t = Some th;
  fo_objects : forall i, i <> o -> at_ O' i = at_ (objects s) i;
  fo_pools : forall i, i <> p -> at_ P' i = at_ (pools s) i;
  fo_groups : forall i, i <> g -> at_ G' i = at_ (groups s) i;
  fo_default : forall i, i <> p -> d' = Some i <-> default_threadpool s = Some i;
  fo_oc : forall k i, i <> o -> delta (oc k i) = 0;
  fo_pc : forall k i, i <> p -> delta (pc k i) = 0;
  fo_gc : forall i, i <> g -> delta (gc i) = 0;
  fo_old : focused p g (at_ (objects s) o);
  fo_new : focused p g (at_ O' o) }.

Context (HF : focus_ok).

Lemma total_after f : total f (threads after) = total f (threads s) + delta f.
Proof.
  unfold after, delta. simpl. rewrite total_app, (total_alter _ _ _ _ th) by apply HF. lia.
Qed.

Lemma otot_other i k : i <> o -> otot after i k = otot s i k.
Proof. intros. unfold otot. rewrite total_after, (fo_oc HF) by done. lia. Qed.

Definition T' (k : okind) : Z := otot s o k + delta (oc k o).

Lemma otot_focus k : otot after o k = T' k.
Proof. unfold otot. by rewrite total_after. Qed.

Lemma pool_refs_other i : i <> p -> pool_refs after i = pool_refs s i /\ pool_objs after i = pool_objs s i.
Proof.
  intros Hi. unfold pool_refs, pool_objs. split.
  1: rewrite (osum_update (fun o ob => eqz i (opool ob) * (1 - otot s o KPast5)) _ (objects s) O' o (fo_objects HF));
    [|intros j c Hj Hc; by rewrite otot_other].
  2: rewrite (osum_update (fun o ob => eqz i (opool ob) * (1 - otot s o KPast4)) _ (objects s) O' o (fo_objects HF));
    [|intros j c Hj Hc; by rewrite otot_other].
  all: unfold oterm; simpl.
  all: destruct (at_ (objects s) o) as [c|] eqn:E; [destruct ((fo_old HF) c E) as [-> _]|].
  all: destruct (at_ O' o) as [c'|] eqn:E'; [destruct ((fo_new HF) c' E') as [-> _]|].
  all: rewrite ?eqz_ne by done; lia.
Qed.

Lemma pool_refs_focus :
  pool_refs after p = pool_refs s p - left_over (at_ (objects s) o) (otot s o KPast5)
                   + left_over (at_ O' o) (T' KPast5) /\
  pool_objs after p = pool_objs s p - left_over (at_ (objects s) o) (otot s o KPast4)
                   + left_over (at_ O' o) (T' KPast4).
Proof.
  unfold pool_refs, pool_objs. split.
  1: rewrite (osum_update (fun o ob => eqz p (opool ob) * (1 - otot s o KPast5)) _ (objects s) O' o (fo_objects HF));
    [|intros j c Hj Hc; by rewrite otot_other].
  2: rewrite (osum_update (fun o ob => eqz p (opool ob) * (1 - otot s o KPast4)) _ (objects s) O' o (fo_objects HF));
    [|intros j c Hj Hc; by rewrite otot_other].
  all: unfold oterm; rewrite otot_focus; simpl.
  all: destruct (at_ (objects s) o) as [c|] eqn:E; [destruct ((fo_old HF) c E) as [-> _]|].
  all: destruct (at_ O' o) as [c'|] eqn:E'; [destruct ((fo_new HF) c' E') as [-> _]|].
  all: rewrite ?eqz_refl; simpl; lia.
Qed.

Lemma group_refs_other i : i <> g -> group_refs after i = group_refs s i.
Proof.
  intros Hi. unfold group_refs.
  rewrite (osum_update (fun o ob => in_group i ob * (1 - otot s o KNoGroup)) _ (objects s) O' o (fo_objects HF));
    [|intros j c Hj Hc; by rewrite otot_other].
  unfold oterm; simpl.
  enough (forall c x, focused p g c -> match c with Some c => in_group i (contents c) * x | None => 0 end = 0)
    as H by (rewrite !H by apply HF; lia).
  intros [c|] x Hc; [|done]. destruct (Hc c eq_refl) as [_ Hy]. unfold in_group.
  destruct (ogroup (contents c)) as [y|] eqn:E; [|done]. rewrite (Hy y eq_refl), eqz_ne by done. lia.
Qed.

Lemma group_refs_focus :
  group_refs after g = group_refs s g - left_group (at_ (objects s) o) g (otot s o KNoGroup)
                    + left_group (at_ O' o) g (T' KNoGroup).
Proof.
  unfold group_refs.
  rewrite (osum_update (fun o ob => in_group g ob * (1 - otot s o KNoGroup)) _ (objects s) O' o (fo_objects HF));
    [|intros j c Hj Hc; by rewrite otot_other].
  unfold oterm. by rewrite otot_focus.
Qed.

Lemma tq_refs_after :
  tq_refs after = tq_refs s - init_count (at_ (objects s) o) + init_count (at_ O' o).
Proof.
  unfold tq_refs.
  by rewrite (osum_update (fun _ ob => b2z (initialized ob)) _ (objects s) O' o (fo_objects HF)).
Qed.

(** ** The invariant of the new state *)
Definition refs' : Z :=
  pool_refs s p - left_over (at_ (objects s) o) (otot s o KPast5) + left_over (at_ O' o) (T' KPast5).
Definition objs' : Z :=
  pool_objs s p - left_over (at_ (objects s) o) (otot s o KPast4) + left_over (at_ O' o) (T' KPast4).
Definition grefs' : Z :=
  group_refs s g - left_group (at_ (objects s) o) g (otot s o KNoGroup)
  + left_group (at_ O' o) g (T' KNoGroup).

Record local_ok : Prop := {
  loc_object : object_ok (at_ O' o) T';
  loc_pool : pool_ok (at_ P' p) (b2z (bool_decide (d' = Some p)))
               (fun k => ptot s p k + delta (pc k p)) refs' objs';
  loc_group : group_ok (at_ G' g) (total (gc g) (threads s) + delta (gc g)) grefs' }.

Record queues_ok : Prop := {
  que_queue : forall c, at_ P' p = Some c -> queue_ok after p (contents c);
  que_queued : forall c, at_ O' o = Some c -> queued after o (contents c);
  que_rest : forall c j q x, at_ (pools s) p = Some c -> queues (contents c) !! j = Some q ->
    x ∈ q -> x <> o ->
    exists c' q', at_ P' p = Some c' /\ queues (contents c') !! j = Some q' /\ x ∈ q' }.

Record frames_ok : Prop := {
  fr_other : forall t2 th2 f, t2 <> t -> threads s !! t2 = Some th2 -> f ∈ stack th2 ->
    frame_ok s t2 f -> frame_ok after t2 f;
  fr_top : forall f, f ∈ stack th' -> frame_ok after t f;
  fr_new : forall x i f, x ∈ new -> f ∈ stack x -> frame_ok after i f;
  fr_shape : shape (stack th');
  fr_shape_new : forall x, x ∈ new -> shape (stack x) }.

Record homes_ok : Prop := {
  home_o : forall c, at_ O' o = Some c -> home_ok after (contents c);
  home_p : forall i c, i <> o -> at_ (objects s) i = Some c -> opool (contents c) = p ->
    is_simple (contents c) = false -> shutdown (contents c) = false ->
    open_pool s p -> open_pool after p }.

(** A thread that iterates over a group goes on. *)
Definition keeps_iterating (P : nat -> Prop) : Prop :=
  forall i l r f rest, P i -> stack th = f :: rest -> iterates i l r f ->
  exists f' rest', stack th' = f' :: rest' /\ iterates i l r f'.

Record groups_ok : Prop := {
  grp_members : forall c, at_ G' g = Some c -> members_ok after g (contents c);
  grp_top : keeps_iterating (fun i => i <> g) }.

(** The pool and the group do not change. *)
Lemma loc_pool_keep :
  at_ P' p = at_ (pools s) p -> d' = default_threadpool s ->
  (forall k, delta (pc k p) = 0) ->
  left_over (at_ O' o) (T' KPast5) = left_over (at_ (objects s) o) (otot s o KPast5) ->
  left_over (at_ O' o) (T' KPast4) = left_over (at_ (objects s) o) (otot s o KPast4) ->
  pool_ok (at_ P' p) (b2z (bool_decide (d' = Some p)))
    (fun k => ptot s p k + delta (pc k p)) refs' objs'.
Proof.
  intros -> -> Hk H5 H4. unfold refs', objs'. rewrite H5, H4, !Z.sub_add.
  apply (pool_ok_ext _ _ (ptot s p)); [intros k; rewrite Hk; lia|]. apply (inv_pool _ HI).
Qed.

Lemma loc_group_keep :
  at_ G' g = at_ (groups s) g -> delta (gc g) = 0 ->
  left_group (at_ O' o) g (T' KNoGroup) = left_group (at_ (objects s) o) g (otot s o KNoGroup) ->
  group_ok (at_ G' g) (total (gc g) (threads s) + delta (gc g)) grefs'.
Proof.
  intros -> -> Hn. unfold grefs'. rewrite Hn, Z.sub_add, Z.add_0_r. apply (inv_group _ HI).
Qed.

(** The object does not change. *)
Lemma loc_object_keep :
  at_ O' o = at_ (objects s) o -> (forall k, delta (oc k o) = 0) -> object_ok (at_ O' o) T'.
Proof.
  intros -> Hk. apply (object_ok_ext _ (otot s o)); [intros k; unfold T'; rewrite Hk; lia|].
  apply (inv_object _ HI).
Qed.

Lemma at_objects_after i : i <> o -> at_ (objects after) i = at_ (objects s) i.
Proof. apply (fo_objects HF). Qed.

Lemma lookup_after t2 : t2 <> t -> (t2 < length (threads s))%nat ->
  threads after !! t2 = threads s !! t2.
Proof.
  intros Hne Hl. unfold after. simpl. rewrite lookup_app_l by (by rewrite length_alter).
  by apply list_lookup_alter_ne.
Qed.

Lemma lookup_after_t : threads after !! t = Some th'.
Proof.
  unfold after. simpl. eapply lookup_alter_app, (fo_thread HF).
Qed.

Lemma lookup_after_inv t2 th2 : threads after !! t2 = Some th2 ->
  t2 = t /\ th2 = th' \/ t2 <> t /\ threads s !! t2 = Some th2 \/ t2 <> t /\ th2 ∈ new.
Proof.
  intros H. destruct (decide (t2 = t)) as [->|Hne].
  { left. rewrite lookup_after_t in H. naive_solver. }
  right. destruct (Nat.lt_ge_cases t2 (length (threads s))) as [Hl|Hl].
  - left. by rewrite lookup_after in H.
  - right. split; [done|]. unfold after in H. simpl in H.
    rewrite lookup_app_r in H by (by rewrite length_alter). by eapply list_elem_of_lookup_2.
Qed.

Lemma queue_after i c : i <> p -> at_ P' i = Some c -> queue_ok after i (contents c).
Proof.
  intros Hi Hc. rewrite (fo_pools HF) in Hc by done. destruct (inv_queue _ HI i c Hc) as (Hl & Hn & He).
  split_and!; [done..|]. intros j q x Hq Hx. destruct (He j q x Hq Hx) as (cx & Hcx & Hpx & Hrest).
  assert (x <> o) by (intros ->; destruct ((fo_old HF) cx Hcx); congruence).
  exists cx. split; [|done]. by rewrite at_objects_after.
Qed.

Lemma queued_after i c : queues_ok -> at_ O' i = Some c -> queued after i (contents c).
Proof.
  intros HQ Hc. destruct (decide (i = o)) as [->|Hi]; [by apply (que_queued HQ)|].
  rewrite (fo_objects HF) in Hc by done. intros Hn. destruct (inv_queued _ HI i c Hc Hn) as (cp & q & Hcp & Hq & Hx).
  destruct (decide (opool (contents c) = p)) as [He|Hne].
  - rewrite He in *. destruct (que_rest HQ cp _ q i Hcp Hq Hx Hi) as (c' & q' & ? & ? & ?).
    by exists c', q'.
  - exists cp, q. split; [|done]. simpl. by rewrite (fo_pools HF).
Qed.

Lemma home_after i c : homes_ok -> at_ O' i = Some c -> home_ok after (contents c).
Proof.
  intros HH Hc. destruct (decide (i = o)) as [->|Hi]; [by apply (home_o HH)|].
  rewrite (fo_objects HF) in Hc by done. intros Hs Hd2.
  pose proof (inv_home _ HI i c Hc Hs Hd2) as Ho2.
  destruct (decide (opool (contents c) = p)) as [He|Hne].
  - rewrite He in *. by eapply (home_p HH).
  - destruct Ho2 as (cp & ? & ?). exists cp. split; [|done]. simpl. by rewrite (fo_pools HF).
Qed.

Lemma members_after i c : groups_ok -> at_ G' i = Some c -> members_ok after i (contents c).
Proof.
  intros HM Hc. destruct (decide (i = g)) as [->|Hi]; [by apply (grp_members HM)|].
  rewrite (fo_groups HF) in Hc by done. destruct (inv_members _ HI i c Hc) as (l & r & Hm & Hn & Hr & Hl).
  exists l, r. split_and!; [done..| |].
  - intros x. rewrite Hr. unfold member_of.
    destruct (decide (x = o)) as [->|Hx]; [|by rewrite at_objects_after].
    split; intros (cx & Hcx & Hgx & _); exfalso; apply Hi.
    + destruct ((fo_old HF) cx Hcx) as [_ Hy]. by apply Hy.
    + destruct ((fo_new HF) cx Hcx) as [_ Hy]. by apply Hy.
  - destruct (gcs (contents c)) as [t2|]; [|done].
    destruct Hl as (th2 & f & rest & Ht2 & Hst & Hit). destruct (decide (t2 = t)) as [->|Hne].
    + assert (th2 = th) as -> by (pose proof (fo_thread HF); congruence).
      destruct (grp_top HM i l r f rest Hi Hst Hit) as (f' & rest' & ? & ?). exists th', f', rest'.
      by rewrite lookup_after_t.
    + exists th2, f, rest. rewrite lookup_after; [done..|]. by eapply lookup_lt_Some.
Qed.

Theorem pool_update :
  local_ok -> queues_ok -> frames_ok -> homes_ok -> groups_ok -> timers_ok after -> Inv after.
Proof.
  intros HL HQ HFr HH HM HT. split; [..|exact HT| |].
  - intros i. destruct (decide (i = o)) as [->|Hi].
    + eapply object_ok_ext; [intros k; symmetry; apply otot_focus|]. apply HL.
    + eapply object_ok_ext; [intros k; symmetry; by apply otot_other|].
      simpl. rewrite (fo_objects HF) by done. apply (inv_object _ HI).
  - intros i. destruct (decide (i = p)) as [->|Hi].
    + eapply pool_ok_ext; [intros k; symmetry; apply total_after|].
      destruct pool_refs_focus as [-> ->]. apply HL.
    + apply (pool_ok_ext _ _ (ptot s i)).
      { intros k. unfold ptot. rewrite total_after, (fo_pc HF) by done. lia. }
      destruct (pool_refs_other i Hi) as [-> ->]. simpl. rewrite (fo_pools HF) by done.
      erewrite bool_decide_ext; [apply (inv_pool _ HI)|]. by apply (fo_default HF).
  - intros i. rewrite total_after. destruct (decide (i = g)) as [->|Hi].
    + rewrite group_refs_focus. apply HL.
    + rewrite (fo_gc HF), Z.add_0_r, group_refs_other by done. simpl. rewrite (fo_groups HF) by done. apply (inv_group _ HI).
  - intros i c Hc. destruct (decide (i = p)) as [->|Hi]; [by apply (que_queue HQ)|by apply queue_after].
  - intros i c Hc. by apply queued_after.
  - intros i c Hc. by eapply home_after.
  - intros i c Hc. by apply members_after.
  - intros t2 th2 f Ht2 Hf. apply lookup_after_inv in Ht2 as [[-> ->]|[[Hne Ht2]|[Hne Hx]]].
    + by apply (fr_top HFr).
    + eapply (fr_other HFr); [done..|]. by eapply (inv_frames _ HI).
    + by eapply (fr_new HFr).
  - intros t2 th2 Ht2. apply lookup_after_inv in Ht2 as [[-> ->]|[[Hne Ht2]|[Hne Hx]]].
    + apply (fr_shape HFr).
    + by eapply (inv_shape _ HI).
    + by apply (fr_shape_new HFr).
Qed.

(** ** Frames that the step does not touch *)

(** What the frames of other threads rely on. *)
(** ... where [W] are the threads whose locks matter. *)
Record stable (W : nat -> Prop) : Prop := {
  sb_object : forall c, at_ (objects s) o = Some c -> exists c', at_ O' o = Some c' /\
    (held c = true -> held c' = true) /\ is_timer (contents c') = is_timer (contents c) /\
    ogroup (contents c') = ogroup (contents c) /\ opool (contents c') = opool (contents c);
  sb_pool : forall c, at_ (pools s) p = Some c ->
    (held c = true \/ pshutdown (contents c) = false \/ default_threadpool s = Some p) ->
    exists c', at_ P' p = Some c' /\ (held c = true -> held c' = true) /\
      (pshutdown (contents c) = false -> pshutdown (contents c') = false);
  sb_group : forall c, at_ (groups s) g = Some c -> held c = true ->
    exists c', at_ G' g = Some c' /\ held c' = true /\
      (forall t2, W t2 -> gcs (contents c) = Some t2 -> gcs (contents c') = Some t2);
  sb_default : forall i, default_threadpool s = Some i -> d' = Some i;
  sb_tcs : forall t2, W t2 -> tcs (timers s) = Some t2 -> tcs tq' = Some t2;
  sb_timer : forall t2, W t2 -> tcs (timers s) = Some t2 -> forall c c', at_ (objects s) o = Some c -> at_ O' o = Some c' ->
    initialized (contents c') = initialized (contents c) /\
    pending_timer (contents c') = pending_timer (contents c) }.

Section Stable.
Context (W : nat -> Prop) (HS : stable W).

Lemma stable_object i c : at_ (objects s) i = Some c -> exists c', at_ O' i = Some c' /\
    (held c = true -> held c' = true) /\ is_timer (contents c') = is_timer (contents c) /\
    ogroup (contents c') = ogroup (contents c) /\ opool (contents c') = opool (contents c).
Proof.
  intros Hc. destruct (decide (i = o)) as [->|Hi]; [by apply (sb_object _ HS)|].
  exists c. rewrite (fo_objects HF) by done. auto.
Qed.

Lemma stable_open i : open_pool s i -> open_pool after i.
Proof.
  intros (c & Hc & Hs). unfold open_pool. simpl. destruct (decide (i = p)) as [->|Hi].
  - destruct (sb_pool _ HS c Hc) as (c' & ? & _ & ?); eauto.
  - exists c. by rewrite (fo_pools HF).
Qed.

Lemma stable_held_group i t2 : W t2 -> (exists c, at_ (groups s) i = Some c /\ held c = true /\
    (gcs (contents c) = Some t2)) ->
  exists c, at_ (groups after) i = Some c /\ held c = true /\ gcs (contents c) = Some t2.
Proof.
  intros HW (c & Hc & Hh & Hgc). simpl. destruct (decide (i = g)) as [->|Hi].
  - destruct (sb_group _ HS c Hc Hh) as (c' & ? & ? & He). exists c'. split_and!; [done..|]. by apply He.
  - exists c. by rewrite (fo_groups HF).
Qed.

Lemma stable_held i : (exists c, at_ (groups s) i = Some c /\ held c = true) ->
  exists c, at_ (groups after) i = Some c /\ held c = true.
Proof.
  intros (c & Hc & Hh). simpl. destruct (decide (i = g)) as [->|Hi].
  - destruct (sb_group _ HS c Hc Hh) as (c' & ? & ? & _). eauto.
  - exists c. by rewrite (fo_groups HF).
Qed.

Lemma stable_env env : env_ok s env -> env_ok after env.
Proof.
  intros [H1 H2]. split; [|intros; apply stable_held; auto].
  intros i Hi. destruct (H1 i Hi) as (c & Hc & Hh). simpl. destruct (decide (i = p)) as [->|Hne].
  - destruct (sb_pool _ HS c Hc) as (c' & ? & ? & _); eauto.
  - exists c. by rewrite (fo_pools HF).
Qed.

Lemma stable_due i t2 : W t2 -> tcs (timers s) = Some t2 -> timer_due s i -> timer_due after i.
Proof.
  intros HW Hl (c & Hc & Hi & Hp2). destruct (stable_object i c Hc) as (c' & Hc' & _).
  exists c'. split; [done|]. destruct (decide (i = o)) as [->|Hne].
  - destruct (sb_timer _ HS t2 HW Hl c c') as [E1 E2]; [done..|]. by rewrite E1, E2.
  - rewrite (fo_objects HF) in Hc' by done. assert (c' = c) as -> by congruence. done.
Qed.

Definition timers_frame_of (f : frame) : bool :=
  match f with FTimers ph => scanning ph | _ => false end.

(** The frame has a lock on the timer queue or a group. *)
Definition locking (f : frame) : bool :=
  match f with
  | FTimers ph => scanning ph
  | FMembers _ _ (MLoop _ _) | FMembers _ _ (MPrepare _ _ _) => true
  | _ => false
  end.

Lemma stable_frame i f : W i \/ locking f = false -> frame_ok s i f -> frame_ok after i f.
Proof.
  intros HW. destruct f; simpl; try done.
  - destruct ph; simpl; try done.
    all: intros (c & Hc & ?); destruct (stable_object _ c Hc) as (c' & ? & _ & _ & _ & ?);
      exists c'; split; [done|congruence].
  - destruct ph; simpl; try done.
    all: destruct HW as [HW|]; [|done].
    1: apply (sb_tcs _ HS i HW).
    all: intros [E Hd2]; split; [by apply (sb_tcs _ HS i HW)|by eapply stable_due].
  - destruct ph; try done.
    all: intros (c & Hc & ?); destruct (stable_object _ c Hc) as (c' & ? & _ & _ & ? & _);
      exists c'; split; [done|congruence].
  - intros (He%stable_env & Hk & H). split_and!; [done..|].
    destruct ph; try done.
    + destruct H as (? & c & Hc & H). split; [done|]. destruct (decide (p0 = p)) as [->|Hne].
      * destruct (sb_pool _ HS c Hc) as (c' & ? & ? & _); [tauto|]. exists c'. split; [done|].
        destruct H; [left; auto|right; by apply (sb_default _ HS)].
      * exists c. rewrite (fo_pools HF) by done. split; [done|].
        destruct H; [by left|right; by apply (sb_default _ HS)].
    + destruct H as (? & ? & ?). auto using stable_open.
    + destruct H as (? & ?). auto using stable_open.
  - intros (c & Hc & Ho2 & H). destruct (stable_object _ c Hc) as (c' & ? & _ & _ & Hgr & Hpo).
    exists c'. split_and!; [done|rewrite Hpo; by apply stable_open|].
    rewrite Hgr. destruct ph; try done; intros; apply stable_held; auto.
  - intros (c & Hc & ? & ?). destruct (stable_object _ c Hc) as (c' & ? & ? & _).
    exists c'. split_and!; [done|auto|done].
  - intros (c & Hc & ? & ?). destruct (stable_object _ c Hc) as (c' & ? & ? & _).
    exists c'. split_and!; [done|auto|done].
  - intros (c & Hc & ? & ?). destruct (stable_object _ c Hc) as (c' & ? & ? & _).
    exists c'. split_and!; [done|auto|done].
  - intros (c & Hc & ? & ?). destruct (stable_object _ c Hc) as (c' & ? & ? & ? & _).
    exists c'. split_and!; [done|auto|congruence].
  - intros (c & Hc & Hh & H).
    destruct ph; try (destruct (stable_held g0) as (c' & ? & ?); [by eauto|]; by exists c').
    all: destruct HW as [HW|]; [|done].
    all: destruct (stable_held_group g0 i HW) as (c' & ? & ? & ?); [by eauto|]; by exists c'.
Qed.

End Stable.

(** The frames of the new stack are old ones or checked one by one. *)
Lemma stable_frames :
  stable (fun _ => True) ->
  (forall f, f ∈ stack th' -> f ∈ stack th \/ frame_ok s t f \/ frame_ok after t f) ->
  (forall x, x ∈ new -> exists f, stack x = [f] /\ forall i, frame_ok after i f) ->
  shape (stack th') -> frames_ok.
Proof.
  intros HS Htop Hnew Hsh. split.
  - intros. eapply stable_frame; [done|by left|done].
  - intros f Hf. destruct (Htop f Hf) as [|[|]]; [|eapply stable_frame; [done|by left|done]|done].
    eapply stable_frame; [done|by left|]. eapply (inv_frames _ HI); [apply HF|done].
  - intros x i f Hx Hf. destruct (Hnew x Hx) as (f' & Hst & Hok). rewrite Hst in Hf.
    apply list_elem_of_singleton in Hf as ->. done.
  - done.
  - intros x Hx. destruct (Hnew x Hx) as (f' & -> & _). by destruct f'; repeat constructor.
Qed.

(** A step of the thread that owns the timer queue or a group *)
Lemma locked_frames :
  stable (fun i => i <> t) ->
  (forall f, f ∈ stack th' -> f ∈ stack th /\ locking f = false \/ frame_ok after t f) -> new = [] ->
  shape (stack th') -> frames_ok.
Proof.
  intros HS Htop Hn Hsh. split; [| | |done|].
  - intros t2 th2 f Hne _ _. eapply stable_frame; [done|by left].
  - intros f Hf. destruct (Htop f Hf) as [[? ?]|]; [|done]. eapply stable_frame; [done|by right|].
    eapply (inv_frames _ HI); [apply HF|done].
  - rewrite Hn. by intros ? ? ? ?%elem_of_nil.
  - rewrite Hn. by intros ? ?%elem_of_nil.
Qed.

(** ** Parts of the invariant that the step does not touch *)

Lemma queues_frame :
  (forall c, at_ (pools s) p = Some c -> concat (queues (contents c)) <> [] ->
     exists c', at_ P' p = Some c' /\ queues (contents c') = queues (contents c)) ->
  (forall c', at_ P' p = Some c' ->
     exists c, at_ (pools s) p = Some c /\ queues (contents c') = queues (contents c)) ->
  (forall c, at_ (objects s) o = Some c -> 0 < num_pending_callbacks (contents c) ->
     exists c', at_ O' o = Some c' /\ priority (contents c') = priority (contents c) /\
       0 < num_pending_callbacks (contents c')) ->
  (forall c', at_ O' o = Some c' -> 0 < num_pending_callbacks (contents c') ->
     exists c, at_ (objects s) o = Some c /\ priority (contents c') = priority (contents c) /\
       0 < num_pending_callbacks (contents c)) ->
  queues_ok.
Proof.
  intros Hp1 Hp2 Ho1 Ho2.
  assert (Hrest : forall c j q x, at_ (pools s) p = Some c -> queues (contents c) !! j = Some q -> x ∈ q ->
    exists c', at_ P' p = Some c' /\ queues (contents c') !! j = Some q).
  { intros c j q x Hc Hj Hx. destruct (Hp1 c Hc) as (c' & Hc' & Hq).
    - intros Hn. apply (not_elem_of_nil x). rewrite <- Hn. apply list_elem_of_In, in_concat.
      exists q. split; apply list_elem_of_In; [by eapply list_elem_of_lookup_2|done].
    - exists c'. by rewrite Hq. }
  split.
  - intros c' Hc'. destruct (Hp2 c' Hc') as (c & Hc & Hq).
    destruct (inv_queue _ HI p c Hc) as (Hl & Hn & He). unfold queue_ok. rewrite Hq.
    split_and!; [done..|]. intros j q x Hj Hx. destruct (He j q x Hj Hx) as (cx & Hcx & Hpx & Hpr & Hpn).
    destruct (decide (x = o)) as [->|Hxo].
    + destruct (Ho1 cx Hcx Hpn) as (c2 & Hc2 & ? & ?). exists c2.
      split_and!; [done| |congruence|done]. by destruct ((fo_new HF) c2 Hc2).
    + exists cx. by rewrite at_objects_after.
  - intros c' Hc' Hn. destruct (Ho2 c' Hc' Hn) as (c & Hc & Hpr & Hpn).
    destruct (inv_queued _ HI o c Hc Hpn) as (cp & q & Hcp & Hqq & Hx).
    destruct ((fo_old HF) c Hc) as [Hpo _], ((fo_new HF) c' Hc') as [Hpo' _]. rewrite Hpo in Hcp.
    destruct (Hrest cp _ q o Hcp Hqq Hx) as (c2 & ? & ?). exists c2, q. by rewrite Hpo', Hpr.
  - intros c j q x Hc Hj Hx _. destruct (Hrest c j q x Hc Hj Hx) as (c2 & ? & ?). eauto.
Qed.

Lemma homes_frame :
  (forall c', at_ O' o = Some c' -> is_simple (contents c') = false -> shutdown (contents c') = false ->
     exists c, at_ (objects s) o = Some c /\ is_simple (contents c) = false /\
       shutdown (contents c) = false) ->
  (open_pool s p -> open_pool after p) -> homes_ok.
Proof.
  intros Ho1 Hp1. split; [|by intros; apply Hp1]. intros c' Hc' H1 H2. destruct (Ho1 c' Hc' H1 H2) as (c & Hc & H3 & H4).
  pose proof (inv_home _ HI o c Hc H3 H4) as H.
  destruct ((fo_old HF) c Hc) as [Hpo _], ((fo_new HF) c' Hc') as [Hpo' _]. rewrite Hpo in H. rewrite Hpo'. by apply Hp1.
Qed.

Lemma groups_frame :
  (forall c', at_ G' g = Some c' -> exists c, at_ (groups s) g = Some c /\
     gcs (contents c') = gcs (contents c) /\ members (contents c') = members (contents c)) ->
  (member_of after g o <-> member_of s g o) ->
  keeps_iterating (fun _ => True) -> groups_ok.
Proof.
  intros Hg1 Hm Hold. split; [|intros i l r f rest _; by apply Hold].
  intros c' Hc'. destruct (Hg1 c' Hc') as (c & Hc & Hgc & Hme).
  destruct (inv_members _ HI g c Hc) as (l & r & ? & ? & Hr & Hl). exists l, r.
  rewrite Hgc, Hme. split_and!; [done..| |].
  - intros x. rewrite Hr. destruct (decide (x = o)) as [->|Hx]; [done|].
    unfold member_of. by rewrite at_objects_after.
  - destruct (gcs (contents c)) as [t2|]; [|done]. destruct Hl as (th2 & f & rest & Ht2 & Hst & Hit).
    destruct (decide (t2 = t)) as [->|Hne].
    + assert (th2 = th) as -> by (pose proof (fo_thread HF); congruence).
      destruct (Hold g l r f rest I Hst Hit) as (f' & rest' & ? & ?). exists th', f', rest'.
      by rewrite lookup_after_t.
    + exists th2, f, rest. rewrite lookup_after; [done..|]. by eapply lookup_lt_Some.
Qed.

(** A thread that owns the timer queue keeps it. *)
Definition keeps_scanning : Prop :=
  forall ph, stack th = [FTimers ph] -> scanning ph = true ->
  exists ph', stack th' = [FTimers ph'] /\ scanning ph' = true.

(** One timer enters or leaves the lists, or the queue changes its owner. *)
Lemma timers_update :
  tobjcount tq' = tobjcount (timers s) + delta tc + init_count (at_ O' o) - init_count (at_ (objects s) o) ->
  NoDup (abs_timers tq' ++ rel_timers tq') ->
  (forall x, x <> o -> x ∈ abs_timers tq' ++ rel_timers tq' <->
     x ∈ abs_timers (timers s) ++ rel_timers (timers s)) ->
  (o ∈ abs_timers tq' ++ rel_timers tq' <->
     exists c, at_ O' o = Some c /\ pending_timer (contents c) = true) ->
  (forall t2, tcs tq' = Some t2 ->
     t2 = t /\ (exists ph, stack th' = [FTimers ph] /\ scanning ph = true) \/
     t2 <> t /\ tcs (timers s) = Some t2) ->
  timers_ok after.
Proof.
  intros Hob Hnd Hx Ho Hl. destruct (inv_timers _ HI) as [Hc _ He Hl0].
  split; rewrite ?total_after, ?tq_refs_after by done; simpl; [lia|done| |].
  - intros x. destruct (decide (x = o)) as [->|Hxo]; [done|]. by rewrite Hx, He, (fo_objects HF).
  - intros t2 Ht2. destruct (Hl t2 Ht2) as [(-> & ph & ? & ?)|[Hne H2]].
    + exists th', ph. split_and!; [|done..]. apply lookup_after_t.
    + destruct (Hl0 t2 H2) as (th2 & ph & Hth & Hst & Hsc). exists th2, ph. split_and!; [|done..].
      pose proof (lookup_after t2) as Hla. simpl in Hla. rewrite Hla; [done..|]. by eapply lookup_lt_Some.
Qed.

(** The lists and the owner of the timer queue do not change. *)
Lemma timers_frame_count :
  tcs tq' = tcs (timers s) -> abs_timers tq' = abs_timers (timers s) ->
  rel_timers tq' = rel_timers (timers s) ->
  tobjcount tq' = tobjcount (timers s) + delta tc + init_count (at_ O' o) - init_count (at_ (objects s) o) ->
  ((exists c, at_ O' o = Some c /\ pending_timer (contents c) = true) <->
   (exists c, at_ (objects s) o = Some c /\ pending_timer (contents c) = true)) ->
  keeps_scanning -> timers_ok after.
Proof.
  intros Htc Ha Hr Hob Hpt Hold. destruct (inv_timers _ HI) as [Hc Hn He Hl].
  apply timers_update; rewrite ?Htc, ?Ha, ?Hr; [done|done|done| |].
  - by rewrite He, Hpt.
  - intros t2 Ht2. destruct (Hl t2 Ht2) as (th2 & ph & Hth & Hst & Hsc).
    destruct (decide (t2 = t)) as [->|Hne]; [|by right].
    assert (th2 = th) as -> by (pose proof (fo_thread HF); congruence).
    left. split; [done|]. by apply (Hold ph).
Qed.

Lemma timers_frame :
  tq' = timers s -> delta tc = 0 ->
  init_count (at_ O' o) = init_count (at_ (objects s) o) ->
  ((exists c, at_ O' o = Some c /\ pending_timer (contents c) = true) <->
   (exists c, at_ (objects s) o = Some c /\ pending_timer (contents c) = true)) ->
  keeps_scanning -> timers_ok after.
Proof. intros Htq Htc Hic. apply timers_frame_count; rewrite ?Htq, ?Htc, ?Hic; lia || done. Qed.

(** ** Steps that keep who holds what *)
Definition same_object (c c' : cell object) : Prop :=
  held c' = held c /\ u (contents c') = u (contents c) /\
  ogroup (contents c') = ogroup (contents c) /\ opool (contents c') = opool (contents c) /\
  is_group_member (contents c') = is_group_member (contents c) /\
  (shutdown (contents c') = false -> shutdown (contents c) = false).

Definition same_pool (c c' : cell pool) : Prop :=
  held c' = held c /\ pshutdown (contents c') = pshutdown (contents c).

Definition same_group (c c' : cell group) : Prop :=
  held c' = held c /\ gcs (contents c') = gcs (contents c) /\ members (contents c') = members (contents c).

Definition same {A} (R : cell A -> cell A -> Prop) (c c' : option (cell A)) : Prop :=
  match c, c' with Some c, Some c' => R c c' | None, None => True | _, _ => False end.

(** The frame does not iterate over a group. *)
Definition calm (f : frame) : Prop :=
  match f with
  | FMembers _ _ (MLoop _ _) | FMembers _ _ (MPrepare _ _ _) => False
  | _ => True
  end.

Lemma calm_keeps f rest P : stack th = f :: rest -> calm f -> keeps_iterating P.
Proof.
  intros Hst Hc i l r f2 rest2 _ Hst2 Hit. assert (f2 = f) as -> by congruence.
  destruct Hit as (c & [->|(x & l' & _ & ->)]); done.
Qed.

Record quiet : Prop := {
  q_object : same same_object (at_ (objects s) o) (at_ O' o);
  q_pool : same same_pool (at_ (pools s) p) (at_ P' p);
  q_group : same same_group (at_ (groups s) g) (at_ G' g);
  q_default : d' = default_threadpool s;
  q_timers : tq' = timers s;
  q_tc : delta tc = 0;
  q_iter : keeps_iterating (fun _ => True);
  q_scan : keeps_scanning;
  q_top : forall f, f ∈ stack th' -> f ∈ stack th \/ frame_ok s t f \/ frame_ok after t f;
  q_new : forall x, x ∈ new -> exists p', stack x = [FWorker p' WStart];
  q_shape : shape (stack th') }.

Section Quiet.
Context (HQ : quiet).

Lemma quiet_timers_eq c c' : same_object c c' ->
  initialized (contents c') = initialized (contents c) /\
  pending_timer (contents c') = pending_timer (contents c) /\
  is_timer (contents c') = is_timer (contents c) /\ is_simple (contents c') = is_simple (contents c).
Proof.
  intros (_ & Hu & _). unfold initialized, pending_timer, is_timer, is_simple, otype. by rewrite Hu.
Qed.

Lemma quiet_object i c : at_ (objects s) i = Some c ->
  exists c', at_ O' i = Some c' /\ same_object c c'.
Proof.
  intros Hc. destruct (decide (i = o)) as [->|Hi].
  - pose proof (q_object HQ) as H. rewrite Hc in H. destruct (at_ O' o); [eauto|done].
  - exists c. rewrite (fo_objects HF) by done. repeat split; auto.
Qed.

Lemma quiet_object_inv i c' : at_ O' i = Some c' ->
  exists c, at_ (objects s) i = Some c /\ same_object c c'.
Proof.
  intros Hc. destruct (decide (i = o)) as [->|Hi].
  - pose proof (q_object HQ) as H. rewrite Hc in H. destruct (at_ (objects s) o); [eauto|done].
  - exists c'. rewrite <- (fo_objects HF) by done. repeat split; auto.
Qed.

Lemma quiet_pool i c : at_ (pools s) i = Some c -> exists c', at_ P' i = Some c' /\ same_pool c c'.
Proof.
  intros Hc. destruct (decide (i = p)) as [->|Hi].
  - pose proof (q_pool HQ) as H. rewrite Hc in H. destruct (at_ P' p); [eauto|done].
  - exists c. rewrite (fo_pools HF) by done. repeat split; auto.
Qed.

Lemma quiet_stable : stable (fun _ => True).
Proof.
  split.
  - intros c Hc. destruct (quiet_object o c Hc) as (c' & ? & Hs).
    destruct (quiet_timers_eq _ _ Hs) as (_ & _ & ? & _). destruct Hs as (? & _ & ? & ? & _).
    exists c'. split_and!; [done|congruence|done..].
  - intros c Hc _. destruct (quiet_pool p c Hc) as (c' & ? & ? & ?).
    exists c'. split_and!; [done|congruence..].
  - intros c Hc Hh. pose proof (q_group HQ) as H. rewrite Hc in H.
    destruct (at_ G' g) as [c'|]; [|done]. destruct H as (? & ? & _).
    exists c'. split_and!; [done|congruence|intros; congruence].
  - intros i. by rewrite (q_default HQ).
  - by rewrite (q_timers HQ).
  - intros _ _ _ c c' Hc Hc'. destruct (quiet_object o c Hc) as (c2 & ? & Hs).
    assert (c2 = c') as -> by congruence. destruct (quiet_timers_eq _ _ Hs) as (? & ? & _). done.
Qed.

Lemma quiet_frames : frames_ok.
Proof.
  apply stable_frames; [apply quiet_stable|apply (q_top HQ)| |apply (q_shape HQ)].
  intros x Hx. destruct (q_new HQ x Hx) as (p' & Hst). by exists (FWorker p' WStart).
Qed.

Lemma quiet_open i : open_pool s i -> open_pool after i.
Proof. eapply stable_open, quiet_stable. Qed.

Lemma quiet_homes : homes_ok.
Proof.
  apply homes_frame; [|apply quiet_open].
  intros c' Hc' H1 H2. destruct (quiet_object_inv o c' Hc') as (c & Hc & Hs).
  destruct (quiet_timers_eq _ _ Hs) as (_ & _ & _ & Hsi). destruct Hs as (_ & _ & _ & _ & _ & Hsh).
  exists c. split_and!; [done|congruence|auto].
Qed.

Lemma quiet_member_of : member_of after g o <-> member_of s g o.
Proof.
  split.
  - intros (cx & Hcx & ? & ?). destruct (quiet_object_inv o cx Hcx) as (c2 & ? & _ & _ & ? & _ & ? & _).
    exists c2. split_and!; [done|congruence..].
  - intros (cx & Hcx & ? & ?). destruct (quiet_object o cx Hcx) as (c2 & ? & _ & _ & ? & _ & ? & _).
    exists c2. split_and!; [done|congruence..].
Qed.

Lemma quiet_groups : groups_ok.
Proof.
  apply groups_frame; [|apply quiet_member_of|].
  - intros c' Hc'. pose proof (q_group HQ) as Hs. rewrite Hc' in Hs.
    destruct (at_ (groups s) g) as [c|] eqn:Hc; [|done]. destruct Hs as (_ & ? & ?). eauto.
  - apply (q_iter HQ).
Qed.

Lemma quiet_timers : timers_ok after.
Proof.
  apply timers_frame; [apply (q_timers HQ)|apply (q_tc HQ)| | |].
  - pose proof (q_object HQ) as H.
    destruct (at_ (objects s) o) as [c|], (at_ O' o) as [c'|]; try done.
    destruct (quiet_timers_eq _ _ H) as (E & _). simpl. by rewrite E.
  - split; intros (cx & Hcx & ?).
    + destruct (quiet_object_inv o cx Hcx) as (c2 & ? & Hs).
      destruct (quiet_timers_eq _ _ Hs) as (_ & ? & _). exists c2. split; [done|congruence].
    + destruct (quiet_object o cx Hcx) as (c2 & ? & Hs).
      destruct (quiet_timers_eq _ _ Hs) as (_ & ? & _). exists c2. split; [done|congruence].
  - apply (q_scan HQ).
Qed.

Theorem inv_quiet : local_ok -> queues_ok -> Inv after.
Proof.
  intros. apply pool_update; auto using quiet_frames, quiet_homes, quiet_groups, quiet_timers.
Qed.

(** The lists of the pool do not change, nor whether the object is in one. *)
Lemma queues_keep :
  (forall c c', at_ (objects s) o = Some c -> at_ O' o = Some c' ->
     priority (contents c') = priority (contents c) /\
     (0 < num_pending_callbacks (contents c') <-> 0 < num_pending_callbacks (contents c))) ->
  (forall c c', at_ (pools s) p = Some c -> at_ P' p = Some c' -> queues (contents c') = queues (contents c)) ->
  queues_ok.
Proof.
  intros Hob Hq. apply queues_frame.
  - intros c Hc _. destruct (quiet_pool p c Hc) as (c' & Hc' & _). eauto.
  - intros c' Hc'. pose proof (q_pool HQ) as Hs. rewrite Hc' in Hs.
    destruct (at_ (pools s) p) as [c|] eqn:Hc; [|done]. eauto.
  - intros c Hc Hn. destruct (quiet_object o c Hc) as (c' & Hc' & _).
    destruct (Hob c c' Hc Hc') as [? ?]. exists c'. split_and!; [done..|tauto].
  - intros c' Hc' Hn. destruct (quiet_object_inv o c' Hc') as (c & Hc & _).
    destruct (Hob c c' Hc Hc') as [? ?]. exists c. split_and!; [done..|tauto].
Qed.

Theorem inv_quiet_keep :
  local_ok ->
  (forall c c', at_ (objects s) o = Some c -> at_ O' o = Some c' ->
     priority (contents c') = priority (contents c) /\
     (0 < num_pending_callbacks (contents c') <-> 0 < num_pending_callbacks (contents c))) ->
  (forall c c', at_ (pools s) p = Some c -> at_ P' p = Some c' -> queues (contents c') = queues (contents c)) ->
  Inv after.
Proof. intros. by apply inv_quiet; [|apply queues_keep]. Qed.

End Quiet.

End Update.
End TpUpdate.
