(* ===== verification/TpSteps.v ===== *)
(** * The thread pool: tools for the steps

    [good r]: the step does not crash, and the state it returns satisfies the
    invariant.  The lemmas open the accesses of a step and bring its result
    into the form of [TpUpdate]. *)
From S2P Require Import Prelude Threadpool TpInv TpUpdate.

Module TpSteps.
Import Tp TpInv TpUpdate.

Definition good (r : result) : Prop :=
  match r with Crash => False | Next s _ => Inv s | Blocked | Misuse => True end.

(** ** Accesses *)
Lemma good_object s o k :
  (exists c, at_ (objects s) o = Some c) ->
  (forall c, at_ (objects s) o = Some c -> good (k (held c) (contents c))) ->
  good (with_object s o k).
Proof.
  intros [c Hc] H. specialize (H c Hc). apply at_Some in Hc. unfold with_object. by rewrite Hc.
Qed.

Lemma good_pool s p k :
  (exists c, at_ (pools s) p = Some c) ->
  (forall c, at_ (pools s) p = Some c -> good (k (held c) (contents c))) ->
  good (with_pool s p k).
Proof.
  intros [c Hc] H. specialize (H c Hc). apply at_Some in Hc. unfold with_pool. by rewrite Hc.
Qed.

Lemma good_group s g k :
  (exists c, at_ (groups s) g = Some c) ->
  (forall c, at_ (groups s) g = Some c -> good (k (held c) (contents c))) ->
  good (with_group s g k).
Proof.
  intros [c Hc] H. specialize (H c Hc). apply at_Some in Hc. unfold with_group. by rewrite Hc.
Qed.

Lemma good_held_object s o k :
  (forall c, at_ (objects s) o = Some c -> held c = true -> good (k (contents c))) ->
  good (held_object s o k).
Proof.
  intros H. unfold held_object, requires. destruct (objects s !! o) as [[c|]|] eqn:E; [|done..].
  destruct (held c) eqn:Hh; [|done]. apply H; [by apply at_Some|done].
Qed.

Lemma good_held_pool s p k :
  (forall c, at_ (pools s) p = Some c -> held c = true -> good (k (contents c))) ->
  good (held_pool s p k).
Proof.
  intros H. unfold held_pool, requires. destruct (pools s !! p) as [[c|]|] eqn:E; [|done..].
  destruct (held c) eqn:Hh; [|done]. apply H; [by apply at_Some|done].
Qed.

Lemma good_held_group s g k :
  (forall c, at_ (groups s) g = Some c -> held c = true -> good (k (contents c))) ->
  good (held_group s g k).
Proof.
  intros H. unfold held_group, requires. destruct (groups s !! g) as [[c|]|] eqn:E; [|done..].
  destruct (held c) eqn:Hh; [|done]. apply H; [by apply at_Some|done].
Qed.

Lemma good_assert b r : b = true -> good r -> good (ASSERT b r).
Proof. by intros ->. Qed.

Lemma good_requires b r : (b = true -> good r) -> good (requires b r).
Proof. unfold requires. destruct b; [auto|done]. Qed.

Lemma good_enter cs t r : (cs = None \/ cs = Some t -> good r) -> good (enter cs t r).
Proof. unfold enter. destruct cs; [case_decide; subst; auto; done|auto]. Qed.

(** ** The state after a step *)
Lemma goto_after s s0 t th st new :
  threads s !! t = Some th -> threads s0 = threads s ++ new ->
  goto t st s0 = after s t (Thread st (ret th) (out th)) new
                   (objects s0) (pools s0) (groups s0) (default_threadpool s0) (timers s0) (dll_shutdown s0).
Proof.
  intros Ht H0. unfold goto, after, set_threads. rewrite H0. f_equal.
  rewrite alter_app_l by (by eapply lookup_lt_Some). f_equal.
  apply list_eq. intros i. destruct (decide (i = t)) as [->|Hi].
  - by rewrite !list_lookup_alter_eq, Ht.
  - by rewrite !list_lookup_alter_ne.
Qed.

Lemma return_after s s0 t th st v po new :
  threads s !! t = Some th -> threads s0 = threads s ++ new ->
  return_to t st v po s0 = after s t (Thread st v po) new
                   (objects s0) (pools s0) (groups s0) (default_threadpool s0) (timers s0) (dll_shutdown s0).
Proof.
  intros Ht H0. unfold return_to, after, set_threads. rewrite H0. f_equal.
  by rewrite alter_app_l by (by eapply lookup_lt_Some).
Qed.

(** Cells *)
Lemma at_insert_ne {A} (h : heap A) i j c : j <> i -> at_ (<[i := c]> h) j = at_ h j.
Proof. intros. unfold at_. by rewrite list_lookup_insert_ne. Qed.

Lemma at_insert {A} (h : heap A) i c c0 : at_ h i = Some c0 -> at_ (<[i := c]> h) i = c.
Proof.
  intros H%at_Some. unfold at_. by rewrite list_lookup_insert_eq by (by eapply lookup_lt_Some).
Qed.

Lemma at_end {A} (h : heap A) : at_ h (length h) = None.
Proof. unfold at_. by rewrite lookup_ge_None_2. Qed.

Lemma at_app_ne {A} (h : heap A) i c : i <> length h -> at_ (h ++ [c]) i = at_ h i.
Proof.
  intros Hi. unfold at_. destruct (Nat.lt_ge_cases i (length h)).
  - by rewrite lookup_app_l.
  - rewrite !lookup_ge_None_2; rewrite ?length_app; simpl; try done; lia.
Qed.

Lemma at_app_end {A} (h : heap A) c : at_ (h ++ [Some c]) (length h) = Some c.
Proof. unfold at_. by rewrite lookup_app_r, Nat.sub_diag by lia. Qed.

Lemma stot_cons f x l : stot f (x :: l) = f x + stot f l.
Proof. done. Qed.

Lemma total_nil f : total f [] = 0.
Proof. done. Qed.

Lemma total_workers f n p : total f (replicate n (Thread [FWorker p WStart] 0 None))
  = Z.of_nat n * f (FWorker p WStart).
Proof. unfold total. induction n; simpl; [done|]. unfold stot in *. simpl in *. lia. Qed.

Lemma total_one f x : total f [Thread [x] 0 None] = f x.
Proof. unfold total, stot. simpl. lia. Qed.

Lemma focused_none p g : focused p g None.
Proof. by intros c [=]. Qed.

Lemma focused_some p g c : opool (contents c) = p ->
  (forall y, ogroup (contents c) = Some y -> y = g) -> focused p g (Some c).
Proof. intros ? ? ? [= <-]. auto. Qed.

(** The group of an object, or an address that is not in use. *)
Definition group_or (s : state) (ob : object) : nat :=
  match ogroup ob with Some g => g | None => length (groups s) end.

Lemma group_or_eq s ob g : ogroup ob = Some g -> group_or s ob = g.
Proof. unfold group_or. by intros ->. Qed.


(** ** Quiet steps *)

(** The sums that a step changes. *)
Ltac delta_tac :=
  unfold delta; simpl stack;
  repeat match goal with H : stack _ = _ |- _ => rewrite H end;
  rewrite ?stot_cons, ?total_nil, ?total_workers, ?total_one; simpl.

(** ... and those that it does not change. *)
Ltac other_tac :=
  intros; delta_tac;
  repeat match goal with
  | k : okind |- _ => destruct k
  | k : pkind |- _ => destruct k
  end; simpl; rewrite ?eqz_ne by done; try lia;
  try (rewrite decide_False by done; lia).

Ltac state_simpl :=
  cbn [objects pools groups default_threadpool timers dll_shutdown threads
       put_object put_pool put_group free_object free_pool free_group set_timers set_default
       set_threads alloc_object alloc_pool alloc_group spawn_workers].

(** The result of a step in the form of [TpUpdate]; [new] are the threads it
    starts. *)
Ltac open_goto s t th :=
  first [ erewrite (goto_after s _ t th); [|done|simpl; first [reflexivity|symmetry; apply app_nil_r]]
        | erewrite (return_after s _ t th); [|done|simpl; first [reflexivity|symmetry; apply app_nil_r]] ]; state_simpl; cbn [good].

Ltac heap_tac := first [reflexivity | by apply at_insert_ne | by apply at_app_ne].

Ltac focus_tac :=
  try (erewrite at_insert by done);
  repeat match goal with H : at_ _ _ = Some _ |- context [at_ _ _] => rewrite H end;
  rewrite ?at_end, ?at_app_end;
  first [ apply focused_none
        | apply focused_some;
          [ done | simpl; intros; first [symmetry; by apply group_or_eq | congruence] ] ].

Ltac at_tac :=
  repeat (erewrite at_insert by done);
  repeat match goal with H : at_ ?h ?i = Some _ |- context [at_ ?h ?i] => rewrite H end;
  rewrite ?at_end, ?at_app_end.

Lemma resting_shape st : Forall (fun f => resting f = true) st -> shape st.
Proof. destruct st; [done|]. inversion 1; subst; by destruct f. Qed.

Ltac scan_tac :=
  unfold keeps_scanning; repeat match goal with H : stack _ = _ |- _ => rewrite H end;
  intros ? [=]; subst; try done; eauto.

Ltac same_tac :=
  at_tac; try (match goal with |- same _ ?c ?c => destruct c end); repeat split; auto.

(** The step does not iterate over a group. *)
Ltac calm_tac := eapply calm_keeps; [eassumption|exact I].

(** The parts of [quiet]; the frames of the new stack that were not on the old
    one are left. *)
Ltac quiet_tac :=
  split;
  [ same_tac | same_tac | same_tac
  | reflexivity
  | reflexivity
  | other_tac
  | try calm_tac
  | scan_tac
  | let f := fresh "f" in let Hf := fresh "Hf" in
    intros f Hf; simpl in Hf;
    repeat match goal with H : stack _ = _ |- _ => rewrite H end;
    repeat (apply elem_of_cons in Hf as [->|Hf]; [right; try (left; exact I)|]);
    try (left; right; exact Hf)
  | let x := fresh in let Hx := fresh in
    intros x Hx; first [ by apply elem_of_nil in Hx | apply elem_of_replicate in Hx as [-> _]; eauto ]
  | simpl; repeat match goal with
    | H : shape (stack _), E : stack _ = _ |- _ => rewrite E in H; simpl in H
    end; try done; try (by apply resting_shape) ].

(** What does not change. *)
Ltac keep_tac :=
  first [ eapply loc_pool_keep | eapply loc_group_keep | eapply loc_object_keep ];
  first [ eassumption | done | by other_tac | at_tac; simpl; unfold T'; delta_tac; f_equal; lia ].

Ltac unchanged_tac :=
  let H1 := fresh in let H2 := fresh in
  intros ? ? H1 H2; revert H1 H2; at_tac; intros; simplify_eq; simpl; first [done | split; [done|try lia]].

(** The step has focus [o], [p] and [g]. *)
Ltac focus_on t th o p g :=
  let HF := fresh "HF" in
  match goal with
  | |- Inv (after ?s t ?th' ?new ?O ?P ?G ?d _ _) =>
      assert (HF : focus_ok s t th th' new o p g O P G d) by
        (split; [ done | intros; heap_tac | intros; heap_tac | intros; heap_tac
                | intros; first [reflexivity | split; congruence]
                | other_tac | other_tac | other_tac | focus_tac | focus_tac ])
  end.

(** A quiet step, with changes to the lists of the pool or not. *)
Ltac quiet_start t th o p g :=
  focus_on t th o p g;
  eapply inv_quiet; [eassumption | eassumption | quiet_tac | split; try keep_tac | ].

Ltac quiet_keep t th o p g :=
  focus_on t th o p g;
  eapply inv_quiet_keep;
  [ eassumption | eassumption | quiet_tac | split; try keep_tac | unchanged_tac | unchanged_tac ].

(** The new sums of the focused object. *)
Ltac sums D :=
  match goal with
  | |- object_ok _ (T' ?s _ _ _ ?o) =>
      apply (object_ok_ext _ (fun k => otot s o k + D k));
      [ intros []; unfold T'; delta_tac; rewrite ?eqz_refl; lia | ]
  end.

Definition dref (n : Z) (k : okind) : Z := match k with KRef => n | _ => 0 end.

(** A step that is not quiet. *)
Ltac update_start t th o p g :=
  focus_on t th o p g;
  eapply pool_update; [eassumption | eassumption | split; try keep_tac | | | | | ].

(** Cells before and after the step *)
Ltac cell_inv :=
  state_simpl; intros;
  repeat match goal with
  | H : at_ (<[?i := _]> ?h) ?i = Some _ |- _ => erewrite at_insert in H by done
  | H : at_ (?h ++ [Some _]) (length ?h) = Some _ |- _ => rewrite at_app_end in H
  | H : at_ ?h (length ?h) = Some _ |- _ => rewrite at_end in H
  | H1 : at_ ?h ?i = Some ?a, H2 : at_ ?h ?i = Some ?b |- _ =>
      lazymatch a with b => fail | _ => rewrite H1 in H2; injection H2 as <- end
  | H : Some _ = Some _ |- _ => injection H as <-
  | H : None = Some _ |- _ => discriminate H
  end; simpl in *.

Ltac cell_solve :=
  cell_inv;
  try (eexists; split; [first [eassumption | by eapply at_insert | apply at_app_end]|]);
  simpl; try (first [done | congruence | split_and?; first [done | congruence | lia | tauto]]).

(** The parts of the invariant outside of the focus *)
Ltac queues_tac := eapply queues_frame; [eassumption | eassumption | cell_solve ..].
Ltac homes_tac := eapply homes_frame; [eassumption | eassumption | cell_solve ..].
Ltac timers_tac :=
  eapply timers_frame; [eassumption | eassumption | reflexivity | other_tac
  | at_tac; try done
  | at_tac; first [done | let Hy := fresh in split; intros (? & ? & Hy); simplify_eq; (eexists; split; [reflexivity|exact Hy]) | idtac]
  | scan_tac ].
Ltac groups_tac :=
  eapply groups_frame; [eassumption | eassumption | cell_solve | try done | try calm_tac ].
Ltac stable_tac :=
  eapply stable_frames;
  [ eassumption | eassumption
  | split; cell_solve
  | let f := fresh "f" in let Hf := fresh "Hf" in
    intros f Hf; simpl in Hf;
    repeat match goal with H : stack _ = _ |- _ => rewrite H end;
    repeat (apply elem_of_cons in Hf as [->|Hf]; [right; try (left; exact I)|]);
    try (left; right; exact Hf)
  | let x := fresh in let Hx := fresh in
    intros x Hx; first [ by apply elem_of_nil in Hx
                       | apply list_elem_of_singleton in Hx as ->; eexists; split; [reflexivity|done]
                       | apply elem_of_replicate in Hx as [-> _]; eexists; split; [reflexivity|done] ]
  | simpl; repeat match goal with
    | H : shape (stack _), E : stack _ = _ |- _ => rewrite E in H; simpl in H
    end; try done; try (by apply resting_shape) ].

(** ** Setters keep the type of an object. *)
Lemma simple_refcount v ob : is_simple (set_refcount v ob) = is_simple ob.
Proof. done. Qed.
Lemma simple_shutdown ob : is_simple (set_shutdown ob) = is_simple ob.
Proof. done. Qed.
Lemma simple_member b ob : is_simple (set_member b ob) = is_simple ob.
Proof. done. Qed.
Lemma simple_callbacks a b c ob : is_simple (set_callbacks a b c ob) = is_simple ob.
Proof. done. Qed.

Lemma qlen_prefcount v pl : qlen (set_prefcount v pl) = qlen pl.
Proof. done. Qed.
Lemma qlen_objcount v pl : qlen (set_objcount v pl) = qlen pl.
Proof. done. Qed.
Lemma qlen_pshutdown pl : qlen (set_pshutdown pl) = qlen pl.
Proof. done. Qed.
Lemma qlen_pcs v pl : qlen (set_pcs v pl) = qlen pl.
Proof. done. Qed.
Lemma qlen_workers a b pl : qlen (set_workers a b pl) = qlen pl.
Proof. done. Qed.
Lemma qlen_limits a b pl : qlen (set_limits a b pl) = qlen pl.
Proof. done. Qed.
Lemma qlen_stack_info a b pl : qlen (set_stack_info a b pl) = qlen pl.
Proof. done. Qed.
Lemma qlen_new_workers n pl : qlen (new_workers n pl) = qlen pl.
Proof. done. Qed.

Create Rewrite HintDb tp.
#[export] Hint Rewrite qlen_prefcount qlen_objcount qlen_pshutdown qlen_pcs qlen_workers
  qlen_limits qlen_stack_info qlen_new_workers : tp.
#[export] Hint Rewrite simple_refcount simple_shutdown simple_member simple_callbacks : tp.

Lemma elem_list_remove x o l : x ∈ list_remove o l <-> x ∈ l /\ x <> o.
Proof. unfold list_remove. rewrite list_elem_of_filter. tauto. Qed.

Lemma list_remove_notin o l : o ∉ l -> list_remove o l = l.
Proof.
  unfold list_remove. induction l as [|x l IH]; [done|]. rewrite not_elem_of_cons. intros [Hx Hl].
  by rewrite filter_cons_True, IH by congruence.
Qed.

Lemma NoDup_list_remove o l : NoDup l -> NoDup (list_remove o l).
Proof. apply NoDup_filter. Qed.

(** ** Sums of one object *)
Lemma top_in th f rest : stack th = f :: rest -> f ∈ stack th.
Proof. intros ->. left. Qed.

(** All bounds between the sums of an object. *)
Lemma counts_all T : counts T ->
  0 <= T KRef /\ 0 <= T KRun /\ 0 <= T KAssoc /\ 0 <= T KDestroy /\ 0 <= T KPast2 /\
  0 <= T KNoGroup /\ 0 <= T KPast4 /\ 0 <= T KPast5 /\ 0 <= T KKeep /\ 0 <= T KInit /\
  0 <= T KEarly /\ 0 <= T KOne /\ 0 <= T KGroup /\ 0 <= T KReady /\
  0 <= T KClose /\ 0 <= T KRelease.
Proof. intros []. split_and!; auto. Qed.

(** Brings the invariant of object [o] and the bounds of its sums into the
    context. *)
Ltac object_facts HI o c Hc :=
  let L := fresh "L" in let C := fresh "C" in let C' := fresh "C'" in
  pose proof (live _ HI o c Hc) as L;
  match type of L with live_object _ _ (otot ?s _) => pose proof (otot_counts s o) as C end;
  pose proof (counts_all _ C) as C'; destruct L, C; destruct_and! C'.

(** A reference of a frame that neither runs a callback, nor initialises nor
    shuts down the object. *)
Lemma spare_ref s t th f o :
  threads s !! t = Some th -> f ∈ stack th ->
  oc KRef o f - oc KRun o f - oc KInit o f - oc KKeep o f
  <= otot s o KRef - otot s o KRun - otot s o KInit - otot s o KKeep.
Proof.
  intros Ht Hf. unfold otot.
  pose proof (total_slack (oc KRef o) (fun f => oc KRun o f + (oc KInit o f + oc KKeep o f))
    (threads s) t th f) as H.
  rewrite !total_add in H. lapply H; [intros H'; specialize (H' Ht Hf); lia|].
  intros x. generalize x. clear. oc_cases.
Qed.

(** The last reference: the object was shut down and has no callbacks. *)
Lemma last_ref s o c :
  Inv s -> at_ (objects s) o = Some c -> refcount (contents c) = 1 ->
  1 <= otot s o KRef - otot s o KRun - otot s o KInit - otot s o KKeep ->
  shutdown (contents c) = true /\ held c = false /\ num_pending_callbacks (contents c) = 0 /\
  num_running_callbacks (contents c) = 0 /\ num_associated_callbacks (contents c) = 0 /\
  otot s o KRef = 1 /\ otot s o KDestroy = 0.
Proof.
  intros HI Hc H1 Hs. object_facts HI o c Hc.
  assert (held c = false /\ num_pending_callbacks (contents c) = 0 /\ otot s o KRef = 1) as (Hh & Hp & Hr).
  { destruct (held c), (shutdown (contents c) || is_simple (contents c)); simpl in *;
      (split_and!; [done|lia..]) || (exfalso; lia). }
  rewrite H1 in lo_destroy0. rewrite Hh in *. simpl in *.
  split_and!; [|done|lia..]. destruct (shutdown (contents c)); [done|].
  specialize (lo_keep0 eq_refl). exfalso. destruct (is_simple (contents c)); lia.
Qed.

(** An object without references is being destroyed by one thread. *)
Lemma dying s t th o ph :
  Inv s -> threads s !! t = Some th -> FRelease o ph ∈ stack th -> ph <> RDec ->
  exists c, at_ (objects s) o = Some c /\ refcount (contents c) = 0 /\ shutdown (contents c) = true /\
    held c = false /\ num_pending_callbacks (contents c) = 0 /\
    otot s o KRef = 0 /\ otot s o KDestroy = 1 /\
    (forall k, k = KPast2 \/ k = KNoGroup \/ k = KPast4 \/ k = KPast5 ->
       otot s o k = b2z (release_counts k ph)).
Proof.
  intros HI Ht Hf Hph.
  assert (Hd : 1 <= otot s o KDestroy).
  { pose proof (frame_otot s t th _ KDestroy o Ht Hf) as H. simpl in H. rewrite eqz_refl in H.
    by destruct ph. }
  destruct (ref_live s HI o) as [c Hc].
  { pose proof (otot_counts s o) as []. pose proof (ct_nonneg0 KRef). lia. }
  exists c. split; [done|]. object_facts HI o c Hc.
  assert (Hz : refcount (contents c) = 0) by (destruct (Z.eqb_spec (refcount (contents c)) 0); lia).
  rewrite Hz in *. simpl in lo_destroy0.
  assert (held c = false /\ num_pending_callbacks (contents c) = 0 /\ otot s o KRef = 0) as (Hh & Hp & Hr).
  { destruct (held c), (shutdown (contents c) || is_simple (contents c)); simpl in *;
      (split_and!; [done|lia..]) || (exfalso; lia). }
  rewrite Hh in *. simpl in *. split_and!; try done.
  - destruct (shutdown (contents c)); [done|].
    specialize (lo_keep0 eq_refl). exfalso. destruct (is_simple (contents c)); lia.
  - assert (Hle : forall k, (forall f, oc k o f <= oc KDestroy o f + oc KRef o f) ->
        oc k o (FRelease o ph) <= otot s o k /\
        1 - oc k o (FRelease o ph) <= otot s o KDestroy + otot s o KRef - otot s o k).
    { intros k Hk. split; [by eapply frame_otot|].
      pose proof (total_slack (fun f => oc KDestroy o f + oc KRef o f) (oc k o) (threads s) t th _ Hk Ht Hf) as Hel.
      rewrite total_add in Hel. unfold otot. etransitivity; [|exact Hel]. simpl. rewrite eqz_refl. by destruct ph; simpl. }
    intros k Hk. specialize (Hle k). simpl in Hle. rewrite eqz_refl in Hle.
    destruct Hle as [Hl1 Hl2].
    + destruct Hk as [->|[->|[->| ->]]]; clear; oc_cases.
    + destruct Hk as [->|[->|[->| ->]]]; destruct ph; simpl in *; lia.
Qed.

(** ** Sums of one pool *)
Lemma pct_all T : pcounts T -> 0 <= T PWorker /\ 0 <= T PRef /\ 0 <= T PObj /\ 0 <= T PExec /\ 0 <= T PKeep.
Proof. intros []. split_and!; auto. Qed.

(** Brings the invariant of pool [p] and the bounds of its sums into the context. *)
Ltac pool_facts HI p c Hc :=
  let L := fresh "L" in let C := fresh "C" in let C' := fresh "C'" in let B := fresh "B" in
  pose proof (lpool _ HI p c Hc) as L;
  match type of L with live_pool _ _ _ (ptot ?s _) _ _ =>
    pose proof (ptot_counts s p) as C; pose proof (pool_refs_bounds s HI p) as B end;
  pose proof (pct_all _ C) as C'; destruct L, C; destruct_and! C';
  assert (0 <= b2z (held c)) by (destruct (held c); simpl; lia);
  repeat match goal with |- context [bool_decide ?P] =>
    lazymatch goal with H : 0 <= b2z (bool_decide P) |- _ => fail | _ =>
      assert (0 <= b2z (bool_decide P)) by (unfold b2z; case_bool_decide; lia) end end.

(** The invariant of the focused pool after the step. *)
Ltac pool_tail :=
  try (let H := fresh in intros H; match goal with
       | L : pshutdown _ = false -> 1 <= _ |- _ => specialize (L H); lia
       | L : 1 <= _ -> pshutdown _ = false |- _ => apply L; lia
       | L : 1 <= _ -> _ /\ _ |- _ => destruct L as [? ?]; [lia|]; first [exfalso; lia | split; [lia|done]]
       | L : _ \/ _ -> 1 <= ?n |- _ =>
           assert (1 <= n) by
             (apply L; destruct H as [[? ?]|?]; [left; split; [assumption|lia]|right; lia]); lia
       end).
Ltac pool_split :=
  split; simpl; autorewrite with tp; simpl; delta_tac; rewrite ?eqz_refl; try assumption; try lia; pool_tail.

End TpSteps.
