(* ===== verification/TpRelease.v ===== *)
(** * The thread pool: releasing references

    tp_object_release, tp_group_release, tp_threadpool_release and
    tp_threadpool_unlock keep the invariant, and their assertions hold. *)
From S2P Require Import Prelude Threadpool TpInv TpUpdate TpSteps.

Module TpRelease.
Import Tp TpInv TpUpdate TpSteps.

Definition dfirst (k : okind) : Z := match k with KRef => -1 | KDestroy => 1 | _ => 0 end.
Definition dskip (k : okind) : Z :=
  match k with KRef => -1 | KDestroy | KPast2 | KNoGroup => 1 | _ => 0 end.

Section Release.
Context (s : state) (HI : Inv s) (t : nat) (th : thread) (Ht : threads s !! t = Some th).
Context (rest : list frame) (o : nat).

Lemma release_dec :
  stack th = FRelease o RDec :: rest -> good (tp_object_release t o RDec rest s).
Proof.
  intros Hst. pose proof (inv_shape _ HI t th Ht) as Hsh.
  pose proof (spare_ref s t th _ o Ht (top_in _ _ _ Hst)) as Hsp. simpl in Hsp. rewrite eqz_refl in Hsp.
  apply good_object.
  { apply (ref_live s HI). pose proof (counts_all _ (otot_counts s o)). destruct_and!. lia. }
  intros c Hc. simpl. destruct (Z.eqb_spec (refcount (contents c) - 1) 0) as [Hz|Hz].
  - destruct (last_ref s o c HI Hc ltac:(lia) ltac:(lia)) as (H1 & H2 & H3 & H4 & H5 & H6 & H7).
    rewrite H1, H3, H4, H5. simpl.
    destruct (ogroup (contents c)) as [g|] eqn:Hgr; open_goto s t th.
    + quiet_keep t th o (opool (contents c)) (group_or s (contents c)).
      * left. exists c. by rewrite Hgr.
      * at_tac. sums dfirst. object_facts HI o c Hc.
        split; simpl; autorewrite with tp; rewrite ?Z.add_0_r; try assumption.
        -- rewrite H1 in *. simpl in *. lia.
        -- rewrite (proj2 (Z.eqb_eq _ _) Hz). lia.
    + quiet_keep t th o (opool (contents c)) (group_or s (contents c)).
      * at_tac. sums dskip. object_facts HI o c Hc.
        split; simpl; autorewrite with tp; rewrite ?Z.add_0_r; try assumption.
        -- rewrite H1 in *. simpl in *. lia.
        -- rewrite (proj2 (Z.eqb_eq _ _) Hz). lia.
        -- intros Hm. destruct (lo_member0 Hm) as [_ ?]. congruence.
      * apply loc_group_keep; [done..|by other_tac|]. at_tac. unfold left_group, in_group. simpl.
        by rewrite Hgr.
  - simpl. open_goto s t th.
    quiet_keep t th o (opool (contents c)) (group_or s (contents c)).
    at_tac. sums (dref (-1)). object_facts HI o c Hc.
    split; simpl; autorewrite with tp; rewrite ?Z.add_0_r; try assumption; [lia|].
    rewrite lo_destroy0. destruct (Z.eqb_spec (refcount (contents c)) 0); [|].
    + destruct (held c), (shutdown (contents c) || is_simple (contents c)); simpl in *; lia.
    + by destruct (Z.eqb_spec (refcount (contents c) - 1) 0).
Qed.

(** No thread iterates over a group whose critical section can be entered. *)
Lemma group_lock g c f :
  at_ (groups s) g = Some c -> stack th = f :: rest -> calm f ->
  gcs (contents c) = None \/ gcs (contents c) = Some t ->
  gcs (contents c) = None.
Proof.
  intros Hc Hst Hf [|Hg]; [done|]. destruct (inv_members _ HI g c Hc) as (l & r & _ & _ & _ & Hl).
  rewrite Hg in Hl. destruct Hl as (th2 & f2 & rest2 & Ht2 & Hst2 & Hit).
  assert (th2 = th) as -> by congruence. assert (f2 = f) as -> by congruence.
  destruct Hit as (? & [->|(? & ? & _ & ->)]); done.
Qed.

Lemma dying_facts ph :
  stack th = FRelease o ph :: rest -> ph <> RDec ->
  exists c, at_ (objects s) o = Some c /\ refcount (contents c) = 0 /\ shutdown (contents c) = true /\
    held c = false /\ num_pending_callbacks (contents c) = 0 /\
    otot s o KRef = 0 /\ otot s o KDestroy = 1 /\
    (forall k, k = KPast2 \/ k = KNoGroup \/ k = KPast4 \/ k = KPast5 ->
       otot s o k = b2z (release_counts k ph)).
Proof. intros Hst Hph. eapply dying; [done|done|by eapply top_in|done]. Qed.

Definition dpast2 (k : okind) : Z := match k with KPast2 => 1 | _ => 0 end.

Lemma member_insert g (G : heap group) P d tq c c' x st v po :
  at_ (objects s) o = Some c -> ogroup (contents c') = ogroup (contents c) ->
  is_group_member (contents c') = false ->
  member_of (after s t (Thread st v po) [] (<[o := Some c']> (objects s)) P G d tq (dll_shutdown s)) g x
  <-> member_of s g x /\ x <> o.
Proof.
  intros Hc Hg Hm. unfold member_of. simpl. destruct (decide (x = o)) as [->|Hx].
  - erewrite at_insert by done. split; [|tauto]. intros (c2 & [= <-] & _ & ?). congruence.
  - rewrite at_insert_ne by done. tauto.
Qed.

Lemma release_group :
  stack th = FRelease o RGroup :: rest -> good (tp_object_release t o RGroup rest s).
Proof.
  intros Hst. pose proof (inv_shape _ HI t th Ht) as Hsh.
  destruct (dying_facts RGroup Hst) as (c & Hc & H1 & H2 & H3 & H4 & H5 & H6 & H7); [done|].
  pose proof (inv_frames _ HI t th _ Ht (top_in _ _ _ Hst)) as (c0 & Hc0 & Hg0).
  assert (c0 = c) as -> by congruence.
  apply good_object; [eauto|]. intros c1 Hc1. assert (c1 = c) as -> by congruence. simpl.
  destruct (ogroup (contents c)) as [g|] eqn:Hg; [|done].
  apply good_group. { eapply object_group; [done..|]. rewrite H7; auto. }
  intros cg Hcg. apply good_enter. intros Hlock. eapply group_lock in Hlock; [|done..].
  pose proof (H7 KPast2 ltac:(auto)) as HK2. simpl in HK2.
  destruct (is_group_member (contents c)) eqn:Hm.
  - open_goto s t th. update_start t th o (opool (contents c)) g.
    + at_tac. sums dpast2. object_facts HI o c Hc.
      split; simpl; autorewrite with tp; rewrite ?Z.add_0_r; try assumption; [|done].
      rewrite Hm in *. simpl in *. lia.
    + at_tac. destruct (lgroup s HI g cg Hcg). split; simpl; [|done].
      unfold grefs'. at_tac. unfold left_group, in_group, T'. simpl. rewrite Hg, eqz_refl. delta_tac. lia.
    + queues_tac.
    + stable_tac. left. exists c. by rewrite Hg.
    + homes_tac.
    + split; [|calm_tac].
      cell_inv. destruct (inv_members _ HI g cg Hcg) as (l & r & Hlr & Hn & Hr & Hl).
      rewrite Hlock in Hl. subst l. simpl in Hlr. exists [], (list_remove o r). simpl.
      rewrite Hlr, Hlock. split_and!; [done|by apply NoDup_list_remove| |done].
      intros x. rewrite member_insert by (done || by rewrite Hg). by rewrite elem_list_remove, <- Hr.
    + timers_tac.
  - open_goto s t th. quiet_keep t th o (opool (contents c)) g.
    + left. exists c. by rewrite Hg.
    + at_tac. sums dpast2. object_facts HI o c Hc.
      split; simpl; autorewrite with tp; rewrite ?Z.add_0_r; try assumption. by rewrite Hm.
Qed.

End Release.

(** ** The last reference on a pool *)
Lemma osum_diff f g h o :
  (forall i c, at_ h i = Some c -> f i (contents c) <= g i (contents c)) ->
  oterm g h o - oterm f h o <= osum g h - osum f h.
Proof.
  intros H.
  rewrite (osum_long g h (S (Nat.max o (length h)))), (osum_long f h (S (Nat.max o (length h)))) by lia.
  set (l := seq 0 _). assert (Ho : o ∈ l) by (apply elem_of_seq; lia).
  assert (Hi : forall i, oterm f h i <= oterm g h i).
  { intros i. unfold oterm. destruct (at_ h i) eqn:E; [by apply H|lia]. }
  induction Ho as [x l'|x y l' Hx IH]; simpl.
  - pose proof (zsum_map_le (oterm f h) (oterm g h) l' ltac:(auto)). lia.
  - pose proof (Hi y). lia.
Qed.

Lemma pool_last s p c :
  Inv s -> at_ (pools s) p = Some c -> prefcount (contents c) = 1 ->
  (1 <= ptot s p PRef - ptot s p PObj - ptot s p PKeep \/
   exists o co, at_ (objects s) o = Some co /\ opool (contents co) = p /\
     otot s o KPast4 = 1 /\ otot s o KPast5 = 0) ->
  held c = false /\ pshutdown (contents c) = true /\ objcount (contents c) = 0 /\
  concat (queues (contents c)) = [] /\ default_threadpool s <> Some p /\
  ptot s p PWorker = 0 /\ ptot s p PRef + pool_refs s p = 1.
Proof.
  intros HI Hc H1 Hlast. pose proof (lpool s HI p c Hc) as []. rewrite H1 in lp_ref0.
  pose proof (pct_all _ (ptot_counts s p)). destruct_and!. destruct (ptot_counts s p).
  pose proof (pool_refs_bounds s HI p).
  assert (Hd : 0 <= b2z (bool_decide (default_threadpool s = Some p))) by (case_bool_decide; simpl; lia).
  assert (Hh : 0 <= b2z (held c)) by (destruct (held c); simpl; lia).
  assert (Hobjs : ptot s p PObj + pool_objs s p = 0 /\ ptot s p PKeep = 0 /\
    1 <= ptot s p PRef + pool_refs s p).
  { destruct Hlast as [Hl|(o & co & Ho & Hpo & Hk4 & Hk5)]; [lia|].
    pose proof (osum_diff (fun o ob => eqz p (opool ob) * (1 - otot s o KPast4))
      (fun o ob => eqz p (opool ob) * (1 - otot s o KPast5)) (objects s) o) as Hdf.
    unfold oterm in Hdf. rewrite Ho, Hpo, eqz_refl, Hk4, Hk5 in Hdf.
    assert (1 <= pool_refs s p - pool_objs s p); [|lia].
    etransitivity; [|apply Hdf]; [lia|]. intros i ci _. destruct (otot_counts s i).
    pose proof (eqz_nonneg p (opool (contents ci))). nia. }
  assert (held c = false) as Hhf by (destruct (held c); simpl in *; [lia|done]).
  assert (pshutdown (contents c) = true) as Hsh.
  { destruct (pshutdown (contents c)); [done|]. specialize (lp_keep0 eq_refl). lia. }
  split_and!; [done|done|lia| |case_bool_decide; simpl in *; [lia|done]|lia|lia].
  destruct (concat (queues (contents c))) as [|x l] eqn:E; [done|].
  assert (0 < qlen (contents c)) by (unfold qlen; rewrite E; simpl; lia). lia.
Qed.

Lemma queues_nil (pl : pool) : concat (queues pl) = [] ->
  forallb (fun q => bool_decide (q = [])) (queues pl) = true.
Proof.
  intros H. apply forallb_forall. intros q Hq. apply bool_decide_eq_true.
  apply list_elem_of_In in Hq. induction (queues pl) as [|x l IH]; [by apply elem_of_nil in Hq|].
  simpl in H. apply app_eq_nil in H as [-> H]. apply elem_of_cons in Hq as [->|Hq]; [done|auto].
Qed.

(** ** The last reference on a group *)
Lemma members_empty s g c :
  Inv s -> at_ (groups s) g = Some c -> held c = false -> (forall x, ~ member_of s g x) ->
  members (contents c) = [].
Proof.
  intros HI Hc Hh Hm. destruct (inv_members _ HI g c Hc) as (l & r & -> & _ & Hr & Hl).
  assert (r = []) as ->.
  { destruct r as [|x r]; [done|]. destruct (Hm x). apply Hr. left. }
  destruct (gcs (contents c)) as [t|]; [|by subst].
  destruct Hl as (th & f & rest & Ht & Hst & Hit).
  pose proof (inv_frames _ HI t th f Ht ltac:(rewrite Hst; left)) as Hf.
  destruct Hit as (b & [->|(x & l' & _ & ->)]); destruct Hf as (c2 & Hc2 & ? & _); congruence.
Qed.

Lemma member_counts s g x : Inv s -> member_of s g x ->
  exists c, at_ (objects s) x = Some c /\ ogroup (contents c) = Some g /\ otot s x KNoGroup = 0.
Proof.
  intros HI (c & Hc & Hg & Hm). exists c. split_and!; [done..|]. object_facts HI x c Hc.
  rewrite Hm in *. simpl in *. destruct (lo_member0 eq_refl) as [? _]. lia.
Qed.

(** The members of a group have references on it, besides the one of [o]. *)
Lemma group_two s g x o co : Inv s -> member_of s g x -> x <> o ->
  at_ (objects s) o = Some co -> ogroup (contents co) = Some g -> otot s o KNoGroup = 0 ->
  2 <= group_refs s g.
Proof.
  intros HI Hm Hne Ho Hg Hn. destruct (member_counts s g x HI Hm) as (c & Hc & Hgx & Hnx).
  set (f := fun i ob => in_group g ob * (1 - otot s i KNoGroup)).
  pose proof (osum_diff (fun i ob => if decide (i = x) then f i ob else 0) f (objects s) o) as Hd.
  pose proof (osum_elem (fun i ob => if decide (i = x) then f i ob else 0) (objects s) x) as He.
  assert (Hf : forall i ci, at_ (objects s) i = Some ci -> 0 <= f i (contents ci)).
  { intros i ci Hi. unfold f. pose proof (nogroup_le1 s HI i ci Hi). unfold in_group.
    destruct (ogroup (contents ci)) as [y|]; [|lia]. pose proof (eqz_nonneg g y). nia. }
  unfold oterm in Hd, He. rewrite Ho in Hd. rewrite Hc in He. cbv beta in Hd, He.
  rewrite decide_False in Hd by done. rewrite decide_True in He by done.
  assert (f o (contents co) = 1 /\ f x (contents c) = 1) as [E1 E2].
  { unfold f, in_group. rewrite Hg, Hgx, eqz_refl, Hn, Hnx. lia. }
  rewrite E1 in Hd. rewrite E2 in He. unfold group_refs. fold f.
  transitivity (1 + osum (fun i ob => if decide (i = x) then f i ob else 0) (objects s)); [|].
  - enough (1 <= osum (fun i ob => if decide (i = x) then f i ob else 0) (objects s)) by lia.
    apply He. intros i ci Hi. case_decide; [by apply Hf|lia].
  - enough (1 - 0 <= osum f (objects s) - osum (fun i ob => if decide (i = x) then f i ob else 0) (objects s)) by lia.
    apply Hd. intros i ci Hi. case_decide; [lia|by apply Hf].
Qed.

(** A pool that is not in use: no object, no group. *)
Section PoolGroup.
Context (s : state) (HI : Inv s) (t : nat) (th : thread) (Ht : threads s !! t = Some th).
Context (rest : list frame).

Lemma none_free : otot s (length (objects s)) KRef = 0 /\ otot s (length (objects s)) KDestroy = 0.
Proof. pose proof (inv_object _ HI (length (objects s))) as H. by rewrite at_end in H. Qed.

Lemma pool_release p :
  stack th = FPoolRelease p :: rest ->
  good (tp_threadpool_release p s (fun s => Next (goto t rest s) [])).
Proof.
  intros Hst. pose proof (inv_shape _ HI t th Ht) as Hsh.
  assert (Hr : 1 <= ptot s p PRef - ptot s p PObj - ptot s p PKeep).
  { pose proof (total_slack (pc PRef p) (fun f => pc PObj p f + pc PKeep p f) (threads s) t th
      (FPoolRelease p)) as H.
    rewrite total_add in H. simpl in H. rewrite eqz_refl in H. unfold ptot.
    enough (1 - (0 + 0) <= total (pc PRef p) (threads s)
      - (total (pc PObj p) (threads s) + total (pc PKeep p) (threads s))) by lia.
    apply H; [|done|rewrite Hst; left]. clear. oc_cases. }
  apply good_pool.
  { apply (pool_live s HI). pose proof (pct_all _ (ptot_counts s p)). destruct_and!. lia. }
  intros c Hc. simpl. destruct (Z.eqb_spec (prefcount (contents c) - 1) 0) as [Hz|Hz].
  - destruct (pool_last s p c HI Hc ltac:(lia) ltac:(by left)) as (H1 & H2 & H3 & H4 & H5 & H6 & H7).
    rewrite H2, H3, queues_nil by done. simpl. open_goto s t th.
    update_start t th (length (objects s)) p (length (groups s)).
    + at_tac. pool_facts HI p c Hc. simpl. unfold refs', left_over. rewrite at_end. rewrite bool_decide_false by done.
      split_and!; [done|delta_tac; rewrite ?eqz_refl; lia..].
    + queues_tac.
    + stable_tac. exfalso. destruct H0 as [|[|]]; congruence.
    + homes_tac. destruct H as (c2 & ? & ?). congruence.
    + groups_tac.
    + timers_tac.
  - open_goto s t th. quiet_keep t th (length (objects s)) p (length (groups s)).
    at_tac. pool_facts HI p c Hc. unfold refs', objs', left_over. rewrite !at_end. simpl. pool_split.
Qed.

Lemma pool_unlock p :
  stack th = FPoolUnlock p :: rest ->
  good (unlock_section t p s (fun s => Next (goto t (FPoolRelease p :: rest) s) [])).
Proof.
  intros Hst. pose proof (inv_shape _ HI t th Ht) as Hsh.
  pose proof (frame_ptot s t th _ PRef p Ht (top_in _ _ _ Hst)) as Hr. simpl in Hr. rewrite eqz_refl in Hr.
  apply good_pool.
  { apply (pool_live s HI). pose proof (pct_all _ (ptot_counts s p)). destruct_and!. lia. }
  intros c Hc. apply good_enter. intros _. open_goto s t th.
  quiet_keep t th (length (objects s)) p (length (groups s)).
  at_tac. pool_facts HI p c Hc. unfold refs', objs', left_over. rewrite !at_end. simpl. pool_split.
Qed.

(** tp_threadpool_unlock in tp_object_release *)
Definition dpast4 (k : okind) : Z := match k with KPast4 => 1 | _ => 0 end.
Definition dpast5 (k : okind) : Z := match k with KPast5 => 1 | _ => 0 end.
Definition dnogroup (k : okind) : Z := match k with KNoGroup => 1 | _ => 0 end.

Lemma release_unlock o :
  stack th = FRelease o RPool :: rest -> good (tp_object_release t o RPool rest s).
Proof.
  intros Hst. pose proof (inv_shape _ HI t th Ht) as Hsh.
  destruct (dying_facts s HI t th Ht rest o RPool Hst) as (c & Hc & H1 & H2 & H3 & H4 & H5 & H6 & H7); [done|].
  apply good_object; [eauto|]. intros c1 Hc1. assert (c1 = c) as -> by congruence.
  apply good_pool. { eapply (object_pool s HI); [done|]. rewrite H7; auto. }
  intros cp Hcp. apply good_enter. intros _. open_goto s t th.
  quiet_keep t th o (opool (contents c)) (group_or s (contents c)).
  - at_tac. sums dpast4. object_facts HI o c Hc.
    split; simpl; autorewrite with tp; rewrite ?Z.add_0_r; assumption.
  - at_tac. pool_facts HI (opool (contents c)) cp Hcp. unfold refs', objs', left_over. at_tac. unfold T'.
    pool_split.
Qed.

Lemma release_pool_ref o :
  stack th = FRelease o RPoolRelease :: rest -> good (tp_object_release t o RPoolRelease rest s).
Proof.
  intros Hst. pose proof (inv_shape _ HI t th Ht) as Hsh.
  destruct (dying_facts s HI t th Ht rest o RPoolRelease Hst) as (c & Hc & H1 & H2 & H3 & H4 & H5 & H6 & H7); [done|].
  pose proof (H7 KPast4 ltac:(auto)) as HK4. pose proof (H7 KPast5 ltac:(auto)) as HK5. simpl in HK4, HK5.
  apply good_object; [eauto|]. intros c1 Hc1. assert (c1 = c) as -> by congruence.
  apply good_pool. { eapply (object_pool s HI); done. }
  intros cp Hcp. simpl. destruct (Z.eqb_spec (prefcount (contents cp) - 1) 0) as [Hz|Hz].
  - destruct (pool_last s (opool (contents c)) cp HI Hcp ltac:(lia)) as (P1 & P2 & P3 & P4 & P5 & P6 & P7).
    { right. by exists o, c. }
    rewrite P2, P3, queues_nil by done. simpl. open_goto s t th.
    update_start t th o (opool (contents c)) (group_or s (contents c)).
    + at_tac. sums dpast5. object_facts HI o c Hc.
      split; simpl; autorewrite with tp; rewrite ?Z.add_0_r; assumption.
    + at_tac. pose proof (object_refs s HI o c Hc). pool_facts HI (opool (contents c)) cp Hcp.
      simpl. unfold refs', left_over. at_tac. rewrite bool_decide_false by done.
      unfold T'. split_and!; [done|delta_tac; rewrite ?eqz_refl; lia..].
    + queues_tac.
    + stable_tac. exfalso. destruct H0 as [|[|]]; congruence.
    + homes_tac. destruct H as (c2 & ? & ?). congruence.
    + groups_tac.
    + timers_tac.
  - open_goto s t th. quiet_keep t th o (opool (contents c)) (group_or s (contents c)).
    + at_tac. sums dpast5. object_facts HI o c Hc.
      split; simpl; autorewrite with tp; rewrite ?Z.add_0_r; assumption.
    + at_tac. pose proof (object_refs s HI o c Hc). pool_facts HI (opool (contents c)) cp Hcp.
      unfold refs', objs', left_over. at_tac. unfold T'. pool_split.
Qed.

Lemma release_group_ref o :
  stack th = FRelease o RGroupRelease :: rest -> good (tp_object_release t o RGroupRelease rest s).
Proof.
  intros Hst. pose proof (inv_shape _ HI t th Ht) as Hsh.
  destruct (dying_facts s HI t th Ht rest o RGroupRelease Hst) as (c & Hc & H1 & H2 & H3 & H4 & H5 & H6 & H7); [done|].
  pose proof (H7 KNoGroup ltac:(auto)) as HKn. pose proof (H7 KPast2 ltac:(auto)) as HK2. simpl in HKn, HK2.
  pose proof (inv_frames _ HI t th _ Ht (top_in _ _ _ Hst)) as (c0 & Hc0 & Hg0).
  assert (c0 = c) as -> by congruence.
  apply good_object; [eauto|]. intros c1 Hc1. assert (c1 = c) as -> by congruence. simpl.
  destruct (ogroup (contents c)) as [g|] eqn:Hg; [|done].
  apply good_group. { by eapply (object_group s HI). }
  intros cg Hcg. simpl. pose proof (lgroup s HI g cg Hcg) as [].
  pose proof (group_refs_elem s HI o c g Hc Hg) as Hge.
  pose proof (total_nonneg (gc g) (threads s) (gc_nonneg g)) as Hgn.
  destruct (Z.eqb_spec (grefcount (contents cg) - 1) 0) as [Hz|Hz].
  - assert (Hh : held cg = false) by (destruct (held cg); simpl in *; [lia|done]).
    rewrite Hh in *. simpl in *.
    assert (gshutdown (contents cg) = true) as Hgs by (destruct (gshutdown (contents cg)); naive_solver).
    assert (Hme : members (contents cg) = []).
    { eapply members_empty; [done..|]. intros x Hx. destruct (decide (x = o)) as [->|Hne].
      - object_facts HI o c Hc. destruct Hx as (c2 & Hc2 & _ & Hm). assert (c2 = c) as -> by congruence.
        destruct (lo_member0 Hm) as [? _]. lia.
      - pose proof (group_two s g x o c HI Hx Hne Hc Hg HKn). lia. }
    rewrite Hgs, Hme. simpl. open_goto s t th. update_start t th o (opool (contents c)) g.
    + at_tac. sums dnogroup. object_facts HI o c Hc.
      split; simpl; autorewrite with tp; rewrite ?Z.add_0_r; assumption.
    + at_tac. unfold grefs', left_group, in_group. at_tac. rewrite Hg, eqz_refl. unfold T'. simpl.
      split; delta_tac; rewrite ?eqz_refl; lia.
    + queues_tac.
    + stable_tac.
    + homes_tac.
    + split; [|calm_tac]. cell_inv.
    + timers_tac.
  - open_goto s t th. quiet_keep t th o (opool (contents c)) g.
    + at_tac. sums dnogroup. object_facts HI o c Hc.
      split; simpl; autorewrite with tp; rewrite ?Z.add_0_r; assumption.
    + at_tac. split; simpl; [|done].
      unfold grefs', left_group, in_group. at_tac. rewrite Hg, eqz_refl. unfold T'. simpl.
      delta_tac; rewrite ?eqz_refl; lia.
Qed.

Lemma group_release g :
  stack th = FGroupRelease g :: rest ->
  good (tp_group_release g s (fun s => Next (goto t rest s) [])).
Proof.
  intros Hst. pose proof (inv_shape _ HI t th Ht) as Hsh.
  pose proof (total_elem (gc g) (threads s) t th _ (gc_nonneg g) Ht (top_in _ _ _ Hst)) as Hgn.
  simpl in Hgn. rewrite eqz_refl in Hgn. pose proof (group_refs_nonneg s HI g).
  apply good_group.
  { pose proof (inv_group _ HI g) as Hg. destruct (at_ (groups s) g); [eauto|]. simpl in Hg. lia. }
  intros cg Hcg. simpl. pose proof (lgroup s HI g cg Hcg) as [].
  destruct (Z.eqb_spec (grefcount (contents cg) - 1) 0) as [Hz|Hz].
  - assert (Hh : held cg = false) by (destruct (held cg); simpl in *; [lia|done]).
    rewrite Hh in *. simpl in *.
    assert (gshutdown (contents cg) = true) as Hgs by (destruct (gshutdown (contents cg)); naive_solver).
    assert (Hme : members (contents cg) = []).
    { eapply members_empty; [done..|]. intros x Hx.
      destruct (member_counts s g x HI Hx) as (c & Hc & Hg & Hn).
      pose proof (group_refs_elem s HI x c g Hc Hg). lia. }
    rewrite Hgs, Hme. simpl. open_goto s t th.
    update_start t th (length (objects s)) (length (pools s)) g.
    + at_tac. unfold grefs', left_group. rewrite !at_end. simpl.
      split; delta_tac; rewrite ?eqz_refl; lia.
    + queues_tac.
    + stable_tac.
    + homes_tac.
    + split; [|calm_tac]. cell_inv.
    + timers_tac.
  - open_goto s t th. quiet_keep t th (length (objects s)) (length (pools s)) g.
    at_tac. split; simpl; [|done]. unfold grefs', left_group. rewrite !at_end. simpl.
    delta_tac; rewrite ?eqz_refl; lia.
Qed.

(** Two frames of different threads. *)
Lemma total_two f t2 th2 x y :
  (forall z, 0 <= f z) -> t2 <> t -> threads s !! t2 = Some th2 -> x ∈ stack th -> y ∈ stack th2 ->
  f x + f y <= total f (threads s).
Proof.
  intros Hf Hne Ht2 Hx Hy.
  pose proof (total_alter f t (fun _ => Thread [] 0 None) (threads s) th Ht) as Ha. simpl in Ha.
  pose proof (total_elem f (alter (fun _ => Thread [] 0 None) t (threads s)) t2 th2 y Hf) as H2.
  rewrite list_lookup_alter_ne in H2 by done. specialize (H2 Ht2 Hy).
  pose proof (zsum_map_elem f (stack th) x ltac:(auto) Hx) as H1. unfold stot in *. simpl in Ha. lia.
Qed.

(** The frames of others do not mention an object that is freed. *)
Lemma freed_frame o c st v po t2 f :
  at_ (objects s) o = Some c -> held c = false -> initialized (contents c) = false ->
  frame_ok s t2 f -> oc KRef o f = 0 -> oc KDestroy o f = 0 ->
  frame_ok (after s t (Thread st v po) [] (<[o := None]> (objects s)) (pools s) (groups s)
              (default_threadpool s) (timers s) (dll_shutdown s)) t2 f.
Proof.
  intros Hc Hh Hi Hok Hr Hd. destruct f; simpl in *; try done.
  - destruct ph; try done. all: destruct (decide (o0 = o)) as [->|Hne];
      [simpl in Hr; rewrite eqz_refl in Hr; done | by rewrite at_insert_ne].
  - destruct ph; try done. all: destruct Hok as (? & c2 & Hc2 & ? & ?); split; [done|];
      exists c2; simpl; rewrite at_insert_ne; [done|intros ->; congruence].
  - destruct ph; try done. all: destruct (decide (o0 = o)) as [->|Hne];
      [simpl in Hd; rewrite eqz_refl in Hd; done | by rewrite at_insert_ne].
  - destruct (decide (o0 = o)) as [->|Hne]; [rewrite eqz_refl in Hr; done|]. by rewrite at_insert_ne.
  - destruct Hok as (c2 & Hc2 & ? & ?). exists c2. simpl. rewrite at_insert_ne; [done|intros ->; congruence].
  - destruct Hok as (c2 & Hc2 & ? & ?). exists c2. simpl. rewrite at_insert_ne; [done|intros ->; congruence].
  - destruct Hok as (c2 & Hc2 & ? & ?). exists c2. simpl. rewrite at_insert_ne; [done|intros ->; congruence].
  - destruct Hok as (c2 & Hc2 & ? & ?). exists c2. simpl. rewrite at_insert_ne; [done|intros ->; congruence].
Qed.

Lemma release_free o :
  stack th = FRelease o RFree :: rest -> good (tp_object_release t o RFree rest s).
Proof.
  intros Hst. pose proof (inv_shape _ HI t th Ht) as Hsh.
  destruct (dying_facts s HI t th Ht rest o RFree Hst) as (c & Hc & H1 & H2 & H3 & H4 & H5 & H6 & H7); [done|].
  pose proof (H7 KPast4 ltac:(auto)) as HK4. pose proof (H7 KPast5 ltac:(auto)) as HK5.
  pose proof (H7 KPast2 ltac:(auto)) as HK2. pose proof (H7 KNoGroup ltac:(auto)) as HKn.
  simpl in HK4, HK5, HK2, HKn.
  assert (initialized (contents c) = false /\ pending_timer (contents c) = false /\
    is_group_member (contents c) = false) as (Hi & Hpt & Hm).
  { object_facts HI o c Hc. split_and!.
    - destruct (initialized (contents c)); [|done]. destruct lo_timer0; [done|congruence].
    - destruct (pending_timer (contents c)); [|done]. destruct lo_timer0; [auto|congruence].
    - destruct (is_group_member (contents c)); [|done]. destruct lo_member0; [done|lia]. }
  apply good_object; [eauto|]. intros c1 Hc1. assert (c1 = c) as -> by congruence. simpl.
  open_goto s t th. update_start t th o (opool (contents c)) (group_or s (contents c)).
  - at_tac. simpl. unfold T'. delta_tac. rewrite ?eqz_refl. lia.
  - queues_tac.
  - split.
    + intros t2 th2 f Hne Ht2 Hf Hok. eapply freed_frame; [done..| |].
      * pose proof (frame_otot s t2 th2 f KRef o Ht2 Hf). pose proof (oc_nonneg KRef o f). lia.
      * pose proof (total_two (oc KDestroy o) t2 th2 _ f (oc_nonneg _ o) Hne Ht2 (top_in _ _ _ Hst) Hf) as Hd.
        simpl in Hd. rewrite eqz_refl in Hd. pose proof (oc_nonneg KDestroy o f). unfold otot in H6. lia.
    + intros f Hf. assert (Hf' : f ∈ stack th) by (rewrite Hst; by right).
      eapply freed_frame; [done..|by eapply (inv_frames _ HI)| |].
      * pose proof (frame_otot s t th f KRef o Ht Hf'). pose proof (oc_nonneg KRef o f). lia.
      * rewrite Hst in Hsh. simpl in Hsh, Hf. pose proof (proj1 (Forall_forall _ _) Hsh f Hf) as Hre.
        destruct f; try done; by destruct ph.
    + intros ? ? ? []%elem_of_nil.
    + rewrite Hst in Hsh. simpl in *. by apply resting_shape.
    + intros ? []%elem_of_nil.
  - homes_tac.
  - groups_tac. unfold member_of. simpl. at_tac. split; intros (c2 & ? & ? & ?); simplify_eq. congruence.
  - timers_tac.
    + simpl. by rewrite Hi.
    + split; intros (c2 & ? & ?); simplify_eq. congruence.
Qed.

End PoolGroup.
End TpRelease.
