(* ===== verification/TpSubmit.v ===== *)
(** * The thread pool: submitting callbacks

    tp_object_submit puts the object into the list of its priority once,
    whatever the number of callbacks, and always finds or starts a worker. *)
From S2P Require Import Prelude Threadpool TpInv TpUpdate TpSteps.

Module TpSubmit.
Import Tp TpInv TpUpdate TpSteps.

(** ** The lists of a pool *)
Lemma concat_alter (qs : list (list nat)) i q o :
  qs !! i = Some q -> concat (alter (fun q => q ++ [o]) i qs) ≡ₚ o :: concat qs.
Proof.
  revert i. induction qs as [|x qs IH]; intros [|i] H; simplify_eq/=.
  - rewrite <- app_assoc. simpl. by rewrite Permutation_middle.
  - rewrite (IH i H). by rewrite Permutation_middle.
Qed.

Lemma elem_concat (qs : list (list nat)) x :
  x ∈ concat qs <-> exists i q, qs !! i = Some q /\ x ∈ q.
Proof.
  rewrite list_elem_of_In, in_concat. split.
  - intros (q & (i & Hi)%list_elem_of_In%list_elem_of_lookup & Hx). exists i, q. by rewrite list_elem_of_In.
  - intros (i & q & Hi & Hx). exists q. rewrite <- !list_elem_of_In. split; [|done].
    by eapply list_elem_of_lookup_2.
Qed.

(** An object without pending callbacks is in no list. *)
Lemma no_entry s p c o co :
  Inv s -> at_ (pools s) p = Some c -> at_ (objects s) o = Some co ->
  num_pending_callbacks (contents co) <= 0 -> o ∉ concat (queues (contents c)).
Proof.
  intros HI Hc Ho Hn (i & q & Hi & Hx)%elem_concat.
  destruct (inv_queue _ HI p c Hc) as (_ & _ & He). destruct (He i q o Hi Hx) as (c2 & ? & _ & _ & ?).
  assert (c2 = co) as -> by congruence. lia.
Qed.

Lemma priority_list s p c o co :
  Inv s -> at_ (pools s) p = Some c -> at_ (objects s) o = Some co ->
  exists q, queues (contents c) !! priority (contents co) = Some q.
Proof.
  intros HI Hc Ho. destruct (inv_queue _ HI p c Hc) as (Hl & _). apply lookup_lt_is_Some_2.
  rewrite Hl. apply (lo_prio _ _ _ (live s HI o co Ho)).
Qed.

(** An object that is not shut down is not being destroyed. *)
Lemma not_shutdown_alive s o c :
  Inv s -> at_ (objects s) o = Some c -> shutdown (contents c) = false ->
  1 <= refcount (contents c) /\ otot s o KDestroy = 0.
Proof.
  intros HI Hc Hs. object_facts HI o c Hc. specialize (lo_keep0 Hs). rewrite Hs in *. simpl in *.
  assert (1 <= refcount (contents c)).
  { destruct (held c), (is_simple (contents c)); simpl in *; lia. }
  split; [done|]. rewrite lo_destroy0. by destruct (Z.eqb_spec (refcount (contents c)) 0); [lia|].
Qed.

(** A pool with an object that is alive has a worker. *)
Lemma has_worker s o c cp :
  Inv s -> at_ (objects s) o = Some c -> otot s o KDestroy = 0 ->
  at_ (pools s) (opool (contents c)) = Some cp -> pshutdown (contents cp) = false ->
  1 <= num_workers (contents cp).
Proof.
  intros HI Hc Hd Hcp Hs. apply (lp_worker _ _ _ _ _ _ (lpool s HI _ cp Hcp)). left. split; [done|].
  rewrite (lp_objs _ _ _ _ _ _ (lpool s HI _ cp Hcp)).
  pose proof (pct_all _ (ptot_counts s (opool (contents c)))). destruct_and!.
  enough (1 <= pool_objs s (opool (contents c))) by lia.
  assert (HK4 : otot s o KPast4 = 0).
  { pose proof (counts_all _ (otot_counts s o)). destruct_and!. destruct (otot_counts s o). lia. }
  pose proof (osum_elem (fun i ob => eqz (opool (contents c)) (opool ob) * (1 - otot s i KPast4))
    (objects s) o) as He.
  unfold oterm in He. rewrite Hc, eqz_refl, HK4 in He. apply He.
  intros i ci Hi. pose proof (past_le1 s HI i ci Hi). destruct (otot_counts s i).
  pose proof (eqz_nonneg (opool (contents c)) (opool (contents ci))). nia.
Qed.

Lemma submit_object_eq ob : submit_object false ob =
  set_callbacks (num_pending_callbacks ob + 1) (num_running_callbacks ob)
    (num_associated_callbacks ob) (set_refcount (refcount ob + 1) ob).
Proof. unfold submit_object. simpl. by destruct (u ob). Qed.

(** The frames account for an initialisation before and after a simple
    callback is submitted. *)
Definition dearly (n : Z) (k : okind) : Z := match k with KEarly => n | _ => 0 end.

Section Submit.
Context (s : state) (HI : Inv s) (t : nat) (th : thread) (Ht : threads s !! t = Some th).
Context (o : nat) (c : cell object) (Hc : at_ (objects s) o = Some c).
Context (f : frame) (rest st : list frame) (n : Z) (Hst : stack th = f :: rest) (Hcalm : calm f).
Context (Hoc : forall k i, stot (oc k i) st - stot (oc k i) (f :: rest) = dearly n k * eqz i o)
        (Hpc : forall k i, stot (pc k i) st = stot (pc k i) (f :: rest))
        (Hgc : forall i, stot (gc i) st = stot (gc i) (f :: rest))
        (Htc : stot tc st = stot tc (f :: rest)).
Context (Hn : n = if is_simple (contents c) then -1 else 0).
Context (Hsd : shutdown (contents c) = false)
        (Hopen : open_pool s (opool (contents c))).
Context (Hshape : shape st).

(** The object after submitting *)
Lemma submitted_object :
  live_object (held c) (submit_object false (contents c)) (fun k => otot s o k + dearly n k).
Proof.
  destruct (not_shutdown_alive s o c HI Hc Hsd) as [Hr Hd]. object_facts HI o c Hc.
  rewrite submit_object_eq. split; simpl; autorewrite with tp; rewrite ?Z.add_0_r; try assumption; try lia.
  - rewrite Hd. by destruct (Z.eqb_spec (refcount (contents c) + 1) 0); [lia|].
  - intros _. specialize (lo_keep0 Hsd). subst n. destruct (is_simple (contents c)); lia.
  - intros Hs. destruct (lo_simple0 Hs). split; [done|]. subst n. rewrite Hs. lia.
  - intros Hk. apply lo_early0. subst n. destruct (is_simple (contents c)); lia.
Qed.

Context (Hscan : forall ph, f :: rest = [FTimers ph] -> scanning ph = true ->
  exists ph', st = [FTimers ph'] /\ scanning ph' = true).
Context (Hframes : forall x, x ∈ st -> x ∈ f :: rest \/ frame_ok s t x).

(** The lists after an object without pending callbacks has been added *)
Lemma submitted_queues cp h pl' th' new O G :
  at_ (pools s) (opool (contents c)) = Some cp -> num_pending_callbacks (contents c) = 0 ->
  queues pl' = alter (fun q => q ++ [o]) (priority (contents c)) (queues (contents cp)) ->
  O = <[o := Some (Cell (held c) (submit_object false (contents c)))]> (objects s) ->
  queues_ok s t th' new o (opool (contents c)) O
    (<[opool (contents c) := Some (Cell h pl')]> (pools s)) G
    (default_threadpool s) (timers s) (dll_shutdown s).
Proof.
  intros Hcp Hp Hq ->. destruct (priority_list s _ cp o c HI Hcp Hc) as (q & Hqp).
  destruct (inv_queue _ HI _ cp Hcp) as (Hl & Hnd & He).
  pose proof (no_entry s _ cp o c HI Hcp Hc ltac:(lia)) as Hno. split.
  - cell_inv. unfold queue_ok. rewrite Hq, length_alter. split_and!; [done| |].
    + rewrite concat_alter by done. by constructor.
    + intros j q' x Hj Hx. destruct (decide (x = o)) as [->|Hxo].
      * eexists. simpl. erewrite at_insert by done. split; [done|]. simpl. rewrite submit_object_eq. simpl.
        split_and!; [done| |lia]. destruct (decide (priority (contents c) = j)) as [|Hne]; [done|].
        rewrite list_lookup_alter_ne in Hj by done. destruct Hno. apply elem_concat. eauto.
      * simpl. rewrite at_insert_ne by done. destruct (decide (priority (contents c) = j)) as [<-|Hne].
        -- rewrite list_lookup_alter_eq, Hqp in Hj. simpl in Hj. injection Hj as <-.
           apply (He _ q); [done|]. apply elem_of_app in Hx as [|Hx]; [done|].
           by apply list_elem_of_singleton in Hx.
        -- rewrite list_lookup_alter_ne in Hj by done. by apply (He _ q').
  - cell_inv. intros _. rewrite submit_object_eq. simpl. eexists. erewrite at_insert by done.
    exists (q ++ [o]). simpl. split_and!; [done| |].
    + simpl. by rewrite Hq, list_lookup_alter_eq, Hqp.
    + apply elem_of_app. right. left.
  - intros c2 j q' x Hc2 Hj Hx Hxo. assert (c2 = cp) as -> by congruence.
    exists (Cell h pl'). erewrite at_insert by done. simpl. rewrite Hq.
    destruct (decide (priority (contents c) = j)) as [<-|Hne].
    + exists (q' ++ [o]). rewrite list_lookup_alter_eq, Hj. split_and!; [done..|]. apply elem_of_app. by left.
    + exists q'. by rewrite list_lookup_alter_ne.
Qed.

(** A worker that is started, and the pool after submitting *)
Definition started_threads (b : bool) : list thread :=
  if b then replicate 1 (Thread [FWorker (opool (contents c)) WStart] 0 None) else [].

Definition submitted_pool (b : bool) (pl : pool) : pool :=
  let pl := if b then new_workers 1 pl else pl in
  if num_pending_callbacks (contents c) =? 0 then tp_object_prio_queue o (contents c) pl else pl.

Notation th' := (Thread st (ret th) (out th)).

Lemma submit_delta b :
  (forall k i, delta th th' (started_threads b) (oc k i) = dearly n k * eqz i o) /\
  (forall k i, delta th th' (started_threads b) (pc k i) = b2z b * pc k i (FWorker (opool (contents c)) WStart)) /\
  (forall i, delta th th' (started_threads b) (gc i) = 0) /\
  delta th th' (started_threads b) tc = 0.
Proof.
  unfold delta, started_threads. simpl stack. rewrite Hst.
  split_and!; intros; destruct b; rewrite ?total_workers, ?total_nil; simpl b2z.
  - pose proof (Hoc k i). simpl. destruct k; lia.
  - pose proof (Hoc k i). lia.
  - rewrite Hpc. lia.
  - rewrite Hpc. lia.
  - rewrite Hgc. simpl. lia.
  - rewrite Hgc. lia.
  - rewrite Htc. simpl. lia.
  - rewrite Htc. lia.
Qed.

Section Pool.
Context (b : bool) (cp : cell pool) (Hcp : at_ (pools s) (opool (contents c)) = Some cp).
Notation O' := (<[o := Some (Cell (held c) (submit_object false (contents c)))]> (objects s)).
Notation P' := (<[opool (contents c) := Some (Cell (held cp) (submitted_pool b (contents cp)))]> (pools s)).

Lemma submit_focus :
  focus_ok s t th th' (started_threads b) o (opool (contents c)) (group_or s (contents c)) O' P'
    (groups s) (default_threadpool s).
Proof.
  destruct (submit_delta b) as (H1 & H2 & H3 & H4).
  split; [done|intros; heap_tac..|done| | |done| |].
  - intros k i Hi. rewrite H1, eqz_ne by done. lia.
  - intros k i Hi. rewrite H2. simpl. destruct k; rewrite ?eqz_ne by done; lia.
  - focus_tac.
  - at_tac. rewrite submit_object_eq. apply focused_some; [done|]. simpl. intros.
    symmetry. by apply group_or_eq.
Qed.

Lemma submit_local :
  local_ok s th th' (started_threads b) o (opool (contents c)) (group_or s (contents c)) O' P'
    (groups s) (default_threadpool s).
Proof.
  destruct (submit_delta b) as (H1 & H2 & H3 & H4). split.
  - at_tac. eapply object_ok_ext; [|apply submitted_object].
    intros k. unfold T'. rewrite H1, eqz_refl. lia.
  - at_tac. pool_facts HI (opool (contents c)) cp Hcp. unfold refs', objs', left_over. at_tac.
    unfold T'. rewrite !H1. simpl.
    assert (Hq : qlen (submitted_pool b (contents cp)) =
      qlen (contents cp) + (if num_pending_callbacks (contents c) =? 0 then 1 else 0)).
    { unfold submitted_pool. destruct (num_pending_callbacks (contents c) =? 0).
      - unfold tp_object_prio_queue, qlen. simpl.
        destruct (priority_list s _ cp o c HI Hcp Hc) as (q & Hqp).
        replace (queues (if b then new_workers 1 (contents cp) else contents cp)) with (queues (contents cp))
          by (by destruct b). rewrite (concat_alter _ _ q) by done. simpl. lia.
      - rewrite Z.add_0_r. by destruct b. }
    destruct (not_shutdown_alive s o c HI Hc Hsd) as [_ Hkd].
    destruct Hopen as (cp2 & Hcp2 & Hps). assert (cp2 = cp) as -> by congruence.
    pose proof (has_worker s o c cp HI Hc Hkd Hcp Hps).
    split; rewrite ?Hq, ?H2; simpl; rewrite ?eqz_refl.
    all: unfold submitted_pool, tp_object_prio_queue; destruct b, (num_pending_callbacks (contents c) =? 0); simpl.
    all: rewrite ?Z.add_0_r; try assumption; try lia.
    all: try (intros Hx; specialize (lp_keep0 Hx); lia).
    all: try (intros Hx; apply lp_open0; lia).
    all: intros Hx; destruct (lp_new0 ltac:(lia)); pose proof (object_refs s HI o c Hc); exfalso.
    all: assert (otot s o KPast5 = 0) by (destruct (otot_counts s o);
      pose proof (ct_nonneg0 KPast5); lia); lia.
  - eapply loc_group_keep; [eassumption|done|apply H3|]. at_tac. unfold T'. rewrite H1. simpl.
    rewrite submit_object_eq. rewrite Z.add_0_r. done.
Qed.

Lemma submit_quiet :
  quiet s t th th' (started_threads b) o (opool (contents c)) (group_or s (contents c)) O' P'
    (groups s) (default_threadpool s) (timers s) (dll_shutdown s).
Proof.
  destruct (submit_delta b) as (H1 & H2 & H3 & H4). split; try done.
  - at_tac. rewrite submit_object_eq. repeat split; auto.
  - at_tac. unfold submitted_pool. destruct b, (num_pending_callbacks (contents c) =? 0); done.
  - same_tac.
  - by eapply calm_keeps.
  - unfold keeps_scanning. by rewrite Hst.
  - intros x Hx. rewrite Hst. destruct (Hframes x Hx); auto.
  - intros x Hx. unfold started_threads in Hx. destruct b; [|by apply elem_of_nil in Hx].
    apply elem_of_replicate in Hx as [-> _]. eauto.
Qed.

Lemma submit_inv : Inv (after s t th' (started_threads b) O' P' (groups s) (default_threadpool s)
  (timers s) (dll_shutdown s)).
Proof.
  destruct (Z.eqb_spec (num_pending_callbacks (contents c)) 0) as [Hz|Hz].
  - eapply inv_quiet; [done|apply submit_focus|apply submit_quiet|apply submit_local|].
    eapply submitted_queues; [done..| |done]. unfold submitted_pool. rewrite (proj2 (Z.eqb_eq _ _) Hz).
    unfold tp_object_prio_queue. by destruct b.
  - eapply inv_quiet_keep; [done|apply submit_focus|apply submit_quiet|apply submit_local| |].
    + cell_inv. rewrite submit_object_eq. simpl. split; [done|].
      pose proof (lo_pending _ _ _ (live s HI o c Hc)). lia.
    + cell_inv. unfold submitted_pool. rewrite (proj2 (Z.eqb_neq _ _) Hz). by destruct b.
Qed.

End Pool.

Lemma submit_good a es :
  good (submit_section t o a (fun s => Next (goto t st s) es) s).
Proof.
  destruct (not_shutdown_alive s o c HI Hc Hsd) as [Hr Hd].
  destruct Hopen as (cp & Hcp & Hps).
  pose proof (has_worker s o c cp HI Hc Hd Hcp Hps) as Hw.
  apply good_object; [eauto|]. intros c2 Hc2. assert (c2 = c) as -> by congruence.
  apply good_pool; [eauto|]. intros cp2 Hcp2. assert (cp2 = cp) as -> by congruence.
  apply good_enter. intros _. cbv zeta. set (b := wants_worker (contents cp) && succeeded a).
  apply good_assert.
  { apply orb_true_intro. right. apply Z.ltb_lt.
    destruct b, (num_pending_callbacks (contents c) =? 0); simpl; lia. }
  pose proof (submit_inv b cp Hcp) as HI'. simpl.
  erewrite (goto_after s _ t th _ (started_threads b)); [|done|].
  - state_simpl. unfold submitted_pool in HI'. by destruct b.
  - unfold started_threads. destruct b; simpl; [done|]. by rewrite app_nil_r.
Qed.

End Submit.
End TpSubmit.
