(* ===== verification/TpAlloc.v ===== *)
(** * The thread pool: allocating objects

    tp_threadpool_lock, tp_timerqueue_lock and tp_object_initialize: the pool
    gets a worker before its first object, a default pool that loses the race
    to be published is released, and a new object joins its group. *)
From S2P Require Import Prelude Threadpool TpInv TpUpdate TpSteps TpRelease TpSubmit.

Module TpAlloc.
Import Tp TpInv TpUpdate TpSteps TpRelease TpSubmit.

(** ** Addresses that are not in use *)
Lemma fresh_pool s : Inv s ->
  ptot s (length (pools s)) PWorker = 0 /\ ptot s (length (pools s)) PRef = 0 /\
  ptot s (length (pools s)) PObj = 0 /\ ptot s (length (pools s)) PExec = 0 /\
  ptot s (length (pools s)) PKeep = 0 /\
  pool_refs s (length (pools s)) = 0 /\ pool_objs s (length (pools s)) = 0 /\
  default_threadpool s <> Some (length (pools s)).
Proof.
  intros HI. pose proof (inv_pool _ HI (length (pools s))) as H. rewrite at_end in H.
  destruct H as (H1 & H2 & H3 & H4). pose proof (ptot_counts s (length (pools s))) as C.
  pose proof (pct_all _ C). destruct_and!. destruct C. pose proof (pool_refs_bounds s HI (length (pools s))).
  split_and!; try lia. by case_bool_decide.
Qed.

Lemma fresh_object s k : Inv s -> otot s (length (objects s)) k = 0.
Proof.
  intros HI. destruct (none_free s HI) as [H1 H2]. pose proof (otot_counts s (length (objects s))) as C.
  pose proof (counts_all _ C). destruct_and!. destruct C. destruct k; lia.
Qed.

(** ** A new pool *)
Section NewPool.
Context (s : state) (HI : Inv s) (t : nat) (th : thread) (Ht : threads s !! t = Some th).
Context (f : frame) (rest st : list frame) (v : Z) (po : option nat) (h : bool) (si : stack_information).
Context (Hst : stack th = f :: rest) (Hcalm : calm f) (Hns : forall ph, f <> FTimers ph).
Notation p := (length (pools s)).
Context (Hoc : forall k i, stot (oc k i) st = stot (oc k i) (f :: rest))
        (Hpc : forall k i, stot (pc k i) st - stot (pc k i) (f :: rest) =
           match k with PRef | PKeep => b2z (negb h) * eqz i p | _ => 0 end)
        (Hgc : forall i, stot (gc i) st = stot (gc i) (f :: rest))
        (Htc : stot tc st = stot tc (f :: rest)) (Hshape : shape st).
Context (Hframes : forall x, x ∈ st -> x ∈ f :: rest \/ frame_ok s t x).

Lemma new_pool_inv :
  Inv (after s t (Thread st v po) [] (objects s) (pools s ++ [Some (Cell h (new_pool si))]) (groups s)
         (default_threadpool s) (timers s) (dll_shutdown s)).
Proof.
  destruct (fresh_pool s HI) as (H1 & H2 & H3 & H4 & H5 & H6 & H7 & H8).
  assert (Hd : forall F, delta th (Thread st v po) [] F = stot F st - stot F (f :: rest))
    by (intros F; unfold delta; simpl stack; rewrite Hst, total_nil; lia).
  assert (HF : focus_ok s t th (Thread st v po) [] (length (objects s)) p (length (groups s)) (objects s)
    (pools s ++ [Some (Cell h (new_pool si))]) (groups s) (default_threadpool s)).
  { split; [done|done|intros; heap_tac|done..| | | |focus_tac|focus_tac].
    - intros. rewrite Hd, Hoc. lia.
    - intros k i Hi. rewrite Hd, Hpc, eqz_ne by done. destruct k; lia.
    - intros. rewrite Hd, Hgc. lia. }
  eapply pool_update; [done|done|split| | | | | ].
  - eapply loc_object_keep; [done..|]. intros. rewrite Hd, Hoc. lia.
  - at_tac. unfold refs', objs'. rewrite !at_end, bool_decide_false by done. simpl.
    split; rewrite ?Hd, ?Hpc, ?eqz_refl; destruct h; simpl; try lia; try done.
    all: unfold qlen; simpl; lia.
  - eapply loc_group_keep; [done..|rewrite Hd, Hgc; lia|]. by rewrite !at_end.
  - split; cell_inv. split_and!; [done|constructor|]. intros i q o Hq Ho. exfalso.
    assert (concat [[]; []; []] = @nil nat) as E by done. apply (not_elem_of_nil o). rewrite <- E.
    apply elem_concat. eauto.
  - eapply stable_frames; [done|done|split; cell_solve| | |done].
    + intros x Hx. rewrite Hst. destruct (Hframes x Hx); auto.
    + by intros ? ?%elem_of_nil.
  - homes_tac.
  - eapply groups_frame; [done|done|cell_solve|done|]. by eapply calm_keeps.
  - eapply timers_frame; [done|done|done|rewrite Hd, Htc; lia|done|done|].
    unfold keeps_scanning. rewrite Hst. intros ph [= -> ->]. by destruct (Hns ph).
Qed.

End NewPool.

Section Alloc.
Context (s : state) (HI : Inv s) (t : nat) (th : thread) (Ht : threads s !! t = Some th).
Context (k : objtype) (env : option environ) (rest : list frame) (a : answers).

Lemma default_live p : default_threadpool s = Some p ->
  exists c, at_ (pools s) p = Some c /\ pshutdown (contents c) = false.
Proof.
  intros Hd. pose proof (inv_pool _ HI p) as H. rewrite Hd, bool_decide_true in H by done.
  destruct (at_ (pools s) p) as [c|]; simpl in H; [|lia]. exists c. split; [done|].
  apply (lp_open _ _ _ _ _ _ H). destruct (held c); simpl; lia.
Qed.

Lemma alloc_lock :
  stack th = FAlloc k env ALock :: rest -> good (alloc_step t k env ALock rest a s).
Proof.
  intros Hst. pose proof (inv_shape _ HI t th Ht) as Hsh.
  pose proof (inv_frames _ HI t th _ Ht (top_in _ _ _ Hst)) as (He & Hk & _). simpl.
  destruct (valid_environ env) eqn:Hv.
  2: { open_goto s t th. quiet_keep t th (length (objects s)) (length (pools s)) (length (groups s)). }
  destruct (env_pool (env_fields env)) as [p|] eqn:Hp.
  { open_goto s t th. quiet_keep t th (length (objects s)) (length (pools s)) (length (groups s)).
    left. destruct (proj1 He p Hp) as (c & ? & ?). simpl. eauto 10. }
  destruct (default_threadpool s) as [p|] eqn:Hd.
  { open_goto s t th. quiet_keep t th (length (objects s)) (length (pools s)) (length (groups s)).
    left. destruct (default_live p Hd) as (c & ? & ?). simpl. eauto 10. }
  destruct (succeeded a).
  2: { open_goto s t th. quiet_keep t th (length (objects s)) (length (pools s)) (length (groups s)). }
  open_goto s t th. eapply new_pool_inv; try done.
  - intros k1 i. rewrite !stot_cons. destruct k1; simpl; lia.
  - rewrite Hst in Hsh. simpl in *. done.
  - intros x Hx. apply elem_of_cons in Hx as [->|Hx]; [by right|left; by right].
Qed.

(** ** The default pool *)

(** No frame allocates in a pool: closing it does not matter to the frames. *)
Lemma closed_frame p c h' pl' st v po new d t2 f :
  at_ (pools s) p = Some c -> (forall i, default_threadpool s = Some i -> d = Some i) ->
  default_threadpool s <> Some p -> allocates_in s p f = false ->
  frame_ok s t2 f ->
  frame_ok (after s t (Thread st v po) new (objects s) (<[p := Some (Cell h' pl')]> (pools s)) (groups s)
              d (timers s) (dll_shutdown s)) t2 f.
Proof.
  intros Hc Hd Hdp Ha Hf.
  assert (Hopen : forall i, i <> p -> open_pool s i ->
    open_pool (after s t (Thread st v po) new (objects s) (<[p := Some (Cell h' pl')]> (pools s)) (groups s)
              d (timers s) (dll_shutdown s)) i).
  { intros i Hi (c2 & ? & ?). exists c2. simpl. by rewrite at_insert_ne. }
  destruct f; simpl in Hf, Ha |- *; try done.
  - apply orb_false_elim in Ha as [Ha1%bool_decide_eq_false Ha2].
    destruct Hf as ((He1 & He2) & Hk & Hf). split; [|split; [done|]].
    + split; [|done]. intros i Hi. simpl. rewrite at_insert_ne by congruence. auto.
    + destruct ph; simpl in Ha2; try done; try (apply bool_decide_eq_false in Ha2).
      * destruct Hf as (? & c2 & ? & ?). split; [done|]. exists c2. simpl. rewrite at_insert_ne by done.
        naive_solver.
      * naive_solver.
      * naive_solver.
  - destruct Hf as (c2 & Hc2 & Ho2 & Hf). exists c2. split_and!; [done| |done].
    rewrite (proj1 (at_Some _ _ _) Hc2) in Ha. apply bool_decide_eq_false in Ha. auto.
Qed.

(** The frames of a step that closes a pool. *)
Lemma closed_frames p c h' pl' st v po :
  at_ (pools s) p = Some c -> default_threadpool s <> Some p ->
  (forall t2 th2 f, t2 <> t -> threads s !! t2 = Some th2 -> f ∈ stack th2 -> allocates_in s p f = false) ->
  (forall f, f ∈ st -> frame_ok s t f /\ allocates_in s p f = false) ->
  shape st ->
  frames_ok s t (Thread st v po) [] (objects s) (<[p := Some (Cell h' pl')]> (pools s)) (groups s)
    (default_threadpool s) (timers s) (dll_shutdown s).
Proof.
  intros Hc Hd H1 H2 Hsh. split; [| | |done|].
  - intros. eapply closed_frame; eauto.
  - intros f Hf. destruct (H2 f Hf). eapply closed_frame; eauto.
  - by intros ? ? ? ?%elem_of_nil.
  - by intros ? ?%elem_of_nil.
Qed.

(** The default pool that another thread was faster to publish *)
Lemma unpublished p c :
  at_ (pools s) p = Some c -> 1 <= ptot s p PKeep ->
  held c = false /\ default_threadpool s <> Some p /\ pshutdown (contents c) = false /\
  prefcount (contents c) = 1 /\ num_workers (contents c) = 0 /\ ptot s p PRef = 1 /\ ptot s p PKeep = 1 /\
  pool_refs s p = 0 /\ objcount (contents c) = 0.
Proof.
  intros Hc Hk. pose proof (lpool s HI p c Hc) as []. destruct (lp_new0 Hk) as [H1 H2].
  pose proof (ptot_counts s p) as C. pose proof (pct_all _ C). destruct_and!. destruct C.
  pose proof (pool_refs_bounds s HI p).
  assert (held c = false) by (destruct (held c); simpl in *; [case_bool_decide; simpl in *; lia|done]).
  assert (default_threadpool s <> Some p).
  { case_bool_decide; [|done]. destruct (held c); simpl in *; lia. }
  split_and!; try done; rewrite ?bool_decide_false in * by done; destruct (held c); simpl in *; lia.
Qed.

(** An object on which a frame has a reference keeps its pool. *)
Lemma ref_pool o c : at_ (objects s) o = Some c -> 1 <= otot s o KRef ->
  otot s o KPast5 = 0 /\ 1 <= pool_refs s (opool (contents c)).
Proof.
  intros Hc Hr. pose proof (object_refs s HI o c Hc). object_facts HI o c Hc.
  assert (1 <= refcount (contents c)).
  { destruct (held c), (shutdown (contents c) || is_simple (contents c)); simpl in *; lia. }
  destruct (Z.eqb_spec (refcount (contents c)) 0); lia.
Qed.

Lemma open_object_pool o c : at_ (objects s) o = Some c -> shutdown (contents c) = false ->
  1 <= pool_refs s (opool (contents c)).
Proof.
  intros Hc Hs. destruct (not_shutdown_alive s o c HI Hc Hs) as [_ Hd].
  pose proof (object_refs s HI o c Hc). pose proof (counts_all _ (otot_counts s o)). destruct_and!.
  destruct (otot_counts s o). lia.
Qed.

Lemma unpublished_frame p c t2 th2 f :
  at_ (pools s) p = Some c -> 1 <= ptot s p PKeep ->
  threads s !! t2 = Some th2 -> f ∈ stack th2 -> pc PRef p f = 0 -> allocates_in s p f = false.
Proof.
  intros Hc Hk Ht2 Hf Hp. destruct (unpublished p c Hc Hk) as (H1 & H2 & _ & _ & _ & _ & _ & H8 & _).
  pose proof (inv_frames _ HI t2 th2 f Ht2 Hf) as Hok.
  assert (Hne : forall x, eqz p x = 0 -> p <> x) by (intros x Hx ->; rewrite eqz_refl in Hx; done).
  destruct f; simpl in *; try done.
  - destruct Hok as ([He _] & _ & Hok). apply orb_false_intro.
    + apply bool_decide_eq_false. intros Hp2. destruct (He p Hp2) as (c2 & ? & ?). congruence.
    + destruct ph; simpl in Hp; try done; apply bool_decide_eq_false; auto.
      intros ->. destruct Hok as (_ & c2 & ? & [?|?]); congruence.
  - destruct Hok as (c2 & Hc2 & _). rewrite (proj1 (at_Some _ _ _) Hc2). apply bool_decide_eq_false.
    intros <-. pose proof (frame_otot s t2 th2 _ KRef o Ht2 Hf) as Hr. simpl in Hr. rewrite eqz_refl in Hr.
    destruct (ref_pool o c2 Hc2 Hr). lia.
Qed.

Lemma alloc_cas p :
  stack th = FAlloc k env (ACas p) :: rest -> good (alloc_step t k env (ACas p) rest a s).
Proof.
  intros Hst. pose proof (inv_shape _ HI t th Ht) as Hsh.
  pose proof (inv_frames _ HI t th _ Ht (top_in _ _ _ Hst)) as (He & Hk & Hv). simpl in Hv.
  pose proof (frame_ptot s t th _ PRef p Ht (top_in _ _ _ Hst)) as Hr. simpl in Hr. rewrite eqz_refl in Hr.
  pose proof (frame_ptot s t th _ PKeep p Ht (top_in _ _ _ Hst)) as Hkp. simpl in Hkp. rewrite eqz_refl in Hkp.
  destruct (pool_live s HI p) as [c Hc].
  { pose proof (pct_all _ (ptot_counts s p)). destruct_and!. lia. }
  destruct (unpublished p c Hc Hkp) as (H1 & H2 & H3 & H4 & H5 & H6 & H7 & H8 & H9). simpl.
  destruct (default_threadpool s) as [d|] eqn:Hd.
  - apply good_pool; [eauto|]. intros c2 Hc2. assert (c2 = c) as -> by congruence.
    open_goto s t th. update_start t th (length (objects s)) p (length (groups s)).
    + at_tac. pool_facts HI p c Hc. unfold refs', objs', left_over. rewrite !at_end. simpl. pool_split.
    + queues_tac.
    + eapply closed_frames; [done|congruence| | |].
      * intros t2 th2 f Hne Ht2 Hf. eapply unpublished_frame; [done..|].
        pose proof (total_two s t th Ht (pc PRef p) t2 th2 _ f (pc_nonneg _ p) Hne Ht2 (top_in _ _ _ Hst) Hf) as H2'.
        simpl in H2'. rewrite eqz_refl in H2'. pose proof (pc_nonneg PRef p f). unfold ptot in H6. lia.
      * destruct (default_live d Hd) as (cd & ? & _).
        intros f Hf. apply elem_of_cons in Hf as [->|Hf]; [done|].
        apply elem_of_cons in Hf as [->|Hf].
        -- split; [simpl; eauto 10|]. simpl. apply orb_false_intro; apply bool_decide_eq_false.
           ++ intros Hp. destruct (proj1 He p Hp) as (c2 & ? & ?). congruence.
           ++ congruence.
        -- assert (Hf' : f ∈ stack th) by (rewrite Hst; by right).
           split; [by eapply (inv_frames _ HI)|]. eapply unpublished_frame; [done..|].
           rewrite Hst in Hsh. simpl in Hsh. pose proof (proj1 (Forall_forall _ _) Hsh f Hf) as Hre.
           destruct f; try done. by destruct ph.
      * simpl. rewrite Hst in Hsh. simpl in Hsh. constructor; [done|]. done.
    + split; [cell_inv|]. intros i ci _ Hi <- _ Hs. pose proof (open_object_pool i ci Hi Hs). lia.
    + groups_tac.
    + timers_tac.
  - open_goto s t th. update_start t th (length (objects s)) p (length (groups s)).
    + at_tac. pool_facts HI p c Hc. unfold refs', objs', left_over. rewrite !at_end. simpl.
      rewrite (bool_decide_true (Some p = Some p)) by done.
      rewrite (bool_decide_false (default_threadpool s = Some p)) in * by congruence. rewrite H1 in *. simpl in *.
      pool_split. done.
    + queues_tac.
    + stable_tac. right. simpl. eauto 10.
    + homes_tac. 
    + groups_tac.
    + timers_tac.
Qed.

(** ** tp_threadpool_lock *)
Lemma alloc_enter p :
  stack th = FAlloc k env (AEnter p) :: rest -> good (alloc_step t k env (AEnter p) rest a s).
Proof.
  intros Hst. pose proof (inv_shape _ HI t th Ht) as Hsh.
  pose proof (inv_frames _ HI t th _ Ht (top_in _ _ _ Hst)) as (He & Hk & Hv & c & Hc & Hh). simpl.
  assert (Hhd : 1 <= b2z (held c) + b2z (bool_decide (default_threadpool s = Some p))).
  { destruct Hh as [-> | ->]; [|rewrite (bool_decide_true (Some p = Some p)) by done]; unfold b2z;
      [case_bool_decide; lia|destruct (held c); lia]. }
  assert (Hopen : pshutdown (contents c) = false) by (apply (lp_open _ _ _ _ _ _ (lpool s HI p c Hc)); done).
  apply good_pool; [eauto|]. intros c2 Hc2. assert (c2 = c) as -> by congruence.
  apply good_enter. intros _.
  destruct (Z.eqb_spec (num_workers (contents c)) 0) as [Hz|Hz]; [destruct (succeeded a) eqn:Hs|]; simpl.
  - erewrite (goto_after s _ t th _ (replicate 1 (Thread [FWorker p WStart] 0 None))); [|done|done].
    state_simpl. cbn [good].
    destruct (decide (k = TP_OBJECT_TYPE_TIMER)) as [Hkt|Hkt];
      quiet_keep t th (length (objects s)) p (length (groups s)).
    1, 3: left; simpl; unfold open_pool; eauto 10.
    all: at_tac; pool_facts HI p c Hc; unfold refs', objs', left_over; rewrite !at_end; simpl; pool_split.
  - open_goto s t th. quiet_keep t th (length (objects s)) (length (pools s)) (length (groups s)).
  - open_goto s t th.
    destruct (decide (k = TP_OBJECT_TYPE_TIMER)) as [Hkt|Hkt];
      quiet_keep t th (length (objects s)) p (length (groups s)).
    1, 3: left; simpl; unfold open_pool; eauto 10.
    all: at_tac; pool_facts HI p c Hc; unfold refs', objs', left_over; rewrite !at_end; simpl; pool_split.
Qed.

(** ** tp_timerqueue_lock *)
Lemma alloc_timer p :
  stack th = FAlloc k env (ATimer p) :: rest -> good (alloc_step t k env (ATimer p) rest a s).
Proof.
  intros Hst. pose proof (inv_shape _ HI t th Ht) as Hsh.
  pose proof (inv_frames _ HI t th _ Ht (top_in _ _ _ Hst)) as (He & Hk & Hv & Hkt & Hopen).
  cbn [alloc_step]. unfold tp_timerqueue_lock. simpl.
  apply good_enter. intros _.
  destruct (thread_running (timers s)) eqn:Hrun; [|destruct (succeeded a) eqn:Hs]; simpl.
  - open_goto s t th. update_start t th (length (objects s)) p (length (groups s)).
    + queues_tac.
    + stable_tac. left. simpl. eauto 10.
    + homes_tac.
    + groups_tac.
    + eapply timers_frame_count; [done|done|done..| |done|scan_tac]. simpl. rewrite at_end. delta_tac.
      rewrite decide_True by done. lia.
  - erewrite (goto_after s _ t th _ [Thread [FTimers (TWait true)] 0 None]); [|done|done].
    state_simpl. cbn [good]. update_start t th (length (objects s)) p (length (groups s)).
    + queues_tac.
    + stable_tac. left. simpl. eauto 10.
    + homes_tac.
    + groups_tac.
    + eapply timers_frame_count; [done|done|done..| |done|scan_tac]. simpl. rewrite at_end. delta_tac.
      rewrite decide_True by done. lia.
  - open_goto s t th. quiet_keep t th (length (objects s)) p (length (groups s)).
Qed.

(** ** tp_object_initialize, the fields *)
Lemma new_object_prio p : valid_environ env = true -> (priority (new_object k p env) < 3)%nat.
Proof.
  unfold valid_environ, new_object, env_fields. destruct env as [e|]; simpl; [|unfold PRIORITY_NORMAL; lia].
  destruct (Version e =? 3); simpl; [|unfold PRIORITY_NORMAL; lia].
  intros [H1%Z.leb_le H2%Z.leb_le]%andb_prop. lia.
Qed.

Lemma new_object_live p :
  k = TP_OBJECT_TYPE_SIMPLE \/ k = TP_OBJECT_TYPE_WORK \/ k = TP_OBJECT_TYPE_TIMER ->
  valid_environ env = true ->
  live_object false (new_object k p env)
    (fun k1 => if init_counts k1 (if is_simple (new_object k p env) then IAssert else IGroupRef) then 1 else 0).
Proof.
  intros Hk Hv. pose proof (new_object_prio p Hv) as Hpr.
  destruct Hk as [-> | [-> | ->]]; split; simpl; done || lia.
Qed.

Lemma alloc_init p :
  stack th = FAlloc k env (AInit p) :: rest -> good (alloc_step t k env (AInit p) rest a s).
Proof.
  intros Hst. pose proof (inv_shape _ HI t th Ht) as Hsh.
  pose proof (inv_frames _ HI t th _ Ht (top_in _ _ _ Hst)) as (He & Hk & Hv & Hopen).
  pose proof (new_object_prio p Hv) as Hpr. unfold alloc_step. cbv zeta.
  apply good_assert; [by apply Nat.ltb_lt|].
  pose proof (fresh_object s) as Hfr.
  open_goto s t th. set (ob := new_object k p env) in *.
  assert (Hs : is_simple ob = bool_decide (k = TP_OBJECT_TYPE_SIMPLE)).
  { destruct Hk as [-> | [-> | ->]]; done. }
  assert (Hob : initialized ob = bool_decide (k = TP_OBJECT_TYPE_TIMER)).
  { destruct Hk as [-> | [-> | ->]]; done. }
  assert (Hnp : pending_timer ob = false). { destruct Hk as [-> | [-> | ->]]; done. }
  destruct (is_simple ob) eqn:Hsi; (update_start t th (length (objects s)) p (group_or s ob);
    [ | | | queues_tac | stable_tac; right | split; cell_inv | groups_tac | ]).
  all: match goal with
    | |- object_ok _ _ => at_tac;
        match goal with |- context [FInit _ ?ph] => sums (fun k1 => if init_counts k1 ph then 1 else 0) end
    | |- pool_ok _ _ _ _ _ =>
        destruct Hopen as (c & Hc & Hps); at_tac; pool_facts HI p c Hc; unfold refs', objs', left_over, T'; at_tac;
        rewrite !Hfr by done; simpl; pool_split
    | |- group_ok _ _ _ => eapply loc_group_keep; [done|done|by other_tac|]; at_tac; unfold T'; simpl;
        rewrite Hfr by done; delta_tac; rewrite eqz_refl; lia
    | |- frame_ok _ _ _ => simpl; eexists; split; [apply at_app_end|]; split; [done|]; intros g Hg;
        by apply (proj2 He)
    | |- home_ok _ _ => by intros _ _
    | |- open_pool _ _ => done
    | |- member_of _ _ _ <-> _ =>
        unfold member_of; simpl; rewrite at_app_end, at_end; split; intros (? & ? & ? & ?); simplify_eq; done
    | |- timers_ok _ =>
        eapply timers_frame_count; [done|done|done..| | |scan_tac]; at_tac;
        [ delta_tac; rewrite Hob; unfold bool_decide; case_decide; simpl; lia
        | split; intros (? & ? & Hpt); simplify_eq; simpl in Hpt; congruence ]
    end.
  all: eapply object_ok_ext; [|pose proof (new_object_live p Hk Hv) as HL; fold ob in HL; rewrite Hsi in HL; exact HL].
  all: intros k1; rewrite Hfr; done.
Qed.

End Alloc.

(** ** tp_object_submit *)
Section Submitting.
Context (s : state) (HI : Inv s) (t : nat) (th : thread) (Ht : threads s !! t = Some th).

(** The assertions of tp_object_submit *)
Lemma assert_good o c r :
  at_ (objects s) o = Some c -> shutdown (contents c) = false -> open_pool s (opool (contents c)) ->
  good r -> good (submit_assert o s r).
Proof.
  intros Hc Hs (cp & Hcp & Hp) Hr. apply good_object; [eauto|]. intros c2 Hc2.
  assert (c2 = c) as -> by congruence. apply good_assert; [by rewrite Hs|].
  apply good_pool; [eauto|]. intros cp2 Hcp2. assert (cp2 = cp) as -> by congruence.
  apply good_assert; [by rewrite Hp|done].
Qed.

(** An object that the client has a pointer to *)
Lemma held_open o c : at_ (objects s) o = Some c -> held c = true ->
  is_simple (contents c) = false /\ shutdown (contents c) = false /\ open_pool s (opool (contents c)).
Proof.
  intros Hc Hh. pose proof (live s HI o c Hc) as L. destruct (lo_held _ _ _ L Hh) as [Hs _].
  assert (is_simple (contents c) = false) as Hsi.
  { destruct (is_simple (contents c)) eqn:E; [|done]. destruct (lo_simple _ _ _ L E). congruence. }
  split_and!; [done..|]. destruct (inv_home _ HI o c Hc Hsi Hs) as (cp & ? & ?). by exists cp.
Qed.

Lemma fsubmit_assert o rest :
  stack th = FSubmit o false :: rest ->
  good (submit_assert o s (Next (goto t (FSubmit o true :: rest) s) [])).
Proof.
  intros Hst. pose proof (inv_shape _ HI t th Ht) as Hsh.
  pose proof (inv_frames _ HI t th _ Ht (top_in _ _ _ Hst)) as (c & Hc & Hh & _).
  destruct (held_open o c Hc Hh) as (Hsi & Hs & Ho). eapply assert_good; [done..|].
  open_goto s t th. quiet_keep t th (length (objects s)) (length (pools s)) (length (groups s)).
  left. by exists c.
Qed.

Lemma fsubmit o rest a :
  stack th = FSubmit o true :: rest ->
  good (submit_section t o a (fun s => Next (goto t rest s) [ESubmit o]) s).
Proof.
  intros Hst. pose proof (inv_shape _ HI t th Ht) as Hsh.
  pose proof (inv_frames _ HI t th _ Ht (top_in _ _ _ Hst)) as (c & Hc & Hh & _).
  destruct (held_open o c Hc Hh) as (Hsi & Hs & Ho). rewrite Hst in Hsh. simpl in Hsh.
  eapply (submit_good s HI t th Ht o c Hc _ rest rest 0 Hst); try done.
  - intros k i. rewrite stot_cons. destruct k; simpl; lia.
  - by rewrite Hsi.
  - by apply resting_shape.
  - intros x Hx. left. by right.
Qed.

End Submitting.

(** ** tp_object_initialize *)
Section Init.
Context (s : state) (HI : Inv s) (t : nat) (th : thread) (Ht : threads s !! t = Some th).
Context (o : nat) (rest : list frame) (a : answers).

Lemma init_refs ph : stack th = FInit o ph :: rest ->
  1 <= otot s o KRef /\ 1 <= otot s o KInit.
Proof.
  intros Hst. pose proof (frame_otot s t th _ KRef o Ht (top_in _ _ _ Hst)) as H1.
  pose proof (frame_otot s t th _ KInit o Ht (top_in _ _ _ Hst)) as H2. simpl in *. rewrite eqz_refl in *. done.
Qed.

Lemma init_assert :
  stack th = FInit o IAssert :: rest -> good (init_step t o IAssert rest a s).
Proof.
  intros Hst. pose proof (inv_shape _ HI t th Ht) as Hsh.
  pose proof (inv_frames _ HI t th _ Ht (top_in _ _ _ Hst)) as (c & Hc & Hopen & Hg).
  pose proof (frame_otot s t th _ KEarly o Ht (top_in _ _ _ Hst)) as Hk. simpl in Hk. rewrite eqz_refl in Hk.
  destruct (lo_early _ _ _ (live s HI o c Hc) Hk) as [Hs Hsi].
  eapply assert_good; [done..|]. open_goto s t th.
  quiet_keep t th o (opool (contents c)) (group_or s (contents c)).
  left. by exists c.
Qed.

Lemma init_submit :
  stack th = FInit o ISubmit :: rest -> good (init_step t o ISubmit rest a s).
Proof.
  intros Hst. pose proof (inv_shape _ HI t th Ht) as Hsh.
  pose proof (inv_frames _ HI t th _ Ht (top_in _ _ _ Hst)) as (c & Hc & Hopen & Hg).
  pose proof (frame_otot s t th _ KEarly o Ht (top_in _ _ _ Hst)) as Hk. simpl in Hk. rewrite eqz_refl in Hk.
  destruct (lo_early _ _ _ (live s HI o c Hc) Hk) as [Hs Hsi]. rewrite Hst in Hsh. simpl in Hsh.
  eapply (submit_good s HI t th Ht o c Hc _ rest _ (-1) Hst); try done.
  - intros k i. rewrite !stot_cons. destruct k; simpl; lia.
  - by rewrite Hsi.
  - intros x Hx. apply elem_of_cons in Hx as [->|Hx]; [right; by exists c|left; by right].
Qed.

Definition dnone (n m : Z) (k : okind) : Z := match k with KNoGroup => n | KOne => m | _ => 0 end.

Lemma init_group_ref :
  stack th = FInit o IGroupRef :: rest -> good (init_step t o IGroupRef rest a s).
Proof.
  intros Hst. pose proof (inv_shape _ HI t th Ht) as Hsh.
  pose proof (inv_frames _ HI t th _ Ht (top_in _ _ _ Hst)) as (c & Hc & Hopen & Hg).
  apply good_object; [eauto|]. intros c2 Hc2. assert (c2 = c) as -> by congruence.
  destruct (ogroup (contents c)) as [g|] eqn:Hgr.
  - destruct (Hg g eq_refl) as (cg & Hcg & Hh). apply good_group; [eauto|].
    intros cg2 Hcg2. assert (cg2 = cg) as -> by congruence. open_goto s t th.
    quiet_keep t th o (opool (contents c)) g.
    + left. exists c. by rewrite Hgr.
    + at_tac. sums (dnone (-1) 0). object_facts HI o c Hc.
      split; simpl; rewrite ?Z.add_0_r; assumption.
    + at_tac. destruct (lgroup s HI g cg Hcg). split; simpl; [|done].
      unfold grefs', left_group, in_group. at_tac. rewrite Hgr, eqz_refl. unfold T'. delta_tac.
      rewrite eqz_refl. lia.
  - open_goto s t th. quiet_keep t th o (opool (contents c)) (group_or s (contents c)).
    + left. by exists c.
    + at_tac. sums (dnone (-1) (-1)). object_facts HI o c Hc.
      split; simpl; rewrite ?Z.add_0_r; try assumption. lia.
    + eapply loc_group_keep; [done|done|by other_tac|]. at_tac. unfold left_group, in_group. by rewrite Hgr.
Qed.

(** An object that is about to join its group has a reference on it and is not
    a member. *)
Lemma joining c g :
  stack th = FInit o IGroupAdd :: rest -> at_ (objects s) o = Some c ->
  ogroup (contents c) = Some g ->
  otot s o KOne = 1 /\ otot s o KDestroy = 0 /\ otot s o KNoGroup = 0 /\ is_group_member (contents c) = false.
Proof.
  intros Hst Hc Hg. destruct (init_refs _ Hst) as [Hr Hi].
  pose proof (frame_otot s t th _ KOne o Ht (top_in _ _ _ Hst)) as Ho. simpl in Ho. rewrite eqz_refl in Ho.
  pose proof (total_slack (fun f => oc KPast2 o f + oc KOne o f) (oc KNoGroup o) (threads s) t th
    _ ltac:(clear; oc_cases) Ht (top_in _ _ _ Hst)) as Hsl.
  rewrite total_add in Hsl. simpl in Hsl. rewrite eqz_refl in Hsl.
  fold (otot s o KPast2) (otot s o KOne) (otot s o KNoGroup) in Hsl.
  object_facts HI o c Hc.
  assert (1 <= refcount (contents c)).
  { destruct (held c), (shutdown (contents c) || is_simple (contents c)); simpl in *; lia. }
  rewrite (proj2 (Z.eqb_neq (refcount (contents c)) 0)) in lo_destroy0 by lia.
  destruct (is_group_member (contents c)); simpl in *; split_and!; lia || done.
Qed.

Lemma init_group_add :
  stack th = FInit o IGroupAdd :: rest -> good (init_step t o IGroupAdd rest a s).
Proof.
  intros Hst. pose proof (inv_shape _ HI t th Ht) as Hsh.
  pose proof (inv_frames _ HI t th _ Ht (top_in _ _ _ Hst)) as (c & Hc & Hopen & Hg).
  apply good_object; [eauto|]. intros c2 Hc2. assert (c2 = c) as -> by congruence.
  destruct (ogroup (contents c)) as [g|] eqn:Hgr; [|done].
  destruct (joining c g Hst Hc Hgr) as (Ho & Hd & Hn & Hm).
  apply good_group; [by eapply (object_group s HI)|]. intros cg Hcg. apply good_enter. intros Hlock.
  eapply (group_lock s HI t th Ht) in Hlock; [|done..]. open_goto s t th.
  update_start t th o (opool (contents c)) g.
  - at_tac. sums (dnone 0 (-1)). object_facts HI o c Hc.
    split; simpl; autorewrite with tp; rewrite ?Z.add_0_r; try assumption; [lia|].
    intros _. split; [lia|by rewrite Hgr].
  - at_tac. destruct (lgroup s HI g cg Hcg). split; simpl; [|done].
    unfold grefs', left_group, in_group. at_tac. simpl. rewrite Hgr, eqz_refl. unfold T'. delta_tac. lia.
  - queues_tac.
  - stable_tac. left. by exists c.
  - homes_tac.
  - split; [|calm_tac]. cell_inv. destruct (inv_members _ HI g cg Hcg) as (l & r & Hlr & Hnd & Hr & Hl).
    rewrite Hlock in Hl. subst l. exists [], (r ++ [o]). simpl in *. rewrite Hlr, Hlock.
    assert (o ∉ r) as Hno.
    { rewrite Hr. intros (c2 & ? & _ & ?). congruence. }
    split_and!; [done| | |done].
    + apply NoDup_app. split_and!; [done| |apply NoDup_singleton]. intros x Hx ->%list_elem_of_singleton. done.
    + intros x. rewrite elem_of_app, list_elem_of_singleton, Hr. unfold member_of. simpl.
      destruct (decide (x = o)) as [->|Hx].
      * erewrite at_insert by done. split; [|auto]. intros _. by eexists.
      * rewrite at_insert_ne by done. naive_solver.
  - timers_tac.
Qed.

Definition dinit (n : Z) (k : okind) : Z := match k with KRef => n | KInit => -1 | _ => 0 end.

Lemma init_finish :
  stack th = FInit o IFinish :: rest -> good (init_step t o IFinish rest a s).
Proof.
  intros Hst. pose proof (inv_shape _ HI t th Ht) as Hsh. destruct (init_refs _ Hst) as [Hr Hi].
  pose proof (inv_frames _ HI t th _ Ht (top_in _ _ _ Hst)) as (c & Hc & Hopen & _).
  apply good_object; [eauto|]. intros c2 Hc2. assert (c2 = c) as -> by congruence.
  destruct (is_simple (contents c)) eqn:Hsi; open_goto s t th.
  - quiet_keep t th o (opool (contents c)) (group_or s (contents c)).
    at_tac. sums (dinit 0). object_facts HI o c Hc.
    split; simpl; autorewrite with tp; rewrite ?Z.add_0_r; rewrite ?Hsi in *; try assumption; try done.
    + intros Hh. destruct (lo_simple0 eq_refl). congruence.
    + intros Ht2 Hle. apply lo_owned0; [done|lia].
  - object_facts HI o c Hc. destruct (lo_init0 Hi Hsi) as (Hh & Hs & Hi1 & Hk1).
    update_start t th o (opool (contents c)) (group_or s (contents c)).
    + at_tac. sums (dinit (-1)).
      split; simpl; autorewrite with tp; rewrite ?Z.add_0_r; rewrite ?Hsi, ?Hh in *; simpl in *; try assumption; try done; try lia.
      * intros _. split_and!; [done|lia..].
      * intros Ht2 _. apply lo_owned0; [done|lia].
    + queues_tac.
    + stable_tac.
    + homes_tac.
    + groups_tac. unfold member_of. simpl. at_tac. split; intros (? & ? & ? & ?); simplify_eq; by eexists.
    + timers_tac.
Qed.
End Init.
End TpAlloc.
