(* ===== verification/TpWorker.v ===== *)
(** * The thread pool: workers

    threadpool_worker_proc and tp_object_execute keep the invariant: a worker
    takes the callback of the first list that is not empty, and terminates only
    when the pool still has a worker for its objects. *)
From S2P Require Import Prelude Threadpool TpInv TpUpdate TpSteps TpRelease TpSubmit TpAlloc.

Module TpWorker.
Import Tp TpInv TpUpdate TpSteps TpRelease TpSubmit TpAlloc.

(** ** Steps that wake threads or write to an instance *)
Inductive relabel : frame -> frame -> Prop :=
| rl_same f : relabel f f
| rl_wait o b b' : (b' = true -> b = true) -> relabel (FWait o b) (FWait o b')
| rl_members g c b b' l : (b' = true -> b = true) ->
    relabel (FMembers g c (MWait b l)) (FMembers g c (MWait b' l))
| rl_run p o i i' : associated i' = associated i ->
    relabel (FWorker p (WRun o i)) (FWorker p (WRun o i'))
| rl_final p o i i' : associated i' = associated i ->
    relabel (FWorker p (WFinal o i)) (FWorker p (WFinal o i')).

Lemma relabel_oc k o f f' : relabel f f' -> oc k o f' = oc k o f.
Proof. destruct 1 as [| | |? ? ? ? E|? ? ? ? E]; simpl; rewrite ?E; done. Qed.

Lemma relabel_pc k p f f' : relabel f f' -> pc k p f' = pc k p f.
Proof. by destruct 1. Qed.

Lemma relabel_gc g f f' : relabel f f' -> gc g f' = gc g f.
Proof. by destruct 1. Qed.

Lemma relabel_tc f f' : relabel f f' -> tc f' = tc f.
Proof. by destruct 1. Qed.

Lemma relabel_resting f f' : relabel f f' -> resting f = true -> resting f' = true.
Proof.
  destruct 1 as [|o b b' Hb|g c b b' l Hb| |]; try done; simpl;
    destruct b, b'; simpl; try done; intros; exfalso; specialize (Hb eq_refl); done.
Qed.

Definition relabelled (th th' : thread) : Prop := Forall2 relabel (stack th) (stack th').

Section Relabel.
Context (s : state) (HI : Inv s) (ths : list thread) (Hths : Forall2 relabelled (threads s) ths).
Notation s' := (set_threads ths s).

Lemma total_relabel F : (forall f f', relabel f f' -> F f' = F f) -> total F ths = total F (threads s).
Proof.
  intros HF. unfold total. induction Hths as [|th th' l l' Hth Hl IH]; simpl; [done|].
  rewrite (IH Hl). f_equal. unfold stot. clear -Hth HF. unfold relabelled in Hth.
  induction Hth as [|f f' st st' Hf Hst IH]; simpl; [done|]. rewrite IH, (HF f f' Hf). done.
Qed.

Lemma otot_relabel o k : otot s' o k = otot s o k.
Proof. apply total_relabel, relabel_oc. Qed.

Lemma relabel_lookup t th' : ths !! t = Some th' ->
  exists th, threads s !! t = Some th /\ relabelled th th'.
Proof. intros H. destruct (Forall2_lookup_r _ _ _ t th' Hths H) as (th & ? & ?). eauto. Qed.

Lemma relabel_top g l r t th f rest :
  threads s !! t = Some th -> stack th = f :: rest -> iterates g l r f ->
  exists th' rest', ths !! t = Some th' /\ stack th' = f :: rest'.
Proof.
  intros Ht Hst Hit. destruct (Forall2_lookup_l _ _ _ t th Hths Ht) as (th' & Ht' & Hr).
  unfold relabelled in Hr. rewrite Hst in Hr. destruct (stack th') as [|f' st'] eqn:Est; inversion Hr as [|x1 x2 x3 x4 Hf Hst']; subst.
  exists th', st'. split; [done|]. rewrite Est. f_equal. destruct Hit as (c & [->|(x & l' & _ & ->)]); by inversion Hf.
Qed.

Theorem inv_relabel : Inv s'.
Proof.
  split; simpl.
  - intros o. eapply object_ok_ext; [intros; symmetry; apply otot_relabel|]. apply (inv_object _ HI).
  - intros p. eapply pool_ok_ext; [intros; symmetry; apply total_relabel, relabel_pc|].
    assert (pool_refs s' p = pool_refs s p /\ pool_objs s' p = pool_objs s p) as [-> ->].
    { unfold pool_refs, pool_objs, osum. split; apply zsum_map_ext; intros i _; unfold oterm; simpl;
        destruct (at_ (objects s) i); rewrite ?otot_relabel; done. }
    apply (inv_pool _ HI).
  - intros g. rewrite (total_relabel (gc g)) by apply relabel_gc.
    assert (group_refs s' g = group_refs s g) as ->.
    { unfold group_refs, osum. apply zsum_map_ext; intros i _; unfold oterm; simpl.
      destruct (at_ (objects s) i); rewrite ?otot_relabel; done. }
    apply (inv_group _ HI).
  - apply (inv_queue _ HI).
  - apply (inv_queued _ HI).
  - apply (inv_home _ HI).
  - intros g c Hc. destruct (inv_members _ HI g c Hc) as (l & r & H1 & H2 & H3 & H4). exists l, r.
    split_and!; [done..|]. destruct (gcs (contents c)) as [t|]; [|done].
    destruct H4 as (th & f & rest & Ht & Hst & Hit).
    destruct (relabel_top g l r t th f rest Ht Hst Hit) as (th' & rest' & ? & ?). by exists th', f, rest'.
  - destruct (inv_timers _ HI) as [H1 H2 H3 H4]. split; simpl; [|done..|].
    + rewrite (total_relabel tc) by apply relabel_tc. done.
    + intros t Ht. destruct (H4 t Ht) as (th & ph & Hth & Hst & Hsc).
      destruct (Forall2_lookup_l _ _ _ t th Hths Hth) as (th' & Ht' & Hr).
      unfold relabelled in Hr. rewrite Hst in Hr. exists th', ph. split_and!; [done| |done].
      destruct (stack th') as [|f' st']; inversion Hr as [|x1 x2 x3 x4 Hf Hn]; subst.
      inversion Hn; subst. by inversion Hf.
  - intros t th' f' Ht Hf'. destruct (relabel_lookup t th' Ht) as (th & Hth & Hr).
    apply list_elem_of_lookup in Hf' as (i & Hi). destruct (Forall2_lookup_r _ _ _ i f' Hr Hi) as (f & Hf & Hrel).
    pose proof (inv_frames _ HI t th f Hth ltac:(by eapply list_elem_of_lookup_2)) as Hok.
    destruct Hrel; exact Hok.
  - intros t th' Ht. destruct (relabel_lookup t th' Ht) as (th & Hth & Hr).
    pose proof (inv_shape _ HI t th Hth) as Hsh. unfold relabelled in Hr.
    destruct Hr as [|f f' st st' Hf Hst]; [done|].
    assert (Forall (fun f => resting f = true) st -> Forall (fun f => resting f = true) st') as Hst'.
    { clear -Hst. induction Hst; inversion 1; constructor; eauto using relabel_resting. }
    destruct Hf; try (by apply Hst'). destruct f; try (by apply Hst'). simpl in *. subst. by inversion Hst.
Qed.

End Relabel.

Lemma wake_relabel o grp f : relabel f (wake_frame o grp f).
Proof.
  destruct f; simpl; try constructor.
  - case_decide; constructor. by destruct asleep.
  - destruct ph; try constructor. destruct todo as [|x l]; [constructor|]. case_decide; constructor.
    by destruct asleep.
Qed.

Lemma inv_wake_all o grp s : Inv s -> Inv (wake_all o grp s).
Proof.
  intros HI. apply inv_relabel; [done|]. apply Forall2_fmap_r, Forall_Forall2_diag, Forall_true.
  intros th. unfold relabelled. simpl. apply Forall2_fmap_r, Forall_Forall2_diag, Forall_true.
  intros f. apply wake_relabel.
Qed.

Lemma inv_wake_if b o grp s : Inv s -> Inv (wake_if b o grp s).
Proof. destruct b; simpl; [apply inv_wake_all|done]. Qed.

(** ** Taking an object out of the lists *)
Lemma concat_remove o (qs : list (list nat)) :
  concat (map (list_remove o) qs) = list_remove o (concat qs).
Proof.
  unfold list_remove. induction qs as [|q qs IH]; simpl; [done|]. by rewrite IH, filter_app.
Qed.

Lemma remove_perm o l : NoDup l -> o ∈ l -> l ≡ₚ o :: list_remove o l.
Proof.
  intros Hn Ho. apply NoDup_Permutation; [done| |].
  - constructor; [rewrite elem_list_remove; tauto|by apply NoDup_list_remove].
  - intros x. rewrite elem_of_cons, elem_list_remove. destruct (decide (x = o)); naive_solver.
Qed.

Lemma next_item_elem pl o : threadpool_get_next_item pl = Some o -> o ∈ concat (queues pl).
Proof.
  unfold threadpool_get_next_item. destruct (queues pl) as [|[|x l] [|[|y l2] [|[|z l3] r]]]; intros [=]; subst.
  all: simpl; rewrite ?elem_of_cons, ?elem_of_app, ?elem_of_cons; auto.
Qed.

Lemma next_item_none pl : length (queues pl) = 3%nat -> threadpool_get_next_item pl = None ->
  concat (queues pl) = [].
Proof.
  unfold threadpool_get_next_item. by destruct (queues pl) as [|[|x l] [|[|y l2] [|[|z l3] [|]]]].
Qed.

(** The lists after the callbacks of an object have been taken out, and the
    object back in if there are more. *)
Definition requeue (o : nat) (ob : object) (more : bool) (pl : pool) : pool :=
  let pl := set_queues (map (list_remove o) (queues pl)) pl in
  if more then tp_object_prio_queue o ob pl else pl.

Lemma requeue_lookup o ob more pl j :
  queues (requeue o ob more pl) !! j =
    (fun q => list_remove o q ++ (if more && bool_decide (j = priority ob) then [o] else []))
    <$> queues pl !! j.
Proof.
  unfold requeue, tp_object_prio_queue. destruct more; simpl.
  - destruct (decide (j = priority ob)) as [->|Hj].
    + rewrite list_lookup_alter_eq, list_lookup_fmap, bool_decide_true by done. by destruct (queues pl !! _).
    + rewrite list_lookup_alter_ne, list_lookup_fmap, bool_decide_false by done.
      destruct (queues pl !! j); simpl; [by rewrite app_nil_r|done].
  - rewrite list_lookup_fmap. destruct (queues pl !! j); simpl; [by rewrite app_nil_r|done].
Qed.

Section Requeue.
Context (s : state) (HI : Inv s) (o p : nat) (c : cell object) (cp : cell pool) (more : bool).
Context (Hc : at_ (objects s) o = Some c) (Hcp : at_ (pools s) p = Some cp) (Hp : opool (contents c) = p).
Notation pl' := (requeue o (contents c) more (contents cp)).

Lemma requeue_perm :
  concat (queues pl') ≡ₚ (if more then [o] else []) ++ list_remove o (concat (queues (contents cp))).
Proof.
  unfold requeue, tp_object_prio_queue. rewrite <- concat_remove. destruct more; simpl; [|done].
  destruct (priority_list s p cp o c HI Hcp Hc) as (q & Hq).
  rewrite (concat_alter _ _ (list_remove o q)); [done|]. by rewrite list_lookup_fmap, Hq.
Qed.

Lemma requeue_qlen : o ∈ concat (queues (contents cp)) ->
  qlen pl' = qlen (contents cp) - 1 + b2z more.
Proof.
  intros Ho. destruct (inv_queue _ HI p cp Hcp) as (_ & Hn & _). unfold qlen.
  pose proof (Permutation_length requeue_perm) as H1. pose proof (Permutation_length (remove_perm o _ Hn Ho)) as H2.
  rewrite length_app in H1. rewrite H1. simpl in H2. rewrite H2. destruct more; simpl; lia.
Qed.

(** The object after the step has callbacks pending if it went back in. *)
Lemma requeue_queues t th' new c' h pl2 O G d tq dl :
  O = <[o := Some c']> (objects s) -> queues pl2 = queues pl' ->
  opool (contents c') = p -> priority (contents c') = priority (contents c) ->
  (0 < num_pending_callbacks (contents c') <-> more = true) ->
  queues_ok s t th' new o p O (<[p := Some (Cell h pl2)]> (pools s)) G d tq dl.
Proof.
  intros -> Hq Hp' Hpr Hm. destruct (inv_queue _ HI p cp Hcp) as (Hl & Hn & He). split.
  - cell_inv. unfold queue_ok. rewrite Hq. split_and!.
    + unfold requeue, tp_object_prio_queue. destruct more; simpl; rewrite ?length_alter, length_map; done.
    + rewrite requeue_perm. destruct more; simpl; [|by apply NoDup_list_remove].
      constructor; [rewrite elem_list_remove; tauto|by apply NoDup_list_remove].
    + intros j q x Hj Hx. rewrite requeue_lookup in Hj. destruct (queues (contents cp) !! j) as [q0|] eqn:E; [|done].
      injection Hj as <-. apply elem_of_app in Hx as [[Hx Hxo]%elem_list_remove|Hx].
      * simpl. rewrite at_insert_ne by done. eauto.
      * destruct (more && bool_decide (j = priority (contents c))) eqn:Eb; [|by apply elem_of_nil in Hx].
        apply list_elem_of_singleton in Hx as ->. apply andb_prop in Eb as [Eb ->%bool_decide_eq_true].
        exists c'. simpl. erewrite at_insert by done. split_and!; [done..|]. by apply Hm.
  - cell_inv. intros Hn2. apply Hm in Hn2. rewrite Hp'. eexists. simpl. erewrite at_insert by done.
    destruct (priority_list s p cp o c HI Hcp Hc) as (q & Hqq).
    exists (list_remove o q ++ [o]). split_and!; [done| |rewrite elem_of_app; right; left].
    simpl. rewrite Hq, requeue_lookup, Hpr, Hqq, Hn2, bool_decide_true by done. done.
  - intros c2 j q x Hc2 Hj Hx Hxo. assert (c2 = cp) as -> by congruence. eexists.
    erewrite at_insert by done. eexists. split; [done|]. simpl. rewrite Hq, requeue_lookup, Hj. split; [done|].
    apply elem_of_app. left. by apply elem_list_remove.
Qed.

End Requeue.

(** ** threadpool_worker_proc *)
Definition idle (ph : wphase) : bool :=
  match ph with WStart | WLoop | WSleep => true | _ => false end.

Definition dstart (k : okind) : Z := match k with KRef | KRun | KAssoc => 1 | _ => 0 end.

Lemma execute_begin_eq h ob T : live_object h ob T ->
  execute_begin ob = Some (set_callbacks (num_pending_callbacks ob - 1) (num_running_callbacks ob + 1)
    (num_associated_callbacks ob + 1) ob).
Proof. intros L. pose proof (lo_kind _ _ _ L) as H. unfold execute_begin. by destruct (u ob). Qed.

Section Worker.
Context (s : state) (HI : Inv s) (t : nat) (th : thread) (Ht : threads s !! t = Some th).
Context (p : nat) (rest : list frame) (a : answers).

Lemma worker_pool ph : stack th = FWorker p ph :: rest ->
  1 <= ptot s p PWorker /\ exists c, at_ (pools s) p = Some c.
Proof.
  intros Hst. pose proof (frame_ptot s t th _ PWorker p Ht (top_in _ _ _ Hst)) as Hr. simpl in Hr.
  rewrite eqz_refl in Hr. split; [done|]. apply (pool_live s HI).
  pose proof (pct_all _ (ptot_counts s p)). destruct_and!. lia.
Qed.

Lemma worker_exits ph c :
  stack th = FWorker p ph :: rest -> idle ph = true -> at_ (pools s) p = Some c ->
  qlen (contents c) = 0 ->
  (pshutdown (contents c) = true \/ 2 <= num_workers (contents c) \/ objcount (contents c) = 0) ->
  forall cs, Inv (goto t (FPoolRelease p :: rest)
         (put_pool p (held c) (set_pcs cs (set_workers (num_workers (contents c) - 1)
            (num_busy_workers (contents c)) (contents c))) s)).
Proof.
  intros Hst Hph Hc Hq Hw cs. pose proof (inv_shape _ HI t th Ht) as Hsh.
  destruct (worker_pool ph Hst) as [Hp _]. open_goto s t th.
  destruct ph; try done; quiet_keep t th (length (objects s)) p (length (groups s)).
  all: at_tac; pool_facts HI p c Hc; unfold refs', objs', left_over; rewrite !at_end; simpl; pool_split.
  all: destruct Hw as [Hw|Hw]; [|lia]; intros [[? _]|?]; [congruence|lia].
Qed.

Lemma worker_sleeps ph c cs :
  stack th = FWorker p ph :: rest -> idle ph = true -> at_ (pools s) p = Some c ->
  Inv (goto t (FWorker p WSleep :: rest) (put_pool p (held c) (set_pcs cs (contents c)) s)).
Proof.
  intros Hst Hph Hc. pose proof (inv_shape _ HI t th Ht) as Hsh. open_goto s t th.
  destruct ph; try done; quiet_keep t th (length (objects s)) p (length (groups s)).
  all: at_tac; pool_facts HI p c Hc; unfold refs', objs', left_over; rewrite !at_end; simpl; pool_split.
Qed.

(** The worker takes the first object. *)
Lemma worker_takes ph c o co i cs :
  stack th = FWorker p ph :: rest -> idle ph = true -> at_ (pools s) p = Some c ->
  o ∈ concat (queues (contents c)) -> at_ (objects s) o = Some co -> opool (contents co) = p ->
  associated i = true -> 0 < num_pending_callbacks (contents co) ->
  Inv (goto t (FWorker p (WRun o i) :: rest)
    (put_object o (held co) (set_callbacks (num_pending_callbacks (contents co) - 1)
        (num_running_callbacks (contents co) + 1) (num_associated_callbacks (contents co) + 1) (contents co))
      (put_pool p (held c) (set_pcs cs
        (requeue o (contents co) (1 <? num_pending_callbacks (contents co)) (contents c))) s))).
Proof.
  intros Hst Hph Hc Hq Hco Hop Hi Hn. pose proof (inv_shape _ HI t th Ht) as Hsh. open_goto s t th.
  pose proof (requeue_qlen s HI o p co c (1 <? num_pending_callbacks (contents co)) Hco Hc Hop Hq) as Hql.
  assert (Hps : forall b, pshutdown (requeue o (contents co) b (contents c)) = pshutdown (contents c) /\
    num_workers (requeue o (contents co) b (contents c)) = num_workers (contents c) /\
    objcount (requeue o (contents co) b (contents c)) = objcount (contents c) /\
    prefcount (requeue o (contents co) b (contents c)) = prefcount (contents c) /\
    num_busy_workers (requeue o (contents co) b (contents c)) = num_busy_workers (contents c) + b2z b)
    by (intros []; unfold requeue, tp_object_prio_queue; simpl; split_and!; lia || done).
  destruct (Hps (1 <? num_pending_callbacks (contents co))) as (P1 & P2 & P3 & P4 & P5).
  assert (0 <= b2z (1 <? num_pending_callbacks (contents co)) <= 1) by (unfold b2z; destruct (1 <? _); lia).
  destruct i as [b l tk]. simpl in Hi. subst b.
  destruct ph; try done; quiet_start t th o p (group_or s (contents co)).
  all: match goal with
    | |- object_ok _ _ => at_tac; sums dstart; object_facts HI o co Hco;
        split; simpl; autorewrite with tp; rewrite ?Z.add_0_r; try assumption; try lia;
        [ intros Hs; specialize (lo_keep0 Hs); destruct (is_simple (contents co)); lia
        | intros Hs; destruct (lo_simple0 Hs); split; [done|lia] ]
    | |- pool_ok _ _ _ _ _ => at_tac; pool_facts HI p c Hc; unfold refs', objs', left_over, T'; at_tac; simpl;
        split; simpl; autorewrite with tp; rewrite ?P1, ?P2, ?P3, ?P4, ?P5, ?Hql; delta_tac; rewrite ?eqz_refl;
        rewrite ?Z.add_0_r; try assumption; try lia; pool_tail
    | |- frame_ok _ _ _ \/ _ => left; by exists co
    | |- queues_ok _ _ _ _ _ _ _ _ _ _ _ _ => eapply requeue_queues; try done; simpl; rewrite Z.ltb_lt; lia
    end.
Qed.

Lemma worker_loop_good ph c :
  stack th = FWorker p ph :: rest -> idle ph = true -> at_ (pools s) p = Some c ->
  good (worker_loop t p (held c) (contents c) rest s).
Proof.
  intros Hst Hph Hc. destruct (inv_queue _ HI p c Hc) as (Hl & Hn & He). unfold worker_loop.
  destruct (threadpool_get_next_item (contents c)) as [o|] eqn:Hnext.
  - pose proof (next_item_elem _ _ Hnext) as Ho.
    destruct (proj1 (elem_concat _ _) Ho) as (j & q & Hj & Hx).
    destruct (He j q o Hj Hx) as (co & Hco & Hop & _ & Hpn).
    apply good_object; [eauto|]. intros c2 Hc2. assert (c2 = co) as -> by congruence.
    apply good_assert; [by apply Z.ltb_lt|]. cbv zeta.
    rewrite (execute_begin_eq _ _ _ (live s HI o co Hco)). by eapply worker_takes.
  - assert (Hq : qlen (contents c) = 0) by (unfold qlen; by rewrite next_item_none).
    destruct (pshutdown (contents c)) eqn:Hs.
    + by eapply worker_exits; [..|left].
    + by eapply worker_sleeps.
Qed.

Lemma worker_start ph :
  stack th = FWorker p ph :: rest -> ph = WStart \/ ph = WLoop ->
  good (threadpool_worker_proc t p ph rest a s).
Proof.
  intros Hst Hph. destruct (worker_pool ph Hst) as [_ Hp].
  assert (good (with_pool s p (fun h pl => enter (pcs pl) t (worker_loop t p h pl rest s)))) as Hg.
  { apply good_pool; [done|]. intros c Hc. apply good_enter. intros _.
    eapply worker_loop_good; [done| |done]. by destruct Hph as [-> | ->]. }
  by destruct Hph as [-> | ->].
Qed.

Lemma worker_sleep :
  stack th = FWorker p WSleep :: rest -> good (threadpool_worker_proc t p WSleep rest a s).
Proof.
  intros Hst. destruct (worker_pool _ Hst) as [_ Hp]. apply good_pool; [done|]. intros c Hc.
  apply good_enter. intros _. destruct (timed_out a && may_terminate (contents c)) eqn:Hm.
  2: { by eapply worker_loop_good. }
  apply andb_prop in Hm as [_ [Hq%bool_decide_eq_true Hw]%andb_prop].
  destruct (inv_queue _ HI p c Hc) as (Hl & _).
  change (set_workers (num_workers (contents c) - 1) (num_busy_workers (contents c)) (contents c))
    with (set_pcs (pcs (contents c)) (set_workers (num_workers (contents c) - 1) (num_busy_workers (contents c)) (contents c))).
  eapply worker_exits; [done|done|done|unfold qlen; by rewrite next_item_none|]. right.
  apply orb_prop in Hw as [Hw%Z.ltb_lt|[_ Hw%Z.eqb_eq]%andb_prop]; [left; lia|by right].
Qed.

(** The object whose callback the worker runs *)
Lemma worker_object ph o i :
  stack th = FWorker p ph :: rest -> ph = WRun o i \/ ph = WFinal o i \/ ph = WEnd o i ->
  1 <= otot s o KRef /\ 1 <= otot s o KRun /\ exists c, at_ (objects s) o = Some c.
Proof.
  intros Hst Hph. pose proof (frame_otot s t th _ KRef o Ht (top_in _ _ _ Hst)) as H1.
  pose proof (frame_otot s t th _ KRun o Ht (top_in _ _ _ Hst)) as H2.
  assert (1 <= otot s o KRef /\ 1 <= otot s o KRun) as [Hr Hk].
  { destruct Hph as [-> | [-> | ->]]; simpl in *; rewrite eqz_refl in *; done. }
  split_and!; [done..|]. apply (ref_live s HI). pose proof (counts_all _ (otot_counts s o)). destruct_and!. lia.
Qed.

Lemma worker_run o i :
  stack th = FWorker p (WRun o i) :: rest -> good (threadpool_worker_proc t p (WRun o i) rest a s).
Proof.
  intros Hst. pose proof (inv_shape _ HI t th Ht) as Hsh.
  destruct (worker_object _ o i Hst ltac:(auto)) as (_ & _ & Hc). apply good_object; [done|]. intros c Hco.
  pose proof (inv_frames _ HI t th _ Ht (top_in _ _ _ Hst)) as Hok.
  destruct (finalization_callback (contents c)); open_goto s t th;
    quiet_keep t th (length (objects s)) (length (pools s)) (length (groups s)); by left.
Qed.

Lemma worker_final o i :
  stack th = FWorker p (WFinal o i) :: rest -> good (threadpool_worker_proc t p (WFinal o i) rest a s).
Proof.
  intros Hst. pose proof (inv_shape _ HI t th Ht) as Hsh. simpl. open_goto s t th.
  pose proof (inv_frames _ HI t th _ Ht (top_in _ _ _ Hst)) as Hok.
  quiet_keep t th (length (objects s)) (length (pools s)) (length (groups s)). by left.
Qed.

Definition dend (b : bool) (k : okind) : Z := match k with KRun => -1 | KAssoc => - b2z b | _ => 0 end.

Lemma execute_end_eq i ob : execute_end i ob =
  Object (refcount ob) (is_simple ob || shutdown ob) (opool ob) (ogroup ob) (group_cancel_callback ob)
    (finalization_callback ob) (may_run_long ob) (priority ob) (is_group_member ob)
    (num_pending_callbacks ob) (num_running_callbacks ob - 1)
    (num_associated_callbacks ob - (if associated i then 1 else 0)) (u ob).
Proof. unfold execute_end. by destruct (is_simple ob). Qed.

Lemma simple_execute_end i ob : is_simple (execute_end i ob) = is_simple ob.
Proof. unfold execute_end. by destruct (is_simple ob) eqn:E. Qed.

Lemma executed_object o c i : at_ (objects s) o = Some c -> 1 <= otot s o KRun ->
  live_object (held c) (execute_end i (contents c)) (fun k => otot s o k + dend (associated i) k).
Proof.
  intros Hc Hr. object_facts HI o c Hc.
  assert (E : forall v, b2z v = if v then 1 else 0) by done.
  split; simpl; rewrite ?simple_execute_end; unfold execute_end, initialized, pending_timer, is_timer in *;
    destruct (is_simple (contents c)) eqn:Hsi; simpl; rewrite ?Z.add_0_r; try assumption; try lia; try done.
  - rewrite orb_true_r in lo_ref0. lia.
  - rewrite E. lia.
  - rewrite E. lia.
  - intros _. destruct (lo_simple0 eq_refl). split; [done|lia].
  - intros Hh. destruct (lo_simple0 eq_refl). congruence.
  - unfold is_simple, otype in Hsi. by destruct (u (contents c)).
Qed.

Lemma worker_end o i :
  stack th = FWorker p (WEnd o i) :: rest -> good (threadpool_worker_proc t p (WEnd o i) rest a s).
Proof.
  intros Hst. pose proof (inv_shape _ HI t th Ht) as Hsh.
  destruct (worker_object _ o i Hst ltac:(auto)) as (_ & Hk & Hc). destruct (worker_pool _ Hst) as [_ Hp].
  destruct (inv_frames _ HI t th _ Ht (top_in _ _ _ Hst)) as (co & Hco & Hop).
  pose proof (frame_ptot s t th _ PExec p Ht (top_in _ _ _ Hst)) as He. simpl in He. rewrite eqz_refl in He.
  apply good_pool; [done|]. intros c Hcp. apply good_enter. intros _. apply good_object; [done|].
  intros co2 Hco2. assert (co2 = co) as -> by congruence. cbv zeta.
  pose proof (lp_busy _ _ _ _ _ _ (lpool s HI p c Hcp)) as Hb.
  assert (0 <= qlen (contents c)) by (unfold qlen; lia).
  apply good_assert. { apply negb_true_iff, Z.eqb_neq. lia. }
  apply inv_wake_if, inv_wake_if. open_goto s t th.
  pose proof (executed_object o co i Hco Hk) as HL. rewrite execute_end_eq in *.
  quiet_keep t th o p (group_or s (contents co)).
  - simpl. by intros [_ ?]%orb_false_elim.
  - by constructor.
  - at_tac. sums (dend (associated i)). exact HL.
  - at_tac. pool_facts HI p c Hcp. unfold refs', objs', left_over, T'. at_tac. simpl. pool_split.
Qed.

Theorem worker_good ph :
  stack th = FWorker p ph :: rest -> good (threadpool_worker_proc t p ph rest a s).
Proof.
  destruct ph; intros Hst.
  - by apply worker_start; auto.
  - by apply worker_start; auto.
  - by apply worker_sleep.
  - by apply worker_run.
  - by apply worker_final.
  - by apply worker_end.
Qed.
End Worker.
End TpWorker.
