(* ===== verification/TpTimers.v ===== *)
(** * The thread pool: the timer queue

    The timer thread, TpSetTimerEx and tp_timerqueue_unlock keep the two lists
    of pending timers: the walks over them find a timer at every entry, and a
    timer that the thread is about to submit is neither freed nor shut down. *)
From S2P Require Import Prelude Threadpool TpInv TpUpdate TpSteps TpRelease TpSubmit TpAlloc TpWorker.

Module TpTimers.
Import Tp TpInv TpUpdate TpSteps TpRelease TpSubmit TpAlloc TpWorker.

(** ** Walks over the lists *)
Lemma insert_timer_total look v o l :
  (forall x, x ∈ l -> exists tx, look x = Some tx) ->
  exists l', insert_timer look v o l = Some l' /\ l' ≡ₚ o :: l.
Proof.
  induction l as [|x l IH]; intros H; simpl; [by exists [o]|].
  destruct (H x ltac:(left)) as (tx & ->). simpl. destruct (v <? timeout tx).
  - by exists (o :: x :: l).
  - destruct IH as (l' & -> & Hp); [intros y Hy; apply H; by right|]. exists (x :: l').
    split; [done|]. rewrite Hp. constructor.
Qed.

Lemma next_timeout_total look l : (forall x, x ∈ l -> exists tx, look x = Some tx) ->
  forall lower upper, exists v, next_timeout look lower upper l = Some v.
Proof.
  induction l as [|x l IH]; intros H lower upper; simpl; [eauto|].
  destruct (H x ltac:(left)) as (tx & ->). simpl. destruct (upper <=? timeout tx); [eauto|].
  apply IH. intros y Hy. apply H. by right.
Qed.

Lemma update_timers_total look now tq :
  (forall x, x ∈ abs_timers tq ++ rel_timers tq -> exists tx, look x = Some tx) ->
  exists due, update_timers look now tq =
    Some (TimerQueue (tcs tq) (tobjcount tq) (thread_running tq) (abs_timers tq) (rel_timers tq) due).
Proof.
  intros H. unfold update_timers, get_next_timeout.
  destruct (next_timeout_total look (abs_timers tq)
    ltac:(intros; apply H, elem_of_app; by left) MAXLONGLONG MAXLONGLONG) as (v & ->). simpl.
  destruct (tobjcount tq =? 0); simpl; [eauto|].
  destruct (next_timeout_total look (rel_timers tq)
    ltac:(intros; apply H, elem_of_app; by right) MAXLONGLONG MAXLONGLONG) as (v2 & ->). simpl. eauto.
Qed.

Lemma timer_of_at s o c x : at_ (objects s) o = Some c -> u (contents c) = UTimer x -> timer_of s o = Some x.
Proof. intros H%at_Some Hx. unfold timer_of. by rewrite H, Hx. Qed.

Lemma timer_of_pending s o : (exists c, at_ (objects s) o = Some c /\ pending_timer (contents c) = true) ->
  exists x, timer_of s o = Some x.
Proof.
  intros (c & Hc & Hp). unfold pending_timer in Hp. destruct (u (contents c)) as [| |x| |] eqn:E; try done.
  exists x. by eapply timer_of_at.
Qed.

Lemma listed_timer s x : Inv s -> x ∈ abs_timers (timers s) ++ rel_timers (timers s) ->
  exists tx, timer_of s x = Some tx.
Proof. intros HI Hx. apply timer_of_pending. by apply (tq_elem _ (inv_timers _ HI)). Qed.

(** The lock is free, or the timer thread has it. *)
Lemma timers_free s t th f rest : Inv s -> threads s !! t = Some th -> stack th = f :: rest ->
  timers_frame_of f = false -> tcs (timers s) = None \/ tcs (timers s) = Some t -> tcs (timers s) = None.
Proof.
  intros HI Ht Hst Hf [|Hl]; [done|]. destruct (tq_lock _ (inv_timers _ HI) t Hl) as (th2 & ph & Ht2 & Hst2 & Hsc).
  assert (th2 = th) as -> by congruence. assert (f = FTimers ph) as -> by congruence. simpl in Hf. congruence.
Qed.

(** ** timerqueue_thread_proc *)
Section TimerThread.
Context (s : state) (HI : Inv s) (t : nat) (th : thread) (Ht : threads s !! t = Some th).
Context (rest : list frame) (a : answers).

Lemma timers_wait started :
  stack th = FTimers (TWait started) :: rest -> good (timerqueue_thread_proc t (TWait started) rest a s).
Proof.
  intros Hst. pose proof (inv_shape _ HI t th Ht) as Hsh. rewrite Hst in Hsh. simpl in Hsh. subst rest.
  apply good_enter. intros Hlock. eapply timers_free in Hlock; [|done..].
  destruct (negb started && (tobjcount (timers s) =? 0)) eqn:E.
  - apply andb_prop in E as [_ E%Z.eqb_eq]. open_goto s t th.
    update_start t th (length (objects s)) (length (pools s)) (length (groups s)).
    + queues_tac.
    + stable_tac.
    + homes_tac.
    + groups_tac.
    + eapply timers_frame_count; [done|done|done..| |done|scan_tac]. rewrite at_end. delta_tac. lia.
  - open_goto s t th.
    update_start t th (length (objects s)) (length (pools s)) (length (groups s)).
    + queues_tac.
    + stable_tac; try congruence. by right.
    + homes_tac.
    + groups_tac.
    + destruct (inv_timers _ HI) as [? ? He ?]. eapply timers_update; [done|done| |done|done| |].
      * rewrite at_end. delta_tac. lia.
      * rewrite He. by rewrite at_end.
      * simpl. intros t2 [= <-]. left. split; [done|]. by eexists.
Qed.

(** Both lists are done: the kernel timers are set and the queue is unlocked. *)
Lemma scan_done abs abs_now rel_now :
  stack th = [FTimers (TScan abs abs_now rel_now)] ->
  good (with_update rel_now s (fun s =>
    Next (goto t [FTimers (TWait false)] (set_timers (set_tcs None (timers s)) s)) [])).
Proof.
  intros Hst. pose proof (inv_frames _ HI t th _ Ht (top_in _ _ _ Hst)) as Hlock. simpl in Hlock.
  unfold with_update.
  destruct (update_timers_total (timer_of s) rel_now (timers s)) as (due & ->).
  { intros x Hx. by apply listed_timer. }
  cbn beta iota. unfold set_timers at 1. cbn [timers]. simpl. open_goto s t th.
  update_start t th (length (objects s)) (length (pools s)) (length (groups s)).
  - queues_tac.
  - eapply locked_frames; [eassumption|eassumption|split; cell_solve| |done|done].
    intros f ->%list_elem_of_singleton. by right.
  - homes_tac.
  - groups_tac.
  - destruct (inv_timers _ HI) as [? ? He ?]. eapply timers_update; [done|done| |done|done| |done].
    + rewrite at_end. delta_tac. lia.
    + simpl. rewrite He. by rewrite at_end.
Qed.

(** ** The lists after an entry has been removed or inserted *)
Lemma unlink_lists o tq : abs_timers (unlink_timer o tq) ++ rel_timers (unlink_timer o tq)
  = list_remove o (abs_timers tq ++ rel_timers tq).
Proof. unfold unlink_timer, list_remove. simpl. by rewrite filter_app. Qed.

Lemma listed_due o c : at_ (objects s) o = Some c -> pending_timer (contents c) = false ->
  o ∉ abs_timers (timers s) ++ rel_timers (timers s).
Proof.
  intros Hc Hp. rewrite (tq_elem _ (inv_timers _ HI)). intros (c2 & ? & ?). congruence.
Qed.

Lemma set_timer_kind ob x y : u ob = UTimer x ->
  is_timer (set_timer y ob) = is_timer ob /\ is_simple (set_timer y ob) = is_simple ob.
Proof. intros Hx. unfold is_timer, is_simple, otype. simpl. by rewrite Hx. Qed.

Lemma member_set_timer o c y h g st v po new P G d tq dl :
  at_ (objects s) o = Some c ->
  member_of (after s t (Thread st v po) new (<[o := Some (Cell h (set_timer y (contents c)))]> (objects s))
    P G d tq dl) g o <-> member_of s g o.
Proof.
  intros Hc. unfold member_of. simpl. rewrite Hc. erewrite at_insert by done.
  split; intros (c2 & ? & ? & ?); simplify_eq; by eexists.
Qed.

(** The object after its timer has been set anew *)
Lemma timer_live o c x y :
  at_ (objects s) o = Some c -> u (contents c) = UTimer x -> timer_initialized x = true ->
  timer_initialized y = true ->
  live_object (held c) (set_timer y (contents c)) (otot s o).
Proof.
  intros Hc Hx Hi Hy. object_facts HI o c Hc.
  destruct (set_timer_kind (contents c) x y Hx) as [_ Hsi].
  assert (initialized (contents c) = true) as Hin by (unfold initialized; by rewrite Hx).
  split; rewrite ?Hsi; try assumption; unfold initialized, pending_timer, is_timer; simpl; auto.
Qed.

Lemma scan_take o c x abs abs_now rel_now :
  stack th = [FTimers (TScan abs abs_now rel_now)] ->
  at_ (objects s) o = Some c -> u (contents c) = UTimer x -> timer_pending x = true ->
  Inv (goto t [FTimers (TAssert o abs abs_now rel_now)]
    (put_object o (held c) (set_timer (not_pending x) (contents c))
       (set_timers (unlink_timer o (timers s)) s))).
Proof.
  intros Hst Hc Hx Hp. pose proof (inv_frames _ HI t th _ Ht (top_in _ _ _ Hst)) as Hlock. simpl in Hlock.
  assert (Hi : timer_initialized x = true).
  { pose proof (lo_timer_set _ _ _ (live s HI o c Hc)) as H. unfold pending_timer, initialized in H.
    rewrite Hx in H. auto. }
  destruct (set_timer_kind (contents c) x (not_pending x) Hx) as [Hti Hsi].
  open_goto s t th. update_start t th o (opool (contents c)) (group_or s (contents c)).
  - at_tac. eapply object_ok_ext; [|by apply (timer_live o c x)].
    intros k. unfold T'. delta_tac. destruct k; simpl; lia.
  - queues_tac.
  - eapply locked_frames; [eassumption|eassumption|split; cell_solve| |done|done].
    intros f ->%list_elem_of_singleton. right. simpl. split; [done|]. eexists. simpl. erewrite at_insert by done.
    unfold initialized, pending_timer. simpl. done.
  - homes_tac.
  - groups_tac. by apply member_set_timer.
  - destruct (inv_timers _ HI) as [? Hn He ?].
    eapply timers_update; [done|done|..]; rewrite ?unlink_lists.
    + at_tac. simpl. unfold initialized. rewrite Hx. simpl. delta_tac. rewrite Hi. lia.
    + by apply NoDup_list_remove.
    + intros y Hy. rewrite elem_list_remove. tauto.
    + rewrite elem_list_remove. erewrite at_insert by done. split; [tauto|].
      intros (c2 & ? & Hp2). simplify_eq.
    + intros t2 Ht2. left. simpl in Ht2. split; [congruence|by eexists].
Qed.

Lemma scan_next abs_now rel_now :
  stack th = [FTimers (TScan true abs_now rel_now)] ->
  Inv (goto t [FTimers (TScan false abs_now rel_now)] s).
Proof.
  intros Hst. pose proof (inv_frames _ HI t th _ Ht (top_in _ _ _ Hst)) as Hlock. simpl in Hlock.
  open_goto s t th. quiet_keep t th (length (objects s)) (length (pools s)) (length (groups s)). by left.
Qed.

Lemma timers_scan_good abs abs_now rel_now :
  stack th = FTimers (TScan abs abs_now rel_now) :: rest ->
  good (timers_scan t abs abs_now rel_now rest s).
Proof.
  intros Hst. pose proof (inv_shape _ HI t th Ht) as Hsh. rewrite Hst in Hsh. simpl in Hsh. subst rest.
  assert (Hend : good (if abs then Next (goto t [FTimers (TScan false abs_now rel_now)] s) []
    else with_update rel_now s (fun s => Next (goto t [FTimers (TWait false)]
           (set_timers (set_tcs None (timers s)) s)) []))).
  { destruct abs; [by apply scan_next|by eapply scan_done]. }
  unfold timers_scan. destruct (scanned abs (timers s)) as [|o l] eqn:El; [done|].
  assert (o ∈ abs_timers (timers s) ++ rel_timers (timers s)) as Ho.
  { apply elem_of_app. unfold scanned in El. destruct abs; rewrite El; [left|right]; left. }
  apply (tq_elem _ (inv_timers _ HI)) in Ho as (c & Hc & Hp).
  apply good_object; [eauto|]. intros c2 Hc2. assert (c2 = c) as -> by congruence.
  unfold pending_timer in Hp. destruct (u (contents c)) as [| |x| |] eqn:Hx; try done.
  apply good_assert; [done|]. destruct ((if abs then abs_now else rel_now) <? timeout x); [done|].
  by apply scan_take.
Qed.

(** The timer that has been taken out of its list *)
Lemma due_open o c : at_ (objects s) o = Some c -> initialized (contents c) = true ->
  is_simple (contents c) = false /\ shutdown (contents c) = false /\ open_pool s (opool (contents c)).
Proof.
  intros Hc Hi. destruct (lo_timer _ _ _ (live s HI o c Hc) Hi) as [Hs _].
  assert (is_simple (contents c) = false) as Hsi.
  { unfold initialized in Hi. unfold is_simple, otype. by destruct (u (contents c)). }
  split_and!; [done..|]. destruct (inv_home _ HI o c Hc Hsi Hs) as (cp & ? & ?). by exists cp.
Qed.

Lemma timers_assert o abs abs_now rel_now :
  stack th = FTimers (TAssert o abs abs_now rel_now) :: rest ->
  good (timerqueue_thread_proc t (TAssert o abs abs_now rel_now) rest a s).
Proof.
  intros Hst. pose proof (inv_shape _ HI t th Ht) as Hsh. rewrite Hst in Hsh. simpl in Hsh. subst rest.
  pose proof (inv_frames _ HI t th _ Ht (top_in _ _ _ Hst)) as (Hlock & c & Hc & Hi & Hp).
  destruct (due_open o c Hc Hi) as (_ & Hs & Ho). eapply assert_good; [done..|]. open_goto s t th.
  quiet_keep t th (length (objects s)) (length (pools s)) (length (groups s)). left.
  split; [done|by exists c].
Qed.

Lemma timers_submit o abs abs_now rel_now :
  stack th = FTimers (TSubmit o abs abs_now rel_now) :: rest ->
  good (timerqueue_thread_proc t (TSubmit o abs abs_now rel_now) rest a s).
Proof.
  intros Hst. pose proof (inv_shape _ HI t th Ht) as Hsh. rewrite Hst in Hsh. simpl in Hsh. subst rest.
  pose proof (inv_frames _ HI t th _ Ht (top_in _ _ _ Hst)) as (Hlock & c & Hc & Hi & Hp).
  destruct (due_open o c Hc Hi) as (Hsi & Hs & Ho).
  eapply (submit_good s HI t th Ht o c Hc _ [] _ 0 Hst); try done.
  - intros k i. rewrite !stot_cons. destruct k; simpl; lia.
  - by rewrite Hsi.
  - intros ph [= <-] _. by eexists.
  - intros x ->%list_elem_of_singleton. right. split; [done|by exists c].
Qed.

Lemma timers_insert_good o abs abs_now rel_now :
  stack th = FTimers (TInsert o abs abs_now rel_now) :: rest ->
  good (timers_insert t o abs abs_now rel_now rest s).
Proof.
  intros Hst. pose proof (inv_shape _ HI t th Ht) as Hsh. rewrite Hst in Hsh. simpl in Hsh. subst rest.
  pose proof (inv_frames _ HI t th _ Ht (top_in _ _ _ Hst)) as (Hlock & c & Hc & Hi & Hp).
  apply good_object; [eauto|]. intros c2 Hc2. assert (c2 = c) as -> by congruence.
  pose proof (listed_due o c Hc Hp) as Hno. pose proof Hi as Hi0.
  unfold initialized in Hi. destruct (u (contents c)) as [| |x| |] eqn:Hx; try done.
  destruct (negb (period x =? 0) && negb (shutdown (contents c))).
  2: { open_goto s t th. quiet_keep t th (length (objects s)) (length (pools s)) (length (groups s)). by left. }
  cbv zeta.
  destruct (insert_timer_total (timer_of s) (next_expiry abs rel_now x) o (rel_timers (timers s)))
    as (l & -> & Hl).
  { intros y Hy. apply listed_timer; [done|]. apply elem_of_app. by right. }
  match goal with |- context [set_timer ?y _] => set (x' := y) end.
  destruct (set_timer_kind (contents c) x x' Hx) as [Hti Hsi].
  change (put_object o (held c) (set_timer x' (contents c)) (set_timers (set_lists (abs_timers (timers s)) l (timers s))
     (goto t [FTimers (TScan abs abs_now rel_now)] s)))
    with (goto t [FTimers (TScan abs abs_now rel_now)] (put_object o (held c) (set_timer x' (contents c))
       (set_timers (set_lists (abs_timers (timers s)) l (timers s)) s))).
  open_goto s t th. update_start t th o (opool (contents c)) (group_or s (contents c)).
  - at_tac. eapply object_ok_ext; [|by apply (timer_live o c x)].
    intros k. unfold T'. delta_tac. destruct k; simpl; lia.
  - queues_tac.
  - eapply locked_frames; [eassumption|eassumption|split; cell_solve| |done|done].
    intros f ->%list_elem_of_singleton. by right.
  - homes_tac.
  - groups_tac. by apply member_set_timer.
  - destruct (inv_timers _ HI) as [? Hn He ?]. 
    assert (Hperm : abs_timers (timers s) ++ l ≡ₚ o :: abs_timers (timers s) ++ rel_timers (timers s))
      by (rewrite Hl; by rewrite Permutation_middle).
    eapply timers_update; [done|done|..]; simpl; try setoid_rewrite Hperm.
    + at_tac. simpl. unfold initialized. rewrite Hx. simpl. delta_tac. lia.
    + by constructor.
    + intros y Hy. rewrite elem_of_cons. tauto.
    + erewrite at_insert by done. split; [by eauto|]. intros _. left.
    + intros t2 Ht2. left. split; [congruence|by eexists].
Qed.

Theorem timers_good ph :
  stack th = FTimers ph :: rest -> good (timerqueue_thread_proc t ph rest a s).
Proof.
  destruct ph; intros Hst.
  - by apply timers_wait.
  - by apply timers_scan_good.
  - by apply timers_assert.
  - by apply timers_submit.
  - by apply timers_insert_good.
Qed.
End TimerThread.

(** ** The kernel timers are not part of the invariant *)
Definition same_queue (tq tq' : timerqueue) : Prop :=
  tcs tq' = tcs tq /\ tobjcount tq' = tobjcount tq /\ abs_timers tq' = abs_timers tq /\
  rel_timers tq' = rel_timers tq.

Lemma inv_same_queue s tq : Inv s -> same_queue (timers s) tq -> Inv (set_timers tq s).
Proof.
  intros HI (H1 & H2 & H3 & H4). destruct (inv_timers _ HI) as [T1 T2 T3 T4].
  split; try apply HI.
  - split; simpl; rewrite ?H1, ?H2, ?H3, ?H4; assumption.
  - intros t th f Ht Hf. pose proof (inv_frames _ HI t th f Ht Hf) as Hok.
    destruct f; try exact Hok. destruct ph; simpl in *; rewrite ?H1; exact Hok.
Qed.

(** Without timer objects the lists are empty. *)
Lemma no_timers s : Inv s -> tobjcount (timers s) = 0 ->
  abs_timers (timers s) ++ rel_timers (timers s) = [].
Proof.
  intros HI Hz. destruct (inv_timers _ HI) as [T1 _ T3 _].
  destruct (abs_timers (timers s) ++ rel_timers (timers s)) as [|y l]; [done|exfalso].
  destruct (proj1 (T3 y) ltac:(left)) as (cy & Hcy & Hpy).
  pose proof (lo_timer_set _ _ _ (live _ HI y cy Hcy) Hpy) as Hiy.
  pose proof (osum_elem (fun _ ob => b2z (initialized ob)) (objects s) y) as Hos.
  unfold oterm in Hos. rewrite Hcy, Hiy in Hos. simpl in Hos.
  assert (Hb : forall b, 0 <= b2z b) by (intros []; simpl; lia). specialize (Hos ltac:(intros; apply Hb)).
  pose proof (total_nonneg tc (threads s) tc_nonneg). unfold tq_refs in T1. lia.
Qed.

(** ** tp_object_prepare_shutdown *)
Definition dready (n : Z) (k : okind) : Z := match k with KReady => n | _ => 0 end.

Section Prepare.
Context (s : state) (HI : Inv s) (t : nat) (th : thread) (Ht : threads s !! t = Some th).
Context (o : nat) (c : cell object) (Hc : at_ (objects s) o = Some c) (Hkeep : 1 <= otot s o KKeep).
Context (f : frame) (rest st : list frame) (Hst : stack th = f :: rest) (Hf : timers_frame_of f = false).
Notation th' := (Thread st (ret th) (out th)).
Context (Hoc : forall k i, stot (oc k i) st - stot (oc k i) (f :: rest) = dready 1 k * eqz i o)
        (Hpc : forall k i, stot (pc k i) st = stot (pc k i) (f :: rest))
        (Hgc : forall i, stot (gc i) st = stot (gc i) (f :: rest))
        (Htc : stot tc st = stot tc (f :: rest)).
Context (Hshape : shape st) (Hiter : keeps_iterating th th' (fun _ => True)).
Context (Hframes : forall x, x ∈ st -> x ∈ f :: rest \/ frame_ok s t x).

Lemma prepare_delta F : delta th th' [] F = stot F st - stot F (f :: rest).
Proof. unfold delta. simpl stack. rewrite Hst, total_nil. lia. Qed.

Lemma prepare_focus c' :
  focused (opool (contents c)) (group_or s (contents c)) (Some c') ->
  focus_ok s t th th' [] o (opool (contents c)) (group_or s (contents c)) (<[o := Some c']> (objects s))
    (pools s) (groups s) (default_threadpool s).
Proof.
  intros Hfo. split; [done|intros; heap_tac|done..| | | |focus_tac|by erewrite at_insert].
  - intros k i Hi. rewrite prepare_delta, Hoc, eqz_ne by done. lia.
  - intros k i Hi. rewrite prepare_delta, Hpc. lia.
  - intros i Hi. rewrite prepare_delta, Hgc. lia.
Qed.

Lemma not_scanning : keeps_scanning th th'.
Proof. unfold keeps_scanning. rewrite Hst. intros ph [= -> _] Hs. simpl in Hf. congruence. Qed.

(** Only the frames change. *)
Lemma prepare_skip : initialized (contents c) = false -> Inv (goto t st s).
Proof.
  intros Hi. erewrite (goto_after s s t th st []); [|done|by rewrite app_nil_r].
  assert (objects s = <[o := Some c]> (objects s)) as E.
  { symmetry. apply list_insert_id. by apply at_Some. }
  pose proof (prepare_focus c) as HF.
  assert (focused (opool (contents c)) (group_or s (contents c)) (Some c)) as Hfo.
  { apply focused_some; [done|]. intros. symmetry. by apply group_or_eq. }
  specialize (HF Hfo). rewrite <- E in HF.
  eapply inv_quiet_keep; [done|done| |split| |].
  - split; try done; try (same_tac; done).
    + by rewrite prepare_delta, Htc, Z.sub_diag.
    + apply not_scanning.
    + intros x Hx. rewrite Hst. destruct (Hframes x Hx); auto.
    + by intros ? ?%elem_of_nil.
  - at_tac. apply (object_ok_ext _ (fun k => otot s o k + dready 1 k)).
    + intros k. unfold T'. rewrite prepare_delta, Hoc, eqz_refl. lia.
    + object_facts HI o c Hc. split; simpl; rewrite ?Z.add_0_r; try assumption. congruence.
  - eapply loc_pool_keep; [done..| | |]; at_tac; simpl; unfold T'; rewrite ?prepare_delta, ?Hoc; simpl; try lia.
    intros k. rewrite prepare_delta, Hpc. lia.
  - eapply loc_group_keep; [done..| |]; at_tac; simpl; unfold T'; rewrite ?prepare_delta, ?Hoc, ?Hgc; simpl; [lia|].
    by rewrite Z.add_0_r.
  - unchanged_tac.
  - unchanged_tac.
Qed.

(** The timer leaves the queue. *)
Section Timer.
Context (x : timer) (Hx : u (contents c) = UTimer x) (Hin : timer_initialized x = true).
Context (Hfree : tcs (timers s) = None).
Notation x' := (Timer false false (timer_set x) (timeout x) (period x) (window_length x)).
Notation tq' := (let tq := if timer_pending x then unlink_timer o (timers s) else timers s in
  set_tobjcount (tobjcount tq - 1) (thread_running tq) tq).

Lemma unlocked_lists :
  tcs tq' = tcs (timers s) /\ tobjcount tq' = tobjcount (timers s) - 1 /\
  NoDup (abs_timers tq' ++ rel_timers tq') /\ o ∉ abs_timers tq' ++ rel_timers tq' /\
  forall y, y <> o -> y ∈ abs_timers tq' ++ rel_timers tq' <-> y ∈ abs_timers (timers s) ++ rel_timers (timers s).
Proof.
  destruct (inv_timers _ HI) as [_ Hn He _]. destruct (timer_pending x) eqn:Hp; simpl.
  - pose proof (unlink_lists o (timers s)) as E. simpl in E. rewrite E.
    split_and!; [done..|by apply NoDup_list_remove|rewrite elem_list_remove; tauto|].
    intros y Hy. rewrite elem_list_remove. tauto.
  - split_and!; [done..| |done]. eapply (listed_due s HI); [done|]. unfold pending_timer. by rewrite Hx.
Qed.

Lemma unlocked_object :
  live_object (held c) (set_timer x' (contents c)) (fun k => otot s o k + dready 1 k).
Proof.
  destruct (set_timer_kind (contents c) x x' Hx) as [Hti Hsi].
  assert (Hs0 : is_simple (contents c) = false) by (unfold is_simple, otype; by rewrite Hx).
  object_facts HI o c Hc.
  split; rewrite ?Hsi, ?Hti; simpl; rewrite ?Z.add_0_r; try assumption; try done.
  intros _ Ho. exfalso. assert (held c = false).
  { destruct (held c); [|done]. destruct (lo_held0 eq_refl) as (_ & _ & ?). lia. }
  destruct (held c); [done|]. simpl in Ho. destruct lo_init0 as (_ & _ & _ & ?); [lia|done|]. lia.
Qed.

Lemma prepare_timer :
  Inv (goto t st (set_timers tq' (put_object o (held c) (set_timer x' (contents c)) s))).
Proof.
  destruct unlocked_lists as (Q1 & Q2 & Q3 & Q4 & Q5). revert Q1 Q2 Q3 Q4 Q5.
  generalize tq'. intros tq Q1 Q2 Q3 Q4 Q5. destruct (set_timer_kind (contents c) x x' Hx) as [Hti Hsi].
  erewrite (goto_after s _ t th st []); [|done|by rewrite app_nil_r]. state_simpl.
  pose proof (prepare_focus (Cell (held c) (set_timer x' (contents c)))) as HF.
  specialize (HF ltac:(apply focused_some; [done|]; intros; symmetry; by apply group_or_eq)).
  eapply pool_update; [done|done|split| | | | |].
  - at_tac. apply (object_ok_ext _ (fun k => otot s o k + dready 1 k)); [|apply unlocked_object].
    intros k. unfold T'. rewrite prepare_delta, Hoc, eqz_refl. lia.
  - eapply loc_pool_keep; [done..| | |]; at_tac; simpl; unfold T'; rewrite ?prepare_delta, ?Hoc; simpl; try lia.
    intros k. rewrite prepare_delta, Hpc. lia.
  - eapply loc_group_keep; [done..| |]; at_tac; simpl; unfold T'; rewrite ?prepare_delta, ?Hoc, ?Hgc; simpl; [lia|].
    by rewrite Z.add_0_r.
  - queues_tac.
  - eapply stable_frames; [done|done|split; cell_solve| |by intros ? ?%elem_of_nil|done].
    intros y Hy. rewrite Hst. destruct (Hframes y Hy); auto.
  - homes_tac.
  - eapply groups_frame; [done|done|cell_solve|by apply member_set_timer|done].
  - eapply timers_update; [done|done| |done|done| |].
    + rewrite Q2. at_tac. simpl. unfold initialized. rewrite Hx. simpl. rewrite prepare_delta, Htc, Hin. simpl. lia.
    + at_tac. split; [done|]. intros (c2 & ? & Hp2). by simplify_eq.
    + rewrite Q1, Hfree. done.
Qed.

End Timer.

Lemma prepare_good a :
  good (tp_object_prepare_shutdown t o a (fun s => Next (goto t st s) []) s).
Proof.
  apply good_object; [eauto|]. intros c2 Hc2. assert (c2 = c) as -> by congruence.
  pose proof (lo_kind _ _ _ (live s HI o c Hc)) as Hk.
  pose proof prepare_skip as Hskip. unfold initialized in Hskip.
  destruct (u (contents c)) as [| |x| |] eqn:Hx; try done; [by apply Hskip..|].
  apply good_object; [eauto|]. intros c2 Hc2'. assert (c2 = c) as -> by congruence. rewrite Hx.
  apply good_enter. intros Hlock. eapply timers_free in Hlock; [|done..].
  destruct (timer_initialized x) eqn:Hin; [|by apply Hskip]. cbv zeta.
  pose proof (prepare_timer x Hx Hin Hlock) as HI'. cbv zeta in HI'.
  set (tq := set_tobjcount _ _ _) in *. set (s1 := set_timers tq _) in *.
  destruct (Z.eqb_spec (tobjcount tq) 0) as [Hz|Hz]; [|done].
  assert (Hnil : abs_timers tq ++ rel_timers tq = []) by (by apply (no_timers (goto t st s1))).
  apply app_eq_nil in Hnil as [E1 E2]. apply good_assert; [by rewrite E1, E2|].
  unfold with_update. destruct (update_timers_total (timer_of s1) (counter a) (timers s1)) as (due & Hu).
  { change (timers s1) with tq. rewrite E1, E2. by intros ? ?%elem_of_nil. }
  rewrite Hu. apply (inv_same_queue (goto t st s1)); done.
Qed.

End Prepare.

Lemma set_timers_id s : set_timers (timers s) s = s.
Proof. by destruct s. Qed.

(** ** TpSetTimerEx *)
Section SetTimer.
Context (s : state) (HI : Inv s) (t : nat) (th : thread) (Ht : threads s !! t = Some th).
Context (o : nat) (tmo : option Z) (per win : Z) (rest : list frame)
  (Hst : stack th = FSetTimer o tmo per win :: rest).
Context (c : cell object) (Hc : at_ (objects s) o = Some c) (Hh : held c = true).
Context (x : timer) (Hx : u (contents c) = UTimer x) (Hfree : tcs (timers s) = None).

Lemma set_timer_init : timer_initialized x = true.
Proof.
  pose proof (lo_owned _ _ _ (live s HI o c Hc)) as H. unfold is_timer, initialized in H. rewrite Hx, Hh in H.
  apply H; [done|]. pose proof (counts_all _ (otot_counts s o)). destruct_and!. simpl. lia.
Qed.

(** The timer and the queue after the call, and the frames: the callback is
    submitted at once or not. *)
Lemma set_timer_inv y tq (submit : bool) v :
  timer_initialized y = true -> tcs tq = tcs (timers s) -> tobjcount tq = tobjcount (timers s) ->
  NoDup (abs_timers tq ++ rel_timers tq) ->
  (forall z, z <> o -> z ∈ abs_timers tq ++ rel_timers tq <-> z ∈ abs_timers (timers s) ++ rel_timers (timers s)) ->
  (o ∈ abs_timers tq ++ rel_timers tq <-> timer_pending y = true) ->
  Inv (return_to t (if submit then FSubmit o false :: rest else rest) v None
    (put_object o (held c) (set_timer y (contents c)) (set_timers tq s))).
Proof.
  intros Hy Q1 Q2 Q3 Q4 Q5. pose proof set_timer_init as Hin. pose proof (inv_shape _ HI t th Ht) as Hsh.
  destruct (set_timer_kind (contents c) x y Hx) as [Hti Hsi].
  destruct submit; open_goto s t th; (update_start t th o (opool (contents c)) (group_or s (contents c));
    [ at_tac | queues_tac | stable_tac; try congruence; try (left; by exists c)
    | homes_tac | groups_tac; by apply member_set_timer | ]).
  1, 3: eapply object_ok_ext; [|by apply (timer_live s HI o c x)];
    intros k; unfold T'; delta_tac; destruct k; simpl; lia.
  all: eapply timers_update; [done|done| |done|done| |].
  all: try (rewrite Q1, Hfree; done).
  all: try (rewrite Q2; at_tac; simpl; unfold initialized; rewrite Hx; simpl; delta_tac; rewrite Hin, Hy; lia).
  all: at_tac; rewrite Q5; split; [intros Hp; by eexists|intros (c2 & ? & ?); by simplify_eq].
Qed.

(** The lists without the timer *)
Definition unlinked_queue : timerqueue := if timer_pending x then unlink_timer o (timers s) else timers s.
Notation tq := unlinked_queue.

Lemma unlinked :
  tcs tq = tcs (timers s) /\ tobjcount tq = tobjcount (timers s) /\
  NoDup (abs_timers tq ++ rel_timers tq) /\ o ∉ abs_timers tq ++ rel_timers tq /\
  (forall z, z <> o -> z ∈ abs_timers tq ++ rel_timers tq <-> z ∈ abs_timers (timers s) ++ rel_timers (timers s)).
Proof.
  unfold unlinked_queue. destruct (unlocked_lists s HI o c Hc x Hx) as (Q1 & Q2 & Q3 & Q4 & Q5).
  destruct (timer_pending x); done.
Qed.

Lemma unlinked_state : (if timer_pending x then set_timers (unlink_timer o (timers s)) s else s) = set_timers tq s.
Proof. unfold unlinked_queue. destruct (timer_pending x); [done|]. by rewrite set_timers_id. Qed.

(** A timer that goes into one of the lists *)
Section Insert.
Context (y : timer) (abs : bool) (l : list nat) (Hl : l ≡ₚ o :: scanned abs tq).
Notation tq' := (if abs then set_lists l (rel_timers tq) tq else set_lists (abs_timers tq) l tq).
Notation s2 := (put_object o (held c) (set_timer y (contents c)) (set_timers tq s)).

Lemma inserted : abs_timers tq' ++ rel_timers tq' ≡ₚ o :: abs_timers tq ++ rel_timers tq.
Proof. destruct abs; simpl in *; rewrite Hl; [done|]. by rewrite Permutation_middle. Qed.

Lemma timer_of_unlinked z : z ∈ abs_timers tq ++ rel_timers tq -> exists tz, timer_of s2 z = Some tz.
Proof.
  destruct unlinked as (_ & _ & _ & Q4 & Q5). intros Hz. assert (z <> o) as Hzo by (intros ->; done).
  apply (Q5 z Hzo) in Hz. destruct (listed_timer s z HI Hz) as (tz & Htz). exists tz.
  rewrite <- Htz. unfold timer_of. simpl. by rewrite list_lookup_insert_ne.
Qed.

Lemma timer_of_inserted z : z ∈ abs_timers tq' ++ rel_timers tq' -> exists tz, timer_of s2 z = Some tz.
Proof.
  rewrite inserted. intros [->|Hz]%elem_of_cons; [|by apply timer_of_unlinked].
  exists y. unfold timer_of. simpl. apply at_Some in Hc.
  by rewrite list_lookup_insert_eq by (by eapply lookup_lt_Some).
Qed.

Lemma inserted_inv due (submit : bool) v :
  timer_initialized y = true -> timer_pending y = true ->
  Inv (return_to t (if submit then FSubmit o false :: rest else rest) v None
    (put_object o (held c) (set_timer y (contents c))
      (set_timers (TimerQueue (tcs tq') (tobjcount tq') (thread_running tq') (abs_timers tq') (rel_timers tq') due) s))).
Proof.
  intros Hy Hp. destruct unlinked as (Q1 & Q2 & Q3 & Q4 & Q5).
  apply set_timer_inv; [done|..]; cbn [tcs tobjcount abs_timers rel_timers].
  - destruct abs; done.
  - destruct abs; done.
  - rewrite inserted. by constructor.
  - intros z Hz. rewrite inserted, elem_of_cons, <- (Q5 z Hz). naive_solver.
  - rewrite inserted. split; [done|]. left.
Qed.

End Insert.
End SetTimer.

Lemma set_timer_good s t th o tmo per win rest a :
  Inv s -> threads s !! t = Some th -> stack th = FSetTimer o tmo per win :: rest ->
  good (set_timer_section t o tmo per win a rest s).
Proof.
  intros HI Ht Hst. pose proof (inv_frames _ HI t th _ Ht (top_in _ _ _ Hst)) as (c & Hc & Hh & Hti).
  apply good_object; [eauto|]. intros c2 Hc2. assert (c2 = c) as -> by congruence.
  unfold is_timer in Hti. destruct (u (contents c)) as [| |x| |] eqn:Hx; try done.
  apply good_enter. intros Hlock. eapply timers_free in Hlock; [|done..].
  apply good_assert; [by eapply set_timer_init|]. cbv zeta.
  match goal with |- good (let '(_, _) := ?e in _) => destruct e as [due submit] end.
  destruct (unlinked s HI o c Hc x Hx) as (Q1 & Q2 & Q3 & Q4 & Q5). rewrite (unlinked_state s o x).
  set (v0 := if timer_set x then 1 else 0).
  assert (Hfin : forall s', (forall st, st = (if submit then FSubmit o false :: rest else rest) ->
      Inv (return_to t st v0 None s')) ->
    good (if submit then Next (return_to t (FSubmit o false :: rest) v0 None s') []
          else Next (return_to t rest v0 None s') [])) by (intros s' H; destruct submit; by apply H).
  destruct due as [[v abs]|].
  2: { apply Hfin. intros st ->. by apply (set_timer_inv s HI t th Ht o tmo per win rest Hst c Hc Hh x Hx Hlock). }
  change (timers (set_timers (unlinked_queue s o x) s)) with (unlinked_queue s o x).
  destruct (insert_timer_total (timer_of (put_object o (held c) (set_timer (Timer true true (bool_decide (tmo <> None)) v per win)
    (contents c)) (set_timers (unlinked_queue s o x) s))) v o (scanned abs (unlinked_queue s o x))) as (l & -> & Hl).
  { intros z Hz. eapply timer_of_unlinked; [done..|]. apply elem_of_app. destruct abs; auto. }
  case_bool_decide.
  - unfold with_update. edestruct update_timers_total as (due & Hu); [|rewrite Hu; apply Hfin; intros st ->].
    + intros z Hz. by eapply timer_of_inserted.
    + by eapply inserted_inv.
  - apply Hfin. intros st ->.
    pose proof (inserted_inv s HI t th Ht o tmo per win rest Hst c Hc Hh x Hx Hlock
      (Timer true true (bool_decide (tmo <> None)) v per win) abs l Hl (armed (unlinked_queue s o x)) submit v0
      eq_refl eq_refl) as H2.
    by destruct abs.
Qed.
End TpTimers.
