(* ===== verification/TpGroups.v ===== *)
(** * The thread pool: cancelling, waiting, and the release of the members of a
    group

    tp_object_cancel, tp_object_wait, TpReleaseWork, TpReleaseTimer and
    TpReleaseCleanupGroupMembers keep the invariant. *)
From S2P Require Import Prelude Threadpool TpInv TpUpdate TpSteps TpRelease TpSubmit TpAlloc TpWorker TpTimers.

Module TpGroups.
Import Tp TpInv TpUpdate TpSteps TpRelease TpSubmit TpAlloc TpWorker TpTimers.

Lemma cancel_object_eq h ob T : live_object h ob T ->
  cancel_object ob = set_callbacks 0 (num_running_callbacks ob) (num_associated_callbacks ob) ob.
Proof. intros L. pose proof (lo_kind _ _ _ L) as H. unfold cancel_object. by destruct (u ob). Qed.

(** An object that someone is going to shut down has its pool. *)
Lemma kept_pool s o c : Inv s -> at_ (objects s) o = Some c -> 1 <= b2z (held c) + otot s o KRef ->
  otot s o KPast5 = 0 /\ exists cp, at_ (pools s) (opool (contents c)) = Some cp.
Proof.
  intros HI Hc Hk. assert (otot s o KPast5 = 0) as Hp.
  { object_facts HI o c Hc.
    assert (1 <= refcount (contents c)).
    { destruct (shutdown (contents c) || is_simple (contents c)); lia. }
    destruct (Z.eqb_spec (refcount (contents c)) 0); lia. }
  split; [done|]. by eapply (object_pool s HI).
Qed.

(** ** Steps that change nothing but the frames *)
Section Goto.
Context (s : state) (HI : Inv s) (t : nat) (th : thread) (Ht : threads s !! t = Some th).
Context (f : frame) (rest st : list frame) (Hst : stack th = f :: rest).

Lemma pool_goto :
  (forall k i, stot (oc k i) st = stot (oc k i) (f :: rest)) ->
  (forall k i, stot (pc k i) st = stot (pc k i) (f :: rest)) ->
  (forall i, stot (gc i) st = stot (gc i) (f :: rest)) -> stot tc st = stot tc (f :: rest) ->
  calm f -> timers_frame_of f = false -> shape st ->
  (forall x, x ∈ st -> x ∈ f :: rest \/ frame_ok s t x) ->
  Inv (goto t st s).
Proof.
  intros Hoc Hpc Hgc Htc Hcalm Hft Hsh Hfr.
  assert (Hd : forall F, delta th (Thread st (ret th) (out th)) [] F = stot F st - stot F (f :: rest))
    by (intros F; unfold delta; simpl stack; rewrite Hst, total_nil; lia).
  erewrite (goto_after s s t th st []); [|done|by rewrite app_nil_r].
  assert (HF : focus_ok s t th (Thread st (ret th) (out th)) [] (length (objects s)) (length (pools s))
    (length (groups s)) (objects s) (pools s) (groups s) (default_threadpool s)).
  { split; try done; [| | |focus_tac..]; intros; rewrite Hd, ?Hoc, ?Hpc, ?Hgc; lia. }
  eapply inv_quiet_keep; [done|done| |split|unchanged_tac|unchanged_tac].
  - split; try done; try (same_tac; done).
    + rewrite Hd, Htc. lia.
    + by eapply calm_keeps.
    + unfold keeps_scanning. rewrite Hst. intros ph [= -> _] Hs. simpl in Hft. congruence.
    + intros x Hx. rewrite Hst. destruct (Hfr x Hx); auto.
    + by intros ? ?%elem_of_nil.
  - eapply loc_object_keep; [done..|]. intros. rewrite Hd, Hoc. lia.
  - eapply loc_pool_keep; rewrite ?at_end; try done. intros. rewrite Hd, Hpc. lia.
  - eapply loc_group_keep; rewrite ?at_end; try done. rewrite Hd, Hgc. lia.
Qed.

End Goto.

(** ** tp_object_cancel *)
Section Cancel.
Context (s : state) (HI : Inv s) (t : nat) (th : thread) (Ht : threads s !! t = Some th).
Context (o : nat) (c : cell object) (Hc : at_ (objects s) o = Some c)
  (Hkeep : 1 <= b2z (held c) + otot s o KKeep).
Notation n := (num_pending_callbacks (contents c)).
Context (f : frame) (rest st : list frame) (Hst : stack th = f :: rest) (Hcalm : calm f).
Context (Hft : timers_frame_of f = false).
Context (Hoc : forall k i, stot (oc k i) st - stot (oc k i) (f :: rest) = dref n k * eqz i o)
        (Hpc : forall k i, stot (pc k i) st = stot (pc k i) (f :: rest))
        (Hgc : forall i, stot (gc i) st = stot (gc i) (f :: rest))
        (Htc : stot tc st = stot tc (f :: rest)).
Context (Hshape : shape st).
Context (Hframes : forall x, x ∈ st -> x ∈ f :: rest \/ frame_ok s t x).
Notation th' := (Thread st (ret th) (out th)).

Lemma cancel_delta F : delta th th' [] F = stot F st - stot F (f :: rest).
Proof. unfold delta. simpl stack. rewrite Hst, total_nil. lia. Qed.

Lemma cancelled_object :
  live_object (held c) (set_callbacks 0 (num_running_callbacks (contents c))
    (num_associated_callbacks (contents c)) (contents c)) (fun k => otot s o k + dref n k).
Proof.
  object_facts HI o c Hc. split; simpl; autorewrite with tp; rewrite ?Z.add_0_r; try assumption; try lia.
  - intros Hs. destruct (is_simple (contents c)); lia.
  - intros Hs. destruct (lo_simple0 Hs). split; [done|lia].
Qed.

Context (cp : cell pool) (Hcp : at_ (pools s) (opool (contents c)) = Some cp).
Notation pl' := (if n =? 0 then contents cp
                 else set_queues (map (list_remove o) (queues (contents cp))) (contents cp)).

Lemma cancelled_pool :
  pshutdown pl' = pshutdown (contents cp) /\ num_workers pl' = num_workers (contents cp) /\
  objcount pl' = objcount (contents cp) /\ prefcount pl' = prefcount (contents cp) /\
  num_busy_workers pl' = num_busy_workers (contents cp) /\ qlen pl' <= qlen (contents cp).
Proof.
  destruct (n =? 0); simpl; split_and!; try done. unfold qlen. simpl. rewrite concat_remove.
  unfold list_remove. pose proof (length_filter (fun x => x <> o) (concat (queues (contents cp)))). lia.
Qed.

Lemma cancel_inv :
  Inv (goto t st (put_object o (held c) (cancel_object (contents c)) (put_pool (opool (contents c)) (held cp) pl' s))).
Proof.
  rewrite (cancel_object_eq _ _ _ (live s HI o c Hc)).
  destruct cancelled_pool as (P1 & P2 & P3 & P4 & P5 & P6).
  pose proof (lo_pending _ _ _ (live s HI o c Hc)) as Hn.
  erewrite (goto_after s _ t th st []); [|done|by rewrite app_nil_r]. state_simpl.
  assert (HF : focus_ok s t th th' [] o (opool (contents c)) (group_or s (contents c))
    (<[o := Some (Cell (held c) (set_callbacks 0 (num_running_callbacks (contents c))
       (num_associated_callbacks (contents c)) (contents c)))]> (objects s))
    (<[opool (contents c) := Some (Cell (held cp) pl')]> (pools s)) (groups s) (default_threadpool s)).
  { split; [done|intros; heap_tac..|done| | | |focus_tac|focus_tac].
    - intros k i Hi. rewrite cancel_delta, Hoc, eqz_ne by done. lia.
    - intros k i Hi. rewrite cancel_delta, Hpc. lia.
    - intros i Hi. rewrite cancel_delta, Hgc. lia. }
  eapply inv_quiet; [done|done| |split|].
  - split; try done; try (same_tac; done).
    + by rewrite cancel_delta, Htc, Z.sub_diag.
    + by eapply calm_keeps.
    + unfold keeps_scanning. rewrite Hst. intros ph [= -> _] Hs. simpl in Hft. congruence.
    + intros x Hx. rewrite Hst. destruct (Hframes x Hx); auto.
    + by intros ? ?%elem_of_nil.
  - at_tac. apply (object_ok_ext _ (fun k => otot s o k + dref n k)); [|apply cancelled_object].
    intros k. unfold T'. rewrite cancel_delta, Hoc, eqz_refl. lia.
  - at_tac. pool_facts HI (opool (contents c)) cp Hcp. unfold refs', objs', left_over, T'. at_tac. simpl.
    rewrite !cancel_delta, !Hoc. simpl.
    split; rewrite ?P1, ?P2, ?P3, ?P4, ?P5, ?cancel_delta, ?Hpc; rewrite ?Z.sub_diag, ?Z.add_0_r, ?Z.sub_add;
      try assumption; try lia; pool_tail.
  - eapply loc_group_keep; [done..| |]; at_tac; simpl; unfold T'; rewrite ?cancel_delta, ?Hoc, ?Hgc; simpl; [lia|].
    by rewrite Z.add_0_r.
  - destruct (Z.eqb_spec n 0) as [Hz|Hz].
    + queues_tac.
    + eapply (requeue_queues s HI o (opool (contents c)) c cp false); try done; simpl; lia.
Qed.
End Cancel.

Lemma cancel_good s t th o c f rest (st : nat -> list frame) (es : Z -> list event_) :
  Inv s -> threads s !! t = Some th -> at_ (objects s) o = Some c ->
  1 <= b2z (held c) + otot s o KKeep ->
  stack th = f :: rest -> calm f -> timers_frame_of f = false ->
  (forall n k i, stot (oc k i) (st n) - stot (oc k i) (f :: rest) = dref (Z.of_nat n) k * eqz i o) ->
  (forall n k i, stot (pc k i) (st n) = stot (pc k i) (f :: rest)) ->
  (forall n i, stot (gc i) (st n) = stot (gc i) (f :: rest)) ->
  (forall n, stot tc (st n) = stot tc (f :: rest)) ->
  (forall n, shape (st n)) ->
  (forall n x, x ∈ st n -> x ∈ f :: rest \/ frame_ok s t x) ->
  good (cancel_section t o s (fun n s => Next (goto t (st (Z.to_nat n)) s) (es n))).
Proof.
  intros HI Ht Hc Hkeep Hst Hcalm Hft Hoc Hpc Hgc Htc Hsh Hfr.
  pose proof (lo_pending _ _ _ (live s HI o c Hc)) as Hn.
  destruct (kept_pool s o c HI Hc) as [_ Hp]. { destruct (otot_counts s o). lia. }
  apply good_object; [eauto|]. intros c2 Hc2. assert (c2 = c) as -> by congruence.
  apply good_pool; [done|]. intros cp Hcp. apply good_enter. intros _. cbv zeta.
  eapply cancel_inv; eauto. intros k i. rewrite Hoc, Z2Nat.id by done. done.
Qed.

Section Client.
Context (s : state) (HI : Inv s) (t : nat) (th : thread) (Ht : threads s !! t = Some th).
Context (o : nat) (rest : list frame) (a : answers).

Lemma fcancel :
  stack th = FCancel o :: rest ->
  good (cancel_section t o s (fun n s => Next (goto t (FCancelRelease o (Z.to_nat n) :: rest) s) [ECancel o n])).
Proof.
  intros Hst. pose proof (inv_shape _ HI t th Ht) as Hsh. rewrite Hst in Hsh. simpl in Hsh.
  pose proof (inv_frames _ HI t th _ Ht (top_in _ _ _ Hst)) as (c & Hc & Hh & _).
  eapply (cancel_good s t th o c _ rest (fun n => FCancelRelease o n :: rest)); try done.
  - rewrite Hh. pose proof (counts_all _ (otot_counts s o)). destruct_and!. simpl. lia.
  - intros n k i. rewrite !stot_cons. destruct k; simpl; lia.
  - intros n x [->|Hx]%elem_of_cons; [by right|left; by right].
Qed.

Lemma fcancel_release n :
  stack th = FCancelRelease o n :: rest ->
  good (frame_step t (FCancelRelease o n) rest a s).
Proof.
  intros Hst. pose proof (inv_shape _ HI t th Ht) as Hsh. rewrite Hst in Hsh. simpl in Hsh.
  destruct n as [|n]; cbn [frame_step good]; eapply (pool_goto s HI t th Ht); try done.
  - intros k i. rewrite !stot_cons. destruct k; simpl; lia.
  - by apply resting_shape.
  - intros x Hx. left. by right.
  - intros k i. rewrite !stot_cons. destruct k; simpl; lia.
  - by constructor.
  - intros x Hx. apply elem_of_cons in Hx as [->|Hx]; [by right|].
    apply elem_of_cons in Hx as [->|Hx]; [by right|left; by right].
Qed.

Lemma wait_good grp fin sleep c :
  at_ (objects s) o = Some c -> 1 <= b2z (held c) + otot s o KRef ->
  good fin -> good sleep -> good (wait_section t o grp s fin sleep).
Proof.
  intros Hc Hk Hf Hs. destruct (kept_pool s o c HI Hc Hk) as [_ Hp].
  apply good_object; [eauto|]. intros c2 Hc2. assert (c2 = c) as -> by congruence.
  apply good_pool; [done|]. intros cp Hcp. apply good_enter. intros _.
  by destruct (dll_shutdown s || object_is_finished (contents c) grp).
Qed.

Lemma fwait asleep :
  stack th = FWait o asleep :: rest -> good (frame_step t (FWait o asleep) rest a s).
Proof.
  intros Hst. pose proof (inv_shape _ HI t th Ht) as Hsh.
  pose proof (inv_frames _ HI t th _ Ht (top_in _ _ _ Hst)) as Hok. pose proof Hok as (c & Hc & Hh & _).
  destruct asleep; simpl.
  - destruct (timed_out a); [|done]. open_goto s t th.
    quiet_keep t th (length (objects s)) (length (pools s)) (length (groups s)). by left.
  - eapply wait_good; [done| | |].
    + rewrite Hh. pose proof (counts_all _ (otot_counts s o)). destruct_and!. simpl. lia.
    + open_goto s t th. quiet_keep t th (length (objects s)) (length (pools s)) (length (groups s)).
    + open_goto s t th. quiet_keep t th (length (objects s)) (length (pools s)) (length (groups s)). by left.
Qed.

(** The object that the client has released *)
Lemma closing b : stack th = FClose o b :: rest ->
  1 <= otot s o KKeep /\ 1 <= otot s o KClose /\ 1 <= otot s o KRef /\ b2z b <= otot s o KReady /\
  exists c, at_ (objects s) o = Some c /\ is_simple (contents c) = false.
Proof.
  intros Hst. pose proof (fun k => frame_otot s t th _ k o Ht (top_in _ _ _ Hst)) as H.
  pose proof (H KKeep) as H1. pose proof (H KClose) as H2. pose proof (H KRef) as H3. pose proof (H KReady) as H4.
  simpl in H1, H2, H3, H4. rewrite eqz_refl in *. split_and!; [done..|lia|].
  destruct (ref_live s HI o) as [c Hc].
  { pose proof (counts_all _ (otot_counts s o)). destruct_and!. lia. }
  exists c. split; [done|]. destruct (is_simple (contents c)) eqn:E; [|done].
  pose proof (lo_closed _ _ _ (live s HI o c Hc) E). lia.
Qed.

Lemma close_prepare :
  stack th = FClose o false :: rest -> good (frame_step t (FClose o false) rest a s).
Proof.
  intros Hst. pose proof (inv_shape _ HI t th Ht) as Hsh. rewrite Hst in Hsh. simpl in Hsh.
  destruct (closing false Hst) as (Hk & _ & _ & _ & c & Hc & _).
  eapply (prepare_good s HI t th Ht o c Hc Hk _ rest _ Hst); try done.
  - intros k i. rewrite !stot_cons. destruct k; simpl; lia.
  - by eapply calm_keeps.
  - intros x [->|Hx]%elem_of_cons; [by right|left; by right].
Qed.

Definition dclose (k : okind) : Z := match k with KKeep | KReady | KClose => -1 | _ => 0 end.

(** What holds of an object that is shut down now *)
Lemma closed_object c D :
  at_ (objects s) o = Some c -> 1 <= otot s o KKeep -> 1 <= otot s o KReady ->
  (is_simple (contents c) = false -> shutdown (contents c) = false -> otot s o KGroup = 0) ->
  otot s o KEarly = 0 -> (otot s o KClose + D KClose = 0 \/ is_simple (contents c) = false) ->
  D KRef = 0 -> D KGroup = 0 -> D KRun = 0 -> D KAssoc = 0 -> D KDestroy = 0 -> D KOne <= 0 -> D KPast2 = 0 ->
  D KEarly = 0 -> D KInit = 0 -> D KRelease = 0 -> D KKeep <= 0 ->
  (is_simple (contents c) = false -> otot s o KRelease = 0) ->
  live_object (held c) (set_shutdown (contents c)) (fun k => otot s o k + D k).
Proof.
  intros Hc Hk Hr Hg He Hcl D1 D2 D3 D4 D5 D6 D7 D8 D9 D10 D11 Hrel. object_facts HI o c Hc.
  split; simpl; autorewrite with tp; rewrite ?D1, ?D2, ?D3, ?D4, ?D5, ?D7, ?D8, ?D9, ?D10, ?Z.add_0_r;
    try assumption; try done; try lia.
  - destruct (is_simple (contents c)), (shutdown (contents c)); simpl in *; rewrite ?Hg in * by done; lia.
  - intros Hh. destruct (lo_held0 Hh) as (_ & _ & ?). lia.
  - intros Hi. destruct (lo_timer0 Hi). lia.
  - intros Hi Hs. destruct (lo_init0 Hi Hs) as (_ & _ & _ & ?). lia.
  - intros Hs. destruct Hcl; [done|congruence].
  - intros Hr2 Hs. specialize (Hrel Hs). lia.
Qed.

Lemma close_shutdown :
  stack th = FClose o true :: rest -> good (frame_step t (FClose o true) rest a s).
Proof.
  intros Hst. pose proof (inv_shape _ HI t th Ht) as Hsh.
  destruct (closing true Hst) as (Hk & Hcl & Hr & Hrd & c & Hc & Hsi). simpl in Hrd.
  apply good_object; [eauto|]. intros c2 Hc2. assert (c2 = c) as -> by congruence. open_goto s t th.
  quiet_keep t th o (opool (contents c)) (group_or s (contents c)). { done. }
  at_tac. sums dclose. pose proof (live s HI o c Hc) as L.
  pose proof (counts_all _ (otot_counts s o)). destruct_and!. destruct (otot_counts s o).
  assert (Hone : shutdown (contents c) = false -> otot s o KKeep <= 1).
  { intros Hs. pose proof (lo_only _ _ _ L Hs Hsi). destruct (held c); simpl in *; lia. }
  apply (closed_object c dclose Hc); try done.
  - intros _ Hs. specialize (Hone Hs). lia.
  - destruct (Z.lt_ge_cases 0 (otot s o KEarly)) as [He|He]; [|lia].
    destruct (lo_early _ _ _ L ltac:(lia)). congruence.
  - by right.
  - intros _. destruct (Z.lt_ge_cases 0 (otot s o KRelease)) as [He|He]; [|lia].
    specialize (Hone (lo_release _ _ _ L ltac:(lia) Hsi)). lia.
Qed.
End Client.

(** ** The client gives up its pointer *)
(** No frame works on the object. *)
Lemma unused_counts s o : any_frame (uses_object o) s = false -> otot s o KClose = 0 /\ otot s o KInit = 0.
Proof.
  intros Ha.
  assert (forall k, (forall f, 0 < oc k o f -> uses_object o f = true) -> otot s o k <= 0) as H.
  { intros k Hk. apply Z.nlt_ge. intros Hpos. apply total_pos in Hpos as (t2 & th2 & f & Ht2 & Hf & Hp2).
    apply not_true_iff_false in Ha. apply Ha, existsb_exists. exists th2.
    split; [by eapply list_elem_of_In, list_elem_of_lookup_2|]. apply existsb_exists. exists f.
    split; [by apply list_elem_of_In|auto]. }
  pose proof (counts_all _ (otot_counts s o)). destruct_and!.
  assert (Hz : forall o', 0 < eqz o o' -> bool_decide (o = o') = true).
  { intros o' Hp2. unfold eqz in Hp2. apply bool_decide_eq_true. by case_decide. }
  pose proof (H KClose) as Hcl. pose proof (H KInit) as Hin.
  split; apply Z.le_antisymm; try done; [apply Hcl|apply Hin]; intros []; simpl; try lia; try (destruct ph; simpl; lia).
  all: try (destruct ph; simpl); auto.
Qed.

Section Unheld.
Context (s : state) (HI : Inv s) (t : nat) (th : thread) (Ht : threads s !! t = Some th).
Context (o : nat) (c : cell object) (Hc : at_ (objects s) o = Some c) (ob' : object).
Context (Hp : opool ob' = opool (contents c)) (Hg : ogroup ob' = ogroup (contents c))
        (Hu : u ob' = u (contents c)).
Context (Hfree : held c = false \/ any_frame (uses_object o) s = false).

Lemma unused_frame t2 th2 f : held c = true -> threads s !! t2 = Some th2 -> f ∈ stack th2 ->
  uses_object o f = false.
Proof.
  intros Hh Ht2 Hf. destruct Hfree as [|Ha]; [congruence|]. unfold any_frame in Ha.
  apply not_true_iff_false. intros Hu2. apply not_true_iff_false in Ha. apply Ha, existsb_exists.
  exists th2. split; [by eapply list_elem_of_In, list_elem_of_lookup_2|]. apply existsb_exists. exists f.
  split; [by apply list_elem_of_In|done].
Qed.

Lemma unheld_frame th' P G d tq dl t2 f :
  (held c = true -> uses_object o f = false) -> P = pools s -> G = groups s -> d = default_threadpool s ->
  tq = timers s -> frame_ok s t2 f ->
  frame_ok (after s t th' [] (<[o := Some (Cell false ob')]> (objects s)) P G d tq dl) t2 f.
Proof.
  intros Huse -> -> -> -> Hok.
  assert (Hob : forall i ci, at_ (objects s) i = Some ci ->
    exists ci', at_ (<[o := Some (Cell false ob')]> (objects s)) i = Some ci' /\
      opool (contents ci') = opool (contents ci) /\ ogroup (contents ci') = ogroup (contents ci) /\
      u (contents ci') = u (contents ci)).
  { intros i ci Hi. destruct (decide (i = o)) as [->|Hne].
    - assert (ci = c) as -> by congruence. erewrite at_insert by done. by eexists.
    - rewrite at_insert_ne by done. eauto 10. }
  assert (Hheld : forall i Q, uses_object o f = bool_decide (o = i) -> held_obj s i Q ->
    held_obj (after s t th' [] (<[o := Some (Cell false ob')]> (objects s)) (pools s) (groups s)
      (default_threadpool s) (timers s) dl) i Q).
  { intros i Q Hb (ci & Hi & Hhi & HQ). exists ci. simpl. rewrite at_insert_ne; [done|].
    intros ->. assert (ci = c) as -> by congruence. rewrite (Huse Hhi) in Hb.
    by rewrite bool_decide_true in Hb. }
  destruct f; simpl in Hok |- *; try done; try (by apply Hheld).
  - destruct ph; try done; destruct Hok as (ci & Hi & E); destruct (Hob _ ci Hi) as (ci' & ? & ? & _);
      exists ci'; (split; [done|congruence]).
  - destruct ph; try done; destruct Hok as (? & ci & Hi & E1 & E2); (split; [done|]);
      destruct (Hob _ ci Hi) as (ci' & ? & _ & _ & Eu); exists ci'; unfold initialized, pending_timer in *;
      rewrite Eu; done.
  - destruct ph; try done; destruct Hok as (ci & Hi & E); destruct (Hob _ ci Hi) as (ci' & ? & _ & Eg & _);
      exists ci'; rewrite Eg; done.
  - destruct Hok as (ci & Hi & Ho & E); destruct (Hob _ ci Hi) as (ci' & ? & Ep & Eg & _).
    exists ci'. rewrite Ep, Eg. split_and!; [done..|]. by destruct ph.
Qed.

Lemma unheld_frames st v po P G d tq dl :
  P = pools s -> G = groups s -> d = default_threadpool s -> tq = timers s ->
  (forall f, f ∈ st -> f ∈ stack th \/ frame_ok (after s t (Thread st v po) []
     (<[o := Some (Cell false ob')]> (objects s)) P G d tq dl) t f) ->
  shape st ->
  frames_ok s t (Thread st v po) [] (<[o := Some (Cell false ob')]> (objects s)) P G d tq dl.
Proof.
  intros HP HG Hd Htq Htop Hsh. split; [| | |done|].
  - intros t2 th2 f Hne Ht2 Hf Hok. apply unheld_frame; try done. intros Hh. by eapply unused_frame.
  - intros f Hf. destruct (Htop f Hf); [|done]. apply unheld_frame; try done; [|by eapply (inv_frames _ HI)].
    intros Hh. by eapply unused_frame.
  - by intros ? ? ? ?%elem_of_nil.
  - by intros ? ?%elem_of_nil.
Qed.

End Unheld.

(** ** TpReleaseCleanupGroupMembers *)
Section Members.
Context (s : state) (HI : Inv s) (t : nat) (th : thread) (Ht : threads s !! t = Some th).
Context (g : nat) (cancel : bool) (rest : list frame) (a : answers).

Lemma members_frame ph : stack th = FMembers g cancel ph :: rest ->
  Forall (fun f => resting f = true) rest /\ exists c, at_ (groups s) g = Some c /\ held c = true.
Proof.
  intros Hst. pose proof (inv_shape _ HI t th Ht) as Hsh. rewrite Hst in Hsh. split; [done|].
  destruct (inv_frames _ HI t th _ Ht (top_in _ _ _ Hst)) as (c & ? & ? & _). eauto.
Qed.

Lemma oc_members k o g' c ph : oc k o (FMembers g' c ph) = members_lists k o ph.
Proof. done. Qed.

(** An object in one of the lists of the frame *)
Lemma members_ref ph o : stack th = FMembers g cancel ph :: rest -> 1 <= members_lists KRef o ph ->
  1 <= otot s o KRef /\ exists c, at_ (objects s) o = Some c.
Proof.
  intros Hst H. pose proof (frame_otot s t th _ KRef o Ht (top_in _ _ _ Hst)) as Hr.
  rewrite oc_members in Hr. split; [lia|]. apply (ref_live s HI). pose proof (counts_all _ (otot_counts s o)). destruct_and!. lia.
Qed.

Definition lists_ok (ph : mphase) : Prop :=
  match ph with MCancel todo l | MCancelRelease _ _ todo l => todo ⊆ l | _ => True end.

(** Only the phase changes. *)
Lemma members_goto ph ph' :
  stack th = FMembers g cancel ph :: rest ->
  (forall k i, members_lists k i ph' = members_lists k i ph) ->
  calm (FMembers g cancel ph) -> calm (FMembers g cancel ph') -> lists_ok ph' ->
  Inv (goto t (FMembers g cancel ph' :: rest) s).
Proof.
  intros Hst Hl Hc Hc' Hok. destruct (members_frame ph Hst) as [Hsh (c & Hcg & Hh)].
  eapply (pool_goto s HI t th Ht); try done.
  - intros k i. rewrite !stot_cons. f_equal. apply Hl.
  - intros x [->|Hx]%elem_of_cons; [right|left; by right]. exists c. split_and!; [done..|]. by destruct ph'.
Qed.

(** ... and a reference is released before. *)
Lemma members_release ph ph' o :
  stack th = FMembers g cancel ph :: rest ->
  (forall k i, members_lists k i ph = members_lists k i ph' + dref 1 k * eqz i o) ->
  calm (FMembers g cancel ph) -> resting (FMembers g cancel ph') = true -> lists_ok ph' ->
  Inv (goto t (FRelease o RDec :: FMembers g cancel ph' :: rest) s).
Proof.
  intros Hst Hl Hc Hc' Hok. destruct (members_frame ph Hst) as [Hsh (c & Hcg & Hh)].
  eapply (pool_goto s HI t th Ht); try done.
  - intros k i. rewrite !stot_cons, !oc_members, Hl. destruct k; simpl; lia.
  - by constructor.
  - intros x [->|[->|Hx]%elem_of_cons]%elem_of_cons; [by right|right|left; by right].
    exists c. split_and!; [done..|]. by destruct ph'.
Qed.

Lemma members_cancel o todo l :
  stack th = FMembers g cancel (MCancel (o :: todo) l) :: rest ->
  good (members_step t g cancel (MCancel (o :: todo) l) rest a s).
Proof.
  intros Hst. destruct (members_frame _ Hst) as [Hsh _].
  destruct (inv_frames _ HI t th _ Ht (top_in _ _ _ Hst)) as (cg & Hcg & Hh & Hsub).
  pose proof (countz_elem o l ltac:(apply Hsub; left)) as Hin.
  destruct (members_ref _ o Hst Hin) as [Hr [c Hc]].
  pose proof (frame_otot s t th _ KKeep o Ht (top_in _ _ _ Hst)) as Hk. simpl in Hk.
  eapply (cancel_good s t th o c _ rest (fun n => FMembers g cancel (MCancelRelease n o todo l) :: rest)); try done.
  - destruct (held c); simpl; lia.
  - intros n k i. rewrite !stot_cons. destruct k; simpl; lia.
  - intros n x [->|Hx]%elem_of_cons; [right|left; by right]. exists cg. split_and!; [done..|].
    intros y Hy. apply Hsub. by right.
Qed.


Lemma members_cancel_done l :
  stack th = FMembers g cancel (MCancel [] l) :: rest ->
  good (members_step t g cancel (MCancel [] l) rest a s).
Proof. intros Hst. by eapply members_goto. Qed.

Lemma members_cancel_release n o todo l :
  stack th = FMembers g cancel (MCancelRelease n o todo l) :: rest ->
  good (members_step t g cancel (MCancelRelease n o todo l) rest a s).
Proof.
  intros Hst. destruct (inv_frames _ HI t th _ Ht (top_in _ _ _ Hst)) as (cg & Hcg & Hh & Hsub).
  destruct n as [|n].
  - eapply members_goto; try done.
  - eapply members_release; try done. intros k i. destruct k; simpl; lia.
Qed.

Lemma members_wait asleep l :
  stack th = FMembers g cancel (MWait asleep l) :: rest ->
  good (members_step t g cancel (MWait asleep l) rest a s).
Proof.
  intros Hst. destruct (members_frame _ Hst) as [Hsh _]. destruct l as [|o l].
  - assert (Inv (goto t rest s)).
    { eapply (pool_goto s HI t th Ht); try done; [|by apply resting_shape|intros x Hx; left; by right].
      intros k i. rewrite !stot_cons. destruct k; simpl; lia. }
    by destruct asleep.
  - destruct asleep; simpl.
    + destruct (timed_out a); [|done]. by eapply members_goto.
    + destruct (members_ref _ o Hst) as [Hr [c Hc]].
      { simpl. rewrite eqz_refl. pose proof (countz_nonneg o l). lia. }
      eapply (wait_good s HI t o true _ _ c Hc); [destruct (held c); simpl; lia| |]; by eapply members_goto.
Qed.

Definition dgroup (r gr rel : Z) (k : okind) : Z :=
  match k with KRef => r | KGroup => gr | KRelease => rel | _ => 0 end.

(** The first object of the list that is left *)
Lemma members_first ph o l :
  stack th = FMembers g cancel ph :: rest ->
  ph = MCheck o l \/ ph = MRelease o l \/ ph = MShutdown o l ->
  1 <= otot s o KRef /\ 1 <= otot s o KKeep /\ 1 <= otot s o KReady /\
  exists c, at_ (objects s) o = Some c.
Proof.
  intros Hst Hph. pose proof (fun k => frame_otot s t th _ k o Ht (top_in _ _ _ Hst)) as H.
  pose proof (H KKeep) as H1. pose proof (H KReady) as H2.
  assert (members_lists KRef o ph = 1 + countz o l /\ members_lists KKeep o ph = 1 + countz o l /\
    members_lists KReady o ph = 1 + countz o l) as (E1 & E2 & E3).
  { destruct Hph as [-> | [-> | ->]]; simpl; rewrite eqz_refl; done. }
  pose proof (countz_nonneg o l). rewrite oc_members, E2 in H1. rewrite oc_members, E3 in H2.
  destruct (members_ref ph o Hst ltac:(lia)) as [? ?]. split_and!; [done|lia..|done].
Qed.

Lemma members_check o l :
  stack th = FMembers g cancel (MCheck o l) :: rest ->
  good (members_step t g cancel (MCheck o l) rest a s).
Proof.
  intros Hst. pose proof (inv_shape _ HI t th Ht) as Hsh. destruct (members_frame _ Hst) as [_ (cg & Hcg & Hh)].
  destruct (members_first _ o l Hst ltac:(auto)) as (_ & _ & _ & c & Hc).
  apply good_object; [eauto|]. intros c2 Hc2. assert (c2 = c) as -> by congruence.
  destruct (shutdown (contents c)) eqn:Hs; [|destruct (cancel && group_cancel_callback (contents c))].
  all: open_goto s t th; quiet_keep t th o (opool (contents c)) (group_or s (contents c));
    [left; by exists cg|at_tac].
  - sums (dgroup 0 (-1) 0). object_facts HI o c Hc.
    split; simpl; rewrite ?Z.add_0_r; try assumption. by rewrite Hs in *.
  - sums (dgroup 0 0 1). object_facts HI o c Hc. split; simpl; rewrite ?Z.add_0_r; try assumption; done.
  - sums (dgroup 0 0 1). object_facts HI o c Hc. split; simpl; rewrite ?Z.add_0_r; try assumption; done.
Qed.

Lemma members_callback o l :
  stack th = FMembers g cancel (MCallback o l) :: rest ->
  good (members_step t g cancel (MCallback o l) rest a s).
Proof. intros Hst. by eapply members_goto. Qed.

Lemma members_release_client o l :
  stack th = FMembers g cancel (MRelease o l) :: rest ->
  good (members_step t g cancel (MRelease o l) rest a s).
Proof.
  intros Hst. pose proof (inv_shape _ HI t th Ht) as Hsh. destruct (members_frame _ Hst) as [_ (cg & Hcg & Hh)].
  destruct (members_first _ o l Hst ltac:(auto)) as (_ & _ & _ & c & Hc).
  pose proof (frame_otot s t th _ KRelease o Ht (top_in _ _ _ Hst)) as Hrel. simpl in Hrel. rewrite eqz_refl in Hrel.
  apply good_object; [eauto|]. intros c2 Hc2. assert (c2 = c) as -> by congruence.
  destruct (is_simple (contents c)) eqn:Hsi; open_goto s t th;
    quiet_keep t th o (opool (contents c)) (group_or s (contents c)).
  - left; by exists cg.
  - at_tac. sums (dgroup 0 (-1) (-1)). object_facts HI o c Hc.
    split; simpl; rewrite ?Z.add_0_r; try assumption; rewrite ?Hsi, ?orb_true_r in *; try done.
  - left; by exists cg.
  - by constructor.
  - at_tac. sums (dgroup 1 (-1) (-1)). object_facts HI o c Hc. pose proof (lo_release0 Hrel Hsi) as Hs.
    split; simpl; rewrite ?Z.add_0_r; try assumption; [|done]. rewrite Hs, Hsi in *. simpl in *. lia.
Qed.

Definition dlast (k : okind) : Z := match k with KKeep | KReady | KOne => -1 | _ => 0 end.

Lemma members_shutdown o l :
  stack th = FMembers g cancel (MShutdown o l) :: rest ->
  good (members_step t g cancel (MShutdown o l) rest a s).
Proof.
  intros Hst. pose proof (inv_shape _ HI t th Ht) as Hsh. destruct (members_frame _ Hst) as [_ (cg & Hcg & Hh)].
  destruct (members_first _ o l Hst ltac:(auto)) as (Hr & Hk & Hrd & c & Hc).
  apply good_object; [eauto|]. intros c2 Hc2. assert (c2 = c) as -> by congruence. open_goto s t th.
  quiet_keep t th o (opool (contents c)) (group_or s (contents c)).
  - done.
  - left; by exists cg.
  - by constructor.
  - at_tac. sums dlast. pose proof (live s HI o c Hc) as L.
    pose proof (counts_all _ (otot_counts s o)). destruct_and!. destruct (otot_counts s o).
    pose proof (total_slack (oc KOne o) (fun f => oc KGroup o f + oc KEarly o f) (threads s) t th _
      ltac:(clear; oc_cases) Ht (top_in _ _ _ Hst)) as Hs1.
    rewrite total_add in Hs1. fold (otot s o KOne) (otot s o KGroup) (otot s o KEarly) in Hs1. simpl in Hs1.
    rewrite eqz_refl in Hs1. pose proof (lo_one _ _ _ L).
    assert (0 <= b2z (is_group_member (contents c))) by (destruct (is_group_member (contents c)); simpl; lia).
    apply (closed_object s HI o c dlast Hc); try done; try lia.
    destruct (is_simple (contents c)) eqn:Hsi; [left|by right]. rewrite (lo_closed _ _ _ L Hsi). done.
Qed.

(** *** The iteration over the members *)
Lemma members_top ph th' : stack th = FMembers g cancel ph :: rest -> keeps_iterating th th' (fun i => i <> g).
Proof.
  intros Hst i l r f rest' Hi Hst' Hit. rewrite Hst in Hst'. injection Hst' as <- <-.
  destruct Hit as (c & [[= -> _ _]|(x & l' & _ & [= -> _ _])]); done.
Qed.

Lemma resting_locking f : resting f = true -> locking f = false.
Proof. destruct f; try done. by destruct ph. Qed.

Lemma members_enter :
  stack th = FMembers g cancel MEnter :: rest ->
  good (members_step t g cancel MEnter rest a s).
Proof.
  intros Hst. pose proof (inv_shape _ HI t th Ht) as Hsh. destruct (members_frame _ Hst) as [_ (cg & Hcg & Hh)].
  apply good_group; [eauto|]. intros c Hc. assert (c = cg) as -> by congruence.
  destruct (gcs (contents cg)) as [|] eqn:Hg; [done|]. open_goto s t th.
  update_start t th (length (objects s)) (length (pools s)) g.
  - at_tac. destruct (lgroup s HI g cg Hcg). split; simpl; [|done]. unfold grefs', left_group. rewrite !at_end.
    delta_tac. lia.
  - queues_tac.
  - stable_tac. right. simpl. eexists. erewrite at_insert by done. done.
  - homes_tac.
  - split; [|calm_tac]. cell_inv. destruct (inv_members _ HI g cg Hcg) as (l & r & Hlr & Hn & Hr & Hl).
    rewrite Hg in Hl. subst l. exists [], r. split_and!; [done..|]. eexists _, _, _.
    split_and!; [by eapply lookup_alter_app|done|]. exists cancel. left. by rewrite Hlr.
  - timers_tac.
Qed.

(** What the iterating thread knows *)
Lemma iterating l r :
  stack th = FMembers g cancel (MLoop l r) :: rest ->
  exists cg, at_ (groups s) g = Some cg /\ held cg = true /\ gcs (contents cg) = Some t /\
    members (contents cg) = l ++ r /\ NoDup r /\ (forall x, x ∈ r <-> member_of s g x) /\
    (forall x, member_of s g x -> x ∉ l).
Proof.
  intros Hst. destruct (inv_frames _ HI t th _ Ht (top_in _ _ _ Hst)) as (cg & Hcg & Hh & Hg).
  exists cg. destruct (inv_members _ HI g cg Hcg) as (l' & r' & Hlr & Hn & Hr & Hl).
  rewrite Hg in Hl. destruct Hl as (th2 & f & rest2 & Ht2 & Hst2 & Hit).
  assert (th2 = th) as -> by congruence. rewrite Hst in Hst2. injection Hst2 as <- <-.
  destruct Hit as (c & [[= -> -> ->]|(x & l2 & _ & [=])]). split_and!; [done..|].
  intros x (c2 & Hc2 & _ & Hm) Hx. pose proof (lo_one _ _ _ (live s HI x c2 Hc2)) as Ho. rewrite Hm in Ho.
  pose proof (frame_otot s t th _ KOne x Ht (top_in _ _ _ Hst)) as Hk. simpl in Hk, Ho.
  pose proof (countz_elem x l' Hx). lia.
Qed.

Lemma members_end l :
  stack th = FMembers g cancel (MLoop l []) :: rest ->
  good (members_step t g cancel (MLoop l []) rest a s).
Proof.
  intros Hst. pose proof (inv_shape _ HI t th Ht) as Hsh.
  destruct (iterating l [] Hst) as (cg & Hcg & Hh & Hg & Hm & _ & Hr & _).
  apply good_group; [eauto|]. intros c Hc. assert (c = cg) as -> by congruence.
  destruct (members_frame _ Hst) as [Hrest _]. pose proof (fun th' => members_top _ th' Hst) as Htop.
  destruct cancel; open_goto s t th; (update_start t th (length (objects s)) (length (pools s)) g;
    [ at_tac; destruct (lgroup s HI g cg Hcg); split; simpl; [|done]; unfold grefs', left_group; rewrite !at_end;
      delta_tac; lia
    | queues_tac
    | eapply locked_frames; [eassumption|eassumption|split; cell_solve| |done|done]
    | homes_tac
    | split; [|apply Htop]; cell_inv; exists [], []; by split_and!; [|constructor|..]
    | timers_tac ]).
  all: intros f Hf; apply elem_of_cons in Hf as [->|Hf].
  all: try (left; split; [rewrite Hst; by right|]; apply resting_locking, (proj1 (Forall_forall _ _) Hrest f Hf)).
  all: right; simpl; eexists; erewrite at_insert by done; done.
Qed.

Definition dtake (k : okind) : Z := match k with KRef | KKeep | KOne | KGroup => 1 | _ => 0 end.

(** The object that the group takes *)
Lemma taken_object o c :
  at_ (objects s) o = Some c -> is_group_member (contents c) = true -> refcount (contents c) <> 0 ->
  is_simple (contents c) || negb (any_frame (uses_object o) s) = true ->
  live_object false (set_member false (set_refcount (refcount (contents c) + 1) (contents c)))
    (fun k => otot s o k + dtake k).
Proof.
  intros Hc Hm Hr Hq. object_facts HI o c Hc.
  assert (0 <= refcount (contents c)).
  { destruct (held c), (shutdown (contents c) || is_simple (contents c)); simpl in *; lia. }
  rewrite (proj2 (Z.eqb_neq _ _) Hr) in lo_destroy0.
  rewrite Hm in *. simpl in lo_one0.
  destruct (is_simple (contents c)) eqn:Hsi; simpl in Hq.
  - destruct (lo_simple0 eq_refl) as [Hh Hle]. rewrite Hh, orb_true_r in *. simpl in *.
    split; simpl; autorewrite with tp; rewrite ?Hsi, ?orb_true_r, ?Z.add_0_r; try assumption; try lia; try done.
    rewrite (proj2 (Z.eqb_neq (refcount (contents c) + 1) 0)) by lia. done.
  - destruct (unused_counts s o) as [Hcl Hin]; [by apply negb_true_iff|].
    assert (Hk : otot s o KKeep = 0) by lia.
    assert (Hh : b2z (held c) = b2z (negb (shutdown (contents c)))).
    { destruct (shutdown (contents c)) eqn:Hs, (held c) eqn:Hh; try done; simpl in *.
      - by destruct (lo_held0 eq_refl).
      - specialize (lo_keep0 eq_refl). lia. }
    split; simpl; autorewrite with tp; rewrite ?Hsi, ?Z.add_0_r; try assumption; try lia; try done.
    + destruct (shutdown (contents c)); simpl in *; lia.
    + rewrite (proj2 (Z.eqb_neq (refcount (contents c) + 1) 0)) by lia. done.
Qed.

Lemma members_take o l r :
  stack th = FMembers g cancel (MLoop l (o :: r)) :: rest ->
  good (members_step t g cancel (MLoop l (o :: r)) rest a s).
Proof.
  intros Hst. pose proof (inv_shape _ HI t th Ht) as Hsh. pose proof (fun th' => members_top _ th' Hst) as Htop.
  destruct (members_frame _ Hst) as [Hrest _].
  destruct (iterating l (o :: r) Hst) as (cg & Hcg & Hh & Hlock & Hm & Hn & Hr & Hnl).
  pose proof (proj1 (Hr o) ltac:(left)) as Hmo. pose proof (Hnl o Hmo) as Hol.
  destruct Hmo as (c & Hc & Hg & Hmem). apply NoDup_cons in Hn as [Hor Hn].
  apply good_object; [eauto|]. intros c2 Hc2. assert (c2 = c) as -> by congruence.
  apply good_group; [eauto|]. intros cg2 Hcg2. assert (cg2 = cg) as -> by congruence.
  apply good_assert; [by apply bool_decide_eq_true|]. apply good_assert; [done|].
  apply good_requires. intros Hq. destruct (Z.eqb_spec (refcount (contents c) + 1) 1) as [Hz|Hz].
  - open_goto s t th. update_start t th o (opool (contents c)) g.
    + at_tac. sums (dref 0). object_facts HI o c Hc.
      split; simpl; autorewrite with tp; rewrite ?Z.add_0_r; try assumption; [|done].
      rewrite Hmem in *. simpl in *. lia.
    + at_tac. destruct (lgroup s HI g cg Hcg). split; simpl; [|done].
      unfold grefs', left_group, in_group. at_tac. simpl. rewrite Hg, eqz_refl. unfold T'. delta_tac. lia.
    + queues_tac.
    + eapply locked_frames; [eassumption|eassumption|split; cell_solve| |done|done].
      intros f [->|Hf]%elem_of_cons.
      * right. simpl. eexists. erewrite at_insert by done. done.
      * left. split; [rewrite Hst; by right|]. apply resting_locking, (proj1 (Forall_forall _ _) Hrest f Hf).
    + homes_tac.
    + split; [|apply Htop]. cell_inv. exists l, r. simpl. rewrite Hm, Hlock. split_and!; [|done| |].
      * unfold list_remove. rewrite filter_app, filter_cons_False by tauto.
        fold (list_remove o l) (list_remove o r). by rewrite !list_remove_notin.
      * intros x. rewrite (member_insert s t o) by done. rewrite <- Hr, elem_of_cons. naive_solver.
      * eexists _, _, _. split_and!; [by eapply lookup_alter_app|done|]. exists cancel. by left.
    + timers_tac.
  - open_goto s t th. update_start t th o (opool (contents c)) g.
    + at_tac. sums dtake. apply taken_object; try done. lia.
    + queues_tac.
    + eapply (unheld_frames s HI t th Ht o c Hc); try done.
      * destruct (is_simple (contents c)) eqn:Hsi; [|right; by apply negb_true_iff].
        left. by apply (lo_simple _ _ _ (live s HI o c Hc)).
      * intros f [->|Hf]%elem_of_cons; [right; by exists cg|left; rewrite Hst; by right].
    + homes_tac.
    + split; [|apply Htop]. cell_inv. exists (l ++ [o]), r. rewrite <- app_assoc. split_and!; [done|done| |].
      * intros x. rewrite (member_insert s t o) by done. rewrite <- Hr, elem_of_cons. naive_solver.
      * rewrite Hlock. eexists _, _, _. split_and!; [by eapply lookup_alter_app|done|]. exists cancel. right.
        by exists o, l.
    + timers_tac.
Qed.

Lemma members_prepare o l r :
  stack th = FMembers g cancel (MPrepare o l r) :: rest ->
  good (members_step t g cancel (MPrepare o l r) rest a s).
Proof.
  intros Hst. destruct (members_frame _ Hst) as [Hrest _].
  destruct (inv_frames _ HI t th _ Ht (top_in _ _ _ Hst)) as (cg & Hcg & Hh & Hlock).
  pose proof (countz_nonneg o l). destruct (members_ref _ o Hst) as [Hr [c Hc]].
  { simpl. rewrite eqz_refl. lia. }
  pose proof (frame_otot s t th _ KKeep o Ht (top_in _ _ _ Hst)) as Hk. simpl in Hk. rewrite eqz_refl in Hk.
  eapply (prepare_good s HI t th Ht o c Hc ltac:(lia) _ rest _ Hst); try done.
  - intros k i. rewrite !stot_cons. destruct k; simpl; rewrite ?countz_app; simpl; lia.
  - intros i l' r' f rest' _ Hst' Hit. rewrite Hst in Hst'. injection Hst' as <- <-.
    exists (FMembers g cancel (MLoop (l ++ [o]) r)), rest. split; [done|].
    destruct Hit as (c2 & [[=]|(x & l2 & -> & [= <- <- <- <- <-])]). exists cancel. by left.
  - intros x [->|Hx]%elem_of_cons; [right; by exists cg|left; by right].
Qed.

Theorem members_good ph :
  stack th = FMembers g cancel ph :: rest -> good (members_step t g cancel ph rest a s).
Proof.
  destruct ph; intros Hst.
  - by apply members_enter.
  - destruct rest0 as [|o r]; [by apply members_end|by apply members_take].
  - by apply members_prepare.
  - destruct todo as [|o todo]; [by apply members_cancel_done|by apply members_cancel].
  - by apply members_cancel_release.
  - by apply members_wait.
  - by apply members_check.
  - by apply members_callback.
  - by apply members_release_client.
  - by apply members_shutdown.
Qed.

End Members.
End TpGroups.
