(* ===== verification/TpCalls.v ===== *)
(** * The thread pool: the calls of the interface

    Every function of the interface begins in a state that satisfies the
    invariant and keeps it; the calls on instances too. *)
From S2P Require Import Prelude Threadpool TpInv TpUpdate TpSteps TpRelease TpSubmit TpAlloc TpWorker TpTimers TpGroups.

Module TpCalls.
Import Tp TpInv TpUpdate TpSteps TpRelease TpSubmit TpAlloc TpWorker TpTimers TpGroups.

(** ** Steps that leave the stacks as they are *)
Lemma relabelled_refl th : relabelled th th.
Proof. apply Forall_Forall2_diag, Forall_true. intros. constructor. Qed.

Lemma inv_return s t th v po :
  Inv s -> threads s !! t = Some th -> Inv (return_to t (stack th) v po s).
Proof.
  intros HI Ht. apply inv_relabel; [done|]. apply Forall2_same_length_lookup_2.
  - by rewrite length_alter.
  - intros i x y Hx Hy. destruct (decide (i = t)) as [->|Hne].
    + rewrite list_lookup_alter_eq, Hx in Hy. injection Hy as <-. assert (x = th) as -> by congruence.
      exact (relabelled_refl th).
    + rewrite list_lookup_alter_ne in Hy by done. assert (x = y) as -> by congruence. apply relabelled_refl.
Qed.

Section Same.
Context (s : state) (HI : Inv s) (t : nat) (th : thread) (Ht : threads s !! t = Some th).

Lemma alter_same : alter (fun _ => th) t (threads s) = threads s.
Proof.
  apply list_eq. intros i. destruct (decide (i = t)) as [->|Hne].
  - by rewrite list_lookup_alter_eq, Ht.
  - by rewrite list_lookup_alter_ne.
Qed.

Lemma after_same new O P G d tq dl :
  after s t th new O P G d tq dl = State O P G d tq (threads s ++ new) dl.
Proof. unfold after. by rewrite alter_same. Qed.

Lemma same_iterating P : keeps_iterating th th P.
Proof. intros i l r f rest _ Hst Hit. eauto. Qed.

Lemma same_scanning : keeps_scanning th th.
Proof. intros ph Hst Hs. eauto. Qed.

(** The limits of a pool change, and workers start. *)
Lemma inv_pool_update p c n pl' :
  at_ (pools s) p = Some c -> (n = 0%nat \/ ptot s p PKeep = 0) ->
  prefcount pl' = prefcount (contents c) + Z.of_nat n -> num_workers pl' = num_workers (contents c) + Z.of_nat n ->
  objcount pl' = objcount (contents c) -> pshutdown pl' = pshutdown (contents c) ->
  queues pl' = queues (contents c) -> num_busy_workers pl' = num_busy_workers (contents c) ->
  Inv (put_pool p (held c) pl' (spawn_workers n p s)).
Proof.
  intros Hc Hn P1 P2 P3 P4 P5 P6. set (new := replicate n (Thread [FWorker p WStart] 0 None)).
  assert (Hd : forall F, delta th th new F = Z.of_nat n * F (FWorker p WStart))
    by (intros F; unfold delta, new; rewrite total_workers; lia).
  pose proof (after_same new (objects s) (<[p := Some (Cell (held c) pl')]> (pools s)) (groups s)
    (default_threadpool s) (timers s) (dll_shutdown s)) as E.
  change (Inv (State (objects s) (<[p := Some (Cell (held c) pl')]> (pools s)) (groups s)
    (default_threadpool s) (timers s) (threads s ++ new) (dll_shutdown s))). rewrite <- E.
  assert (HF : focus_ok s t th th new (length (objects s)) p (length (groups s)) (objects s)
    (<[p := Some (Cell (held c) pl')]> (pools s)) (groups s) (default_threadpool s)).
  { split; [done|done|intros; heap_tac|done..| | | |focus_tac|focus_tac]; intros; rewrite Hd; try (simpl; lia).
    destruct k; simpl; rewrite ?eqz_ne by done; lia. }
  eapply inv_quiet_keep; [done|done| |split|unchanged_tac|].
  - split; try done; try (same_tac; done).
    + rewrite Hd. simpl. lia.
    + apply same_iterating.
    + apply same_scanning.
    + intros x Hx. apply elem_of_replicate in Hx as [-> _]. eauto.
    + by apply (inv_shape _ HI t).
  - eapply loc_object_keep; [done..|]. intros k. rewrite Hd. destruct k; simpl; lia.
  - at_tac. pool_facts HI p c Hc. unfold refs', objs', left_over. rewrite !at_end. simpl.
    assert (qlen pl' = qlen (contents c)) as Hq by (unfold qlen; by rewrite P5).
    split; rewrite ?Hd, ?P1, ?P2, ?P3, ?P4, ?P6, ?Hq; simpl; rewrite ?eqz_refl; try assumption; try lia.
    + rewrite Z.mul_0_r, Z.add_0_r. done.
    + intros Hk. destruct lp_new0; [lia|]. split; [|done]. destruct Hn; [subst n; simpl; lia|lia].
    + intros Hw. specialize (lp_worker0 Hw). lia.
  - eapply loc_group_keep; rewrite ?at_end; try done. rewrite Hd. simpl. lia.
  - cell_inv. done.
Qed.

Lemma fresh_group : total (gc (length (groups s))) (threads s) = 0 /\ group_refs s (length (groups s)) = 0 /\
  forall x, ~ member_of s (length (groups s)) x.
Proof.
  pose proof (inv_group _ HI (length (groups s))) as H. rewrite at_end in H. destruct H as [H1 H2].
  split_and!; [done..|]. intros x Hx. destruct (member_counts s _ x HI Hx) as (c & Hc & Hg & Hn).
  pose proof (group_refs_elem s HI x c _ Hc Hg). lia.
Qed.

Lemma inv_new_group : Inv (alloc_group true (Group 1 false None []) s).
Proof.
  destruct fresh_group as (H1 & H2 & H3).
  pose proof (after_same [] (objects s) (pools s) (groups s ++ [Some (Cell true (Group 1 false None []))])
    (default_threadpool s) (timers s) (dll_shutdown s)) as E. rewrite app_nil_r in E.
  change (Inv (State (objects s) (pools s) (groups s ++ [Some (Cell true (Group 1 false None []))])
    (default_threadpool s) (timers s) (threads s) (dll_shutdown s))). rewrite <- E.
  assert (Hd : forall F, delta th th [] F = 0) by (intros F; unfold delta; rewrite total_nil; lia).
  assert (HF : focus_ok s t th th [] (length (objects s)) (length (pools s)) (length (groups s)) (objects s)
    (pools s) (groups s ++ [Some (Cell true (Group 1 false None []))]) (default_threadpool s)).
  { split; [done|done|done|intros; heap_tac|done..| | | |focus_tac|focus_tac]; intros; apply Hd. }
  eapply pool_update; [done|done|split| | | | |].
  - eapply loc_object_keep; [done..|]. intros k. apply Hd.
  - eapply loc_pool_keep; rewrite ?at_end; try done.
  - at_tac. split; simpl; [|done]. unfold grefs', left_group. rewrite !at_end, Hd. lia.
  - queues_tac.
  - eapply stable_frames; [done|done|split; cell_solve|auto|by intros ? ?%elem_of_nil|by apply (inv_shape _ HI t)].
  - homes_tac.
  - split; [|apply same_iterating]. cell_inv. exists [], []. split_and!; [done|constructor| |done].
    intros x. split; [by intros ?%elem_of_nil|]. intros Hx. by destruct (H3 x).
  - eapply timers_frame; try done. apply same_scanning.
Qed.

End Same.

(** ** Instances *)
Lemma set_instance_relabel i' st fl :
  last st = Some fl -> relabel fl (with_instance i' fl) -> Forall2 relabel st (set_instance i' st).
Proof.
  revert fl. induction st as [|x st IH]; intros fl Hl Hr; [done|]. destruct st as [|y st].
  - simpl in *. injection Hl as ->. by repeat constructor.
  - constructor; [constructor|]. by eapply IH.
Qed.

Lemma stot_set_instance F i' st fl : last st = Some fl ->
  stot F (set_instance i' st) = stot F st - F fl + F (with_instance i' fl).
Proof.
  revert fl. induction st as [|x st IH]; intros fl Hl; [done|]. destruct st as [|y st].
  - simpl in *. injection Hl as ->. unfold stot. simpl. lia.
  - change (set_instance i' (x :: y :: st)) with (x :: set_instance i' (y :: st)).
    rewrite stot_cons, (IH fl Hl), !stot_cons. lia.
Qed.

Lemma elem_set_instance i' st fl x : last st = Some fl -> x ∈ set_instance i' st ->
  x ∈ st \/ x = with_instance i' fl.
Proof.
  revert fl. induction st as [|y st IH]; intros fl Hl Hx; [by left|]. destruct st as [|z st].
  - simpl in *. injection Hl as ->. apply list_elem_of_singleton in Hx. by right.
  - apply elem_of_cons in Hx as [->|Hx]; [left; left|]. destruct (IH fl Hl Hx); [left; by right|by right].
Qed.

Lemma running_frame th p o i : running_instance th = Some (p, o, i) ->
  exists fl, last (stack th) = Some fl /\ fl ∈ stack th /\
    (fl = FWorker p (WRun o i) \/ fl = FWorker p (WFinal o i)).
Proof.
  unfold running_instance. destruct (last (stack th)) as [fl|] eqn:E; [|done]. intros Hr. exists fl.
  split_and!; [done|by apply last_Some_elem_of|]. destruct fl as [|p' []| | | | | | | | | | | | | |]; try done.
  all: injection Hr as -> -> ->; auto.
Qed.

Lemma inv_put_instance s t th p o i i' :
  Inv s -> threads s !! t = Some th -> running_instance th = Some (p, o, i) ->
  associated i' = associated i -> Inv (put_instance t i' s).
Proof.
  intros HI Ht Hr Ha. destruct (running_frame th p o i Hr) as (fl & Hl & _ & Hfl).
  apply inv_relabel; [done|]. apply Forall2_same_length_lookup_2; [by rewrite length_alter|].
  intros j x y Hx Hy. destruct (decide (j = t)) as [->|Hne].
  - rewrite list_lookup_alter_eq, Hx in Hy. injection Hy as <-. assert (x = th) as -> by congruence.
    eapply set_instance_relabel; [done|]. destruct Hfl as [-> | ->]; by constructor.
  - rewrite list_lookup_alter_ne in Hy by done. assert (x = y) as -> by congruence. apply relabelled_refl.
Qed.

Lemma lookup_return s t th st v po : threads s !! t = Some th ->
  threads (return_to t st v po s) !! t = Some (Thread st v po).
Proof. intros Ht. simpl. by rewrite list_lookup_alter_eq, Ht. Qed.

(** ** Functions that begin *)
Section Begin.
Context (s : state) (HI : Inv s) (t : nat) (th : thread) (Ht : threads s !! t = Some th).
Context (f : frame) (rest : list frame) (Hst : stack th = f :: rest) (Huser : in_user_code f = true).

Lemma user_frame : calm f /\ timers_frame_of f = false /\ locking f = false /\ resting f = true /\
  (forall ph, f <> FTimers ph).
Proof. destruct f; try done; by destruct ph. Qed.

Lemma user_shape : Forall (fun f => resting f = true) (f :: rest).
Proof.
  pose proof (inv_shape _ HI t th Ht) as Hsh. rewrite Hst in Hsh. constructor; [apply user_frame|].
  destruct user_frame as (_ & _ & _ & _ & Hn). destruct f; try done; by destruct (Hn ph).
Qed.

(** The frames of a function that has not done anything yet *)
Definition fresh_frame (x : frame) : Prop :=
  (forall k i, oc k i x = 0) /\ (forall k i, pc k i x = 0) /\ (forall i, gc i x = 0) /\ tc x = 0.

Lemma inv_push x : fresh_frame x -> frame_ok s t x -> (forall ph, x <> FTimers ph) ->
  Inv (goto t (x :: f :: rest) s).
Proof.
  intros (H1 & H2 & H3 & H4) Hok Hx. destruct user_frame as (Hc & Hl & _).
  eapply (pool_goto s HI t th Ht); try done.
  - intros k i. rewrite (stot_cons _ x), H1. lia.
  - intros k i. rewrite (stot_cons _ x), H2. lia.
  - intros i. rewrite (stot_cons _ x), H3. lia.
  - rewrite (stot_cons _ x), H4. lia.
  - pose proof user_shape. destruct x; try done; by destruct (Hx ph).
  - intros y [->|Hy]%elem_of_cons; auto.
Qed.

Lemma inv_push2 x y : fresh_frame x -> fresh_frame y -> frame_ok s t x -> frame_ok s t y ->
  (forall ph, x <> FTimers ph) -> resting y = true ->
  Inv (goto t (x :: y :: f :: rest) s).
Proof.
  intros (H1 & H2 & H3 & H4) (K1 & K2 & K3 & K4) Hok Hok' Hx Hy. destruct user_frame as (Hc & Hl & _).
  eapply (pool_goto s HI t th Ht); try done.
  - intros k i. rewrite (stot_cons _ x), (stot_cons _ y), H1, K1. lia.
  - intros k i. rewrite (stot_cons _ x), (stot_cons _ y), H2, K2. lia.
  - intros i. rewrite (stot_cons _ x), (stot_cons _ y), H3, K3. lia.
  - rewrite (stot_cons _ x), (stot_cons _ y), H4, K4. lia.
  - pose proof user_shape as Hs. assert (Forall (fun f => resting f = true) (y :: f :: rest)) by (by constructor).
    destruct x; try done; by destruct (Hx ph).
  - intros z [->|[->|Hz]%elem_of_cons]%elem_of_cons; auto.
Qed.

Lemma good_return v po : good (Next (return_to t (f :: rest) v po s) []).
Proof. simpl. rewrite <- Hst. by apply inv_return. Qed.

(** ** Pools *)
Lemma alloc_pool_good a :
  good (Next (return_to t (f :: rest) STATUS_SUCCESS (Some (length (pools s)))
                (alloc_pool true (new_pool (image_stack a)) s)) []).
Proof.
  destruct user_frame as (Hc & Hl & _ & _ & Hn). open_goto s t th.
  eapply new_pool_inv; try done.
  - intros k i. destruct k; simpl; lia.
  - apply resting_shape, user_shape.
  - auto.
Qed.

Lemma pool_keep p c : at_ (pools s) p = Some c -> held c = true -> ptot s p PKeep = 0.
Proof.
  intros Hc Hh. destruct (Z.lt_ge_cases 0 (ptot s p PKeep)) as [Hk|Hk].
  - destruct (unpublished s HI p c Hc ltac:(lia)) as [? _]. congruence.
  - pose proof (pct_all _ (ptot_counts s p)). destruct_and!. lia.
Qed.

(** A call that changes the limits of a pool and starts workers *)
Lemma pool_call_good p c n pl' v po :
  at_ (pools s) p = Some c -> (n = 0%nat \/ ptot s p PKeep = 0) ->
  prefcount pl' = prefcount (contents c) + Z.of_nat n -> num_workers pl' = num_workers (contents c) + Z.of_nat n ->
  objcount pl' = objcount (contents c) -> pshutdown pl' = pshutdown (contents c) ->
  queues pl' = queues (contents c) -> num_busy_workers pl' = num_busy_workers (contents c) ->
  Inv (return_to t (f :: rest) v po (put_pool p (held c) pl' (spawn_workers n p s))).
Proof.
  intros. rewrite <- Hst. apply inv_return; [by eapply (inv_pool_update s HI t th Ht)|].
  simpl. by apply lookup_app_l_Some.
Qed.

Lemma spawn_none p : spawn_workers 0 p s = s.
Proof. unfold spawn_workers, set_threads. simpl. rewrite app_nil_r. by destruct s. Qed.

Lemma set_max_good p n : good (set_pool_max_threads t p n (f :: rest) s).
Proof.
  apply good_held_pool. intros c Hc Hh. apply good_enter. intros _. cbn [good].
  rewrite <- Hh, <- (spawn_none p) at 1. apply pool_call_good; simpl; auto; lia.
Qed.

Lemma set_min_good p n a : good (set_pool_min_threads t p n a (f :: rest) s).
Proof.
  apply good_held_pool. intros c Hc Hh. apply good_enter. intros _. cbv zeta.
  pose proof (pool_keep p c Hc Hh) as Hk. rewrite <- Hh.
  case_decide; apply pool_call_good; simpl; auto; lia.
Qed.

Lemma set_stack_good p si : good (set_pool_stack_information t p si (f :: rest) s).
Proof.
  unfold set_pool_stack_information. destruct si as [si|]; [|apply good_return].
  apply good_held_pool. intros c Hc Hh. apply good_enter. intros _. cbn [good].
  rewrite <- Hh, <- (spawn_none p) at 1. apply pool_call_good; simpl; auto; lia.
Qed.

Lemma set_prio_good p n : good (set_pool_base_priority t p n (f :: rest) s).
Proof.
  apply good_held_pool. intros c Hc Hh. apply good_enter. intros _. cbn [good].
  rewrite <- Hh, <- (spawn_none p) at 1. apply pool_call_good; simpl; auto; lia.
Qed.

(** No frame satisfies a predicate. *)
Lemma any_frame_false P t2 th2 x : any_frame P s = false -> threads s !! t2 = Some th2 -> x ∈ stack th2 -> P x = false.
Proof.
  intros Ha Ht2 Hx. apply not_true_iff_false. intros HP. apply not_true_iff_false in Ha.
  apply Ha, existsb_exists. exists th2. split; [by eapply list_elem_of_In, list_elem_of_lookup_2|].
  apply existsb_exists. exists x. split; [by apply list_elem_of_In|done].
Qed.

Lemma release_pool_good p : good (release_pool t p (f :: rest) s).
Proof.
  apply good_held_pool. intros c Hc Hh. apply good_requires. intros [Hidle Ha%negb_true_iff]%andb_prop.
  destruct user_frame as (Hcalm & Hl & _ & _ & Hn).
  assert (Hd : default_threadpool s <> Some p).
  { intros Hd. pose proof (lp_owner _ _ _ _ _ _ (lpool s HI p c Hc)) as Ho.
    rewrite Hh, bool_decide_true in Ho by done. simpl in Ho. lia. }
  apply good_assert; [by apply bool_decide_eq_true|]. open_goto s t th.
  update_start t th (length (objects s)) p (length (groups s)).
  - at_tac. pool_facts HI p c Hc. unfold refs', objs', left_over. rewrite !at_end. simpl.
    rewrite bool_decide_false in * by done. rewrite Hh in *. simpl in *. pool_split.
  - queues_tac.
  - eapply closed_frames; [done|done| | |apply user_shape].
    + intros t2 th2 x _ Ht2 Hx. by eapply any_frame_false.
    + intros x [->|Hx]%elem_of_cons; [done|]. rewrite <- Hst in Hx.
      split; [by eapply (inv_frames _ HI)|by eapply any_frame_false].
  - split; [cell_inv|]. intros i ci _ Hi Hp Hsi Hs. exfalso.
    apply at_Some, list_elem_of_lookup_2, list_elem_of_In in Hi.
    pose proof (proj1 (forallb_forall _ _) Hidle _ Hi) as Hb. simpl in Hb.
    rewrite Hp, bool_decide_true, Hsi, Hs in Hb by done. done.
  - eapply groups_frame; [done|done|cell_solve|done|by eapply calm_keeps].
  - eapply timers_frame; [done|done|done|delta_tac; lia|done|done|].
    unfold keeps_scanning. rewrite Hst. intros ph [= -> ->]. by destruct (Hn ph).
Qed.

(** ** Groups *)
Lemma unheld_group_frame g c gr' th' P d tq dl t2 x :
  at_ (groups s) g = Some c -> uses_group s g x = false ->
  P = pools s -> d = default_threadpool s -> tq = timers s -> frame_ok s t2 x ->
  frame_ok (after s t th' [] (objects s) P (<[g := Some (Cell false gr')]> (groups s)) d tq dl) t2 x.
Proof.
  intros Hc Hu -> -> -> Hok. destruct x; simpl in *; try done.
  - apply bool_decide_eq_false in Hu. destruct Hok as ([He1 He2] & Hk & Hok). split_and!; [|done..].
    split; [done|]. intros i Hi. simpl. rewrite at_insert_ne by congruence. auto.
  - destruct Hok as (co & Hco & Ho & Hok). rewrite (proj1 (at_Some _ _ _) Hco) in Hu.
    apply bool_decide_eq_false in Hu. exists co. split_and!; [done..|].
    destruct ph; try done; intros i Hi; rewrite at_insert_ne by congruence; auto.
  - apply bool_decide_eq_false in Hu. destruct Hok as (cg & Hcg & Hok). exists cg.
    by rewrite at_insert_ne by congruence.
Qed.

Lemma release_group_good g : good (release_cleanup_group t g (f :: rest) s).
Proof.
  apply good_held_group. intros c Hc Hh. apply good_requires. intros Ha%negb_true_iff.
  destruct user_frame as (Hcalm & Hl & _ & _ & Hn). open_goto s t th.
  update_start t th (length (objects s)) (length (pools s)) g.
  - at_tac. destruct (lgroup s HI g c Hc). rewrite Hh in *. split; simpl; [|done].
    unfold grefs', left_group. rewrite !at_end. delta_tac. rewrite eqz_refl. simpl in *. lia.
  - queues_tac.
  - split; [| | |apply user_shape|by intros ? ?%elem_of_nil].
    + intros t2 th2 x _ Ht2 Hx. eapply unheld_group_frame; try done. by eapply any_frame_false.
    + intros x [->|Hx]%elem_of_cons; [done|]. rewrite <- Hst in Hx.
      eapply unheld_group_frame; try done; [by eapply any_frame_false|by eapply (inv_frames _ HI)].
    + by intros ? ? ? ?%elem_of_nil.
  - homes_tac.
  - eapply groups_frame; [done|done|cell_solve|done|by eapply calm_keeps].
  - eapply timers_frame; [done|done|done|delta_tac; lia|done|done|].
    unfold keeps_scanning. rewrite Hst. intros ph [= -> ->]. by destruct (Hn ph).
Qed.

(** ** Calls on objects *)
Lemma fresh_zero x :
  match x with
  | FAlloc _ _ ALock | FSubmit _ _ | FCancel _ | FWait _ _ | FSetTimer _ _ _ _ | FMembers _ _ MEnter => True
  | _ => False
  end -> fresh_frame x /\ forall ph, x <> FTimers ph.
Proof.
  intros Hx. unfold fresh_frame. destruct x; try done; try (destruct ph; try done).
  all: split; [split_and!; intros; simpl; try done|done].
  all: match goal with k : okind |- _ => by destruct k | k : pkind |- _ => by destruct k end.
Qed.

Lemma env_held_ok env : env_held env s = true -> env_ok s env.
Proof.
  intros [H1 H2]%andb_prop. split.
  - intros p Hp. rewrite Hp in H1. destruct (pools s !! p) as [[c|]|] eqn:E; try done.
    exists c. by rewrite at_Some.
  - intros g Hg. rewrite Hg in H2. destruct (groups s !! g) as [[c|]|] eqn:E; try done.
    exists c. by rewrite at_Some.
Qed.

Lemma alloc_call_good k env a :
  k = TP_OBJECT_TYPE_SIMPLE \/ k = TP_OBJECT_TYPE_WORK \/ k = TP_OBJECT_TYPE_TIMER ->
  good (alloc_call t k env a (f :: rest) s).
Proof.
  intros Hk. apply good_requires. intros He%env_held_ok. destruct (succeeded a); [|apply good_return].
  destruct (fresh_zero (FAlloc k env ALock) I). by apply inv_push.
Qed.

Lemma object_call_good o k r :
  (forall c, at_ (objects s) o = Some c -> held c = true -> otype (contents c) = k -> good r) ->
  good (object_call s o k r).
Proof.
  intros H. apply good_held_object. intros c Hc Hh. apply good_requires. intros ?%bool_decide_eq_true. eauto.
Qed.

Lemma wait_call_good o k cancel : good (wait_call t o k cancel (f :: rest) s).
Proof.
  apply object_call_good. intros c Hc Hh _.
  assert (Hok : frame_ok s t (FWait o false)) by (by exists c).
  destruct (fresh_zero (FWait o false) I). destruct (fresh_zero (FCancel o) I).
  destruct cancel; [by apply inv_push2|by apply inv_push].
Qed.

Definition drelease (k : okind) : Z := match k with KRef | KKeep | KClose => 1 | _ => 0 end.

Lemma release_call_good o k : good (release_call t o k (f :: rest) s).
Proof.
  apply object_call_good. intros c Hc Hh _. apply good_object; [eauto|]. intros c2 Hc2.
  assert (c2 = c) as -> by congruence. apply good_requires. intros Ha%negb_true_iff.
  destruct user_frame as (Hcalm & Hl & _ & _ & Hn). destruct (held_open s HI o c Hc Hh) as (Hsi & Hs & Ho).
  destruct (unused_counts s o Ha) as [Hcl Hin]. open_goto s t th.
  update_start t th o (opool (contents c)) (group_or s (contents c)).
  - at_tac. sums drelease. object_facts HI o c Hc. destruct (lo_held0 Hh) as (_ & _ & Hk).
    rewrite Hh, Hsi, Hs in *. simpl in *.
    split; simpl; rewrite ?Hsi, ?Hs; simpl; rewrite ?Z.add_0_r; try assumption; try done; try lia.
  - queues_tac.
  - eapply (unheld_frames s HI t th Ht o c Hc); try done; [by right| |apply user_shape].
    intros x [->|Hx]%elem_of_cons; [by right|left; by rewrite Hst].
  - homes_tac.
  - eapply groups_frame; [done|done|cell_solve| |by eapply calm_keeps].
    unfold member_of. simpl. at_tac. split; intros (? & ? & ? & ?); simplify_eq; by eexists.
  - eapply timers_frame; [done|done|done|delta_tac; lia|by at_tac| |].
    + at_tac. split; intros (? & ? & Hy); simplify_eq; by eexists.
    + unfold keeps_scanning. rewrite Hst. intros ph [= -> ->]. by destruct (Hn ph).
Qed.

(** ** Calls on instances *)
Lemma instance_call_good t' k :
  (forall th' p o i, threads s !! t' = Some th' -> running_instance th' = Some (p, o, i) -> good (k p o i)) ->
  good (instance_call t' s k).
Proof.
  intros H. unfold instance_call. destruct (threads s !! t') as [th'|] eqn:E; simpl; [|done].
  destruct (running_instance th') as [[[p o] i]|] eqn:Er; [|done]. by eapply H.
Qed.

(** The object of the callback that the thread runs *)
Lemma running_object p o i : running_instance th = Some (p, o, i) ->
  1 <= otot s o KRef /\ exists c cp, at_ (objects s) o = Some c /\ opool (contents c) = p /\ at_ (pools s) p = Some cp.
Proof.
  intros Hr. destruct (running_frame th p o i Hr) as (fl & _ & Hin & Hfl).
  assert (1 <= otot s o KRef) as Hk.
  { pose proof (frame_otot s t th fl KRef o Ht Hin) as H. destruct Hfl as [-> | ->]; simpl in H; rewrite eqz_refl in H; done. }
  split; [done|]. pose proof (inv_frames _ HI t th fl Ht Hin) as Hok.
  assert (exists c, at_ (objects s) o = Some c /\ opool (contents c) = p) as (c & Hc & Hp)
    by (destruct Hfl as [-> | ->]; exact Hok).
  destruct (kept_pool s o c HI Hc) as [_ [cp Hcp]]; [destruct (held c); simpl; lia|].
  rewrite Hp in Hcp. eauto 10.
Qed.

(** The stack does not change but for the instance. *)
Lemma put_return v s' p o i i' :
  Inv s' -> (exists th', threads s' !! t = Some th' /\ stack th' = f :: rest) ->
  running_instance th = Some (p, o, i) -> associated i' = associated i ->
  Inv (put_instance t i' (return_to t (f :: rest) v None s')).
Proof.
  intros HI' (th' & Ht' & Hst') Hr Ha.
  eapply inv_put_instance; [rewrite <- Hst'; by apply inv_return|by eapply lookup_return| |done].
  unfold running_instance in *. simpl. rewrite Hst in Hr. exact Hr.
Qed.

Lemma may_run_long_good t' a : good (callback_may_run_long t t' a (f :: rest) s).
Proof.
  apply instance_call_good. intros th' p o i Ht' Hr. case_decide; [subst t'|apply good_return].
  assert (th' = th) as -> by congruence. destruct (long i); [apply good_return|].
  destruct (running_object p o i Hr) as (Hk & c & cp & Hc & Hp & Hcp).
  apply good_object; [eauto|]. intros c2 Hc2. assert (c2 = c) as -> by congruence. rewrite Hp.
  apply good_pool; [eauto|]. intros cp2 Hcp2. assert (cp2 = cp) as -> by congruence. apply good_enter. intros _.
  assert (Hsame : forall v, Inv (put_instance t (Instance (associated i) true (tasks i))
    (return_to t (f :: rest) v None s))) by (intros v; by eapply put_return; eauto).
  cbv zeta. destruct (num_workers (contents cp) <=? num_busy_workers (contents cp)); [|apply Hsame].
  destruct (num_workers (contents cp) <? max_workers (contents cp)); [|apply Hsame].
  destruct (succeeded a); [|apply Hsame].
  eapply put_return; [|simpl|done|done].
  - apply (inv_pool_update s HI t th Ht p cp 1); simpl; auto; try lia. right.
    destruct (Z.lt_ge_cases 0 (ptot s p PKeep)) as [Hkp|Hkp].
    + destruct (unpublished s HI p cp Hcp ltac:(lia)) as (_ & _ & _ & _ & _ & _ & _ & H8 & _).
      destruct (ref_pool s HI o c Hc Hk). rewrite Hp in *. lia.
    + pose proof (pct_all _ (ptot_counts s p)). destruct_and!. lia.
  - exists th. split; [by apply lookup_app_l_Some|done].
Qed.

Lemma on_completion_good t' g : good (callback_on_completion t t' g (f :: rest) s).
Proof.
  apply instance_call_good. intros th' p o i Ht' Hr. simpl.
  destruct (decide (t' = t)) as [->|Hne].
  - assert (th' = th) as -> by congruence. by eapply put_return; eauto.
  - eapply inv_put_instance; [rewrite <- Hst; by apply inv_return| |done|done].
    simpl. by rewrite list_lookup_alter_ne.
Qed.

Definition dassoc (k : okind) : Z := match k with KAssoc => -1 | _ => 0 end.

Lemma put_instance_after i' v O :
  put_instance t i' (State O (pools s) (groups s) (default_threadpool s) (timers s)
    (threads (return_to t (f :: rest) v None s)) (dll_shutdown s)) =
  after s t (Thread (set_instance i' (f :: rest)) v None) [] O (pools s) (groups s) (default_threadpool s)
    (timers s) (dll_shutdown s).
Proof.
  unfold put_instance, after, set_threads. simpl. f_equal. rewrite app_nil_r. apply list_eq. intros j.
  destruct (decide (j = t)) as [->|Hne].
  - by rewrite !list_lookup_alter_eq, Ht.
  - by rewrite !list_lookup_alter_ne.
Qed.

Lemma set_instance_shape i' : shape (set_instance i' (f :: rest)).
Proof.
  apply resting_shape. pose proof user_shape as Hs.
  assert (forall st, Forall (fun f => resting f = true) st ->
    Forall (fun f => resting f = true) (set_instance i' st)) as H; [|by apply H].
  induction st as [|x st IH]; intros Hst2; [constructor|]. inversion Hst2; subst.
  destruct st as [|y st]; [|constructor; [done|by apply IH]]. simpl. constructor; [|constructor].
  destruct x; try done. by destruct ph.
Qed.

(** TpDisassociateCallback: the counter and the flag of the instance *)
Lemma disassociated_inv p o i c :
  running_instance th = Some (p, o, i) -> associated i = true -> at_ (objects s) o = Some c ->
  Inv (after s t (Thread (set_instance (Instance false (long i) (tasks i)) (f :: rest)) 0 None) []
    (<[o := Some (Cell (held c) (set_callbacks (num_pending_callbacks (contents c)) (num_running_callbacks (contents c))
        (num_associated_callbacks (contents c) - 1) (contents c)))]> (objects s)) (pools s) (groups s)
    (default_threadpool s) (timers s) (dll_shutdown s)).
Proof.
  intros Hr Ha Hc. destruct (running_frame th p o i Hr) as (fl & Hl & Hin & Hfl). rewrite Hst in Hl.
  destruct user_frame as (Hcalm & _ & _ & _ & Hn). set (i' := Instance false (long i) (tasks i)).
  assert (Hd : forall F, delta th (Thread (set_instance i' (f :: rest)) 0 None) [] F = F (with_instance i' fl) - F fl).
  { intros F. unfold delta. cbn [stack]. rewrite Hst, total_nil, (stot_set_instance F i' _ fl Hl). lia. }
  assert (Hdo : forall k x, delta th (Thread (set_instance i' (f :: rest)) 0 None) [] (oc k x) = dassoc k * eqz x o).
  { intros k x. rewrite Hd. destruct Hfl as [-> | ->]; destruct k; simpl; rewrite ?Ha; simpl; lia. }
  assert ((forall k x, delta th (Thread (set_instance i' (f :: rest)) 0 None) [] (pc k x) = 0) /\
    (forall x, delta th (Thread (set_instance i' (f :: rest)) 0 None) [] (gc x) = 0) /\
    delta th (Thread (set_instance i' (f :: rest)) 0 None) [] tc = 0) as (Hdp & Hdg & Hdt).
  { split_and!; intros; rewrite Hd; destruct Hfl as [-> | ->]; simpl; try (destruct k); simpl; lia. }
  match goal with |- Inv (after _ _ ?th1 _ ?O _ _ _ _ _) =>
    assert (HF : focus_ok s t th th1 [] o (opool (contents c)) (group_or s (contents c)) O (pools s) (groups s)
      (default_threadpool s)) end.
  { split; [done|intros; heap_tac|done..| | | |focus_tac|focus_tac]; intros; rewrite ?Hdo, ?Hdp, ?Hdg; try done.
    rewrite eqz_ne by done. lia. }
  eapply inv_quiet_keep; [done|done| |split|unchanged_tac|unchanged_tac].
  - split; try done; try (same_tac; done).
    + by eapply calm_keeps.
    + unfold keeps_scanning. rewrite Hst. intros ph [= -> _]. by destruct (Hn ph).
    + intros x Hx. simpl in Hx. destruct (elem_set_instance i' _ fl x Hl Hx) as [|Hx2]; [left; by rewrite Hst|].
      right. left. pose proof (inv_frames _ HI t th fl Ht Hin) as Hok. subst x.
      destruct Hfl as [-> | ->]; exact Hok.
    + by intros ? ?%elem_of_nil.
    + apply set_instance_shape.
  - at_tac. apply (object_ok_ext _ (fun k => otot s o k + dassoc k)).
    + intros k. unfold T'. rewrite Hdo, eqz_refl. lia.
    + object_facts HI o c Hc. split; simpl; autorewrite with tp; rewrite ?Z.add_0_r; try assumption. lia.
  - eapply loc_pool_keep; [done..| | |]; at_tac; simpl; unfold T'; rewrite ?Hdo; simpl; try lia. intros; apply Hdp.
  - eapply loc_group_keep; [done..| |]; at_tac; simpl; unfold T'; rewrite ?Hdo, ?Hdg; simpl; [done|].
    by rewrite Z.add_0_r.
Qed.

Lemma disassociate_good t' : good (disassociate_callback t t' (f :: rest) s).
Proof.
  apply instance_call_good. intros th' p o i Ht' Hr. case_decide; [subst t'|apply good_return].
  assert (th' = th) as -> by congruence. destruct (associated i) eqn:Ha; [|apply good_return].
  destruct (running_object p o i Hr) as (Hk & c & cp & Hc & Hp & Hcp).
  apply good_object; [eauto|]. intros c2 Hc2. assert (c2 = c) as -> by congruence. rewrite Hp.
  apply good_pool; [eauto|]. intros cp2 _. apply good_enter. intros _. cbv zeta. apply inv_wake_if.
  pose proof (disassociated_inv p o i c Hr Ha Hc) as HI'. rewrite <- put_instance_after in HI'. exact HI'.
Qed.

Theorem call_good c a : good (call_step t c a (f :: rest) s).
Proof.
  destruct c; cbn [call_step]; unfold alloc_pool_call, alloc_group_call, post_work, is_timer_set.
  - destruct (succeeded a); [apply alloc_pool_good|apply good_return].
  - apply release_pool_good.
  - apply set_max_good.
  - apply set_min_good.
  - apply set_stack_good.
  - apply set_prio_good.
  - destruct (succeeded a); [|apply good_return]. simpl. rewrite <- Hst.
    apply inv_return; [by eapply inv_new_group|done].
  - apply release_group_good.
  - apply good_held_group. intros c Hc Hh. destruct (fresh_zero (FMembers g cancel_pending MEnter) I).
    apply inv_push; [done| |done]. by exists c.
  - apply alloc_call_good; auto.
  - apply alloc_call_good; auto.
  - apply alloc_call_good; auto.
  - apply object_call_good. intros c Hc Hh _. destruct (fresh_zero (FSubmit o false) I).
    apply inv_push; [done| |done]. by exists c.
  - apply object_call_good. intros c Hc Hh Hty. destruct (fresh_zero (FSetTimer o tmo per win) I).
    apply inv_push; [done| |done]. exists c. split_and!; [done..|].
    unfold otype in Hty. unfold is_timer. by destruct (u (contents c)).
  - apply object_call_good. intros c Hc Hh Hty. unfold otype in Hty. destruct (u (contents c)) as [| |x| |] eqn:Hx; try done.
    rewrite (timer_of_at s o c x Hc Hx). apply good_return.
  - apply wait_call_good.
  - apply wait_call_good.
  - apply release_call_good.
  - apply release_call_good.
  - apply may_run_long_good.
  - apply disassociate_good.
  - apply on_completion_good.
  - apply on_completion_good.
  - apply on_completion_good.
  - apply on_completion_good.
  - apply on_completion_good.
Qed.

End Begin.
End TpCalls.
