(* ===== verification/TpSafe.v ===== *)
(** * The thread pool: every run is safe

    The invariant holds in the initial state and is kept by every step, so no
    step of any thread, in any interleaving, reaches memory that was freed or
    fails an assertion, as long as the client keeps the contract of the
    interface. *)
From S2P Require Import Prelude Threadpool TpInv TpUpdate TpSteps TpRelease TpSubmit TpAlloc TpWorker TpTimers TpGroups TpCalls.

Module TpSafe.
Import Tp TpInv TpUpdate TpSteps TpRelease TpSubmit TpAlloc TpWorker TpTimers TpGroups TpCalls.

Lemma total_users F n : F FUser = 0 -> total F (replicate n (Thread [FUser] 0 None)) = 0.
Proof. intros H. unfold total. induction n; simpl; [done|]. unfold stot in *. simpl. lia. Qed.

Lemma at_nil {A} i : at_ (@nil (option (cell A))) i = None.
Proof. unfold at_. by rewrite lookup_nil. Qed.

Theorem inv_init n shut : Inv (init n shut).
Proof.
  assert (Hth : forall t th, replicate n (Thread [FUser] 0 None) !! t = Some th -> th = Thread [FUser] 0 None)
    by (intros t th [-> _]%lookup_replicate; done).
  split; simpl; intros; rewrite ?at_nil in *; try done.
  - split; apply total_users; done.
  - split_and!; try done; apply total_users; done.
  - split; [|done]. by apply total_users.
  - split; simpl; [|constructor| |done].
    + by rewrite total_users.
    + intros o. rewrite at_nil. split; [by intros ?%elem_of_nil|by intros (? & ? & _)].
  - rewrite (Hth _ _ H) in H0. apply list_elem_of_singleton in H0 as ->. done.
  - rewrite (Hth _ _ H). constructor.
Qed.

Lemma frame_good s t th f rest a :
  Inv s -> threads s !! t = Some th -> stack th = f :: rest -> good (frame_step t f rest a s).
Proof.
  intros HI Ht Hst. destruct f; cbn [frame_step].
  - done.
  - by apply (worker_good s HI t th Ht).
  - by apply (timers_good s HI t th Ht).
  - by apply (TpRelease.pool_release s HI t th Ht).
  - by apply (pool_unlock s HI t th Ht).
  - by apply (group_release s HI t th Ht).
  - destruct ph.
    + by apply (release_dec s HI t th Ht).
    + by apply (release_group s HI t th Ht).
    + by apply (release_group_ref s HI t th Ht).
    + by apply (release_unlock s HI t th Ht).
    + by apply (release_pool_ref s HI t th Ht).
    + by apply (release_free s HI t th Ht).
  - destruct ph.
    + by apply (alloc_lock s HI t th Ht).
    + by apply (alloc_cas s HI t th Ht).
    + by apply (alloc_enter s HI t th Ht).
    + by apply (alloc_timer s HI t th Ht).
    + by apply (alloc_init s HI t th Ht).
  - destruct ph.
    + by apply (init_assert s HI t th Ht).
    + by apply (init_submit s HI t th Ht).
    + by apply (init_group_ref s HI t th Ht).
    + by apply (init_group_add s HI t th Ht).
    + by apply (init_finish s HI t th Ht).
  - destruct asserted; [by apply (fsubmit s HI t th Ht)|by apply (fsubmit_assert s HI t th Ht)].
  - by apply (fcancel s HI t th Ht).
  - by apply (fcancel_release s HI t th Ht).
  - by apply (fwait s HI t th Ht).
  - by apply (set_timer_good s t th).
  - destruct prepared; [by apply (close_shutdown s HI t th Ht)|by apply (close_prepare s HI t th Ht)].
  - by apply (members_good s HI t th Ht).
Qed.

Theorem step_good s t l a : Inv s -> good (step t l a s).
Proof.
  intros HI. unfold step. destruct (threads s !! t) as [th|] eqn:Ht; [|done].
  destruct (stack th) as [|f rest] eqn:Hst; [done|]. destruct l as [c|].
  - destruct (in_user_code f) eqn:Hu; [|done]. by apply (call_good s HI t th Ht).
  - by eapply frame_good.
Qed.

Lemma inv_runs s es s' : Inv s -> runs s es s' -> Inv s'.
Proof.
  intros HI. induction 1 as [|es s1 t l a es' s2 Hr IH Hs]; [done|].
  pose proof (step_good s1 t l a IH) as Hg. by rewrite Hs in Hg.
Qed.

Lemma reach n shut es s : runs (init n shut) es s -> Inv s.
Proof. apply inv_runs, inv_init. Qed.

End TpSafe.
