(* ===== verification/TpEffects.v ===== *)
(** * The thread pool: what a step does to callbacks and timers

    Every step is accounted for by its events: the pending callbacks of an
    object change by what was submitted, started and cancelled.  The two lists
    of timers stay sorted by their due times. *)
From S2P Require Import Prelude Threadpool TpInv TpUpdate TpSteps TpRelease TpSubmit TpAlloc TpWorker TpTimers TpGroups TpCalls TpSafe.
From Stdlib Require Import Sorted.

Module TpEffects.
Import Tp TpInv TpUpdate TpSteps TpSubmit TpWorker TpTimers TpGroups TpSafe.

(** ** Callbacks *)
Definition pend (h : heap object) (o : nat) : Z :=
  match at_ h o with Some c => num_pending_callbacks (contents c) | None => 0 end.

Definition submitted_by (o : nat) (e : event_) : Z := match e with ESubmit x => eqz o x | _ => 0 end.
Definition started_by (o : nat) (e : event_) : Z := match e with EStart x => eqz o x | _ => 0 end.
Definition cancelled_by (o : nat) (e : event_) : Z := match e with ECancel x n => n * eqz o x | _ => 0 end.

(** How many callbacks of [o] were submitted, started and cancelled *)
Definition submitted (o : nat) (es : list event_) : Z := zsum (map (submitted_by o) es).
Definition started (o : nat) (es : list event_) : Z := zsum (map (started_by o) es).
Definition cancelled (o : nat) (es : list event_) : Z := zsum (map (cancelled_by o) es).

(** ** Timers *)
Definition due (h : heap object) (o : nat) : Z :=
  match at_ h o with
  | Some c => match u (contents c) with UTimer x => timeout x | _ => 0 end
  | None => 0
  end.

Definition by_due (h : heap object) (x y : nat) : Prop := due h x <= due h y.

Definition sorted_timers (h : heap object) (tq : timerqueue) : Prop :=
  StronglySorted (by_due h) (abs_timers tq) /\ StronglySorted (by_due h) (rel_timers tq).

Definition accounts (s s' : state) (es : list event_) : Prop :=
  (forall o, pend (objects s') o = pend (objects s) o + submitted o es - started o es - cancelled o es) /\
  (sorted_timers (objects s) (timers s) -> sorted_timers (objects s') (timers s')).

(** What holds of the state and the events of a step, if it is taken *)
Definition leads (P : state -> list event_ -> Prop) (r : result) : Prop :=
  match r with Next s' es => P s' es | _ => True end.

Notation effect s := (leads (accounts s)).

(** *** Accesses *)
Lemma leads_object P s o k :
  (forall c, at_ (objects s) o = Some c -> leads P (k (held c) (contents c))) -> leads P (with_object s o k).
Proof.
  intros H. unfold with_object. destruct (objects s !! o) as [[c|]|] eqn:E; try done. apply H. by apply at_Some.
Qed.

Lemma leads_pool P s p k :
  (forall c, at_ (pools s) p = Some c -> leads P (k (held c) (contents c))) -> leads P (with_pool s p k).
Proof.
  intros H. unfold with_pool. destruct (pools s !! p) as [[c|]|] eqn:E; try done. apply H. by apply at_Some.
Qed.

Lemma leads_group P s g k : (forall h gr, leads P (k h gr)) -> leads P (with_group s g k).
Proof. intros H. unfold with_group. by destruct (groups s !! g) as [[c|]|]. Qed.

Lemma leads_held_object P s o k :
  (forall c, at_ (objects s) o = Some c -> leads P (k (contents c))) -> leads P (held_object s o k).
Proof.
  intros H. unfold held_object, requires. destruct (objects s !! o) as [[c|]|] eqn:E; try done.
  destruct (held c); [|done]. apply H. by apply at_Some.
Qed.

Lemma leads_held_pool P s p k : (forall pl, leads P (k pl)) -> leads P (held_pool s p k).
Proof. intros H. unfold held_pool, requires. destruct (pools s !! p) as [[c|]|]; try done. by destruct (held c). Qed.

Lemma leads_held_group P s g k : (forall gr, leads P (k gr)) -> leads P (held_group s g k).
Proof. intros H. unfold held_group, requires. destruct (groups s !! g) as [[c|]|]; try done. by destruct (held c). Qed.

Lemma leads_assert P b r : leads P r -> leads P (ASSERT b r).
Proof. by destruct b. Qed.

Lemma leads_requires P b r : leads P r -> leads P (requires b r).
Proof. by destruct b. Qed.

Lemma leads_enter P cs t r : leads P r -> leads P (enter cs t r).
Proof. unfold enter. destruct cs; [by case_decide|done]. Qed.

Definition same_lists (tq tq' : timerqueue) : Prop :=
  abs_timers tq' = abs_timers tq /\ rel_timers tq' = rel_timers tq.

Lemma leads_update P now s1 k :
  (forall tq, same_lists (timers s1) tq -> leads P (k (set_timers tq s1))) -> leads P (with_update now s1 k).
Proof.
  intros H. unfold with_update. destruct (update_timers _ _ _) as [tq|] eqn:E; [|done]. apply H.
  unfold update_timers in E. simplify_option_eq; done.
Qed.

(** *** States *)
Lemma accounts_same s s' es :
  objects s' = objects s -> same_lists (timers s) (timers s') ->
  (forall o, submitted o es - started o es - cancelled o es = 0) -> accounts s s' es.
Proof.
  intros Ho [Ha Hr] He. split; [|unfold sorted_timers; by rewrite Ho, Ha, Hr].
  intros o. rewrite Ho. specialize (He o). lia.
Qed.

Lemma pend_insert h o c c' x : at_ h o = Some c ->
  pend (<[o := Some c']> h) x =
    pend h x + eqz x o * (num_pending_callbacks (contents c') - num_pending_callbacks (contents c)).
Proof.
  intros Hc. unfold pend, eqz. case_decide as Hx.
  - subst x. erewrite at_insert by done. rewrite Hc. lia.
  - rewrite at_insert_ne by done. lia.
Qed.

Lemma due_insert h o c c' x : at_ h o = Some c -> u (contents c') = u (contents c) ->
  due (<[o := Some c']> h) x = due h x.
Proof.
  intros Hc Hu. unfold due. destruct (decide (x = o)) as [->|Hx].
  - erewrite at_insert by done. by rewrite Hc, Hu.
  - by rewrite at_insert_ne.
Qed.

Lemma sorted_ext h h' l :
  (forall x, x ∈ l -> due h' x = due h x) -> StronglySorted (by_due h) l -> StronglySorted (by_due h') l.
Proof.
  intros H. induction 1 as [|x l Hs IH Hx]; [constructor|]. constructor.
  - apply IH. intros y Hy. apply H. by right.
  - rewrite Forall_forall in *. intros y Hy. unfold by_due. rewrite !H; [by apply Hx|by right|left].
Qed.

Lemma sorted_timers_ext h h' tq :
  (forall x, x ∈ abs_timers tq ++ rel_timers tq -> due h' x = due h x) -> sorted_timers h tq -> sorted_timers h' tq.
Proof.
  intros H [H1 H2]. split; (apply (sorted_ext h); [intros x Hx; apply H, elem_of_app; auto|done]).
Qed.

(** One object changes, but not its timer. *)
Lemma accounts_object s s' o c c' es :
  at_ (objects s) o = Some c -> objects s' = <[o := Some c']> (objects s) ->
  same_lists (timers s) (timers s') -> u (contents c') = u (contents c) ->
  (forall x, submitted x es - started x es - cancelled x es =
     eqz x o * (num_pending_callbacks (contents c') - num_pending_callbacks (contents c))) ->
  accounts s s' es.
Proof.
  intros Hc Ho [Ha Hr] Hu He. split.
  - intros x. rewrite Ho, (pend_insert _ o c c') by done. specialize (He x). lia.
  - unfold sorted_timers. rewrite Ho, Ha, Hr. apply sorted_timers_ext. intros x _. by eapply due_insert.
Qed.

Lemma wake_objects b o g s : objects (wake_if b o g s) = objects s.
Proof. by destruct b. Qed.
Lemma wake_timers b o g s : timers (wake_if b o g s) = timers s.
Proof. by destruct b. Qed.

(** *** Steps *)
Lemma cleanup_counts a c o : submitted o (run_cleanup a c) - started o (run_cleanup a c) - cancelled o (run_cleanup a c) = 0.
Proof.
  unfold run_cleanup. repeat match goal with
  | |- context [match ?x with Some _ => _ | None => _ end] => destruct x as [[]|] || destruct x
  | |- context [if ?b then _ else _] => destruct b
  end; reflexivity.
Qed.

Ltac eff_step :=
  first
  [ apply leads_object; intros ? ?
  | apply leads_pool; intros ? ? | apply leads_group; intros ? ?
  | apply leads_held_object; intros ? ? | apply leads_held_pool; intros ? | apply leads_held_group; intros ?
  | apply leads_assert | apply leads_requires | apply leads_enter | apply leads_update; intros ? ?
  | match goal with
    | |- leads _ (if ?b then _ else _) => destruct b eqn:?
    | |- leads _ (match ?x with _ => _ end) => destruct x eqn:?
    end ].

Ltac eff_end :=
  cbn [leads];
  repeat match goal with |- context [if ?b then _ else _] => destruct b eqn:? end;
  first
  [ exact I
  | apply accounts_same; [by rewrite ?wake_objects|split; by rewrite ?wake_timers|intros; try reflexivity; try apply cleanup_counts]
  | eapply accounts_object; [eassumption|by rewrite ?wake_objects|split; by rewrite ?wake_timers|reflexivity
                            |intros; cbn [contents num_pending_callbacks]; rewrite ?Z.sub_diag, ?Z.mul_0_r; try reflexivity] ].

Ltac eff := cbv zeta; repeat (eff_step; cbv zeta); try eff_end.

(** An object is freed: it has no callbacks and is in no list. *)
Lemma accounts_free s s' o c :
  Inv s -> at_ (objects s) o = Some c -> num_pending_callbacks (contents c) = 0 ->
  pending_timer (contents c) = false ->
  objects s' = <[o := None]> (objects s) -> timers s' = timers s -> accounts s s' [].
Proof.
  intros HI Hc Hp Hpt Ho Ht. split.
  - intros x. rewrite Ho. unfold pend. change (submitted x [] ) with 0. change (started x []) with 0.
    change (cancelled x []) with 0. destruct (decide (x = o)) as [->|Hx].
    + erewrite at_insert by done. rewrite Hc. lia.
    + rewrite at_insert_ne by done. lia.
  - rewrite Ho, Ht. apply sorted_timers_ext. intros x Hx. unfold due. rewrite at_insert_ne; [done|].
    intros ->. apply (tq_elem _ (inv_timers _ HI)) in Hx as (c2 & ? & ?). congruence.
Qed.

Section Steps.
Context (s : state) (HI : Inv s) (t : nat) (th : thread) (Ht : threads s !! t = Some th).
Context (rest : list frame) (a : answers).

Lemma freed_object o c : stack th = FRelease o RFree :: rest -> at_ (objects s) o = Some c ->
  num_pending_callbacks (contents c) = 0 /\ pending_timer (contents c) = false.
Proof.
  intros Hst Hc.
  destruct (dying s t th o RFree HI Ht (top_in _ _ _ Hst) ltac:(done)) as (c2 & Hc2 & _ & Hs & _ & Hp & _).
  assert (c2 = c) as -> by congruence. split; [done|].
  pose proof (live s HI o c Hc2) as L. destruct (pending_timer (contents c)) eqn:E; [|done].
  destruct (lo_timer _ _ _ L (lo_timer_set _ _ _ L E)). congruence.
Qed.

Lemma effect_release o ph : stack th = FRelease o ph :: rest -> effect s (tp_object_release t o ph rest s).
Proof.
  intros Hst. unfold tp_object_release, unlock_section, tp_threadpool_release, tp_group_release.
  destruct ph; eff. destruct (freed_object o c Hst H). by eapply accounts_free.
Qed.

(** An object that is new: nothing is at its address. *)
Lemma accounts_new s' ob :
  objects s' = objects s ++ [Some (Cell false ob)] -> timers s' = timers s ->
  num_pending_callbacks ob = 0 -> accounts s s' [].
Proof.
  intros Ho Htm Hp. split.
  - intros x. rewrite Ho. unfold pend. change (submitted x [] ) with 0. change (started x []) with 0.
    change (cancelled x []) with 0. destruct (decide (x = length (objects s))) as [->|Hx].
    + rewrite at_app_end, at_end. simpl. lia.
    + rewrite at_app_ne by done. lia.
  - rewrite Ho, Htm. apply sorted_timers_ext. intros x Hx. unfold due. rewrite at_app_ne; [done|].
    intros ->. apply (tq_elem _ (inv_timers _ HI)) in Hx as (c2 & Hc & ?). by rewrite at_end in Hc.
Qed.

Lemma effect_alloc k env ph : effect s (alloc_step t k env ph rest a s).
Proof.
  unfold alloc_step, tp_timerqueue_lock. destruct ph; eff.
  all: eapply accounts_new; done.
Qed.

(** tp_object_submit *)
Lemma effect_submit o st :
  effect s (submit_section t o a (fun s => Next (goto t st s) [ESubmit o]) s).
Proof.
  unfold submit_section. eff. cbn [leads]. destruct (wants_worker _ && succeeded a).
  all: eapply (accounts_object s _ o c (Cell (held c) (submit_object false (contents c)))); try done;
    cbn [contents]; rewrite submit_object_eq; try done.
  all: intros x; unfold submitted, started, cancelled; simpl; lia.
Qed.

Lemma effect_init o ph : effect s (init_step t o ph rest a s).
Proof. unfold init_step, submit_assert. destruct ph; try apply effect_submit; eff. Qed.

(** threadpool_worker_proc *)
Lemma effect_loop p h pl : effect s (worker_loop t p h pl rest s).
Proof.
  unfold worker_loop. eff.
  rewrite (execute_begin_eq _ _ _ (live s HI _ c ltac:(eassumption))) in Heqo0. injection Heqo0 as <-.
  eapply accounts_object; try done. intros x. unfold submitted, started, cancelled. simpl. lia.
Qed.

Lemma effect_worker p ph : effect s (threadpool_worker_proc t p ph rest a s).
Proof.
  unfold threadpool_worker_proc. destruct ph; eff; try apply effect_loop.
  all: try (apply accounts_same; [done|done|intros; apply cleanup_counts]).
  cbn [leads]. eapply (accounts_object s _ o c0 (Cell (held c0) (execute_end i (contents c0)))).
  - done.
  - by rewrite !wake_objects.
  - split; by rewrite !wake_timers.
  - cbn [contents]. by rewrite execute_end_eq.
  - intros x. cbn [contents]. rewrite execute_end_eq. 
    unfold submitted, started, cancelled. simpl. lia.
Qed.

(** tp_object_cancel and tp_object_wait *)
Lemma effect_cancel o (st : nat -> list frame) :
  effect s (cancel_section t o s (fun n s => Next (goto t (st (Z.to_nat n)) s) [ECancel o n])).
Proof.
  unfold cancel_section. eff_step. eff_step. eff_step. cbv zeta. cbn [leads].
  eapply (accounts_object s _ o c (Cell (held c) (cancel_object (contents c)))); try done; cbn [contents];
    rewrite (cancel_object_eq _ _ _ (live s HI o c ltac:(eassumption))); try done.
  intros x. unfold submitted, started, cancelled. simpl. lia.
Qed.

Lemma effect_wait o grp st st' :
  effect s (wait_section t o grp s (Next (goto t st s) [EWaited o]) (Next (goto t st' s) [])).
Proof. unfold wait_section. eff. Qed.

(** ** The lists of timers *)
Lemma sorted_remove h o l : StronglySorted (by_due h) l -> StronglySorted (by_due h) (list_remove o l).
Proof.
  unfold list_remove. induction 1 as [|x l Hs IH Hx]; simpl; [constructor|].
  rewrite filter_cons. case_decide; [|done]. constructor; [done|].
  rewrite Forall_forall in *. intros y [_ Hy]%list_elem_of_filter. by apply Hx.
Qed.

Lemma timer_due_at s2 x tx : timer_of s2 x = Some tx -> due (objects s2) x = timeout tx.
Proof.
  unfold timer_of, due, at_. destruct (objects s2 !! x) as [[c|]|]; try done. simpl.
  destruct (u (contents c)); try done. by intros [= ->].
Qed.

Lemma insert_perm look v o l l' : insert_timer look v o l = Some l' -> l' ≡ₚ o :: l.
Proof.
  revert l'. induction l as [|x l IH]; intros l' H; simpl in H; [by simplify_eq|].
  destruct (look x) as [tx|]; [|done]. simpl in H. destruct (v <? timeout tx); [by simplify_eq|].
  destruct (insert_timer look v o l) as [l2|]; [|done]. simplify_eq/=. rewrite (IH l2) by done. constructor.
Qed.

(** A timer is inserted before the first one that is due later. *)
Lemma insert_sorted s2 o l l' :
  insert_timer (timer_of s2) (due (objects s2) o) o l = Some l' ->
  StronglySorted (by_due (objects s2)) l -> StronglySorted (by_due (objects s2)) l'.
Proof.
  intros Hi Hs. revert l' Hi. induction Hs as [|x l Hs IH Hx]; intros l' Hi; simpl in Hi.
  - simplify_eq. repeat constructor.
  - destruct (timer_of s2 x) as [tx|] eqn:Etx; [|done]. simpl in Hi.
    apply timer_due_at in Etx. destruct (_ <? timeout tx) eqn:E.
    + simplify_eq. constructor; [by constructor|]. apply Z.ltb_lt in E.
      constructor; [unfold by_due; lia|]. eapply Forall_impl; [exact Hx|]. intros y. unfold by_due. lia.
    + destruct (insert_timer _ _ _ l) as [l2|] eqn:El; [|done]. simplify_option_eq.
      constructor; [by apply IH|]. rewrite (insert_perm _ _ _ _ _ El).
      apply Z.ltb_ge in E. constructor; [unfold by_due; lia|done].
Qed.

Lemma insert_ext look look' v o l : (forall x, x ∈ l -> look' x = look x) ->
  insert_timer look' v o l = insert_timer look v o l.
Proof.
  induction l as [|x l IH]; intros H; simpl; [done|]. rewrite (H x) by left.
  destruct (look x) as [tx|]; [|done]. simpl. destruct (v <? timeout tx); [done|].
  rewrite IH; [done|]. intros y Hy. apply H. by right.
Qed.

(** One timer changes: it leaves its list, or is put into one. *)
Section Change.
Context (o : nat) (c c' : cell object) (Hc : at_ (objects s) o = Some c).
Context (Hp : num_pending_callbacks (contents c') = num_pending_callbacks (contents c)).
Let h' := <[o := Some c']> (objects s).

Lemma accounts_timer s' : objects s' = h' ->
  (sorted_timers (objects s) (timers s) -> sorted_timers h' (timers s')) -> accounts s s' [].
Proof.
  intros Ho Hs. split; [|by rewrite Ho].
  intros x. rewrite Ho. subst h'. rewrite (pend_insert _ o c c') by done.
  unfold submitted, started, cancelled. simpl. lia.
Qed.

Lemma changed_due x : x <> o -> due h' x = due (objects s) x.
Proof. intros Hx. unfold due, h'. by rewrite at_insert_ne. Qed.

Lemma changed_sorted l : o ∉ l -> StronglySorted (by_due (objects s)) l -> StronglySorted (by_due h') l.
Proof. intros Ho. apply sorted_ext. intros x Hx. apply changed_due. by intros ->. Qed.

Lemma changed_insert s1 l l' v : objects s1 = objects s ->
  o ∉ l -> due h' o = v -> insert_timer (timer_of s1) v o l = Some l' ->
  StronglySorted (by_due (objects s)) l -> StronglySorted (by_due h') l'.
Proof.
  intros Hs1 Ho <- Hi Hs. eapply (insert_sorted (set_timers (timers s) (State h' [] [] None (timers s) [] false)) o l).
  - rewrite <- Hi. apply insert_ext. intros x Hx. unfold timer_of. simpl. rewrite Hs1. unfold h'.
    by rewrite list_lookup_insert_ne by (intros ->; done).
  - by apply changed_sorted.
Qed.
End Change.

Lemma removed_absent o l : o ∉ list_remove o l.
Proof. unfold list_remove. intros [? _]%list_elem_of_filter. done. Qed.

Lemma unlinked_sorted h o : sorted_timers h (timers s) -> sorted_timers h (unlink_timer o (timers s)).
Proof. intros [? ?]. split; by apply sorted_remove. Qed.

Lemma absent_lists o c : at_ (objects s) o = Some c -> pending_timer (contents c) = false ->
  o ∉ abs_timers (timers s) /\ o ∉ rel_timers (timers s).
Proof.
  intros Hc Hp. assert (o ∉ abs_timers (timers s) ++ rel_timers (timers s)) as Hn.
  { intros (c2 & ? & ?)%(tq_elem _ (inv_timers _ HI)). congruence. }
  rewrite elem_of_app in Hn. tauto.
Qed.

(** tp_timerqueue_unlock *)
Lemma effect_prepare o st :
  effect s (tp_object_prepare_shutdown t o a (fun s => Next (goto t st s) []) s).
Proof.
  unfold tp_object_prepare_shutdown, tp_timerqueue_unlock. eff_step.
  destruct (u (contents c)) eqn:Hu; try exact I; try (by apply accounts_same). apply leads_object. intros c2 Hc2.
  assert (c2 = c) as -> by congruence. rewrite Hu. eff_step.
  destruct (timer_initialized x) eqn:Hx; [|by apply accounts_same].
  assert (forall tq s', objects s' = <[o := Some (Cell (held c)
      (set_timer (Timer false false (timer_set x) (timeout x) (period x) (window_length x)) (contents c)))]> (objects s) ->
    same_lists (if timer_pending x then unlink_timer o (timers s) else timers s) tq ->
    timers s' = tq -> accounts s s' []) as Hall.
  { intros tq s' Ho [Ha Hr] Htq. eapply accounts_timer; [done| |exact Ho|]; [done|]. rewrite Htq.
    intros Hs. assert (sorted_timers (objects s) tq) as Hs2.
    { unfold sorted_timers. rewrite Ha, Hr. destruct (timer_pending x); [by apply unlinked_sorted|done]. }
    eapply sorted_timers_ext; [|exact Hs2]. intros z _. unfold due. destruct (decide (z = o)) as [->|Hz].
    - erewrite at_insert by done. by rewrite Hc2, Hu.
    - by rewrite at_insert_ne. }
  cbv zeta. destruct (_ =? 0).
  - apply leads_assert, leads_update. intros tq Htq. cbn [leads]. eapply Hall; [done|exact Htq|done].
  - cbn [leads]. eapply Hall; [done| |reflexivity]. by destruct (timer_pending x).
Qed.

(** submit_expired_timers *)
Lemma effect_scan abs abs_now rel_now : effect s (timers_scan t abs abs_now rel_now rest s).
Proof.
  assert (effect s (with_update rel_now s (fun s => Next (goto t (FTimers (TWait false) :: rest)
    (set_timers (set_tcs None (timers s)) s)) []))) as Hdone.
  { apply leads_update. intros tq Htq. by apply accounts_same. }
  unfold timers_scan. destruct (scanned abs (timers s)) as [|o l].
  { destruct abs; [by apply accounts_same|done]. }
  eff_step. destruct (u (contents c)) as [| |x| |] eqn:Hu; try exact I. eff_step.
  destruct (_ <? timeout x). { destruct abs; [by apply accounts_same|done]. }
  eapply (accounts_timer o c); [done| |reflexivity|]; [done|].
  intros Hs%(unlinked_sorted _ o). eapply sorted_timers_ext; [|exact Hs]. intros z _. unfold due.
  destruct (decide (z = o)) as [->|Hz].
  - erewrite at_insert by done. by rewrite H, Hu.
  - by rewrite at_insert_ne.
Qed.

Lemma effect_insert o abs abs_now rel_now :
  stack th = FTimers (TInsert o abs abs_now rel_now) :: rest ->
  effect s (timers_insert t o abs abs_now rel_now rest s).
Proof.
  intros Hst. unfold timers_insert. eff_step. destruct (u (contents c)) as [| |x| |] eqn:Hu; try exact I.
  destruct (_ && _); [|by apply accounts_same].
  destruct (insert_timer _ _ _ _) as [l|] eqn:Hi; [|exact I].
  destruct (inv_frames _ HI t th _ Ht (top_in _ _ _ Hst)) as (_ & c2 & Hc2 & _ & Hpt).
  assert (c2 = c) as -> by congruence. destruct (absent_lists o c Hc2 Hpt) as [Ha Hr].
  eapply (accounts_timer o c); [done| |reflexivity|]; [done|]. intros [H1 H2]. split.
  - by apply changed_sorted.
  - eapply (changed_insert o c); [done..|exact Hr| |exact Hi|exact H2].
    unfold due. erewrite at_insert by done. done.
Qed.

Lemma effect_timers ph : stack th = FTimers ph :: rest -> effect s (timerqueue_thread_proc t ph rest a s).
Proof.
  intros Hst. unfold timerqueue_thread_proc, submit_assert.
  destruct ph; [eff|apply effect_scan|eff| |by apply effect_insert].
  apply effect_submit.
Qed.

(** TpSetTimerEx *)
Lemma unlinked_lists o c x : at_ (objects s) o = Some c -> u (contents c) = UTimer x ->
  let tq := if timer_pending x then unlink_timer o (timers s) else timers s in
  (o ∉ abs_timers tq /\ o ∉ rel_timers tq) /\
  (sorted_timers (objects s) (timers s) -> sorted_timers (objects s) tq).
Proof.
  intros Hc Hu. simpl. destruct (timer_pending x) eqn:E.
  - split; [split; apply removed_absent|apply unlinked_sorted].
  - split; [|done]. apply (absent_lists o c Hc). unfold pending_timer. by rewrite Hu.
Qed.

Lemma effect_set_timer o tmo per win : effect s (set_timer_section t o tmo per win a rest s).
Proof.
  unfold set_timer_section. eff_step. destruct (u (contents c)) as [| |x| |] eqn:Hu; try exact I.
  eff_step. eff_step. cbv zeta. rewrite unlinked_state.
  destruct (unlinked_lists o c x H Hu) as [[Ha Hr] Hs].
  set (tq := if timer_pending x then _ else _) in *. change (unlinked_queue s o x) with tq.
  destruct (match tmo with None => _ | Some _ => _ end) as [[[v abs]|] submit].
  - destruct (insert_timer _ _ _ _) as [l|] eqn:Hi; [|exact I].
    assert (forall tq', same_lists (if abs then set_lists l (rel_timers tq) tq else set_lists (abs_timers tq) l tq) tq' ->
      forall s', objects s' = <[o := Some (Cell (held c) (set_timer (Timer true true (bool_decide (tmo <> None)) v per win) (contents c)))]> (objects s) ->
      timers s' = tq' -> accounts s s' []) as Hall.
    { intros tq' [Ha' Hr'] s' Ho Htq. eapply (accounts_timer o c); [done| |exact Ho|]; [done|].
      intros Hs0. destruct (Hs Hs0) as [H1 H2]. rewrite Htq. unfold sorted_timers. rewrite Ha', Hr'.
      rewrite (insert_ext (timer_of s)) in Hi.
      2:{ intros z Hz. unfold timer_of. simpl. rewrite list_lookup_insert_ne; [done|].
          intros ->. by destruct abs. }
      destruct abs; simpl in *; (split; [|]);
        try (by apply changed_sorted);
        (eapply (changed_insert o c); [done..| | |exact Hi|done]; [done|];
         unfold due; erewrite at_insert by done; done). }
    destruct (bool_decide (head l = Some o)).
    + apply leads_update. intros tq' Htq. destruct submit; (eapply Hall; [exact Htq|done|done]).
    + destruct submit; (eapply Hall; [|done|reflexivity]; done).
  - assert (forall s', objects s' = <[o := Some (Cell (held c) (set_timer (Timer true false (bool_decide (tmo <> None)) (timeout x) (period x) (window_length x)) (contents c)))]> (objects s) ->
      timers s' = tq -> accounts s s' []) as Hall.
    { intros s' Ho Htq. eapply (accounts_timer o c); [done| |exact Ho|]; [done|].
      intros Hs0. destruct (Hs Hs0) as [H1 H2]. rewrite Htq. split; by apply changed_sorted. }
    destruct submit; by apply Hall.
Qed.

(** TpReleaseCleanupGroupMembers *)
Lemma effect_members g cancel ph : effect s (members_step t g cancel ph rest a s).
Proof.
  unfold members_step. cbv zeta. destruct ph as [|l [|]|o l r|[|o todo] l|[|n] o todo l|[] [|]|o l|o l|o l|o l].
  all: first [apply effect_prepare | apply effect_wait | idtac].
  all: first [exact (effect_cancel o (fun n => FMembers g cancel (MCancelRelease n o todo l) :: rest)) | eff].
Qed.

(** The step of the function on top of a stack *)
Lemma effect_frame f : stack th = f :: rest -> effect s (frame_step t f rest a s).
Proof.
  intros Hst. destruct f; cbn [frame_step].
  all: try (by apply effect_release); try apply effect_worker; try (by apply effect_timers);
    try apply effect_alloc; try apply effect_init; try apply effect_set_timer; try apply effect_members.
  - exact I.
  - unfold tp_threadpool_release. eff.
  - unfold unlock_section. eff.
  - unfold tp_group_release. eff.
  - destruct asserted; [apply effect_submit|]. unfold submit_assert. eff.
  - exact (effect_cancel o (fun n => FCancelRelease o n :: rest)).
  - eff.
  - destruct asleep; [eff|apply effect_wait].
  - destruct prepared; [eff|apply effect_prepare].
Qed.

(** A call of the client *)
Lemma effect_call st c : effect s (call_step t c a st s).
Proof.
  destruct c; cbn [call_step];
    unfold release_pool, set_pool_max_threads, set_pool_min_threads, set_pool_stack_information,
      set_pool_base_priority, release_cleanup_group, alloc_call, object_call, wait_call, release_call,
      callback_may_run_long, callback_on_completion, disassociate_callback, alloc_pool_call, alloc_group_call,
      post_work, is_timer_set, object_call, instance_call; eff.
Qed.
End Steps.

(** ** Runs *)
Theorem step_effect s t l a : Inv s -> effect s (step t l a s).
Proof.
  intros HI. unfold step. destruct (threads s !! t) as [th|] eqn:Ht; [|done].
  destruct (stack th) as [|f rest] eqn:Hst; [done|]. destruct l as [c|].
  - destruct (in_user_code f); [|done]. apply effect_call.
  - by eapply effect_frame.
Qed.

Lemma counts_app o es es' :
  submitted o (es ++ es') = submitted o es + submitted o es' /\
  started o (es ++ es') = started o es + started o es' /\
  cancelled o (es ++ es') = cancelled o es + cancelled o es'.
Proof. unfold submitted, started, cancelled. rewrite !map_app, !zsum_app. done. Qed.

Lemma run_accounts s es s' : Inv s -> runs s es s' -> accounts s s' es.
Proof.
  intros HI. induction 1 as [|es s1 t l a es' s2 Hr IH Hs]; [by apply accounts_same|].
  pose proof (step_effect s1 t l a (inv_runs _ _ _ HI Hr)) as He. rewrite Hs in He. simpl in He.
  destruct IH as [H1 H2], He as [H3 H4]. split; [|auto].
  intros o. destruct (counts_app o es es') as (-> & -> & ->). specialize (H1 o). specialize (H3 o). lia.
Qed.
End TpEffects.
