(* ===== verification/TpEvents.v ===== *)
(** * The thread pool: when a callback starts and when a wait returns

    The events of a step are explained by the state before it: a worker starts
    the object that threadpool_get_next_item chooses, and tp_object_wait
    returns when object_is_finished holds.  With the invariant, the counters
    that these functions read say which callbacks are queued and which run. *)
From S2P Require Import Prelude Threadpool TpInv TpUpdate TpSteps TpRelease TpSubmit TpWorker TpSafe TpEffects.

Module TpEvents.
Import Tp TpInv TpUpdate TpSteps TpSubmit TpWorker TpSafe TpEffects.

(** A group waits for all callbacks, another caller for the associated ones. *)
Definition group_waits (f : frame) : bool := match f with FMembers _ _ _ => true | _ => false end.

Definition explained (s : state) (t : nat) (f : frame) (e : event_) : Prop :=
  match e with
  | EWaited o =>
      exists c, at_ (objects s) o = Some c /\
        (dll_shutdown s = true \/ object_is_finished (contents c) (group_waits f) = true)
  | EStart o =>
      exists p ph c, f = FWorker p ph /\ at_ (pools s) p = Some c /\
        threadpool_get_next_item (contents c) = Some o
  | _ => True
  end.

Definition all_explained (s : state) (t : nat) (f : frame) (s' : state) (es : list event_) : Prop :=
  Forall (explained s t f) es.

Lemma cleanup_explained s t f a c : Forall (explained s t f) (run_cleanup a c).
Proof.
  unfold run_cleanup. repeat match goal with
  | |- context [match ?x with Some _ => _ | None => _ end] => destruct x as [[]|] || destruct x
  | |- context [if ?b then _ else _] => destruct b
  end; repeat constructor.
Qed.

Ltac explain :=
  cbv zeta; repeat (eff_step; cbv zeta); cbn [leads]; unfold all_explained;
  repeat match goal with |- context [if ?b then _ else _] => destruct b eqn:? end;
  repeat constructor.

Section Steps.
Context (s : state) (t : nat) (rest : list frame) (a : answers).

Lemma explained_worker f p ph : f = FWorker p ph -> leads (all_explained s t f) (threadpool_worker_proc t p ph rest a s).
Proof.
  intros Hf. unfold threadpool_worker_proc, worker_loop. destruct ph; explain; try apply cleanup_explained.
  all: exists p; eauto.
Qed.

Lemma explained_wait f o grp st st' : group_waits f = grp ->
  leads (all_explained s t f) (wait_section t o grp s (Next (goto t st s) [EWaited o]) (Next (goto t st' s) [])).
Proof.
  intros Hg. unfold wait_section. eff_step. eff_step. eff_step. subst grp. destruct (_ || _) eqn:E.
  - constructor; [|constructor]. exists c. split; [done|]. by apply orb_true_iff.
  - constructor.
Qed.

Lemma explained_members g cancel ph :
  leads (all_explained s t (FMembers g cancel ph)) (members_step t g cancel ph rest a s).
Proof.
  unfold members_step. cbv zeta. destruct ph as [|l [|]|o l r|[|o todo] l|[|n] o todo l|[] [|]|o l|o l|o l|o l].
  all: first [by apply explained_wait | unfold cancel_section, tp_object_prepare_shutdown, tp_timerqueue_unlock; explain].
Qed.

Lemma explained_frame f : leads (all_explained s t f) (frame_step t f rest a s).
Proof.
  destruct f; cbn [frame_step]; first [by apply explained_worker | idtac].
  all: unfold timerqueue_thread_proc, timers_scan, timers_insert, submit_assert, submit_section,
    tp_threadpool_release, unlock_section, tp_group_release, tp_object_release, alloc_step, tp_timerqueue_lock, init_step,
    cancel_section, set_timer_section, tp_object_prepare_shutdown, tp_timerqueue_unlock.
  all: first [by destruct asleep; [explain|apply explained_wait] | apply explained_members | explain].
Qed.

Lemma explained_call st f c : leads (all_explained s t f) (call_step t c a st s).
Proof.
  destruct c; cbn [call_step];
    unfold release_pool, set_pool_max_threads, set_pool_min_threads, set_pool_stack_information,
      set_pool_base_priority, release_cleanup_group, alloc_call, object_call, wait_call, release_call,
      callback_may_run_long, callback_on_completion, disassociate_callback, alloc_pool_call, alloc_group_call,
      post_work, is_timer_set, object_call, instance_call; explain.
Qed.
End Steps.

Lemma step_explained s t l a s' es : step t l a s = Next s' es ->
  exists th f rest, threads s !! t = Some th /\ stack th = f :: rest /\ Forall (explained s t f) es.
Proof.
  unfold step. destruct (threads s !! t) as [th|] eqn:Ht; [|done].
  destruct (stack th) as [|f rest] eqn:Hst; [done|]. intros Hs. exists th, f, rest. split_and!; [done..|].
  destruct l as [c|].
  - destruct (in_user_code f); [|done]. pose proof (explained_call s t a (f :: rest) f c) as H. by rewrite Hs in H.
  - pose proof (explained_frame s t rest a f) as H. by rewrite Hs in H.
Qed.

(** ** What the counters say *)

(** The callback of [o] that a frame runs *)
Definition runs_callback (o : nat) (f : frame) : option instance :=
  match f with
  | FWorker _ (WRun o' i | WFinal o' i | WEnd o' i) => if decide (o = o') then Some i else None
  | _ => None
  end.

Lemma runs_callback_counts o f i : runs_callback o f = Some i ->
  oc KRun o f = 1 /\ oc KAssoc o f = b2z (associated i).
Proof.
  destruct f; try done. destruct ph; try done; simpl; unfold eqz; case_decide; try done;
    intros [= ->]; (split; [done|lia]).
Qed.

Lemma finished_idle s o c grp : Inv s -> at_ (objects s) o = Some c ->
  object_is_finished (contents c) grp = true ->
  pend (objects s) o = 0 /\
  forall t th f i, threads s !! t = Some th -> f ∈ stack th -> runs_callback o f = Some i ->
    grp = false /\ associated i = false.
Proof.
  intros HI Hc Hf. pose proof (live s HI o c Hc) as L. unfold object_is_finished in Hf.
  destruct (_ =? 0) eqn:E1; [|done]. simpl in Hf. apply Z.eqb_eq in E1.
  split; [by unfold pend; rewrite Hc|]. intros t th f i Ht Hi [Hr Ha]%runs_callback_counts.
  pose proof (total_elem (oc KRun o) _ t th f (oc_nonneg _ _) Ht Hi) as H1.
  pose proof (total_elem (oc KAssoc o) _ t th f (oc_nonneg _ _) Ht Hi) as H2.
  pose proof (lo_run _ _ _ L) as H3. pose proof (lo_assoc _ _ _ L) as H4. unfold otot in *.
  destruct (u (contents c)) eqn:Eu; try done; simpl in Hf.
  all: try (pose proof (lo_kind _ _ _ L) as Hk; by rewrite Eu in Hk).
  all: destruct grp; apply Z.eqb_eq in Hf; [lia|]; split; [done|]; destruct (associated i); simpl in *; [lia|done].
Qed.

(** threadpool_get_next_item takes the first entry of the first list that is
    not empty. *)
Lemma next_item_head pl o : threadpool_get_next_item pl = Some o ->
  exists i q, queues pl !! i = Some (o :: q) /\ forall j, (j < i)%nat -> queues pl !! j = Some [].
Proof.
  unfold threadpool_get_next_item. destruct (queues pl) as [|[|x q] [|[|y q2] [|[|z q3] l]]]; try done.
  all: intros [= ->].
  all: first [by exists 0%nat, q; split; [done|lia] | exists 1%nat; eexists; split; [done|]; by intros [|[]] ?; try lia
             | exists 2%nat; eexists; split; [done|]; by intros [|[|[]]] ?; try lia ].
Qed.

Lemma next_item_first s p c o co : Inv s -> at_ (pools s) p = Some c -> at_ (objects s) o = Some co ->
  threadpool_get_next_item (contents c) = Some o ->
  opool (contents co) = p /\ 0 < num_pending_callbacks (contents co) /\
  (exists q, queues (contents c) !! priority (contents co) = Some (o :: q)) /\
  forall o2 c2, at_ (objects s) o2 = Some c2 -> opool (contents c2) = p ->
    0 < num_pending_callbacks (contents c2) -> (priority (contents co) <= priority (contents c2))%nat.
Proof.
  intros HI Hp Ho (i & q & Hq & Hfirst)%next_item_head.
  destruct (inv_queue _ HI p c Hp) as (_ & _ & Hel).
  destruct (Hel i _ o Hq ltac:(left)) as (c3 & Hc3 & Hpool & <- & Hpend).
  assert (c3 = co) as -> by congruence. split_and!; [done|done|eauto|].
  intros o2 c2 Hc2 Hpool2 Hpend2. destruct (inv_queued _ HI o2 c2 Hc2 Hpend2) as (c4 & q4 & Hc4 & Hq4 & Hin).
  rewrite Hpool2 in Hc4. assert (c4 = c) as -> by congruence.
  destruct (Nat.lt_ge_cases (priority (contents c2)) (priority (contents co))) as [Hlt|]; [|done].
  rewrite (Hfirst _ Hlt) in Hq4. injection Hq4 as <-. by apply elem_of_nil in Hin.
Qed.

(** ** Progress *)
Lemma queued_worker s o c : Inv s -> at_ (objects s) o = Some c -> 0 < num_pending_callbacks (contents c) ->
  exists cp, at_ (pools s) (opool (contents c)) = Some cp /\
    (exists o', threadpool_get_next_item (contents cp) = Some o') /\
    exists t th ph, threads s !! t = Some th /\ FWorker (opool (contents c)) ph ∈ stack th.
Proof.
  intros HI Hc Hp. destruct (inv_queued _ HI o c Hc Hp) as (cp & q & Hcp & Hq & Hin).
  exists cp. split; [done|]. assert (Hel : o ∈ concat (queues (contents cp))) by (apply elem_concat; eauto).
  assert (0 < qlen (contents cp)) as Hlen.
  { unfold qlen. destruct (concat _); [by apply elem_of_nil in Hel|simpl; lia]. }
  split.
  - destruct (threadpool_get_next_item (contents cp)) eqn:E; [eauto|].
    rewrite (next_item_none _ (proj1 (inv_queue _ HI _ cp Hcp)) E) in Hel. by apply elem_of_nil in Hel.
  - pose proof (inv_pool _ HI (opool (contents c))) as L. rewrite Hcp in L.
    pose proof (lp_worker _ _ _ _ _ _ L (or_intror Hlen)) as H1. rewrite (lp_num _ _ _ _ _ _ L) in H1.
    destruct (total_pos (pc PWorker (opool (contents c))) (threads s)) as (t & th & f & Ht & Hf & H2);
      [unfold ptot in H1; lia|].
    destruct f; simpl in H2; try lia.
    unfold eqz in H2. case_decide; [|lia]. subst. eauto 6.
Qed.

Lemma worker_serves s t th p ph rest a c o : Inv s ->
  threads s !! t = Some th -> stack th = FWorker p ph :: rest -> idle ph = true ->
  at_ (pools s) p = Some c -> pcs (contents c) = None \/ pcs (contents c) = Some t ->
  threadpool_get_next_item (contents c) = Some o -> exists s', step t None a s = Next s' [EStart o].
Proof.
  intros HI Ht Hst Hi Hp Hcs Ho.
  destruct (next_item_head _ _ Ho) as (i & q & Hq & _).
  destruct (inv_queue _ HI p c Hp) as (_ & _ & Hel).
  destruct (Hel i _ o Hq ltac:(left)) as (co & Hco & _ & _ & Hpend).
  assert (exists s', worker_loop t p (held c) (contents c) rest s = Next s' [EStart o]) as (s' & Hs').
  { unfold worker_loop, with_object. rewrite Ho. apply at_Some in Hco as Hl. rewrite Hl.
    rewrite (proj2 (Z.ltb_lt _ _) Hpend). simpl.
    rewrite (execute_begin_eq _ _ _ (live s HI o co Hco)). eauto. }
  exists s'. unfold step. rewrite Ht, Hst. simpl. unfold threadpool_worker_proc, with_pool.
  apply at_Some in Hp as Hl. rewrite Hl.
  assert (forall r, enter (pcs (contents c)) t r = r) as He.
  { intros r. unfold enter. destruct Hcs as [->| ->]; [done|]. by rewrite decide_True. }
  destruct ph; try done; rewrite He; try done.
  assert (may_terminate (contents c) = false) as ->.
  { unfold may_terminate. by rewrite Ho. }
  by rewrite andb_false_r.
Qed.
End TpEvents.
