(* ===== verification/TpDrain.v ===== *)
(** * The thread pool: the scan of the timer thread and its next wake-up

    [TpDrain] shows that the timer thread finishes its scan, [TpWindows] that
    get_next_timeout chooses a time inside the windows of all timers.

    While the timer thread has the critical section of the timer queue, no
    other thread changes the lists, so the number of timers that are due only
    falls: an expired timer leaves its list, and a periodic one comes back
    with a time in the future.

    get_next_timeout walks over a sorted list of timers and merges wake-ups: it
    returns the due time of a timer that no window of the list has ended before,
    and every later due time is at or past the end of some window. *)
From S2P Require Import Prelude Threadpool TpInv TpUpdate TpSteps TpRelease TpSubmit TpWorker TpTimers TpGroups TpSafe TpEffects.
From Stdlib Require Import Sorted.

Module TpDrain.
Import Tp TpInv TpUpdate TpSteps TpSubmit TpWorker TpTimers TpGroups TpSafe TpEffects.

Definition listed (s : state) : list nat := abs_timers (timers s) ++ rel_timers (timers s).

Definition fstack (s : state) (t : nat) : option (list frame) := stack <$> threads s !! t.

(** ** Steps of other threads *)
Section Others.
Context (s : state) (HI : Inv s) (t0 : nat) (ph0 : tphase).
Context (Hcs : tcs (timers s) = Some t0) (Hf0 : fstack s t0 = Some [FTimers ph0]).
Context (t : nat) (Hne : t <> t0) (th : thread) (Ht : threads s !! t = Some th).
Context (rest : list frame) (a : answers).

Definition undisturbed (s' : state) (es : list event_) : Prop :=
  timers s' = timers s /\ fstack s' t0 = Some [FTimers ph0] /\
  forall x, x ∈ listed s -> due (objects s') x = due (objects s) x.

Lemma blocked r : enter (tcs (timers s)) t r = Blocked.
Proof. rewrite Hcs. unfold enter. by rewrite decide_False. Qed.

Lemma fstack_goto st s1 : fstack s1 t0 = Some [FTimers ph0] -> fstack (goto t st s1) t0 = Some [FTimers ph0].
Proof. intros H. unfold fstack, goto. simpl. rewrite list_lookup_alter_ne by done. exact H. Qed.

Lemma fstack_return st v po s1 : fstack s1 t0 = Some [FTimers ph0] ->
  fstack (return_to t st v po s1) t0 = Some [FTimers ph0].
Proof. intros H. unfold fstack, return_to. simpl. rewrite list_lookup_alter_ne by done. exact H. Qed.

Lemma fstack_spawn n p s1 : fstack s1 t0 = Some [FTimers ph0] -> fstack (spawn_workers n p s1) t0 = Some [FTimers ph0].
Proof.
  unfold fstack, spawn_workers. simpl. intros H. destruct (threads s1 !! t0) eqn:E; [|done].
  rewrite lookup_app_l by (by eapply lookup_lt_Some). by rewrite E.
Qed.

Lemma fstack_wake b o g s1 : fstack s1 t0 = Some [FTimers ph0] -> fstack (wake_if b o g s1) t0 = Some [FTimers ph0].
Proof.
  destruct b; [|done]. unfold fstack, wake_if, wake_all. simpl. rewrite list_lookup_fmap.
  destruct (threads s1 !! t0) as [th0|]; [|done]. simpl. intros [= ->]. done.
Qed.

Lemma fstack_instance t' i s1 : t' <> t0 -> fstack s1 t0 = Some [FTimers ph0] ->
  fstack (put_instance t' i s1) t0 = Some [FTimers ph0].
Proof. intros Hn H. unfold fstack, put_instance. simpl. rewrite list_lookup_alter_ne by done. exact H. Qed.

Lemma running_other t' x : threads s !! t' ≫= running_instance = Some x -> t' <> t0.
Proof.
  intros H ->. unfold fstack in Hf0. destruct (threads s !! t0) as [th0|]; [|done]. simpl in *.
  injection Hf0 as E. unfold running_instance in H. by rewrite E in H.
Qed.

Lemma due_changed o c c' : at_ (objects s) o = Some c -> u (contents c') = u (contents c) ->
  forall x, x ∈ listed s -> due (<[o := Some c']> (objects s)) x = due (objects s) x.
Proof. intros Hc Hu x _. by eapply due_insert. Qed.

Lemma due_new ob x : x ∈ listed s -> due (objects s ++ [Some (Cell false ob)]) x = due (objects s) x.
Proof.
  intros Hx. unfold due. rewrite at_app_ne; [done|].
  intros ->. apply (tq_elem _ (inv_timers _ HI)) in Hx as (c2 & Hc & ?). by rewrite at_end in Hc.
Qed.

Ltac stacks := repeat first [ done | apply fstack_goto | apply fstack_return | apply fstack_wake
                            | apply fstack_instance; [first [exact Hne | by eapply running_other]|] | apply (fstack_spawn _ _ s)
                            | match goal with |- fstack (put_object _ _ _ ?x) _ = _ => change (fstack x t0 = Some [FTimers ph0]) end
                            | match goal with |- context [if ?b then _ else _] => destruct b end ].

Ltac calm_step := first [ rewrite blocked; exact I | eff_step ].
Ltac calm_end :=
  cbn [leads];
  repeat match goal with |- context [if ?b then _ else _] => destruct b eqn:? end;
  first [ exact I
        | split_and!; [by rewrite ?wake_timers|by stacks
                      |rewrite ?wake_objects; first [done | intros; eapply due_changed; done | intros; by apply due_new]] ].
Ltac calm := cbv zeta; repeat (calm_step; cbv zeta); try calm_end.

Lemma calm_release o ph : stack th = FRelease o ph :: rest -> leads undisturbed (tp_object_release t o ph rest s).
Proof.
  intros Hst. unfold tp_object_release, unlock_section, tp_threadpool_release, tp_group_release.
  destruct ph; calm. destruct (freed_object s HI t th Ht rest o c Hst H) as [_ Hp].
  split_and!; [done|by stacks|]. intros x Hx. unfold due. simpl. rewrite at_insert_ne; [done|].
  intros ->. apply (tq_elem _ (inv_timers _ HI)) in Hx as (c2 & ? & ?). congruence.
Qed.

Lemma calm_submit o st :
  leads undisturbed (submit_section t o a (fun s => Next (goto t st s) [ESubmit o]) s).
Proof.
  unfold submit_section. cbv zeta. eff_step. eff_step. eff_step. eff_step. cbn [leads]. split_and!.
  - by destruct (_ && _).
  - by stacks.
  - intros x _. destruct (_ && _); simpl; (eapply due_insert; [done|]); cbn [contents]; by rewrite submit_object_eq.
Qed.

Lemma calm_worker p ph : leads undisturbed (threadpool_worker_proc t p ph rest a s).
Proof.
  unfold threadpool_worker_proc, worker_loop. destruct ph; calm.
  all: try match goal with E : execute_begin _ = Some _, H : at_ _ ?n = Some ?c |- _ =>
         rewrite (execute_begin_eq _ _ _ (live s HI n c H)) in E; injection E as <-; calm_end end.
  cbn [leads]. split_and!; [by rewrite !wake_timers|by stacks|]. rewrite !wake_objects. intros x _. simpl.
  eapply due_insert; [done|]. cbn [contents]. by rewrite execute_end_eq.
Qed.

Lemma calm_cancel o (st : nat -> list frame) :
  leads undisturbed (cancel_section t o s (fun n s => Next (goto t (st (Z.to_nat n)) s) [ECancel o n])).
Proof.
  unfold cancel_section. eff_step. eff_step. eff_step. cbv zeta. cbn [leads].
  split_and!; [done|by stacks|]. intros x _. simpl. eapply due_insert; [done|]. cbn [contents].
  by rewrite (cancel_object_eq _ _ _ (live s HI o c ltac:(eassumption))).
Qed.

Lemma calm_prepare o st :
  leads undisturbed (tp_object_prepare_shutdown t o a (fun s => Next (goto t st s) []) s).
Proof. unfold tp_object_prepare_shutdown, tp_timerqueue_unlock. calm. Qed.

Lemma calm_members g cancel ph : leads undisturbed (members_step t g cancel ph rest a s).
Proof.
  unfold members_step. cbv zeta. destruct ph as [|l [|]|o l r|[|o todo] l|[|n] o todo l|[] [|]|o l|o l|o l|o l].
  all: first [apply calm_prepare | unfold wait_section; idtac].
  all: first [exact (calm_cancel o (fun n => FMembers g cancel (MCancelRelease n o todo l) :: rest)) | calm].
Qed.

Lemma calm_timers ph : stack th = FTimers ph :: rest -> leads undisturbed (timerqueue_thread_proc t ph rest a s).
Proof.
  intros Hst. pose proof (inv_frames _ HI t th _ Ht (top_in _ _ _ Hst)) as Hf. simpl in Hf.
  destruct ph; [|naive_solver..]. unfold timerqueue_thread_proc. by rewrite blocked.
Qed.

Lemma calm_frame f : stack th = f :: rest -> leads undisturbed (frame_step t f rest a s).
Proof.
  intros Hst. destruct f; cbn [frame_step].
  all: try (by apply calm_release); try apply calm_worker; try (by apply calm_timers); try apply calm_members.
  - exact I.
  - unfold tp_threadpool_release. calm.
  - unfold unlock_section. calm.
  - unfold tp_group_release. calm.
  - unfold alloc_step, tp_timerqueue_lock. destruct ph; calm.
  - unfold init_step, submit_assert. destruct ph; try apply calm_submit; calm.
  - destruct asserted; [apply calm_submit|]. unfold submit_assert. calm.
  - exact (calm_cancel o (fun n => FCancelRelease o n :: rest)).
  - calm.
  - unfold wait_section. calm.
  - unfold set_timer_section. calm.
  - destruct prepared; [calm|apply calm_prepare].
Qed.

Lemma calm_call st c : leads undisturbed (call_step t c a st s).
Proof.
  destruct c; cbn [call_step];
    unfold release_pool, set_pool_max_threads, set_pool_min_threads, set_pool_stack_information,
      set_pool_base_priority, release_cleanup_group, alloc_call, object_call, wait_call, release_call,
      callback_may_run_long, callback_on_completion, disassociate_callback, alloc_pool_call, alloc_group_call,
      post_work, is_timer_set, object_call, instance_call; calm.
Qed.
End Others.

Lemma step_undisturbed s t0 ph0 t l a : Inv s ->
  tcs (timers s) = Some t0 -> fstack s t0 = Some [FTimers ph0] -> t <> t0 ->
  leads (undisturbed s t0 ph0) (step t l a s).
Proof.
  intros HI Hcs Hf Hne. unfold step. destruct (threads s !! t) as [th|] eqn:Ht; [|done].
  destruct (stack th) as [|f rest] eqn:Hst; [done|]. destruct l as [c|].
  - destruct (in_user_code f); [|done]. by apply calm_call.
  - by eapply calm_frame.
Qed.

(** ** The measure *)
Definition overdue (h : heap object) (now : Z) (l : list nat) : nat :=
  length (filter (fun x => due h x <= now) l).

(** The timers that are due, and the place in the loop *)
Definition left_to_do (s : state) (ph : tphase) : nat :=
  let n abs_now rel_now :=
    (overdue (objects s) abs_now (abs_timers (timers s)) + overdue (objects s) rel_now (rel_timers (timers s)))%nat in
  let at_ r (abs : bool) m := (2 * (4 * m + r) + (if abs then 1 else 0))%nat in
  match ph with
  | TWait _ => 0
  | TScan abs a r => at_ 0 abs (n a r)
  | TAssert _ abs a r => at_ 3 abs (n a r)
  | TSubmit _ abs a r => at_ 2 abs (n a r)
  | TInsert _ abs a r => at_ 1 abs (n a r)
  end%nat.

Lemma overdue_cons h now o l : overdue h now (o :: l) = ((if decide (due h o <= now)%Z then 1 else 0) + overdue h now l)%nat.
Proof. unfold overdue. rewrite filter_cons. by case_decide. Qed.

Lemma overdue_ext h h' now l : (forall x, x ∈ l -> due h' x = due h x) -> overdue h' now l = overdue h now l.
Proof.
  induction l as [|x l IH]; intros H; [done|]. rewrite !overdue_cons, IH by (intros; apply H; by right).
  by rewrite (H x) by left.
Qed.

Lemma left_same s s' ph : objects s' = objects s -> timers s' = timers s -> left_to_do s' ph = left_to_do s ph.
Proof. intros Ho Ht. unfold left_to_do. by rewrite Ho, Ht. Qed.

Lemma left_ext s s' ph : same_lists (timers s) (timers s') ->
  (forall x, x ∈ listed s -> due (objects s') x = due (objects s) x) -> left_to_do s' ph = left_to_do s ph.
Proof.
  intros [Ha Hr] Hd. unfold left_to_do. rewrite Ha, Hr.
  assert (forall now, overdue (objects s') now (abs_timers (timers s)) = overdue (objects s) now (abs_timers (timers s))) as H1
    by (intros; apply overdue_ext; intros; apply Hd, elem_of_app; by left).
  assert (forall now, overdue (objects s') now (rel_timers (timers s)) = overdue (objects s) now (rel_timers (timers s))) as H2
    by (intros; apply overdue_ext; intros; apply Hd, elem_of_app; by right).
  destruct ph; by rewrite ?H1, ?H2.
Qed.

Lemma next_expiry_future abs rel_now x : rel_now < next_expiry abs rel_now x.
Proof. unfold next_expiry. destruct (_ <=? rel_now) eqn:E; lia. Qed.

Lemma remove_absent o l : o ∉ l -> list_remove o l = l.
Proof.
  unfold list_remove. induction l as [|x l IH]; intros H; [done|]. apply not_elem_of_cons in H as [? ?].
  rewrite filter_cons_True by done. by rewrite IH.
Qed.

Lemma overdue_perm h now l l' : l ≡ₚ l' -> overdue h now l = overdue h now l'.
Proof. intros H. unfold overdue. by rewrite H. Qed.

Section Own.
Context (s : state) (HI : Inv s) (t : nat) (th : thread) (Ht : threads s !! t = Some th).
Context (ph : tphase) (Hst : stack th = [FTimers ph]) (Hcs : tcs (timers s) = Some t) (a : answers).

(** The scan goes on with less to do, or it ends. *)
Definition proceeds (s' : state) (es : list event_) : Prop :=
  tcs (timers s') = None \/
  exists ph', fstack s' t = Some [FTimers ph'] /\ tcs (timers s') = Some t /\
    (left_to_do s' ph' < left_to_do s ph)%nat.

Lemma fstack_self st s1 : threads s1 !! t = Some th -> fstack (goto t st s1) t = Some st.
Proof. intros E. unfold fstack, goto. simpl. rewrite list_lookup_alter_eq, E. done. Qed.

Lemma proceeds_to ph' s1 es : threads s1 = threads s -> timers s1 = timers s -> objects s1 = objects s ->
  (left_to_do s ph' < left_to_do s ph)%nat -> proceeds (goto t [FTimers ph'] s1) es.
Proof.
  intros E1 E2 E3 Hl. right. exists ph'. split; [apply fstack_self; by rewrite E1|].
  split; [by simpl; rewrite E2|]. by rewrite (left_same s).
Qed.

Lemma due_taken o c x y z : at_ (objects s) o = Some c -> u (contents c) = UTimer x ->
  u (contents y) = UTimer (not_pending x) -> due (<[o := Some y]> (objects s)) z = due (objects s) z.
Proof.
  intros Hc Hu Hy. unfold due. destruct (decide (z = o)) as [->|Hz].
  - erewrite at_insert by done. by rewrite Hc, Hu, Hy.
  - by rewrite at_insert_ne.
Qed.

(** The first timer of the list that is scanned is in no other place. *)
Lemma taken_lists abs o l : scanned abs (timers s) = o :: l ->
  list_remove o (abs_timers (timers s)) = (if abs then l else abs_timers (timers s)) /\
  list_remove o (rel_timers (timers s)) = (if abs then rel_timers (timers s) else l).
Proof.
  intros Hl. pose proof (tq_nodup _ (inv_timers _ HI)) as Hn. apply NoDup_app in Hn as (Hn1 & Hd & Hn2).
  assert (list_remove o (o :: l) = list_remove o l) as Ho by (unfold list_remove; by rewrite filter_cons_False by auto).
  destruct abs; simpl in Hl; rewrite Hl in *; rewrite Ho;
    [apply NoDup_cons in Hn1 as [Hn1 _]|apply NoDup_cons in Hn2 as [Hn2 _]]; rewrite !remove_absent; try done.
  - apply Hd. left.
  - intros Hin. by apply (Hd o Hin); left.
Qed.

Lemma proceeds_scan abs abs_now rel_now : ph = TScan abs abs_now rel_now ->
  leads proceeds (timers_scan t abs abs_now rel_now [] s).
Proof.
  intros Hph. assert (leads proceeds (with_update rel_now s (fun s => Next (goto t [FTimers (TWait false)]
    (set_timers (set_tcs None (timers s)) s)) []))) as Hdone.
  { apply leads_update. intros tq Htq. by left. }
  assert (abs = true -> proceeds (goto t [FTimers (TScan false abs_now rel_now)] s) []) as Hnext.
  { intros ->. apply proceeds_to; [done..|]. rewrite Hph. simpl. lia. }
  unfold timers_scan. destruct (scanned abs (timers s)) as [|o l] eqn:Hl.
  { destruct abs; [by apply Hnext|done]. }
  eff_step. destruct (u (contents c)) as [| |x| |] eqn:Hu; try exact I. eff_step.
  destruct (_ <? timeout x) eqn:Hx. { destruct abs; [by apply Hnext|done]. }
  cbn [leads]. right. exists (TAssert o abs abs_now rel_now). split; [by apply fstack_self|]. split; [done|].
  rewrite Hph. unfold left_to_do. simpl objects. simpl timers.
  rewrite !(overdue_ext (objects s) (<[o := _]> _)) by (intros; by eapply due_taken).
  pose proof (taken_lists abs o l Hl) as Hrm. apply Z.ltb_ge in Hx.
  assert (due (objects s) o <= if abs then abs_now else rel_now) as Hdue by (unfold due; by rewrite H, Hu).
  destruct abs; simpl in *; destruct Hrm as [-> ->]; rewrite Hl, overdue_cons, decide_True by done; lia.
Qed.

Lemma proceeds_insert o abs abs_now rel_now : ph = TInsert o abs abs_now rel_now ->
  leads proceeds (timers_insert t o abs abs_now rel_now [] s).
Proof.
  intros Hph. assert (threads s !! t = Some th /\ FTimers ph ∈ stack th) as [_ Hin] by (rewrite Hst; split; [done|left]).
  pose proof (inv_frames _ HI t th _ Ht Hin) as Hf. rewrite Hph in Hf. destruct Hf as (_ & c & Hc & _ & Hpt).
  destruct (absent_lists s HI o c Hc Hpt) as [Ha Hr].
  unfold timers_insert. eff_step. assert (c0 = c) as -> by congruence.
  destruct (u (contents c)) as [| |x| |] eqn:Hu; try exact I.
  destruct (_ && _); [|apply proceeds_to; [done..|]; rewrite Hph; simpl; lia].
  destruct (insert_timer _ _ _ _) as [l|] eqn:Hi; [|exact I].
  right. exists (TScan abs abs_now rel_now). split; [by apply fstack_self|]. split; [done|].
  rewrite Hph. unfold left_to_do. simpl objects. simpl timers. simpl abs_timers. simpl rel_timers.
  rewrite (overdue_perm _ _ _ _ (insert_perm _ _ _ _ _ Hi)), overdue_cons.
  rewrite decide_False. 2:{ unfold due. erewrite at_insert by done. simpl. pose proof (next_expiry_future abs rel_now x). lia. }
  rewrite !(overdue_ext (objects s) (<[o := _]> _)); [lia|..];
    intros y Hy; unfold due; rewrite at_insert_ne; congruence.
Qed.

Lemma proceeds_submit o abs abs_now rel_now : ph = TSubmit o abs abs_now rel_now ->
  leads proceeds (submit_section t o a (fun s =>
    Next (goto t [FTimers (TInsert o abs abs_now rel_now)] s) [ESubmit o]) s).
Proof.
  intros Hph. unfold submit_section. cbv zeta. eff_step. eff_step. eff_step. eff_step. cbn [leads]. right.
  exists (TInsert o abs abs_now rel_now). split; [|split].
  - apply fstack_self. destruct (_ && _); [|done]. simpl. by apply lookup_app_l_Some.
  - by destruct (_ && _).
  - rewrite Hph. rewrite (left_ext s).
    + simpl. lia.
    + by destruct (_ && _).
    + intros x _. destruct (_ && _); simpl; (eapply due_insert; [done|]); cbn [contents]; by rewrite submit_object_eq.
Qed.

Lemma proceeds_own l : leads proceeds (step t l a s).
Proof.
  unfold step. rewrite Ht, Hst. destruct l as [c|]; [done|]. cbn [frame_step]. unfold timerqueue_thread_proc.
  set (q := ph). assert (Hph : ph = q) by done. clearbody q.
  destruct q as [b|abs an rn|o abs an rn|o abs an rn|o abs an rn].
  - destruct (tq_lock _ (inv_timers _ HI) t Hcs) as (th2 & ph2 & Ht2 & Hst2 & Hsc).
    rewrite Ht in Ht2. injection Ht2 as <-. rewrite Hst in Hst2. injection Hst2 as <-. by rewrite Hph in Hsc.
  - by apply proceeds_scan.
  - unfold submit_assert. repeat eff_step. apply proceeds_to; [done..|]. rewrite Hph. simpl. lia.
  - by apply proceeds_submit.
  - by apply proceeds_insert.
Qed.
End Own.

(** ** Runs *)
Definition steps_of (t : nat) (ls : list (nat * option call * answers)) : nat :=
  length (filter (fun x => x.1.1 = t) ls).

Lemma exec_cons t l a ls s s1 es1 r : step t l a s = Next s1 es1 ->
  exec ((t, l, a) :: ls) s = Some r -> exists es2, exec ls s1 = Some (r.1, es2).
Proof.
  intros Hs He. simpl in He. rewrite Hs in He. destruct (exec ls s1) as [[s2 es2]|]; [|done].
  simpl in He. simplify_eq. eauto.
Qed.

(** The timer thread leaves its critical section before it has taken more than
    [left_to_do] steps. *)
Lemma scan_ends s t ph ls r : Inv s -> tcs (timers s) = Some t -> fstack s t = Some [FTimers ph] ->
  exec ls s = Some r -> (left_to_do s ph < steps_of t ls)%nat ->
  exists l1 l2 s1 es1, ls = l1 ++ l2 /\ exec l1 s = Some (s1, es1) /\ tcs (timers s1) = None.
Proof.
  revert s ph r. induction ls as [|[[t' l] a] ls IH]; intros s ph r HI Hcs Hf He Hlt; [unfold steps_of in Hlt; rewrite filter_nil in Hlt; simpl in Hlt; lia|].
  destruct (step t' l a s) as [| | |s1 es1] eqn:Hs; try (simpl in He; by rewrite Hs in He).
  destruct (exec_cons _ _ _ _ _ _ _ _ Hs He) as (es2 & He2).
  pose proof (step_good s t' l a HI) as Hg. rewrite Hs in Hg.
  assert (Hnow : forall sx ex l1 l2, exec l1 s1 = Some (sx, ex) -> ls = l1 ++ l2 -> tcs (timers sx) = None ->
    exists l1 l2 s1 es1, (t', l, a) :: ls = l1 ++ l2 /\ exec l1 s = Some (s1, es1) /\ tcs (timers s1) = None).
  { intros sx ex l1 l2 Hx -> Hn. exists ((t', l, a) :: l1), l2, sx, (es1 ++ ex). simpl. by rewrite Hs, Hx. }
  unfold steps_of in Hlt. rewrite filter_cons in Hlt. simpl in Hlt. destruct (decide (t' = t)) as [->|Hne].
  - unfold fstack in Hf. destruct (threads s !! t) as [th|] eqn:Ht; [|done]. simpl in Hf. injection Hf as Hst.
    pose proof (proceeds_own s HI t th Ht ph Hst Hcs a l) as Hp. rewrite Hs in Hp. simpl in Hp.
    destruct Hp as [Hn|(ph' & Hf' & Hcs' & Hl)]; [by apply (Hnow s1 [] [] ls)|].
    simpl in Hlt. destruct (IH s1 ph' _ Hg Hcs' Hf' He2) as (l1 & l2 & sx & ex & -> & Hx & Hn);
      [unfold steps_of; lia|by eapply Hnow].
  - pose proof (step_undisturbed s t ph t' l a HI Hcs Hf Hne) as Hu. rewrite Hs in Hu. destruct Hu as (Etq & Hf' & Hd).
    destruct (IH s1 ph _ Hg ltac:(by rewrite Etq) Hf' He2) as (l1 & l2 & sx & ex & -> & Hx & Hn);
      [|by eapply Hnow].
    rewrite (left_ext s); [done|by rewrite Etq|done].
Qed.

End TpDrain.

(** ** The next wake-up *)
Module TpWindows.
Import Tp TpInv TpSteps TpTimers TpEffects.

(** The end of the window of a timer *)
Definition window_end (x : timer) : Z := timeout x + window_length x * 10000.

Definition in_range (x : timer) : Prop :=
  0 <= timeout x < MAXLONGLONG /\ 0 <= window_length x /\ window_end x < 2 ^ 64.

Lemma window_end_u64 x : in_range x -> u64 (timeout x + u64 (window_length x) * 10000) = window_end x.
Proof.
  intros (H1 & H2 & H3). unfold window_end in *. unfold u64.
  rewrite (Z.mod_small (window_length x)) by lia. by rewrite Z.mod_small by lia.
Qed.

Section Walk.
Context (look : nat -> option timer).

Definition in_order (x y : nat) : Prop :=
  forall tx ty, look x = Some tx -> look y = Some ty -> timeout tx <= timeout ty.

(** What is known of the result [v] when the walk starts with the given bounds. *)
Record wakes (l : list nat) (lower upper v : Z) : Prop := {
  wk_lower : lower <= v <= upper;
  wk_timer : v = lower \/ exists x tx, x ∈ l /\ look x = Some tx /\ v = timeout tx;
  wk_window : forall x tx, x ∈ l -> look x = Some tx -> v <= window_end tx;
  wk_latest : forall y ty, y ∈ l -> look y = Some ty -> v < timeout ty ->
    upper <= timeout ty \/ exists x tx, x ∈ l /\ look x = Some tx /\ window_end tx <= timeout ty }.

Lemma next_timeout_wakes l : StronglySorted in_order l ->
  (forall x tx, x ∈ l -> look x = Some tx -> in_range tx) ->
  forall lower upper v, lower <= upper ->
  (forall x tx, x ∈ l -> look x = Some tx -> lower <= timeout tx) ->
  next_timeout look lower upper l = Some v -> wakes l lower upper v.
Proof.
  induction 1 as [|x l Hs IH Hx]; intros Hr lower upper v Hlu Hlow Hn; simpl in Hn.
  - simplify_eq. split; [lia|by left|by intros ? ? ?%elem_of_nil|by intros ? ? ?%elem_of_nil].
  - destruct (look x) as [tx|] eqn:Etx; [|done]. simpl in Hn. rewrite Forall_forall in Hx.
    pose proof (Hr x tx ltac:(left) Etx) as Hrx. pose proof (Hlow x tx ltac:(left) Etx) as Hlx.
    assert (Hle : forall y ty, y ∈ x :: l -> look y = Some ty -> timeout tx <= timeout ty).
    { intros y ty [->|Hy]%elem_of_cons Ey; [simplify_eq; lia|]. by apply (Hx y Hy). }
    assert (Hwin : forall y ty, y ∈ x :: l -> look y = Some ty -> timeout ty <= window_end ty).
    { intros y ty Hy Ey. destruct (Hr y ty Hy Ey) as (_ & ? & _). unfold window_end. lia. }
    destruct (upper <=? timeout tx) eqn:E.
    + simplify_eq. apply Z.leb_le in E. split; [lia|by left| |].
      * intros y ty Hy Ey. specialize (Hlow y ty Hy Ey). specialize (Hwin y ty Hy Ey). lia.
      * intros y ty Hy Ey _. left. specialize (Hle y ty Hy Ey). lia.
    + apply Z.leb_gt in E. rewrite window_end_u64 in Hn by done.
      set (up := if window_end tx <? upper then window_end tx else upper) in *.
      assert (Hup : up = Z.min (window_end tx) upper) by (unfold up; destruct (_ <? _) eqn:E2; lia).
      pose proof (Hwin x tx ltac:(left) Etx) as Hwx.
      destruct (IH (fun y ty Hy => Hr y ty ltac:(by right)) (timeout tx) up v ltac:(lia)
        (fun y ty Hy => Hle y ty ltac:(by right)) Hn) as [H1 H2 H3 H4].
      split; [lia| | |].
      * right. destruct H2 as [->|(y & ty & ? & ? & ?)]; [by exists x, tx; split; [left|]|].
        exists y, ty. split; [by right|done].
      * intros y ty [->|Hy]%elem_of_cons Ey; [simplify_eq; lia|]. by eapply H3.
      * intros y ty [->|Hy]%elem_of_cons Ey Hlt; [simplify_eq; lia|].
        destruct (H4 y ty Hy Ey Hlt) as [Hu|(z & tz & ? & ? & ?)].
        -- destruct (Z.le_gt_cases upper (timeout ty)); [by left|]. right. exists x, tx. split; [left|]. split; [done|]. lia.
        -- right. exists z, tz. split; [by right|done].
Qed.

(** get_next_timeout of a list that is not empty *)
Lemma get_next_timeout_wakes l : StronglySorted in_order l ->
  (forall x, x ∈ l -> exists tx, look x = Some tx /\ in_range tx) -> l <> [] ->
  exists v, get_next_timeout look l = Some v /\
    (exists x tx, x ∈ l /\ look x = Some tx /\ v = timeout tx) /\
    (forall x tx, x ∈ l -> look x = Some tx -> v <= window_end tx) /\
    (forall y ty, y ∈ l -> look y = Some ty -> v < timeout ty ->
       exists x tx, x ∈ l /\ look x = Some tx /\ window_end tx <= timeout ty).
Proof.
  intros Hs Hr Hne. destruct (next_timeout_total look l ltac:(naive_solver) MAXLONGLONG MAXLONGLONG) as (v & Hv).
  exists v. split; [done|]. destruct l as [|x l]; [done|].
  destruct (Hr x ltac:(left)) as (tx & Etx & Hrx).
  assert (next_timeout look (timeout tx) MAXLONGLONG (x :: l) = Some v) as Hv2.
  { rewrite <- Hv. simpl. rewrite Etx. simpl.
    by rewrite (proj2 (Z.leb_gt MAXLONGLONG (timeout tx))) by apply Hrx. }
  assert (Hr2 : forall y ty, y ∈ x :: l -> look y = Some ty -> in_range ty).
  { intros y ty Hy Ey. destruct (Hr y Hy) as (? & ? & ?). by simplify_eq. }
  apply next_timeout_wakes in Hv2 as [H1 H2 H3 H4]; [|done|done|destruct Hrx; lia|].
  - split_and!; [|done|].
    + destruct H2 as [->|]; [|done]. exists x, tx. by split; [left|].
    + intros y ty Hy Ey Hlt. destruct (H4 y ty Hy Ey Hlt) as [Hm|]; [|done].
      destruct (Hr2 y ty Hy Ey) as [? _]. lia.
  - intros y ty [->|Hy]%elem_of_cons Ey; [simplify_eq; lia|].
    apply StronglySorted_inv in Hs as [_ Hs]. rewrite Forall_forall in Hs. by apply (Hs y Hy).
Qed.
End Walk.

Lemma sorted_in_order s l : StronglySorted (by_due (objects s)) l -> StronglySorted (in_order (timer_of s)) l.
Proof.
  induction 1 as [|x l Hs IH Hx]; constructor; [done|]. eapply Forall_impl; [exact Hx|].
  intros y Hy tx ty Ex%timer_due_at Ey%timer_due_at. unfold by_due in Hy. lia.
Qed.
End TpWindows.
