(* ===== verification/TpSpec.v ===== *)
(** * The thread pool: what its functions promise

    The theorems on threadpool.c for every run from the initial state, with any
    number of client threads, any interleaving, any answers of the system and
    any calls that keep the contract of the interface. *)
From S2P Require Import Prelude Threadpool TpInv TpUpdate TpSteps TpSubmit TpWorker TpTimers TpSafe TpEffects TpEvents TpDrain.
From Stdlib Require Import Sorted.

Module TpSpec.
Import Tp TpInv TpUpdate TpSteps TpWorker TpTimers TpSafe TpEffects TpEvents TpDrain TpWindows.

(** ** Runs used as examples *)
Definition ok : answers := Answers 0 100 0 0 false 0 0 0 (StackInfo 0 0).
Definition at_time (abs_now rel_now : Z) : answers := Answers 0 100 abs_now rel_now false 0 0 0 (StackInfo 0 0).

Definition does (t : nat) (c : call) : nat * option call * answers := (t, Some c, ok).
Definition goes (t n : nat) : list (nat * option call * answers) := replicate n (t, None, ok).

Definition in_pool (p : nat) (g : option nat) (prio : Z) : option environ :=
  Some (Environ 3 (Some p) g false false false prio).

Definition final (n : nat) (ls : list (nat * option call * answers)) : state :=
  match exec ls (init n false) with Some (s, _) => s | None => init n false end.
Definition history (n : nat) (ls : list (nat * option call * answers)) : list event_ :=
  match exec ls (init n false) with Some (_, es) => es | None => [] end.

Lemma final_runs n ls : runs (init n false) (history n ls) (final n ls).
Proof.
  unfold final, history. destruct (exec ls (init n false)) as [[s es]|] eqn:E; [|constructor].
  apply (exec_runs ls (init n false) s [] (init n false) es); [constructor|done].
Qed.

(** Thread 0 allocates a pool and two work objects of it, the first with low
    priority, and posts the first twice and the second once. *)
Definition posted : list (nat * option call * answers) :=
  [does 0 TpAllocPool; does 0 (TpAllocWork (in_pool 0 None 2))] ++ goes 0 5 ++
  [does 0 (TpAllocWork (in_pool 0 None 1))] ++ goes 0 5 ++
  [does 0 (TpPostWork 0)] ++ goes 0 2 ++ [does 0 (TpPostWork 0)] ++ goes 0 2 ++
  [does 0 (TpPostWork 1)] ++ goes 0 2.

Example posted_runs :
  exists s es, exec posted (init 1 false) = Some (s, es) /\ es = [ESubmit 0; ESubmit 0; ESubmit 1] /\
    length (threads s) = 3%nat.
Proof. eexists _, _. split; [vm_compute; reflexivity|]. split; reflexivity. Qed.

(** Both workers take a callback. *)
Definition served : list (nat * option call * answers) := posted ++ goes 1 1 ++ goes 2 1.

Example served_runs : history 1 served = [ESubmit 0; ESubmit 0; ESubmit 1; EStart 1; EStart 0].
Proof. vm_compute. reflexivity. Qed.

(** Another thread waits for the first object and cancels what is left; the
    callback that runs ends. *)
Definition waiting : list (nat * option call * answers) :=
  served ++ [does 0 (TpWaitForWork 0 true)] ++ goes 0 4 ++ goes 2 4.
Definition waited : list (nat * option call * answers) := waiting ++ goes 0 1.

Example waited_runs : history 1 waited =
  [ESubmit 0; ESubmit 0; ESubmit 1; EStart 1; EStart 0; ECancel 0 1; EWaited 0].
Proof. vm_compute. reflexivity. Qed.

(** ** Memory *)

(** C1. Memory safety of the thread pool: in every reachable state no step of
    any thread touches a pool, object or group that was freed, or fails an
    ASSERT of threadpool.c, whatever the interleaving, the answers of the system
    and the calls of the client. *)
Theorem Threadpool_safe n shut es s t l a :
  runs (init n shut) es s -> step t l a s <> Crash.
Proof. intros Hr Hc. pose proof (step_good s t l a (reach _ _ _ _ Hr)) as Hg. by rewrite Hc in Hg. Qed.

Lemma Threadpool_safe_witness :
  runs (init 1 false) (history 1 waited) (final 1 waited) /\ step 0 (Some (TpReleaseWork 0)) ok (final 1 waited) <> Crash.
Proof. split; [apply final_runs|]. eapply Threadpool_safe, final_runs. Defined.

(** A thread that is in none of the functions, or asleep in a thread procedure *)
Definition at_rest (f : frame) : bool :=
  match f with
  | FUser | FWorker _ (WStart | WLoop | WSleep) | FTimers _ => true
  | _ => false
  end.

Lemma rest_total s o k : any_frame (fun f => negb (at_rest f)) s = false -> otot s o k = 0.
Proof.
  intros H. unfold otot. assert (forall th, th ∈ threads s -> stot (oc k o) (stack th) = 0) as Hz.
  { intros th Hth. unfold stot. rewrite (zsum_map_ext _ (fun _ => 0)); [by clear; induction (stack th)|].
    intros f Hf. unfold any_frame in H. rewrite <- not_true_iff_false, existsb_exists in H.
    destruct (at_rest f) eqn:E; [destruct f as [|p []| | | | | | | | | | | | | |]; done|].
    destruct H. exists th. split; [by apply list_elem_of_In|].
    apply existsb_exists. exists f. split; [by apply list_elem_of_In|by rewrite E]. }
  unfold total. rewrite (zsum_map_ext _ (fun _ => 0)); [|done]. clear. by induction (threads s).
Qed.

(** C35. No object is leaked: when no thread is inside a function of the thread
    pool or in a callback, every object that has not been freed has a queued
    callback or a client that has not released it. *)
Theorem Threadpool_no_leak n shut es s o c :
  runs (init n shut) es s -> any_frame (fun f => negb (at_rest f)) s = false ->
  at_ (objects s) o = Some c ->
  held c = true \/ 0 < num_pending_callbacks (contents c).
Proof.
  intros Hr Hq Hc. pose proof (live s (reach _ _ _ _ Hr) o c Hc) as L.
  pose proof (lo_ref _ _ _ L) as H1. pose proof (lo_destroy _ _ _ L) as H2. pose proof (lo_pending _ _ _ L).
  rewrite !rest_total in * by done. destruct (held c); [by left|]. right.
  destruct (refcount (contents c) =? 0) eqn:E; [lia|]. destruct (_ || _); simpl in *; lia.
Qed.

Lemma Threadpool_no_leak_witness :
  any_frame (fun f => negb (at_rest f)) (final 1 posted) = false /\
  exists c, at_ (objects (final 1 posted)) 0 = Some c /\
    (held c = true \/ 0 < num_pending_callbacks (contents c)).
Proof.
  split; [vm_compute; reflexivity|]. eexists. split; [vm_compute; reflexivity|].
  apply (Threadpool_no_leak 1 false (history 1 posted) (final 1 posted) 0).
  - apply final_runs.
  - vm_compute. reflexivity.
  - vm_compute. reflexivity.
Defined.

(** ** Callbacks *)

(** C4. No callback is lost and none runs twice: at every moment the callbacks
    of an object that were submitted are those that a worker has started, those
    that were cancelled and those that are still pending. *)
Theorem Threadpool_callbacks_conserved n shut es s o :
  runs (init n shut) es s ->
  submitted o es = started o es + cancelled o es + pend (objects s) o /\ 0 <= pend (objects s) o.
Proof.
  intros Hr. destruct (run_accounts _ _ _ (inv_init n shut) Hr) as [H _]. specialize (H o). split.
  - assert (pend (objects (init n shut)) o = 0) by (unfold pend; cbn [init objects]; by rewrite at_nil). lia.
  - unfold pend. destruct (at_ (objects s) o) as [c|] eqn:Hc; [|lia].
    apply (lo_pending _ _ _ (live s (reach _ _ _ _ Hr) o c Hc)).
Qed.

Lemma Threadpool_callbacks_conserved_witness :
  runs (init 1 false) (history 1 waited) (final 1 waited) /\
  (submitted 0 (history 1 waited) =
     started 0 (history 1 waited) + cancelled 0 (history 1 waited) + pend (objects (final 1 waited)) 0 /\
   0 <= pend (objects (final 1 waited)) 0) /\
  submitted 0 (history 1 waited) = 2 /\ cancelled 0 (history 1 waited) = 1.
Proof.
  split; [apply final_runs|]. split; [eapply Threadpool_callbacks_conserved, final_runs|].
  split; vm_compute; reflexivity.
Defined.

(** C6. A wait is a barrier, unless the process is shutting down (then
    tp_object_wait returns at once): when tp_object_wait returns for an object
    while RtlDllShutdownInProgress is FALSE, no callback of the object is pending and none
    that is associated runs; for the wait of a cleanup group none runs at all. *)
Theorem TpWait_barrier n shut es s t l a s' es' o :
  runs (init n shut) es s -> step t l a s = Next s' es' -> EWaited o ∈ es' -> dll_shutdown s = false ->
  pend (objects s) o = 0 /\
  forall t' th' f i, threads s !! t' = Some th' -> f ∈ stack th' -> runs_callback o f = Some i ->
    associated i = false /\
    forall th g c ph rest, threads s !! t = Some th -> stack th <> FMembers g c ph :: rest.
Proof.
  intros Hr Hs Hin Hdll. destruct (step_explained _ _ _ _ _ _ Hs) as (th & f & rest & Ht & Hst & Hall).
  rewrite Forall_forall in Hall. destruct (Hall _ Hin) as (c & Hc & [?|Hf]); [congruence|].
  destruct (finished_idle _ _ _ _ (reach _ _ _ _ Hr) Hc Hf) as [H1 H2]. split; [done|].
  intros t' th' f' i Ht' Hf' Hi. destruct (H2 t' th' f' i Ht' Hf' Hi) as [Hg Ha]. split; [done|].
  intros th2 g c2 ph rest2 Ht2 Hst2. assert (th2 = th) as -> by congruence.
  rewrite Hst in Hst2. injection Hst2 as -> _. done.
Qed.

Lemma TpWait_barrier_witness :
  exists s', step 0 None ok (final 1 waiting) = Next s' [EWaited 0] /\ pend (objects (final 1 waiting)) 0 = 0.
Proof.
  eexists. split; [vm_compute; reflexivity|].
  eapply (TpWait_barrier 1 false (history 1 waiting) (final 1 waiting) 0 None ok _ [EWaited 0] 0).
  - apply final_runs.
  - vm_compute. reflexivity.
  - left.
  - vm_compute. reflexivity.
Defined.

(** C33. Scheduling: a worker of a pool only starts a callback of an object of
    that pool which is first in the list of its priority, while no object of
    the pool with a higher priority has a callback pending. *)
Theorem Threadpool_priority n shut es s t l a s' es' o :
  runs (init n shut) es s -> step t l a s = Next s' es' -> EStart o ∈ es' ->
  exists c p cp th ph rest, at_ (objects s) o = Some c /\ at_ (pools s) p = Some cp /\
    threads s !! t = Some th /\ stack th = FWorker p ph :: rest /\
    opool (contents c) = p /\ 0 < num_pending_callbacks (contents c) /\
    (exists q, queues (contents cp) !! priority (contents c) = Some (o :: q)) /\
    forall o2 c2, at_ (objects s) o2 = Some c2 -> opool (contents c2) = p ->
      0 < num_pending_callbacks (contents c2) -> (priority (contents c) <= priority (contents c2))%nat.
Proof.
  intros Hr Hs Hin. pose proof (reach _ _ _ _ Hr) as HI.
  destruct (step_explained _ _ _ _ _ _ Hs) as (th & f & rest & Ht & Hst & Hall).
  rewrite Forall_forall in Hall. destruct (Hall _ Hin) as (p & ph & cp & -> & Hcp & Hn).
  destruct (next_item_head _ _ Hn) as (i & q & Hq & _). destruct (inv_queue _ HI p cp Hcp) as (_ & _ & Hel).
  destruct (Hel i _ o Hq ltac:(left)) as (c & Hc & _).
  destruct (next_item_first s p cp o c HI Hcp Hc Hn) as (H1 & H2 & H3 & H4).
  exists c, p, cp, th, ph, rest. done.
Qed.

Lemma Threadpool_priority_witness :
  exists s', step 1 None ok (final 1 posted) = Next s' [EStart 1] /\
  exists c p cp th ph rest, at_ (objects (final 1 posted)) 1 = Some c /\ at_ (pools (final 1 posted)) p = Some cp /\
    threads (final 1 posted) !! 1%nat = Some th /\ stack th = FWorker p ph :: rest /\
    opool (contents c) = p /\ 0 < num_pending_callbacks (contents c) /\
    (exists q, queues (contents cp) !! priority (contents c) = Some (1%nat :: q)) /\
    forall o2 c2, at_ (objects (final 1 posted)) o2 = Some c2 -> opool (contents c2) = p ->
      0 < num_pending_callbacks (contents c2) -> (priority (contents c) <= priority (contents c2))%nat.
Proof.
  eexists. split; [vm_compute; reflexivity|].
  eapply (Threadpool_priority 1 false (history 1 posted) (final 1 posted) 1 None ok _ [EStart 1] 1).
  - apply final_runs.
  - vm_compute. reflexivity.
  - left.
Defined.

(** C34. Progress: a pool with a pending callback has a worker thread, and every
    worker of it that is not in a callback and can enter the critical section
    starts the callback that is first in the order of priorities, even if its
    wait has timed out. *)
Theorem Threadpool_serves n shut es s o c :
  runs (init n shut) es s -> at_ (objects s) o = Some c -> 0 < num_pending_callbacks (contents c) ->
  exists cp o', at_ (pools s) (opool (contents c)) = Some cp /\
    threadpool_get_next_item (contents cp) = Some o' /\
    (exists t th ph, threads s !! t = Some th /\ FWorker (opool (contents c)) ph ∈ stack th) /\
    forall t th ph rest a, threads s !! t = Some th -> stack th = FWorker (opool (contents c)) ph :: rest ->
      idle ph = true -> pcs (contents cp) = None \/ pcs (contents cp) = Some t ->
      exists s', step t None a s = Next s' [EStart o'].
Proof.
  intros Hr Hc Hp. pose proof (reach _ _ _ _ Hr) as HI.
  destruct (queued_worker s o c HI Hc Hp) as (cp & Hcp & (o' & Ho') & Hw).
  exists cp, o'. split_and!; [done..|]. intros. by eapply worker_serves.
Qed.

Lemma Threadpool_serves_witness :
  exists c, at_ (objects (final 1 posted)) 0 = Some c /\ 0 < num_pending_callbacks (contents c) /\
  exists cp o', at_ (pools (final 1 posted)) (opool (contents c)) = Some cp /\
    threadpool_get_next_item (contents cp) = Some o' /\
    (exists t th ph, threads (final 1 posted) !! t = Some th /\ FWorker (opool (contents c)) ph ∈ stack th) /\
    forall t th ph rest a, threads (final 1 posted) !! t = Some th -> stack th = FWorker (opool (contents c)) ph :: rest ->
      idle ph = true -> pcs (contents cp) = None \/ pcs (contents cp) = Some t ->
      exists s', step t None a (final 1 posted) = Next s' [EStart o'].
Proof.
  eexists. split; [vm_compute; reflexivity|]. split; [reflexivity|].
  apply (Threadpool_serves 1 false (history 1 posted) (final 1 posted) 0).
  - apply final_runs.
  - vm_compute. reflexivity.
  - reflexivity.
Defined.

(** ** Timers *)
Lemma reach_sorted n shut es s : runs (init n shut) es s -> sorted_timers (objects s) (timers s).
Proof.
  intros Hr. destruct (run_accounts _ _ _ (inv_init n shut) Hr) as [_ H]. apply H. split; constructor.
Qed.

(** C36. Timers: in every reachable state the lists of absolute and of relative
    timers are sorted by due time; for each of them that is not empty, and
    whose due times are below MAXLONGLONG and whose windows end below 2^64
    ([in_range]), get_next_timeout returns the due time of one of its
    timers, not later than the end of the window of any of them, and every
    later due time in the list is at or past the end of the window of some
    timer. *)
Theorem Timers_wake_in_window n shut es s abs :
  runs (init n shut) es s -> scanned abs (timers s) <> [] ->
  (forall x, x ∈ scanned abs (timers s) -> exists tx, timer_of s x = Some tx /\ in_range tx) ->
  StronglySorted (by_due (objects s)) (scanned abs (timers s)) /\
  exists v, get_next_timeout (timer_of s) (scanned abs (timers s)) = Some v /\
    (exists x tx, x ∈ scanned abs (timers s) /\ timer_of s x = Some tx /\ v = timeout tx) /\
    (forall x tx, x ∈ scanned abs (timers s) -> timer_of s x = Some tx -> v <= window_end tx) /\
    (forall y ty, y ∈ scanned abs (timers s) -> timer_of s y = Some ty -> v < timeout ty ->
       exists x tx, x ∈ scanned abs (timers s) /\ timer_of s x = Some tx /\ window_end tx <= timeout ty).
Proof.
  intros Hr Hne Hrange. destruct (reach_sorted _ _ _ _ Hr) as [Ha Hl].
  assert (StronglySorted (by_due (objects s)) (scanned abs (timers s))) as Hs by by destruct abs.
  split; [done|]. apply get_next_timeout_wakes; [by apply sorted_in_order|done|done].
Qed.

(** Thread 0 allocates three timers and sets two of them: one for time 90, and
    one for time 10 that may be up to 100 milliseconds late. *)
Definition alloc_timer : list (nat * option call * answers) :=
  [does 0 (TpAllocTimer (in_pool 0 None 1))] ++ goes 0 6.
Definition set_to (o : nat) (v per win : Z) : list (nat * option call * answers) :=
  [does 0 (TpSetTimerEx o (Some v) per win)] ++ goes 0 1.
Definition two_timers : list (nat * option call * answers) :=
  [does 0 TpAllocPool] ++ alloc_timer ++ alloc_timer ++ alloc_timer ++
  set_to 0 90 0 100 ++ set_to 1 10 7 100.

Lemma Timers_wake_in_window_witness :
  (StronglySorted (by_due (objects (final 1 two_timers))) (scanned true (timers (final 1 two_timers))) /\
   exists v, get_next_timeout (timer_of (final 1 two_timers)) (scanned true (timers (final 1 two_timers))) = Some v /\
     (exists x tx, x ∈ scanned true (timers (final 1 two_timers)) /\ timer_of (final 1 two_timers) x = Some tx /\ v = timeout tx) /\
     (forall x tx, x ∈ scanned true (timers (final 1 two_timers)) -> timer_of (final 1 two_timers) x = Some tx -> v <= window_end tx) /\
     (forall y ty, y ∈ scanned true (timers (final 1 two_timers)) -> timer_of (final 1 two_timers) y = Some ty -> v < timeout ty ->
        exists x tx, x ∈ scanned true (timers (final 1 two_timers)) /\ timer_of (final 1 two_timers) x = Some tx /\
          window_end tx <= timeout ty)) /\
  scanned true (timers (final 1 two_timers)) = [1; 0]%nat /\
  get_next_timeout (timer_of (final 1 two_timers)) [1; 0]%nat = Some 90.
Proof.
  assert (scanned true (timers (final 1 two_timers)) = [1; 0]%nat) as Hl by (vm_compute; reflexivity).
  split; [|split; [exact Hl|vm_compute; reflexivity]].
  apply (Timers_wake_in_window 1 false (history 1 two_timers) (final 1 two_timers) true).
  - apply final_runs.
  - rewrite Hl. discriminate.
  - rewrite Hl. intros x [->|[->|[]%elem_of_nil]%elem_of_cons]%elem_of_cons;
      (eexists; split; [vm_compute; reflexivity|repeat split; vm_compute; congruence]).
Defined.

(** C37. The scan of the timer thread ends: whatever the other threads do, the
    thread leaves the critical section of the timer queue before it has taken
    more steps of its own than [left_to_do] counts: at the beginning of a scan
    eight for every timer that has expired, and one. *)
Theorem Timers_scan_ends n shut es s t ph ls r :
  runs (init n shut) es s -> tcs (timers s) = Some t -> fstack s t = Some [FTimers ph] ->
  exec ls s = Some r -> (left_to_do s ph < steps_of t ls)%nat ->
  exists l1 l2 s1 es1, ls = l1 ++ l2 /\ exec l1 s = Some (s1, es1) /\ tcs (timers s1) = None.
Proof. intros Hr. apply scan_ends. by eapply reach. Qed.

(** The timer thread begins a scan at time 100. *)
Definition scanning_timers : list (nat * option call * answers) := two_timers ++ [(2%nat, None, at_time 100 5)].
Definition rest_of_scan : list (nat * option call * answers) := goes 2 20.

Lemma Timers_scan_ends_witness :
  tcs (timers (final 1 scanning_timers)) = Some 2%nat /\
  exists l1 l2 s1 es1, rest_of_scan = l1 ++ l2 /\
    exec l1 (final 1 scanning_timers) = Some (s1, es1) /\ tcs (timers s1) = None.
Proof.
  split; [vm_compute; reflexivity|].
  eapply (Timers_scan_ends 1 false (history 1 scanning_timers) (final 1 scanning_timers) 2 (TScan true 100 5) rest_of_scan).
  - apply final_runs.
  - vm_compute. reflexivity.
  - vm_compute. reflexivity.
  - vm_compute. reflexivity.
  - apply Nat.ltb_lt. vm_compute. reflexivity.
Defined.

(** ** Defects *)

(** TpSetTimerEx updates the kernel timer only if the new timer is the first of
    its list.  A timer set for time 50 that must not be late goes between the
    other two, and the wake-up stays at 90. *)
Theorem TpSetTimerEx_window_missed :
  exists s es x, exec (two_timers ++ set_to 2 50 0 0) (init 1 false) = Some (s, es) /\
    abs_timers (timers s) = [1; 2; 0]%nat /\ timer_of s 2 = Some x /\
    window_end x = 50 /\ (armed (timers s)).1 = 90 /\
    get_next_timeout (timer_of s) (abs_timers (timers s)) = Some 50.
Proof. eexists _, _, _. split; [vm_compute; reflexivity|]. by vm_compute. Qed.

(** tp_object_cancel does not wake the threads that wait for the object: thread 0
    sleeps in TpWaitForWork, thread 1 cancels, and although the object has
    finished, thread 0 can only go on if its sleep ends by itself. *)
Theorem tp_object_cancel_no_wake :
  exists s es c, exec ([does 0 TpAllocPool; does 0 (TpAllocWork (in_pool 0 None 1))] ++ goes 0 5 ++
      [does 0 (TpPostWork 0)] ++ goes 0 2 ++ [does 0 (TpWaitForWork 0 false)] ++ goes 0 1 ++
      [does 1 (TpWaitForWork 0 true)] ++ goes 1 5) (init 2 false) = Some (s, es) /\
    fstack s 0 = Some [FWait 0 true; FUser] /\ fstack s 1 = Some [FUser] /\
    at_ (objects s) 0 = Some c /\ object_is_finished (contents c) false = true /\
    step 0 None ok s = Blocked.
Proof. eexists _, _, _. split; [vm_compute; reflexivity|]. by vm_compute. Qed.

(** tp_object_cancel takes the object out of the queue but leaves
    num_busy_workers as it was: nothing is queued and nothing runs, and the pool
    still counts a busy worker. *)
Theorem tp_object_cancel_busy :
  exists s es c, exec ([does 0 TpAllocPool; does 0 (TpAllocWork (in_pool 0 None 1))] ++ goes 0 5 ++
      [does 0 (TpPostWork 0)] ++ goes 0 2 ++ [does 0 (TpWaitForWork 0 true)] ++ goes 0 5) (init 1 false) = Some (s, es) /\
    fstack s 0 = Some [FUser] /\ at_ (pools s) 0 = Some c /\
    concat (queues (contents c)) = [] /\ total (pc PExec 0) (threads s) = 0 /\ num_busy_workers (contents c) = 1.
Proof. eexists _, _, _. split; [vm_compute; reflexivity|]. by vm_compute. Qed.

(** Three threads that wait for each other: a worker that has run a callback
    keeps the critical section of the pool while tp_object_release, of the last
    reference, wants that of the group; TpReleaseCleanupGroupMembers has that
    one and wants that of the timer queue to shut a timer down; the timer
    thread has that one and wants that of the pool to submit the timer. *)
Definition deadlock : list (nat * option call * answers) :=
  [does 0 TpAllocPool; does 0 TpAllocCleanupGroup] ++
  [does 0 (TpAllocTimer (in_pool 0 (Some 0%nat) 1))] ++ goes 0 7 ++
  [does 0 (TpAllocWork (in_pool 0 (Some 0%nat) 1))] ++ goes 0 6 ++
  set_to 0 10 0 0 ++ [does 0 (TpPostWork 1)] ++ goes 0 2 ++ goes 1 1 ++
  [does 0 (TpReleaseWork 1)] ++ goes 0 3 ++
  [(2%nat, None, at_time 100 5)] ++ goes 2 2 ++
  [does 0 (TpReleaseCleanupGroupMembers 0 false)] ++ goes 0 2 ++ goes 1 3.

Theorem lock_order_deadlock :
  exists s es, exec deadlock (init 1 false) = Some (s, es) /\ length (threads s) = 3%nat /\
    fstack s 0 = Some [FMembers 0 false (MPrepare 0 [] [1%nat]); FUser] /\
    fstack s 1 = Some [FRelease 1 RGroup; FWorker 0 WLoop] /\
    fstack s 2 = Some [FTimers (TSubmit 0 true 100 5)] /\
    forall t l a s' es', step t l a s <> Next s' es'.
Proof.
  eexists _, _. split; [vm_compute; reflexivity|]. split_and!; [reflexivity..|].
  intros [|[|[|t]]] [c|] a s' es'; vm_compute; congruence.
Qed.
End TpSpec.
