(* ===== verification/IoQueue.v ===== *)
(** * The thread pool: I/O completions (oca/extensions/ntext/rtl/threadpool.c)

    The array of completions of an I/O object and the thread that fills it:
    array_reserve, the handling of one packet of the completion port by
    ioqueue_thread_proc, the counters of TpStartAsyncIoOperation,
    TpCancelAsyncIoOperation, TpReleaseIoCompletion and tp_object_cancel, and the
    allocation of the object.  [completions] is the block of memory, so its
    length is what has been allocated, and a store beyond it is [Overflow].

    The width of SIZE_T is a parameter of array_reserve. *)
From S2P Require Import Prelude Threadpool.

Module IoQueue.
Import Tp.

(** ** array_reserve *)

(** The loop that doubles the capacity; [unsigned int] arithmetic *)
Fixpoint grow (fuel : nat) (new_capacity count max_capacity : Z) : outcome Z :=
  match fuel with
  | O => NoFuel
  | S fuel =>
      if (new_capacity <? count) && (new_capacity <=? max_capacity / 2)
      then grow fuel (u32 (new_capacity * 2)) count max_capacity
      else Ok new_capacity
  end.

(** The new capacity and the bytes that are asked for; [None]: FALSE, or
    nothing to do *)
Inductive reserved := Enough | TooLarge | Resize (capacity bytes : Z).

Definition array_reserve (size_max capacity count size : Z) : outcome reserved :=
  if count <=? capacity then Ok Enough
  else
    let max_capacity := u32 (size_max / size) in
    if max_capacity <? count then Ok TooLarge
    else
      n ← grow 33 (Z.max 4 capacity) count max_capacity;
      let n := if n <? count then max_capacity else n in
      Ok (Resize n (u32 (n * size))).

Definition size_max_32 : Z := 2 ^ 32 - 1.
Definition size_max_64 : Z := 2 ^ 64 - 1.

(** ** I/O objects *)

(** An I/O object: the member io of the union, the flag shutdown, whether the I/O
    thread has released it, and num_pending_callbacks; with the I/O queue. *)
Record ioobject := IoObject {
  data : io; io_shutdown : bool; io_released : bool; callbacks : Z }.

Record ioqueue := IoQueue {
  objcount : Z; io_thread_running : bool; port : bool }.

Definition no_completion : io_completion := Completion 0 0.

(** TpAllocIoCompletion: eight elements are allocated; completion_max is zero. *)
Definition new_io : ioobject :=
  IoObject (Io 0 0 0 0 false (replicate 8 no_completion)) false false 0.

Definition set_data (x : io) (o : ioobject) : ioobject :=
  IoObject x (io_shutdown o) (io_released o) (callbacks o).

(** tp_ioqueue_lock.  The answers of NtCreateIoCompletion, RtlCreateUserThread
    and NtSetInformationFile *)
Definition tp_ioqueue_lock (port_ok thread_ok file_ok : bool) (q : ioqueue) : bool * ioqueue :=
  if negb (port q) && negb port_ok then (false, q)
  else
    let started := io_thread_running q || thread_ok in
    let q := IoQueue (objcount q) started true in
    if started && file_ok then (true, IoQueue (objcount q + 1) (io_thread_running q) (port q))
    else (false, q).

(** tp_ioqueue_unlock; [None]: the ASSERT fails.  The flag says that an empty
    packet is posted. *)
Definition tp_ioqueue_unlock (shut : bool) (q : ioqueue) : option (bool * ioqueue) :=
  if objcount q =? 0 then None
  else if shut then Some (false, q)
  else Some (objcount q - 1 =? 0, IoQueue (objcount q - 1) (io_thread_running q) (port q)).

Definition TpStartAsyncIoOperation (o : ioobject) : ioobject :=
  let x := data o in
  set_data (Io (u32 (pending_count x + 1)) (skipped_count x) (completion_count x) (completion_max x)
             (shutting_down x) (completions x)) o.

Definition TpCancelAsyncIoOperation (o : ioobject) : ioobject :=
  let x := data o in
  set_data (Io (u32 (pending_count x - 1)) (skipped_count x) (completion_count x) (completion_max x)
             (shutting_down x) (completions x)) o.

(** TpReleaseIoCompletion, up to the decision whether the object can go *)
Definition TpReleaseIoCompletion (o : ioobject) : bool * ioobject :=
  let x := data o in
  ((pending_count x =? 0) && (skipped_count x =? 0),
   set_data (Io (pending_count x) (skipped_count x) (completion_count x) (completion_max x)
               true (completions x)) o).

(** tp_object_execute: the last completion is taken out *)
Definition execute_io (o : ioobject) : option (io_completion * ioobject) :=
  let x := data o in
  if completion_count x =? 0 then None
  else
    let n := completion_count x - 1 in
    v ← completions x !! Z.to_nat n;
    Some (v, IoObject (Io (pending_count x) (skipped_count x) n (completion_max x)
                        (shutting_down x) (completions x))
               (io_shutdown o) (io_released o) (callbacks o - 1)).

(** One packet *)
Inductive packet_result :=
| Skipped (o : ioobject)                   (* continue *)
| NoMemory (o : ioobject)
| Destroyed (q : ioqueue) (o : ioobject)   (* the object is released *)
| Queued (o : ioobject)                    (* callbacks submitted *)
| Overflow.                                (* a store outside of the array *)

(** completions[completion_count++] = v, and tp_object_submit *)
Definition add_completion (v : io_completion) (o : ioobject) : option ioobject :=
  let x := data o in
  if completion_count x <? Z.of_nat (length (completions x)) then
    Some (IoObject (Io (pending_count x) (skipped_count x) (u32 (completion_count x + 1)) (completion_max x)
            (shutting_down x) (<[Z.to_nat (completion_count x) := v]> (completions x)))
            (io_shutdown o) (io_released o) (callbacks o + 1))
  else None.

(** RtlReAllocateHeap: [size] bytes each *)
Definition resize_block (size bytes : Z) (l : list io_completion) : list io_completion :=
  resize (Z.to_nat (bytes / size)) no_completion l.

(** The second store and tp_object_submit, which come after the conditional ones *)
Definition add_again (v : io_completion) (o : ioobject) : packet_result :=
  match add_completion v o with Some o => Queued o | None => Overflow end.

Definition reserve_and_add (size_max size : Z) (memory : bool) (v : io_completion) (o : ioobject) : outcome packet_result :=
  let x := data o in
  let with_block mx l := set_data (Io (u32 (pending_count x - 1)) (skipped_count x) (completion_count x) mx
                                    (shutting_down x) l) o in
  let add o := match add_completion v o with Some o => add_again v o | None => Overflow end in
  r ← array_reserve size_max (completion_max x) (u32 (completion_count x + 1)) size;
  Ok (match r with
      | Enough => add (with_block (completion_max x) (completions x))
      | TooLarge => NoMemory (with_block (completion_max x) (completions x))
      | Resize n bytes =>
          if memory then add (with_block n (resize_block size bytes (completions x)))
          else NoMemory (with_block (completion_max x) (completions x))
      end).

(** ioqueue_thread_proc, from the packet for object [o] to the check of objcount *)
Definition ioqueue_packet (size_max size : Z) (memory : bool) (v : io_completion) (q : ioqueue) (o : ioobject) : outcome packet_result :=
  let x := data o in
  let ends := (io_shutdown o || shutting_down x) && (pending_count x =? 0) in
  let skipped := if skipped_count x =? 0 then 0 else skipped_count x - 1 in
  let o1 := if ends then set_data (Io (pending_count x) skipped (completion_count x) (completion_max x)
                                     (shutting_down x) (completions x)) o else o in
  if ends && negb (skipped =? 0) then Ok (Skipped o1)
  else if ends then
    Ok (Destroyed (IoQueue (objcount q - 1) (io_thread_running q) (port q))
          (IoObject (data o1) true true (callbacks o)))
  else if negb (pending_count x =? 0) then reserve_and_add size_max size memory v o1
  else Ok (add_again v o1).

(** ** array_reserve on a system with 32 bits *)
Lemma grow_spec fuel n count mx : 0 < n <= mx -> mx < 2 ^ 32 -> mx < n * 2 ^ Z.of_nat fuel ->
  exists m, grow (S fuel) n count mx = Ok m /\ n <= m <= mx /\ (count <= m \/ mx / 2 < m).
Proof.
  revert n. induction fuel as [|fuel IH]; intros n Hn Hmx Hf.
  - simpl in Hf. lia.
  - cbn [grow]. destruct (n <? count) eqn:E1; simpl; [|exists n; split; [done|]; lia].
    destruct (n <=? mx / 2) eqn:E2; [|exists n; split; [done|]; lia].
    apply Z.leb_le in E2. pose proof (Z.mul_div_le mx 2 ltac:(lia)).
    rewrite u32_small by lia. destruct (IH (n * 2)) as (m & Hm & ? & ?); [lia|lia| |].
    + rewrite Nat2Z.inj_succ, Z.pow_succ_r in Hf by lia. lia.
    + exists m. split; [exact Hm|]. lia.
Qed.

Lemma array_reserve_ok capacity count size :
  0 < size -> 4 * size < 2 ^ 32 -> 0 <= capacity -> capacity * size < 2 ^ 32 -> 0 <= count < 2 ^ 32 ->
  exists r, array_reserve size_max_32 capacity count size = Ok r /\
    match r with
    | Enough => count <= capacity
    | TooLarge => 2 ^ 32 <= count * size
    | Resize n bytes => capacity < count <= n /\ bytes = n * size /\ bytes < 2 ^ 32
    end.
Proof.
  intros Hs H4 Hc Hcs Hn. unfold array_reserve, size_max_32. destruct (count <=? capacity) eqn:E; [exists Enough; split; [done|]; cbn; lia|].
  set (mx := (2 ^ 32 - 1) / size). apply Z.leb_gt in E.
  assert (Hmx : mx * size <= 2 ^ 32 - 1 < mx * size + size).
  { subst mx. pose proof (Z.div_mod (2 ^ 32 - 1) size ltac:(lia)). pose proof (Z.mod_pos_bound (2 ^ 32 - 1) size ltac:(lia)). lia. }
  rewrite (u32_small mx) by nia. destruct (mx <? count) eqn:E2; [exists TooLarge; split; [done|]; cbn beta iota; nia|]. apply Z.ltb_ge in E2.
  destruct (grow_spec 32 (Z.max 4 capacity) count mx) as (m & Hm & Hb & Hd); [nia|nia|nia|].
  rewrite Hm. cbn [mbind outcome_bind]. set (k := if m <? count then mx else m).
  assert (count <= k <= mx) as Hk by (unfold k; destruct (m <? count) eqn:E3; lia).
  eexists. split; [reflexivity|]. rewrite u32_small by nia. split_and!; [lia|lia|done|nia].
Qed.

(** C38. array_reserve with a SIZE_T of 32 bits, for elements of a positive size
    of which four fit into 2^32 bytes, a capacity whose bytes are less than
    2^32 and a number of elements below 2^32, terminates; when it reports
    success the capacity is at least the number of elements that was asked for
    and the number of bytes that is allocated is exactly what they need, without
    a wrap-around; it gives up only if that many bytes cannot be expressed. *)
Theorem array_reserve_spec capacity count size :
  0 < size -> 4 * size < 2 ^ 32 -> 0 <= capacity -> capacity * size < 2 ^ 32 -> 0 <= count < 2 ^ 32 ->
  exists r, array_reserve size_max_32 capacity count size = Ok r /\
    match r with
    | Enough => count <= capacity
    | TooLarge => 2 ^ 32 <= count * size
    | Resize n bytes => capacity < count <= n /\ bytes = n * size /\ bytes < 2 ^ 32
    end.
Proof. apply array_reserve_ok. Qed.

Lemma array_reserve_spec_witness :
  array_reserve size_max_32 4 5 12 = Ok (Resize 8 96) /\
  exists r, array_reserve size_max_32 4 5 12 = Ok r /\
    match r with
    | Enough => 5 <= 4
    | TooLarge => 2 ^ 32 <= 5 * 12
    | Resize n bytes => 4 < 5 <= n /\ bytes = n * 12 /\ bytes < 2 ^ 32
    end.
Proof. split; [reflexivity|]. apply (array_reserve_spec 4 5 12); lia. Defined.

(** ** Defects *)

(** With a SIZE_T of 64 bits max_capacity is truncated and the product wraps:
    success with a block that is too small. *)
Theorem array_reserve_wraps :
  exists n bytes, array_reserve size_max_64 0 178956971 24 = Ok (Resize n bytes) /\
    178956971 <= n /\ bytes < 178956971 * 24.
Proof. exists 268435456, 2147483648. split; [vm_compute; reflexivity|]. lia. Qed.

(** A completion of a pending operation is stored and submitted twice. *)
Theorem completion_twice size_max size memory v q o :
  io_shutdown o = false -> shutting_down (data o) = false -> 0 < pending_count (data o) < 2 ^ 32 ->
  0 <= completion_count (data o) -> completion_count (data o) + 1 <= completion_max (data o) < 2 ^ 32 - 1 ->
  completion_count (data o) + 2 <= Z.of_nat (length (completions (data o))) ->
  exists o', ioqueue_packet size_max size memory v q o = Ok (Queued o') /\
    callbacks o' = callbacks o + 2 /\ completion_count (data o') = completion_count (data o) + 2 /\
    pending_count (data o') = pending_count (data o) - 1.
Proof.
  intros Hs Hd Hp Hc Hm Hl. unfold ioqueue_packet. rewrite Hs, Hd.
  rewrite (proj2 (Z.eqb_neq _ 0)) by lia. cbn [orb andb negb]. unfold reserve_and_add, array_reserve.
  rewrite (u32_small (completion_count (data o) + 1)) by lia.
  rewrite (proj2 (Z.leb_le _ _)) by lia. cbn [mbind outcome_bind]. unfold add_again, add_completion. simpl.
  rewrite (proj2 (Z.ltb_lt (completion_count (data o)) _)) by lia. simpl. rewrite length_insert.
  rewrite (u32_small (completion_count (data o) + 1)) by lia. rewrite (proj2 (Z.ltb_lt _ _)) by lia.
  eexists. split; [reflexivity|]. simpl. rewrite !u32_small by lia. lia.
Qed.

Definition packet (v : Z) (o : ioobject) : option ioobject :=
  match ioqueue_packet size_max_32 12 true (Completion v v) (IoQueue 1 true true) (TpStartAsyncIoOperation o) with
  | Ok (Queued o) => Some o
  | _ => None
  end.

(** Two operations complete, one callback runs, a third operation completes:
    its second store is outside of the array. *)
Theorem completion_overflow :
  exists o1 o2, (packet 1 new_io ≫= packet 2) = Some o1 /\ (snd <$> execute_io o1) = Some o2 /\
    length (completions (data o2)) = 4%nat /\ completion_count (data o2) = 3 /\
    ioqueue_packet size_max_32 12 true (Completion 3 3) (IoQueue 1 true true) (TpStartAsyncIoOperation o2) = Ok Overflow.
Proof. eexists _, _. split; [vm_compute; reflexivity|]. split; [vm_compute; reflexivity|]. by vm_compute. Qed.
End IoQueue.
