(* ===== verification/WaitQueue.v ===== *)
(** * The thread pool: the wait queue (oca/extensions/ntext/rtl/threadpool.c)

    Wait objects are served by threads that wait for up to 63 handles each.  A
    thread has a bucket of wait objects: those that are [waiting], and those
    that are [reserved], which hold a place but wait for nothing.  All of this
    is guarded by waitqueue.cs; a thread leaves that critical section only to
    wait, so an operation of the client, and a turn of a thread from the end
    of one wait to the beginning of the next, are atomic.

    The only caller of tp_alloc_wait passes WT_EXECUTEONLYONCE, hence no wait
    object runs its callback in the wait thread and no bucket is alertable;
    the branches for the other flags are left out.  Wait objects and buckets are
    named by numbers; a bucket that is freed leaves the map.  [None] stands for
    an ASSERT that fails or an access to a bucket or object that does not exist.
    The status of the wait, the clock and the calls of the system that can fail
    are arguments. *)
From S2P Require Import Prelude Threadpool.
From stdpp Require Import gmap.
#[local] Open Scope Z_scope.

Module WaitQueue.
Import Tp.

Definition MAXIMUM_WAITQUEUE_OBJECTS : Z := 64 - 1.
Definition TIMEOUT_INFINITE : Z := 0x7fffffffffffffff.
Definition WT_EXECUTEONLYONCE : Z := 8.
Definition WT_EXECUTEINIOTHREAD : Z := 1.

(** A wait object: the member wait of the union, and update_serial *)
Record wobj := Wobj { wdata : wait; update_serial : Z }.

(** struct waitqueue_bucket *)
Record waitqueue_bucket := Bucket {
  objcount : Z; alertable : bool; reserved : list nat; waiting : list nat }.

(** The arrays objects, handles and update_serials of a thread *)
Record polled := Polled { pobject : nat; phandle : Z; pserial : Z }.

(** A thread runs, or waits for the event of its empty bucket, or for the
    handles until a time. *)
Inductive sleep := Awake | Idle | Poll (l : list polled) (until : Z).

Record waitqueue := WaitQueue {
  num_buckets : Z; buckets : list nat; store : gmap nat waitqueue_bucket;
  waits : gmap nat wobj; sleeps : gmap nat sleep }.

Definition empty_queue : waitqueue := WaitQueue 0 [] ∅ ∅ ∅.

Definition put_bucket (b : nat) (bk : waitqueue_bucket) (s : waitqueue) : waitqueue :=
  WaitQueue (num_buckets s) (buckets s) (<[b := bk]> (store s)) (waits s) (sleeps s).
Definition put_wait (w : nat) (x : wobj) (s : waitqueue) : waitqueue :=
  WaitQueue (num_buckets s) (buckets s) (store s) (<[w := x]> (waits s)) (sleeps s).
Definition put_sleep (b : nat) (z : sleep) (s : waitqueue) : waitqueue :=
  WaitQueue (num_buckets s) (buckets s) (store s) (waits s) (<[b := z]> (sleeps s)).

Definition set_bucket (v : option nat) (x : wobj) : wobj :=
  let d := wdata x in
  Wobj (Wait (signaled d) v (wait_pending d) (wait_timeout d) (handle d) (duped_handle d) (wait_flags d))
    (update_serial x).
Definition set_pending (v : bool) (x : wobj) : wobj :=
  let d := wdata x in
  Wobj (Wait (signaled d) (bucket d) v (wait_timeout d) (handle d) (duped_handle d) (wait_flags d))
    (update_serial x).
Definition set_deadline (v : Z) (x : wobj) : wobj :=
  let d := wdata x in
  Wobj (Wait (signaled d) (bucket d) (wait_pending d) v (handle d) (duped_handle d) (wait_flags d))
    (update_serial x).
Definition set_duped (v : Z) (x : wobj) : wobj :=
  let d := wdata x in
  Wobj (Wait (signaled d) (bucket d) (wait_pending d) (wait_timeout d) (handle d) v (wait_flags d))
    (update_serial x).
Definition set_serial (v : Z) (x : wobj) : wobj := Wobj (wdata x) v.

(** The entry of [w] leaves the list it is in and goes to the end of one of the
    lists of the bucket. *)
Definition to_reserved (w : nat) (bk : waitqueue_bucket) : waitqueue_bucket :=
  Bucket (objcount bk) (alertable bk) (list_remove w (reserved bk) ++ [w]) (list_remove w (waiting bk)).
Definition to_waiting (w : nat) (bk : waitqueue_bucket) : waitqueue_bucket :=
  Bucket (objcount bk) (alertable bk) (list_remove w (reserved bk)) (list_remove w (waiting bk) ++ [w]).

(** Callbacks, by the result that they get; and the calls that arm a wait *)
Inductive wevent := ETimedOut (w : nat) | ESignaled (w : nat) | EArmed (w : nat).

(** ** Operations of the client *)

(** The first bucket with room *)
Fixpoint find_bucket (alert : bool) (l : list nat) (s : waitqueue) : option (option nat) :=
  match l with
  | [] => Some None
  | b :: l =>
      bk ← store s !! b;
      if (objcount bk <? MAXIMUM_WAITQUEUE_OBJECTS) && Bool.eqb (alertable bk) alert then Some (Some b)
      else find_bucket alert l s
  end.

(** tp_waitqueue_lock of object [w], by tp_alloc_wait; [fresh] is the address of a
    new bucket, the flag says whether memory, event and thread are available.
    The result says whether the status is STATUS_SUCCESS. *)
Definition tp_waitqueue_lock (w fresh : nat) (available : bool) (s : waitqueue) : option (bool * waitqueue) :=
  let alert := negb (Z.land WT_EXECUTEONLYONCE WT_EXECUTEINIOTHREAD =? 0) in
  let x b := Wobj (Wait 0 (Some b) false 0 0 0 WT_EXECUTEONLYONCE) 0 in
  r ← find_bucket alert (buckets s) s;
  match r with
  | Some b =>
      bk ← store s !! b;
      Some (true, put_wait w (x b)
        (put_bucket b (Bucket (objcount bk + 1) (alertable bk) (reserved bk ++ [w]) (waiting bk)) s))
  | None =>
      if available then
        Some (true, put_wait w (x fresh) (put_sleep fresh Awake
          (WaitQueue (num_buckets s + 1) (buckets s ++ [fresh])
             (<[fresh := Bucket 1 alert [w] []]> (store s)) (waits s) (sleeps s))))
      else Some (false, s)
  end.

(** tp_waitqueue_unlock *)
Definition tp_waitqueue_unlock (w : nat) (s : waitqueue) : option waitqueue :=
  x ← waits s !! w;
  match bucket (wdata x) with
  | Some b =>
      bk ← store s !! b;
      if 0 <? objcount bk then
        Some (put_wait w (set_bucket None x)
          (put_bucket b (Bucket (objcount bk - 1) (alertable bk) (list_remove w (reserved bk))
                           (list_remove w (waiting bk))) s))
      else None
  | None => Some s
  end.

(** TpSetWaitEx; [duped] is the handle that NtDuplicateObject returns, zero if
    it fails.  The result is the return value. *)
Definition TpSetWaitEx (w : nat) (h : Z) (tmo : option Z) (now duped : Z) (s : waitqueue)
    : option (bool * waitqueue * list wevent) :=
  x ← waits s !! w;
  b ← bucket (wdata x);
  let same_handle := handle (wdata x) =? h in
  let x := set_duped (if h =? 0 then 0 else duped) x in
  if negb (h =? 0) || wait_pending (wdata x) then
    bk ← store s !! b;
    let replaced_wait := wait_pending (wdata x) in
    let timestamp :=
      match tmo with
      | Some v => if h =? 0 then TIMEOUT_INFINITE else if v <? 0 then u64 (now - v) else v
      | None => TIMEOUT_INFINITE
      end in
    let x := if h =? 0 then set_pending false x else set_deadline timestamp (set_pending true x) in
    let bk := if h =? 0 then to_reserved w bk else to_waiting w bk in
    let x := if same_handle then x else set_serial (update_serial x + 1) x in
    Some (replaced_wait, put_wait w x (put_bucket b bk s), if h =? 0 then [] else [EArmed w])
  else Some (false, put_wait w x s, []).

(** ** The thread of a bucket *)

(** LIST_FOR_EACH_ENTRY_SAFE over the objects that wait: those that have timed
    out are submitted, the others go into the arrays. *)
Fixpoint scan_list (b : nat) (now : Z) (l : list nat) (s : waitqueue) (acc : list polled) (until : Z)
    : option (waitqueue * list polled * Z * list wevent) :=
  match l with
  | [] => Some (s, acc, until, [])
  | w :: l =>
      x ← waits s !! w;
      if negb (wait_pending (wdata x)) then None
      else if wait_timeout (wdata x) <=? now then
        bk ← store s !! b;
        let s := if Z.land (wait_flags (wdata x)) WT_EXECUTEONLYONCE =? 0 then s
                 else put_wait w (set_pending false x) (put_bucket b (to_reserved w bk) s) in
        '(s, acc, until, es) ← scan_list b now l s acc until;
        Some (s, acc, until, ETimedOut w :: es)
      else if Z.of_nat (length acc) <? MAXIMUM_WAITQUEUE_OBJECTS then
        let h := if duped_handle (wdata x) =? 0 then handle (wdata x) else duped_handle (wdata x) in
        scan_list b now l s (acc ++ [Polled w h (update_serial x)])
          (if wait_timeout (wdata x) <? until then wait_timeout (wdata x) else until)
      else None
  end.

Definition scan (b : nat) (now : Z) (s : waitqueue) : option (waitqueue * list wevent) :=
  bk ← store s !! b;
  '(s, l, until, es) ← scan_list b now (waiting bk) s [] TIMEOUT_INFINITE;
  bk ← store s !! b;
  if objcount bk =? 0 then
    if decide (l = []) then Some (put_sleep b Idle s, es) else None
  else Some (put_sleep b (Poll l until) s, es).

(** A handle was signaled: the object at index [k] of the arrays *)
Definition deliver (b : nat) (e : polled) (s : waitqueue) : option (waitqueue * list wevent) :=
  x ← waits s !! pobject e;
  match bucket (wdata x) with
  | Some b' =>
      if update_serial x =? pserial e then
        if decide (b' = b) then
          bk ← store s !! b;
          let s := if Z.land (wait_flags (wdata x)) WT_EXECUTEONLYONCE =? 0 then s
                   else put_wait (pobject e) (set_pending false x)
                          (put_bucket b (to_reserved (pobject e) bk) s) in
          Some (s, [ESignaled (pobject e)])
        else None
      else Some (s, [])
  | None => Some (s, [])
  end.

(** The other bucket that the objects of [b] are moved to *)
Fixpoint find_other (b : nat) (bk : waitqueue_bucket) (l : list nat) (s : waitqueue) : option (option nat) :=
  match l with
  | [] => Some None
  | o :: l =>
      ob ← store s !! o;
      if negb (bool_decide (o = b)) && negb (objcount ob =? 0) && Bool.eqb (alertable ob) (alertable bk) &&
         (objcount ob + objcount bk <=? MAXIMUM_WAITQUEUE_OBJECTS * 2 / 3)
      then Some (Some o) else find_other b bk l s
  end.

Definition move_waits (o : nat) (l : list nat) (m : gmap nat wobj) : gmap nat wobj :=
  foldr (fun w m => alter (set_bucket (Some o)) w m) m l.

Definition merge (b : nat) (s : waitqueue) : option waitqueue :=
  bk ← store s !! b;
  if (1 <? num_buckets s) && negb (objcount bk =? 0) && (objcount bk <=? MAXIMUM_WAITQUEUE_OBJECTS * 1 / 3) then
    r ← find_other b bk (buckets s) s;
    match r with
    | Some o =>
        ob ← store s !! o;
        Some (WaitQueue (num_buckets s) (list_remove b (buckets s) ++ [b])
          (<[b := Bucket 0 (alertable bk) [] []]>
            (<[o := Bucket (objcount ob + objcount bk) (alertable ob)
                      (reserved ob ++ reserved bk) (waiting ob ++ waiting bk)]> (store s)))
          (move_waits o (reserved bk ++ waiting bk) (waits s)) (sleeps s))
    | None => Some s
    end
  else Some s.

(** The end of the thread *)
Definition finish (b : nat) (s : waitqueue) : option waitqueue :=
  bk ← store s !! b;
  let l := list_remove b (buckets s) in
  if (negb (num_buckets s - 1 =? 0) || bool_decide (l = [])) && (objcount bk =? 0) &&
     bool_decide (reserved bk = []) && bool_decide (waiting bk = [])
  then Some (WaitQueue (num_buckets s - 1) l (delete b (store s)) (waits s) (delete b (sleeps s)))
  else None.

(** The status of NtWaitForMultipleObjects *)
Inductive wstatus := Signaled (k : nat) | Updated | Timeout.

(** waitqueue_thread_proc, from the end of a wait to the next *)
Definition turn (b : nat) (st : wstatus) (now : Z) (s : waitqueue) : option (waitqueue * list wevent) :=
  z ← sleeps s !! b;
  let s := put_sleep b Awake s in
  let go s es := s ← merge b s; '(s, es') ← scan b now s; Some (s, es ++ es') in
  match z with
  | Awake => scan b now s
  | Idle =>
      bk ← store s !! b;
      match st with
      | Timeout => if objcount bk =? 0 then s ← finish b s; Some (s, []) else go s []
      | _ => go s []
      end
  | Poll l _ =>
      match st with
      | Signaled k =>
          match l !! k with
          | Some e => '(s, es) ← deliver b e s; go s es
          | None => go s []
          end
      | _ => go s []
      end
  end.

(** ** Runs *)
Inductive wop :=
| WAlloc (w fresh : nat) (available : bool)
| WRelease (w : nat)
| WSet (w : nat) (h : Z) (tmo : option Z) (now duped : Z)
| WTurn (b : nat) (st : wstatus) (now : Z).

(** An object is allocated once; TpSetWaitEx is not called on an object that has
    been released; a thread that was not created takes no turn. *)
Definition allowed (o : wop) (s : waitqueue) : bool :=
  match o with
  | WAlloc w fresh _ => bool_decide (waits s !! w = None) && bool_decide (store s !! fresh = None)
  | WRelease w => bool_decide (is_Some (waits s !! w))
  | WSet w _ _ _ _ => match waits s !! w with Some x => bool_decide (is_Some (bucket (wdata x))) | None => false end
  | WTurn b _ _ => bool_decide (is_Some (sleeps s !! b))
  end.

Definition wstep (o : wop) (s : waitqueue) : option (waitqueue * list wevent) :=
  match o with
  | WAlloc w fresh available => '(_, s) ← tp_waitqueue_lock w fresh available s; Some (s, [])
  | WRelease w => s ← tp_waitqueue_unlock w s; Some (s, [])
  | WSet w h tmo now duped => '(_, s, es) ← TpSetWaitEx w h tmo now duped s; Some (s, es)
  | WTurn b st now => turn b st now s
  end.

Inductive wruns : list wevent -> waitqueue -> Prop :=
| wruns_nil : wruns [] empty_queue
| wruns_step es s o s' es' :
    wruns es s -> allowed o s = true -> wstep o s = Some (s', es') -> wruns (es ++ es') s'.

End WaitQueue.
