(* ===== verification/WaitQueueInv.v ===== *)
(** * The thread pool: the invariant of the wait queue

    A bucket counts the objects of its two lists, at most 63, and an object is
    in exactly one list of the bucket it points to: in the list of those that
    wait if and only if its wait is pending. *)
From S2P Require Import Prelude Threadpool TpInv TpWorker WaitQueue.
From stdpp Require Import gmap.
#[local] Open Scope Z_scope.

Module WaitQueueInv.
Import Tp TpWorker WaitQueue.

Definition entries (bk : waitqueue_bucket) : list nat := reserved bk ++ waiting bk.

Definition in_list (s : waitqueue) (b : nat) (pending : bool) (w : nat) : Prop :=
  exists x, waits s !! w = Some x /\ bucket (wdata x) = Some b /\ wait_pending (wdata x) = pending.

Record bucket_ok (s : waitqueue) (b : nat) (bk : waitqueue_bucket) : Prop := {
  bo_count : objcount bk = Z.of_nat (length (entries bk));
  bo_bound : objcount bk <= MAXIMUM_WAITQUEUE_OBJECTS;
  bo_alert : alertable bk = false;
  bo_nodup : NoDup (entries bk);
  bo_reserved : forall w, w ∈ reserved bk -> in_list s b false w;
  bo_waiting : forall w, w ∈ waiting bk -> in_list s b true w }.

Record WInv (s : waitqueue) : Prop := {
  wi_num : num_buckets s = Z.of_nat (length (buckets s));
  wi_nodup : NoDup (buckets s);
  wi_buckets : forall b, b ∈ buckets s <-> is_Some (store s !! b);
  wi_sleeps : forall b, is_Some (store s !! b) <-> is_Some (sleeps s !! b);
  wi_bucket : forall b bk, store s !! b = Some bk -> bucket_ok s b bk;
  wi_wait : forall w x b, waits s !! w = Some x -> bucket (wdata x) = Some b ->
    exists bk, store s !! b = Some bk /\ w ∈ entries bk;
  wi_flags : forall w x, waits s !! w = Some x -> wait_flags (wdata x) = WT_EXECUTEONLYONCE;
  wi_poll : forall b l until e, sleeps s !! b = Some (Poll l until) -> e ∈ l ->
    exists x, waits s !! pobject e = Some x /\ (bucket (wdata x) = None \/ bucket (wdata x) = Some b) }.

Lemma bucket_ok_mono s s' b bk :
  (forall p w, w ∈ entries bk -> in_list s b p w -> in_list s' b p w) -> bucket_ok s b bk -> bucket_ok s' b bk.
Proof.
  intros H []. split; try done; intros w Hw; (apply H; [apply elem_of_app; auto|auto]).
Qed.

(** ** Lists *)
Lemma elem_remove w x l : x ∈ list_remove w l <-> x <> w /\ x ∈ l.
Proof. unfold list_remove. by rewrite list_elem_of_filter. Qed.

Lemma remove_app w l1 l2 : list_remove w (l1 ++ l2) = list_remove w l1 ++ list_remove w l2.
Proof. apply filter_app. Qed.

Definition move_to (pending : bool) (w : nat) (bk : waitqueue_bucket) : waitqueue_bucket :=
  if pending then to_waiting w bk else to_reserved w bk.

Lemma move_perm pending w bk : NoDup (entries bk) -> w ∈ entries bk -> entries (move_to pending w bk) ≡ₚ entries bk.
Proof.
  intros Hn Hw. etransitivity; [|symmetry; apply (remove_perm w _ Hn Hw)].
  destruct pending; unfold entries; simpl; rewrite remove_app.
  - rewrite app_assoc. by rewrite Permutation_app_comm.
  - rewrite <- app_assoc. symmetry. apply Permutation_middle.
Qed.

Lemma in_list_ne s w x b bk b' p w' : w' <> w -> in_list s b' p w' -> in_list (put_wait w x (put_bucket b bk s)) b' p w'.
Proof. intros Hn (y & Hy & H). exists y. split; [simpl; by rewrite lookup_insert_ne|done]. Qed.

Section Move.
Context (s : waitqueue) (HI : WInv s) (w : nat) (x x' : wobj) (b : nat) (bk : waitqueue_bucket).
Context (Hw : waits s !! w = Some x) (Hb : bucket (wdata x) = Some b) (Hbk : store s !! b = Some bk).
Context (Hb' : bucket (wdata x') = Some b) (Hf' : wait_flags (wdata x') = WT_EXECUTEONLYONCE).

Notation s' := (put_wait w x' (put_bucket b (move_to (wait_pending (wdata x')) w bk) s)).

Lemma listed : w ∈ entries bk.
Proof. destruct (wi_wait _ HI w x b Hw Hb) as (bk2 & E & ?). by simplify_eq. Qed.

Lemma moved_bucket : bucket_ok s' b (move_to (wait_pending (wdata x')) w bk).
Proof.
  pose proof listed as Hin. pose proof (wi_bucket _ HI b bk Hbk) as Ok.
  assert (Hp := move_perm (wait_pending (wdata x')) w bk (bo_nodup _ _ _ Ok) Hin).
  assert (in_list s' b (wait_pending (wdata x')) w) as Hself by (exists x'; simpl; by rewrite lookup_insert_eq).
  destruct Ok as [H1 H2 H3 H4 H5 H6]. split.
  - rewrite Hp. by destruct (wait_pending (wdata x')).
  - by destruct (wait_pending (wdata x')).
  - by destruct (wait_pending (wdata x')).
  - by rewrite Hp.
  - intros y Hy. destruct (wait_pending (wdata x')) eqn:E; simpl in Hy; rewrite ?elem_of_app, ?elem_remove in Hy.
    + apply in_list_ne; naive_solver.
    + destruct Hy as [[? ?]| ->%list_elem_of_singleton]; [apply in_list_ne; auto|done].
  - intros y Hy. destruct (wait_pending (wdata x')) eqn:E; simpl in Hy; rewrite ?elem_of_app, ?elem_remove in Hy.
    + destruct Hy as [[? ?]| ->%list_elem_of_singleton]; [apply in_list_ne; auto|done].
    + apply in_list_ne; naive_solver.
Qed.

(** An object is moved to the list that its flag says. *)
Lemma inv_move : WInv s'.
Proof.
  pose proof listed as Hin. pose proof (wi_bucket _ HI b bk Hbk) as Ok.
  assert (Hp := move_perm (wait_pending (wdata x')) w bk (bo_nodup _ _ _ Ok) Hin).
  assert (Hst : forall c, is_Some (<[b := move_to (wait_pending (wdata x')) w bk]> (store s) !! c) <-> is_Some (store s !! c)).
  { intros c. rewrite lookup_insert_is_Some. split; [|destruct (decide (b = c)); [left|right]; done].
    intros [<-|[_ ?]]; [by rewrite Hbk|done]. }
  split; simpl.
  - apply (wi_num _ HI).
  - apply (wi_nodup _ HI).
  - intros c. rewrite Hst. apply (wi_buckets _ HI).
  - intros c. rewrite Hst. apply (wi_sleeps _ HI).
  - intros c ck. destruct (decide (c = b)) as [->|Hc].
    + rewrite lookup_insert_eq. intros [= <-]. by apply moved_bucket.
    + rewrite lookup_insert_ne by done. intros Hck. pose proof (wi_bucket _ HI c ck Hck) as Okc.
      apply (bucket_ok_mono s); [|done]. intros p y _ Hy. apply in_list_ne; [|done]. intros ->.
      destruct Hy as (? & ? & ? & ?). congruence.
  - intros y z c Hy Hc. destruct (decide (y = w)) as [->|Hy2].
    + rewrite lookup_insert_eq in Hy. simplify_eq.
      eexists. split; [apply lookup_insert_eq|]. by rewrite Hp.
    + rewrite lookup_insert_ne in Hy by done. destruct (wi_wait _ HI y z c Hy Hc) as (ck & Hck & Hin2).
      destruct (decide (c = b)) as [->|Hcb].
      * simplify_eq. eexists. split; [apply lookup_insert_eq|]. by rewrite Hp.
      * exists ck. by rewrite lookup_insert_ne.
  - intros y z. destruct (decide (y = w)) as [->|Hy2].
    + rewrite lookup_insert_eq. by intros [= <-].
    + rewrite lookup_insert_ne by done. apply (wi_flags _ HI).
  - intros c l until e Hs He. destruct (wi_poll _ HI c l until e Hs He) as (z & Hz & Hzb).
    destruct (decide (pobject e = w)) as [E|E].
    + exists x'. rewrite E, lookup_insert_eq. split; [done|]. rewrite Hb'. rewrite E, Hw in Hz. injection Hz as <-. rewrite Hb in Hzb. exact Hzb.
    + exists z. by rewrite lookup_insert_ne.
Qed.

Lemma inv_to_reserved : wait_pending (wdata x') = false -> WInv (put_wait w x' (put_bucket b (to_reserved w bk) s)).
Proof. intros E. pose proof inv_move as H. by rewrite E in H. Qed.

Lemma inv_to_waiting : wait_pending (wdata x') = true -> WInv (put_wait w x' (put_bucket b (to_waiting w bk) s)).
Proof. intros E. pose proof inv_move as H. by rewrite E in H. Qed.
End Move.

(** The thread of a bucket goes to sleep or wakes up. *)
Lemma inv_sleep s b z : WInv s -> is_Some (store s !! b) ->
  (forall l until e, z = Poll l until -> e ∈ l ->
     exists x, waits s !! pobject e = Some x /\ (bucket (wdata x) = None \/ bucket (wdata x) = Some b)) ->
  WInv (put_sleep b z s).
Proof.
  intros [] Hb Hz. split; simpl; try done.
  - intros c. rewrite wi_sleeps0, lookup_insert_is_Some. destruct (decide (b = c)) as [<-|]; [|naive_solver].
    rewrite <- wi_sleeps0. naive_solver.
  - intros c ck Hck. apply (bucket_ok_mono s); auto.
  - intros c l until e Hs He. destruct (decide (c = b)) as [->|Hc].
    + rewrite lookup_insert_eq in Hs. injection Hs as ->. by eapply Hz.
    + rewrite lookup_insert_ne in Hs by done. by eapply wi_poll0.
Qed.

(** Something else of an object changes. *)
Lemma inv_same s w x x' : WInv s -> waits s !! w = Some x ->
  bucket (wdata x') = bucket (wdata x) -> wait_pending (wdata x') = wait_pending (wdata x) ->
  wait_flags (wdata x') = wait_flags (wdata x) -> WInv (put_wait w x' s).
Proof.
  intros [] Hw E1 E2 E3.
  assert (Hin : forall b p y, in_list s b p y -> in_list (put_wait w x' s) b p y).
  { intros b p y (z & Hz & ? & ?). destruct (decide (y = w)) as [->|Hy].
    - exists x'. simpl. rewrite lookup_insert_eq. simplify_eq. by rewrite E1, E2.
    - exists z. simpl. by rewrite lookup_insert_ne. }
  split; simpl; try done.
  - intros b bk Hbk. apply (bucket_ok_mono s); auto.
  - intros y z b. destruct (decide (y = w)) as [->|Hy].
    + rewrite lookup_insert_eq. intros [= <-]. rewrite E1. by apply wi_wait0.
    + rewrite lookup_insert_ne by done. apply wi_wait0.
  - intros y z. destruct (decide (y = w)) as [->|Hy].
    + rewrite lookup_insert_eq. intros [= <-]. rewrite E3. by eapply wi_flags0.
    + rewrite lookup_insert_ne by done. apply wi_flags0.
  - intros b l until e Hs He. destruct (wi_poll0 b l until e Hs He) as (z & Hz & Hzb).
    destruct (decide (pobject e = w)) as [E|E].
    + exists x'. rewrite E in *. rewrite lookup_insert_eq. simplify_eq. by rewrite E1.
    + exists z. by rewrite lookup_insert_ne.
Qed.

(** ** Allocation and release *)
Section Alloc.
Context (s : waitqueue) (HI : WInv s) (w : nat) (Hw : waits s !! w = None) (b : nat).
Context (x : wobj) (Hb : bucket (wdata x) = Some b) (Hp : wait_pending (wdata x) = false).
Context (Hf : wait_flags (wdata x) = WT_EXECUTEONLYONCE).

Lemma new_in_list s' c p y : waits s' = <[w := x]> (waits s) -> in_list s c p y -> in_list s' c p y.
Proof.
  intros E (z & Hz & H). exists z. rewrite E, lookup_insert_ne; [done|]. intros ->. congruence.
Qed.

Lemma new_not_listed ck : store s !! b = Some ck -> w ∉ entries ck.
Proof.
  intros Hc Hin. destruct (wi_bucket _ HI b ck Hc) as [_ _ _ _ Hr Hwt].
  unfold entries in Hin. apply elem_of_app in Hin as [H|H];
    [destruct (Hr w H) as (? & ? & _)|destruct (Hwt w H) as (? & ? & _)]; congruence.
Qed.

(** The new object is added to bucket [b], which may be new itself. *)
Lemma inv_add bl sl bk :
  NoDup bl -> (forall c, c ∈ bl <-> c = b \/ is_Some (store s !! c)) ->
  (forall c, is_Some (sl !! c) <-> c = b \/ is_Some (store s !! c)) ->
  (forall c l until, sl !! c = Some (Poll l until) -> sleeps s !! c = Some (Poll l until)) ->
  bucket_ok (WaitQueue (Z.of_nat (length bl)) bl (<[b := bk]> (store s)) (<[w := x]> (waits s)) sl) b bk ->
  (forall ck, store s !! b = Some ck -> entries ck ⊆ entries bk) -> w ∈ entries bk ->
  WInv (WaitQueue (Z.of_nat (length bl)) bl (<[b := bk]> (store s)) (<[w := x]> (waits s)) sl).
Proof.
  intros Hn Hbl Hsl Hpoll Hok Hsub Hin.
  assert (Hst : forall c, is_Some (<[b := bk]> (store s) !! c) <-> c = b \/ is_Some (store s !! c)).
  { intros c. rewrite lookup_insert_is_Some. destruct (decide (b = c)); naive_solver. }
  split; simpl; [done|done| | | | | |].
  - intros c. by rewrite Hst.
  - intros c. by rewrite Hst, Hsl.
  - intros c ck. destruct (decide (c = b)) as [->|Hc].
    + rewrite lookup_insert_eq. by intros [= <-].
    + rewrite lookup_insert_ne by done. intros Hck. apply (bucket_ok_mono s); [|by apply (wi_bucket _ HI)].
      intros p y _. by apply new_in_list.
  - intros y z c Hy Hc. destruct (decide (y = w)) as [->|Hyw].
    + rewrite lookup_insert_eq in Hy. simplify_eq. exists bk. by rewrite lookup_insert_eq.
    + rewrite lookup_insert_ne in Hy by done. destruct (wi_wait _ HI y z c Hy Hc) as (ck & Hck & Hel).
      destruct (decide (c = b)) as [->|Hcb].
      * exists bk. rewrite lookup_insert_eq. split; [done|]. by apply (Hsub ck).
      * exists ck. by rewrite lookup_insert_ne.
  - intros y z. destruct (decide (y = w)) as [->|Hyw].
    + rewrite lookup_insert_eq. by intros [= <-].
    + rewrite lookup_insert_ne by done. apply (wi_flags _ HI).
  - intros c l until e Hs%Hpoll He. destruct (wi_poll _ HI c l until e Hs He) as (z & Hz & ?).
    exists z. rewrite lookup_insert_ne; [done|]. intros E. congruence.
Qed.

Lemma inv_lock bk : store s !! b = Some bk -> objcount bk < MAXIMUM_WAITQUEUE_OBJECTS ->
  WInv (put_wait w x (put_bucket b (Bucket (objcount bk + 1) (alertable bk) (reserved bk ++ [w]) (waiting bk)) s)).
Proof.
  intros Hbk Hlt. unfold put_wait, put_bucket. simpl. rewrite (wi_num _ HI).
  pose proof (wi_bucket _ HI b bk Hbk) as [H1 H2 H3 H4 H5 H6].
  assert (Hperm : (reserved bk ++ [w]) ++ waiting bk ≡ₚ w :: entries bk)
    by (unfold entries; rewrite <- app_assoc; symmetry; apply Permutation_middle).
  apply inv_add.
  - apply (wi_nodup _ HI).
  - intros c. rewrite (wi_buckets _ HI). split; [by right|intros [->|]; [by rewrite Hbk|done]].
  - intros c. rewrite <- (wi_sleeps _ HI). split; [by right|intros [->|]; [by rewrite Hbk|done]].
  - done.
  - split; simpl; try done.
    + unfold entries at 1. simpl. rewrite Hperm. simpl. lia.
    + lia.
    + unfold entries. simpl. rewrite Hperm. constructor; [by apply new_not_listed|done].
    + intros y [Hy| ->%list_elem_of_singleton]%elem_of_app; [eapply new_in_list; [done|auto]|].
      exists x. simpl. by rewrite lookup_insert_eq.
    + intros y Hy. eapply new_in_list; [done|auto].
  - intros ck Hck. simplify_eq. unfold entries at 2. simpl. intros y Hy. rewrite Hperm. by right.
  - unfold entries. simpl. rewrite Hperm. left.
Qed.

Lemma inv_lock_new : store s !! b = None ->
  WInv (put_wait w x (put_sleep b Awake (WaitQueue (num_buckets s + 1) (buckets s ++ [b])
          (<[b := Bucket 1 false [w] []]> (store s)) (waits s) (sleeps s)))).
Proof.
  intros Hnew. unfold put_wait, put_sleep. simpl.
  replace (num_buckets s + 1) with (Z.of_nat (length (buckets s ++ [b])))
    by (rewrite (wi_num _ HI), length_app; simpl; lia).
  apply inv_add.
  - apply NoDup_app. split_and!; [apply (wi_nodup _ HI)| |apply NoDup_singleton].
    intros c Hc ->%list_elem_of_singleton. apply (wi_buckets _ HI) in Hc. rewrite Hnew in Hc. by destruct Hc.
  - intros c. rewrite elem_of_app, list_elem_of_singleton, (wi_buckets _ HI). tauto.
  - intros c. rewrite lookup_insert_is_Some, <- (wi_sleeps _ HI). destruct (decide (b = c)); naive_solver.
  - intros c l until. destruct (decide (c = b)) as [->|Hc]; [by rewrite lookup_insert_eq|by rewrite lookup_insert_ne].
  - split; simpl; try done.
    + unfold entries. simpl. apply NoDup_singleton.
    + intros y ->%list_elem_of_singleton. exists x. simpl. by rewrite lookup_insert_eq.
    + by intros y ?%elem_of_nil.
  - intros ck Hck. congruence.
  - left.
Qed.
End Alloc.

Lemma find_bucket_total s alert l : (forall b, b ∈ l -> is_Some (store s !! b)) ->
  exists r, find_bucket alert l s = Some r /\
    forall b, r = Some b -> exists bk, store s !! b = Some bk /\ objcount bk < MAXIMUM_WAITQUEUE_OBJECTS.
Proof.
  induction l as [|c l IH]; intros H; simpl; [by exists None|].
  destruct (H c ltac:(left)) as (ck & Hck). rewrite Hck. simpl. destruct (_ && _) eqn:E.
  - apply andb_true_iff in E as [E%Z.ltb_lt _]. exists (Some c). split; [done|]. intros ? [= <-]. eauto.
  - apply IH. intros d Hd. apply H. by right.
Qed.

Lemma lock_ok s w fresh available : WInv s -> waits s !! w = None -> store s !! fresh = None ->
  exists r s', tp_waitqueue_lock w fresh available s = Some (r, s') /\ WInv s'.
Proof.
  intros HI Hw Hf. unfold tp_waitqueue_lock.
  destruct (find_bucket_total s (negb (Z.land WT_EXECUTEONLYONCE WT_EXECUTEINIOTHREAD =? 0)) (buckets s))
    as (r & -> & Hr); [intros b; by apply (wi_buckets _ HI)|]. simpl. destruct r as [b|].
  - destruct (Hr b eq_refl) as (bk & Hbk & Hlt). rewrite Hbk. simpl. eexists _, _. split; [done|].
    by apply inv_lock.
  - destruct available; [|by eexists _, _]. eexists _, _. split; [done|]. by apply inv_lock_new.
Qed.

(** tp_waitqueue_unlock *)
Section Unlock.
Context (s : waitqueue) (HI : WInv s) (w : nat) (x : wobj) (Hw : waits s !! w = Some x).
Context (b : nat) (Hb : bucket (wdata x) = Some b) (bk : waitqueue_bucket) (Hbk : store s !! b = Some bk).
Let bk' := Bucket (objcount bk - 1) (alertable bk) (list_remove w (reserved bk)) (list_remove w (waiting bk)).
Let s' := put_wait w (set_bucket None x) (put_bucket b bk' s).

Lemma unlock_entries : entries bk ≡ₚ w :: entries bk'.
Proof.
  etransitivity; [apply (remove_perm w)|].
  - apply (bo_nodup _ _ _ (wi_bucket _ HI b bk Hbk)).
  - by apply (listed s HI w x b).
  - unfold entries. by rewrite remove_app.
Qed.

Lemma unlock_bucket : bucket_ok s' b bk'.
Proof.
  pose proof unlock_entries as Hp. destruct (wi_bucket _ HI b bk Hbk) as [H1 H2 H3 H4 H5 H6]. split; simpl.
  - apply Permutation_length in Hp. simpl in Hp. lia.
  - lia.
  - done.
  - rewrite Hp in H4. by apply NoDup_cons in H4 as [_ ?].
  - intros y [Hy ?]%elem_remove. apply in_list_ne; auto.
  - intros y [Hy ?]%elem_remove. apply in_list_ne; auto.
Qed.

Lemma inv_unlock : WInv s'.
Proof.
  pose proof unlock_entries as Hp. pose proof unlock_bucket as Hok.
  assert (Hst : forall c, is_Some (<[b := bk']> (store s) !! c) <-> is_Some (store s !! c)).
  { intros c. rewrite lookup_insert_is_Some. split; [|destruct (decide (b = c)); [left|right]; done].
    intros [<-|[_ ?]]; [by rewrite Hbk|done]. }
  split; simpl.
  - apply (wi_num _ HI).
  - apply (wi_nodup _ HI).
  - intros c. rewrite Hst. apply (wi_buckets _ HI).
  - intros c. rewrite Hst. apply (wi_sleeps _ HI).
  - intros c ck. destruct (decide (c = b)) as [->|Hc].
    + rewrite lookup_insert_eq. by intros [= <-].
    + rewrite lookup_insert_ne by done. intros Hck. apply (bucket_ok_mono s); [|by apply (wi_bucket _ HI)].
      intros p y _ Hy. apply in_list_ne; [|done]. intros ->. destruct Hy as (? & ? & ? & ?). congruence.
  - intros y z c. destruct (decide (y = w)) as [->|Hy]; [rewrite lookup_insert_eq; by intros [= <-]|].
    rewrite lookup_insert_ne by done. intros Hz Hc. destruct (wi_wait _ HI y z c Hz Hc) as (ck & Hck & Hel).
    destruct (decide (c = b)) as [->|Hcb]; [|exists ck; by rewrite lookup_insert_ne].
    simplify_eq. exists bk'. rewrite lookup_insert_eq. split; [done|]. rewrite Hp in Hel.
    by apply elem_of_cons in Hel as [|].
  - intros y z. destruct (decide (y = w)) as [->|Hy].
    + rewrite lookup_insert_eq. intros [= <-]. exact (wi_flags _ HI w x Hw).
    + rewrite lookup_insert_ne by done. apply (wi_flags _ HI).
  - intros c l until e Hs He. destruct (wi_poll _ HI c l until e Hs He) as (z & Hz & Hzb).
    destruct (decide (pobject e = w)) as [E|E].
    + exists (set_bucket None x). rewrite E, lookup_insert_eq. split; [done|]. by left.
    + exists z. by rewrite lookup_insert_ne.
Qed.
End Unlock.

Lemma waitqueue_unlock_ok s w : WInv s -> is_Some (waits s !! w) -> exists s', tp_waitqueue_unlock w s = Some s' /\ WInv s'.
Proof.
  intros HI (x & Hx). unfold tp_waitqueue_unlock. rewrite Hx. simpl.
  destruct (bucket (wdata x)) as [b|] eqn:Hb; [|by eexists].
  destruct (wi_wait _ HI w x b Hx Hb) as (bk & Hbk & Hin). rewrite Hbk. simpl.
  destruct (wi_bucket _ HI b bk Hbk) as [H1 _ _ _ _ _].
  destruct (0 <? objcount bk) eqn:E.
  - eexists. split; [done|]. by apply inv_unlock.
  - apply Z.ltb_ge in E. destruct (entries bk); [by apply elem_of_nil in Hin|simpl in H1; lia].
Qed.

(** ** The thread of a bucket *)
Lemma move_waits_lookup o l m w :
  move_waits o l m !! w = (if decide (w ∈ l) then set_bucket (Some o) <$> m !! w else m !! w).
Proof.
  induction l as [|y l IH]; simpl; [done|]. destruct (decide (w = y)) as [->|Hy].
  - rewrite lookup_alter_eq, IH, (decide_True (P := y ∈ y :: l)) by left. case_decide; [|done]. by destruct (m !! y).
  - rewrite lookup_alter_ne, IH by done. destruct (decide (w ∈ l)) as [H|H].
    + by rewrite decide_True by (by right).
    + rewrite decide_False; [done|]. by rewrite not_elem_of_cons.
Qed.

Lemma find_other_total s b bk l : (forall c, c ∈ l -> is_Some (store s !! c)) ->
  exists r, find_other b bk l s = Some r /\
    forall o, r = Some o -> o <> b /\ exists ob, store s !! o = Some ob /\
      objcount ob + objcount bk <= MAXIMUM_WAITQUEUE_OBJECTS * 2 / 3.
Proof.
  induction l as [|c l IH]; intros H; simpl; [by exists None|].
  destruct (H c ltac:(left)) as (ck & Hck). rewrite Hck. simpl. destruct (_ && _) eqn:E.
  - rewrite !andb_true_iff, !negb_true_iff, bool_decide_eq_false in E. destruct E as [[[? _] _] ?%Z.leb_le].
    exists (Some c). split; [done|]. intros ? [= <-]. eauto.
  - apply IH. intros d Hd. apply H. by right.
Qed.

Section Merge.
Context (s : waitqueue) (HI : WInv s) (b o : nat) (bk ob : waitqueue_bucket).
Context (Hbk : store s !! b = Some bk) (Hob : store s !! o = Some ob) (Hne : o <> b).
Context (Hsum : objcount ob + objcount bk <= MAXIMUM_WAITQUEUE_OBJECTS) (Hz : sleeps s !! b = Some Awake).
Let mb := Bucket (objcount ob + objcount bk) (alertable ob) (reserved ob ++ reserved bk) (waiting ob ++ waiting bk).
Let s' := WaitQueue (num_buckets s) (list_remove b (buckets s) ++ [b])
  (<[b := Bucket 0 (alertable bk) [] []]> (<[o := mb]> (store s)))
  (move_waits o (entries bk) (waits s)) (sleeps s).

Lemma entry_bucket c ck w : store s !! c = Some ck -> w ∈ entries ck ->
  exists x, waits s !! w = Some x /\ bucket (wdata x) = Some c.
Proof.
  intros Hc Hin. destruct (wi_bucket _ HI c ck Hc) as [_ _ _ _ Hr Hwt]. unfold entries in Hin.
  apply elem_of_app in Hin as [H|H]; [destruct (Hr w H) as (x & ? & ? & _)|destruct (Hwt w H) as (x & ? & ? & _)]; eauto.
Qed.

Lemma entries_apart c ck w : c <> b -> store s !! c = Some ck -> w ∈ entries ck -> w ∉ entries bk.
Proof.
  intros Hc Hck H1 H2. destruct (entry_bucket c ck w Hck H1) as (x & ? & ?).
  destruct (entry_bucket b bk w Hbk H2) as (y & ? & ?). congruence.
Qed.

Lemma merged_kept c ck p w : c <> b -> store s !! c = Some ck -> w ∈ entries ck -> in_list s c p w -> in_list s' c p w.
Proof.
  intros Hc Hck Hin (x & Hx & ?). exists x. simpl. rewrite move_waits_lookup, decide_False; [done|].
  by eapply entries_apart.
Qed.

Lemma merged_moved p w : w ∈ entries bk -> in_list s b p w -> in_list s' o p w.
Proof.
  intros Hin (x & Hx & ? & ?). exists (set_bucket (Some o) x). simpl.
  rewrite move_waits_lookup, decide_True by done. by rewrite Hx.
Qed.

Lemma merged_perm : entries mb ≡ₚ entries ob ++ entries bk.
Proof.
  unfold entries. simpl. rewrite <- !app_assoc. apply Permutation_app_head.
  rewrite !app_assoc. apply Permutation_app_tail, Permutation_app_comm.
Qed.

Lemma merged_bucket : bucket_ok s' o mb.
Proof.
  destruct (wi_bucket _ HI b bk Hbk) as [B1 B2 B3 B4 B5 B6], (wi_bucket _ HI o ob Hob) as [O1 O2 O3 O4 O5 O6].
  split; simpl; try done.
  - rewrite merged_perm, length_app. lia.
  - rewrite merged_perm. apply NoDup_app. split_and!; [done| |done]. intros w Hw. by eapply entries_apart.
  - intros w [Hw|Hw]%elem_of_app.
    + eapply merged_kept; [done..|apply elem_of_app; by left|auto].
    + apply merged_moved; [apply elem_of_app; by left|auto].
  - intros w [Hw|Hw]%elem_of_app.
    + eapply merged_kept; [done..|apply elem_of_app; by right|auto].
    + apply merged_moved; [apply elem_of_app; by right|auto].
Qed.

Lemma remove_buckets : list_remove b (buckets s) ++ [b] ≡ₚ buckets s.
Proof.
  rewrite Permutation_app_comm. symmetry. apply (remove_perm b (buckets s) (wi_nodup _ HI)).
  apply (wi_buckets _ HI). by rewrite Hbk.
Qed.

Lemma inv_merge : WInv s'.
Proof.
  pose proof remove_buckets as Hp.
  assert (Hst : forall c, is_Some (store s' !! c) <-> is_Some (store s !! c)).
  { intros c. simpl. rewrite !lookup_insert_is_Some. destruct (decide (c = b)) as [->|]; [rewrite Hbk; naive_solver|].
    destruct (decide (c = o)) as [->|]; [rewrite Hob|]; naive_solver. }
  split; [..| |].
  - simpl. rewrite Hp. apply (wi_num _ HI).
  - simpl. rewrite Hp. apply (wi_nodup _ HI).
  - intros c. rewrite Hst. simpl. rewrite Hp. apply (wi_buckets _ HI).
  - intros c. rewrite Hst. apply (wi_sleeps _ HI).
  - intros c ck. simpl. destruct (decide (c = b)) as [->|Hcb].
    + rewrite lookup_insert_eq. intros [= <-]. split; simpl; try done; try (by intros ? ?%elem_of_nil).
      * apply (wi_bucket _ HI b bk Hbk).
      * constructor.
    + rewrite lookup_insert_ne by done. destruct (decide (c = o)) as [->|Hco].
      * rewrite lookup_insert_eq. intros [= <-]. apply merged_bucket.
      * rewrite lookup_insert_ne by done. intros Hck. apply (bucket_ok_mono s); [|by apply (wi_bucket _ HI)].
        intros p w Hw. by eapply merged_kept.
  - intros w x c. simpl. rewrite move_waits_lookup. destruct (decide (w ∈ entries bk)) as [Hin|Hin].
    + destruct (waits s !! w) as [y|] eqn:Hy; simpl; intros; simplify_eq/=. exists mb.
      rewrite lookup_insert_ne, lookup_insert_eq by done. split; [done|]. rewrite merged_perm. apply elem_of_app. by right.
    + intros Hx Hc. destruct (wi_wait _ HI w x c Hx Hc) as (ck & Hck & Hel).
      assert (c <> b) as Hcb by (intros ->; simplify_eq). rewrite lookup_insert_ne by done.
      destruct (decide (c = o)) as [->|Hco]; [|exists ck; by rewrite lookup_insert_ne].
      exists mb. rewrite lookup_insert_eq. split; [done|]. simplify_eq. rewrite merged_perm. apply elem_of_app. by left.
  - intros w x. simpl. rewrite move_waits_lookup. case_decide; [|apply (wi_flags _ HI)].
    destruct (waits s !! w) as [y|] eqn:Hy; simpl; intros; simplify_eq/=. by apply (wi_flags _ HI w).
  - intros c l until e Hs He. simpl in *. destruct (wi_poll _ HI c l until e Hs He) as (x & Hx & Hxb).
    rewrite move_waits_lookup. destruct (decide (pobject e ∈ entries bk)) as [Hin|Hin]; [|by exists x].
    destruct (entry_bucket b bk _ Hbk Hin) as (y & Hy & Hyb). assert (c = b) as -> by naive_solver congruence.
    congruence.
Qed.
End Merge.
End WaitQueueInv.
