(* ===== verification/WaitQueueSpec.v ===== *)
(** * The thread pool: what the wait queue promises

    No ASSERT of the wait queue fails, a thread never waits for more handles
    than the system allows, and a wait that is armed once leads to one callback
    at most. *)
From S2P Require Import Prelude Threadpool TpInv TpWorker WaitQueue WaitQueueInv.
From stdpp Require Import gmap.
#[local] Open Scope Z_scope.

Module WaitQueueSpec.
Import Tp TpInv TpWorker WaitQueue WaitQueueInv.

(** ** Callbacks and the calls that arm a wait *)
Definition fires (w : nat) (e : wevent) : Z :=
  match e with ETimedOut x | ESignaled x => eqz w x | EArmed _ => 0 end.
Definition arms (w : nat) (e : wevent) : Z := match e with EArmed x => eqz w x | _ => 0 end.
Definition fired (w : nat) (es : list wevent) : Z := zsum (map (fires w) es).
Definition armed (w : nat) (es : list wevent) : Z := zsum (map (arms w) es).

(** The thread waits for the object as it is now. *)
Definition polls (w : nat) (x : wobj) (z : option sleep) : bool :=
  match z with
  | Some (Poll l _) => existsb (fun e => bool_decide (pobject e = w) && (pserial e =? update_serial x)) l
  | _ => false
  end.

(** A callback of the object may come. *)
Definition ticket (s : waitqueue) (w : nat) : bool :=
  match waits s !! w with
  | Some x => wait_pending (wdata x) ||
      match bucket (wdata x) with Some b => polls w x (sleeps s !! b) | None => false end
  | None => false
  end.

Definition budget (s s' : waitqueue) (es : list wevent) : Prop :=
  forall w, fired w es + b2z (ticket s' w) <= armed w es + b2z (ticket s w).

Lemma fired_app w es es' : fired w (es ++ es') = fired w es + fired w es'.
Proof. unfold fired. by rewrite map_app, zsum_app. Qed.
Lemma armed_app w es es' : armed w (es ++ es') = armed w es + armed w es'.
Proof. unfold armed. by rewrite map_app, zsum_app. Qed.

Lemma budget_trans s1 s2 s3 es es' : budget s1 s2 es -> budget s2 s3 es' -> budget s1 s3 (es ++ es').
Proof. intros H1 H2 w. rewrite fired_app, armed_app. specialize (H1 w). specialize (H2 w). lia. Qed.

Lemma budget_none s s' : (forall w, ticket s' w = true -> ticket s w = true) -> budget s s' [].
Proof.
  intros H w. specialize (H w). unfold fired, armed. simpl.
  destruct (ticket s' w); simpl; [rewrite H by done; simpl; lia|]. destruct (ticket s w); simpl; lia.
Qed.

Lemma ticket_ext s s' w : waits s' !! w = waits s !! w -> sleeps s' = sleeps s -> ticket s' w = ticket s w.
Proof. intros E1 E2. unfold ticket. by rewrite E1, E2. Qed.

Lemma polls_elem w x z : polls w x z = true -> exists l until e, z = Some (Poll l until) /\ e ∈ l /\ pobject e = w.
Proof.
  destruct z as [[| |l until]|]; try done. simpl. intros (e & He & H)%existsb_exists.
  apply andb_true_iff in H as [H%bool_decide_eq_true _]. exists l, until, e. split; [done|]. split; [by apply list_elem_of_In|done].
Qed.

(** The thread of [b] wakes up. *)
Lemma ticket_awake s b w : ticket (put_sleep b Awake s) w = true -> ticket s w = true.
Proof.
  unfold ticket. simpl. destruct (waits s !! w) as [x|]; [|done]. destruct (wait_pending (wdata x)); [done|].
  destruct (bucket (wdata x)) as [c|]; [|done]. simpl. destruct (decide (c = b)) as [->|Hc].
  - by rewrite lookup_insert_eq.
  - by rewrite lookup_insert_ne.
Qed.

Lemma inv_awake s b : WInv s -> is_Some (sleeps s !! b) -> WInv (put_sleep b Awake s).
Proof. intros HI Hs. apply inv_sleep; [done| |done]. by apply (wi_sleeps _ HI). Qed.

(** ** Operations of the client *)
Definition fine (s : waitqueue) (r : option (waitqueue * list wevent)) : Prop :=
  exists s' es, r = Some (s', es) /\ WInv s' /\ budget s s' es.

Lemma lock_budget s w fresh available r s' : WInv s -> waits s !! w = None -> store s !! fresh = None ->
  tp_waitqueue_lock w fresh available s = Some (r, s') -> budget s s' [].
Proof.
  intros HI Hw Hf H. apply budget_none. intros y Hy. unfold tp_waitqueue_lock in H.
  destruct (find_bucket _ _ _) as [[b|]|]; simpl in H; [|destruct available; simplify_eq/=|done].
  - destruct (store s !! b) as [bk|]; simplify_eq/=. unfold ticket in *. simpl in Hy.
    destruct (decide (y = w)) as [->|Hyw]; [|by rewrite lookup_insert_ne in Hy].
    rewrite lookup_insert_eq in Hy. simpl in Hy. apply polls_elem in Hy as (l & until & e & Hs & He & Hp).
    destruct (wi_poll _ HI _ _ _ _ Hs He) as (x & Hx & _). congruence.
  - unfold ticket in *. simpl in Hy. destruct (decide (y = w)) as [->|Hyw].
    + rewrite lookup_insert_eq in Hy. simpl in Hy. by rewrite lookup_insert_eq in Hy.
    + rewrite lookup_insert_ne in Hy by done. destruct (waits s !! y) as [x|] eqn:Hx; [|done].
      destruct (wait_pending (wdata x)); [done|]. destruct (bucket (wdata x)) as [c|]; [|done]. simpl in *.
      destruct (decide (c = fresh)) as [->|]; [by rewrite lookup_insert_eq in Hy|by rewrite lookup_insert_ne in Hy].
  - done.
Qed.

Lemma unlock_budget s w s' : tp_waitqueue_unlock w s = Some s' -> budget s s' [].
Proof.
  intros H. apply budget_none. intros y Hy. unfold tp_waitqueue_unlock in H.
  destruct (waits s !! w) as [x|] eqn:Hx; [|done]. simpl in H. destruct (bucket (wdata x)) as [b|] eqn:Hb; [|by simplify_eq].
  destruct (store s !! b); [|done]. simpl in H. destruct (0 <? _); simplify_eq/=. unfold ticket in *. simpl in Hy.
  destruct (decide (y = w)) as [->|Hyw]; [|by rewrite lookup_insert_ne in Hy].
  rewrite lookup_insert_eq in Hy. simpl in Hy. rewrite orb_false_r in Hy. by rewrite Hx, Hy.
Qed.

Lemma set_wait_fine s w h tmo now duped x : WInv s -> waits s !! w = Some x -> is_Some (bucket (wdata x)) ->
  fine s ('(_, s', es) ← TpSetWaitEx w h tmo now duped s; Some (s', es)).
Proof.
  intros HI Hx (b & Hb). unfold TpSetWaitEx. rewrite Hx. simpl. rewrite Hb. simpl.
  destruct (wi_wait _ HI w x b Hx Hb) as (bk & Hbk & _). pose proof (wi_flags _ HI w x Hx) as Hf.
  destruct (negb (h =? 0) || wait_pending (wdata x)) eqn:E.
  - rewrite Hbk. simpl. eexists _, _. split; [reflexivity|]. destruct (h =? 0) eqn:Eh; simpl in E.
    + split; [by destruct (handle (wdata x) =? h); eapply (inv_to_reserved s HI w x _ b bk)|].
      apply budget_none. intros y Hy. destruct (decide (y = w)) as [->|Hyw].
      * unfold ticket. by rewrite Hx, E.
      * rewrite <- Hy. symmetry. apply ticket_ext; [simpl; by rewrite lookup_insert_ne|done].
    + split; [by destruct (handle (wdata x) =? h); eapply (inv_to_waiting s HI w x _ b bk)|].
      intros y. unfold fired, armed. simpl. destruct (decide (y = w)) as [->|Hyw].
      * unfold eqz. rewrite decide_True by done. destruct (ticket _ w), (ticket s w); simpl; lia.
      * unfold eqz. rewrite decide_False by done. erewrite ticket_ext; [|simpl; by rewrite lookup_insert_ne|done].
        lia.
  - simpl. eexists _, _. split; [reflexivity|]. split; [by eapply inv_same|].
    apply budget_none. intros y Hy. unfold ticket in *. simpl in Hy. destruct (decide (y = w)) as [->|Hyw].
    + rewrite lookup_insert_eq in Hy. by rewrite Hx.
    + by rewrite lookup_insert_ne in Hy.
Qed.

(** ** The thread of a bucket *)
Lemma merge_fine s b bk : WInv s -> store s !! b = Some bk -> sleeps s !! b = Some Awake ->
  exists s', merge b s = Some s' /\ WInv s' /\ budget s s' [] /\ sleeps s' = sleeps s.
Proof.
  intros HI Hbk Hz. unfold merge. rewrite Hbk. simpl. destruct (_ && _) eqn:E; [|by exists s; split_and!; [..|apply budget_none|]].
  destruct (find_other_total s b bk (buckets s)) as (r & -> & Hr); [intros c; by apply (wi_buckets _ HI)|]. simpl.
  destruct r as [o|]; [|by exists s; split_and!; [..|apply budget_none|]].
  destruct (Hr o eq_refl) as (Hne & ob & Hob & Hsum). rewrite Hob. simpl. eexists. split; [done|]. split; [|split; [|done]].
  - apply inv_merge; try done. change (MAXIMUM_WAITQUEUE_OBJECTS * 2 / 3) with 42 in Hsum. change MAXIMUM_WAITQUEUE_OBJECTS with 63. lia.
  - apply budget_none. intros w. unfold ticket. cbn [waits sleeps]. rewrite move_waits_lookup.
    destruct (decide _) as [Hin|]; [|done]. destruct (entry_bucket s HI b bk w Hbk Hin) as (x & Hx & Hb).
    rewrite Hx. simpl. destruct (wait_pending (wdata x)); [done|]. simpl.
    intros (l & until & e & Hs & He & Hp)%polls_elem. destruct (wi_poll _ HI _ _ _ _ Hs He) as (y & Hy & Hyb).
    rewrite Hp, Hx in Hy. injection Hy as <-. destruct Hyb; congruence.
Qed.

Lemma finish_fine s b bk : WInv s -> store s !! b = Some bk -> objcount bk = 0 ->
  fine s (s' ← finish b s; Some (s', [])).
Proof.
  intros HI Hbk H0. pose proof (wi_bucket _ HI b bk Hbk) as Ok.
  assert (entries bk = []) as He by (apply length_zero_iff_nil; pose proof (bo_count _ _ _ Ok); lia).
  unfold entries in He. apply app_eq_nil in He as [Hr Hw].
  assert (Hp : buckets s ≡ₚ b :: list_remove b (buckets s)).
  { apply (remove_perm b _ (wi_nodup _ HI)), (wi_buckets _ HI). by rewrite Hbk. }
  assert (Hlen : Z.of_nat (length (list_remove b (buckets s))) = num_buckets s - 1).
  { rewrite (wi_num _ HI). apply Permutation_length in Hp. simpl in Hp. lia. }
  unfold finish. rewrite Hbk. simpl. rewrite H0, Hr, Hw, !(bool_decide_eq_true_2 (@nil nat = [])) by done.
  assert (negb (num_buckets s - 1 =? 0) || bool_decide (list_remove b (buckets s) = []) = true) as ->.
  { destruct (num_buckets s - 1 =? 0) eqn:E; [|done]. apply Z.eqb_eq in E. simpl. apply bool_decide_eq_true_2.
    apply length_zero_iff_nil. lia. }
  simpl. eexists _, _. split; [reflexivity|]. split.
  - split; cbn [num_buckets buckets store waits sleeps].
    + done.
    + pose proof (wi_nodup _ HI) as Hn. rewrite Hp in Hn. by apply NoDup_cons in Hn as [_ ?].
    + intros c. rewrite elem_remove, (wi_buckets _ HI), lookup_delete_is_Some. naive_solver.
    + intros c. rewrite !lookup_delete_is_Some, (wi_sleeps _ HI). done.
    + intros c ck [Hc Hck]%lookup_delete_Some. apply (bucket_ok_mono s); [done|by apply (wi_bucket _ HI)].
    + intros w x c Hx Hc. destruct (wi_wait _ HI w x c Hx Hc) as (ck & Hck & Hin). exists ck. split; [|done].
      rewrite lookup_delete_ne; [done|]. intros <-. simplify_eq. unfold entries in Hin. rewrite Hr, Hw in Hin. by apply elem_of_nil in Hin.
    + apply (wi_flags _ HI).
    + intros c l until e [_ Hs]%lookup_delete_Some. intros He. by apply (wi_poll _ HI c l until e).
  - apply budget_none. intros w. unfold ticket. cbn [waits sleeps]. destruct (waits s !! w) as [x|]; [|done].
    destruct (wait_pending (wdata x)); [done|]. destruct (bucket (wdata x)) as [c|]; [|done]. simpl.
    destruct (decide (c = b)) as [->|]; [by rewrite lookup_delete_eq|by rewrite lookup_delete_ne].
Qed.

(** The loop over the objects that wait.  [acc] are the ones found so far. *)
Lemma scan_list_fine b now l s acc until : WInv s -> is_Some (store s !! b) -> sleeps s !! b = Some Awake ->
  NoDup l -> (forall w, w ∈ l -> in_list s b true w) ->
  (forall e, e ∈ acc -> in_list s b true (pobject e) /\ pobject e ∉ l) ->
  Z.of_nat (length acc) + Z.of_nat (length l) <= MAXIMUM_WAITQUEUE_OBJECTS ->
  exists s' acc' until' es, scan_list b now l s acc until = Some (s', acc', until', es) /\
    WInv s' /\ budget s s' es /\ is_Some (store s' !! b) /\ sleeps s' = sleeps s /\
    Z.of_nat (length acc') <= MAXIMUM_WAITQUEUE_OBJECTS /\
    (forall e, e ∈ acc' -> in_list s' b true (pobject e)).
Proof.
  revert s acc until. induction l as [|w l IH]; intros s acc until HI Hst Hz Hnd Hl Hacc Hlen.
  { eexists _, _, _, _. split; [reflexivity|]. split_and!; try done; [by apply budget_none|simpl in Hlen; lia|].
    intros e He. by apply Hacc. }
  apply NoDup_cons in Hnd as [Hwl Hnd]. destruct (Hl w ltac:(left)) as (x & Hx & Hb & Hp).
  simpl. rewrite Hx. simpl. rewrite Hp. cbn [negb]. destruct (wait_timeout (wdata x) <=? now).
  - destruct Hst as (bk & Hbk). rewrite Hbk. simpl. rewrite (wi_flags _ HI w x Hx).
    change (Z.land WT_EXECUTEONLYONCE WT_EXECUTEONLYONCE =? 0) with false. cbn iota.
    assert (forall y, y <> w -> in_list s b true y -> in_list (put_wait w (set_pending false x) (put_bucket b (to_reserved w bk) s)) b true y)
      as Hk by (intros; by apply in_list_ne).
    destruct (IH (put_wait w (set_pending false x) (put_bucket b (to_reserved w bk) s)) acc until)
      as (s' & acc' & until' & es & He & HI' & Hbud & Hst' & Hz' & Hlen' & Hacc').
    + eapply (inv_to_reserved s HI w x _ b bk); try done. exact (wi_flags _ HI w x Hx).
    + simpl. by rewrite lookup_insert_eq.
    + done.
    + done.
    + intros y Hy. apply Hk; [by intros ->|]. apply Hl. by right.
    + intros e He. destruct (Hacc e He) as [H1 H2]. apply not_elem_of_cons in H2 as [H2 H3]. split; [by apply Hk|done].
    + simpl in Hlen. lia.
    + rewrite He. simpl. eexists _, _, _, _. split; [reflexivity|]. split_and!; try done.
      eapply (budget_trans s _ s' [ETimedOut w] es); [|exact Hbud]. intros y. unfold fired, armed. simpl.
      destruct (decide (y = w)) as [->|Hyw].
      * unfold ticket at 2. rewrite Hx, Hp. unfold ticket. simpl. rewrite lookup_insert_eq. simpl. rewrite Hb, Hz. simpl.
        unfold eqz. rewrite decide_True by done. lia.
      * unfold eqz. rewrite decide_False by done. erewrite ticket_ext; [|simpl; by rewrite lookup_insert_ne|done]. lia.
  - rewrite (proj2 (Z.ltb_lt _ _)) by (simpl in Hlen; lia).
    apply IH; try done.
    + intros y Hy. apply Hl. by right.
    + intros e [He| ->%list_elem_of_singleton]%elem_of_app.
      * destruct (Hacc e He) as [? H]. apply not_elem_of_cons in H as [_ ?]. done.
      * simpl. split; [by exists x|done].
    + rewrite length_app. simpl in *. lia.
Qed.

Lemma scan_fine s b now bk : WInv s -> store s !! b = Some bk -> sleeps s !! b = Some Awake -> fine s (scan b now s).
Proof.
  intros HI Hbk Hz. unfold scan. rewrite Hbk. simpl. pose proof (wi_bucket _ HI b bk Hbk) as Ok.
  destruct (scan_list_fine b now (waiting bk) s [] TIMEOUT_INFINITE HI) as (s' & l & until & es & -> & HI' & Hbud & Hst & Hz' & Hlen & Hl).
  - by rewrite Hbk.
  - done.
  - pose proof (bo_nodup _ _ _ Ok) as Hn. by apply NoDup_app in Hn as (_ & _ & ?).
  - apply (bo_waiting _ _ _ Ok).
  - by intros ? ?%elem_of_nil.
  - pose proof (bo_count _ _ _ Ok) as H1. pose proof (bo_bound _ _ _ Ok). unfold entries in H1. rewrite length_app in H1. simpl. lia.
  - simpl. destruct Hst as (bk' & Hbk'). rewrite Hbk'. simpl.
    assert (Hpolled : forall e, e ∈ l -> exists x, waits s' !! pobject e = Some x /\ (bucket (wdata x) = None \/ bucket (wdata x) = Some b)).
    { intros e He. destruct (Hl e He) as (x & ? & ? & _). eauto. }
    assert (Hfin : forall z, (forall l' u', z = Poll l' u' -> l' = l) -> fine s (Some (put_sleep b z s', es))).
    { intros z Hzl. eexists _, _. split; [done|]. split.
      - apply inv_sleep; [done|by rewrite Hbk'|]. intros l' u' e -> He. rewrite (Hzl l' u' eq_refl) in He. by apply Hpolled.
      - rewrite <- (app_nil_r es). apply (budget_trans s s'); [done|]. apply budget_none. intros w.
        unfold ticket. cbn [waits sleeps put_sleep]. destruct (waits s' !! w) as [x|] eqn:Hx; [|done].
        destruct (wait_pending (wdata x)) eqn:Hpd; [done|]. destruct (bucket (wdata x)) as [c|]; [|done]. simpl.
        destruct (decide (c = b)) as [->|Hc]; [|by rewrite lookup_insert_ne]. rewrite lookup_insert_eq.
        intros (l' & u' & e & [= ->] & He & Hpe)%polls_elem. rewrite (Hzl l' u' eq_refl) in He.
        destruct (Hl e He) as (y & Hy & _ & Hyp). rewrite Hpe in Hy. congruence. }
    destruct (objcount bk' =? 0) eqn:E.
    + rewrite decide_True; [by apply Hfin|]. destruct l as [|e l]; [done|]. destruct (Hl e ltac:(left)) as (x & Hx & Hxb & _).
      destruct (wi_wait _ HI' _ x b Hx Hxb) as (bk2 & Hbk2 & Hin). rewrite Hbk2 in Hbk'. injection Hbk' as <-.
      pose proof (bo_count _ _ _ (wi_bucket _ HI' b bk2 Hbk2)) as Hcnt. apply Z.eqb_eq in E.
      destruct (entries bk2); [by apply elem_of_nil in Hin|simpl in Hcnt; lia].
    + apply Hfin. by intros ? ? [= -> _].
Qed.

(** A handle was signaled: the thread wakes up and submits the callback. *)
Lemma deliver_fine s b l until e : WInv s -> sleeps s !! b = Some (Poll l until) -> e ∈ l ->
  exists s' es, deliver b e (put_sleep b Awake s) = Some (s', es) /\ WInv s' /\ budget s s' es /\
    sleeps s' !! b = Some Awake /\ is_Some (store s' !! b).
Proof.
  intros HI Hz He. destruct (wi_poll _ HI b l until e Hz He) as (x & Hx & Hxb).
  assert (is_Some (store s !! b)) as (bk & Hbk) by (apply (wi_sleeps _ HI); by rewrite Hz).
  pose proof (inv_awake s b HI ltac:(by rewrite Hz)) as HI1.
  assert (budget s (put_sleep b Awake s) []) as Hbud by (apply budget_none; intros w; apply ticket_awake).
  unfold deliver. cbn [waits put_sleep store]. rewrite Hx. simpl. destruct Hxb as [E|E]; rewrite E; simpl.
  { eexists _, _. split; [done|]. split_and!; [done|done|simpl; by rewrite lookup_insert_eq|simpl; by rewrite Hbk]. }
  destruct (update_serial x =? pserial e) eqn:Eser.
  2:{ eexists _, _. split; [done|]. split_and!; [done|done|simpl; by rewrite lookup_insert_eq|simpl; by rewrite Hbk]. }
  rewrite decide_True by done. rewrite Hbk. simpl. rewrite (wi_flags _ HI _ x Hx).
  change (Z.land WT_EXECUTEONLYONCE WT_EXECUTEONLYONCE =? 0) with false. cbn iota.
  eexists _, _. split; [done|]. split_and!.
  - eapply (inv_to_reserved (put_sleep b Awake s) HI1 _ x _ b bk); try done. exact (wi_flags _ HI _ x Hx).
  - intros w. unfold fired, armed. simpl. destruct (decide (w = pobject e)) as [->|Hw].
    + assert (ticket s (pobject e) = true) as ->.
      { unfold ticket. rewrite Hx, E, Hz. simpl. apply orb_true_iff. right. apply existsb_exists. exists e.
        split; [by apply list_elem_of_In|]. rewrite bool_decide_eq_true_2 by done. simpl. lia. }
      unfold ticket. simpl. rewrite lookup_insert_eq. simpl. rewrite E, lookup_insert_eq. simpl.
      unfold eqz. rewrite decide_True by done. lia.
    + unfold eqz. rewrite decide_False by done. specialize (Hbud w). unfold fired, armed in Hbud. simpl in Hbud.
      erewrite (ticket_ext (put_sleep b Awake s)); [lia|simpl; by rewrite lookup_insert_ne|done].
  - simpl. by rewrite lookup_insert_eq.
  - simpl. by rewrite lookup_insert_eq.
Qed.

Lemma turn_fine s b st now : WInv s -> is_Some (sleeps s !! b) -> fine s (turn b st now s).
Proof.
  intros HI (z & Hz). unfold turn. rewrite Hz. simpl.
  assert (is_Some (store s !! b)) as (bk & Hbk) by (apply (wi_sleeps _ HI); by rewrite Hz).
  pose proof (inv_awake s b HI ltac:(by rewrite Hz)) as HI1.
  assert (budget s (put_sleep b Awake s) []) as Hbud by (apply budget_none; intros w; apply ticket_awake).
  assert (Hgo : forall s1 es, WInv s1 -> budget s s1 es -> is_Some (store s1 !! b) -> sleeps s1 !! b = Some Awake ->
    fine s (s2 ← merge b s1; '(s3, es') ← scan b now s2; Some (s3, es ++ es'))).
  { intros s1 es Hs1 Hb1 (bk1 & Hbk1) Hz1. destruct (merge_fine s1 b bk1 Hs1 Hbk1 Hz1) as (s2 & -> & Hs2 & Hb2 & Hz2). simpl.
    rewrite <- Hz2 in Hz1. assert (is_Some (store s2 !! b)) as (bk2 & Hbk2) by (apply (wi_sleeps _ Hs2); by rewrite Hz1).
    destruct (scan_fine s2 b now bk2 Hs2 Hbk2 Hz1) as (s3 & es3 & -> & Hs3 & Hb3). simpl. eexists _, _. split; [done|].
    split; [done|]. apply (budget_trans s s2); [|done]. rewrite <- (app_nil_r es). by apply (budget_trans s s1). }
  assert (Hplain : fine s (s2 ← merge b (put_sleep b Awake s); '(s3, es') ← scan b now s2; Some (s3, [] ++ es'))).
  { apply Hgo; [done|done|simpl; by rewrite Hbk|simpl; by rewrite lookup_insert_eq]. }
  destruct z as [| |l until].
  - destruct (scan_fine (put_sleep b Awake s) b now bk HI1 Hbk) as (s3 & es3 & -> & Hs3 & Hb3);
      [simpl; by rewrite lookup_insert_eq|]. eexists _, _. split; [done|]. split; [done|].
    by apply (budget_trans s (put_sleep b Awake s) s3 [] es3).
  - rewrite Hbk. simpl. destruct st as [k| |]; [exact Hplain|exact Hplain|].
    destruct (objcount bk =? 0) eqn:E; [|exact Hplain].
    destruct (finish_fine (put_sleep b Awake s) b bk HI1 Hbk) as (s3 & es3 & -> & Hs3 & Hb3); [lia|].
    eexists _, _. split; [done|]. split; [done|]. by apply (budget_trans s (put_sleep b Awake s) s3 [] es3).
  - destruct st as [k| |]; [|exact Hplain|exact Hplain]. destruct (l !! k) as [e|] eqn:Hk; [|exact Hplain].
    destruct (deliver_fine s b l until e HI Hz ltac:(by eapply list_elem_of_lookup_2)) as (s1 & es1 & -> & Hs1 & Hb1 & Hz1 & Hst1).
    simpl. by apply Hgo.
Qed.

(** ** Runs *)
Lemma wstep_fine s o : WInv s -> allowed o s = true -> fine s (wstep o s).
Proof.
  intros HI Ha. destruct o as [w fresh available|w|w h tmo now duped|b st now]; simpl in *.
  - apply andb_true_iff in Ha as [Hw%bool_decide_eq_true Hf%bool_decide_eq_true].
    destruct (lock_ok s w fresh available HI Hw Hf) as (r & s' & E & HI'). rewrite E. simpl.
    eexists _, _. split; [done|]. split; [done|]. by eapply lock_budget.
  - apply bool_decide_eq_true in Ha. destruct (waitqueue_unlock_ok s w HI Ha) as (s' & E & HI'). rewrite E. simpl.
    eexists _, _. split; [done|]. split; [done|]. by eapply unlock_budget.
  - destruct (waits s !! w) as [x|] eqn:Hx; [|done]. apply bool_decide_eq_true in Ha. by eapply set_wait_fine.
  - apply bool_decide_eq_true in Ha. by apply turn_fine.
Qed.

Lemma winv_init : WInv empty_queue.
Proof.
  split; simpl; try done.
  - constructor.
  - intros b. rewrite lookup_empty. split; [by intros ?%elem_of_nil|by intros []].
  - intros b. by rewrite !lookup_empty.
Qed.

Lemma wruns_inv es s : wruns es s -> WInv s /\ forall w, fired w es + b2z (ticket s w) <= armed w es.
Proof.
  induction 1 as [|es s o s' es' Hr [HI Hb] Ha Hs]; [split; [apply winv_init|done]|].
  destruct (wstep_fine s o HI Ha) as (s2 & es2 & E & HI2 & Hb2). rewrite Hs in E. injection E as <- <-.
  split; [done|]. intros w. rewrite fired_app, armed_app. specialize (Hb w). specialize (Hb2 w). lia.
Qed.

Fixpoint wexec (os : list wop) (s : waitqueue) : option (waitqueue * list wevent) :=
  match os with
  | [] => Some (s, [])
  | o :: os =>
      if allowed o s then '(s, es) ← wstep o s; '(s, es') ← wexec os s; Some (s, es ++ es') else None
  end.

Lemma wexec_runs os s s' es0 es : wruns es0 s -> wexec os s = Some (s', es) -> wruns (es0 ++ es) s'.
Proof.
  revert s es0 es. induction os as [|o os IH]; intros s es0 es Hr He; simpl in He.
  - simplify_eq. by rewrite app_nil_r.
  - destruct (allowed o s) eqn:Ha; [|done]. destruct (wstep o s) as [[s1 es1]|] eqn:Hs; [|done]. simpl in He.
    destruct (wexec os s1) as [[s2 es2]|] eqn:H2; [|done]. simplify_eq/=. rewrite app_assoc. eapply IH; [|done].
    by econstructor.
Qed.

(** One object waits, with thread 7. *)
Definition one_wait : list wop := [WAlloc 0 7 true; WTurn 7 Updated 0; WSet 0 5 None 0 9; WTurn 7 Updated 1].
Definition one_wait_state : waitqueue := match wexec one_wait empty_queue with Some (s, _) => s | None => empty_queue end.
Definition one_wait_events : list wevent := match wexec one_wait empty_queue with Some (_, es) => es | None => [] end.

Lemma one_wait_runs : wruns one_wait_events one_wait_state.
Proof.
  eapply (wexec_runs one_wait empty_queue _ [] _ wruns_nil). vm_compute. reflexivity.
Qed.

(** C5. The wait queue is consistent and its assertions hold: in every reachable
    state each bucket counts the objects of its two lists, which are at most 63
    different ones, and every operation of the client and every turn of a thread
    succeeds, whatever the status of its wait is. *)
Theorem WaitQueue_safe es s :
  wruns es s ->
  (forall b bk, store s !! b = Some bk ->
     objcount bk = Z.of_nat (length (reserved bk ++ waiting bk)) /\ objcount bk <= MAXIMUM_WAITQUEUE_OBJECTS /\
     NoDup (reserved bk ++ waiting bk)) /\
  forall o, allowed o s = true -> exists s' es', wstep o s = Some (s', es').
Proof.
  intros [HI _]%wruns_inv. split.
  - intros b bk Hbk. destruct (wi_bucket _ HI b bk Hbk). done.
  - intros o Ha. destruct (wstep_fine s o HI Ha) as (s' & es' & ? & _). eauto.
Qed.

Lemma WaitQueue_safe_witness :
  allowed (WTurn 7 (Signaled 0) 2) one_wait_state = true /\
  exists s' es', wstep (WTurn 7 (Signaled 0) 2) one_wait_state = Some (s', es').
Proof.
  split; [vm_compute; reflexivity|].
  apply (proj2 (WaitQueue_safe one_wait_events one_wait_state one_wait_runs)). vm_compute. reflexivity.
Defined.

(** C39. At most one callback for each time a wait is armed: up to any moment the
    callbacks of a wait object, for a signal or a timeout, are not more than the
    calls of TpSetWaitEx that gave it a handle. *)
Theorem WaitQueue_at_most_once es s w : wruns es s -> fired w es <= armed w es.
Proof. intros [_ H]%wruns_inv. specialize (H w). destruct (ticket s w); simpl in *; lia. Qed.

Lemma WaitQueue_at_most_once_witness :
  armed 0 one_wait_events = 1 /\ fired 0 one_wait_events <= armed 0 one_wait_events.
Proof. split; [vm_compute; reflexivity|]. eapply WaitQueue_at_most_once, one_wait_runs. Defined.

(** ** A defect *)

(** TpSetWaitEx never stores the handle, so a call with a null handle takes the
    object for unchanged and keeps update_serial: a signal that the thread sees
    after the wait was cancelled still runs the callback. *)
Theorem TpSetWaitEx_cancelled_fires :
  exists s1 s2, wstep (WSet 0 0 None 1 0) one_wait_state = Some (s1, []) /\
    (wait_pending ∘ wdata <$> waits s1 !! 0%nat) = Some false /\
    wstep (WTurn 7 (Signaled 0) 2) s1 = Some (s2, [ESignaled 0]).
Proof. eexists _, _. split; [vm_compute; reflexivity|]. split; vm_compute; reflexivity. Qed.
End WaitQueueSpec.
